(* ===== verification/_CoqProject ===== *)
-Q . S2P
Prelude.v
ParseInt.v
ParseProps.v
Fault.v
FaultProps.v
Verbs.v
Bitmap.v
RdmaBackend.v
Loopback.v
RdmaRm.v
TcpRes.v
RdmaLaws.v
RdmaRmSpec.v
RdmaRmProps.v
ByteOrder.v
Dma.v
NetHeaders.v
DpTypes.v
Stats.v
DpWire.v
DpBuf.v
DpMr.v
DpXfer.v
DpCq.v
DpRecv.v
DpPending.v
DpInv.v
DpSend.v
DpMesh.v
DpReg.v
DpTop.v
DpHist.v
DpPeer.v
DpQp.v
DpData.v
DpDriver.v
DpReset.v
DpSq.v
DpNames.v
Irq.v
AdmTypes.v
AdmStats.v
AdmCmd.v
AdmPoll.v
RdmaDevcmd.v
AdmMaps.v
AdmInv.v
AdmSpec.v
AdmDispatch.v
AdmLoop.v
AdmRelease.v
AdmReach.v
Device.v
DevProps.v
P4Value.v
P4Prog.v
P4Table.v
P4TableProps.v
P4Exec.v
P4Ex.v
P4Store.v
P4Sem.v
P4ExecProps.v
P4Frame.v
P4Engine.v
P4EngineProps.v
P4Devcmd.v
P4DevcmdProps.v
P4Fp8.v
P4Fp8Props.v
P4Fmt.v
P4FmtProps.v
DpP4.v
P4Json.v
P4JsonGraph.v
P4JsonOk.v
P4JsonPipe.v
P4JsonLoad.v
P4JsonDoc.v
P4JsonRound.v
