(* ===== verification/Prelude.v ===== *)
(** * rocm-ernic: a verification development

    rocm-ernic is a userspace RDMA NIC.  A vfio-user server presents an ionic
    device to a guest; the guest's driver sets it up with device commands,
    creates queues and memory regions through an admin queue, rings doorbells
    and reads completions; several instances exchange RDMA traffic over a TCP
    mesh; and a P4 program the guest loads can police, or compute in place of,
    what it sends.  This library models that device from the admin queue down
    to guest memory, and the P4 engine from the text of a program up to the
    device commands that load it, and proves what makes them correct.

    The program is C over a few shared objects.  The model is a shallow
    embedding: an object is a record, a C function that mutates it is a value
    of the state monad [ST], and where the function can stop early or fail the
    result says so.  Machine integers are [Z] with the wrap of the C type
    written out, byte buffers are lists of [Z], and tables are finite maps
    whose absent entries are the zeroed struct.  Definitions keep the names of
    the C functions; one that is long is several definitions composed in its
    order (process_sq_wqe() is [process_sq_wqe], [sq_wqe], [sq_local_op],
    [wqe_src], [sq_remote] and [sq_local]).

    ** The parts and the files

    Shared: [Prelude] (machine integers, byte buffers, record update, the
    state monad, the [keeps]/[preserves] relations and the tactics that walk a
    function), [ByteOrder] (byteorder.h), [ParseInt] and [ParseProps]
    (parse_int.h), [NetHeaders] (the GRH, the Internet checksum, ernic_gid.h).

    Guest memory: [Dma] is ernic_dma.c and dma_range.h over the scatter lists
    of libvfio-user, which is the parameter [Vfu] with [VfuLaws].  It
    implements [GuestMem]/[GuestMemLaws], the interface everything above is
    proved against.

    The data path, ionic_datapath.c:
    - [DpTypes]: its constants, structs and state [ionic_datapath]; its
      environment [Env] (guest memory, the mesh, interrupts, the clock, malloc)
      with the instance [ex_env]; and frames, [frame F] for "only the parts [F]
      changed".  [Stats] is ernic_stats.c, [DpWire] the mesh message header.
    - [DpBuf], [DpMr], [DpXfer]: page tables, memory regions and keys, copies.
    - [DpCq], [DpRecv], [DpPending], [DpSend], [DpMesh], [DpReg]: completions;
      scatter/gather lists, receives and atomics; outstanding requests; every
      send work request; inbound messages and the poll; registration,
      doorbells and reset.  The in-process targets (NVMe-oF, S3, P4) are the
      class [Targets] with [TargetsLaws].
    - [DpInv], [DpTop], [DpHist]: the invariants, the step relation
      [reachable] over every entry point, and a concrete history.
    - [DpPeer], [DpQp], [DpData], [DpDriver], [DpReset], [DpSq], [DpNames]:
      the theorems on peers, on the life of a queue pair, on data movement, on
      what the driver sees, on reset, on progress and on which objects exist.
    - [DpP4]: ionic_datapath_p4.c, the policy in front of every send request
      and the extern that computes on guest memory: [p4_targets] adds it to any
      device and [p4_targets_laws] discharges the interface.

    The resource manager, pvrdma/rdma_rm.c: [Verbs], [Bitmap], [RdmaBackend]
    (the vtable and the none backend), [Loopback], [TcpRes] (the TCP backend's
    resource operations), [RdmaRm], with [RdmaLaws] (what a backend promises),
    [RdmaRmSpec] and [RdmaRmProps].

    The admin queue, ionic_adminq.c: [AdmTypes], [AdmStats], [AdmCmd],
    [AdmPoll], with [AdmMaps], [AdmInv], [AdmSpec], [AdmDispatch], [AdmLoop],
    [AdmRelease] and [AdmReach].  [RdmaDevcmd] is ionic_rdma_devcmd.c, [Irq]
    the interrupt vectors of ionic_eth_emu.c, [Device] the composition of all
    of these as the server's loop drives them, [DevProps] its theorems.
    [Fault] and [FaultProps] are ionic_fault.c.

    The P4 engine, src/src/p4/:
    - [P4Value], [P4Prog], [P4Table], [P4Exec], [P4Engine]: values, a loaded
      program, the entry stores, the executor, the engine, one file per C file.
      [P4Sem] is what a program means, with no bytes, offsets or bounds;
      [P4TableProps], [P4Store], [P4ExecProps], [P4Frame], [P4EngineProps] are
      the proofs, [P4Ex] a small program.
    - [P4Json] is the loader over the tree json-c builds, which is the
      parameter [Tokener]; [P4JsonGraph], [P4JsonOk], [P4JsonPipe],
      [P4JsonLoad], [P4JsonDoc], [P4JsonRound] are its proofs.  [json_loader]
      discharges the interface [Loader] the engine is written against.
    - [P4Devcmd], [P4DevcmdProps]: p4_devcmd.c, and ernic_log_limit().
    - [P4Fp8], [P4Fp8Props], [P4Fmt], [P4FmtProps]: p4_fp8.c and p4_fmt.c, on
      the bit patterns of floats.

    ** What the theorems show

    - The device: in every reachable state the driver's names, the resource
      manager's handles and the data path's queues correspond one to one
      ([device_invariant]); admin commands refine operations on sets of names,
      the manager's operations refine sets of live handles, over a backend that
      keeps [BackendLaws]; a reset releases everything; a poll takes all that
      was posted.
    - The data path: every reachable state has well-formed tables and rings,
      an exact count of stalled queues, replies within budget and a bounded
      inbound queue ([reachable_invariant]).  What a peer or the P4 extern can
      change is confined to memory registered under a non-zero key.  READ,
      WRITE, SEND and atomics move the right bytes in order and nothing else,
      against per-byte references ([buf_byte], [key_byte], [addr_at],
      [sgl_addr]), and fall short only where a byte has no address or guest
      memory refuses it ([write_stops], [read_stops]).  The completion ring
      refines a list.  Send queues stop only when empty, stalled or faulted; a
      response completes at most one request; inbound messages are applied in
      the order they came ([ran]).
    - P4: running a program refines its meaning, over frames and over RDMA
      operations; updates refine insert, modify and delete on rows, lookups
      return the best match; what the loader accepts is well formed and
      acyclic, and every program it can accept has a document it loads.
      Device commands stay within the operator's grant and the buffers they
      name, and QUERY lists what RPC enforces.  Every number format rounds to
      nearest even and overflows as its published definition says ([standard]);
      the weight of a text is that of its pieces; an FP8 map or a conversion over guest
      memory gives the elementwise result of its operands as they were, and a
      request left to the ordinary dispatch has changed nothing.
    - Round trips of faults, documents, update records and packed arrays;
      interrupts are never lost; a search for a free number ends.
    - Two theorems state defects: an inbound atomic with key 0 and length 0
      reaches unregistered memory ([unkeyed_atomic_reaches_guest_memory]), and
      a reused qp_id keeps its Q_Key ([reused_qp_inherits_qkey]).

    ** Bounds and fuel

    Loops over a queue or a list are structural.  Where a loop has fuel, it is
    either the bound the C loop has or shown never to run out:
    - [dma_xfer_loop], the loops of [DpXfer], [cq_write_loop], [fp8_map_loop]
      and [fmt_convert_loop] take the bytes or elements left, since each round
      moves at least one; [lockstep_copy] takes the number of entries.
    - [sq_service_loop] takes the ring's depth and [aq_loop] one more than what
      is pending; neither is what stops the loop.  [read_tail_loop] takes the
      strides left.
    - [next_free_qpn] takes [qpn_fuel], one round more than the numbers it can
      skip; [dfs_loop] takes [dfs_fuel], one for each edge and node, and would
      answer [OUT_OF_FUEL], which is no error code and is shown not to occur.
    - [parse_loop] and [node_loop] have the bounds of the C code, which return
      ELOOP; an accepted pipeline is acyclic and never reaches it.
      [eval_depth] and [expr_levels] come from P4_MAX_EXPR_DEPTH; [msb_loop]
      takes the 32 bits of the number.

    ** What is assumed

    The host is little-endian.  Each access under a lock is one atomic step;
    messages that arrive during a poll are its argument.  float is IEEE 754
    binary32, rounded to nearest even.  libvfio-user, the mesh, the interrupt
    trigger, json-c, malloc, the clock, the order of a glib hash table and the
    NVMe-oF and S3 targets are parameters; [flat_vfu], [ex_env], [no_targets]
    and the examples of each file are instances that satisfy their laws.  The
    program loaded is fixed while a device of [p4_targets] runs.

    ** Not modelled

    The Ethernet side beyond its interrupt vectors (ionic_eth_emu.c,
    ionic_eth_net.c, ionic_eth_steer.c, ionic_eth_p4.c, ionic_emu_stats.c) and
    the device profiles: they share only those vectors with the RDMA side.  The
    NVMe-oF and S3 targets: the data path sees them through [Targets].  The
    sockets, threads and framing of the TCP mesh: concurrency and I/O behind
    the mesh operations of [Env].  ernic_siphash.c, whose users are among
    these.  The server process, log formatting and the guest's driver are I/O
    or code of another system.  Log lines are left out, except where a limit
    on them is the subject. *)
From Stdlib Require Export ZArith Lia.
From stdpp Require Export base gmap list numbers option tactics relations.

#[global] Open Scope Z_scope.
#[export] Set Warnings "-clear-no-such-hyp".

(** ** Machine integers

    A C unsigned integer of [w] bits is a [Z]; every operation of the source
    that can leave the range is followed by the wrap the C type performs. *)

Definition wrap (w x : Z) : Z := x mod 2 ^ w.

Abbreviation u8 := (wrap 8).
Abbreviation u16 := (wrap 16).
Abbreviation u32 := (wrap 32).
Abbreviation u64 := (wrap 64).

Definition UINT32_MAX : Z := 4294967295.
Definition UINT64_MAX : Z := 18446744073709551615.

(** The errno values the code returns, negated. *)
Definition EPERM : Z := 1.
Definition ENOENT : Z := 2.
Definition EIO : Z := 5.
Definition EAGAIN : Z := 11.
Definition ENOMEM : Z := 12.
Definition EEXIST : Z := 17.
Definition EINVAL : Z := 22.
Definition ENOSPC : Z := 28.
Definition ENOSYS : Z := 38.
Definition ELOOP : Z := 40.
Definition EBADMSG : Z := 74.
Definition EOVERFLOW : Z := 75.
Definition EMSGSIZE : Z := 90.
Definition ENOTSUP : Z := 95.

(** [fits w x]: [x] is a value of a [w]-bit unsigned type. *)
Definition fits (w x : Z) : Prop := 0 <= x < 2 ^ w.

#[export] Instance fits_dec w x : Decision (fits w x).
Proof. unfold fits. apply _. Defined.

(** ** Byte buffers

    A C byte buffer is a list of [Z]; [bslice b off n] is the [n] bytes from
    offset [off], [bput b off src] is [memcpy(b + off, src, |src|)]. *)

Definition byte_ok (x : Z) : Prop := fits 8 x.
Definition bytes_ok (b : list Z) : Prop := Forall byte_ok b.

Definition bslice (b : list Z) (off n : nat) : list Z := take n (drop off b).
Definition bput (b : list Z) (off : nat) (src : list Z) : list Z :=
  list_inserts off src b.
Definition zeros (n : nat) : list Z := replicate n 0.

(** ** Record update: [r <| field := v |>] and [r <| field ::= f |>].

    A record opts in with an [Eta] instance (its eta-expansion, written with
    the record's own projections); the setter of each field is then found by
    abstracting that projection out of the expansion. *)

Class Eta (R : Type) := eta : R -> R.

Class Setter {R T : Type} (proj : R -> T) := upd : (T -> T) -> R -> R.
Arguments upd {R T} proj {_} f r /.

Ltac find_setter :=
  lazymatch goal with
  | |- @Setter ?R ?T ?proj =>
      let inst := constr:(_ : Eta R) in
      let e := eval hnf in inst in
      match eval pattern proj in e with
      | ?abs _ => exact (fun g : T -> T => abs (fun r : R => g (proj r)))
      end
  end.
#[export] Hint Extern 1 (@Setter _ _ _) => find_setter : typeclass_instances.

Declare Scope ernic_scope.
Delimit Scope ernic_scope with ernic.
#[global] Open Scope ernic_scope.

Notation "r <| f := v |>" := (upd f (fun _ => v) r)
  (at level 1, left associativity, f at next level, v at level 200) : ernic_scope.
Notation "r <| f ::= g |>" := (upd f g r)
  (at level 1, left associativity, f at next level, g at level 200) : ernic_scope.

(** ** The state monad of code that mutates one shared object

    [ST S A] is a C function that may read and write the object [S] and
    returns an [A]. *)

Definition ST (S A : Type) : Type := S -> A * S.

Section state_monad.
Context {S : Type}.

#[global] Instance st_ret : MRet (ST S) := fun A a s => (a, s).
#[global] Instance st_bind : MBind (ST S) := fun A B k m s =>
  let '(a, s') := m s in k a s'.

Definition gets {A} (f : S -> A) : ST S A := fun s => (f s, s).
Definition modify (f : S -> S) : ST S unit := fun s => (tt, f s).
Definition exec {A} (m : ST S A) (s : S) : S := (m s).2.
Definition result {A} (m : ST S A) (s : S) : A := (m s).1.

(** [for x in l: body x], the bodies in order. *)
Fixpoint for_each {X} (l : list X) (body : X -> ST S unit) : ST S unit :=
  match l with
  | [] => mret tt
  | x :: l' => body x ;; for_each l' body
  end.

(** [keeps R m]: running [m] moves the state along [R].  With [R] an
    implication between invariants this is invariant preservation, with [R]
    an equality of projections it is a frame condition. *)
Definition keeps {A} (R : S -> S -> Prop) (m : ST S A) : Prop :=
  forall s, R s (m s).2.

(** [yields R m]: as [keeps], with the value returned in view. *)
Definition yields {A} (R : S -> A -> S -> Prop) (m : ST S A) : Prop :=
  forall s, R s (m s).1 (m s).2.
End state_monad.

Create HintDb keeps.
Create HintDb bytes.

(** Running a monadic body, one step at a time. *)
Section running.
Context {S : Type}.

Lemma run_bind {A B} (m : ST S A) (k : A -> ST S B) s : (m ≫= k) s = k (m s).1 (m s).2.
Proof. unfold mbind, st_bind. by destruct (m s). Qed.
Lemma run_ret {A} (a : A) (s : S) : (mret a : ST S A) s = (a, s).
Proof. done. Qed.
Lemma run_gets {A} (f : S -> A) s : gets f s = (f s, s).
Proof. done. Qed.
Lemma run_modify (f : S -> S) s : modify f s = (tt, f s).
Proof. done. Qed.
End running.

Ltac run := rewrite ?run_bind, ?run_gets, ?run_modify, ?run_ret; cbn [fst snd].

(** [same f s s']: the part [f] of the state is the same before and after. *)
Definition same {S X : Type} (f : S -> X) (s s' : S) : Prop := f s' = f s.
#[export] Instance same_preorder {S X} (f : S -> X) : PreOrder (same f).
Proof. unfold same. split; [by intros a|]. intros a b c. congruence. Qed.

(** [preserves I s s']: the invariant [I] survives. *)
Definition preserves {S : Type} (I : S -> Prop) (s s' : S) : Prop := I s -> I s'.
#[export] Instance preserves_preorder {S} (I : S -> Prop) : PreOrder (preserves I).
Proof. unfold preserves. split; [by intros a|]. intros a b c. tauto. Qed.

Section keeps_lemmas.
Context {S : Type} (R : S -> S -> Prop) `{!PreOrder R}.

Lemma keeps_ret {A} (a : A) : keeps R (mret a : ST S A).
Proof. intros s. reflexivity. Qed.

Lemma keeps_bind {A B} (m : ST S A) (k : A -> ST S B) :
  keeps R m -> (forall a, keeps R (k a)) -> keeps R (m ≫= k).
Proof.
  intros Hm Hk s. unfold mbind, st_bind.
  specialize (Hm s). destruct (m s) as [a s'].
  etrans; [exact Hm | apply Hk].
Qed.

(** In the continuation of a [gets] the value read is the state's own. *)
Lemma keeps_gets_bind {A B} (f : S -> A) (k : A -> ST S B) :
  (forall s, R s (k (f s) s).2) -> keeps R (gets f ≫= k).
Proof. intros Hk s. apply Hk. Qed.

Lemma keeps_gets {A} (f : S -> A) : keeps R (gets f).
Proof. intros s. reflexivity. Qed.

Lemma keeps_modify (f : S -> S) : (forall s, R s (f s)) -> keeps R (modify f).
Proof. intros Hf s. apply Hf. Qed.

Lemma keeps_for_each {X} (l : list X) (body : X -> ST S unit) :
  (forall x, x ∈ l -> keeps R (body x)) -> keeps R (for_each l body).
Proof.
  induction l as [|x l IH]; intros H; cbn [for_each].
  - apply keeps_ret.
  - apply keeps_bind; [apply H; left|]. intros _. apply IH.
    intros y Hy. apply H. by right.
Qed.

(** A loop establishes what each of its bodies does, if the others keep it. *)
Lemma for_each_all {X} (P : X -> S -> Prop) (l : list X) (body : X -> ST S unit) s x :
  (forall y, keeps R (body y)) -> (forall y s, P y (body y s).2) ->
  (forall y s s', R s s' -> P y s -> P y s') -> x ∈ l -> P x (for_each l body s).2.
Proof.
  intros HR HP Hst. revert s. induction l as [|y l IH]; intros s Hx; [by apply not_elem_of_nil in Hx|].
  cbn [for_each]. rewrite run_bind. apply elem_of_cons in Hx as [->|Hx]; [|by apply IH].
  eapply Hst; [|apply HP]. by apply keeps_for_each.
Qed.
End keeps_lemmas.

#[export] Hint Resolve keeps_ret keeps_gets : keeps.

(** Walks a monadic body: one [keeps] obligation per primitive step, closed
    by the [keeps] hints. *)
Ltac keeps_step :=
  lazymatch goal with
  | |- keeps _ (let '(_, _) := ?p in _) => destruct p
  | |- keeps _ (if ?b then _ else _) => destruct b eqn:?
  | |- keeps _ (match ?x with _ => _ end) => destruct x eqn:?
  | |- keeps _ (_ ≫= _) => eapply (keeps_bind _); [| intros ?]
  | |- keeps _ (mret _) => eapply (keeps_ret _)
  | |- keeps _ (gets _) => eapply (keeps_gets _)
  | |- keeps _ (for_each _ _) => eapply (keeps_for_each _); intros ? ?
  | |- forall _, _ => intros ?
  end.
Ltac keeps_auto :=
  repeat first [ solve [eauto 3 with keeps] | keeps_step ].

(** ** Arithmetic helpers *)

Definition sumZ (l : list Z) : Z := foldr Z.add 0 l.

Lemma sumZ_nonneg l : Forall (fun x => 0 <= x) l -> 0 <= sumZ l.
Proof. induction 1; cbn; unfold sumZ in *; lia. Qed.

Lemma sumZ_app l k : sumZ (l ++ k) = sumZ l + sumZ k.
Proof. unfold sumZ. induction l as [|x l IH]; cbn; lia. Qed.

Lemma wrap_fits w x : 0 <= w -> fits w (wrap w x).
Proof. intros. unfold fits, wrap. apply Z.mod_pos_bound. lia. Qed.

Lemma wrap_id w x : fits w x -> wrap w x = x.
Proof. unfold fits, wrap. intros. by apply Z.mod_small. Qed.

Lemma wrap_wrap w x : 0 <= w -> wrap w (wrap w x) = wrap w x.
Proof. intros. apply wrap_id, wrap_fits. lia. Qed.

Lemma lor_shl_add (n a b : Z) :
  0 <= n -> 0 <= a < 2 ^ n -> Z.lor a (Z.shiftl b n) = a + b * 2 ^ n.
Proof.
  intros Hn Ha. rewrite <-(Z.shiftl_mul_pow2 b n) by lia.
  assert (Z.land a (Z.shiftl b n) = 0) as Hdis.
  { apply Z.bits_inj'. intros i Hi. rewrite Z.land_spec, Z.bits_0.
    destruct (decide (i < n)).
    - rewrite Z.shiftl_spec_low by lia. apply andb_false_r.
    - replace a with (a mod 2 ^ n) by (apply Z.mod_small; lia).
      by rewrite Z.mod_pow2_bits_high by lia. }
  rewrite Z.add_nocarry_lxor by done. symmetry. by apply Z.lxor_lor.
Qed.

Lemma land_mask (n a : Z) : 0 <= n -> Z.land a (2 ^ n - 1) = a mod 2 ^ n.
Proof. intros. rewrite <-Z.land_ones by lia. by rewrite Z.ones_equiv. Qed.

Lemma seqZ_length_nat m n : length (seqZ m (Z.of_nat n)) = n.
Proof. rewrite length_seqZ. lia. Qed.

(** Case analysis on the boolean tests of the source, as propositions. *)
Ltac bdestr :=
  repeat match goal with
  | H : (_ && _)%bool = true |- _ => apply andb_true_iff in H; destruct H
  | H : (_ || _)%bool = false |- _ => apply orb_false_iff in H; destruct H
  | H : negb _ = true |- _ => apply negb_true_iff in H
  | H : negb _ = false |- _ => apply negb_false_iff in H
  | H : (_ <? _) = true |- _ => apply Z.ltb_lt in H
  | H : (_ <? _) = false |- _ => apply Z.ltb_ge in H
  | H : (_ <=? _) = true |- _ => apply Z.leb_le in H
  | H : (_ <=? _) = false |- _ => apply Z.leb_gt in H
  | H : (_ =? _) = true |- _ => apply Z.eqb_eq in H
  | H : (_ =? _) = false |- _ => apply Z.eqb_neq in H
  | H : bool_decide _ = true |- _ => apply bool_decide_eq_true in H
  | H : bool_decide _ = false |- _ => apply bool_decide_eq_false in H
  end.

Ltac split_ifs :=
  repeat match goal with
  | |- context [if ?b then _ else _] => destruct b eqn:?
  end.

Lemma existsb_none {A} (f : A -> bool) l : Forall (fun x => f x = false) l -> existsb f l = false.
Proof. induction 1 as [|x l Hx _ IH]; [done|]. cbn. by rewrite Hx. Qed.
