(* ===== verification/ParseInt.v ===== *)
(** * Number parsing: parse_int.h

    The strict parsers of the command line, the profiles, HTTP ranges, S3
    tokens and bmv2 programs, on C strings as byte lists without their
    terminator, and [strtol]/[strtoull] as far as the parsers use them.  The
    section [specs] characterises each parser by the strings it accepts and
    the value it gives, independently of how it computes it. *)
From S2P Require Export Prelude.
From stdpp Require Import strings.
#[local] Open Scope Z_scope.

(** ** C strings

    [None] is the NULL pointer.  [ch s] is [*s], which is 0 at the end. *)
Abbreviation cstr := (list Z).
Abbreviation cptr := (option (list Z)).

Definition ch (s : cstr) : Z := match s with [] => 0 | c :: _ => c end.
Definition next (s : cstr) : cstr := match s with [] => [] | _ :: s' => s' end.
Definition at_ (s : cstr) (i : nat) : Z := ch (drop i s).

Fixpoint chars (w : string) : cstr :=
  match w with
  | EmptyString => []
  | String a w' => Z.of_N (Ascii.N_of_ascii a) :: chars w'
  end.

(** A C string holds no NUL. *)
Definition cstr_ok (s : cstr) : Prop := Forall (fun c => 1 <= c < 256) s.

Definition c_0 : Z := 48.
Definition c_9 : Z := 57.
Definition is_digit (c : Z) : bool := (c_0 <=? c) && (c <=? c_9).

Definition INT_MIN : Z := - 2 ^ 31.
Definition INT_MAX : Z := 2 ^ 31 - 1.
Definition LONG_MIN : Z := - 2 ^ 63.
Definition LONG_MAX : Z := 2 ^ 63 - 1.
Definition SIZE_MAX : Z := 2 ^ 64 - 1.

(** ** strtol() and strtoull() with base 10

    The result is the value, whether errno was set, and [*end]. *)
Definition isspace (c : Z) : bool := (c =? 32) || ((9 <=? c) && (c <=? 13)).

Fixpoint skip_space (s : cstr) : cstr :=
  match s with c :: s' => if isspace c then skip_space s' else s | [] => [] end.

Fixpoint take_digits (s : cstr) : cstr :=
  match s with c :: s' => if is_digit c then c :: take_digits s' else [] | [] => [] end.

Definition dec_value (ds : cstr) : Z := foldl (fun v c => 10 * v + (c - c_0)) 0 ds.

Definition strto_sign (s : cstr) : bool * cstr :=
  if ch s =? 45 then (true, next s) else if ch s =? 43 then (false, next s) else (false, s).

Definition strtol (s : cstr) : Z * bool * cstr :=
  let '(neg, p) := strto_sign (skip_space s) in
  let ds := take_digits p in
  if bool_decide (ds = []) then (0, false, s)
  else
    let v := if neg then - dec_value ds else dec_value ds in
    let rest := drop (length ds) p in
    if v <? LONG_MIN then (LONG_MIN, true, rest)
    else if LONG_MAX <? v then (LONG_MAX, true, rest)
    else (v, false, rest).

Definition strtoull (s : cstr) : Z * bool * cstr :=
  let '(neg, p) := strto_sign (skip_space s) in
  let ds := take_digits p in
  if bool_decide (ds = []) then (0, false, s)
  else
    let v := dec_value ds in
    let rest := drop (length ds) p in
    if UINT64_MAX <? v then (UINT64_MAX, true, rest)
    else ((if neg then u64 (- v) else v), false, rest).

(** ** Decimal *)
Definition ernic_parse_int (p : cptr) : option Z :=
  s ← p;
  let digits := if ch s =? 45 then next s else s in
  if negb (is_digit (ch digits)) then None
  else
    let '(v, err, fin) := strtol s in
    if err || bool_decide (fin = s) || negb (ch fin =? 0) then None
    else if (v <? INT_MIN) || (INT_MAX <? v) then None
    else Some v.

Definition ernic_parse_u32 (p : cptr) : option Z :=
  s ← p;
  if negb (is_digit (ch s)) then None
  else
    let '(v, err, fin) := strtoull s in
    if err || negb (ch fin =? 0) || (UINT32_MAX <? v) then None else Some v.

Fixpoint u64_span_loop (s : cstr) (len : nat) (v : Z) : option Z :=
  match len with
  | O => Some v
  | S n =>
      let d := u32 (ch s - c_0) in
      if 10 <=? d then None
      else if (UINT64_MAX - d) / 10 <? v then None
      else u64_span_loop (next s) n (u64 (v * 10 + d))
  end.

Definition ernic_parse_u64_span (p : cptr) (len : nat) : option Z :=
  s ← p;
  if bool_decide (len = 0%nat) then None else u64_span_loop s len 0.

Definition ernic_parse_u64 (p : cptr) : option Z :=
  s ← p;
  ernic_parse_u64_span (Some s) (length s).

(** strspn(s, "0123456789") is [length (take_digits s)]. *)
Definition size_shift (c : Z) : Z :=
  if (c =? 107) || (c =? 75) then 10
  else if (c =? 109) || (c =? 77) then 2 * 10
  else if (c =? 103) || (c =? 71) then 3 * 10
  else if (c =? 116) || (c =? 84) then 4 * 10
  else 0.

Definition ernic_parse_size (p : cptr) : option Z :=
  s ← p;
  let ndigits := length (take_digits s) in
  v ← ernic_parse_u64_span (Some s) ndigits;
  let p := drop ndigits s in
  let shift := size_shift (ch p) in
  let p :=
    if shift =? 0 then p
    else
      let p := next p in
      let p := if (ch p =? 105) || (ch p =? 73) then next p else p in
      if (ch p =? 98) || (ch p =? 66) then next p else p in
  if negb (ch p =? 0) then None
  else if Z.shiftr UINT64_MAX shift <? v then None
  else Some (u64 (Z.shiftl v shift)).

Definition ernic_parse_port (p : cptr) : option Z :=
  v ← ernic_parse_int p;
  if (v <? 1) || (65535 <? v) then None else Some v.

(** ** Hexadecimal and octal *)
Definition ernic_hex_digit (u : Z) : Z :=
  if (48 <=? u) && (u <=? 57) then u - 48
  else if (97 <=? u) && (u <=? 102) then u - 97 + 10
  else if (65 <=? u) && (u <=? 70) then u - 65 + 10
  else - 1.

(** The loop of the two hexadecimal parsers, on a [w]-bit value. *)
Fixpoint hex_loop (w : Z) (s : cstr) (len : nat) (v : Z) : option Z :=
  match len with
  | O => Some v
  | S n =>
      let d := ernic_hex_digit (ch s) in
      if d <? 0 then None else hex_loop w (next s) n (Z.lor (wrap w (Z.shiftl v 4)) d)
  end.

Definition ernic_parse_hex_u32 (p : cptr) : option Z :=
  s ← p;
  let len := length s in
  if bool_decide (len = 0%nat) || bool_decide (8 < len)%nat then None else hex_loop 32 s len 0.

Definition ernic_parse_hex_u64_span (p : cptr) (len : nat) : option Z :=
  s ← p;
  if bool_decide (len = 0%nat) || bool_decide (16 < len)%nat then None else hex_loop 64 s len 0.

Fixpoint oct_loop (s : cstr) (v : Z) : option Z :=
  match s with
  | [] => Some v
  | c :: s' =>
      let d := u32 (c - c_0) in
      if (8 <=? d) || (Z.shiftr UINT32_MAX 3 <? v) then None
      else oct_loop s' (Z.lor (u32 (Z.shiftl v 3)) d)
  end.

Definition ernic_parse_oct_u32 (p : cptr) : option Z :=
  s ← p;
  if ch s =? 0 then None else oct_loop s 0.

Definition ernic_parse_hex (p : cptr) (n : nat) : option (list Z) :=
  s ← p;
  if bool_decide (n = 0%nat) || (SIZE_MAX / 2 <? Z.of_nat n) then None
  else if negb (forallb (fun i => 0 <=? ernic_hex_digit (at_ s i)) (seq 0 (2 * n))) then None
  else Some (map (fun i =>
    let hi := ernic_hex_digit (at_ s (2 * i)) in
    let lo := ernic_hex_digit (at_ s (2 * i + 1)) in
    u8 (Z.lor (Z.shiftl hi 4) lo)) (seq 0 n)).

Definition ernic_hexstr_fits (digits out_cap : Z) : bool :=
  digits / 2 + digits mod 2 <=? out_cap.

(** One digit of [ernic_parse_hexstr]'s last loop: [i] counts from the left. *)
Definition hexstr_put (p : cstr) (digits out_cap : nat) (out : list Z) (i : nat) : list Z :=
  let from_right := (digits - 1 - i)%nat in
  let byte := (out_cap - 1 - from_right / 2)%nat in
  let d := ernic_hex_digit (at_ p i) in
  alter (fun b => u8 (Z.lor b (Z.shiftl d (Z.of_nat (from_right mod 2) * 4)))) byte out.

(** The bytes, how many of them the digits needed, and the sign. *)
Definition ernic_parse_hexstr (ptr : cptr) (out_cap : nat) : option (list Z * Z * bool) :=
  s ← ptr;
  if bool_decide (out_cap = 0%nat) then None
  else
    let neg := ch s =? 45 in
    let p := if neg then next s else s in
    if negb (ch p =? 48) || negb (at_ p 1 =? 120) then None
    else
      let p := drop 2 p in
      let digits := length p in
      if bool_decide (digits = 0%nat) then None
      else
        let nbytes := Z.of_nat digits / 2 + Z.of_nat digits mod 2 in
        if negb (ernic_hexstr_fits (Z.of_nat digits) (Z.of_nat out_cap)) then None
        else if negb (forallb (fun i => 0 <=? ernic_hex_digit (at_ p i)) (seq 0 digits)) then None
        else Some (foldl (hexstr_put p digits out_cap) (zeros out_cap) (seq 0 digits), nbytes, neg).

(** ** MAC addresses *)
Definition ERNIC_PARSE_MAC_LEN : nat := 6.

Fixpoint mac_loop (s : cstr) (i n : nat) (mac : list Z) : option (list Z) :=
  match n with
  | O => Some mac
  | S n' =>
      let pair := drop (3 * i) s in
      b ← ernic_parse_hex (Some pair) 1;
      if negb (at_ pair 2 =? (if bool_decide (i + 1 < ERNIC_PARSE_MAC_LEN)%nat then 58 else 0)) then None
      else mac_loop s (i + 1) n' (mac ++ b)
  end.

Definition ernic_parse_mac (p : cptr) : option (list Z) :=
  s ← p;
  mac_loop s 0 ERNIC_PARSE_MAC_LEN [].

(** net_headers.h: eth_addr_str(), without the terminator. *)
Definition hex_char (d : Z) : Z := at_ (chars "0123456789abcdef") (Z.to_nat d).
Definition eth_addr_str (mac : list Z) : cstr :=
  concat (imap (fun i b =>
    [hex_char (Z.shiftr b 4); hex_char (Z.land b 0xf)] ++
    (if bool_decide (i + 1 < 6)%nat then [58] else [])) mac).

(** ** Specifications *)
Section specs.

Definition digits (s : cstr) : Prop := Forall (fun c => is_digit c = true) s.
Definition dec_from (v : Z) (ds : cstr) : Z := foldl (fun v c => 10 * v + (c - c_0)) v ds.

#[local] Instance digits_dec s : Decision (digits s).
Proof. unfold digits. apply _. Defined.

Lemma is_digit_iff c : is_digit c = true <-> 48 <= c <= 57.
Proof. unfold is_digit, c_0, c_9. rewrite andb_true_iff, !Z.leb_le. lia. Qed.

Lemma dec_from_ge v ds : 0 <= v -> digits ds -> v <= dec_from v ds.
Proof.
  intros Hv Hd. revert v Hv. induction Hd as [|c ds Hc _ IH]; intros v Hv; cbn; [lia|].
  apply is_digit_iff in Hc. specialize (IH (10 * v + (c - c_0))). unfold dec_from, c_0 in *. lia.
Qed.

Lemma take_digits_spec s :
  digits (take_digits s) /\ take (length (take_digits s)) s = take_digits s /\
  (drop (length (take_digits s)) s = [] \/ is_digit (ch (drop (length (take_digits s)) s)) = false).
Proof.
  induction s as [|c s (Hd & Ht & Hr)]; [split_and!; [constructor|done|by left]|]. cbn.
  destruct (is_digit c) eqn:Hc; cbn; [|split_and!; [constructor|done|by right]].
  split; [by constructor|]. split; [by rewrite Ht|done].
Qed.

Lemma take_digits_all s : digits s -> take_digits s = s.
Proof. induction 1 as [|c s Hc _ IH]; [done|]. cbn. by rewrite Hc, IH. Qed.

Lemma ch_zero s : cstr_ok s -> ch s = 0 -> s = [].
Proof. intros Hs. destruct Hs as [|c s Hc _]; [done|]. cbn. lia. Qed.

Lemma digits_not_space s : is_digit (ch s) = true -> skip_space s = s.
Proof.
  destruct s as [|c s]; [done|]. cbn. intros Hc. apply is_digit_iff in Hc.
  unfold isspace. by rewrite (proj2 (Z.eqb_neq c 32)), (proj2 (Z.leb_gt c 13)), andb_false_r by lia.
Qed.

Lemma digit_no_sign s : is_digit (ch s) = true -> strto_sign s = (false, s).
Proof.
  intros Hc. apply is_digit_iff in Hc. unfold strto_sign.
  by rewrite (proj2 (Z.eqb_neq _ 45)), (proj2 (Z.eqb_neq _ 43)) by lia.
Qed.

(** The digits of a string that is nothing else. *)
Lemma whole_digits s :
  cstr_ok s -> ch (drop (length (take_digits s)) s) = 0 <-> digits s.
Proof.
  intros Hok. split.
  - intros Hz. destruct (take_digits_spec s) as (Hd & Ht & _).
    apply ch_zero in Hz; [|by apply Forall_drop].
    rewrite <-(take_drop (length (take_digits s)) s), Hz, app_nil_r, Ht. done.
  - intros Hd. by rewrite take_digits_all, drop_all.
Qed.

Lemma take_digits_nil s : take_digits s = [] <-> is_digit (ch s) = false.
Proof. destruct s as [|c s]; cbn; [done|]. destruct (is_digit c); cbn; split; done. Qed.

Lemma digits_head s : s <> [] -> digits s -> is_digit (ch s) = true.
Proof. intros Hn Hd. destruct Hd; [done|]. done. Qed.

(** strtoull() and strtol() where the parsers call them. *)
Lemma strtoull_digits s :
  cstr_ok s -> is_digit (ch s) = true ->
  strtoull s =
    let ds := take_digits s in let rest := drop (length ds) s in
    if UINT64_MAX <? dec_value ds then (UINT64_MAX, true, rest) else (dec_value ds, false, rest).
Proof.
  intros Hok Hc. unfold strtoull. rewrite digits_not_space, digit_no_sign by done.
  rewrite bool_decide_eq_false_2; [done|]. rewrite take_digits_nil. by rewrite Hc.
Qed.

Lemma parse_u32_spec s v :
  cstr_ok s ->
  ernic_parse_u32 (Some s) = Some v <-> s <> [] /\ digits s /\ v = dec_value s /\ v <= UINT32_MAX.
Proof.
  intros Hok. unfold ernic_parse_u32. cbn [mbind option_bind].
  destruct (is_digit (ch s)) eqn:Hc; cbn [negb].
  2: { split; [done|]. intros (Hn & Hd & _). by rewrite digits_head in Hc. }
  rewrite strtoull_digits by done. cbn zeta.
  pose proof (whole_digits s Hok) as Hw.
  assert (s <> []) as Hn by (intros ->; done).
  destruct (UINT64_MAX <? dec_value (take_digits s)) eqn:Hb; cbn [orb].
  - split; [done|]. intros (_ & Hd & -> & Hv). rewrite take_digits_all in Hb by done.
    apply Z.ltb_lt in Hb. unfold UINT32_MAX, UINT64_MAX in *. lia.
  - destruct (ch (drop _ s) =? 0) eqn:He; cbn [negb orb].
    + apply Z.eqb_eq, Hw in He. rewrite take_digits_all by done.
      destruct (UINT32_MAX <? dec_value s) eqn:Hv.
      * apply Z.ltb_lt in Hv. split; [done|]. intros (_ & _ & -> & ?). lia.
      * apply Z.ltb_ge in Hv. split; [intros [= <-]; done|]. by intros (_ & _ & -> & _).
    + split; [done|]. intros (_ & Hd & _). apply Hw in Hd. by rewrite Hd in He.
Qed.

Lemma digit_wraps c : 48 <= c <= 57 -> u32 (c - c_0) = c - c_0.
Proof. intros. apply wrap_id. unfold fits, c_0. lia. Qed.

Lemma not_digit_wraps c : 0 <= c < 256 -> is_digit c = false -> 10 <= u32 (c - c_0).
Proof.
  unfold is_digit, c_9, c_0, wrap. intros Hc Hd. apply andb_false_iff in Hd.
  destruct Hd as [Hd|Hd]; apply Z.leb_gt in Hd; Z.to_euclidean_division_equations; lia.
Qed.

Lemma ch_range s : cstr_ok s -> 0 <= ch s < 256.
Proof. intros Hs. destruct Hs as [|c s Hc _]; cbn; lia. Qed.

Lemma u64_span_loop_spec s len v r :
  cstr_ok s -> fits 64 v ->
  u64_span_loop s len v = Some r <->
  (len <= length s)%nat /\ digits (take len s) /\ r = dec_from v (take len s) /\ r <= UINT64_MAX.
Proof.
  intros Hok. revert s v Hok. induction len as [|len IH]; intros s v Hok Hv; cbn [u64_span_loop].
  { rewrite take_0. cbn. split; [intros [= <-]|by intros (_ & _ & -> & _)].
    unfold fits, UINT64_MAX in *. split_and!; [lia|constructor|done|lia]. }
  destruct (is_digit (ch s)) eqn:Hd.
  2: { rewrite (proj2 (Z.leb_le 10 _)) by (apply not_digit_wraps; [by apply ch_range|done]).
       split; [done|]. intros (Hl & Hds & _). destruct s as [|c s]; [cbn in Hl; lia|].
       cbn in Hds, Hd. apply Forall_inv in Hds. cbn in Hds. congruence. }
  destruct s as [|c s]; [done|]. cbn [ch] in *. apply is_digit_iff in Hd as Hc.
  rewrite digit_wraps, (proj2 (Z.leb_gt 10 _)) by (unfold c_0; lia).
  assert (digits (c :: take len s) <-> digits (take len s)) as Hds.
  { unfold digits. rewrite Forall_cons. tauto. }
  cbn [next take length]. unfold fits, UINT64_MAX in *.
  destruct (_ <? v) eqn:Ho.
  - apply Z.ltb_lt in Ho. split; [done|]. rewrite Hds. intros (_ & Hx & -> & Hm). exfalso.
    cbn in Hm. pose proof (dec_from_ge (10 * v + (c - c_0)) (take len s)) as Hg.
    unfold dec_from, c_0 in *. specialize (Hg ltac:(lia) Hx).
    Z.to_euclidean_division_equations; lia.
  - apply Z.ltb_ge in Ho. rewrite (wrap_id 64) by (unfold fits, c_0 in *; Z.to_euclidean_division_equations; lia).
    rewrite IH; [|by apply Forall_inv_tail in Hok|unfold c_0 in *; Z.to_euclidean_division_equations; lia].
    rewrite Hds. replace (v * 10 + (c - c_0)) with (10 * v + (c - c_0)) by lia. cbn [dec_from foldl].
    split; intros (? & ? & ? & ?); (split_and!; [lia|done..]).
Qed.

Lemma parse_u64_span_spec s len v :
  cstr_ok s ->
  ernic_parse_u64_span (Some s) len = Some v <->
  (0 < len <= length s)%nat /\ digits (take len s) /\ v = dec_value (take len s) /\ v <= UINT64_MAX.
Proof.
  intros Hok. unfold ernic_parse_u64_span. cbn [mbind option_bind]. case_bool_decide as Hl.
  - split; [done|]. intros (? & _). lia.
  - rewrite u64_span_loop_spec by done. unfold dec_value, dec_from.
    split; intros (? & ? & ? & ?); (split_and!; [lia..|done|done|done]).
Qed.

Lemma parse_u64_spec s v :
  cstr_ok s ->
  ernic_parse_u64 (Some s) = Some v <-> s <> [] /\ digits s /\ v = dec_value s /\ v <= UINT64_MAX.
Proof.
  intros Hok. unfold ernic_parse_u64. cbn [mbind option_bind]. rewrite parse_u64_span_spec, firstn_all by done.
  destruct s; cbn; split; intros (? & ?); (split; [|done]); try done; try lia.
Qed.

Lemma strtol_digits neg p :
  cstr_ok p -> is_digit (ch p) = true ->
  let ds := take_digits p in let rest := drop (length ds) p in
  let v := if neg : bool then - dec_value ds else dec_value ds in
  strtol ((if neg then [45] else []) ++ p) =
    if v <? LONG_MIN then (LONG_MIN, true, rest)
    else if LONG_MAX <? v then (LONG_MAX, true, rest) else (v, false, rest).
Proof.
  intros Hok Hc. cbn zeta. unfold strtol.
  assert (strto_sign (skip_space ((if neg then [45] else []) ++ p)) = (neg, p)) as ->.
  { destruct neg; cbn [app]; [done|]. by rewrite digits_not_space, digit_no_sign. }
  rewrite bool_decide_eq_false_2; [done|]. rewrite take_digits_nil. by rewrite Hc.
Qed.

Lemma parse_int_spec s v :
  cstr_ok s ->
  ernic_parse_int (Some s) = Some v <->
  exists (neg : bool) ds, s = (if neg then [45] else []) ++ ds /\ ds <> [] /\ digits ds /\
    v = (if neg then - dec_value ds else dec_value ds) /\ INT_MIN <= v <= INT_MAX.
Proof.
  intros Hok. unfold ernic_parse_int. cbn [mbind option_bind].
  set (neg := ch s =? 45). set (p := if neg then next s else s).
  assert (s = (if neg then [45] else []) ++ p) as Hs.
  { subst p neg. destruct s as [|c s]; [done|]. cbn [ch next]. destruct (c =? 45) eqn:He; [|done].
    apply Z.eqb_eq in He. by rewrite He. }
  assert (cstr_ok p) as Hp.
  { subst p. destruct neg; [|done]. destruct Hok; [constructor|done]. }
  assert (forall (neg' : bool) ds, s = (if neg' then [45] else []) ++ ds -> ds <> [] -> digits ds -> neg' = neg /\ ds = p) as Huniq.
  { intros neg' ds He Hn Hd. subst p neg. rewrite He. destruct neg'; cbn [app ch next]; [done|].
    destruct Hd as [|c ds Hc Hd]; [done|]. apply is_digit_iff in Hc. cbn [ch].
    by rewrite (proj2 (Z.eqb_neq c 45)) by lia. }
  destruct (is_digit (ch p)) eqn:Hc; cbn [negb].
  2: { split; [done|]. intros (neg' & ds & He & Hn & Hd & _). destruct (Huniq _ _ He Hn Hd) as [-> ->].
       by rewrite digits_head in Hc. }
  assert (p <> []) as Hpn by (intros ->; done).
  rewrite Hs at 1. rewrite (strtol_digits neg p Hp Hc). cbn zeta.
  set (v' := if neg then _ else _). set (rest := drop _ p).
  assert (rest <> s) as Hne.
  { intros He. apply (f_equal length) in He. subst rest. rewrite Hs, length_app, length_drop in He.
    assert (take_digits p <> []) by (rewrite take_digits_nil; by rewrite Hc).
    destruct (take_digits p) eqn:?; [done|]. destruct p; [done|]. cbn in He. lia. }
  assert (ch rest = 0 <-> digits p) as Hw by apply (whole_digits p Hp).
  assert (INT_MIN <= v' <= INT_MAX -> digits p -> LONG_MIN <= v' <= LONG_MAX) as Hlong.
  { unfold INT_MIN, INT_MAX, LONG_MIN, LONG_MAX. lia. }
  assert (digits p -> v' = if neg then - dec_value p else dec_value p) as Hv'.
  { intros Hd. subst v'. by rewrite take_digits_all. }
  split.
  - intros H. assert (ch rest = 0 /\ INT_MIN <= v' <= INT_MAX /\ v = v') as (He & Hr & ->).
    { repeat (case_match; bdestr; try done); unfold INT_MIN, INT_MAX, LONG_MIN, LONG_MAX in *; simplify_eq; lia. }
    apply Hw in He. exists neg, p. by rewrite <-Hv' by done.
  - intros (neg' & ds & He & Hn & Hd & -> & Hr). destruct (Huniq _ _ He Hn Hd) as [-> ->].
    rewrite <-Hv' in Hr |- * by done. specialize (Hlong Hr Hd). apply Hw in Hd.
    rewrite (proj2 (Z.ltb_ge v' LONG_MIN)), (proj2 (Z.ltb_ge LONG_MAX v')) by lia. cbn [orb].
    rewrite bool_decide_eq_false_2, Hd by done. cbn [orb negb Z.eqb].
    by rewrite (proj2 (Z.ltb_ge v' INT_MIN)), (proj2 (Z.ltb_ge INT_MAX v')) by lia.
Qed.

(** ** Sizes *)

(** The exponent of a multiplier spelled in full, [None] for anything else. *)
Definition size_suffix (s : cstr) : option Z :=
  match s with
  | [] => Some 0
  | c :: r =>
      if size_shift c =? 0 then None
      else
        let b x := (x =? 98) || (x =? 66) in
        let i x := (x =? 105) || (x =? 73) in
        match r with
        | [] => Some (size_shift c)
        | [x] => if i x || b x then Some (size_shift c) else None
        | [x; y] => if i x && b y then Some (size_shift c) else None
        | _ => None
        end
  end.

Lemma size_shift_range c : 0 <= size_shift c <= 40.
Proof. unfold size_shift. repeat case_match; lia. Qed.

(** What the parser leaves unread after the number is a whole multiplier. *)
Lemma size_tail p sh :
  cstr_ok p ->
  let p' :=
    if size_shift (ch p) =? 0 then p
    else
      let p := next p in
      let p := if (ch p =? 105) || (ch p =? 73) then next p else p in
      if (ch p =? 98) || (ch p =? 66) then next p else p in
  (ch p' = 0 /\ sh = size_shift (ch p)) <-> size_suffix p = Some sh.
Proof.
  intros Hok. cbn zeta. destruct p as [|c r]; cbn [ch next size_suffix].
  { change (size_shift 0) with 0. cbn. split; [by intros (_ & ->)|by intros [= <-]]. }
  apply Forall_inv in Hok as Hc. apply Forall_inv_tail in Hok.
  destruct (size_shift c =? 0) eqn:Hs; cbn [ch]; [split; [lia|done]|].
  destruct r as [|x [|y [|z r]]]; cbn [ch next].
  all: repeat match goal with H : Forall _ (_ :: _) |- _ =>
         let Hx := fresh "Hx" in apply Forall_inv in H as Hx; cbn in Hx; apply Forall_inv_tail in H end.
  - split; [by intros (_ & ->)|by intros [= <-]].
  - destruct ((x =? 105) || (x =? 73)) eqn:E1, ((x =? 98) || (x =? 66)) eqn:E2; cbn.
    all: rewrite ?E1, ?E2; cbn; split; intros Hy; destruct_and?; simplify_eq; try done; lia.
  - destruct ((x =? 105) || (x =? 73)) eqn:E1, ((x =? 98) || (x =? 66)) eqn:E2; cbn.
    all: destruct ((y =? 98) || (y =? 66)) eqn:E3; cbn; rewrite ?E1, ?E2, ?E3; cbn.
    all: split; intros Hy; destruct_and?; simplify_eq; try done; lia.
  - split; [|done]. intros [H _]. exfalso. revert H. repeat case_match; cbn [ch next]; lia.
Qed.

Lemma shl_u64 v k : 0 <= v -> 0 <= k -> v * 2 ^ k <= UINT64_MAX -> u64 (Z.shiftl v k) = v * 2 ^ k.
Proof.
  intros. rewrite Z.shiftl_mul_pow2 by lia. apply wrap_id. unfold fits, UINT64_MAX in *.
  assert (0 <= v * 2 ^ k) by (apply Z.mul_nonneg_nonneg; lia). lia.
Qed.

Lemma parse_size_spec s v :
  cstr_ok s ->
  ernic_parse_size (Some s) = Some v <->
  exists ds suf sh, s = ds ++ suf /\ ds <> [] /\ digits ds /\ size_suffix suf = Some sh /\
    v = dec_value ds * 2 ^ sh /\ v <= UINT64_MAX.
Proof.
  intros Hok. unfold ernic_parse_size. cbn [mbind option_bind].
  destruct (take_digits_spec s) as (Hd & Ht & Hr). set (ds := take_digits s) in *. set (p := drop (length ds) s) in *.
  assert (s = ds ++ p) as Hs by (subst p; rewrite <-Ht at 1; by rewrite take_drop).
  assert (cstr_ok p) as Hp by by apply Forall_drop.
  assert (forall sh, size_suffix p = Some sh -> 0 <= sh <= 40) as Hsh.
  { intros sh Hx. apply (size_tail p sh Hp) in Hx as [_ ->]. apply size_shift_range. }
  assert (forall d suf sh, s = d ++ suf -> digits d -> size_suffix suf = Some sh -> d = ds /\ suf = p) as Huniq.
  { intros d suf sh He Hdd Hsf. subst ds p. clear -He Hdd Hsf. subst s.
    induction Hdd as [|c d Hc _ IH]; cbn.
    - destruct suf as [|c suf]; [done|]. cbn in *. destruct (is_digit c) eqn:Hc; [|done].
      apply is_digit_iff in Hc. exfalso. revert Hsf. unfold size_shift. repeat case_match; bdestr; try done; lia.
    - rewrite Hc. cbn. destruct IH as [<- <-]. done. }
  pose proof (size_tail p) as Htail. cbn zeta in Htail. split.
  - destruct (ernic_parse_u64_span _ _) as [d|] eqn:Hspan; cbn [mbind option_bind]; [|done].
    apply parse_u64_span_spec in Hspan as (Hl & _ & -> & Hmax); [|done]. rewrite Ht.
    set (p' := if _ =? 0 then p else _). destruct (ch p' =? 0) eqn:He; cbn [negb]; [|done]. apply Z.eqb_eq in He.
    specialize (Htail (size_shift (ch p)) Hp). destruct Htail as [Htail _]. specialize (Htail (conj He eq_refl)).
    destruct (_ <? _) eqn:Ho; [done|]. apply Z.ltb_ge in Ho. rewrite Z.shiftr_div_pow2 in Ho by apply size_shift_range.
    assert (dec_value ds * 2 ^ size_shift (ch p) <= UINT64_MAX) as Hle.
    { pose proof (size_shift_range (ch p)). assert (0 < 2 ^ size_shift (ch p)) by lia.
      pose proof (Z.mul_div_le UINT64_MAX (2 ^ size_shift (ch p))). nia. }
    assert (0 <= dec_value ds) by by apply (dec_from_ge 0).
    rewrite shl_u64 by (done || apply size_shift_range). intros [= <-].
    exists ds, p, (size_shift (ch p)). split_and!; try done. intros He'. rewrite He' in Hl. cbn in Hl. lia.
  - intros (d & suf & sh & He & Hn & Hdd & Hsf & -> & Hmax). destruct (Huniq _ _ _ He Hdd Hsf) as [-> ->].
    pose proof (Hsh _ Hsf). apply Htail in Hsf as [Hz ->]; [|done].
    assert (0 <= dec_value ds) by by apply (dec_from_ge 0).
    assert (1 <= 2 ^ size_shift (ch p)) by lia.
    assert (dec_value ds <= dec_value ds * 2 ^ size_shift (ch p)) by nia.
    rewrite (proj2 (parse_u64_span_spec s (length ds) (dec_value ds) Hok)).
    2: { rewrite Ht. split_and!; try done; [destruct ds; [done|cbn; lia]|rewrite Hs, length_app; lia|lia]. }
    cbn [mbind option_bind]. rewrite Hz. cbn [negb Z.eqb]. rewrite (proj2 (Z.ltb_ge _ _)).
    2: { rewrite Z.shiftr_div_pow2 by lia. apply Z.div_le_lower_bound; [lia|]. rewrite Z.mul_comm. lia. }
    by rewrite shl_u64 by (done || lia).
Qed.
End specs.
