(* ===== verification/ParseProps.v ===== *)
(** * What the number parsers accept

    Hexadecimal, octal, bmv2 hexstr and MAC parsing against reference values,
    decimal printing (the "%PRIu64" of the formatters), and the properties of
    the parsers as a whole. *)
From S2P Require Export ParseInt.
From stdpp Require Import strings.
#[local] Open Scope Z_scope.

(** ** Reference values *)
Definition is_hex (c : Z) : bool := 0 <=? ernic_hex_digit c.
Definition hex_digits (s : cstr) : Prop := Forall (fun c => is_hex c = true) s.
Definition hex_from (v : Z) (s : cstr) : Z := foldl (fun v c => 16 * v + ernic_hex_digit c) v s.
Definition hex_value (s : cstr) : Z := hex_from 0 s.

Definition oct_digits (s : cstr) : Prop := Forall (fun c => 48 <= c <= 55) s.
Definition oct_from (v : Z) (s : cstr) : Z := foldl (fun v c => 8 * v + (c - 48)) v s.
Definition oct_value (s : cstr) : Z := oct_from 0 s.

Definition be_value (b : list Z) : Z := foldl (fun v c => 256 * v + c) 0 b.

(** printf's "%PRIu64": twenty digits hold any 64-bit value. *)
Fixpoint dec_digits (fuel : nat) (n : Z) : cstr :=
  match fuel with
  | O => []
  | S f => if n <? 10 then [n + 48] else dec_digits f (n / 10) ++ [n mod 10 + 48]
  end.
Definition print_u64 (n : Z) : cstr := dec_digits 20 n.

(** ** Decimal printing *)
Lemma dec_digits_S f n :
  dec_digits (S f) n = if n <? 10 then [n + 48] else dec_digits f (n / 10) ++ [n mod 10 + 48].
Proof. done. Qed.

Lemma dec_digits_spec fuel n :
  0 <= n < 10 ^ Z.of_nat (S fuel) ->
  let s := dec_digits (S fuel) n in dec_value s = n /\ digits s /\ s <> [].
Proof.
  cbn zeta. revert n. induction fuel as [|f IH]; intros n Hn; rewrite dec_digits_S.
  all: destruct (n <? 10) eqn:Hl; bdestr.
  1, 3: unfold dec_value, c_0; cbn; (split; [lia|]); (split; [|done]); repeat constructor; apply is_digit_iff; lia.
  { cbn in Hn. lia. }
  rewrite Nat2Z.inj_succ, Z.pow_succ_r in Hn by lia.
  destruct (IH (n / 10)) as (Hv & Hd & _); [Z.to_euclidean_division_equations; lia|].
  split_and!.
  - unfold dec_value in *. rewrite foldl_app, Hv. unfold c_0. cbn. Z.to_euclidean_division_equations; lia.
  - apply Forall_app. split; [done|]. repeat constructor. apply is_digit_iff. Z.to_euclidean_division_equations; lia.
  - intros He. by apply app_nil in He as [_ ?].
Qed.

Lemma print_u64_spec n : fits 64 n -> dec_value (print_u64 n) = n /\ digits (print_u64 n) /\ print_u64 n <> [].
Proof. intros Hn. apply (dec_digits_spec 19). unfold fits in Hn. cbn. lia. Qed.

Lemma digits_cstr s : digits s -> cstr_ok s.
Proof. intros Hs. eapply Forall_impl; [exact Hs|]. intros c Hc. apply is_digit_iff in Hc. lia. Qed.

(** ** Hexadecimal *)
Lemma hex_digit_range c : is_hex c = true -> 0 <= ernic_hex_digit c < 16.
Proof. unfold is_hex, ernic_hex_digit. intros Hc. bdestr. repeat case_match; bdestr; lia. Qed.

Lemma nibble w v d : 0 <= v < 2 ^ (w - 4) -> 0 <= d < 16 -> 4 <= w ->
  Z.lor (wrap w (Z.shiftl v 4)) d = 16 * v + d.
Proof.
  intros Hv Hd Hw. rewrite wrap_id.
  - rewrite Z.lor_comm, lor_shl_add by lia. lia.
  - unfold fits. rewrite Z.shiftl_mul_pow2 by lia.
    replace (2 ^ w) with (2 ^ (w - 4) * 2 ^ 4) by (rewrite <-Z.pow_add_r by lia; f_equal; lia). lia.
Qed.

Lemma hex_from_range v s : hex_digits s -> 0 <= v -> 0 <= hex_from v s < 16 ^ Z.of_nat (length s) * (v + 1).
Proof.
  intros Hs. revert v. induction Hs as [|c s Hc _ IH]; intros v Hv; [cbn; lia|].
  apply hex_digit_range in Hc. cbn [hex_from foldl length]. fold (hex_from (16 * v + ernic_hex_digit c) s).
  specialize (IH (16 * v + ernic_hex_digit c) ltac:(lia)).
  rewrite Nat2Z.inj_succ, Z.pow_succ_r by lia.
  assert (0 < 16 ^ Z.of_nat (length s)) by lia. nia.
Qed.

Lemma ch_drop_len s n : (length s <= n)%nat -> ch (drop n s) = 0.
Proof. intros. by rewrite drop_ge. Qed.

Lemma hex_loop_spec w len s v r :
  4 * Z.of_nat len <= w -> 0 <= v < 2 ^ (w - 4 * Z.of_nat len) ->
  hex_loop w s len v = Some r <-> (len <= length s)%nat /\ hex_digits (take len s) /\ r = hex_from v (take len s).
Proof.
  revert s v. induction len as [|len IH]; intros s v Hw Hv; cbn [hex_loop].
  { rewrite take_0. cbn. split; [intros [= <-]; split_and!; [lia|constructor|done]|by intros (_ & _ & ->)]. }
  destruct (ernic_hex_digit (ch s) <? 0) eqn:Hd; bdestr.
  { split; [done|]. intros (Hl & Hx & _). destruct s as [|c s]; [cbn in Hl; lia|].
    cbn in Hx, Hd. apply Forall_inv in Hx. cbn in Hx. unfold is_hex in Hx. bdestr. lia. }
  destruct s as [|c s]; [done|]. cbn [ch next take length] in *.
  assert (is_hex c = true) as Hc by (unfold is_hex; bdestr; lia). apply hex_digit_range in Hc as Hc'.
  rewrite nibble; [|split; [lia|]; eapply Z.lt_le_trans; [apply Hv|]; apply Z.pow_le_mono_r; lia|lia|lia].
  rewrite IH; [|lia|].
  - unfold hex_digits. rewrite Forall_cons. cbn [hex_from foldl].
    split; intros (? & ? & ?); (split_and!; [lia|tauto..|done]).
  - replace (2 ^ (w - 4 * Z.of_nat len)) with (16 * 2 ^ (w - 4 * Z.of_nat (S len))); [lia|].
    change 16 with (2 ^ 4). rewrite <-Z.pow_add_r by lia. f_equal. lia.
Qed.

Lemma parse_hex_u32_spec s v :
  ernic_parse_hex_u32 (Some s) = Some v <-> (1 <= length s <= 8)%nat /\ hex_digits s /\ v = hex_value s.
Proof.
  unfold ernic_parse_hex_u32. cbn [mbind option_bind]. repeat case_bool_decide; cbn [orb].
  all: try (split; [done|]; intros (? & _); lia).
  rewrite hex_loop_spec, firstn_all by (cbn; lia).
  split; intros (? & ? & ?); (split_and!; [lia..|done|done]).
Qed.

Lemma parse_hex_u64_span_spec s len v :
  ernic_parse_hex_u64_span (Some s) len = Some v <->
  (1 <= len <= 16)%nat /\ (len <= length s)%nat /\ hex_digits (take len s) /\ v = hex_value (take len s).
Proof.
  unfold ernic_parse_hex_u64_span. cbn [mbind option_bind]. repeat case_bool_decide; cbn [orb].
  all: try (split; [done|]; intros (? & _); lia).
  rewrite hex_loop_spec; [|lia|].
  - split; intros H'; destruct_and?; (split_and!; [lia..|done|done]).
  - split; [lia|]. apply Z.pow_pos_nonneg; lia.
Qed.

(** ** Octal *)
Lemma oct_from_ge v s : oct_digits s -> 0 <= v -> v <= oct_from v s.
Proof.
  intros Hs. revert v. induction Hs as [|c s Hc _ IH]; intros v Hv; cbn; [lia|].
  specialize (IH (8 * v + (c - 48))). unfold oct_from in *. lia.
Qed.

Lemma oct_loop_spec s v r :
  cstr_ok s -> fits 32 v ->
  oct_loop s v = Some r <-> oct_digits s /\ r = oct_from v s /\ r <= UINT32_MAX.
Proof.
  intros Hok. revert v. induction Hok as [|c s Hc Hok IH]; intros v Hv; cbn [oct_loop].
  { cbn. unfold fits, UINT32_MAX in *. split; [intros [= <-]; split_and!; [constructor|done|lia]|by intros (_ & -> & _)]. }
  unfold fits, UINT32_MAX in *. unfold oct_digits at 1. rewrite Forall_cons. fold (oct_digits s).
  assert (Z.shiftr 4294967295 3 = 536870911) as -> by done.
  destruct (8 <=? u32 (c - c_0)) eqn:Hd; bdestr; cbn [orb].
  { split; [done|]. intros ((? & _) & _). exfalso. unfold c_0 in *. rewrite wrap_id in * by (unfold fits; lia). lia. }
  assert (48 <= c <= 55) as Hc'.
  { unfold c_0, wrap in *. Z.to_euclidean_division_equations; lia. }
  destruct (536870911 <? v) eqn:Ho; bdestr.
  { split; [done|]. intros ((_ & Hs) & -> & Hm). cbn in Hm. pose proof (oct_from_ge (8 * v + (c - 48)) s Hs) as Hg.
    unfold oct_from in *. lia. }
  rewrite (wrap_id 32 (c - c_0)) by (unfold fits, c_0; lia).
  assert (Z.lor (u32 (Z.shiftl v 3)) (c - c_0) = 8 * v + (c - 48)) as ->.
  { unfold c_0. rewrite wrap_id by (unfold fits; rewrite Z.shiftl_mul_pow2; lia).
    rewrite Z.lor_comm, lor_shl_add by lia. lia. }
  rewrite IH by lia. cbn [oct_from foldl]. split; intros (? & ? & ?); tauto.
Qed.

Lemma parse_oct_spec s v :
  cstr_ok s ->
  ernic_parse_oct_u32 (Some s) = Some v <-> s <> [] /\ oct_digits s /\ v = oct_value s /\ v <= UINT32_MAX.
Proof.
  intros Hok. unfold ernic_parse_oct_u32. cbn [mbind option_bind]. destruct (ch s =? 0) eqn:Hz; bdestr.
  - split; [done|]. intros (Hn & _). by apply ch_zero in Hz.
  - rewrite oct_loop_spec by done. assert (s <> []) by by intros ->. tauto.
Qed.

(** ** Big-endian values *)
Lemma be_foldl v b : foldl (fun v c => 256 * v + c) v b = v * 256 ^ Z.of_nat (length b) + be_value b.
Proof.
  unfold be_value. revert v. induction b as [|c b IH]; intros v; cbn [foldl length]; [lia|].
  rewrite IH, (IH (256 * 0 + c)), Nat2Z.inj_succ, Z.pow_succ_r by lia. lia.
Qed.

Lemma be_app a b : be_value (a ++ b) = be_value a * 256 ^ Z.of_nat (length b) + be_value b.
Proof. unfold be_value at 1. by rewrite foldl_app, be_foldl. Qed.

Lemma be_range b : bytes_ok b -> 0 <= be_value b < 256 ^ Z.of_nat (length b).
Proof.
  induction b as [|c b IH] using rev_ind; intros Hb; [cbn; lia|].
  apply Forall_app in Hb as [Hb Hc]. apply Forall_inv in Hc. unfold byte_ok, fits in Hc. specialize (IH Hb).
  rewrite be_app, length_app, Nat2Z.inj_add, Z.pow_add_r by lia. cbn. lia.
Qed.

(** The byte [k] places from the right. *)
Lemma be_byte a c b : byte_ok c -> bytes_ok b ->
  c = (be_value (a ++ c :: b) / 256 ^ Z.of_nat (length b)) mod 256.
Proof.
  intros Hc Hb. pose proof (be_range b Hb) as Hr. unfold byte_ok, fits in Hc.
  rewrite be_app. cbn [length]. rewrite Nat2Z.inj_succ, Z.pow_succ_r by lia.
  assert (be_value (c :: b) = c * 256 ^ Z.of_nat (length b) + be_value b) as ->.
  { unfold be_value at 1. cbn [foldl]. rewrite be_foldl. lia. }
  set (q := 256 ^ _) in *.
  replace (_ + _) with ((be_value a * 256 + c) * q + be_value b) by lia.
  rewrite Z.div_add_l, (Z.div_small (be_value b)), Z.add_0_r by lia.
  rewrite Z.add_comm, Z.mod_add, Z.mod_small by lia. done.
Qed.

Lemma be_alter f k a c b : length a = k ->
  be_value (alter f k (a ++ c :: b)) = be_value (a ++ c :: b) + (f c - c) * 256 ^ Z.of_nat (length b).
Proof.
  intros <-. rewrite alter_app_r_alt by lia. rewrite Nat.sub_diag. cbn [alter list_alter].
  rewrite !be_app. cbn [length].
  assert (forall x, be_value (x :: b) = x * 256 ^ Z.of_nat (length b) + be_value b) as Hx.
  { intros x. unfold be_value at 1. cbn [foldl]. rewrite be_foldl. lia. }
  rewrite !Hx. lia.
Qed.

Lemma bytes_split k (l : list Z) : (k < length l)%nat -> exists a c b, l = a ++ c :: b /\ length a = k /\ length b = (length l - 1 - k)%nat.
Proof.
  intros Hk. destruct (lookup_lt_is_Some_2 l k Hk) as [c Hc].
  exists (take k l), c, (drop (S k) l). split; [by rewrite take_drop_middle|].
  rewrite length_take, length_drop. lia.
Qed.

(** ** hexstr *)

(** Putting digit [d] at nibble [fr] of a value whose nibbles up to [fr] are
    clear adds [d * 16 ^ fr]. *)
Lemma put_nibble out fr d X :
  bytes_ok out -> (fr / 2 < length out)%nat -> 0 <= d < 16 ->
  be_value out = X * 16 ^ (Z.of_nat fr + 1) ->
  let out' := alter (fun b => u8 (Z.lor b (Z.shiftl d (Z.of_nat (fr mod 2) * 4)))) (length out - 1 - fr / 2)%nat out in
  bytes_ok out' /\ be_value out' = be_value out + d * 16 ^ Z.of_nat fr.
Proof.
  intros Hok Hfr Hd HX. cbn zeta.
  destruct (bytes_split (length out - 1 - fr / 2) out) as (a & c & b & -> & Ha & Hb); [lia|].
  replace (length (a ++ c :: b) - 1 - (length (a ++ c :: b) - 1 - fr / 2))%nat with (fr / 2)%nat in Hb by lia.
  apply Forall_app in Hok as [Hoa Hoc]. apply Forall_cons in Hoc as [Hc Hob].
  rewrite <-Ha at 1. rewrite be_alter by lia. rewrite alter_app_r_alt by lia. rewrite Ha, Nat.sub_diag. cbn [alter list_alter].
  pose proof (be_byte a c b Hc Hob) as Hcv. rewrite HX, Hb in Hcv.
  unfold byte_ok, fits in Hc.
  assert (Z.of_nat fr = 2 * Z.of_nat (fr / 2) + Z.of_nat (fr mod 2)) as Hfm.
  { rewrite <-(Nat2Z.inj_mul 2), <-Nat2Z.inj_add, <-Nat.div_mod_eq. done. }
  set (k := Z.of_nat (fr / 2)) in *. assert (0 < 256 ^ k) by lia.
  assert (256 ^ k = 16 ^ (2 * k)) as Hk by (rewrite Z.pow_mul_r by lia; done).
  assert (fr mod 2 = 0 \/ fr mod 2 = 1)%nat as [He|He] by (pose proof (Nat.mod_upper_bound fr 2); lia); rewrite He in *.
  - assert (c = 16 * (X mod 16)) as Hc16.
    { rewrite Hcv, Hfm, Z.add_0_r, Z.pow_add_r, <-Hk by lia.
      replace (X * (256 ^ k * 16 ^ 1)) with (X * 16 * 256 ^ k) by lia.
      rewrite Z.div_mul by lia. Z.to_euclidean_division_equations; lia. }
    change (Z.of_nat 0 * 4) with 0. rewrite Z.shiftl_0_r.
    assert (Z.lor c d = c + d) as ->.
    { rewrite Hc16, Z.lor_comm. replace (16 * (X mod 16)) with (Z.shiftl (X mod 16) 4) by (rewrite Z.shiftl_mul_pow2; lia).
      rewrite lor_shl_add by lia. rewrite Z.shiftl_mul_pow2 by lia. lia. }
    assert (0 <= c + d < 256) by (pose proof (Z.mod_pos_bound X 16); lia).
    rewrite wrap_id by (unfold fits; lia). split.
    + apply Forall_app. split; [done|]. constructor; [unfold byte_ok, fits; lia|done].
    + rewrite Hb. fold k. rewrite Hfm, Z.add_0_r, <-Hk. lia.
  - assert (c = 0) as ->.
    { rewrite Hcv, Hfm. replace (2 * k + Z.of_nat 1 + 1) with (2 * k + 2) by lia.
      rewrite Z.pow_add_r, <-Hk by lia. replace (X * (256 ^ k * 16 ^ 2)) with (X * 256 * 256 ^ k) by lia.
      rewrite Z.div_mul, Z.mod_mul by lia. done. }
    change (Z.of_nat 1 * 4) with 4. rewrite Z.lor_0_l, Z.shiftl_mul_pow2 by lia.
    rewrite wrap_id by (unfold fits; lia). split.
    + apply Forall_app. split; [done|]. constructor; [unfold byte_ok, fits; lia|done].
    + rewrite Hb. fold k. rewrite Hfm, Z.pow_add_r, <-Hk by lia. lia.
Qed.

Lemma at_hex s i : is_hex (at_ s i) = true -> exists c, s !! i = Some c /\ c = at_ s i.
Proof.
  unfold at_. intros H. destruct (s !! i) as [c|] eqn:Hc.
  - exists c. split; [done|]. by rewrite (drop_S s c i Hc).
  - apply lookup_ge_None in Hc. by rewrite drop_ge in H.
Qed.

Lemma all_hex s n :
  forallb (fun i => 0 <=? ernic_hex_digit (at_ s i)) (seq 0 n) = true <-> (n <= length s)%nat /\ hex_digits (take n s).
Proof.
  rewrite forallb_forall. split.
  - intros H. assert (forall i, (i < n)%nat -> is_hex (at_ s i) = true) as H' by (intros i Hi; apply H, in_seq; lia).
    split.
    + destruct n as [|n]; [lia|]. destruct (at_hex s n (H' n ltac:(lia))) as (c & Hc & _). apply lookup_lt_Some in Hc. lia.
    + apply Forall_lookup. intros i c Hi. apply lookup_take_Some in Hi as [Hi Hl].
      specialize (H' i Hl). destruct (at_hex s i H') as (c' & Hc & ->). congruence.
  - intros [Hn Hh] i Hi. apply in_seq in Hi. destruct (lookup_lt_is_Some_2 s i) as [c Hc]; [lia|].
    unfold at_. rewrite (drop_S s c i Hc). cbn [ch].
    apply (proj1 (Forall_lookup _ _) Hh i). rewrite lookup_take_lt by lia. done.
Qed.

Lemma hex_from_S v s n : (n < length s)%nat ->
  hex_from v (take (S n) s) = 16 * hex_from v (take n s) + ernic_hex_digit (at_ s n).
Proof.
  intros Hn. destruct (lookup_lt_is_Some_2 s n Hn) as [c Hc]. rewrite (take_S_r _ _ c) by done.
  unfold hex_from. rewrite foldl_app. unfold at_. by rewrite (drop_S s c n Hc).
Qed.

Lemma be_zeros n : be_value (zeros n) = 0.
Proof. unfold be_value, zeros. by induction n. Qed.

(** After [i] digits the buffer holds their value, shifted to its place. *)
Lemma hexstr_loop p cap i :
  hex_digits p -> (length p <= 2 * cap)%nat -> (i <= length p)%nat ->
  let out := foldl (hexstr_put p (length p) cap) (zeros cap) (seq 0 i) in
  length out = cap /\ bytes_ok out /\
  be_value out = hex_value (take i p) * 16 ^ (Z.of_nat (length p) - Z.of_nat i).
Proof.
  intros Hp Hcap. cbn zeta. induction i as [|i IH]; intros Hi.
  - cbn [seq foldl take]. rewrite be_zeros. unfold zeros. rewrite length_replicate.
    split; [done|]. split; [apply Forall_replicate; unfold byte_ok, fits; lia|done].
  - destruct IH as (Hl & Hok & Hv); [lia|].
    rewrite seq_S, foldl_app. cbn [foldl Nat.add]. set (out := foldl _ _ _) in *.
    unfold hexstr_put. set (fr := (length p - 1 - i)%nat).
    assert (0 <= ernic_hex_digit (at_ p i) < 16) as Hd.
    { apply hex_digit_range. pose proof (proj2 (all_hex p (length p))) as Ha.
      rewrite firstn_all in Ha. specialize (Ha (conj (le_n _) Hp)). rewrite forallb_forall in Ha.
      apply Ha, in_seq. lia. }
    assert (fr / 2 < length out)%nat as Hfr.
    { subst fr. rewrite Hl. apply Nat.Div0.div_lt_upper_bound. lia. }
    destruct (put_nibble out fr _ (hex_value (take i p)) Hok Hfr Hd) as [Hok' Hv'].
    { rewrite Hv. f_equal. f_equal. lia. }
    rewrite Hl in Hok', Hv'. rewrite length_alter. split; [done|]. split; [exact Hok'|].
    etrans; [exact Hv'|]. unfold hex_value in *. rewrite Hv, hex_from_S by lia.
    replace (Z.of_nat (length p) - Z.of_nat i) with (Z.succ (Z.of_nat fr)) by lia.
    replace (Z.of_nat (length p) - Z.of_nat (S i)) with (Z.of_nat fr) by lia.
    rewrite Z.pow_succ_r by lia. lia.
Qed.

Definition hexstr_shape (s : cstr) (neg : bool) (ds : cstr) : Prop :=
  s = (if neg then [45] else []) ++ [48; 120] ++ ds /\ ds <> [] /\ hex_digits ds.

Lemma hexstr_fits_half d cap : ernic_hexstr_fits (Z.of_nat d) (Z.of_nat cap) = true <-> (d <= 2 * cap)%nat.
Proof.
  unfold ernic_hexstr_fits. rewrite Z.leb_le. split; intros; Z.to_euclidean_division_equations; lia.
Qed.

Lemma parse_hexstr_spec s cap :
  (forall out n neg, ernic_parse_hexstr (Some s) cap = Some (out, n, neg) ->
    exists ds, hexstr_shape s neg ds /\ n = (Z.of_nat (length ds) + 1) / 2 /\ n <= Z.of_nat cap /\
      length out = cap /\ bytes_ok out /\ be_value out = hex_value ds) /\
  (ernic_parse_hexstr (Some s) cap = None ->
    forall neg ds, hexstr_shape s neg ds -> (2 * cap < length ds)%nat).
Proof.
  unfold ernic_parse_hexstr. cbn [mbind option_bind]. case_bool_decide as Hcap.
  { split; [done|]. intros _ neg ds (_ & Hn & _). destruct ds; [done|]. cbn. lia. }
  set (neg := ch s =? 45). set (p := if neg then next s else s).
  destruct (negb (ch p =? 48) || negb (at_ p 1 =? 120)) eqn:Hpre.
  { split; [done|]. intros _ neg' ds (-> & _). exfalso. revert Hpre. subst p neg. by destruct neg'. }
  apply orb_false_iff in Hpre as [H1 H2]. bdestr.
  assert (s = (if neg then [45] else []) ++ [48; 120] ++ drop 2 p) as Hs.
  { assert (p = [48; 120] ++ drop 2 p) as Hp.
    { destruct p as [|x [|y p]]; cbn in *; [done|done|]. by subst. }
    rewrite <-Hp. subst p neg. destruct s as [|c s]; [done|]. cbn [ch next]. destruct (c =? 45) eqn:He; [|done].
    bdestr. by subst. }
  set (ds := drop 2 p) in *.
  assert (forall neg' ds', s = (if neg' : bool then [45] else []) ++ [48; 120] ++ ds' -> neg' = neg /\ ds' = ds) as Hu.
  { intros neg' ds' He. rewrite Hs in He. destruct neg', neg; cbn in He; by simplify_eq. }
  case_bool_decide as Hlen.
  { split; [done|]. intros _ neg' ds' (He & Hn & _). apply Hu in He as [_ ->]. by apply nil_length_inv in Hlen. }
  destruct (ernic_hexstr_fits _ _) eqn:Hf; cbn [negb].
  2: { split; [done|]. intros _ neg' ds' (He & _). apply Hu in He as [_ ->].
       apply not_true_iff_false in Hf. rewrite hexstr_fits_half in Hf. lia. }
  apply hexstr_fits_half in Hf as Hf'.
  pose proof (all_hex ds (length ds)) as Ha. rewrite firstn_all in Ha.
  destruct (forallb _ _) eqn:Hh; cbn [negb].
  2: { split; [done|]. intros _ neg' ds' (He & _ & Hx). apply Hu in He as [_ ->]. exfalso. by specialize (proj2 Ha (conj (le_n _) Hx)). }
  split; [|done]. intros out n neg' [= <- <- <-]. apply proj1 in Ha. specialize (Ha eq_refl) as [_ Ha].
  exists ds. destruct (hexstr_loop ds cap (length ds) Ha Hf' (le_n _)) as (Hl & Hok & Hv).
  rewrite firstn_all, Z.sub_diag, Z.mul_1_r in Hv. split_and!; try done.
  - split_and!; [done| |done]. intros He. by rewrite He in Hlen.
  - Z.to_euclidean_division_equations; lia.
  - Z.to_euclidean_division_equations; lia.
Qed.

(** ** MAC addresses *)
Lemma hex_char_digit d : 0 <= d < 16 -> ernic_hex_digit (hex_char d) = d.
Proof.
  intros Hd. assert (d ∈ seqZ 0 16) as Hin by (apply elem_of_seqZ; lia). revert Hin.
  cbv [seqZ seq fmap list_fmap Z.to_nat Z.of_nat Pos.to_nat]. cbn.
  rewrite !elem_of_cons. intros H. repeat destruct H as [->|H]; try reflexivity. by apply elem_of_nil in H.
Qed.

Lemma parse_hex_byte b rest :
  byte_ok b -> ernic_parse_hex (Some (hex_char (Z.shiftr b 4) :: hex_char (Z.land b 0xf) :: rest)) 1 = Some [b].
Proof.
  intros Hb. unfold byte_ok, fits in Hb. unfold ernic_parse_hex. cbn [mbind option_bind].
  rewrite bool_decide_eq_false_2 by done. change (_ || _) with false. cbn [forallb seq Nat.mul Nat.add map].
  unfold at_. cbn [drop ch].
  change 0xf with (2 ^ 4 - 1). rewrite land_mask, Z.shiftr_div_pow2 by lia.
  rewrite !hex_char_digit by (Z.to_euclidean_division_equations; lia).
  rewrite !(proj2 (Z.leb_le 0 _)) by (Z.to_euclidean_division_equations; lia). cbn [andb negb].
  rewrite Z.lor_comm, lor_shl_add, wrap_id by (unfold fits; Z.to_euclidean_division_equations; lia).
  do 2 f_equal. Z.to_euclidean_division_equations; lia.
Qed.

(** One round of the parser's loop, on a string that goes on as printed. *)
Lemma mac_loop_step s i n mac b rest :
  byte_ok b -> drop (3 * i) s = hex_char (Z.shiftr b 4) :: hex_char (Z.land b 0xf) :: rest ->
  ch rest = (if bool_decide (i + 1 < ERNIC_PARSE_MAC_LEN)%nat then 58 else 0) ->
  mac_loop s i (S n) mac = mac_loop s (i + 1) n (mac ++ [b]).
Proof.
  intros Hb Hs Hr. cbn [mac_loop]. rewrite Hs, parse_hex_byte by done. cbn [mbind option_bind].
  unfold at_. cbn [drop]. rewrite drop_0, Hr. by rewrite Z.eqb_refl.
Qed.

Lemma mac_roundtrip mac :
  length mac = 6%nat -> bytes_ok mac -> ernic_parse_mac (Some (eth_addr_str mac)) = Some mac.
Proof.
  intros Hl Hok. destruct mac as [|b0 [|b1 [|b2 [|b3 [|b4 [|b5 [|]]]]]]]; try done. clear Hl.
  repeat match goal with H : bytes_ok (_ :: _) |- _ => apply Forall_cons in H as [? H]
                    | H : Forall _ (_ :: _) |- _ => apply Forall_cons in H as [? H] end.
  unfold ernic_parse_mac. cbn [mbind option_bind]. unfold ERNIC_PARSE_MAC_LEN at 1.
  set (s := eth_addr_str _).
  rewrite (mac_loop_step s 0 5 _ b0 _ H eq_refl eq_refl), (mac_loop_step s 1 4 _ b1 _ H0 eq_refl eq_refl),
    (mac_loop_step s 2 3 _ b2 _ H1 eq_refl eq_refl), (mac_loop_step s 3 2 _ b3 _ H2 eq_refl eq_refl),
    (mac_loop_step s 4 1 _ b4 _ H3 eq_refl eq_refl), (mac_loop_step s 5 0 _ b5 _ H4 eq_refl eq_refl).
  reflexivity.
Qed.

(** ** The parsers as a whole *)

(** The decimal parsers accept exactly the strings their comments
    describe, with the value those strings denote: digits only and in range
    for 32 and 64 bits, an optional minus sign for an int, and for a size a
    binary multiplier, the product being what has to fit. *)
Theorem decimal_parsers_exact s v :
  cstr_ok s ->
  (ernic_parse_u32 (Some s) = Some v <-> s <> [] /\ digits s /\ v = dec_value s /\ v <= UINT32_MAX) /\
  (ernic_parse_u64 (Some s) = Some v <-> s <> [] /\ digits s /\ v = dec_value s /\ v <= UINT64_MAX) /\
  (ernic_parse_int (Some s) = Some v <->
    exists (neg : bool) ds, s = (if neg then [45] else []) ++ ds /\ ds <> [] /\ digits ds /\
      v = (if neg then - dec_value ds else dec_value ds) /\ INT_MIN <= v <= INT_MAX) /\
  (ernic_parse_size (Some s) = Some v <->
    exists ds suf sh, s = ds ++ suf /\ ds <> [] /\ digits ds /\ size_suffix suf = Some sh /\
      v = dec_value ds * 2 ^ sh /\ v <= UINT64_MAX).
Proof.
  intros Hok. split; [by apply parse_u32_spec|]. split; [by apply parse_u64_spec|].
  split; [by apply parse_int_spec|by apply parse_size_spec].
Qed.

Lemma decimal_parsers_exact_witness : ernic_parse_size (Some (chars "64KiB")) = Some 65536.
Proof.
  apply (decimal_parsers_exact (chars "64KiB") 65536).
  - vm_compute. repeat constructor; discriminate.
  - exists (chars "64"), (chars "KiB"), 10. split_and!; try done; vm_compute; try discriminate; repeat constructor.
Defined.

(** The hexadecimal parsers accept exactly the strings of hexadecimal
    digits that fit their width, and a bmv2 hexstr's bytes are the
    big-endian value of its digits, right-aligned in the caller's buffer;
    one is refused only for its shape or for needing more bytes than the
    buffer has. *)
Theorem hex_parsers_exact s cap v :
  (ernic_parse_hex_u32 (Some s) = Some v <-> (1 <= length s <= 8)%nat /\ hex_digits s /\ v = hex_value s) /\
  (forall len, ernic_parse_hex_u64_span (Some s) len = Some v <->
    (1 <= len <= 16)%nat /\ (len <= length s)%nat /\ hex_digits (take len s) /\ v = hex_value (take len s)) /\
  (forall out n neg, ernic_parse_hexstr (Some s) cap = Some (out, n, neg) ->
    exists ds, hexstr_shape s neg ds /\ n = (Z.of_nat (length ds) + 1) / 2 /\ n <= Z.of_nat cap /\
      length out = cap /\ bytes_ok out /\ be_value out = hex_value ds) /\
  (ernic_parse_hexstr (Some s) cap = None ->
    forall neg ds, hexstr_shape s neg ds -> (2 * cap < length ds)%nat).
Proof.
  split; [apply parse_hex_u32_spec|]. split; [intros len; apply parse_hex_u64_span_spec|]. apply parse_hexstr_spec.
Qed.

(** Printing and parsing are inverse: a 64-bit number printed in decimal
    parses back to itself, and so does a MAC address as eth_addr_str()
    writes it. *)
Theorem print_parse_roundtrip n mac :
  fits 64 n -> length mac = 6%nat -> bytes_ok mac ->
  ernic_parse_u64 (Some (print_u64 n)) = Some n /\ ernic_parse_mac (Some (eth_addr_str mac)) = Some mac.
Proof.
  intros Hn Hl Hok. split; [|by apply mac_roundtrip].
  destruct (print_u64_spec n Hn) as (Hv & Hd & Hne). apply parse_u64_spec; [by apply digits_cstr|].
  split_and!; try done. unfold fits, UINT64_MAX in *. lia.
Qed.

Lemma print_parse_roundtrip_witness :
  eth_addr_str [0; 0x1b; 0x21; 0xab; 0xcd; 0xef] = chars "00:1b:21:ab:cd:ef" /\
  ernic_parse_mac (Some (chars "00:1b:21:ab:cd:ef")) = Some [0; 0x1b; 0x21; 0xab; 0xcd; 0xef].
Proof.
  split; [vm_compute; reflexivity|].
  apply (print_parse_roundtrip 42 [0; 0x1b; 0x21; 0xab; 0xcd; 0xef]); [unfold fits; lia|done|].
  repeat constructor; unfold byte_ok, fits; lia.
Defined.
