(* ===== verification/Fault.v ===== *)
(** * Fault injection: ionic_fault.c

    The parser of "<site>: <pattern> effect <effect> [args]", the formatter,
    the deterministic patterns, and the fault set with one slot per site. *)
From S2P Require Export ParseProps.
From stdpp Require Import strings.
#[local] Open Scope Z_scope.

(** ** ionic_status.h *)
Definition IONIC_RC_SUCCESS : Z := 0.
Definition IONIC_RC_EVERSION : Z := 1.
Definition IONIC_RC_EOPCODE : Z := 2.
Definition IONIC_RC_EIO : Z := 3.
Definition IONIC_RC_EPERM : Z := 4.
Definition IONIC_RC_EQID : Z := 5.
Definition IONIC_RC_EQTYPE : Z := 6.
Definition IONIC_RC_ENOENT : Z := 7.
Definition IONIC_RC_EINTR : Z := 8.
Definition IONIC_RC_EAGAIN : Z := 9.
Definition IONIC_RC_ENOMEM : Z := 10.
Definition IONIC_RC_EFAULT : Z := 11.
Definition IONIC_RC_EBUSY : Z := 12.
Definition IONIC_RC_EEXIST : Z := 13.
Definition IONIC_RC_EINVAL : Z := 14.
Definition IONIC_RC_ENOSPC : Z := 15.
Definition IONIC_RC_ERANGE : Z := 16.
Definition IONIC_RC_BAD_ADDR : Z := 17.
Definition IONIC_RC_DEV_CMD : Z := 18.
Definition IONIC_RC_ENOSUPP : Z := 19.
Definition IONIC_RC_ERROR : Z := 29.
Definition IONIC_RC_ERDMA : Z := 30.
Definition IONIC_RC_EVFID : Z := 31.
Definition IONIC_RC_EBAD_FW : Z := 32.

(** ** ionic_fault.h *)
Inductive ionic_fault_site := IONIC_FAULT_SITE_STATS_VALS | IONIC_FAULT_SITE_ETH_RX | IONIC_FAULT_SITE_ETH_TX.
#[export] Instance ionic_fault_site_eq_dec : EqDecision ionic_fault_site.
Proof. solve_decision. Defined.

Inductive ionic_fault_pattern_kind :=
  | IONIC_FAULT_PAT_EVERY | IONIC_FAULT_PAT_AFTER | IONIC_FAULT_PAT_BURST | IONIC_FAULT_PAT_SEQUENCE.
#[export] Instance ionic_fault_pattern_kind_eq_dec : EqDecision ionic_fault_pattern_kind.
Proof. solve_decision. Defined.

Inductive ionic_fault_effect := IONIC_FAULT_EFFECT_FAIL | IONIC_FAULT_EFFECT_DROP | IONIC_FAULT_EFFECT_NOBUF.
#[export] Instance ionic_fault_effect_eq_dec : EqDecision ionic_fault_effect.
Proof. solve_decision. Defined.

Definition IONIC_FAULT_SEQ_MAX : Z := 65536.

(** [f_seq] is [None] for NULL; its length is [seq_len]. *)
Record ionic_fault := Fault {
  f_site : ionic_fault_site; f_kind : ionic_fault_pattern_kind; f_n : Z; f_m : Z;
  f_seq : option (list Z); f_effect : ionic_fault_effect; f_status : Z;
  f_eligible : Z; f_fired : Z }.
#[export] Instance ionic_fault_eta : Eta ionic_fault := fun r =>
  Fault (f_site r) (f_kind r) (f_n r) (f_m r) (f_seq r) (f_effect r) (f_status r)
    (f_eligible r) (f_fired r).
#[export] Instance ionic_fault_zero : Inhabited ionic_fault := populate
  (Fault IONIC_FAULT_SITE_STATS_VALS IONIC_FAULT_PAT_EVERY 0 0 None IONIC_FAULT_EFFECT_FAIL 0 0 0).

Definition f_seq_len (f : ionic_fault) : Z := Z.of_nat (length (default [] (f_seq f))).

(** ** The tables of names *)
Definition sites : list ionic_fault_site :=
  [IONIC_FAULT_SITE_STATS_VALS; IONIC_FAULT_SITE_ETH_RX; IONIC_FAULT_SITE_ETH_TX].
Definition site_name (s : ionic_fault_site) : cstr :=
  match s with
  | IONIC_FAULT_SITE_STATS_VALS => chars "stats_vals"
  | IONIC_FAULT_SITE_ETH_RX => chars "eth_rx"
  | IONIC_FAULT_SITE_ETH_TX => chars "eth_tx"
  end.

Definition later_sites : list cstr :=
  [chars "rdma_rx"; chars "rdma_tx"; chars "qp_stats_vals"; chars "stats_publish"].
Definition later_patterns : list cstr := [chars "random"; chars "state"; chars "gemodel"].
Definition later_gates : list cstr :=
  [chars "window"; chars "start"; chars "stop"; chars "limit"; chars "seed"].

(** One row of the effects table: the sites it is valid for, and whether this
    build has it. *)
Record effect_row := EffectRow {
  e_name : cstr; e_effect : ionic_fault_effect; e_sites : list ionic_fault_site; e_built : bool }.
Definition on_stats : list ionic_fault_site := [IONIC_FAULT_SITE_STATS_VALS].
Definition on_eth_rx : list ionic_fault_site := [IONIC_FAULT_SITE_ETH_RX].
Definition effects : list effect_row :=
  let later n ss := EffectRow (chars n) IONIC_FAULT_EFFECT_FAIL ss false in
  [ EffectRow (chars "fail") IONIC_FAULT_EFFECT_FAIL on_stats true;
    EffectRow (chars "drop") IONIC_FAULT_EFFECT_DROP [IONIC_FAULT_SITE_ETH_RX; IONIC_FAULT_SITE_ETH_TX] true;
    EffectRow (chars "nobuf") IONIC_FAULT_EFFECT_NOBUF on_eth_rx true;
    later "stale" on_stats; later "zero" on_stats; later "reset" on_stats; later "wrap" on_stats;
    later "delay" on_stats; later "timeout" on_stats; later "hang" on_stats;
    later "corrupt" on_eth_rx; later "duplicate" on_eth_rx; later "pause" on_eth_rx;
    later "rnr" []; later "ecn" []; later "seq_err" []; later "cnp" []; later "retransmit" [];
    later "skip" [] ].

Definition status_names : list (cstr * Z) :=
  [ (chars "eversion", IONIC_RC_EVERSION); (chars "eopcode", IONIC_RC_EOPCODE);
    (chars "eio", IONIC_RC_EIO); (chars "eperm", IONIC_RC_EPERM); (chars "eqid", IONIC_RC_EQID);
    (chars "eqtype", IONIC_RC_EQTYPE); (chars "enoent", IONIC_RC_ENOENT); (chars "eintr", IONIC_RC_EINTR);
    (chars "eagain", IONIC_RC_EAGAIN); (chars "enomem", IONIC_RC_ENOMEM); (chars "efault", IONIC_RC_EFAULT);
    (chars "ebusy", IONIC_RC_EBUSY); (chars "eexist", IONIC_RC_EEXIST); (chars "einval", IONIC_RC_EINVAL);
    (chars "enospc", IONIC_RC_ENOSPC); (chars "erange", IONIC_RC_ERANGE); (chars "bad_addr", IONIC_RC_BAD_ADDR);
    (chars "dev_cmd", IONIC_RC_DEV_CMD); (chars "enosupp", IONIC_RC_ENOSUPP); (chars "error", IONIC_RC_ERROR);
    (chars "erdma", IONIC_RC_ERDMA); (chars "evfid", IONIC_RC_EVFID); (chars "ebad_fw", IONIC_RC_EBAD_FW) ].

(** The messages of ernic_set_err(), with the token they quote. *)
Inductive fault_err :=
  | ErrNeedsNumber (what : string) | ErrRange (t : cstr) (what : string) | ErrBadNumber (t : cstr) (what : string)
  | ErrAtLeast1 (what : string) | ErrUnclosedQuote | ErrSeqFile | ErrSeqEmpty | ErrSeqEmptyItem
  | ErrSeqItem (t : cstr) | ErrSeqLong | ErrSeqMemory | ErrPatternRequired | ErrBurstEvery
  | ErrBurstOrder (n m : Z) | ErrSeqNeedsPattern | ErrLaterPattern (t : cstr) | ErrUnknownPattern (t : cstr)
  | ErrLaterGate (t : cstr) | ErrUnexpected (t : cstr) | ErrEffectRequired | ErrEffectNeedsName
  | ErrUnknownEffect (t : cstr) | ErrEffectSite (t : cstr) | ErrLaterEffect (t : cstr)
  | ErrStatusNeedsName | ErrUnknownStatus (t : cstr) | ErrEmpty | ErrExpectedSite (t : cstr)
  | ErrLaterSite (t : cstr) | ErrUnknownSite (t : cstr) | ErrNoSet | ErrDuplicate (s : ionic_fault_site)
  | ErrMemory.

(** A parser that can fail with a message. *)
Abbreviation R A := (fault_err + A)%type.
#[local] Instance r_bind : MBind (sum fault_err) := fun A B k m =>
  match m with inl e => inl e | inr a => k a end.
#[local] Instance r_ret : MRet (sum fault_err) := fun A a => inr a.

(** ** Tokens *)
Definition is_space (c : Z) : bool :=
  (c =? 32) || (c =? 9) || (c =? 10) || (c =? 13) || (c =? 11) || (c =? 12).

Fixpoint skip_spaces (s : cstr) : cstr :=
  match s with c :: s' => if is_space c then skip_spaces s' else s | [] => [] end.
Fixpoint word (s : cstr) : cstr :=
  match s with c :: s' => if is_space c then [] else c :: word s' | [] => [] end.

(** [None] at the end of the spec, otherwise the token and what follows it. *)
Definition next_tok (p : cstr) : option (cstr * cstr) :=
  let s := skip_spaces p in
  if ch s =? 0 then None else Some (word s, drop (length (word s)) s).

Definition tok_is (t : cstr) (w : cstr) : bool := bool_decide (t = w).
Definition tok_in (t : cstr) (ws : list cstr) : bool := existsb (tok_is t) ws.

(** parse_u64(): the value, or -1 (not a number) or -2 (out of range). *)
Fixpoint parse_u64_loop (s : cstr) (v : Z) : Z + Z :=
  match s with
  | [] => inr v
  | c :: s' =>
      if (c <? 48) || (57 <? c) then inl (- 1)
      else
        let d := c - 48 in
        if (UINT64_MAX - d) / 10 <? v then inl (- 2) else parse_u64_loop s' (u64 (v * 10 + d))
  end.
Definition parse_u64 (s : cstr) : Z + Z :=
  if bool_decide (s = []) then inl (- 1) else parse_u64_loop s 0.

Definition need_u64 (p : cstr) (what : string) : R (Z * cstr) :=
  match next_tok p with
  | None => inl (ErrNeedsNumber what)
  | Some (t, p') =>
      match parse_u64 t with
      | inl rc => inl (if rc =? - 2 then ErrRange t what else ErrBadNumber t what)
      | inr v => inr (v, p')
      end
  end.

Definition need_count (p : cstr) (what : string) : R (Z * cstr) :=
  r ← need_u64 p what;
  if r.1 =? 0 then inl (ErrAtLeast1 what) else mret r.

(** ** Sequences *)
Fixpoint until_comma (s : cstr) : cstr :=
  match s with c :: s' => if c =? 44 then [] else c :: until_comma s' | [] => [] end.

(** The repeat count of one item, [None] for an item that is not one. *)
Definition seq_item (item : cstr) : option Z :=
  if negb ((ch item =? 48) || (ch item =? 49)) then None
  else if bool_decide (1 < length item)%nat then
    if negb (at_ item 1 =? 120) then None
    else match parse_u64 (drop 2 item) with
         | inr rep => if rep =? 0 then None else Some rep
         | inl _ => None
         end
  else Some 1.

(** One pass over the items; [fill] is the buffer in the second pass.  Each
    round drops at least the item's first character, so the length of the
    string is fuel enough. *)
Fixpoint seq_pass (fuel : nat) (s : cstr) (total : Z) (fill : option (list Z)) : R (Z * option (list Z)) :=
  match fuel with
  | O => inl ErrSeqEmptyItem
  | S fuel =>
      let item := until_comma s in
      if bool_decide (item = []) then inl ErrSeqEmptyItem
      else
        match seq_item item with
        | None => inl (ErrSeqItem item)
        | Some rep =>
            if IONIC_FAULT_SEQ_MAX - total <? rep then inl ErrSeqLong
            else
              let fill := (fun b => bput b (Z.to_nat total)
                             (replicate (Z.to_nat rep) (Z.b2z (ch item =? 49)))) <$> fill in
              let total := total + rep in
              if bool_decide (length item = length s) then inr (total, fill)
              else seq_pass fuel (drop (length item + 1) s) total fill
        end
  end.

(** [mem] is whether malloc() returns the buffer. *)
Definition parse_sequence (mem : bool) (t : cstr) (f : ionic_fault) : R ionic_fault :=
  s ← (if ch t =? 34 then
         if bool_decide (length t < 2)%nat || negb (at_ t (length t - 1) =? 34) then inl ErrUnclosedQuote
         else inr (take (length t - 2) (drop 1 t))
       else inr t : R cstr);
  if ch s =? 64 then inl ErrSeqFile
  else if bool_decide (s = []) then inl ErrSeqEmpty
  else
    r ← seq_pass (length s) s 0 None;
    if negb mem then inl ErrSeqMemory
    else
      let buf := zeros (Z.to_nat (r.1 : Z)) in
      r ← seq_pass (length s) s 0 (Some buf);
      mret (f <| f_seq := r.2 |>).

(** ** Patterns *)
Definition parse_pattern (mem : bool) (p : cstr) (f : ionic_fault) : R (ionic_fault * cstr) :=
  match next_tok p with
  | None => inl ErrPatternRequired
  | Some (t, p) =>
      if tok_is t (chars "effect") then inl ErrPatternRequired
      else if tok_is t (chars "every") then
        r ← need_count p "every";
        mret (f <| f_kind := IONIC_FAULT_PAT_EVERY |> <| f_n := r.1 |>, r.2)
      else if tok_is t (chars "after") then
        r ← need_count p "after";
        let f := f <| f_kind := IONIC_FAULT_PAT_AFTER |> <| f_m := 1 |> <| f_n := r.1 |> in
        match next_tok r.2 with
        | Some (t', p') =>
            if tok_is t' (chars "count") then
              r' ← need_count p' "count";
              mret (f <| f_m := r'.1 |>, r'.2)
            else mret (f, r.2)
        | None => mret (f, r.2)
        end
      else if tok_is t (chars "burst") then
        r ← need_count p "burst";
        match next_tok r.2 with
        | Some (t', p') =>
            if tok_is t' (chars "every") then
              r' ← need_count p' "burst every";
              if r'.1 <? r.1 then inl (ErrBurstOrder r.1 r'.1)
              else mret (f <| f_kind := IONIC_FAULT_PAT_BURST |> <| f_n := r.1 |> <| f_m := r'.1 |>, r'.2)
            else inl ErrBurstEvery
        | None => inl ErrBurstEvery
        end
      else if tok_is t (chars "sequence") then
        match next_tok p with
        | None => inl ErrSeqNeedsPattern
        | Some (t', p') =>
            f ← parse_sequence mem t' (f <| f_kind := IONIC_FAULT_PAT_SEQUENCE |>);
            mret (f, p')
        end
      else if tok_in t later_patterns then inl (ErrLaterPattern t)
      else inl (ErrUnknownPattern t)
  end.

(** ** Effects *)
Definition bad_tok (t : cstr) : fault_err :=
  if tok_in t later_gates then ErrLaterGate t else ErrUnexpected t.

(** The "status NAME" arguments of a fail effect.  Each round consumes two
    tokens, so the length of the string is fuel enough. *)
Fixpoint status_args (fuel : nat) (p : cstr) (status : Z) : R Z :=
  match fuel with
  | O => inr status
  | S fuel =>
      match next_tok p with
      | None => inr status
      | Some (t, p) =>
          if negb (tok_is t (chars "status")) then inl (bad_tok t)
          else
            match next_tok p with
            | None => inl ErrStatusNeedsName
            | Some (t, p) =>
                match find (fun r => tok_is t r.1) status_names with
                | None => inl (ErrUnknownStatus t)
                | Some r => status_args fuel p (u8 r.2)
                end
            end
      end
  end.

Definition parse_effect (p : cstr) (f : ionic_fault) : R ionic_fault :=
  match next_tok p with
  | None => inl ErrEffectRequired
  | Some (t, p) =>
      if negb (tok_is t (chars "effect")) then inl (bad_tok t)
      else
        match next_tok p with
        | None => inl ErrEffectNeedsName
        | Some (t, p) =>
            match find (fun r => tok_is t (e_name r)) effects with
            | None => inl (ErrUnknownEffect t)
            | Some r =>
                if negb (bool_decide (f_site f ∈ e_sites r)) then inl (ErrEffectSite t)
                else if negb (e_built r) then inl (ErrLaterEffect t)
                else
                  let f := f <| f_effect := e_effect r |> <| f_status := 0 |> in
                  if negb (bool_decide (e_effect r = IONIC_FAULT_EFFECT_FAIL)) then
                    match next_tok p with
                    | Some (t, _) => inl (bad_tok t)
                    | None => mret f
                    end
                  else
                    st ← status_args (S (length p)) p IONIC_RC_EIO;
                    mret (f <| f_status := st |>)
            end
        end
  end.

Definition ionic_fault_parse (mem : bool) (spec : cptr) : R ionic_fault :=
  match p ← spec; next_tok p with
  | None => inl ErrEmpty
  | Some (t, p) =>
      if bool_decide (length t < 2)%nat || negb (at_ t (length t - 1) =? 58) then inl (ErrExpectedSite t)
      else
        let t := take (length t - 1) t in
        match find (fun s => tok_is t (site_name s)) sites with
        | None => inl (if tok_in t later_sites then ErrLaterSite t else ErrUnknownSite t)
        | Some s =>
            r ← parse_pattern mem p (inhabitant <| f_site := s |>);
            parse_effect r.2 r.1
        end
  end.

(** ** Formatting *)

(** out_add() on what the buffer of [len] bytes holds so far and the length
    needed so far; vsnprintf() writes what fits, less its terminator. *)
Definition out_add (len : Z) (o : cstr * Z) (text : cstr) : cstr * Z :=
  let '(buf, pos) := o in
  (if pos <? len then take (Z.to_nat (len - 1)) (buf ++ text) else buf, pos + Z.of_nat (length text)).

Definition status_name (status : Z) : option cstr :=
  fst <$> find (fun r => r.2 =? status) status_names.

(** The run of equal bytes at the head of the sequence. *)
Fixpoint run_len (x : Z) (s : list Z) : nat :=
  match s with y :: s' => if Bool.eqb (negb (y =? 0)) (negb (x =? 0)) then S (run_len x s') else O | [] => O end.

Fixpoint seq_text (fuel : nat) (first : bool) (s : list Z) : list cstr :=
  match fuel, s with
  | S fuel, x :: _ =>
      let n := run_len x s in
      ((if first then [] else chars ",") ++ [if negb (x =? 0) then 49 else 48]) ::
      (if bool_decide (1 < n)%nat then [chars "x" ++ print_u64 (Z.of_nat n)] else []) ++
      seq_text fuel false (drop n s)
  | _, _ => []
  end.

(** The pieces out_add() is given, in order. *)
Definition format_pieces (f : ionic_fault) : list cstr :=
  [site_name (f_site f) ++ chars ": "] ++
  match f_kind f with
  | IONIC_FAULT_PAT_EVERY => [chars "every " ++ print_u64 (f_n f)]
  | IONIC_FAULT_PAT_AFTER => [chars "after " ++ print_u64 (f_n f) ++ chars " count " ++ print_u64 (f_m f)]
  | IONIC_FAULT_PAT_BURST => [chars "burst " ++ print_u64 (f_n f) ++ chars " every " ++ print_u64 (f_m f)]
  | IONIC_FAULT_PAT_SEQUENCE =>
      let s := default [] (f_seq f) in
      [chars "sequence " ++ [34]] ++ seq_text (length s) true s ++ [[34]]
  end ++
  match f_effect f with
  | IONIC_FAULT_EFFECT_FAIL =>
      match status_name (f_status f) with
      | Some st => [chars " effect fail status " ++ st]
      | None => [chars " effect fail status " ++ print_u64 (f_status f)]
      end
  | IONIC_FAULT_EFFECT_DROP => [chars " effect drop"]
  | IONIC_FAULT_EFFECT_NOBUF => [chars " effect nobuf"]
  end.

(** What the buffer holds, and the length the text needed. *)
Definition ionic_fault_format (f : ionic_fault) (len : Z) : cstr * Z :=
  let '(buf, pos) := foldl (out_add len) ([], 0) (format_pieces f) in
  (buf, if INT_MAX <? pos then - 1 else pos).

(** ** Events *)
Definition seq_fires (f : ionic_fault) (i : Z) : bool :=
  negb (default [] (f_seq f) !!! Z.to_nat i =? 0).

(** Whether the pattern fires on event [k]. *)
Definition pattern_fires (f : ionic_fault) (k : Z) : bool :=
  match f_kind f with
  | IONIC_FAULT_PAT_EVERY => negb (f_n f =? 0) && (k mod f_n f =? 0)
  | IONIC_FAULT_PAT_AFTER => (f_n f <=? k) && (u64 (k - f_n f) <? f_m f)
  | IONIC_FAULT_PAT_BURST => negb (f_m f =? 0) && ((k - 1) mod f_m f <? f_n f)
  | IONIC_FAULT_PAT_SEQUENCE => negb (f_seq_len f =? 0) && seq_fires f ((k - 1) mod f_seq_len f)
  end.

Definition ionic_fault_event : ST ionic_fault bool := fun f =>
  if f_eligible f =? UINT64_MAX then (false, f)
  else
    let k := u64 (f_eligible f + 1) in
    let f := f <| f_eligible := k |> in
    let fire := pattern_fires f k in
    (fire, if fire && negb (f_fired f =? UINT64_MAX) then f <| f_fired ::= fun n => u64 (n + 1) |> else f).

(** ** The fault set *)
Abbreviation ionic_fault_set := (gmap Z ionic_fault).
Definition site_index (s : ionic_fault_site) : Z :=
  match s with
  | IONIC_FAULT_SITE_STATS_VALS => 0 | IONIC_FAULT_SITE_ETH_RX => 1 | IONIC_FAULT_SITE_ETH_TX => 2
  end.
Definition ionic_fault_set_new : ionic_fault_set := ∅.
Definition ionic_fault_set_add (mem seq_mem : bool) (set : option ionic_fault_set) (spec : cptr) : R ionic_fault_set :=
  match set with
  | None => inl ErrNoSet
  | Some set =>
      f ← ionic_fault_parse seq_mem spec;
      match set !! site_index (f_site f) with
      | Some _ => inl (ErrDuplicate (f_site f))
      | None => if mem then mret (<[site_index (f_site f) := f]> set) else inl ErrMemory
      end
  end.
Definition ionic_fault_set_get (set : option ionic_fault_set) (site : ionic_fault_site) : option ionic_fault :=
  set ← set; set !! site_index site.
