(* ===== verification/FaultProps.v ===== *)
(** * Fault injection: what the parser, the formatter and the patterns do

    A parsed fault is well formed; its canonical text parses back to it; and
    its events fire exactly where its pattern says. *)
From S2P Require Export Fault.
From stdpp Require Import strings.
#[local] Open Scope Z_scope.

(** ** Well-formed faults *)
Definition pattern_wf (f : ionic_fault) : Prop :=
  match f_kind f with
  | IONIC_FAULT_PAT_EVERY => 1 <= f_n f <= UINT64_MAX /\ f_m f = 0 /\ f_seq f = None
  | IONIC_FAULT_PAT_AFTER => 1 <= f_n f <= UINT64_MAX /\ 1 <= f_m f <= UINT64_MAX /\ f_seq f = None
  | IONIC_FAULT_PAT_BURST => 1 <= f_n f <= f_m f /\ f_m f <= UINT64_MAX /\ f_seq f = None
  | IONIC_FAULT_PAT_SEQUENCE =>
      f_n f = 0 /\ f_m f = 0 /\
      exists s, f_seq f = Some s /\ 1 <= Z.of_nat (length s) <= IONIC_FAULT_SEQ_MAX /\ Forall (fun x => x = 0 \/ x = 1) s
  end.

Definition effect_wf (f : ionic_fault) : Prop :=
  match f_effect f with
  | IONIC_FAULT_EFFECT_FAIL => f_site f = IONIC_FAULT_SITE_STATS_VALS /\ is_Some (status_name (f_status f))
  | IONIC_FAULT_EFFECT_DROP => f_site f <> IONIC_FAULT_SITE_STATS_VALS /\ f_status f = 0
  | IONIC_FAULT_EFFECT_NOBUF => f_site f = IONIC_FAULT_SITE_ETH_RX /\ f_status f = 0
  end.

Definition fault_wf (f : ionic_fault) : Prop :=
  pattern_wf f /\ effect_wf f /\ f_eligible f = 0 /\ f_fired f = 0.

(** ** Numbers *)
Lemma parse_u64_loop_spec s v :
  fits 64 v ->
  match parse_u64_loop s v with
  | inr r => digits s /\ r = dec_from v s /\ r <= UINT64_MAX
  | inl _ => ~ (digits s /\ dec_from v s <= UINT64_MAX)
  end.
Proof.
  revert v. induction s as [|c s IH]; intros v Hv; cbn [parse_u64_loop].
  { unfold fits, UINT64_MAX in *. split; [constructor|]. cbn. lia. }
  assert (digits (c :: s) <-> 48 <= c <= 57 /\ digits s) as Hds.
  { unfold digits. by rewrite Forall_cons, is_digit_iff. }
  destruct ((c <? 48) || (57 <? c)) eqn:Hc; bdestr.
  { rewrite Hds. lia. }
  unfold fits, UINT64_MAX in *. destruct (_ <? v) eqn:Ho; bdestr.
  - intros [Hx Hm]. apply Hds in Hx as [_ Hx]. cbn in Hm.
    pose proof (dec_from_ge (10 * v + (c - c_0)) s) as Hg. unfold dec_from, c_0 in *. specialize (Hg ltac:(lia) Hx).
    Z.to_euclidean_division_equations; lia.
  - rewrite wrap_id by (unfold fits; Z.to_euclidean_division_equations; lia).
    specialize (IH (v * 10 + (c - 48)) ltac:(Z.to_euclidean_division_equations; lia)).
    replace (v * 10 + (c - 48)) with (10 * v + (c - c_0)) in * by (unfold c_0; lia).
    destruct (parse_u64_loop _ _).
    + rewrite Hds. cbn [dec_from foldl]. intros [[_ Hx] Hm]. by apply IH.
    + rewrite Hds. cbn [dec_from foldl]. destruct IH as (? & ? & ?). split_and!; [lia..|done|done|done].
Qed.

Lemma parse_u64_inr s v : parse_u64 s = inr v -> 0 <= v <= UINT64_MAX.
Proof.
  unfold parse_u64. case_bool_decide; [done|]. intros He.
  pose proof (parse_u64_loop_spec s 0 ltac:(unfold fits; lia)) as Hs. rewrite He in Hs.
  destruct Hs as (Hd & -> & Hm). split; [|done]. by apply dec_from_ge.
Qed.

Lemma parse_print_u64 n : fits 64 n -> parse_u64 (print_u64 n) = inr n.
Proof.
  intros Hn. destruct (print_u64_spec n Hn) as (Hv & Hd & Hne). unfold parse_u64. rewrite bool_decide_eq_false_2 by done.
  pose proof (parse_u64_loop_spec (print_u64 n) 0 ltac:(unfold fits; lia)) as Hs.
  change (dec_from 0 (print_u64 n)) with (dec_value (print_u64 n)) in Hs. rewrite Hv in Hs.
  destruct (parse_u64_loop _ _) as [e|r].
  - exfalso. apply Hs. split; [done|]. unfold fits, UINT64_MAX in *. lia.
  - by destruct Hs as (_ & -> & _).
Qed.

(** ** Tokens *)
Definition plain (w : cstr) : Prop := w <> [] /\ Forall (fun c => is_space c = false /\ c <> 0) w.
Definition ends (rest : cstr) : Prop := rest = [] \/ is_space (ch rest) = true.

Lemma word_app w rest : Forall (fun c => is_space c = false /\ c <> 0) w -> ends rest -> word (w ++ rest) = w.
Proof.
  intros Hw He. induction Hw as [|c w [Hc _] _ IH]; cbn.
  - destruct He as [->|He]; [done|]. destruct rest as [|c r]; [done|]. cbn in *. by rewrite He.
  - by rewrite Hc, IH.
Qed.

Lemma next_tok_word w rest : plain w -> ends rest -> next_tok (w ++ rest) = Some (w, rest).
Proof.
  intros [Hn Hw] He. unfold next_tok.
  assert (skip_spaces (w ++ rest) = w ++ rest) as ->.
  { destruct Hw as [|c w [Hc _] _]; [done|]. cbn. by rewrite Hc. }
  assert ((ch (w ++ rest) =? 0) = false) as ->.
  { destruct Hw as [|c w [_ Hc] _]; [done|]. cbn. by apply Z.eqb_neq. }
  rewrite word_app by done. by rewrite drop_app_length.
Qed.

Lemma next_tok_space s : next_tok (32 :: s) = next_tok s.
Proof. done. Qed.

Lemma next_tok_after w rest : plain w -> ends rest -> next_tok (32 :: w ++ rest) = Some (w, rest).
Proof. rewrite next_tok_space. apply next_tok_word. Qed.

Lemma plain_digits s : s <> [] -> digits s -> plain s.
Proof.
  intros Hn Hd. split; [done|]. eapply Forall_impl; [exact Hd|]. intros c Hc. apply is_digit_iff in Hc.
  unfold is_space. rewrite !orb_false_iff, !Z.eqb_neq. lia.
Qed.

Lemma plain_u64 n : fits 64 n -> plain (print_u64 n).
Proof. intros Hn. destruct (print_u64_spec n Hn) as (_ & ? & ?). by apply plain_digits. Qed.

Lemma need_count_print n rest what :
  1 <= n <= UINT64_MAX -> ends rest -> need_count (32 :: print_u64 n ++ rest) what = inr (n, rest).
Proof.
  intros Hn He. assert (fits 64 n) as Hf by (unfold fits, UINT64_MAX in *; lia).
  unfold need_count, need_u64. rewrite next_tok_after by (done || by apply plain_u64).
  rewrite parse_print_u64 by done. cbn. rewrite (proj2 (Z.eqb_neq n 0)) by lia. done.
Qed.

Lemma need_count_inr p what r : need_count p what = inr r -> 1 <= r.1 <= UINT64_MAX.
Proof.
  unfold need_count, need_u64. destruct (next_tok p) as [[t p']|]; [|done]. destruct (parse_u64 t) as [e|v] eqn:Hv; [done|].
  cbn. destruct (v =? 0) eqn:Hz; [done|]. intros [= <-]. cbn. apply parse_u64_inr in Hv. bdestr. lia.
Qed.

(** ** Sequences *)
Abbreviation bits s := (Forall (fun x => x = 0 \/ x = 1) s).

(** One run as the formatter writes it. *)
Definition run_text (x : Z) (n : nat) : cstr :=
  (if negb (x =? 0) then 49 else 48) :: (if bool_decide (1 < n)%nat then chars "x" ++ print_u64 (Z.of_nat n) else []).

Definition seq_str (fuel : nat) (first : bool) (s : list Z) : cstr := concat (seq_text fuel first s).

Lemma seq_str_cons fuel first x s :
  seq_str (S fuel) first (x :: s) =
  (if first then [] else chars ",") ++ run_text x (run_len x (x :: s)) ++ seq_str fuel false (drop (run_len x (x :: s)) (x :: s)).
Proof.
  unfold seq_str, run_text. cbn [seq_text]. set (n := run_len _ _). cbn [concat]. rewrite concat_app.
  case_bool_decide; cbn [concat]; rewrite ?app_nil_r, <-!app_assoc; done.
Qed.

Lemma run_len_pos x s : (1 <= run_len x (x :: s))%nat.
Proof. cbn. rewrite Bool.eqb_reflx. lia. Qed.

Lemma run_len_take x s : bits (x :: s) ->
  let n := run_len x (x :: s) in (n <= length (x :: s))%nat /\ take n (x :: s) = replicate n x.
Proof.
  cbn zeta. intros Hb. apply Forall_cons in Hb as Hx. destruct Hx as [Hx _]. revert Hb. generalize (x :: s). clear s.
  intros s Hb. induction Hb as [|y s Hy _ IH]; cbn; [done|].
  destruct (Bool.eqb _ _) eqn:He; cbn; [|split; [lia|done]]. destruct IH as [Hl Ht].
  apply Bool.eqb_prop in He. assert (y = x) as -> by (destruct Hx, Hy; subst; done).
  split; [lia|]. by rewrite Ht.
Qed.

Lemma run_no_comma x n : fits 64 (Z.of_nat n) -> Forall (fun c => c <> 44) (run_text x n).
Proof.
  intros Hn. unfold run_text. constructor; [by destruct (negb _)|]. case_bool_decide; [|constructor].
  cbn. constructor; [done|]. destruct (print_u64_spec _ Hn) as (_ & Hd & _).
  eapply Forall_impl; [exact Hd|]. intros c Hc. apply is_digit_iff in Hc. lia.
Qed.

Lemma until_comma_app w rest : Forall (fun c => c <> 44) w -> (rest = [] \/ ch rest = 44) -> until_comma (w ++ rest) = w.
Proof.
  intros Hw Hr. induction Hw as [|c w Hc _ IH]; cbn.
  - destruct rest as [|c r]; [done|]. destruct Hr as [?|Hr]; [done|]. cbn in *. by rewrite Hr.
  - by rewrite (proj2 (Z.eqb_neq c 44)), IH by done.
Qed.

Lemma run_item x n : (1 <= n)%nat -> fits 64 (Z.of_nat n) -> seq_item (run_text x n) = Some (Z.of_nat n).
Proof.
  intros Hn Hf. pose proof (parse_print_u64 _ Hf) as Hp. unfold seq_item, run_text.
  generalize dependent (print_u64 (Z.of_nat n)). intros pr Hp. cbn [ch].
  assert (((if negb (x =? 0) then 49 else 48) =? 48) || ((if negb (x =? 0) then 49 else 48) =? 49) = true) as ->
    by (by destruct (negb _)).
  cbn [negb]. change (chars "x") with [120]. destruct (decide (1 < n)%nat) as [H1|H1].
  - rewrite (bool_decide_eq_true_2 (1 < n)%nat) by done. rewrite bool_decide_eq_true_2 by (cbn; lia).
    unfold at_. cbn. rewrite drop_0, Hp. by rewrite (proj2 (Z.eqb_neq _ 0)) by lia.
  - rewrite (bool_decide_eq_false_2 (1 < n)%nat) by done. cbn. f_equal. lia.
Qed.

Lemma seq_str_false fuel s : s = [] \/ seq_str (S fuel) false s = 44 :: seq_str (S fuel) true s.
Proof. destruct s as [|x s]; [by left|right]. by rewrite !seq_str_cons. Qed.

(** Both passes accept the text of a sequence; the second fills it in. *)
Lemma seq_pass_text k fuel fuel' s total fill :
  (length s <= k)%nat -> (length s <= fuel)%nat -> s <> [] -> bits s ->
  0 <= total -> total + Z.of_nat (length s) <= IONIC_FAULT_SEQ_MAX ->
  (length (seq_str fuel true s) <= fuel')%nat ->
  seq_pass fuel' (seq_str fuel true s) total fill =
  inr (total + Z.of_nat (length s), (fun b => bput b (Z.to_nat total) s) <$> fill).
Proof.
  revert fuel fuel' s total fill. induction k as [|k IH]; intros fuel fuel' s total fill Hk Hf Hn Hb Ht Hm Hf'.
  { destruct s; [done|cbn in Hk; lia]. }
  destruct s as [|x s]; [done|]. destruct fuel as [|fuel]; [cbn in Hf; lia|].
  pose proof (run_len_pos x s) as Hpos. destruct (run_len_take x s Hb) as [Hle Htake].
  rewrite seq_str_cons in Hf' |- *. cbn [app] in *. set (n := run_len x (x :: s)) in *. set (rest := drop n (x :: s)) in *.
  assert (fits 64 (Z.of_nat n)) as Hnf by (unfold fits, IONIC_FAULT_SEQ_MAX in *; lia).
  assert (length rest = length (x :: s) - n)%nat as Hlr by (subst rest; by rewrite length_drop).
  assert (rest = [] /\ seq_str fuel false rest = [] \/
          rest <> [] /\ seq_str fuel false rest = 44 :: seq_str fuel true rest) as Hrest.
  { destruct fuel as [|fuel].
    - left. assert (rest = []) as -> by (apply nil_length_inv; cbn in *; lia). done.
    - destruct (seq_str_false fuel rest) as [->|He]; [by left|]. right. split; [|done]. by intros ->. }
  destruct fuel' as [|fuel']; [cbn in Hf'; lia|]. cbn [seq_pass].
  rewrite until_comma_app; [|by apply run_no_comma|destruct Hrest as [[_ ->]|[_ ->]]; [by left|by right]].
  rewrite bool_decide_eq_false_2 by done. rewrite run_item by done.
  rewrite (proj2 (Z.ltb_ge _ _)) by lia.
  assert (Z.b2z (ch (run_text x n) =? 49) = x) as ->.
  { apply Forall_cons in Hb as [[->| ->] _]; done. }
  rewrite Nat2Z.id, <-Htake.
  assert (x :: s = take n (x :: s) ++ rest) as Hs by (subst rest; by rewrite take_drop).
  clearbody rest n.
  destruct Hrest as [[Hr ->]|[Hr He]].
  - rewrite app_nil_r, bool_decide_eq_true_2 by done.
    assert (n = length (x :: s)) as Hnl by (apply (f_equal length) in Hr; cbn in *; lia).
    rewrite Hnl, firstn_all. done.
  - rewrite He in *. rewrite bool_decide_eq_false_2 by (rewrite length_app; cbn; lia).
    rewrite drop_app_ge by lia. replace (length _ + 1 - length _)%nat with 1%nat by lia. cbn [drop]. rewrite ?drop_0.
    rewrite length_app in Hf'. cbn [length] in *.
    rewrite IH; [|lia|lia|done| |lia|lia|lia].
    + f_equal. f_equal; [lia|]. destruct fill as [b|]; [|done]. cbn. f_equal. unfold bput.
      transitivity (list_inserts (Z.to_nat total) (take n (x :: s) ++ rest) b); [|by rewrite <-Hs].
      rewrite list_inserts_app_l, length_take. f_equal. cbn [length]. lia.
    + rewrite Hs in Hb. by apply Forall_app in Hb as [_ ?].
Qed.

(** ** The canonical text *)
Definition fault_text (f : ionic_fault) : cstr := concat (format_pieces f).

Lemma out_add_all len pieces buf pos text :
  buf = take (Z.to_nat (len - 1)) text -> pos = Z.of_nat (length text) -> 0 < len ->
  foldl (out_add len) (buf, pos) pieces =
    (take (Z.to_nat (len - 1)) (text ++ concat pieces), Z.of_nat (length (text ++ concat pieces))).
Proof.
  intros -> -> Hlen. revert text. induction pieces as [|t ps IH]; intros text; cbn [foldl concat].
  { by rewrite app_nil_r. }
  cbn [out_add]. rewrite app_assoc, <-IH. f_equal. f_equal; [|rewrite length_app; lia].
  destruct (_ <? _) eqn:Hl; bdestr.
  - by rewrite (take_ge text) by lia.
  - by rewrite take_app_le by lia.
Qed.

Lemma seq_chars fuel first s :
  bits s -> Z.of_nat (length s) <= IONIC_FAULT_SEQ_MAX -> Forall (fun c => is_space c = false /\ c <> 0) (seq_str fuel first s).
Proof.
  revert first s. induction fuel as [|fuel IH]; intros first s Hb Hl; [by destruct first, s; constructor|].
  destruct s as [|x s]; [constructor|]. rewrite seq_str_cons. pose proof (run_len_take x s Hb) as [Hle _].
  set (n := run_len x (x :: s)) in *.
  assert (plain (print_u64 (Z.of_nat n))) as [_ Hp].
  { apply plain_u64. unfold fits, IONIC_FAULT_SEQ_MAX in *. lia. }
  rewrite !Forall_app. split_and!.
  - destruct first; [constructor|]. vm_compute. repeat constructor; discriminate.
  - unfold run_text. constructor; [by destruct (negb _)|]. case_bool_decide; [|constructor].
    apply Forall_app. split; [|done]. vm_compute. repeat constructor; discriminate.
  - apply IH; [by apply Forall_drop|]. rewrite length_drop. lia.
Qed.

Lemma parse_sequence_text s f :
  bits s -> 1 <= Z.of_nat (length s) <= IONIC_FAULT_SEQ_MAX ->
  parse_sequence true (34 :: seq_str (length s) true s ++ [34]) f = inr (f <| f_seq := Some s |>).
Proof.
  intros Hb Hl. assert (s <> []) as Hn by (intros ->; cbn in Hl; lia).
  set (t := seq_str (length s) true s).
  assert (exists c r, t = c :: r /\ c <> 64) as (c & r & Ht & Hc).
  { subst t. destruct s as [|x s]; [done|]. cbn [length]. rewrite seq_str_cons. unfold run_text. cbn [app].
    eexists _, _. split; [reflexivity|]. by destruct (negb _). }
  unfold parse_sequence. cbn [ch]. change (34 =? 34) with true. cbv iota.
  assert (at_ (34 :: t ++ [34]) (length (34 :: t ++ [34]) - 1) = 34) as Hlast.
  { unfold at_. cbn [length]. rewrite length_app. cbn [length].
    replace (S (length t + 1) - 1)%nat with (S (length t)) by lia. cbn [drop]. by rewrite drop_app_length. }
  rewrite Hlast, bool_decide_eq_false_2 by (cbn [length]; rewrite length_app; cbn; lia). cbn [orb negb Z.eqb Pos.eqb].
  cbn [mbind r_bind].
  assert (take (length (34 :: t ++ [34]) - 2) (drop 1 (34 :: t ++ [34])) = t) as ->.
  { cbn [length drop]. rewrite length_app, drop_0. cbn [length].
    replace (S (length t + 1) - 2)%nat with (length t) by lia. by rewrite take_app_length. }
  rewrite Ht at 1. cbn [ch]. rewrite (proj2 (Z.eqb_neq c 64)) by done.
  rewrite bool_decide_eq_false_2 by (by rewrite Ht).
  subst t. rewrite (seq_pass_text (length s)) by (done || lia). cbn [mbind r_bind fst negb].
  rewrite (seq_pass_text (length s)) by (done || lia). cbn. f_equal. f_equal. f_equal.
  rewrite Z.add_0_l, Nat2Z.id. unfold bput, zeros. rewrite <-(app_nil_r s) at 1.
  by rewrite list_inserts_0_l by (by rewrite length_replicate).
Qed.

#[local] Opaque print_u64.

(** Decides the keyword tests at the head of the goal. *)
Ltac toks :=
  repeat match goal with
  | |- context [tok_is ?a ?b] =>
      let v := eval vm_compute in (tok_is a b) in
      let H := fresh in assert (tok_is a b = v) as H by (vm_compute; reflexivity); rewrite H; clear H
  end; cbv iota.

Ltac plain_tac := first
  [ assumption | solve [auto] | lia | split; [discriminate|vm_compute; repeat constructor; discriminate] ].
Ltac flat := repeat progress (rewrite <-?app_assoc; cbn [app]).

(** The parser reads a pattern back from its text. *)
Definition pattern_text (f : ionic_fault) : cstr :=
  match f_kind f with
  | IONIC_FAULT_PAT_EVERY => chars "every" ++ 32 :: print_u64 (f_n f)
  | IONIC_FAULT_PAT_AFTER => chars "after" ++ 32 :: print_u64 (f_n f) ++ 32 :: chars "count" ++ 32 :: print_u64 (f_m f)
  | IONIC_FAULT_PAT_BURST => chars "burst" ++ 32 :: print_u64 (f_n f) ++ 32 :: chars "every" ++ 32 :: print_u64 (f_m f)
  | IONIC_FAULT_PAT_SEQUENCE =>
      let s := default [] (f_seq f) in chars "sequence" ++ 32 :: 34 :: seq_str (length s) true s ++ [34]
  end.

Lemma ends_space r : ends (32 :: r).
Proof. by right. Qed.
#[local] Hint Resolve ends_space : core.

Lemma parse_pattern_text f rest :
  pattern_wf f -> ends rest ->
  parse_pattern true (32 :: pattern_text f ++ rest) (inhabitant <| f_site := f_site f |>) =
  inr (Fault (f_site f) (f_kind f) (f_n f) (f_m f) (f_seq f) IONIC_FAULT_EFFECT_FAIL 0 0 0, rest).
Proof.
  intros Hw He. unfold pattern_text, parse_pattern, pattern_wf in *. destruct f as [site kind n m sq eff st el fi]. cbn [f_kind f_n f_m f_seq f_site] in *.
  destruct kind; flat; rewrite next_tok_after by plain_tac.
  - destruct Hw as (Hn & -> & ->). toks. rewrite need_count_print by plain_tac. reflexivity.
  - destruct Hw as (Hn & Hm & ->). toks. rewrite need_count_print by plain_tac. cbn [mbind r_bind snd fst].
    rewrite next_tok_after by plain_tac. toks. rewrite need_count_print by plain_tac. reflexivity.
  - destruct Hw as (Hn & Hm & ->). toks. rewrite need_count_print by plain_tac. cbn [mbind r_bind snd fst].
    rewrite next_tok_after by plain_tac. toks. rewrite need_count_print by plain_tac. cbn [mbind r_bind snd fst].
    rewrite (proj2 (Z.ltb_ge _ _)) by lia. reflexivity.
  - destruct Hw as (-> & -> & s & -> & Hl & Hb). cbn [default id]. toks. cbn [id].
    replace (34 :: seq_str (length s) true s ++ 34 :: rest) with ((34 :: seq_str (length s) true s ++ [34]) ++ rest)
      by (cbn [app]; by rewrite <-app_assoc).
    rewrite next_tok_after; [|split; [done|]|done].
    + rewrite parse_sequence_text by done. reflexivity.
    + constructor; [done|]. apply Forall_app. split; [apply seq_chars; [done|lia]|]. by repeat constructor.
Qed.

Definition effect_text (f : ionic_fault) : cstr :=
  chars "effect" ++ 32 ::
  match f_effect f with
  | IONIC_FAULT_EFFECT_FAIL => chars "fail" ++ 32 :: chars "status" ++ 32 :: default [] (status_name (f_status f))
  | IONIC_FAULT_EFFECT_DROP => chars "drop"
  | IONIC_FAULT_EFFECT_NOBUF => chars "nobuf"
  end.

Lemma parse_effect_text f :
  effect_wf f ->
  parse_effect (32 :: effect_text f) (f <| f_effect := IONIC_FAULT_EFFECT_FAIL |> <| f_status := 0 |>) = inr f.
Proof.
  destruct f as [site kind n m sq eff st el fi]. unfold effect_wf, effect_text, status_name. cbn [f_effect f_site f_status].
  intros Hw. destruct eff.
  - destruct Hw as [-> [nm Hs]]. rewrite Hs. apply fmap_Some in Hs as (r & Hf & ->).
    apply find_some in Hf as [Hin He]. apply Z.eqb_eq in He as <-.
    repeat (destruct Hin as [<-|Hin]; [vm_compute; reflexivity|]). done.
  - destruct Hw as [Hsite ->]. destruct site; [done|vm_compute; reflexivity..].
  - destruct Hw as [-> ->]. vm_compute. reflexivity.
Qed.

Lemma fault_text_split f :
  effect_wf f ->
  fault_text f = (site_name (f_site f) ++ [58]) ++ 32 :: pattern_text f ++ 32 :: effect_text f.
Proof.
  intros Hw. unfold fault_text, format_pieces, pattern_text, effect_text, effect_wf in *.
  rewrite !concat_app. cbn [concat app]. rewrite !app_nil_r, <-!app_assoc. f_equal.
  change (chars ": ") with [58; 32]. cbn [app]. do 2 f_equal. f_equal.
  - destruct (f_kind f); cbn [concat]; rewrite ?app_nil_r; try done.
    rewrite concat_app. cbn [concat]. rewrite app_nil_r. unfold seq_str. rewrite <-app_assoc. done.
  - destruct (f_effect f); cbn [concat]; rewrite ?app_nil_r; try done.
    destruct Hw as [_ [st ->]]. cbn [concat]. by rewrite app_nil_r.
Qed.

Lemma fault_text_parses f : fault_wf f -> ionic_fault_parse true (Some (fault_text f)) = inr f.
Proof.
  intros (Hp & He & Hel & Hfi). rewrite fault_text_split by done. unfold ionic_fault_parse. cbn [mbind option_bind].
  rewrite next_tok_word; [|by destruct (f_site f); plain_tac|by right].
  set (t := site_name (f_site f) ++ [58]).
  assert (bool_decide (length t < 2)%nat || negb (at_ t (length t - 1) =? 58) = false) as ->
    by (subst t; by destruct (f_site f)).
  assert (find (fun s => tok_is (take (length t - 1) t) (site_name s)) sites = Some (f_site f)) as ->
    by (subst t; by destruct (f_site f)).
  rewrite parse_pattern_text by (done || by right). cbn [mbind r_bind fst snd].
  pose proof (parse_effect_text f He) as Hpe. destruct f as [site kind n m sq eff st el fi]. cbn in Hel, Hfi. subst. exact Hpe.
Qed.

(** ** Parsed faults are well formed *)
Lemma bits_inserts off src b : bits src -> bits b -> bits (bput b off src).
Proof. intros. by apply Forall_inserts. Qed.

Lemma seq_item_pos item rep : seq_item item = Some rep -> 1 <= rep.
Proof.
  unfold seq_item. destruct (negb _); [done|]. case_bool_decide; [|by intros [= <-]].
  destruct (negb _); [done|]. destruct (parse_u64 _) as [e|v] eqn:Hv; [done|]. apply parse_u64_inr in Hv.
  destruct (Z.eqb_spec v 0); [done|]. intros [= <-]. lia.
Qed.

Lemma seq_pass_inr fuel s total fill r :
  0 <= total -> seq_pass fuel s total fill = inr r ->
  total < r.1 <= IONIC_FAULT_SEQ_MAX /\
  match fill, r.2 with
  | None, None => True
  | Some b, Some b' => length b' = length b /\ (bits b -> bits b')
  | _, _ => False
  end.
Proof.
  revert s total fill. induction fuel as [|fuel IH]; intros s total fill Ht; [done|]. cbn [seq_pass].
  case_bool_decide; [done|]. destruct (seq_item _) as [rep|] eqn:Hi; [|done].
  apply seq_item_pos in Hi as Hrep.
  destruct (_ <? rep) eqn:Hm; bdestr; [done|]. set (fill' := _ <$> fill).
  assert (match fill, fill' with
          | None, None => True | Some b, Some b' => length b' = length b /\ (bits b -> bits b') | _, _ => False end) as Hf.
  { subst fill'. destruct fill as [b|]; [|done]. cbn. unfold bput at 1. rewrite length_inserts. split; [done|].
    intros Hb. apply bits_inserts; [|done]. apply Forall_replicate. destruct (_ =? 49); cbn; auto. }
  case_bool_decide.
  - intros [= <-]. cbn. split; [lia|done].
  - intros He. apply IH in He; [|lia]. destruct He as [Hr He]. split; [lia|].
    destruct fill as [b|], fill' as [b1|], r.2 as [b2|]; try done. destruct Hf, He. split; [congruence|tauto].
Qed.

Lemma parse_sequence_inr mem t f r :
  parse_sequence mem t f = inr r ->
  exists s, r = f <| f_seq := Some s |> /\ 1 <= Z.of_nat (length s) <= IONIC_FAULT_SEQ_MAX /\ bits s.
Proof.
  unfold parse_sequence. destruct (if ch t =? 34 then _ else _) as [e|s]; [done|]. cbn [mbind r_bind].
  destruct (ch s =? 64); [done|]. case_bool_decide; [done|].
  destruct (seq_pass _ s 0 None) as [e|r0] eqn:H0; [done|]. apply seq_pass_inr in H0 as [H0 _]; [|done].
  destruct mem; [|done]. cbn [negb mbind r_bind]. cbv zeta.
  destruct (seq_pass _ s 0 (Some _)) as [e|r1] eqn:H1; [done|]. apply seq_pass_inr in H1 as [_ H1]; [|done].
  destruct (r1.2) as [b|] eqn:Hb; [|done]. cbn. intros [= <-]. exists b. rewrite Hb. split; [done|].
  destruct H1 as [Hl Hbits]. unfold zeros in *. rewrite length_replicate in Hl. split; [lia|].
  apply Hbits, Forall_replicate. auto.
Qed.

Lemma parse_pattern_inr mem p s r :
  parse_pattern mem p (inhabitant <| f_site := s |>) = inr r ->
  pattern_wf r.1 /\ f_site r.1 = s /\ f_eligible r.1 = 0 /\ f_fired r.1 = 0.
Proof.
  unfold parse_pattern, pattern_wf. destruct (next_tok p) as [[t p1]|]; [|done].
  destruct (tok_is t (chars "effect")); [done|]. destruct (tok_is t (chars "every")).
  { destruct (need_count p1 _) as [e|r1] eqn:H1; [done|]. apply need_count_inr in H1. intros [= <-]. done. }
  destruct (tok_is t (chars "after")).
  { destruct (need_count p1 _) as [e|r1] eqn:H1; [done|]. apply need_count_inr in H1. cbn [mbind r_bind].
    destruct (next_tok r1.2) as [[t' p']|]; [destruct (tok_is t' _)|].
    - destruct (need_count p' _) as [e|r2] eqn:H2; [done|]. apply need_count_inr in H2. intros [= <-]. done.
    - intros [= <-]. cbn. unfold UINT64_MAX in *. split_and!; done || lia.
    - intros [= <-]. cbn. unfold UINT64_MAX in *. split_and!; done || lia. }
  destruct (tok_is t (chars "burst")).
  { destruct (need_count p1 _) as [e|r1] eqn:H1; [done|]. apply need_count_inr in H1. cbn [mbind r_bind].
    destruct (next_tok r1.2) as [[t' p']|]; [destruct (tok_is t' _)|]; [|done..].
    destruct (need_count p' _) as [e|r2] eqn:H2; [done|]. apply need_count_inr in H2. cbn [mbind r_bind].
    destruct (_ <? _) eqn:Hlt; [done|]. bdestr. intros [= <-]. cbn. split_and!; done || lia. }
  destruct (tok_is t (chars "sequence")).
  { destruct (next_tok p1) as [[t' p']|]; [|done]. destruct (parse_sequence _ _ _) as [e|r1] eqn:H1; [done|].
    apply parse_sequence_inr in H1 as (sq & -> & Hl & Hb). intros [= <-]. cbn. split_and!; try done. by exists sq. }
  by destruct (tok_in t _).
Qed.

Lemma status_args_inr fuel p st r :
  is_Some (status_name st) -> status_args fuel p st = inr r -> is_Some (status_name r).
Proof.
  revert p st. induction fuel as [|fuel IH]; intros p st Hst; cbn [status_args]; [by intros [= <-]|].
  destruct (next_tok p) as [[t p1]|]; [|by intros [= <-]]. destruct (negb _); [done|].
  destruct (next_tok p1) as [[t' p2]|]; [|done]. destruct (find _ _) as [row|] eqn:Hf; [|done].
  apply IH. apply find_some in Hf as [Hin _].
  repeat (destruct Hin as [<-|Hin]; [vm_compute; by eexists|]). destruct Hin.
Qed.

Lemma parse_effect_inr p f r :
  pattern_wf f -> f_eligible f = 0 -> f_fired f = 0 -> parse_effect p f = inr r -> fault_wf r.
Proof.
  intros Hp Hel Hfi. unfold parse_effect. destruct (next_tok p) as [[t p1]|]; [|done]. destruct (negb _); [done|].
  destruct (next_tok p1) as [[t' p2]|]; [|done]. destruct (find _ _) as [row|] eqn:Hf; [|done].
  apply find_some in Hf as [Hin _]. destruct (negb (bool_decide _)) eqn:Hs; [done|].
  apply negb_false_iff, bool_decide_eq_true in Hs. destruct (e_built row) eqn:Hbuilt; cbn [negb]; [|done].
  assert (match e_effect row with
          | IONIC_FAULT_EFFECT_FAIL => f_site f = IONIC_FAULT_SITE_STATS_VALS
          | IONIC_FAULT_EFFECT_DROP => f_site f <> IONIC_FAULT_SITE_STATS_VALS
          | IONIC_FAULT_EFFECT_NOBUF => f_site f = IONIC_FAULT_SITE_ETH_RX end) as Hsite.
  { apply list_elem_of_In in Hs.
    repeat (destruct Hin as [<-|Hin]; [cbn in Hs, Hbuilt |- *; solve [done | intuition congruence]|]).
    destruct Hin. }
  assert (forall st, (e_effect row = IONIC_FAULT_EFFECT_FAIL -> is_Some (status_name st)) ->
            (e_effect row <> IONIC_FAULT_EFFECT_FAIL -> st = 0) ->
            fault_wf (f <| f_effect := e_effect row |> <| f_status := st |>)) as Hwf.
  { intros st H1 H2. split; [by destruct f|]. split; [|by destruct f]. unfold effect_wf. cbn.
    destruct (e_effect row); cbn; auto. }
  case_bool_decide as Hfail; cbn [negb].
  - destruct (status_args _ p2 IONIC_RC_EIO) as [e|st] eqn:Hst; [done|]. intros [= <-].
    apply status_args_inr in Hst; [|vm_compute; by eexists]. by apply Hwf.
  - destruct (next_tok p2) as [[t'' p3]|]; [done|]. intros [= <-]. by apply Hwf.
Qed.

Lemma fault_parse_wf mem spec f : ionic_fault_parse mem spec = inr f -> fault_wf f.
Proof.
  unfold ionic_fault_parse. destruct (spec ≫= _) as [[t p]|]; [|done]. destruct (_ || _); [done|].
  destruct (find _ sites) as [s|]; [|done]. destruct (parse_pattern _ _ _) as [e|r] eqn:Hp; [done|].
  apply parse_pattern_inr in Hp as (Hw & _ & Hel & Hfi). by apply parse_effect_inr.
Qed.

(** ** Events *)

(** The event numbers a pattern names: every [n]-th; [m] events starting with
    the [n]-th; the first [n] of every [m]; those the repeated sequence marks. *)
Definition fires_on (f : ionic_fault) (k : Z) : Prop :=
  match f_kind f with
  | IONIC_FAULT_PAT_EVERY => (f_n f | k)
  | IONIC_FAULT_PAT_AFTER => f_n f <= k < f_n f + f_m f
  | IONIC_FAULT_PAT_BURST => exists q, q * f_m f < k <= q * f_m f + f_n f
  | IONIC_FAULT_PAT_SEQUENCE =>
      exists q i, k = q * f_seq_len f + Z.of_nat i + 1 /\ default [] (f_seq f) !! i = Some 1
  end.

Lemma pattern_fires_on f k :
  pattern_wf f -> 1 <= k <= UINT64_MAX -> pattern_fires f k = true <-> fires_on f k.
Proof.
  unfold pattern_wf, pattern_fires, fires_on, UINT64_MAX. intros Hw Hk. destruct (f_kind f).
  - rewrite andb_true_iff, negb_true_iff, Z.eqb_neq, Z.eqb_eq, Z.mod_divide by lia. intuition lia.
  - rewrite andb_true_iff, Z.leb_le, Z.ltb_lt. destruct (decide (f_n f <= k)); [|lia].
    rewrite wrap_id by (unfold fits; lia). lia.
  - rewrite andb_true_iff, negb_true_iff, Z.eqb_neq, Z.ltb_lt. split.
    + intros [_ Hr]. exists ((k - 1) / f_m f). Z.to_euclidean_division_equations; lia.
    + intros [q Hq]. split; [lia|].
      assert (0 <= k - 1 - q * f_m f < f_m f) as Hr by lia.
      pose proof (Z.mod_unique (k - 1) (f_m f) q (k - 1 - q * f_m f) ltac:(lia) ltac:(lia)). lia.
  - destruct Hw as (_ & _ & s & Hs & Hl & Hb). unfold seq_fires, f_seq_len. rewrite Hs. cbn.
    set (n := Z.of_nat (length s)) in *.
    rewrite andb_true_iff, !negb_true_iff, !Z.eqb_neq. split.
    + intros [_ Hx]. exists ((k - 1) / n), (Z.to_nat ((k - 1) mod n)).
      pose proof (Z.mod_pos_bound (k - 1) n ltac:(lia)). pose proof (Z.div_mod (k - 1) n ltac:(lia)).
      destruct (lookup_lt_is_Some_2 s (Z.to_nat ((k - 1) mod n))) as [x Hlk]; [lia|].
      rewrite (list_lookup_total_correct _ _ _ Hlk) in Hx.
      destruct (Forall_lookup_1 _ _ _ _ Hb Hlk) as [-> | ->]; [done|]. split; [lia|done].
    + intros (q & i & -> & Hlk). split; [lia|]. pose proof (lookup_lt_Some _ _ _ Hlk).
      replace (q * n + Z.of_nat i + 1 - 1) with (Z.of_nat i + q * n) by lia.
      rewrite Z.mod_add, Z.mod_small, Nat2Z.id by lia. by rewrite (list_lookup_total_correct _ _ _ Hlk).
Qed.

(** [j] events in a row. *)
Fixpoint fault_events (j : nat) : ST ionic_fault (list bool) :=
  match j with
  | O => mret []
  | S j => bs ← fault_events j; b ← ionic_fault_event; mret (bs ++ [b])
  end.

Definition count_fired (bs : list bool) : Z := Z.of_nat (length (List.filter (fun b => b) bs)).

Lemma fault_events_run j f :
  fault_wf f -> Z.of_nat j <= UINT64_MAX ->
  exists bs, fault_events j f = (bs, f <| f_eligible := Z.of_nat j |> <| f_fired := count_fired bs |>) /\
    Forall2 (fun k b => b = true <-> fires_on f k) (seqZ 1 (Z.of_nat j)) bs.
Proof.
  intros Hw. induction j as [|j IH]; intros Hj.
  { exists []. split; [|constructor]. destruct Hw as (_ & _ & He & Hf). destruct f; cbn in *. by subst. }
  destruct IH as (bs & Hr & Hall); [lia|]. pose proof (Forall2_length _ _ _ Hall) as Hlen.
  rewrite length_seqZ, Nat2Z.id in Hlen. set (b := pattern_fires f (Z.of_nat j + 1)).
  exists (bs ++ [b]). rewrite seqZ_S. split.
  - cbn [fault_events]. unfold mbind, st_bind. rewrite Hr. unfold ionic_fault_event. cbn [fst snd].
    set (g := f <| f_eligible := Z.of_nat j |> <| f_fired := _ |>). change (f_eligible g) with (Z.of_nat j).
    unfold UINT64_MAX in *. replace (Z.of_nat j =? _) with false by (symmetry; apply Z.eqb_neq; lia).
    rewrite (wrap_id 64 (Z.of_nat j + 1)) by (unfold fits; lia).
    change (pattern_fires (g <| f_eligible := _ |>) _) with b.
    assert (count_fired (bs ++ [b]) = count_fired bs + (if b then 1 else 0)) as ->.
    { unfold count_fired. rewrite List.filter_app, length_app. destruct b; cbn; lia. }
    assert (0 <= count_fired bs <= Z.of_nat j) as Hc.
    { unfold count_fired. pose proof (List.filter_length_le (fun b => b) bs). lia. }
    cbn. replace (count_fired bs =? _) with false by (symmetry; apply Z.eqb_neq; lia).
    destruct b; cbn; rewrite ?(wrap_id 64 (count_fired bs + 1)) by (unfold fits; lia); repeat f_equal; lia.
  - apply Forall2_app; [done|]. constructor; [|constructor].
    rewrite Z.add_comm. apply pattern_fires_on; [apply Hw|unfold UINT64_MAX in *; lia].
Qed.

(** Every fault the parser accepts is well formed: the counts of its
    pattern are in range (a burst no longer than its period, a sequence of 1 to
    65536 zeros and ones), its effect is one its site supports, its status is
    one of the named ones, and its counters start at zero. *)
Theorem parsed_fault_well_formed mem spec f : ionic_fault_parse mem spec = inr f -> fault_wf f.
Proof. apply fault_parse_wf. Qed.
Definition ex_spec : cptr := Some (chars "eth_rx: sequence 0x2,1,0,1x3 effect drop").
Definition ex_fault : ionic_fault :=
  inhabitant <| f_site := IONIC_FAULT_SITE_ETH_RX |> <| f_kind := IONIC_FAULT_PAT_SEQUENCE |>
             <| f_seq := Some [0; 0; 1; 0; 1; 1; 1] |> <| f_effect := IONIC_FAULT_EFFECT_DROP |>.
Lemma parsed_fault_well_formed_witness :
  ionic_fault_parse true ex_spec = inr ex_fault /\ fault_wf ex_fault.
Proof. split; [|eapply (parsed_fault_well_formed true ex_spec)]; vm_compute; reflexivity. Defined.

(** C40: the text the formatter writes for a fault the parser accepted is
    truncated only by the buffer, reports the length it needed, and parses back
    to the same fault. *)
Theorem fault_format_roundtrip mem spec f len :
  ionic_fault_parse mem spec = inr f -> 0 < len ->
  (ionic_fault_format f len).1 = take (Z.to_nat (len - 1)) (fault_text f) /\
  (Z.of_nat (length (fault_text f)) <= INT_MAX ->
     (ionic_fault_format f len).2 = Z.of_nat (length (fault_text f))) /\
  ionic_fault_parse true (Some (fault_text f)) = inr f.
Proof.
  intros Hp Hlen. unfold ionic_fault_format. rewrite (out_add_all len _ [] 0 []) by (done || by rewrite take_nil).
  cbn [app fst snd]. split; [done|]. split; [|by eapply fault_text_parses, fault_parse_wf].
  intros Hm. unfold fault_text in Hm. by replace (INT_MAX <? _) with false by (symmetry; apply Z.ltb_ge; lia).
Qed.
Lemma fault_format_roundtrip_witness :
  ionic_fault_format ex_fault 12 = (chars "eth_rx: seq", 42) /\
  fault_text ex_fault = chars "eth_rx: sequence " ++ [34] ++ chars "0x2,1,0,1x3" ++ [34] ++ chars " effect drop" /\
  ionic_fault_parse true (Some (fault_text ex_fault)) = inr ex_fault.
Proof.
  split_and!; [vm_compute; reflexivity..|].
  apply (fault_format_roundtrip true ex_spec ex_fault 12); vm_compute; reflexivity.
Defined.

(** The events of a parsed fault fire exactly on the event numbers its
    pattern names, whatever their number up to 2^64 - 1, and the counters hold
    the number of events and of firings; the event after the last of them does
    not fire and changes nothing. *)
Theorem fault_events_exact mem spec f j :
  ionic_fault_parse mem spec = inr f -> Z.of_nat j <= UINT64_MAX ->
  exists bs, let f' := f <| f_eligible := Z.of_nat j |> <| f_fired := count_fired bs |> in
    fault_events j f = (bs, f') /\
    Forall2 (fun k b => b = true <-> fires_on f k) (seqZ 1 (Z.of_nat j)) bs /\
    (Z.of_nat j = UINT64_MAX -> ionic_fault_event f' = (false, f')).
Proof.
  intros Hp Hj. destruct (fault_events_run j f) as (bs & Hr & Hall); [by eapply fault_parse_wf|done|].
  exists bs. split_and!; [done..|]. intros ->. done.
Qed.
Lemma fault_events_exact_witness :
  (fault_events 9 ex_fault).1 = [false; false; true; false; true; true; true; false; false] /\
  exists bs, fault_events 9 ex_fault = (bs, ex_fault <| f_eligible := 9 |> <| f_fired := count_fired bs |>).
Proof.
  split; [vm_compute; reflexivity|].
  destruct (fault_events_exact true ex_spec ex_fault 9) as (bs & H & _);
    [vm_compute; reflexivity|vm_compute; discriminate|by exists bs].
Defined.
