(* ===== verification/Verbs.v ===== *)
(** * Device limits and verbs constants

    The limits of ernic_limits.h, the queue pair types of ernic_ib.h, and the
    parts of libibverbs' ABI the code names: enum values, attribute masks and
    the structures the resource manager passes to its backends. *)
From S2P Require Export Prelude.

(** ** ernic_limits.h *)

Definition ERNIC_MAX_QP : Z := 256.
Definition ERNIC_MAX_CQ : Z := 512.
Definition ERNIC_MAX_SRQ : Z := 256.
Definition ERNIC_MAX_AH : Z := 2 ^ 15.
Definition ERNIC_MAX_MR : Z := 2048.
Definition ERNIC_MAX_PAGE_TABLE_ENTRIES : Z := 2 ^ 31.
Definition ERNIC_MAX_SGE : Z := 32.
Definition ERNIC_MAX_SRQ_SGE : Z := 2.

(** ** Queue pair types (ernic_ib.h and libibverbs' enum ibv_qp_type) *)

Definition ERNIC_IB_QPT_SMI : Z := 0.
Definition ERNIC_IB_QPT_GSI : Z := 1.
Definition IBV_QPT_RC : Z := 2.
Definition IBV_QPT_UC : Z := 3.
Definition IBV_QPT_UD : Z := 4.
Definition IBV_QPT_DRIVER : Z := 255.

(** ** enum ibv_qp_state *)
Definition IBV_QPS_RESET : Z := 0.
Definition IBV_QPS_INIT : Z := 1.
Definition IBV_QPS_RTR : Z := 2.
Definition IBV_QPS_RTS : Z := 3.
Definition IBV_QPS_ERR : Z := 6.

(** ** enum ibv_qp_attr_mask, enum ibv_srq_attr_mask, enum ibv_access_flags *)
Definition IBV_QP_STATE : Z := Z.shiftl 1 0.
Definition IBV_QP_ACCESS_FLAGS : Z := Z.shiftl 1 3.
Definition IBV_QP_QKEY : Z := Z.shiftl 1 6.
Definition IBV_QP_PATH_MTU : Z := Z.shiftl 1 8.
Definition IBV_QP_RQ_PSN : Z := Z.shiftl 1 12.
Definition IBV_QP_SQ_PSN : Z := Z.shiftl 1 16.
Definition IBV_QP_DEST_QPN : Z := Z.shiftl 1 20.
Definition IBV_SRQ_MAX_WR : Z := Z.shiftl 1 0.
Definition IBV_SRQ_LIMIT : Z := Z.shiftl 1 1.
Definition IBV_ACCESS_LOCAL_WRITE : Z := 1.
Definition IBV_ACCESS_REMOTE_WRITE : Z := Z.shiftl 1 1.
Definition IBV_ACCESS_REMOTE_READ : Z := Z.shiftl 1 2.
Definition IBV_ACCESS_REMOTE_ATOMIC : Z := Z.shiftl 1 3.
Definition IBV_MTU_1024 : Z := 3.
Definition IBV_ATOMIC_HCA : Z := 1.

(** [mask & bit] as a condition. *)
Definition has_bit (mask bit : Z) : bool := negb (Z.land mask bit =? 0).

(** ** The structures, with the fields the code reads or writes *)
Record ibv_qp_attr := QpAttr {
  qa_qp_state : Z; qa_cur_qp_state : Z; qa_path_mtu : Z; qa_qp_access_flags : Z;
  qa_dest_qp_num : Z; qa_rq_psn : Z; qa_sq_psn : Z }.
#[export] Instance ibv_qp_attr_eta : Eta ibv_qp_attr := fun r =>
  QpAttr (qa_qp_state r) (qa_cur_qp_state r) (qa_path_mtu r) (qa_qp_access_flags r)
         (qa_dest_qp_num r) (qa_rq_psn r) (qa_sq_psn r).
#[export] Instance ibv_qp_attr_inhabited : Inhabited ibv_qp_attr := populate (QpAttr 0 0 0 0 0 0 0).

Record ibv_srq_attr := SrqAttr { sa_max_wr : Z; sa_max_sge : Z; sa_srq_limit : Z }.
#[export] Instance ibv_srq_attr_eta : Eta ibv_srq_attr := fun r => SrqAttr (sa_max_wr r) (sa_max_sge r) (sa_srq_limit r).
#[export] Instance ibv_srq_attr_inhabited : Inhabited ibv_srq_attr := populate (SrqAttr 0 0 0).

Record ibv_device_attr := DeviceAttr {
  da_max_qp : Z; da_max_qp_wr : Z; da_max_sge : Z; da_max_cq : Z; da_max_cqe : Z; da_max_mr : Z; da_max_pd : Z;
  da_max_mr_size : Z; da_atomic_cap : Z; da_max_srq : Z; da_max_srq_wr : Z; da_max_srq_sge : Z }.
#[export] Instance ibv_device_attr_inhabited : Inhabited ibv_device_attr :=
  populate (DeviceAttr 0 0 0 0 0 0 0 0 0 0 0 0).
#[export] Instance ibv_device_attr_eta : Eta ibv_device_attr := fun r =>
  DeviceAttr (da_max_qp r) (da_max_qp_wr r) (da_max_sge r) (da_max_cq r) (da_max_cqe r) (da_max_mr r) (da_max_pd r)
    (da_max_mr_size r) (da_atomic_cap r) (da_max_srq r) (da_max_srq_wr r) (da_max_srq_sge r).
