(* ===== verification/Bitmap.v ===== *)
(** * Bitmaps (qemu-compat/qemu_stubs.c)

    The allocation bitmaps of the resource tables: 64-bit words, one bit per
    handle.  The lemmas read a bitmap as the set of its bits, so that clients
    never look at words. *)
From S2P Require Export Prelude.

Definition BITMAP_WORD_BITS : Z := 64.

Abbreviation bitmap := (list Z).

Definition bitmap_words (nbits : Z) : Z :=
  let words := nbits / BITMAP_WORD_BITS in
  let words := if negb (nbits mod BITMAP_WORD_BITS =? 0) then words + 1 else words in
  if words =? 0 then 1 else words.

(** [mem]: whether g_try_new0() finds the memory. *)
Definition bitmap_new (mem : bool) (nbits : Z) : option bitmap :=
  if mem then Some (replicate (Z.to_nat (bitmap_words nbits)) 0) else None.

Definition bit_mask (nr : Z) : Z := u64 (Z.shiftl 1 (nr mod BITMAP_WORD_BITS)).
Definition word_of (nr : Z) : nat := Z.to_nat (nr / BITMAP_WORD_BITS).

Definition set_bit (nr : Z) (addr : bitmap) : bitmap := alter (fun w => Z.lor w (bit_mask nr)) (word_of nr) addr.
Definition clear_bit (nr : Z) (addr : bitmap) : bitmap :=
  alter (fun w => Z.land w (u64 (Z.lnot (bit_mask nr)))) (word_of nr) addr.
Definition test_bit (nr : Z) (addr : bitmap) : bool :=
  negb (Z.land (default 0 (addr !! word_of nr)) (bit_mask nr) =? 0).

Fixpoint find_zero_from (fuel : nat) (i nbits : Z) (addr : bitmap) : Z :=
  match fuel with
  | O => nbits
  | S fuel => if i <? nbits then if negb (test_bit i addr) then i else find_zero_from fuel (i + 1) nbits addr else nbits
  end.

(** The caller's size fits a uint32_t, so the abort() is out of reach; the
    loop runs at most [size] times. *)
Definition find_first_zero_bit (addr : bitmap) (size : Z) : Z := find_zero_from (Z.to_nat size) 0 size addr.

(** ** Bits *)
Section bits.
Implicit Types (addr : bitmap) (nr k : Z).

Lemma bit_mask_testbit nr k : 0 <= k < 64 -> Z.testbit (bit_mask nr) k = (k =? nr mod BITMAP_WORD_BITS).
Proof.
  intros Hk. unfold bit_mask, wrap, BITMAP_WORD_BITS. pose proof (Z.mod_pos_bound nr 64 ltac:(lia)).
  rewrite Z.mod_pow2_bits_low, Z.shiftl_1_l by lia. rewrite Z.pow2_bits_eqb by lia. apply Z.eqb_sym.
Qed.

Lemma bit_mask_eq nr : bit_mask nr = 2 ^ (nr mod BITMAP_WORD_BITS).
Proof.
  unfold bit_mask, BITMAP_WORD_BITS. rewrite Z.shiftl_1_l. pose proof (Z.mod_pos_bound nr 64 ltac:(lia)).
  apply wrap_id. unfold fits. split; [apply Z.pow_nonneg; lia|]. apply Z.pow_lt_mono_r; lia.
Qed.

Lemma test_bit_testbit nr addr :
  test_bit nr addr = Z.testbit (default 0 (addr !! word_of nr)) (nr mod BITMAP_WORD_BITS).
Proof.
  unfold test_bit. rewrite bit_mask_eq. set (w := default _ _). set (r := nr mod _).
  assert (0 <= r) as Hr by (apply Z.mod_pos_bound; done).
  assert (Z.land w (2 ^ r) = if Z.testbit w r then 2 ^ r else 0) as ->.
  { apply Z.bits_inj'. intros n Hn. rewrite Z.land_spec, Z.pow2_bits_eqb by done.
    destruct (Z.eqb_spec r n) as [->|]; rewrite ?andb_true_r, ?andb_false_r.
    - destruct (Z.testbit w n) eqn:E; [by rewrite Z.pow2_bits_true|by rewrite Z.bits_0].
    - destruct (Z.testbit w r); [by rewrite Z.pow2_bits_false|by rewrite Z.bits_0]. }
  destruct (Z.testbit w r); [|done]. apply negb_true_iff, Z.eqb_neq. pose proof (Z.pow_pos_nonneg 2 r). lia.
Qed.

(** [nr] is a bit of the map's words. *)
Definition bit_in nr addr : Prop := 0 <= nr < 64 * Z.of_nat (length addr).

Lemma word_of_lt nr addr : bit_in nr addr -> (word_of nr < length addr)%nat.
Proof.
  unfold bit_in, word_of, BITMAP_WORD_BITS. intros. apply Nat2Z.inj_lt. rewrite Z2Nat.id by (apply Z.div_pos; lia).
  apply Z.div_lt_upper_bound; lia.
Qed.

(** Changing one word by [f] changes the bits of that word only. *)
Lemma test_bit_alter f nr k addr :
  bit_in nr addr -> 0 <= k ->
  test_bit k (alter f (word_of nr) addr) =
    (if bool_decide (word_of k = word_of nr) then Z.testbit (f (default 0 (addr !! word_of nr))) (k mod BITMAP_WORD_BITS)
     else test_bit k addr).
Proof.
  intros Hm Hk. rewrite !test_bit_testbit. case_bool_decide as Hw.
  - rewrite Hw, list_lookup_alter_eq. destruct (lookup_lt_is_Some_2 addr (word_of nr)) as [w ->]; [by apply word_of_lt|done].
  - by rewrite list_lookup_alter_ne by done.
Qed.

Lemma same_bit nr k : 0 <= nr -> 0 <= k -> word_of k = word_of nr ->
  (k mod BITMAP_WORD_BITS =? nr mod BITMAP_WORD_BITS) = bool_decide (k = nr).
Proof.
  unfold word_of, BITMAP_WORD_BITS. intros Hn Hk Hw. apply Z2Nat.inj in Hw; [|apply Z.div_pos; lia..].
  case_bool_decide; [subst; by rewrite Z.eqb_refl|]. apply Z.eqb_neq. intros He. apply H.
  rewrite (Z.div_mod k 64), (Z.div_mod nr 64) by lia. lia.
Qed.

Lemma test_set_bit nr k addr :
  bit_in nr addr -> 0 <= k -> test_bit k (set_bit nr addr) = (bool_decide (k = nr) || test_bit k addr)%bool.
Proof.
  intros Hm Hk. unfold set_bit. rewrite test_bit_alter by done. case_bool_decide as Hw.
  - pose proof (Z.mod_pos_bound k BITMAP_WORD_BITS ltac:(done)). unfold bit_in, BITMAP_WORD_BITS in *.
    rewrite Z.lor_spec, bit_mask_testbit, same_bit by (done || lia).
    rewrite test_bit_testbit, Hw. apply orb_comm.
  - by rewrite bool_decide_eq_false_2 by (intros ->; done).
Qed.

Lemma test_clear_bit nr k addr :
  bit_in nr addr -> 0 <= k -> test_bit k (clear_bit nr addr) = (negb (bool_decide (k = nr)) && test_bit k addr)%bool.
Proof.
  intros Hm Hk. unfold clear_bit. rewrite test_bit_alter by done. case_bool_decide as Hw.
  - pose proof (Z.mod_pos_bound k BITMAP_WORD_BITS ltac:(done)). unfold bit_in, BITMAP_WORD_BITS, wrap in *.
    rewrite Z.land_spec, Z.mod_pow2_bits_low, Z.lnot_spec, bit_mask_testbit, same_bit by (done || lia).
    rewrite test_bit_testbit, Hw. apply andb_comm.
  - by rewrite bool_decide_eq_false_2 by (intros ->; done).
Qed.

Lemma length_set_bit nr addr : length (set_bit nr addr) = length addr.
Proof. apply length_alter. Qed.
Lemma length_clear_bit nr addr : length (clear_bit nr addr) = length addr.
Proof. apply length_alter. Qed.

Lemma test_bit_new mem nbits addr k : bitmap_new mem nbits = Some addr -> test_bit k addr = false.
Proof.
  unfold bitmap_new. destruct mem; [|done]. intros [= <-]. rewrite test_bit_testbit.
  destruct (replicate _ 0 !! _) eqn:E; [|apply Z.bits_0]. apply lookup_replicate in E as [-> _]. apply Z.bits_0.
Qed.

Lemma bitmap_new_covers mem nbits addr nr :
  bitmap_new mem nbits = Some addr -> 0 <= nr < nbits -> bit_in nr addr.
Proof.
  unfold bitmap_new. destruct mem; [|done]. intros [= <-] Hn. unfold bit_in, bitmap_words, BITMAP_WORD_BITS.
  rewrite length_replicate. pose proof (Z.div_mod nbits 64 ltac:(lia)). pose proof (Z.mod_pos_bound nbits 64 ltac:(lia)).
  assert (0 <= nbits / 64) by (apply Z.div_pos; lia).
  destruct (negb (nbits mod 64 =? 0)) eqn:E; bdestr; (destruct (_ =? 0) eqn:E2; bdestr); rewrite ?Z2Nat.id; lia.
Qed.

(** find_first_zero_bit() is the least clear bit, or the size when there is
    none. *)
Lemma find_zero_from_spec fuel i nbits addr :
  let r := find_zero_from fuel i nbits addr in
  nbits <= i + Z.of_nat fuel -> i <= nbits ->
  i <= r <= nbits /\ (r < nbits -> test_bit r addr = false) /\ (forall j, i <= j < r -> test_bit j addr = true).
Proof.
  cbv zeta. revert i. induction fuel as [|fuel IH]; intros i Hf Hi; cbn [find_zero_from].
  { split_and!; [lia..|]. intros j Hj. lia. }
  destruct (i <? nbits) eqn:Hl; bdestr; [|split_and!; [lia..|intros j ?; lia]].
  destruct (test_bit i addr) eqn:Ht; cbn [negb].
  - destruct (IH (i + 1)) as (H1 & H2 & H3); [lia..|]. split_and!; [lia..|done|].
    intros j Hj. destruct (decide (j = i)) as [->|]; [done|]. apply H3. lia.
  - split_and!; [lia..|done|]. intros j ?. lia.
Qed.

Lemma find_first_zero_bit_spec addr size :
  0 <= size ->
  let r := find_first_zero_bit addr size in
  0 <= r <= size /\ (r < size -> test_bit r addr = false) /\ (forall j, 0 <= j < r -> test_bit j addr = true).
Proof. intros H. apply find_zero_from_spec; lia. Qed.
End bits.

(** ** The set of a bitmap's first [n] bits *)
Definition bits_of (addr : bitmap) (n : Z) : gset Z := list_to_set (filter (fun i => test_bit i addr = true) (seqZ 0 n)).

Lemma elem_of_bits_of addr n i : i ∈ bits_of addr n <-> 0 <= i < n /\ test_bit i addr = true.
Proof. unfold bits_of. rewrite elem_of_list_to_set, list_elem_of_filter, elem_of_seqZ. intuition lia. Qed.

Lemma bits_of_set addr n i :
  bit_in i addr -> 0 <= i < n -> bits_of (set_bit i addr) n = {[i]} ∪ bits_of addr n.
Proof.
  intros Hm Hi. apply set_eq. intros k. rewrite elem_of_union, elem_of_singleton, !elem_of_bits_of. split.
  - intros [Hk Ht]. rewrite test_set_bit in Ht by (done || lia). apply orb_true_iff in Ht as [Ht|Ht]; [|auto].
    bdestr. auto.
  - intros [->|[Hk Ht]]; (split; [lia|]); rewrite test_set_bit by (done || lia);
      [by rewrite bool_decide_eq_true_2|by rewrite Ht, orb_true_r].
Qed.

Lemma bits_of_clear addr n i :
  bit_in i addr -> 0 <= i < n -> bits_of (clear_bit i addr) n = bits_of addr n ∖ {[i]}.
Proof.
  intros Hm Hi. apply set_eq. intros k. rewrite elem_of_difference, not_elem_of_singleton, !elem_of_bits_of. split.
  - intros [Hk Ht]. rewrite test_clear_bit in Ht by (done || lia). bdestr. auto.
  - intros [[Hk Ht] Hne]. split; [lia|]. rewrite test_clear_bit by (done || lia).
    by rewrite bool_decide_eq_false_2, Ht by done.
Qed.
