(* ===== verification/RdmaBackend.v ===== *)
(** * RDMA backends (rdma/rdma_backend_ops.h, rdma_backend_core.c, rdma_backend_none.c, rdma_backend_loopback.c)

    The vtable a backend gives the resource manager, the registry that picks
    one by name, and two of its implementations.  A backend's private state
    is the type [P] its operations run on; the objects of the resource manager
    are passed in and handed back.

    There is one device with one vtable, so a [backend_dev] or [backend_ops]
    pointer is a flag: set or NULL.  [bqp_priv] names the backend's own record
    of a queue pair by its number, under which the backend's table holds it. *)
From S2P Require Export Prelude Verbs ParseInt.
From stdpp Require Import strings.
#[local] Open Scope Z_scope.

(** ** The objects (pvrdma/rdma_backend_defs.h) *)

Record RdmaBackendPD := BackendPD { bpd_dev : bool; bpd_ops : bool }.
Record RdmaBackendMR := BackendMR { bmr_handle : Z; bmr_ops : bool }.
Record RdmaBackendCQ := BackendCQ { bcq_dev : bool; bcq_handle : Z; bcq_ops : bool }.
Record RdmaBackendQP := BackendQP { bqp_dev : bool; bqp_priv : option Z; bqp_qpn : Z; bqp_ops : bool }.

(** LoopbackSRQ, and TcpSRQ less its lock: the limits a queue was made with. *)
Record LoopbackSRQ := LoopSRQ { ls_max_wr : Z; ls_max_sge : Z; ls_srq_limit : Z }.
Record RdmaBackendSRQ := BackendSRQ { bsrq_priv : option LoopbackSRQ; bsrq_ops : bool }.

#[export] Instance bpd_eta : Eta RdmaBackendPD := fun r => BackendPD (bpd_dev r) (bpd_ops r).
#[export] Instance bmr_eta : Eta RdmaBackendMR := fun r => BackendMR (bmr_handle r) (bmr_ops r).
#[export] Instance bcq_eta : Eta RdmaBackendCQ := fun r => BackendCQ (bcq_dev r) (bcq_handle r) (bcq_ops r).
#[export] Instance bqp_eta : Eta RdmaBackendQP := fun r => BackendQP (bqp_dev r) (bqp_priv r) (bqp_qpn r) (bqp_ops r).
#[export] Instance ls_eta : Eta LoopbackSRQ := fun r => LoopSRQ (ls_max_wr r) (ls_max_sge r) (ls_srq_limit r).
#[export] Instance bsrq_eta : Eta RdmaBackendSRQ := fun r => BackendSRQ (bsrq_priv r) (bsrq_ops r).
#[export] Instance bpd_inh : Inhabited RdmaBackendPD := populate (BackendPD false false).
#[export] Instance bmr_inh : Inhabited RdmaBackendMR := populate (BackendMR 0 false).
#[export] Instance bcq_inh : Inhabited RdmaBackendCQ := populate (BackendCQ false 0 false).
#[export] Instance bqp_inh : Inhabited RdmaBackendQP := populate (BackendQP false None 0 false).
#[export] Instance bsrq_inh : Inhabited RdmaBackendSRQ := populate (BackendSRQ None false).

(** ** The vtable

    An operation left NULL is [None].  Each returns its code with the object
    it was given a pointer to. *)
Record RdmaBackendOps (P : Type) := BackendOps {
  op_init : option (cptr -> ST P Z);
  op_fini : option (ST P unit);
  op_query_device : option (ST P (Z * ibv_device_attr));
  op_create_pd : option (bool -> RdmaBackendPD -> ST P (Z * RdmaBackendPD));
  op_create_mr : option (RdmaBackendMR -> RdmaBackendPD -> Z -> ST P (Z * RdmaBackendMR));
  op_destroy_mr : option (RdmaBackendMR -> ST P RdmaBackendMR);
  op_mr_lkey : option (RdmaBackendMR -> Z);
  op_create_cq : option (bool -> RdmaBackendCQ -> Z -> ST P (Z * RdmaBackendCQ));
  op_destroy_cq : option (RdmaBackendCQ -> ST P RdmaBackendCQ);
  op_create_qp : option (RdmaBackendQP -> Z -> RdmaBackendPD -> RdmaBackendCQ -> RdmaBackendCQ ->
                         option RdmaBackendSRQ -> ST P (Z * RdmaBackendQP));
  op_destroy_qp : option (RdmaBackendQP -> ST P RdmaBackendQP);
  op_qpn : option (RdmaBackendQP -> ST P Z);
  op_qp_state_init : option (bool -> RdmaBackendQP -> Z -> Z -> ST P Z);
  op_qp_state_rtr : option (bool -> RdmaBackendQP -> Z -> Z -> list Z -> Z -> Z -> Z -> bool -> ST P Z);
  op_qp_state_rts : option (RdmaBackendQP -> Z -> Z -> Z -> bool -> ST P Z);
  op_query_qp : option (RdmaBackendQP -> Z -> ST P (Z * ibv_qp_attr));
  op_get_backend_gid_index : option (bool -> Z -> ST P Z);
  op_create_srq : option (RdmaBackendSRQ -> RdmaBackendPD -> Z -> Z -> Z -> ST P (Z * RdmaBackendSRQ));
  op_destroy_srq : option (RdmaBackendSRQ -> ST P RdmaBackendSRQ);
  op_query_srq : option (RdmaBackendSRQ -> ibv_srq_attr -> ST P (Z * ibv_srq_attr));
  op_modify_srq : option (RdmaBackendSRQ -> ibv_srq_attr -> Z -> ST P (Z * RdmaBackendSRQ)) }.
Arguments op_init {P}. Arguments op_fini {P}. Arguments op_query_device {P}. Arguments op_create_pd {P}.
Arguments op_create_mr {P}. Arguments op_destroy_mr {P}. Arguments op_mr_lkey {P}. Arguments op_create_cq {P}.
Arguments op_destroy_cq {P}. Arguments op_create_qp {P}. Arguments op_destroy_qp {P}. Arguments op_qpn {P}.
Arguments op_qp_state_init {P}. Arguments op_qp_state_rtr {P}. Arguments op_qp_state_rts {P}.
Arguments op_query_qp {P}. Arguments op_get_backend_gid_index {P}. Arguments op_create_srq {P}.
Arguments op_destroy_srq {P}. Arguments op_query_srq {P}. Arguments op_modify_srq {P}.

(** ** The registry (rdma_backend_core.c) *)

Definition RDMA_BACKEND_TYPE_NONE : Z := 0.
Definition RDMA_BACKEND_TYPE_LOOPBACK : Z := 1.
Definition RDMA_BACKEND_TYPE_TCP : Z := 2.
Definition RDMA_BACKEND_TYPE_NVMEOF : Z := 3.
Definition RDMA_BACKEND_TYPE_S3 : Z := 4.
Definition RDMA_BACKEND_TYPE_MAX : Z := 5.

Inductive vtable := rdma_backend_ops_none | rdma_backend_ops_loopback | rdma_backend_ops_tcp.
#[export] Instance vtable_eq_dec : EqDecision vtable.
Proof. solve_decision. Defined.

Definition backend_registry : list vtable :=
  [rdma_backend_ops_none; rdma_backend_ops_loopback; rdma_backend_ops_tcp;
   rdma_backend_ops_loopback; rdma_backend_ops_loopback].

Definition rdma_backend_get_ops (type : Z) : option vtable :=
  if RDMA_BACKEND_TYPE_MAX <=? type then None else backend_registry !! Z.to_nat type.

Definition rdma_backend_type_to_string (type : Z) : cstr :=
  if type =? RDMA_BACKEND_TYPE_NONE then chars "none"
  else if type =? RDMA_BACKEND_TYPE_LOOPBACK then chars "loopback"
  else if type =? RDMA_BACKEND_TYPE_TCP then chars "tcp"
  else if type =? RDMA_BACKEND_TYPE_NVMEOF then chars "nvmeof"
  else if type =? RDMA_BACKEND_TYPE_S3 then chars "s3"
  else chars "unknown".

(** strcspn(s, ":"). *)
Fixpoint until_colon (s : cstr) : nat :=
  match s with [] => O | c :: s => if c =? 58 then O else S (until_colon s) end.

Definition rdma_backend_get_type_from_string (backend_str : cptr) : Z :=
  match backend_str with
  | None => RDMA_BACKEND_TYPE_NONE
  | Some s =>
      let len := until_colon s in
      let hit type := let name := rdma_backend_type_to_string type in
        bool_decide (length name = len) && bool_decide (take len s = take len name) in
      default RDMA_BACKEND_TYPE_MAX (find hit (seqZ 0 RDMA_BACKEND_TYPE_MAX))
  end.

(** ** The "none" backend, which keeps no state *)
Section none.
Abbreviation N := (ST unit).

Definition none_query_device : N (Z * ibv_device_attr) :=
  mret (0, inhabitant <| da_max_qp := ERNIC_MAX_QP |> <| da_max_qp_wr := 256 |> <| da_max_sge := ERNIC_MAX_SGE |>
                      <| da_max_cq := ERNIC_MAX_CQ |> <| da_max_cqe := 4096 |> <| da_max_mr := ERNIC_MAX_MR |>
                      <| da_max_pd := 256 |>).
Definition none_create_pd (dev : bool) (pd : RdmaBackendPD) : N (Z * RdmaBackendPD) :=
  mret (0, pd <| bpd_dev := dev |>).
Definition none_create_mr (mr : RdmaBackendMR) (pd : RdmaBackendPD) (access : Z) : N (Z * RdmaBackendMR) :=
  mret (0, mr <| bmr_handle := 0 |>).
Definition none_mr_lkey (mr : RdmaBackendMR) : Z := 0.
Definition none_create_cq (dev : bool) (cq : RdmaBackendCQ) (cqe : Z) : N (Z * RdmaBackendCQ) :=
  mret (0, cq <| bcq_dev := dev |> <| bcq_handle := 0 |>).
Definition none_create_qp (qp : RdmaBackendQP) (qp_type : Z) (pd : RdmaBackendPD) (scq rcq : RdmaBackendCQ)
    (srq : option RdmaBackendSRQ) : N (Z * RdmaBackendQP) :=
  mret (0, qp <| bqp_dev := bcq_dev scq |> <| bqp_priv := None |> <| bqp_qpn := 0 |>).
Definition none_get_backend_gid_index (dev : bool) (sgid_idx : Z) : N Z := mret sgid_idx.

(** The state transitions and the destroy operations do nothing. *)
Definition ops_none : RdmaBackendOps unit := {|
  op_init := Some (fun _ => mret 0); op_fini := Some (mret tt);
  op_query_device := Some none_query_device;
  op_create_pd := Some none_create_pd;
  op_create_mr := Some none_create_mr; op_destroy_mr := Some mret; op_mr_lkey := Some none_mr_lkey;
  op_create_cq := Some none_create_cq; op_destroy_cq := Some mret;
  op_create_qp := Some none_create_qp; op_destroy_qp := Some mret; op_qpn := None;
  op_qp_state_init := Some (fun _ _ _ _ => mret 0);
  op_qp_state_rtr := Some (fun _ _ _ _ _ _ _ _ _ => mret 0);
  op_qp_state_rts := Some (fun _ _ _ _ _ => mret 0);
  op_query_qp := None;
  op_get_backend_gid_index := Some none_get_backend_gid_index;
  op_create_srq := None; op_destroy_srq := None; op_query_srq := None; op_modify_srq := None |}.
End none.

(** ** Numbering queue pairs

    The search of loopback_create_qp() and tcp_create_qp() for a number that
    is neither reserved nor in use: its result and the counter after it.
    [None] is a loop that has not ended within [fuel] turns. *)
Fixpoint next_free_qpn (fuel : nat) (first : Z) (used : gset Z) (n : Z) : option (Z * Z) :=
  match fuel with
  | O => None
  | S fuel =>
      let next := u32 (n + 1) in
      if (n <? first) || bool_decide (n ∈ used) then next_free_qpn fuel first used next
      else Some (n, next)
  end.

(** Turns enough: the reserved numbers, the ones in use, and one more. *)
Definition qpn_fuel (used : gset Z) : nat := (101 + size used)%nat.

Lemma next_free_qpn_sound fuel first used n r next :
  next_free_qpn fuel first used n = Some (r, next) ->
  first <= r /\ (r ∉ used) /\ next = u32 (r + 1) /\ (fits 32 n -> fits 32 r).
Proof.
  revert n. induction fuel as [|fuel IH]; intros n; [done|]. cbn [next_free_qpn].
  destruct (_ || _) eqn:Hb.
  - intros Hr. apply IH in Hr as (H1 & H2 & H3 & H4). split_and!; [done..|].
    intros _. apply H4, wrap_fits. lia.
  - intros [= <- <-]. bdestr. done.
Qed.

(** It is the first such number from [n] on. *)
Lemma next_free_qpn_first fuel first used n r next :
  fits 32 n -> next_free_qpn fuel first used n = Some (r, next) ->
  exists i, 0 <= i /\ r = u32 (n + i) /\ forall j, 0 <= j < i -> let m := u32 (n + j) in m < first \/ m ∈ used.
Proof.
  revert n. induction fuel as [|fuel IH]; intros n Hn Hr; [done|]. cbn [next_free_qpn] in Hr.
  destruct (_ || _) eqn:Hb.
  - destruct (IH (u32 (n + 1)) ltac:(apply wrap_fits; lia) Hr) as (i & Hi & -> & Hj). exists (i + 1).
    unfold wrap in *. rewrite !Zplus_mod_idemp_l in *. split; [lia|]. split; [f_equal; lia|].
    intros j Hji. cbv zeta. destruct (decide (j = 0)) as [->|].
    + rewrite Z.add_0_r, Z.mod_small by apply Hn. apply orb_true_iff in Hb as [Hb|Hb]; bdestr; auto.
    + specialize (Hj (j - 1) ltac:(lia)). cbv zeta in Hj. rewrite Zplus_mod_idemp_l in Hj.
      by replace (n + 1 + (j - 1)) with (n + j) in Hj by lia.
  - injection Hr as <- <-. exists 0. rewrite Z.add_0_r, wrap_id by done. split_and!; [done..|]. intros j Hj. lia.
Qed.

(** The numbers the first [k] turns try. *)
Lemma next_free_qpn_none fuel first used n :
  fits 32 n -> next_free_qpn fuel first used n = None ->
  forall i, 0 <= i < Z.of_nat fuel -> let m := u32 (n + i) in m < first \/ m ∈ used.
Proof.
  revert n. induction fuel as [|fuel IH]; intros n Hn Hr i Hi; [lia|]. cbn [next_free_qpn] in Hr.
  destruct (_ || _) eqn:Hb; [|done]. destruct (decide (i = 0)) as [->|].
  - cbv zeta. rewrite Z.add_0_r, wrap_id by done. apply orb_true_iff in Hb as [Hb|Hb]; bdestr; auto.
  - specialize (IH (u32 (n + 1)) ltac:(apply wrap_fits; lia) Hr (i - 1) ltac:(lia)). cbv zeta in IH |- *.
    unfold wrap in IH. rewrite Zplus_mod_idemp_l in IH. by replace (n + 1 + (i - 1)) with (n + i) in IH by lia.
Qed.

(** The loop ends when the numbers in use leave one free: [fuel] turns try
    [fuel] different numbers, more than those that are refused. *)
Lemma next_free_qpn_ends used first n :
  fits 32 n -> 0 <= first <= 100 -> (101 + Z.of_nat (size used) <= 2 ^ 32) ->
  is_Some (next_free_qpn (qpn_fuel used) first used n).
Proof.
  intros Hn Hf Hs. destruct (next_free_qpn _ _ _ _) eqn:Hr; [by eexists|]. exfalso.
  set (k := Z.of_nat (qpn_fuel used)). pose proof (next_free_qpn_none _ _ _ _ Hn Hr) as Hbad. fold k in Hbad.
  set (tried := (fun i => u32 (n + i)) <$> seqZ 0 k).
  assert (NoDup tried) as Hnd.
  { apply NoDup_fmap_2_strong; [|apply NoDup_seqZ]. intros x y Hx%elem_of_seqZ Hy%elem_of_seqZ. unfold wrap.
    intros He. unfold k, qpn_fuel in *. apply (f_equal (fun z => (z - n) mod 2 ^ 32)) in He.
    rewrite !Zminus_mod_idemp_l in He. replace (n + x - n) with x in He by lia. replace (n + y - n) with y in He by lia.
    rewrite !Z.mod_small in He by lia. done. }
  assert (list_to_set tried ⊆@{gset Z} list_to_set (seqZ 0 first) ∪ used) as Hsub.
  { intros m Hm. apply elem_of_list_to_set, list_elem_of_fmap in Hm as (i & -> & Hi%elem_of_seqZ).
    rewrite elem_of_union, elem_of_list_to_set, elem_of_seqZ.
    assert (fits 32 (u32 (n + i))) as Hfit by (apply wrap_fits; lia). unfold fits in Hfit.
    destruct (Hbad i); [lia| |auto]. left. lia. }
  apply subseteq_size in Hsub. rewrite size_list_to_set in Hsub by done.
  unfold tried in Hsub. rewrite length_fmap, length_seqZ in Hsub.
  pose proof (size_union_alt (list_to_set (seqZ 0 first) : gset Z) used) as Hu.
  assert (size (used ∖ list_to_set (seqZ 0 first)) <= size used)%nat by (apply subseteq_size, subseteq_difference_l; done).
  rewrite size_list_to_set, length_seqZ in Hu by apply NoDup_seqZ. unfold k, qpn_fuel in *. lia.
Qed.
#[global] Arguments next_free_qpn : simpl never.
#[global] Arguments qpn_fuel : simpl never.
