(* ===== verification/Loopback.v ===== *)
(** * The loopback backend (rdma/rdma_backend_loopback.c)

    Its private state is the table of live queue pairs and the counters that
    number new objects; [None] is a device whose backend_private is NULL.
    The order in which glib walks a hash table is not specified, so it is an
    argument: [hash_order], any enumeration of the table. *)
From S2P Require Export RdmaBackend.

Record LoopbackQP := LoopQP { lq_qpn : Z; lq_qp_type : Z; lq_state : Z; lq_remote_qpn : Z }.
#[export] Instance lq_eta : Eta LoopbackQP := fun r => LoopQP (lq_qpn r) (lq_qp_type r) (lq_state r) (lq_remote_qpn r).

Definition LOOPBACK_FIRST_QPN : Z := 100.

Record LoopbackBackendPrivate := LoopPrivate {
  lb_qps : gmap Z LoopbackQP; lb_next_pd_handle : Z; lb_next_mr_handle : Z; lb_next_cq_handle : Z; lb_next_qpn : Z }.
#[export] Instance lb_eta : Eta LoopbackBackendPrivate := fun r =>
  LoopPrivate (lb_qps r) (lb_next_pd_handle r) (lb_next_mr_handle r) (lb_next_cq_handle r) (lb_next_qpn r).

Class HashOrder := {
  hash_order : gmap Z LoopbackQP -> list (Z * LoopbackQP);
  hash_order_perm m : hash_order m ≡ₚ map_to_list m }.

Abbreviation LB := (ST (option LoopbackBackendPrivate)).

(** get_private(), and its result changed in place. *)
Definition get_private (dev : bool) : LB (option LoopbackBackendPrivate) := fun s => (if dev then s else None, s).
Definition set_private (p : LoopbackBackendPrivate) : LB unit := modify (fun _ => Some p).

(** The LoopbackQP behind a queue pair, or NULL. *)
Definition loopback_qp (qp : RdmaBackendQP) : LB (option LoopbackQP) := fun s =>
  (p ← s; k ← bqp_priv qp; lb_qps p !! k, s).
Definition upd_lqp (k : Z) (f : LoopbackQP -> LoopbackQP) : LB unit :=
  modify (fmap (fun p => p <| lb_qps ::= alter f k |>)).

Definition loopback_init (config : cptr) : LB Z := fun _ =>
  (0, Some (LoopPrivate ∅ 1 1 1 LOOPBACK_FIRST_QPN)).
Definition loopback_fini : LB unit := fun _ => (tt, None).

Definition loopback_query_device : LB (Z * ibv_device_attr) :=
  mret (0, inhabitant <| da_max_qp := ERNIC_MAX_QP |> <| da_max_qp_wr := 1024 |> <| da_max_sge := ERNIC_MAX_SGE |>
                      <| da_max_cq := ERNIC_MAX_CQ |> <| da_max_cqe := 8192 |> <| da_max_mr := ERNIC_MAX_MR |>
                      <| da_max_pd := 1024 |> <| da_max_mr_size := 4294967295 |> <| da_atomic_cap := IBV_ATOMIC_HCA |>
                      <| da_max_srq := ERNIC_MAX_SRQ |> <| da_max_srq_wr := 1024 |>
                      <| da_max_srq_sge := ERNIC_MAX_SRQ_SGE |>).

Definition loopback_create_pd (dev : bool) (pd : RdmaBackendPD) : LB (Z * RdmaBackendPD) :=
  priv ← get_private dev;
  match priv with
  | None => mret (- EINVAL, pd)
  | Some p =>
      set_private (p <| lb_next_pd_handle := u32 (lb_next_pd_handle p + 1) |>) ;;
      mret (0, pd <| bpd_dev := dev |>)
  end.

(** The do-while loop's second turn is its last: the number after 0 is 1. *)
Definition loopback_create_mr (mr : RdmaBackendMR) (pd : RdmaBackendPD) (access : Z) : LB (Z * RdmaBackendMR) :=
  priv ← get_private (bpd_dev pd);
  match priv with
  | None => mret (- EINVAL, mr)
  | Some p =>
      let handle := lb_next_mr_handle p in
      let next := u32 (handle + 1) in
      let '(handle, next) := if handle =? 0 then (next, u32 (next + 1)) else (handle, next) in
      set_private (p <| lb_next_mr_handle := next |>) ;;
      mret (0, mr <| bmr_handle := handle |>)
  end.
Definition loopback_mr_lkey (mr : RdmaBackendMR) : Z := bmr_handle mr.

Definition loopback_create_cq (dev : bool) (cq : RdmaBackendCQ) (cqe : Z) : LB (Z * RdmaBackendCQ) :=
  priv ← get_private dev;
  match priv with
  | None => mret (- EINVAL, cq)
  | Some p =>
      let handle := lb_next_cq_handle p in
      set_private (p <| lb_next_cq_handle := u32 (handle + 1) |>) ;;
      mret (0, cq <| bcq_dev := dev |> <| bcq_handle := handle |>)
  end.

Definition loopback_create_qp (qp : RdmaBackendQP) (qp_type : Z) (pd : RdmaBackendPD) (scq rcq : RdmaBackendCQ)
    (srq : option RdmaBackendSRQ) : LB (Z * RdmaBackendQP) :=
  priv ← get_private (bcq_dev scq);
  match priv with
  | None => mret (- EINVAL, qp)
  | Some p =>
      let '(qpn, next) := default (0, 0) (next_free_qpn (qpn_fuel (dom (lb_qps p))) LOOPBACK_FIRST_QPN (dom (lb_qps p)) (lb_next_qpn p)) in
      set_private (p <| lb_qps ::= insert qpn (LoopQP qpn qp_type IBV_QPS_RESET 0) |> <| lb_next_qpn := next |>) ;;
      mret (0, qp <| bqp_dev := bcq_dev scq |> <| bqp_priv := Some qpn |>)
  end.

Definition loopback_destroy_qp (qp : RdmaBackendQP) : LB RdmaBackendQP :=
  lqp ← loopback_qp qp;
  match lqp with
  | None => mret qp
  | Some lqp =>
      priv ← get_private (bqp_dev qp);
      match priv with
      | Some p => set_private (p <| lb_qps ::= delete (lq_qpn lqp) |>)
      | None => mret tt
      end ;;
      mret (qp <| bqp_priv := None |>)
  end.

Definition loopback_qpn (qp : RdmaBackendQP) : LB Z := lqp ← loopback_qp qp; mret (default 0 (lq_qpn <$> lqp)).

(** ** State transitions *)
Section transitions.
Context `{!HashOrder}.

Definition loopback_qp_state_init (dev : bool) (qp : RdmaBackendQP) (qp_type qkey : Z) : LB Z :=
  lqp ← loopback_qp qp;
  match lqp with Some l => upd_lqp (lq_qpn l) (fun l => l <| lq_state := IBV_QPS_INIT |>) | None => mret tt end ;;
  mret 0.

Definition loopback_qp_state_rtr (dev : bool) (qp : RdmaBackendQP) (qp_type sgid_idx : Z) (dgid : list Z)
    (dqpn rq_psn qkey : Z) (qkey_set : bool) : LB Z :=
  lqp ← loopback_qp qp;
  match lqp with
  | Some l =>
      if qp_type =? IBV_QPT_DRIVER then upd_lqp (lq_qpn l) (fun l => l <| lq_state := IBV_QPS_RTR |>)
      else upd_lqp (lq_qpn l) (fun l => l <| lq_state := IBV_QPS_RTR |> <| lq_remote_qpn := dqpn |>)
  | None => mret tt
  end ;;
  mret 0.

(** One step of the search for a partner: best so far is its number and its
    distance. *)
Definition pair_step (lqp : LoopbackQP) (best : option (Z * Z)) (e : Z * LoopbackQP) : option (Z * Z) :=
  let '(other_qpn, other) := e in
  if other_qpn =? lq_qpn lqp then best
  else if (lq_qp_type other =? lq_qp_type lqp) && (lq_state other =? IBV_QPS_RTS) && (lq_remote_qpn other =? 0) then
    let distance := if lq_qpn lqp <? other_qpn then other_qpn - lq_qpn lqp else lq_qpn lqp - other_qpn in
    if distance <? default UINT32_MAX (snd <$> best) then Some (other_qpn, distance) else best
  else best.

Definition loopback_auto_pair_qp (lqp : LoopbackQP) : LB unit :=
  if negb (lq_qp_type lqp =? IBV_QPT_RC) && negb (lq_qp_type lqp =? IBV_QPT_UC) then mret tt
  else
    (if lq_remote_qpn lqp =? lq_qpn lqp then upd_lqp (lq_qpn lqp) (fun l => l <| lq_remote_qpn := 0 |>) else mret tt) ;;
    let remote := if lq_remote_qpn lqp =? lq_qpn lqp then 0 else lq_remote_qpn lqp in
    if negb (remote =? 0) then mret tt
    else
      qps ← gets (fun s => default ∅ (lb_qps <$> s));
      match foldl (pair_step lqp) None (hash_order qps) with
      | Some (other_qpn, _) =>
          upd_lqp (lq_qpn lqp) (fun l => l <| lq_remote_qpn := other_qpn |>) ;;
          upd_lqp other_qpn (fun l => l <| lq_remote_qpn := lq_qpn lqp |>)
      | None => mret tt
      end.

Definition loopback_qp_state_rts (qp : RdmaBackendQP) (qp_type sq_psn qkey : Z) (qkey_set : bool) : LB Z :=
  lqp ← loopback_qp qp;
  match lqp with
  | None => mret 0
  | Some l =>
      upd_lqp (lq_qpn l) (fun l => l <| lq_state := IBV_QPS_RTS |>) ;;
      if qp_type =? IBV_QPT_DRIVER then mret 0
      else
        priv ← get_private (bqp_dev qp);
        match priv with
        | Some _ => loopback_auto_pair_qp (l <| lq_state := IBV_QPS_RTS |>)
        | None => mret tt
        end ;;
        mret 0
  end.

Definition loopback_query_qp (qp : RdmaBackendQP) (attr_mask : Z) : LB (Z * ibv_qp_attr) :=
  lqp ← loopback_qp qp;
  let rw := Z.lor IBV_ACCESS_LOCAL_WRITE IBV_ACCESS_REMOTE_WRITE in
  mret (0, match lqp with
           | Some l => QpAttr (lq_state l) (lq_state l) IBV_MTU_1024 (Z.lor rw IBV_ACCESS_REMOTE_READ)
                              (lq_remote_qpn l) 0 0
           | None => QpAttr IBV_QPS_RTS IBV_QPS_RTS IBV_MTU_1024 rw 0 0 0
           end).

(** ** Shared receive queues *)
Definition loopback_create_srq (srq : RdmaBackendSRQ) (pd : RdmaBackendPD) (max_wr max_sge srq_limit : Z)
    : LB (Z * RdmaBackendSRQ) :=
  mret (0, srq <| bsrq_priv := Some (LoopSRQ max_wr max_sge srq_limit) |>).
Definition loopback_destroy_srq (srq : RdmaBackendSRQ) : LB RdmaBackendSRQ := mret (srq <| bsrq_priv := None |>).
Definition loopback_query_srq (srq : RdmaBackendSRQ) (attr : ibv_srq_attr) : LB (Z * ibv_srq_attr) :=
  mret match bsrq_priv srq with
       | None => (- EINVAL, attr)
       | Some l => (0, SrqAttr (ls_max_wr l) (ls_max_sge l) (ls_srq_limit l))
       end.
Definition loopback_modify_srq (srq : RdmaBackendSRQ) (attr : ibv_srq_attr) (mask : Z) : LB (Z * RdmaBackendSRQ) :=
  mret match bsrq_priv srq with
       | None => (- EINVAL, srq)
       | Some l => (0, if has_bit mask IBV_SRQ_LIMIT
                       then srq <| bsrq_priv := Some (l <| ls_srq_limit := sa_srq_limit attr |>) |> else srq)
       end.

Definition loopback_get_backend_gid_index (dev : bool) (sgid_idx : Z) : LB Z := mret sgid_idx.

Definition ops_loopback : RdmaBackendOps (option LoopbackBackendPrivate) := {|
  op_init := Some loopback_init; op_fini := Some loopback_fini;
  op_query_device := Some loopback_query_device;
  op_create_pd := Some loopback_create_pd;
  op_create_mr := Some loopback_create_mr; op_destroy_mr := Some mret; op_mr_lkey := Some loopback_mr_lkey;
  op_create_cq := Some loopback_create_cq; op_destroy_cq := Some mret;
  op_create_qp := Some loopback_create_qp; op_destroy_qp := Some loopback_destroy_qp; op_qpn := Some loopback_qpn;
  op_qp_state_init := Some loopback_qp_state_init; op_qp_state_rtr := Some loopback_qp_state_rtr;
  op_qp_state_rts := Some loopback_qp_state_rts; op_query_qp := Some loopback_query_qp;
  op_get_backend_gid_index := Some loopback_get_backend_gid_index;
  op_create_srq := Some loopback_create_srq; op_destroy_srq := Some loopback_destroy_srq;
  op_query_srq := Some loopback_query_srq; op_modify_srq := Some loopback_modify_srq |}.
End transitions.
