(* ===== verification/RdmaRm.v ===== *)
(** * The resource manager (pvrdma/rdma_rm.c, pvrdma/rdma_backend.c)

    Five tables of numbered objects, each with its allocation bitmap, and the
    hash from a queue pair's number to its slot.  The operations run on
    [PVRDMADev], the tables with the backend's private state; the backend's
    vtable is the section's argument, [None] while no backend is up.

    An operation that hands out a number returns it, or the negative errno. *)
From S2P Require Export Bitmap RdmaBackend.

(** ** Resource tables *)

(** The bytes of a slot are a value of its type, all zeros as [inhabitant].  A
    slot holds rubbish until the allocator has zeroed it; no slot is read
    before. *)
Record RdmaRmResTbl (A : Type) := ResTbl {
  t_bitmap : option bitmap; t_sz : Z; t_tbl : list A; t_used : Z }.
Arguments ResTbl {A}. Arguments t_bitmap {A}. Arguments t_sz {A}. Arguments t_tbl {A}. Arguments t_used {A}.
#[export] Instance tbl_eta A : Eta (RdmaRmResTbl A) := fun r => ResTbl (t_bitmap r) (t_sz r) (t_tbl r) (t_used r).
#[export] Instance tbl_inh A : Inhabited (RdmaRmResTbl A) := populate (ResTbl None 0 [] 0).

Section tables.
Context {A : Type} `{!Inhabited A}.
Implicit Types t : RdmaRmResTbl A.

(** [mem_tbl] and [mem_map]: whether the two allocations succeed. *)
Definition res_tbl_init (mem_tbl mem_map : bool) (tbl_sz res_sz : Z) (t : RdmaRmResTbl A) : Z * RdmaRmResTbl A :=
  let t := t <| t_bitmap := None |> <| t_tbl := [] |> in
  if negb (res_sz =? 0) && (SIZE_MAX / res_sz <? tbl_sz) then (- EOVERFLOW, t)
  else if negb mem_tbl && negb (tbl_sz * res_sz =? 0) then (- ENOMEM, t)
  else
    match bitmap_new mem_map tbl_sz with
    | None => (- ENOMEM, t)
    | Some bm => (0, ResTbl (Some bm) tbl_sz (replicate (Z.to_nat tbl_sz) inhabitant) 0)
    end.

Definition res_tbl_free (t : RdmaRmResTbl A) : RdmaRmResTbl A :=
  match t_bitmap t with
  | None => t
  | Some _ => t <| t_tbl := [] |> <| t_bitmap := None |>
  end.

Definition tbl_live (t : RdmaRmResTbl A) (handle : Z) : bool :=
  match t_bitmap t with
  | Some bm => (0 <=? handle) && (handle <? t_sz t) && test_bit handle bm
  | None => false
  end.

Definition rdma_res_tbl_get (handle : Z) (t : RdmaRmResTbl A) : option A :=
  if tbl_live t handle then t_tbl t !! Z.to_nat handle else None.

Definition rdma_res_tbl_alloc (t : RdmaRmResTbl A) : option Z * RdmaRmResTbl A :=
  match t_bitmap t with
  | None => (None, t)
  | Some bm =>
      let handle := find_first_zero_bit bm (t_sz t) in
      if t_sz t <=? handle then (None, t)
      else (Some handle, t <| t_bitmap := Some (set_bit handle bm) |> <| t_used := u32 (t_used t + 1) |>
                           <| t_tbl ::= <[Z.to_nat handle := inhabitant]> |>)
  end.

Definition rdma_res_tbl_dealloc (handle : Z) (t : RdmaRmResTbl A) : RdmaRmResTbl A :=
  if handle <? t_sz t then t <| t_bitmap ::= fmap (clear_bit handle) |> <| t_used := u32 (t_used t - 1) |> else t.

(** A write through the pointer the lookup or the allocator returned. *)
Definition tbl_put (handle : Z) (a : A) (t : RdmaRmResTbl A) : RdmaRmResTbl A :=
  t <| t_tbl ::= <[Z.to_nat handle := a]> |>.
End tables.

(** ** The tables of a device (pvrdma/rdma_rm_defs.h)

    A PD, MR, CQ or SRQ of the manager is the backend's object and nothing
    else. *)
Abbreviation RdmaRmPD := RdmaBackendPD.
Abbreviation RdmaRmMR := RdmaBackendMR.
Abbreviation RdmaRmCQ := RdmaBackendCQ.
Abbreviation RdmaRmSRQ := RdmaBackendSRQ.
Record RdmaRmQP := RmQP {
  rq_backend_qp : RdmaBackendQP; rq_qp_type : Z; rq_qpn : Z; rq_qp_state : Z; rq_rq_psn : Z; rq_sq_psn : Z }.
#[export] Instance rmqp_eta : Eta RdmaRmQP := fun r =>
  RmQP (rq_backend_qp r) (rq_qp_type r) (rq_qpn r) (rq_qp_state r) (rq_rq_psn r) (rq_sq_psn r).
#[export] Instance rmqp_inh : Inhabited RdmaRmQP := populate (RmQP inhabitant 0 0 0 0 0).

(** [qp_hash] maps a number to the handle of the slot it points at. *)
Record RdmaDeviceResources := DevRes {
  pd_tbl : RdmaRmResTbl RdmaRmPD; mr_tbl : RdmaRmResTbl RdmaRmMR; qp_tbl : RdmaRmResTbl RdmaRmQP;
  cq_tbl : RdmaRmResTbl RdmaRmCQ; srq_tbl : RdmaRmResTbl RdmaRmSRQ; qp_hash : gmap Z Z }.
#[export] Instance devres_eta : Eta RdmaDeviceResources := fun r =>
  DevRes (pd_tbl r) (mr_tbl r) (qp_tbl r) (cq_tbl r) (srq_tbl r) (qp_hash r).
#[export] Instance devres_inh : Inhabited RdmaDeviceResources :=
  populate (DevRes inhabitant inhabitant inhabitant inhabitant inhabitant ∅).

Record PVRDMADev (P : Type) := PvDev { pv_res : RdmaDeviceResources; pv_private : P }.
Arguments PvDev {P}. Arguments pv_res {P}. Arguments pv_private {P}.
#[export] Instance pvdev_eta P : Eta (PVRDMADev P) := fun r => PvDev (pv_res r) (pv_private r).

Section manager.
Context {P : Type} (backend_ops : option (RdmaBackendOps P)).
Abbreviation RM := (ST (PVRDMADev P)).

(** A call into the backend, and a call of a table's function. *)
Definition backend {B} (m : ST P B) : RM B := fun s => let '(b, p) := m (pv_private s) in (b, s <| pv_private := p |>).
Definition on_tbl {A B} (tbl : RdmaDeviceResources -> RdmaRmResTbl A) `{!Setter tbl}
    (f : RdmaRmResTbl A -> B * RdmaRmResTbl A) : RM B := fun s =>
  let '(b, t) := f (tbl (pv_res s)) in (b, s <| pv_res ::= upd tbl (fun _ => t) |>).
Definition in_tbl {A} (tbl : RdmaDeviceResources -> RdmaRmResTbl A) `{!Setter tbl}
    (f : RdmaRmResTbl A -> RdmaRmResTbl A) : RM unit := modify (fun s => s <| pv_res ::= upd tbl f |>).

(** An object's operation: NULL when its vtable pointer, or the operation, is. *)
Definition op_of {F} (ops : bool) (f : RdmaBackendOps P -> option F) : option F :=
  if ops then o ← backend_ops; f o else None.

(** ** Protection domains *)
Definition rdma_rm_get_pd (pd_handle : Z) : RM (option RdmaRmPD) :=
  gets (fun s => rdma_res_tbl_get pd_handle (pd_tbl (pv_res s))).

Definition rdma_rm_alloc_pd : RM (Z + Z) :=
  h ← on_tbl pd_tbl rdma_res_tbl_alloc;
  match h with
  | None => mret (inl (- ENOMEM))
  | Some pd_handle =>
      match op_of true op_create_pd with
      | Some create_pd =>
          r ← backend (create_pd true inhabitant);
          if negb ((r : Z * RdmaRmPD).1 =? 0) then
            in_tbl pd_tbl (rdma_res_tbl_dealloc pd_handle) ;; mret (inl (- EIO))
          else in_tbl pd_tbl (tbl_put pd_handle (r.2 <| bpd_ops := true |>)) ;; mret (inr pd_handle)
      | None => in_tbl pd_tbl (tbl_put pd_handle inhabitant) ;; mret (inr pd_handle)
      end
  end.

Definition rdma_rm_dealloc_pd (pd_handle : Z) : RM unit :=
  pd ← rdma_rm_get_pd pd_handle;
  match pd with
  | Some _ => in_tbl pd_tbl (rdma_res_tbl_dealloc pd_handle)
  | None => mret tt
  end.

(** ** Memory regions: the handle, the lkey and the rkey *)
Definition rdma_rm_get_mr (mr_handle : Z) : RM (option RdmaRmMR) :=
  gets (fun s => rdma_res_tbl_get mr_handle (mr_tbl (pv_res s))).

Definition rdma_rm_alloc_mr (pd_handle access_flags : Z) : RM (Z + Z * Z * Z) :=
  pd ← rdma_rm_get_pd pd_handle;
  match pd with
  | None => mret (inl (- EINVAL))
  | Some pd =>
      h ← on_tbl mr_tbl rdma_res_tbl_alloc;
      match h with
      | None => mret (inl (- ENOMEM))
      | Some mr_handle =>
          match op_of (bpd_ops pd) op_create_mr with
          | Some create_mr =>
              r ← backend (create_mr inhabitant pd access_flags);
              if negb ((r : Z * RdmaRmMR).1 =? 0) then
                in_tbl mr_tbl (rdma_res_tbl_dealloc mr_handle) ;; mret (inl (- EIO))
              else
                let mr := r.2 <| bmr_ops := true |> in
                in_tbl mr_tbl (tbl_put mr_handle mr) ;;
                let lkey := match op_of true op_mr_lkey with
                            | Some mr_lkey => let blkey := mr_lkey mr in if negb (blkey =? 0) then blkey else mr_handle
                            | None => mr_handle
                            end in
                mret (inr (mr_handle, lkey, mr_handle))
          | None => in_tbl mr_tbl (tbl_put mr_handle inhabitant) ;; mret (inr (mr_handle, mr_handle, mr_handle))
          end
      end
  end.

Definition rdma_rm_dealloc_mr (mr_handle : Z) : RM unit :=
  mr ← rdma_rm_get_mr mr_handle;
  match mr with
  | Some mr =>
      match op_of (bmr_ops mr) op_destroy_mr with
      | Some destroy_mr => mr ← backend (destroy_mr mr); in_tbl mr_tbl (tbl_put mr_handle mr)
      | None => mret tt
      end ;;
      in_tbl mr_tbl (rdma_res_tbl_dealloc mr_handle)
  | None => mret tt
  end.

(** ** Completion queues *)
Definition rdma_rm_get_cq (cq_handle : Z) : RM (option RdmaRmCQ) :=
  gets (fun s => rdma_res_tbl_get cq_handle (cq_tbl (pv_res s))).

Definition rdma_rm_dealloc_cq (cq_handle : Z) : RM unit :=
  cq ← rdma_rm_get_cq cq_handle;
  match cq with
  | Some cq =>
      match op_of (bcq_ops cq) op_destroy_cq with
      | Some destroy_cq => cq ← backend (destroy_cq cq); in_tbl cq_tbl (tbl_put cq_handle cq)
      | None => mret tt
      end ;;
      in_tbl cq_tbl (rdma_res_tbl_dealloc cq_handle)
  | None => mret tt
  end.

Definition rdma_rm_alloc_cq (cqe : Z) : RM (Z + Z) :=
  h ← on_tbl cq_tbl rdma_res_tbl_alloc;
  match h with
  | None => mret (inl (- ENOMEM))
  | Some cq_handle =>
      match op_of true op_create_cq with
      | Some create_cq =>
          r ← backend (create_cq true inhabitant cqe);
          if negb ((r : Z * RdmaRmCQ).1 =? 0) then
            in_tbl cq_tbl (tbl_put cq_handle r.2) ;; rdma_rm_dealloc_cq cq_handle ;; mret (inl (- EIO))
          else in_tbl cq_tbl (tbl_put cq_handle (r.2 <| bcq_ops := true |>)) ;; mret (inr cq_handle)
      | None => in_tbl cq_tbl (tbl_put cq_handle inhabitant) ;; mret (inr cq_handle)
      end
  end.

(** ** Shared receive queues (pvrdma/rdma_backend.c and rdma_rm.c) *)
Definition rdma_backend_create_srq (srq : RdmaBackendSRQ) (pd : RdmaBackendPD) (max_wr max_sge srq_limit : Z)
    : RM (Z * RdmaBackendSRQ) :=
  match op_of (bpd_ops pd) op_create_srq with
  | None => mret (- EINVAL, srq)
  | Some create_srq =>
      r ← backend (create_srq srq pd max_wr max_sge srq_limit);
      mret (if negb ((r : Z * RdmaBackendSRQ).1 =? 0) then r else (0, r.2 <| bsrq_ops := true |>))
  end.
Definition rdma_backend_query_srq (srq : RdmaBackendSRQ) (attr : ibv_srq_attr) : RM (Z * ibv_srq_attr) :=
  match op_of (bsrq_ops srq) op_query_srq with
  | None => mret (- EINVAL, attr)
  | Some query_srq => backend (query_srq srq attr)
  end.
Definition rdma_backend_modify_srq (srq : RdmaBackendSRQ) (attr : ibv_srq_attr) (mask : Z) : RM (Z * RdmaBackendSRQ) :=
  match op_of (bsrq_ops srq) op_modify_srq with
  | None => mret (- EINVAL, srq)
  | Some modify_srq => backend (modify_srq srq attr mask)
  end.
Definition rdma_backend_destroy_srq (srq : RdmaBackendSRQ) : RM RdmaBackendSRQ :=
  srq ← match op_of (bsrq_ops srq) op_destroy_srq with
        | Some destroy_srq => backend (destroy_srq srq)
        | None => mret srq
        end;
  mret (srq <| bsrq_ops := false |>).

Definition rdma_rm_get_srq (srq_handle : Z) : RM (option RdmaRmSRQ) :=
  gets (fun s => rdma_res_tbl_get srq_handle (srq_tbl (pv_res s))).

Definition rdma_rm_alloc_srq (pd_handle max_wr max_sge srq_limit : Z) : RM (Z + Z) :=
  pd ← rdma_rm_get_pd pd_handle;
  match pd with
  | None => mret (inl (- EINVAL))
  | Some pd =>
      h ← on_tbl srq_tbl rdma_res_tbl_alloc;
      match h with
      | None => mret (inl (- ENOMEM))
      | Some srq_handle =>
          r ← rdma_backend_create_srq inhabitant pd max_wr max_sge srq_limit;
          in_tbl srq_tbl (tbl_put srq_handle (r : Z * RdmaBackendSRQ).2) ;;
          if negb (r.1 =? 0) then in_tbl srq_tbl (rdma_res_tbl_dealloc srq_handle) ;; mret (inl (- EIO))
          else mret (inr srq_handle)
      end
  end.

Definition rdma_rm_query_srq (srq_handle : Z) (attr : ibv_srq_attr) : RM (Z * ibv_srq_attr) :=
  srq ← rdma_rm_get_srq srq_handle;
  match srq with
  | None => mret (- EINVAL, attr)
  | Some srq => rdma_backend_query_srq srq attr
  end.

Definition rdma_rm_modify_srq (srq_handle : Z) (attr : ibv_srq_attr) (mask : Z) : RM Z :=
  srq ← rdma_rm_get_srq srq_handle;
  match srq with
  | None => mret (- EINVAL)
  | Some srq =>
      if has_bit mask IBV_SRQ_LIMIT && (sa_srq_limit attr =? 0) then mret (- EINVAL)
      else if has_bit mask IBV_SRQ_MAX_WR && (sa_max_wr attr =? 0) then mret (- EINVAL)
      else
        r ← rdma_backend_modify_srq srq attr mask;
        in_tbl srq_tbl (tbl_put srq_handle (r : Z * RdmaBackendSRQ).2) ;;
        mret r.1
  end.

Definition rdma_rm_dealloc_srq (srq_handle : Z) : RM unit :=
  srq ← rdma_rm_get_srq srq_handle;
  match srq with
  | None => mret tt
  | Some srq =>
      srq ← rdma_backend_destroy_srq srq;
      in_tbl srq_tbl (tbl_put srq_handle srq) ;;
      in_tbl srq_tbl (rdma_res_tbl_dealloc srq_handle)
  end.

(** ** Queue pairs *)

(** The slot a number names.  A pointer in the hash is followed without a look
    at the bitmap. *)
Definition rdma_rm_get_qp (qpn : Z) : RM (option (Z * RdmaRmQP)) :=
  gets (fun s => h ← qp_hash (pv_res s) !! qpn; qp ← t_tbl (qp_tbl (pv_res s)) !! Z.to_nat h; Some (h, qp)).

Definition set_hash (f : gmap Z Z -> gmap Z Z) : RM unit := modify (fun s => s <| pv_res ::= upd qp_hash f |>).

(** The backend's part of rdma_rm_alloc_qp(): its queue pair and the number. *)
Definition alloc_qp_backend (qp : RdmaRmQP) (pd : RdmaRmPD) (scq rcq : RdmaRmCQ) (srq : option RdmaRmSRQ)
    : RM (Z + RdmaRmQP * Z) :=
  match op_of (bpd_ops pd) op_create_qp with
  | Some create_qp =>
      r ← backend (create_qp (rq_backend_qp qp) (rq_qp_type qp) pd scq rcq srq);
      if negb ((r : Z * RdmaBackendQP).1 =? 0) then mret (inl (- EIO))
      else
        let bqp := r.2 <| bqp_ops := true |> in
        qpn ← match op_of true op_qpn with Some qpn => backend (qpn bqp) | None => mret (rq_qpn qp) end;
        mret (inr (qp <| rq_backend_qp := bqp |>, qpn))
  | None => mret (inr (qp <| rq_backend_qp := inhabitant |>, rq_qpn qp))
  end.

Definition destroy_qp_backend (qp : RdmaRmQP) : RM RdmaRmQP :=
  match op_of (bqp_ops (rq_backend_qp qp)) op_destroy_qp with
  | Some destroy_qp => b ← backend (destroy_qp (rq_backend_qp qp)); mret (qp <| rq_backend_qp := b |>)
  | None => mret qp
  end.

Definition rdma_rm_alloc_qp (pd_handle qp_type send_cq_handle recv_cq_handle : Z) (srq_handle : option Z)
    : RM (Z + Z) :=
  pd ← rdma_rm_get_pd pd_handle;
  match pd with
  | None => mret (inl (- EINVAL))
  | Some pd =>
      scq ← rdma_rm_get_cq send_cq_handle;
      rcq ← rdma_rm_get_cq recv_cq_handle;
      srq ← match srq_handle with Some h => rdma_rm_get_srq h | None => mret None end;
      match scq, rcq with
      | Some scq, Some rcq =>
          if bool_decide (is_Some srq_handle) && negb (bool_decide (is_Some srq)) then mret (inl (- EINVAL))
          else
            h ← on_tbl qp_tbl rdma_res_tbl_alloc;
            match h with
            | None => mret (inl (- ENOMEM))
            | Some rm_qpn =>
                let qp := RmQP inhabitant qp_type rm_qpn IBV_QPS_RESET 0 0 in
                r ← alloc_qp_backend qp pd scq rcq srq;
                match r with
                | inl rc => in_tbl qp_tbl (rdma_res_tbl_dealloc rm_qpn) ;; mret (inl rc)
                | inr (qp, qpn) =>
                    in_tbl qp_tbl (tbl_put rm_qpn qp) ;;
                    hash ← gets (fun s => qp_hash (pv_res s));
                    if bool_decide (is_Some (hash !! qpn)) then
                      qp ← destroy_qp_backend qp;
                      in_tbl qp_tbl (tbl_put rm_qpn qp) ;;
                      in_tbl qp_tbl (rdma_res_tbl_dealloc rm_qpn) ;;
                      mret (inl (- EIO))
                    else set_hash (insert qpn rm_qpn) ;; mret (inr qpn)
                end
            end
      | _, _ => mret (inl (- EINVAL))
      end
  end.

(** The attributes rdma_rm_modify_qp() takes. *)
Record qp_mod := QpMod {
  qm_attr_mask : Z; qm_sgid_idx : Z; qm_dgid : list Z; qm_dqpn : Z; qm_qp_state : Z; qm_qkey : Z;
  qm_rq_psn : Z; qm_sq_psn : Z }.

(** The backend's transitions: the first error of those the new state names. *)
Definition modify_qp_rtr (qp : RdmaRmQP) (a : qp_mod) : RM Z :=
  let b := rq_backend_qp qp in
  match op_of (bqp_ops b) op_qp_state_rtr with
  | None => mret 0
  | Some qp_state_rtr =>
      idx ← match op_of (bqp_ops b) op_get_backend_gid_index with
            | Some gid_index => backend (gid_index true (qm_sgid_idx a))
            | None => mret (qm_sgid_idx a)
            end;
      if (idx <? 0) || (255 <? idx) then mret (- EIO)
      else
        ret ← backend (qp_state_rtr true b (rq_qp_type qp) idx (qm_dgid a) (qm_dqpn a) (qm_rq_psn a) (qm_qkey a)
                         (has_bit (qm_attr_mask a) IBV_QP_QKEY));
        mret (if negb ((ret : Z) =? 0) then - EIO else 0)
  end.
Definition modify_qp_backend (qp : RdmaRmQP) (a : qp_mod) : RM Z :=
  let b := rq_backend_qp qp in
  if qm_qp_state a =? IBV_QPS_INIT then
    match op_of (bqp_ops b) op_qp_state_init with
    | Some qp_state_init =>
        ret ← backend (qp_state_init true b (rq_qp_type qp) (qm_qkey a));
        mret (if negb ((ret : Z) =? 0) then - EIO else 0)
    | None => mret 0
    end
  else if qm_qp_state a =? IBV_QPS_RTR then modify_qp_rtr qp a
  else if qm_qp_state a =? IBV_QPS_RTS then
    match op_of (bqp_ops b) op_qp_state_rts with
    | Some qp_state_rts =>
        ret ← backend (qp_state_rts b (rq_qp_type qp) (qm_sq_psn a) (qm_qkey a) (has_bit (qm_attr_mask a) IBV_QP_QKEY));
        mret (if negb ((ret : Z) =? 0) then - EIO else 0)
    | None => mret 0
    end
  else mret 0.

(** What a successful modification records. *)
Definition record_qp (a : qp_mod) (qp : RdmaRmQP) : RdmaRmQP :=
  let qp := if has_bit (qm_attr_mask a) IBV_QP_RQ_PSN then qp <| rq_rq_psn := Z.land (qm_rq_psn a) 16777215 |> else qp in
  let qp := if has_bit (qm_attr_mask a) IBV_QP_SQ_PSN then qp <| rq_sq_psn := Z.land (qm_sq_psn a) 16777215 |> else qp in
  if has_bit (qm_attr_mask a) IBV_QP_STATE then qp <| rq_qp_state := qm_qp_state a |> else qp.

Definition rdma_rm_modify_qp (qp_handle : Z) (a : qp_mod) : RM Z :=
  q ← rdma_rm_get_qp qp_handle;
  match q with
  | None => mret (- EINVAL)
  | Some (h, qp) =>
      if rq_qp_type qp =? ERNIC_IB_QPT_SMI then mret (- EPERM)
      else
        ret ← (if has_bit (qm_attr_mask a) IBV_QP_STATE && negb (rq_qp_type qp =? ERNIC_IB_QPT_GSI)
               then modify_qp_backend qp a else mret 0);
        if negb ((ret : Z) =? 0) then mret ret
        else in_tbl qp_tbl (tbl_put h (record_qp a qp)) ;; mret 0
  end.

Definition rdma_rm_query_qp (qp_handle attr_mask : Z) : RM (Z * ibv_qp_attr) :=
  q ← rdma_rm_get_qp qp_handle;
  match q with
  | None => mret (- EINVAL, inhabitant)
  | Some (_, qp) =>
      let lay a := a <| qa_qp_state := rq_qp_state qp |> <| qa_cur_qp_state := rq_qp_state qp |>
                     <| qa_rq_psn := rq_rq_psn qp |> <| qa_sq_psn := rq_sq_psn qp |> in
      match op_of (bqp_ops (rq_backend_qp qp)) op_query_qp with
      | Some query_qp =>
          r ← backend (query_qp (rq_backend_qp qp) attr_mask);
          mret (if (r : Z * ibv_qp_attr).1 =? 0 then (r.1, lay r.2) else r)
      | None =>
          mret (0, lay (inhabitant <| qa_path_mtu := IBV_MTU_1024 |>
                          <| qa_qp_access_flags := Z.lor IBV_ACCESS_LOCAL_WRITE IBV_ACCESS_REMOTE_WRITE |>))
      end
  end.

Definition rdma_rm_dealloc_qp (qp_handle : Z) : RM unit :=
  q ← rdma_rm_get_qp qp_handle;
  set_hash (delete qp_handle) ;;
  match q with
  | None => mret tt
  | Some (h, qp) =>
      qp ← destroy_qp_backend qp;
      in_tbl qp_tbl (tbl_put h qp) ;;
      in_tbl qp_tbl (rdma_res_tbl_dealloc (rq_qpn qp))
  end.
End manager.

(** ** Set-up and tear-down *)

(** The sizes of the slots on LP64. *)
Definition SIZEOF_PD : Z := 16.
Definition SIZEOF_CQ : Z := 24.
Definition SIZEOF_MR : Z := 16.
Definition SIZEOF_QP : Z := 56.
Definition SIZEOF_SRQ : Z := 16.

(** [mem i] is the outcome of the two allocations of the [i]-th table.  On a
    failure the tables set up so far are freed, and the hash destroyed. *)
Definition rdma_rm_init (mem : Z -> bool * bool) (a : ibv_device_attr) (r : RdmaDeviceResources)
    : Z * RdmaDeviceResources :=
  if (da_max_pd a <? 0) || (da_max_cq a <? 0) || (da_max_mr a <? 0) || (da_max_qp a <? 0) || (da_max_srq a <? 0)
  then (- EINVAL, r)
  else
    let r := r <| qp_hash := ∅ |> in
    let init {A} `{!Inhabited A} i sz res_sz (t : RdmaRmResTbl A) := res_tbl_init (mem i).1 (mem i).2 (u32 sz) res_sz t in
    let '(ret, t) := init 0 (da_max_pd a) SIZEOF_PD (pd_tbl r) in
    let r := r <| pd_tbl := t |> in
    if ret <? 0 then (ret, r) else
    let '(ret, t) := init 1 (da_max_cq a) SIZEOF_CQ (cq_tbl r) in
    let r := r <| cq_tbl := t |> in
    if ret <? 0 then (ret, r <| pd_tbl ::= res_tbl_free |>) else
    let '(ret, t) := init 2 (da_max_mr a) SIZEOF_MR (mr_tbl r) in
    let r := r <| mr_tbl := t |> in
    if ret <? 0 then (ret, r <| cq_tbl ::= res_tbl_free |> <| pd_tbl ::= res_tbl_free |>) else
    let '(ret, t) := init 3 (da_max_qp a) SIZEOF_QP (qp_tbl r) in
    let r := r <| qp_tbl := t |> in
    if ret <? 0 then
      (ret, r <| mr_tbl ::= res_tbl_free |> <| cq_tbl ::= res_tbl_free |> <| pd_tbl ::= res_tbl_free |>) else
    let '(ret, t) := init 4 (da_max_srq a) SIZEOF_SRQ (srq_tbl r) in
    let r := r <| srq_tbl := t |> in
    if ret <? 0 then
      (ret, r <| qp_tbl ::= res_tbl_free |> <| mr_tbl ::= res_tbl_free |> <| cq_tbl ::= res_tbl_free |>
              <| pd_tbl ::= res_tbl_free |>)
    else (0, r).

Definition rdma_rm_fini (r : RdmaDeviceResources) : RdmaDeviceResources :=
  r <| srq_tbl ::= res_tbl_free |> <| qp_tbl ::= res_tbl_free |> <| mr_tbl ::= res_tbl_free |>
    <| cq_tbl ::= res_tbl_free |> <| pd_tbl ::= res_tbl_free |> <| qp_hash := ∅ |>.
