(* ===== verification/TcpRes.v ===== *)
(** * The TCP backend's resource operations (rdma/rdma_backend_tcp.c, tcp_gid.c)

    What the TCP backend keeps for the resource manager: the counters, the
    numbers in use, and the table that says which mesh node owns a GID, which
    the transition to RTR consults.  The mesh itself is behind the data path's
    environment. *)
From S2P Require Export RdmaBackend.

Record TcpBackendPrivate := TcpPrivate {
  tp_next_pd_handle : Z; tp_next_cq_handle : Z; tp_next_qpn : Z; tp_qpns : gset Z;
  tp_gid_owner : option (gmap (list Z) Z) }.
#[export] Instance tp_eta : Eta TcpBackendPrivate := fun r =>
  TcpPrivate (tp_next_pd_handle r) (tp_next_cq_handle r) (tp_next_qpn r) (tp_qpns r) (tp_gid_owner r).

Definition TCP_FIRST_QPN : Z := 100.

Abbreviation TB := (ST (option TcpBackendPrivate)).
Definition tcp_get_private (dev : bool) : TB (option TcpBackendPrivate) := fun s => (if dev then s else None, s).
Definition tcp_set_private (p : TcpBackendPrivate) : TB unit := modify (fun _ => Some p).

Definition tcp_query_device : TB (Z * ibv_device_attr) :=
  mret (0, inhabitant <| da_max_qp := ERNIC_MAX_QP |> <| da_max_qp_wr := 1024 |> <| da_max_sge := ERNIC_MAX_SGE |>
                      <| da_max_cq := ERNIC_MAX_CQ |> <| da_max_cqe := 8192 |> <| da_max_mr := ERNIC_MAX_MR |>
                      <| da_max_pd := 1024 |> <| da_max_mr_size := 4294967295 |> <| da_atomic_cap := IBV_ATOMIC_HCA |>
                      <| da_max_srq := ERNIC_MAX_SRQ |> <| da_max_srq_wr := 65535 |>
                      <| da_max_srq_sge := ERNIC_MAX_SRQ_SGE |>).

Definition tcp_create_pd (dev : bool) (pd : RdmaBackendPD) : TB (Z * RdmaBackendPD) :=
  priv ← tcp_get_private dev;
  match priv with
  | None => mret (- EINVAL, pd)
  | Some p =>
      tcp_set_private (p <| tp_next_pd_handle := u32 (tp_next_pd_handle p + 1) |>) ;;
      mret (0, pd <| bpd_dev := dev |>)
  end.
Definition tcp_create_mr (mr : RdmaBackendMR) (pd : RdmaBackendPD) (access : Z) : TB (Z * RdmaBackendMR) :=
  mret (0, mr <| bmr_handle := 0 |>).
Definition tcp_mr_lkey (mr : RdmaBackendMR) : Z := 0.
Definition tcp_create_cq (dev : bool) (cq : RdmaBackendCQ) (cqe : Z) : TB (Z * RdmaBackendCQ) :=
  priv ← tcp_get_private dev;
  match priv with
  | None => mret (- EINVAL, cq)
  | Some p =>
      let handle := tp_next_cq_handle p in
      tcp_set_private (p <| tp_next_cq_handle := u32 (handle + 1) |>) ;;
      mret (0, cq <| bcq_dev := dev |> <| bcq_handle := handle |>)
  end.

Definition tcp_create_qp (qp : RdmaBackendQP) (qp_type : Z) (pd : RdmaBackendPD) (scq rcq : RdmaBackendCQ)
    (srq : option RdmaBackendSRQ) : TB (Z * RdmaBackendQP) :=
  priv ← tcp_get_private (bcq_dev scq);
  match priv with
  | None => mret (- EINVAL, qp)
  | Some p =>
      let '(qpn, next) := default (0, 0) (next_free_qpn (qpn_fuel (tp_qpns p)) TCP_FIRST_QPN (tp_qpns p) (tp_next_qpn p)) in
      tcp_set_private (p <| tp_qpns ::= union {[qpn]} |> <| tp_next_qpn := next |>) ;;
      mret (0, qp <| bqp_dev := bcq_dev scq |> <| bqp_qpn := qpn |>)
  end.
Definition tcp_destroy_qp (qp : RdmaBackendQP) : TB RdmaBackendQP :=
  priv ← tcp_get_private (bqp_dev qp);
  match priv with
  | Some p => tcp_set_private (p <| tp_qpns := tp_qpns p ∖ {[bqp_qpn qp]} |>)
  | None => mret tt
  end ;;
  mret qp.
Definition tcp_qpn (qp : RdmaBackendQP) : TB Z := mret (bqp_qpn qp).

Definition tcp_qp_state_init (dev : bool) (qp : RdmaBackendQP) (qp_type qkey : Z) : TB Z :=
  priv ← tcp_get_private dev; mret (match priv with None => - EINVAL | Some _ => 0 end).

(** tcp_gid.c: a contested GID is stored as UINT32_MAX. *)
Definition tcp_resolve_node_from_gid (p : TcpBackendPrivate) (dgid : list Z) : Z :=
  match tp_gid_owner p with None => UINT32_MAX | Some m => default UINT32_MAX (m !! dgid) end.

Definition tcp_qp_state_rtr (dev : bool) (qp : RdmaBackendQP) (qp_type sgid_idx : Z) (dgid : list Z)
    (dqpn rq_psn qkey : Z) (qkey_set : bool) : TB Z :=
  priv ← tcp_get_private dev;
  mret match priv with
       | None => - EINVAL
       | Some p =>
           if qp_type =? IBV_QPT_UD then 0
           else if tcp_resolve_node_from_gid p dgid =? UINT32_MAX then - EINVAL else 0
       end.
Definition tcp_qp_state_rts (qp : RdmaBackendQP) (qp_type sq_psn qkey : Z) (qkey_set : bool) : TB Z := mret 0.
Definition tcp_get_backend_gid_index (dev : bool) (sgid_idx : Z) : TB Z := mret sgid_idx.

Definition tcp_create_srq (srq : RdmaBackendSRQ) (pd : RdmaBackendPD) (max_wr max_sge srq_limit : Z)
    : TB (Z * RdmaBackendSRQ) := mret (0, srq <| bsrq_priv := Some (LoopSRQ max_wr max_sge srq_limit) |>).
Definition tcp_destroy_srq (srq : RdmaBackendSRQ) : TB RdmaBackendSRQ := mret (srq <| bsrq_priv := None |>).
Definition tcp_query_srq (srq : RdmaBackendSRQ) (attr : ibv_srq_attr) : TB (Z * ibv_srq_attr) :=
  mret match bsrq_priv srq with
       | None => (- EINVAL, attr)
       | Some l => (0, SrqAttr (ls_max_wr l) (ls_max_sge l) (ls_srq_limit l))
       end.
Definition tcp_modify_srq (srq : RdmaBackendSRQ) (attr : ibv_srq_attr) (mask : Z) : TB (Z * RdmaBackendSRQ) :=
  mret match bsrq_priv srq with
       | None => (- EINVAL, srq)
       | Some l => (0, if has_bit mask IBV_SRQ_LIMIT
                       then srq <| bsrq_priv := Some (l <| ls_srq_limit := sa_srq_limit attr |>) |> else srq)
       end.

(** init() and fini() start and stop the mesh; they are arguments. *)
Definition ops_tcp (init : cptr -> TB Z) (fini : TB unit) : RdmaBackendOps (option TcpBackendPrivate) := {|
  op_init := Some init; op_fini := Some fini;
  op_query_device := Some tcp_query_device;
  op_create_pd := Some tcp_create_pd;
  op_create_mr := Some tcp_create_mr; op_destroy_mr := Some mret; op_mr_lkey := Some tcp_mr_lkey;
  op_create_cq := Some tcp_create_cq; op_destroy_cq := Some mret;
  op_create_qp := Some tcp_create_qp; op_destroy_qp := Some tcp_destroy_qp; op_qpn := Some tcp_qpn;
  op_qp_state_init := Some tcp_qp_state_init; op_qp_state_rtr := Some tcp_qp_state_rtr;
  op_qp_state_rts := Some tcp_qp_state_rts; op_query_qp := None;
  op_get_backend_gid_index := Some tcp_get_backend_gid_index;
  op_create_srq := Some tcp_create_srq; op_destroy_srq := Some tcp_destroy_srq;
  op_query_srq := Some tcp_query_srq; op_modify_srq := Some tcp_modify_srq |}.
