(* ===== verification/RdmaLaws.v ===== *)
(** * What a backend promises the resource manager

    [BackendLaws ops] for a backend that numbers its own queue pairs: [be_live]
    is the set of numbers in use, which only creation and destruction of a
    queue pair change, and [be_names b n] says that the object [b] is the queue
    pair numbered [n].  The loopback and the TCP backend keep the promise. *)
From S2P Require Export Loopback TcpRes.

Section quiet.
Context {P : Type} (inv : P -> Prop) (live : P -> gset Z).
Definition quiet {B} (m : ST P B) : Prop := forall p, inv p -> inv (m p).2 /\ live (m p).2 = live p.
End quiet.

Class BackendLaws {P} (ops : RdmaBackendOps P) := {
  be_inv : P -> Prop;
  be_live : P -> gset Z;
  be_names : RdmaBackendQP -> Z -> Prop;
  be_names_ops b n v : be_names b n -> be_names (b <| bqp_ops := v |>) n;
  be_create_pd : exists f, op_create_pd ops = Some f /\ forall d pd, quiet be_inv be_live (f d pd);
  be_create_mr f mr pd a : op_create_mr ops = Some f -> quiet be_inv be_live (f mr pd a);
  be_destroy_mr f mr : op_destroy_mr ops = Some f -> quiet be_inv be_live (f mr);
  be_create_cq f d cq n : op_create_cq ops = Some f -> quiet be_inv be_live (f d cq n);
  be_destroy_cq f cq : op_destroy_cq ops = Some f -> quiet be_inv be_live (f cq);
  be_state_init f d b t k : op_qp_state_init ops = Some f -> quiet be_inv be_live (f d b t k);
  be_state_rtr f d b t i g n p k s : op_qp_state_rtr ops = Some f -> quiet be_inv be_live (f d b t i g n p k s);
  be_state_rts f b t p k s : op_qp_state_rts ops = Some f -> quiet be_inv be_live (f b t p k s);
  be_query_qp f b m : op_query_qp ops = Some f -> quiet be_inv be_live (f b m);
  be_gid_index f d i : op_get_backend_gid_index ops = Some f -> quiet be_inv be_live (f d i);
  be_create_srq f s pd a b c : op_create_srq ops = Some f -> quiet be_inv be_live (f s pd a b c);
  be_destroy_srq f s : op_destroy_srq ops = Some f -> quiet be_inv be_live (f s);
  be_query_srq f s a : op_query_srq ops = Some f -> quiet be_inv be_live (f s a);
  be_modify_srq f s a m : op_modify_srq ops = Some f -> quiet be_inv be_live (f s a m);
  (** A new queue pair gets a number no live one has. *)
  be_create_qp : exists f, op_create_qp ops = Some f /\
    forall b t pd scq rcq srq p, be_inv p -> Z.of_nat (size (be_live p)) < 2 ^ 31 ->
      let '(r, p') := f b t pd scq rcq srq p in
      be_inv p' /\
      (r.1 <> 0 -> be_live p' = be_live p) /\
      (r.1 = 0 -> exists n, be_names r.2 n /\ (n ∉ be_live p) /\ be_live p' = {[n]} ∪ be_live p /\ fits 32 n);
  be_qpn : exists f, op_qpn ops = Some f /\
    forall b n p, be_inv p -> be_names b n -> n ∈ be_live p -> f b p = (n, p);
  be_destroy_qp : exists f, op_destroy_qp ops = Some f /\
    forall b n p, be_inv p -> be_names b n -> n ∈ be_live p ->
      be_inv (f b p).2 /\ be_live (f b p).2 = be_live p ∖ {[n]} }.
Arguments be_inv {P} ops {_}.
Arguments be_live {P} ops {_}.
Arguments be_names {P} ops {_}.

(** ** The TCP backend *)
Definition tcp_inv (s : option TcpBackendPrivate) : Prop := exists p, s = Some p /\ fits 32 (tp_next_qpn p).
Definition tcp_live (s : option TcpBackendPrivate) : gset Z := default ∅ (tp_qpns <$> s).

#[export] Instance tcp_laws init fini : BackendLaws (ops_tcp init fini).
Proof.
  refine {| be_inv := tcp_inv; be_live := tcp_live;
            be_names := fun b n => bqp_dev b = true /\ bqp_qpn b = n |}.
  all: try (intros; simplify_eq/=; intros ? ?; done).
  - done.
  - eexists. split; [done|]. intros d pd s (p & -> & Hp). unfold tcp_create_pd. destruct d; cbn; [|by split; [exists p|]].
    split; [by eexists; split|done].
  - intros f d cq n [= <-] s (p & -> & Hp). unfold tcp_create_cq. destruct d; cbn; [|by split; [exists p|]].
    split; [by eexists; split|done].
  - eexists. split; [done|]. intros b t pd scq rcq srq s (p & -> & Hp) Hs. unfold tcp_create_qp. cbn in Hs.
    destruct (bcq_dev scq) eqn:Hd; rewrite run_bind; cbn; [|split_and!; [by exists p|done|done]].
    destruct (next_free_qpn_ends (tp_qpns p) TCP_FIRST_QPN (tp_next_qpn p)) as [[q next] Hq];
      [done|unfold TCP_FIRST_QPN; lia|lia|]. rewrite Hq. cbn.
    apply next_free_qpn_sound in Hq as (H1 & H2 & -> & H4). split_and!; [|done|].
    + eexists. split; [done|]. apply wrap_fits. lia.
    + intros _. exists q. split_and!; [done..|]. by apply H4.
  - eexists. split; [done|]. by intros b n p _ [_ <-] _.
  - eexists. split; [done|]. intros b n s (p & -> & Hp) [Hd <-] Hn. unfold tcp_destroy_qp. rewrite Hd. cbn.
    split; [by eexists; split|done].
Defined.

(** ** The loopback backend *)
Definition loop_inv (s : option LoopbackBackendPrivate) : Prop :=
  exists p, s = Some p /\ fits 32 (lb_next_qpn p) /\
    forall n l, lb_qps p !! n = Some l -> lq_qpn l = n /\ LOOPBACK_FIRST_QPN <= n < 2 ^ 32.
Definition loop_live (s : option LoopbackBackendPrivate) : gset Z := default ∅ ((fun p => dom (lb_qps p)) <$> s).

(** A change of a queue pair's record that keeps its number. *)
Lemma upd_lqp_quiet k f : (forall l, lq_qpn (f l) = lq_qpn l) -> quiet loop_inv loop_live (upd_lqp k f).
Proof.
  intros Hf s (p & -> & Hn & Hq). split.
  - eexists. split; [done|]. split; [done|]. intros n l. cbn. rewrite lookup_alter_Some.
    intros [(-> & l' & Hl & ->)|[_ Hl]]; [rewrite Hf|]; by apply Hq.
  - cbn. apply dom_alter_L.
Qed.

Lemma quiet_bind {P A B} inv live (m : ST P A) (k : A -> ST P B) :
  quiet inv live m -> (forall a, quiet inv live (k a)) -> quiet inv live (m ≫= k).
Proof.
  intros Hm Hk p Hp. rewrite run_bind. destruct (Hm p Hp) as [H1 H2]. destruct (Hk (m p).1 _ H1) as [H3 H4].
  split; [done|congruence].
Qed.
Lemma quiet_ret {P A} inv live (a : A) : quiet inv live (mret a : ST P A).
Proof. by intros p Hp. Qed.
Lemma quiet_gets {P A} inv live (f : P -> A) : quiet inv live (gets f).
Proof. by intros p Hp. Qed.
Lemma quiet_get_private d : quiet loop_inv loop_live (get_private d).
Proof. by intros p Hp. Qed.
Lemma quiet_loopback_qp b : quiet loop_inv loop_live (loopback_qp b).
Proof. by intros p Hp. Qed.
Create HintDb quiet_be.
#[export] Hint Resolve quiet_ret quiet_gets quiet_get_private quiet_loopback_qp : quiet_be.
Ltac quiet_auto :=
  repeat first
    [ done
    | solve [auto with quiet_be]
    | apply upd_lqp_quiet; done
    | apply quiet_bind; [|intros ?]
    | case_match ].

Section loopback_laws.
Context `{!HashOrder}.

Lemma auto_pair_quiet l : quiet loop_inv loop_live (loopback_auto_pair_qp l).
Proof. unfold loopback_auto_pair_qp. quiet_auto. Qed.
#[local] Hint Resolve auto_pair_quiet : quiet_be.

#[export] Instance loopback_laws : BackendLaws ops_loopback.
Proof.
  refine {| be_inv := loop_inv; be_live := loop_live;
            be_names := fun b n => bqp_dev b = true /\ bqp_priv b = Some n |}.
  all: try (intros; simplify_eq/=; intros ? ?; done).
  - done.
  - eexists. split; [done|]. intros d pd s (p & -> & Hp). unfold loopback_create_pd. destruct d; cbn; [|by split; [exists p|]].
    split; [by eexists; split|done].
  - intros f mr pd a [= <-] s (p & -> & Hp). unfold loopback_create_mr. rewrite run_bind. destruct (bpd_dev pd); cbn; [|by split; [exists p|]].
    destruct (lb_next_mr_handle p =? 0); cbn; (split; [by eexists; split|done]).
  - intros f d cq n [= <-] s (p & -> & Hp). unfold loopback_create_cq. destruct d; cbn; [|by split; [exists p|]].
    split; [by eexists; split|done].
  - intros f d b t k [= <-]. unfold loopback_qp_state_init. quiet_auto.
  - intros f d b t i g n p k s [= <-]. unfold loopback_qp_state_rtr. quiet_auto.
  - intros f b t p k s [= <-]. unfold loopback_qp_state_rts. quiet_auto.
  - eexists. split; [done|]. intros b t pd scq rcq srq s (p & -> & Hp & Hq) Hs. unfold loopback_create_qp. cbn in Hs.
    destruct (bcq_dev scq) eqn:Hd; rewrite run_bind; cbn; [|split_and!; [by exists p|done|done]].
    destruct (next_free_qpn_ends (dom (lb_qps p)) LOOPBACK_FIRST_QPN (lb_next_qpn p)) as [[q next] Hr];
      [done|unfold LOOPBACK_FIRST_QPN; lia|lia|]. rewrite Hr. cbn.
    apply next_free_qpn_sound in Hr as (H1 & H2 & -> & H4). split_and!; [|done|].
    + eexists. split; [done|]. split; [apply wrap_fits; lia|]. intros n l. cbn.
      rewrite lookup_insert_Some. intros [[<- <-]|[_ Hl]]; [|by apply Hq].
      split; [done|]. pose proof (H4 Hp) as Hfit. unfold fits in Hfit. lia.
    + intros _. exists q. split_and!; [done..| |by apply H4]. cbn. apply dom_insert_L.
  - eexists. split; [done|]. intros b n s (p & -> & _ & Hq) [_ Hb] Hn. unfold loopback_qpn, loopback_qp. cbn in *.
    apply elem_of_dom in Hn as [l Hl]. unfold mbind, st_bind. rewrite Hb. cbn. rewrite Hl. cbn. by rewrite (proj1 (Hq _ _ Hl)).
  - eexists. split; [done|]. intros b n s (p & -> & Hp & Hq) [Hd Hb] Hn. unfold loopback_destroy_qp, loopback_qp. cbn in *.
    apply elem_of_dom in Hn as [l Hl]. unfold mbind, st_bind. rewrite Hb. cbn. rewrite Hl, Hd. cbn.
    rewrite (proj1 (Hq _ _ Hl)). split; [|apply dom_delete_L]. eexists. split; [done|]. split; [done|].
    intros k l'. cbn. rewrite lookup_delete_Some. intros [_ ?]. by apply Hq.
Defined.
End loopback_laws.
