(* ===== verification/RdmaRmSpec.v ===== *)
(** * The resource manager refines a table of live handles

    What the manager promises its caller: five sets of live numbers
    ([rm_view]), and for each operation what it does to them ([rm_spec]).
    [rm_inv] is the invariant that ties the bitmaps, the slots, the hash and
    the backend's own table together: the numbers in the hash are exactly the
    numbers the backend has in use, and each points at a live slot of its own. *)
From S2P Require Export RdmaRm RdmaLaws.

(** * Resource tables: what allocation and release do

    A table that is [tbl_ok] has a bit for each of its slots and counts the
    bits that are set; [tlive] is the set of its live handles.  Allocation
    picks the least handle that is not live and zeroes its slot; release takes
    exactly its handle out. *)
Section tables.
Context {A : Type} `{!Inhabited A}.
Implicit Types t : RdmaRmResTbl A.

Definition tlive t : gset Z := match t_bitmap t with Some bm => bits_of bm (t_sz t) | None => ∅ end.

Definition tbl_ok t : Prop :=
  0 <= t_sz t < 2 ^ 32 /\ length (t_tbl t) = Z.to_nat (t_sz t) /\ t_used t = Z.of_nat (size (tlive t)) /\
  exists bm, t_bitmap t = Some bm /\ forall h, 0 <= h < t_sz t -> bit_in h bm.

Lemma tbl_live_iff t h : tbl_ok t -> tbl_live t h = true <-> h ∈ tlive t.
Proof.
  intros (_ & _ & _ & bm & Hb & _). unfold tbl_live, tlive. rewrite Hb, elem_of_bits_of, !andb_true_iff.
  rewrite Z.leb_le, Z.ltb_lt. tauto.
Qed.

Lemma tlive_bound t h : tbl_ok t -> h ∈ tlive t -> 0 <= h < t_sz t.
Proof. intros (_ & _ & _ & bm & Hb & _). unfold tlive. rewrite Hb, elem_of_bits_of. tauto. Qed.

Lemma tlive_subseteq t : tbl_ok t -> tlive t ⊆ list_to_set (seqZ 0 (t_sz t)).
Proof. intros Ht h Hh. rewrite elem_of_list_to_set, elem_of_seqZ. apply tlive_bound in Hh; [lia|done]. Qed.

Lemma tlive_size t : tbl_ok t -> Z.of_nat (size (tlive t)) <= t_sz t.
Proof.
  intros Ht. pose proof (subseteq_size _ _ (tlive_subseteq t Ht)) as Hs.
  rewrite size_list_to_set, length_seqZ in Hs by apply NoDup_seqZ. destruct Ht. lia.
Qed.

Lemma get_is_Some t h : tbl_ok t -> is_Some (rdma_res_tbl_get h t) <-> h ∈ tlive t.
Proof.
  intros Ht. rewrite <-tbl_live_iff by done. unfold rdma_res_tbl_get. destruct (tbl_live t h) eqn:Hl.
  - split; [done|]. intros _. apply lookup_lt_is_Some_2. apply tbl_live_iff, tlive_bound in Hl; [|done..].
    destruct Ht as (_ & -> & _). lia.
  - split; [by intros []|done].
Qed.

Lemma get_lookup t h a : rdma_res_tbl_get h t = Some a -> t_tbl t !! Z.to_nat h = Some a.
Proof. unfold rdma_res_tbl_get. by destruct (tbl_live t h). Qed.

Lemma get_live t h a : tbl_ok t -> rdma_res_tbl_get h t = Some a -> h ∈ tlive t.
Proof. intros Ht Hg. apply get_is_Some; [done|by exists a]. Qed.

Lemma alloc_some t h t' :
  tbl_ok t -> rdma_res_tbl_alloc t = (Some h, t') ->
  (h ∉ tlive t) /\ 0 <= h < t_sz t /\ (forall k, 0 <= k < h -> k ∈ tlive t) /\
  tbl_ok t' /\ tlive t' = {[h]} ∪ tlive t /\ t_sz t' = t_sz t /\ t_tbl t' = <[Z.to_nat h := inhabitant]> (t_tbl t).
Proof.
  intros Ht. pose proof Ht as (Hsz & Hlen & Hu & bm & Hb & Hm). unfold rdma_res_tbl_alloc. rewrite Hb.
  pose proof (find_first_zero_bit_spec bm (t_sz t) ltac:(lia)) as (Hr & Hz & Hlt).
  set (x := find_first_zero_bit bm (t_sz t)) in *. destruct (t_sz t <=? x) eqn:Hle; [done|]. bdestr.
  intros [= <- <-]. assert (x ∉ tlive t) as Hx.
  { unfold tlive. rewrite Hb, elem_of_bits_of, Hz by done. intros [_ ?]. done. }
  assert (forall t', t_bitmap t' = Some (set_bit x bm) -> t_sz t' = t_sz t -> tlive t' = {[x]} ∪ tlive t) as Hl.
  { intros t' E1 E2. unfold tlive. rewrite E1, E2, Hb. apply bits_of_set; [apply Hm|]; lia. }
  split_and!; [done|lia..| | |by apply Hl|done|done].
  - intros k Hk. unfold tlive. rewrite Hb, elem_of_bits_of. split; [lia|]. by apply Hlt.
  - unfold tbl_ok. rewrite Hl by done. cbn [t_sz t_tbl t_used t_bitmap upd].
    rewrite length_insert, size_union, size_singleton by set_solver.
    pose proof (tlive_size t Ht). assert (size (tlive t) < Z.to_nat (t_sz t))%nat.
    { assert ({[x]} ∪ tlive t ⊆ list_to_set (seqZ 0 (t_sz t))) as Hs%subseteq_size.
      { apply union_subseteq. split; [|by apply tlive_subseteq].
        rewrite singleton_subseteq_l, elem_of_list_to_set, elem_of_seqZ. lia. }
      rewrite size_union, size_singleton, size_list_to_set, length_seqZ in Hs by (apply NoDup_seqZ || set_solver). lia. }
    split_and!; [lia..|done| |].
    + rewrite wrap_id; [lia|]. unfold fits. lia.
    + exists (set_bit x bm). split; [done|]. intros h Hh. unfold bit_in. rewrite length_set_bit. by apply Hm.
Qed.

(** A table refuses only when every handle is live. *)
Lemma alloc_none t t' :
  tbl_ok t -> rdma_res_tbl_alloc t = (None, t') -> t' = t /\ forall k, 0 <= k < t_sz t -> k ∈ tlive t.
Proof.
  intros Ht. pose proof Ht as (Hsz & Hlen & Hu & bm & Hb & Hm). unfold rdma_res_tbl_alloc. rewrite Hb.
  pose proof (find_first_zero_bit_spec bm (t_sz t) ltac:(lia)) as (Hr & Hz & Hlt).
  destruct (t_sz t <=? _) eqn:Hle; [|done]. bdestr. intros [= <-]. split; [done|].
  intros k Hk. unfold tlive. rewrite Hb, elem_of_bits_of. split; [lia|]. apply Hlt. lia.
Qed.

Lemma dealloc_spec t h :
  tbl_ok t -> h ∈ tlive t ->
  tbl_ok (rdma_res_tbl_dealloc h t) /\ tlive (rdma_res_tbl_dealloc h t) = tlive t ∖ {[h]} /\
  t_sz (rdma_res_tbl_dealloc h t) = t_sz t /\ t_tbl (rdma_res_tbl_dealloc h t) = t_tbl t.
Proof.
  intros Ht Hh. pose proof (tlive_bound t h Ht Hh) as Hb. pose proof Ht as (Hsz & Hlen & Hu & bm & Hbm & Hm).
  unfold rdma_res_tbl_dealloc. replace (h <? t_sz t) with true by (symmetry; apply Z.ltb_lt; lia).
  set (t' := _ <| t_used := _ |>). assert (tlive t' = tlive t ∖ {[h]}) as Hl.
  { unfold tlive, t'. cbn. rewrite Hbm. cbn. apply bits_of_clear; [apply Hm|]; lia. }
  split_and!; [|done..]. unfold tbl_ok. rewrite Hl, size_difference, size_singleton by set_solver.
  pose proof (tlive_size t Ht). assert (size (tlive t) <> 0)%nat by (apply size_non_empty_iff; set_solver).
  unfold t'. cbn. rewrite Hbm. cbn. split_and!; [lia..| |].
  - rewrite wrap_id; [lia|]. unfold fits. lia.
  - exists (clear_bit h bm). split; [done|]. intros k Hk. unfold bit_in. rewrite length_clear_bit. by apply Hm.
Qed.

Lemma put_spec t h a :
  (tbl_ok t -> tbl_ok (tbl_put h a t)) /\ tlive (tbl_put h a t) = tlive t /\ t_sz (tbl_put h a t) = t_sz t /\
  t_tbl (tbl_put h a t) = <[Z.to_nat h := a]> (t_tbl t).
Proof.
  split_and!; [|done..]. intros (Hsz & Hlen & Hu & Hb). unfold tbl_ok. cbn. rewrite length_insert. done.
Qed.

Lemma res_tbl_init_ok m1 m2 sz res_sz t t' :
  0 <= sz < 2 ^ 32 -> res_tbl_init m1 m2 sz res_sz t = (0, t') -> tbl_ok t' /\ tlive t' = ∅ /\ t_sz t' = sz.
Proof.
  intros Hsz. unfold res_tbl_init. destruct (_ && _); [done|]. destruct (_ && _); [done|].
  destruct (bitmap_new m2 sz) as [bm|] eqn:Hb; [|done]. intros [= <-].
  assert (tlive (ResTbl (Some bm) sz (replicate (Z.to_nat sz) (inhabitant : A)) 0) = ∅) as Hl.
  { unfold tlive. cbn. apply set_eq. intros k. rewrite elem_of_bits_of, (test_bit_new _ _ _ _ Hb). set_solver. }
  split_and!; [|done..]. unfold tbl_ok. rewrite Hl. cbn. rewrite length_replicate.
  split_and!; [lia..|done|]. exists bm. split; [done|]. intros h Hh. by eapply bitmap_new_covers.
Qed.

(** An allocation completed by a write to its slot, and one undone. *)
Definition slots_kept (t t' : RdmaRmResTbl A) : Prop :=
  forall k, k ∈ tlive t -> t_tbl t' !! Z.to_nat k = t_tbl t !! Z.to_nat k.

Lemma alloc_put_spec t h t1 a :
  tbl_ok t -> rdma_res_tbl_alloc t = (Some h, t1) ->
  let t' := tbl_put h a t1 in
  tbl_ok t' /\ (h ∉ tlive t) /\ 0 <= h < t_sz t /\ tlive t' = {[h]} ∪ tlive t /\ t_sz t' = t_sz t /\
  t_tbl t' !! Z.to_nat h = Some a /\ slots_kept t t'.
Proof.
  intros Ht Ha t'. pose proof (alloc_some t h t1 Ht Ha) as (Hn & Hb & _ & Hok & Hl & Hs & He).
  destruct (put_spec t1 h a) as (P1 & P2 & P3 & P4). fold t' in P1, P2, P3, P4.
  rewrite P2, P3. split_and!; [by apply P1|done|lia|lia|done|done| |].
  - rewrite P4, list_lookup_insert_eq; [done|]. destruct Hok as (_ & -> & _). rewrite Hs. lia.
  - intros k Hk. pose proof (tlive_bound t k Ht Hk). rewrite P4, He.
    assert (Z.to_nat h <> Z.to_nat k) by (intros ?; assert (h = k) by lia; by subst).
    by rewrite !list_lookup_insert_ne.
Qed.

Lemma alloc_undo_spec t h t1 t2 :
  tbl_ok t -> rdma_res_tbl_alloc t = (Some h, t1) -> t2 = t1 \/ (exists a, t2 = tbl_put h a t1) ->
  let t' := rdma_res_tbl_dealloc h t2 in
  tbl_ok t' /\ tlive t' = tlive t /\ t_sz t' = t_sz t /\ slots_kept t t'.
Proof.
  intros Ht Ha Ht2 t'. pose proof (alloc_some t h t1 Ht Ha) as (Hn & Hb & _ & Hok & Hl & Hs & He).
  assert (exists a, t2 = tbl_put h a t1) as [a ->].
  { destruct Ht2 as [->|?]; [|done]. exists inhabitant. unfold tbl_put. destruct t1. cbn in *. f_equal.
    by rewrite He, list_insert_insert_eq. }
  pose proof (alloc_put_spec t h t1 a Ht Ha) as (P1 & _ & _ & P4 & P5 & _ & P7).
  destruct (dealloc_spec (tbl_put h a t1) h) as (Q1 & Q2 & Q3 & Q4); [done|set_solver|].
  fold t' in Q1, Q2, Q3, Q4. split_and!; [done| |congruence|].
  - rewrite Q2, P4. set_solver.
  - intros k Hk. rewrite Q4. by apply P7.
Qed.

(** A release, completed by writes to its slot before it. *)
Lemma release_spec t h t1 :
  tbl_ok t -> h ∈ tlive t -> t1 = t \/ (exists a, t1 = tbl_put h a t) ->
  let t' := rdma_res_tbl_dealloc h t1 in
  tbl_ok t' /\ tlive t' = tlive t ∖ {[h]} /\ t_sz t' = t_sz t /\
  (forall k, k ∈ tlive t' -> t_tbl t' !! Z.to_nat k = t_tbl t !! Z.to_nat k).
Proof.
  intros Ht Hh Ht1 t'. assert (tbl_ok t1 /\ tlive t1 = tlive t /\ t_sz t1 = t_sz t) as (H1 & H2 & H3).
  { destruct Ht1 as [->|[a ->]]; [done|]. destruct (put_spec t h a) as (P1 & P2 & P3 & _). auto. }
  destruct (dealloc_spec t1 h) as (Q1 & Q2 & Q3 & Q4); [done|congruence|].
  fold t' in Q1, Q2, Q3, Q4. rewrite H2 in Q2. split_and!; [done..|congruence|].
  intros k Hk. rewrite Q2 in Hk. apply elem_of_difference in Hk as [Hk Hne%not_elem_of_singleton].
  rewrite Q4. destruct Ht1 as [->|[a ->]]; [done|]. cbn.
  pose proof (tlive_bound t k Ht Hk). pose proof (tlive_bound t h Ht Hh).
  rewrite list_lookup_insert_ne; [done|]. lia.
Qed.
End tables.
#[global] Arguments rdma_res_tbl_dealloc : simpl never.
#[global] Arguments rdma_res_tbl_alloc : simpl never.
#[global] Arguments rdma_res_tbl_get : simpl never.
#[global] Arguments tbl_put : simpl never.
#[global] Arguments tlive : simpl never.

(** ** The contract *)
Record rm_view := RmView { v_pds : gset Z; v_mrs : gset Z; v_cqs : gset Z; v_srqs : gset Z; v_qps : gset Z }.
#[export] Instance rm_view_eta : Eta rm_view := fun r => RmView (v_pds r) (v_mrs r) (v_cqs r) (v_srqs r) (v_qps r).

Inductive rm_op :=
  | RmAllocPd | RmDeallocPd (h : Z)
  | RmAllocMr (pd access : Z) | RmDeallocMr (h : Z)
  | RmAllocCq (cqe : Z) | RmDeallocCq (h : Z)
  | RmAllocSrq (pd max_wr max_sge limit : Z) | RmDeallocSrq (h : Z)
  | RmModifySrq (h : Z) (a : ibv_srq_attr) (mask : Z) | RmQuerySrq (h : Z)
  | RmAllocQp (pd qp_type scq rcq : Z) (srq : option Z) | RmDeallocQp (n : Z)
  | RmModifyQp (n : Z) (a : qp_mod) | RmQueryQp (n mask : Z).

Definition is_inr {A B} (r : A + B) : Prop := match r with inr _ => True | inl _ => False end.

(** An allocation that fails changes nothing; one that succeeds adds a number
    that was not live, and needs its parents to be live.  A release takes its
    number out, live or not.  Nothing else changes the sets. *)
Definition rm_spec (op : rm_op) (v : rm_view) (r : Z + Z) (v' : rm_view) : Prop :=
  let made (P : Z -> Prop) (add : Z -> rm_view) := match r with inl _ => v' = v | inr h => P h /\ v' = add h end in
  match op with
  | RmAllocPd => made (fun h => h ∉ v_pds v) (fun h => v <| v_pds ::= union {[h]} |>)
  | RmDeallocPd h => v' = v <| v_pds := v_pds v ∖ {[h]} |>
  | RmAllocMr pd _ => made (fun h => (h ∉ v_mrs v) /\ pd ∈ v_pds v) (fun h => v <| v_mrs ::= union {[h]} |>)
  | RmDeallocMr h => v' = v <| v_mrs := v_mrs v ∖ {[h]} |>
  | RmAllocCq _ => made (fun h => h ∉ v_cqs v) (fun h => v <| v_cqs ::= union {[h]} |>)
  | RmDeallocCq h => v' = v <| v_cqs := v_cqs v ∖ {[h]} |>
  | RmAllocSrq pd _ _ _ => made (fun h => (h ∉ v_srqs v) /\ pd ∈ v_pds v) (fun h => v <| v_srqs ::= union {[h]} |>)
  | RmDeallocSrq h => v' = v <| v_srqs := v_srqs v ∖ {[h]} |>
  | RmModifySrq h _ _ | RmQuerySrq h => v' = v /\ (is_inr r -> h ∈ v_srqs v)
  | RmAllocQp pd _ scq rcq srq =>
      made (fun n => (n ∉ v_qps v) /\ pd ∈ v_pds v /\ scq ∈ v_cqs v /\ rcq ∈ v_cqs v /\ (forall h, srq = Some h -> h ∈ v_srqs v))
           (fun n => v <| v_qps ::= union {[n]} |>)
  | RmDeallocQp n => v' = v <| v_qps := v_qps v ∖ {[n]} |>
  | RmModifyQp n _ | RmQueryQp n _ => v' = v /\ (is_inr r -> n ∈ v_qps v)
  end.

Section refinement.
Context {P : Type} (ops : RdmaBackendOps P) `{!BackendLaws ops}.
Abbreviation RM := (ST (PVRDMADev P)).
Abbreviation bo := (Some ops).
Implicit Types s : PVRDMADev P.

(** The operations, with a code of 0 as a success. *)
Definition code (ret : Z) : Z + Z := if ret =? 0 then inr 0 else inl ret.
Definition rm_run (op : rm_op) : RM (Z + Z) :=
  match op with
  | RmAllocPd => rdma_rm_alloc_pd bo
  | RmDeallocPd h => rdma_rm_dealloc_pd h ;; mret (inr 0)
  | RmAllocMr pd a => r ← rdma_rm_alloc_mr bo pd a; mret (sum_map id (fun x => x.1.1) (r : Z + Z * Z * Z))
  | RmDeallocMr h => rdma_rm_dealloc_mr bo h ;; mret (inr 0)
  | RmAllocCq cqe => rdma_rm_alloc_cq bo cqe
  | RmDeallocCq h => rdma_rm_dealloc_cq bo h ;; mret (inr 0)
  | RmAllocSrq pd a b c => rdma_rm_alloc_srq bo pd a b c
  | RmDeallocSrq h => rdma_rm_dealloc_srq bo h ;; mret (inr 0)
  | RmModifySrq h a m => r ← rdma_rm_modify_srq bo h a m; mret (code r)
  | RmQuerySrq h => r ← rdma_rm_query_srq bo h inhabitant; mret (code (r : Z * ibv_srq_attr).1)
  | RmAllocQp pd t scq rcq srq => rdma_rm_alloc_qp bo pd t scq rcq srq
  | RmDeallocQp n => rdma_rm_dealloc_qp bo n ;; mret (inr 0)
  | RmModifyQp n a => r ← rdma_rm_modify_qp bo n a; mret (code r)
  | RmQueryQp n m => r ← rdma_rm_query_qp bo n m; mret (code (r : Z * ibv_qp_attr).1)
  end.

Definition view_of s : rm_view :=
  let r := pv_res s in
  RmView (tlive (pd_tbl r)) (tlive (mr_tbl r)) (tlive (cq_tbl r)) (tlive (srq_tbl r)) (dom (qp_hash r)).

(** ** The invariant *)

(** The slot of handle [h] is the queue pair numbered [n]. *)
Definition qp_slot (t : RdmaRmResTbl RdmaRmQP) (n h : Z) : Prop :=
  exists qp, t_tbl t !! Z.to_nat h = Some qp /\ rq_qpn qp = h /\ bqp_ops (rq_backend_qp qp) = true /\
             be_names ops (rq_backend_qp qp) n.

Record rm_inv s : Prop := {
  i_be : be_inv ops (pv_private s);
  i_pd : tbl_ok (pd_tbl (pv_res s));
  i_mr : tbl_ok (mr_tbl (pv_res s));
  i_qp : tbl_ok (qp_tbl (pv_res s));
  i_cq : tbl_ok (cq_tbl (pv_res s));
  i_srq : tbl_ok (srq_tbl (pv_res s));
  i_qp_sz : t_sz (qp_tbl (pv_res s)) < 2 ^ 31;
  i_pd_ops h pd : h ∈ tlive (pd_tbl (pv_res s)) -> t_tbl (pd_tbl (pv_res s)) !! Z.to_nat h = Some pd -> bpd_ops pd = true;
  i_live : be_live ops (pv_private s) = dom (qp_hash (pv_res s));
  i_hash n h : qp_hash (pv_res s) !! n = Some h -> h ∈ tlive (qp_tbl (pv_res s)) /\ qp_slot (qp_tbl (pv_res s)) n h;
  i_slot h : h ∈ tlive (qp_tbl (pv_res s)) -> exists n, qp_hash (pv_res s) !! n = Some h;
  i_inj n1 n2 h : qp_hash (pv_res s) !! n1 = Some h -> qp_hash (pv_res s) !! n2 = Some h -> n1 = n2 }.

Lemma op_of_some {F} (f : RdmaBackendOps P -> option F) g : f ops = Some g -> op_of bo true f = Some g.
Proof. done. Qed.
Lemma op_of_inv {F} b (f : RdmaBackendOps P -> option F) g : op_of bo b f = Some g -> b = true /\ f ops = Some g.
Proof. unfold op_of. by destruct b. Qed.

(** A quiet call into the backend. *)
Lemma backend_inv {B} (m : ST P B) s :
  quiet (be_inv ops) (be_live ops) m -> rm_inv s ->
  rm_inv (backend m s).2 /\ pv_res (backend m s).2 = pv_res s /\ (backend m s).1 = (m (pv_private s)).1.
Proof.
  intros Hm []. unfold backend. destruct (Hm (pv_private s) i_be0) as [H1 H2].
  destruct (m (pv_private s)) as [b p]. cbn in *. split_and!; [|done..]. constructor; cbn; try done. congruence.
Qed.

(** Replacing one of the tables whose slots nothing else refers to. *)
Lemma set_mr_inv s t : rm_inv s -> tbl_ok t -> rm_inv (s <| pv_res ::= upd mr_tbl (fun _ => t) |>).
Proof. intros [] Ht. by constructor. Qed.
Lemma set_cq_inv s t : rm_inv s -> tbl_ok t -> rm_inv (s <| pv_res ::= upd cq_tbl (fun _ => t) |>).
Proof. intros [] Ht. by constructor. Qed.
Lemma set_srq_inv s t : rm_inv s -> tbl_ok t -> rm_inv (s <| pv_res ::= upd srq_tbl (fun _ => t) |>).
Proof. intros [] Ht. by constructor. Qed.
Lemma set_pd_inv s t :
  rm_inv s -> tbl_ok t -> (forall h pd, h ∈ tlive t -> t_tbl t !! Z.to_nat h = Some pd -> bpd_ops pd = true) ->
  rm_inv (s <| pv_res ::= upd pd_tbl (fun _ => t) |>).
Proof. intros [] Ht Hp. by constructor. Qed.

(** The numbers in use fit the queue pair table. *)
Lemma hash_size s : rm_inv s -> Z.of_nat (size (dom (qp_hash (pv_res s)))) < 2 ^ 31.
Proof.
  intros Hi. set (m := qp_hash (pv_res s)).
  assert (length (map_to_list m).*2 <= length (elements (tlive (qp_tbl (pv_res s)))))%nat as Hle.
  { apply submseteq_length, NoDup_submseteq.
    - apply NoDup_fmap_2_strong; [|apply NoDup_map_to_list]. intros [n1 h1] [n2 h2] H1%elem_of_map_to_list H2%elem_of_map_to_list.
      cbn. intros ->. f_equal. by eapply i_inj.
    - intros h Hh. apply list_elem_of_fmap in Hh as ([n h'] & -> & Hm%elem_of_map_to_list).
      apply elem_of_elements. by eapply i_hash. }
  rewrite length_fmap in Hle. pose proof (tlive_size _ (i_qp s Hi)). pose proof (i_qp_sz s Hi).
  change (length (elements _)) with (size (tlive (qp_tbl (pv_res s)))) in Hle.
  rewrite length_map_to_list in Hle. rewrite size_dom. fold m. lia.
Qed.

(** ** The operations, one by one *)
Definition step_ok (op : rm_op) s : Prop :=
  let '(r, s') := rm_run op s in rm_inv s' /\ rm_spec op (view_of s) r (view_of s').

(** Rebuilding the invariant after a change of parts of the state. *)
Ltac rebuild := constructor; cbn [in_tbl set_hash modify fst snd pv_res pv_private pd_tbl mr_tbl qp_tbl cq_tbl srq_tbl qp_hash upd]; try done; try congruence.

Lemma view_same s s' : pv_res s' = pv_res s -> view_of s' = view_of s.
Proof. unfold view_of. by intros ->. Qed.

Lemma alloc_pd_ok s : rm_inv s -> step_ok RmAllocPd s.
Proof.
  intros Hi. unfold step_ok, rm_run, rdma_rm_alloc_pd. rewrite run_bind. unfold on_tbl.
  destruct (rdma_res_tbl_alloc _) as [[h|] t] eqn:Ha.
  2:{ apply alloc_none in Ha as [-> _]; [|apply Hi]. destruct Hi. rewrite ?run_bind. cbn. split; [by rebuild|done]. }
  cbn [fst snd].
  destruct (be_create_pd) as (f & Hf & Hq). rewrite (op_of_some _ _ Hf), run_bind. unfold backend.
  destruct (Hq true inhabitant (pv_private s)) as [H1 H2]; [apply Hi|]. cbn [pv_private upd].
  destruct (f true inhabitant (pv_private s)) as [[rc pd] p]. cbn [fst snd] in *.
  destruct (negb (rc =? 0)).
  - pose proof (alloc_undo_spec _ _ _ t (i_pd s Hi) Ha (or_introl eq_refl)) as (K1 & K2 & K3 & K4).
    destruct Hi. rewrite ?run_bind. cbn. split; [|cbn; unfold view_of; cbn; by rewrite K2].
    rebuild. intros k x Hk Hx. rewrite K2 in Hk. rewrite K4 in Hx by done. by eapply i_pd_ops0.
  - pose proof (alloc_put_spec _ _ _ (BackendPD (bpd_dev pd) true) (i_pd s Hi) Ha) as (K1 & K2 & K3 & K4 & K5 & K6 & K7).
    destruct Hi. rewrite ?run_bind. cbn. split; [|cbn; unfold view_of; cbn; by rewrite K4].
    rebuild. intros k x Hk Hx. rewrite K4 in Hk. apply elem_of_union in Hk as [->%elem_of_singleton|Hk].
    + by rewrite K6 in Hx; simplify_eq.
    + rewrite K7 in Hx by done. by eapply i_pd_ops0.
Qed.

Lemma dealloc_pd_ok h s : rm_inv s -> step_ok (RmDeallocPd h) s.
Proof.
  intros Hi. unfold step_ok, rm_run, rdma_rm_dealloc_pd, rdma_rm_get_pd. run.
  destruct (rdma_res_tbl_get h _) as [pd|] eqn:Hg.
  - apply get_live in Hg; [|apply Hi].
    pose proof (release_spec _ h _ (i_pd s Hi) Hg (or_introl eq_refl)) as (K1 & K2 & K3 & K4).
    destruct Hi. rewrite ?run_bind. cbn. split; [|cbn; unfold view_of; cbn; by rewrite K2].
    rebuild. intros k x Hk Hx. rewrite K4 in Hx by done. rewrite K2 in Hk. eapply i_pd_ops0; [|done]. set_solver.
  - split; [done|]. cbn. unfold view_of. cbn. f_equal. assert (h ∉ tlive (pd_tbl (pv_res s))); [|set_solver].
    intros Hh. apply get_is_Some in Hh; [|apply Hi]. rewrite Hg in Hh. by destruct Hh.
Qed.

(** Releasing a handle that is not live takes nothing out. *)
Lemma get_none {A} (t : RdmaRmResTbl A) h : tbl_ok t -> rdma_res_tbl_get h t = None -> tlive t ∖ {[h]} = tlive t.
Proof.
  intros Ht Hg. assert (h ∉ tlive t); [|set_solver]. intros Hh. apply get_is_Some in Hh; [|done].
  rewrite Hg in Hh. by destruct Hh.
Qed.

Lemma alloc_mr_ok pd a s : rm_inv s -> step_ok (RmAllocMr pd a) s.
Proof.
  intros Hi. unfold step_ok, rm_run, rdma_rm_alloc_mr, rdma_rm_get_pd. rewrite run_bind. run.
  destruct (rdma_res_tbl_get pd _) as [x|] eqn:Hg; [|by split].
  apply get_live in Hg as Hpd; [|apply Hi]. rewrite run_bind. unfold on_tbl.
  destruct (rdma_res_tbl_alloc _) as [[h|] t] eqn:Ha.
  2:{ apply alloc_none in Ha as [-> _]; [|apply Hi]. destruct Hi. rewrite ?run_bind. cbn. split; [by rebuild|done]. }
  cbn [fst snd]. destruct (op_of _ (bpd_ops x) op_create_mr) as [f|] eqn:Hf.
  - apply op_of_inv in Hf as [_ Hf]. rewrite run_bind. unfold backend.
    destruct (be_create_mr f inhabitant x a Hf (pv_private s)) as [H1 H2]; [apply Hi|]. cbn [pv_private upd].
    destruct (f inhabitant x a (pv_private s)) as [[rc mr] p]. cbn [fst snd] in *.
    destruct (negb (rc =? 0)).
    + pose proof (alloc_undo_spec _ _ _ t (i_mr s Hi) Ha (or_introl eq_refl)) as (K1 & K2 & _).
      destruct Hi. rewrite ?run_bind. cbn. split; [by rebuild|cbn; unfold view_of; cbn; by rewrite K2].
    + pose proof (alloc_put_spec _ _ _ (BackendMR (bmr_handle mr) true) (i_mr s Hi) Ha) as (K1 & K2 & _ & K4 & _).
      destruct Hi. rewrite ?run_bind. cbn. split; [by rebuild|cbn; unfold view_of; cbn; by rewrite K4].
  - pose proof (alloc_put_spec _ _ _ (BackendMR 0 false) (i_mr s Hi) Ha) as (K1 & K2 & _ & K4 & _).
    destruct Hi. rewrite ?run_bind. cbn. split; [by rebuild|cbn; unfold view_of; cbn; by rewrite K4].
Qed.

Lemma dealloc_mr_ok h s : rm_inv s -> step_ok (RmDeallocMr h) s.
Proof.
  intros Hi. unfold step_ok, rm_run, rdma_rm_dealloc_mr, rdma_rm_get_mr. run.
  destruct (rdma_res_tbl_get h _) as [mr|] eqn:Hg.
  2:{ split; [done|]. cbn. unfold view_of. cbn. by rewrite get_none by (done || apply Hi). }
  apply get_live in Hg; [|apply Hi]. rewrite !run_bind. destruct (op_of _ (bmr_ops mr) op_destroy_mr) as [f|] eqn:Hf.
  - apply op_of_inv in Hf as [_ Hf]. unfold backend. rewrite run_bind.
    destruct (be_destroy_mr f mr Hf (pv_private s)) as [H1 H2]; [apply Hi|].
    destruct (f mr (pv_private s)) as [mr' p]. cbn [fst snd] in *.
    pose proof (release_spec _ h _ (i_mr s Hi) Hg (or_intror (ex_intro _ mr' eq_refl))) as (K1 & K2 & _).
    destruct Hi. rewrite ?run_bind. cbn. split; [by rebuild|cbn; unfold view_of; cbn; by rewrite K2].
  - pose proof (release_spec _ h _ (i_mr s Hi) Hg (or_introl eq_refl)) as (K1 & K2 & _).
    destruct Hi. rewrite ?run_bind. cbn. split; [by rebuild|cbn; unfold view_of; cbn; by rewrite K2].
Qed.

Lemma dealloc_cq_run h s :
  rm_inv s -> rm_inv (rdma_rm_dealloc_cq bo h s).2 /\
  view_of (rdma_rm_dealloc_cq bo h s).2 = (view_of s) <| v_cqs := v_cqs (view_of s) ∖ {[h]} |>.
Proof.
  intros Hi. unfold rdma_rm_dealloc_cq, rdma_rm_get_cq. run.
  destruct (rdma_res_tbl_get h _) as [cq|] eqn:Hg.
  2:{ split; [done|]. unfold view_of. cbn. by rewrite get_none by (done || apply Hi). }
  apply get_live in Hg; [|apply Hi]. rewrite !run_bind. destruct (op_of _ (bcq_ops cq) op_destroy_cq) as [f|] eqn:Hf.
  - apply op_of_inv in Hf as [_ Hf]. unfold backend. rewrite run_bind.
    destruct (be_destroy_cq f cq Hf (pv_private s)) as [H1 H2]; [apply Hi|].
    destruct (f cq (pv_private s)) as [cq' p]. cbn [fst snd] in *.
    pose proof (release_spec _ h _ (i_cq s Hi) Hg (or_intror (ex_intro _ cq' eq_refl))) as (K1 & K2 & _).
    destruct Hi. rewrite ?run_bind. cbn. split; [by rebuild|cbn; unfold view_of; cbn; by rewrite K2].
  - pose proof (release_spec _ h _ (i_cq s Hi) Hg (or_introl eq_refl)) as (K1 & K2 & _).
    destruct Hi. rewrite ?run_bind. cbn. split; [by rebuild|cbn; unfold view_of; cbn; by rewrite K2].
Qed.

Lemma dealloc_cq_ok h s : rm_inv s -> step_ok (RmDeallocCq h) s.
Proof. intros Hi. unfold step_ok, rm_run. run. by apply dealloc_cq_run. Qed.

Lemma alloc_cq_ok n s : rm_inv s -> step_ok (RmAllocCq n) s.
Proof.
  intros Hi. unfold step_ok, rm_run, rdma_rm_alloc_cq. rewrite run_bind. unfold on_tbl.
  destruct (rdma_res_tbl_alloc _) as [[h|] t] eqn:Ha.
  2:{ apply alloc_none in Ha as [-> _]; [|apply Hi]. destruct Hi. rewrite ?run_bind. cbn. split; [by rebuild|done]. }
  cbn [fst snd]. destruct (op_of _ true op_create_cq) as [f|] eqn:Hf.
  - apply op_of_inv in Hf as [_ Hf]. rewrite run_bind. unfold backend.
    destruct (be_create_cq f true inhabitant n Hf (pv_private s)) as [H1 H2]; [apply Hi|]. cbn [pv_private upd].
    destruct (f true inhabitant n (pv_private s)) as [[rc cq] p]. cbn [fst snd] in *.
    destruct (negb (rc =? 0)).
    + pose proof (alloc_put_spec _ _ _ cq (i_cq s Hi) Ha) as (K1 & K2 & _ & K4 & _).
      rewrite run_bind. set (s1 := (in_tbl _ _ _).2). assert (rm_inv s1) as Hi1 by (subst s1; destruct Hi; by rebuild).
      destruct (dealloc_cq_run h s1 Hi1) as [Hi2 Hv]. rewrite run_bind. cbn [fst snd]. split; [done|].
      change (view_of (rdma_rm_dealloc_cq bo h s1).2 = view_of s). rewrite Hv. unfold view_of, s1. cbn. rewrite K4.
      f_equal. set_solver.
    + pose proof (alloc_put_spec _ _ _ (BackendCQ (bcq_dev cq) (bcq_handle cq) true) (i_cq s Hi) Ha) as (K1 & K2 & _ & K4 & _).
      destruct Hi. rewrite ?run_bind. cbn. split; [by rebuild|cbn; unfold view_of; cbn; by rewrite K4].
  - pose proof (alloc_put_spec _ _ _ (BackendCQ false 0 false) (i_cq s Hi) Ha) as (K1 & K2 & _ & K4 & _).
    destruct Hi. rewrite ?run_bind. cbn. split; [by rebuild|cbn; unfold view_of; cbn; by rewrite K4].
Qed.

(** ** Calls that only reach the backend *)
Definition rm_quiet {B} (m : RM B) : Prop := forall s, rm_inv s -> rm_inv (m s).2 /\ pv_res (m s).2 = pv_res s.

Lemma rm_quiet_ret {B} (b : B) : rm_quiet (mret b).
Proof. by intros s. Qed.
Lemma rm_quiet_bind {B C} (m : RM B) (k : B -> RM C) : rm_quiet m -> (forall b, rm_quiet (k b)) -> rm_quiet (m ≫= k).
Proof.
  intros Hm Hk s Hi. rewrite run_bind. destruct (Hm s Hi) as [H1 H2]. destruct (Hk (m s).1 _ H1) as [H3 H4].
  split; [done|congruence].
Qed.
Lemma rm_quiet_backend {B} (m : ST P B) : quiet (be_inv ops) (be_live ops) m -> rm_quiet (backend m).
Proof. intros Hm s Hi. destruct (backend_inv m s Hm Hi) as (H1 & H2 & _). done. Qed.
Lemma rm_quiet_if {B} (b : bool) (m n : RM B) : rm_quiet m -> rm_quiet n -> rm_quiet (if b then m else n).
Proof. by destruct b. Qed.

Ltac rm_quiet_auto :=
  repeat first
    [ apply rm_quiet_ret
    | apply rm_quiet_bind; [|intros ?]
    | apply rm_quiet_if
    | match goal with
      | |- rm_quiet (match op_of _ _ _ with _ => _ end) =>
          let H := fresh in destruct (op_of _ _ _) eqn:H; [apply op_of_inv in H as [_ H]|]
      | |- rm_quiet (backend _) => apply rm_quiet_backend;
          (eapply be_create_srq || eapply be_destroy_srq || eapply be_query_srq || eapply be_modify_srq ||
           eapply be_state_init || eapply be_state_rtr || eapply be_state_rts || eapply be_query_qp || eapply be_gid_index);
          eassumption
      end ].

Lemma create_srq_quiet q pd a b c : rm_quiet (rdma_backend_create_srq bo q pd a b c).
Proof. unfold rdma_backend_create_srq. rm_quiet_auto. Qed.
Lemma query_srq_quiet q a : rm_quiet (rdma_backend_query_srq bo q a).
Proof. unfold rdma_backend_query_srq. rm_quiet_auto. Qed.
Lemma modify_srq_quiet q a m : rm_quiet (rdma_backend_modify_srq bo q a m).
Proof. unfold rdma_backend_modify_srq. rm_quiet_auto. Qed.
Lemma destroy_srq_quiet q : rm_quiet (rdma_backend_destroy_srq bo q).
Proof. unfold rdma_backend_destroy_srq. rm_quiet_auto. Qed.
Lemma modify_qp_quiet qp a : rm_quiet (modify_qp_backend bo qp a).
Proof. unfold modify_qp_backend, modify_qp_rtr. rm_quiet_auto. Qed.

(** ** Shared receive queues *)
Lemma alloc_srq_ok pd a b c s : rm_inv s -> step_ok (RmAllocSrq pd a b c) s.
Proof.
  intros Hi. unfold step_ok, rm_run, rdma_rm_alloc_srq, rdma_rm_get_pd. run.
  destruct (rdma_res_tbl_get pd _) as [x|] eqn:Hg; [|by split].
  apply get_live in Hg as Hpd; [|apply Hi]. rewrite run_bind. unfold on_tbl.
  destruct (rdma_res_tbl_alloc _) as [[h|] t] eqn:Ha.
  2:{ apply alloc_none in Ha as [-> _]; [|apply Hi]. destruct Hi. split; [by rebuild|done]. }
  cbn [fst snd]. rewrite run_bind. set (s1 := _ <| pv_res ::= _ |>). set (m := rdma_backend_create_srq _ _ _ _ _ _).
  assert (rm_inv s1) as Hi1.
  { subst s1. apply set_srq_inv; [done|]. by apply alloc_some in Ha as (_ & _ & _ & ? & _); [|apply Hi]. }
  destruct (create_srq_quiet inhabitant x a b c s1 Hi1) as [Hi2 Hr]. fold m in Hi2, Hr.
  destruct (m s1) as [[rc q] s2]. cbn [fst snd] in *.
  pose proof (alloc_put_spec _ _ _ q (i_srq s Hi) Ha) as (K1 & K2 & _ & K4 & _).
  pose proof (alloc_undo_spec _ _ _ (tbl_put h q t) (i_srq s Hi) Ha (or_intror (ex_intro _ q eq_refl))) as (U1 & U2 & _).
  rewrite run_bind. destruct (negb (rc =? 0)); rewrite ?run_bind; cbn; destruct Hi2; rewrite Hr in *.
  - split; [by rebuild|]. unfold view_of. cbn. by rewrite U2.
  - split; [by rebuild|]. unfold view_of. cbn. by rewrite K4.
Qed.

Lemma dealloc_srq_ok h s : rm_inv s -> step_ok (RmDeallocSrq h) s.
Proof.
  intros Hi. unfold step_ok, rm_run, rdma_rm_dealloc_srq, rdma_rm_get_srq. run.
  destruct (rdma_res_tbl_get h _) as [q|] eqn:Hg.
  2:{ split; [done|]. cbn. unfold view_of. cbn. by rewrite get_none by (done || apply Hi). }
  apply get_live in Hg; [|apply Hi]. rewrite !run_bind.
  destruct (destroy_srq_quiet q s Hi) as [Hi2 Hr]. destruct (rdma_backend_destroy_srq _ q s) as [q' s2]. cbn [fst snd] in *.
  pose proof (release_spec _ h _ (i_srq s Hi) Hg (or_intror (ex_intro _ q' eq_refl))) as (K1 & K2 & _).
  destruct Hi2. cbn. rewrite Hr in *. split; [by rebuild|]. unfold view_of. cbn. by rewrite K2.
Qed.

Lemma modify_srq_ok h a m s : rm_inv s -> step_ok (RmModifySrq h a m) s.
Proof.
  intros Hi. unfold step_ok, rm_run, rdma_rm_modify_srq, rdma_rm_get_srq. run.
  destruct (rdma_res_tbl_get h _) as [q|] eqn:Hg; [|by split].
  apply get_live in Hg; [|apply Hi]. destruct (_ && _); [by split|]. destruct (_ && _); [by split|]. rewrite run_bind.
  destruct (modify_srq_quiet q a m s Hi) as [Hi2 Hr]. destruct (rdma_backend_modify_srq _ q a m s) as [[rc q'] s2].
  cbn [fst snd] in *. destruct (put_spec (srq_tbl (pv_res s)) h q') as (K1 & K2 & _).
  rewrite ?run_bind. destruct Hi2. cbn. rewrite Hr in *. split; [rebuild; by apply K1|].
  unfold view_of. cbn. by rewrite K2.
Qed.

Lemma query_srq_ok h s : rm_inv s -> step_ok (RmQuerySrq h) s.
Proof.
  intros Hi. unfold step_ok, rm_run, rdma_rm_query_srq, rdma_rm_get_srq. run.
  destruct (rdma_res_tbl_get h _) as [q|] eqn:Hg; [|by split].
  apply get_live in Hg; [|apply Hi]. destruct (query_srq_quiet q inhabitant s Hi) as [Hi2 Hr].
  split; [done|]. split; [|done]. by apply view_same.
Qed.

(** ** Queue pairs *)

(** A change of the table that keeps the live slots keeps the slots the hash
    points at. *)
Lemma qp_slot_kept (t t' : RdmaRmResTbl RdmaRmQP) n h :
  t_tbl t' !! Z.to_nat h = t_tbl t !! Z.to_nat h -> qp_slot t n h -> qp_slot t' n h.
Proof. unfold qp_slot. by intros ->. Qed.

(** The state after a queue pair has been made, and after it has gone. *)
Lemma made_qp_inv s n h qp t p' :
  rm_inv s -> rdma_res_tbl_alloc (qp_tbl (pv_res s)) = (Some h, t) ->
  be_inv ops p' -> (n ∉ dom (qp_hash (pv_res s))) -> be_live ops p' = {[n]} ∪ be_live ops (pv_private s) ->
  rq_qpn qp = h -> bqp_ops (rq_backend_qp qp) = true -> be_names ops (rq_backend_qp qp) n ->
  rm_inv (PvDev ((pv_res s) <| qp_tbl := tbl_put h qp t |> <| qp_hash ::= insert n h |>) p').
Proof.
  intros Hi Ha Hp Hn Hl Hq Ho Hm.
  pose proof (alloc_put_spec _ _ _ qp (i_qp s Hi) Ha) as (K1 & K2 & K3 & K4 & K5 & K6 & K7).
  assert (forall k, qp_hash (pv_res s) !! k = Some h -> False) as Hfresh.
  { intros k Hk. apply i_hash in Hk as [Hk _]; done. }
  destruct Hi. rebuild.
  - rewrite Hl, i_live0. by rewrite dom_insert_L.
  - intros k h'. rewrite lookup_insert_Some, K4. intros [[<- <-]|[Hne Hk]].
    + split; [set_solver|]. by exists qp.
    + destruct (i_hash0 k h' Hk) as [H1 H2]. split; [set_solver|]. eapply qp_slot_kept; [|done]. by apply K7.
  - intros h'. rewrite K4. intros [->%elem_of_singleton|Hh]%elem_of_union.
    + exists n. by rewrite lookup_insert_eq.
    + destruct (i_slot0 h' Hh) as [k Hk]. exists k. rewrite lookup_insert_ne; [done|]. intros ->.
      apply Hn. by apply elem_of_dom_2 in Hk.
  - intros n1 n2 h'. rewrite !lookup_insert_Some. naive_solver.
Qed.

Lemma gone_qp_inv s n h qp p' :
  rm_inv s -> qp_hash (pv_res s) !! n = Some h -> be_inv ops p' ->
  be_live ops p' = be_live ops (pv_private s) ∖ {[n]} ->
  rm_inv (PvDev ((pv_res s) <| qp_hash ::= delete n |>
                   <| qp_tbl := rdma_res_tbl_dealloc h (tbl_put h qp (qp_tbl (pv_res s))) |>) p').
Proof.
  intros Hi Hh Hp Hl. destruct (i_hash s Hi n h Hh) as [Hlive Hslot].
  pose proof (release_spec _ h _ (i_qp s Hi) Hlive (or_intror (ex_intro _ qp eq_refl))) as (K1 & K2 & K3 & K4).
  destruct Hi. rebuild.
  - rewrite Hl, i_live0. by rewrite dom_delete_L.
  - intros k h'. rewrite lookup_delete_Some. intros [Hne Hk]. destruct (i_hash0 k h' Hk) as [H1 H2].
    assert (h' ∈ tlive (rdma_res_tbl_dealloc h (tbl_put h qp (qp_tbl (pv_res s))))) as H3.
    { rewrite K2. apply elem_of_difference. split; [done|]. rewrite not_elem_of_singleton. intros ->. naive_solver. }
    split; [done|]. eapply qp_slot_kept; [|done]. by apply K4.
  - intros h'. rewrite K2. intros [Hh' Hne%not_elem_of_singleton]%elem_of_difference.
    destruct (i_slot0 h' Hh') as [k Hk]. exists k. rewrite lookup_delete_ne; [done|]. naive_solver.
  - intros n1 n2 h'. rewrite !lookup_delete_Some. naive_solver.
Qed.

Lemma undone_qp_inv s h t t' p' :
  rm_inv s -> rdma_res_tbl_alloc (qp_tbl (pv_res s)) = (Some h, t) -> t' = t \/ (exists a, t' = tbl_put h a t) ->
  be_inv ops p' -> be_live ops p' = be_live ops (pv_private s) ->
  rm_inv (PvDev ((pv_res s) <| qp_tbl := rdma_res_tbl_dealloc h t' |>) p').
Proof.
  intros Hi Ha Ht Hp Hl. pose proof (alloc_undo_spec _ _ _ t' (i_qp s Hi) Ha Ht) as (K1 & K2 & K3 & K4).
  destruct Hi. rebuild.
  - intros n h' Hn. rewrite K2. destruct (i_hash0 n h' Hn) as [H1 H2]. split; [done|].
    eapply qp_slot_kept; [|done]. by apply K4.
  - intros h'. rewrite K2. apply i_slot0.
Qed.

Lemma alloc_qp_ok pd t scq rcq srq s : rm_inv s -> step_ok (RmAllocQp pd t scq rcq srq) s.
Proof.
  intros Hi. unfold step_ok, rm_run, rdma_rm_alloc_qp, rdma_rm_get_pd, rdma_rm_get_cq, rdma_rm_get_srq. run.
  destruct (rdma_res_tbl_get pd _) as [x|] eqn:Hg; [|by split]. apply get_live in Hg as Hpd; [|apply Hi].
  assert (bpd_ops x = true) as Hx by (eapply i_pd_ops; [done..|by eapply get_lookup]).
  run. set (osrq := match srq with Some h => _ | None => _ end : RM (option RdmaRmSRQ)).
  assert (osrq s = (srq ≫= fun h => rdma_res_tbl_get h (srq_tbl (pv_res s)), s)) as Hsrq by (by destruct srq).
  rewrite Hsrq. cbn [fst snd]. clear Hsrq osrq.
  destruct (rdma_res_tbl_get scq _) as [xs|] eqn:Hs; [|by split]. apply get_live in Hs as Hscq; [|apply Hi].
  destruct (rdma_res_tbl_get rcq _) as [xr|] eqn:Hr; [|by split]. apply get_live in Hr as Hrcq; [|apply Hi].
  destruct (_ && _) eqn:Hsq; [by split|].
  assert (forall h, srq = Some h -> h ∈ tlive (srq_tbl (pv_res s))) as Hsrq.
  { intros h ->. cbn in Hsq. apply get_is_Some; [apply Hi|]. apply negb_false_iff, bool_decide_eq_true in Hsq. done. }
  clear Hsq. generalize (srq ≫= fun h => rdma_res_tbl_get h (srq_tbl (pv_res s))). intros osrq.
  rewrite run_bind. unfold on_tbl. destruct (rdma_res_tbl_alloc _) as [[h|] tb] eqn:Ha.
  2:{ apply alloc_none in Ha as [-> _]; [|apply Hi]. destruct Hi. split; [by rebuild|done]. }
  cbn [fst snd]. rewrite run_bind. unfold alloc_qp_backend. rewrite Hx.
  destruct be_create_qp as (f & Hf & Hcr). rewrite (op_of_some _ _ Hf), run_bind. unfold backend.
  cbn [pv_private upd rq_backend_qp rq_qp_type]. pose proof (i_live s Hi) as Hlive.
  match goal with |- context [f ?b ?t ?pd ?a ?c ?q (pv_private s)] =>
    specialize (Hcr b t pd a c q (pv_private s) (i_be s Hi) ltac:(rewrite Hlive; by apply hash_size));
    destruct (f b t pd a c q (pv_private s)) as [[rc bq] p] end.
  destruct Hcr as (Hp & Hbad & Hgood). cbn [fst snd] in *. destruct (Z.eqb_spec rc 0) as [->|Hrc]; cbn [negb].
  2:{ rewrite run_ret. cbn [fst snd]. rewrite run_bind. split.
      - apply (undone_qp_inv s h tb tb p); auto.
      - cbn. unfold view_of. cbn. done. }
  destruct (Hgood eq_refl) as (n & Hn & Hfresh & Hl & _). destruct be_qpn as (g & Hgq & Hqpn).
  rewrite (op_of_some _ _ Hgq), !run_bind. unfold backend. cbn [pv_private fst snd].
  rewrite (Hqpn _ n) by (try apply be_names_ops; done || (rewrite Hl; set_solver)). cbn [fst snd]. run.
  rewrite Hlive in Hfresh. rewrite !run_bind. cbn [gets in_tbl modify fst snd pv_res upd qp_hash].
  rewrite bool_decide_eq_false_2 by (rewrite <-elem_of_dom; done). rewrite run_bind. split.
  - apply (made_qp_inv s n h _ tb p); try done. by apply be_names_ops.
  - cbn. unfold view_of. cbn. rewrite dom_insert_L. done.
Qed.

(** What a lookup by number finds. *)
Lemma get_qp_run n s :
  rm_inv s ->
  rdma_rm_get_qp n s =
    (match qp_hash (pv_res s) !! n with
     | Some h => (fun qp => (h, qp)) <$> t_tbl (qp_tbl (pv_res s)) !! Z.to_nat h
     | None => None end, s).
Proof.
  intros Hi. unfold rdma_rm_get_qp, gets. destruct (qp_hash (pv_res s) !! n) as [h|]; cbn; [|done].
  by destruct (t_tbl _ !! _).
Qed.

Lemma dealloc_qp_ok n s : rm_inv s -> step_ok (RmDeallocQp n) s.
Proof.
  intros Hi. unfold step_ok, rm_run, rdma_rm_dealloc_qp. rewrite !run_bind, get_qp_run by done. cbn [fst snd].
  destruct (qp_hash (pv_res s) !! n) as [h|] eqn:Hh.
  - destruct (i_hash s Hi n h Hh) as (Hl & qp & Hqp & Hn & Ho & Hm). rewrite Hqp. cbn [fmap option_fmap option_map].
    rewrite !run_bind. unfold destroy_qp_backend. rewrite Ho. destruct be_destroy_qp as (f & Hf & Hd).
    rewrite (op_of_some _ _ Hf), run_bind. unfold backend. cbn [set_hash modify pv_private upd snd].
    pose proof (i_live s Hi) as Hlive. specialize (Hd (rq_backend_qp qp) n (pv_private s) (i_be s Hi) Hm).
    destruct Hd as [H1 H2]; [rewrite Hlive; by apply elem_of_dom_2 in Hh|].
    destruct (f (rq_backend_qp qp) (pv_private s)) as [b p]. cbn [fst snd] in *. rewrite run_ret. cbn [fst snd].
    cbn [rq_qpn upd]. rewrite Hn. split.
    + exact (gone_qp_inv s n h _ p Hi Hh H1 H2).
    + cbn. unfold view_of. cbn. by rewrite dom_delete_L.
  - cbn. split.
    + destruct Hi. rewrite delete_id in * by done. rebuild; rewrite ?delete_id by done; done.
    + unfold view_of. cbn. f_equal. by rewrite dom_delete_L.
Qed.

Lemma record_qp_kept a qp : rq_qpn (record_qp a qp) = rq_qpn qp /\ rq_backend_qp (record_qp a qp) = rq_backend_qp qp.
Proof. unfold record_qp. destruct (has_bit _ _), (has_bit _ _), (has_bit _ _); done. Qed.

Lemma modify_qp_ok n a s : rm_inv s -> step_ok (RmModifyQp n a) s.
Proof.
  intros Hi. unfold step_ok, rm_run, rdma_rm_modify_qp. rewrite !run_bind, get_qp_run by done. cbn [fst snd].
  destruct (qp_hash (pv_res s) !! n) as [h|] eqn:Hh; [|by split].
  destruct (i_hash s Hi n h Hh) as (Hl & qp & Hqp & Hn & Ho & Hm). rewrite Hqp. cbn [fmap option_fmap option_map].
  destruct (_ =? ERNIC_IB_QPT_SMI); [by split|]. rewrite run_bind.
  set (m := if _ && _ then _ else _ : RM Z). assert (rm_quiet m) as Hq.
  { subst m. destruct (_ && _); [apply modify_qp_quiet|apply rm_quiet_ret]. }
  destruct (Hq s Hi) as [Hi2 Hr]. destruct (m s) as [ret s2]. cbn [fst snd] in *.
  destruct (negb (ret =? 0)) eqn:Hret.
  { cbn. unfold code. apply negb_true_iff in Hret. rewrite Hret. split; [done|]. split; [by apply view_same|done]. }
  rewrite run_bind. cbn. destruct (put_spec (qp_tbl (pv_res s)) h (record_qp a qp)) as (K1 & K2 & K3 & K4).
  destruct (record_qp_kept a qp) as [R1 R2]. destruct Hi2. rewrite Hr in *. split.
  - rebuild.
    + by apply K1.
    + intros k h' Hk. rewrite K2. destruct (i_hash0 k h' Hk) as (H1 & q' & H2 & H3 & H4 & H5). split; [done|].
      destruct (decide (h' = h)) as [->|Hne].
      * exists (record_qp a qp). rewrite K4, list_lookup_insert_eq by (by eapply lookup_lt_Some).
        rewrite Hqp in H2. simplify_eq. rewrite R1, R2. done.
      * exists q'. rewrite K4, list_lookup_insert_ne; [done|].
        pose proof (tlive_bound _ _ i_qp0 H1). pose proof (tlive_bound _ _ i_qp0 Hl). lia.
  - unfold view_of. cbn. split; [done|]. intros _. by apply elem_of_dom_2 in Hh.
Qed.

Lemma query_qp_ok n m s : rm_inv s -> step_ok (RmQueryQp n m) s.
Proof.
  intros Hi. unfold step_ok, rm_run, rdma_rm_query_qp. rewrite !run_bind, get_qp_run by done. cbn [fst snd].
  destruct (qp_hash (pv_res s) !! n) as [h|] eqn:Hh; [|by split].
  destruct (i_hash s Hi n h Hh) as (Hl & qp & Hqp & Hn & Ho & Hm). rewrite Hqp. cbn [fmap option_fmap option_map].
  apply elem_of_dom_2 in Hh. destruct (op_of _ _ op_query_qp) as [f|] eqn:Hf; [|by split].
  apply op_of_inv in Hf as [_ Hf]. rewrite run_bind.
  destruct (rm_quiet_backend _ (be_query_qp f (rq_backend_qp qp) m Hf) s Hi) as [Hi2 Hr].
  split; [done|]. split; [by apply view_same|done].
Qed.

(** Every operation keeps the invariant and does what the contract says. *)
Lemma rm_step_ok op s : rm_inv s -> step_ok op s.
Proof.
  destruct op; auto using alloc_pd_ok, dealloc_pd_ok, alloc_mr_ok, dealloc_mr_ok, alloc_cq_ok, dealloc_cq_ok,
    alloc_srq_ok, dealloc_srq_ok, modify_srq_ok, query_srq_ok, alloc_qp_ok, dealloc_qp_ok, modify_qp_ok, query_qp_ok.
Qed.
End refinement.
