(* ===== verification/RdmaRmProps.v ===== *)
(** * The resource manager: the theorems

    From set-up on, whatever operations are called, the manager refines its
    contract, over any backend that keeps its promise. *)
From S2P Require Export RdmaRmSpec.

(** An enumeration of a hash table, for the examples. *)
#[export] Instance ex_order : HashOrder := {| hash_order m := map_to_list m; hash_order_perm m := Permutation_refl _ |}.

Section reach.
Context {P : Type} (ops : RdmaBackendOps P) `{!BackendLaws ops}.

(** A device just set up: the tables by rdma_rm_init(), the backend by its
    own. *)
Definition rm_fresh (s : PVRDMADev P) : Prop :=
  be_inv ops (pv_private s) /\ be_live ops (pv_private s) = ∅ /\
  exists mem attr r0, rdma_rm_init mem attr r0 = (0, pv_res s) /\ da_max_qp attr < 2 ^ 31 /\
    da_max_pd attr < 2 ^ 31 /\ da_max_cq attr < 2 ^ 31 /\ da_max_mr attr < 2 ^ 31 /\ da_max_srq attr < 2 ^ 31.

Inductive rm_reach : PVRDMADev P -> Prop :=
  | reach_fresh s : rm_fresh s -> rm_reach s
  | reach_step op s : rm_reach s -> rm_reach (rm_run ops op s).2.

(** Each table [rdma_rm_init] sets up is empty, or its code is an error. *)
Lemma init_one {A} `{!Inhabited A} m1 m2 sz res_sz (t t' : RdmaRmResTbl A) ret :
  0 <= sz < 2 ^ 31 -> res_tbl_init m1 m2 (u32 sz) res_sz t = (ret, t') -> (ret <? 0) = false ->
  tbl_ok t' /\ tlive t' = ∅ /\ t_sz t' = sz.
Proof.
  intros Hsz Hi Hr. rewrite wrap_id in Hi by (unfold fits; lia).
  assert (ret = 0) as ->.
  { unfold res_tbl_init in Hi. destruct (_ && _); [injection Hi as <- <-; done|].
    destruct (_ && _); [injection Hi as <- <-; done|]. destruct (bitmap_new _ _); injection Hi as <- <-; done. }
  eapply res_tbl_init_ok; [|done]. lia.
Qed.

Lemma rm_init_ok mem a r0 r :
  rdma_rm_init mem a r0 = (0, r) ->
  da_max_pd a < 2 ^ 31 -> da_max_cq a < 2 ^ 31 -> da_max_mr a < 2 ^ 31 -> da_max_qp a < 2 ^ 31 -> da_max_srq a < 2 ^ 31 ->
  tbl_ok (pd_tbl r) /\ tbl_ok (mr_tbl r) /\ tbl_ok (qp_tbl r) /\ tbl_ok (cq_tbl r) /\ tbl_ok (srq_tbl r) /\
  tlive (pd_tbl r) = ∅ /\ tlive (mr_tbl r) = ∅ /\ tlive (qp_tbl r) = ∅ /\ tlive (cq_tbl r) = ∅ /\
  tlive (srq_tbl r) = ∅ /\ t_sz (qp_tbl r) < 2 ^ 31 /\ qp_hash r = ∅.
Proof.
  unfold rdma_rm_init. intros Hi ? ? ? ? ?. destruct (_ || _) eqn:Hneg; [done|]. bdestr.
  repeat match type of Hi with
  | (let '(_, _) := ?x in _) = _ =>
      let E := fresh "E" in let R := fresh "R" in
      destruct x as [? ?] eqn:E; cbn [fst snd] in Hi;
      match type of Hi with (if ?c then _ else _) = _ => destruct c eqn:R; [injection Hi as Hc _; subst; done|] end;
      apply init_one in E; [|lia|done]
  end.
  injection Hi as <-. cbn. destruct_and!. split_and!; done || lia.
Qed.

Lemma rm_fresh_inv s : rm_fresh s -> rm_inv ops s.
Proof.
  intros (Hb & Hl & mem & a & r0 & Hi & H1 & H2 & H3 & H4 & H5).
  apply rm_init_ok in Hi as (? & ? & ? & ? & ? & Ep & ? & Eq & ? & ? & ? & Eh); [|done..].
  constructor; try done; rewrite ?Ep, ?Eq, ?Eh, ?Hl, ?dom_empty_L; try done;
    try (intros *; by rewrite lookup_empty); intros * []%not_elem_of_empty.
Qed.

Lemma rm_reach_inv s : rm_reach s -> rm_inv ops s.
Proof.
  induction 1 as [s Hf|op s _ IH]; [by apply rm_fresh_inv|].
  pose proof (rm_step_ok ops op s IH) as Hs. unfold step_ok in Hs. destruct (rm_run ops op s). apply Hs.
Qed.

(** C3: over a backend that has the queue pair operations and keeps
    [BackendLaws], the resource manager refines five sets of live numbers.
    After any operations since set-up, an allocation either fails and changes no set or
    adds a number that was not live, under parents that are; a release takes
    out exactly its number; nothing else changes the sets.  The counts of the
    tables are the sizes of the sets, and the numbers of the queue pairs are
    exactly those the backend has in use, so neither side leaks one. *)
Theorem rm_refines_live_sets op s :
  rm_reach s ->
  let '(r, s') := rm_run ops op s in
  rm_spec op (view_of s) r (view_of s') /\
  t_used (pd_tbl (pv_res s')) = Z.of_nat (size (v_pds (view_of s'))) /\
  t_used (mr_tbl (pv_res s')) = Z.of_nat (size (v_mrs (view_of s'))) /\
  t_used (cq_tbl (pv_res s')) = Z.of_nat (size (v_cqs (view_of s'))) /\
  t_used (srq_tbl (pv_res s')) = Z.of_nat (size (v_srqs (view_of s'))) /\
  be_live ops (pv_private s') = v_qps (view_of s').
Proof.
  intros Hr. pose proof (rm_step_ok ops op s (rm_reach_inv s Hr)) as Hs. unfold step_ok in Hs.
  destruct (rm_run ops op s) as [r s']. destruct Hs as [Hi Hs]. split; [done|].
  split_and!; [apply (i_pd ops s' Hi)|apply (i_mr ops s' Hi)|apply (i_cq ops s' Hi)|apply (i_srq ops s' Hi)|].
  apply (i_live ops s' Hi).
Qed.
End reach.

(** A device on the loopback backend, with a PD and a CQ. *)
Definition ex_attr : ibv_device_attr := (loopback_query_device None).1.2.
Definition ex_rm0 : PVRDMADev (option LoopbackBackendPrivate) :=
  PvDev (rdma_rm_init (fun _ => (true, true)) ex_attr inhabitant).2 (loopback_init None None).2.
Definition ex_rm : PVRDMADev (option LoopbackBackendPrivate) :=
  (rm_run ops_loopback (RmAllocCq 16) (rm_run ops_loopback RmAllocPd ex_rm0).2).2.
Lemma ex_rm_reach : rm_reach ops_loopback ex_rm.
Proof.
  apply reach_step, reach_step, reach_fresh. split_and!; [|done|].
  - eexists. split; [done|]. split; [unfold fits; cbn; unfold LOOPBACK_FIRST_QPN; lia|]. done.
  - exists (fun _ => (true, true)), ex_attr, inhabitant. split_and!; [vm_compute; reflexivity|done..].
Qed.
Lemma rm_refines_live_sets_witness :
  let '(r, s') := rm_run ops_loopback (RmAllocQp 0 IBV_QPT_RC 0 0 None) ex_rm in
  r = inr 100 /\ be_live ops_loopback (pv_private s') = {[100]} /\
  t_used (cq_tbl (pv_res s')) = 1 /\ t_used (qp_tbl (pv_res s')) = 1.
Proof.
  pose proof (rm_refines_live_sets ops_loopback (RmAllocQp 0 IBV_QPT_RC 0 0 None) ex_rm ex_rm_reach) as H.
  destruct (rm_run _ _ ex_rm) as [r s'] eqn:E. destruct H as (_ & _ & _ & Hcq & _ & Hl). rewrite Hl, Hcq. clear Hl Hcq.
  assert (r = inr 100) as -> by (apply (f_equal fst) in E; vm_compute in E; congruence).
  apply (f_equal snd) in E. cbn [snd] in E. rewrite <-E. split_and!; vm_compute; reflexivity.
Defined.

(** C39: the search for a queue pair number ends, whatever the counter, as long
    as a number is free: within as many turns as there are reserved and used
    numbers and one more, it returns the first number from the counter on that
    is neither. *)
Theorem qpn_search_terminates first used n :
  fits 32 n -> 0 <= first <= 100 -> 101 + Z.of_nat (size used) <= 2 ^ 32 ->
  exists r, next_free_qpn (qpn_fuel used) first used n = Some (r, u32 (r + 1)) /\
    first <= r < 2 ^ 32 /\ (r ∉ used) /\
    exists i, 0 <= i /\ r = u32 (n + i) /\ forall j, 0 <= j < i -> u32 (n + j) < first \/ u32 (n + j) ∈ used.
Proof.
  intros Hn Hf Hs. destruct (next_free_qpn_ends used first n Hn Hf Hs) as [[r next] Hr]. exists r.
  pose proof (next_free_qpn_first _ _ _ _ _ _ Hn Hr) as Hi.
  apply next_free_qpn_sound in Hr as Hr'. destruct Hr' as (H1 & H2 & -> & H4). specialize (H4 Hn).
  unfold fits in H4. split_and!; [done|lia..|done|done].
Qed.
Lemma qpn_search_terminates_witness :
  next_free_qpn (qpn_fuel {[100; 102]}) 100 {[100; 102]} UINT32_MAX = Some (UINT32_MAX, 0) /\
  exists r, next_free_qpn (qpn_fuel {[100; 102]}) 100 {[100; 102]} 0 = Some (r, u32 (r + 1)) /\ 100 <= r < 2 ^ 32.
Proof.
  split; [vm_compute; reflexivity|].
  destruct (qpn_search_terminates 100 {[100; 102]} 0) as (r & H1 & H2 & _);
    [unfold fits; lia|lia|vm_compute; discriminate|].
  exists r. split; [exact H1|exact H2].
Defined.

(** What a query of a live queue pair reports, when it succeeds. *)
Section query.
Context {P : Type} (ops : RdmaBackendOps P) `{!BackendLaws ops}.

Lemma query_reports n mask s h qp :
  rm_inv ops s -> qp_hash (pv_res s) !! n = Some h -> t_tbl (qp_tbl (pv_res s)) !! Z.to_nat h = Some qp ->
  let q := (rdma_rm_query_qp (Some ops) n mask s).1 in
  q.1 = 0 -> qa_qp_state q.2 = rq_qp_state qp /\ qa_rq_psn q.2 = rq_rq_psn qp /\ qa_sq_psn q.2 = rq_sq_psn qp.
Proof.
  intros Hi Hh Hq. cbv zeta. unfold rdma_rm_query_qp. rewrite run_bind, (get_qp_run ops) by done. cbn [fst snd].
  rewrite Hh, Hq. cbn [fmap option_fmap option_map]. destruct (op_of _ _ op_query_qp) as [f|]; [|done].
  rewrite run_bind. unfold backend. destruct (f _ mask (pv_private s)) as [[rc a] p]. cbn [fst snd].
  destruct (Z.eqb_spec rc 0); [done|]. done.
Qed.

(** A modification of a queue pair that fails changes nothing the resource
    manager records; after one that succeeds, a query reports the new state
    and PSNs where the mask set them, and elsewhere what a query reported
    before. *)
Theorem modify_then_query n a mask s :
  rm_reach ops s ->
  let query s := (rdma_rm_query_qp (Some ops) n mask s).1 in
  let '(ret, s1) := rdma_rm_modify_qp (Some ops) n a s in
  (ret <> 0 -> pv_res s1 = pv_res s) /\
  (ret = 0 -> (query s).1 = 0 -> (query s1).1 = 0 ->
     let before := (query s).2 in let after := (query s1).2 in let m := qm_attr_mask a in
     qa_qp_state after = (if has_bit m IBV_QP_STATE then qm_qp_state a else qa_qp_state before) /\
     qa_rq_psn after = (if has_bit m IBV_QP_RQ_PSN then qm_rq_psn a mod 2 ^ 24 else qa_rq_psn before) /\
     qa_sq_psn after = (if has_bit m IBV_QP_SQ_PSN then qm_sq_psn a mod 2 ^ 24 else qa_sq_psn before)).
Proof.
  intros Hr. cbv zeta. pose proof (rm_reach_inv ops s Hr) as Hi.
  pose proof (rm_step_ok ops (RmModifyQp n a) s Hi) as Hs. unfold step_ok, rm_run in Hs. rewrite run_bind in Hs.
  destruct (rdma_rm_modify_qp (Some ops) n a s) as [ret s1] eqn:E. cbn [fst snd] in Hs. destruct Hs as [Hi1 _].
  unfold rdma_rm_modify_qp in E. rewrite run_bind, (get_qp_run ops) in E by done. cbn [fst snd] in E.
  destruct (qp_hash (pv_res s) !! n) as [h|] eqn:Hh; [|by injection E as <- <-].
  destruct (i_hash ops s Hi n h Hh) as (Hl & qp & Hqp & Hn & _). rewrite Hqp in E. cbn [fmap option_fmap option_map] in E.
  destruct (_ =? ERNIC_IB_QPT_SMI); [by injection E as <- <-|]. rewrite run_bind in E.
  set (m := if _ && _ then _ else _ : ST (PVRDMADev P) Z) in E.
  assert (rm_quiet ops m) as Hq by (subst m; destruct (_ && _); [apply modify_qp_quiet|apply rm_quiet_ret]; done).
  destruct (Hq s Hi) as [Hi2 Hr2]. destruct (m s) as [rc s2]. cbn [fst snd] in *. destruct (Z.eqb_spec rc 0) as [->|Hne]; cbn [negb] in E.
  2:{ injection E as <- <-. by split. }
  rewrite run_bind in E. injection E as <- <-. split; [done|]. intros _ Hq0 Hq1. clear Hr.
  pose proof (query_reports n mask s h qp Hi Hh Hqp Hq0) as (-> & -> & ->).
  assert (qp_hash (pv_res (in_tbl qp_tbl (tbl_put h (record_qp a qp)) s2).2) !! n = Some h) as Hh1 by (cbn; by rewrite Hr2).
  assert (t_tbl (qp_tbl (pv_res (in_tbl qp_tbl (tbl_put h (record_qp a qp)) s2).2)) !! Z.to_nat h = Some (record_qp a qp)) as Hqp1.
  { cbn. rewrite Hr2. apply list_lookup_insert_eq. by eapply lookup_lt_Some. }
  pose proof (query_reports n mask _ h _ Hi1 Hh1 Hqp1 Hq1) as (-> & -> & ->). clear.
  rewrite <-!(land_mask 24) by lia. unfold record_qp. by destruct (has_bit _ _), (has_bit _ _), (has_bit _ _).
Qed.
End query.

Definition ex_rm_qp : PVRDMADev (option LoopbackBackendPrivate) :=
  (rm_run ops_loopback (RmAllocQp 0 IBV_QPT_RC 0 0 None) ex_rm).2.
Definition ex_mod : qp_mod := QpMod (Z.lor IBV_QP_STATE IBV_QP_RQ_PSN) 0 (zeros 16) 0 IBV_QPS_INIT 0 (2 ^ 24 + 7) 5.
Lemma modify_then_query_witness :
  let '(ret, s1) := rdma_rm_modify_qp (Some ops_loopback) 100 ex_mod ex_rm_qp in
  let q := (rdma_rm_query_qp (Some ops_loopback) 100 0 s1).1.2 in
  ret = 0 /\ qa_qp_state q = IBV_QPS_INIT /\ qa_rq_psn q = 7 /\ qa_sq_psn q = 0.
Proof.
  pose proof (modify_then_query ops_loopback 100 ex_mod 0 ex_rm_qp (reach_step _ _ _ ex_rm_reach)) as H. cbv zeta in H.
  assert ((rdma_rm_modify_qp (Some ops_loopback) 100 ex_mod ex_rm_qp).1 = 0) as Hret by (vm_compute; reflexivity).
  assert ((rdma_rm_query_qp (Some ops_loopback) 100 0 (rdma_rm_modify_qp (Some ops_loopback) 100 ex_mod ex_rm_qp).2).1.1 = 0)
    as Hq by (vm_compute; reflexivity).
  destruct (rdma_rm_modify_qp _ _ _ _) as [ret s1]. cbn [fst snd] in Hret, Hq. destruct H as [_ H].
  specialize (H Hret ltac:(vm_compute; reflexivity) Hq). destruct H as (H1 & H2 & H3).
  split; [exact Hret|]. rewrite H1, H2, H3. split_and!; vm_compute; reflexivity.
Defined.

(** ** Pairing queue pairs on the loopback backend *)
Section pairing.
Context `{!HashOrder}.
Implicit Types (l : LoopbackQP) (e : Z * LoopbackQP).

(** [e] may be paired with [l]: another queue pair of its type, ready to send
    and not connected. *)
Definition pairable l e : Prop :=
  e.1 <> lq_qpn l /\ lq_qp_type e.2 = lq_qp_type l /\ lq_state e.2 = IBV_QPS_RTS /\ lq_remote_qpn e.2 = 0.
Definition distance l e : Z := Z.abs (e.1 - lq_qpn l).

(** The best of a list: none when nothing in it can be paired, otherwise one
    at the least distance. *)
Definition best_of l (es : list (Z * LoopbackQP)) (best : option (Z * Z)) : Prop :=
  match best with
  | None => forall e, e ∈ es -> ~ pairable l e
  | Some (m, d) => exists o, (m, o) ∈ es /\ pairable l (m, o) /\ d = distance l (m, o) /\
                     forall e, e ∈ es -> pairable l e -> d <= distance l e
  end.

Lemma pair_step_best l es e best :
  distance l e < UINT32_MAX -> best_of l es best -> best_of l (es ++ [e]) (pair_step l best e).
Proof.
  intros Hd Hb. destruct e as [n o]. unfold pair_step.
  assert (~ pairable l (n, o) -> best_of l (es ++ [(n, o)]) best) as Hskip.
  { intros Hp. destruct best as [[m d]|]; cbn in *.
    - destruct Hb as (o' & H1 & H2 & H3 & H4). exists o'. rewrite elem_of_app. split_and!; [by left|done..|].
      intros e [He | ->%list_elem_of_singleton]%elem_of_app Hpe; [by apply H4|done].
    - intros e [He | ->%list_elem_of_singleton]%elem_of_app; [by apply Hb|done]. }
  destruct (Z.eqb_spec n (lq_qpn l)) as [-> | Hne]; [apply Hskip; intros [Hx _]; by apply Hx|].
  destruct (_ && _) eqn:Hc.
  2:{ apply Hskip. intros (_ & H1 & H2 & H3). cbn in *. rewrite H1, H2, H3, !Z.eqb_refl in Hc. done. }
  bdestr. assert (pairable l (n, o)) as Hp by done.
  assert ((if lq_qpn l <? n then n - lq_qpn l else lq_qpn l - n) = distance l (n, o)) as ->.
  { unfold distance. cbn. destruct (_ <? _) eqn:Hlt; bdestr; lia. }
  destruct best as [[m d]|].
  - change (default UINT32_MAX _) with d. destruct Hb as (o' & H1' & H2' & H3' & H4'). destruct (_ <? d) eqn:Hlt; bdestr.
    + exists o. rewrite elem_of_app, list_elem_of_singleton. split_and!; [by right|done..|].
      intros e [He | ->%list_elem_of_singleton]%elem_of_app Hpe; [|lia]. specialize (H4' e He Hpe). lia.
    + exists o'. rewrite elem_of_app. split_and!; [by left|done..|].
      intros e [He | ->%list_elem_of_singleton]%elem_of_app Hpe; [by apply H4'|lia].
  - change (default UINT32_MAX _) with UINT32_MAX. destruct (_ <? _) eqn:Hlt; bdestr; [|lia].
    exists o. rewrite elem_of_app, list_elem_of_singleton. split_and!; [by right|done..|].
    intros e [He | ->%list_elem_of_singleton]%elem_of_app Hpe; [|lia]. by destruct (Hb e He).
Qed.

Lemma pair_search_best l es :
  (forall e, e ∈ es -> distance l e < UINT32_MAX) -> best_of l es (foldl (pair_step l) None es).
Proof.
  induction es as [|e es IH] using rev_ind; intros Hd.
  - intros e He. by apply elem_of_nil in He.
  - rewrite foldl_app. apply pair_step_best; [apply Hd; set_solver|]. apply IH. set_solver.
Qed.

(** The queue pair entering RTS, connected to nothing. *)
Definition unpaired l : LoopbackQP := l <| lq_state := IBV_QPS_RTS |> <| lq_remote_qpn := 0 |>.

Lemma alter_lqp (f : LoopbackQP -> LoopbackQP) k l (m : gmap Z LoopbackQP) :
  m !! k = Some l -> alter f k m = <[k := f l]> m.
Proof.
  intros Hk. apply map_eq. intros i. destruct (decide (i = k)) as [->|].
  - by rewrite lookup_alter_eq, Hk, lookup_insert_eq.
  - by rewrite lookup_alter_ne, lookup_insert_ne.
Qed.

Lemma rts_search p qp k l ty psn qkey qs :
  loop_inv (Some p) -> bqp_dev qp = true -> bqp_priv qp = Some k -> lb_qps p !! k = Some l ->
  lq_qp_type l = IBV_QPT_RC \/ lq_qp_type l = IBV_QPT_UC -> ty <> IBV_QPT_DRIVER ->
  lq_remote_qpn l = 0 \/ lq_remote_qpn l = k ->
  let qps2 := <[k := unpaired l]> (lb_qps p) in
  loopback_qp_state_rts qp ty psn qkey qs (Some p) =
    (0, Some (p <| lb_qps := match foldl (pair_step l) None (hash_order qps2) with
                             | Some (m, _) => alter (fun o => o <| lq_remote_qpn := k |>) m
                                                (<[k := (unpaired l) <| lq_remote_qpn := m |>]> (lb_qps p))
                             | None => qps2
                             end |>)).
Proof.
  intros (p' & [= <-] & _ & Hq) Hd Hp Hk Hty Hdr Hrem qps2. destruct (Hq k l Hk) as [Hn Hb].
  destruct l as [n0 t0 st0 r0]. cbn in Hn, Hty, Hrem. subst n0. unfold LOOPBACK_FIRST_QPN in Hb.
  unfold loopback_qp_state_rts, loopback_qp. rewrite run_bind. cbn. rewrite Hp. cbn. rewrite Hk. cbn.
  rewrite run_bind. cbn. rewrite (proj2 (Z.eqb_neq _ _) Hdr), !run_bind. cbn. rewrite Hd. cbn.
  unfold loopback_auto_pair_qp. cbn.
  replace (negb (t0 =? IBV_QPT_RC) && negb (t0 =? IBV_QPT_UC)) with false
    by (symmetry; by destruct Hty as [-> | ->]).
  rewrite !run_bind. match goal with |- context [(if _ then upd_lqp _ _ else _) ?st] => set (s1 := st) end.
  assert (((if r0 =? k then upd_lqp k (fun l => LoopQP (lq_qpn l) (lq_qp_type l) (lq_state l) 0) else mret ()) s1).2 =
          Some (p <| lb_qps := qps2 |>)) as ->.
  { subst s1. rewrite (alter_lqp _ k _ _ Hk). destruct Hrem as [-> | ->].
    - replace (0 =? k) with false by (symmetry; apply Z.eqb_neq; lia). done.
    - rewrite Z.eqb_refl. cbn. by rewrite alter_insert_eq. }
  replace (negb ((if r0 =? k then 0 else r0) =? 0)) with false
    by (symmetry; destruct Hrem as [-> | ->]; [by destruct (0 =? k)|by rewrite Z.eqb_refl]).
  rewrite run_bind. cbn. change (pair_step (LoopQP k t0 IBV_QPS_RTS r0)) with (pair_step (LoopQP k t0 st0 r0)).
  destruct (foldl _ None (hash_order qps2)) as [[m d]|]; [|done]. rewrite run_bind. cbn. unfold qps2.
  by rewrite alter_insert_eq.
Qed.

(** When a connected queue pair with no destination enters RTS on the
    loopback backend, it is paired, both ways, with the nearest queue pair of
    its type that is in RTS and unconnected, whatever order the table is
    walked in; with none, it stays unconnected.  No other queue pair changes. *)
Theorem auto_pair_nearest p qp k l ty psn qkey qs :
  loop_inv (Some p) -> bqp_dev qp = true -> bqp_priv qp = Some k -> lb_qps p !! k = Some l ->
  lq_qp_type l = IBV_QPT_RC \/ lq_qp_type l = IBV_QPT_UC -> ty <> IBV_QPT_DRIVER ->
  lq_remote_qpn l = 0 \/ lq_remote_qpn l = k ->
  exists qps', loopback_qp_state_rts qp ty psn qkey qs (Some p) = (0, Some (p <| lb_qps := qps' |>)) /\
  ((forall n o, lb_qps p !! n = Some o -> ~ pairable l (n, o)) /\ qps' = <[k := unpaired l]> (lb_qps p) \/
   exists m o, lb_qps p !! m = Some o /\ pairable l (m, o) /\
     (forall n o', lb_qps p !! n = Some o' -> pairable l (n, o') -> Z.abs (m - k) <= Z.abs (n - k)) /\
     qps' = <[m := o <| lq_remote_qpn := k |>]> (<[k := (unpaired l) <| lq_remote_qpn := m |>]> (lb_qps p))).
Proof.
  intros Hi Hd Hp Hk Hty Hdr Hrem. eexists. split; [by apply rts_search|]. cbv zeta.
  destruct Hi as (p' & [= <-] & _ & Hq). destruct (Hq k l Hk) as [Hn Hb].
  set (qps2 := <[k := unpaired l]> (lb_qps p)).
  assert (forall e, e ∈ hash_order qps2 -> e.1 <> k -> lb_qps p !! e.1 = Some e.2) as Hin.
  { intros [n o] He Hne. rewrite hash_order_perm in He. apply elem_of_map_to_list in He.
    unfold qps2 in He. rewrite lookup_insert_ne in He by done. done. }
  assert (forall n o, lb_qps p !! n = Some o -> n <> k -> (n, o) ∈ hash_order qps2) as Hout.
  { intros n o Ho Hne. rewrite hash_order_perm. apply elem_of_map_to_list. unfold qps2. by rewrite lookup_insert_ne. }
  assert (best_of l (hash_order qps2) (foldl (pair_step l) None (hash_order qps2))) as Hbest.
  { apply pair_search_best. intros [n o] He. unfold distance. cbn. rewrite Hn. unfold LOOPBACK_FIRST_QPN, UINT32_MAX in *.
    destruct (decide (n = k)) as [->|Hne]; [lia|]. destruct (Hq n o (Hin (n, o) He Hne)). lia. }
  destruct (foldl _ _ _) as [[m d]|]; cbn in Hbest.
  - right. destruct Hbest as (o & Ho & Hpr & -> & Hmin). assert (m <> k) as Hm by (rewrite <-Hn; apply Hpr).
    exists m, o. specialize (Hin (m, o) Ho Hm). split_and!; [done..| |].
    + intros n o' Hn' Hp'. rewrite <-Hn. assert (n <> k) by (rewrite <-Hn; apply Hp'). by apply (Hmin (n, o')); [apply Hout|].
    + apply alter_lqp. by rewrite lookup_insert_ne.
  - left. split; [|done]. intros n o Ho Hpr. assert (n <> k) by (rewrite <-Hn; apply Hpr).
    by apply (Hbest (n, o)); [apply Hout|].
Qed.
End pairing.

Definition ex_lqp n st : LoopbackQP := LoopQP n IBV_QPT_RC st 0.
Definition ex_loop : LoopbackBackendPrivate :=
  LoopPrivate {[100 := ex_lqp 100 IBV_QPS_RTR; 103 := ex_lqp 103 IBV_QPS_RTS; 101 := ex_lqp 101 IBV_QPS_RTS]} 1 1 1 104.

(** Of the queue pairs 101 and 103, both ready, 100 takes 101. *)
Lemma auto_pair_nearest_witness :
  (loopback_qp_state_rts (BackendQP true (Some 100) 100 true) IBV_QPT_RC 0 0 false (Some ex_loop)).1 = 0 /\
  pairable (ex_lqp 100 IBV_QPS_RTR) (101, ex_lqp 101 IBV_QPS_RTS).
Proof.
  assert (loop_inv (Some ex_loop)) as Hi.
  { eexists. split; [done|]. split; [by vm_compute|]. intros n l Hl. apply elem_of_map_to_list in Hl.
    apply list_elem_of_In in Hl. vm_compute in Hl.
    destruct Hl as [[= <- <-]|[[= <- <-]|[[= <- <-]|[]]]]; by vm_compute. }
  destruct (auto_pair_nearest ex_loop (BackendQP true (Some 100) 100 true) 100 (ex_lqp 100 IBV_QPS_RTR) IBV_QPT_RC 0 0 false
              Hi ltac:(reflexivity) ltac:(reflexivity) ltac:(vm_compute; reflexivity) ltac:(by left) ltac:(done) ltac:(by left))
    as (qps' & -> & _).
  split; [reflexivity|]. by split_and!.
Defined.
