(* ===== verification/ByteOrder.v ===== *)
(** * Byte-order accessors (src/src/byteorder.h)

    Each accessor reads or writes one fixed-width field of a byte buffer, at
    an offset the caller adds to the pointer.  The model takes the buffer and
    the offset; a write returns the buffer with those bytes replaced.  The
    theorems are the round trips and the ranges every later component relies
    on. *)
From S2P Require Import Prelude.

(** [p[i]] of the pointer [b + off]. *)
Definition bat (b : list Z) (off i : nat) : Z := b !!! (off + i)%nat.

Definition ernic_get_le16 (b : list Z) (off : nat) : Z :=
  u16 (Z.lor (bat b off 0) (Z.shiftl (bat b off 1) 8)).

Definition ernic_get_le32 (b : list Z) (off : nat) : Z :=
  Z.lor (Z.lor (Z.lor (bat b off 0) (u32 (Z.shiftl (bat b off 1) 8)))
    (u32 (Z.shiftl (bat b off 2) 16))) (u32 (Z.shiftl (bat b off 3) 24)).

Definition ernic_get_le64 (b : list Z) (off : nat) : Z :=
  Z.lor (ernic_get_le32 b off) (u64 (Z.shiftl (ernic_get_le32 b (off + 4)) 32)).

Definition le16_bytes (v : Z) : list Z := [u8 v; u8 (Z.shiftr v 8)].
Definition le32_bytes (v : Z) : list Z :=
  [u8 v; u8 (Z.shiftr v 8); u8 (Z.shiftr v 16); u8 (Z.shiftr v 24)].
Definition le64_bytes (v : Z) : list Z :=
  le32_bytes (u32 v) ++ le32_bytes (u32 (Z.shiftr v 32)).

Definition ernic_put_le16 (b : list Z) (off : nat) (v : Z) : list Z :=
  bput b off (le16_bytes v).
Definition ernic_put_le32 (b : list Z) (off : nat) (v : Z) : list Z :=
  bput b off (le32_bytes v).
Definition ernic_put_le64 (b : list Z) (off : nat) (v : Z) : list Z :=
  bput b off (le64_bytes v).

Definition ernic_get_be16 (b : list Z) (off : nat) : Z :=
  u16 (Z.lor (Z.shiftl (bat b off 0) 8) (bat b off 1)).

Definition ernic_get_be32 (b : list Z) (off : nat) : Z :=
  Z.lor (Z.lor (Z.lor (u32 (Z.shiftl (bat b off 0) 24)) (u32 (Z.shiftl (bat b off 1) 16)))
    (u32 (Z.shiftl (bat b off 2) 8))) (bat b off 3).

Definition ernic_get_be64 (b : list Z) (off : nat) : Z :=
  Z.lor (u64 (Z.shiftl (ernic_get_be32 b off) 32)) (ernic_get_be32 b (off + 4)).

Definition be16_bytes (v : Z) : list Z := [u8 (Z.shiftr v 8); u8 v].
Definition be32_bytes (v : Z) : list Z :=
  [u8 (Z.shiftr v 24); u8 (Z.shiftr v 16); u8 (Z.shiftr v 8); u8 v].
Definition be64_bytes (v : Z) : list Z :=
  be32_bytes (u32 (Z.shiftr v 32)) ++ be32_bytes (u32 v).

Definition ernic_put_be16 (b : list Z) (off : nat) (v : Z) : list Z :=
  bput b off (be16_bytes v).
Definition ernic_put_be32 (b : list Z) (off : nat) (v : Z) : list Z :=
  bput b off (be32_bytes v).
Definition ernic_put_be64 (b : list Z) (off : nat) (v : Z) : list Z :=
  bput b off (be64_bytes v).

(** ** Bytes read from a buffer *)

Lemma bat_ok b off i : bytes_ok b -> 0 <= bat b off i < 256.
Proof.
  intros Hb. unfold bat. destruct (b !! (off + i)%nat) as [x|] eqn:E.
  - rewrite (list_lookup_total_correct _ _ _ E).
    apply (Forall_lookup_1 _ _ _ _ Hb E).
  - rewrite list_lookup_total_alt, E. cbn. lia.
Qed.

Lemma bat_app_l b junk off i :
  (off + i < length b)%nat -> bat (b ++ junk) off i = bat b off i.
Proof. intros. unfold bat. by rewrite lookup_total_app_l. Qed.

Lemma bat_bput_same b off src i :
  (off + length src <= length b)%nat -> (i < length src)%nat ->
  bat (bput b off src) off i = src !!! i.
Proof.
  intros. unfold bat, bput. rewrite list_lookup_total_inserts by lia.
  f_equal. lia.
Qed.

Lemma bat_bput_other b off src o i :
  (o + i < off \/ off + length src <= o + i)%nat ->
  bat (bput b off src) o i = bat b o i.
Proof.
  intros [?|?]; unfold bat, bput.
  - by rewrite list_lookup_total_inserts_lt.
  - by rewrite list_lookup_total_inserts_ge.
Qed.

(** ** Arithmetic form of the accessors *)

Section get_arith.
Context (b : list Z) (Hb : bytes_ok b).

Lemma get_le16_arith off :
  ernic_get_le16 b off = bat b off 0 + bat b off 1 * 2 ^ 8.
Proof.
  pose proof (bat_ok b off 0 Hb); pose proof (bat_ok b off 1 Hb).
  unfold ernic_get_le16. rewrite lor_shl_add by lia. apply wrap_id. unfold fits. lia.
Qed.

Lemma get_le32_arith off :
  ernic_get_le32 b off =
  bat b off 0 + bat b off 1 * 2 ^ 8 + bat b off 2 * 2 ^ 16 + bat b off 3 * 2 ^ 24.
Proof.
  pose proof (bat_ok b off 0 Hb); pose proof (bat_ok b off 1 Hb);
  pose proof (bat_ok b off 2 Hb); pose proof (bat_ok b off 3 Hb).
  unfold ernic_get_le32. rewrite !wrap_id.
  2-4: unfold fits; rewrite Z.shiftl_mul_pow2 by lia; lia.
  rewrite (lor_shl_add 8), (lor_shl_add 16), (lor_shl_add 24) by lia. done.
Qed.

Lemma get_le32_fits off : fits 32 (ernic_get_le32 b off).
Proof.
  rewrite get_le32_arith.
  pose proof (bat_ok b off 0 Hb); pose proof (bat_ok b off 1 Hb);
  pose proof (bat_ok b off 2 Hb); pose proof (bat_ok b off 3 Hb).
  unfold fits. lia.
Qed.

Lemma get_le64_arith off :
  ernic_get_le64 b off = ernic_get_le32 b off + ernic_get_le32 b (off + 4) * 2 ^ 32.
Proof.
  pose proof (get_le32_fits off); pose proof (get_le32_fits (off + 4)).
  unfold ernic_get_le64, fits in *. rewrite wrap_id.
  - by rewrite lor_shl_add by lia.
  - unfold fits; rewrite Z.shiftl_mul_pow2 by lia; lia.
Qed.

Lemma get_le64_fits off : fits 64 (ernic_get_le64 b off).
Proof.
  rewrite get_le64_arith.
  pose proof (get_le32_fits off); pose proof (get_le32_fits (off + 4)).
  unfold fits in *. lia.
Qed.

Lemma get_be16_arith off :
  ernic_get_be16 b off = bat b off 0 * 2 ^ 8 + bat b off 1.
Proof.
  pose proof (bat_ok b off 0 Hb); pose proof (bat_ok b off 1 Hb).
  unfold ernic_get_be16. rewrite Z.lor_comm, lor_shl_add by lia.
  rewrite wrap_id; [lia | unfold fits; lia].
Qed.

Lemma get_be32_arith off :
  ernic_get_be32 b off =
  bat b off 0 * 2 ^ 24 + bat b off 1 * 2 ^ 16 + bat b off 2 * 2 ^ 8 + bat b off 3.
Proof.
  pose proof (bat_ok b off 0 Hb); pose proof (bat_ok b off 1 Hb);
  pose proof (bat_ok b off 2 Hb); pose proof (bat_ok b off 3 Hb).
  unfold ernic_get_be32. rewrite !wrap_id.
  2-4: unfold fits; rewrite Z.shiftl_mul_pow2 by lia; lia.
  rewrite <-!Z.lor_assoc, (Z.lor_comm (Z.shiftl (bat b off 2) 8)).
  rewrite (Z.lor_comm (Z.shiftl (bat b off 1) 16)), (Z.lor_comm (Z.shiftl (bat b off 0) 24)).
  rewrite (lor_shl_add 8), (lor_shl_add 16), (lor_shl_add 24) by lia. lia.
Qed.

Lemma get_be32_fits off : fits 32 (ernic_get_be32 b off).
Proof.
  rewrite get_be32_arith.
  pose proof (bat_ok b off 0 Hb); pose proof (bat_ok b off 1 Hb);
  pose proof (bat_ok b off 2 Hb); pose proof (bat_ok b off 3 Hb).
  unfold fits. lia.
Qed.

Lemma get_be64_arith off :
  ernic_get_be64 b off = ernic_get_be32 b off * 2 ^ 32 + ernic_get_be32 b (off + 4).
Proof.
  pose proof (get_be32_fits off); pose proof (get_be32_fits (off + 4)).
  unfold ernic_get_be64, fits in *. rewrite wrap_id.
  - rewrite Z.lor_comm, lor_shl_add by lia. lia.
  - unfold fits; rewrite Z.shiftl_mul_pow2 by lia; lia.
Qed.

Lemma get_be64_fits off : fits 64 (ernic_get_be64 b off).
Proof.
  rewrite get_be64_arith.
  pose proof (get_be32_fits off); pose proof (get_be32_fits (off + 4)).
  unfold fits in *. lia.
Qed.
End get_arith.

(** ** Round trips *)

Lemma le32_bytes_ok v : bytes_ok (le32_bytes v).
Proof. repeat constructor; apply wrap_fits; lia. Qed.
Lemma be32_bytes_ok v : bytes_ok (be32_bytes v).
Proof. repeat constructor; apply wrap_fits; lia. Qed.
Lemma le64_bytes_ok v : bytes_ok (le64_bytes v).
Proof. apply Forall_app_2; apply le32_bytes_ok. Qed.
Lemma be64_bytes_ok v : bytes_ok (be64_bytes v).
Proof. apply Forall_app_2; apply be32_bytes_ok. Qed.
Lemma be16_bytes_ok v : bytes_ok (be16_bytes v).
Proof. repeat constructor; apply wrap_fits; lia. Qed.
Lemma le16_bytes_ok v : bytes_ok (le16_bytes v).
Proof. repeat constructor; apply wrap_fits; lia. Qed.

#[export] Hint Resolve le16_bytes_ok le32_bytes_ok le64_bytes_ok
  be16_bytes_ok be32_bytes_ok be64_bytes_ok : bytes.

Lemma bput_ok b off src : bytes_ok b -> bytes_ok src -> bytes_ok (bput b off src).
Proof. intros. by apply Forall_inserts. Qed.
Lemma zeros_ok n : bytes_ok (zeros n).
Proof. apply Forall_replicate. unfold byte_ok, fits. lia. Qed.
Lemma bslice_ok b off n : bytes_ok b -> bytes_ok (bslice b off n).
Proof. intros. by apply Forall_take, Forall_drop. Qed.
#[export] Hint Resolve bput_ok zeros_ok bslice_ok : bytes.

Lemma u32_shiftr_split v :
  u8 (u32 v) + u8 (Z.shiftr (u32 v) 8) * 2 ^ 8 + u8 (Z.shiftr (u32 v) 16) * 2 ^ 16
    + u8 (Z.shiftr (u32 v) 24) * 2 ^ 24 = u32 v.
Proof.
  assert (fits 32 (u32 v)) as Hv by (apply wrap_fits; lia).
  generalize dependent (u32 v). intros w Hw. unfold fits, wrap in *.
  rewrite !Z.shiftr_div_pow2 by lia. change (2 ^ 8) with 256.
  change (2 ^ 16) with 65536. change (2 ^ 24) with 16777216.
  Z.div_mod_to_equations. lia.
Qed.

Lemma u8_u32 v : u8 (u32 v) = u8 v.
Proof. unfold wrap. apply Z.mod_mod_divide. by exists (2 ^ 24). Qed.

Lemma u8_shiftr_u32 v n : 0 <= n <= 24 -> u8 (Z.shiftr (u32 v) n) = u8 (Z.shiftr v n).
Proof.
  intros Hn. unfold wrap. apply Z.bits_inj'. intros i Hi.
  destruct (decide (i < 8)).
  - rewrite !Z.mod_pow2_bits_low by lia. rewrite !Z.shiftr_spec by lia.
    by rewrite Z.mod_pow2_bits_low by lia.
  - by rewrite !Z.mod_pow2_bits_high by lia.
Qed.

Lemma u32_shiftr_split' v :
  u8 v + u8 (Z.shiftr v 8) * 2 ^ 8 + u8 (Z.shiftr v 16) * 2 ^ 16
    + u8 (Z.shiftr v 24) * 2 ^ 24 = u32 v.
Proof.
  rewrite <-(u32_shiftr_split v), u8_u32.
  by rewrite !u8_shiftr_u32 by lia.
Qed.

Lemma u64_u32_split v : u32 v + u32 (Z.shiftr v 32) * 2 ^ 32 = u64 v.
Proof.
  unfold wrap. rewrite Z.shiftr_div_pow2 by lia.
  change (2 ^ 64) with (2 ^ 32 * 2 ^ 32). rewrite Z.rem_mul_r by lia. lia.
Qed.

Section put_get.
Context (b : list Z) (Hb : bytes_ok b).

Lemma get_put_le32 off v :
  (off + 4 <= length b)%nat ->
  ernic_get_le32 (ernic_put_le32 b off v) off = u32 v.
Proof.
  intros. unfold ernic_put_le32. rewrite get_le32_arith by auto with bytes.
  rewrite !bat_bput_same by (cbn; lia). apply u32_shiftr_split'.
Qed.

Lemma get_put_be32 off v :
  (off + 4 <= length b)%nat ->
  ernic_get_be32 (ernic_put_be32 b off v) off = u32 v.
Proof.
  intros. unfold ernic_put_be32. rewrite get_be32_arith by auto with bytes.
  rewrite !bat_bput_same by (cbn; lia). rewrite <-u32_shiftr_split'. cbn -[Z.pow wrap]. lia.
Qed.
End put_get.

(** A field read is unchanged by a write that does not overlap it. *)
Lemma get_le32_bput_other b off src o :
  (o + 4 <= off \/ off + length src <= o)%nat ->
  ernic_get_le32 (bput b off src) o = ernic_get_le32 b o.
Proof. intros. unfold ernic_get_le32. by rewrite !bat_bput_other by lia. Qed.

Lemma get_be32_bput_other b off src o :
  (o + 4 <= off \/ off + length src <= o)%nat ->
  ernic_get_be32 (bput b off src) o = ernic_get_be32 b o.
Proof. intros. unfold ernic_get_be32. by rewrite !bat_bput_other by lia. Qed.

(** Reading a field back from the bytes of a value, wherever they lie. *)
Lemma get_le32_of_bytes b off v :
  bytes_ok b -> (forall i, (i < 4)%nat -> bat b off i = le32_bytes v !!! i) ->
  ernic_get_le32 b off = u32 v.
Proof.
  intros Hb H. rewrite get_le32_arith, !H by (done || lia). apply u32_shiftr_split'.
Qed.

Lemma get_le64_of_bytes b off v :
  bytes_ok b -> (forall i, (i < 8)%nat -> bat b off i = le64_bytes v !!! i) ->
  ernic_get_le64 b off = u64 v.
Proof.
  intros Hb H. rewrite get_le64_arith by done.
  rewrite (get_le32_of_bytes b off (u32 v)), (get_le32_of_bytes b (off + 4) (u32 (Z.shiftr v 32)));
    [| done | | done |].
  - rewrite !wrap_wrap by lia. apply u64_u32_split.
  - intros i Hi. transitivity (bat b off (4 + i)); [unfold bat; f_equal; lia|].
    rewrite H by lia. do 4 (destruct i as [|i]; [done|]). lia.
  - intros i Hi. rewrite H by lia. do 4 (destruct i as [|i]; [done|]). lia.
Qed.

Lemma u16_split v : u8 v + u8 (Z.shiftr v 8) * 2 ^ 8 = wrap 16 v.
Proof.
  unfold u8, wrap. rewrite Z.shiftr_div_pow2 by lia. change (2 ^ 16) with (2 ^ 8 * 2 ^ 8). rewrite Z.rem_mul_r by lia. lia.
Qed.
Lemma get_le16_of_bytes b off v : bytes_ok b -> (forall i, (i < 2)%nat -> bat b off i = le16_bytes v !!! i) -> ernic_get_le16 b off = wrap 16 v.
Proof. intros Hb H. rewrite get_le16_arith, !H by (done || lia). apply u16_split. Qed.
Lemma get_le32_app_l b rest off : (off + 4 <= length b)%nat -> ernic_get_le32 (b ++ rest) off = ernic_get_le32 b off.
Proof. intros. unfold ernic_get_le32. by rewrite !bat_app_l by lia. Qed.
Lemma get_le16_fits b off : bytes_ok b -> fits 16 (ernic_get_le16 b off).
Proof. intros Hb. rewrite get_le16_arith by done. pose proof (bat_ok b off 0 Hb). pose proof (bat_ok b off 1 Hb). unfold fits. lia. Qed.
Lemma get_put_le16 b off v : bytes_ok b -> (off + 2 <= length b)%nat -> ernic_get_le16 (ernic_put_le16 b off v) off = wrap 16 v.
Proof.
  intros Hb Hl. unfold ernic_put_le16. rewrite get_le16_arith by auto with bytes. rewrite !bat_bput_same by (cbn; lia). apply u16_split.
Qed.
Lemma get_le16_bput_other b off src o : (o + 2 <= off \/ off + length src <= o)%nat -> ernic_get_le16 (bput b off src) o = ernic_get_le16 b o.
Proof. intros. unfold ernic_get_le16. by rewrite !bat_bput_other by lia. Qed.

(** Explicit byte lists: each entry a hypothesis, a wrapped value or a constant. *)
Ltac bytes_solve :=
  unfold bytes_ok in *; decompose_Forall_hyps;
  repeat (apply list.Forall_cons; split); try apply list.Forall_nil; try exact I;
  first [assumption | apply wrap_fits; lia | unfold byte_ok, fits; lia].
