(* ===== verification/Dma.v ===== *)
(** * Guest memory: the bounds check and the DMA copies
    (src/src/dma_range.h, src/src/ernic_dma.c)

    [GuestMem] is the interface the rest of the device is written against: a
    DMA read and a DMA write, and the view [peek] of guest memory they act on.
    [GuestMemLaws] is what those two operations promise.  The second half of
    the file models ernic_dma.c on top of libvfio-user's translation, which is
    a parameter ([Vfu], with its documented behaviour in [VfuLaws]), and
    proves that it is an instance of the interface. *)
From S2P Require Import Prelude ByteOrder.

(** dma_range.h: [gpa <= UINT64_MAX - len], on uint64_t. *)
Definition ernic_dma_range_ok (gpa len : Z) : bool :=
  gpa <=? u64 (UINT64_MAX - len).

(** ** The interface *)

Class GuestMem (M : Type) := {
  dma_read : M -> Z -> Z -> option (list Z); (* None: a negative return *)
  dma_write : M -> Z -> list Z -> bool * M;  (* false: a negative return *)
  peek : M -> Z -> Z;                        (* one byte of guest memory *)
}.

(** [peekn m a n]: the [n] bytes of guest memory from [a]. *)
Definition peekn `{GuestMem M} (m : M) (a n : Z) : list Z := peek m <$> seqZ a n.

Class GuestMemLaws (M : Type) `{!GuestMem M} := {
  peek_byte (m : M) a : byte_ok (peek m a);
  dma_read_spec (m : M) a n bs :
    fits 64 a -> 0 <= n < 2 ^ 64 -> dma_read m a n = Some bs ->
    bs = peekn m a n /\ a + n < 2 ^ 64;
  dma_write_spec (m : M) a bs m' :
    fits 64 a -> Z.of_nat (length bs) < 2 ^ 64 -> dma_write m a bs = (true, m') ->
    a + Z.of_nat (length bs) < 2 ^ 64 /\
    forall x, peek m' x =
      if bool_decide (a <= x < a + Z.of_nat (length bs))
      then u8 (bs !!! Z.to_nat (x - a)) else peek m x;
  dma_write_frame (m : M) a bs ok m' :
    fits 64 a -> Z.of_nat (length bs) < 2 ^ 64 -> dma_write m a bs = (ok, m') ->
    forall x, ~ (a <= x < a + Z.of_nat (length bs) /\ a + Z.of_nat (length bs) < 2 ^ 64) -> peek m' x = peek m x;
  dma_write_read_perm (m : M) a bs x n :
    is_Some (dma_read (dma_write m a bs).2 x n) <-> is_Some (dma_read m x n);
  dma_write_write_perm (m : M) a bs x cs :
    (dma_write (dma_write m a bs).2 x cs).1 = (dma_write m x cs).1;
}.

(** ** ernic_dma.c *)

Record iovec := Iovec { iov_base : Z; iov_len : Z }.

(** libvfio-user: [vfu_addr_to_sgl] (what it returns and the list it fills
    in) and [vfu_sgl_get] ([None] for a negative return). *)
Class Vfu := {
  vfu_sgl : Type;
  vfu_addr_to_sgl : Z -> Z -> bool -> Z * vfu_sgl;
  vfu_sgl_get : vfu_sgl -> Z -> option (list iovec);
}.

(** The server's own address space, a byte per address. *)
Abbreviation host := (gmap Z Z).

(** memcpy() into and out of it. *)
Definition host_store (h : host) (ab : list (Z * Z)) : host :=
  foldl (fun h p => <[p.1 := u8 p.2]> h) h ab.
Definition host_write (h : host) (base : Z) (bs : list Z) : host :=
  host_store h (zip (seqZ base (Z.of_nat (length bs))) bs).
Definition host_read (h : host) (base n : Z) : list Z :=
  (fun a => u8 (h !!! a)) <$> seqZ base n.

Definition DMA_PIECE_TOO_BIG : Z := 1.

(** The copy loop of dma_xfer_piece(): what is left of the iovec array, the
    bytes done, the host memory and the caller's read buffer. *)
Fixpoint iov_copy (write : bool) (iov : list iovec) (wbuf : list Z) (off len done : Z)
    (h : host) (rbuf : list Z) : Z * host * list Z :=
  match iov with
  | [] => (done, h, rbuf)
  | v :: iov' =>
      if done <? len then
        let n := if iov_len v >? len - done then len - done else iov_len v in
        if write then
          iov_copy write iov' wbuf off len (done + n)
            (host_write h (iov_base v) (bslice wbuf (Z.to_nat (off + done)) (Z.to_nat n))) rbuf
        else
          iov_copy write iov' wbuf off len (done + n)
            h (bput rbuf (Z.to_nat (off + done)) (host_read h (iov_base v) n))
      else (done, h, rbuf)
  end.

Section ernic_dma.
Context `{VFU : Vfu}.

(** Returns 0, DMA_PIECE_TOO_BIG or a negative errno.  The dirty-page mark
    and the release of the list have no effect on the bytes. *)
Definition dma_xfer_piece (gpa : Z) (write : bool) (wbuf : list Z) (off len : Z)
    (h : host) (rbuf : list Z) : Z * host * list Z :=
  let '(cnt, sg) := vfu_addr_to_sgl gpa len write in
  if (cnt <? -1) && (1 <? len) then (DMA_PIECE_TOO_BIG, h, rbuf)
  else if cnt <=? 0 then (- EIO, h, rbuf)
  else match vfu_sgl_get sg cnt with
  | None => (- EIO, h, rbuf)
  | Some iov =>
      let '(done, h', rbuf') := iov_copy write iov wbuf off len 0 h rbuf in
      ((if done =? len then 0 else - EIO), h', rbuf')
  end.

(** The state of dma_xfer()'s loop; [ds_pending] is the stack [pending], its
    top first. *)
Record dma_st := DmaSt {
  ds_host : host; ds_rbuf : list Z; ds_done : Z; ds_piece : Z; ds_pending : list Z }.

(** One turn of the [for (;;)]: go on with a state, or return. *)
Definition dma_xfer_iter (gpa : Z) (write : bool) (wbuf : list Z) (s : dma_st) :
    dma_st + (Z * host * list Z) :=
  let '(rc, h, rbuf) :=
    dma_xfer_piece (u64 (gpa + ds_done s)) write wbuf (ds_done s) (ds_piece s)
      (ds_host s) (ds_rbuf s) in
  if rc <? 0 then inr (rc, h, rbuf)
  else if rc =? DMA_PIECE_TOO_BIG then
    inl (DmaSt h rbuf (ds_done s) (ds_piece s / 2)
           ((ds_piece s - ds_piece s / 2) :: ds_pending s))
  else
    let done := ds_done s + ds_piece s in
    match ds_pending s with
    | [] => inr (0, h, rbuf)
    | p :: rest => inl (DmaSt h rbuf done p rest)
    end.

Fixpoint dma_xfer_loop (fuel : nat) (gpa : Z) (write : bool) (wbuf : list Z) (s : dma_st) :
    option (Z * host * list Z) :=
  match fuel with
  | O => None
  | S fuel' =>
      match dma_xfer_iter gpa write wbuf s with
      | inr r => Some r
      | inl s' => dma_xfer_loop fuel' gpa write wbuf s'
      end
  end.

(** [None] is a loop that has not returned within [2 * len] turns. *)
Definition dma_xfer (h : host) (gpa : Z) (write : bool) (rbuf wbuf : list Z) (len : Z) :
    option (Z * host * list Z) :=
  if negb (ernic_dma_range_ok gpa len) then Some (- EINVAL, h, rbuf)
  else if len =? 0 then Some (0, h, rbuf)
  else dma_xfer_loop (Z.to_nat (2 * len)) gpa write wbuf (DmaSt h rbuf 0 len []).

Definition ernic_dma_read (h : host) (gpa : Z) (buf : list Z) (len : Z) :
    option (Z * host * list Z) :=
  dma_xfer h gpa false buf [] len.

Definition ernic_dma_write (h : host) (gpa : Z) (buf : list Z) (len : Z) :
    option (Z * host * list Z) :=
  dma_xfer h gpa true [] buf len.
End ernic_dma.

(** ** libvfio-user's documented behaviour

    [vfu_xlate] is where the client mapped each guest byte.  A call that
    returns a positive count and whose list can be mapped describes exactly
    the bytes asked for, in order; two guest addresses are two bytes. *)

Definition iov_bytes (iov : list iovec) : list Z :=
  v ← iov; seqZ (iov_base v) (iov_len v).

Class VfuLaws `{Vfu} := {
  vfu_xlate : Z -> option Z;
  vfu_xlate_inj a b x : vfu_xlate a = Some x -> vfu_xlate b = Some x -> a = b;
  vfu_sgl_maps gpa len w cnt sg iov :
    0 < len -> vfu_addr_to_sgl gpa len w = (cnt, sg) -> 0 < cnt ->
    vfu_sgl_get sg cnt = Some iov ->
    Forall (fun v => 0 <= iov_len v) iov /\ Some <$> iov_bytes iov = vfu_xlate <$> seqZ gpa len;
}.

(** One byte of guest memory, as the host holds it. *)
Definition vfu_peek `{VfuLaws} (h : host) (a : Z) : Z :=
  match vfu_xlate a with Some x => u8 (h !!! x) | None => 0 end.

(** ** Lists of bytes copied piecewise *)

Lemma seqZ_split m n k :
  0 <= k <= n -> seqZ m n = seqZ m k ++ seqZ (m + k) (n - k).
Proof. intros. rewrite <-seqZ_app by lia. f_equal. lia. Qed.

Lemma take_seqZ m n k : 0 <= k <= n -> take (Z.to_nat k) (seqZ m n) = seqZ m k.
Proof.
  intros. rewrite (seqZ_split m n k) by lia. apply take_app_length'.
  rewrite length_seqZ. lia.
Qed.

Lemma drop_seqZ m n k : 0 <= k <= n -> drop (Z.to_nat k) (seqZ m n) = seqZ (m + k) (n - k).
Proof.
  intros. rewrite (seqZ_split m n k) by lia. apply drop_app_length'.
  rewrite length_seqZ. lia.
Qed.

Lemma host_store_app h l1 l2 : host_store h (l1 ++ l2) = host_store (host_store h l1) l2.
Proof. apply foldl_app. Qed.

Lemma host_store_lookup_out h l x : x ∉ l.*1 -> host_store h l !!! x = h !!! x.
Proof.
  revert h. induction l as [|[a b] l IH]; intros h Hx; [done|].
  cbn in *. rewrite not_elem_of_cons in Hx. destruct Hx as [Hne Hx].
  unfold host_store in *. cbn. rewrite IH by done. by rewrite lookup_total_insert_ne.
Qed.

Lemma host_store_lookup_in h as_ bs i a b :
  NoDup as_ -> length bs = length as_ -> as_ !! i = Some a -> bs !! i = Some b ->
  host_store h (zip as_ bs) !!! a = u8 b.
Proof.
  revert h bs i. induction as_ as [|a0 as_ IH]; intros h bs i Hnd Hlen Ha Hb; [done|].
  destruct bs as [|b0 bs]; [done|]. cbn in Hlen. apply list.NoDup_cons in Hnd as [Hnin Hnd].
  cbn. destruct i as [|i]; cbn in *; simplify_eq.
  - change (host_store (<[a:=u8 b]> h) (zip as_ bs) !!! a = u8 b).
    rewrite host_store_lookup_out; [by rewrite lookup_total_insert_eq|].
    rewrite fst_zip by lia. done.
  - eapply (IH _ bs i); [done|lia|done|done].
Qed.

Lemma iov_bytes_cons v iov :
  iov_bytes (v :: iov) = seqZ (iov_base v) (iov_len v) ++ iov_bytes iov.
Proof. done. Qed.

(** The copy loop against the flat list of host bytes it walks. *)
Lemma iov_copy_write iov wbuf off len done h rbuf :
  Forall (fun v => 0 <= iov_len v) iov -> 0 <= done <= len -> 0 <= off ->
  off + len <= Z.of_nat (length wbuf) ->
  done + Z.of_nat (length (iov_bytes iov)) = len ->
  iov_copy true iov wbuf off len done h rbuf =
  (len, host_store h (zip (iov_bytes iov) (bslice wbuf (Z.to_nat (off + done)) (Z.to_nat (len - done)))),
   rbuf).
Proof.
  revert done h. induction iov as [|v iov IH]; intros done h Hpos Hd Hoff Hwb Hlen.
  - cbn in *. replace done with len by lia. done.
  - apply list.Forall_cons in Hpos as [Hv Hpos]. rewrite iov_bytes_cons in *.
    rewrite length_app, length_seqZ in Hlen. cbn [iov_copy].
    destruct (done <? len) eqn:E; bdestr.
    + destruct (iov_len v >? len - done) eqn:E2; [lia|].
      rewrite IH by (done || lia). f_equal. f_equal.
      unfold host_write. rewrite <-host_store_app. f_equal.
      assert (length (bslice wbuf (Z.to_nat (off + done)) (Z.to_nat (iov_len v))) =
              Z.to_nat (iov_len v)) as Hl.
      { unfold bslice. rewrite length_take, length_drop. lia. }
      rewrite Hl, Z2Nat.id by lia.
      rewrite <-zip_with_app by (rewrite length_seqZ; lia). f_equal.
      unfold bslice. rewrite <-(take_drop (Z.to_nat (iov_len v)) (take (Z.to_nat (len - done)) _)).
      rewrite take_take, skipn_firstn_comm, drop_drop.
      f_equal; f_equal; try lia. f_equal. lia.
    + assert (iov_len v = 0) as Hz by lia. assert (iov_bytes iov = []) as ->.
      { apply nil_length_inv. lia. }
      rewrite Hz. cbn. f_equal; f_equal; lia.
Qed.

Lemma iov_copy_read iov wbuf off len done h rbuf :
  Forall (fun v => 0 <= iov_len v) iov -> 0 <= done <= len -> 0 <= off ->
  done + Z.of_nat (length (iov_bytes iov)) = len ->
  iov_copy false iov wbuf off len done h rbuf =
  (len, h, bput rbuf (Z.to_nat (off + done)) ((fun a => u8 (h !!! a)) <$> iov_bytes iov)).
Proof.
  revert done rbuf. induction iov as [|v iov IH]; intros done rbuf Hpos Hd Hoff Hlen.
  - cbn in *. replace done with len by lia. done.
  - apply list.Forall_cons in Hpos as [Hv Hpos]. rewrite iov_bytes_cons in *.
    rewrite length_app, length_seqZ in Hlen. cbn [iov_copy].
    destruct (done <? len) eqn:E; bdestr.
    + destruct (iov_len v >? len - done) eqn:E2; [lia|].
      rewrite IH by (done || lia). f_equal.
      unfold bput, host_read. rewrite fmap_app, list_inserts_app_l.
      f_equal. rewrite length_fmap, length_seqZ. lia.
    + assert (iov_len v = 0) as -> by lia. assert (iov_bytes iov = []) as ->.
      { apply nil_length_inv. lia. }
      cbn. f_equal; f_equal; lia.
Qed.

Section xfer_correct.
Context `{VfuLaws}.

Lemma vfu_peek_store h gpa n as_ bs x :
  0 <= n -> Some <$> as_ = vfu_xlate <$> seqZ gpa n -> Z.of_nat (length bs) = n ->
  vfu_peek (host_store h (zip as_ bs)) x =
  if bool_decide (gpa <= x < gpa + n) then u8 (bs !!! Z.to_nat (x - gpa)) else vfu_peek h x.
Proof.
  intros Hn Has Hbs.
  assert (length as_ = Z.to_nat n) as Hlen.
  { apply (f_equal length) in Has. by rewrite !length_fmap, length_seqZ in Has. }
  assert (forall i a, as_ !! i = Some a ->
            vfu_xlate (gpa + Z.of_nat i) = Some a /\ Z.of_nat i < n) as Hx.
  { intros i a Ha. apply (f_equal (.!! i)) in Has as Hi.
    rewrite !list_lookup_fmap, Ha in Hi. cbn in Hi.
    destruct (seqZ gpa n !! i) as [y|] eqn:Ey; [|done]. cbn in Hi.
    apply lookup_seqZ in Ey as [-> ?]. split; [congruence|lia]. }
  assert (NoDup as_) as Hnd.
  { apply NoDup_alt. intros i j a Hi Hj. apply Hx in Hi as [Hi _], Hj as [Hj _].
    pose proof (vfu_xlate_inj _ _ _ Hi Hj). lia. }
  unfold vfu_peek. case_bool_decide as Hr.
  - destruct (lookup_lt_is_Some_2 as_ (Z.to_nat (x - gpa))) as [a Ha]; [lia|].
    pose proof (Hx _ _ Ha) as [Hxa _].
    replace (gpa + Z.of_nat (Z.to_nat (x - gpa))) with x in Hxa by lia. rewrite Hxa.
    destruct (lookup_lt_is_Some_2 bs (Z.to_nat (x - gpa))) as [b Hb]; [lia|].
    rewrite (host_store_lookup_in h as_ bs (Z.to_nat (x - gpa)) a b) by (done || lia).
    rewrite wrap_wrap by lia. f_equal. symmetry. by apply list_lookup_total_correct.
  - destruct (vfu_xlate x) as [a|] eqn:Ea; [|done]. f_equal.
    apply host_store_lookup_out. rewrite fst_zip by lia.
    intros Hin. apply list_elem_of_lookup in Hin as [i Hi].
    apply Hx in Hi as [Hi ?]. pose proof (vfu_xlate_inj _ _ _ Ea Hi). lia.
Qed.

(** What one piece does: nothing and a split, nothing and an error, or the
    whole piece. *)
Lemma dma_xfer_piece_cases gpa w wbuf off len h rbuf rc h' rbuf' :
  0 < len -> 0 <= off -> (w = true -> off + len <= Z.of_nat (length wbuf)) ->
  dma_xfer_piece gpa w wbuf off len h rbuf = (rc, h', rbuf') ->
  (rc = DMA_PIECE_TOO_BIG /\ 1 < len /\ h' = h /\ rbuf' = rbuf) \/
  (rc = - EIO /\ h' = h /\ rbuf' = rbuf) \/
  (rc = 0 /\ if w then rbuf' = rbuf /\ forall x, vfu_peek h' x =
       (if bool_decide (gpa <= x < gpa + len)
        then u8 (wbuf !!! Z.to_nat (off + (x - gpa))) else vfu_peek h x)
     else h' = h /\ rbuf' = bput rbuf (Z.to_nat off) (vfu_peek h <$> seqZ gpa len)).
Proof.
  intros Hlen Hoff Hw. unfold dma_xfer_piece.
  destruct (vfu_addr_to_sgl gpa len w) as [cnt sg] eqn:Esg.
  destruct ((cnt <? -1) && (1 <? len)) eqn:E1; bdestr; [intros; simplify_eq; auto|].
  destruct (cnt <=? 0) eqn:E2; bdestr; [intros; simplify_eq; auto|].
  destruct (vfu_sgl_get sg cnt) as [iov|] eqn:Eg; [|intros; simplify_eq; auto].
  destruct (vfu_sgl_maps _ _ _ _ _ _ Hlen Esg E2 Eg) as [Hpos Hmap].
  assert (length (iov_bytes iov) = Z.to_nat len) as Hl.
  { apply (f_equal length) in Hmap. by rewrite !length_fmap, length_seqZ in Hmap. }
  destruct w.
  - rewrite iov_copy_write by (auto; lia). rewrite Z.eqb_refl.
    intros; simplify_eq. right; right. split_and!; [done..|]. intros x.
    rewrite (vfu_peek_store _ gpa len); [|lia|done|].
    + case_bool_decide; [|done]. f_equal. unfold bslice.
      rewrite lookup_total_take_lt, lookup_total_drop by lia. f_equal. lia.
    + unfold bslice. rewrite length_take, length_drop. specialize (Hw eq_refl). lia.
  - rewrite iov_copy_read by (auto; lia). rewrite Z.eqb_refl.
    intros; simplify_eq. right; right. split_and!; [done..|]. f_equal; [lia|].
    unfold vfu_peek. apply list_eq. intros i.
    apply (f_equal (.!! i)) in Hmap. rewrite !list_lookup_fmap in *.
    destruct (iov_bytes iov !! i), (seqZ gpa len !! i); cbn in *; simplify_eq; [|done].
    by rewrite <-Hmap.
Qed.

Section loop.
Context (gpa len : Z) (w : bool) (wbuf rbuf0 : list Z) (h0 : host).
Context (Hgpa : fits 64 gpa) (Hlen : 0 < len) (Hrange : gpa + len < 2 ^ 64).
Context (Hwbuf : w = true -> Z.of_nat (length wbuf) = len).
Context (Hrbuf : w = false -> Z.of_nat (length rbuf0) = len).

(** What the first [done] bytes of a transfer amount to. *)
Definition xfer_upto (done : Z) (h : host) (rbuf : list Z) : Prop :=
  if w then rbuf = rbuf0 /\ forall x, vfu_peek h x =
    (if bool_decide (gpa <= x < gpa + done)
     then u8 (wbuf !!! Z.to_nat (x - gpa)) else vfu_peek h0 x)
  else h = h0 /\ Z.of_nat (length rbuf) = len /\
       take (Z.to_nat done) rbuf = vfu_peek h0 <$> seqZ gpa done.

Definition dma_inv (s : dma_st) : Prop :=
  0 <= ds_done s /\ 0 < ds_piece s /\ Forall (fun p => 0 < p) (ds_pending s) /\
  ds_done s + ds_piece s + sumZ (ds_pending s) = len /\
  xfer_upto (ds_done s) (ds_host s) (ds_rbuf s).

Definition dma_post (r : Z * host * list Z) : Prop :=
  let '(rc, h, rbuf) := r in
  (rc = 0 /\ xfer_upto len h rbuf) \/
  (rc = - EIO /\ exists done, 0 <= done <= len /\ xfer_upto done h rbuf).

(** Bytes still to copy, less the pieces they are cut into: every turn of the
    loop makes it smaller. *)
Definition dma_measure (s : dma_st) : Z :=
  2 * (ds_piece s + sumZ (ds_pending s)) - (1 + Z.of_nat (length (ds_pending s))).

Lemma dma_measure_pos s : dma_inv s -> 0 < dma_measure s.
Proof.
  intros (_ & Hp & Hpend & _). unfold dma_measure.
  assert (Z.of_nat (length (ds_pending s)) <= sumZ (ds_pending s)); [|lia].
  induction Hpend; cbn [length]; unfold sumZ in *; cbn; lia.
Qed.

Lemma xfer_upto_step done piece h rbuf rc h' rbuf' :
  0 <= done -> 0 < piece -> done + piece <= len -> xfer_upto done h rbuf ->
  dma_xfer_piece (u64 (gpa + done)) w wbuf done piece h rbuf = (rc, h', rbuf') ->
  (rc = DMA_PIECE_TOO_BIG /\ 1 < piece /\ xfer_upto done h' rbuf') \/
  (rc = - EIO /\ xfer_upto done h' rbuf') \/
  (rc = 0 /\ xfer_upto (done + piece) h' rbuf').
Proof.
  intros Hd Hp Hl Hup Hpc. unfold fits in Hgpa.
  rewrite wrap_id in Hpc by (unfold fits; lia).
  apply dma_xfer_piece_cases in Hpc as [(->&?&->&->)|[(->&->&->)|(->&Hc)]]; [..|lia|lia|];
    [auto..| |intros ->; specialize (Hwbuf eq_refl); lia].
  right; right. split; [done|]. unfold xfer_upto in *. destruct w.
  - destruct Hup as [-> Hup], Hc as [-> Hc]. split; [done|]. intros x. rewrite Hc, Hup.
    repeat case_bool_decide; try lia; try done. f_equal. f_equal. lia.
  - destruct Hup as (-> & Hrl & Hup), Hc as [-> ->]. split; [done|]. split.
    { unfold bput. by rewrite length_inserts. }
    rewrite (seqZ_split gpa (done + piece) done), fmap_app, <-Hup by lia.
    replace (done + piece - done) with piece by lia.
    apply list_eq. intros i. unfold bput.
    destruct (decide (i < Z.to_nat done)%nat).
    + rewrite lookup_app_l by (rewrite length_take; lia).
      rewrite !lookup_take_lt by lia. by rewrite list_lookup_inserts_lt by lia.
    + rewrite lookup_app_r by (rewrite length_take; lia). rewrite length_take.
      destruct (decide (i < Z.to_nat (done + piece))%nat).
      * rewrite lookup_take_lt by lia.
        rewrite list_lookup_inserts by (rewrite ?length_fmap, ?length_seqZ; lia).
        f_equal. lia.
      * rewrite lookup_take_ge by lia. symmetry. apply lookup_ge_None_2.
        rewrite length_fmap, length_seqZ. lia.
Qed.

Lemma dma_iter_inv s :
  dma_inv s ->
  match dma_xfer_iter gpa w wbuf s with
  | inl s' => dma_inv s' /\ dma_measure s' < dma_measure s
  | inr r => dma_post r
  end.
Proof.
  intros (Hd & Hp & Hpend & Hsum & Hup). unfold dma_xfer_iter.
  destruct (dma_xfer_piece _ _ _ _ _ _ _) as [[rc h'] rbuf'] eqn:E.
  assert (0 <= sumZ (ds_pending s)) as Hs.
  { apply sumZ_nonneg. eapply Forall_impl; [exact Hpend|]. cbn. lia. }
  eapply xfer_upto_step in E as [(->&?&?)|[(->&?)|(->&?)]]; try done; try lia.
  - change (DMA_PIECE_TOO_BIG <? 0) with false. change (DMA_PIECE_TOO_BIG =? DMA_PIECE_TOO_BIG) with true.
    cbv iota. unfold dma_inv, dma_measure. cbn [ds_done ds_piece ds_pending ds_host ds_rbuf length].
    unfold sumZ in *. cbn [foldr].
    pose proof (Z.div_lt (ds_piece s) 2). pose proof (Z.div_str_pos (ds_piece s) 2).
    split_and!; try done; try lia. constructor; [lia|done].
  - change (- EIO <? 0) with true. cbv iota. right. split; [done|]. exists (ds_done s). split; [lia|done].
  - change (0 <? 0) with false. change (0 =? DMA_PIECE_TOO_BIG) with false. cbv iota.
    destruct (ds_pending s) as [|p rest] eqn:Ep; rewrite ?Ep in *.
    + left. split; [done|]. replace len with (ds_done s + ds_piece s) by (unfold sumZ in *; cbn in *; lia). done.
    + apply list.Forall_cons in Hpend as [? ?]. unfold dma_inv, dma_measure. rewrite Ep.
      cbn [ds_done ds_piece ds_pending ds_host ds_rbuf length]. unfold sumZ in *. cbn [foldr] in *.
      split_and!; try done; lia.
Qed.

Lemma dma_loop_total fuel s :
  dma_inv s -> dma_measure s <= Z.of_nat fuel ->
  exists r, dma_xfer_loop fuel gpa w wbuf s = Some r /\ dma_post r.
Proof.
  revert s. induction fuel as [|fuel IH]; intros s Hi Hm.
  - pose proof (dma_measure_pos s Hi). lia.
  - cbn. pose proof (dma_iter_inv s Hi) as Hit.
    destruct (dma_xfer_iter gpa w wbuf s) as [s'|r].
    + apply IH; [apply Hit|]. lia.
    + eauto.
Qed.

Lemma dma_xfer_total :
  exists r, dma_xfer h0 gpa w rbuf0 wbuf len = Some r /\ dma_post r.
Proof.
  unfold dma_xfer, ernic_dma_range_ok. unfold fits in Hgpa.
  rewrite wrap_id by (unfold fits, UINT64_MAX; lia).
  replace (gpa <=? UINT64_MAX - len) with true by (symmetry; apply Z.leb_le; unfold UINT64_MAX; lia).
  replace (len =? 0) with false by (symmetry; apply Z.eqb_neq; lia). cbn [negb].
  apply dma_loop_total.
  - unfold dma_inv, sumZ. cbn. split_and!; try lia; [done|]. unfold xfer_upto. destruct w.
    + split; [done|]. intros x. by rewrite bool_decide_eq_false_2 by lia.
    + split_and!; auto.
  - unfold dma_measure, sumZ. cbn. lia.
Qed.
End loop.
End xfer_correct.

(** ** Whether a transfer succeeds does not depend on the bytes *)

Lemma iov_copy_done write iov wbuf off len done h rbuf h2 rbuf2 :
  (iov_copy write iov wbuf off len done h rbuf).1.1 =
  (iov_copy write iov wbuf off len done h2 rbuf2).1.1.
Proof.
  revert done h rbuf h2 rbuf2. induction iov as [|v iov IH]; intros; [done|].
  cbn [iov_copy]. destruct (done <? len); [|done]. destruct write; apply IH.
Qed.

Section perm.
Context `{VFU : Vfu}.

Lemma dma_piece_rc gpa w wbuf off len h rbuf h2 rbuf2 :
  (dma_xfer_piece gpa w wbuf off len h rbuf).1.1 =
  (dma_xfer_piece gpa w wbuf off len h2 rbuf2).1.1.
Proof.
  unfold dma_xfer_piece. destruct (vfu_addr_to_sgl gpa len w) as [cnt sg].
  repeat case_match; try done; simplify_eq.
  all: match goal with
  | H1 : iov_copy ?w ?i ?b ?o ?l ?d ?x ?y = _, H2 : iov_copy ?w ?i ?b ?o ?l ?d ?z ?t = _ |- _ =>
      pose proof (iov_copy_done w i b o l d x y z t) as Heq; rewrite H1, H2 in Heq; cbn in Heq
  end; cbn in *; congruence.
Qed.

Lemma dma_loop_rc fuel gpa w wbuf h rbuf h2 rbuf2 done piece pending :
  (fun r : Z * host * list Z => r.1.1) <$> dma_xfer_loop fuel gpa w wbuf (DmaSt h rbuf done piece pending) =
  (fun r : Z * host * list Z => r.1.1) <$> dma_xfer_loop fuel gpa w wbuf (DmaSt h2 rbuf2 done piece pending).
Proof.
  revert h rbuf h2 rbuf2 done piece pending. induction fuel as [|fuel IH]; intros; [done|].
  cbn [dma_xfer_loop]. unfold dma_xfer_iter. cbn [ds_done ds_piece ds_pending ds_host ds_rbuf].
  pose proof (dma_piece_rc (u64 (gpa + done)) w wbuf done piece h rbuf h2 rbuf2) as Hrc.
  destruct (dma_xfer_piece _ _ _ _ _ h rbuf) as [[rc h'] rbuf'].
  destruct (dma_xfer_piece _ _ _ _ _ h2 rbuf2) as [[rc2 h2'] rbuf2']. cbn in Hrc. subst rc2.
  destruct (rc <? 0); [done|]. destruct (rc =? DMA_PIECE_TOO_BIG); [apply IH|].
  destruct pending; [done|apply IH].
Qed.

Lemma dma_xfer_rc h h2 gpa w rbuf rbuf2 wbuf len :
  (fun r : Z * host * list Z => r.1.1) <$> dma_xfer h gpa w rbuf wbuf len =
  (fun r : Z * host * list Z => r.1.1) <$> dma_xfer h2 gpa w rbuf2 wbuf len.
Proof. unfold dma_xfer. repeat case_match; try done. apply dma_loop_rc. Qed.
End perm.

(** ** The interface, implemented *)

#[export] Instance ernic_dma_mem `{VfuLaws} : GuestMem host := {
  dma_read h a n :=
    match ernic_dma_read h a (zeros (Z.to_nat n)) n with
    | Some (rc, _, rbuf) => if rc =? 0 then Some rbuf else None
    | None => None
    end;
  dma_write h a bs :=
    match ernic_dma_write h a bs (Z.of_nat (length bs)) with
    | Some (rc, h', _) => (rc =? 0, h')
    | None => (false, h)
    end;
  peek := vfu_peek;
}.

Lemma dma_range_ok_iff gpa len :
  fits 64 gpa -> 0 <= len < 2 ^ 64 ->
  ernic_dma_range_ok gpa len = true <-> gpa + len < 2 ^ 64.
Proof.
  unfold fits, ernic_dma_range_ok. intros. rewrite wrap_id by (unfold fits, UINT64_MAX; lia).
  rewrite Z.leb_le. unfold UINT64_MAX. lia.
Qed.

Section interface.
Context `{VL : VfuLaws}.

Lemma ernic_dma_read_cases h gpa n :
  fits 64 gpa -> 0 <= n < 2 ^ 64 ->
  (exists rc h' rbuf, ernic_dma_read h gpa (zeros (Z.to_nat n)) n = Some (rc, h', rbuf) /\ rc < 0 /\ h' = h) \/
  (gpa + n < 2 ^ 64 /\
   ernic_dma_read h gpa (zeros (Z.to_nat n)) n = Some (0, h, vfu_peek h <$> seqZ gpa n)).
Proof.
  intros Hg Hn. unfold ernic_dma_read.
  destruct (decide (gpa + n < 2 ^ 64)) as [Hr|Hr].
  - destruct (decide (n = 0)) as [->|Hnz].
    + right. split; [done|]. unfold dma_xfer.
      by rewrite (proj2 (dma_range_ok_iff gpa 0 Hg ltac:(lia)) Hr).
    + destruct (dma_xfer_total gpa n false [] (zeros (Z.to_nat n)) h) as (r & -> & Hpost);
        try done; try lia.
      { intros _. unfold zeros. rewrite length_replicate. lia. }
      destruct r as [[rc h'] rbuf]. destruct Hpost as [(-> & -> & Hl & Ht)|(-> & d & _ & -> & _)].
      * right. split; [done|]. rewrite <-Ht, take_ge by lia. done.
      * left. eexists _, _, _. split; [done|]. done.
  - left. unfold dma_xfer. destruct (ernic_dma_range_ok gpa n) eqn:E.
    + apply dma_range_ok_iff in E; try done.
    + cbn. eexists _, _, _. split; [done|]. done.
Qed.

Lemma ernic_dma_write_cases h gpa bs :
  fits 64 gpa -> Z.of_nat (length bs) < 2 ^ 64 ->
  (exists rc h', ernic_dma_write h gpa bs (Z.of_nat (length bs)) = Some (rc, h', []) /\ rc < 0 /\
     forall x, ~ (gpa <= x < gpa + Z.of_nat (length bs) /\ gpa + Z.of_nat (length bs) < 2 ^ 64) -> vfu_peek h' x = vfu_peek h x) \/
  (gpa + Z.of_nat (length bs) < 2 ^ 64 /\ exists h',
   ernic_dma_write h gpa bs (Z.of_nat (length bs)) = Some (0, h', []) /\
   forall x, vfu_peek h' x =
     if bool_decide (gpa <= x < gpa + Z.of_nat (length bs))
     then u8 (bs !!! Z.to_nat (x - gpa)) else vfu_peek h x).
Proof.
  intros Hg Hn. unfold ernic_dma_write. set (n := Z.of_nat (length bs)) in *.
  destruct (decide (gpa + n < 2 ^ 64)) as [Hr|Hr].
  - destruct (decide (n = 0)) as [Hz|Hnz].
    + right. split; [done|]. unfold dma_xfer. rewrite Hz.
      rewrite (proj2 (dma_range_ok_iff gpa 0 Hg ltac:(lia))) by lia.
      exists h. split; [done|]. intros x. by rewrite bool_decide_eq_false_2 by lia.
    + destruct (dma_xfer_total gpa n true bs [] h) as (r & -> & Hpost); try done; try lia.
      destruct r as [[rc h'] rbuf]. destruct Hpost as [(-> & -> & Ht)|(-> & d & Hd & -> & Ht)].
      * right. split; [done|]. exists h'. done.
      * left. eexists _, _. split; [done|]. split; [done|]. intros x Hx. rewrite Ht.
        by rewrite bool_decide_eq_false_2 by lia.
  - left. unfold dma_xfer. destruct (ernic_dma_range_ok gpa n) eqn:E.
    + apply dma_range_ok_iff in E; try done. lia.
    + cbn. eexists _, _. split; [done|]. done.
Qed.

#[global] Instance ernic_dma_laws : GuestMemLaws host.
Proof.
  split.
  - intros m a. cbn. unfold vfu_peek, byte_ok.
    case_match; [apply wrap_fits; lia|unfold fits; lia].
  - intros m a n bs Ha Hn. cbn.
    destruct (ernic_dma_read_cases m a n Ha Hn) as [(rc & h' & rbuf & -> & Hrc & _)|[? ->]].
    + replace (rc =? 0) with false by (symmetry; apply Z.eqb_neq; lia). done.
    + cbn. intros. by simplify_eq.
  - intros m a bs m' Ha Hn. cbn.
    destruct (ernic_dma_write_cases m a bs Ha Hn) as [(rc & h' & -> & Hrc & _)|(? & h' & -> & Hp)].
    + replace (rc =? 0) with false by (symmetry; apply Z.eqb_neq; lia). intros; simplify_eq.
    + cbn. intros; simplify_eq. done.
  - intros m a bs ok m' Ha Hn. cbn.
    destruct (ernic_dma_write_cases m a bs Ha Hn) as [(rc & h' & -> & Hrc & Hp)|(? & h' & -> & Hp)];
      intros ? x Hx; simplify_eq; [by apply Hp|].
    rewrite Hp. by rewrite bool_decide_eq_false_2 by lia.
  - intros m a bs x n. cbn.
    destruct (ernic_dma_write m a bs _) as [[[rc h'] ?]|]; [|done]. cbn.
    pose proof (dma_xfer_rc h' m x false (zeros (Z.to_nat n)) (zeros (Z.to_nat n)) [] n) as Hrc.
    unfold ernic_dma_read.
    destruct (dma_xfer h' x _ _ _ _) as [[[r1 ?] ?]|], (dma_xfer m x _ _ _ _) as [[[r2 ?] ?]|];
      cbn in Hrc; simplify_eq; [|done].
    destruct (r2 =? 0); [split; intros; eauto|done].
  - intros m a bs x cs. cbn.
    destruct (ernic_dma_write m a bs _) as [[[rc h'] ?]|]; [|done]. cbn.
    pose proof (dma_xfer_rc h' m x true [] [] cs (Z.of_nat (length cs))) as Hrc.
    unfold ernic_dma_write.
    destruct (dma_xfer h' x _ _ _ _) as [[[r1 ?] ?]|], (dma_xfer m x _ _ _ _) as [[[r2 ?] ?]|];
      cbn in Hrc; by simplify_eq.
Qed.
End interface.

(** ** The split stack fits its array

    [pending] holds one entry per bit of size_t, 64 of them. *)

Definition dma_step `{Vfu} (gpa : Z) (w : bool) (wbuf : list Z) (s s' : dma_st) : Prop :=
  dma_xfer_iter gpa w wbuf s = inl s'.

Definition DMA_PENDING_SLOTS : Z := 64.

Section stack.
Context `{VFU : Vfu} (gpa len : Z) (w : bool) (wbuf : list Z).

(** A piece at depth [k] of the splitting is at most [len / 2^k] rounded up,
    which [(p - 1) * 2^k < len] says without the division. *)
Fixpoint stack_ok (pending : list Z) : Prop :=
  match pending with
  | [] => True
  | p :: rest => 1 <= p /\ (p - 1) * 2 ^ Z.of_nat (length pending) < len /\ stack_ok rest
  end.

Definition depth_ok (s : dma_st) : Prop :=
  1 <= ds_piece s /\ (ds_piece s - 1) * 2 ^ Z.of_nat (length (ds_pending s)) < len /\
  stack_ok (ds_pending s) /\ Z.of_nat (length (ds_pending s)) <= DMA_PENDING_SLOTS.

Lemma dma_piece_big g off n h rbuf h' rbuf' :
  dma_xfer_piece g w wbuf off n h rbuf = (DMA_PIECE_TOO_BIG, h', rbuf') -> 1 < n.
Proof.
  unfold dma_xfer_piece, DMA_PIECE_TOO_BIG, EIO. intros Hp.
  repeat case_match; simplify_eq; bdestr; try done.
Qed.

Lemma depth_ok_step s s' : len < 2 ^ 64 -> depth_ok s -> dma_step gpa w wbuf s s' -> depth_ok s'.
Proof.
  intros Hlen (Hp & Hd & Hst & Hn) Hstep. unfold dma_step, dma_xfer_iter in Hstep.
  destruct (dma_xfer_piece _ _ _ _ _ _ _) as [[rc h'] rbuf'] eqn:E.
  destruct (rc <? 0); [done|]. unfold depth_ok.
  set (k := Z.of_nat (length (ds_pending s))) in *. assert (0 <= k) by lia.
  destruct (rc =? DMA_PIECE_TOO_BIG) eqn:Er; bdestr.
  - subst rc. apply dma_piece_big in E. simplify_eq.
    cbn [ds_piece ds_pending length stack_ok].
    assert (Z.of_nat (S (length (ds_pending s))) = k + 1) as -> by lia.
    rewrite Z.pow_add_r by lia. change (2 ^ 1) with 2.
    assert (k < 64).
    { apply (Z.pow_lt_mono_r_iff 2); try lia. nia. }
    pose proof (Z.div_mod (ds_piece s) 2 ltac:(lia)).
    pose proof (Z.mod_pos_bound (ds_piece s) 2 ltac:(lia)).
    pose proof (Z.pow_pos_nonneg 2 k ltac:(lia) ltac:(lia)).
    unfold DMA_PENDING_SLOTS. split_and!; try nia; done.
  - destruct (ds_pending s) as [|p rest] eqn:Ep; [done|]. simplify_eq.
    cbn [ds_piece ds_pending]. destruct Hst as (? & ? & ?). cbn [length] in *.
    assert (Z.of_nat (S (length rest)) = Z.of_nat (length rest) + 1) as Hk by lia.
    rewrite Hk, Z.pow_add_r in * by lia. change (2 ^ 1) with 2 in *.
    pose proof (Z.pow_pos_nonneg 2 (Z.of_nat (length rest)) ltac:(lia) ltac:(lia)).
    split_and!; try nia; done.
Qed.

Lemma depth_ok_reach s s' :
  len < 2 ^ 64 -> rtc (dma_step gpa w wbuf) s s' -> depth_ok s -> depth_ok s'.
Proof. intros Hlen. induction 1; eauto using depth_ok_step. Qed.
End stack.

(** ** Theorems about ernic_dma.c *)

(** A DMA write of any buffer to any guest address returns; it returns 0
    with exactly the bytes of the range replaced by the buffer's, or a
    negative errno with every byte outside the range untouched, and a range
    that would wrap the address space is always refused. *)
Theorem dma_write_exact `{VfuLaws} (h : host) (gpa : Z) (bs : list Z) :
  fits 64 gpa -> Z.of_nat (length bs) < 2 ^ 64 ->
  exists rc h', ernic_dma_write h gpa bs (Z.of_nat (length bs)) = Some (rc, h', []) /\
    (forall x, ~ (gpa <= x < gpa + Z.of_nat (length bs)) -> vfu_peek h' x = vfu_peek h x) /\
    (rc = 0 \/ rc < 0) /\ (2 ^ 64 <= gpa + Z.of_nat (length bs) -> rc < 0) /\
    (rc = 0 -> forall i b, bs !! i = Some b -> vfu_peek h' (gpa + Z.of_nat i) = u8 b).
Proof.
  intros Hg Hn.
  destruct (ernic_dma_write_cases h gpa bs Hg Hn) as [(rc & h' & -> & ? & Hf)|(? & h' & -> & Hp)].
  - exists rc, h'. split_and!; try done; [intros x Hx; apply Hf; tauto|by right|lia].
  - exists 0, h'. split_and!; try done; [|by left|lia|].
    + intros x Hx. rewrite Hp. by rewrite bool_decide_eq_false_2.
    + intros _ i b Hi. rewrite Hp. pose proof (lookup_lt_Some _ _ _ Hi).
      rewrite bool_decide_eq_true_2 by lia. f_equal.
      apply list_lookup_total_correct. rewrite <-Hi. f_equal. lia.
Qed.

(** A DMA read of any range returns; when it returns 0 the buffer holds
    exactly the guest's bytes, guest memory is never changed, and a range that
    would wrap is refused. *)
Theorem dma_read_exact `{VfuLaws} (h : host) (gpa n : Z) :
  fits 64 gpa -> 0 <= n < 2 ^ 64 ->
  exists rc rbuf, ernic_dma_read h gpa (zeros (Z.to_nat n)) n = Some (rc, h, rbuf) /\
    (rc = 0 \/ rc < 0) /\ (2 ^ 64 <= gpa + n -> rc < 0) /\
    (rc = 0 -> rbuf = vfu_peek h <$> seqZ gpa n).
Proof.
  intros Hg Hn.
  destruct (ernic_dma_read_cases h gpa n Hg Hn) as [(rc & h' & rbuf & -> & ? & ->)|[? ->]].
  - exists rc, rbuf. split_and!; try done; [by right|lia].
  - exists 0, (vfu_peek h <$> seqZ gpa n). split_and!; try done; [by left|lia].
Qed.

(** However fragmented the guest's memory is, the stack of split pieces
    of a transfer of any size_t length never outgrows the 64-entry array. *)
Theorem dma_pending_bound `{Vfu} (gpa len : Z) (w : bool) (wbuf rbuf : list Z) (h : host) (s : dma_st) :
  0 < len < 2 ^ 64 ->
  rtc (dma_step gpa w wbuf) (DmaSt h rbuf 0 len []) s ->
  Z.of_nat (length (ds_pending s)) <= DMA_PENDING_SLOTS.
Proof.
  intros Hlen Hr.
  destruct (depth_ok_reach gpa len w wbuf _ _ ltac:(lia) Hr) as (_ & _ & _ & ?); [|done].
  unfold depth_ok, DMA_PENDING_SLOTS. cbn. lia.
Qed.

(** ** A concrete libvfio-user: [size] bytes of guest RAM at 0, mapped at
    [base], with at most [frag] bytes per list. *)
Definition flat_vfu (base size frag : Z) : Vfu := {|
  vfu_sgl := list iovec;
  vfu_addr_to_sgl gpa len w :=
    if (0 <=? gpa) && (gpa + len <=? size) then
      if len <=? frag then (1, [Iovec (base + gpa) len]) else (- len - 1, [])
    else (-1, []);
  vfu_sgl_get sg cnt := Some sg;
|}.

Program Definition flat_laws (base size frag : Z) : @VfuLaws (flat_vfu base size frag) := {|
  vfu_xlate a := if (0 <=? a) && (a <? size) then Some (base + a) else None;
|}.
Next Obligation. intros base size frag a b x Ha Hb. cbn in *. repeat case_match; simplify_eq; lia. Qed.
Next Obligation.
  intros base size frag gpa len w cnt sg iov Hlen Hcall Hcnt Hget. cbn in *.
  destruct ((0 <=? gpa) && (gpa + len <=? size)) eqn:E; bdestr; [|simplify_eq; lia].
  destruct (len <=? frag); simplify_eq; [|lia]. split; [constructor; [cbn; lia|done]|].
  unfold iov_bytes. cbn. rewrite app_nil_r. apply list_eq. intros i.
  rewrite !list_lookup_fmap.
  destruct (decide (i < Z.to_nat len)%nat).
  - rewrite !lookup_seqZ_lt by lia. cbn.
    replace ((0 <=? gpa + Z.of_nat i) && (gpa + Z.of_nat i <? size)) with true by (symmetry; apply andb_true_iff; rewrite Z.leb_le, Z.ltb_lt; lia).
    f_equal. f_equal. lia.
  - rewrite !lookup_seqZ_ge by lia. done.
Qed.

(** Sixteen bytes of guest RAM behind a device that maps two bytes at a time:
    every transfer of more is split. *)
Definition ex_host : host := host_write ∅ 4096 [7; 1; 2; 3; 4; 5; 6; 9].

Lemma dma_write_exact_witness :
  exists rc h', ernic_dma_write (VFU := flat_vfu 4096 16 2) ex_host 1 [10; 11; 12; 13; 14] 5
      = Some (rc, h', []) /\
    (rc = 0 -> vfu_peek (H0 := flat_laws 4096 16 2) h' 3 = 12).
Proof.
  destruct (@dma_write_exact (flat_vfu 4096 16 2) (flat_laws 4096 16 2) ex_host 1 [10; 11; 12; 13; 14])
    as (rc & h' & Hw & _ & _ & _ & Hb).
  - vm_compute. split; congruence.
  - vm_compute. reflexivity.
  - exists rc, h'. split; [exact Hw|]. intros Hrc. exact (Hb Hrc 2%nat 12 eq_refl).
Defined.

Lemma dma_read_exact_witness :
  exists rc rbuf, ernic_dma_read (VFU := flat_vfu 4096 16 2) ex_host 1 (zeros 7) 7
      = Some (rc, ex_host, rbuf) /\ (rc = 0 -> rbuf = [1; 2; 3; 4; 5; 6; 9]).
Proof.
  destruct (@dma_read_exact (flat_vfu 4096 16 2) (flat_laws 4096 16 2) ex_host 1 7)
    as (rc & rbuf & Hw & _ & _ & Hb).
  - vm_compute. split; congruence.
  - vm_compute. split; congruence.
  - exists rc, rbuf. split; [exact Hw|]. intros Hrc. rewrite (Hb Hrc). vm_compute. reflexivity.
Defined.

Example dma_split_runs :
  (fun r : Z * host * list Z => (r.1.1, r.2)) <$>
    ernic_dma_read (VFU := flat_vfu 4096 16 2) ex_host 1 (zeros 7) 7 = Some (0, [1; 2; 3; 4; 5; 6; 9]).
Proof. vm_compute. reflexivity. Qed.

Lemma dma_pending_bound_witness :
  exists s, rtc (dma_step (H := flat_vfu 4096 16 2) 1 false []) (DmaSt ex_host (zeros 7) 0 7 []) s /\
    ds_pending s = [2; 4] /\ Z.of_nat (length (ds_pending s)) <= DMA_PENDING_SLOTS.
Proof.
  assert (rtc (dma_step (H := flat_vfu 4096 16 2) 1 false []) (DmaSt ex_host (zeros 7) 0 7 [])
            (DmaSt ex_host (zeros 7) 0 1 [2; 4])) as Hr.
  { eapply rtc_l; [reflexivity|]. eapply rtc_l; [reflexivity|]. apply rtc_refl. }
  eexists. split; [exact Hr|]. split; [reflexivity|].
  apply (@dma_pending_bound (flat_vfu 4096 16 2) 1 7 false [] (zeros 7) ex_host); [lia|exact Hr].
Defined.
