(* ===== verification/NetHeaders.v ===== *)
(** * GIDs, the Internet checksum and the header of a UD receive

    ernic_gid.h, the checksum of net/net_headers.h, and the 40-byte header the
    data path puts in front of a datagram (dp_grh_ipv6() to dp_grh_is_ipv4()
    of ionic_datapath.c). *)
From S2P Require Export Prelude ByteOrder.

Definition ERNIC_GID_LEN : nat := 16.
Definition ERNIC_GID_V4_OFF : nat := 12.
Definition ERNIC_GID_V4_LEN : nat := 4.
Definition ETH_ADDR_LEN : nat := 6.
Definition IB_GRH_SIZE : nat := 40.
Definition IB_GRH_NEXT_HDR : Z := 0x1b.
Definition IP_HDR_LEN : nat := 20.
Definition IP_VERSION : Z := 4.
Definition IP_VERSION_SHIFT : Z := 4.
Definition IP_VERSION_IHL_NO_OPTIONS : Z := 0x45.
Definition IP_VERSION_IHL_OFF : nat := 0.
Definition IP_TOTAL_LEN_OFF : nat := 2.
Definition IP_TTL_OFF : nat := 8.
Definition IP_PROTOCOL_OFF : nat := 9.
Definition IP_CHECKSUM_OFF : nat := 10.
Definition IP_SRC_OFF : nat := 12.
Definition IP_DST_OFF : nat := 16.
Definition IP_PROTOCOL_UDP : Z := 17.
Definition IP6_VERSION : Z := 6.
Definition IP6_VERSION_SHIFT : Z := 4.
Definition IP6_PAYLOAD_OFF : nat := 4.
Definition IP6_NEXT_HDR_OFF : nat := 6.
Definition IP6_HOP_LIMIT_OFF : nat := 7.
Definition IP6_SRC_OFF : nat := 8.
Definition IP6_DST_OFF : nat := 24.

(** ** GIDs *)

Definition ernic_gid_v4_prefix : list Z := zeros 10 ++ [0xff; 0xff].

Definition ernic_gid_from_ipv4 (addr : list Z) : list Z :=
  ernic_gid_v4_prefix ++ take ERNIC_GID_V4_LEN addr.

Definition ernic_gid_is_v4mapped (gid : list Z) : bool :=
  bool_decide (take ERNIC_GID_V4_OFF gid = ernic_gid_v4_prefix).

(** ** The Internet checksum *)

(** The [while (len > 1)] loop and the odd byte after it. *)
Fixpoint csum_words (sum : Z) (data : list Z) : Z :=
  match data with
  | a :: b :: rest => csum_words (u32 (sum + Z.lor (Z.shiftl a 8) b)) rest
  | [a] => u32 (sum + Z.shiftl a 8)
  | [] => sum
  end.

(** The [while (sum >> 16)] loop; two turns are enough for 32 bits. *)
Fixpoint csum_carry (fuel : nat) (sum : Z) : Z :=
  match fuel with
  | O => sum
  | S fuel' =>
      if Z.shiftr sum 16 =? 0 then sum
      else csum_carry fuel' (Z.land sum 0xffff + Z.shiftr sum 16)
  end.

Definition net_csum_add (sum : Z) (data : list Z) : Z := csum_carry 2 (csum_words sum data).

Definition net_csum_fold (sum : Z) : Z := u16 (Z.lnot (csum_carry 2 sum)).

(** ** The header of a UD receive *)

Definition dp_grh_ipv6 (paylen : Z) (sgid dgid : option (list Z)) : list Z :=
  let grh := zeros IB_GRH_SIZE in
  let grh := bput grh 0 [u8 (Z.shiftl IP6_VERSION IP6_VERSION_SHIFT)] in
  let grh := ernic_put_be16 grh IP6_PAYLOAD_OFF (u16 paylen) in
  let grh := bput grh IP6_NEXT_HDR_OFF [IB_GRH_NEXT_HDR] in
  let grh := bput grh IP6_HOP_LIMIT_OFF [64] in
  let grh := match sgid with Some g => bput grh IP6_SRC_OFF (take ERNIC_GID_LEN g) | None => grh end in
  match dgid with Some g => bput grh IP6_DST_OFF (take ERNIC_GID_LEN g) | None => grh end.

(** The IPv4 header, before its checksum; it is the last 20 bytes. *)
Definition dp_grh_ipv4_hdr (paylen : Z) (sgid dgid : list Z) : list Z :=
  let ip := zeros IP_HDR_LEN in
  let ip := bput ip IP_VERSION_IHL_OFF [IP_VERSION_IHL_NO_OPTIONS] in
  let ip := ernic_put_be16 ip IP_TOTAL_LEN_OFF (u16 (Z.of_nat IP_HDR_LEN + paylen)) in
  let ip := bput ip IP_TTL_OFF [64] in
  let ip := bput ip IP_PROTOCOL_OFF [IP_PROTOCOL_UDP] in
  let ip := bput ip IP_SRC_OFF (bslice sgid ERNIC_GID_V4_OFF ERNIC_GID_V4_LEN) in
  bput ip IP_DST_OFF (bslice dgid ERNIC_GID_V4_OFF ERNIC_GID_V4_LEN).

Definition dp_grh_ipv4 (paylen : Z) (sgid dgid : list Z) : list Z :=
  let ip := dp_grh_ipv4_hdr paylen sgid dgid in
  let ip := ernic_put_be16 ip IP_CHECKSUM_OFF (net_csum_fold (net_csum_add 0 ip)) in
  zeros (IB_GRH_SIZE - IP_HDR_LEN) ++ ip.

Definition ionic_dp_grh_build (paylen : Z) (sgid dgid : option (list Z)) : list Z :=
  match sgid, dgid with
  | Some s, Some d =>
      if ernic_gid_is_v4mapped s && ernic_gid_is_v4mapped d then dp_grh_ipv4 paylen s d
      else dp_grh_ipv6 paylen sgid dgid
  | _, _ => dp_grh_ipv6 paylen sgid dgid
  end.

(** [None] is a NULL [grh]. *)
Definition dp_grh_is_ipv4 (grh : option (list Z)) (len : Z) : bool :=
  match grh with
  | None => false
  | Some g =>
      (Z.of_nat IB_GRH_SIZE <=? len) &&
      negb (Z.shiftr (bat g 0 0) IP6_VERSION_SHIFT =? IP6_VERSION) &&
      (Z.shiftr (bat g (IB_GRH_SIZE - IP_HDR_LEN) 0) IP_VERSION_SHIFT =? IP_VERSION)
  end.

(** ** The checksum's meaning *)

(** One's-complement reduction of a sum. *)
Definition ones_sum (s : Z) : Z := if s =? 0 then 0 else 1 + (s - 1) mod 65535.

Lemma csum_carry_S n s :
  csum_carry (S n) s = if s / 65536 =? 0 then s else csum_carry n (s mod 65536 + s / 65536).
Proof.
  cbn [csum_carry]. change 0xffff with (2 ^ 16 - 1).
  by rewrite land_mask, Z.shiftr_div_pow2 by lia.
Qed.

Lemma csum_carry_ones s : fits 32 s -> csum_carry 2 s = ones_sum s /\ fits 16 (csum_carry 2 s).
Proof.
  unfold fits, ones_sum. intros Hs. rewrite !csum_carry_S.
  pose proof (Z.div_mod s 65536 ltac:(lia)) as Hdm.
  pose proof (Z.mod_pos_bound s 65536 ltac:(lia)).
  assert (0 <= s / 65536 < 65536) by (split; [apply Z.div_pos|apply Z.div_lt_upper_bound]; lia).
  set (q := s / 65536) in *. set (r := s mod 65536) in *. clearbody q r. subst s.
  destruct (q =? 0) eqn:Hq; bdestr.
  { subst q. destruct (_ =? 0) eqn:?; bdestr; [lia|]. rewrite Z.mod_small by lia. lia. }
  assert ((r + q) / 65536 = if 65536 <=? r + q then 1 else 0) as Hd.
  { case_match; bdestr; [|apply Z.div_small; lia]. symmetry.
    apply (Z.div_unique _ _ _ (r + q - 65536)); lia. }
  rewrite (proj2 (Z.eqb_neq (65536 * q + r) 0)) by lia.
  assert ((65536 * q + r - 1) mod 65535 = if 65536 <=? r + q then r + q - 65536 else r + q - 1) as ->.
  { symmetry. case_match; bdestr.
    - apply (Z.mod_unique _ _ (q + 1)); lia.
    - apply (Z.mod_unique _ _ q); lia. }
  rewrite Z.mod_eq, Hd by lia. cbn [csum_carry].
  destruct (65536 <=? r + q) eqn:?; bdestr; cbn [Z.eqb]; lia.
Qed.

Lemma ones_sum_complement s :
  0 <= s -> ones_sum (s + (65535 - ones_sum s)) = 65535.
Proof.
  intros Hs. unfold ones_sum at 2. destruct (s =? 0) eqn:?; bdestr; [subst; done|].
  pose proof (Z.mod_pos_bound (s - 1) 65535 ltac:(lia)) as Hm.
  pose proof (Z.div_mod (s - 1) 65535 ltac:(lia)) as Hdm.
  unfold ones_sum. rewrite (proj2 (Z.eqb_neq _ 0)) by lia.
  replace (s + (65535 - (1 + (s - 1) mod 65535)) - 1) with (65534 + ((s - 1) / 65535) * 65535) by lia.
  rewrite Z_mod_plus_full. done.
Qed.

Lemma net_csum_fold_ones s : fits 32 s -> net_csum_fold s = 65535 - ones_sum s.
Proof.
  intros Hs. unfold net_csum_fold. destruct (csum_carry_ones s Hs) as [-> Hf].
  unfold Z.lnot, wrap, fits in *. change (2 ^ 16) with 65536 in *.
  symmetry. apply (Z.mod_unique _ _ (-1)); lia.
Qed.

(** The words of an even-length buffer, added without a carry out of 32 bits. *)
Fixpoint be_words (data : list Z) : Z :=
  match data with
  | a :: b :: rest => a * 256 + b + be_words rest
  | _ => 0
  end.

Lemma pair_ind (P : list Z -> Prop) :
  P [] -> (forall a, P [a]) -> (forall a b l, P l -> P (a :: b :: l)) -> forall l, P l.
Proof. intros H0 H1 H2. fix F 1. intros [|a [|b l]]; [done|apply H1|apply H2, F]. Qed.

Lemma csum_words_be data sum :
  bytes_ok data -> Nat.even (length data) = true -> 0 <= sum ->
  sum + Z.of_nat (length data) * 65536 < 2 ^ 32 ->
  csum_words sum data = sum + be_words data /\ 0 <= be_words data <= Z.of_nat (length data) * 65536.
Proof.
  revert sum. induction data as [| |a b l IH] using pair_ind; intros sum Hok He H0 Hlt; try done.
  { cbn. lia. }
  apply list.Forall_cons in Hok as [Ha [Hb Hl]%list.Forall_cons]. unfold byte_ok, fits in *.
  cbn [length] in Hlt. cbn [csum_words be_words].
  assert (Z.lor (Z.shiftl a 8) b = a * 256 + b) as ->.
  { rewrite Z.lor_comm, lor_shl_add by lia. lia. }
  rewrite (wrap_id 32) by (unfold fits; lia).
  destruct (IH (sum + (a * 256 + b))) as [-> ?]; try done; try lia. cbn [length]. lia.
Qed.

Lemma csum_add_even data :
  bytes_ok data -> Nat.even (length data) = true -> Z.of_nat (length data) * 65536 < 2 ^ 32 ->
  net_csum_add 0 data = ones_sum (be_words data) /\ fits 32 (be_words data).
Proof.
  intros Hok He Hl. destruct (csum_words_be data 0 Hok He ltac:(lia) ltac:(lia)) as [Hw Hb].
  assert (fits 32 (be_words data)) by (unfold fits; lia). split; [|done].
  unfold net_csum_add. rewrite Hw. by apply csum_carry_ones.
Qed.

Lemma fits_ones_sum s : fits 32 s -> fits 16 (ones_sum s).
Proof. intros Hs. destruct (csum_carry_ones s Hs) as [<- ?]. done. Qed.

Lemma ones_sum_idem s : fits 16 (ones_sum s) -> ones_sum (ones_sum s) = ones_sum s.
Proof.
  unfold ones_sum, fits. intros. destruct (s =? 0) eqn:?; bdestr; [done|].
  pose proof (Z.mod_pos_bound (s - 1) 65535 ltac:(lia)).
  rewrite (proj2 (Z.eqb_neq _ 0)) by lia.
  replace (1 + (s - 1) mod 65535 - 1) with ((s - 1) mod 65535) by lia. by rewrite Z.mod_mod.
Qed.

(** *** The IPv4 form *)

Definition gid_v4 (gid : list Z) : list Z := bslice gid ERNIC_GID_V4_OFF ERNIC_GID_V4_LEN.

Lemma gid_v4_shape gid :
  length gid = ERNIC_GID_LEN -> bytes_ok gid ->
  exists a b c d, gid_v4 gid = [a; b; c; d] /\ bytes_ok [a; b; c; d].
Proof.
  intros Hl Hb. pose proof (bslice_ok gid ERNIC_GID_V4_OFF ERNIC_GID_V4_LEN Hb) as Hok.
  assert (length (gid_v4 gid) = 4%nat) as H4.
  { unfold gid_v4, bslice. rewrite length_take, length_drop, Hl. done. }
  unfold gid_v4 in *. destruct (bslice _ _ _) as [|a [|b [|c [|d [|]]]]] eqn:He; try done.
  exists a, b, c, d. done.
Qed.

Lemma u16_bytes v : u8 (Z.shiftr (u16 v) 8) * 256 + u8 (u16 v) = u16 v.
Proof.
  unfold wrap. rewrite Z.shiftr_div_pow2 by lia. change (2 ^ 16) with 65536. change (2 ^ 8) with 256.
  pose proof (Z.mod_pos_bound v 65536 ltac:(lia)) as Hb. set (x := v mod 65536) in *.
  assert (0 <= x / 256 < 256) by (split; [apply Z.div_pos|apply Z.div_lt_upper_bound]; lia).
  rewrite (Z.mod_small (x / 256)) by lia. pose proof (Z.div_mod x 256 ltac:(lia)). lia.
Qed.

Section grh.
Context (paylen : Z) (sgid dgid : list Z).
Context (Hs : length sgid = ERNIC_GID_LEN) (Hd : length dgid = ERNIC_GID_LEN).
Context (Hsb : bytes_ok sgid) (Hdb : bytes_ok dgid).

Lemma ipv4_hdr_shape : exists h l s0 s1 s2 s3 d0 d1 d2 d3,
  gid_v4 sgid = [s0; s1; s2; s3] /\ gid_v4 dgid = [d0; d1; d2; d3] /\
  bytes_ok [0x45; 0; h; l; 0; 0; 0; 0; 64; 17; 0; 0; s0; s1; s2; s3; d0; d1; d2; d3] /\
  h * 256 + l = u16 (20 + paylen) /\
  dp_grh_ipv4_hdr paylen sgid dgid =
    [0x45; 0; h; l; 0; 0; 0; 0; 64; 17; 0; 0; s0; s1; s2; s3; d0; d1; d2; d3].
Proof.
  destruct (gid_v4_shape sgid Hs Hsb) as (s0 & s1 & s2 & s3 & Hse & Hsok).
  destruct (gid_v4_shape dgid Hd Hdb) as (d0 & d1 & d2 & d3 & Hde & Hdok).
  set (v := u16 (20 + paylen)).
  exists (u8 (Z.shiftr v 8)), (u8 v), s0, s1, s2, s3, d0, d1, d2, d3.
  split_and!; try done.
  - bytes_solve.
  - apply u16_bytes.
  - unfold dp_grh_ipv4_hdr. fold (gid_v4 sgid) (gid_v4 dgid). rewrite Hse, Hde. reflexivity.
Qed.

(** The header checks out at the receiver, holds the payload's length, and
    the addresses are where struct iphdr has them. *)
Lemma grh_ipv4_ok :
  let g := dp_grh_ipv4 paylen sgid dgid in
  let ip := drop 20 g in
  length g = IB_GRH_SIZE /\ bytes_ok g /\ take 20 g = zeros 20 /\
  net_csum_fold (net_csum_add 0 ip) = 0 /\
  ernic_get_be16 g 22 = u16 (20 + paylen) /\
  bslice g 32 4 = gid_v4 sgid /\ bslice g 36 4 = gid_v4 dgid /\
  bat g 20 0 = 0x45 /\ bat g 0 0 = 0.
Proof.
  cbn zeta. unfold dp_grh_ipv4.
  destruct ipv4_hdr_shape as (h & l & s0 & s1 & s2 & s3 & d0 & d1 & d2 & d3 & Hse & Hde & Hok & Hhl & ->).
  set (ip0 := [0x45; 0; h; l; 0; 0; 0; 0; 64; 17; 0; 0; s0; s1; s2; s3; d0; d1; d2; d3]) in *.
  pose proof (csum_add_even ip0 Hok eq_refl ltac:(cbn; lia)) as [Hadd Hf32].
  set (c := net_csum_fold (net_csum_add 0 ip0)).
  assert (c = 65535 - ones_sum (be_words ip0)) as Hc.
  { subst c. pose proof (fits_ones_sum _ Hf32) as Hf16.
    rewrite Hadd, net_csum_fold_ones, ones_sum_idem; [done|done|unfold fits in *; lia]. }
  set (ip1 := [0x45; 0; h; l; 0; 0; 0; 0; 64; 17; u8 (Z.shiftr c 8); u8 c; s0; s1; s2; s3; d0; d1; d2; d3]).
  assert (ernic_put_be16 ip0 IP_CHECKSUM_OFF c = ip1) as -> by reflexivity.
  assert (bytes_ok ip1) as Hok1.
  { subst ip0 ip1. bytes_solve. }
  assert (u8 (Z.shiftr c 8) * 256 + u8 c = c) as Hcb.
  { rewrite <-(wrap_id 16 c); [apply u16_bytes|]. rewrite Hc. pose proof (fits_ones_sum _ Hf32). unfold fits in *. lia. }
  assert (be_words ip1 = be_words ip0 + (65535 - ones_sum (be_words ip0))) as Hw1.
  { rewrite <-Hc, <-Hcb at 1. subst ip0 ip1. cbn [be_words]. lia. }
  change (drop 20 (zeros (IB_GRH_SIZE - IP_HDR_LEN) ++ ip1)) with ip1.
  assert (bytes_ok (zeros (IB_GRH_SIZE - IP_HDR_LEN) ++ ip1)) as Hokg.
  { apply Forall_app_2; [apply zeros_ok|done]. }
  split_and!; try done.
  - destruct (csum_add_even ip1 Hok1 eq_refl ltac:(cbn; lia)) as [-> _].
    rewrite Hw1, ones_sum_complement by (unfold fits in *; lia). reflexivity.
  - rewrite <-Hhl, get_be16_arith by done. cbn. lia.
Qed.
End grh.

(** *** The IPv6 form *)

Definition gid_ok (gid : option (list Z)) : Prop :=
  match gid with Some g => length g = ERNIC_GID_LEN /\ bytes_ok g | None => True end.

Definition gid_or_zero (gid : option (list Z)) : list Z := default (zeros ERNIC_GID_LEN) gid.

Lemma grh_ipv6_eq paylen sgid dgid :
  gid_ok sgid -> gid_ok dgid ->
  dp_grh_ipv6 paylen sgid dgid =
    [0x60; 0; 0; 0] ++ be16_bytes (u16 paylen) ++ [0x1b; 64] ++ gid_or_zero sgid ++ gid_or_zero dgid.
Proof.
  intros Hs Hd. unfold dp_grh_ipv6, gid_or_zero, gid_ok, ERNIC_GID_LEN in *.
  destruct sgid as [sg|]; [destruct Hs as [Hs _]; do 16 (destruct sg as [|? sg]; [done|]); destruct sg; [|done]|];
  (destruct dgid as [dg|]; [destruct Hd as [Hd _]; do 16 (destruct dg as [|? dg]; [done|]); destruct dg; [|done]|]);
  reflexivity.
Qed.

Lemma grh_ipv6_ok paylen sgid dgid :
  gid_ok sgid -> gid_ok dgid ->
  let g := dp_grh_ipv6 paylen sgid dgid in
  length g = IB_GRH_SIZE /\ bat g 0 0 = 0x60 /\ ernic_get_be16 g 4 = u16 paylen /\
  bslice g 8 16 = gid_or_zero sgid /\ bslice g 24 16 = gid_or_zero dgid.
Proof.
  intros Hs Hd. cbn zeta. rewrite grh_ipv6_eq by done.
  assert (forall g, gid_ok g -> length (gid_or_zero g) = 16%nat) as Hl.
  { by intros [g|] Hg; [apply Hg|]. }
  pose proof (Hl _ Hs) as Hls. pose proof (Hl _ Hd) as Hld.
  set (sg := gid_or_zero sgid) in *. set (dg := gid_or_zero dgid) in *. clearbody sg dg.
  split_and!.
  - rewrite !length_app, Hls, Hld. done.
  - done.
  - unfold ernic_get_be16. cbn. rewrite Z.lor_comm, lor_shl_add; [|lia|apply wrap_fits; lia].
    rewrite Z.add_comm. change (2 ^ 8) with 256. rewrite u16_bytes. by apply wrap_wrap.
  - change (take 16 (sg ++ dg) = sg). by rewrite take_app_le, take_ge by lia.
  - change (take 16 (drop 16 (sg ++ dg)) = dg). by rewrite drop_app_le, drop_ge, take_ge by (cbn; lia).
Qed.

Definition grh_v4 (sgid dgid : option (list Z)) : bool :=
  match sgid, dgid with
  | Some s, Some d => ernic_gid_is_v4mapped s && ernic_gid_is_v4mapped d
  | _, _ => false
  end.

(** The 40-byte header built in front of a datagram is read back in the
    form it was built in: the completion's IPv4 flag is set exactly when both
    GIDs are IPv4-mapped, and then the last 20 bytes are an IPv4 header whose
    checksum verifies, with its total length and both addresses in place;
    otherwise it is a GRH with version 6 and the two GIDs at offsets 8 and 24
    (zero where there is none). *)
Theorem grh_build_correct (paylen : Z) (sgid dgid : option (list Z)) :
  gid_ok sgid -> gid_ok dgid ->
  let g := ionic_dp_grh_build paylen sgid dgid in
  length g = IB_GRH_SIZE /\
  dp_grh_is_ipv4 (Some g) (Z.of_nat IB_GRH_SIZE) = grh_v4 sgid dgid /\
  (grh_v4 sgid dgid = true ->
     net_csum_fold (net_csum_add 0 (drop 20 g)) = 0 /\
     ernic_get_be16 g 22 = u16 (20 + paylen) /\
     bslice g 32 4 = gid_v4 (gid_or_zero sgid) /\ bslice g 36 4 = gid_v4 (gid_or_zero dgid)) /\
  (grh_v4 sgid dgid = false ->
     bat g 0 0 = 0x60 /\ ernic_get_be16 g 4 = u16 paylen /\
     bslice g 8 16 = gid_or_zero sgid /\ bslice g 24 16 = gid_or_zero dgid).
Proof.
  intros Hs Hd. cbn zeta. destruct (grh_v4 sgid dgid) eqn:Hv.
  - destruct sgid as [s|], dgid as [d|]; try done. cbn in Hv, Hs, Hd. destruct Hs, Hd.
    cbn [ionic_dp_grh_build gid_or_zero default]. rewrite Hv.
    destruct (grh_ipv4_ok paylen s d) as (Hl & _ & _ & Hc & Ht & Hsa & Hda & H20 & Hz); try done.
    split_and!; try done. unfold dp_grh_is_ipv4.
    change (bat _ (IB_GRH_SIZE - IP_HDR_LEN) 0) with (bat (dp_grh_ipv4 paylen s d) 20 0).
    by rewrite H20, Hz.
  - assert (ionic_dp_grh_build paylen sgid dgid = dp_grh_ipv6 paylen sgid dgid) as ->.
    { unfold ionic_dp_grh_build, grh_v4 in *. repeat case_match; try done. }
    destruct (grh_ipv6_ok paylen sgid dgid Hs Hd) as (? & ? & ? & ? & ?).
    split_and!; try done. unfold dp_grh_is_ipv4. replace (bat _ 0 0) with 0x60 by congruence. done.
Qed.

Lemma grh_build_correct_witness :
  net_csum_fold (net_csum_add 0 (drop 20
    (ionic_dp_grh_build 256 (Some (ernic_gid_from_ipv4 [10; 0; 0; 1]))
      (Some (ernic_gid_from_ipv4 [10; 0; 0; 2]))))) = 0.
Proof.
  apply (grh_build_correct 256 (Some (ernic_gid_from_ipv4 [10; 0; 0; 1]))
    (Some (ernic_gid_from_ipv4 [10; 0; 0; 2]))).
  - split; [reflexivity|]. vm_compute. repeat constructor; congruence.
  - split; [reflexivity|]. vm_compute. repeat constructor; congruence.
  - reflexivity.
Defined.
