(* ===== verification/DpTypes.v ===== *)
(** * The data path's ABI, state and environment

    The encodings the guest driver shares with the device
    (ionic_datapath_fw.h), the structures of
    ionic_datapath_priv.h as records, and what the data path calls outside
    itself: guest memory, the mesh, the rest of the device, the clock and the
    allocator ([Env]). *)
From S2P Require Export Prelude Verbs ByteOrder Dma.

(** ** ernic_mesh.h *)

Definition ERNIC_MESH_MAX_MSG : Z := 16 * 2 ^ 20.
Definition ERNIC_MESH_REPLY_BUDGET : Z := 32 * 2 ^ 20.

(** ** ionic_datapath_fw.h: work requests *)

Definition IONIC_V1_OP_SEND : Z := 0.
Definition IONIC_V1_OP_SEND_INV : Z := 1.
Definition IONIC_V1_OP_SEND_IMM : Z := 2.
Definition IONIC_V1_OP_RDMA_READ : Z := 3.
Definition IONIC_V1_OP_RDMA_WRITE : Z := 4.
Definition IONIC_V1_OP_RDMA_WRITE_IMM : Z := 5.
Definition IONIC_V1_OP_ATOMIC_CS : Z := 6.
Definition IONIC_V1_OP_ATOMIC_FA : Z := 7.
Definition IONIC_V1_OP_REG_MR : Z := 8.
Definition IONIC_V1_OP_LOCAL_INV : Z := 9.

Definition IONIC_V1_FLAG_INL : Z := 0x0004.
Definition IONIC_V1_FLAG_SIG : Z := 0x0008.
Definition IONIC_V1_FLAG_SPEC_MASK : Z := 0xf000.
Definition IONIC_V1_FLAG_SPEC32 : Z := 0x1000.
Definition IONIC_V1_FLAG_SPEC16 : Z := 0x2000.
Definition IONIC_V1_SPEC_FIRST_SGE : Z := 2.

Definition WQE_OP_OFF : nat := 8.
Definition WQE_NUM_SGE_KEY_OFF : nat := 9.
Definition WQE_FLAGS_OFF : nat := 10.
Definition WQE_IMM_DATA_KEY_OFF : nat := 12.
Definition WQE_PLD_OFF : nat := 32.
Definition WQE_SEND_LEN_OFF : nat := 28.
Definition SGE_SIZE : nat := 16.
Definition SGE_VA_OFF : nat := 0.
Definition SGE_LEN_OFF : nat := 8.
Definition SGE_LKEY_OFF : nat := 12.
Definition WQE_SEND_AH_OFF : nat := 16.
Definition WQE_SEND_DEST_QPN_OFF : nat := 20.
Definition WQE_SEND_QKEY_OFF : nat := 24.
Definition WQE_RDMA_VA_OFF : nat := 16.
Definition WQE_RDMA_RKEY_OFF : nat := 24.
Definition WQE_REG_MR_VA_OFF : nat := 16.
Definition WQE_REG_MR_LENGTH_OFF : nat := 24.
Definition WQE_REG_MR_DMA_ADDR_OFF : nat := 40.
Definition WQE_REG_MR_MAP_COUNT_OFF : nat := 48.
Definition WQE_REG_MR_PAGE_SZ_L2_OFF : nat := 55.
Definition WQE_REG_MR_MIN_SZ : Z := 56.
Definition WQE_ATOMIC_SWAP_ADD_OFF : nat := 28.
Definition WQE_ATOMIC_COMPARE_OFF : nat := 36.
Definition WQE_ATOMIC_SGE_OFF : nat := 48.
Definition WQE_ATOMIC_MIN_SZ : Z := 64.

(** ** ionic_datapath_fw.h: completions *)

Definition CQE_SIZE : Z := 32.
Definition CQE_RECV_WQE_ID_OFF : nat := 0.
Definition CQE_RECV_SRC_QPN_OP_OFF : nat := 8.
Definition CQE_RECV_SRC_MAC_OFF : nat := 12.
Definition CQE_RECV_IMM_DATA_OFF : nat := 20.
Definition CQE_SEND_MSG_MSN_OFF : nat := 4.
Definition CQE_SEND_NPG_WQE_ID_OFF : nat := 16.
Definition CQE_STATUS_LENGTH_OFF : nat := 24.
Definition CQE_QID_TYPE_FLAGS_OFF : nat := 28.
Definition CQE_COLOR_BIT : Z := 0x01.
Definition CQE_ERROR_BIT : Z := 0x02.
Definition CQE_TYPE_SHIFT : Z := 5.
Definition CQE_TYPE_RECV : Z := Z.shiftl 1 CQE_TYPE_SHIFT.
Definition CQE_TYPE_SEND_MSN : Z := Z.shiftl 2 CQE_TYPE_SHIFT.
Definition CQE_TYPE_SEND_NPG : Z := Z.shiftl 3 CQE_TYPE_SHIFT.
Definition CQE_QID_SHIFT : Z := 8.
Definition CQE_RECV_OP_SHIFT : Z := 24.
Definition CQE_RECV_OP_SEND : Z := 0.
Definition CQE_RECV_OP_SEND_INV : Z := 1.
Definition CQE_RECV_OP_SEND_IMM : Z := 2.
Definition CQE_RECV_OP_RDMA_IMM : Z := 3.
Definition CQE_RECV_IS_IPV4 : Z := Z.shiftl 1 (7 + CQE_RECV_OP_SHIFT).

Definition IONIC_STS_OK : Z := 0.
Definition IONIC_STS_LOCAL_LEN_ERR : Z := 1.
Definition IONIC_STS_LOCAL_QP_OPER_ERR : Z := 2.
Definition IONIC_STS_LOCAL_PROT_ERR : Z := 3.
Definition IONIC_STS_WQE_FLUSHED_ERR : Z := 4.
Definition IONIC_STS_MEM_MGMT_OPER_ERR : Z := 5.
Definition IONIC_STS_LOCAL_ACC_ERR : Z := 7.
Definition IONIC_STS_REMOTE_ACC_ERR : Z := 9.
Definition IONIC_STS_RETRY_EXCEEDED : Z := 11.
Definition IONIC_STS_RNR_RETRY_EXCEEDED : Z := 12.

(** ** ionic_datapath_priv.h: limits and times *)

Definition MAX_PENDING : nat := 1024.
Definition PENDING_MS : Z := 30000.
Definition RNR_RETRY_MS : Z := 5000.
Definition DP_RX_MAX_BYTES : Z := 4 * ERNIC_MESH_MAX_MSG.
Definition DP_RX_MAX_MSGS : Z := 4096.
Definition DP_RX_CROWDED_MS : Z := 500.
Definition DP_RX_STUCK_MS : Z := 2000.
Definition DP_QTYPE_SQ : Z := 6.
Definition DP_QTYPE_RQ : Z := 7.
Definition DP_QTYPE_CQ : Z := 8.
Definition DP_QKEY_CONTROLLED : Z := 0x80000000.
Definition DP_RDMA_TX : Z := 1.
Definition DP_RDMA_RX : Z := 2.

(** ** ionic_datapath.h: ring geometry, MR keys *)

Definition IONIC_RING_MAX_DEPTH_LOG2 : Z := 24.
Definition IONIC_RING_MAX_STRIDE_LOG2 : Z := 16.
Definition IONIC_CQ_MIN_STRIDE_LOG2 : Z := 5.
Definition IONIC_WQE_MIN_STRIDE_LOG2 : Z := 5.
Definition IONIC_WQE_MAX_STRIDE_LOG2 : Z := 9.
Definition IONIC_SRQ_QID_BASE : Z := ERNIC_MAX_QP.
Definition IONIC_SRQ_MAX_DEPTH_LOG2 : Z := 16.
Definition IONIC_SRQ_MAX_STRIDE_LOG2 : Z := 8.
Definition IONIC_SRQ_MIN_STRIDE_LOG2 : Z := 5.
Definition IONIC_MRID_INDEX_SHIFT : Z := 8.

(** The error counters (IONIC_DP_RDMA_COUNTERS). *)
Inductive rdma_counter :=
  | REQ_RX_PKT_SEQ_ERR | REQ_RX_RNR_RETRY_ERR | REQ_RX_REMOTE_ACCESS_ERR
  | REQ_RX_REMOTE_INV_REQ_ERR | REQ_RX_REMOTE_OPER_ERR | REQ_RX_IMPLIED_NAK_SEQ_ERR
  | REQ_RX_CQE_ERR | REQ_RX_CQE_FLUSH_ERR | REQ_RX_DUP_RESPONSES
  | REQ_RX_INVALID_PACKETS | REQ_TX_LOCAL_ACCESS_ERR | REQ_TX_LOCAL_OPER_ERR
  | REQ_TX_MEMORY_MGMT_ERR | RESP_RX_DUP_REQUESTS | RESP_RX_OUT_OF_BUFFER
  | RESP_RX_OUT_OF_SEQ_PKTS | RESP_RX_CQE_ERR | RESP_RX_CQE_FLUSH_ERR
  | RESP_RX_LOCAL_LEN_ERR | RESP_RX_INV_REQUEST_ERR | RESP_RX_LOCAL_QP_OPER_ERR
  | RESP_RX_OUT_OF_ATOMIC_RES | RESP_TX_PKT_SEQ_ERR | RESP_TX_REMOTE_INV_REQ_ERR
  | RESP_TX_REMOTE_ACCESS_ERR | RESP_TX_REMOTE_OPER_ERR | RESP_TX_RNR_RETRY_ERR
  | TX_CNP_PKTS | RX_CNP_PKTS | RX_ECN_PKTS.
#[export] Instance rdma_counter_eq_dec : EqDecision rdma_counter.
Proof. solve_decision. Defined.

(** ** The structures of ionic_datapath.h and ionic_datapath_priv.h

    A zeroed structure (calloc, memset 0) is the [inhabitant] of its record,
    which is what the total lookup [!!!] of a table gives for a slot nothing
    was ever stored in. *)

Record ionic_dp_buf_desc := BufDesc {
  bd_dma_addr : Z; bd_map_count : Z; bd_page_size_log2 : Z }.
#[export] Instance ionic_dp_buf_desc_eta : Eta ionic_dp_buf_desc := fun r =>
  BufDesc (bd_dma_addr r) (bd_map_count r) (bd_page_size_log2 r).
#[export] Instance ionic_dp_buf_desc_zero : Inhabited ionic_dp_buf_desc := populate
  (BufDesc 0 0 0).

Record ionic_dp_ring_desc := RingDesc {
  rd_buf : ionic_dp_buf_desc; rd_depth_log2 : Z; rd_stride_log2 : Z }.
#[export] Instance ionic_dp_ring_desc_eta : Eta ionic_dp_ring_desc := fun r =>
  RingDesc (rd_buf r) (rd_depth_log2 r) (rd_stride_log2 r).
#[export] Instance ionic_dp_ring_desc_zero : Inhabited ionic_dp_ring_desc := populate
  (RingDesc inhabitant 0 0).

(** [b_pages] is [None] for the C NULL. *)
Record dp_buf := DpBuf {
  b_base : Z; b_pages : option (list Z); b_npages : Z; b_page_size_log2 : Z;
  b_first_off : Z }.
#[export] Instance dp_buf_eta : Eta dp_buf := fun r =>
  DpBuf (b_base r) (b_pages r) (b_npages r) (b_page_size_log2 r) (b_first_off r).
#[export] Instance dp_buf_zero : Inhabited dp_buf := populate
  (DpBuf 0 None 0 0 0).

Abbreviation rdma_counts := (rdma_counter -> Z).
Definition no_counts : rdma_counts := fun _ => 0.

Record ionic_qp_ring := QpRing {
  q_valid : bool; q_ib_qp_type : Z; q_sq_buf : dp_buf; q_rq_buf : dp_buf;
  q_sq_depth : Z; q_rq_depth : Z; q_sq_stride_log2 : Z; q_rq_stride_log2 : Z;
  q_sq_cq_id : Z; q_rq_cq_id : Z; q_sq_cons : Z; q_sq_prod : Z; q_sq_rnr : bool;
  q_sq_rnr_since_ms : Z; q_sq_busy : bool; q_sq_fault : bool; q_rq_prod : Z;
  q_rq_cons : Z; q_msn : Z; q_qkey : Z; q_qkey_valid : bool; q_dest_valid : bool;
  q_dest_qp_id : Z; q_dest_node_id : Z; q_mesh_id : Z; q_has_srq : bool; q_srq_id : Z;
  q_rdma : rdma_counts }.
#[export] Instance ionic_qp_ring_eta : Eta ionic_qp_ring := fun r =>
  QpRing (q_valid r) (q_ib_qp_type r) (q_sq_buf r) (q_rq_buf r) (q_sq_depth r)
    (q_rq_depth r) (q_sq_stride_log2 r) (q_rq_stride_log2 r) (q_sq_cq_id r)
    (q_rq_cq_id r) (q_sq_cons r) (q_sq_prod r) (q_sq_rnr r) (q_sq_rnr_since_ms r)
    (q_sq_busy r) (q_sq_fault r) (q_rq_prod r) (q_rq_cons r) (q_msn r) (q_qkey r)
    (q_qkey_valid r) (q_dest_valid r) (q_dest_qp_id r) (q_dest_node_id r) (q_mesh_id r)
    (q_has_srq r) (q_srq_id r) (q_rdma r).
#[export] Instance ionic_qp_ring_zero : Inhabited ionic_qp_ring := populate
  (QpRing false 0 inhabitant inhabitant 0 0 0 0 0 0 0 0 false 0 false false 0 0 0 0
    false false 0 0 0 false 0 no_counts).

Record ionic_ah := Ah {
  ah_valid : bool; ah_dgid : list Z; ah_dgid_valid : bool; ah_sgid : list Z;
  ah_sgid_valid : bool; ah_dmac : list Z }.
#[export] Instance ionic_ah_eta : Eta ionic_ah := fun r =>
  Ah (ah_valid r) (ah_dgid r) (ah_dgid_valid r) (ah_sgid r) (ah_sgid_valid r)
    (ah_dmac r).
#[export] Instance ionic_ah_zero : Inhabited ionic_ah := populate
  (Ah false (zeros 16) false (zeros 16) false (zeros 6)).

(** Without its lock: every access below is one critical section. *)
Record ionic_srq_ring := SrqRing {
  sr_valid : bool; sr_buf : dp_buf; sr_depth : Z; sr_stride_log2 : Z; sr_prod : Z;
  sr_cons : Z }.
#[export] Instance ionic_srq_ring_eta : Eta ionic_srq_ring := fun r =>
  SrqRing (sr_valid r) (sr_buf r) (sr_depth r) (sr_stride_log2 r) (sr_prod r)
    (sr_cons r).
#[export] Instance ionic_srq_ring_zero : Inhabited ionic_srq_ring := populate
  (SrqRing false inhabitant 0 0 0 0).

Record ionic_cq_ring := CqRing {
  c_valid : bool; c_buf : dp_buf; c_depth : Z; c_stride_log2 : Z; c_prod : Z;
  c_cons : Z; c_color : bool; c_armed : bool; c_eq_id : Z }.
#[export] Instance ionic_cq_ring_eta : Eta ionic_cq_ring := fun r =>
  CqRing (c_valid r) (c_buf r) (c_depth r) (c_stride_log2 r) (c_prod r) (c_cons r)
    (c_color r) (c_armed r) (c_eq_id r).
#[export] Instance ionic_cq_ring_zero : Inhabited ionic_cq_ring := populate
  (CqRing false inhabitant 0 0 0 0 false false 0).

Record dp_mr := DpMr {
  mr_valid : bool; mr_lkey : Z; mr_va : Z; mr_length : Z; mr_buf : dp_buf }.
#[export] Instance dp_mr_eta : Eta dp_mr := fun r =>
  DpMr (mr_valid r) (mr_lkey r) (mr_va r) (mr_length r) (mr_buf r).
#[export] Instance dp_mr_zero : Inhabited dp_mr := populate
  (DpMr false 0 0 0 inhabitant).

(** One entry of the three parallel arrays of a [dp_sge_list]; the list of
    the entries in use has the length [count]. *)
Record dp_sge := DpSge {
  sg_va : Z; sg_len : Z; sg_lkey : Z }.
#[export] Instance dp_sge_eta : Eta dp_sge := fun r =>
  DpSge (sg_va r) (sg_len r) (sg_lkey r).
#[export] Instance dp_sge_zero : Inhabited dp_sge := populate
  (DpSge 0 0 0).

Record dp_sge_list := DpSgeList {
  sl_sges : list dp_sge; sl_total : Z }.
#[export] Instance dp_sge_list_eta : Eta dp_sge_list := fun r =>
  DpSgeList (sl_sges r) (sl_total r).
#[export] Instance dp_sge_list_zero : Inhabited dp_sge_list := populate
  (DpSgeList [] 0).

Definition sl_count (l : dp_sge_list) : Z := Z.of_nat (length (sl_sges l)).

Record dp_pending := DpPending {
  p_valid : bool; p_req_id : Z; p_qp_id : Z; p_wqe_id : Z; p_msn : Z; p_use_msn : bool;
  p_signalled : bool; p_length : Z; p_local : dp_sge_list; p_deadline_ms : Z;
  p_tag : Z; p_dest_node : Z; p_reply_bytes : Z }.
#[export] Instance dp_pending_eta : Eta dp_pending := fun r =>
  DpPending (p_valid r) (p_req_id r) (p_qp_id r) (p_wqe_id r) (p_msn r) (p_use_msn r)
    (p_signalled r) (p_length r) (p_local r) (p_deadline_ms r) (p_tag r) (p_dest_node r)
    (p_reply_bytes r).
#[export] Instance dp_pending_zero : Inhabited dp_pending := populate
  (DpPending false 0 0 0 0 false false 0 inhabitant 0 0 0 0).

(** A parked message; [len] is the length of [im_buf]. *)
Record dp_inmsg := DpInmsg {
  im_src_node : Z; im_first_try_ms : Z; im_rnr_counted : bool; im_buf : list Z }.
#[export] Instance dp_inmsg_eta : Eta dp_inmsg := fun r =>
  DpInmsg (im_src_node r) (im_first_try_ms r) (im_rnr_counted r) (im_buf r).
#[export] Instance dp_inmsg_zero : Inhabited dp_inmsg := populate
  (DpInmsg 0 0 false []).

Definition im_len (m : dp_inmsg) : Z := Z.of_nat (length (im_buf m)).

(** ** What the data path calls outside itself

    [Mem] is guest memory behind ernic_dma.  [MeshSt] is the mesh backend
    behind RdmaMeshOps: each operation returns the backend's next state, so a
    backend that other threads move on between two calls is an instance.
    [Dev] is the rest of the device, with the event queues and the interrupt
    vectors, and in-process targets.  [now_ms n] is what the [n]-th call of
    the environment reads as the time, and [alloc_ok n] whether an allocation
    that is that call succeeds. *)
Class Env := {
  Mem : Type;
  env_mem :: GuestMem Mem;
  MeshSt : Type;
  mesh_local_node : MeshSt -> Z;
  mesh_node_from_gid : MeshSt -> option (list Z) -> Z * MeshSt;
  mesh_sendv : MeshSt -> Z -> list Z -> list Z -> Z -> bool -> Z * MeshSt;
  mesh_has_room : MeshSt -> Z -> Z -> bool * MeshSt;
  mesh_cancel : MeshSt -> Z -> Z -> MeshSt;
  Dev : Type;
  dev_trigger_irq : Z -> Dev -> Dev;
  now_ms : nat -> Z;
  alloc_ok : nat -> bool;
}.

(** ionic_dp_cq_event_fn_t: it writes an event to the guest's event queue
    and raises its vector. *)
Abbreviation ionic_dp_cq_event_fn_t := (fun E : Env => Z -> Z -> @Mem E -> @Dev E -> @Mem E * @Dev E).

(** Calls that only count: ernic_stats_rdma_bytes(), ionic_eth_emu_count_rdma(),
    ernic_stats_qp_cqe(), ernic_stats_qp_wqe(), ernic_stats_qp_doorbell(), and
    the admin queue's ernic_stats_qp_forget() and ernic_stats_command(), which
    go to the same counters. *)
Inductive ernic_stat_op := ERNIC_STAT_SEND | ERNIC_STAT_RECV | ERNIC_STAT_RDMA_READ
  | ERNIC_STAT_RDMA_WRITE.
Inductive dp_stat :=
  | StatRdmaBytes (qp_id bytes : Z) (op : ernic_stat_op)
  | StatCountRdma (bytes : Z) (tx : bool)
  | StatQpCqe (qid : Z)
  | StatQpWqe (qp_id wr : Z)
  | StatQpDoorbell (qid : Z) (is_send : bool)
  | StatQpForget (qp_id : Z)
  | StatCommand.

(** ** struct ionic_datapath

    [dp_pvrdma_handle] is [None] for the NULL handle and [Some None] for a
    device whose backend has no mesh.  [dp_pending_tab] has [MAX_PENDING]
    slots.  [dp_calls] counts the reads of the clock and the allocations so
    far, and [dp_stats] lists the counting calls, the last first. *)
Section datapath_state.
Context {E : Env}.

Record ionic_datapath := Dp {
  dp_mem : Mem; dp_dev : Dev; dp_cq_event_fn : option (ionic_dp_cq_event_fn_t E);
  dp_pvrdma_handle : option (option MeshSt); dp_qp : gmap Z ionic_qp_ring;
  dp_cq : gmap Z ionic_cq_ring; dp_srq : gmap Z ionic_srq_ring;
  dp_ah : gmap Z ionic_ah; dp_mrs : gmap Z dp_mr; dp_qp_count : Z; dp_cq_count : Z;
  dp_srq_count : Z; dp_ah_count : Z; dp_local_node : Z; dp_next_req_id : Z;
  dp_next_mesh_id : Z; dp_pending_tab : list dp_pending; dp_rx_queue : list dp_inmsg;
  dp_rx_fresh : Z; dp_rx_bytes : Z; dp_rx_msgs : Z; dp_rx_waiting : Z;
  dp_rx_in_pass : bool; dp_rx_polled_ms : Z; dp_rx_dropped : Z; dp_rx_crowded : bool;
  dp_rx_crowded_ms : Z; dp_rx_dropped_logged : Z; dp_fault : Z; dp_sq_stalled : Z;
  dp_rdma : rdma_counts; dp_calls : nat; dp_stats : list dp_stat }.
#[global] Instance ionic_datapath_eta : Eta ionic_datapath := fun r =>
  Dp (dp_mem r) (dp_dev r) (dp_cq_event_fn r) (dp_pvrdma_handle r) (dp_qp r) (dp_cq r)
    (dp_srq r) (dp_ah r) (dp_mrs r) (dp_qp_count r) (dp_cq_count r) (dp_srq_count r)
    (dp_ah_count r) (dp_local_node r) (dp_next_req_id r) (dp_next_mesh_id r)
    (dp_pending_tab r) (dp_rx_queue r) (dp_rx_fresh r) (dp_rx_bytes r) (dp_rx_msgs r)
    (dp_rx_waiting r) (dp_rx_in_pass r) (dp_rx_polled_ms r) (dp_rx_dropped r)
    (dp_rx_crowded r) (dp_rx_crowded_ms r) (dp_rx_dropped_logged r) (dp_fault r)
    (dp_sq_stalled r) (dp_rdma r) (dp_calls r) (dp_stats r).
End datapath_state.

Abbreviation DP := (ST ionic_datapath).

Section dp_basics.
Context `{E : Env}.

(** Accesses to the tables; the callers check the index first, as the source
    does. *)
Definition qp_at (i : Z) (s : ionic_datapath) : ionic_qp_ring := dp_qp s !!! i.
Definition cq_at (i : Z) (s : ionic_datapath) : ionic_cq_ring := dp_cq s !!! i.
Definition srq_at (i : Z) (s : ionic_datapath) : ionic_srq_ring := dp_srq s !!! i.
Definition mr_at (i : Z) (s : ionic_datapath) : dp_mr := dp_mrs s !!! i.

Definition upd_qp (i : Z) (f : ionic_qp_ring -> ionic_qp_ring) : DP unit :=
  modify (fun s => s <| dp_qp := <[i := f (qp_at i s)]> (dp_qp s) |>).
Definition upd_cq (i : Z) (f : ionic_cq_ring -> ionic_cq_ring) : DP unit :=
  modify (fun s => s <| dp_cq := <[i := f (cq_at i s)]> (dp_cq s) |>).
Definition upd_srq (i : Z) (f : ionic_srq_ring -> ionic_srq_ring) : DP unit :=
  modify (fun s => s <| dp_srq := <[i := f (srq_at i s)]> (dp_srq s) |>).

Definition stat (e : dp_stat) : DP unit := modify (fun s => s <| dp_stats ::= cons e |>).

(** ionic_dp_now_ms() *)
Definition ionic_dp_now_ms : DP Z := fun s =>
  (now_ms (dp_calls s), s <| dp_calls ::= S |>).

(** malloc() and calloc(): whether they return memory. *)
Definition alloc : DP bool := fun s => (alloc_ok (dp_calls s), s <| dp_calls ::= S |>).

(** Guest memory: [None] and [false] are a failed transfer. *)
Definition dp_dma_read (gpa len : Z) : DP (option (list Z)) :=
  gets (fun s => dma_read (dp_mem s) gpa len).
Definition dp_dma_write (gpa : Z) (bs : list Z) : DP bool := fun s =>
  let '(ok, m) := dma_write (dp_mem s) gpa bs in (ok, s <| dp_mem := m |>).

(** ionic_datapath_create(), with guest memory [m] and the rest of the device
    [dev] as they are then; [None] is the NULL it returns when one of its six
    allocations fails.  The CQ event callback is set later. *)
Definition ionic_datapath_create (m : Mem) (dev : Dev) : option ionic_datapath :=
  if forallb alloc_ok (seq 0 6) then
    Some (Dp m dev None None ∅ ∅ ∅ ∅ ∅ ERNIC_MAX_QP ERNIC_MAX_CQ ERNIC_MAX_SRQ ERNIC_MAX_AH
            UINT32_MAX 0 0 (replicate MAX_PENDING inhabitant) [] 0 0 0 0 false (now_ms 6) 0
            false 0 0 IONIC_STS_OK 0 no_counts 7 [])
  else None.
End dp_basics.

(** ** Frames

    [frame F s s']: only the parts of the state listed in [F] differ. *)

Inductive fld :=
  | FMem | FDev | FMesh | FQp | FCq | FSrq | FAh | FMr | FPend | FMeshId | FRx
  | FFault | FStall | FRdma | FCalls | FStats | FCfg.
#[export] Instance fld_eq_dec : EqDecision fld.
Proof. solve_decision. Defined.

Section frames.
Context {E : Env}.

Definition fld_same (f : fld) (s s' : ionic_datapath) : Prop :=
  match f with
  | FMem => dp_mem s' = dp_mem s
  | FDev => dp_dev s' = dp_dev s
  | FMesh => dp_pvrdma_handle s' = dp_pvrdma_handle s
  | FQp => dp_qp s' = dp_qp s
  | FCq => dp_cq s' = dp_cq s
  | FSrq => dp_srq s' = dp_srq s
  | FAh => dp_ah s' = dp_ah s
  | FMr => dp_mrs s' = dp_mrs s
  | FPend => (dp_pending_tab s', dp_next_req_id s') = (dp_pending_tab s, dp_next_req_id s)
  | FMeshId => dp_next_mesh_id s' = dp_next_mesh_id s
  | FRx =>
      (dp_rx_queue s', dp_rx_fresh s', dp_rx_bytes s', dp_rx_msgs s', dp_rx_waiting s',
       dp_rx_in_pass s', dp_rx_polled_ms s', dp_rx_dropped s', dp_rx_crowded s',
       dp_rx_crowded_ms s', dp_rx_dropped_logged s') =
      (dp_rx_queue s, dp_rx_fresh s, dp_rx_bytes s, dp_rx_msgs s, dp_rx_waiting s,
       dp_rx_in_pass s, dp_rx_polled_ms s, dp_rx_dropped s, dp_rx_crowded s,
       dp_rx_crowded_ms s, dp_rx_dropped_logged s)
  | FFault => dp_fault s' = dp_fault s
  | FStall => dp_sq_stalled s' = dp_sq_stalled s
  | FRdma => dp_rdma s' = dp_rdma s
  | FCalls => dp_calls s' = dp_calls s
  | FStats => dp_stats s' = dp_stats s
  | FCfg =>
      (dp_qp_count s', dp_cq_count s', dp_srq_count s', dp_ah_count s', dp_local_node s',
       dp_cq_event_fn s') =
      (dp_qp_count s, dp_cq_count s, dp_srq_count s, dp_ah_count s, dp_local_node s,
       dp_cq_event_fn s)
  end.

Definition frame (F : list fld) (s s' : ionic_datapath) : Prop :=
  forall f, f ∉ F -> fld_same f s s'.

#[global] Instance frame_preorder F : PreOrder (frame F).
Proof.
  split.
  - intros s f _. by destruct f.
  - intros a b c Hab Hbc f Hf. specialize (Hab f Hf). specialize (Hbc f Hf).
    destruct f; cbn in *; congruence.
Qed.

Definition flds_sub (F F' : list fld) : bool := forallb (fun f => bool_decide (f ∈ F')) F.

Lemma frame_weaken {A} F F' (m : DP A) :
  keeps (frame F) m -> flds_sub F F' = true -> keeps (frame F') m.
Proof.
  intros Hm Hsub s f Hf. apply Hm. contradict Hf.
  apply (forallb_forall _ F) with (x := f) in Hsub; [by bdestr|].
  by apply list_elem_of_In.
Qed.

(** What one part of the state being out of the frame gives. *)
Lemma frame_get {A} F (m : DP A) f s :
  keeps (frame F) m -> bool_decide (f ∈ F) = false -> fld_same f s (m s).2.
Proof. intros Hm Hf. apply Hm. by bdestr. Qed.
End frames.

Create HintDb frame discriminated.
#[export] Hint Constants Opaque : frame.

(** A primitive update touches only the fields it names. *)
Ltac frame_at :=
  let f := fresh "f" in let Hf := fresh "Hf" in
  intros f Hf; destruct f; cbn -[bool_decide]; try reflexivity;
  exfalso; apply Hf; repeat constructor.
Ltac frame_prim := let s := fresh "s" in intros s; frame_at.

Ltac frame_step :=
  first
    [ solve [auto 2 with frame nocore]
    | eapply frame_weaken; [solve [auto 2 with frame nocore] | reflexivity]
    | keeps_step ].
Ltac frame_auto := repeat frame_step.

(** [frame_of m s f as H]: [m] leaves [f] alone. *)
Ltac frame_fact m s f H :=
  let F := fresh "F" in
  eassert (keeps (frame _) m) as F by (solve [eauto 2 with frame nocore]);
  pose proof (frame_get _ m f s F eq_refl) as H; clear F; cbn [fld_same] in H.

Section frame_basics.
Context {E : Env}.

Lemma upd_qp_frame i f : keeps (frame [FQp]) (upd_qp i f).
Proof. frame_prim. Qed.
Lemma upd_cq_frame i f : keeps (frame [FCq]) (upd_cq i f).
Proof. frame_prim. Qed.
Lemma upd_srq_frame i f : keeps (frame [FSrq]) (upd_srq i f).
Proof. frame_prim. Qed.
Lemma stat_frame e : keeps (frame [FStats]) (stat e).
Proof. frame_prim. Qed.
Lemma now_ms_frame : keeps (frame [FCalls]) ionic_dp_now_ms.
Proof. frame_prim. Qed.
Lemma alloc_frame : keeps (frame [FCalls]) alloc.
Proof. frame_prim. Qed.
Lemma dma_read_frame a n : keeps (frame []) (dp_dma_read a n).
Proof. frame_prim. Qed.
Lemma dma_write_frame' a bs : keeps (frame [FMem]) (dp_dma_write a bs).
Proof.
  intros s f Hf. unfold dp_dma_write. destruct (dma_write _ _ _).
  revert s f Hf. frame_prim.
Qed.
End frame_basics.
#[export] Hint Resolve upd_qp_frame upd_cq_frame upd_srq_frame stat_frame now_ms_frame
  alloc_frame dma_read_frame dma_write_frame' : frame.

(** * A concrete environment

    One mebibyte of guest RAM mapped a page at a time, a mesh that records
    what it is given, a device that records its interrupts, and a clock that
    ticks once per reading: what the closed examples of the later files run
    on. *)
(** The messages sent (destination, header, body, tag), the last first, and
    how many more the mesh has room for. *)
Record ex_mesh := ExMesh { em_sent : list (Z * list Z * list Z * Z); em_room : nat }.

Definition ex_vfu : Vfu := flat_vfu 0 1048576 4096.
Definition ex_vfu_laws : @VfuLaws ex_vfu := flat_laws 0 1048576 4096.

Definition ex_env : Env := {|
  Mem := host;
  env_mem := @ernic_dma_mem ex_vfu ex_vfu_laws;
  MeshSt := ex_mesh;
  mesh_local_node _ := 0;
  mesh_node_from_gid ms gid := (match gid with Some g => g !!! 15%nat | None => UINT32_MAX end, ms);
  mesh_sendv ms dst hdr body tag reply :=
    match em_room ms with
    | O => (-11, ms)
    | S n => (0, ExMesh ((dst, hdr, body, tag) :: em_sent ms) n)
    end;
  mesh_has_room ms dst len := (bool_decide (em_room ms <> O), ms);
  mesh_cancel ms tag mask :=
    ExMesh (filter (fun p => Z.land p.2 mask <> Z.land tag mask) (em_sent ms)) (em_room ms);
  Dev := list Z;
  dev_trigger_irq v dev := v :: dev;
  now_ms n := 1000 + Z.of_nat n;
  alloc_ok _ := true;
|}.

Lemma ex_laws : GuestMemLaws (@Mem ex_env).
Proof. exact (@ernic_dma_laws ex_vfu ex_vfu_laws). Defined.

(** The device after creation; a byte of RAM nobody has written holds 1. *)
Definition ex_dp : @ionic_datapath ex_env :=
  Dp (∅ : @Mem ex_env) ([] : @Dev ex_env) None None ∅ ∅ ∅ ∅ ∅ ERNIC_MAX_QP ERNIC_MAX_CQ
    ERNIC_MAX_SRQ ERNIC_MAX_AH UINT32_MAX 0 0 (replicate MAX_PENDING inhabitant) [] 0 0 0 0 false
    1006 0 false 0 0 IONIC_STS_OK 0 no_counts 7 [].

Example ex_dp_created : ionic_datapath_create (E := ex_env) ∅ [] = Some ex_dp.
Proof. reflexivity. Qed.
