(* ===== verification/Stats.v ===== *)
(** * The device's counters (ernic_stats.c)

    [ernic_stats] and its counting functions, and the two that read the
    counters back for the admin queue.  The data path and the admin queue
    count into one struct; [stats_of] replays the calls they have logged
    ([dp_stats]) into it.  The stats file is not modelled.

    The functions take the struct; with a NULL pointer each does nothing. *)
From S2P Require Export DpTypes.

Definition ERNIC_STAT_WR_COUNT : Z := 18.

Record qp_stats := QpStats {
  qs_live : bool; qs_doorbell_send : Z; qs_doorbell_recv : Z; qs_wqes_processed : Z; qs_wqes_by_opcode : list Z;
  qs_cqes_posted : Z; qs_bytes_sent : Z; qs_bytes_received : Z; qs_bytes_rdma_read : Z; qs_bytes_rdma_write : Z }.
#[export] Instance qp_stats_eta : Eta qp_stats := fun r =>
  QpStats (qs_live r) (qs_doorbell_send r) (qs_doorbell_recv r) (qs_wqes_processed r) (qs_wqes_by_opcode r)
    (qs_cqes_posted r) (qs_bytes_sent r) (qs_bytes_received r) (qs_bytes_rdma_read r) (qs_bytes_rdma_write r).
#[export] Instance qp_stats_zero : Inhabited qp_stats :=
  populate (QpStats false 0 0 0 (replicate (Z.to_nat ERNIC_STAT_WR_COUNT) 0) 0 0 0 0 0).

(** Less what only the stats file shows. *)
Record ernic_stats := Stats {
  st_commands : Z; st_uar_reads : Z; st_uar_writes : Z; st_bar0_reads : Z; st_bar0_writes : Z; st_interrupts : Z;
  st_reset_count : Z; st_total_bytes_sent : Z; st_total_bytes_received : Z; st_total_bytes_rdma_read : Z;
  st_total_bytes_rdma_write : Z; st_total_ip_bytes_tx : Z; st_total_ip_bytes_rx : Z; st_qp : list qp_stats }.
#[export] Instance ernic_stats_eta : Eta ernic_stats := fun r =>
  Stats (st_commands r) (st_uar_reads r) (st_uar_writes r) (st_bar0_reads r) (st_bar0_writes r) (st_interrupts r)
    (st_reset_count r) (st_total_bytes_sent r) (st_total_bytes_received r) (st_total_bytes_rdma_read r)
    (st_total_bytes_rdma_write r) (st_total_ip_bytes_tx r) (st_total_ip_bytes_rx r) (st_qp r).

Definition ernic_stats_create (mem : bool) : option ernic_stats :=
  if mem then Some (Stats 0 0 0 0 0 0 0 0 0 0 0 0 0 (replicate (Z.to_nat ERNIC_MAX_QP) inhabitant)) else None.

Abbreviation inc := (fun n => u64 (n + 1)).

(** ** Counting *)
Definition ernic_stats_bar0_access (is_write : bool) (st : ernic_stats) : ernic_stats :=
  if is_write then st <| st_bar0_writes ::= inc |> else st <| st_bar0_reads ::= inc |>.
Definition ernic_stats_doorbell_access (is_write : bool) (st : ernic_stats) : ernic_stats :=
  if is_write then st <| st_uar_writes ::= inc |> else st <| st_uar_reads ::= inc |>.
Definition ernic_stats_irq (st : ernic_stats) : ernic_stats := st <| st_interrupts ::= inc |>.
Definition ernic_stats_eth_bytes (bytes : Z) (is_tx : bool) (st : ernic_stats) : ernic_stats :=
  if is_tx then st <| st_total_ip_bytes_tx := u64 (st_total_ip_bytes_tx st + bytes) |>
  else st <| st_total_ip_bytes_rx := u64 (st_total_ip_bytes_rx st + bytes) |>.
Definition ernic_stats_command (st : ernic_stats) : ernic_stats := st <| st_commands ::= inc |>.
Definition ernic_stats_device_reset (st : ernic_stats) : ernic_stats := st <| st_reset_count ::= inc |>.

(** qp_get() and a change of what it returns. *)
Definition qp_get (qp_id : Z) (f : qp_stats -> qp_stats) (st : ernic_stats) : ernic_stats :=
  if ERNIC_MAX_QP <=? qp_id then st
  else st <| st_qp ::= alter (fun q => f (q <| qs_live := true |>)) (Z.to_nat qp_id) |>.

Definition ernic_stats_rdma_bytes (qp_id bytes : Z) (stat_op : ernic_stat_op) (st : ernic_stats) : ernic_stats :=
  if bytes =? 0 then st
  else
    match stat_op with
    | ERNIC_STAT_SEND =>
        qp_get qp_id (fun q => q <| qs_bytes_sent := u64 (qs_bytes_sent q + bytes) |>)
          (st <| st_total_bytes_sent := u64 (st_total_bytes_sent st + bytes) |>)
    | ERNIC_STAT_RECV =>
        qp_get qp_id (fun q => q <| qs_bytes_received := u64 (qs_bytes_received q + bytes) |>)
          (st <| st_total_bytes_received := u64 (st_total_bytes_received st + bytes) |>)
    | ERNIC_STAT_RDMA_READ =>
        qp_get qp_id (fun q => q <| qs_bytes_rdma_read := u64 (qs_bytes_rdma_read q + bytes) |>)
          (st <| st_total_bytes_rdma_read := u64 (st_total_bytes_rdma_read st + bytes) |>)
    | ERNIC_STAT_RDMA_WRITE =>
        qp_get qp_id (fun q => q <| qs_bytes_rdma_write := u64 (qs_bytes_rdma_write q + bytes) |>)
          (st <| st_total_bytes_rdma_write := u64 (st_total_bytes_rdma_write st + bytes) |>)
    end.
Definition ernic_stats_qp_doorbell (qp_id : Z) (is_send : bool) : ernic_stats -> ernic_stats :=
  qp_get qp_id (fun q => if is_send then q <| qs_doorbell_send ::= inc |> else q <| qs_doorbell_recv ::= inc |>).
Definition ernic_stats_qp_wqe (qp_id wr : Z) : ernic_stats -> ernic_stats :=
  qp_get qp_id (fun q =>
    let q := q <| qs_wqes_processed ::= inc |> in
    if wr <? ERNIC_STAT_WR_COUNT then q <| qs_wqes_by_opcode ::= alter inc (Z.to_nat wr) |> else q).
Definition ernic_stats_qp_cqe (qp_id : Z) : ernic_stats -> ernic_stats :=
  qp_get qp_id (fun q => q <| qs_cqes_posted ::= inc |>).
Definition ernic_stats_qp_forget (qp_id : Z) (st : ernic_stats) : ernic_stats :=
  if qp_id <? ERNIC_MAX_QP then st <| st_qp ::= <[Z.to_nat qp_id := inhabitant]> |> else st.

(** ** Reading back: the return value and the struct filled in *)
Record ernic_dev_counters := DevCounters {
  dc_commands : Z; dc_total_bytes_sent : Z; dc_total_bytes_received : Z; dc_total_bytes_rdma_read : Z;
  dc_total_bytes_rdma_write : Z }.
#[export] Instance dev_counters_zero : Inhabited ernic_dev_counters := populate (DevCounters 0 0 0 0 0).
Record ernic_qp_counters := QpCounters {
  qc_doorbell_send : Z; qc_doorbell_recv : Z; qc_wqes_processed : Z; qc_cqes_posted : Z; qc_bytes_sent : Z;
  qc_bytes_received : Z; qc_bytes_rdma_read : Z; qc_bytes_rdma_write : Z }.
#[export] Instance qp_counters_zero : Inhabited ernic_qp_counters := populate (QpCounters 0 0 0 0 0 0 0 0).

Definition ernic_stats_dev_counters (st : option ernic_stats) : Z * ernic_dev_counters :=
  match st with
  | None => (- EINVAL, inhabitant)
  | Some st => (0, DevCounters (st_commands st) (st_total_bytes_sent st) (st_total_bytes_received st)
                     (st_total_bytes_rdma_read st) (st_total_bytes_rdma_write st))
  end.

Definition ernic_stats_qp_counters (st : option ernic_stats) (qp_id : Z) : Z * ernic_qp_counters :=
  match st with
  | None => (- EINVAL, inhabitant)
  | Some st =>
      if ERNIC_MAX_QP <=? qp_id then (0, inhabitant)
      else
        let qp := st_qp st !!! Z.to_nat qp_id in
        (0, QpCounters (qs_doorbell_send qp) (qs_doorbell_recv qp) (qs_wqes_processed qp) (qs_cqes_posted qp)
              (qs_bytes_sent qp) (qs_bytes_received qp) (qs_bytes_rdma_read qp) (qs_bytes_rdma_write qp))
  end.

(** ** The calls the data path and the admin queue have made, the last first *)
Definition stat_call (e : dp_stat) : ernic_stats -> ernic_stats :=
  match e with
  | StatRdmaBytes q n op => ernic_stats_rdma_bytes q n op
  | StatCountRdma _ _ => id (* the LIF's own statistics *)
  | StatQpCqe q => ernic_stats_qp_cqe q
  | StatQpWqe q wr => ernic_stats_qp_wqe q wr
  | StatQpDoorbell q is_send => ernic_stats_qp_doorbell q is_send
  | StatQpForget q => ernic_stats_qp_forget q
  | StatCommand => ernic_stats_command
  end.
Definition stats_of (log : list dp_stat) : ernic_stats :=
  foldr stat_call (Stats 0 0 0 0 0 0 0 0 0 0 0 0 0 (replicate (Z.to_nat ERNIC_MAX_QP) inhabitant)) log.

(** ** The counters are sums over the calls *)
#[export] Instance ernic_stat_op_eq_dec : EqDecision ernic_stat_op.
Proof. solve_decision. Defined.
#[export] Instance dp_stat_eq_dec : EqDecision dp_stat.
Proof. solve_decision. Defined.

(** What one call adds to a total, and to a counter of queue pair [q]. *)
Definition cmds (e : dp_stat) : Z := match e with StatCommand => 1 | _ => 0 end.
Definition same_op (a b : ernic_stat_op) : bool :=
  match a, b with
  | ERNIC_STAT_SEND, ERNIC_STAT_SEND | ERNIC_STAT_RECV, ERNIC_STAT_RECV
  | ERNIC_STAT_RDMA_READ, ERNIC_STAT_RDMA_READ | ERNIC_STAT_RDMA_WRITE, ERNIC_STAT_RDMA_WRITE => true
  | _, _ => false
  end.
Definition moved (op : ernic_stat_op) (e : dp_stat) : Z :=
  match e with StatRdmaBytes _ n op' => if same_op op' op then n else 0 | _ => 0 end.
Definition moved_by (q : Z) (op : ernic_stat_op) (e : dp_stat) : Z :=
  match e with StatRdmaBytes q' n op' => if decide (q' = q) then moved op e else 0 | _ => 0 end.
Definition rung (q : Z) (is_send : bool) (e : dp_stat) : Z :=
  match e with StatQpDoorbell q' b => if decide (q' = q) then (if Bool.eqb b is_send then 1 else 0) else 0 | _ => 0 end.
Definition wqes (q : Z) (e : dp_stat) : Z :=
  match e with StatQpWqe q' _ => if decide (q' = q) then 1 else 0 | _ => 0 end.
Definition cqes (q : Z) (e : dp_stat) : Z := match e with StatQpCqe q' => if decide (q' = q) then 1 else 0 | _ => 0 end.
#[local] Arguments wrap : simpl never.
#[local] Arguments cmds !_ /.
#[local] Arguments moved _ !_ /.
#[local] Arguments moved_by _ _ !_ /.
#[local] Arguments rung _ _ !_ /.
#[local] Arguments wqes _ !_ /.
#[local] Arguments cqes _ !_ /.

(** Their sum, as a uint64_t keeps it. *)
Definition tally (f : dp_stat -> Z) (log : list dp_stat) : Z := u64 (sumZ (f <$> log)).

(** The calls since queue pair [q] was last forgotten. *)
Fixpoint since_forget (q : Z) (log : list dp_stat) : list dp_stat :=
  match log with
  | [] => []
  | e :: log => if decide (e = StatQpForget q) then [] else e :: since_forget q log
  end.

(** The ids are uint32_t. *)
Definition stat_ok (e : dp_stat) : Prop :=
  match e with
  | StatRdmaBytes q _ _ | StatQpCqe q | StatQpWqe q _ | StatQpDoorbell q _ | StatQpForget q => fits 32 q
  | _ => True
  end.

Lemma tally_cons f e log : tally f (e :: log) = u64 (tally f log + f e).
Proof. unfold tally, u64, wrap. cbn. rewrite Zplus_mod_idemp_l. f_equal. unfold sumZ. lia. Qed.
Lemma tally_add0 f log : u64 (tally f log + 0) = tally f log.
Proof. rewrite Z.add_0_r. apply wrap_id. apply wrap_fits. lia. Qed.

Definition row (q : qp_stats) : ernic_qp_counters :=
  QpCounters (qs_doorbell_send q) (qs_doorbell_recv q) (qs_wqes_processed q) (qs_cqes_posted q)
    (qs_bytes_sent q) (qs_bytes_received q) (qs_bytes_rdma_read q) (qs_bytes_rdma_write q).
Definition row_of (q : Z) (log : list dp_stat) : ernic_qp_counters :=
  QpCounters (tally (rung q true) log) (tally (rung q false) log) (tally (wqes q) log) (tally (cqes q) log)
    (tally (moved_by q ERNIC_STAT_SEND) log) (tally (moved_by q ERNIC_STAT_RECV) log)
    (tally (moved_by q ERNIC_STAT_RDMA_READ) log) (tally (moved_by q ERNIC_STAT_RDMA_WRITE) log).
Definition totals (st : ernic_stats) : ernic_dev_counters :=
  DevCounters (st_commands st) (st_total_bytes_sent st) (st_total_bytes_received st) (st_total_bytes_rdma_read st)
    (st_total_bytes_rdma_write st).
Definition totals_of (log : list dp_stat) : ernic_dev_counters :=
  DevCounters (tally cmds log) (tally (moved ERNIC_STAT_SEND) log) (tally (moved ERNIC_STAT_RECV) log)
    (tally (moved ERNIC_STAT_RDMA_READ) log) (tally (moved ERNIC_STAT_RDMA_WRITE) log).

Lemma qp_get_totals q f st : totals (qp_get q f st) = totals st.
Proof. unfold qp_get. by destruct (_ <=? _). Qed.
Lemma qp_get_length q f st : length (st_qp (qp_get q f st)) = length (st_qp st).
Proof. unfold qp_get. destruct (_ <=? _); [done|]. apply length_alter. Qed.
Lemma stat_call_length e st : length (st_qp (stat_call e st)) = length (st_qp st).
Proof.
  destruct e as [q n op| | | | |q|]; cbn [stat_call];
    unfold ernic_stats_qp_cqe, ernic_stats_qp_wqe, ernic_stats_qp_doorbell; rewrite ?qp_get_length; try done.
  - unfold ernic_stats_rdma_bytes. destruct (_ =? _); [done|]. by destruct op; rewrite qp_get_length.
  - unfold ernic_stats_qp_forget. destruct (_ <? _); [|done]. apply length_insert.
Qed.
Lemma stats_length log : length (st_qp (stats_of log)) = Z.to_nat ERNIC_MAX_QP.
Proof. induction log as [|e log IH]; [apply length_replicate|]. cbn. by rewrite stat_call_length. Qed.

Lemma totals_exact log : totals (stats_of log) = totals_of log.
Proof.
  induction log as [|e log IH]; [done|]. cbn [stats_of foldr]. fold (stats_of log).
  unfold totals_of in *. rewrite !tally_cons. injection IH as E1 E2 E3 E4 E5.
  destruct e as [q n op | | q | q wr | q b | q |]; cbn [stat_call cmds moved];
    unfold ernic_stats_qp_doorbell, ernic_stats_qp_wqe, ernic_stats_qp_cqe; rewrite ?qp_get_totals, ?tally_add0.
  2-5: unfold totals; cbn; rewrite ?E1, ?E2, ?E3, ?E4, ?E5; done.
  - unfold ernic_stats_rdma_bytes. destruct (Z.eqb_spec n 0) as [->|Hn].
    { unfold totals. destruct op; cbn; rewrite ?tally_add0, ?E1, ?E2, ?E3, ?E4, ?E5; done. }
    destruct op; rewrite qp_get_totals; unfold totals; cbn; rewrite ?tally_add0, ?E1, ?E2, ?E3, ?E4, ?E5; done.
  - unfold ernic_stats_qp_forget. destruct (_ <? _); unfold totals; cbn; rewrite ?E1, ?E2, ?E3, ?E4, ?E5; done.
  - unfold totals. cbn. rewrite ?E1, ?E2, ?E3, ?E4, ?E5; done.
Qed.

(** A change of one queue pair's row. *)
Lemma qp_get_at q k f st :
  fits 32 q -> fits 32 k -> k < ERNIC_MAX_QP -> length (st_qp st) = Z.to_nat ERNIC_MAX_QP ->
  st_qp (qp_get q f st) !!! Z.to_nat k =
    if decide (q = k) then f ((st_qp st !!! Z.to_nat k) <| qs_live := true |>) else st_qp st !!! Z.to_nat k.
Proof.
  intros [Hq _] [Hk _] Hlt Hl. unfold qp_get. case_decide as He; [subst q|]; destruct (_ <=? _) eqn:Hb; bdestr; try done; try lia.
  - cbn [st_qp upd]. rewrite !list_lookup_total_alt, list_lookup_alter_eq.
    destruct (lookup_lt_is_Some_2 (st_qp st) (Z.to_nat k)) as [x ->]; [lia|done].
  - cbn [st_qp upd]. by rewrite !list_lookup_total_alt, list_lookup_alter_ne by lia.
Qed.

(** Field by field, from what they were before the last call. *)
Ltac by_rows := unfold row; cbn; repeat match goal with E : _ = tally _ _ |- _ => rewrite E; clear E end; done.

Lemma row_exact log k :
  Forall stat_ok log -> fits 32 k -> k < ERNIC_MAX_QP ->
  row (st_qp (stats_of log) !!! Z.to_nat k) = row_of k (since_forget k log).
Proof.
  intros Hok Hk Hlt. induction Hok as [|e log He Hlog IH].
  { cbn [stats_of foldr st_qp since_forget]. rewrite lookup_total_replicate_2 by (destruct Hk; lia). done. }
  cbn [stats_of foldr since_forget]. fold (stats_of log). pose proof (stats_length log) as Hl.
  destruct (decide (e = StatQpForget k)) as [->|Hne].
  { cbn [stat_call]. unfold ernic_stats_qp_forget. destruct (_ <? _) eqn:Hb; bdestr; [|lia].
    cbn [st_qp upd]. by rewrite list_lookup_total_insert_eq by (rewrite Hl; destruct Hk; lia). }
  unfold row_of in *. rewrite !tally_cons. injection IH as E1 E2 E3 E4 E5 E6 E7 E8.
  destruct e as [q n op | | q | q wr | q b | q |]; cbn [stat_call stat_ok moved_by rung wqes cqes] in *;
    unfold ernic_stats_qp_doorbell, ernic_stats_qp_wqe, ernic_stats_qp_cqe; rewrite ?tally_add0.
  all: try case_decide; rewrite ?tally_add0.
  - unfold ernic_stats_rdma_bytes. destruct (Z.eqb_spec n 0) as [->|Hn].
    { destruct op; cbn [moved same_op]; rewrite ?tally_add0; by_rows. }
    destruct op; rewrite qp_get_at by done; rewrite decide_True by done; cbn [moved same_op]; rewrite ?tally_add0; by_rows.
  - unfold ernic_stats_rdma_bytes. destruct (_ =? 0); [|destruct op; rewrite qp_get_at, decide_False by done]; by_rows.
  - by_rows.
  - rewrite qp_get_at, decide_True by done. by_rows.
  - rewrite qp_get_at, decide_False by done. by_rows.
  - rewrite qp_get_at, decide_True by done. destruct (_ <? _); by_rows.
  - rewrite qp_get_at, decide_False by done. by_rows.
  - rewrite qp_get_at, decide_True by done. destruct b; cbn [Bool.eqb]; rewrite ?tally_add0; by_rows.
  - rewrite qp_get_at, decide_False by done. by_rows.
  - unfold ernic_stats_qp_forget. destruct (_ <? _) eqn:Hb; bdestr; [|by_rows]. cbn [st_qp upd].
    rewrite list_lookup_total_insert_ne; [by_rows|]. destruct Hk, He. assert (q <> k) by congruence. lia.
  - by_rows.
Qed.

(** What the counters read back is exact: each device total is the sum over
    all calls made, and each counter of a queue pair the sum over the calls
    made for it since it was last forgotten, modulo 2^64; an id no queue pair
    can have reads as zeros. *)
Theorem stats_exact log q :
  Forall stat_ok log -> fits 32 q ->
  ernic_stats_dev_counters (Some (stats_of log)) = (0, totals_of log) /\
  ernic_stats_qp_counters (Some (stats_of log)) q =
    (0, if q <? ERNIC_MAX_QP then row_of q (since_forget q log) else inhabitant).
Proof.
  intros Hok Hq. split; [cbn; f_equal; apply totals_exact|]. unfold ernic_stats_qp_counters.
  rewrite (Z.leb_antisym q ERNIC_MAX_QP). destruct (q <? _) eqn:Hlt; [|done]. bdestr. cbn [negb]. f_equal. by apply row_exact.
Qed.

(** Queue pair 3 is reused: its second life does not see the first's bytes,
    the device's total does. *)
Lemma stats_exact_witness :
  let log := [StatRdmaBytes 3 5 ERNIC_STAT_SEND; StatCommand; StatQpForget 3; StatRdmaBytes 3 100 ERNIC_STAT_SEND] in
  (ernic_stats_dev_counters (Some (stats_of log))).2 = DevCounters 1 105 0 0 0 /\
  (ernic_stats_qp_counters (Some (stats_of log)) 3).2 = QpCounters 0 0 0 0 5 0 0 0.
Proof.
  cbv zeta. destruct (stats_exact [StatRdmaBytes 3 5 ERNIC_STAT_SEND; StatCommand; StatQpForget 3;
    StatRdmaBytes 3 100 ERNIC_STAT_SEND] 3) as [-> ->].
  - repeat constructor; done.
  - done.
  - split; vm_compute; reflexivity.
Defined.
