(* ===== verification/DpWire.v ===== *)
(** * The wire protocol between instances

    The header in front of every mesh message (ionic_datapath_priv.h) and its
    two codecs, ionic_dp_wire_hdr_put() and ionic_dp_wire_hdr_get(). *)
From S2P Require Export DpTypes.

Definition IONIC_WIRE_MAGIC : Z := 0x434e4f49.

(** enum ionic_wire_op *)
Definition IONIC_WIRE_SEND : Z := 1.
Definition IONIC_WIRE_SEND_IMM : Z := 2.
Definition IONIC_WIRE_SEND_INV : Z := 3.
Definition IONIC_WIRE_WRITE : Z := 4.
Definition IONIC_WIRE_WRITE_IMM : Z := 5.
Definition IONIC_WIRE_READ_REQ : Z := 6.
Definition IONIC_WIRE_READ_RESP : Z := 7.
Definition IONIC_WIRE_ATOMIC_REQ : Z := 8.
Definition IONIC_WIRE_ATOMIC_RESP : Z := 9.
Definition IONIC_WIRE_ACK : Z := 10.

Definition IONIC_WIRE_HDR_LEN : Z := 60.
Definition IONIC_WIRE_MAGIC_OFF : nat := 0.
Definition IONIC_WIRE_OP_OFF : nat := 4.
Definition IONIC_WIRE_ATOMIC_CS_OFF : nat := 5.
Definition IONIC_WIRE_SRC_QP_OFF : nat := 8.
Definition IONIC_WIRE_DST_QP_OFF : nat := 12.
Definition IONIC_WIRE_REQ_ID_OFF : nat := 16.
Definition IONIC_WIRE_RKEY_OFF : nat := 20.
Definition IONIC_WIRE_LENGTH_OFF : nat := 24.
Definition IONIC_WIRE_IMM_OFF : nat := 28.
Definition IONIC_WIRE_STATUS_OFF : nat := 32.
Definition IONIC_WIRE_REMOTE_VA_OFF : nat := 36.
Definition IONIC_WIRE_SWAP_ADD_OFF : nat := 44.
Definition IONIC_WIRE_COMPARE_OFF : nat := 52.
Definition IONIC_WIRE_MAX_PAYLOAD : Z := ERNIC_MESH_MAX_MSG - IONIC_WIRE_HDR_LEN.

(** [h_imm_be] holds the immediate data's four bytes as memory does, on a
    little-endian host. *)
Record ionic_wire_hdr := WireHdr {
  h_magic : Z; h_op : Z; h_atomic_cs : Z; h_src_qp_id : Z; h_dst_qp_id : Z;
  h_req_id : Z; h_rkey : Z; h_length : Z; h_imm_be : Z; h_status : Z; h_remote_va : Z;
  h_swap_add : Z; h_compare : Z }.
#[export] Instance ionic_wire_hdr_eta : Eta ionic_wire_hdr := fun r =>
  WireHdr (h_magic r) (h_op r) (h_atomic_cs r) (h_src_qp_id r) (h_dst_qp_id r)
    (h_req_id r) (h_rkey r) (h_length r) (h_imm_be r) (h_status r) (h_remote_va r)
    (h_swap_add r) (h_compare r).
#[export] Instance ionic_wire_hdr_zero : Inhabited ionic_wire_hdr := populate
  (WireHdr 0 0 0 0 0 0 0 0 0 0 0 0 0).

Definition ionic_dp_wire_hdr_put (h : ionic_wire_hdr) : list Z :=
  let wire := zeros 60 in
  let wire := ernic_put_le32 wire IONIC_WIRE_MAGIC_OFF (h_magic h) in
  let wire := bput wire IONIC_WIRE_OP_OFF [u8 (h_op h)] in
  let wire := bput wire IONIC_WIRE_ATOMIC_CS_OFF [u8 (h_atomic_cs h)] in
  let wire := ernic_put_le32 wire IONIC_WIRE_SRC_QP_OFF (h_src_qp_id h) in
  let wire := ernic_put_le32 wire IONIC_WIRE_DST_QP_OFF (h_dst_qp_id h) in
  let wire := ernic_put_le32 wire IONIC_WIRE_REQ_ID_OFF (h_req_id h) in
  let wire := ernic_put_le32 wire IONIC_WIRE_RKEY_OFF (h_rkey h) in
  let wire := ernic_put_le32 wire IONIC_WIRE_LENGTH_OFF (h_length h) in
  let wire := bput wire IONIC_WIRE_IMM_OFF (le32_bytes (h_imm_be h)) in
  let wire := ernic_put_le32 wire IONIC_WIRE_STATUS_OFF (h_status h) in
  let wire := ernic_put_le64 wire IONIC_WIRE_REMOTE_VA_OFF (h_remote_va h) in
  let wire := ernic_put_le64 wire IONIC_WIRE_SWAP_ADD_OFF (h_swap_add h) in
  ernic_put_le64 wire IONIC_WIRE_COMPARE_OFF (h_compare h).

Definition ionic_dp_wire_hdr_get (wire : list Z) : ionic_wire_hdr :=
  WireHdr (ernic_get_le32 wire IONIC_WIRE_MAGIC_OFF)
    (bat wire IONIC_WIRE_OP_OFF 0)
    (bat wire IONIC_WIRE_ATOMIC_CS_OFF 0)
    (ernic_get_le32 wire IONIC_WIRE_SRC_QP_OFF)
    (ernic_get_le32 wire IONIC_WIRE_DST_QP_OFF)
    (ernic_get_le32 wire IONIC_WIRE_REQ_ID_OFF)
    (ernic_get_le32 wire IONIC_WIRE_RKEY_OFF)
    (ernic_get_le32 wire IONIC_WIRE_LENGTH_OFF)
    (ernic_get_le32 wire IONIC_WIRE_IMM_OFF)
    (ernic_get_le32 wire IONIC_WIRE_STATUS_OFF)
    (ernic_get_le64 wire IONIC_WIRE_REMOTE_VA_OFF)
    (ernic_get_le64 wire IONIC_WIRE_SWAP_ADD_OFF)
    (ernic_get_le64 wire IONIC_WIRE_COMPARE_OFF).

(** A header whose fields have the widths of the C structure. *)
Definition hdr_ok (h : ionic_wire_hdr) : Prop :=
  fits 32 (h_magic h) /\ fits 8 (h_op h) /\ fits 8 (h_atomic_cs h) /\ fits 32 (h_src_qp_id h) /\
  fits 32 (h_dst_qp_id h) /\ fits 32 (h_req_id h) /\ fits 32 (h_rkey h) /\ fits 32 (h_length h) /\
  fits 32 (h_imm_be h) /\ fits 32 (h_status h) /\ fits 64 (h_remote_va h) /\
  fits 64 (h_swap_add h) /\ fits 64 (h_compare h).
#[export] Instance hdr_ok_dec h : Decision (hdr_ok h).
Proof. unfold hdr_ok. apply _. Defined.

(** The wire bytes are the fields one after the other. *)
Lemma wire_hdr_layout h :
  ionic_dp_wire_hdr_put h =
    le32_bytes (h_magic h) ++ [u8 (h_op h); u8 (h_atomic_cs h); 0; 0] ++
    le32_bytes (h_src_qp_id h) ++ le32_bytes (h_dst_qp_id h) ++ le32_bytes (h_req_id h) ++
    le32_bytes (h_rkey h) ++ le32_bytes (h_length h) ++ le32_bytes (h_imm_be h) ++
    le32_bytes (h_status h) ++ le64_bytes (h_remote_va h) ++ le64_bytes (h_swap_add h) ++
    le64_bytes (h_compare h).
Proof. reflexivity. Qed.

Lemma wire_hdr_get_fits wire : bytes_ok wire -> hdr_ok (ionic_dp_wire_hdr_get wire).
Proof.
  intros Hw. unfold hdr_ok.
  split_and!; first [exact (get_le32_fits wire Hw _) | exact (get_le64_fits wire Hw _) |
    exact (bat_ok wire _ 0 Hw)].
Qed.

(** Every header survives the wire: what ionic_dp_wire_hdr_put() writes,
    with any payload after it, ionic_dp_wire_hdr_get() reads back field for
    field, and it occupies exactly IONIC_WIRE_HDR_LEN bytes. *)
Theorem wire_hdr_roundtrip (h : ionic_wire_hdr) (payload : list Z) :
  hdr_ok h -> bytes_ok payload ->
  ionic_dp_wire_hdr_get (ionic_dp_wire_hdr_put h ++ payload) = h /\
  Z.of_nat (length (ionic_dp_wire_hdr_put h)) = IONIC_WIRE_HDR_LEN.
Proof.
  intros Hh Hp. split; [|by rewrite wire_hdr_layout]. rewrite wire_hdr_layout.
  destruct h as [magic op cs src dst req rkey len imm st va swap cmp].
  unfold hdr_ok in Hh. cbn in Hh. destruct_and! Hh.
  set (w := _ ++ payload).
  assert (bytes_ok w) as Hok.
  { unfold w, bytes_ok. rewrite !Forall_app.
    split_and!; try done; first [apply le32_bytes_ok | apply le64_bytes_ok | bytes_solve]. }
  assert (forall off v, (forall i, (i < 4)%nat -> bat w off i = le32_bytes v !!! i) -> fits 32 v ->
    ernic_get_le32 w off = v) as H32.
  { intros off v Hb Hv. rewrite (get_le32_of_bytes w off v Hok Hb). by apply wrap_id. }
  assert (forall off v, (forall i, (i < 8)%nat -> bat w off i = le64_bytes v !!! i) -> fits 64 v ->
    ernic_get_le64 w off = v) as H64.
  { intros off v Hb Hv. rewrite (get_le64_of_bytes w off v Hok Hb). by apply wrap_id. }
  unfold ionic_dp_wire_hdr_get. f_equal;
    first [ apply H32; [|assumption]; intros i Hi; by do 4 (destruct i as [|i]; [reflexivity|]); lia
          | apply H64; [|assumption]; intros i Hi; by do 8 (destruct i as [|i]; [reflexivity|]); lia
          | change (u8 op = op); by apply wrap_id
          | change (u8 cs = cs); by apply wrap_id ].
Qed.

Lemma wire_hdr_roundtrip_witness :
  let h := WireHdr IONIC_WIRE_MAGIC IONIC_WIRE_WRITE 0 3 7 41 0x105 512 0 0 0xdeadbeef000 0 0 in
  ionic_dp_wire_hdr_get (ionic_dp_wire_hdr_put h ++ [1; 2; 3]) = h.
Proof.
  apply (wire_hdr_roundtrip
    (WireHdr IONIC_WIRE_MAGIC IONIC_WIRE_WRITE 0 3 7 41 0x105 512 0 0 0xdeadbeef000 0 0) [1; 2; 3]).
  - vm_compute. repeat split; congruence.
  - vm_compute. repeat constructor; congruence.
Defined.
