(* ===== verification/DpBuf.v ===== *)
(** * Page-table backed buffers (ionic_datapath.c, "Page-table backed buffers")

    How the guest's description of a ring or a memory region becomes a
    [dp_buf], and how an offset in it becomes a guest physical address with
    the bytes that stay contiguous from there.  [buf_byte] is the reference
    translation, one byte at a time. *)
From S2P Require Export DpTypes.

Definition DP_PAGE_SIZE_LOG2_MAX : Z := 30.
Definition DP_PAGE_SIZE_LOG2_DEFAULT : Z := 12.

Definition ionic_dp_buf_release (b : dp_buf) : dp_buf := inhabitant.

Definition ionic_dp_ring_span_bytes (depth_log2 stride_log2 : Z) : Z :=
  let total := depth_log2 + stride_log2 in
  if 64 <=? total then 0 else Z.shiftl 1 total.

Definition ionic_dp_ring_geometry_ok (depth_log2 stride_log2 min_stride_log2 max_stride_log2 : Z) :
    bool :=
  (depth_log2 <=? IONIC_RING_MAX_DEPTH_LOG2) && (min_stride_log2 <=? stride_log2) &&
  (stride_log2 <=? max_stride_log2).

Definition ionic_dp_cq_stride_log2 (ring : ionic_dp_ring_desc) : Z :=
  if rd_stride_log2 ring =? 0 then IONIC_CQ_MIN_STRIDE_LOG2 else rd_stride_log2 ring.

(** The page table as read from the guest, each le64 entry made a value. *)
Definition page_entries (bs : list Z) (map_count : Z) : list Z :=
  (fun i => ernic_get_le64 bs (8 * i)) <$> seq 0 (Z.to_nat map_count).

Section buf_init.
Context {E : Env}.

(** The largest page table a region of [span] bytes may have. *)
Definition buf_max_pages (span psl : Z) : Z :=
  let page_size := Z.shiftl 1 psl in
  let n := u64 (Z.shiftr span psl +
                (if Z.land span (page_size - 1) =? 0 then 0 else 1) + 1) in
  if ERNIC_MAX_PAGE_TABLE_ENTRIES <? n then ERNIC_MAX_PAGE_TABLE_ENTRIES else n.

(** Returns the status and the buffer as [*b] is left, which starts out
    released. *)
Definition ionic_dp_buf_init (desc : ionic_dp_buf_desc) (va span : Z) : DP (Z * dp_buf) :=
  let map_count := bd_map_count desc in
  let b := inhabitant in
  if DP_PAGE_SIZE_LOG2_MAX <? bd_page_size_log2 desc then mret (- EINVAL, b)
  else
    let psl := if bd_page_size_log2 desc =? 0 then DP_PAGE_SIZE_LOG2_DEFAULT
               else bd_page_size_log2 desc in
    let b := b <| b_page_size_log2 := psl |> in
    if (span =? 0) || (buf_max_pages span psl <? map_count) then mret (- EINVAL, b)
    else if map_count <=? 1 then
      mret (0, b <| b_base := bd_dma_addr desc |> <| b_npages := 1 |>)
    else
      ok ← alloc;
      if negb (ok : bool) then mret (- ENOMEM, b) else
      r ← dp_dma_read (bd_dma_addr desc) (map_count * 8);
      match r with
      | None => mret (- EIO, ionic_dp_buf_release b)
      | Some bs =>
          mret (0, b <| b_npages := map_count |>
                     <| b_pages := Some (page_entries bs map_count) |>
                     <| b_first_off := u32 (Z.land va (Z.shiftl 1 psl - 1)) |>)
      end.
End buf_init.

(** The loop of buf_gpa(): [pages] are the entries from [idx] on. *)
Fixpoint buf_gpa_run (psz : Z) (pages : list Z) (len : Z) : Z :=
  match pages with
  | p :: (p' :: _) as rest =>
      if p' =? u64 (p + psz) then buf_gpa_run psz rest (u64 (len + psz)) else len
  | _ => len
  end.

(** The address and [*run]. *)
Definition buf_gpa (b : dp_buf) (off : Z) : Z * Z :=
  match b_pages b with
  | Some pages =>
      if b_npages b <=? 1 then
        if UINT64_MAX - b_base b <? off then (0, 0) else (b_base b + off, UINT64_MAX)
      else if UINT64_MAX - b_first_off b <? off then (0, 0)
      else
        let abs := off + b_first_off b in
        let psz := Z.shiftl 1 (b_page_size_log2 b) in
        let idx := Z.shiftr abs (b_page_size_log2 b) in
        let poff := Z.land abs (psz - 1) in
        if b_npages b <=? idx then (0, 0)
        else
          (u64 (pages !!! Z.to_nat idx + poff),
           buf_gpa_run psz (drop (Z.to_nat idx) (take (Z.to_nat (b_npages b)) pages))
             (psz - poff))
  | None => if UINT64_MAX - b_base b <? off then (0, 0) else (b_base b + off, UINT64_MAX)
  end.

(** ** Well-formed buffers *)

Definition buf_wf (b : dp_buf) : Prop :=
  fits 64 (b_base b) /\
  match b_pages b with
  | None => b_npages b <= 1
  | Some pages =>
      1 < b_npages b <= ERNIC_MAX_PAGE_TABLE_ENTRIES /\
      Z.of_nat (length pages) = b_npages b /\
      Forall (fits 64) pages /\
      1 <= b_page_size_log2 b <= DP_PAGE_SIZE_LOG2_MAX /\
      0 <= b_first_off b < 2 ^ b_page_size_log2 b
  end.

(** ** The reference translation: where byte [off] of the buffer is *)
Definition buf_byte (b : dp_buf) (off : Z) : option Z :=
  match b_pages b with
  | None => if off <=? UINT64_MAX - b_base b then Some (b_base b + off) else None
  | Some pages =>
      let abs := off + b_first_off b in
      let psz := 2 ^ b_page_size_log2 b in
      if abs <=? UINT64_MAX then
        p ← pages !! Z.to_nat (abs / psz); Some (u64 (p + abs mod psz))
      else None
  end.

(** ** Proofs *)

Lemma u64_add_l x y : u64 (u64 x + y) = u64 (x + y).
Proof. unfold wrap. by rewrite Zplus_mod_idemp_l. Qed.

Lemma u64_page0 p psz : fits 64 p -> u64 (p + Z.of_nat 0 * psz) = p.
Proof. intros. rewrite wrap_id; replace (p + Z.of_nat 0 * psz) with p by lia; done. Qed.

Lemma buf_gpa_run_step psz p p' rest len :
  buf_gpa_run psz (p :: p' :: rest) len =
  if p' =? u64 (p + psz) then buf_gpa_run psz (p' :: rest) (u64 (len + psz)) else len.
Proof. done. Qed.

(** The run grows by whole pages, each following the one before. *)
Lemma buf_gpa_run_spec psz p rest len :
  0 < psz -> 0 <= len -> fits 64 p -> len + Z.of_nat (length rest) * psz < 2 ^ 64 ->
  exists k : nat,
    buf_gpa_run psz (p :: rest) len = len + Z.of_nat k * psz /\
    forall j : nat, (j <= k)%nat -> (p :: rest) !! j = Some (u64 (p + Z.of_nat j * psz)).
Proof.
  revert p len. induction rest as [|p' rest IH]; intros p len Hpsz Hlen Hp Hb.
  - exists 0%nat. split; [cbn; lia|]. intros j ?. replace j with 0%nat by lia. by rewrite u64_page0.
  - rewrite buf_gpa_run_step. rewrite length_cons in Hb. destruct (p' =? _) eqn:Hadj; bdestr.
    + destruct (IH p' (len + psz)) as (k & Hk & Hat); try lia.
      { subst p'. apply wrap_fits. lia. }
      exists (S k). rewrite (wrap_id 64 (len + psz)) by (unfold fits; lia).
      split; [rewrite Hk; lia|]. intros [|j] Hj.
      * by rewrite u64_page0.
      * change ((p :: p' :: rest) !! S j) with ((p' :: rest) !! j).
        rewrite (Hat j) by lia. f_equal. subst p'. rewrite u64_add_l. f_equal. lia.
    + exists 0%nat. split; [lia|]. intros j ?. replace j with 0%nat by lia. by rewrite u64_page0.
Qed.

(** It stops at a page the next entry does not follow. *)
Lemma buf_gpa_run_stops psz p rest len :
  0 < psz -> 0 <= len -> fits 64 p -> len + Z.of_nat (length rest) * psz < 2 ^ 64 ->
  exists (k : nat) q, buf_gpa_run psz (p :: rest) len = len + Z.of_nat k * psz /\
    (p :: rest) !! k = Some q /\ (p :: rest) !! S k <> Some (u64 (q + psz)).
Proof.
  revert p len. induction rest as [|p' rest IH]; intros p len Hpsz Hlen Hp Hb.
  - exists 0%nat, p. split; [cbn; lia|done].
  - rewrite buf_gpa_run_step. rewrite length_cons in Hb. destruct (p' =? _) eqn:Hadj; bdestr.
    + destruct (IH p' (len + psz)) as (k & q & Hk & Hq & Hn); try lia.
      { subst p'. apply wrap_fits. lia. }
      exists (S k), q. rewrite (wrap_id 64 (len + psz)) by (unfold fits; lia). split; [rewrite Hk; lia|done].
    + exists 0%nat, p. split; [lia|]. split; [done|]. cbn. congruence.
Qed.

Section buf_gpa_spec.
Context (b : dp_buf) (Hwf : buf_wf b).

(** A paged translation in range, its parts named. *)
Lemma buf_gpa_paged pages off :
  b_pages b = Some pages -> 0 <= off ->
  let psz := 2 ^ b_page_size_log2 b in
  let abs := off + b_first_off b in
  buf_gpa b off = (0, 0) /\ (UINT64_MAX < abs \/ b_npages b <= abs / psz) \/
  abs <= UINT64_MAX /\ abs / psz < b_npages b /\
  buf_gpa b off =
    (u64 (pages !!! Z.to_nat (abs / psz) + abs mod psz),
     buf_gpa_run psz (drop (Z.to_nat (abs / psz)) pages) (psz - abs mod psz)).
Proof.
  intros Hp Hoff psz abs. destruct Hwf as [_ Hw]. rewrite Hp in Hw.
  destruct Hw as ((Hn & _) & Hlen & _ & Hpsl & Hfo).
  unfold buf_gpa. rewrite Hp.
  rewrite Z.shiftl_mul_pow2, Z.mul_1_l, land_mask, Z.shiftr_div_pow2 by lia.
  fold psz abs. rewrite (take_ge pages) by lia.
  repeat case_match; bdestr; first [lia | left; split; [done|]; subst abs psz; lia | right; auto with lia].
Qed.

(** The run is the contiguous stretch of the per-byte translation, up to an
    address that would carry past 2^64. *)
Lemma buf_gpa_bytes off gpa run i :
  fits 64 off -> buf_gpa b off = (gpa, run) ->
  0 <= i < run -> gpa + i < 2 ^ 64 -> buf_byte b (off + i) = Some (gpa + i).
Proof.
  intros Hoff Hg Hi Hc. pose proof Hwf as [Hb Hw]. unfold fits in *.
  destruct (b_pages b) as [pages|] eqn:Hp.
  2: { unfold buf_gpa in Hg. unfold buf_byte. rewrite Hp in *.
       case_match; bdestr; simplify_eq; [lia|].
       case_match; bdestr; [f_equal; lia | unfold UINT64_MAX in *; lia]. }
  destruct Hw as (Hn & Hlen & Hfits & Hpsl & Hfo).
  destruct (buf_gpa_paged pages off Hp ltac:(lia)) as [[He _]|(Habs & Hidx & He)];
    rewrite He in Hg; simplify_eq; [lia|].
  set (psz := 2 ^ b_page_size_log2 b) in *. set (abs := off + b_first_off b) in *.
  assert (0 < psz <= 2 ^ 30) as Hpsz.
  { split; [apply Z.pow_pos_nonneg; lia|]. apply Z.pow_le_mono_r; unfold DP_PAGE_SIZE_LOG2_MAX in *; lia. }
  pose proof (Z.mod_pos_bound abs psz ltac:(lia)) as Hpoff.
  pose proof (Z.div_pos abs psz ltac:(lia) ltac:(lia)) as Hd.
  destruct (lookup_lt_is_Some_2 pages (Z.to_nat (abs / psz))) as [p Hpg]; [lia|].
  rewrite (drop_S _ _ _ Hpg) in Hi. rewrite (list_lookup_total_correct _ _ _ Hpg) in *.
  assert (fits 64 p) as Hpf by (by eapply (Forall_lookup_1 _ _ _ _ Hfits)).
  destruct (buf_gpa_run_spec psz p (drop (S (Z.to_nat (abs / psz))) pages) (psz - abs mod psz))
    as (k & Hk & Hat); try done; try lia.
  { rewrite length_drop. unfold ERNIC_MAX_PAGE_TABLE_ENTRIES in *. nia. }
  rewrite Hk in Hi.
  assert (0 <= (abs + i) / psz - abs / psz <= Z.of_nat k) as Hj.
  { pose proof (Z.div_mod abs psz ltac:(lia)). pose proof (Z.div_mod (abs + i) psz ltac:(lia)).
    pose proof (Z.mod_pos_bound (abs + i) psz ltac:(lia)). nia. }
  specialize (Hat (Z.to_nat ((abs + i) / psz - abs / psz)) ltac:(lia)).
  rewrite <-(drop_S _ _ _ Hpg) in Hat. rewrite lookup_drop in Hat.
  replace (Z.to_nat (abs / psz) + _)%nat with (Z.to_nat ((abs + i) / psz)) in Hat by lia.
  pose proof (lookup_lt_Some _ _ _ Hat) as Hlt.
  unfold buf_byte. rewrite Hp. fold psz.
  replace (off + i + b_first_off b) with (abs + i) by (subst abs; lia).
  assert (abs + i <= UINT64_MAX) as Hub.
  { pose proof (Z.div_mod (abs + i) psz ltac:(lia)). pose proof (Z.mod_pos_bound (abs + i) psz ltac:(lia)).
    unfold UINT64_MAX, ERNIC_MAX_PAGE_TABLE_ENTRIES in *. nia. }
  apply Z.leb_le in Hub. rewrite Hub. cbn. rewrite Hat. cbn. f_equal.
  rewrite u64_add_l. rewrite Z2Nat.id by lia.
  assert (p + ((abs + i) / psz - abs / psz) * psz + (abs + i) mod psz = p + abs mod psz + i) as ->.
  { pose proof (Z.div_mod abs psz ltac:(lia)). pose proof (Z.div_mod (abs + i) psz ltac:(lia)). nia. }
  rewrite <-u64_add_l. apply wrap_id. unfold fits. pose proof (wrap_fits 64 (p + abs mod psz) ltac:(lia)) as Hw64.
  unfold fits in Hw64. lia.
Qed.

Lemma buf_gpa_range off :
  fits 64 off -> fits 64 (buf_gpa b off).1 /\ 0 <= (buf_gpa b off).2.
Proof.
  intros Hoff. pose proof Hwf as [Hb Hw]. unfold fits in *.
  destruct (b_pages b) as [pages|] eqn:Hp.
  2: { unfold buf_gpa. rewrite Hp. case_match; bdestr; cbn; unfold UINT64_MAX in *; lia. }
  destruct Hw as (Hn & Hlen & Hfits & Hpsl & Hfo).
  pose proof (Z.pow_pos_nonneg 2 (b_page_size_log2 b) ltac:(lia) ltac:(lia)) as Hpsz.
  pose proof (Z.div_pos (off + b_first_off b) _ ltac:(lia) Hpsz) as Hd.
  pose proof (Z.mod_pos_bound (off + b_first_off b) _ Hpsz) as Hm.
  assert (2 ^ b_page_size_log2 b <= 2 ^ 30).
  { apply Z.pow_le_mono_r; unfold DP_PAGE_SIZE_LOG2_MAX in *; lia. }
  destruct (buf_gpa_paged pages off Hp ltac:(lia)) as [[-> _]|(Habs & Hidx & ->)]; cbn [fst snd];
    [lia|]. split; [apply wrap_fits; lia|].
  destruct (lookup_lt_is_Some_2 pages (Z.to_nat ((off + b_first_off b) / 2 ^ b_page_size_log2 b)))
    as [p Hpg]; [lia|]. rewrite (drop_S _ _ _ Hpg).
  edestruct (buf_gpa_run_spec (2 ^ b_page_size_log2 b) p) as (k & -> & _);
    [lia | | by eapply (Forall_lookup_1 _ _ _ _ Hfits) | | ]; [lia| |lia].
  rewrite length_drop. unfold ERNIC_MAX_PAGE_TABLE_ENTRIES in *. nia.
Qed.

(** No run exactly where the reference translates nothing. *)
Lemma buf_gpa_none off :
  fits 64 off -> (buf_gpa b off).2 = 0 <-> buf_byte b off = None.
Proof.
  intros Hoff. pose proof Hwf as [Hb Hw]. unfold fits in *.
  destruct (b_pages b) as [pages|] eqn:Hp.
  2: { unfold buf_gpa, buf_byte. rewrite Hp. repeat case_match; bdestr; cbn; split; try done; lia. }
  destruct Hw as (Hn & Hlen & Hfits & Hpsl & Hfo).
  pose proof (Z.pow_pos_nonneg 2 (b_page_size_log2 b) ltac:(lia) ltac:(lia)) as Hpsz.
  pose proof (Z.div_pos (off + b_first_off b) _ ltac:(lia) Hpsz) as Hd.
  pose proof (Z.mod_pos_bound (off + b_first_off b) _ Hpsz) as Hm.
  assert (2 ^ b_page_size_log2 b <= 2 ^ 30).
  { apply Z.pow_le_mono_r; unfold DP_PAGE_SIZE_LOG2_MAX in *; lia. }
  unfold buf_byte. rewrite Hp.
  destruct (buf_gpa_paged pages off Hp ltac:(lia)) as [[-> Hout]|(Habs & Hidx & ->)]; cbn [snd].
  - split; [intros _|done]. destruct (_ <=? _) eqn:?; [|done]. bdestr.
    rewrite lookup_ge_None_2 by lia. done.
  - destruct (lookup_lt_is_Some_2 pages (Z.to_nat ((off + b_first_off b) / 2 ^ b_page_size_log2 b)))
      as [p Hpg]; [lia|].
    apply Z.leb_le in Habs. rewrite Habs, Hpg, (drop_S _ _ _ Hpg).
    destruct (buf_gpa_run_spec (2 ^ b_page_size_log2 b) p
      (drop (S (Z.to_nat ((off + b_first_off b) / 2 ^ b_page_size_log2 b))) pages)
      (2 ^ b_page_size_log2 b - (off + b_first_off b) mod 2 ^ b_page_size_log2 b)) as (k & -> & _);
      try lia; [by eapply (Forall_lookup_1 _ _ _ _ Hfits)| |cbn; split; [lia|done]].
    rewrite length_drop. unfold ERNIC_MAX_PAGE_TABLE_ENTRIES in *. nia.
Qed.

Lemma buf_byte_page pages idx poff q :
  b_pages b = Some pages -> 0 <= idx < 2 ^ 33 -> pages !! Z.to_nat idx = Some q -> 0 <= poff < 2 ^ b_page_size_log2 b ->
  buf_byte b (idx * 2 ^ b_page_size_log2 b + poff - b_first_off b) = Some (u64 (q + poff)).
Proof.
  intros Hp Hi Hq Hpo. pose proof Hwf as [_ Hw]. rewrite Hp in Hw. destruct Hw as (_ & _ & _ & Hpsl & _).
  assert (2 ^ b_page_size_log2 b <= 2 ^ 30) by (apply Z.pow_le_mono_r; unfold DP_PAGE_SIZE_LOG2_MAX in *; lia).
  unfold buf_byte. rewrite Hp, Z.sub_add, (proj2 (Z.leb_le _ _)) by (unfold UINT64_MAX; nia).
  rewrite Z.div_add_l, (Z.div_small poff), Z.add_0_r by lia. rewrite Z.add_comm, Z_mod_plus_full, Z.mod_small by lia.
  by rewrite Hq.
Qed.

(** The run misses no byte that follows the one before it in guest memory. *)
Lemma buf_gpa_maximal off g n :
  fits 64 off -> 0 < n <= UINT64_MAX -> (forall i, 0 <= i < n -> buf_byte b (off + i) = Some (g + i)) -> n <= (buf_gpa b off).2.
Proof.
  intros Hoff Hn Hat. pose proof Hwf as [Hb Hw]. unfold fits in *.
  pose proof (Hat 0 ltac:(lia)) as H0. rewrite !Z.add_0_r in H0.
  destruct (b_pages b) as [pages|] eqn:Hp.
  2: { unfold buf_gpa, buf_byte in *. rewrite Hp in *. repeat case_match; bdestr; cbn; try done; lia. }
  destruct Hw as (Hnp & Hlen & Hfits & Hpsl & Hfo).
  pose proof (buf_gpa_none off Hoff) as Hnone. rewrite H0 in Hnone.
  destruct (buf_gpa_paged pages off Hp ltac:(lia)) as [[He _]|(Habs & Hidx & He)];
    rewrite He in *; cbn [fst snd] in *; [discriminate (proj1 Hnone eq_refl)|]. clear Hnone He.
  set (psz := 2 ^ b_page_size_log2 b) in *. set (abs := off + b_first_off b) in *.
  assert (0 < psz <= 2 ^ 30) as Hpsz.
  { split; [apply Z.pow_pos_nonneg; lia|]. apply Z.pow_le_mono_r; unfold DP_PAGE_SIZE_LOG2_MAX in *; lia. }
  pose proof (Z.mod_pos_bound abs psz ltac:(lia)) as Hpoff. pose proof (Z.div_mod abs psz ltac:(lia)) as Hdm.
  pose proof (Z.div_pos abs psz ltac:(lia) ltac:(lia)) as Hd. set (idx := abs / psz) in *.
  destruct (lookup_lt_is_Some_2 pages (Z.to_nat idx)) as [p Hpg]; [lia|]. rewrite (drop_S _ _ _ Hpg).
  destruct (buf_gpa_run_stops psz p (drop (S (Z.to_nat idx)) pages) (psz - abs mod psz)) as (k & q & -> & Hq & Hstop);
    [lia|lia|by eapply (Forall_lookup_1 _ _ _ _ Hfits)|rewrite length_drop; unfold ERNIC_MAX_PAGE_TABLE_ENTRIES in *; nia|].
  apply Z.nlt_ge. intros Hlt. rewrite <-(drop_S _ _ _ Hpg) in Hq, Hstop. rewrite lookup_drop in Hq, Hstop.
  set (r := psz - abs mod psz + Z.of_nat k * psz) in *.
  assert (idx + Z.of_nat k < b_npages b) by (apply lookup_lt_Some in Hq; lia). unfold ERNIC_MAX_PAGE_TABLE_ENTRIES in *.
  pose proof (Hat (r - 1) ltac:(subst r; nia)) as H1. pose proof (Hat r ltac:(subst r; nia)) as H2.
  replace (off + (r - 1)) with ((idx + Z.of_nat k) * psz + (psz - 1) - b_first_off b) in H1 by (subst r abs; lia).
  pose proof (buf_byte_page pages (idx + Z.of_nat k) (psz - 1) q Hp ltac:(lia)
    ltac:(rewrite <-Hq; f_equal; lia) ltac:(fold psz; lia)) as B1. fold psz in B1. rewrite B1 in H1. clear B1.
  destruct (pages !! Z.to_nat (idx + Z.of_nat k + 1)) as [p'|] eqn:Hp'.
  - replace (off + r) with ((idx + Z.of_nat k + 1) * psz + 0 - b_first_off b) in H2 by (subst r abs; lia).
    pose proof (buf_byte_page pages (idx + Z.of_nat k + 1) 0 p' Hp ltac:(lia) Hp' ltac:(fold psz; lia)) as B2.
    fold psz in B2. rewrite B2 in H2. clear B2.
    pose proof (Forall_lookup_1 _ _ _ _ Hfits Hp') as Hpf. rewrite Z.add_0_r, wrap_id in H2 by done.
    apply Hstop. replace (Z.to_nat idx + S k)%nat with (Z.to_nat (idx + Z.of_nat k + 1)) by lia.
    rewrite Hp'. f_equal. replace (q + psz) with (q + (psz - 1) + 1) by lia. rewrite <-u64_add_l. unfold fits in Hpf.
    rewrite wrap_id; [|unfold fits]; simplify_eq; lia.
  - revert H2. unfold buf_byte. rewrite Hp. fold psz. destruct (_ <=? _); [|done].
    replace ((off + r + b_first_off b) / psz) with (idx + Z.of_nat k + 1); [by rewrite Hp'|].
    apply (Z.div_unique_pos _ _ _ 0); subst r abs; lia.
Qed.
End buf_gpa_spec.

Lemma buf_wf_empty : buf_wf inhabitant.
Proof. split; cbn; [unfold fits|]; lia. Qed.

Lemma page_entries_length bs n : length (page_entries bs n) = Z.to_nat n.
Proof. unfold page_entries. by rewrite length_fmap, length_seq. Qed.

Section buf_init_spec.
Context {E : Env} {ML : GuestMemLaws Mem}.

(** What a successful set-up leaves: a direct address, or the page table
    guest memory holds, within the bound for the span. *)
Definition buf_init_post (m : Mem) (desc : ionic_dp_buf_desc) (va span : Z) (b : dp_buf) : Prop :=
  let psl := if bd_page_size_log2 desc =? 0 then DP_PAGE_SIZE_LOG2_DEFAULT
             else bd_page_size_log2 desc in
  0 < span /\ b_page_size_log2 b = psl /\ 1 <= psl <= DP_PAGE_SIZE_LOG2_MAX /\
  (bd_map_count desc <= 1 /\ b_npages b = 1 /\ b_base b = bd_dma_addr desc /\ b_pages b = None \/
   1 < bd_map_count desc <= Z.min (span / 2 ^ psl + 2) ERNIC_MAX_PAGE_TABLE_ENTRIES /\
   b_npages b = bd_map_count desc /\ b_base b = 0 /\
   b_first_off b = va mod 2 ^ psl /\
   b_pages b =
     Some (page_entries (peekn m (bd_dma_addr desc) (bd_map_count desc * 8)) (bd_map_count desc))).

Definition desc_ok (desc : ionic_dp_buf_desc) : Prop :=
  fits 64 (bd_dma_addr desc) /\ fits 32 (bd_map_count desc) /\ fits 8 (bd_page_size_log2 desc).

Lemma buf_max_pages_bound span psl :
  fits 64 span -> 1 <= psl ->
  buf_max_pages span psl <= Z.min (span / 2 ^ psl + 2) ERNIC_MAX_PAGE_TABLE_ENTRIES.
Proof.
  intros Hs Hp. unfold buf_max_pages. rewrite Z.shiftr_div_pow2 by lia.
  assert (0 <= span / 2 ^ psl < 2 ^ 63).
  { split; [apply Z.div_pos; unfold fits in *; lia|]. apply Z.div_lt_upper_bound; [lia|].
    assert (2 ^ 1 <= 2 ^ psl) by (apply Z.pow_le_mono_r; lia). unfold fits in *. nia. }
  rewrite wrap_id; unfold fits; repeat case_match; bdestr; lia.
Qed.

(** It only reads guest memory; a failure leaves no page table behind. *)
Lemma buf_init_cases desc va span s :
  desc_ok desc -> fits 64 span ->
  let r := (ionic_dp_buf_init desc va span s).1 in
  r.1 < 0 /\ b_pages r.2 = None /\ b_npages r.2 = 0 /\ b_base r.2 = 0 \/
  r.1 = 0 /\ buf_init_post (dp_mem s) desc va span r.2.
Proof.
  intros (Hd & Hm & Hp) Hs. unfold ionic_dp_buf_init, buf_init_post.
  set (psl := if _ =? 0 then _ else _).
  destruct (_ <? bd_page_size_log2 desc) eqn:Hbig; [left; repeat split; cbn; lia|].
  assert (1 <= psl <= DP_PAGE_SIZE_LOG2_MAX) as Hpsl.
  { subst psl. unfold fits, DP_PAGE_SIZE_LOG2_MAX, DP_PAGE_SIZE_LOG2_DEFAULT in *. bdestr. case_match; bdestr; lia. }
  destruct (_ || _) eqn:Hsp; [left; repeat split; cbn; lia|].
  apply orb_false_iff in Hsp as [Hsp Hmc]. bdestr.
  pose proof (buf_max_pages_bound span psl Hs ltac:(lia)). unfold fits in *.
  destruct (bd_map_count desc <=? 1) eqn:H1; bdestr.
  { right. cbn. repeat split; try lia. left. repeat split; lia. }
  unfold mbind, st_bind, alloc. cbn -[Z.min Z.pow Z.div].
  destruct (alloc_ok _); cbn -[Z.min Z.pow Z.div]; [|left; repeat split; lia].
  destruct (dma_read _ _ _) as [bs|] eqn:Hr; cbn -[Z.min Z.pow Z.div]; [|left; repeat split; lia].
  apply dma_read_spec in Hr as [-> Ha]; [|done|lia].
  right. repeat split; try lia. right. repeat split; try lia.
  rewrite Z.shiftl_mul_pow2, Z.mul_1_l, land_mask by lia.
  apply wrap_id. pose proof (Z.mod_pos_bound va (2 ^ psl) ltac:(lia)).
  assert (2 ^ psl <= 2 ^ 30) by (apply Z.pow_le_mono_r; unfold DP_PAGE_SIZE_LOG2_MAX in *; lia).
  unfold fits. lia.
Qed.

Lemma buf_init_frame desc va span : keeps (frame [FCalls]) (ionic_dp_buf_init desc va span).
Proof. unfold ionic_dp_buf_init. frame_auto. Qed.

Lemma peekn_ok (m : Mem) a n : bytes_ok (peekn m a n).
Proof. apply Forall_fmap, Forall_true. intros x. apply peek_byte. Qed.

Lemma buf_init_post_wf m desc va span b :
  desc_ok desc -> fits 64 span -> buf_init_post m desc va span b -> buf_wf b.
Proof.
  intros (Hd & Hm & Hp) Hs (Hsp & Hpsl & Hr & [(Hc & Hn & Hb & Hpg)|(Hc & Hn & Hb & Hfo & Hpg)]);
    unfold buf_wf; rewrite Hpg.
  - rewrite Hb, Hn. split; [done|lia].
  - rewrite Hb, Hn, Hfo, Hpsl, page_entries_length.
    pose proof (Z.mod_pos_bound va _ (Z.pow_pos_nonneg 2 _ eq_refl (Z.le_trans 0 1 _ Z.le_0_1 (proj1 Hr)))).
    split; [unfold fits; lia|]. repeat split; try lia.
    apply Forall_fmap, Forall_true. intros i. apply get_le64_fits, peekn_ok.
Qed.
End buf_init_spec.

#[export] Hint Resolve buf_wf_empty : bytes.
#[export] Hint Resolve buf_init_frame : frame.
