(* ===== verification/DpMr.v ===== *)
(** * Memory regions and the translation of scatter/gather addresses

    The MR table (mr_find() to dp_reg_mr()), the transfer fault, and
    sge_gpa(): the code that says which guest bytes a key reaches.
    [key_byte] is the reference: the guest address of one byte under a key. *)
From S2P Require Export DpBuf.

Definition ionic_mr_slot (key : Z) : option Z :=
  let index := Z.shiftr key IONIC_MRID_INDEX_SHIFT in
  if (index =? 0) || (ERNIC_MAX_MR <? index) then None else Some (index - 1).

Section mr_ops.
Context {E : Env}.

Definition mr_find (lkey : Z) (s : ionic_datapath) : option dp_mr :=
  match ionic_mr_slot lkey with
  | None => None
  | Some slot =>
      let m := mr_at slot s in
      if mr_valid m && (mr_lkey m =? lkey) then Some m else None
  end.

Definition upd_mr (slot : Z) (f : dp_mr -> dp_mr) : DP unit :=
  modify (fun s => s <| dp_mrs := <[slot := f (mr_at slot s)]> (dp_mrs s) |>).

Definition dp_mr_unbind (m : dp_mr) : dp_mr :=
  m <| mr_buf ::= ionic_dp_buf_release |> <| mr_valid := false |>.

Definition ionic_datapath_unregister_mr (key : Z) : DP unit :=
  match ionic_mr_slot key with
  | Some slot => upd_mr slot dp_mr_unbind
  | None => mret tt
  end.

Definition ionic_datapath_register_mr (lkey va length : Z) (buf : ionic_dp_buf_desc) : DP Z :=
  match ionic_mr_slot lkey with
  | None => mret (- EINVAL)
  | Some slot =>
      if UINT64_MAX - va <? length then
        ionic_datapath_unregister_mr lkey ;; mret (- EINVAL)
      else
        r ← ionic_dp_buf_init buf va length;
        let '(rc, b) := r : Z * dp_buf in
        upd_mr slot (fun m => m <| mr_buf := b |>) ;;
        if rc <? 0 then
          upd_mr slot (fun m => m <| mr_valid := false |>) ;; mret rc
        else
          upd_mr slot (fun m => m <| mr_lkey := lkey |> <| mr_va := va |>
                                  <| mr_length := length |> <| mr_valid := true |>) ;;
          mret 0
  end.

Definition dp_local_inv (key : Z) : DP unit :=
  m ← gets (mr_find key);
  match m, ionic_mr_slot key with
  | Some _, Some slot => upd_mr slot dp_mr_unbind
  | _, _ => mret tt
  end.

Definition dp_reg_mr (wqe : list Z) (key : Z) : DP Z :=
  let buf := BufDesc (ernic_get_be64 wqe WQE_REG_MR_DMA_ADDR_OFF)
                     (ernic_get_be32 wqe WQE_REG_MR_MAP_COUNT_OFF)
                     (bat wqe WQE_REG_MR_PAGE_SZ_L2_OFF 0) in
  ionic_datapath_register_mr key (ernic_get_be64 wqe WQE_REG_MR_VA_OFF)
    (ernic_get_be64 wqe WQE_REG_MR_LENGTH_OFF) buf.

(** ** The transfer fault *)

Definition dp_fault_clear : DP unit := modify (fun s => s <| dp_fault := IONIC_STS_OK |>).

Definition dp_fault_set (status : Z) : DP unit := modify (fun s =>
  if dp_fault s =? IONIC_STS_OK then s <| dp_fault := status |> else s).

Definition dp_fault_status (fallback : Z) (s : ionic_datapath) : Z :=
  if dp_fault s =? IONIC_STS_OK then fallback else dp_fault s.

(** ** Translation *)

Definition ionic_dp_mr_covers (key va len : Z) (s : ionic_datapath) : bool :=
  if key =? 0 then ernic_dma_range_ok va len
  else match mr_find key s with
  | None => false
  | Some m =>
      (mr_va m <=? va) && (len <=? mr_length m) && (va - mr_va m <=? mr_length m - len)
  end.

(** The address and [*run]. *)
Definition sge_gpa (lkey va : Z) : DP (Z * Z) :=
  if lkey =? 0 then mret (va, UINT64_MAX)
  else
    m ← gets (mr_find lkey);
    match m with
    | Some m =>
        if (va <? mr_va m) || (mr_length m <=? va - mr_va m) then
          dp_fault_set IONIC_STS_LOCAL_PROT_ERR ;; mret (0, 0)
        else
          let '(gpa, run) := buf_gpa (mr_buf m) (va - mr_va m) in
          let left := mr_length m - (va - mr_va m) in
          mret (gpa, if left <? run then left else run)
    | None => dp_fault_set IONIC_STS_LOCAL_PROT_ERR ;; mret (0, 0)
    end.

(** The guest address of byte [va] under [key], if the key reaches it. *)
Definition key_byte (s : ionic_datapath) (key va : Z) : option Z :=
  if key =? 0 then Some va
  else m ← mr_find key s;
       if bool_decide (mr_va m <= va < mr_va m + mr_length m)
       then buf_byte (mr_buf m) (va - mr_va m) else None.

(** ** The table's invariant *)

Definition mr_wf (slot : Z) (m : dp_mr) : Prop :=
  mr_valid m ->
  ionic_mr_slot (mr_lkey m) = Some slot /\
  fits 64 (mr_va m) /\ 0 < mr_length m /\ mr_va m + mr_length m <= UINT64_MAX /\
  buf_wf (mr_buf m) /\ 1 <= b_npages (mr_buf m).

Definition mrs_wf (s : ionic_datapath) : Prop := forall slot, mr_wf slot (mr_at slot s).
End mr_ops.

(** ** Proofs *)

Section mr_lemmas.
Context {E : Env}.

Lemma mr_at_upd slot f s i :
  mr_at i (upd_mr slot f s).2 = if decide (i = slot) then f (mr_at slot s) else mr_at i s.
Proof.
  unfold upd_mr, mr_at. cbn. case_decide; subst.
  - by rewrite lookup_total_insert_eq.
  - by rewrite lookup_total_insert_ne.
Qed.

Lemma mr_find_mrs lkey s s' : dp_mrs s' = dp_mrs s -> mr_find lkey s' = mr_find lkey s.
Proof. unfold mr_find, mr_at. by intros ->. Qed.

Lemma key_byte_mrs s s' : dp_mrs s' = dp_mrs s -> key_byte s' = key_byte s.
Proof. unfold key_byte, mr_find, mr_at. by intros ->. Qed.

Lemma mrs_wf_mrs s s' : dp_mrs s' = dp_mrs s -> mrs_wf s -> mrs_wf s'.
Proof. unfold mrs_wf, mr_at. by intros ->. Qed.

Lemma mr_find_Some lkey s m :
  mr_find lkey s = Some m -> exists slot, ionic_mr_slot lkey = Some slot /\
    m = mr_at slot s /\ mr_valid m = true /\ mr_lkey m = lkey.
Proof.
  unfold mr_find. destruct (ionic_mr_slot lkey) as [slot|]; [|done].
  destruct (mr_valid _ && _) eqn:Hv; [|done]. intros ?; simplify_eq. bdestr. eauto.
Qed.

Lemma mr_find_wf lkey s m :
  mrs_wf s -> mr_find lkey s = Some m ->
  fits 64 (mr_va m) /\ 0 < mr_length m /\ mr_va m + mr_length m <= UINT64_MAX /\ buf_wf (mr_buf m).
Proof.
  intros Hwf (slot & _ & -> & Hv & _)%mr_find_Some.
  destruct (Hwf slot ltac:(by rewrite Hv)) as (_ & ? & ? & ? & ? & _). done.
Qed.

(** A key of another index is not affected by what happens to a slot. *)
Lemma mr_find_upd slot f s key :
  mr_find key (upd_mr slot f s).2 =
  if decide (ionic_mr_slot key = Some slot) then
    let m := f (mr_at slot s) in
    if mr_valid m && (mr_lkey m =? key) then Some m else None
  else mr_find key s.
Proof.
  unfold mr_find. destruct (ionic_mr_slot key) as [k|] eqn:Hk; [|by rewrite decide_False].
  rewrite mr_at_upd. repeat case_decide; naive_solver.
Qed.

Lemma mr_find_unregister lkey slot s key :
  ionic_mr_slot lkey = Some slot ->
  mr_find key (ionic_datapath_unregister_mr lkey s).2 =
  if decide (ionic_mr_slot key = Some slot) then None else mr_find key s.
Proof. intros Hl. unfold ionic_datapath_unregister_mr. rewrite Hl, mr_find_upd. by case_decide. Qed.

Lemma mr_find_local_inv key key' s :
  mr_find key' (dp_local_inv key s).2 = if decide (key' = key) then None else mr_find key' s.
Proof.
  unfold dp_local_inv. run. destruct (mr_find key s) as [m|] eqn:Hf.
  - apply mr_find_Some in Hf as (slot & Hs & -> & Hv & Hk). rewrite Hs, mr_find_upd. cbn.
    repeat case_decide; subst; try done.
    unfold mr_find. rewrite H. rewrite Hv. cbn. by rewrite (proj2 (Z.eqb_neq _ _)) by congruence.
  - cbn. case_decide; subst; [by rewrite Hf|done].
Qed.

(** The binding a registration makes, and the calls it costs. *)
Lemma register_mr_find lkey slot va len buf s key :
  ionic_mr_slot lkey = Some slot ->
  let r := ionic_datapath_register_mr lkey va len buf s in
  let b := (ionic_dp_buf_init buf va len s).1.2 in
  mr_find key r.2 =
  if decide (ionic_mr_slot key = Some slot) then
    if (0 <=? r.1) && (lkey =? key) then Some (DpMr true lkey va len b) else None
  else mr_find key s.
Proof.
  intros Hs. unfold ionic_datapath_register_mr. rewrite Hs. destruct (_ <? len).
  { cbn zeta. run. by rewrite (mr_find_unregister _ slot). }
  cbn zeta. rewrite run_bind. frame_fact (ionic_dp_buf_init buf va len) s FMr Hm.
  destruct (ionic_dp_buf_init buf va len s) as [[rc b] s']. cbn [fst snd] in *. run.
  destruct (rc <? 0) eqn:Hrc; bdestr; run; rewrite !mr_find_upd, !mr_at_upd, ?(mr_find_mrs _ s s') by done;
    cbn.
  - rewrite (proj2 (Z.leb_gt 0 rc)) by lia. by repeat case_decide.
  - by repeat case_decide.
Qed.

Lemma upd_mr_frame slot f : keeps (frame [FMr]) (upd_mr slot f).
Proof. frame_prim. Qed.
Hint Resolve upd_mr_frame : frame.

Lemma unregister_mr_frame key : keeps (frame [FMr]) (ionic_datapath_unregister_mr key).
Proof. unfold ionic_datapath_unregister_mr. frame_auto. Qed.
Hint Resolve unregister_mr_frame : frame.

Lemma register_mr_frame lkey va len buf :
  keeps (frame [FMr; FCalls]) (ionic_datapath_register_mr lkey va len buf).
Proof. unfold ionic_datapath_register_mr. frame_auto. Qed.

Lemma local_inv_frame key : keeps (frame [FMr]) (dp_local_inv key).
Proof. unfold dp_local_inv. frame_auto. Qed.

Lemma fault_clear_frame : keeps (frame [FFault]) dp_fault_clear.
Proof. frame_prim. Qed.
Lemma fault_set_frame st : keeps (frame [FFault]) (dp_fault_set st).
Proof.
  intros s f Hf. unfold dp_fault_set, modify. cbn. destruct (_ =? _); [|by destruct f].
  revert s f Hf. frame_prim.
Qed.
Hint Resolve fault_set_frame : frame.

Lemma sge_gpa_frame lkey va : keeps (frame [FFault]) (sge_gpa lkey va).
Proof. unfold sge_gpa. frame_auto. Qed.
End mr_lemmas.
#[export] Hint Resolve upd_mr_frame unregister_mr_frame register_mr_frame local_inv_frame
  fault_clear_frame fault_set_frame sge_gpa_frame : frame.

Section mr_wf_lemmas.
Context {E : Env} {ML : GuestMemLaws Mem}.

Lemma mrs_wf_upd slot f s :
  (mr_wf slot (mr_at slot s) -> mr_wf slot (f (mr_at slot s))) -> mrs_wf s -> mrs_wf (upd_mr slot f s).2.
Proof. intros Hf Hwf i. rewrite mr_at_upd. case_decide; subst; auto. Qed.

Lemma mr_wf_invalid slot m : mr_valid m = false -> mr_wf slot m.
Proof. intros Hv H. by rewrite Hv in H. Qed.

Lemma unregister_mr_wf key : keeps (preserves mrs_wf) (ionic_datapath_unregister_mr key).
Proof.
  intros s Hs. unfold ionic_datapath_unregister_mr. case_match; [|done].
  apply mrs_wf_upd; [|done]. intros _. by apply mr_wf_invalid.
Qed.

Lemma local_inv_wf key : keeps (preserves mrs_wf) (dp_local_inv key).
Proof.
  intros s Hs. unfold dp_local_inv. run. repeat case_match; try done.
  apply mrs_wf_upd; [|done]. intros _. by apply mr_wf_invalid.
Qed.

Lemma register_mr_wf lkey va len buf :
  desc_ok buf -> fits 64 va -> fits 64 len ->
  keeps (preserves mrs_wf) (ionic_datapath_register_mr lkey va len buf).
Proof.
  intros Hd Hva Hlen s Hs. unfold ionic_datapath_register_mr.
  destruct (ionic_mr_slot lkey) as [slot|] eqn:Hsl; [|done]. destruct (_ <? len) eqn:Hl.
  { rewrite run_bind. run. by apply unregister_mr_wf. }
  rewrite run_bind. pose proof (buf_init_cases buf va len s Hd Hlen) as Hc.
  frame_fact (ionic_dp_buf_init buf va len) s FMr Hm.
  destruct (ionic_dp_buf_init buf va len s) as [[rc b] s']. cbn [fst snd] in *. run.
  apply (mrs_wf_mrs _ _ Hm) in Hs. bdestr. destruct (rc <? 0) eqn:Hrc; bdestr; run; intros i; rewrite !mr_at_upd;
    repeat case_decide; subst; cbn; try done; try by apply mr_wf_invalid.
  intros _. cbn. destruct Hc as [[? _]|[_ Hp]]; [lia|].
  pose proof (buf_init_post_wf _ _ _ _ _ Hd Hlen Hp) as Hb. unfold fits in *.
  destruct Hp as (? & _ & _ & [(_ & Hn & _)|(Hc & Hn & _)]); rewrite Hn;
    split_and!; unfold UINT64_MAX in *; try done; lia.
Qed.

Lemma reg_mr_wf wqe key : bytes_ok wqe -> keeps (preserves mrs_wf) (dp_reg_mr wqe key).
Proof.
  intros Hw. apply register_mr_wf; try by apply get_be64_fits.
  split_and!; [by apply get_be64_fits|by apply get_be32_fits|]. by apply (bat_ok wqe 55 0).
Qed.

(** ** Translation *)

Lemma mr_covers_spec key va len s :
  mrs_wf s -> key <> 0 -> fits 64 va -> fits 64 len ->
  ionic_dp_mr_covers key va len s = true <->
  exists m, mr_find key s = Some m /\ mr_va m <= va /\ va + len <= mr_va m + mr_length m.
Proof.
  intros Hwf Hk Hva Hl. unfold ionic_dp_mr_covers. rewrite (proj2 (Z.eqb_neq _ _)) by done.
  destruct (mr_find key s) as [m|] eqn:Hf.
  - split.
    + intros H. exists m. bdestr. split; [done|lia].
    + intros (m' & ? & ? & ?); simplify_eq.
      destruct (mr_find_wf _ _ _ Hwf Hf) as (? & ? & ? & _). unfold fits in *.
      rewrite !andb_true_iff, !Z.leb_le. lia.
  - split; [done|]. by intros (? & ? & _).
Qed.

(** One step of a walk: the run is reached byte by byte under the key. *)
Lemma sge_gpa_spec lkey va s :
  mrs_wf s -> fits 64 va ->
  let r := (sge_gpa lkey va s).1 in
  fits 64 r.1 /\ 0 <= r.2 <= UINT64_MAX /\
  (r.2 = 0 <-> key_byte s lkey va = None) /\
  (forall i, 0 <= i < r.2 -> r.1 + i < 2 ^ 64 -> key_byte s lkey (va + i) = Some (r.1 + i)).
Proof.
  intros Hwf Hva. unfold sge_gpa, key_byte. destruct (lkey =? 0) eqn:Hk.
  { cbn. split_and!; try done; unfold UINT64_MAX; lia. }
  run. destruct (mr_find lkey s) as [m|] eqn:Hf; cbn [mbind option_bind].
  2: { run. split_and!; try done; unfold fits, UINT64_MAX; cbn; lia. }
  destruct (mr_find_wf _ _ _ Hwf Hf) as (Hmva & Hml & Hend & Hbw). unfold fits in *.
  destruct (_ || _) eqn:Hout.
  { run. apply orb_true_iff in Hout. rewrite bool_decide_eq_false_2.
    2: { destruct Hout; bdestr; lia. }
    split_and!; try done; unfold UINT64_MAX; cbn; lia. }
  apply orb_false_iff in Hout as [H1 H2]. bdestr.
  assert (fits 64 (va - mr_va m)) as Hoff by (unfold fits; lia).
  pose proof (buf_gpa_range _ Hbw _ Hoff) as [Hg Hr].
  pose proof (buf_gpa_none _ Hbw _ Hoff) as Hnone.
  pose proof (buf_gpa_bytes _ Hbw (va - mr_va m)) as Hbytes.
  destruct (buf_gpa (mr_buf m) (va - mr_va m)) as [gpa run]. cbn [fst snd] in *.
  rewrite bool_decide_eq_true_2 by lia. cbn.
  set (r := if _ <? run then _ else run).
  assert (0 <= r <= run /\ r <= mr_length m - (va - mr_va m) /\ (r = 0 <-> run = 0)) as (? & ? & Hz).
  { subst r. case_match; bdestr; lia. }
  split_and!; try done; [unfold fits, UINT64_MAX in *; lia..| |].
  - rewrite Hz. apply Hnone.
  - intros i Hi Hc. rewrite bool_decide_eq_true_2 by lia.
    replace (va + i - mr_va m) with (va - mr_va m + i) by lia. apply (Hbytes gpa run); try done; lia.
Qed.

(** And the run takes in every byte that follows on from the first. *)
Lemma sge_gpa_maximal lkey va s g n :
  mrs_wf s -> fits 64 va -> 0 < n <= UINT64_MAX ->
  (forall i, 0 <= i < n -> key_byte s lkey (va + i) = Some (g + i)) -> n <= (sge_gpa lkey va s).1.2.
Proof.
  intros Hwf Hva Hn Hat. unfold sge_gpa, key_byte in *. destruct (lkey =? 0) eqn:Hk; [cbn; lia|].
  run. destruct (mr_find lkey s) as [m|] eqn:Hf; cbn [mbind option_bind] in *; [|by specialize (Hat 0 ltac:(lia))].
  destruct (mr_find_wf _ _ _ Hwf Hf) as (Hmva & Hml & Hend & Hbw). unfold fits in *.
  assert (forall i, 0 <= i < n -> mr_va m <= va + i < mr_va m + mr_length m /\ buf_byte (mr_buf m) (va - mr_va m + i) = Some (g + i)) as H.
  { intros i Hi. specialize (Hat i Hi). case_bool_decide; [|done]. split; [done|]. rewrite <-Hat. f_equal. lia. }
  pose proof (H 0 ltac:(lia)) as [H0 _]. pose proof (H (n - 1) ltac:(lia)) as [H1 _].
  rewrite (proj2 (Z.ltb_ge _ _)), (proj2 (Z.leb_gt _ _)) by lia. cbn [orb].
  pose proof (buf_gpa_maximal _ Hbw (va - mr_va m) g n ltac:(unfold fits; lia) Hn ltac:(intros i Hi; by apply H)) as Hm.
  destruct (buf_gpa (mr_buf m) (va - mr_va m)) as [gpa r]. cbn in *. case_match; bdestr; lia.
Qed.
End mr_wf_lemmas.
