(* ===== verification/DpXfer.v ===== *)
(** * Transfers between guest regions and host buffers

    dp_copy_sge(), ionic_dp_sge_to_host(), ionic_dp_host_to_sge() and the
    target callbacks.  Each loop takes the length as its fuel: a turn that
    does not end it moves at least one byte, which is what the [_total]
    equations below use. *)
From S2P Require Export DpMr.

Section xfer.
Context {E : Env}.

Definition COPY_BOUNCE : Z := 4096.

Fixpoint host_to_sge_loop (fuel : nat) (lkey va : Z) (src : list Z) (len done : Z) : DP Z :=
  match fuel with
  | O => mret done
  | S fuel' =>
      if done <? len then
        r ← sge_gpa lkey (u64 (va + done));
        let '(gpa, run) := r : Z * Z in
        if run =? 0 then mret done
        else
          let chunk := if run <? len - done then run else len - done in
          ok ← dp_dma_write gpa (bslice src (Z.to_nat done) (Z.to_nat chunk));
          if ok : bool then host_to_sge_loop fuel' lkey va src len (done + chunk)
          else dp_fault_set IONIC_STS_LOCAL_ACC_ERR ;; mret done
      else mret done
  end.

(** The bytes written, out of [len]. *)
Definition ionic_dp_host_to_sge (lkey va : Z) (src : list Z) (len : Z) : DP Z :=
  host_to_sge_loop (Z.to_nat len) lkey va src len 0.

(** [dst] holds the bytes copied so far, [done] of them. *)
Fixpoint sge_to_host_loop (fuel : nat) (lkey va len : Z) (dst : list Z) : DP (list Z) :=
  match fuel with
  | O => mret dst
  | S fuel' =>
      let done := Z.of_nat (length dst) in
      if done <? len then
        r ← sge_gpa lkey (u64 (va + done));
        let '(gpa, run) := r : Z * Z in
        if run =? 0 then mret dst
        else
          let chunk := if run <? len - done then run else len - done in
          bs ← dp_dma_read gpa chunk;
          match bs with
          | Some bs => sge_to_host_loop fuel' lkey va len (dst ++ bs)
          | None => dp_fault_set IONIC_STS_LOCAL_ACC_ERR ;; mret dst
          end
      else mret dst
  end.

(** The bytes at the front of the destination buffer; their number is what
    the C function returns. *)
Definition ionic_dp_sge_to_host (lkey va len : Z) : DP (list Z) :=
  sge_to_host_loop (Z.to_nat len) lkey va len [].

Fixpoint copy_sge_loop (fuel : nat) (dst_lkey dst_va src_lkey src_va len done : Z) : DP Z :=
  match fuel with
  | O => mret done
  | S fuel' =>
      if done <? len then
        rs ← sge_gpa src_lkey (u64 (src_va + done));
        rd ← sge_gpa dst_lkey (u64 (dst_va + done));
        let '(src, src_run) := rs : Z * Z in
        let '(dst, dst_run) := rd : Z * Z in
        if (src_run =? 0) || (dst_run =? 0) then mret done
        else
          let chunk := len - done in
          let chunk := if src_run <? chunk then src_run else chunk in
          let chunk := if dst_run <? chunk then dst_run else chunk in
          let chunk := if COPY_BOUNCE <? chunk then COPY_BOUNCE else chunk in
          bs ← dp_dma_read src chunk;
          ok ← match bs with
               | Some bs => dp_dma_write dst bs
               | None => mret false
               end;
          if ok : bool then
            copy_sge_loop fuel' dst_lkey dst_va src_lkey src_va len (done + chunk)
          else dp_fault_set IONIC_STS_LOCAL_ACC_ERR ;; mret done
      else mret done
  end.

Definition dp_copy_sge (dst_lkey dst_va src_lkey src_va len : Z) : DP Z :=
  copy_sge_loop (Z.to_nat len) dst_lkey dst_va src_lkey src_va len 0.

(** ** The in-process targets' callbacks *)

Definition ionic_dp_target_from_host (key addr len : Z) : DP (list Z) :=
  if key =? 0 then mret [] else ionic_dp_sge_to_host key addr len.

Definition ionic_dp_target_to_host (key addr : Z) (src : list Z) (len : Z) : DP Z :=
  if key =? 0 then mret 0 else ionic_dp_host_to_sge key addr src len.

(** ** Frames *)

Lemma host_to_sge_loop_frame fuel lkey va src len done :
  keeps (frame [FMem; FFault]) (host_to_sge_loop fuel lkey va src len done).
Proof.
  revert done. induction fuel as [|fuel IH]; intros done; cbn [host_to_sge_loop]; frame_auto.
Qed.
Lemma host_to_sge_frame lkey va src len :
  keeps (frame [FMem; FFault]) (ionic_dp_host_to_sge lkey va src len).
Proof. apply host_to_sge_loop_frame. Qed.

Lemma sge_to_host_loop_frame fuel lkey va len dst :
  keeps (frame [FFault]) (sge_to_host_loop fuel lkey va len dst).
Proof.
  revert dst. induction fuel as [|fuel IH]; intros dst; cbn [sge_to_host_loop]; frame_auto.
Qed.
Lemma sge_to_host_frame lkey va len : keeps (frame [FFault]) (ionic_dp_sge_to_host lkey va len).
Proof. apply sge_to_host_loop_frame. Qed.

Lemma copy_sge_loop_frame fuel dk dv sk sv len done :
  keeps (frame [FMem; FFault]) (copy_sge_loop fuel dk dv sk sv len done).
Proof.
  revert done. induction fuel as [|fuel IH]; intros done; cbn [copy_sge_loop]; frame_auto.
Qed.
Lemma copy_sge_frame dk dv sk sv len : keeps (frame [FMem; FFault]) (dp_copy_sge dk dv sk sv len).
Proof. apply copy_sge_loop_frame. Qed.
End xfer.
#[export] Hint Resolve host_to_sge_frame sge_to_host_frame copy_sge_frame : frame.

(** ** What a transfer reaches

    [addr_at s key va i]: the guest address of byte [i] of a transfer that
    starts at [va]; C adds the two in 64 bits. *)
Section xfer_spec.
Context {E : Env} {ML : GuestMemLaws Mem}.

Definition addr_at (s : ionic_datapath) (key va i : Z) : option Z :=
  key_byte s key (u64 (va + i)).

(** No two bytes of the transfer share a guest address. *)
Definition addr_inj (addr : Z -> option Z) (lo len : Z) : Prop :=
  forall i j x, lo <= i < len -> lo <= j < len -> addr i = Some x -> addr j = Some x -> i = j.

Lemma addr_at_mrs s s' : dp_mrs s' = dp_mrs s -> addr_at s' = addr_at s.
Proof. unfold addr_at. by intros ->%key_byte_mrs. Qed.

Lemma key_byte_lt s key v x :
  mrs_wf s -> key_byte s key v = Some x -> x < 2 ^ 64 -> v < 2 ^ 64.
Proof.
  intros Hwf. unfold key_byte. case_match; [naive_solver|].
  destruct (mr_find key s) as [m|] eqn:Hf; cbn; [|done].
  destruct (mr_find_wf _ _ _ Hwf Hf) as (? & ? & ? & _). unfold UINT64_MAX in *.
  case_bool_decide; [lia|done].
Qed.

(** One turn of any of the loops: the run it found, byte by byte. *)
Lemma sge_gpa_chunk lkey va done s gpa run :
  mrs_wf s -> (sge_gpa lkey (u64 (va + done)) s).1 = (gpa, run) ->
  fits 64 gpa /\ 0 <= run /\ (run = 0 -> addr_at s lkey va done = None) /\
  forall i, 0 <= i < run -> gpa + i < 2 ^ 64 -> addr_at s lkey va (done + i) = Some (gpa + i).
Proof.
  intros Hwf Hg.
  pose proof (sge_gpa_spec lkey (u64 (va + done)) s Hwf ltac:(apply wrap_fits; lia)) as Hs.
  rewrite Hg in Hs. destruct Hs as (? & ? & Hz & Hb). cbn in *.
  split_and!; [done|lia|by apply Hz|]. intros i Hi Hc. specialize (Hb i Hi Hc).
  pose proof (key_byte_lt _ _ _ _ Hwf Hb Hc) as Hlt. unfold addr_at.
  rewrite Z.add_assoc, <-u64_add_l, wrap_id; [done|].
  pose proof (wrap_fits 64 (va + done) ltac:(lia)). unfold fits in *. lia.
Qed.

Lemma dma_write_changed (m : Mem) a bs ok m' x :
  fits 64 a -> Z.of_nat (length bs) < 2 ^ 64 -> dma_write m a bs = (ok, m') ->
  peek m' x <> peek m x -> a <= x < a + Z.of_nat (length bs) /\ a + Z.of_nat (length bs) < 2 ^ 64.
Proof.
  intros Ha Hl Hw Hx.
  destruct (decide (a <= x < a + Z.of_nat (length bs) /\ a + Z.of_nat (length bs) < 2 ^ 64)); [done|].
  by rewrite (dma_write_frame m a bs ok m' Ha Hl Hw) in Hx.
Qed.

Lemma length_bslice (b : list Z) off n :
  (off + n <= length b)%nat -> length (bslice b off n) = n.
Proof. intros. unfold bslice. rewrite length_take, length_drop. lia. Qed.

Lemma bslice_lookup_total b off n i : (i < n)%nat -> bslice b off n !!! i = b !!! (off + i)%nat.
Proof. intros. unfold bslice. by rewrite lookup_total_take_lt, lookup_total_drop. Qed.

(** A walk that stores [src] at the addresses [addr], from byte [done] on,
    and stops after byte [n]. *)
Record wrote (addr : Z -> option Z) (src : list Z) (len done n : Z) (m m' : Mem) : Prop := {
  wr_range : done <= n <= len;
  wr_confined x : peek m' x <> peek m x -> exists i, done <= i < len /\ addr i = Some x;
  wr_mapped i : done <= i < n -> is_Some (addr i);
  wr_written i x : addr_inj addr done len -> done <= i < n -> addr i = Some x ->
    peek m' x = u8 (src !!! Z.to_nat i);
}.

Lemma wrote_stop addr src len done m : done <= len -> wrote addr src len done done m m.
Proof. intros. split; try lia; done. Qed.

Lemma wrote_ext addr addr' src len done n m m' :
  (forall i, done <= i < len -> addr i = addr' i) ->
  wrote addr src len done n m m' -> wrote addr' src len done n m m'.
Proof.
  intros He [H1 H2 H3 H4]. split; [done| | |].
  - intros x (i & ? & ?)%H2. exists i. by rewrite <-He.
  - intros i Hi. rewrite <-He by lia. by apply H3.
  - intros i x Hinj Hi Hx. apply H4; [|done|by rewrite He by lia].
    intros a b y ? ? ? ?. apply (Hinj a b y); try done; by rewrite <-He.
Qed.

(** A walk of [done, mid), then one of [mid, len). *)
Lemma wrote_trans addr src len done mid n m m1 m2 :
  mid <= len -> wrote addr src mid done mid m m1 -> wrote addr src len mid n m1 m2 ->
  wrote addr src len done n m m2.
Proof.
  intros Hl [R1 C1 M1 W1] [R2 C2 M2 W2]. split; [lia| | |].
  - intros x Hx. destruct (decide (peek m2 x = peek m1 x)) as [He|He].
    + rewrite He in Hx. destruct (C1 x Hx) as (i & ? & ?). exists i. split; [lia|done].
    + destruct (C2 x He) as (i & ? & ?). exists i. split; [lia|done].
  - intros i Hi. destruct (decide (i < mid)); [apply M1|apply M2]; lia.
  - intros i x Hinj Hi Hx. destruct (decide (i < mid)) as [Hlt|Hge].
    + rewrite <-(W1 i x); [|intros a b y ? ? ? ?; apply (Hinj a b y); (done || lia)|lia|done].
      destruct (decide (peek m2 x = peek m1 x)) as [|Hne]; [done|].
      destruct (C2 x Hne) as (j & Hj & Hxj). assert (i = j) by (apply (Hinj i j x); (done || lia)). lia.
    + apply W2; [intros a b y ? ? ? ?; apply (Hinj a b y); (done || lia)|lia|done].
Qed.

Lemma wrote_len addr src mid len done n m m' :
  mid <= len -> wrote addr src mid done n m m' -> wrote addr src len done n m m'.
Proof.
  intros Hl [R C M W]. split; [lia| |done|].
  - intros x (i & ? & ?)%C. exists i. split; [lia|done].
  - intros i x Hinj. apply W. intros a b y ? ? ? ?. apply (Hinj a b y); (done || lia).
Qed.

(** A walk of a suffix of the source, seen from its start. *)
Lemma wrote_shift addr src len n base m m' :
  0 <= base -> wrote addr (drop (Z.to_nat base) src) len 0 n m m' ->
  wrote (fun i => addr (i - base)) src (base + len) base (base + n) m m'.
Proof.
  intros Hb [R C M W]. split; [lia| | |].
  - intros x (i & ? & ?)%C. exists (base + i). split; [lia|]. by replace (base + i - base) with i by lia.
  - intros i Hi. apply M. lia.
  - intros i x Hinj Hi Hx. rewrite (W (i - base) x); [|intros a c y ? ? ? ?|lia|done].
    + rewrite lookup_total_drop. do 2 f_equal. lia.
    + enough (base + a = base + c) by lia. apply (Hinj _ _ y); try lia;
        [by replace (base + a - base) with a by lia|by replace (base + c - base) with c by lia].
Qed.

(** The last chunk failed, leaving some of it written. *)
Lemma wrote_fail addr src len done chunk gpa m m' :
  0 <= chunk -> done + chunk <= len ->
  (forall i, 0 <= i < chunk -> gpa + i < 2 ^ 64 -> addr (done + i) = Some (gpa + i)) ->
  (forall x, peek m' x <> peek m x -> gpa <= x < gpa + chunk /\ gpa + chunk < 2 ^ 64) ->
  wrote addr src len done done m m'.
Proof.
  intros ? ? Hat Hch. split; try lia. intros x Hx. apply Hch in Hx.
  exists (done + (x - gpa)). split; [lia|]. rewrite Hat by lia. f_equal. lia.
Qed.

(** A chunk stored at [gpa], then the rest of the walk. *)
Lemma wrote_step addr src len done chunk gpa n m m2 m' :
  0 < chunk -> done + chunk <= len -> gpa + chunk < 2 ^ 64 -> 0 <= done ->
  (forall i, 0 <= i < chunk -> gpa + i < 2 ^ 64 -> addr (done + i) = Some (gpa + i)) ->
  (forall x, peek m2 x <> peek m x -> gpa <= x < gpa + chunk) ->
  (forall i, 0 <= i < chunk -> peek m2 (gpa + i) = u8 (src !!! Z.to_nat (done + i))) ->
  wrote addr src len (done + chunk) n m2 m' ->
  wrote addr src len done n m m'.
Proof.
  intros Hc Hle Hcarry Hd Hat Hch Hwr [Hr Hcf Hmp Hwt].
  assert (forall i, done <= i < done + chunk -> addr i = Some (gpa + (i - done))) as Hat'.
  { intros i Hi. rewrite <-Hat by lia. f_equal. lia. }
  split.
  - lia.
  - intros x Hx. destruct (decide (peek m' x = peek m2 x)) as [He|He].
    + rewrite He in Hx. apply Hch in Hx. exists (done + (x - gpa)). split; [lia|].
      rewrite Hat by lia. f_equal. lia.
    + destruct (Hcf x He) as (i & ? & ?). exists i. split; [lia|done].
  - intros i Hi. destruct (decide (i < done + chunk)); [rewrite Hat' by lia; eauto|]. apply Hmp. lia.
  - intros i x Hinj Hi Hx. destruct (decide (i < done + chunk)) as [Hin|Hin].
    + rewrite Hat' in Hx by lia. simplify_eq.
      destruct (decide (peek m' (gpa + (i - done)) = peek m2 (gpa + (i - done)))) as [->|He].
      * rewrite Hwr by lia. do 2 f_equal. lia.
      * destruct (Hcf _ He) as (j & Hj & Haj).
        specialize (Hinj i j (gpa + (i - done)) ltac:(lia) ltac:(lia)).
        rewrite Hat' in Hinj by lia. specialize (Hinj eq_refl Haj). lia.
    + apply Hwt; try done; [|lia]. intros a c y ? ? ? ?. apply (Hinj a c y); try done; lia.
Qed.

(** Why a write stops short: guest memory refuses a store of bytes of [A].
    Whether it does is not changed by the stores before. *)
Definition range_in (A : Z -> Prop) (gpa n : Z) : Prop :=
  fits 64 gpa /\ 0 < n /\ forall i, 0 <= i < n -> gpa + i < 2 ^ 64 -> A (gpa + i).
Definition write_refused (A : Z -> Prop) (m : Mem) : Prop :=
  exists gpa bs, range_in A gpa (Z.of_nat (length bs)) /\ (dma_write m gpa bs).1 = false.
Definition read_refused (A : Z -> Prop) (m : Mem) : Prop :=
  exists gpa n, range_in A gpa n /\ dma_read m gpa n = None.
Definition same_writes (m m' : Mem) : Prop := forall gpa bs, (dma_write m' gpa bs).1 = (dma_write m gpa bs).1.
Lemma same_writes_trans m m1 m2 : same_writes m m1 -> same_writes m1 m2 -> same_writes m m2.
Proof. intros H1 H2 gpa bs. by rewrite H2, H1. Qed.
Lemma refused_after A m m1 : same_writes m m1 -> write_refused A m1 -> write_refused A m.
Proof. intros H (gpa & bs & Hr & Hf). exists gpa, bs. by rewrite <-H. Qed.
Lemma range_in_mono (A B : Z -> Prop) gpa n : (forall x, A x -> B x) -> range_in A gpa n -> range_in B gpa n.
Proof. intros Hab (Hf & Hn & Hi). split_and!; [done|done|]. intros i ? ?. by apply Hab, Hi. Qed.
Lemma refused_mono (A B : Z -> Prop) m : (forall x, A x -> B x) -> write_refused A m -> write_refused B m.
Proof. intros Hab (gpa & bs & Hr & Hf). exists gpa, bs. split; [by eapply range_in_mono|done]. Qed.
Lemma dp_dma_write_perm A gpa bs s :
  range_in A gpa (Z.of_nat (length bs)) ->
  let r := dp_dma_write gpa bs s in same_writes (dp_mem s) (dp_mem r.2) /\ (r.1 = false -> write_refused A (dp_mem s)).
Proof.
  intros Hr. unfold dp_dma_write. destruct (dma_write (dp_mem s) gpa bs) as [ok m'] eqn:Hw; cbn. split.
  - intros x cs. pose proof (dma_write_write_perm (dp_mem s) gpa bs x cs) as H. by rewrite Hw in H.
  - intros ->. exists gpa, bs. by rewrite Hw.
Qed.
(** The bytes of a transfer. *)
Definition addrs (addr : Z -> option Z) (len x : Z) : Prop := exists i, 0 <= i < len /\ addr i = Some x.
Lemma chunk_range addr len gpa src done chunk :
  fits 64 gpa -> 0 <= done -> 0 < chunk <= len - done -> len <= Z.of_nat (length src) ->
  (forall i, 0 <= i < chunk -> gpa + i < 2 ^ 64 -> addr (done + i) = Some (gpa + i)) ->
  range_in (addrs addr len) gpa (Z.of_nat (length (bslice src (Z.to_nat done) (Z.to_nat chunk)))).
Proof.
  intros Hg Hd Hc Hl Ha. assert (length (bslice src (Z.to_nat done) (Z.to_nat chunk)) = Z.to_nat chunk) as Hb by (apply length_bslice; lia).
  split_and!; [done|lia|]. intros i Hi Hx. exists (done + i). split; [lia|]. apply Ha; lia.
Qed.

(** A byte has no address, or guest memory refuses one. *)
Definition write_stops (addr : Z -> option Z) (len : Z) (m : Mem) : Prop :=
  (exists i, 0 <= i < len /\ addr i = None) \/ write_refused (addrs addr len) m.
Definition read_stops (addr : Z -> option Z) (len : Z) (m : Mem) : Prop :=
  (exists i, 0 <= i < len /\ addr i = None) \/ read_refused (addrs addr len) m.

Lemma fault_set_sets st s : st <> IONIC_STS_OK -> dp_fault (dp_fault_set st s).2 <> IONIC_STS_OK.
Proof. intros Hst. unfold dp_fault_set. run. case_match; bdestr; cbn; done. Qed.

Lemma dp_dma_write_spec gpa bs s :
  fits 64 gpa -> Z.of_nat (length bs) < 2 ^ 64 ->
  let r := dp_dma_write gpa bs s in
  (forall x, peek (dp_mem r.2) x <> peek (dp_mem s) x ->
     gpa <= x < gpa + Z.of_nat (length bs) /\ gpa + Z.of_nat (length bs) < 2 ^ 64) /\
  (r.1 = true -> gpa + Z.of_nat (length bs) < 2 ^ 64 /\
     forall i, 0 <= i < Z.of_nat (length bs) -> peek (dp_mem r.2) (gpa + i) = u8 (bs !!! Z.to_nat i)).
Proof.
  intros Hg Hl. unfold dp_dma_write. destruct (dma_write (dp_mem s) gpa bs) as [ok m'] eqn:Hw.
  cbn. split; [intros x; by apply (dma_write_changed _ _ _ ok)|]. intros ->.
  destruct (dma_write_spec _ _ _ _ Hg Hl Hw) as [Hr Hp]. split; [done|]. intros i Hi.
  rewrite Hp, bool_decide_eq_true_2 by lia. do 2 f_equal. lia.
Qed.

(** What a chunk written through [dp_dma_write] gives the two lemmas above. *)
Lemma dp_dma_write_chunk gpa src done chunk s :
  fits 64 gpa -> 0 <= done -> 0 < chunk < 2 ^ 64 -> done + chunk <= Z.of_nat (length src) ->
  let r := dp_dma_write gpa (bslice src (Z.to_nat done) (Z.to_nat chunk)) s in
  (forall x, peek (dp_mem r.2) x <> peek (dp_mem s) x -> gpa <= x < gpa + chunk /\ gpa + chunk < 2 ^ 64) /\
  (r.1 = true -> gpa + chunk < 2 ^ 64 /\
     forall i, 0 <= i < chunk -> peek (dp_mem r.2) (gpa + i) = u8 (src !!! Z.to_nat (done + i))).
Proof.
  intros Hg Hd Hc Hl. set (bs := bslice src _ _).
  assert (length bs = Z.to_nat chunk) as Hbs by (apply length_bslice; lia).
  destruct (dp_dma_write_spec gpa bs s Hg ltac:(lia)) as [Hch Hok].
  rewrite Hbs, Z2Nat.id in * by lia. split; [done|].
  intros [? Hw]%Hok. split; [done|]. intros i Hi. rewrite Hw by done. subst bs.
  rewrite bslice_lookup_total by lia. do 2 f_equal. lia.
Qed.

Definition host_to_sge_post (s : ionic_datapath) (lkey va : Z) (src : list Z) (len done n : Z)
    (s' : ionic_datapath) : Prop :=
  wrote (addr_at s lkey va) src len done n (dp_mem s) (dp_mem s') /\
  (n < len -> addr_at s lkey va n = None \/ dp_fault s' <> IONIC_STS_OK) /\
  (n < len -> write_stops (addr_at s lkey va) len (dp_mem s)).

Lemma host_to_sge_loop_spec fuel lkey va src len done s :
  mrs_wf s -> 0 <= done <= len -> len < 2 ^ 32 -> len <= Z.of_nat (length src) ->
  len - done <= Z.of_nat fuel ->
  let r := host_to_sge_loop fuel lkey va src len done s in
  host_to_sge_post s lkey va src len done r.1 r.2.
Proof.
  revert done s. induction fuel as [|fuel IH]; intros done s Hwf Hd Hlen Hsrc Hfuel.
  { split_and!; cbn; [apply wrote_stop; lia|intros ?; lia..]. }
  cbn [host_to_sge_loop]. destruct (done <? len) eqn:Hlt; bdestr;
    [|split_and!; cbn; [apply wrote_stop; lia|intros ?; lia..]].
  cbn zeta. rewrite run_bind. frame_fact (sge_gpa lkey (u64 (va + done))) s FMr Hm1.
  frame_fact (sge_gpa lkey (u64 (va + done))) s FMem Hm2.
  pose proof (sge_gpa_chunk lkey va done s) as Hg.
  destruct (sge_gpa lkey (u64 (va + done)) s) as [[gpa run] s1]. cbn [fst snd] in *.
  destruct (Hg gpa run Hwf eq_refl) as (Hgpa & Hrun & Hz & Hb). clear Hg.
  unfold host_to_sge_post. rewrite <-Hm2. destruct (run =? 0) eqn:Hr0; bdestr.
  { split_and!; cbn; [apply wrote_stop; lia|auto|left; exists done; split; [lia|auto]]. }
  set (chunk := if run <? len - done then run else len - done).
  assert (0 < chunk <= run /\ chunk <= len - done) as [Hc1 Hc2].
  { subst chunk. case_match; bdestr; lia. }
  rewrite run_bind.
  destruct (dp_dma_write_chunk gpa src done chunk s1) as [Hch Hok]; try done; try lia.
  frame_fact (dp_dma_write gpa (bslice src (Z.to_nat done) (Z.to_nat chunk))) s1 FMr Hm3.
  assert (forall i, 0 <= i < chunk -> gpa + i < 2 ^ 64 -> addr_at s lkey va (done + i) = Some (gpa + i)) as Hb'.
  { intros i Hi. apply Hb. lia. }
  pose proof (dp_dma_write_perm _ _ _ s1 (chunk_range _ len gpa src done chunk Hgpa ltac:(lia) ltac:(lia) Hsrc Hb')) as [Hst Hrfd].
  destruct (dp_dma_write gpa _ s1) as [ok s2]. cbn [fst snd] in *.
  destruct ok.
  - destruct (Hok eq_refl) as [Hcarry Hwr].
    destruct (IH (done + chunk) s2) as (Hw & Hsh & Hrf); try lia; [apply (mrs_wf_mrs s); [congruence|done]|].
    rewrite (addr_at_mrs s s2) in * by congruence.
    split_and!; [|done|intros [?|H]%Hrf; [by left|right; by eapply refused_after]].
    apply (wrote_step _ _ _ _ chunk gpa _ _ (dp_mem s2)); try done; try lia. intros x Hx. by apply Hch.
  - rewrite run_bind. frame_fact (dp_fault_set IONIC_STS_LOCAL_ACC_ERR) s2 FMem Hm4.
    pose proof (fault_set_sets IONIC_STS_LOCAL_ACC_ERR s2 ltac:(done)) as Hf.
    destruct (dp_fault_set _ s2) as [u s3]. run. cbn [fst snd] in *. rewrite Hm4.
    split_and!; [|auto|right; by apply Hrfd]. apply (wrote_fail _ _ _ _ chunk gpa); try done; lia.
Qed.

Lemma host_to_sge_spec lkey va src len s :
  mrs_wf s -> 0 <= len < 2 ^ 32 -> len <= Z.of_nat (length src) ->
  let r := ionic_dp_host_to_sge lkey va src len s in
  host_to_sge_post s lkey va src len 0 r.1 r.2.
Proof. intros. apply host_to_sge_loop_spec; try done; lia. Qed.

(** *** Reading *)

Record sge_to_host_post (s : ionic_datapath) (lkey va len : Z) (dst out : list Z)
    (s' : ionic_datapath) : Prop := {
  sth_range : Z.of_nat (length dst) <= Z.of_nat (length out) <= len;
  sth_kept : take (length dst) out = dst;
  sth_read i : Z.of_nat (length dst) <= Z.of_nat i < Z.of_nat (length out) ->
    exists x, addr_at s lkey va (Z.of_nat i) = Some x /\ out !! i = Some (peek (dp_mem s) x);
  sth_short : Z.of_nat (length out) < len ->
    addr_at s lkey va (Z.of_nat (length out)) = None \/ dp_fault s' <> IONIC_STS_OK;
  sth_stops : Z.of_nat (length out) < len -> read_stops (addr_at s lkey va) len (dp_mem s);
}.

Lemma sge_to_host_post_stop s s' lkey va len dst :
  Z.of_nat (length dst) <= len ->
  (Z.of_nat (length dst) < len ->
   (addr_at s lkey va (Z.of_nat (length dst)) = None \/ dp_fault s' <> IONIC_STS_OK) /\
   read_stops (addr_at s lkey va) len (dp_mem s)) ->
  sge_to_host_post s lkey va len dst dst s'.
Proof. intros ? H. split; try lia; [by rewrite take_ge|intros ?; by apply H..]. Qed.

Lemma peekn_lookup (m : Mem) a n i :
  Z.of_nat i < n -> peekn m a n !! i = Some (peek m (a + Z.of_nat i)).
Proof. intros. unfold peekn. rewrite list_lookup_fmap, lookup_seqZ_lt by lia. done. Qed.

Lemma length_peekn (m : Mem) a n : length (peekn m a n) = Z.to_nat n.
Proof. unfold peekn. by rewrite length_fmap, length_seqZ. Qed.

Lemma sge_to_host_loop_spec fuel lkey va len dst s :
  mrs_wf s -> Z.of_nat (length dst) <= len < 2 ^ 32 -> len - Z.of_nat (length dst) <= Z.of_nat fuel ->
  let r := sge_to_host_loop fuel lkey va len dst s in
  sge_to_host_post s lkey va len dst r.1 r.2.
Proof.
  revert dst s. induction fuel as [|fuel IH]; intros dst s Hwf Hd Hfuel.
  { apply sge_to_host_post_stop; cbn; [lia|intros ?; lia]. }
  cbn [sge_to_host_loop]. set (done := Z.of_nat (length dst)) in *.
  destruct (done <? len) eqn:Hlt; bdestr;
    [|apply sge_to_host_post_stop; cbn; [lia|intros ?; lia]].
  cbn zeta. rewrite run_bind. frame_fact (sge_gpa lkey (u64 (va + done))) s FMr Hm1.
  frame_fact (sge_gpa lkey (u64 (va + done))) s FMem Hm2.
  pose proof (sge_gpa_chunk lkey va done s) as Hg.
  destruct (sge_gpa lkey (u64 (va + done)) s) as [[gpa run] s1]. cbn [fst snd] in *.
  destruct (Hg gpa run Hwf eq_refl) as (Hgpa & Hrun & Hz & Hb). clear Hg.
  destruct (run =? 0) eqn:Hr0; bdestr.
  { apply sge_to_host_post_stop; cbn; [lia|]. intros _. split; [auto|]. left. exists done. split; [lia|auto]. }
  set (chunk := if run <? len - done then run else len - done).
  assert (0 < chunk <= run /\ chunk <= len - done) as [Hc1 Hc2].
  { subst chunk. case_match; bdestr; lia. }
  unfold dp_dma_read. run. destruct (dma_read (dp_mem s1) gpa chunk) as [bs|] eqn:Hr.
  - apply dma_read_spec in Hr as [-> Hcarry]; [|done|lia].
    destruct (IH (dst ++ peekn (dp_mem s1) gpa chunk) s1) as [Hrg Hk Hrd Hsh Hstp];
      rewrite ?length_app, ?length_peekn; try lia; [by apply (mrs_wf_mrs s)|].
    rewrite length_app, length_peekn in *. rewrite (addr_at_mrs _ _ Hm1), Hm2 in *.
    split; try done; [lia| |].
    + rewrite <-(take_app_length dst (peekn (dp_mem s) gpa chunk)) at 3. rewrite <-Hk at 2.
      by rewrite take_take, Nat.min_l by lia.
    + intros i Hi. destruct (decide (Z.of_nat i < done + chunk)) as [Hin|Hin]; [|apply Hrd; lia].
      exists (gpa + (Z.of_nat i - done)). split; [rewrite <-Hb by lia; f_equal; lia|].
      rewrite <-(lookup_take_lt _ (length dst + Z.to_nat chunk)) by lia. rewrite Hk.
      rewrite lookup_app_r, peekn_lookup by lia. do 3 f_equal. lia.
  - rewrite run_bind. apply sge_to_host_post_stop; run; [lia|]. intros _. split; [right; by apply fault_set_sets|].
    right. exists gpa, chunk. rewrite Hm2 in Hr. split; [|done]. split_and!; [done|lia|].
    intros i Hi Hx. exists (done + i). split; [lia|]. apply Hb; lia.
Qed.

Lemma sge_to_host_spec lkey va len s :
  mrs_wf s -> 0 <= len < 2 ^ 32 ->
  let r := ionic_dp_sge_to_host lkey va len s in sge_to_host_post s lkey va len [] r.1 r.2.
Proof. intros. apply sge_to_host_loop_spec; cbn; try done; lia. Qed.

(** *** Copying *)

Definition addr_disjoint (da sa : Z -> option Z) (lo len : Z) : Prop :=
  forall i j x, lo <= i < len -> lo <= j < len -> da i = Some x -> sa j <> Some x.

(** A walk that copies the bytes at [sa] to [da], from byte [done] on, and
    stops after byte [n]. *)
Record moved (da sa : Z -> option Z) (len done n : Z) (m m' : Mem) : Prop := {
  mv_range : done <= n <= len;
  mv_confined x : peek m' x <> peek m x -> exists i, done <= i < len /\ da i = Some x;
  mv_mapped i : done <= i < n -> is_Some (da i) /\ is_Some (sa i);
  mv_copied i x y : addr_inj da done len -> addr_disjoint da sa done len ->
    done <= i < n -> da i = Some x -> sa i = Some y -> peek m' x = peek m y;
}.

Lemma moved_stop da sa len done m : done <= len -> moved da sa len done done m m.
Proof. intros. split; try lia; done. Qed.

Lemma moved_fail da sa len done chunk dst m m' :
  0 <= chunk -> done + chunk <= len ->
  (forall i, 0 <= i < chunk -> dst + i < 2 ^ 64 -> da (done + i) = Some (dst + i)) ->
  (forall x, peek m' x <> peek m x -> dst <= x < dst + chunk /\ dst + chunk < 2 ^ 64) ->
  moved da sa len done done m m'.
Proof.
  intros ? ? Hat Hch. split; try lia. intros x Hx. apply Hch in Hx.
  exists (done + (x - dst)). split; [lia|]. rewrite Hat by lia. f_equal. lia.
Qed.

Lemma moved_ext da da' sa sa' len done n m m' :
  (forall i, done <= i < len -> da i = da' i) -> (forall i, done <= i < len -> sa i = sa' i) ->
  moved da sa len done n m m' -> moved da' sa' len done n m m'.
Proof.
  intros Hd Hs [R C M W]. split; [done| | |].
  - intros x (i & ? & ?)%C. exists i. by rewrite <-Hd.
  - intros i Hi. rewrite <-Hd, <-Hs by lia. by apply M.
  - intros i x y Hinj Hdis Hi Hx Hy. apply (W i); [| |done|by rewrite Hd by lia|by rewrite Hs by lia].
    + intros a b z ? ? ? ?. apply (Hinj a b z); try done; by rewrite <-Hd.
    + intros a b z ? ? ?. rewrite Hs by lia. apply (Hdis a b z); try done. by rewrite <-Hd.
Qed.

Lemma moved_trans da sa len done mid n m m1 m2 :
  mid <= len -> moved da sa mid done mid m m1 -> moved da sa len mid n m1 m2 ->
  moved da sa len done n m m2.
Proof.
  intros Hl [R1 C1 M1 W1] [R2 C2 M2 W2]. split; [lia| | |].
  - intros x Hx. destruct (decide (peek m2 x = peek m1 x)) as [He|He].
    + rewrite He in Hx. destruct (C1 x Hx) as (i & ? & ?). exists i. split; [lia|done].
    + destruct (C2 x He) as (i & ? & ?). exists i. split; [lia|done].
  - intros i Hi. destruct (decide (i < mid)); [apply M1|apply M2]; lia.
  - intros i x y Hinj Hdis Hi Hx Hy. destruct (decide (i < mid)) as [Hlt|Hge].
    + rewrite <-(W1 i x y); try done; try lia.
      * destruct (decide (peek m2 x = peek m1 x)) as [|Hne]; [done|].
        destruct (C2 x Hne) as (j & Hj & Hxj). assert (i = j) by (apply (Hinj i j x); (done || lia)). lia.
      * intros a b z ? ? ? ?. apply (Hinj a b z); (done || lia).
      * intros a b z ? ? ?. apply (Hdis a b z); (done || lia).
    + rewrite (W2 i x y); try done; try lia.
      * destruct (decide (peek m1 y = peek m y)) as [|Hne]; [done|].
        destruct (C1 y Hne) as (j & Hj & Hyj). exfalso. apply (Hdis j i y); (done || lia).
      * intros a b z ? ? ? ?. apply (Hinj a b z); (done || lia).
      * intros a b z ? ? ?. apply (Hdis a b z); (done || lia).
Qed.

Lemma moved_len da sa mid len done n m m' :
  mid <= len -> moved da sa mid done n m m' -> moved da sa len done n m m'.
Proof.
  intros Hl [R C M W]. split; [lia| |done|].
  - intros x (i & ? & ?)%C. exists i. split; [lia|done].
  - intros i x y Hinj Hdis. apply W.
    + intros a b z ? ? ? ?. apply (Hinj a b z); (done || lia).
    + intros a b z ? ? ?. apply (Hdis a b z); (done || lia).
Qed.

Lemma moved_shift da sa len n base m m' :
  moved da sa len 0 n m m' ->
  moved (fun i => da (i - base)) (fun i => sa (i - base)) (base + len) base (base + n) m m'.
Proof.
  intros [R C M W]. assert (forall a, base + a - base = a) as Hb by lia. split; [lia| | |].
  - intros x (i & ? & ?)%C. exists (base + i). split; [lia|]. by rewrite Hb.
  - intros i Hi. apply M. lia.
  - intros i x y Hinj Hdis Hi. apply W; [| |lia].
    + intros a c z ? ? ? ?. enough (base + a = base + c) by lia.
      apply (Hinj _ _ z); try lia; by rewrite Hb.
    + intros a c z ? ? ?. rewrite <-(Hb c). apply (Hdis (base + a) _ z); try lia. by rewrite Hb.
Qed.

(** One chunk copied whole. *)
Lemma moved_chunk da sa done chunk dst src m m' :
  0 < chunk -> 
  (forall i, 0 <= i < chunk -> da (done + i) = Some (dst + i)) ->
  (forall i, 0 <= i < chunk -> sa (done + i) = Some (src + i)) ->
  (forall x, peek m' x <> peek m x -> dst <= x < dst + chunk) ->
  (forall i, 0 <= i < chunk -> peek m' (dst + i) = peek m (src + i)) ->
  moved da sa (done + chunk) done (done + chunk) m m'.
Proof.
  intros Hc Hd Hs Hch Hwr.
  assert (forall i, done <= i < done + chunk ->
    da i = Some (dst + (i - done)) /\ sa i = Some (src + (i - done))) as Hat.
  { intros i Hi. rewrite <-Hd, <-Hs by lia. split; f_equal; lia. }
  split; [lia| | |].
  - intros x Hx. apply Hch in Hx. exists (done + (x - dst)). split; [lia|]. rewrite Hd by lia. f_equal. lia.
  - intros i Hi. destruct (Hat i Hi) as [-> ->]. eauto.
  - intros i x y _ _ Hi Hx Hy. destruct (Hat i Hi) as [Hx' Hy'].
    rewrite Hx in Hx'. rewrite Hy in Hy'. simplify_eq. apply Hwr. lia.
Qed.

Definition copy_sge_post (s : ionic_datapath) (dk dv sk sv len done n : Z) (s' : ionic_datapath) :
    Prop :=
  moved (addr_at s dk dv) (addr_at s sk sv) len done n (dp_mem s) (dp_mem s') /\
  (n < len -> addr_at s sk sv n = None \/ addr_at s dk dv n = None \/ dp_fault s' <> IONIC_STS_OK).

Lemma copy_sge_loop_spec fuel dk dv sk sv len done s :
  mrs_wf s -> 0 <= done <= len -> len < 2 ^ 32 -> len - done <= Z.of_nat fuel ->
  let r := copy_sge_loop fuel dk dv sk sv len done s in
  copy_sge_post s dk dv sk sv len done r.1 r.2.
Proof.
  revert done s. induction fuel as [|fuel IH]; intros done s Hwf Hd Hlen Hfuel.
  { split; cbn; [apply moved_stop; lia|intros ?; lia]. }
  cbn [copy_sge_loop]. destruct (done <? len) eqn:Hlt; bdestr;
    [|split; cbn; [apply moved_stop; lia|intros ?; lia]].
  cbn zeta. rewrite run_bind. frame_fact (sge_gpa sk (u64 (sv + done))) s FMr Hm1.
  frame_fact (sge_gpa sk (u64 (sv + done))) s FMem Hm2.
  pose proof (sge_gpa_chunk sk sv done s) as Hg.
  destruct (sge_gpa sk (u64 (sv + done)) s) as [[src srun] s1]. cbn [fst snd] in *.
  destruct (Hg src srun Hwf eq_refl) as (Hsrc & Hsrun & Hsz & Hsb). clear Hg.
  rewrite run_bind. frame_fact (sge_gpa dk (u64 (dv + done))) s1 FMr Hm3.
  frame_fact (sge_gpa dk (u64 (dv + done))) s1 FMem Hm4.
  pose proof (sge_gpa_chunk dk dv done s1) as Hg.
  destruct (sge_gpa dk (u64 (dv + done)) s1) as [[dst drun] s2]. cbn [fst snd] in *.
  destruct (Hg dst drun (mrs_wf_mrs _ _ Hm1 Hwf) eq_refl) as (Hdst & Hdrun & Hdz & Hdb). clear Hg.
  rewrite (addr_at_mrs _ _ Hm1) in *. unfold copy_sge_post. rewrite <-Hm2, <-Hm4.
  destruct ((srun =? 0) || (drun =? 0)) eqn:Hr0.
  { apply orb_true_iff in Hr0. split; cbn; [apply moved_stop; lia|]. destruct Hr0; bdestr; auto. }
  apply orb_false_iff in Hr0 as [? ?]. bdestr.
  set (chunk := if COPY_BOUNCE <? _ then _ else _).
  assert (0 < chunk <= srun /\ chunk <= drun /\ chunk <= len - done) as (Hc1 & Hc2 & Hc3).
  { subst chunk. unfold COPY_BOUNCE. repeat case_match; bdestr; lia. }
  unfold dp_dma_read. rewrite run_bind, run_gets. cbn [fst snd].
  destruct (dma_read (dp_mem s2) src chunk) as [bs|] eqn:Hr.
  - apply dma_read_spec in Hr as [-> Hcs]; [|done|lia]. set (bs := peekn (dp_mem s2) src chunk).
    rewrite run_bind. frame_fact (dp_dma_write dst bs) s2 FMr Hm5.
    destruct (dp_dma_write_spec dst bs s2 Hdst) as [Hch Hok]; [subst bs; rewrite length_peekn; lia|].
    destruct (dp_dma_write dst bs s2) as [ok s3]. cbn [fst snd] in *.
    assert (Z.of_nat (length bs) = chunk) as Hbl by (subst bs; rewrite length_peekn; lia).
    rewrite Hbl in *. destruct ok.
    + destruct (Hok eq_refl) as [Hcd Hwr].
      destruct (IH (done + chunk) s3) as [Hmv Hsh]; try lia; [apply (mrs_wf_mrs s); [congruence|done]|].
      rewrite (addr_at_mrs s s3) in * by congruence. split; [|done].
      eapply moved_trans; [|apply (moved_chunk _ _ done chunk dst src _ (dp_mem s3))|exact Hmv]; try lia.
      * intros i Hi. apply Hdb; lia.
      * intros i Hi. apply Hsb; lia.
      * intros x Hx. by apply Hch.
      * intros i Hi. rewrite Hwr by lia.
        rewrite (list_lookup_total_correct _ _ (peek (dp_mem s2) (src + i))).
        { apply wrap_id, peek_byte. }
        subst bs. rewrite peekn_lookup by lia. do 3 f_equal. lia.
    + rewrite run_bind. frame_fact (dp_fault_set IONIC_STS_LOCAL_ACC_ERR) s3 FMem Hm6.
      pose proof (fault_set_sets IONIC_STS_LOCAL_ACC_ERR s3 ltac:(done)) as Hf.
      destruct (dp_fault_set _ s3) as [u s4]. run. cbn [fst snd] in *. rewrite Hm6.
      split; [|auto]. apply (moved_fail _ _ _ _ chunk dst); try done; try lia.
      intros i Hi. apply Hdb. lia.
  - run. frame_fact (dp_fault_set IONIC_STS_LOCAL_ACC_ERR) s2 FMem Hm6.
    pose proof (fault_set_sets IONIC_STS_LOCAL_ACC_ERR s2 ltac:(done)) as Hf. rewrite run_bind.
    destruct (dp_fault_set _ s2) as [u s4]. run. cbn [fst snd] in *. rewrite Hm6.
    split; [apply moved_stop; lia|auto].
Qed.

Lemma copy_sge_spec dk dv sk sv len s :
  mrs_wf s -> 0 <= len < 2 ^ 32 ->
  let r := dp_copy_sge dk dv sk sv len s in copy_sge_post s dk dv sk sv len 0 r.1 r.2.
Proof. intros. apply copy_sge_loop_spec; try done; lia. Qed.
End xfer_spec.
