(* ===== verification/DpCq.v ===== *)
(** * Completion queues (ionic_datapath.c, "CQ posting")

    cq_fire_event() to cq_post_send_npg(), and the error counters they move.
    The guest driver finds a new completion by the colour bit of the slot at
    its consumer index, so the invariant is about guest memory: what the last
    [depth] slots hold. *)
From S2P Require Export DpXfer NetHeaders.

Definition INT_MAX : Z := 2147483647.

Section cq.
Context {E : Env}.

(** Calls dp->cq_event_fn, or raises the vector itself when none is set. *)
Definition cq_event (eq_id cq_id : Z) : DP unit := fun s =>
  match dp_cq_event_fn s with
  | Some fn =>
      let '(m, d) := fn eq_id cq_id (dp_mem s) (dp_dev s) in
      (tt, s <| dp_mem := m |> <| dp_dev := d |>)
  | None =>
      (tt, if eq_id <=? INT_MAX then s <| dp_dev ::= dev_trigger_irq eq_id |> else s)
  end.

Definition cq_fire_event (cq_id : Z) : DP unit :=
  c ← gets (cq_at cq_id);
  if negb (c_armed c) then mret tt
  else
    upd_cq cq_id (fun c => c <| c_armed := false |>) ;;
    cq_event (c_eq_id c) cq_id.

Fixpoint cq_write_loop (fuel : nat) (b : dp_buf) (off : Z) (src : list Z) (len done : Z) : DP Z :=
  match fuel with
  | O => mret (-1)
  | S fuel' =>
      if done <? len then
        let '(gpa, run) := buf_gpa b (u64 (off + done)) in
        if run =? 0 then mret (-1)
        else
          let chunk := len - done in
          let chunk := if run <? chunk then run else chunk in
          ok ← dp_dma_write gpa (bslice src (Z.to_nat done) (Z.to_nat chunk));
          if ok : bool then cq_write_loop fuel' b off src len (done + chunk) else mret (-1)
      else mret 0
  end.

(** 0, or -1.  [len] turns and the one that ends it. *)
Definition cq_write (c : ionic_cq_ring) (off : Z) (src : list Z) (len : Z) : DP Z :=
  cq_write_loop (S (Z.to_nat len)) (c_buf c) off src len 0.

Definition count_inc (ctr : rdma_counter) (f : rdma_counts) : rdma_counts :=
  fun c => if decide (c = ctr) then u64 (f c + 1) else f c.

Definition dp_count (qp_id : Z) (ctr : rdma_counter) : DP unit :=
  modify (fun s => s <| dp_rdma ::= count_inc ctr |>) ;;
  ok ← gets (fun s => (qp_id <? dp_qp_count s) && q_valid (qp_at qp_id s));
  if ok : bool then upd_qp qp_id (fun q => q <| q_rdma ::= count_inc ctr |>) else mret tt.

Definition dp_count_cqe_err (qp_id type status : Z) : DP unit :=
  if type =? CQE_TYPE_RECV then
    dp_count qp_id RESP_RX_CQE_ERR ;;
    if status =? IONIC_STS_LOCAL_LEN_ERR then dp_count qp_id RESP_RX_LOCAL_LEN_ERR else mret tt
  else if negb (type =? CQE_TYPE_SEND_MSN) then mret tt
  else
    dp_count qp_id REQ_RX_CQE_ERR ;;
    if status =? IONIC_STS_LOCAL_ACC_ERR then dp_count qp_id REQ_TX_LOCAL_ACCESS_ERR
    else if status =? IONIC_STS_LOCAL_QP_OPER_ERR then dp_count qp_id REQ_TX_LOCAL_OPER_ERR
    else if status =? IONIC_STS_LOCAL_PROT_ERR then dp_count qp_id REQ_TX_MEMORY_MGMT_ERR
    else if status =? IONIC_STS_REMOTE_ACC_ERR then dp_count qp_id REQ_RX_REMOTE_ACCESS_ERR
    else if status =? IONIC_STS_RETRY_EXCEEDED then dp_count qp_id REQ_RX_IMPLIED_NAK_SEQ_ERR
    else if status =? IONIC_STS_RNR_RETRY_EXCEEDED then dp_count qp_id REQ_RX_RNR_RETRY_ERR
    else mret tt.

(** The 32 bytes of a completion. *)
Definition cqe_bytes (color : bool) (body : list Z) (status_len type qid : Z) (error : bool) : list Z :=
  let qtf := Z.lor (Z.lor (Z.lor (if color then CQE_COLOR_BIT else 0)
                                 (if error then CQE_ERROR_BIT else 0)) type)
                   (u32 (Z.shiftl (Z.land qid 0xffffff) CQE_QID_SHIFT)) in
  take 24 body ++ be32_bytes status_len ++ be32_bytes qtf.

Definition cq_post (cq_id : Z) (body : list Z) (status_len type qid : Z) (error : bool) : DP unit :=
  bad ← gets (fun s => (dp_cq_count s <=? cq_id) || negb (c_valid (cq_at cq_id s)));
  if bad : bool then mret tt
  else
    c ← gets (cq_at cq_id);
    let cqe := cqe_bytes (c_color c) body status_len type qid error in
    let stride := Z.shiftl 1 (c_stride_log2 c) in
    let base := u64 (c_prod c mod c_depth c * stride) in
    r1 ← cq_write c base cqe (CQE_SIZE - 4);
    if (r1 <? 0) then mret tt else
    r2 ← cq_write c (u64 (base + CQE_SIZE - 4)) (drop 28 cqe) 4;
    if (r2 <? 0) then mret tt else
    stat (StatQpCqe qid) ;;
    (if error then dp_count_cqe_err qid type status_len else mret tt) ;;
    upd_cq cq_id (fun c =>
      let prod := u32 (c_prod c + 1) in
      c <| c_prod := prod |>
        <| c_color := if prod mod c_depth c =? 0 then negb (c_color c) else c_color c |>) ;;
    cq_fire_event cq_id.

Definition cq_post_recv (cq_id qid rq_wqe_id src_qpn recv_op imm_be byte_len : Z) (error : bool)
    (src_mac : option (list Z)) (is_ipv4 : bool) : DP unit :=
  let body := zeros 24 in
  let body := bput body CQE_RECV_WQE_ID_OFF (le64_bytes rq_wqe_id) in
  let qpn_op := Z.lor (u32 (Z.shiftl recv_op CQE_RECV_OP_SHIFT)) (Z.land src_qpn 0xffffff) in
  let body := match src_mac with
              | Some mac => bput body CQE_RECV_SRC_MAC_OFF (take ETH_ADDR_LEN mac)
              | None => body
              end in
  let qpn_op := if is_ipv4 then Z.lor qpn_op CQE_RECV_IS_IPV4 else qpn_op in
  let body := ernic_put_be32 body CQE_RECV_SRC_QPN_OP_OFF qpn_op in
  let body := bput body CQE_RECV_IMM_DATA_OFF (le32_bytes imm_be) in
  cq_post cq_id body byte_len CQE_TYPE_RECV qid error.

Definition cq_post_flush (cq_id qid type : Z) : DP unit :=
  cq_post cq_id (zeros 24) IONIC_STS_WQE_FLUSHED_ERR type qid true.

Definition cq_post_send_msn (cq_id qid msn status : Z) : DP unit :=
  cq_post cq_id (ernic_put_be32 (zeros 24) CQE_SEND_MSG_MSN_OFF msn) status CQE_TYPE_SEND_MSN qid
    (negb (status =? IONIC_STS_OK)).

Definition cq_post_send_npg (cq_id qid sq_wqe_id status : Z) : DP unit :=
  cq_post cq_id (bput (zeros 24) CQE_SEND_NPG_WQE_ID_OFF (le64_bytes sq_wqe_id)) status
    CQE_TYPE_SEND_NPG qid (negb (status =? IONIC_STS_OK)).

(** ** Frames *)

Lemma cq_event_frame e c : keeps (frame [FMem; FDev]) (cq_event e c).
Proof.
  intros s f Hf. unfold cq_event. destruct (dp_cq_event_fn s) as [fn|].
  - destruct (fn _ _ _ _). revert s f Hf. frame_prim.
  - case_match; [revert s f Hf; frame_prim | by destruct f].
Qed.
Hint Resolve cq_event_frame : frame.

Lemma cq_fire_event_frame c : keeps (frame [FMem; FDev; FCq]) (cq_fire_event c).
Proof. unfold cq_fire_event. frame_auto. Qed.

Lemma cq_write_loop_frame fuel b off src len done :
  keeps (frame [FMem]) (cq_write_loop fuel b off src len done).
Proof. revert done. induction fuel as [|fuel IH]; intros done; cbn [cq_write_loop]; frame_auto. Qed.
Lemma cq_write_frame c off src len : keeps (frame [FMem]) (cq_write c off src len).
Proof. apply cq_write_loop_frame. Qed.

Lemma dp_count_frame q c : keeps (frame [FQp; FRdma]) (dp_count q c).
Proof. unfold dp_count. frame_auto. frame_prim. Qed.
Hint Resolve cq_fire_event_frame cq_write_frame dp_count_frame : frame.

Lemma dp_count_cqe_err_frame q t st : keeps (frame [FQp; FRdma]) (dp_count_cqe_err q t st).
Proof. unfold dp_count_cqe_err. frame_auto. Qed.
Hint Resolve dp_count_cqe_err_frame : frame.

(** What any posting routine may touch. *)
Definition cq_flds : list fld := [FMem; FDev; FCq; FQp; FRdma; FStats].

Lemma cq_post_frame c body sl ty q e : keeps (frame cq_flds) (cq_post c body sl ty q e).
Proof. unfold cq_post. frame_auto. Qed.
End cq.
#[export] Hint Resolve cq_event_frame cq_fire_event_frame cq_write_frame dp_count_frame
  dp_count_cqe_err_frame cq_post_frame : frame.

(** ** Writing into a ring *)
Section ring_write.
Context {E : Env} {ML : GuestMemLaws Mem}.

(** The guest address of byte [i] of what is written at offset [off]. *)
Definition ring_addr (b : dp_buf) (off i : Z) : option Z := buf_byte b (u64 (off + i)).

Lemma buf_byte_lt b off x : buf_wf b -> buf_byte b off = Some x -> off < 2 ^ 64.
Proof.
  intros [Hb Hw]. unfold buf_byte, fits in *. destruct (b_pages b) as [pages|].
  - destruct Hw as (_ & _ & _ & _ & ?). case_match; bdestr; [|done]. unfold UINT64_MAX in *. intros _. lia.
  - case_match; bdestr; [|done]. unfold UINT64_MAX in *. intros _. lia.
Qed.

Lemma buf_gpa_chunk b off done gpa run :
  buf_wf b -> buf_gpa b (u64 (off + done)) = (gpa, run) ->
  fits 64 gpa /\ 0 <= run /\ (run = 0 -> ring_addr b off done = None) /\
  forall i, 0 <= i < run -> gpa + i < 2 ^ 64 -> ring_addr b off (done + i) = Some (gpa + i).
Proof.
  intros Hwf Hg. pose proof (wrap_fits 64 (off + done) ltac:(lia)) as Hf.
  pose proof (buf_gpa_range b Hwf _ Hf) as [? ?]. pose proof (buf_gpa_none b Hwf _ Hf) as Hn.
  pose proof (buf_gpa_bytes b Hwf (u64 (off + done)) gpa run) as Hb. rewrite Hg in *. cbn in *.
  split_and!; try done; [by intros ?%Hn|]. intros i Hi Hc. specialize (Hb i Hf eq_refl Hi Hc).
  pose proof (buf_byte_lt _ _ _ Hwf Hb). unfold ring_addr.
  rewrite Z.add_assoc, <-u64_add_l, wrap_id; [done|]. unfold fits in *. lia.
Qed.

Lemma cq_write_loop_spec fuel b off src len done s :
  buf_wf b -> 0 <= done <= len -> len < 2 ^ 32 -> len <= Z.of_nat (length src) ->
  len - done < Z.of_nat fuel ->
  let r := cq_write_loop fuel b off src len done s in
  exists n, wrote (ring_addr b off) src len done n (dp_mem s) (dp_mem r.2) /\
    (r.1 = 0 /\ n = len /\ same_writes (dp_mem s) (dp_mem r.2) \/ r.1 = -1 /\ write_stops (ring_addr b off) len (dp_mem s)).
Proof.
  revert done s. induction fuel as [|fuel IH]; intros done s Hwf Hd Hlen Hsrc Hfuel; [lia|].
  cbn [cq_write_loop]. destruct (done <? len) eqn:Hlt; bdestr.
  2: { exists done. split; [apply wrote_stop; lia|]. cbn. left. split_and!; [done|lia|done]. }
  cbn zeta. pose proof (buf_gpa_chunk b off done) as Hg.
  destruct (buf_gpa b (u64 (off + done))) as [gpa run].
  destruct (Hg gpa run Hwf eq_refl) as (Hgpa & Hrun & Hz & Hb). clear Hg.
  destruct (run =? 0) eqn:Hr0; bdestr.
  { exists done. split; [apply wrote_stop; lia|]. right. split; [done|]. left. exists done. split; [lia|]. by apply Hz. }
  set (chunk := if run <? len - done then run else len - done).
  assert (0 < chunk <= run /\ chunk <= len - done) as [Hc1 Hc2].
  { subst chunk. case_match; bdestr; lia. }
  rewrite run_bind.
  assert (forall i, 0 <= i < chunk -> gpa + i < 2 ^ 64 -> ring_addr b off (done + i) = Some (gpa + i)) as Hb'.
  { intros i Hi. apply Hb. lia. }
  pose proof (dp_dma_write_perm _ _ _ s (chunk_range (ring_addr b off) len gpa src done chunk Hgpa ltac:(lia) ltac:(lia) Hsrc Hb')) as [Hst Hrf].
  destruct (dp_dma_write_chunk gpa src done chunk s) as [Hch Hok]; try done; try lia.
  destruct (dp_dma_write gpa _ s) as [ok s2]. cbn [fst snd] in *.
  destruct ok.
  - destruct (Hok eq_refl) as [Hcarry Hwr].
    destruct (IH (done + chunk) s2) as (n & Hw & Hr); try done; try lia.
    exists n. split.
    + apply (wrote_step _ _ _ _ chunk gpa _ _ (dp_mem s2)); try done; try lia. intros x Hx. by apply Hch.
    + destruct Hr as [(-> & -> & Hs')|(-> & [Hn|Hs'])]; [left|right; split; [done|by left]|right; split; [done|right]].
      * split_and!; [done..|]. by eapply same_writes_trans.
      * by eapply refused_after.
  - exists done. cbn. split; [|right; split; [done|right; by apply Hrf]]. apply (wrote_fail _ _ _ _ chunk gpa); try done; lia.
Qed.

Lemma cq_write_spec c off src len s :
  buf_wf (c_buf c) -> 0 <= len < 2 ^ 32 -> len <= Z.of_nat (length src) ->
  let r := cq_write c off src len s in
  exists n, wrote (ring_addr (c_buf c) off) src len 0 n (dp_mem s) (dp_mem r.2) /\
    (r.1 = 0 /\ n = len /\ same_writes (dp_mem s) (dp_mem r.2) \/
     r.1 = -1 /\ write_stops (ring_addr (c_buf c) off) len (dp_mem s)).
Proof. intros. apply cq_write_loop_spec; try done; lia. Qed.
End ring_write.

(** ** The ring as the guest driver sees it *)
Section cq_ring.
Context {E : Env} {ML : GuestMemLaws Mem}.

Record cq_entry := CqEntry {
  e_body : list Z; e_status : Z; e_type : Z; e_qid : Z; e_error : bool }.

Definition entry_ok (e : cq_entry) : Prop :=
  bytes_ok (e_body e) /\ length (e_body e) = 24%nat /\ Z.testbit (e_type e) 0 = false.

(** The colour of the [k]-th completion of a ring: it flips every round. *)
Definition color_at (depth k : Z) : bool := Z.even (k / depth).

Definition entry_bytes (depth k : Z) (e : cq_entry) : list Z :=
  cqe_bytes (color_at depth k) (e_body e) (e_status e) (e_type e) (e_qid e) (e_error e).

(** The guest address of byte [i] of the slot of completion [k]. *)
Definition slot_addr (c : ionic_cq_ring) (k i : Z) : option Z :=
  ring_addr (c_buf c) (k mod c_depth c * 2 ^ c_stride_log2 c) i.

(** What the driver does at consumer index [k]: take the slot's bytes if its
    colour is the one it expects. *)
Definition driver_poll (s : ionic_datapath) (cq_id k : Z) : option (list Z) :=
  let c := cq_at cq_id s in
  a ← mapM (slot_addr c k) (seqZ 0 32);
  let bs := peek (dp_mem s) <$> a in
  if Bool.eqb (Z.testbit (bs !!! 31%nat) 0) (color_at (c_depth c) k) then Some bs else None.

Definition cq_geom (c : ionic_cq_ring) : Prop :=
  c_valid c = true /\ buf_wf (c_buf c) /\
  IONIC_CQ_MIN_STRIDE_LOG2 <= c_stride_log2 c <= IONIC_RING_MAX_STRIDE_LOG2 /\
  exists d, 0 <= d <= IONIC_RING_MAX_DEPTH_LOG2 /\ c_depth c = 2 ^ d.

(** Every byte of the ring has an address of its own. *)
Definition ring_mapped (c : ionic_cq_ring) : Prop :=
  (forall o, 0 <= o < c_depth c * 2 ^ c_stride_log2 c -> is_Some (buf_byte (c_buf c) o)) /\
  (forall o o' x, 0 <= o < c_depth c * 2 ^ c_stride_log2 c -> 0 <= o' < c_depth c * 2 ^ c_stride_log2 c ->
     buf_byte (c_buf c) o = Some x -> buf_byte (c_buf c) o' = Some x -> o = o').

Definition in_ring (c : ionic_cq_ring) (x : Z) : Prop :=
  exists o, 0 <= o < c_depth c * 2 ^ c_stride_log2 c /\ buf_byte (c_buf c) o = Some x.

(** The event queue the callback writes to is elsewhere. *)
Definition event_spares (s : ionic_datapath) (c : ionic_cq_ring) : Prop :=
  match dp_cq_event_fn s with
  | None => True
  | Some fn => forall e q m d x, in_ring c x -> peek (fn e q m d).1 x = peek m x
  end.

(** Completions [L] have been posted to the ring, the last [depth] of them
    are in its slots, and no other slot has the colour of the next round. *)
Record cq_ring_inv (s : ionic_datapath) (cq_id : Z) (L : list cq_entry) : Prop := {
  cr_geom : cq_geom (cq_at cq_id s);
  cr_mapped : ring_mapped (cq_at cq_id s);
  cr_prod : c_prod (cq_at cq_id s) = u32 (Z.of_nat (length L));
  cr_color : c_color (cq_at cq_id s) = color_at (c_depth (cq_at cq_id s)) (Z.of_nat (length L));
  cr_data (k : nat) e i x :
    L !! k = Some e -> Z.of_nat (length L) <= Z.of_nat k + c_depth (cq_at cq_id s) -> 0 <= i < 32 ->
    slot_addr (cq_at cq_id s) (Z.of_nat k) i = Some x ->
    peek (dp_mem s) x = u8 (entry_bytes (c_depth (cq_at cq_id s)) (Z.of_nat k) e !!! Z.to_nat i);
  cr_new k x :
    Z.of_nat (length L) <= k < Z.of_nat (length L) + c_depth (cq_at cq_id s) ->
    slot_addr (cq_at cq_id s) k 31 = Some x ->
    Z.testbit (peek (dp_mem s) x) 0 = negb (color_at (c_depth (cq_at cq_id s)) k);
}.

Lemma u32_mod_depth n d : 0 <= d <= 32 -> u32 n mod 2 ^ d = n mod 2 ^ d.
Proof.
  intros Hd. unfold wrap. rewrite (Z.mod_eq n (2 ^ 32)) by lia.
  assert (2 ^ 32 = 2 ^ (32 - d) * 2 ^ d) as -> by (rewrite <-Z.pow_add_r by lia; f_equal; lia).
  rewrite <-(Z_mod_plus_full n (- (2 ^ (32 - d) * (n / (2 ^ (32 - d) * 2 ^ d)))) (2 ^ d)). f_equal. lia.
Qed.

Section slots.
Context (c : ionic_cq_ring) (Hg : cq_geom c).

Lemma geom_facts : 0 < c_depth c <= 2 ^ 24 /\ 32 <= 2 ^ c_stride_log2 c <= 2 ^ 16.
Proof.
  destruct Hg as (_ & _ & Hs & d & Hd & ->).
  unfold IONIC_RING_MAX_DEPTH_LOG2, IONIC_CQ_MIN_STRIDE_LOG2, IONIC_RING_MAX_STRIDE_LOG2 in *.
  split; split; try (apply Z.pow_pos_nonneg; lia); try (apply Z.pow_le_mono_r; lia).
  change 32 with (2 ^ 5). apply Z.pow_le_mono_r; lia.
Qed.

Lemma slot_off_range k i :
  0 <= i < 32 ->
  0 <= k mod c_depth c * 2 ^ c_stride_log2 c + i < c_depth c * 2 ^ c_stride_log2 c.
Proof.
  intros Hi. destruct geom_facts as [Hd Hs]. pose proof (Z.mod_pos_bound k (c_depth c) ltac:(lia)).
  set (a := k mod c_depth c) in *. set (S := 2 ^ c_stride_log2 c) in *. nia.
Qed.

Lemma slot_off_fits k i :
  0 <= i < 32 -> fits 64 (k mod c_depth c * 2 ^ c_stride_log2 c + i).
Proof.
  intros Hi. pose proof (slot_off_range k i Hi). destruct geom_facts as [Hd Hs]. unfold fits.
  assert (c_depth c * 2 ^ c_stride_log2 c <= 2 ^ 24 * 2 ^ 16) by (apply Z.mul_le_mono_nonneg; lia). lia.
Qed.

Lemma slot_addr_off k i :
  0 <= i < 32 -> slot_addr c k i = buf_byte (c_buf c) (k mod c_depth c * 2 ^ c_stride_log2 c + i).
Proof. intros Hi. unfold slot_addr, ring_addr. by rewrite wrap_id by (by apply slot_off_fits). Qed.

Lemma slot_addr_inj k k' i i' x :
  ring_mapped c -> 0 <= i < 32 -> 0 <= i' < 32 ->
  slot_addr c k i = Some x -> slot_addr c k' i' = Some x ->
  k mod c_depth c = k' mod c_depth c /\ i = i'.
Proof.
  intros [_ Hinj] Hi Hi'. rewrite !slot_addr_off by done. intros H1 H2.
  specialize (Hinj _ _ _ (slot_off_range k i Hi) (slot_off_range k' i' Hi') H1 H2).
  destruct geom_facts as [Hd Hs].
  set (a := k mod c_depth c) in *. set (b := k' mod c_depth c) in *.
  set (S := 2 ^ c_stride_log2 c) in *. clearbody a b S.
  assert (a = b) by nia. nia.
Qed.

Lemma slot_addr_mapped k i : ring_mapped c -> 0 <= i < 32 -> is_Some (slot_addr c k i).
Proof. intros [Hm _] Hi. rewrite slot_addr_off by done. by apply Hm, slot_off_range. Qed.

Lemma slot_in_ring k i x : 0 <= i < 32 -> slot_addr c k i = Some x -> in_ring c x.
Proof. intros Hi. rewrite slot_addr_off by done. eexists. split; [by apply slot_off_range|done]. Qed.

(** The colour word follows the body in the same slot. *)
Lemma slot_addr_tail k i :
  0 <= i < 4 ->
  ring_addr (c_buf c) (u64 (u64 (k mod c_depth c * 2 ^ c_stride_log2 c) + CQE_SIZE - 4)) i =
  slot_addr c k (28 + i).
Proof.
  intros Hi. unfold slot_addr, ring_addr, CQE_SIZE.
  rewrite (wrap_id 64 (_ * _)) by (pose proof (slot_off_fits k 0); unfold fits in *; lia).
  rewrite u64_add_l. f_equal. f_equal. lia.
Qed.

(** The two writes of cq_post() put the completion in the slot of [k]. *)
Lemma slot_written k cqe m m1 m2 :
  ring_mapped c -> length cqe = 32%nat ->
  wrote (slot_addr c k) cqe 28 0 28 m m1 ->
  wrote (fun i => slot_addr c k (28 + i)) (drop 28 cqe) 4 0 4 m1 m2 ->
  forall i x, 0 <= i < 32 -> slot_addr c k i = Some x -> peek m2 x = u8 (cqe !!! Z.to_nat i).
Proof.
  intros Hm Hl [_ _ _ W1] [_ C2 _ W2] i x Hi Hx. destruct (decide (i < 28)) as [Hlt|Hlt].
  - assert (addr_inj (slot_addr c k) 0 28) as Hinj.
    { intros a b y ? ? Ha Hb. destruct (slot_addr_inj k k a b y Hm ltac:(lia) ltac:(lia) Ha Hb). lia. }
    rewrite <-(W1 i x Hinj) by (done || lia).
    destruct (decide (peek m2 x = peek m1 x)) as [|Hne]; [done|].
    destruct (C2 x Hne) as (j & Hj & Hxj).
    destruct (slot_addr_inj k k i (28 + j) x Hm ltac:(lia) ltac:(lia) Hx Hxj). lia.
  - rewrite (W2 (i - 28) x).
    + rewrite lookup_total_drop. do 2 f_equal. lia.
    + intros a b y ? ? Ha Hb.
      destruct (slot_addr_inj k k (28 + a) (28 + b) y Hm ltac:(lia) ltac:(lia) Ha Hb). lia.
    + lia.
    + rewrite <-Hx. f_equal. lia.
Qed.
End slots.

Lemma cq_at_upd i f s j :
  cq_at j (upd_cq i f s).2 = if decide (j = i) then f (cq_at i s) else cq_at j s.
Proof.
  unfold upd_cq, cq_at. cbn. case_decide; subst.
  - by rewrite lookup_total_insert_eq.
  - by rewrite lookup_total_insert_ne.
Qed.

Lemma cq_at_frame {A} (m : DP A) F s j :
  keeps (frame F) m -> bool_decide (FCq ∈ F) = false -> cq_at j (m s).2 = cq_at j s.
Proof. intros Hm Hf. unfold cq_at. by rewrite (frame_get F m FCq s Hm Hf). Qed.

(** The event: the armed flag goes, and the ring's bytes stay. *)
Lemma cq_fire_event_spec cq_id s :
  let s' := (cq_fire_event cq_id s).2 in
  let c := cq_at cq_id s in
  cq_at cq_id s' = c <| c_armed := false |> /\
  (forall j, j <> cq_id -> cq_at j s' = cq_at j s) /\
  (event_spares s c -> forall x, in_ring c x -> peek (dp_mem s') x = peek (dp_mem s) x).
Proof.
  cbn zeta. unfold cq_fire_event. run. destruct (c_armed (cq_at cq_id s)) eqn:Ha; cbn [negb].
  - run. rewrite (cq_at_frame (cq_event _ cq_id) [FMem; FDev]) by (done || apply cq_event_frame).
    rewrite cq_at_upd, decide_True by done. split_and!; [done| |].
    + intros j Hj. rewrite (cq_at_frame (cq_event _ cq_id) [FMem; FDev]) by (done || apply cq_event_frame).
      by rewrite cq_at_upd, decide_False.
    + unfold event_spares, cq_event, upd_cq. cbn. intros Hs x Hx.
      destruct (dp_cq_event_fn s) as [fn|]; [|by case_match].
      specialize (Hs (c_eq_id (cq_at cq_id s)) cq_id (dp_mem s) (dp_dev s) x Hx).
      destruct (fn _ _ _ _). done.
  - split_and!; try done. cbn. destruct (cq_at cq_id s). cbn in *. by subst.
Qed.

Lemma cqe_bytes_length color body st ty q er :
  length body = 24%nat -> length (cqe_bytes color body st ty q er) = 32%nat.
Proof. intros Hb. unfold cqe_bytes. rewrite !length_app, length_take, Hb. done. Qed.

(** What follows the two writes of a completion. *)
Definition cq_advance (c : ionic_cq_ring) : ionic_cq_ring :=
  let prod := u32 (c_prod c + 1) in
  c <| c_prod := prod |>
    <| c_color := if prod mod c_depth c =? 0 then negb (c_color c) else c_color c |>.

Definition cq_post_tail (cq_id : Z) (e : cq_entry) : DP unit :=
  stat (StatQpCqe (e_qid e)) ;;
  (if e_error e then dp_count_cqe_err (e_qid e) (e_type e) (e_status e) else mret tt) ;;
  upd_cq cq_id cq_advance ;;
  cq_fire_event cq_id.

Lemma cq_post_tail_spec cq_id e s :
  let s' := (cq_post_tail cq_id e s).2 in
  let c := cq_at cq_id s in
  cq_at cq_id s' = cq_advance c <| c_armed := false |> /\
  (forall j, j <> cq_id -> cq_at j s' = cq_at j s) /\
  (event_spares s c -> forall x, in_ring c x -> peek (dp_mem s') x = peek (dp_mem s) x).
Proof.
  cbn zeta. unfold cq_post_tail. rewrite !run_bind.
  set (s1 := (stat _ s).2).
  set (m := if e_error e then _ else _). set (s2 := (m s1).2).
  assert (keeps (frame [FQp; FRdma]) m) as Hm by (subst m; frame_auto).
  assert (forall j, cq_at j s2 = cq_at j s) as Hcq.
  { intros j. subst s2. by rewrite (cq_at_frame m _ s1 j Hm eq_refl). }
  assert (dp_mem s2 = dp_mem s) as Hmem by apply (frame_get _ m FMem s1 Hm eq_refl).
  assert (dp_cq_event_fn s2 = dp_cq_event_fn s) as Hfn.
  { exact (f_equal snd (frame_get _ m FCfg s1 Hm eq_refl)). }
  destruct (cq_fire_event_spec cq_id (upd_cq cq_id cq_advance s2).2) as (H1 & H2 & H3).
  rewrite cq_at_upd, decide_True, Hcq in * by done. split_and!; [done| |].
  - intros j Hj. rewrite H2 by done. rewrite cq_at_upd, decide_False by done. apply Hcq.
  - intros Hs x Hx. rewrite H3; [by cbn; rewrite Hmem| |done].
    unfold event_spares in *. cbn. by rewrite Hfn.
Qed.

Definition cq_post_entry (cq_id : Z) (e : cq_entry) : DP unit :=
  cq_post cq_id (e_body e) (e_status e) (e_type e) (e_qid e) (e_error e).

(** A post either fails in its writes, which stay inside the slot, or writes
    the slot and moves the ring on. *)
Lemma cq_post_cases cq_id e s :
  let c := cq_at cq_id s in
  let cqe := cqe_bytes (c_color c) (e_body e) (e_status e) (e_type e) (e_qid e) (e_error e) in
  let s' := (cq_post_entry cq_id e s).2 in
  cq_id < dp_cq_count s -> cq_geom c -> entry_ok e ->
  dp_cq s' = dp_cq s /\ write_stops (slot_addr c (c_prod c)) 32 (dp_mem s) /\
    (forall x, peek (dp_mem s') x <> peek (dp_mem s) x -> exists i, 0 <= i < 32 /\ slot_addr c (c_prod c) i = Some x) \/
  exists s2, s' = (cq_post_tail cq_id e s2).2 /\ dp_cq s2 = dp_cq s /\ dp_cq_event_fn s2 = dp_cq_event_fn s /\
    exists m1, wrote (slot_addr c (c_prod c)) cqe 28 0 28 (dp_mem s) m1 /\
      wrote (fun i => slot_addr c (c_prod c) (28 + i)) (drop 28 cqe) 4 0 4 m1 (dp_mem s2).
Proof.
  intros c cqe s' Hid Hg (Hbo & Hbl & _). subst s'. unfold cq_post_entry, cq_post. run.
  pose proof Hg as (Hv & Hwf & Hst & _). fold c. rewrite Hv, (proj2 (Z.leb_gt _ _)) by lia. cbn [orb negb].
  run. fold c. rewrite Z.shiftl_mul_pow2, Z.mul_1_l by (unfold IONIC_CQ_MIN_STRIDE_LOG2 in *; lia).
  fold cqe. set (base := c_prod c mod c_depth c * 2 ^ c_stride_log2 c).
  assert (length cqe = 32%nat) as Hl by (by apply cqe_bytes_length).
  destruct (cq_write_spec c (u64 base) cqe (CQE_SIZE - 4) s Hwf) as (n1 & Hw1 & Hr1);
    [unfold CQE_SIZE; lia|rewrite Hl; unfold CQE_SIZE; lia|].
  assert (forall i, ring_addr (c_buf c) (u64 base) i = slot_addr c (c_prod c) i) as Ha1 by (intros i; unfold slot_addr, ring_addr; by rewrite u64_add_l).
  apply (wrote_ext _ (slot_addr c (c_prod c))) in Hw1; [|intros i _; apply Ha1].
  assert (forall x, addrs (ring_addr (c_buf c) (u64 base)) (CQE_SIZE - 4) x -> addrs (slot_addr c (c_prod c)) 32 x) as Hin1.
  { intros x (i & Hi & Hx). exists i. split; [unfold CQE_SIZE in *; lia|by rewrite <-Ha1]. }
  frame_fact (cq_write c (u64 base) cqe (CQE_SIZE - 4)) s FCq Hc1.
  frame_fact (cq_write c (u64 base) cqe (CQE_SIZE - 4)) s FCfg Hf1.
  destruct (cq_write c (u64 base) cqe _ s) as [r1 s1]. cbn [fst snd] in *.
  destruct Hr1 as [(-> & -> & Hst1)|(-> & Hst1)]; cbn [Z.ltb Z.compare].
  2: { left. split; [done|]. split.
       { destruct Hst1 as [(i & Hi & Hn)|Hrf]; [left; exists i; split; [unfold CQE_SIZE in *; lia|by rewrite <-Ha1]|right; by eapply refused_mono]. }
       intros x (i & ? & ?)%(wr_confined _ _ _ _ _ _ _ Hw1).
       exists i. split; [unfold CQE_SIZE in *; lia|done]. }
  run. set (off2 := u64 (u64 base + CQE_SIZE - 4)).
  destruct (cq_write_spec c off2 (drop 28 cqe) 4 s1 Hwf) as (n2 & Hw2 & Hr2);
    [lia|rewrite length_drop, Hl; lia|].
  assert (forall i, 0 <= i < 4 -> ring_addr (c_buf c) off2 i = slot_addr c (c_prod c) (28 + i)) as Ha2 by (intros i Hi; by rewrite <-slot_addr_tail).
  apply (wrote_ext _ (fun i => slot_addr c (c_prod c) (28 + i))) in Hw2; [|exact Ha2].
  frame_fact (cq_write c off2 (drop 28 cqe) 4) s1 FCq Hc2.
  frame_fact (cq_write c off2 (drop 28 cqe) 4) s1 FCfg Hf2.
  destruct (cq_write c off2 (drop 28 cqe) 4 s1) as [r2 s2]. cbn [fst snd] in *.
  destruct Hr2 as [(-> & -> & _)|(-> & Hst2)]; cbn [Z.ltb Z.compare].
  - right. exists s2. split; [done|]. split; [congruence|]. split; [congruence|]. by exists (dp_mem s1).
  - left. split; [cbn; congruence|]. split.
    { destruct Hst2 as [(i & Hi & Hn)|Hrf]; [left; exists (28 + i); split; [lia|by rewrite <-Ha2]|right].
      apply (refused_after _ _ (dp_mem s1)); [done|]. eapply refused_mono; [|exact Hrf]. intros x (i & Hi & Hx). exists (28 + i). split; [lia|by rewrite <-Ha2]. }
    intros x Hx. cbn in Hx.
    destruct (decide (peek (dp_mem s2) x = peek (dp_mem s1) x)) as [He|He].
    + rewrite He in Hx. destruct (wr_confined _ _ _ _ _ _ _ Hw1 x Hx) as (i & ? & ?).
      exists i. split; [unfold CQE_SIZE in *; lia|done].
    + destruct (wr_confined _ _ _ _ _ _ _ Hw2 x He) as (i & ? & ?). exists (28 + i). split; [lia|done].
Qed.

(** Completion [k]'s slot and completion [k']'s are the same or apart. *)
Lemma slot_changed c k k' i x m m' :
  cq_geom c -> ring_mapped c ->
  (forall x, peek m' x <> peek m x -> exists i, 0 <= i < 32 /\ slot_addr c k i = Some x) ->
  k mod c_depth c <> k' mod c_depth c -> 0 <= i < 32 -> slot_addr c k' i = Some x ->
  peek m' x = peek m x.
Proof.
  intros Hg Hm Hch Hk Hi Hx. destruct (decide (peek m' x = peek m x)) as [|Hne]; [done|].
  destruct (Hch x Hne) as (j & Hj & Hxj).
  by destruct (slot_addr_inj c Hg k k' j i x Hm Hj Hi Hxj Hx) as [? _].
Qed.

Lemma mod_window n k depth :
  0 < depth -> n <= k < n + depth -> k mod depth = n mod depth -> k = n.
Proof.
  intros Hd Hk Hm. pose proof (Z.div_mod n depth ltac:(lia)). pose proof (Z.div_mod k depth ltac:(lia)).
  assert (k / depth = n / depth \/ k / depth >= n / depth + 1) as [|] by nia; nia.
Qed.

Lemma color_next depth n : 0 < depth -> color_at depth (n + depth) = negb (color_at depth n).
Proof.
  intros Hd. unfold color_at. replace (n + depth) with (n + 1 * depth) by lia.
  rewrite Z.div_add, Z.even_add by lia. by destruct (Z.even (n / depth)).
Qed.

Lemma color_step depth n :
  0 < depth ->
  color_at depth (n + 1) = if (n + 1) mod depth =? 0 then negb (color_at depth n) else color_at depth n.
Proof.
  intros Hd. unfold color_at.
  pose proof (Z.div_mod n depth ltac:(lia)). pose proof (Z.mod_pos_bound n depth ltac:(lia)).
  pose proof (Z.div_mod (n + 1) depth ltac:(lia)). pose proof (Z.mod_pos_bound (n + 1) depth ltac:(lia)).
  case_match; bdestr.
  - assert ((n + 1) / depth = n / depth + 1) as -> by nia. rewrite Z.even_add. by destruct (Z.even _).
  - f_equal. symmetry. apply (Z.div_unique _ _ _ (n mod depth + 1)); [|lia].
    left. assert (n mod depth + 1 <> depth) as Hne; [|lia].
    intros Hr. apply H3. replace (n + 1) with (0 + (n / depth + 1) * depth) by lia.
    by rewrite Z_mod_plus_full, Z.mod_0_l by lia.
Qed.

Lemma cqe_color_bit color e :
  entry_ok e ->
  Z.testbit (u8 (cqe_bytes color (e_body e) (e_status e) (e_type e) (e_qid e) (e_error e) !!! 31%nat)) 0 = color.
Proof.
  intros (_ & Hl & Ht). unfold cqe_bytes. rewrite app_assoc, lookup_total_app_r.
  all: rewrite length_app, length_take, Hl.
  2: { cbn. lia. }
  change (31 - _)%nat with 3%nat. cbn [be32_bytes lookup_total list_lookup_total].
  unfold wrap. rewrite !Z.mod_pow2_bits_low, !Z.lor_spec by lia. rewrite Ht.
  rewrite Z.mod_pow2_bits_low, Z.shiftl_spec_low by (unfold CQE_QID_SHIFT; lia).
  by destruct color, (e_error e).
Qed.

Section post.
Context (s : ionic_datapath) (cq_id : Z) (L : list cq_entry) (e : cq_entry).
Context (Hinv : cq_ring_inv s cq_id L) (Hid : cq_id < dp_cq_count s) (He : entry_ok e).
Let c := cq_at cq_id s.
Let n := Z.of_nat (length L).

Lemma prod_slot i : slot_addr c (c_prod c) i = slot_addr c n i.
Proof.
  unfold slot_addr. destruct (cr_geom _ _ _ Hinv) as (_ & _ & _ & d & Hd & Hdep).
  subst c n. rewrite (cr_prod _ _ _ Hinv), Hdep, u32_mod_depth; [done|].
  unfold IONIC_RING_MAX_DEPTH_LOG2 in *. lia.
Qed.

Lemma slots_apart k : n - c_depth c < k < n \/ n < k < n + c_depth c -> n mod c_depth c <> k mod c_depth c.
Proof.
  intros Hk Heq. destruct (geom_facts c (cr_geom _ _ _ Hinv)) as [Hd _]. destruct Hk.
  - apply (mod_window k n) in Heq; lia.
  - symmetry in Heq. apply (mod_window n k) in Heq; lia.
Qed.

(** The ring after a successful post. *)
Lemma cq_post_append_ok s' m2 :
  cq_at cq_id s' = cq_advance c <| c_armed := false |> ->
  (forall x, in_ring c x -> peek (dp_mem s') x = peek m2 x) ->
  (forall x, peek m2 x <> peek (dp_mem s) x -> exists i, 0 <= i < 32 /\ slot_addr c n i = Some x) ->
  (forall i x, 0 <= i < 32 -> slot_addr c n i = Some x ->
     peek m2 x = u8 (entry_bytes (c_depth c) n e !!! Z.to_nat i)) ->
  cq_ring_inv s' cq_id (L ++ [e]).
Proof.
  intros Hc' Hring Hch Hnew. pose proof Hinv as [Hg Hm Hp Hcol Hdata Hfresh].
  fold c in Hg, Hm, Hp, Hcol, Hdata, Hfresh. fold n in Hp, Hcol, Hdata, Hfresh.
  destruct (geom_facts c Hg) as [Hd _].
  assert (forall k i, slot_addr (cq_at cq_id s') k i = slot_addr c k i) as Hsl by (by rewrite Hc').
  assert (c_depth (cq_at cq_id s') = c_depth c) as Hdep by (by rewrite Hc').
  assert (forall k i x, 0 <= i < 32 -> slot_addr c k i = Some x ->
    n mod c_depth c <> k mod c_depth c -> peek (dp_mem s') x = peek (dp_mem s) x) as Hkeep.
  { intros k i x Hi Hx Hk. rewrite Hring by (by eapply slot_in_ring).
    by apply (slot_changed c n k i x _ _ Hg Hm Hch Hk Hi). }
  split; rewrite ?length_app; cbn [length]; rewrite ?Hdep.
  - rewrite Hc'. exact Hg.
  - rewrite Hc'. exact Hm.
  - rewrite Hc'. cbn. rewrite Hp. unfold wrap. rewrite Zplus_mod_idemp_l. f_equal. subst n. lia.
  - rewrite Hc'. cbn. rewrite Hp, Hcol. replace (Z.of_nat (length L + 1)) with (n + 1) by (subst n; lia).
    rewrite color_step by lia. destruct Hg as (_ & _ & _ & d & Hd2 & Hde). rewrite Hde.
    unfold IONIC_RING_MAX_DEPTH_LOG2 in *.
    assert (u32 (u32 n + 1) = u32 (n + 1)) as -> by (unfold wrap; by rewrite Zplus_mod_idemp_l).
    rewrite u32_mod_depth by lia. done.
  - intros k e' i x Hk Hlo Hi Hx. rewrite Hsl in Hx. apply lookup_app_Some in Hk as [Hk|[Hk1 Hk2]].
    + pose proof (lookup_lt_Some _ _ _ Hk). rewrite (Hkeep (Z.of_nat k) i x Hi Hx) by (apply slots_apart; lia).
      apply Hdata; try done. lia.
    + assert (k = length L) by (apply lookup_lt_Some in Hk2; cbn in Hk2; lia). subst k.
      rewrite Nat.sub_diag in Hk2. injection Hk2 as <-. fold n in Hx |- *.
      rewrite Hring by (by eapply slot_in_ring). by apply Hnew.
  - intros k x Hk Hx. rewrite Hsl in Hx. destruct (decide (k = n + c_depth c)) as [->|Hne].
    + assert (slot_addr c (n + c_depth c) 31 = slot_addr c n 31) as Hsame.
      { unfold slot_addr. by rewrite <-(Z.mul_1_l (c_depth c)) at 1; rewrite Z_mod_plus_full. }
      rewrite Hsame in Hx. rewrite Hring by (by eapply (slot_in_ring c Hg n 31); [lia|]).
      rewrite (Hnew 31 x) by (done || lia). rewrite color_next, negb_involutive by lia. by apply cqe_color_bit.
    + rewrite (Hkeep k 31 x) by (done || lia || apply slots_apart; lia). apply Hfresh; [lia|done].
Qed.
End post.

(** The step of the refinement: a post appends to the completions the driver
    will find, or, when guest memory refuses the write, leaves those it has
    not overtaken as they were. *)
Lemma cq_post_refines s cq_id L e :
  cq_ring_inv s cq_id L -> cq_id < dp_cq_count s -> entry_ok e ->
  event_spares s (cq_at cq_id s) ->
  let s' := (cq_post_entry cq_id e s).2 in
  cq_ring_inv s' cq_id (L ++ [e]) \/
  cq_at cq_id s' = cq_at cq_id s /\ write_refused (addrs (slot_addr (cq_at cq_id s) (Z.of_nat (length L))) 32) (dp_mem s) /\
  forall (k : nat) i x, Z.of_nat (length L) < Z.of_nat k + c_depth (cq_at cq_id s) ->
    (k < length L)%nat -> 0 <= i < 32 -> slot_addr (cq_at cq_id s) (Z.of_nat k) i = Some x ->
    peek (dp_mem s') x = peek (dp_mem s) x.
Proof.
  intros Hinv Hid He Hev s'. pose proof (cr_geom _ _ _ Hinv) as Hg. pose proof (cr_mapped _ _ _ Hinv) as Hm.
  pose proof (prod_slot s cq_id L Hinv) as Hps.
  destruct (cq_post_cases cq_id e s Hid Hg He) as [(Hcq & Hstop & Hch)|(s2 & Hs' & Hcq & Hfn & m1 & W1 & W2)].
  - fold s' in Hcq, Hch. right. split; [unfold cq_at; by rewrite Hcq|]. split.
    { destruct Hstop as [(i & Hi & Hn)|Hrf].
      - destruct (slot_addr_mapped (cq_at cq_id s) Hg (c_prod (cq_at cq_id s)) i Hm Hi) as [y Hy]. by rewrite Hn in Hy.
      - eapply refused_mono; [|exact Hrf]. intros y (i & Hi & Hy). exists i. split; [done|]. by rewrite <-Hps. }
    intros k i x Hk Hlt Hi Hx.
    apply (slot_changed (cq_at cq_id s) (Z.of_nat (length L)) (Z.of_nat k) i x); try done.
    + intros y (j & Hj & Hy)%Hch. exists j. by rewrite <-Hps.
    + apply (slots_apart s cq_id L Hinv). lia.
  - fold s' in Hs'. left. destruct (cq_post_tail_spec cq_id e s2) as (Hc' & _ & Hmem).
    assert (cq_at cq_id s2 = cq_at cq_id s) as Hc2 by (unfold cq_at; by rewrite Hcq).
    rewrite Hc2 in *. rewrite <-Hs' in *.
    apply (wrote_ext _ (slot_addr (cq_at cq_id s) (Z.of_nat (length L)))) in W1; [|by intros; apply Hps].
    apply (wrote_ext _ (fun i => slot_addr (cq_at cq_id s) (Z.of_nat (length L)) (28 + i))) in W2;
      [|by intros; apply Hps].
    apply (cq_post_append_ok s cq_id L e Hinv He s' (dp_mem s2)); try done.
    + intros x Hx. apply Hmem; [|done]. unfold event_spares in *. by rewrite Hfn.
    + intros x Hx. destruct (decide (peek (dp_mem s2) x = peek m1 x)) as [Heq|Hne].
      * rewrite Heq in Hx. destruct (wr_confined _ _ _ _ _ _ _ W1 x Hx) as (i & ? & ?). exists i. split; [lia|done].
      * destruct (wr_confined _ _ _ _ _ _ _ W2 x Hne) as (i & ? & ?). exists (28 + i). split; [lia|done].
    + intros i x Hi Hx. unfold entry_bytes. rewrite <-(cr_color _ _ _ Hinv).
      apply (slot_written (cq_at cq_id s) Hg (Z.of_nat (length L)) _ (dp_mem s) m1); try done.
      apply cqe_bytes_length, He.
Qed.

Lemma mapM_slot c k : cq_geom c -> ring_mapped c ->
  exists a, mapM (slot_addr c k) (seqZ 0 32) = Some a /\ length a = 32%nat /\
    forall i, (i < 32)%nat -> exists x, a !! i = Some x /\ slot_addr c k (Z.of_nat i) = Some x.
Proof.
  intros Hg Hm. destruct (mapM_is_Some_2 (slot_addr c k) (seqZ 0 32)) as [a Ha].
  { apply Forall_forall. intros i Hi%elem_of_seqZ. apply slot_addr_mapped; (done || lia). }
  exists a. apply mapM_Some_1 in Ha as Hf. split_and!; [done| |].
  - apply Forall2_length in Hf. by rewrite length_seqZ in Hf.
  - intros i Hi. destruct (lookup_lt_is_Some_2 a i) as [x Hx].
    { apply Forall2_length in Hf. rewrite length_seqZ in Hf. lia. }
    exists x. split; [done|]. destruct (Forall2_lookup_r _ _ _ _ _ Hf Hx) as (y & Hy & Hxy).
    rewrite lookup_seqZ_lt in Hy by lia. injection Hy as <-. done.
Qed.

(** The driver at its consumer index finds the completion posted there, or
    nothing if none has been posted yet. *)
Lemma driver_poll_refines s cq_id L (k : nat) :
  cq_ring_inv s cq_id L -> Forall entry_ok L ->
  Z.of_nat (length L) <= Z.of_nat k + c_depth (cq_at cq_id s) -> (k <= length L)%nat ->
  driver_poll s cq_id (Z.of_nat k) =
  entry_bytes (c_depth (cq_at cq_id s)) (Z.of_nat k) <$> L !! k.
Proof.
  intros [Hg Hm Hp Hcol Hdata Hfresh] Hok Hlo Hk. unfold driver_poll. set (c := cq_at cq_id s) in *.
  destruct (mapM_slot c (Z.of_nat k) Hg Hm) as (a & -> & Hla & Ha). cbn [mbind option_bind].
  destruct (Ha 31%nat ltac:(lia)) as (x31 & Hx31 & Hs31).
  assert (forall (i : nat) x, a !! i = Some x -> (peek (dp_mem s) <$> a) !!! i = peek (dp_mem s) x) as Hat.
  { intros i x Hx. apply list_lookup_total_correct. by rewrite list_lookup_fmap, Hx. }
  rewrite (Hat 31%nat x31 Hx31). destruct (L !! k) as [e|] eqn:He; cbn [fmap option_fmap option_map].
  - pose proof (Forall_lookup_1 _ _ _ _ Hok He) as Hek.
    rewrite (Hdata k e 31 x31) by (done || lia). unfold entry_bytes at 1.
    change (Z.to_nat 31) with 31%nat. rewrite cqe_color_bit by done. rewrite Bool.eqb_reflx. f_equal.
    apply list_eq_same_length with (n := 32%nat); [by apply cqe_bytes_length, Hek|by rewrite length_fmap|].
    intros i y z Hi Hy Hz. destruct (Ha i Hi) as (x & Hx & Hsx).
    rewrite list_lookup_fmap, Hx in Hy. injection Hy as <-.
    rewrite (Hdata k e (Z.of_nat i) x), Nat2Z.id by (done || lia).
    rewrite (list_lookup_total_correct _ _ _ Hz). apply wrap_id.
    eapply (Forall_lookup_1 byte_ok); [|exact Hz]. unfold entry_bytes, cqe_bytes.
    apply Forall_app_2; [by apply Forall_take, Hek|]. apply Forall_app_2; apply be32_bytes_ok.
  - apply lookup_ge_None in He. assert (k = length L) by lia. subst k.
    destruct (geom_facts c Hg) as [Hd _]. rewrite (Hfresh (Z.of_nat (length L)) x31) by (done || lia).
    by destruct (color_at _ _).
Qed.
End cq_ring.
