(* ===== verification/DpRecv.v ===== *)
(** * Work queue entries, receives, RDMA copies and atomics

    parse_sges() to do_atomic() of ionic_datapath.c: reading a WQE's
    scatter/gather list, moving data between lists, regions and host buffers,
    taking the next posted receive and delivering a SEND into it. *)
From S2P Require Export DpCq.

(** ** Scatter/gather lists *)

Inductive dp_sgl := DP_SGL_OK | DP_SGL_TOO_LONG | DP_SGL_BAD_FMT.
#[export] Instance dp_sgl_eq_dec : EqDecision dp_sgl.
Proof. solve_decision. Defined.

(** Entry [i] of a list that starts at [sgl_off]. *)
Definition sge_at (wqe : list Z) (sgl_off i : nat) : dp_sge :=
  let p := (sgl_off + i * SGE_SIZE)%nat in
  DpSge (ernic_get_be64 wqe (p + SGE_VA_OFF)) (ernic_get_be32 wqe (p + SGE_LEN_OFF))
    (ernic_get_be32 wqe (p + SGE_LKEY_OFF)).

Definition parse_sges (wqe : list Z) (wqe_len num_sge : Z) : dp_sgl * dp_sge_list :=
  let fmt := Z.land (ernic_get_be16 wqe WQE_FLAGS_OFF) IONIC_V1_FLAG_SPEC_MASK in
  if negb ((fmt =? 0) || (fmt =? IONIC_V1_FLAG_SPEC32) || (fmt =? IONIC_V1_FLAG_SPEC16))
  then (DP_SGL_BAD_FMT, inhabitant)
  else
    let sgl_off := if fmt =? 0 then Z.of_nat WQE_PLD_OFF
                   else Z.of_nat WQE_PLD_OFF + IONIC_V1_SPEC_FIRST_SGE * 16 in
    let avail := if sgl_off <? wqe_len then wqe_len - sgl_off else 0 in
    let max_sge := avail / Z.of_nat SGE_SIZE in
    let max_sge := if ERNIC_MAX_SGE <? max_sge then ERNIC_MAX_SGE else max_sge in
    let max_sge := if num_sge <? max_sge then num_sge else max_sge in
    let sges := sge_at wqe (Z.to_nat sgl_off) <$> seq 0 (Z.to_nat max_sge) in
    let total := sumZ (sg_len <$> sges) in
    ((if total <=? UINT32_MAX then DP_SGL_OK else DP_SGL_TOO_LONG),
     DpSgeList sges (if UINT32_MAX <? total then UINT32_MAX else total)).

Definition qp_is_datagram (q : ionic_qp_ring) : bool :=
  (q_ib_qp_type q =? ERNIC_IB_QPT_GSI) || (q_ib_qp_type q =? IBV_QPT_UD).

Definition dp_src_mac (src_qp_id : Z) : list Z :=
  ernic_put_be32 [0x02; 0x00; 0; 0; 0; 0] 2 src_qp_id.

Section recv.
Context {E : Env}.

Definition ionic_dp_rdma_bytes (qp_id bytes : Z) (op : ernic_stat_op) (dirs : Z) : DP unit :=
  stat (StatRdmaBytes qp_id bytes op) ;;
  (if Z.land dirs DP_RDMA_TX =? 0 then mret tt else stat (StatCountRdma bytes true)) ;;
  (if Z.land dirs DP_RDMA_RX =? 0 then mret tt else stat (StatCountRdma bytes false)).

Definition dp_local_sges_ok (l : dp_sge_list) (s : ionic_datapath) : bool :=
  forallb (fun g => (sg_len g =? 0) || ionic_dp_mr_covers (sg_lkey g) (sg_va g) (sg_len g) s)
    (sl_sges l).

(** The bytes gathered so far are [dst]. *)
Fixpoint gather_loop (sges : list dp_sge) (len : Z) (dst : list Z) : DP (list Z) :=
  match sges with
  | [] => mret dst
  | g :: sges' =>
      let done := Z.of_nat (length dst) in
      if done <? len then
        let chunk := if len - done <? sg_len g then len - done else sg_len g in
        if chunk =? 0 then gather_loop sges' len dst
        else
          bs ← ionic_dp_sge_to_host (sg_lkey g) (sg_va g) chunk;
          if Z.of_nat (length bs) =? chunk then gather_loop sges' len (dst ++ bs)
          else mret (dst ++ bs)
      else mret dst
  end.

Definition ionic_dp_gather (l : dp_sge_list) (len : Z) : DP (list Z) :=
  gather_loop (sl_sges l) len [].

Fixpoint scatter_loop (sges : list dp_sge) (src : list Z) (len done : Z) : DP Z :=
  match sges with
  | [] => mret done
  | g :: sges' =>
      if done <? len then
        let chunk := if len - done <? sg_len g then len - done else sg_len g in
        if chunk =? 0 then scatter_loop sges' src len done
        else
          n ← ionic_dp_host_to_sge (sg_lkey g) (sg_va g) (drop (Z.to_nat done) src) chunk;
          if (n : Z) =? chunk then scatter_loop sges' src len (done + n) else mret (done + n)
      else mret done
  end.

Definition dp_scatter (l : dp_sge_list) (src : list Z) (len : Z) : DP Z :=
  scatter_loop (sl_sges l) src len 0.

(** ** Taking a receive

    The WQE's id and its list, for a ring that is not empty and whose next
    WQE can be read; the caller moves its consumer index on. *)
Definition dp_ring_take (cons prod depth stride_log2 : Z) (ring_buf : dp_buf) :
    DP (option (Z * dp_sge_list)) :=
  if cons =? prod then mret None
  else
    let stride := Z.shiftl 1 stride_log2 in
    let slot := cons mod depth in
    let '(gpa, run) := buf_gpa ring_buf (slot * stride) in
    let rwqe_sz := Z.shiftl 1 IONIC_WQE_MAX_STRIDE_LOG2 in
    let read_sz := if stride <? rwqe_sz then stride else rwqe_sz in
    if (run =? 0) || (run <? read_sz) then mret None
    else
      r ← dp_dma_read gpa read_sz;
      match r with
      | None => mret None
      | Some rwqe =>
          mret (Some (ernic_get_le64 rwqe 0,
                      (parse_sges rwqe read_sz (bat rwqe WQE_NUM_SGE_KEY_OFF 0)).2))
      end.

(** Out of the QP's shared receive queue if it has one, its own ring if not. *)
Definition take_recv (dst_qp_id : Z) : DP (option (Z * dp_sge_list)) :=
  dq ← gets (qp_at dst_qp_id);
  if q_has_srq dq then
    sr ← gets (fun s => (dp_srq_count s <=? q_srq_id dq, srq_at (q_srq_id dq) s));
    let '(oob, sr) := sr : bool * ionic_srq_ring in
    if oob || negb (sr_valid sr) then mret None
    else
      r ← dp_ring_take (sr_cons sr) (sr_prod sr) (sr_depth sr) (sr_stride_log2 sr) (sr_buf sr);
      match r with
      | Some t => upd_srq (q_srq_id dq) (fun r => r <| sr_cons ::= fun c => u32 (c + 1) |>) ;; mret (Some t)
      | None => mret None
      end
  else
    r ← dp_ring_take (q_rq_cons dq) (q_rq_prod dq) (q_rq_depth dq) (q_rq_stride_log2 dq) (q_rq_buf dq);
    match r with
    | Some t => upd_qp dst_qp_id (fun q => q <| q_rq_cons ::= fun c => u32 (c + 1) |>) ;; mret (Some t)
    | None => mret None
    end.

(** The lockstep walk of two lists; [src] and [dst] are what is left of them,
    the heads from [soff] and [doff].  Each turn finishes an entry. *)
Fixpoint lockstep_copy (fuel : nat) (src dst : list dp_sge) (soff doff copied : Z) : DP Z :=
  match fuel with
  | O => mret copied
  | S fuel' =>
      match src, dst with
      | sg :: src', dg :: dst' =>
          let s_rem := sg_len sg - soff in
          let d_rem := sg_len dg - doff in
          let chunk := if s_rem <? d_rem then s_rem else d_rem in
          n ← (if chunk =? 0 then mret 0
               else dp_copy_sge (sg_lkey dg) (u64 (sg_va dg + doff)) (sg_lkey sg) (u64 (sg_va sg + soff)) chunk);
          let copied := u32 (copied + n) in
          if negb (n =? chunk) then mret copied
          else
            let soff := soff + chunk in
            let doff := doff + chunk in
            let '(src, soff) := if soff =? sg_len sg then (src', 0) else (src, soff) in
            let '(dst, doff) := if doff =? sg_len dg then (dst', 0) else (dst, doff) in
            lockstep_copy fuel' src dst soff doff copied
      | _, _ => mret copied
      end
  end.

(** ** Delivering a SEND

    [src_host] is the payload already in host memory, if it is.  [None] is
    the -1 of "no receive was available". *)
Definition ionic_dp_deliver_recv (dst_qp_id src_qp_id : Z) (src : dp_sge_list)
    (src_host : option (list Z)) (recv_op imm_be : Z) : DP (option Z) :=
  t ← take_recv dst_qp_id;
  match t with
  | None => mret None
  | Some (rq_wqe_id, dst) =>
      dp_fault_clear ;;
      copied ←
        (if recv_op =? CQE_RECV_OP_RDMA_IMM then mret (sl_total src)
         else match src_host with
         | Some bytes =>
             dp_scatter dst bytes (if sl_total src <? sl_total dst then sl_total src else sl_total dst)
         | None =>
             lockstep_copy (length (sl_sges src) + length (sl_sges dst))
               (sl_sges src) (sl_sges dst) 0 0 0
         end);
      let truncated := copied <? sl_total src in
      ionic_dp_rdma_bytes dst_qp_id copied ERNIC_STAT_RECV DP_RDMA_RX ;;
      dq ← gets (qp_at dst_qp_id);
      status ← gets (dp_fault_status IONIC_STS_LOCAL_LEN_ERR);
      let ud := qp_is_datagram dq in
      cq_post_recv (q_rq_cq_id dq) dst_qp_id rq_wqe_id src_qp_id recv_op imm_be
        (if truncated then status else copied) truncated
        (if ud then Some (dp_src_mac src_qp_id) else None)
        (ud && dp_grh_is_ipv4 src_host (sl_total src)) ;;
      mret (Some copied)
  end.

(** ** RDMA between regions *)

Fixpoint rdma_xfer_loop (sges : list dp_sge) (rkey remote_va len : Z) (to_remote : bool) (done : Z) :
    DP Z :=
  match sges with
  | [] => mret done
  | g :: sges' =>
      if done <? len then
        let chunk := if len - done <? sg_len g then len - done else sg_len g in
        if chunk =? 0 then rdma_xfer_loop sges' rkey remote_va len to_remote done
        else
          n ← (if to_remote
               then dp_copy_sge rkey (u64 (remote_va + done)) (sg_lkey g) (sg_va g) chunk
               else dp_copy_sge (sg_lkey g) (sg_va g) rkey (u64 (remote_va + done)) chunk);
          if n =? chunk then rdma_xfer_loop sges' rkey remote_va len to_remote (done + n)
          else mret (done + n)
      else mret done
  end.

Definition rdma_xfer (local : dp_sge_list) (rkey remote_va len : Z) (to_remote : bool) : DP Z :=
  rdma_xfer_loop (sl_sges local) rkey remote_va len to_remote 0.

(** ** Atomics *)

Definition atomic_new (compare_swap : bool) (old swap_add compare : Z) : Z :=
  if compare_swap then (if old =? compare then swap_add else old) else u64 (old + swap_add).

(** The value the eight bytes held, unless an access failed. *)
Definition dp_atomic_apply (gpa : Z) (compare_swap : bool) (swap_add compare : Z) : DP (option Z) :=
  r ← dp_dma_read gpa 8;
  match r with
  | None => mret None
  | Some mem =>
      let old := ernic_get_le64 mem 0 in
      ok ← dp_dma_write gpa (ernic_put_le64 mem 0 (atomic_new compare_swap old swap_add compare));
      mret (if ok : bool then Some old else None)
  end.

Definition do_atomic (wqe : list Z) (compare_swap : bool) : DP bool :=
  let remote_va := ernic_get_be64 wqe WQE_RDMA_VA_OFF in
  let swap_add := ernic_get_be64 wqe WQE_ATOMIC_SWAP_ADD_OFF in
  let compare := ernic_get_be64 wqe WQE_ATOMIC_COMPARE_OFF in
  let rkey := ernic_get_be32 wqe WQE_RDMA_RKEY_OFF in
  let local_va := ernic_get_be64 wqe WQE_ATOMIC_SGE_OFF in
  let local_lkey := ernic_get_be32 wqe (WQE_ATOMIC_SGE_OFF + SGE_LKEY_OFF) in
  cov ← gets (ionic_dp_mr_covers rkey remote_va 8);
  if negb (cov : bool) then dp_fault_set IONIC_STS_REMOTE_ACC_ERR ;; mret false else
  r ← sge_gpa rkey remote_va;
  if (r : Z * Z).2 <? 8 then dp_fault_set IONIC_STS_REMOTE_ACC_ERR ;; mret false else
  l ← sge_gpa local_lkey local_va;
  if (l : Z * Z).2 <? 8 then dp_fault_set IONIC_STS_LOCAL_PROT_ERR ;; mret false else
  old ← dp_atomic_apply r.1 compare_swap swap_add compare;
  match old with
  | None => dp_fault_set IONIC_STS_REMOTE_ACC_ERR ;; mret false
  | Some old =>
      ok ← dp_dma_write l.1 (le64_bytes old);
      if ok : bool then mret true else dp_fault_set IONIC_STS_LOCAL_ACC_ERR ;; mret false
  end.

(** ** Frames *)

Lemma rdma_bytes_frame q b op d : keeps (frame [FStats]) (ionic_dp_rdma_bytes q b op d).
Proof. unfold ionic_dp_rdma_bytes. frame_auto. Qed.
Lemma gather_loop_frame sges len dst : keeps (frame [FFault]) (gather_loop sges len dst).
Proof. revert dst. induction sges as [|g sges IH]; intros dst; cbn [gather_loop]; frame_auto. Qed.
Lemma gather_frame l len : keeps (frame [FFault]) (ionic_dp_gather l len).
Proof. apply gather_loop_frame. Qed.
Lemma scatter_loop_frame sges src len done : keeps (frame [FMem; FFault]) (scatter_loop sges src len done).
Proof. revert done. induction sges as [|g sges IH]; intros done; cbn [scatter_loop]; frame_auto. Qed.
Lemma scatter_frame l src len : keeps (frame [FMem; FFault]) (dp_scatter l src len).
Proof. apply scatter_loop_frame. Qed.
Lemma ring_take_frame c p d st b : keeps (frame []) (dp_ring_take c p d st b).
Proof. unfold dp_ring_take. frame_auto. Qed.
Hint Resolve ring_take_frame : frame.
Lemma take_recv_frame q : keeps (frame [FSrq; FQp]) (take_recv q).
Proof. unfold take_recv. frame_auto. Qed.
Lemma lockstep_frame fuel src dst so do_ c : keeps (frame [FMem; FFault]) (lockstep_copy fuel src dst so do_ c).
Proof.
  revert src dst so do_ c. induction fuel as [|fuel IH]; intros src dst so do_ c;
    cbn [lockstep_copy]; frame_auto.
Qed.
Hint Resolve rdma_bytes_frame gather_frame scatter_frame take_recv_frame lockstep_frame : frame.

Lemma cq_post_recv_frame c q w sq op imm bl e mac v4 :
  keeps (frame cq_flds) (cq_post_recv c q w sq op imm bl e mac v4).
Proof. unfold cq_post_recv. frame_auto. Qed.
Lemma cq_post_flush_frame c q t : keeps (frame cq_flds) (cq_post_flush c q t).
Proof. unfold cq_post_flush. frame_auto. Qed.
Lemma cq_post_send_msn_frame c q m st : keeps (frame cq_flds) (cq_post_send_msn c q m st).
Proof. unfold cq_post_send_msn. frame_auto. Qed.
Lemma cq_post_send_npg_frame c q w st : keeps (frame cq_flds) (cq_post_send_npg c q w st).
Proof. unfold cq_post_send_npg. frame_auto. Qed.
Hint Resolve cq_post_recv_frame : frame.

Definition recv_flds : list fld := FSrq :: FFault :: cq_flds.
Lemma deliver_recv_frame dq sq src sh op imm :
  keeps (frame recv_flds) (ionic_dp_deliver_recv dq sq src sh op imm).
Proof. unfold ionic_dp_deliver_recv. frame_auto. Qed.

Lemma rdma_xfer_loop_frame sges rk va len dir done :
  keeps (frame [FMem; FFault]) (rdma_xfer_loop sges rk va len dir done).
Proof. revert done. induction sges as [|g sges IH]; intros done; cbn [rdma_xfer_loop]; frame_auto. Qed.
Lemma rdma_xfer_frame l rk va len dir : keeps (frame [FMem; FFault]) (rdma_xfer l rk va len dir).
Proof. apply rdma_xfer_loop_frame. Qed.
Lemma atomic_apply_frame g cs sa c : keeps (frame [FMem]) (dp_atomic_apply g cs sa c).
Proof. unfold dp_atomic_apply. frame_auto. Qed.
Hint Resolve atomic_apply_frame : frame.
Lemma do_atomic_frame wqe cs : keeps (frame [FMem; FFault]) (do_atomic wqe cs).
Proof. unfold do_atomic. frame_auto. Qed.
End recv.
#[export] Hint Resolve rdma_bytes_frame gather_frame scatter_frame ring_take_frame take_recv_frame
  lockstep_frame cq_post_recv_frame cq_post_flush_frame cq_post_send_msn_frame
  cq_post_send_npg_frame deliver_recv_frame rdma_xfer_frame atomic_apply_frame do_atomic_frame : frame.

(** ** What the lists reach *)
Section recv_spec.
Context {E : Env} {ML : GuestMemLaws Mem}.

(** The guest address of byte [i] of a list. *)
Fixpoint sgl_addr (s : ionic_datapath) (sges : list dp_sge) (i : Z) : option Z :=
  match sges with
  | [] => None
  | g :: sges' =>
      if i <? sg_len g then addr_at s (sg_lkey g) (sg_va g) i else sgl_addr s sges' (i - sg_len g)
  end.

Definition sge_ok (g : dp_sge) : Prop := fits 64 (sg_va g) /\ fits 32 (sg_len g) /\ fits 32 (sg_lkey g).

Lemma sgl_addr_mrs s s' sges : dp_mrs s' = dp_mrs s -> sgl_addr s' sges = sgl_addr s sges.
Proof.
  intros Hm. induction sges as [|g sges IH]; [done|]. cbn [sgl_addr].
  by rewrite IH, (addr_at_mrs _ _ Hm).
Qed.

(** Scattering writes the source at the list's addresses in order, and stops
    short only at a byte that has none or on a failed transfer. *)
Lemma scatter_loop_spec sges src len done s :
  mrs_wf s -> Forall sge_ok sges -> 0 <= done <= len -> len < 2 ^ 32 -> len <= Z.of_nat (length src) ->
  let r := scatter_loop sges src len done s in
  wrote (fun i => sgl_addr s sges (i - done)) src len done r.1 (dp_mem s) (dp_mem r.2) /\
  (r.1 < len -> sgl_addr s sges (r.1 - done) = None \/ dp_fault r.2 <> IONIC_STS_OK).
Proof.
  revert done s. induction sges as [|g sges IH]; intros done s Hwf Hok Hd Hlen Hsrc.
  { cbn. split; [apply wrote_stop; lia|by left]. }
  apply list.Forall_cons in Hok as [(_ & Hgl & _) Hok]. unfold fits in Hgl.
  cbn [scatter_loop]. destruct (done <? len) eqn:Hlt; bdestr;
    [|cbn; split; [apply wrote_stop; lia|intros ?; lia]].
  set (chunk := if _ <? sg_len g then _ else _).
  assert (0 <= chunk <= sg_len g /\ done + chunk <= len /\ (chunk = sg_len g \/ done + chunk = len)) as (Hc & Hcl & Hcc).
  { subst chunk. case_match; bdestr; lia. }
  assert (forall i, done + chunk <= i -> i < len \/ chunk = sg_len g ->
    sgl_addr s (g :: sges) (i - done) = sgl_addr s sges (i - (done + chunk))) as Htail.
  { intros i Hi Hor. cbn [sgl_addr]. rewrite (proj2 (Z.ltb_ge _ _)) by lia. f_equal. lia. }
  destruct (chunk =? 0) eqn:Hc0; bdestr.
  { destruct (IH done s Hwf Hok Hd Hlen Hsrc) as [Hw Hsh]. split.
    - eapply wrote_ext; [|exact Hw]. intros i Hi. rewrite Htail by lia. f_equal. lia.
    - intros Hs. pose proof (wr_range _ _ _ _ _ _ _ Hw). rewrite Htail by lia.
      destruct (Hsh Hs) as [Hn|]; [left|by right]. rewrite <-Hn. f_equal. lia. }
  cbn zeta. rewrite run_bind.
  destruct (host_to_sge_spec (sg_lkey g) (sg_va g) (drop (Z.to_nat done) src) chunk s) as (Hw & Hsh & _);
    [done|lia|rewrite length_drop; lia|].
  frame_fact (ionic_dp_host_to_sge (sg_lkey g) (sg_va g) (drop (Z.to_nat done) src) chunk) s FMr Hm.
  destruct (ionic_dp_host_to_sge _ _ _ _ s) as [n s1]. cbn [fst snd] in *.
  pose proof (wr_range _ _ _ _ _ _ _ Hw) as Hn0. apply wrote_shift in Hw; [|lia].
  apply (wrote_ext _ (fun i => sgl_addr s (g :: sges) (i - done))) in Hw.
  2: { intros i Hi. cbn [sgl_addr]. by rewrite (proj2 (Z.ltb_lt _ _)) by lia. }
  destruct (n =? chunk) eqn:Hn; bdestr.
  - subst n. destruct (IH (done + chunk) s1 (mrs_wf_mrs _ _ Hm Hwf) Hok ltac:(lia) Hlen Hsrc) as [Hw2 Hsh2].
    rewrite (sgl_addr_mrs _ _ _ Hm) in *. pose proof (wr_range _ _ _ _ _ _ _ Hw2). split.
    + eapply wrote_trans; [|exact Hw|]; [lia|]. eapply wrote_ext; [|exact Hw2].
      intros i Hi. by rewrite Htail by lia.
    + intros Hs. by rewrite Htail by lia; auto.
  - split; [by eapply wrote_len|]. intros _. cbn [fst snd mret st_ret] in *.
    replace (done + n - done) with n by lia. cbn [sgl_addr].
    rewrite (proj2 (Z.ltb_lt _ _)) by lia. apply Hsh. lia.
Qed.

Lemma scatter_spec l src len s :
  mrs_wf s -> Forall sge_ok (sl_sges l) -> 0 <= len < 2 ^ 32 -> len <= Z.of_nat (length src) ->
  let r := dp_scatter l src len s in
  wrote (sgl_addr s (sl_sges l)) src len 0 r.1 (dp_mem s) (dp_mem r.2) /\
  (r.1 < len -> sgl_addr s (sl_sges l) r.1 = None \/ dp_fault r.2 <> IONIC_STS_OK).
Proof.
  intros Hwf Hok Hl Hs. cbn zeta. unfold dp_scatter.
  destruct (scatter_loop_spec (sl_sges l) src len 0 s Hwf Hok ltac:(lia) ltac:(lia) Hs) as [Hw Hsh].
  rewrite Z.sub_0_r in Hsh. split; [|done]. eapply wrote_ext; [|exact Hw].
  intros i _. cbn beta. f_equal. lia.
Qed.

(** Gathering reads the list's bytes in order. *)
Lemma gather_loop_spec sges len dst s :
  mrs_wf s -> Forall sge_ok sges -> Z.of_nat (length dst) <= len < 2 ^ 32 ->
  let r := gather_loop sges len dst s in
  Z.of_nat (length dst) <= Z.of_nat (length r.1) <= len /\
  take (length dst) r.1 = dst /\
  forall i, (length dst <= i < length r.1)%nat ->
    exists x, sgl_addr s sges (Z.of_nat i - Z.of_nat (length dst)) = Some x /\
      r.1 !! i = Some (peek (dp_mem s) x).
Proof.
  revert dst s. induction sges as [|g sges IH]; intros dst s Hwf Hok Hl.
  { cbn. split_and!; try lia. by rewrite take_ge. }
  apply list.Forall_cons in Hok as [(_ & Hgl & _) Hok]. unfold fits in Hgl.
  cbn [gather_loop]. destruct (_ <? len) eqn:Hlt; bdestr.
  2: { cbn. split_and!; try lia. by rewrite take_ge. }
  set (done := Z.of_nat (length dst)) in *. set (chunk := if _ <? sg_len g then _ else _).
  assert (0 <= chunk <= sg_len g /\ done + chunk <= len /\ (chunk = sg_len g \/ done + chunk = len)) as (Hc & Hcl & Hcc).
  { subst chunk. case_match; bdestr; lia. }
  destruct (chunk =? 0) eqn:Hc0; bdestr.
  { destruct (IH dst s) as (? & ? & Hi); try done. split; [done|]. split; [done|].
    intros i Hi'. cbn [sgl_addr]. rewrite (proj2 (Z.ltb_ge _ _)) by lia.
    replace (_ - sg_len g) with (Z.of_nat i - Z.of_nat (length dst)) by lia. by apply Hi. }
  cbn zeta. rewrite run_bind.
  destruct (sge_to_host_spec (sg_lkey g) (sg_va g) chunk s) as [Hr _ Hrd _ _]; [done|lia|].
  frame_fact (ionic_dp_sge_to_host (sg_lkey g) (sg_va g) chunk) s FMr Hm.
  frame_fact (ionic_dp_sge_to_host (sg_lkey g) (sg_va g) chunk) s FMem Hmem.
  destruct (ionic_dp_sge_to_host _ _ _ s) as [bs s1]. cbn [fst snd length] in *.
  assert (forall i, (length dst <= i < length dst + length bs)%nat ->
    exists x, sgl_addr s (g :: sges) (Z.of_nat i - done) = Some x /\
      (dst ++ bs) !! i = Some (peek (dp_mem s) x)) as Hhead.
  { intros i Hi. destruct (Hrd (i - length dst)%nat ltac:(lia)) as (x & Hx & Hb).
    exists x. cbn [sgl_addr]. rewrite (proj2 (Z.ltb_lt _ _)) by lia. rewrite lookup_app_r by lia.
    split; [|done]. rewrite <-Hx. f_equal. lia. }
  destruct (_ =? chunk) eqn:Hn; bdestr.
  - destruct (IH (dst ++ bs) s1) as (Hlr & Htk & Hi); [by apply (mrs_wf_mrs s)|done|rewrite length_app; lia|].
    rewrite length_app in *. split; [lia|]. split.
    { rewrite <-(take_app_length dst bs) at 3. rewrite <-Htk at 2. by rewrite take_take, Nat.min_l by lia. }
    intros i Hi'. destruct (decide (i < length dst + length bs)%nat) as [Hin|Hin].
    + destruct (Hhead i ltac:(lia)) as (x & ? & Hx). exists x. split; [done|].
      rewrite <-Htk in Hx. by rewrite lookup_take_lt in Hx by lia.
    + destruct (Hi i ltac:(lia)) as (x & Hx & Hp). exists x. rewrite Hmem in Hp. split; [|done].
      rewrite (sgl_addr_mrs _ _ _ Hm) in Hx. cbn [sgl_addr]. destruct Hcc as [Hcc|Hcc]; [|lia].
      rewrite (proj2 (Z.ltb_ge _ _)) by lia. rewrite <-Hx. f_equal. lia.
  - cbn. rewrite length_app. split; [lia|]. split; [by rewrite take_app_length|]. intros i Hi. apply Hhead. lia.
Qed.

(** It stops short only at a byte that has no address or on a failed read. *)
Lemma gather_loop_short sges len dst s :
  mrs_wf s -> Forall sge_ok sges -> Z.of_nat (length dst) <= len < 2 ^ 32 ->
  let r := gather_loop sges len dst s in
  Z.of_nat (length r.1) < len ->
  sgl_addr s sges (Z.of_nat (length r.1) - Z.of_nat (length dst)) = None \/ dp_fault r.2 <> IONIC_STS_OK.
Proof.
  revert dst s. induction sges as [|g sges IH]; intros dst s Hwf Hok Hl; [by left|].
  apply list.Forall_cons in Hok as [(_ & Hgl & _) Hok]. unfold fits in Hgl.
  cbn [gather_loop]. destruct (_ <? len) eqn:Hlt; bdestr; [|cbn; lia].
  set (done := Z.of_nat (length dst)) in *. set (chunk := if _ <? sg_len g then _ else _).
  assert (0 <= chunk <= sg_len g /\ done + chunk <= len /\ (chunk = sg_len g \/ done + chunk = len)) as (Hc & Hcl & Hcc).
  { subst chunk. case_match; bdestr; lia. }
  destruct (chunk =? 0) eqn:Hc0; bdestr.
  { destruct (gather_loop_spec sges len dst s Hwf Hok Hl) as (Hr & _ & _). intros Hs.
    destruct (IH dst s Hwf Hok Hl Hs) as [Hn|]; [left|by right]. cbn [sgl_addr]. rewrite (proj2 (Z.ltb_ge _ _)) by lia.
    rewrite <-Hn. f_equal. lia. }
  cbn zeta. rewrite run_bind. destruct (sge_to_host_spec (sg_lkey g) (sg_va g) chunk s) as [Hr _ _ Hsh _]; [done|lia|].
  frame_fact (ionic_dp_sge_to_host (sg_lkey g) (sg_va g) chunk) s FMr Hm.
  destruct (ionic_dp_sge_to_host _ _ _ s) as [bs s1]. cbn [fst snd length] in *. destruct (_ =? chunk) eqn:Hn; bdestr.
  - apply (mrs_wf_mrs _ _ Hm) in Hwf as Hwf1.
    destruct (gather_loop_spec sges len (dst ++ bs) s1 Hwf1 Hok) as (Hr2 & _ & _); [rewrite length_app; lia|].
    intros Hs. destruct (IH (dst ++ bs) s1 Hwf1 Hok) as [Hnone|]; [rewrite length_app; lia|done| |by right]. left.
    rewrite length_app in *. rewrite (sgl_addr_mrs _ _ _ Hm) in Hnone. cbn [sgl_addr]. destruct Hcc as [Hcc|Hcc]; [|lia].
    rewrite (proj2 (Z.ltb_ge _ _)) by lia. rewrite <-Hnone. f_equal. lia.
  - cbn [fst snd mret st_ret]. rewrite length_app. intros _. destruct (Hsh ltac:(lia)) as [Hx|]; [left|by right].
    cbn [sgl_addr]. rewrite (proj2 (Z.ltb_lt _ _)) by lia. rewrite <-Hx. f_equal. lia.
Qed.

Lemma gather_spec l len s :
  mrs_wf s -> Forall sge_ok (sl_sges l) -> 0 <= len < 2 ^ 32 ->
  let r := ionic_dp_gather l len s in
  Z.of_nat (length r.1) <= len /\
  (forall i, (i < length r.1)%nat ->
    exists x, sgl_addr s (sl_sges l) (Z.of_nat i) = Some x /\ r.1 !! i = Some (peek (dp_mem s) x)) /\
  (Z.of_nat (length r.1) < len ->
    sgl_addr s (sl_sges l) (Z.of_nat (length r.1)) = None \/ dp_fault r.2 <> IONIC_STS_OK).
Proof.
  intros Hwf Hok Hl. cbn zeta. unfold ionic_dp_gather.
  destruct (gather_loop_spec (sl_sges l) len [] s Hwf Hok ltac:(cbn; lia)) as (? & _ & Hi).
  split_and!; [lia| |].
  - intros i Hlt. destruct (Hi i ltac:(cbn; lia)) as (x & Hx & ?). exists x.
    split; [|done]. rewrite <-Hx. f_equal. cbn. lia.
  - intros Hs. pose proof (gather_loop_short (sl_sges l) len [] s Hwf Hok ltac:(cbn; lia) Hs) as Hsh.
    cbn [length] in Hsh. by rewrite Z.sub_0_r in Hsh.
Qed.

Lemma addr_at_shift s key va done i : addr_at s key (u64 (va + done)) i = addr_at s key va (done + i).
Proof. unfold addr_at. rewrite u64_add_l. do 2 f_equal. lia. Qed.

(** The addresses an RDMA copy goes to and comes from. *)
Definition rdma_dst (s : ionic_datapath) (sges : list dp_sge) (rkey rva : Z) (to_remote : bool) :
    Z -> option Z :=
  if to_remote then addr_at s rkey rva else sgl_addr s sges.
Definition rdma_src (s : ionic_datapath) (sges : list dp_sge) (rkey rva : Z) (to_remote : bool) :
    Z -> option Z :=
  rdma_dst s sges rkey rva (negb to_remote).

Lemma rdma_dst_head (s : ionic_datapath) (g : dp_sge) sges rkey rva dir done i :
  0 <= done -> done <= i < done + sg_len g ->
  rdma_dst s [g] rkey (u64 (rva + done)) dir (i - done) =
  rdma_dst s (g :: sges) rkey (u64 (rva + done)) dir (i - done).
Proof.
  intros Hd Hi. unfold rdma_dst. destruct dir; [done|]. cbn [sgl_addr].
  by rewrite (proj2 (Z.ltb_lt _ _)) by lia.
Qed.

(** The copy of one entry, whichever way it goes. *)
Lemma rdma_copy_one g rkey rva (dir : bool) chunk (s : ionic_datapath) :
  mrs_wf s -> sge_ok g -> 0 <= chunk <= sg_len g ->
  let r := (if dir then dp_copy_sge rkey rva (sg_lkey g) (sg_va g) chunk
            else dp_copy_sge (sg_lkey g) (sg_va g) rkey rva chunk) s in
  moved (rdma_dst s [g] rkey rva dir) (rdma_src s [g] rkey rva dir) chunk 0 r.1 (dp_mem s) (dp_mem r.2) /\
  (r.1 < chunk -> rdma_src s [g] rkey rva dir r.1 = None \/ rdma_dst s [g] rkey rva dir r.1 = None \/
     dp_fault r.2 <> IONIC_STS_OK).
Proof.
  intros Hwf (_ & Hl & _) Hc. unfold fits in Hl.
  assert (forall i, 0 <= i < chunk -> addr_at s (sg_lkey g) (sg_va g) i = sgl_addr s [g] i) as He.
  { intros i Hi. cbn [sgl_addr]. by rewrite (proj2 (Z.ltb_lt _ _)) by lia. }
  unfold rdma_src, rdma_dst. destruct dir; cbn [negb].
  - destruct (copy_sge_spec rkey rva (sg_lkey g) (sg_va g) chunk s Hwf ltac:(lia)) as [Hm Hs].
    pose proof (mv_range _ _ _ _ _ _ _ Hm). split; [by eapply moved_ext; [| |exact Hm]|]. intros Hlt. rewrite <-He by lia. auto.
  - destruct (copy_sge_spec (sg_lkey g) (sg_va g) rkey rva chunk s Hwf ltac:(lia)) as [Hm Hs].
    pose proof (mv_range _ _ _ _ _ _ _ Hm). split; [by eapply moved_ext; [| |exact Hm]|]. intros Hlt. rewrite <-He by lia. auto.
Qed.

(** The copies that follow an entry's, seen from before it. *)
Lemma rdma_dst_tail s s' g sges rkey rva done chunk d i :
  dp_mrs s' = dp_mrs s -> chunk = sg_len g -> 0 <= chunk -> done + chunk <= i ->
  rdma_dst s' sges rkey (u64 (rva + (done + chunk))) d (i - (done + chunk)) =
  rdma_dst s (g :: sges) rkey (u64 (rva + done)) d (i - done).
Proof.
  intros Hm Hc H0 Hi. unfold rdma_dst. destruct d.
  - rewrite !addr_at_shift, (addr_at_mrs _ _ Hm). f_equal. lia.
  - rewrite (sgl_addr_mrs _ _ _ Hm). cbn [sgl_addr]. rewrite (proj2 (Z.ltb_ge _ _)) by lia. f_equal. lia.
Qed.

Lemma rdma_xfer_loop_spec sges rkey rva len dir done s :
  mrs_wf s -> Forall sge_ok sges -> 0 <= done <= len -> len < 2 ^ 32 ->
  let r := rdma_xfer_loop sges rkey rva len dir done s in
  moved (fun i => rdma_dst s sges rkey (u64 (rva + done)) dir (i - done))
        (fun i => rdma_src s sges rkey (u64 (rva + done)) dir (i - done))
        len done r.1 (dp_mem s) (dp_mem r.2).
Proof.
  revert done s. induction sges as [|g sges IH]; intros done s Hwf Hok Hd Hlen.
  { cbn. apply moved_stop. lia. }
  apply list.Forall_cons in Hok as [Hg Hok]. pose proof Hg as (_ & Hgl & _). unfold fits in Hgl.
  cbn [rdma_xfer_loop]. destruct (done <? len) eqn:Hlt; bdestr; [|cbn; apply moved_stop; lia].
  set (chunk := if _ <? sg_len g then _ else _).
  assert (0 <= chunk <= sg_len g /\ done + chunk <= len /\ (chunk = sg_len g \/ done + chunk = len)) as (Hc & Hcl & Hcc).
  { subst chunk. case_match; bdestr; lia. }
  assert (forall s', dp_mrs s' = dp_mrs s -> forall d i, done + chunk <= i < len ->
    rdma_dst s' sges rkey (u64 (rva + (done + chunk))) d (i - (done + chunk)) =
    rdma_dst s (g :: sges) rkey (u64 (rva + done)) d (i - done)) as Htail.
  { intros s' Hm d i Hi. destruct Hcc as [Hcc|]; [|lia]. apply rdma_dst_tail; (done || lia). }
  destruct (chunk =? 0) eqn:Hc0; bdestr.
  { eapply moved_ext; [| |apply IH; (done || lia)]; unfold rdma_src; intros i Hi;
      rewrite <-(Htail s eq_refl _ i) by lia; do 2 f_equal; try lia; f_equal; lia. }
  cbn zeta. rewrite run_bind. set (cp := if dir then _ else _).
  assert (keeps (frame [FMem; FFault]) cp) as Hf by (subst cp; destruct dir; apply copy_sge_frame).
  pose proof (frame_get _ cp FMr s Hf eq_refl) as Hm. cbn [fld_same] in Hm.
  destruct (rdma_copy_one g rkey (u64 (rva + done)) dir chunk s Hwf Hg Hc) as [Hmv _]. cbn zeta in Hmv.
  assert ((if dir then dp_copy_sge rkey (u64 (rva + done)) (sg_lkey g) (sg_va g) chunk
           else dp_copy_sge (sg_lkey g) (sg_va g) rkey (u64 (rva + done)) chunk) s = cp s) as Hcp
    by (subst cp; by destruct dir).
  rewrite Hcp in Hmv. destruct (cp s) as [n s1]. cbn [fst snd] in *.
  apply (moved_shift _ _ _ _ done) in Hmv.
  apply (moved_ext _ (fun i => rdma_dst s (g :: sges) rkey (u64 (rva + done)) dir (i - done))
    _ (fun i => rdma_src s (g :: sges) rkey (u64 (rva + done)) dir (i - done))) in Hmv.
  2, 3: intros i Hi; apply rdma_dst_head; lia.
  destruct (n =? chunk) eqn:Hn; bdestr; [subst n|by eapply moved_len].
  specialize (IH (done + chunk) s1 (mrs_wf_mrs _ _ Hm Hwf) Hok ltac:(lia) Hlen). cbn zeta in IH.
  eapply moved_trans; [|exact Hmv|]; [lia|]. eapply moved_ext; [| |exact IH];
    intros i Hi; cbn beta; unfold rdma_src; by apply Htail.
Qed.

Lemma rdma_xfer_loop_short sges rkey rva len dir done s :
  mrs_wf s -> Forall sge_ok sges -> 0 <= done <= len -> len < 2 ^ 32 ->
  let r := rdma_xfer_loop sges rkey rva len dir done s in
  r.1 < len ->
  rdma_src s sges rkey (u64 (rva + done)) dir (r.1 - done) = None \/
  rdma_dst s sges rkey (u64 (rva + done)) dir (r.1 - done) = None \/ dp_fault r.2 <> IONIC_STS_OK.
Proof.
  revert done s. induction sges as [|g sges IH]; intros done s Hwf Hok Hd Hlen.
  { intros r _. unfold rdma_src, rdma_dst. destruct dir; auto. }
  apply list.Forall_cons in Hok as [Hg Hok]. pose proof Hg as (_ & Hgl & _). unfold fits in Hgl.
  cbn [rdma_xfer_loop]. destruct (done <? len) eqn:Hlt; bdestr; [|cbn; lia]. set (chunk := if _ <? sg_len g then _ else _).
  assert (0 <= chunk <= sg_len g /\ done + chunk <= len /\ (chunk = sg_len g \/ done + chunk = len)) as (Hc & Hcl & Hcc).
  { subst chunk. case_match; bdestr; lia. }
  destruct (chunk =? 0) eqn:Hc0; bdestr.
  { pose proof (mv_range _ _ _ _ _ _ _ (rdma_xfer_loop_spec sges rkey rva len dir done s Hwf Hok Hd Hlen)) as Hr.
    intros Hs. specialize (IH done s Hwf Hok Hd Hlen Hs). unfold rdma_src in *.
    rewrite <-!(rdma_dst_tail s s g sges rkey rva done 0) by (done || lia). by rewrite !Z.add_0_r. }
  cbn zeta. rewrite run_bind. set (cp := if dir then _ else _).
  assert (keeps (frame [FMem; FFault]) cp) as Hf by (subst cp; destruct dir; apply copy_sge_frame).
  pose proof (frame_get _ cp FMr s Hf eq_refl) as Hm. cbn [fld_same] in Hm.
  destruct (rdma_copy_one g rkey (u64 (rva + done)) dir chunk s Hwf Hg Hc) as [Hmv Hsh]. cbn zeta in Hmv, Hsh.
  assert ((if dir then dp_copy_sge rkey (u64 (rva + done)) (sg_lkey g) (sg_va g) chunk
           else dp_copy_sge (sg_lkey g) (sg_va g) rkey (u64 (rva + done)) chunk) s = cp s) as Hcp
    by (subst cp; by destruct dir).
  rewrite Hcp in Hmv, Hsh. destruct (cp s) as [n s1]. cbn [fst snd] in *. pose proof (mv_range _ _ _ _ _ _ _ Hmv) as Hnr.
  destruct (n =? chunk) eqn:Hn; bdestr.
  - subst n. intros Hs. apply (mrs_wf_mrs _ _ Hm) in Hwf as Hwf1. destruct Hcc as [Hcc|Hcc].
    2: { exfalso. pose proof (mv_range _ _ _ _ _ _ _ (rdma_xfer_loop_spec sges rkey rva len dir (done + chunk) s1 Hwf1 Hok ltac:(lia) Hlen)). lia. }
    pose proof (mv_range _ _ _ _ _ _ _ (rdma_xfer_loop_spec sges rkey rva len dir (done + chunk) s1 Hwf1 Hok ltac:(lia) Hlen)) as Hr.
    specialize (IH (done + chunk) s1 Hwf1 Hok ltac:(lia) Hlen Hs). unfold rdma_src in *.
    by rewrite <-!(rdma_dst_tail s s1 g sges rkey rva done chunk) by (done || lia).
  - intros _. cbn [fst snd mret st_ret]. destruct (Hsh ltac:(lia)) as [Hx|[Hx|Hx]]; [left|right; left|by right; right];
      rewrite <-Hx; unfold rdma_src; replace n with (done + n - done) at 2 by lia; symmetry; apply rdma_dst_head; lia.
Qed.

(** An RDMA copy moves the first bytes of one side to the other, in order. *)
Lemma rdma_xfer_spec l rkey rva len dir s :
  mrs_wf s -> Forall sge_ok (sl_sges l) -> 0 <= len < 2 ^ 32 -> fits 64 rva ->
  let r := rdma_xfer l rkey rva len dir s in
  moved (rdma_dst s (sl_sges l) rkey rva dir) (rdma_src s (sl_sges l) rkey rva dir)
    len 0 r.1 (dp_mem s) (dp_mem r.2) /\
  (r.1 < len -> rdma_src s (sl_sges l) rkey rva dir r.1 = None \/
     rdma_dst s (sl_sges l) rkey rva dir r.1 = None \/ dp_fault r.2 <> IONIC_STS_OK).
Proof.
  intros Hwf Hok Hl Hr. cbn zeta. split.
  - eapply moved_ext; [| |apply rdma_xfer_loop_spec; (done || lia)];
      intros i _; cbn beta; unfold rdma_src; rewrite Z.add_0_r, Z.sub_0_r, (wrap_id 64) by done; done.
  - intros Hs. pose proof (rdma_xfer_loop_short (sl_sges l) rkey rva len dir 0 s Hwf Hok ltac:(lia) ltac:(lia) Hs) as H.
    by rewrite Z.add_0_r, Z.sub_0_r, (wrap_id 64) in H by done.
Qed.

(** ** Reading a WQE's list *)


Lemma sge_at_ok wqe off i : bytes_ok wqe -> sge_ok (sge_at wqe off i).
Proof.
  intros Hb. unfold sge_ok, sge_at. cbn.
  split_and!; [by apply get_be64_fits|by apply get_be32_fits|by apply get_be32_fits].
Qed.

(** Where the entries of a list in a known format start. *)
Definition sgl_start (wqe : list Z) : Z :=
  if Z.land (ernic_get_be16 wqe WQE_FLAGS_OFF) IONIC_V1_FLAG_SPEC_MASK =? 0 then 32 else 64.

Lemma parse_sges_cases wqe wqe_len num_sge :
  bytes_ok wqe -> 0 <= num_sge ->
  let r := parse_sges wqe wqe_len num_sge in
  r = (DP_SGL_BAD_FMT, inhabitant) \/
  exists n : nat,
    sl_sges r.2 = sge_at wqe (Z.to_nat (sgl_start wqe)) <$> seq 0 n /\
    Z.of_nat n <= ERNIC_MAX_SGE /\ Z.of_nat n <= num_sge /\
    (n <> 0%nat -> sgl_start wqe + 16 * Z.of_nat n <= wqe_len) /\
    sl_total r.2 = Z.min UINT32_MAX (sumZ (sg_len <$> sl_sges r.2)) /\
    r.1 = if sumZ (sg_len <$> sl_sges r.2) <=? UINT32_MAX then DP_SGL_OK else DP_SGL_TOO_LONG.
Proof.
  intros Hb Hn. cbn zeta. unfold parse_sges, sgl_start.
  set (fmt := Z.land _ _). destruct (negb _) eqn:Hf; [by left|right].
  set (off := if fmt =? 0 then Z.of_nat WQE_PLD_OFF else _).
  assert (off = if fmt =? 0 then 32 else 64) as Hoff by (subst off; by destruct (fmt =? 0)).
  rewrite <-Hoff. set (avail := if off <? wqe_len then wqe_len - off else 0).
  set (n0 := if ERNIC_MAX_SGE <? _ then _ else _). set (n := if num_sge <? n0 then num_sge else n0).
  assert (0 <= avail /\ (avail = 0 \/ avail = wqe_len - off)) as [Hav0 Hav]
    by (subst avail; destruct (off <? wqe_len) eqn:?; bdestr; lia).
  pose proof (Z.div_pos avail 16 ltac:(lia) ltac:(lia)) as Hdp.
  pose proof (Z.mul_div_le avail 16 ltac:(lia)) as Hdl.
  assert (0 <= n <= ERNIC_MAX_SGE /\ n <= num_sge /\ 16 * n <= avail) as (Hn1 & Hn2 & Hn3).
  { assert (0 <= n0 <= ERNIC_MAX_SGE /\ n0 <= avail / 16) as [? ?].
    { subst n0. unfold ERNIC_MAX_SGE, SGE_SIZE. change (Z.of_nat 16) with 16.
      destruct (32 <? _) eqn:?; bdestr; lia. }
    subst n. destruct (num_sge <? n0) eqn:?; bdestr; lia. }
  exists (Z.to_nat n). cbn [fst snd sl_sges sl_total]. rewrite Z2Nat.id by lia. split_and!; try done.
  - lia.
  - intros Hnz. lia.
  - destruct (UINT32_MAX <? _) eqn:?; bdestr; lia.
Qed.

(** ** The lockstep walk *)

Definition sgl_sum (sges : list dp_sge) : Z := sumZ (sg_len <$> sges).

Lemma sgl_sum_nonneg sges : Forall sge_ok sges -> 0 <= sgl_sum sges.
Proof.
  intros H. apply sumZ_nonneg, Forall_fmap. eapply Forall_impl; [exact H|].
  intros g (_ & Hg & _). unfold fits in Hg. cbn. lia.
Qed.

(** An offset into the head of what is left of a list. *)
Definition off_ok (sges : list dp_sge) (off : Z) : Prop :=
  match sges with [] => off = 0 | g :: _ => 0 <= off <= sg_len g end.

(** Finishing an entry does not move the addresses that follow. *)
Lemma sgl_advance s g sges off chunk :
  Forall sge_ok (g :: sges) -> 0 <= off -> 0 <= chunk -> off + chunk <= sg_len g ->
  let '(rest, off') := if off + chunk =? sg_len g then (sges, 0) else (g :: sges, off + chunk) in
  Forall sge_ok rest /\ off_ok rest off' /\ sgl_sum rest - off' = sgl_sum (g :: sges) - (off + chunk) /\
  (forall i, 0 <= i -> sgl_addr s rest (off' + i) = sgl_addr s (g :: sges) (off + chunk + i)) /\
  (off + chunk = sg_len g -> length rest = length sges) /\ (length rest <= S (length sges))%nat.
Proof.
  intros Hok Ho Hc Hle. destruct (off + chunk =? sg_len g) eqn:He; bdestr.
  - apply list.Forall_cons in Hok as [_ Hok]. split_and!; try done; try (cbn; lia).
    + destruct sges as [|g' ?]; [done|]. apply list.Forall_cons in Hok as [(_ & Hg & _) _]. unfold fits in Hg. cbn. lia.
    + unfold sgl_sum, sumZ. cbn. lia.
    + intros i Hi. cbn [sgl_addr]. rewrite (proj2 (Z.ltb_ge _ _)) by lia. f_equal. lia.
  - split_and!; try done; try (cbn; lia).
Qed.

Lemma off_le_sum sges off : Forall sge_ok sges -> off_ok sges off -> 0 <= off <= sgl_sum sges.
Proof.
  intros Hok Ho. destruct sges as [|g sges]; cbn in Ho; [subst; cbn; lia|].
  apply list.Forall_cons in Hok as [_ Hok]. pose proof (sgl_sum_nonneg _ Hok).
  unfold sgl_sum, sumZ in *. cbn. lia.
Qed.

(** One chunk of the walk. *)
Lemma lockstep_chunk sg dg src dst soff doff copied chunk s :
  mrs_wf s -> sge_ok sg -> sge_ok dg -> 0 <= soff -> 0 <= doff -> 0 <= chunk ->
  soff + chunk <= sg_len sg -> doff + chunk <= sg_len dg ->
  let r := (if chunk =? 0 then mret 0
            else dp_copy_sge (sg_lkey dg) (u64 (sg_va dg + doff)) (sg_lkey sg) (u64 (sg_va sg + soff)) chunk) s in
  dp_mrs r.2 = dp_mrs s /\ 0 <= r.1 <= chunk /\
  moved (fun i => sgl_addr s (dg :: dst) (doff + (i - copied)))
    (fun i => sgl_addr s (sg :: src) (soff + (i - copied)))
    (copied + chunk) copied (copied + r.1) (dp_mem s) (dp_mem r.2) /\
  (r.1 < chunk -> sgl_addr s (sg :: src) (soff + r.1) = None \/
     sgl_addr s (dg :: dst) (doff + r.1) = None \/ dp_fault r.2 <> IONIC_STS_OK).
Proof.
  intros Hwf (_ & Hs & _) (_ & Hd & _) Hso Hdo Hc Hsl Hdl. unfold fits in *.
  assert (forall g (rest : list dp_sge) off i, 0 <= i < chunk -> off + chunk <= sg_len g ->
    addr_at s (sg_lkey g) (u64 (sg_va g + off)) i = sgl_addr s (g :: rest) (off + i)) as Hhead.
  { intros g rest off i Hi Hle. rewrite addr_at_shift. cbn [sgl_addr]. by rewrite (proj2 (Z.ltb_lt _ _)) by lia. }
  cbn zeta. destruct (chunk =? 0) eqn:Hz; bdestr.
  { cbn. subst chunk. rewrite !Z.add_0_r. split_and!; try done; try (apply moved_stop); lia. }
  set (cp := dp_copy_sge _ _ _ _ _). frame_fact cp s FMr Hm.
  destruct (copy_sge_spec (sg_lkey dg) (u64 (sg_va dg + doff)) (sg_lkey sg) (u64 (sg_va sg + soff)) chunk s)
    as [Hmv Hsh]; [done|lia|]. fold cp in Hmv, Hsh. cbn zeta in *.
  pose proof (mv_range _ _ _ _ _ _ _ Hmv). destruct (cp s) as [n s1]. cbn [fst snd] in *.
  split_and!; try done; try lia.
  - apply (moved_shift _ _ _ _ copied) in Hmv. eapply moved_ext; [| |exact Hmv]; intros i Hi;
      cbn beta; apply Hhead; lia.
  - intros Hn. rewrite <-!(Hhead _ _ _ n) by lia. auto.
Qed.

Lemma lockstep_spec fuel src dst soff doff copied s :
  mrs_wf s -> Forall sge_ok src -> Forall sge_ok dst -> off_ok src soff -> off_ok dst doff ->
  let len := copied + Z.min (sgl_sum src - soff) (sgl_sum dst - doff) in
  0 <= copied -> len < 2 ^ 32 -> (length src + length dst <= fuel)%nat ->
  let r := lockstep_copy fuel src dst soff doff copied s in
  moved (fun i => sgl_addr s dst (doff + (i - copied))) (fun i => sgl_addr s src (soff + (i - copied)))
    len copied r.1 (dp_mem s) (dp_mem r.2) /\
  (r.1 < len -> sgl_addr s src (soff + (r.1 - copied)) = None \/
     sgl_addr s dst (doff + (r.1 - copied)) = None \/ dp_fault r.2 <> IONIC_STS_OK).
Proof.
  revert src dst soff doff copied s.
  induction fuel as [|fuel IH]; intros src dst soff doff copied s Hwf Hs Hd Hso Hdo len Hc Hlen Hfuel;
    pose proof (off_le_sum _ _ Hs Hso) as Hsl; pose proof (off_le_sum _ _ Hd Hdo) as Hdl.
  { destruct src; [|cbn in Hfuel; lia]. cbn. split; [apply moved_stop; lia|auto]. }
  cbn [lockstep_copy]. destruct src as [|sg src'].
  { cbn. split; [apply moved_stop; lia|auto]. }
  destruct dst as [|dg dst'].
  { cbn. split; [apply moved_stop; lia|auto]. }
  cbn in Hso, Hdo. set (chunk := if _ <? _ then _ else _).
  assert (0 <= chunk /\ soff + chunk <= sg_len sg /\ doff + chunk <= sg_len dg /\
    (soff + chunk = sg_len sg \/ doff + chunk = sg_len dg)) as (Hch & Hcs & Hcd & Hfin).
  { subst chunk. case_match; bdestr; lia. }
  cbn zeta. rewrite run_bind.
  destruct (lockstep_chunk sg dg src' dst' soff doff copied chunk s) as (Hm & Hn & Hmv & Hsh); try lia; try done;
    [by apply list.Forall_cons in Hs as [? _]|by apply list.Forall_cons in Hd as [? _]|].
  match type of Hm with dp_mrs (?r).2 = _ => destruct r as [n s1] end. cbn [fst snd] in *.
  pose proof (sgl_advance s sg src' soff chunk Hs ltac:(lia) Hch Hcs) as Has.
  pose proof (sgl_advance s dg dst' doff chunk Hd ltac:(lia) Hch Hcd) as Had.
  destruct (if soff + chunk =? sg_len sg then _ else _) as [srest soff'].
  destruct (if doff + chunk =? sg_len dg then _ else _) as [drest doff'].
  destruct Has as (Hs' & Hso' & Hss & Hsa & Hslt & Hsle). destruct Had as (Hd' & Hdo' & Hds & Hda & Hdlt & Hdle).
  pose proof (off_le_sum _ _ Hs' Hso'). pose proof (off_le_sum _ _ Hd' Hdo').
  assert (copied + chunk <= len) as Hcl by lia. rewrite (wrap_id 32) by (unfold fits; lia).
  destruct (n =? chunk) eqn:He; bdestr; cbn [negb].
  2: { split; cbn; [by eapply moved_len|]. intros _. replace (copied + n - copied) with n by lia. apply Hsh. lia. }
  subst n. specialize (IH srest drest soff' doff' (copied + chunk) s1 (mrs_wf_mrs _ _ Hm Hwf) Hs' Hd' Hso' Hdo').
  cbn zeta in IH. replace (copied + chunk + _) with len in IH by lia.
  rewrite !(sgl_addr_mrs _ _ _ Hm) in IH. destruct IH as [Hmv2 Hsh2]; try lia; [cbn in Hfuel; destruct Hfin; lia|].
  assert (forall i, copied + chunk <= i -> sgl_addr s drest (doff' + (i - (copied + chunk))) =
     sgl_addr s (dg :: dst') (doff + (i - copied)) /\
     sgl_addr s srest (soff' + (i - (copied + chunk))) = sgl_addr s (sg :: src') (soff + (i - copied))) as Heq.
  { intros i Hi. rewrite Hsa, Hda by lia. split; f_equal; lia. }
  pose proof (mv_range _ _ _ _ _ _ _ Hmv2). split.
  - eapply moved_trans; [exact Hcl|exact Hmv|]. eapply moved_ext; [| |exact Hmv2];
      intros i Hi; cbn beta; apply Heq; lia.
  - intros Hlt. destruct (Heq (lockstep_copy fuel srest drest soff' doff' (copied + chunk) s1).1) as [<- <-]; [lia|].
    by apply Hsh2.
Qed.

(** ** Atomics *)

Lemma bput_whole (b src : list Z) : length src = length b -> bput b 0 src = src.
Proof.
  intros Hl. unfold bput. apply list_eq. intros i. destruct (decide (i < length src)%nat).
  - rewrite list_lookup_inserts by lia. f_equal. lia.
  - rewrite !lookup_ge_None_2; [done|lia|]. rewrite length_inserts. lia.
Qed.

Lemma peekn_ext (m m' : Mem) a n :
  (forall x, a <= x < a + n -> peek m' x = peek m x) -> peekn m' a n = peekn m a n.
Proof.
  intros H. unfold peekn. apply list_fmap_ext. intros i x Hx. apply H.
  assert (x ∈ seqZ a n) as Hin by (by eapply list_elem_of_lookup_2). apply elem_of_seqZ in Hin. lia.
Qed.

Lemma peekn_of_bytes (m : Mem) a bs :
  bytes_ok bs ->
  (forall i, 0 <= i < Z.of_nat (length bs) -> peek m (a + i) = u8 (bs !!! Z.to_nat i)) ->
  peekn m a (Z.of_nat (length bs)) = bs.
Proof.
  intros Hb H. unfold peekn. apply list_eq_same_length with (n := length bs); [done|by rewrite length_fmap, seqZ_length_nat|].
  intros i x y Hi Hx Hy. rewrite list_lookup_fmap, lookup_seqZ_lt in Hx by lia. cbn in Hx. simplify_eq.
  rewrite H, Nat2Z.id by lia. rewrite (list_lookup_total_correct _ _ _ Hy). apply wrap_id.
  by apply (Forall_lookup_1 _ _ _ _ Hb Hy).
Qed.

Lemma le64_bytes_length v : length (le64_bytes v) = 8%nat.
Proof. done. Qed.

Lemma dp_dma_write_le64 gpa v s :
  fits 64 gpa ->
  let r := dp_dma_write gpa (le64_bytes v) s in
  (forall x, peek (dp_mem r.2) x <> peek (dp_mem s) x -> gpa <= x < gpa + 8 /\ gpa + 8 < 2 ^ 64) /\
  (r.1 = true -> gpa + 8 < 2 ^ 64 /\ peekn (dp_mem r.2) gpa 8 = le64_bytes v).
Proof.
  intros Hg. destruct (dp_dma_write_spec gpa (le64_bytes v) s Hg) as [Hch Hok]; [by rewrite le64_bytes_length|].
  rewrite le64_bytes_length in *. split; [done|]. intros [Hc Hw]%Hok. split; [done|].
  apply (peekn_of_bytes _ gpa (le64_bytes v)); [apply le64_bytes_ok|done].
Qed.

(** What the eight bytes at [gpa] hold as a little-endian word. *)
Definition word_at (m : Mem) (gpa : Z) : Z := ernic_get_le64 (peekn m gpa 8) 0.

Lemma atomic_apply_spec gpa cs swap_add compare s :
  fits 64 gpa ->
  let r := dp_atomic_apply gpa cs swap_add compare s in
  let old := word_at (dp_mem s) gpa in
  (forall x, peek (dp_mem r.2) x <> peek (dp_mem s) x -> gpa <= x < gpa + 8 /\ gpa + 8 < 2 ^ 64) /\
  (forall v, r.1 = Some v -> v = old /\ gpa + 8 < 2 ^ 64 /\
     peekn (dp_mem r.2) gpa 8 = le64_bytes (atomic_new cs old swap_add compare)).
Proof.
  intros Hg. cbn zeta. unfold dp_atomic_apply, dp_dma_read. run.
  destruct (dma_read (dp_mem s) gpa 8) as [mem|] eqn:Hr; [|done].
  apply dma_read_spec in Hr as [-> Hc]; [|done|lia]. fold (word_at (dp_mem s) gpa). run.
  unfold ernic_put_le64. rewrite bput_whole by (by rewrite length_peekn).
  set (nw := atomic_new _ _ _ _). destruct (dp_dma_write_le64 gpa nw s Hg) as [Hch Hok].
  destruct (dp_dma_write gpa _ s) as [ok s1]. cbn [fst snd] in *. split; [done|].
  intros v Hv. destruct ok; [|done]. simplify_eq. split; [done|]. by apply Hok.
Qed.

(** The eight bytes of an operand are reached one by one through its key. *)
Lemma sge_gpa_word key va s gpa run :
  mrs_wf s -> (sge_gpa key va s).1 = (gpa, run) -> fits 64 va -> 8 <= run ->
  fits 64 gpa /\ (gpa + 8 < 2 ^ 64 -> forall i, 0 <= i < 8 -> key_byte s key (va + i) = Some (gpa + i)).
Proof.
  intros Hwf Hr Hva H8. pose proof (sge_gpa_spec key va s Hwf Hva) as Hs. rewrite Hr in Hs.
  destruct Hs as (? & _ & _ & Hb). cbn in *. split; [done|]. intros Hc i Hi. apply Hb; lia.
Qed.

(** An atomic that completes leaves its new value at the remote word and the
    value it replaced at the local one. *)
Record atomic_done (s s' : ionic_datapath) (wqe : list Z) (cs : bool) (r l : Z) : Prop := {
  ad_remote i : 0 <= i < 8 ->
    key_byte s (ernic_get_be32 wqe WQE_RDMA_RKEY_OFF) (ernic_get_be64 wqe WQE_RDMA_VA_OFF + i) = Some (r + i);
  ad_local i : 0 <= i < 8 ->
    key_byte s (ernic_get_be32 wqe (WQE_ATOMIC_SGE_OFF + SGE_LKEY_OFF))
      (ernic_get_be64 wqe WQE_ATOMIC_SGE_OFF + i) = Some (l + i);
  ad_old : peekn (dp_mem s') l 8 = le64_bytes (word_at (dp_mem s) r);
  ad_new : r + 8 <= l \/ l + 8 <= r ->
    peekn (dp_mem s') r 8 = le64_bytes (atomic_new cs (word_at (dp_mem s) r)
      (ernic_get_be64 wqe WQE_ATOMIC_SWAP_ADD_OFF) (ernic_get_be64 wqe WQE_ATOMIC_COMPARE_OFF));
  ad_confined x : peek (dp_mem s') x <> peek (dp_mem s) x -> r <= x < r + 8 \/ l <= x < l + 8;
}.

Lemma do_atomic_spec wqe cs s :
  mrs_wf s -> bytes_ok wqe ->
  let res := do_atomic wqe cs s in
  if res.1 then exists r l, atomic_done s res.2 wqe cs r l else dp_fault res.2 <> IONIC_STS_OK.
Proof.
  intros Hwf Hw. cbn zeta. unfold do_atomic.
  set (rva := ernic_get_be64 wqe WQE_RDMA_VA_OFF). set (rkey := ernic_get_be32 wqe WQE_RDMA_RKEY_OFF).
  set (lva := ernic_get_be64 wqe WQE_ATOMIC_SGE_OFF). set (lkey := ernic_get_be32 wqe _).
  set (sa := ernic_get_be64 wqe WQE_ATOMIC_SWAP_ADD_OFF). set (cmp := ernic_get_be64 wqe WQE_ATOMIC_COMPARE_OFF).
  assert (fits 64 rva /\ fits 64 lva) as [Hrva Hlva] by (split; by apply get_be64_fits).
  run. destruct (negb _); [run; by apply fault_set_sets|]. rewrite run_bind.
  frame_fact (sge_gpa rkey rva) s FMr Hm1. frame_fact (sge_gpa rkey rva) s FMem Hp1.
  pose proof (sge_gpa_word rkey rva s) as Hr. destruct (sge_gpa rkey rva s) as [[r rrun] s1]. cbn [fst snd] in *.
  destruct (rrun <? 8) eqn:Hr8; bdestr; [run; by apply fault_set_sets|].
  destruct (Hr r rrun Hwf eq_refl Hrva ltac:(lia)) as [Hrf Hrb]. rewrite run_bind.
  frame_fact (sge_gpa lkey lva) s1 FMr Hm2. frame_fact (sge_gpa lkey lva) s1 FMem Hp2.
  pose proof (sge_gpa_word lkey lva s1) as Hl. destruct (sge_gpa lkey lva s1) as [[l lrun] s2]. cbn [fst snd] in *.
  destruct (lrun <? 8) eqn:Hl8; bdestr; [run; by apply fault_set_sets|].
  destruct (Hl l lrun (mrs_wf_mrs _ _ Hm1 Hwf) eq_refl Hlva ltac:(lia)) as [Hlf Hlb].
  rewrite (key_byte_mrs _ _ Hm1) in Hlb. rewrite run_bind.
  destruct (atomic_apply_spec r cs sa cmp s2 Hrf) as [Hch1 Hap].
  destruct (dp_atomic_apply r cs sa cmp s2) as [o s3]. cbn [fst snd] in *.
  destruct o as [old|]; [|run; by apply fault_set_sets].
  destruct (Hap old eq_refl) as (-> & Hrc & Hnew). rewrite run_bind, Hp2, Hp1 in *.
  destruct (dp_dma_write_le64 l (word_at (dp_mem s) r) s3 Hlf) as [Hch2 Hok].
  destruct (dp_dma_write l _ s3) as [ok s4]. cbn [fst snd] in *.
  destruct ok; [|run; by apply fault_set_sets]. destruct (Hok eq_refl) as [Hlc Hold].
  run. exists r, l. split; [by apply Hrb|by apply Hlb|done| |].
  - intros Hdis. fold sa cmp. rewrite <-Hnew. apply peekn_ext. intros x Hx.
    destruct (decide (peek (dp_mem s4) x = peek (dp_mem s3) x)) as [|Hne]; [done|]. apply Hch2 in Hne. lia.
  - intros x Hx. destruct (decide (peek (dp_mem s4) x = peek (dp_mem s3) x)) as [He|He].
    + left. rewrite He in Hx. by apply Hch1.
    + right. by apply Hch2.
Qed.

(** ** Taking and delivering *)

Definition sgl_wf (l : dp_sge_list) : Prop :=
  Forall sge_ok (sl_sges l) /\ sl_total l = Z.min UINT32_MAX (sgl_sum (sl_sges l)) /\
  sl_count l <= ERNIC_MAX_SGE.

Lemma parse_sges_wf wqe wqe_len num_sge :
  bytes_ok wqe -> 0 <= num_sge -> sgl_wf (parse_sges wqe wqe_len num_sge).2.
Proof.
  intros Hb Hn. destruct (parse_sges_cases wqe wqe_len num_sge Hb Hn) as [->|(n & Hl & Hmax & _ & _ & Ht & _)].
  { done. }
  unfold sgl_wf, sl_count. split_and!; [|done|].
  - rewrite Hl. apply Forall_fmap, Forall_forall. intros i _. by apply sge_at_ok.
  - rewrite Hl, length_fmap, length_seq. done.
Qed.

(** A work queue's ring: its memory, its geometry and its consumer index.
    Those of a QP or SRQ that is not registered are bounded all the same. *)
Record ring_wf (b : dp_buf) (stride_log2 depth idx : Z) : Prop := {
  rw_buf : buf_wf b;
  rw_stride : 0 <= stride_log2 <= IONIC_RING_MAX_STRIDE_LOG2;
  rw_depth : fits 32 depth;
  rw_idx : fits 32 idx;
}.
Definition qp_wf (q : ionic_qp_ring) : Prop :=
  ring_wf (q_sq_buf q) (q_sq_stride_log2 q) (q_sq_depth q) (q_sq_cons q) /\
  ring_wf (q_rq_buf q) (q_rq_stride_log2 q) (q_rq_depth q) (q_rq_cons q) /\ fits 32 (q_sq_prod q).
Definition srq_wf (r : ionic_srq_ring) : Prop :=
  ring_wf (sr_buf r) (sr_stride_log2 r) (sr_depth r) (sr_cons r).
Definition rings_wf (s : ionic_datapath) : Prop :=
  (forall i, qp_wf (qp_at i s)) /\ (forall i, srq_wf (srq_at i s)).

Lemma mod_le_u32 a b : 0 <= a < 2 ^ 32 -> 0 <= b -> 0 <= a mod b < 2 ^ 32.
Proof.
  intros Ha Hb. destruct (decide (b = 0)) as [->|]; [by rewrite Z.mod_0_r|].
  pose proof (Z.mod_pos_bound a b). pose proof (Z.mod_le a b). lia.
Qed.

Lemma ring_slot_fits b st idx depth : ring_wf b st depth idx -> fits 64 (idx mod depth * Z.shiftl 1 st).
Proof.
  intros [_ Hst Hd Hi]. unfold IONIC_RING_MAX_STRIDE_LOG2, fits in *.
  rewrite Z.shiftl_mul_pow2, Z.mul_1_l by lia. pose proof (mod_le_u32 idx depth Hi ltac:(lia)).
  assert (1 <= 2 ^ st <= 2 ^ 16) as ? by (split; [lia|apply Z.pow_le_mono_r; lia]). nia.
Qed.

Lemma ring_take_spec cons prod depth st b s :
  ring_wf b st depth cons ->
  let r := dp_ring_take cons prod depth st b s in
  r.2 = s /\ forall id l, r.1 = Some (id, l) -> cons <> prod /\ sgl_wf l.
Proof.
  intros Hr. cbn zeta. unfold dp_ring_take. destruct (cons =? prod) eqn:Hcp; bdestr; [done|].
  pose proof (ring_slot_fits _ _ _ depth Hr) as Hoff. destruct Hr as [Hb Hst _ _].
  pose proof (buf_gpa_range _ Hb _ Hoff) as [Hg _]. destruct (buf_gpa b _) as [gpa run].
  set (rs := if _ <? _ then _ else _). assert (0 <= rs <= 512) as Hrs.
  { subst rs. change (Z.shiftl 1 IONIC_WQE_MAX_STRIDE_LOG2) with 512. case_match; bdestr; [|lia].
    split; [|lia]. apply Z.shiftl_nonneg. lia. }
  destruct (_ || _); [done|]. unfold dp_dma_read. run.
  destruct (dma_read (dp_mem s) gpa rs) as [rwqe|] eqn:Hrd; [|done].
  apply dma_read_spec in Hrd as [-> _]; [|done|lia]. split; [done|]. intros id l [= <- <-].
  split; [done|]. apply parse_sges_wf; [apply peekn_ok|]. by apply bat_ok, peekn_ok.
Qed.

(** The receive queue a SEND to [q] is delivered through. *)
Lemma take_recv_spec q s :
  rings_wf s ->
  let r := take_recv q s in
  (r.1 = None -> r.2 = s) /\ dp_mrs r.2 = dp_mrs s /\ dp_mem r.2 = dp_mem s /\
  forall id l, r.1 = Some (id, l) -> sgl_wf l.
Proof.
  intros Hwf. cbn zeta. frame_fact (take_recv q) s FMr Hm. frame_fact (take_recv q) s FMem Hp.
  rewrite Hm, Hp. clear Hm Hp. enough (let r := take_recv q s in
    (r.1 = None -> r.2 = s) /\ forall id l, r.1 = Some (id, l) -> sgl_wf l) by (cbn zeta in *; naive_solver).
  destruct Hwf as [Hq Hsrq]. destruct (Hq q) as (_ & Hrq & _). pose proof (Hsrq (q_srq_id (qp_at q s))) as Hsr.
  cbn zeta. unfold take_recv. run. destruct (q_has_srq (qp_at q s)).
  - run. destruct (_ || _); [done|].
    destruct (ring_take_spec _ (sr_prod (srq_at (q_srq_id (qp_at q s)) s)) _ _ _ s Hsr) as [Hs Hl].
    rewrite run_bind. destruct (dp_ring_take _ _ _ _ _ s) as [[[id l]|] s1]; cbn [fst snd] in *; run; [|done].
    split; [done|]. intros ? ? [= <- <-]. by eapply Hl.
  - destruct (ring_take_spec _ (q_rq_prod (qp_at q s)) _ _ _ s Hrq) as [Hs Hl].
    rewrite run_bind. destruct (dp_ring_take _ _ _ _ _ s) as [[[id l]|] s1]; cbn [fst snd] in *; run; [|done].
    split; [done|]. intros ? ? [= <- <-]. by eapply Hl.
Qed.

(** What a delivery moved: the source's bytes to the receive's addresses in
    order, the whole of what both can hold unless an address is missing or a
    transfer failed; a WRITE with immediate moves nothing. *)
Definition delivered (s : ionic_datapath) (src dst : dp_sge_list) (src_host : option (list Z)) (recv_op n : Z)
    (s' : ionic_datapath) : Prop :=
  let len := Z.min (sl_total src) (sl_total dst) in
  if recv_op =? CQE_RECV_OP_RDMA_IMM then n = sl_total src /\ dp_mem s' = dp_mem s
  else match src_host with
  | Some bytes =>
      wrote (sgl_addr s (sl_sges dst)) bytes len 0 n (dp_mem s) (dp_mem s') /\
      (n < len -> sgl_addr s (sl_sges dst) n = None \/ dp_fault s' <> IONIC_STS_OK)
  | None =>
      moved (sgl_addr s (sl_sges dst)) (sgl_addr s (sl_sges src)) len 0 n (dp_mem s) (dp_mem s') /\
      (n < len -> sgl_addr s (sl_sges src) n = None \/ sgl_addr s (sl_sges dst) n = None \/
         dp_fault s' <> IONIC_STS_OK)
  end.

Definition deliver_copy (src dst : dp_sge_list) (src_host : option (list Z)) (recv_op : Z) : DP Z :=
  if recv_op =? CQE_RECV_OP_RDMA_IMM then mret (sl_total src)
  else match src_host with
  | Some bytes => dp_scatter dst bytes (if sl_total src <? sl_total dst then sl_total src else sl_total dst)
  | None => lockstep_copy (length (sl_sges src) + length (sl_sges dst)) (sl_sges src) (sl_sges dst) 0 0 0
  end.

Lemma deliver_copy_spec src dst src_host recv_op s :
  mrs_wf s -> sgl_wf dst -> 0 <= sl_total src <= UINT32_MAX ->
  match src_host with
  | Some bytes => sl_total src <= Z.of_nat (length bytes)
  | None => Forall sge_ok (sl_sges src) /\ sl_total src = sgl_sum (sl_sges src)
  end ->
  let r := deliver_copy src dst src_host recv_op s in delivered s src dst src_host recv_op r.1 r.2.
Proof.
  intros Hwf (Hdo & Hdt & _) Hst Hsrc. cbn zeta. unfold deliver_copy, delivered, UINT32_MAX in *.
  pose proof (sgl_sum_nonneg _ Hdo). destruct (recv_op =? _); [done|]. destruct src_host as [bytes|].
  - replace (if _ <? _ then _ else _) with (Z.min (sl_total src) (sl_total dst)) by (case_match; bdestr; lia).
    apply scatter_spec; (done || lia).
  - destruct Hsrc as [Hso Hs].
    destruct (lockstep_spec (length (sl_sges src) + length (sl_sges dst)) (sl_sges src) (sl_sges dst) 0 0 0 s)
      as [Hm Hsh]; try done; try lia.
    { destruct (sl_sges src) as [|g ?]; [done|]. apply list.Forall_cons in Hso as [(_ & Hg & _) _].
      unfold fits in Hg. cbn. lia. }
    { destruct (sl_sges dst) as [|g ?]; [done|]. apply list.Forall_cons in Hdo as [(_ & Hg & _) _].
      unfold fits in Hg. cbn. lia. }
    replace (0 + Z.min _ _) with (Z.min (sl_total src) (sl_total dst)) in * by lia. split.
    + eapply moved_ext; [| |exact Hm]; intros i _; cbn beta; f_equal; lia.
    + rewrite !Z.sub_0_r, !Z.add_0_l in Hsh. exact Hsh.
Qed.

Lemma deliver_copy_frame src dst sh op : keeps (frame [FMem; FFault]) (deliver_copy src dst sh op).
Proof. unfold deliver_copy. frame_auto. Qed.

(** A delivery is nothing at all, or one receive taken, its data moved and one
    completion posted, whose length or error says what was moved. *)
Lemma deliver_recv_spec q src_qp src src_host recv_op imm s :
  mrs_wf s -> rings_wf s -> 0 <= sl_total src <= UINT32_MAX ->
  match src_host with
  | Some bytes => sl_total src <= Z.of_nat (length bytes)
  | None => Forall sge_ok (sl_sges src) /\ sl_total src = sgl_sum (sl_sges src)
  end ->
  let r := ionic_dp_deliver_recv q src_qp src src_host recv_op imm s in
  match r.1 with
  | None => r.2 = s
  | Some n => exists id dst s2,
      (take_recv q s).1 = Some (id, dst) /\ sgl_wf dst /\
      delivered s src dst src_host recv_op n s2 /\
      frame [FMem; FFault; FStats] (take_recv q s).2 s2 /\
      let dq := qp_at q s2 in
      r.2 = (cq_post_recv (q_rq_cq_id dq) q id src_qp recv_op imm
               (if n <? sl_total src then dp_fault_status IONIC_STS_LOCAL_LEN_ERR s2 else n)
               (n <? sl_total src) (if qp_is_datagram dq then Some (dp_src_mac src_qp) else None)
               (qp_is_datagram dq && dp_grh_is_ipv4 src_host (sl_total src)) s2).2
  end.
Proof.
  intros Hwf Hrw Hst Hsrc. cbn zeta. unfold ionic_dp_deliver_recv. rewrite run_bind.
  destruct (take_recv_spec q s Hrw) as (Hn & Hm & Hp & Hl).
  destruct (take_recv q s) as [[[id dst]|] s1]; cbn [fst snd] in *; [|run; by apply Hn].
  specialize (Hl id dst eq_refl). rewrite run_bind. set (s1' := (dp_fault_clear s1).2).
  fold (deliver_copy src dst src_host recv_op). rewrite run_bind.
  pose proof (deliver_copy_spec src dst src_host recv_op s1' (mrs_wf_mrs _ s1' Hm Hwf) Hl Hst Hsrc) as Hd.
  pose proof (deliver_copy_frame src dst src_host recv_op s1') as Hfr.
  destruct (deliver_copy src dst src_host recv_op s1') as [n s2]. cbn [fst snd] in *. rewrite run_bind.
  set (rb := ionic_dp_rdma_bytes q n ERNIC_STAT_RECV DP_RDMA_RX).
  frame_fact rb s2 FMem Hp3. frame_fact rb s2 FFault Hf3.
  assert (keeps (frame [FStats]) rb) as Hrb by apply rdma_bytes_frame. specialize (Hrb s2).
  destruct (rb s2) as [u s3]. run. exists id, dst, s3. split_and!; [done|done| | |by generalize (cq_post_recv (q_rq_cq_id (qp_at q s3)) q id src_qp recv_op imm)].
  - revert Hd. unfold delivered. rewrite !(sgl_addr_mrs s s1') by done.
    cbn [fst snd] in *. rewrite Hp3, Hf3. change (dp_mem s1') with (dp_mem s1). by rewrite Hp.
  - assert (keeps (frame [FMem; FFault; FStats]) dp_fault_clear) as Hfc.
    { eapply frame_weaken; [apply fault_clear_frame|done]. }
    etrans; [apply Hfc|]. etrans; intros f Hf; [apply Hfr|apply Hrb]; set_solver.
Qed.
End recv_spec.
