(* ===== verification/DpPending.v ===== *)
(** * Stalled send queues, pending requests and flushes

    The mesh as the data path sees it (the ernic_mesh wrappers of
    rocm_ernic_compat.c), sq_stall_clear() and sq_busy_set(), the pending
    table (pending_alloc() to pending_complete()), and
    ionic_datapath_flush_qp(). *)
From S2P Require Export DpRecv DpWire.

Section pending.
Context {E : Env}.

(** ** The mesh

    With a NULL handle or a backend that has no mesh each wrapper answers for
    itself. *)
Definition pvrdma_mesh (s : ionic_datapath) : option MeshSt := mjoin (dp_pvrdma_handle s).

Definition on_mesh {A} (no_mesh : A) (op : MeshSt -> A * MeshSt) : DP A := fun s =>
  match pvrdma_mesh s with
  | None => (no_mesh, s)
  | Some ms => let '(a, ms') := op ms in (a, s <| dp_pvrdma_handle := Some (Some ms') |>)
  end.

Definition ernic_mesh_local_node (s : ionic_datapath) : Z :=
  match pvrdma_mesh s with None => UINT32_MAX | Some ms => mesh_local_node ms end.
Definition ernic_mesh_node_from_gid (dgid : option (list Z)) : DP Z :=
  on_mesh UINT32_MAX (fun ms => mesh_node_from_gid ms dgid).
Definition ernic_mesh_sendv (dst_node : Z) (hdr body : list Z) (tag : Z) (reply : bool) : DP Z :=
  on_mesh (- EINVAL) (fun ms => mesh_sendv ms dst_node hdr body tag reply).
Definition ernic_mesh_has_room (dst_node len : Z) : DP bool :=
  on_mesh true (fun ms => mesh_has_room ms dst_node len).
Definition ernic_mesh_cancel (tag mask : Z) : DP unit :=
  on_mesh tt (fun ms => (tt, mesh_cancel ms tag mask)).

Definition ionic_dp_local_node (s : ionic_datapath) : Z := ernic_mesh_local_node s.
Definition ionic_dp_node_from_gid (dgid : option (list Z)) : DP Z := ernic_mesh_node_from_gid dgid.

Definition dp_mesh_tag (mesh_id req_id : Z) : Z := Z.lor (Z.shiftl mesh_id 32) req_id.
Definition dp_mesh_cancel_qp (q : ionic_qp_ring) : DP unit :=
  ernic_mesh_cancel (dp_mesh_tag (q_mesh_id q) 0) 0xffffffff00000000.
Definition dp_mesh_cancel_request (p : dp_pending) : DP unit := ernic_mesh_cancel (p_tag p) UINT64_MAX.

Definition dp_mesh_tx (dst_node tag : Z) (hdr : ionic_wire_hdr) (payload : list Z) (reply : bool) : DP Z :=
  ernic_mesh_sendv dst_node (ionic_dp_wire_hdr_put hdr) payload tag reply.

(** ** Stalled send queues *)

Definition stalled (q : ionic_qp_ring) : bool := q_sq_rnr q || q_sq_busy q.

Definition sq_stall_clear (qp_id : Z) : DP unit :=
  upd_qp qp_id (fun q => q <| q_sq_fault := false |>) ;;
  q ← gets (qp_at qp_id);
  if negb (q_sq_rnr q) && negb (q_sq_busy q) then mret tt
  else
    upd_qp qp_id (fun q => q <| q_sq_rnr := false |> <| q_sq_busy := false |>) ;;
    modify (fun s => s <| dp_sq_stalled ::= fun n => u32 (n - 1) |>).

Definition sq_busy_set (qp_id : Z) : DP unit :=
  q ← gets (qp_at qp_id);
  (if negb (q_sq_rnr q) && negb (q_sq_busy q)
   then modify (fun s => s <| dp_sq_stalled ::= fun n => u32 (n + 1) |>) else mret tt) ;;
  upd_qp qp_id (fun q => q <| q_sq_busy := true |>).

(** ** The pending table

    A [struct dp_pending *] is the index of its slot. *)
Definition pending_at (i : nat) (s : ionic_datapath) : dp_pending := dp_pending_tab s !!! i.
Definition upd_pending (i : nat) (f : dp_pending -> dp_pending) : DP unit :=
  modify (fun s => s <| dp_pending_tab ::= alter f i |>).

Definition pending_alloc : DP (option nat) :=
  tab ← gets dp_pending_tab;
  match list_find (fun p => p_valid p = false) tab with
  | None => mret None
  | Some (i, _) =>
      modify (fun s => s <| dp_next_req_id ::= fun n => u32 (n + 1) |>) ;;
      req_id ← gets dp_next_req_id;
      now ← ionic_dp_now_ms;
      upd_pending i (fun _ => (inhabitant : dp_pending) <| p_valid := true |> <| p_req_id := req_id |>
                                <| p_deadline_ms := u64 (now + PENDING_MS) |>) ;;
      mret (Some i)
  end.

Definition pending_find (req_id : Z) (s : ionic_datapath) : option nat :=
  fst <$> list_find (fun p => p_valid p = true /\ p_req_id p = req_id) (dp_pending_tab s).

Definition pending_reply_bytes (node : Z) (s : ionic_datapath) : Z :=
  sumZ (p_reply_bytes <$> filter (fun p => p_valid p = true /\ p_dest_node p = node) (dp_pending_tab s)).

Definition pending_of (qp_id : Z) (p : dp_pending) : bool := p_valid p && (p_qp_id p =? qp_id).

Definition pending_cancel_qp (qp_id : Z) : DP Z :=
  n ← gets (fun s => Z.of_nat (length (filter (fun p => pending_of qp_id p = true) (dp_pending_tab s))));
  modify (fun s => s <| dp_pending_tab ::=
    fmap (fun p => if pending_of qp_id p then p <| p_valid := false |> else p) |>) ;;
  mret n.

Definition pending_completes_qp (qp_id : Z) (s : ionic_datapath) : bool :=
  existsb (fun p => pending_of qp_id p && (p_use_msn p || p_signalled p)) (dp_pending_tab s).

(** ** Flushing a queue pair *)

Definition ionic_datapath_flush_qp (qp_id : Z) : DP unit :=
  ok ← gets (fun s => (qp_id <? dp_qp_count s) && q_valid (qp_at qp_id s));
  if negb (ok : bool) then mret tt
  else
    pending_cancel_qp qp_id ;;
    q ← gets (qp_at qp_id);
    dp_mesh_cancel_qp q ;;
    sq_stall_clear qp_id ;;
    upd_qp qp_id (fun q => q <| q_sq_cons := q_sq_prod q |>) ;;
    q ← gets (qp_at qp_id);
    cq_post_flush (q_sq_cq_id q) qp_id CQE_TYPE_SEND_NPG ;;
    if q_has_srq q then mret tt else cq_post_flush (q_rq_cq_id q) qp_id CQE_TYPE_RECV.

Definition sq_fault_finish (qp_id : Z) : DP unit :=
  go ← gets (fun s => q_sq_fault (qp_at qp_id s) && negb (pending_completes_qp qp_id s));
  if negb (go : bool) then mret tt
  else
    q ← gets (qp_at qp_id);
    cq_post_send_npg (q_sq_cq_id q) qp_id (q_sq_cons q mod q_sq_depth q) IONIC_STS_LOCAL_QP_OPER_ERR ;;
    ionic_datapath_flush_qp qp_id.

Definition pending_complete (i : nat) (status : Z) : DP unit :=
  p ← gets (pending_at i);
  live ← gets (fun s => (p_qp_id p <? dp_qp_count s) && q_valid (qp_at (p_qp_id p) s));
  q ← gets (qp_at (p_qp_id p));
  (if live : bool then
     if p_use_msn p then cq_post_send_msn (q_sq_cq_id q) (p_qp_id p) (p_msn p) status
     else if p_signalled p then cq_post_send_npg (q_sq_cq_id q) (p_qp_id p) (p_wqe_id p) status
     else mret tt
   else mret tt) ;;
  upd_pending i (fun p => p <| p_valid := false |>) ;;
  if (live : bool) then sq_fault_finish (p_qp_id p) else mret tt.

Definition dp_is_remote (q : ionic_qp_ring) (s : ionic_datapath) : bool :=
  negb (dp_local_node s =? UINT32_MAX) && q_dest_valid q && negb (q_dest_node_id q =? UINT32_MAX) &&
  negb (q_dest_node_id q =? dp_local_node s).
End pending.

(** ** Frames *)
Section pending_frames.
Context {E : Env}.

Lemma on_mesh_frame {A} (d : A) op : keeps (frame [FMesh]) (on_mesh d op).
Proof.
  intros s f Hf. unfold on_mesh. destruct (pvrdma_mesh s); [|by destruct f].
  destruct (op _). revert s f Hf. frame_prim.
Qed.
Lemma node_from_gid_frame g : keeps (frame [FMesh]) (ionic_dp_node_from_gid g).
Proof. apply on_mesh_frame. Qed.
Lemma has_room_frame d n : keeps (frame [FMesh]) (ernic_mesh_has_room d n).
Proof. apply on_mesh_frame. Qed.
Lemma mesh_cancel_qp_frame q : keeps (frame [FMesh]) (dp_mesh_cancel_qp q).
Proof. apply on_mesh_frame. Qed.
Lemma mesh_cancel_request_frame p : keeps (frame [FMesh]) (dp_mesh_cancel_request p).
Proof. apply on_mesh_frame. Qed.
Lemma mesh_tx_frame d t h p r : keeps (frame [FMesh]) (dp_mesh_tx d t h p r).
Proof. apply on_mesh_frame. Qed.

Lemma set_stalled_frame f : keeps (frame [FStall]) (modify (fun s => s <| dp_sq_stalled ::= f |>)).
Proof. frame_prim. Qed.
Hint Resolve set_stalled_frame : frame.
Lemma sq_stall_clear_frame q : keeps (frame [FQp; FStall]) (sq_stall_clear q).
Proof. unfold sq_stall_clear. frame_auto. Qed.
Lemma sq_busy_set_frame q : keeps (frame [FQp; FStall]) (sq_busy_set q).
Proof. unfold sq_busy_set. frame_auto. Qed.

Lemma upd_pending_frame i f : keeps (frame [FPend]) (upd_pending i f).
Proof. frame_prim. Qed.
Lemma next_req_frame f : keeps (frame [FPend]) (modify (fun s => s <| dp_next_req_id ::= f |>)).
Proof. frame_prim. Qed.
Lemma upd_tab_frame f : keeps (frame [FPend]) (modify (fun s => s <| dp_pending_tab ::= f |>)).
Proof. frame_prim. Qed.
Hint Resolve upd_pending_frame next_req_frame upd_tab_frame : frame.
Lemma pending_alloc_frame : keeps (frame [FPend; FCalls]) pending_alloc.
Proof. unfold pending_alloc. frame_auto. Qed.
Lemma pending_cancel_qp_frame q : keeps (frame [FPend]) (pending_cancel_qp q).
Proof. unfold pending_cancel_qp. frame_auto. Qed.
Hint Resolve pending_cancel_qp_frame mesh_cancel_qp_frame sq_stall_clear_frame : frame.

Definition flush_flds : list fld := FPend :: FMesh :: FStall :: cq_flds.
Lemma flush_qp_frame q : keeps (frame flush_flds) (ionic_datapath_flush_qp q).
Proof. unfold ionic_datapath_flush_qp. frame_auto. Qed.
Hint Resolve flush_qp_frame : frame.
Lemma sq_fault_finish_frame q : keeps (frame flush_flds) (sq_fault_finish q).
Proof. unfold sq_fault_finish. frame_auto. Qed.
Hint Resolve sq_fault_finish_frame : frame.
Lemma pending_complete_frame i st : keeps (frame flush_flds) (pending_complete i st).
Proof. unfold pending_complete. frame_auto. Qed.
End pending_frames.
#[export] Hint Resolve node_from_gid_frame has_room_frame mesh_cancel_qp_frame mesh_cancel_request_frame
  mesh_tx_frame set_stalled_frame sq_stall_clear_frame sq_busy_set_frame upd_pending_frame
  pending_alloc_frame pending_cancel_qp_frame flush_qp_frame sq_fault_finish_frame
  pending_complete_frame : frame.
