(* ===== verification/DpInv.v ===== *)
(** * The data path's invariants

    What every operation of the data path keeps: [rings_wf] (the memory,
    geometry and indices of the work queues), [mrs_wf] (the MR table),
    [stall_inv] (sq_stalled counts the stalled send queues) and [pend_inv]
    (the pending table and its reply budget).  Each depends on a few parts of
    the state; an operation whose frame is disjoint from them keeps it, and
    [inv_auto] does the rest by walking the operation's body. *)
From S2P Require Export DpPending.

Create HintDb inv discriminated.
#[export] Hint Constants Opaque : inv.

Section depends.
Context {E : Env}.

Definition depends (G : list fld) (I : ionic_datapath -> Prop) : Prop :=
  forall s s', (forall f, f ∈ G -> fld_same f s s') -> I s -> I s'.

Definition flds_disj (F G : list fld) : bool := forallb (fun f => negb (bool_decide (f ∈ F))) G.

Lemma frame_preserves {A} F G I (m : DP A) :
  depends G I -> keeps (frame F) m -> flds_disj F G = true -> keeps (preserves I) m.
Proof.
  intros HG Hm Hd s HI. apply (HG s); [|done]. intros f Hf. apply Hm.
  apply (forallb_forall _ G) with (x := f) in Hd; [by bdestr|by apply list_elem_of_In].
Qed.

Lemma preserves_and {A} I J (m : DP A) :
  keeps (preserves I) m -> keeps (preserves J) m -> keeps (preserves (fun s => I s /\ J s)) m.
Proof. intros HI HJ s [? ?]. split; [by apply HI|by apply HJ]. Qed.

Lemma dep_rings : depends [FQp; FSrq] rings_wf.
Proof.
  intros s s' H [Hq Hs]. pose proof (H FQp ltac:(set_solver)) as H1. pose proof (H FSrq ltac:(set_solver)) as H2.
  cbn in *. unfold rings_wf, qp_at, srq_at in *. by rewrite H1, H2.
Qed.
Lemma dep_mrs : depends [FMr] mrs_wf.
Proof. intros s s' H. apply mrs_wf_mrs. apply (H FMr). set_solver. Qed.
End depends.
#[export] Hint Resolve dep_rings dep_mrs : inv.

Ltac inv_frame :=
  eapply frame_preserves; [solve [auto 1 with inv nocore] | solve [auto 2 with frame nocore] | reflexivity].
Ltac inv_step := first [ solve [auto 2 with inv nocore] | inv_frame | keeps_step ].
Ltac inv_auto := repeat inv_step.

(** ** Updates of a table's entry *)
Section tables.
Context {E : Env}.

Lemma qp_at_upd i f s j :
  qp_at j (upd_qp i f s).2 = if decide (j = i) then f (qp_at i s) else qp_at j s.
Proof.
  unfold upd_qp, qp_at. cbn. case_decide; subst;
    [by rewrite lookup_total_insert_eq|by rewrite lookup_total_insert_ne].
Qed.
Lemma srq_at_upd i f s j :
  srq_at j (upd_srq i f s).2 = if decide (j = i) then f (srq_at i s) else srq_at j s.
Proof.
  unfold upd_srq, srq_at. cbn. case_decide; subst;
    [by rewrite lookup_total_insert_eq|by rewrite lookup_total_insert_ne].
Qed.

(** ** What receives and completions change of a QP or an SRQ: where its
    receives are taken from, and its counters. *)
Definition qp_core (q : ionic_qp_ring) : ionic_qp_ring := q <| q_rq_cons := 0 |> <| q_rdma := no_counts |>.
Definition srq_core (r : ionic_srq_ring) : ionic_srq_ring := r <| sr_cons := 0 |>.

Record quiet (s s' : ionic_datapath) : Prop := {
  qz_qp i : qp_core (qp_at i s') = qp_core (qp_at i s);
  qz_srq i : srq_core (srq_at i s') = srq_core (srq_at i s);
  qz_rq_cons i : fits 32 (q_rq_cons (qp_at i s)) -> fits 32 (q_rq_cons (qp_at i s'));
  qz_sr_cons i : fits 32 (sr_cons (srq_at i s)) -> fits 32 (sr_cons (srq_at i s'));
}.
#[global] Instance quiet_preorder : PreOrder quiet.
Proof.
  split; [by split|]. intros a b c [A1 A2 A3 A4] [B1 B2 B3 B4].
  split; intros i; [congruence|congruence|eauto|eauto].
Qed.

Lemma quiet_frame {A} F (m : DP A) :
  keeps (frame F) m -> flds_disj F [FQp; FSrq] = true -> keeps quiet m.
Proof.
  intros Hm Hd s. unfold flds_disj in Hd. cbn -[bool_decide] in Hd. bdestr.
  pose proof (Hm s FQp ltac:(done)) as E1. pose proof (Hm s FSrq ltac:(done)) as E2. cbn in E1, E2.
  by split; intros i; unfold qp_at, srq_at; rewrite ?E1, ?E2.
Qed.

Lemma upd_qp_quiet i f :
  (forall q, qp_core (f q) = qp_core q /\ (fits 32 (q_rq_cons q) -> fits 32 (q_rq_cons (f q)))) ->
  keeps quiet (upd_qp i f).
Proof.
  intros Hf s. split; intros j; try done; rewrite qp_at_upd; case_decide; subst; try done; by apply Hf.
Qed.
Lemma upd_srq_quiet i f :
  (forall r, srq_core (f r) = srq_core r /\ (fits 32 (sr_cons r) -> fits 32 (sr_cons (f r)))) ->
  keeps quiet (upd_srq i f).
Proof.
  intros Hf s. split; intros j; try done; rewrite srq_at_upd; case_decide; subst; try done; by apply Hf.
Qed.

Lemma quiet_rings s s' : quiet s s' -> rings_wf s -> rings_wf s'.
Proof.
  intros [Hq Hs Hc Hr] [Wq Ws]. split; intros i.
  - destruct (Wq i) as (Hsq & [? ? ? Hrc] & Hp). specialize (Hc i Hrc). specialize (Hq i).
    destruct (qp_at i s), (qp_at i s'). unfold qp_core in Hq. cbn in *. injection Hq. intros. subst.
    split; [done|split; [by split|done]].
  - destruct (Ws i) as [? ? ? Hrc]. specialize (Hr i Hrc). specialize (Hs i).
    destruct (srq_at i s), (srq_at i s'). unfold srq_core in Hs. cbn in *. simplify_eq. by split.
Qed.
End tables.

Create HintDb quiet discriminated.
#[export] Hint Constants Opaque : quiet.
Ltac quiet_upd :=
  first [apply upd_qp_quiet | apply upd_srq_quiet];
  intros ?; split; [done | cbn; intros; first [done | by apply wrap_fits]].
Ltac quiet_step :=
  first [ solve [auto 2 with quiet nocore]
        | eapply quiet_frame; [solve [auto 2 with frame nocore] | reflexivity]
        | solve [quiet_upd]
        | keeps_step ].
Ltac quiet_auto := repeat quiet_step.

Section quiet_ops.
Context {E : Env}.

Lemma set_rdma_frame f : keeps (frame [FRdma]) (modify (fun s => s <| dp_rdma ::= f |>)).
Proof. frame_prim. Qed.
Hint Resolve set_rdma_frame : frame.
Lemma dp_count_quiet q c : keeps quiet (dp_count q c).
Proof. unfold dp_count. quiet_auto. Qed.
Hint Resolve dp_count_quiet : quiet.
Lemma dp_count_cqe_err_quiet q t st : keeps quiet (dp_count_cqe_err q t st).
Proof. unfold dp_count_cqe_err. quiet_auto. Qed.
Hint Resolve dp_count_cqe_err_quiet : quiet.
Lemma cq_post_quiet c body sl ty q e : keeps quiet (cq_post c body sl ty q e).
Proof. unfold cq_post. quiet_auto. Qed.
Hint Resolve cq_post_quiet : quiet.
Lemma cq_post_recv_quiet c q w sq op imm bl e mac v4 :
  keeps quiet (cq_post_recv c q w sq op imm bl e mac v4).
Proof. unfold cq_post_recv. quiet_auto. Qed.
Lemma cq_post_flush_quiet c q t : keeps quiet (cq_post_flush c q t).
Proof. unfold cq_post_flush. quiet_auto. Qed.
Lemma cq_post_send_msn_quiet c q m st : keeps quiet (cq_post_send_msn c q m st).
Proof. unfold cq_post_send_msn. quiet_auto. Qed.
Lemma cq_post_send_npg_quiet c q w st : keeps quiet (cq_post_send_npg c q w st).
Proof. unfold cq_post_send_npg. quiet_auto. Qed.
Lemma take_recv_quiet q : keeps quiet (take_recv q).
Proof. unfold take_recv. quiet_auto. Qed.
Hint Resolve cq_post_recv_quiet take_recv_quiet : quiet.
Lemma deliver_recv_quiet dq sq src sh op imm : keeps quiet (ionic_dp_deliver_recv dq sq src sh op imm).
Proof. unfold ionic_dp_deliver_recv. quiet_auto. Qed.
End quiet_ops.
#[export] Hint Resolve set_rdma_frame : frame.
#[export] Hint Resolve dp_count_quiet cq_post_recv_quiet cq_post_flush_quiet cq_post_send_msn_quiet
  cq_post_send_npg_quiet take_recv_quiet deliver_recv_quiet : quiet.

(** ** The work queues *)
Section rings_inv.
Context {E : Env}.

Lemma quiet_keeps_rings {A} (m : DP A) : keeps quiet m -> keeps (preserves rings_wf) m.
Proof. intros Hm s Hs. by apply (quiet_rings s). Qed.

Lemma upd_qp_rings i f : (forall q, qp_wf q -> qp_wf (f q)) -> keeps (preserves rings_wf) (upd_qp i f).
Proof.
  intros Hf s [Hq Hs]. split; [|done]. intros j. rewrite qp_at_upd. case_decide; [by apply Hf|done].
Qed.
Lemma upd_srq_rings i f : (forall r, srq_wf r -> srq_wf (f r)) -> keeps (preserves rings_wf) (upd_srq i f).
Proof.
  intros Hf s [Hq Hs]. split; [done|]. intros j. rewrite srq_at_upd. case_decide; [by apply Hf|done].
Qed.
End rings_inv.
#[export] Hint Extern 1 (keeps (preserves rings_wf) _) =>
  apply quiet_keeps_rings; solve [auto 2 with quiet nocore] : inv.
#[export] Hint Extern 2 (keeps (preserves rings_wf) (upd_qp _ (fun q => _))) =>
  apply upd_qp_rings; intros ? ([] & [] & ?); split; [|split]; [split|split|]; cbn in *;
    solve [done | by apply wrap_fits] : inv.

(** ** Stalled send queues *)

Lemma sumZ_update (f g : Z -> Z) l i :
  NoDup l -> i ∈ l -> (forall j, j <> i -> g j = f j) ->
  sumZ (g <$> l) = sumZ (f <$> l) - f i + g i.
Proof.
  intros Hnd Hin Hfg. assert (forall l, i ∉ l -> sumZ (g <$> l) = sumZ (f <$> l)) as Hout.
  { clear -Hfg. induction l as [|j l IH]; intros Hi; [done|]. unfold sumZ in *. cbn.
    rewrite IH, Hfg; [done|set_solver|set_solver]. }
  induction Hnd as [|j l Hj Hnd IH]; [set_solver|]. cbn.
  change (foldr Z.add 0 ?l) with (sumZ l). destruct (decide (j = i)) as [->|Hne].
  - rewrite Hout by done. lia.
  - rewrite IH, Hfg by set_solver. lia.
Qed.

Lemma sumZ_bound (f : Z -> Z) l :
  (forall j, 0 <= f j <= 1) -> 0 <= sumZ (f <$> l) <= Z.of_nat (length l).
Proof.
  intros Hf. induction l as [|j l IH]; [done|]. specialize (Hf j). unfold sumZ in *. cbn. lia.
Qed.

Section stall.
Context {E : Env}.

Definition stall_count (s : ionic_datapath) : Z :=
  sumZ ((fun i => Z.b2z (stalled (qp_at i s))) <$> seqZ 0 (dp_qp_count s)).

Record stall_inv (s : ionic_datapath) : Prop := {
  si_count : 0 <= dp_qp_count s <= UINT32_MAX;
  si_stalled : dp_sq_stalled s = stall_count s;
  si_range i : stalled (qp_at i s) = true -> 0 <= i < dp_qp_count s;
}.

Lemma stall_count_bound s : 0 <= dp_qp_count s -> 0 <= stall_count s <= dp_qp_count s.
Proof.
  intros Hn. pose proof (sumZ_bound (fun i => Z.b2z (stalled (qp_at i s))) (seqZ 0 (dp_qp_count s))) as H.
  rewrite length_seqZ in H. unfold stall_count. assert (forall j, 0 <= Z.b2z (stalled (qp_at j s)) <= 1) as Hb.
  { intros j. destruct (stalled _); cbn; lia. }
  specialize (H Hb). lia.
Qed.

(** One queue's flags change, and sq_stalled with them. *)
Lemma stall_inv_change s s' i :
  stall_inv s -> 0 <= i < dp_qp_count s -> dp_qp_count s' = dp_qp_count s ->
  (forall j, j <> i -> stalled (qp_at j s') = stalled (qp_at j s)) ->
  dp_sq_stalled s' = u32 (dp_sq_stalled s - Z.b2z (stalled (qp_at i s)) + Z.b2z (stalled (qp_at i s'))) ->
  stall_inv s'.
Proof.
  intros [Hc Hs Hr] Hi Hc' Hj Hs'.
  assert (stall_count s' = stall_count s - Z.b2z (stalled (qp_at i s)) + Z.b2z (stalled (qp_at i s'))) as Hcnt.
  { unfold stall_count. rewrite Hc'. apply (sumZ_update (fun j => Z.b2z (stalled (qp_at j s))) (fun j => Z.b2z (stalled (qp_at j s'))));
      [apply NoDup_seqZ|apply elem_of_seqZ; lia|].
    intros j Hne. by rewrite Hj. }
  pose proof (stall_count_bound s' ltac:(lia)) as Hb. unfold UINT32_MAX in *. split.
  - by rewrite Hc'.
  - rewrite Hs', Hs, <-Hcnt. apply wrap_id. unfold fits. lia.
  - intros j Hst. rewrite Hc'. destruct (decide (j = i)) as [->|Hne]; [done|]. apply Hr. by rewrite <-Hj.
Qed.

Lemma stall_inv_same s s' :
  dp_qp_count s' = dp_qp_count s -> dp_sq_stalled s' = dp_sq_stalled s ->
  (forall i, stalled (qp_at i s') = stalled (qp_at i s)) -> stall_inv s -> stall_inv s'.
Proof.
  intros Hc Hs Hq [? Hst Hr]. split; rewrite ?Hc; [done| |by intros i; rewrite Hq; apply Hr].
  rewrite Hs, Hst. unfold stall_count. rewrite Hc. f_equal. apply list_fmap_ext. intros _ i _. by rewrite Hq.
Qed.

Lemma dep_stall : depends [FQp; FStall; FCfg] stall_inv.
Proof.
  intros s s' H. pose proof (H FQp ltac:(set_solver)) as H1. pose proof (H FStall ltac:(set_solver)) as H2.
  pose proof (H FCfg ltac:(set_solver)) as H3. cbn in H1, H2, H3. apply stall_inv_same; [congruence|done|].
  intros i. unfold qp_at. by rewrite H1.
Qed.

Lemma quiet_keeps_stall {A} F (m : DP A) :
  keeps quiet m -> keeps (frame F) m -> flds_disj F [FStall; FCfg] = true -> keeps (preserves stall_inv) m.
Proof.
  intros Hq Hf Hd s Hs. unfold flds_disj in Hd. cbn -[bool_decide] in Hd. bdestr.
  pose proof (Hf s FStall ltac:(done)) as H2. pose proof (Hf s FCfg ltac:(done)) as H3. cbn in H2, H3.
  apply (stall_inv_same s); [congruence|done| |done]. intros i. pose proof (qz_qp _ _ (Hq s) i) as Hc.
  unfold stalled. change (q_sq_rnr (qp_at i (m s).2)) with (q_sq_rnr (qp_core (qp_at i (m s).2))).
  change (q_sq_busy (qp_at i (m s).2)) with (q_sq_busy (qp_core (qp_at i (m s).2))). by rewrite Hc.
Qed.

Lemma upd_qp_stall i f : (forall q, stalled (f q) = stalled q) -> keeps (preserves stall_inv) (upd_qp i f).
Proof.
  intros Hf s Hs. apply (stall_inv_same s); try done. intros j. rewrite qp_at_upd. case_decide; subst; [apply Hf|done].
Qed.

Lemma sq_stall_clear_spec i s :
  let s' := (sq_stall_clear i s).2 in
  dp_sq_stalled s' = (if stalled (qp_at i s) then u32 (dp_sq_stalled s - 1) else dp_sq_stalled s) /\
  qp_at i s' = (qp_at i s) <| q_sq_fault := false |> <| q_sq_rnr := false |> <| q_sq_busy := false |> /\
  forall j, j <> i -> qp_at j s' = qp_at j s.
Proof.
  cbn zeta. unfold sq_stall_clear. run. set (s1 := (upd_qp i _ s).2).
  assert (forall j, qp_at j s1 = if decide (j = i) then (qp_at i s) <| q_sq_fault := false |> else qp_at j s)
    as H1 by (intros j; apply qp_at_upd).
  assert (dp_sq_stalled s1 = dp_sq_stalled s) as Hst by done. clearbody s1. unfold stalled.
  pose proof (H1 i) as Hi. rewrite decide_True in Hi by done. rewrite Hi.
  change (q_sq_rnr ((qp_at i s) <| q_sq_fault := false |>)) with (q_sq_rnr (qp_at i s)).
  change (q_sq_busy ((qp_at i s) <| q_sq_fault := false |>)) with (q_sq_busy (qp_at i s)).
  rewrite <-negb_orb. destruct (q_sq_rnr (qp_at i s) || q_sq_busy (qp_at i s)) eqn:Hf; cbn [negb]; run.
  - assert (forall j s2, qp_at j (s2 <| dp_sq_stalled ::= fun n => u32 (n - 1) |>) = qp_at j s2) as Hq by done.
    split_and!; [cbn; by rewrite Hst| |]; intros; rewrite Hq, qp_at_upd.
    + by rewrite decide_True, Hi.
    + by rewrite decide_False, H1, decide_False.
  - apply orb_false_iff in Hf as [Hr Hb]. split_and!; [done| |].
    + rewrite Hi. destruct (qp_at i s). cbn in *. by subst.
    + intros j Hj. by rewrite H1, decide_False.
Qed.

Lemma sq_stall_clear_stall i : keeps (preserves stall_inv) (sq_stall_clear i).
Proof.
  intros s Hs. destruct (sq_stall_clear_spec i s) as (Hst & Hi & Hj). frame_fact (sq_stall_clear i) s FCfg Hc.
  assert (dp_qp_count (sq_stall_clear i s).2 = dp_qp_count s) as Hcnt by congruence.
  destruct (stalled (qp_at i s)) eqn:Hsi.
  - apply (stall_inv_change s _ i Hs); [by apply (si_range _ Hs)|done|by intros j Hne; rewrite Hj|].
    rewrite Hst, Hsi, Hi. unfold stalled. cbn. f_equal. lia.
  - apply (stall_inv_same s); try done. intros j. destruct (decide (j = i)) as [->|Hne]; [|by rewrite Hj].
    by rewrite Hi, Hsi.
Qed.

(** Stalling needs the queue to be one of the device's. *)
Definition stall_inv_at (i : Z) (s : ionic_datapath) : Prop := stall_inv s /\ 0 <= i < dp_qp_count s.

Lemma sq_busy_set_stall i : keeps (preserves (stall_inv_at i)) (sq_busy_set i).
Proof.
  intros s [Hs Hi]. frame_fact (sq_busy_set i) s FCfg Hc.
  assert (dp_qp_count (sq_busy_set i s).2 = dp_qp_count s) as Hcnt by congruence.
  split; [|by rewrite Hcnt]. revert Hcnt. unfold sq_busy_set. rewrite !run_bind, run_gets. cbn [fst snd]. intros Hcnt.
  apply (stall_inv_change s _ i Hs Hi Hcnt).
  - intros j Hne. rewrite qp_at_upd, decide_False by done. by destruct (_ && _).
  - rewrite qp_at_upd, decide_True by done. unfold stalled at 2. cbn [q_sq_rnr q_sq_busy upd eta].
    rewrite orb_true_r, <-negb_orb. fold (stalled (qp_at i s)). destruct Hs as [Hn Hst _].
    pose proof (stall_count_bound s ltac:(lia)). unfold UINT32_MAX in *.
    destruct (stalled (qp_at i s)) eqn:Hq; cbn.
    + rewrite wrap_id; unfold fits; lia.
    + f_equal. lia.
Qed.
End stall.
#[export] Hint Resolve dep_stall sq_stall_clear_stall : inv.
#[export] Hint Extern 1 (keeps (preserves stall_inv) _) =>
  eapply quiet_keeps_stall;
    [solve [auto 2 with quiet nocore] | solve [auto 2 with frame nocore] | reflexivity] : inv.
#[export] Hint Extern 2 (keeps (preserves stall_inv) (upd_qp _ _)) =>
  apply upd_qp_stall; intros ?; reflexivity : inv.

Section stall_at.
Context {E : Env}.

Lemma dep_stall_at i : depends [FQp; FStall; FCfg] (stall_inv_at i).
Proof.
  intros s s' H [Hs Hi]. split; [by apply (dep_stall s)|].
  pose proof (H FCfg ltac:(set_solver)) as H3. cbn in H3. by replace (dp_qp_count s') with (dp_qp_count s) by congruence.
Qed.

Lemma stall_at_of {A} F i (m : DP A) :
  keeps (preserves stall_inv) m -> keeps (frame F) m -> flds_disj F [FCfg] = true ->
  keeps (preserves (stall_inv_at i)) m.
Proof.
  intros Hm Hf Hd s [Hs Hi]. split; [by apply Hm|]. unfold flds_disj in Hd. cbn -[bool_decide] in Hd. bdestr.
  pose proof (Hf s FCfg ltac:(done)) as H3. cbn in H3.
  by replace (dp_qp_count (m s).2) with (dp_qp_count s) by congruence.
Qed.
End stall_at.
#[export] Hint Resolve dep_stall_at sq_busy_set_stall : inv.
#[export] Hint Extern 1 (keeps (preserves (stall_inv_at _)) _) =>
  eapply stall_at_of;
    [solve [auto 2 with inv nocore] | solve [auto 2 with frame nocore] | reflexivity] : inv.

(** ** The pending table *)
Section pend.
Context {E : Env}.

(** What a pending request can bring back from a node. *)
Definition owed (node : Z) (p : dp_pending) : Z :=
  if p_valid p && (p_dest_node p =? node) then p_reply_bytes p else 0.

Record pend_wf (p : dp_pending) : Prop := {
  pw_local : Forall sge_ok (sl_sges (p_local p));
  pw_length : fits 32 (p_length p);
  pw_reply : 0 <= p_reply_bytes p <= ERNIC_MESH_MAX_MSG;
}.

Record pend_inv (s : ionic_datapath) : Prop := {
  pi_slots : length (dp_pending_tab s) = MAX_PENDING;
  pi_wf : Forall pend_wf (dp_pending_tab s);
  pi_budget node : pending_reply_bytes node s <= ERNIC_MESH_REPLY_BUDGET;
}.

Lemma reply_bytes_owed node s : pending_reply_bytes node s = sumZ (owed node <$> dp_pending_tab s).
Proof.
  unfold pending_reply_bytes. induction (dp_pending_tab s) as [|p tab IH]; [done|].
  rewrite filter_cons. change (sumZ (owed node <$> p :: tab)) with (owed node p + sumZ (owed node <$> tab)).
  rewrite <-IH. unfold owed. case_decide as Hd.
  - destruct Hd as [-> ->]. by rewrite Z.eqb_refl.
  - destruct (p_valid p); [|done]. cbn. destruct (p_dest_node p =? node) eqn:Hn; [|done].
    bdestr. naive_solver.
Qed.

Lemma sumZ_alter {A} (g : A -> Z) f i l :
  sumZ (g <$> alter f i l) =
  match l !! i with Some x => sumZ (g <$> l) - g x + g (f x) | None => sumZ (g <$> l) end.
Proof.
  revert i. induction l as [|x l IH]; intros [|i]; try done.
  - cbn. unfold sumZ. cbn. lia.
  - change (sumZ (g <$> alter f (S i) (x :: l))) with (g x + sumZ (g <$> alter f i l)). rewrite IH.
    change ((x :: l) !! S i) with (l !! i). change (sumZ (g <$> x :: l)) with (g x + sumZ (g <$> l)).
    case_match; lia.
Qed.

Lemma dep_pend : depends [FPend] pend_inv.
Proof.
  intros s s' H [? ? Hb]. pose proof (H FPend ltac:(set_solver)) as H1. cbn in H1. injection H1 as H1 _.
  split; [by rewrite H1|by rewrite H1|]. intros node. specialize (Hb node). unfold pending_reply_bytes in *.
  by rewrite H1.
Qed.

(** A slot changes and owes no more than it did. *)
Lemma upd_pending_inv i f s :
  pend_inv s -> pend_wf (f (pending_at i s)) ->
  (forall node, owed node (f (pending_at i s)) <= owed node (pending_at i s) \/
     pending_reply_bytes node s - owed node (pending_at i s) + owed node (f (pending_at i s)) <=
       ERNIC_MESH_REPLY_BUDGET) ->
  pend_inv (upd_pending i f s).2.
Proof.
  intros [Hl Hw Hb] Hf Ho. assert (dp_pending_tab (upd_pending i f s).2 = alter f i (dp_pending_tab s)) as Ht by done.
  split; rewrite ?Ht.
  - by rewrite length_alter.
  - apply Forall_alter; [done|]. intros x Hx _. unfold pending_at in Hf.
    by rewrite (list_lookup_total_correct _ _ _ Hx) in Hf.
  - intros node. specialize (Hb node). specialize (Ho node). rewrite reply_bytes_owed in *.
    rewrite Ht, sumZ_alter. destruct (dp_pending_tab s !! i) as [x|] eqn:Hx; [|done].
    unfold pending_at in Ho. rewrite (list_lookup_total_correct _ _ _ Hx) in Ho. lia.
Qed.

Lemma pend_wf_zero : pend_wf inhabitant.
Proof. split; [constructor|unfold fits; cbn; lia|unfold ERNIC_MESH_MAX_MSG; cbn; lia]. Qed.

Lemma pending_at_wf i s : pend_inv s -> pend_wf (pending_at i s).
Proof.
  intros [_ Hw _]. unfold pending_at. destruct (dp_pending_tab s !! i) as [x|] eqn:Hx.
  - rewrite (list_lookup_total_correct _ _ _ Hx). by apply (Forall_lookup_1 _ _ _ _ Hw Hx).
  - rewrite list_lookup_total_alt, Hx. apply pend_wf_zero.
Qed.

Lemma owed_nonneg node p : pend_wf p -> 0 <= owed node p.
Proof. intros [_ _ ?]. unfold owed. case_match; lia. Qed.

(** Most updates of a slot leave what it owes alone, or drop it. *)
Lemma upd_pending_pend i f :
  (forall p, pend_wf p -> pend_wf (f p) /\ forall node, owed node (f p) <= owed node p) ->
  keeps (preserves pend_inv) (upd_pending i f).
Proof.
  intros Hf s Hs. destruct (Hf _ (pending_at_wf i s Hs)) as [? Ho].
  apply upd_pending_inv; [done|done|]. intros node. left. apply Ho.
Qed.

Lemma next_req_pend f : keeps (preserves pend_inv) (modify (fun s => s <| dp_next_req_id ::= f |>)).
Proof. intros s [? ? ?]. by split. Qed.

Lemma pending_alloc_pend : keeps (preserves pend_inv) pending_alloc.
Proof.
  intros s Hs. unfold pending_alloc. run. destruct (list_find _ _) as [[i p]|] eqn:Hf; [|done]. run.
  apply list_find_Some in Hf as (Hi & Hv & _). apply upd_pending_inv; [destruct Hs; by split| |].
  - split; [constructor|unfold fits; cbn; lia|unfold ERNIC_MESH_MAX_MSG; cbn; lia].
  - intros node. left. etrans; [|apply owed_nonneg]; [unfold owed; cbn; by case_match|].
    apply (pending_at_wf i s Hs).
Qed.

Lemma pending_cancel_qp_pend q : keeps (preserves pend_inv) (pending_cancel_qp q).
Proof.
  intros s [Hl Hw Hb].
  assert (dp_pending_tab (pending_cancel_qp q s).2 =
    (fun p => if pending_of q p then p <| p_valid := false |> else p) <$> dp_pending_tab s) as Ht by done.
  split; rewrite ?Ht.
  - by rewrite length_fmap.
  - apply Forall_fmap. eapply Forall_impl; [exact Hw|]. intros p [? ? ?]. cbn. by case_match.
  - intros node. specialize (Hb node). etrans; [|exact Hb]. rewrite !reply_bytes_owed, Ht. clear -Hw.
    induction Hw as [|p tab Hp Hw IH]; [done|]. unfold sumZ in *. cbn [fmap list_fmap foldr].
    pose proof (owed_nonneg node p Hp). case_match; [|lia].
    change (owed node (p <| p_valid := false |>)) with 0. lia.
Qed.
End pend.
#[export] Hint Resolve dep_pend pending_alloc_pend pending_cancel_qp_pend : inv.
#[export] Hint Extern 2 (keeps (preserves pend_inv) (upd_pending _ (fun p => p <| p_valid := false |>))) =>
  apply upd_pending_pend; intros ? []; split; [by split | intros ?; unfold owed; cbn; case_match; lia] : inv.

Section flush_inv.
Context {E : Env}.

Lemma sq_stall_clear_rings q : keeps (preserves rings_wf) (sq_stall_clear q).
Proof. unfold sq_stall_clear. inv_auto. Qed.
Hint Resolve sq_stall_clear_rings : inv.

Lemma flush_qp_rings q : keeps (preserves rings_wf) (ionic_datapath_flush_qp q).
Proof. unfold ionic_datapath_flush_qp. inv_auto. Qed.
Lemma flush_qp_stall q : keeps (preserves stall_inv) (ionic_datapath_flush_qp q).
Proof. unfold ionic_datapath_flush_qp. inv_auto. Qed.
Lemma flush_qp_pend q : keeps (preserves pend_inv) (ionic_datapath_flush_qp q).
Proof. unfold ionic_datapath_flush_qp. inv_auto. Qed.
Hint Resolve flush_qp_rings flush_qp_stall flush_qp_pend : inv.

Lemma sq_fault_finish_rings q : keeps (preserves rings_wf) (sq_fault_finish q).
Proof. unfold sq_fault_finish. inv_auto. Qed.
Lemma sq_fault_finish_stall q : keeps (preserves stall_inv) (sq_fault_finish q).
Proof. unfold sq_fault_finish. inv_auto. Qed.
Lemma sq_fault_finish_pend q : keeps (preserves pend_inv) (sq_fault_finish q).
Proof. unfold sq_fault_finish. inv_auto. Qed.
Hint Resolve sq_fault_finish_rings sq_fault_finish_stall sq_fault_finish_pend : inv.

Lemma pending_complete_rings i st : keeps (preserves rings_wf) (pending_complete i st).
Proof. unfold pending_complete. inv_auto. Qed.
Lemma pending_complete_stall i st : keeps (preserves stall_inv) (pending_complete i st).
Proof. unfold pending_complete. inv_auto. Qed.
Lemma pending_complete_pend i st : keeps (preserves pend_inv) (pending_complete i st).
Proof. unfold pending_complete. inv_auto. Qed.
End flush_inv.
#[export] Hint Resolve sq_stall_clear_rings flush_qp_rings flush_qp_stall flush_qp_pend
  sq_fault_finish_rings sq_fault_finish_stall sq_fault_finish_pend
  pending_complete_rings pending_complete_stall pending_complete_pend : inv.
