(* ===== verification/DpSend.v ===== *)
(** * Running the send queue

    remote_post() to sq_service() of ionic_datapath.c: transmitting a work
    request to another node, the datagram rules, SEND, RDMA and atomics inside
    the device, and the walk of a send queue from its consumer index up to the
    last doorbell. *)
From S2P Require Export DpInv.

(** ** In-process targets

    What ionic_datapath_nvmeof.c, ionic_datapath_s3.c and ionic_datapath_p4.c
    give the data path.  Their own state is part of [Dev].  [p4_policy] is
    [None] in a device with no P4 engine, and its result is [Some status]
    when the pipeline completed the request. *)
Class Targets `{E : Env} := {
  ionic_dp_nvmeof_gsi : Z -> dp_sge_list -> DP bool;
  ionic_dp_nvmeof_rc_send : Z -> dp_sge_list -> DP bool;
  ionic_dp_nvmeof_drop_qp : Z -> DP unit;
  ionic_dp_p4_policy : option (Z -> Z -> list Z -> Z -> dp_sge_list -> Z -> DP (option Z));
  ionic_dp_s3_has_work : ionic_datapath -> bool;
  ionic_dp_s3_poll : DP unit;
}.

(** A target moves data, takes receives and posts completions; it has no hand
    in the pending table, the MR table, the inbound queue or a send queue, and
    makes and destroys no completion queue. *)
Definition target_flds : list fld := FCalls :: FSrq :: FFault :: cq_flds.

Definition cqs_kept `{E : Env} (s s' : ionic_datapath) : Prop := forall i, c_valid (cq_at i s') = c_valid (cq_at i s).
Class TargetsLaws `{T : Targets} := {
  gsi_frame q l : keeps (frame target_flds) (ionic_dp_nvmeof_gsi q l);
  gsi_quiet q l : keeps quiet (ionic_dp_nvmeof_gsi q l);
  rc_send_frame q l : keeps (frame target_flds) (ionic_dp_nvmeof_rc_send q l);
  rc_send_quiet q l : keeps quiet (ionic_dp_nvmeof_rc_send q l);
  drop_qp_frame q : keeps (frame [FDev]) (ionic_dp_nvmeof_drop_qp q);
  p4_frame f q op w n l i : ionic_dp_p4_policy = Some f -> keeps (frame target_flds) (f q op w n l i);
  p4_quiet f q op w n l i : ionic_dp_p4_policy = Some f -> keeps quiet (f q op w n l i);
  s3_frame : keeps (frame target_flds) ionic_dp_s3_poll;
  s3_quiet : keeps quiet ionic_dp_s3_poll;
  gsi_cqs q l : keeps cqs_kept (ionic_dp_nvmeof_gsi q l);
  rc_send_cqs q l : keeps cqs_kept (ionic_dp_nvmeof_rc_send q l);
  p4_cqs f q op w n l i : ionic_dp_p4_policy = Some f -> keeps cqs_kept (f q op w n l i);
  s3_cqs : keeps cqs_kept ionic_dp_s3_poll;
}.

(** A device with no target attached and no P4 engine. *)
Definition no_targets `{E : Env} : Targets := {|
  ionic_dp_nvmeof_gsi _ _ := mret false;
  ionic_dp_nvmeof_rc_send _ _ := mret false;
  ionic_dp_nvmeof_drop_qp _ := mret tt;
  ionic_dp_p4_policy := None;
  ionic_dp_s3_has_work _ := false;
  ionic_dp_s3_poll := mret tt;
|}.
Lemma no_targets_laws `{E : Env} : @TargetsLaws E no_targets.
Proof. split; cbn; intros; first [by apply (keeps_ret _) | done]. Qed.

(** ** Transmitting a request *)

Inductive dp_post := DP_POST_SENT | DP_POST_BUSY | DP_POST_SEND_FAILED | DP_POST_FAILED.
#[export] Instance dp_post_eq_dec : EqDecision dp_post.
Proof. solve_decision. Defined.


Definition wire_op_of (op : Z) : option Z :=
  if op =? IONIC_V1_OP_SEND then Some IONIC_WIRE_SEND
  else if op =? IONIC_V1_OP_SEND_INV then Some IONIC_WIRE_SEND_INV
  else if op =? IONIC_V1_OP_SEND_IMM then Some IONIC_WIRE_SEND_IMM
  else if op =? IONIC_V1_OP_RDMA_WRITE then Some IONIC_WIRE_WRITE
  else if op =? IONIC_V1_OP_RDMA_WRITE_IMM then Some IONIC_WIRE_WRITE_IMM
  else if op =? IONIC_V1_OP_RDMA_READ then Some IONIC_WIRE_READ_REQ
  else if (op =? IONIC_V1_OP_ATOMIC_CS) || (op =? IONIC_V1_OP_ATOMIC_FA) then Some IONIC_WIRE_ATOMIC_REQ
  else None.

Definition is_wire_send (w : Z) : bool :=
  (w =? IONIC_WIRE_SEND) || (w =? IONIC_WIRE_SEND_IMM) || (w =? IONIC_WIRE_SEND_INV).
Definition is_wire_write (w : Z) : bool := (w =? IONIC_WIRE_WRITE) || (w =? IONIC_WIRE_WRITE_IMM).

(** The header of a request, what it sends after it, and, for a READ or an
    atomic, where and how much the answer returns. *)
Definition remote_hdr (op wire_op qp_id dest_qp_id req_id : Z) (src : dp_sge_list) (wqe : list Z) :
    ionic_wire_hdr * Z * option (dp_sge_list * Z) :=
  let hdr := (inhabitant : ionic_wire_hdr) <| h_magic := IONIC_WIRE_MAGIC |> <| h_op := wire_op |>
    <| h_src_qp_id := qp_id |> <| h_dst_qp_id := dest_qp_id |> <| h_req_id := req_id |> in
  let imm_be := ernic_get_le32 wqe WQE_IMM_DATA_KEY_OFF in
  let va := ernic_get_be64 wqe WQE_RDMA_VA_OFF in
  let rkey := ernic_get_be32 wqe WQE_RDMA_RKEY_OFF in
  if is_wire_send wire_op then
    (hdr <| h_imm_be := imm_be |> <| h_length := sl_total src |>, sl_total src, None)
  else if is_wire_write wire_op || (wire_op =? IONIC_WIRE_READ_REQ) then
    let length := ernic_get_be32 wqe WQE_SEND_LEN_OFF in
    let hdr := hdr <| h_remote_va := va |> <| h_rkey := rkey |> <| h_length := length |>
                   <| h_imm_be := imm_be |> in
    if wire_op =? IONIC_WIRE_READ_REQ then (hdr, 0, Some (src, length)) else (hdr, length, None)
  else
    let local := DpSge (ernic_get_be64 wqe WQE_ATOMIC_SGE_OFF) 8
                       (ernic_get_be32 wqe (WQE_ATOMIC_SGE_OFF + SGE_LKEY_OFF)) in
    (hdr <| h_atomic_cs := Z.b2z (op =? IONIC_V1_OP_ATOMIC_CS) |> <| h_rkey := rkey |>
         <| h_remote_va := va |> <| h_swap_add := ernic_get_be64 wqe WQE_ATOMIC_SWAP_ADD_OFF |>
         <| h_compare := ernic_get_be64 wqe WQE_ATOMIC_COMPARE_OFF |> <| h_length := 8 |>,
     0, Some (DpSgeList [local] 8, 8)).

Section send.
Context {E : Env}.

(** The payload in a buffer of its own, or [None]. *)
Definition remote_payload (src : dp_sge_list) (payload_len : Z) (src_host : option (list Z)) :
    DP (option (list Z)) :=
  if payload_len =? 0 then mret (Some [])
  else
    ok ← alloc;
    if negb (ok : bool) then mret None
    else match src_host with
    | Some bytes => mret (Some (take (Z.to_nat payload_len) bytes))
    | None =>
        bs ← ionic_dp_gather src payload_len;
        mret (if Z.of_nat (length bs) =? payload_len then Some bs else None)
    end.

(** The room checks, the gather and the transmission, for the request of
    pending slot [i]; everything up to the label [out]. *)
Definition remote_send (i : nat) (qp_id wire_op : Z) (use_msn : bool) (hdr : ionic_wire_hdr)
    (payload_len dest_node_id : Z) (src : dp_sge_list) (src_host : option (list Z)) : DP dp_post :=
  if IONIC_WIRE_MAX_PAYLOAD <? payload_len then mret DP_POST_FAILED else
  length ← gets (fun s => p_length (pending_at i s));
  let reply_bytes := IONIC_WIRE_HDR_LEN + (if length <=? IONIC_WIRE_MAX_PAYLOAD then length else 0) in
  owed ← gets (pending_reply_bytes dest_node_id);
  if ERNIC_MESH_REPLY_BUDGET - reply_bytes <? owed then mret DP_POST_BUSY else
  room ← ernic_mesh_has_room dest_node_id (IONIC_WIRE_HDR_LEN + payload_len);
  if negb (room : bool) then mret DP_POST_BUSY else
  payload ← remote_payload src payload_len src_host;
  match payload with
  | None => mret DP_POST_FAILED
  | Some payload =>
      q ← gets (qp_at qp_id);
      let tag := dp_mesh_tag (q_mesh_id q) (h_req_id hdr) in
      upd_pending i (fun p => p <| p_tag := tag |>) ;;
      rc ← dp_mesh_tx dest_node_id tag hdr payload false;
      if (rc : Z) =? 0 then
        upd_pending i (fun p => p <| p_dest_node := dest_node_id |> <| p_reply_bytes := reply_bytes |>) ;;
        (if use_msn then
           upd_qp qp_id (fun q => q <| q_msn ::= fun m => u32 (m + 1) |>) ;;
           msn ← gets (fun s => q_msn (qp_at qp_id s));
           upd_pending i (fun p => p <| p_msn := msn |>)
         else mret tt) ;;
        (if is_wire_write wire_op
         then ionic_dp_rdma_bytes qp_id payload_len ERNIC_STAT_RDMA_WRITE DP_RDMA_TX
         else if negb (wire_op =? IONIC_WIRE_READ_REQ) && negb (wire_op =? IONIC_WIRE_ATOMIC_REQ)
         then ionic_dp_rdma_bytes qp_id payload_len ERNIC_STAT_SEND DP_RDMA_TX
         else mret tt) ;;
        mret DP_POST_SENT
      else if rc =? - EAGAIN then mret DP_POST_BUSY
      else mret DP_POST_SEND_FAILED
  end.

Definition remote_post (qp_id op wqe_id : Z) (use_msn signalled : bool) (src : dp_sge_list)
    (wqe : list Z) (dest_qp_id dest_node_id : Z) (src_host : option (list Z)) : DP dp_post :=
  p ← pending_alloc;
  match p with
  | None => mret DP_POST_FAILED
  | Some i =>
      upd_pending i (fun p => p <| p_qp_id := qp_id |> <| p_wqe_id := wqe_id |>
                                <| p_use_msn := use_msn |> <| p_signalled := signalled |>) ;;
      match wire_op_of op with
      | None => upd_pending i (fun p => p <| p_valid := false |>) ;; mret DP_POST_FAILED
      | Some wire_op =>
          req_id ← gets (fun s => p_req_id (pending_at i s));
          let '(hdr, payload_len, back) := remote_hdr op wire_op qp_id dest_qp_id req_id src wqe in
          match back with
          | Some (local, length) => upd_pending i (fun p => p <| p_local := local |> <| p_length := length |>)
          | None => mret tt
          end ;;
          result ← remote_send i qp_id wire_op use_msn hdr payload_len dest_node_id src src_host;
          (if decide (result = DP_POST_SENT) then mret tt
           else upd_pending i (fun p => p <| p_valid := false |>)) ;;
          mret result
      end
  end.
End send.

(** ** Datagrams *)

Definition dp_ud_grh (paylen : Z) (ah : option ionic_ah) : list Z :=
  let sgid := (fun ah => if ah_sgid_valid ah then ah_sgid ah else ah_dgid ah) <$> ah in
  ionic_dp_grh_build paylen sgid (ah_dgid <$> ah).

(** Why a datagram may not be delivered, or [None] if it may. *)
Inductive ud_refusal := NoDatagrams | NoKeyOfItsOwn | WrongQkey.
Definition ionic_dp_ud_delivery_refused (sq dq : ionic_qp_ring) (sent_qkey : Z) : option ud_refusal :=
  if negb (qp_is_datagram sq) then None
  else if negb (qp_is_datagram dq) then Some NoDatagrams
  else if negb (q_qkey_valid dq) then None
  else
    let controlled := negb (Z.land sent_qkey DP_QKEY_CONTROLLED =? 0) in
    if controlled && negb (q_qkey_valid sq) then Some NoKeyOfItsOwn
    else
      let sent_qkey := if controlled then q_qkey sq else sent_qkey in
      if negb (sent_qkey =? q_qkey dq) then Some WrongQkey else None.

Definition sq_recv_op (op : Z) : Z :=
  if op =? IONIC_V1_OP_SEND_IMM then CQE_RECV_OP_SEND_IMM
  else if op =? IONIC_V1_OP_SEND_INV then CQE_RECV_OP_SEND_INV
  else CQE_RECV_OP_SEND.

Definition ionic_op_to_stat_wr (op : Z) : Z :=
  nth (Z.to_nat op) [2; 8; 3; 4; 0; 1; 5; 6; 11; 10] UINT32_MAX.

Definition UD_BUF : Z := 8192.

Section send_local.
Context {E : Env} {T : Targets}.

Definition ah_at (i : Z) (s : ionic_datapath) : ionic_ah := dp_ah s !!! i.
Definition live_qp (i : Z) (s : ionic_datapath) : bool := (i <? dp_qp_count s) && q_valid (qp_at i s).

Definition dp_complete_send (qp_id wqe_id : Z) (remote : bool) (status : Z) : DP unit :=
  if remote then
    upd_qp qp_id (fun q => q <| q_msn ::= fun m => u32 (m + 1) |>) ;;
    q ← gets (qp_at qp_id);
    cq_post_send_msn (q_sq_cq_id q) qp_id (q_msn q) status
  else
    q ← gets (qp_at qp_id);
    cq_post_send_npg (q_sq_cq_id q) qp_id wqe_id status.

(** The node a datagram goes to ([UINT32_MAX]: this one), or [None] when it
    can go nowhere. *)
Definition dp_ud_route (ah : option ionic_ah) : DP (option Z) :=
  local ← gets dp_local_node;
  if (local : Z) =? UINT32_MAX then mret (Some UINT32_MAX)
  else match ah with
  | None => mret None
  | Some ah =>
      if negb (ah_dgid_valid ah) then mret None
      else
        owner ← ionic_dp_node_from_gid (Some (ah_dgid ah));
        mret (if (owner : Z) =? UINT32_MAX then None
              else if owner =? local then Some UINT32_MAX else Some owner)
  end.

(** The payload of a datagram behind its GRH, if it could be fetched, cut at
    the size of the stack buffer. *)
Definition ud_fetch (src : dp_sge_list) (ah : option ionic_ah) : DP (option (list Z)) :=
  let plen := if UD_BUF <? sl_total src then UD_BUF else sl_total src in
  bs ← ionic_dp_gather src plen;
  mret (if Z.of_nat (length bs) =? plen then Some (dp_ud_grh plen ah ++ bs) else None).

Definition host_sges (bytes : list Z) : dp_sge_list := DpSgeList [] (Z.of_nat (length bytes)).

Definition sq_send_ud_remote (qp_id op wqe_id : Z) (wqe : list Z) (src : dp_sge_list) (dst_id node : Z)
    (ah : option ionic_ah) : DP (Z * bool) :=
  gbuf ← ud_fetch src ah;
  match gbuf with
  | None => mret (IONIC_STS_OK, false)
  | Some gbuf =>
      posted ← remote_post qp_id op wqe_id false false (host_sges gbuf) wqe dst_id node (Some gbuf);
      if decide (posted = DP_POST_BUSY) then sq_busy_set qp_id ;; mret (IONIC_STS_OK, true)
      else mret (IONIC_STS_OK, false)
  end.

(** The queue starts to wait for a receive, unless it already does. *)
Definition sq_rnr_set (qp_id now : Z) : DP bool :=
  q ← gets (qp_at qp_id);
  if q_sq_rnr q then mret false
  else
    (if q_sq_busy q then mret tt
     else modify (fun s => s <| dp_sq_stalled ::= fun n => u32 (n + 1) |>)) ;;
    upd_qp qp_id (fun q => q <| q_sq_rnr := true |> <| q_sq_rnr_since_ms := now |>) ;;
    mret true.

(** No receive was posted for a SEND inside the device. *)
Definition sq_send_rnr (qp_id dst_id : Z) : DP (Z * bool) :=
  now ← ionic_dp_now_ms;
  q ← gets (qp_at qp_id);
  if negb (q_ib_qp_type q =? IBV_QPT_RC) then
    dp_count dst_id RESP_RX_OUT_OF_BUFFER ;; mret (IONIC_STS_OK, false)
  else
    first ← sq_rnr_set qp_id now;
    (if first : bool then dp_count dst_id RESP_RX_OUT_OF_BUFFER else mret tt) ;;
    q ← gets (qp_at qp_id);
    if u64 (now - q_sq_rnr_since_ms q) <? RNR_RETRY_MS then
      dp_count dst_id RESP_TX_RNR_RETRY_ERR ;; mret (IONIC_STS_OK, true)
    else mret (IONIC_STS_RNR_RETRY_EXCEEDED, false).

(** To a QP of this device. *)
Definition sq_send_local (qp_id recv_op : Z) (wqe : list Z) (src : dp_sge_list) (imm_be dst_id : Z)
    (ah : option ionic_ah) : DP (Z * bool) :=
  live ← gets (live_qp dst_id);
  if negb (live : bool) then mret (IONIC_STS_OK, false)
  else
    q ← gets (qp_at qp_id);
    dq ← gets (qp_at dst_id);
    match ionic_dp_ud_delivery_refused q dq (ernic_get_be32 wqe WQE_SEND_QKEY_OFF) with
    | Some _ => mret (IONIC_STS_OK, false)
    | None =>
        udbuf ← (if qp_is_datagram dq then b ← ud_fetch src ah; mret (Some b) else mret None);
        match udbuf with
        | Some None => mret (IONIC_STS_OK, false)
        | _ =>
            let src_host := mjoin udbuf in
            let dsrc := match src_host with Some bytes => host_sges bytes | None => src end in
            r ← ionic_dp_deliver_recv dst_id qp_id dsrc src_host recv_op imm_be;
            match r with
            | None => sq_send_rnr qp_id dst_id
            | Some _ =>
                ionic_dp_rdma_bytes qp_id (sl_total src) ERNIC_STAT_SEND DP_RDMA_TX ;;
                mret (IONIC_STS_OK, false)
            end
        end
    end.

(** The completion status, and whether the WQE is to be retried instead. *)
Definition sq_send (qp_id op wqe_id : Z) (wqe : list Z) (src : dp_sge_list) (imm_be : Z) (remote : bool) :
    DP (Z * bool) :=
  q ← gets (qp_at qp_id);
  gsi ← (if q_ib_qp_type q =? ERNIC_IB_QPT_GSI then ionic_dp_nvmeof_gsi qp_id src else mret false);
  if gsi : bool then mret (IONIC_STS_OK, false) else
  rc ← (if remote then ionic_dp_nvmeof_rc_send qp_id src else mret false);
  if rc : bool then mret (IONIC_STS_OK, false) else
  q ← gets (qp_at qp_id);
  if qp_is_datagram q then
    let dst_id := ernic_get_be32 wqe WQE_SEND_DEST_QPN_OFF in
    let ah_id := ernic_get_be32 wqe WQE_SEND_AH_OFF in
    ah ← gets (fun s => if (ah_id <? dp_ah_count s) && ah_valid (ah_at ah_id s)
                        then Some (ah_at ah_id s) else None);
    route ← dp_ud_route ah;
    match route with
    | None => mret (IONIC_STS_OK, false)
    | Some node =>
        if negb (node =? UINT32_MAX)
        then sq_send_ud_remote qp_id op wqe_id wqe src dst_id node ah
        else sq_send_local qp_id (sq_recv_op op) wqe src imm_be dst_id ah
    end
  else
    sq_send_local qp_id (sq_recv_op op) wqe src imm_be
      (if q_dest_valid q then q_dest_qp_id q else qp_id) None.

(** ** RDMA inside the device *)
Definition sq_rdma (qp_id op : Z) (wqe : list Z) (src : dp_sge_list) (imm_be : Z) : DP Z :=
  let remote_va := ernic_get_be64 wqe WQE_RDMA_VA_OFF in
  let rkey := ernic_get_be32 wqe WQE_RDMA_RKEY_OFF in
  let length := ernic_get_be32 wqe WQE_SEND_LEN_OFF in
  let to_remote := negb (op =? IONIC_V1_OP_RDMA_READ) in
  cov ← gets (ionic_dp_mr_covers rkey remote_va length);
  if negb (length =? 0) && negb (cov : bool) then mret IONIC_STS_REMOTE_ACC_ERR
  else
    moved ← rdma_xfer src rkey remote_va length to_remote;
    if negb ((moved : Z) =? length) then
      gets (fun s => if ionic_dp_mr_covers rkey remote_va length s
                     then dp_fault_status IONIC_STS_LOCAL_PROT_ERR s else IONIC_STS_REMOTE_ACC_ERR)
    else
      ionic_dp_rdma_bytes qp_id moved (if to_remote then ERNIC_STAT_RDMA_WRITE else ERNIC_STAT_RDMA_READ)
        (Z.lor DP_RDMA_TX DP_RDMA_RX) ;;
      (if op =? IONIC_V1_OP_RDMA_WRITE_IMM then
         dst_id ← gets (fun s => let q := qp_at qp_id s in if q_dest_valid q then q_dest_qp_id q else qp_id);
         live ← gets (live_qp dst_id);
         if live : bool then
           _ ← ionic_dp_deliver_recv dst_id qp_id (DpSgeList [] moved) None CQE_RECV_OP_RDMA_IMM imm_be;
           mret tt
         else mret tt
       else mret tt) ;;
      mret IONIC_STS_OK.
End send_local.

(** ** One work request *)

(** The local list of a WQE of [read_sz] bytes read at [gpa], or the status
    it completes with because it has none. *)
Definition wqe_src (wqe : list Z) (gpa read_sz op flags : Z) : Z + dp_sge_list :=
  if (op =? IONIC_V1_OP_ATOMIC_CS) || (op =? IONIC_V1_OP_ATOMIC_FA) then
    if read_sz <? WQE_ATOMIC_MIN_SZ then inl IONIC_STS_LOCAL_QP_OPER_ERR
    else inr (DpSgeList [DpSge (ernic_get_be64 wqe WQE_ATOMIC_SGE_OFF) 8
                           (ernic_get_be32 wqe (WQE_ATOMIC_SGE_OFF + SGE_LKEY_OFF))] 8)
  else if negb (Z.land flags IONIC_V1_FLAG_INL =? 0) then
    let inl_len := ernic_get_be32 wqe WQE_SEND_LEN_OFF in
    if u32 (read_sz - Z.of_nat WQE_PLD_OFF) <? inl_len then inl IONIC_STS_LOCAL_LEN_ERR
    else inr (DpSgeList [DpSge (u64 (gpa + Z.of_nat WQE_PLD_OFF)) inl_len 0] inl_len)
  else
    let '(sgl, src) := parse_sges wqe read_sz (bat wqe WQE_NUM_SGE_KEY_OFF 0) in
    match sgl with
    | DP_SGL_BAD_FMT => inl IONIC_STS_LOCAL_QP_OPER_ERR
    | DP_SGL_TOO_LONG => inl IONIC_STS_LOCAL_LEN_ERR
    | DP_SGL_OK => inr src
    end.

Definition is_send_op (op : Z) : bool :=
  (op =? IONIC_V1_OP_SEND) || (op =? IONIC_V1_OP_SEND_INV) || (op =? IONIC_V1_OP_SEND_IMM).
Definition is_rdma_op (op : Z) : bool :=
  (op =? IONIC_V1_OP_RDMA_READ) || (op =? IONIC_V1_OP_RDMA_WRITE) || (op =? IONIC_V1_OP_RDMA_WRITE_IMM).
Definition is_atomic_op (op : Z) : bool := (op =? IONIC_V1_OP_ATOMIC_CS) || (op =? IONIC_V1_OP_ATOMIC_FA).

Section wqe.
Context {E : Env} {T : Targets}.

(** REG_MR and LOCAL_INV. *)
Definition sq_local_op (qp_id op wqe_id : Z) (wqe : list Z) (read_sz : Z) : DP bool :=
  let key := ernic_get_be32 wqe WQE_IMM_DATA_KEY_OFF in
  reg_status ←
    (if negb (op =? IONIC_V1_OP_REG_MR) then dp_local_inv key ;; mret IONIC_STS_OK
     else if read_sz <? WQE_REG_MR_MIN_SZ then
       ionic_datapath_unregister_mr key ;; mret IONIC_STS_MEM_MGMT_OPER_ERR
     else
       rc ← dp_reg_mr wqe key;
       mret (if (rc : Z) <? 0 then IONIC_STS_MEM_MGMT_OPER_ERR else IONIC_STS_OK));
  q ← gets (qp_at qp_id);
  cq_post_send_npg (q_sq_cq_id q) qp_id wqe_id reg_status ;;
  mret true.

(** To the instance that has the peer QP. *)
Definition sq_remote (qp_id op wqe_id flags : Z) (remote : bool) (wqe : list Z) (src : dp_sge_list) :
    DP bool :=
  q ← gets (qp_at qp_id);
  let signalled := negb (Z.land flags IONIC_V1_FLAG_SIG =? 0) in
  posted ← remote_post qp_id op wqe_id remote signalled src wqe (q_dest_qp_id q) (q_dest_node_id q) None;
  match posted with
  | DP_POST_SENT => mret true
  | DP_POST_BUSY => sq_busy_set qp_id ;; mret false
  | DP_POST_SEND_FAILED | DP_POST_FAILED =>
      let status := if decide (posted = DP_POST_SEND_FAILED)
                    then IONIC_STS_RETRY_EXCEEDED else IONIC_STS_REMOTE_ACC_ERR in
      (if remote then
         upd_qp qp_id (fun q => q <| q_msn ::= fun m => u32 (m + 1) |>) ;;
         q ← gets (qp_at qp_id);
         cq_post_send_msn (q_sq_cq_id q) qp_id (q_msn q) status
       else if signalled then
         q ← gets (qp_at qp_id);
         cq_post_send_npg (q_sq_cq_id q) qp_id wqe_id status
       else mret tt) ;;
      mret true
  end.

(** Inside the device. *)
Definition sq_local (qp_id op wqe_id : Z) (remote : bool) (wqe : list Z) (src : dp_sge_list) : DP bool :=
  let imm_be := ernic_get_le32 wqe WQE_IMM_DATA_KEY_OFF in
  dp_fault_clear ;;
  r ← (if is_send_op op then sq_send qp_id op wqe_id wqe src imm_be remote
       else if is_rdma_op op then st ← sq_rdma qp_id op wqe src imm_be; mret (st, false)
       else if is_atomic_op op then
         ok ← do_atomic wqe (op =? IONIC_V1_OP_ATOMIC_CS);
         st ← gets (dp_fault_status IONIC_STS_REMOTE_ACC_ERR);
         mret (if ok : bool then IONIC_STS_OK else st, false)
       else mret (IONIC_STS_LOCAL_QP_OPER_ERR, false));
  let '(status, stalled) := r : Z * bool in
  if stalled then mret false
  else
    (if status =? IONIC_STS_REMOTE_ACC_ERR then
       dst ← gets (fun s => let q := qp_at qp_id s in if q_dest_valid q then q_dest_qp_id q else qp_id);
       dp_count dst RESP_TX_REMOTE_ACCESS_ERR
     else mret tt) ;;
    dp_complete_send qp_id wqe_id remote status ;;
    mret true.

(** A WQE that was read. *)
Definition sq_wqe (qp_id gpa read_sz : Z) (wqe : list Z) : DP bool :=
  let wqe_id := ernic_get_le64 wqe 0 in
  let op := bat wqe WQE_OP_OFF 0 in
  q ← gets (qp_at qp_id);
  (if stalled q then mret tt else stat (StatQpWqe qp_id (ionic_op_to_stat_wr op))) ;;
  let flags := ernic_get_be16 wqe WQE_FLAGS_OFF in
  if (op =? IONIC_V1_OP_REG_MR) || (op =? IONIC_V1_OP_LOCAL_INV)
  then sq_local_op qp_id op wqe_id wqe read_sz
  else
    let remote := negb (qp_is_datagram q) in
    match wqe_src wqe gpa read_sz op flags with
    | inl status => dp_complete_send qp_id wqe_id remote status ;; mret true
    | inr src =>
        ok ← gets (dp_local_sges_ok src);
        if negb (ok : bool) then
          dp_complete_send qp_id wqe_id remote IONIC_STS_LOCAL_PROT_ERR ;; mret true
        else
          p4 ← match ionic_dp_p4_policy with
               | None => mret None
               | Some policy => policy qp_id op wqe read_sz src (ernic_get_le32 wqe WQE_IMM_DATA_KEY_OFF)
               end;
          match p4 with
          | Some p4_status => dp_complete_send qp_id wqe_id remote p4_status ;; mret true
          | None =>
              q ← gets (qp_at qp_id);
              far ← gets (dp_is_remote q);
              if far : bool then sq_remote qp_id op wqe_id flags remote wqe src
              else sq_local qp_id op wqe_id remote wqe src
          end
    end.

Definition process_sq_wqe (qp_id slot : Z) : DP bool :=
  q ← gets (qp_at qp_id);
  let stride := Z.shiftl 1 (q_sq_stride_log2 q) in
  let '(gpa, run) := buf_gpa (q_sq_buf q) (slot * stride) in
  let wqe_sz := Z.shiftl 1 IONIC_WQE_MAX_STRIDE_LOG2 in
  let read_sz := if stride <? wqe_sz then stride else wqe_sz in
  r ← (if (run =? 0) || (run <? read_sz) then mret None else dp_dma_read gpa read_sz);
  match r with
  | None =>
      sq_stall_clear qp_id ;;
      upd_qp qp_id (fun q => q <| q_sq_fault := true |>) ;;
      sq_fault_finish qp_id ;;
      mret false
  | Some wqe => sq_wqe qp_id gpa read_sz wqe
  end.

(** The loop of sq_service(): at most [n] more WQEs. *)
Fixpoint sq_service_loop (n : nat) (qp_id : Z) : DP unit :=
  match n with
  | O => mret tt
  | S n' =>
      q ← gets (qp_at qp_id);
      let slot := q_sq_cons q mod q_sq_depth q in
      if slot =? q_sq_prod q then mret tt
      else
        go ← process_sq_wqe qp_id slot;
        if negb (go : bool) then mret tt
        else
          sq_stall_clear qp_id ;;
          upd_qp qp_id (fun q => q <| q_sq_cons ::= fun c => u32 (c + 1) |>) ;;
          sq_service_loop n' qp_id
  end.

Definition sq_service (qp_id : Z) : DP unit :=
  q ← gets (qp_at qp_id);
  if q_sq_fault q then mret tt else sq_service_loop (Z.to_nat (q_sq_depth q)) qp_id.
End wqe.

(** ** Frames *)
Definition post_flds : list fld := [FPend; FMesh; FCalls; FFault; FQp; FStats].
Definition send_flds : list fld :=
  [FMem; FDev; FMesh; FQp; FCq; FSrq; FPend; FFault; FStall; FRdma; FCalls; FStats].
Definition wqe_flds : list fld := FMr :: send_flds.

Section send_frames.
Context {E : Env} {T : Targets} {TL : TargetsLaws}.

Hint Resolve gsi_frame rc_send_frame : frame.

Lemma remote_payload_frame l n h : keeps (frame [FCalls; FFault]) (remote_payload l n h).
Proof. unfold remote_payload. frame_auto. Qed.
Hint Resolve remote_payload_frame : frame.
Lemma remote_send_frame i q w um h n d l sh : keeps (frame post_flds) (remote_send i q w um h n d l sh).
Proof. unfold remote_send. frame_auto. Qed.
Hint Resolve remote_send_frame : frame.
Lemma remote_post_frame q op id um sg src wqe dq dn sh :
  keeps (frame post_flds) (remote_post q op id um sg src wqe dq dn sh).
Proof. unfold remote_post. frame_auto. Qed.
Hint Resolve remote_post_frame : frame.
Lemma complete_send_frame q id r st : keeps (frame cq_flds) (dp_complete_send q id r st).
Proof. unfold dp_complete_send. frame_auto. Qed.
Lemma ud_route_frame ah : keeps (frame [FMesh]) (dp_ud_route ah).
Proof. unfold dp_ud_route. frame_auto. Qed.
Lemma ud_fetch_frame l ah : keeps (frame [FFault]) (ud_fetch l ah).
Proof. unfold ud_fetch. frame_auto. Qed.
Hint Resolve complete_send_frame ud_route_frame ud_fetch_frame : frame.
Lemma send_ud_remote_frame q op id w l d n ah : keeps (frame send_flds) (sq_send_ud_remote q op id w l d n ah).
Proof. unfold sq_send_ud_remote. frame_auto. Qed.
Lemma rnr_set_frame q now : keeps (frame [FQp; FStall]) (sq_rnr_set q now).
Proof. unfold sq_rnr_set. frame_auto. Qed.
Hint Resolve rnr_set_frame : frame.
Lemma send_rnr_frame q d : keeps (frame [FQp; FStall; FRdma; FCalls]) (sq_send_rnr q d).
Proof. unfold sq_send_rnr. frame_auto. Qed.
Hint Resolve send_ud_remote_frame send_rnr_frame : frame.
Lemma send_local_frame q op w l i d ah : keeps (frame send_flds) (sq_send_local q op w l i d ah).
Proof. unfold sq_send_local. frame_auto. Qed.
Hint Resolve send_local_frame : frame.
Lemma sq_send_frame q op id w l i r : keeps (frame send_flds) (sq_send q op id w l i r).
Proof. unfold sq_send. frame_auto. Qed.
Definition rdma_flds : list fld := FSrq :: FFault :: cq_flds.
Lemma sq_rdma_frame q op w l i : keeps (frame rdma_flds) (sq_rdma q op w l i).
Proof. unfold sq_rdma. frame_auto. Qed.
Hint Resolve sq_send_frame sq_rdma_frame : frame.

Lemma dp_reg_mr_frame w k : keeps (frame [FMr; FCalls]) (dp_reg_mr w k).
Proof. unfold dp_reg_mr. frame_auto. Qed.
Hint Resolve dp_reg_mr_frame : frame.
Lemma sq_local_op_frame q op id w n : keeps (frame (FMr :: FCalls :: cq_flds)) (sq_local_op q op id w n).
Proof. unfold sq_local_op. frame_auto. Qed.
Lemma sq_remote_frame q op id fl r w l : keeps (frame send_flds) (sq_remote q op id fl r w l).
Proof. unfold sq_remote. frame_auto. Qed.
Lemma sq_local_frame q op id r w l : keeps (frame send_flds) (sq_local q op id r w l).
Proof. unfold sq_local. frame_auto. Qed.
Hint Resolve sq_local_op_frame sq_remote_frame sq_local_frame : frame.
Lemma p4_frame' q op w n l i :
  keeps (frame target_flds)
    match ionic_dp_p4_policy with None => mret None | Some policy => policy q op w n l i end.
Proof.
  destruct ionic_dp_p4_policy as [f|] eqn:Hf; [by apply (p4_frame f)|apply (keeps_ret _)].
Qed.
Hint Resolve p4_frame' : frame.
Lemma sq_wqe_frame q g n w : keeps (frame wqe_flds) (sq_wqe q g n w).
Proof. unfold sq_wqe. frame_auto. Qed.
Hint Resolve sq_wqe_frame : frame.
Lemma process_sq_wqe_frame q sl : keeps (frame wqe_flds) (process_sq_wqe q sl).
Proof. unfold process_sq_wqe. frame_auto. Qed.
Hint Resolve process_sq_wqe_frame : frame.
Lemma sq_service_loop_frame n q : keeps (frame wqe_flds) (sq_service_loop n q).
Proof. induction n as [|n IH]; cbn [sq_service_loop]; frame_auto. Qed.
Hint Resolve sq_service_loop_frame : frame.
Lemma sq_service_frame q : keeps (frame wqe_flds) (sq_service q).
Proof. unfold sq_service. frame_auto. Qed.
End send_frames.
#[export] Hint Resolve gsi_frame rc_send_frame remote_payload_frame remote_send_frame remote_post_frame
  complete_send_frame ud_route_frame ud_fetch_frame send_ud_remote_frame rnr_set_frame send_rnr_frame
  send_local_frame
  sq_send_frame sq_rdma_frame dp_reg_mr_frame sq_local_op_frame sq_remote_frame sq_local_frame p4_frame'
  sq_wqe_frame process_sq_wqe_frame sq_service_frame : frame.

(** ** Invariants *)
Section send_rings.
Context {E : Env} {T : Targets} {TL : TargetsLaws}.

Hint Resolve gsi_quiet rc_send_quiet : quiet.

Lemma p4_quiet' q op w n l i :
  keeps quiet match ionic_dp_p4_policy with None => mret None | Some policy => policy q op w n l i end.
Proof.
  destruct ionic_dp_p4_policy as [f|] eqn:Hf; [by apply (p4_quiet f)|apply (keeps_ret _)].
Qed.
Hint Resolve p4_quiet' : quiet.
Lemma remote_send_rings i q w um h n d l sh : keeps (preserves rings_wf) (remote_send i q w um h n d l sh).
Proof. unfold remote_send. inv_auto. Qed.
Hint Resolve remote_send_rings : inv.
Lemma remote_post_rings q op id um sg src wqe dq dn sh :
  keeps (preserves rings_wf) (remote_post q op id um sg src wqe dq dn sh).
Proof. unfold remote_post. inv_auto. Qed.
Lemma complete_send_rings q id r st : keeps (preserves rings_wf) (dp_complete_send q id r st).
Proof. unfold dp_complete_send. inv_auto. Qed.
Lemma sq_busy_set_rings q : keeps (preserves rings_wf) (sq_busy_set q).
Proof. unfold sq_busy_set. inv_auto. Qed.
Hint Resolve remote_post_rings complete_send_rings sq_busy_set_rings : inv.
Lemma send_ud_remote_rings q op id w l d n ah :
  keeps (preserves rings_wf) (sq_send_ud_remote q op id w l d n ah).
Proof. unfold sq_send_ud_remote. inv_auto. Qed.
Lemma rnr_set_rings q now : keeps (preserves rings_wf) (sq_rnr_set q now).
Proof. unfold sq_rnr_set. inv_auto. Qed.
Hint Resolve rnr_set_rings : inv.
Lemma send_rnr_rings q d : keeps (preserves rings_wf) (sq_send_rnr q d).
Proof. unfold sq_send_rnr. inv_auto. Qed.
Hint Resolve send_ud_remote_rings send_rnr_rings : inv.
Lemma send_local_rings q op w l i d ah : keeps (preserves rings_wf) (sq_send_local q op w l i d ah).
Proof. unfold sq_send_local. inv_auto. Qed.
Hint Resolve send_local_rings : inv.
Lemma sq_send_rings q op id w l i r : keeps (preserves rings_wf) (sq_send q op id w l i r).
Proof. unfold sq_send. inv_auto. Qed.
Lemma sq_rdma_rings q op w l i : keeps (preserves rings_wf) (sq_rdma q op w l i).
Proof. unfold sq_rdma. inv_auto. Qed.
Lemma sq_local_op_rings q op id w n : keeps (preserves rings_wf) (sq_local_op q op id w n).
Proof. unfold sq_local_op. inv_auto. Qed.
Lemma sq_remote_rings q op id fl r w l : keeps (preserves rings_wf) (sq_remote q op id fl r w l).
Proof. unfold sq_remote. inv_auto. Qed.
Hint Resolve sq_send_rings sq_rdma_rings sq_local_op_rings sq_remote_rings : inv.
Lemma sq_local_rings q op id r w l : keeps (preserves rings_wf) (sq_local q op id r w l).
Proof. unfold sq_local. inv_auto. Qed.
Hint Resolve sq_local_rings : inv.
Lemma sq_wqe_rings q g n w : keeps (preserves rings_wf) (sq_wqe q g n w).
Proof. unfold sq_wqe. inv_auto. Qed.
Hint Resolve sq_wqe_rings : inv.
Lemma process_sq_wqe_rings q sl : keeps (preserves rings_wf) (process_sq_wqe q sl).
Proof. unfold process_sq_wqe. inv_auto. Qed.
Hint Resolve process_sq_wqe_rings : inv.
Lemma sq_service_loop_rings n q : keeps (preserves rings_wf) (sq_service_loop n q).
Proof. induction n as [|n IH]; cbn [sq_service_loop]; inv_auto. Qed.
Hint Resolve sq_service_loop_rings : inv.
Lemma sq_service_rings q : keeps (preserves rings_wf) (sq_service q).
Proof. unfold sq_service. inv_auto. Qed.
End send_rings.
#[export] Hint Resolve gsi_quiet rc_send_quiet p4_quiet' : quiet.
#[export] Hint Resolve sq_service_rings : inv.

Section send_stall.
Context {E : Env} {T : Targets} {TL : TargetsLaws}.

Lemma remote_send_stall i q w um h n d l sh : keeps (preserves stall_inv) (remote_send i q w um h n d l sh).
Proof. unfold remote_send. inv_auto. Qed.
Hint Resolve remote_send_stall : inv.
Lemma remote_post_stall q op id um sg src wqe dq dn sh :
  keeps (preserves stall_inv) (remote_post q op id um sg src wqe dq dn sh).
Proof. unfold remote_post. inv_auto. Qed.
Lemma complete_send_stall q id r st : keeps (preserves stall_inv) (dp_complete_send q id r st).
Proof. unfold dp_complete_send. inv_auto. Qed.
Hint Resolve remote_post_stall complete_send_stall : inv.
Lemma send_ud_remote_stall q op id w l d n ah :
  keeps (preserves (stall_inv_at q)) (sq_send_ud_remote q op id w l d n ah).
Proof. unfold sq_send_ud_remote. inv_auto. Qed.

(** Waiting for a receive stalls the queue once. *)
Lemma rnr_set_stall q now : keeps (preserves (stall_inv_at q)) (sq_rnr_set q now).
Proof.
  intros s [Hs Hi]. unfold sq_rnr_set. rewrite run_bind, run_gets. cbn [fst snd].
  destruct (q_sq_rnr (qp_at q s)) eqn:Hr; [done|]. rewrite !run_bind, run_ret. cbn [snd].
  match goal with |- context [upd_qp q _ ?st] => set (s1 := st) end.
  assert (dp_qp_count s1 = dp_qp_count s /\ dp_qp s1 = dp_qp s /\
    dp_sq_stalled s1 = u32 (dp_sq_stalled s - Z.b2z (stalled (qp_at q s)) + 1)) as (Hc & Hq & Hst).
  { subst s1. unfold stalled. rewrite Hr. destruct (q_sq_busy (qp_at q s)); cbn; split_and!; try done.
    - destruct Hs as [Hn Hst _]. pose proof (stall_count_bound s ltac:(lia)). unfold UINT32_MAX in *.
      rewrite wrap_id; unfold fits; lia.
    - f_equal. lia. }
  clearbody s1. assert (forall j, qp_at j s1 = qp_at j s) as Hqa by (intros j; unfold qp_at; by rewrite Hq).
  split; [|by cbn; rewrite Hc]. apply (stall_inv_change s _ q Hs Hi); [done| |].
  - intros j Hne. by rewrite qp_at_upd, decide_False, Hqa.
  - rewrite qp_at_upd, decide_True by done. exact Hst.
Qed.
Hint Resolve rnr_set_stall : inv.
Lemma send_rnr_stall q d : keeps (preserves (stall_inv_at q)) (sq_send_rnr q d).
Proof. unfold sq_send_rnr. inv_auto. Qed.
Hint Resolve send_ud_remote_stall send_rnr_stall : inv.
Lemma send_local_stall q op w l i d ah : keeps (preserves (stall_inv_at q)) (sq_send_local q op w l i d ah).
Proof. unfold sq_send_local. inv_auto. Qed.
Hint Resolve send_local_stall : inv.
Lemma sq_send_stall q op id w l i r : keeps (preserves (stall_inv_at q)) (sq_send q op id w l i r).
Proof. unfold sq_send. inv_auto. Qed.
Lemma sq_rdma_stall q op w l i : keeps (preserves stall_inv) (sq_rdma q op w l i).
Proof. unfold sq_rdma. inv_auto. Qed.
Lemma sq_local_op_stall q op id w n : keeps (preserves stall_inv) (sq_local_op q op id w n).
Proof. unfold sq_local_op. inv_auto. Qed.
Lemma sq_remote_stall q op id fl r w l : keeps (preserves (stall_inv_at q)) (sq_remote q op id fl r w l).
Proof. unfold sq_remote. inv_auto. Qed.
Hint Resolve sq_send_stall sq_rdma_stall sq_local_op_stall sq_remote_stall : inv.
Lemma sq_local_stall q op id r w l : keeps (preserves (stall_inv_at q)) (sq_local q op id r w l).
Proof. unfold sq_local. inv_auto. Qed.
Hint Resolve sq_local_stall : inv.
Lemma sq_wqe_stall q g n w : keeps (preserves (stall_inv_at q)) (sq_wqe q g n w).
Proof. unfold sq_wqe. inv_auto. Qed.
Hint Resolve sq_wqe_stall : inv.
Lemma process_sq_wqe_stall q sl : keeps (preserves (stall_inv_at q)) (process_sq_wqe q sl).
Proof. unfold process_sq_wqe. inv_auto. Qed.
Hint Resolve process_sq_wqe_stall : inv.
Lemma sq_service_loop_stall n q : keeps (preserves (stall_inv_at q)) (sq_service_loop n q).
Proof. induction n as [|n IH]; cbn [sq_service_loop]; inv_auto. Qed.
Hint Resolve sq_service_loop_stall : inv.
Lemma sq_service_stall q : keeps (preserves (stall_inv_at q)) (sq_service q).
Proof. unfold sq_service. inv_auto. Qed.
End send_stall.
#[export] Hint Resolve sq_service_stall : inv.

Section send_pend.
Context {E : Env} {T : Targets} {TL : TargetsLaws}.

Lemma remote_hdr_back op w q dq id src wqe local len :
  bytes_ok wqe -> Forall sge_ok (sl_sges src) ->
  (remote_hdr op w q dq id src wqe).2 = Some (local, len) -> Forall sge_ok (sl_sges local) /\ fits 32 len.
Proof.
  intros Hw Hs. unfold remote_hdr. repeat case_match; intros [= <- <-]; [split; [done|by apply get_be32_fits]|].
  split; [|by unfold fits]. cbn. constructor; [|constructor]. unfold sge_ok. cbn [sg_va sg_len sg_lkey].
  split_and!; [by apply get_be64_fits|by unfold fits|by apply get_be32_fits].
Qed.

(** The request is counted against its peer's budget, which the check before
    the transmission left room for. *)
Lemma remote_claim_pend i d rb s :
  pend_inv s -> 0 <= rb <= ERNIC_MESH_MAX_MSG ->
  pending_reply_bytes d s <= ERNIC_MESH_REPLY_BUDGET - rb ->
  pend_inv (upd_pending i (fun p => p <| p_dest_node := d |> <| p_reply_bytes := rb |>) s).2.
Proof.
  intros Hs Hrb Hd. pose proof (pending_at_wf i s Hs) as Hp. apply upd_pending_inv; [done|by destruct Hp; split|].
  intros node. pose proof (owed_nonneg node _ Hp) as Ho. cbn beta. revert Ho.
  generalize (owed node (pending_at i s)). intros o Ho. unfold owed. cbn.
  destruct (p_valid _); cbn; [|left; lia]. destruct (d =? node) eqn:Hn; bdestr; [|left; lia].
  subst node. right. lia.
Qed.

Lemma reply_bytes_tab node s s' :
  dp_pending_tab s' = dp_pending_tab s -> pending_reply_bytes node s' = pending_reply_bytes node s.
Proof. unfold pending_reply_bytes. by intros ->. Qed.

Lemma set_tag_reply i tag node s :
  pending_reply_bytes node (upd_pending i (fun p => p <| p_tag := tag |>) s).2 = pending_reply_bytes node s.
Proof.
  rewrite !reply_bytes_owed.
  change (dp_pending_tab (upd_pending i _ s).2) with (alter (fun p => p <| p_tag := tag |>) i (dp_pending_tab s)).
  rewrite sumZ_alter. case_match; [|done]. unfold owed. cbn. lia.
Qed.

Lemma pend_inv_tab s s' : dp_pending_tab s' = dp_pending_tab s -> pend_inv s -> pend_inv s'.
Proof.
  intros Ht [? ? Hb]. split; rewrite ?Ht; [done..|]. intros node. by rewrite (reply_bytes_tab _ _ _ Ht).
Qed.

Lemma set_tag_pend i tag : keeps (preserves pend_inv) (upd_pending i (fun p => p <| p_tag := tag |>)).
Proof. apply upd_pending_pend. intros p []. split; [by split|]. intros node. unfold owed. cbn. lia. Qed.
Lemma set_msn_pend i msn : keeps (preserves pend_inv) (upd_pending i (fun p => p <| p_msn := msn |>)).
Proof. apply upd_pending_pend. intros p []. split; [by split|]. intros node. unfold owed. cbn. lia. Qed.
Hint Resolve set_msn_pend : inv.

Lemma remote_send_pend i q w um h n d l sh : keeps (preserves pend_inv) (remote_send i q w um h n d l sh).
Proof.
  intros s Hs. unfold remote_send. destruct (_ <? n); [done|]. rewrite run_bind, run_gets. cbn [fst snd].
  set (rb := IONIC_WIRE_HDR_LEN + _). assert (0 <= rb <= ERNIC_MESH_MAX_MSG) as Hrb.
  { pose proof (pw_length _ (pending_at_wf i s Hs)). unfold fits in *.
    subst rb. unfold IONIC_WIRE_MAX_PAYLOAD, IONIC_WIRE_HDR_LEN, ERNIC_MESH_MAX_MSG in *.
    case_match; bdestr; lia. }
  rewrite run_bind, run_gets. cbn [fst snd]. destruct (_ <? pending_reply_bytes d s) eqn:Hb; [done|]. bdestr.
  rewrite run_bind. frame_fact (ernic_mesh_has_room d (IONIC_WIRE_HDR_LEN + n)) s FPend H1.
  destruct (ernic_mesh_has_room _ _ s) as [room s1]. cbn [fst snd] in *. injection H1 as H1 _.
  destruct (negb room); [by apply (pend_inv_tab s)|]. rewrite run_bind.
  frame_fact (remote_payload l n sh) s1 FPend H2. destruct (remote_payload l n sh s1) as [pl s2]. cbn [fst snd] in *.
  injection H2 as H2 _. assert (dp_pending_tab s2 = dp_pending_tab s) as Ht by congruence.
  destruct pl as [payload|]; [|by apply (pend_inv_tab s)].
  rewrite run_bind, run_gets. cbn [fst snd]. set (tag := dp_mesh_tag _ _). rewrite !run_bind.
  set (s3 := (upd_pending i _ s2).2).
  assert (pend_inv s3) as Hs3 by (by apply set_tag_pend, (pend_inv_tab s)).
  assert (pending_reply_bytes d s3 = pending_reply_bytes d s) as Hd3.
  { subst s3. rewrite set_tag_reply. by apply reply_bytes_tab. }
  clearbody s3. frame_fact (dp_mesh_tx d tag h payload false) s3 FPend H4.
  destruct (dp_mesh_tx d tag h payload false s3) as [rc s4]. cbn [fst snd] in *. injection H4 as H4 _.
  assert (pend_inv s4) as Hs4 by (by apply (pend_inv_tab s3)).
  destruct (rc =? 0); [|by destruct (_ =? _)]. rewrite run_bind.
  match goal with |- pend_inv ((?m ≫= ?k) ?s5).2 =>
    assert (pend_inv s5) as Hs5; [|assert (keeps (preserves pend_inv) (m ≫= k)) as Hk by inv_auto; by apply Hk] end.
  apply remote_claim_pend; [done|done|]. rewrite (reply_bytes_tab _ _ _ H4), Hd3. lia.
Qed.
Hint Resolve remote_send_pend : inv.

Lemma remote_post_pend q op id um sg src wqe dq dn sh :
  bytes_ok wqe -> Forall sge_ok (sl_sges src) ->
  keeps (preserves pend_inv) (remote_post q op id um sg src wqe dq dn sh).
Proof.
  intros Hw Hsrc. unfold remote_post. eapply (keeps_bind _); [inv_auto|]. intros [i|]; [|inv_auto].
  eapply (keeps_bind _).
  { apply upd_pending_pend. intros p []. split; [by split|]. intros node. unfold owed. cbn. lia. }
  intros _. destruct (wire_op_of op) as [w|]; [|inv_auto]. eapply (keeps_bind _); [inv_auto|]. intros req.
  destruct (remote_hdr _ _ _ _ _ _ _) as [[hdr plen] back] eqn:Hh. eapply (keeps_bind _); [|intros _; inv_auto].
  destruct back as [[local len]|]; [|inv_auto].
  destruct (remote_hdr_back op w q dq req src wqe local len Hw Hsrc ltac:(by rewrite Hh)) as [Hl Hn].
  apply upd_pending_pend. intros p []. split; [by split|]. intros node. unfold owed. cbn. lia.
Qed.
End send_pend.

(** What [wqe_src] gives is a list of 32-bit lengths whose total is exact. *)
Lemma wqe_src_ok wqe gpa n op fl src :
  bytes_ok wqe -> wqe_src wqe gpa n op fl = inr src ->
  Forall sge_ok (sl_sges src) /\ sl_total src = sgl_sum (sl_sges src) /\ 0 <= sl_total src <= UINT32_MAX.
Proof.
  intros Hw. unfold wqe_src. destruct (_ || _).
  { destruct (_ <? _); [done|]. intros [= <-]. split_and!; try (unfold UINT32_MAX; cbn; lia).
    constructor; [|constructor]. split_and!; [by apply get_be64_fits|by unfold fits|by apply get_be32_fits]. }
  destruct (negb _).
  { destruct (_ <? _); [done|]. intros [= <-]. cbn [sl_sges sl_total]. unfold sgl_sum, sumZ. cbn [fmap list_fmap foldr sg_len].
    pose proof (get_be32_fits wqe Hw WQE_SEND_LEN_OFF) as Hl. split_and!; [|lia|unfold fits in Hl; lia..|].
    - constructor; [|constructor]. split_and!; [by apply wrap_fits|done|by unfold fits].
    - unfold fits, UINT32_MAX in *. lia. }
  pose proof (bat_ok wqe WQE_NUM_SGE_KEY_OFF 0 Hw) as Hn.
  pose proof (parse_sges_wf wqe n (bat wqe WQE_NUM_SGE_KEY_OFF 0) Hw ltac:(lia)) as (Hok & Ht & _).
  destruct (parse_sges_cases wqe n (bat wqe WQE_NUM_SGE_KEY_OFF 0) Hw ltac:(lia)) as [->|(k & _ & _ & _ & _ & _ & Hs)];
    [done|].
  destruct (parse_sges _ _ _) as [sgl l]. cbn [fst snd] in *. pose proof (sgl_sum_nonneg _ Hok) as H0.
  change (sumZ (sg_len <$> sl_sges l)) with (sgl_sum (sl_sges l)) in *.
  destruct (sgl_sum (sl_sges l) <=? UINT32_MAX) eqn:Hle; subst sgl; [|done]. bdestr.
  intros [= <-]. split_and!; [done|lia..].
Qed.

Section send_mrs.
Context {E : Env} {T : Targets} {TL : TargetsLaws} {ML : GuestMemLaws Mem}.

Hint Resolve remote_post_pend local_inv_wf unregister_mr_wf reg_mr_wf : inv.

Lemma sq_local_op_mrs q op id w n : bytes_ok w -> keeps (preserves mrs_wf) (sq_local_op q op id w n).
Proof. intros Hw. unfold sq_local_op. inv_auto. Qed.
Hint Resolve sq_local_op_mrs : inv.
Lemma sq_wqe_mrs q g n w : bytes_ok w -> keeps (preserves mrs_wf) (sq_wqe q g n w).
Proof. intros Hw. unfold sq_wqe. inv_auto. Qed.

Lemma host_sges_ok bytes : Forall sge_ok (sl_sges (host_sges bytes)).
Proof. constructor. Qed.
Hint Resolve host_sges_ok : inv.
Lemma send_ud_remote_pend q op id w l d n ah :
  bytes_ok w -> keeps (preserves pend_inv) (sq_send_ud_remote q op id w l d n ah).
Proof. intros Hw. unfold sq_send_ud_remote. inv_auto. Qed.
Lemma send_local_pend q op w l i d ah : keeps (preserves pend_inv) (sq_send_local q op w l i d ah).
Proof. unfold sq_send_local. inv_auto. Qed.
Hint Resolve send_ud_remote_pend send_local_pend : inv.
Lemma sq_send_pend q op id w l i r : bytes_ok w -> keeps (preserves pend_inv) (sq_send q op id w l i r).
Proof. intros Hw. unfold sq_send. inv_auto. Qed.
Lemma sq_remote_pend q op id fl r w l :
  bytes_ok w -> Forall sge_ok (sl_sges l) -> keeps (preserves pend_inv) (sq_remote q op id fl r w l).
Proof. intros Hw Hl. unfold sq_remote. inv_auto. Qed.
Hint Resolve sq_send_pend sq_remote_pend : inv.
Lemma sq_local_pend q op id r w l : bytes_ok w -> keeps (preserves pend_inv) (sq_local q op id r w l).
Proof. intros Hw. unfold sq_local. inv_auto. Qed.
Hint Resolve sq_local_pend : inv.
Lemma sq_wqe_pend q g n w : bytes_ok w -> keeps (preserves pend_inv) (sq_wqe q g n w).
Proof.
  intros Hw. unfold sq_wqe. eapply (keeps_bind _); [inv_auto|]. intros q'. eapply (keeps_bind _); [inv_auto|]. intros _.
  destruct (_ || _); [inv_auto|].
  destruct (wqe_src _ _ _ _ _) as [st|src] eqn:Hs; [inv_auto|]. apply wqe_src_ok in Hs as (Hs & _); [|done]. inv_auto.
Qed.

(** The WQE the device reads is made of bytes. *)
Definition send_wf (s : ionic_datapath) : Prop := mrs_wf s /\ rings_wf s /\ pend_inv s.

Lemma dp_read_ok gpa n s bs :
  fits 64 gpa -> 0 <= n < 2 ^ 64 -> (dp_dma_read gpa n s).1 = Some bs -> bytes_ok bs.
Proof. intros Hg Hn H. apply dma_read_spec in H as [-> _]; [apply peekn_ok|done|done]. Qed.

Lemma process_sq_wqe_wf q sl : 0 <= sl < 2 ^ 32 -> keeps (preserves send_wf) (process_sq_wqe q sl).
Proof.
  intros Hsl s (Hm & Hr & Hp). pose proof (process_sq_wqe_rings q sl s Hr) as Hr'. revert Hr'. unfold process_sq_wqe.
  rewrite run_bind, run_gets. cbn [fst snd]. destruct (proj1 Hr q) as ([Hb Hst _ _] & _ & _).
  set (stride := Z.shiftl 1 _). assert (0 < stride <= 2 ^ 16) as Hs.
  { subst stride. unfold IONIC_RING_MAX_STRIDE_LOG2 in *. rewrite Z.shiftl_mul_pow2, Z.mul_1_l by lia.
    split; [lia|apply Z.pow_le_mono_r; lia]. }
  assert (fits 64 (sl * stride)) as Hoff by (unfold fits; nia).
  pose proof (buf_gpa_range _ Hb _ Hoff) as [Hg _]. destruct (buf_gpa _ _) as [gpa run]. cbn [fst snd] in *.
  set (n := if _ <? _ then _ else _). assert (0 <= n < 2 ^ 64) as Hn.
  { subst n. change (Z.shiftl 1 IONIC_WQE_MAX_STRIDE_LOG2) with 512. case_match; lia. }
  rewrite run_bind. set (rd := if _ || _ then _ else _).
  assert (keeps (frame []) rd) as Hfr by (subst rd; frame_auto).
  assert (forall bs, (rd s).1 = Some bs -> bytes_ok bs) as Hbs.
  { subst rd. destruct (_ || _); [done|]. intros bs. by apply dp_read_ok. }
  assert (mrs_wf (rd s).2 /\ pend_inv (rd s).2) as [Hm1 Hp1].
  { split; [exact (frame_preserves _ _ _ rd dep_mrs Hfr eq_refl s Hm)|
            exact (frame_preserves _ _ _ rd dep_pend Hfr eq_refl s Hp)]. }
  destruct (rd s) as [[wqe|] s1]; cbn [fst snd] in *; intros Hr'; split_and!; try done.
  - apply sq_wqe_mrs; auto.
  - apply sq_wqe_pend; auto.
  - match goal with |- mrs_wf (?m s1).2 => assert (keeps (preserves mrs_wf) m) as Hk by inv_auto; by apply Hk end.
  - match goal with |- pend_inv (?m s1).2 => assert (keeps (preserves pend_inv) m) as Hk by inv_auto; by apply Hk end.
Qed.

Lemma upd_qp_send_wf i f : (forall q, qp_wf q -> qp_wf (f q)) -> keeps (preserves send_wf) (upd_qp i f).
Proof. intros Hf s (? & Hr & Hp). split_and!; [done|by apply upd_qp_rings|by destruct Hp; split]. Qed.

Lemma send_wf_of {A} (m : DP A) :
  keeps (preserves mrs_wf) m -> keeps (preserves rings_wf) m -> keeps (preserves pend_inv) m ->
  keeps (preserves send_wf) m.
Proof. intros Hm Hr Hp s (? & ? & ?). split_and!; [by apply Hm|by apply Hr|by apply Hp]. Qed.

Lemma sq_service_loop_wf n q : keeps (preserves send_wf) (sq_service_loop n q).
Proof.
  induction n as [|n IH]; cbn [sq_service_loop]; [apply (keeps_ret _)|]. apply keeps_gets_bind. intros s Hs.
  destruct (_ =? _); [done|].
  assert (0 <= q_sq_cons (qp_at q s) mod q_sq_depth (qp_at q s) < 2 ^ 32) as Hsl.
  { destruct Hs as (_ & Hr & _). destruct (proj1 Hr q) as ([_ _ Hd Hi] & _ & _). unfold fits in *.
    apply mod_le_u32; lia. }
  match goal with |- send_wf (?m s).2 => assert (keeps (preserves send_wf) m) as Hk; [|by apply Hk] end.
  eapply (keeps_bind _); [by apply process_sq_wqe_wf|]. intros go. destruct (negb go); [apply (keeps_ret _)|].
  eapply (keeps_bind _); [apply send_wf_of; inv_auto|]. intros _. eapply (keeps_bind _); [apply send_wf_of; inv_auto|].
  intros _. exact IH.
Qed.

Lemma sq_service_wf q : keeps (preserves send_wf) (sq_service q).
Proof.
  unfold sq_service. eapply (keeps_bind _); [apply (keeps_gets _)|]. intros q'.
  destruct (q_sq_fault q'); [apply (keeps_ret _)|apply sq_service_loop_wf].
Qed.
End send_mrs.
#[export] Hint Resolve remote_post_pend local_inv_wf unregister_mr_wf reg_mr_wf : inv.
