(* ===== verification/DpMesh.v ===== *)
(** * Messages from other nodes

    The inbound queue (dp_mesh_recv()), the handlers of the wire protocol
    (dp_wire_reply() to dp_handle_wire()), and ionic_datapath_poll(), which
    drains the queue, retries stalled send queues and times out requests. *)
From S2P Require Export DpSend.

(** ** The inbound queue *)

Definition dp_rx_room (msgs bytes len : Z) : bool :=
  (msgs =? 0) || ((msgs <? DP_RX_MAX_MSGS) && (len <=? DP_RX_MAX_BYTES) && (bytes <=? DP_RX_MAX_BYTES - len)).

Definition wire_recv_op (op : Z) : Z :=
  if op =? IONIC_WIRE_SEND_IMM then CQE_RECV_OP_SEND_IMM
  else if op =? IONIC_WIRE_SEND_INV then CQE_RECV_OP_SEND_INV
  else CQE_RECV_OP_SEND.

Definition wire_reply_op (op : Z) : Z :=
  if op =? IONIC_WIRE_READ_REQ then IONIC_WIRE_READ_RESP
  else if op =? IONIC_WIRE_ATOMIC_REQ then IONIC_WIRE_ATOMIC_RESP
  else IONIC_WIRE_ACK.

Definition inmsg_dst_qp (m : dp_inmsg) : Z := ernic_get_le32 (im_buf m) IONIC_WIRE_DST_QP_OFF.
Definition is_response_op (op : Z) : bool :=
  (op =? IONIC_WIRE_ACK) || (op =? IONIC_WIRE_READ_RESP) || (op =? IONIC_WIRE_ATOMIC_RESP).
Definition inmsg_is_response (m : dp_inmsg) : bool := is_response_op (bat (im_buf m) IONIC_WIRE_OP_OFF 0).

Definition ERNIC_STAT_NO_QP : Z := UINT32_MAX.

Section mesh.
Context {E : Env}.

(** On a receive thread; [false] leaves the message with the mesh. *)
Definition dp_mesh_recv (src_node : Z) (buf : list Z) : DP bool :=
  let len := Z.of_nat (length buf) in
  if (len <? IONIC_WIRE_HDR_LEN) || (IONIC_WIRE_HDR_LEN + IONIC_WIRE_MAX_PAYLOAD <? len) then mret true else
  ok ← alloc;
  if negb (ok : bool) then mret true else
  room ← gets (fun s => dp_rx_room (dp_rx_msgs s) (dp_rx_bytes s) len);
  if room : bool then
    modify (fun s => s <| dp_rx_queue ::= fun q => q ++ [DpInmsg src_node 0 false buf] |>
                       <| dp_rx_fresh ::= fun n => u32 (n + 1) |>
                       <| dp_rx_msgs ::= fun n => u32 (n + 1) |>
                       <| dp_rx_bytes ::= fun n => u64 (n + len) |>) ;;
    mret true
  else
    now ← ionic_dp_now_ms;
    stuck ← gets (fun s => negb (dp_rx_in_pass s) && (dp_rx_polled_ms s <? now) &&
                           (DP_RX_STUCK_MS <? now - dp_rx_polled_ms s));
    modify (fun s =>
      if stuck : bool then s <| dp_rx_dropped ::= fun n => u64 (n + 1) |>
      else if dp_rx_waiting s <? len then s <| dp_rx_waiting := len |> else s) ;;
    mret stuck.

(** ** Answers *)

Definition dp_wire_reply (dst_node op : Z) (req : ionic_wire_hdr) (status : Z) (payload : list Z) : DP unit :=
  let r := (inhabitant : ionic_wire_hdr) <| h_magic := IONIC_WIRE_MAGIC |> <| h_op := op |>
    <| h_src_qp_id := h_dst_qp_id req |> <| h_dst_qp_id := h_src_qp_id req |>
    <| h_req_id := h_req_id req |> <| h_status := status |> <| h_length := Z.of_nat (length payload) |> in
  _ ← dp_mesh_tx dst_node 0 r payload true;
  if status =? IONIC_STS_REMOTE_ACC_ERR then dp_count (h_dst_qp_id req) RESP_TX_REMOTE_ACCESS_ERR
  else mret tt.

(** ** Requests *)

Definition dp_remote_atomic (rkey va : Z) (compare_swap : bool) (swap_add compare : Z) : DP (option Z) :=
  g ← sge_gpa rkey va;
  if 8 <=? (g : Z * Z).2 then dp_atomic_apply g.1 compare_swap swap_add compare else mret None.

(** [dq] says whether the destination QP exists here. *)
Definition dp_wire_send (src_node : Z) (h : ionic_wire_hdr) (dq : bool) (payload : list Z)
    (allow_retry : bool) : DP bool :=
  let payload_len := Z.of_nat (length payload) in
  let total := if payload_len <? h_length h then payload_len else h_length h in
  if negb dq then
    dp_wire_reply src_node IONIC_WIRE_ACK h IONIC_STS_REMOTE_ACC_ERR [] ;; mret true
  else
    r ← ionic_dp_deliver_recv (h_dst_qp_id h) (h_src_qp_id h) (DpSgeList [] total) (Some payload)
          (wire_recv_op (h_op h)) (h_imm_be h);
    match r with
    | None =>
        if allow_retry then mret false
        else dp_wire_reply src_node IONIC_WIRE_ACK h IONIC_STS_RNR_RETRY_EXCEEDED [] ;; mret true
    | Some _ => dp_wire_reply src_node IONIC_WIRE_ACK h IONIC_STS_OK [] ;; mret true
    end.

Definition dp_wire_write (src_node : Z) (h : ionic_wire_hdr) (dq : bool) (stat_qp : Z)
    (payload : list Z) : DP unit :=
  cov ← gets (ionic_dp_mr_covers (h_rkey h) (h_remote_va h) (h_length h));
  status ←
    (if negb (h_length h =? Z.of_nat (length payload)) then mret IONIC_STS_REMOTE_ACC_ERR
     else if negb (h_length h =? 0) && negb (cov : bool) then mret IONIC_STS_REMOTE_ACC_ERR
     else
       n ← ionic_dp_host_to_sge (h_rkey h) (h_remote_va h) payload (h_length h);
       if negb ((n : Z) =? h_length h) then mret IONIC_STS_REMOTE_ACC_ERR
       else
         ionic_dp_rdma_bytes stat_qp (h_length h) ERNIC_STAT_RDMA_WRITE DP_RDMA_RX ;;
         (if (h_op h =? IONIC_WIRE_WRITE_IMM) && dq then
            _ ← ionic_dp_deliver_recv (h_dst_qp_id h) (h_src_qp_id h) (DpSgeList [] (h_length h)) None
                  CQE_RECV_OP_RDMA_IMM (h_imm_be h);
            mret tt
          else mret tt) ;;
         mret IONIC_STS_OK);
  dp_wire_reply src_node IONIC_WIRE_ACK h status [].

Definition dp_wire_read (src_node : Z) (h : ionic_wire_hdr) (stat_qp : Z) : DP unit :=
  let length' := h_length h in
  data ← (if negb (length' =? 0) && (length' <=? IONIC_WIRE_MAX_PAYLOAD) then alloc else mret false);
  r ←
    (if (IONIC_WIRE_MAX_PAYLOAD <? length') || (negb (length' =? 0) && negb (data : bool)) then mret None
     else
       bs ← ionic_dp_sge_to_host (h_rkey h) (h_remote_va h) length';
       if negb (Z.of_nat (length bs) =? length') then mret None
       else ionic_dp_rdma_bytes stat_qp length' ERNIC_STAT_RDMA_READ DP_RDMA_TX ;; mret (Some bs));
  match r with
  | None => dp_wire_reply src_node IONIC_WIRE_READ_RESP h IONIC_STS_REMOTE_ACC_ERR []
  | Some bs => dp_wire_reply src_node IONIC_WIRE_READ_RESP h IONIC_STS_OK bs
  end.

Definition dp_wire_atomic (src_node : Z) (h : ionic_wire_hdr) : DP unit :=
  old ← dp_remote_atomic (h_rkey h) (h_remote_va h) (negb (h_atomic_cs h =? 0)) (h_swap_add h) (h_compare h);
  match old with
  | None => dp_wire_reply src_node IONIC_WIRE_ATOMIC_RESP h IONIC_STS_REMOTE_ACC_ERR []
  | Some old => dp_wire_reply src_node IONIC_WIRE_ATOMIC_RESP h IONIC_STS_OK (le64_bytes old)
  end.

(** ** Responses *)

Definition dp_wire_response (h : ionic_wire_hdr) (payload : list Z) : DP unit :=
  p ← gets (pending_find (h_req_id h));
  match p with
  | None => mret tt
  | Some i =>
      p ← gets (pending_at i);
      status ←
        (if (h_status h =? IONIC_STS_OK) && negb (h_op h =? IONIC_WIRE_ACK) then
           let payload_len := Z.of_nat (length payload) in
           let want := if p_length p <? payload_len then p_length p else payload_len in
           dp_fault_clear ;;
           got ← dp_scatter (p_local p) payload want;
           st ← gets (dp_fault_status IONIC_STS_LOCAL_PROT_ERR);
           (if h_op h =? IONIC_WIRE_READ_RESP
            then ionic_dp_rdma_bytes (p_qp_id p) got ERNIC_STAT_RDMA_READ DP_RDMA_RX else mret tt) ;;
           mret (if (got : Z) =? want then IONIC_STS_OK else st)
         else mret (h_status h));
      pending_complete i status
  end.

Definition names_memory (op : Z) : bool :=
  (op =? IONIC_WIRE_WRITE) || (op =? IONIC_WIRE_WRITE_IMM) || (op =? IONIC_WIRE_READ_REQ) ||
  (op =? IONIC_WIRE_ATOMIC_REQ).

(** [false]: an inbound SEND found no receive and is to be tried again. *)
Definition dp_handle_wire (src_node : Z) (msg : list Z) (allow_retry : bool) : DP bool :=
  let h := ionic_dp_wire_hdr_get msg in
  let payload := drop (Z.to_nat IONIC_WIRE_HDR_LEN) msg in
  if negb (h_magic h =? IONIC_WIRE_MAGIC) then mret true else
  dq ← gets (live_qp (h_dst_qp_id h));
  let stat_qp := if dq : bool then h_dst_qp_id h else ERNIC_STAT_NO_QP in
  if (h_rkey h =? 0) && negb (h_length h =? 0) && names_memory (h_op h) then
    dp_wire_reply src_node (wire_reply_op (h_op h)) h IONIC_STS_REMOTE_ACC_ERR [] ;; mret true
  else if is_wire_send (h_op h) then dp_wire_send src_node h dq payload allow_retry
  else if is_wire_write (h_op h) then dp_wire_write src_node h dq stat_qp payload ;; mret true
  else if h_op h =? IONIC_WIRE_READ_REQ then dp_wire_read src_node h stat_qp ;; mret true
  else if h_op h =? IONIC_WIRE_ATOMIC_REQ then dp_wire_atomic src_node h ;; mret true
  else if is_response_op (h_op h) then dp_wire_response h payload ;; mret true
  else mret true.
End mesh.

(** ** Polling *)
Section poll.
Context {E : Env} {T : Targets}.

Definition ionic_datapath_has_work (s : ionic_datapath) : bool :=
  negb (dp_rx_fresh s =? 0) || ionic_dp_s3_has_work s.

Definition dp_rx_note_crowding (kept kept_bytes now : Z) : DP unit :=
  modify (fun s =>
    if negb (dp_rx_waiting s =? 0) && dp_rx_room kept kept_bytes (dp_rx_waiting s)
    then s <| dp_rx_waiting := 0 |> else s) ;;
  modify (fun s =>
    if dp_rx_waiting s =? 0 then s <| dp_rx_crowded := false |>
    else if dp_rx_crowded s then s
    else s <| dp_rx_crowded := true |> <| dp_rx_crowded_ms := now |>).

(** The first critical section: what the pass takes off the queue, and
    whether it gives up on the SENDs that wait. *)
Definition poll_take (now : Z) : DP (list dp_inmsg * bool) :=
  msgs ← gets dp_rx_queue;
  modify (fun s => s <| dp_rx_queue := [] |> <| dp_rx_fresh := 0 |> <| dp_rx_in_pass := true |>
                     <| dp_rx_dropped_logged := dp_rx_dropped s |>) ;;
  giveup ← gets (fun s => dp_rx_crowded s && (DP_RX_CROWDED_MS <=? u64 (now - dp_rx_crowded_ms s)));
  mret (msgs, giveup).

Definition blocked_by (defer : list dp_inmsg) (m : dp_inmsg) : bool :=
  negb (inmsg_is_response m) && existsb (fun d => inmsg_dst_qp d =? inmsg_dst_qp m) defer.

(** The pass over what it took: the messages put back, in order, and the
    number and size of those applied. *)
Fixpoint poll_pass (now : Z) (giveup : bool) (msgs defer : list dp_inmsg) (done done_bytes : Z) :
    DP (list dp_inmsg * Z * Z) :=
  match msgs with
  | [] => mret (defer, done, done_bytes)
  | m :: msgs' =>
      if blocked_by defer m then poll_pass now giveup msgs' (defer ++ [m]) done done_bytes
      else
        let m := if im_first_try_ms m =? 0 then m <| im_first_try_ms := now |> else m in
        ok ← dp_handle_wire (im_src_node m) (im_buf m)
               (negb giveup && (u64 (now - im_first_try_ms m) <? RNR_RETRY_MS));
        if ok : bool then poll_pass now giveup msgs' defer (done + 1) (done_bytes + im_len m)
        else
          dp_count (inmsg_dst_qp m) RESP_TX_RNR_RETRY_ERR ;;
          (if im_rnr_counted m then mret tt else dp_count (inmsg_dst_qp m) RESP_RX_OUT_OF_BUFFER) ;;
          poll_pass now giveup msgs' (defer ++ [m <| im_rnr_counted := true |>]) done done_bytes
  end.

Definition sum_len (l : list dp_inmsg) : Z := sumZ (im_len <$> l).

(** The second critical section. *)
Definition poll_put_back (now : Z) (defer : list dp_inmsg) (done done_bytes : Z) : DP unit :=
  modify (fun s => s <| dp_rx_queue ::= fun q => defer ++ q |>
                     <| dp_rx_msgs ::= fun n => u32 (n - done) |>
                     <| dp_rx_bytes ::= fun n => u64 (n - done_bytes) |>) ;;
  dp_rx_note_crowding (Z.of_nat (length defer)) (sum_len defer) now ;;
  modify (fun s => s <| dp_rx_in_pass := false |>) ;;
  polled ← ionic_dp_now_ms;
  modify (fun s => s <| dp_rx_polled_ms := polled |>).

(** The send queues that are waiting, in order; none once nothing is. *)
Definition poll_stalled : DP unit :=
  count ← gets dp_qp_count;
  for_each (seqZ 0 count) (fun i =>
    go ← gets (fun s => negb (dp_sq_stalled s =? 0) && q_valid (qp_at i s) && stalled (qp_at i s));
    if go : bool then sq_service i else mret tt).

Definition poll_timeouts (now : Z) : DP unit :=
  for_each (seq 0 MAX_PENDING) (fun i =>
    p ← gets (pending_at i);
    if p_valid p && (p_deadline_ms p <? now) then
      dp_mesh_cancel_request p ;; pending_complete i IONIC_STS_RETRY_EXCEEDED
    else mret tt).

(** [arrivals] are the messages the receive threads hand in while the pass is
    under way: applying what was taken leaves the queue's state alone, so
    where in the pass they come makes no difference to it. *)
Definition ionic_datapath_poll (arrivals : list (Z * list Z)) : DP unit :=
  ionic_dp_s3_poll ;;
  now ← ionic_dp_now_ms;
  t ← poll_take now;
  let '(msgs, giveup) := t : list dp_inmsg * bool in
  for_each arrivals (fun a => _ ← dp_mesh_recv a.1 a.2; mret tt) ;;
  r ← poll_pass now giveup msgs [] 0 0;
  let '(defer, done, done_bytes) := r : list dp_inmsg * Z * Z in
  poll_put_back now defer done done_bytes ;;
  poll_stalled ;;
  poll_timeouts now.
End poll.

(** ** Frames and the invariants of the earlier files *)
Definition req_flds : list fld := FMesh :: recv_flds.
Definition wire_flds : list fld := send_flds.
Definition poll_flds : list fld := FRx :: wqe_flds.

Section mesh_frames.
Context {E : Env} {T : Targets} {TL : TargetsLaws}.

Lemma mesh_recv_frame n b : keeps (frame [FRx; FCalls]) (dp_mesh_recv n b).
Proof.
  assert (forall f : ionic_datapath -> ionic_datapath, (forall s, frame [FRx; FCalls] s (f s)) ->
    keeps (frame [FRx; FCalls]) (modify f)) as Hmod by (intros f Hf; by apply (keeps_modify _)).
  unfold dp_mesh_recv. frame_auto; apply Hmod; [frame_prim|]. intros s.
  repeat case_match; [frame_at|frame_at|done].
Qed.
Lemma wire_reply_frame d op h st p : keeps (frame [FMesh; FQp; FRdma]) (dp_wire_reply d op h st p).
Proof. unfold dp_wire_reply. frame_auto. Qed.
Lemma remote_atomic_frame k va cs a c : keeps (frame [FMem; FFault]) (dp_remote_atomic k va cs a c).
Proof. unfold dp_remote_atomic. frame_auto. Qed.
Hint Resolve wire_reply_frame remote_atomic_frame : frame.
Lemma wire_send_frame n h q p r : keeps (frame req_flds) (dp_wire_send n h q p r).
Proof. unfold dp_wire_send. frame_auto. Qed.
Lemma wire_write_frame n h q sq p : keeps (frame req_flds) (dp_wire_write n h q sq p).
Proof. unfold dp_wire_write. frame_auto. Qed.
Lemma wire_read_frame n h sq : keeps (frame [FMesh; FQp; FRdma; FFault; FCalls; FStats]) (dp_wire_read n h sq).
Proof. unfold dp_wire_read. frame_auto. Qed.
Lemma wire_atomic_frame n h : keeps (frame [FMem; FFault; FMesh; FQp; FRdma]) (dp_wire_atomic n h).
Proof. unfold dp_wire_atomic. frame_auto. Qed.
Lemma wire_response_frame h p : keeps (frame wire_flds) (dp_wire_response h p).
Proof. unfold dp_wire_response. frame_auto. Qed.
Hint Resolve wire_send_frame wire_write_frame wire_read_frame wire_atomic_frame wire_response_frame : frame.
Lemma handle_wire_frame n m r : keeps (frame wire_flds) (dp_handle_wire n m r).
Proof. unfold dp_handle_wire. frame_auto. Qed.
Hint Resolve handle_wire_frame : frame.
Lemma poll_pass_frame now g l d n b : keeps (frame wire_flds) (poll_pass now g l d n b).
Proof. revert d n b. induction l as [|m l IH]; intros d n b; cbn [poll_pass]; frame_auto. Qed.
Lemma poll_stalled_frame : keeps (frame wqe_flds) poll_stalled.
Proof. unfold poll_stalled. frame_auto. Qed.
Lemma poll_timeouts_frame now : keeps (frame send_flds) (poll_timeouts now).
Proof. unfold poll_timeouts. frame_auto. Qed.
Lemma poll_take_frame now : keeps (frame [FRx]) (poll_take now).
Proof. unfold poll_take. frame_auto. frame_prim. Qed.
Lemma note_crowding_frame k b now : keeps (frame [FRx]) (dp_rx_note_crowding k b now).
Proof.
  unfold dp_rx_note_crowding. frame_auto; apply (keeps_modify _); intros s; repeat case_match; try done;
    frame_at.
Qed.
Hint Resolve note_crowding_frame : frame.
Lemma poll_put_back_frame now d n b : keeps (frame [FRx; FCalls]) (poll_put_back now d n b).
Proof. unfold poll_put_back. frame_auto; frame_prim. Qed.
End mesh_frames.
#[export] Hint Resolve mesh_recv_frame wire_reply_frame remote_atomic_frame wire_send_frame wire_write_frame
  wire_read_frame wire_atomic_frame wire_response_frame handle_wire_frame poll_pass_frame poll_stalled_frame
  poll_timeouts_frame poll_take_frame note_crowding_frame poll_put_back_frame : frame.

Section mesh_inv.
Context {E : Env} {T : Targets} {TL : TargetsLaws}.

Lemma wire_reply_quiet d op h st p : keeps quiet (dp_wire_reply d op h st p).
Proof. unfold dp_wire_reply. quiet_auto. Qed.
Hint Resolve wire_reply_quiet : quiet.
Lemma wire_send_quiet n h q p r : keeps quiet (dp_wire_send n h q p r).
Proof. unfold dp_wire_send. quiet_auto. Qed.
Lemma wire_write_quiet n h q sq p : keeps quiet (dp_wire_write n h q sq p).
Proof. unfold dp_wire_write. quiet_auto. Qed.
Lemma wire_read_quiet n h sq : keeps quiet (dp_wire_read n h sq).
Proof. unfold dp_wire_read. quiet_auto. Qed.
Lemma wire_atomic_quiet n h : keeps quiet (dp_wire_atomic n h).
Proof. unfold dp_wire_atomic. quiet_auto. Qed.
Hint Resolve wire_send_quiet wire_write_quiet wire_read_quiet wire_atomic_quiet : quiet.

Lemma handle_wire_rings n m r : keeps (preserves rings_wf) (dp_handle_wire n m r).
Proof. unfold dp_handle_wire, dp_wire_response. inv_auto. Qed.
Lemma handle_wire_stall n m r : keeps (preserves stall_inv) (dp_handle_wire n m r).
Proof. unfold dp_handle_wire, dp_wire_response. inv_auto. Qed.
Lemma handle_wire_pend n m r : keeps (preserves pend_inv) (dp_handle_wire n m r).
Proof. unfold dp_handle_wire, dp_wire_response. inv_auto. Qed.
Hint Resolve handle_wire_rings handle_wire_stall handle_wire_pend : inv.

Lemma poll_pass_rings now g l d n b : keeps (preserves rings_wf) (poll_pass now g l d n b).
Proof. revert d n b. induction l as [|m l IH]; intros d n b; cbn [poll_pass]; inv_auto. Qed.
Lemma poll_pass_stall now g l d n b : keeps (preserves stall_inv) (poll_pass now g l d n b).
Proof. revert d n b. induction l as [|m l IH]; intros d n b; cbn [poll_pass]; inv_auto. Qed.
Lemma poll_pass_pend now g l d n b : keeps (preserves pend_inv) (poll_pass now g l d n b).
Proof. revert d n b. induction l as [|m l IH]; intros d n b; cbn [poll_pass]; inv_auto. Qed.
Lemma poll_timeouts_rings now : keeps (preserves rings_wf) (poll_timeouts now).
Proof. unfold poll_timeouts. inv_auto. Qed.
Lemma poll_timeouts_stall now : keeps (preserves stall_inv) (poll_timeouts now).
Proof. unfold poll_timeouts. inv_auto. Qed.
Lemma poll_timeouts_pend now : keeps (preserves pend_inv) (poll_timeouts now).
Proof. unfold poll_timeouts. inv_auto. Qed.
End mesh_inv.
#[export] Hint Resolve wire_reply_quiet wire_send_quiet wire_write_quiet wire_read_quiet wire_atomic_quiet : quiet.
#[export] Hint Resolve handle_wire_rings handle_wire_stall handle_wire_pend poll_pass_rings poll_pass_stall
  poll_pass_pend poll_timeouts_rings poll_timeouts_stall poll_timeouts_pend : inv.

Section poll_stall.
Context {E : Env} {T : Targets} {TL : TargetsLaws} {ML : GuestMemLaws Mem}.

Lemma poll_stalled_stall : keeps (preserves stall_inv) poll_stalled.
Proof.
  unfold poll_stalled. apply keeps_gets_bind. intros s Hs. set (n := dp_qp_count s).
  set (I := fun s : ionic_datapath => stall_inv s /\ dp_qp_count s = n).
  match goal with |- stall_inv (?m s).2 => assert (keeps (preserves I) m) as Hk; [|by apply (Hk s)] end.
  apply (keeps_for_each _). intros i Hi%elem_of_seqZ. eapply (keeps_bind _); [apply (keeps_gets _)|].
  intros go. destruct go; [|apply (keeps_ret _)]. intros s' [Hs' Hn].
  destruct (sq_service_stall i s') as [Hst _]; [split; [done|lia]|]. split; [done|].
  frame_fact (sq_service i) s' FCfg Hc. congruence.
Qed.

Lemma poll_stalled_wf : keeps (preserves send_wf) poll_stalled.
Proof.
  unfold poll_stalled. eapply (keeps_bind _); [apply (keeps_gets _)|]. intros n. apply (keeps_for_each _).
  intros i _. eapply (keeps_bind _); [apply (keeps_gets _)|]. intros go.
  destruct go; [apply sq_service_wf|apply (keeps_ret _)].
Qed.
End poll_stall.

(** ** The inbound queue's accounts

    [rx_inv_with held]: the counters cover the queue and the messages [held]
    by a pass under way, and stay within the queue's limits. *)
Definition msg_ok (m : dp_inmsg) : Prop :=
  bytes_ok (im_buf m) /\ IONIC_WIRE_HDR_LEN <= im_len m <= ERNIC_MESH_MAX_MSG.

Section rx.
Context {E : Env}.

Record rx_inv_with (held : list dp_inmsg) (s : ionic_datapath) : Prop := {
  rx_msgs_eq : dp_rx_msgs s = Z.of_nat (length held + length (dp_rx_queue s));
  rx_bytes_eq : dp_rx_bytes s = sum_len held + sum_len (dp_rx_queue s);
  rx_msgs_max : dp_rx_msgs s <= DP_RX_MAX_MSGS;
  rx_bytes_max : dp_rx_bytes s <= DP_RX_MAX_BYTES;
  rx_held_ok : Forall msg_ok held;
  rx_queue_ok : Forall msg_ok (dp_rx_queue s);
}.
Definition rx_inv : ionic_datapath -> Prop := rx_inv_with [].

Lemma sum_len_app l1 l2 : sum_len (l1 ++ l2) = sum_len l1 + sum_len l2.
Proof. unfold sum_len. by rewrite fmap_app, sumZ_app. Qed.
Lemma sum_len_nonneg l : 0 <= sum_len l.
Proof. apply sumZ_nonneg, Forall_fmap, Forall_true. intros m. unfold im_len. cbn. lia. Qed.

Lemma dep_rx held : depends [FRx] (rx_inv_with held).
Proof.
  intros s s' H [? ? ? ? ? ?]. pose proof (H FRx ltac:(set_solver)) as H1. cbn in H1. injection H1 as Hq _ Hb Hm _.
  by split; rewrite ?Hq, ?Hb, ?Hm.
Qed.
Hint Resolve dep_rx : inv.

Lemma mesh_recv_rx held n buf : bytes_ok buf -> keeps (preserves (rx_inv_with held)) (dp_mesh_recv n buf).
Proof.
  intros Hb s Hs. unfold dp_mesh_recv. destruct (_ || _) eqn:Hl; [done|]. apply orb_false_iff in Hl as [H1 H2]. bdestr.
  set (len := Z.of_nat (length buf)) in *. rewrite run_bind. destruct (alloc s) as [ok s0] eqn:Ha. cbn [fst snd].
  assert (rx_inv_with held s0) as Hs0.
  { unfold alloc in Ha. simplify_eq. by apply (dep_rx held s); [intros f ->%list_elem_of_singleton|]. }
  destruct (negb ok); [done|]. rewrite run_bind, run_gets. cbn [fst snd].
  destruct (dp_rx_room _ _ _) eqn:Hr.
  - run. destruct Hs0 as [Hm Hby Hmm Hbm Hh Hq]. unfold dp_rx_room in Hr. apply orb_true_iff in Hr.
    assert (msg_ok (DpInmsg n 0 false buf)) as Hok.
    { split; [done|]. unfold im_len, IONIC_WIRE_MAX_PAYLOAD in *. cbn. fold len. lia. }
    pose proof (sum_len_nonneg held). pose proof (sum_len_nonneg (dp_rx_queue s0)).
    assert (0 <= dp_rx_msgs s0 < DP_RX_MAX_MSGS /\ dp_rx_bytes s0 + len <= DP_RX_MAX_BYTES /\ 0 <= dp_rx_bytes s0)
      as (Hr1 & Hr2 & Hr3).
    { unfold DP_RX_MAX_MSGS, DP_RX_MAX_BYTES, IONIC_WIRE_MAX_PAYLOAD, IONIC_WIRE_HDR_LEN, ERNIC_MESH_MAX_MSG in *.
      destruct Hr as [Hr|Hr]; bdestr; [|lia].
      assert (held = [] /\ dp_rx_queue s0 = []) as [-> Hq0].
      { split; apply nil_length_inv; lia. }
      rewrite Hq0 in *. cbn in Hby. lia. }
    set (m := DpInmsg n 0 false buf) in *. unfold DP_RX_MAX_MSGS, DP_RX_MAX_BYTES, ERNIC_MESH_MAX_MSG in *.
    assert (sum_len (dp_rx_queue s0 ++ [m]) = sum_len (dp_rx_queue s0) + len) as Hsl.
    { rewrite sum_len_app. f_equal. change (sum_len [m]) with (len + 0). lia. }
    split; cbn -[sum_len m]; rewrite ?Hsl, ?length_app, ?wrap_id by (unfold fits; lia); try done; cbn;
      try (unfold DP_RX_MAX_MSGS, DP_RX_MAX_BYTES, ERNIC_MESH_MAX_MSG; lia).
    apply Forall_app_2; [done|]. by constructor.
  - rewrite run_bind. destruct (ionic_dp_now_ms s0) as [now s1] eqn:Hn. cbn [fst snd].
    assert (rx_inv_with held s1) as Hs1.
    { unfold ionic_dp_now_ms in Hn. simplify_eq. by apply (dep_rx held s0); [intros f ->%list_elem_of_singleton|]. }
    run. destruct Hs1 as [? ? ? ? ? ?]. destruct (_ && _); [|destruct (_ <? _)]; by split.
Qed.
End rx.

(** ** What a pass does with the messages it took

    [flags] says of each message whether it was applied; [kept_of] are those
    that were not, which the pass puts back with their bookkeeping updated. *)
Definition same_msg (m m' : dp_inmsg) : Prop := im_src_node m' = im_src_node m /\ im_buf m' = im_buf m.

Fixpoint kept_of (flags : list bool) (msgs : list dp_inmsg) : list dp_inmsg :=
  match flags, msgs with
  | f :: flags', m :: msgs' => if f then kept_of flags' msgs' else m :: kept_of flags' msgs'
  | _, _ => []
  end.

(** No request overtakes an earlier one to the same QP: once one is put back,
    or [defer] already holds one, those after it are too. *)
Definition in_order (defer : list dp_inmsg) (flags : list bool) (msgs : list dp_inmsg) : Prop :=
  forall j m, msgs !! j = Some m -> inmsg_is_response m = false ->
    (exists d, d ∈ defer /\ inmsg_dst_qp d = inmsg_dst_qp m) \/
    (exists i m', (i < j)%nat /\ msgs !! i = Some m' /\ flags !! i = Some false /\
       inmsg_dst_qp m' = inmsg_dst_qp m) ->
    flags !! j = Some false.

Lemma in_order_cons_false defer m m' flags msgs :
  same_msg m m' -> in_order (defer ++ [m']) flags msgs -> in_order defer (false :: flags) (m :: msgs).
Proof.
  intros [_ Hb] Ho j x Hx Hr Hc. destruct j as [|j]; [done|]. cbn in *. apply (Ho j x Hx Hr).
  destruct Hc as [(d & Hd & Hq)|(i & y & Hi & Hy & Hf & Hq)].
  - left. exists d. split; [set_solver|done].
  - destruct i as [|i]; cbn in *.
    + left. simplify_eq. exists m'. split; [set_solver|]. by rewrite <-Hq; unfold inmsg_dst_qp; rewrite Hb.
    + right. exists i, y. split_and!; [lia|done..].
Qed.

Lemma in_order_cons_true defer m flags msgs :
  blocked_by defer m = false -> in_order defer flags msgs -> in_order defer (true :: flags) (m :: msgs).
Proof.
  intros Hb Ho j x Hx Hr Hc. destruct j as [|j]; cbn in *.
  - simplify_eq. exfalso. destruct Hc as [(d & Hd & Hq)|(i & ? & ? & _)]; [|lia].
    unfold blocked_by in Hb. rewrite Hr in Hb. cbn in Hb.
    assert (existsb (fun d => inmsg_dst_qp d =? inmsg_dst_qp x) defer = true) as He; [|congruence].
    apply existsb_exists. exists d. split; [by apply list_elem_of_In|by apply Z.eqb_eq].
  - apply (Ho j x Hx Hr). destruct Hc as [?|(i & y & Hi & Hy & Hf & Hq)]; [by left|].
    destruct i as [|i]; cbn in *; [done|]. right. exists i, y. split_and!; [lia|done..].
Qed.

Section pass.
Context {E : Env}.

Definition pass_post (defer msgs : list dp_inmsg) (n b : Z) (r : list dp_inmsg * Z * Z) : Prop :=
  exists flags kept, length flags = length msgs /\ r.1.1 = defer ++ kept /\
    Forall2 same_msg (kept_of flags msgs) kept /\ in_order defer flags msgs /\
    n <= r.1.2 /\ r.1.2 - n + Z.of_nat (length kept) = Z.of_nat (length msgs) /\
    b <= r.2 /\ r.2 - b + sum_len kept = sum_len msgs.

Lemma pass_post_kept defer m m' msgs n b r :
  same_msg m m' -> pass_post (defer ++ [m']) msgs n b r -> pass_post defer (m :: msgs) n b r.
Proof.
  intros Hm (flags & kept & Hl & Hr & Hk & Ho & Hn0 & Hn & Hb0 & Hb). exists (false :: flags), (m' :: kept).
  assert (im_len m' = im_len m) as Hlen by (unfold im_len; by rewrite (proj2 Hm)).
  split_and!.
  - cbn. by rewrite Hl.
  - by rewrite Hr, <-app_assoc.
  - cbn. by constructor.
  - by apply (in_order_cons_false _ _ m').
  - done.
  - cbn [length]. lia.
  - done.
  - change (sum_len (m' :: kept)) with (im_len m' + sum_len kept).
    change (sum_len (m :: msgs)) with (im_len m + sum_len msgs). lia.
Qed.

Lemma pass_post_done defer m msgs n b r :
  blocked_by defer m = false -> pass_post defer msgs (n + 1) (b + im_len m) r ->
  pass_post defer (m :: msgs) n b r.
Proof.
  intros Hm (flags & kept & Hl & Hr & Hk & Ho & Hn0 & Hn & Hb0 & Hb). exists (true :: flags), kept. split_and!; try done.
  - cbn. by rewrite Hl.
  - by apply in_order_cons_true.
  - lia.
  - cbn [length]. lia.
  - unfold im_len in Hb0. lia.
  - change (sum_len (m :: msgs)) with (im_len m + sum_len msgs). lia.
Qed.

Lemma poll_pass_spec now g msgs defer n b s :
  pass_post defer msgs n b (poll_pass now g msgs defer n b s).1.
Proof.
  revert defer n b s. induction msgs as [|m msgs IH]; intros defer n b s; cbn [poll_pass].
  { exists [], []. cbn. rewrite app_nil_r. split_and!; try done; lia. }
  destruct (blocked_by defer m) eqn:Hbl; [by apply (pass_post_kept _ _ m), IH|].
  set (m' := if im_first_try_ms m =? 0 then _ else _).
  assert (same_msg m m' /\ im_len m' = im_len m) as [Hm Hlen] by (subst m'; by case_match).
  cbn zeta. rewrite run_bind. destruct (dp_handle_wire _ _ _ s) as [ok s1]. cbn [fst snd]. destruct ok.
  - rewrite Hlen. by apply pass_post_done, IH.
  - rewrite !run_bind. apply (pass_post_kept _ _ (m' <| im_rnr_counted := true |>)); [by destruct Hm|apply IH].
Qed.
End pass.

Section poll_rx.
Context {E : Env} {T : Targets} {TL : TargetsLaws} {ML : GuestMemLaws Mem}.

Lemma kept_of_ok flags msgs : Forall msg_ok msgs -> Forall msg_ok (kept_of flags msgs).
Proof.
  intros H. revert flags. induction H as [|m msgs Hm Hms IH]; intros [|[] flags]; cbn; try constructor; auto.
Qed.

Lemma same_msgs_ok l l' : Forall2 same_msg l l' -> Forall msg_ok l -> Forall msg_ok l'.
Proof.
  induction 1 as [|m m' l l' [_ Hb] Hl IH]; intros Hok; [done|]. apply list.Forall_cons in Hok as [[? ?] ?].
  constructor; [|by apply IH]. unfold msg_ok, im_len in *. by rewrite Hb.
Qed.

Lemma poll_take_rx now s :
  rx_inv s -> rx_inv_with (poll_take now s).1.1 (poll_take now s).2.
Proof.
  intros [Hm Hb Hmm Hbm _ Hq]. unfold poll_take. run. split; cbn; try done.
  - rewrite Nat.add_0_r. done.
  - rewrite Hb. unfold sum_len. cbn. lia.
Qed.

Lemma note_crowding_rx held k b now : keeps (preserves (rx_inv_with held)) (dp_rx_note_crowding k b now).
Proof.
  unfold dp_rx_note_crowding. eapply (keeps_bind _); [|intros _]; intros s [? ? ? ? ? ?]; unfold modify; cbn;
    repeat case_match; by split.
Qed.

Lemma poll_put_back_rx now held kept n b s :
  rx_inv_with held s -> Forall msg_ok kept -> n + Z.of_nat (length kept) = Z.of_nat (length held) ->
  0 <= n -> b + sum_len kept = sum_len held -> 0 <= b ->
  rx_inv (poll_put_back now kept n b s).2.
Proof.
  intros [Hm Hb Hmm Hbm Hh Hq] Hk Hn Hn0 Hbb Hb0. unfold poll_put_back. rewrite !run_bind, run_modify. cbn [snd].
  match goal with |- context [dp_rx_note_crowding ?k ?kb now ?st] => set (s1 := st) end.
  assert (rx_inv s1) as H1.
  { pose proof (sum_len_nonneg kept). pose proof (sum_len_nonneg (dp_rx_queue s)). pose proof (sum_len_nonneg held).
    unfold DP_RX_MAX_MSGS, DP_RX_MAX_BYTES, ERNIC_MESH_MAX_MSG in *.
    subst s1. split; cbn -[sum_len]; rewrite ?length_app, ?sum_len_app, ?wrap_id by (unfold fits; lia);
      unfold DP_RX_MAX_MSGS, DP_RX_MAX_BYTES, ERNIC_MESH_MAX_MSG; try done; try lia.
    - change (sum_len []) with 0. lia.
    - by apply Forall_app_2. }
  clearbody s1. apply (note_crowding_rx [] (Z.of_nat (length kept)) (sum_len kept) now) in H1.
  destruct (dp_rx_note_crowding _ _ _ s1) as [u s2]. cbn [snd] in *. destruct H1 as [? ? ? ? ? ?]. by split.
Qed.

Lemma s3_frame_hint : keeps (frame target_flds) ionic_dp_s3_poll.
Proof. exact s3_frame. Qed.
Hint Resolve s3_frame_hint : frame.
Hint Resolve dep_rx mesh_recv_rx : inv.

Lemma poll_rx arrivals : Forall (fun a => bytes_ok a.2) arrivals -> keeps (preserves rx_inv) (ionic_datapath_poll arrivals).
Proof.
  intros Harr s Hs. unfold ionic_datapath_poll. rewrite run_bind.
  assert (keeps (preserves (rx_inv_with [])) ionic_dp_s3_poll) as H1 by inv_auto. apply (H1 s) in Hs. clear H1.
  destruct (ionic_dp_s3_poll s) as [u s1]. cbn [fst snd] in *. rewrite run_bind.
  assert (keeps (preserves (rx_inv_with [])) ionic_dp_now_ms) as H1 by inv_auto. apply (H1 s1) in Hs. clear H1.
  destruct (ionic_dp_now_ms s1) as [now s2]. cbn [fst snd] in *. rewrite run_bind.
  apply (poll_take_rx now) in Hs. destruct (poll_take now s2) as [[msgs g] s3]. cbn [fst snd] in *. rewrite run_bind.
  assert (keeps (preserves (rx_inv_with msgs)) (for_each arrivals (fun a => _ ← dp_mesh_recv a.1 a.2; mret tt))) as H1.
  { apply (keeps_for_each _). intros a Ha. apply (list.Forall_forall _ arrivals) with (x := a) in Harr; [|done]. inv_auto. }
  apply (H1 s3) in Hs. clear H1. destruct (for_each _ _ s3) as [u3 s4]. cbn [snd] in *. rewrite run_bind.
  pose proof (rx_held_ok _ _ Hs) as Hok. pose proof (poll_pass_spec now g msgs [] 0 0 s4) as (flags & kept & Hl & Hr & Hk & _ & Hn0 & Hn & Hb0 & Hb).
  assert (keeps (preserves (rx_inv_with msgs)) (poll_pass now g msgs [] 0 0)) as H1 by inv_auto.
  apply (H1 s4) in Hs. clear H1. destruct (poll_pass now g msgs [] 0 0 s4) as [[[defer n] b] s5].
  cbn [fst snd app] in *. subst defer. rewrite run_bind.
  apply (poll_put_back_rx now msgs kept n b) in Hs; try lia.
  2: { eapply same_msgs_ok; [exact Hk|]. by apply kept_of_ok. }
  destruct (poll_put_back now kept n b s5) as [u5 s6]. cbn [snd] in *.
  match goal with |- rx_inv (?m s6).2 => assert (keeps (preserves (rx_inv_with [])) m) as H1 by inv_auto; by apply H1 end.
Qed.
End poll_rx.
