(* ===== verification/DpReg.v ===== *)
(** * Registration, doorbells and reset

    What the admin queue and the BAR call: registering and unregistering the
    CQs, QPs, SRQs and address handles, connecting a QP, the doorbell handler,
    the RDMA counters, and the reset that forgets everything. *)
From S2P Require Export DpMesh.

(** ** Doorbell values (ionic_bar.h) *)
Definition IONIC_DB_RING_SHIFT : Z := 16.
Definition IONIC_DB_QID_LO_SHIFT : Z := 24.
Definition IONIC_DB_QID_HI_SHIFT : Z := 32.
Definition ionic_db_p_index (db : Z) : Z := u16 (Z.land db 0xffff).
Definition ionic_db_ring (db : Z) : Z := u8 (Z.land (Z.shiftr db IONIC_DB_RING_SHIFT) 0xff).
Definition ionic_db_qid (db : Z) : Z :=
  u32 (Z.lor (Z.land (Z.shiftr db IONIC_DB_QID_LO_SHIFT) 0xff)
         (Z.shiftl (Z.land (Z.shiftr db IONIC_DB_QID_HI_SHIFT) 0xffff) 8)).

Definition DP_DB_RING_SRQ : Z := 3.
Definition IONIC_DP_DEVICE : Z := UINT32_MAX.

(** The new producer index, or [None] for an index the ring has no slot for. *)
Definition rq_prod_advance (prod depth p_index : Z) : option Z :=
  if (depth =? 0) || (depth <=? p_index) then None
  else Some (u32 (prod + Z.land (u32 (p_index - prod mod depth)) (depth - 1))).

Section reg.
Context {E : Env} {T : Targets}.

(** ** Completion queues *)
Definition ionic_datapath_register_cq (cq_id eq_id : Z) (ring : ionic_dp_ring_desc) : DP Z :=
  count ← gets dp_cq_count;
  if (count : Z) <=? cq_id then mret (- EINVAL)
  else
    let stride_log2 := ionic_dp_cq_stride_log2 ring in
    if negb (ionic_dp_ring_geometry_ok (rd_depth_log2 ring) stride_log2
               IONIC_CQ_MIN_STRIDE_LOG2 IONIC_RING_MAX_STRIDE_LOG2) then
      upd_cq cq_id (fun c => c <| c_buf ::= ionic_dp_buf_release |> <| c_valid := false |>) ;;
      mret (- EINVAL)
    else
      r ← ionic_dp_buf_init (rd_buf ring) 0 (ionic_dp_ring_span_bytes (rd_depth_log2 ring) stride_log2);
      let '(rc, b) := r : Z * dp_buf in
      upd_cq cq_id (fun c => c <| c_buf := b |>) ;;
      if rc <? 0 then upd_cq cq_id (fun c => c <| c_valid := false |>) ;; mret rc
      else
        upd_cq cq_id (fun c => c <| c_depth := Z.shiftl 1 (rd_depth_log2 ring) |>
          <| c_stride_log2 := stride_log2 |> <| c_prod := 0 |> <| c_cons := 0 |> <| c_color := true |>
          <| c_armed := false |> <| c_eq_id := eq_id |> <| c_valid := true |>) ;;
        mret 0.

Definition ionic_datapath_unregister_cq (cq_id : Z) : DP unit :=
  count ← gets dp_cq_count;
  if (count : Z) <=? cq_id then mret tt
  else upd_cq cq_id (fun c => c <| c_buf ::= ionic_dp_buf_release |> <| c_valid := false |>).

(** ** Queue pairs *)
Definition ionic_datapath_unregister_qp (qp_id : Z) : DP unit :=
  count ← gets dp_qp_count;
  if (count : Z) <=? qp_id then mret tt
  else
    ionic_dp_nvmeof_drop_qp qp_id ;;
    _ ← pending_cancel_qp qp_id;
    sq_stall_clear qp_id ;;
    upd_qp qp_id (fun q => q <| q_sq_buf ::= ionic_dp_buf_release |>
                             <| q_rq_buf ::= ionic_dp_buf_release |> <| q_valid := false |>).

Definition ionic_datapath_register_qp (qp_id ib_qp_type sq_cq_id : Z) (sq : ionic_dp_ring_desc)
    (rq_cq_id : Z) (rq : ionic_dp_ring_desc) : DP Z :=
  count ← gets dp_qp_count;
  if (count : Z) <=? qp_id then mret (- EINVAL)
  else if negb (ionic_dp_ring_geometry_ok (rd_depth_log2 sq) (rd_stride_log2 sq)
                  IONIC_WQE_MIN_STRIDE_LOG2 IONIC_WQE_MAX_STRIDE_LOG2) ||
          negb (ionic_dp_ring_geometry_ok (rd_depth_log2 rq) (rd_stride_log2 rq)
                  0 IONIC_WQE_MAX_STRIDE_LOG2) then mret (- EINVAL)
  else
    r ← ionic_dp_buf_init (rd_buf sq) 0 (ionic_dp_ring_span_bytes (rd_depth_log2 sq) (rd_stride_log2 sq));
    let '(rc, sb) := r : Z * dp_buf in
    upd_qp qp_id (fun q => q <| q_sq_buf := sb |>) ;;
    rc ← (if rc =? 0 then
            r ← ionic_dp_buf_init (rd_buf rq) 0 (ionic_dp_ring_span_bytes (rd_depth_log2 rq) (rd_stride_log2 rq));
            let '(rc, rb) := r : Z * dp_buf in
            upd_qp qp_id (fun q => q <| q_rq_buf := rb |>) ;; mret rc
          else mret rc);
    if (rc : Z) <? 0 then ionic_datapath_unregister_qp qp_id ;; mret rc
    else
      upd_qp qp_id (fun q => q <| q_ib_qp_type := ib_qp_type |>
        <| q_sq_depth := Z.shiftl 1 (rd_depth_log2 sq) |> <| q_rq_depth := Z.shiftl 1 (rd_depth_log2 rq) |>
        <| q_sq_stride_log2 := rd_stride_log2 sq |> <| q_rq_stride_log2 := rd_stride_log2 rq |>
        <| q_sq_cq_id := sq_cq_id |> <| q_rq_cq_id := rq_cq_id |>) ;;
      sq_stall_clear qp_id ;;
      upd_qp qp_id (fun q => q <| q_sq_cons := 0 |> <| q_sq_prod := 0 |> <| q_rq_prod := 0 |>
                               <| q_rq_cons := 0 |> <| q_msn := 0 |>) ;;
      _ ← pending_cancel_qp qp_id;
      modify (fun s => s <| dp_next_mesh_id ::= fun n => u32 (n + 1) |>) ;;
      mesh_id ← gets dp_next_mesh_id;
      upd_qp qp_id (fun q => q <| q_mesh_id := mesh_id |> <| q_dest_valid := false |>
        <| q_dest_node_id := UINT32_MAX |> <| q_has_srq := false |> <| q_srq_id := 0 |>
        <| q_rdma := no_counts |> <| q_valid := true |>) ;;
      mret 0.

Definition ionic_datapath_set_qkey (qp_id qkey : Z) : DP unit :=
  live ← gets (live_qp qp_id);
  if live : bool then upd_qp qp_id (fun q => q <| q_qkey := qkey |> <| q_qkey_valid := true |>) else mret tt.

Definition ionic_datapath_set_dest (qp_id dest_qp_id dest_node_id : Z) : DP unit :=
  live ← gets (live_qp qp_id);
  if live : bool then
    upd_qp qp_id (fun q => q <| q_dest_qp_id := dest_qp_id |> <| q_dest_node_id := dest_node_id |>
                             <| q_dest_valid := true |>)
  else mret tt.

(** ** Shared receive queues *)
Definition srq_by_qid (srq_qid : Z) (s : ionic_datapath) : option Z :=
  if srq_qid <? IONIC_SRQ_QID_BASE then None
  else let idx := srq_qid - IONIC_SRQ_QID_BASE in
       if dp_srq_count s <=? idx then None else Some idx.

Definition ionic_datapath_register_srq (srq_id : Z) (rq : ionic_dp_ring_desc) : DP Z :=
  sr ← gets (srq_by_qid srq_id);
  match sr with
  | None => mret (- EINVAL)
  | Some i =>
      if (IONIC_SRQ_MAX_DEPTH_LOG2 <? rd_depth_log2 rq) || (IONIC_SRQ_MAX_STRIDE_LOG2 <? rd_stride_log2 rq) ||
         (rd_stride_log2 rq <? IONIC_SRQ_MIN_STRIDE_LOG2) then mret (- EINVAL)
      else
        upd_srq i (fun r => if sr_valid r then r <| sr_buf ::= ionic_dp_buf_release |> <| sr_valid := false |>
                            else r) ;;
        r ← ionic_dp_buf_init (rd_buf rq) 0 (ionic_dp_ring_span_bytes (rd_depth_log2 rq) (rd_stride_log2 rq));
        let '(rc, b) := r : Z * dp_buf in
        upd_srq i (fun r => r <| sr_buf := b |>) ;;
        if rc <? 0 then mret (- EIO)
        else
          upd_srq i (fun r => r <| sr_depth := Z.shiftl 1 (rd_depth_log2 rq) |>
            <| sr_stride_log2 := rd_stride_log2 rq |> <| sr_prod := 0 |> <| sr_cons := 0 |>
            <| sr_valid := true |>) ;;
          mret 0
  end.

Definition ionic_datapath_unregister_srq (srq_id : Z) : DP unit :=
  sr ← gets (srq_by_qid srq_id);
  match sr with
  | None => mret tt
  | Some i =>
      upd_srq i (fun r => if sr_valid r then
        r <| sr_valid := false |> <| sr_buf ::= ionic_dp_buf_release |> <| sr_depth := 0 |>
          <| sr_stride_log2 := 0 |> <| sr_prod := 0 |> <| sr_cons := 0 |> else r)
  end.

Definition ionic_datapath_bind_qp_srq (qp_id srq_id : Z) : DP unit :=
  ok ← gets (fun s => (qp_id <? dp_qp_count s) && bool_decide (is_Some (srq_by_qid srq_id s)));
  if ok : bool then
    upd_qp qp_id (fun q => q <| q_has_srq := true |> <| q_srq_id := srq_id - IONIC_SRQ_QID_BASE |>)
  else mret tt.
End reg.

Section reg2.
Context {E : Env} {T : Targets}.

(** ** Address handles; [None] is a NULL pointer. *)
Definition upd_ah (i : Z) (f : ionic_ah -> ionic_ah) : DP unit :=
  modify (fun s => s <| dp_ah := <[i := f (ah_at i s)]> (dp_ah s) |>).

Definition ionic_datapath_register_ah (ah_id : Z) (dgid sgid dmac : option (list Z)) : DP unit :=
  count ← gets dp_ah_count;
  if (count : Z) <=? ah_id then mret tt
  else upd_ah ah_id (fun _ =>
    Ah true (default (zeros 16) dgid) (bool_decide (is_Some dgid))
      (default (zeros 16) sgid) (bool_decide (is_Some sgid)) (default (zeros 6) dmac)).

Definition ionic_datapath_unregister_ah (ah_id : Z) : DP unit :=
  count ← gets dp_ah_count;
  if (count : Z) <=? ah_id then mret tt else upd_ah ah_id (fun _ => inhabitant).

(** ** Configuration *)
Definition ionic_datapath_set_pvrdma (handle : option (option MeshSt)) : DP unit :=
  modify (fun s => s <| dp_pvrdma_handle := handle |>) ;;
  match handle with
  | None => mret tt
  | Some _ => modify (fun s => s <| dp_local_node := ernic_mesh_local_node s |>)
  end.

Definition ionic_datapath_set_cq_event_cb (fn : option (ionic_dp_cq_event_fn_t E)) : DP unit :=
  modify (fun s => s <| dp_cq_event_fn := fn |>).

(** ** Doorbells *)
Definition srq_doorbell (qid p_index : Z) : DP unit :=
  sr ← gets (srq_by_qid qid);
  match sr with
  | None => mret tt
  | Some i =>
      upd_srq i (fun r =>
        if sr_valid r then
          match rq_prod_advance (sr_prod r) (sr_depth r) p_index with
          | Some prod => r <| sr_prod := prod |>
          | None => r
          end
        else r)
  end.

Definition cq_doorbell (ring qid p_index : Z) : DP unit :=
  live ← gets (fun s => (qid <? dp_cq_count s) && c_valid (cq_at qid s));
  if negb (live : bool) then mret tt
  else if ring =? 0 then upd_cq qid (fun c => c <| c_cons := p_index mod c_depth c |>)
  else if (ring =? 1) || (ring =? 2) then
    upd_cq qid (fun c => c <| c_armed := true |>) ;;
    c ← gets (cq_at qid);
    if negb (c_prod c mod c_depth c =? c_cons c) then cq_fire_event qid else mret tt
  else mret tt.

Definition rq_doorbell (qid p_index : Z) : DP unit :=
  live ← gets (live_qp qid);
  q ← gets (qp_at qid);
  match rq_prod_advance (q_rq_prod q) (q_rq_depth q) p_index with
  | Some prod =>
      if live : bool then
        upd_qp qid (fun q => q <| q_rq_prod := prod |>) ;; stat (StatQpDoorbell qid false)
      else mret tt
  | None => mret tt
  end.

Definition ionic_datapath_doorbell (qtype db : Z) : DP unit :=
  let p_index := ionic_db_p_index db in
  let ring := ionic_db_ring db in
  let qid := ionic_db_qid db in
  if qtype =? DP_QTYPE_CQ then
    if ring =? DP_DB_RING_SRQ then srq_doorbell qid p_index else cq_doorbell ring qid p_index
  else if qtype =? DP_QTYPE_RQ then
    if IONIC_SRQ_QID_BASE <=? qid then srq_doorbell qid p_index else rq_doorbell qid p_index
  else if qtype =? DP_QTYPE_SQ then
    live ← gets (live_qp qid);
    if negb (live : bool) then mret tt
    else
      stat (StatQpDoorbell qid true) ;;
      upd_qp qid (fun q => q <| q_sq_prod := p_index mod q_sq_depth q |>) ;;
      sq_service qid
  else mret tt.

(** ** RDMA counters *)
Definition ionic_datapath_rdma_counters (qp_id : Z) (s : ionic_datapath) : rdma_counts :=
  if qp_id =? IONIC_DP_DEVICE then dp_rdma s
  else if live_qp qp_id s then q_rdma (qp_at qp_id s)
  else no_counts.

Definition ionic_datapath_reset_rdma_counters : DP unit :=
  modify (fun s => s <| dp_rdma := no_counts |>) ;;
  count ← gets dp_qp_count;
  for_each (seqZ 0 count) (fun i => upd_qp i (fun q => q <| q_rdma := no_counts |>)).

(** ** Reset *)
Definition ionic_datapath_reset_rdma : DP unit :=
  nqp ← gets dp_qp_count;
  for_each (seqZ 0 nqp) (fun i =>
    v ← gets (fun s => q_valid (qp_at i s));
    if v : bool then ionic_datapath_unregister_qp i else mret tt) ;;
  nsrq ← gets dp_srq_count;
  for_each (seqZ 0 nsrq) (fun i => ionic_datapath_unregister_srq (IONIC_SRQ_QID_BASE + i)) ;;
  ncq ← gets dp_cq_count;
  for_each (seqZ 0 ncq) (fun i =>
    v ← gets (fun s => c_valid (cq_at i s));
    if v : bool then ionic_datapath_unregister_cq i else mret tt) ;;
  nah ← gets dp_ah_count;
  for_each (seqZ 0 nah) (fun i => ionic_datapath_unregister_ah i) ;;
  for_each (seqZ 0 ERNIC_MAX_MR) (fun i =>
    v ← gets (fun s => mr_valid (mr_at i s));
    if v : bool then upd_mr i dp_mr_unbind else mret tt).
End reg2.

(** ** Frames *)
Section reg_frames.
Context {E : Env} {T : Targets} {TL : TargetsLaws}.

Hint Resolve drop_qp_frame : frame.
Lemma register_cq_frame c e r : keeps (frame [FCq; FCalls]) (ionic_datapath_register_cq c e r).
Proof. unfold ionic_datapath_register_cq. frame_auto. Qed.
Lemma unregister_cq_frame c : keeps (frame [FCq]) (ionic_datapath_unregister_cq c).
Proof. unfold ionic_datapath_unregister_cq. frame_auto. Qed.
Definition unreg_flds : list fld := [FDev; FPend; FQp; FStall].
Lemma unregister_qp_frame q : keeps (frame unreg_flds) (ionic_datapath_unregister_qp q).
Proof. unfold ionic_datapath_unregister_qp. frame_auto. Qed.
Lemma next_mesh_frame f : keeps (frame [FMeshId]) (modify (fun s => s <| dp_next_mesh_id ::= f |>)).
Proof. frame_prim. Qed.
Hint Resolve unregister_qp_frame next_mesh_frame : frame.
Definition reg_flds : list fld := FCalls :: FMeshId :: unreg_flds.
Lemma register_qp_frame q ty sc sq rc rq : keeps (frame reg_flds) (ionic_datapath_register_qp q ty sc sq rc rq).
Proof. unfold ionic_datapath_register_qp. frame_auto. Qed.
Lemma set_qkey_frame q k : keeps (frame [FQp]) (ionic_datapath_set_qkey q k).
Proof. unfold ionic_datapath_set_qkey. frame_auto. Qed.
Lemma set_dest_frame q d n : keeps (frame [FQp]) (ionic_datapath_set_dest q d n).
Proof. unfold ionic_datapath_set_dest. frame_auto. Qed.
Lemma register_srq_frame i r : keeps (frame [FSrq; FCalls]) (ionic_datapath_register_srq i r).
Proof. unfold ionic_datapath_register_srq. frame_auto. Qed.
Lemma unregister_srq_frame i : keeps (frame [FSrq]) (ionic_datapath_unregister_srq i).
Proof. unfold ionic_datapath_unregister_srq. frame_auto. Qed.
Lemma bind_qp_srq_frame q i : keeps (frame [FQp]) (ionic_datapath_bind_qp_srq q i).
Proof. unfold ionic_datapath_bind_qp_srq. frame_auto. Qed.
Lemma upd_ah_frame i f : keeps (frame [FAh]) (upd_ah i f).
Proof. frame_prim. Qed.
Hint Resolve upd_ah_frame : frame.
Lemma register_ah_frame i d s m : keeps (frame [FAh]) (ionic_datapath_register_ah i d s m).
Proof. unfold ionic_datapath_register_ah. frame_auto. Qed.
Lemma unregister_ah_frame i : keeps (frame [FAh]) (ionic_datapath_unregister_ah i).
Proof. unfold ionic_datapath_unregister_ah. frame_auto. Qed.
Lemma srq_doorbell_frame q p : keeps (frame [FSrq]) (srq_doorbell q p).
Proof. unfold srq_doorbell. frame_auto. Qed.
Lemma cq_doorbell_frame r q p : keeps (frame [FMem; FDev; FCq]) (cq_doorbell r q p).
Proof. unfold cq_doorbell. frame_auto. Qed.
Lemma rq_doorbell_frame q p : keeps (frame [FQp; FStats]) (rq_doorbell q p).
Proof. unfold rq_doorbell. frame_auto. Qed.
Hint Resolve srq_doorbell_frame cq_doorbell_frame rq_doorbell_frame : frame.
Lemma doorbell_frame t db : keeps (frame wqe_flds) (ionic_datapath_doorbell t db).
Proof. unfold ionic_datapath_doorbell. frame_auto. Qed.
Lemma set_rdma_to_frame v : keeps (frame [FRdma]) (modify (fun s => s <| dp_rdma := v |>)).
Proof. frame_prim. Qed.
Hint Resolve set_rdma_to_frame : frame.
Lemma reset_counters_frame : keeps (frame [FRdma; FQp]) ionic_datapath_reset_rdma_counters.
Proof. unfold ionic_datapath_reset_rdma_counters. frame_auto. Qed.
End reg_frames.
#[export] Hint Resolve drop_qp_frame register_cq_frame unregister_cq_frame unregister_qp_frame next_mesh_frame
  register_qp_frame set_qkey_frame set_dest_frame register_srq_frame unregister_srq_frame bind_qp_srq_frame
  upd_ah_frame register_ah_frame unregister_ah_frame srq_doorbell_frame cq_doorbell_frame rq_doorbell_frame
  doorbell_frame set_rdma_to_frame reset_counters_frame : frame.
Section reset_frame.
Context {E : Env} {T : Targets} {TL : TargetsLaws}.
Lemma reset_rdma_frame : keeps (frame (FSrq :: FCq :: FAh :: FMr :: unreg_flds)) ionic_datapath_reset_rdma.
Proof. unfold ionic_datapath_reset_rdma. frame_auto. Qed.
End reset_frame.
#[export] Hint Resolve reset_rdma_frame : frame.
