(* ===== verification/DpTop.v ===== *)
(** * The data path as a whole

    The operations the rest of the device calls, as one step relation from
    the state ionic_datapath_create() makes, with the guest free to change
    its own memory in between, and the invariant of every state it reaches. *)
From S2P Require Export DpReg.

Definition ring_desc_ok (r : ionic_dp_ring_desc) : Prop :=
  desc_ok (rd_buf r) /\ fits 8 (rd_depth_log2 r) /\ fits 8 (rd_stride_log2 r).

Lemma span_fits d st : fits 8 d -> fits 8 st -> fits 64 (ionic_dp_ring_span_bytes d st).
Proof.
  unfold fits, ionic_dp_ring_span_bytes. intros Hd Hs. destruct (64 <=? d + st) eqn:Ht; bdestr; [lia|].
  rewrite Z.shiftl_mul_pow2, Z.mul_1_l by lia. split; [lia|apply Z.pow_lt_mono_r; lia].
Qed.

Section reg_wf.
Context {E : Env} {T : Targets} {TL : TargetsLaws} {ML : GuestMemLaws Mem}.

Lemma buf_init_wf desc va span s :
  desc_ok desc -> fits 64 span -> buf_wf (ionic_dp_buf_init desc va span s).1.2.
Proof.
  intros Hd Hs. destruct (buf_init_cases desc va span s Hd Hs) as [(_ & Hp & Hn & Hb)|[_ Hp]].
  - unfold buf_wf. rewrite Hp, Hb, Hn. split; [by unfold fits|lia].
  - by eapply buf_init_post_wf.
Qed.

(** Initialising a ring's buffer, then using it in an update. *)
Lemma buf_init_rings {A} desc span (k : Z * dp_buf -> DP A) :
  desc_ok desc -> fits 64 span -> (forall rc b, buf_wf b -> keeps (preserves rings_wf) (k (rc, b))) ->
  keeps (preserves rings_wf) (ionic_dp_buf_init desc 0 span ≫= k).
Proof.
  intros Hd Hs Hk s Hr. rewrite run_bind. pose proof (buf_init_wf desc 0 span s Hd Hs) as Hb.
  assert (keeps (preserves rings_wf) (ionic_dp_buf_init desc 0 span)) as Hi by inv_auto. apply Hi in Hr.
  destruct (ionic_dp_buf_init desc 0 span s) as [[rc b] s1]. by apply Hk.
Qed.

Lemma shl1_fits d : 0 <= d <= 24 -> fits 32 (Z.shiftl 1 d).
Proof.
  intros Hd. unfold fits. rewrite Z.shiftl_mul_pow2, Z.mul_1_l by lia.
  assert (2 ^ d <= 2 ^ 24) by (apply Z.pow_le_mono_r; lia). lia.
Qed.

Ltac qp_upd := apply upd_qp_rings; intros ? ([] & [] & ?); split; [|split]; [split|split|]; cbn in *;
  try done; auto with bytes.

Lemma unregister_qp_rings q : keeps (preserves rings_wf) (ionic_datapath_unregister_qp q).
Proof. unfold ionic_datapath_unregister_qp. inv_auto. Qed.
Hint Resolve unregister_qp_rings : inv.

Lemma register_qp_rings q ty sc sq rc rq :
  ring_desc_ok sq -> ring_desc_ok rq -> keeps (preserves rings_wf) (ionic_datapath_register_qp q ty sc sq rc rq).
Proof.
  intros (Hsd & Hsde & Hsst) (Hrd & Hrde & Hrst). unfold ionic_datapath_register_qp.
  eapply (keeps_bind _); [inv_auto|]. intros n. destruct (n <=? q); [inv_auto|]. destruct (_ || _) eqn:Hg; [inv_auto|].
  apply orb_false_iff in Hg as [G1 G2]. unfold ionic_dp_ring_geometry_ok in *. bdestr.
  unfold IONIC_RING_MAX_DEPTH_LOG2, IONIC_WQE_MIN_STRIDE_LOG2, IONIC_WQE_MAX_STRIDE_LOG2 in *.
  apply buf_init_rings; [done|by apply span_fits|]. intros r sb Hsb. eapply (keeps_bind _); [qp_upd|]. intros _.
  eapply (keeps_bind _).
  { destruct (r =? 0); [|inv_auto]. apply buf_init_rings; [done|by apply span_fits|]. intros r' rb Hrb.
    eapply (keeps_bind _); [qp_upd|inv_auto]. }
  intros r'. unfold fits in Hsde, Hsst, Hrde, Hrst. destruct (r' <? 0); inv_auto; qp_upd;
    try (unfold IONIC_RING_MAX_STRIDE_LOG2; lia); apply shl1_fits; lia.
Qed.

Lemma register_srq_rings i rq : ring_desc_ok rq -> keeps (preserves rings_wf) (ionic_datapath_register_srq i rq).
Proof.
  intros (Hd & Hde & Hst). unfold ionic_datapath_register_srq. eapply (keeps_bind _); [inv_auto|]. intros [k|]; [|inv_auto].
  destruct (_ || _) eqn:Hg; [inv_auto|]. apply orb_false_iff in Hg as [Hg G3]. apply orb_false_iff in Hg as [G1 G2].
  bdestr. unfold IONIC_SRQ_MAX_DEPTH_LOG2, IONIC_SRQ_MAX_STRIDE_LOG2, IONIC_SRQ_MIN_STRIDE_LOG2 in *.
  eapply (keeps_bind _).
  { apply upd_srq_rings. intros r Hr. destruct (sr_valid r); [|done]. destruct Hr. by split. }
  intros _. apply buf_init_rings; [done|by apply span_fits|]. intros rc b Hb. eapply (keeps_bind _).
  { apply upd_srq_rings. intros r []. by split. }
  intros _. destruct (rc <? 0); [inv_auto|]. eapply (keeps_bind _); [|inv_auto].
  apply upd_srq_rings. intros r []. unfold fits in Hde, Hst.
  split; cbn; [done|unfold IONIC_RING_MAX_STRIDE_LOG2; lia|apply shl1_fits; lia|by unfold fits].
Qed.

Lemma unregister_srq_rings i : keeps (preserves rings_wf) (ionic_datapath_unregister_srq i).
Proof.
  unfold ionic_datapath_unregister_srq. inv_auto. apply upd_srq_rings. intros r Hr. destruct (sr_valid r); [|done].
  split; cbn; [apply buf_wf_empty|unfold IONIC_RING_MAX_STRIDE_LOG2; lia|by unfold fits|by unfold fits].
Qed.
Lemma srq_doorbell_rings q p : keeps (preserves rings_wf) (srq_doorbell q p).
Proof.
  unfold srq_doorbell. inv_auto. apply upd_srq_rings. intros r Hr. by repeat case_match.
Qed.
End reg_wf.

(** ** The operations *)
Inductive dp_op {E : Env} :=
  | OpRegisterCq (cq_id eq_id : Z) (ring : ionic_dp_ring_desc)
  | OpUnregisterCq (cq_id : Z)
  | OpRegisterQp (qp_id ib_qp_type sq_cq_id : Z) (sq : ionic_dp_ring_desc) (rq_cq_id : Z)
      (rq : ionic_dp_ring_desc)
  | OpUnregisterQp (qp_id : Z)
  | OpFlushQp (qp_id : Z)
  | OpRegisterSrq (srq_id : Z) (rq : ionic_dp_ring_desc)
  | OpUnregisterSrq (srq_id : Z)
  | OpBindQpSrq (qp_id srq_id : Z)
  | OpRegisterAh (ah_id : Z) (dgid sgid dmac : option (list Z))
  | OpUnregisterAh (ah_id : Z)
  | OpSetQkey (qp_id qkey : Z)
  | OpSetDest (qp_id dest_qp_id dest_node_id : Z)
  | OpRegisterMr (lkey va length : Z) (buf : ionic_dp_buf_desc)
  | OpUnregisterMr (lkey : Z)
  | OpDoorbell (qtype db : Z)
  | OpMeshRecv (src_node : Z) (buf : list Z)
  | OpPoll (arrivals : list (Z * list Z))
  | OpResetCounters
  | OpResetRdma
  | OpSetPvrdma (handle : option (option MeshSt))
  | OpSetCqEventCb (fn : option (ionic_dp_cq_event_fn_t E))
  | OpGuest (m : Mem) (dev : Dev)
  | OpStat (e : dp_stat)
  | OpNodeFromGid (gid : option (list Z)).

(** What the C types of the arguments say of them; a message is made of
    bytes. *)
Definition op_ok `{E : Env} (op : dp_op) : Prop :=
  match op with
  | OpRegisterCq _ _ r | OpRegisterSrq _ r => ring_desc_ok r
  | OpRegisterQp _ _ _ sq _ rq => ring_desc_ok sq /\ ring_desc_ok rq
  | OpRegisterMr _ va len buf => fits 64 va /\ fits 64 len /\ desc_ok buf
  | OpMeshRecv _ buf => bytes_ok buf
  | OpPoll arrivals => Forall (fun a => bytes_ok a.2) arrivals
  | _ => True
  end.

Section top.
Context {E : Env} {T : Targets}.

Definition void {A} (m : DP A) : DP unit := _ ← m; mret tt.

Definition run_op (op : dp_op) : DP unit :=
  match op with
  | OpRegisterCq c e r => void (ionic_datapath_register_cq c e r)
  | OpUnregisterCq c => ionic_datapath_unregister_cq c
  | OpRegisterQp q ty sc sq rc rq => void (ionic_datapath_register_qp q ty sc sq rc rq)
  | OpUnregisterQp q => ionic_datapath_unregister_qp q
  | OpFlushQp q => ionic_datapath_flush_qp q
  | OpRegisterSrq i r => void (ionic_datapath_register_srq i r)
  | OpUnregisterSrq i => ionic_datapath_unregister_srq i
  | OpBindQpSrq q i => ionic_datapath_bind_qp_srq q i
  | OpRegisterAh a d s m => ionic_datapath_register_ah a d s m
  | OpUnregisterAh a => ionic_datapath_unregister_ah a
  | OpSetQkey q k => ionic_datapath_set_qkey q k
  | OpSetDest q d n => ionic_datapath_set_dest q d n
  | OpRegisterMr k va len buf => void (ionic_datapath_register_mr k va len buf)
  | OpUnregisterMr k => ionic_datapath_unregister_mr k
  | OpDoorbell t db => ionic_datapath_doorbell t db
  | OpMeshRecv n buf => void (dp_mesh_recv n buf)
  | OpPoll arrivals => ionic_datapath_poll arrivals
  | OpResetCounters => ionic_datapath_reset_rdma_counters
  | OpResetRdma => ionic_datapath_reset_rdma
  | OpSetPvrdma h => ionic_datapath_set_pvrdma h
  | OpSetCqEventCb fn => ionic_datapath_set_cq_event_cb fn
  | OpGuest m dev => modify (fun s => s <| dp_mem := m |> <| dp_dev := dev |>)
  | OpStat e => stat e
  | OpNodeFromGid g => void (ionic_dp_node_from_gid g)
  end.

Inductive reachable : ionic_datapath -> Prop :=
  | reach_create m dev s : ionic_datapath_create m dev = Some s -> reachable s
  | reach_step s op : reachable s -> op_ok op -> reachable (run_op op s).2.

Record dp_inv (s : ionic_datapath) : Prop := {
  di_mrs : mrs_wf s;
  di_rings : rings_wf s;
  di_stall : stall_inv s;
  di_pend : pend_inv s;
  di_rx : rx_inv s;
}.
End top.

Section top_inv.
Context {E : Env} {T : Targets} {TL : TargetsLaws} {ML : GuestMemLaws Mem}.

Hint Resolve unregister_qp_rings unregister_srq_rings srq_doorbell_rings poll_stalled_stall s3_quiet s3_frame : inv.
Hint Resolve s3_quiet : quiet.
Hint Resolve s3_frame : frame.

(** The doorbell of a send queue runs it. *)
Lemma db_qid_nonneg db : 0 <= ionic_db_qid db.
Proof. apply wrap_fits. lia. Qed.

Lemma sq_prod_rings q p : 0 <= p < 2 ^ 16 ->
  keeps (preserves rings_wf) (upd_qp q (fun q => q <| q_sq_prod := p mod q_sq_depth q |>)).
Proof.
  intros Hp. apply upd_qp_rings. intros r ([] & [] & ?). split; [by split|]. split; [by split|]. cbn.
  unfold fits in *. apply mod_le_u32; lia.
Qed.

Lemma cq_doorbell_wf r q p : keeps (preserves send_wf) (cq_doorbell r q p).
Proof. apply send_wf_of; inv_auto. Qed.

Lemma doorbell_wf t db : keeps (preserves send_wf) (ionic_datapath_doorbell t db).
Proof.
  unfold ionic_datapath_doorbell. pose proof (wrap_fits 16 (Z.land db 0xffff) ltac:(lia)) as Hp.
  destruct (t =? DP_QTYPE_CQ).
  { destruct (_ =? _); [|apply cq_doorbell_wf]. apply send_wf_of; inv_auto. }
  destruct (t =? DP_QTYPE_RQ).
  { destruct (_ <=? _); [apply send_wf_of; inv_auto|]. apply send_wf_of; unfold rq_doorbell; inv_auto. }
  destruct (t =? DP_QTYPE_SQ); [|apply (keeps_ret _)].
  eapply (keeps_bind _); [apply (keeps_gets _)|]. intros live. destruct (negb live); [apply (keeps_ret _)|].
  eapply (keeps_bind _); [apply send_wf_of; inv_auto|]. intros _. eapply (keeps_bind _); [|intros _; apply sq_service_wf].
  apply send_wf_of; inv_auto. by apply sq_prod_rings.
Qed.

Lemma doorbell_stall t db : keeps (preserves stall_inv) (ionic_datapath_doorbell t db).
Proof.
  unfold ionic_datapath_doorbell.
  destruct (t =? DP_QTYPE_CQ); [inv_auto|]. destruct (t =? DP_QTYPE_RQ); [unfold rq_doorbell; inv_auto|].
  destruct (t =? DP_QTYPE_SQ); [|apply (keeps_ret _)]. apply keeps_gets_bind. intros s Hs.
  destruct (live_qp (ionic_db_qid db) s) eqn:Hl; [|done]. cbn [negb]. unfold live_qp in Hl. bdestr.
  set (q := ionic_db_qid db) in *.
  match goal with |- stall_inv (?m s).2 => assert (keeps (preserves (stall_inv_at q)) m) as Hk by inv_auto end.
  apply Hk. split; [done|]. split; [apply db_qid_nonneg|done].
Qed.

Lemma arrivals_wf arrivals I : depends [FMr] I \/ depends [FQp; FSrq] I \/ depends [FPend] I \/ depends [FQp; FStall; FCfg] I ->
  keeps (preserves I) (for_each arrivals (fun a : Z * list Z => _ ← dp_mesh_recv a.1 a.2; mret tt)).
Proof.
  intros HI. apply (keeps_for_each _). intros a _. eapply (keeps_bind _); [|intros _; apply (keeps_ret _)].
  destruct HI as [HI|[HI|[HI|HI]]]; (eapply frame_preserves; [exact HI|apply mesh_recv_frame|done]).
Qed.
Hint Extern 2 (keeps (preserves _) (for_each _ (fun a => _ ← dp_mesh_recv _ _; mret tt))) =>
  apply arrivals_wf; eauto 6 using dep_mrs, dep_rings, dep_pend, dep_stall : inv.

Lemma poll_wf arrivals : keeps (preserves send_wf) (ionic_datapath_poll arrivals).
Proof.
  unfold ionic_datapath_poll. eapply (keeps_bind _); [apply send_wf_of; inv_auto|]. intros _.
  eapply (keeps_bind _); [apply send_wf_of; inv_auto|]. intros now. eapply (keeps_bind _); [apply send_wf_of; inv_auto|].
  intros [msgs g]. eapply (keeps_bind _); [apply send_wf_of; inv_auto|]. intros _.
  eapply (keeps_bind _); [apply send_wf_of; inv_auto|]. intros [[d n] b].
  eapply (keeps_bind _); [apply send_wf_of; inv_auto|]. intros _.
  eapply (keeps_bind _); [apply poll_stalled_wf|]. intros _. apply send_wf_of; inv_auto.
Qed.

Lemma poll_stall arrivals : keeps (preserves stall_inv) (ionic_datapath_poll arrivals).
Proof. unfold ionic_datapath_poll. inv_auto. Qed.

Lemma register_qp_stall q ty sc sq rc rq : keeps (preserves stall_inv) (ionic_datapath_register_qp q ty sc sq rc rq).
Proof. unfold ionic_datapath_register_qp, ionic_datapath_unregister_qp. inv_auto. Qed.
Lemma unregister_qp_stall q : keeps (preserves stall_inv) (ionic_datapath_unregister_qp q).
Proof. unfold ionic_datapath_unregister_qp. inv_auto. Qed.
Lemma unregister_qp_pend q : keeps (preserves pend_inv) (ionic_datapath_unregister_qp q).
Proof. unfold ionic_datapath_unregister_qp. inv_auto. Qed.
Hint Resolve unregister_qp_stall unregister_qp_pend : inv.
Lemma register_qp_pend q ty sc sq rc rq : keeps (preserves pend_inv) (ionic_datapath_register_qp q ty sc sq rc rq).
Proof. unfold ionic_datapath_register_qp. inv_auto. Qed.
Hint Resolve register_qp_stall register_qp_pend register_qp_rings register_srq_rings register_mr_wf : inv.

Lemma mr_unbind_wf i : keeps (preserves mrs_wf) (upd_mr i dp_mr_unbind).
Proof. intros s Hs. apply mrs_wf_upd; [|done]. intros _. by apply mr_wf_invalid. Qed.
Hint Resolve mr_unbind_wf : inv.
Lemma reset_rdma_mrs : keeps (preserves mrs_wf) ionic_datapath_reset_rdma.
Proof. unfold ionic_datapath_reset_rdma. inv_auto. Qed.
Lemma reset_rdma_rings : keeps (preserves rings_wf) ionic_datapath_reset_rdma.
Proof. unfold ionic_datapath_reset_rdma. inv_auto. Qed.
Lemma reset_rdma_stall : keeps (preserves stall_inv) ionic_datapath_reset_rdma.
Proof. unfold ionic_datapath_reset_rdma. inv_auto. Qed.
Lemma reset_rdma_pend : keeps (preserves pend_inv) ionic_datapath_reset_rdma.
Proof. unfold ionic_datapath_reset_rdma. inv_auto. Qed.
Hint Resolve reset_rdma_mrs reset_rdma_rings reset_rdma_stall reset_rdma_pend : inv.

Lemma op_send_wf op : op_ok op -> keeps (preserves send_wf) (run_op op).
Proof.
  intros Hok. destruct op; cbn [run_op op_ok] in *; unfold void.
  15: apply doorbell_wf.
  16: apply poll_wf.
  all: try match type of Hok with ring_desc_ok _ /\ _ => destruct Hok as [? ?] end.
  all: try (apply send_wf_of; unfold ionic_datapath_set_qkey, ionic_datapath_set_dest,
    ionic_datapath_bind_qp_srq, ionic_datapath_reset_rdma_counters; solve [inv_auto]).
  - destruct Hok as (? & ? & ?). apply send_wf_of; inv_auto.
  - intros s (? & ? & []). unfold ionic_datapath_set_pvrdma. rewrite run_bind. destruct handle; split_and!; try done; by split.
  - intros s (? & ? & []). split_and!; try done; by split.
  - intros s (? & ? & []). split_and!; try done; by split.
Qed.

Lemma op_stall op : keeps (preserves stall_inv) (run_op op).
Proof.
  destruct op; cbn [run_op]; unfold void.
  15: apply doorbell_stall.
  16: apply poll_stall.
  all: try (unfold ionic_datapath_set_qkey, ionic_datapath_set_dest, ionic_datapath_bind_qp_srq,
    ionic_datapath_reset_rdma_counters; solve [inv_auto]).
  all: intros s []; try (unfold ionic_datapath_set_pvrdma; rewrite run_bind; destruct handle); by split.
Qed.

Lemma op_rx op : op_ok op -> keeps (preserves rx_inv) (run_op op).
Proof.
  intros Hok. destruct op; cbn [run_op op_ok] in *; unfold void.
  17: by apply poll_rx.
  16: { eapply (keeps_bind _); [by apply mesh_recv_rx|intros _; apply (keeps_ret _)]. }
  all: pose proof (dep_rx []) as Hd; fold rx_inv in Hd;
    try (eapply frame_preserves; [exact Hd|frame_auto|reflexivity]).
  all: try solve [eapply (keeps_bind _); [eapply frame_preserves; [exact Hd|solve [auto with frame]|reflexivity]|
    intros _; apply (keeps_ret _)]].
  all: intros s []; try (unfold ionic_datapath_set_pvrdma; rewrite run_bind; destruct handle); by split.
Qed.

Lemma create_inv m dev s : ionic_datapath_create m dev = Some s -> dp_inv s.
Proof.
  unfold ionic_datapath_create. destruct (forallb _ _); [|done]. intros [= <-].
  set (s0 := Dp _ _ _ _ _ _ _ _ _ _ _ _ _ _ _ _ _ _ _ _ _ _ _ _ _ _ _ _ _ _ _ _ _).
  assert (forall i, qp_at i s0 = inhabitant) as Hq by (intros i; apply lookup_total_empty).
  assert (forall i, srq_at i s0 = inhabitant) as Hr by (intros i; apply lookup_total_empty).
  assert (forall i, mr_at i s0 = inhabitant) as Hm by (intros i; apply lookup_total_empty).
  split.
  - intros slot. rewrite Hm. by apply mr_wf_invalid.
  - split; intros i; rewrite ?Hq, ?Hr; [split; [|split]|]; try split; done.
  - split; [done| |by intros i; rewrite Hq].
    transitivity (sumZ ((fun _ => 0) <$> seqZ 0 ERNIC_MAX_QP)); [by vm_compute|]. unfold stall_count.
    f_equal.
  - assert (dp_pending_tab s0 = replicate MAX_PENDING inhabitant) as Ht by done. clearbody s0. split.
    + by rewrite Ht, length_replicate.
    + rewrite Ht. apply Forall_replicate, pend_wf_zero.
    + intros node. rewrite reply_bytes_owed, Ht, fmap_replicate.
      assert (forall n, sumZ (replicate n (owed node inhabitant)) = 0) as Hz.
      { intros n. induction n as [|n IH]; [done|]. unfold sumZ in *. cbn in *. by rewrite IH. }
      by rewrite Hz.
  - by split.
Qed.

Lemma reachable_dp_inv s : reachable s -> dp_inv s.
Proof.
  induction 1 as [m dev s Hc|s op Hr [Hm Hri Hs Hp Hx] Hok]; [by eapply create_inv|].
  destruct (op_send_wf op Hok s) as (? & ? & ?); [done|].
  split; [done|done|by apply op_stall|done|by apply op_rx].
Qed.
End top_inv.
