(* ===== verification/DpHist.v ===== *)
(** * A history of the device

    The invariant of every state the data path reaches, and one concrete
    history that exercises it: a region, a completion queue and a queue pair
    connected to itself are registered, the guest posts a receive and a send,
    and the doorbells move the message. *)
From S2P Require Export DpTypes DpTop.

Ltac computes := vm_compute; reflexivity.
Ltac bytes_by_computation := apply (bool_decide_unpack (Forall (fits 8) _)); vm_compute; reflexivity.

Lemma sumZ_elem (f : Z -> Z) l i : (forall j, 0 <= f j) -> i ∈ l -> f i <= sumZ (f <$> l).
Proof.
  intros Hf. induction l as [|j l IH]; intros Hi; [by apply not_elem_of_nil in Hi|].
  pose proof (sumZ_nonneg (f <$> l)) as Hn. unfold sumZ in *. cbn.
  assert (0 <= foldr Z.add 0 (f <$> l)) by (apply Hn, Forall_fmap, Forall_true; done). specialize (Hf j).
  apply elem_of_cons in Hi as [->|Hi]; [lia|]. specialize (IH Hi). lia.
Qed.

Section invariant.
Context {E : Env} {T : Targets} {TL : TargetsLaws} {ML : GuestMemLaws Mem}.

(** C4: in every state the device reaches, whatever the guest registers,
    rings and writes and whatever arrives from the mesh: each bound memory
    region sits in the slot of its key and within 64 bits, each ring's
    geometry and indices are in range, the count of stalled send queues is
    the number of queues that are stalled, the outstanding requests' replies
    stay within the per-node budget, and the inbound queue's counters and
    caps hold. *)
Theorem reachable_invariant s : reachable s -> dp_inv s.
Proof. apply reachable_dp_inv. Qed.

(** In every reachable state the poll may skip the send queues exactly
    when none is stalled: the count it looks at is zero if and only if no
    queue pair waits for a receive or for room in the mesh. *)
Theorem stalled_count_exact s : reachable s ->
  dp_sq_stalled s = 0 <-> forall i, stalled (qp_at i s) = false.
Proof.
  intros Hr. destruct (di_stall _ (reachable_dp_inv _ Hr)) as [Hc Hs Hrg].
  rewrite Hs. unfold stall_count. split.
  - intros H0 i. destruct (stalled (qp_at i s)) eqn:Hi; [|done]. exfalso.
    assert (Z.b2z (stalled (qp_at i s)) <= 0) as He; [|by rewrite Hi in He].
    rewrite <-H0. apply (sumZ_elem (fun i => Z.b2z (stalled (qp_at i s)))).
    + intros j. unfold Z.b2z. case_match; lia.
    + apply elem_of_seqZ. specialize (Hrg i Hi). lia.
  - intros Hn. induction (seqZ 0 (dp_qp_count s)) as [|j l IH]; [done|]. cbn. rewrite Hn. exact IH.
Qed.

(** In every reachable state the answers that outstanding requests can
    bring back from one node fit the room that node keeps for them. *)
Theorem replies_within_budget s node : reachable s ->
  pending_reply_bytes node s <= ERNIC_MESH_REPLY_BUDGET /\ length (dp_pending_tab s) = MAX_PENDING.
Proof. intros Hr. destruct (di_pend _ (reachable_dp_inv _ Hr)) as [Hl _ Hb]. by split. Qed.
End invariant.

(** ** The history *)

(** A ring of four entries. *)
Definition ex_ring (addr stride_log2 : Z) : ionic_dp_ring_desc := RingDesc (BufDesc addr 1 12) 2 stride_log2.

(** A work request with one scatter/gather entry. *)
Definition ex_wqe (id op flags va len lkey : Z) : list Z :=
  let w := ernic_put_le64 (zeros 64) 0 id in
  let w := bput w WQE_OP_OFF [op; 1] in
  let w := ernic_put_be16 w WQE_FLAGS_OFF flags in
  let w := ernic_put_be64 w (WQE_PLD_OFF + SGE_VA_OFF) va in
  let w := ernic_put_be32 w (WQE_PLD_OFF + SGE_LEN_OFF) len in
  ernic_put_be32 w (WQE_PLD_OFF + SGE_LKEY_OFF) lkey.

(** What the guest's driver writes: a cleared completion ring, a message, and
    the requests to receive and to send it. *)
Definition ex_guest_ram : host :=
  host_write (host_write (host_write (host_write ∅ 0x20000 (zeros 128))
    0x40000 [0x68; 0x65; 0x6c; 0x6c; 0x6f])
    0x11000 (ex_wqe 77 0 0 0x8000 16 0x105))
    0x10000 (ex_wqe 0 IONIC_V1_OP_SEND IONIC_V1_FLAG_SIG 0x7000 5 0x105).

Definition ex_db (qid p_index : Z) : Z := Z.lor (Z.shiftl qid IONIC_DB_QID_LO_SHIFT) p_index.

Definition ex_setup : list (@dp_op ex_env) :=
  [ OpRegisterMr 0x105 0x7000 0x2000 (BufDesc 0x40000 1 12);
    OpRegisterCq 0 0 (ex_ring 0x20000 5);
    OpRegisterQp 1 IBV_QPT_RC 0 (ex_ring 0x10000 6) 0 (ex_ring 0x11000 6);
    OpSetDest 1 1 0;
    OpGuest (ex_guest_ram : @Mem ex_env) ([] : @Dev ex_env);
    OpDoorbell DP_QTYPE_RQ (ex_db 1 1) ].

Definition ex_run (ops : list (@dp_op ex_env)) (s : @ionic_datapath ex_env) : @ionic_datapath ex_env :=
  foldl (fun s op => (run_op (T := no_targets) op s).2) s ops.

(** A receive is posted; the send doorbell comes next. *)
Definition ex_posted : @ionic_datapath ex_env := ex_run ex_setup ex_dp.
Definition ex_sent : @ionic_datapath ex_env := ex_run [OpDoorbell DP_QTYPE_SQ (ex_db 1 1)] ex_posted.

Lemma ex_run_reachable ops s :
  Forall op_ok ops -> reachable (T := no_targets) s -> reachable (T := no_targets) (ex_run ops s).
Proof.
  revert s. induction ops as [|op ops IH]; intros s Hok Hs; [done|]. apply list.Forall_cons in Hok as [Ho Hok].
  apply IH; [done|]. by apply reach_step.
Qed.

Lemma ex_posted_reachable : reachable (T := no_targets) ex_posted.
Proof.
  apply ex_run_reachable; [|by eapply reach_create, ex_dp_created].
  repeat constructor; vm_compute; repeat split; congruence.
Qed.
Lemma ex_sent_reachable : reachable (T := no_targets) ex_sent.
Proof. apply ex_run_reachable; [|apply ex_posted_reachable]. by repeat constructor. Qed.

Lemma reachable_invariant_witness : reachable (T := no_targets) ex_sent /\ dp_inv ex_sent.
Proof.
  split; [exact ex_sent_reachable|].
  exact (@reachable_invariant ex_env no_targets no_targets_laws ex_laws ex_sent ex_sent_reachable).
Defined.

Lemma stalled_count_exact_witness :
  dp_sq_stalled ex_sent = 0 /\ forall i, stalled (qp_at i ex_sent) = false.
Proof.
  split; [computes|].
  apply (@stalled_count_exact ex_env no_targets no_targets_laws ex_laws ex_sent ex_sent_reachable). computes.
Defined.

Lemma replies_within_budget_witness : pending_reply_bytes 2 ex_sent <= ERNIC_MESH_REPLY_BUDGET.
Proof.
  exact (proj1 (@replies_within_budget ex_env no_targets no_targets_laws ex_laws ex_sent 2 ex_sent_reachable)).
Defined.

(** The message arrives where the receive pointed, and the driver finds the
    receive's completion and then the send's. *)
Example ex_message_moved :
  peekn (dp_mem ex_sent) 0x41000 5 = [0x68; 0x65; 0x6c; 0x6c; 0x6f].
Proof. computes. Qed.
Example ex_completions :
  is_Some (driver_poll ex_sent 0 0) /\ is_Some (driver_poll ex_sent 0 1) /\ driver_poll ex_sent 0 2 = None.
Proof. split_and!; [eexists; computes..|computes]. Qed.
