(* ===== verification/DpPeer.v ===== *)
(** * What another node can do to this one's memory

    The requests of the wire protocol that name memory: a peer's WRITE lands
    whole in the region its key names or not at all, its READ returns that
    region's bytes, its atomic acts on one word of it, and none of them
    changes a byte outside it. *)
From S2P Require Export DpHist.

Section peer.
Context {E : Env} {ML : GuestMemLaws Mem}.

(** A byte of a registered region: [x] is where the region [key] is bound to
    keeps one of its addresses. *)
Definition region_byte (s : ionic_datapath) (key x : Z) : Prop :=
  exists m v, mr_find key s = Some m /\ mr_va m <= v < mr_va m + mr_length m /\
    buf_byte (mr_buf m) (v - mr_va m) = Some x.

Lemma key_byte_region s key v x : key <> 0 -> key_byte s key v = Some x -> region_byte s key x.
Proof.
  intros Hk. unfold key_byte, region_byte. rewrite (proj2 (Z.eqb_neq _ _)) by done.
  destruct (mr_find key s) as [m|]; cbn; [|done]. case_bool_decide; [|done]. intros Hb. by exists m, v.
Qed.

(** A covered range is reached byte by byte as far as its page table goes. *)
Lemma wire_write_spec node h dq sq payload s :
  mrs_wf s -> hdr_ok h -> h_op h <> IONIC_WIRE_WRITE_IMM -> Z.of_nat (length payload) < 2 ^ 32 ->
  exists st n s1,
    (dp_wire_write node h dq sq payload s).2 = (dp_wire_reply node IONIC_WIRE_ACK h st [] s1).2 /\
    dp_pvrdma_handle s1 = dp_pvrdma_handle s /\
    wrote (addr_at s (h_rkey h) (h_remote_va h)) payload (h_length h) 0 n (dp_mem s) (dp_mem s1) /\
    (st = IONIC_STS_OK /\ n = h_length h /\ h_length h = Z.of_nat (length payload) \/
     st = IONIC_STS_REMOTE_ACC_ERR /\
     (h_length h <> Z.of_nat (length payload) \/
      h_length h <> 0 /\ ionic_dp_mr_covers (h_rkey h) (h_remote_va h) (h_length h) s = false \/
      write_stops (addr_at s (h_rkey h) (h_remote_va h)) (h_length h) (dp_mem s))) /\
    (h_length h <> Z.of_nat (length payload) \/
     h_length h <> 0 /\ ionic_dp_mr_covers (h_rkey h) (h_remote_va h) (h_length h) s = false ->
     st = IONIC_STS_REMOTE_ACC_ERR /\ dp_mem s1 = dp_mem s).
Proof.
  intros Hwf Hh Hop Hpl. unfold dp_wire_write. rewrite run_bind, run_gets, run_bind. cbn [fst snd].
  assert (fits 32 (h_length h)) as Hlen by apply Hh. unfold fits in Hlen.
  destruct (h_length h =? Z.of_nat (length payload)) eqn:Hl; cbn [negb]; bdestr.
  2: { exists IONIC_STS_REMOTE_ACC_ERR, 0, s. split_and!; try done; [apply wrote_stop; lia|by right; split; [|left]]. }
  destruct (negb (h_length h =? 0) && _) eqn:Hc; bdestr.
  { exists IONIC_STS_REMOTE_ACC_ERR, 0, s. split_and!; try done; [apply wrote_stop; lia|].
    right. split; [done|right; left]. by split. }
  set (hs := ionic_dp_host_to_sge (h_rkey h) (h_remote_va h) payload (h_length h)).
  destruct (host_to_sge_spec (h_rkey h) (h_remote_va h) payload (h_length h) s) as (Hw & _ & Hst); [done|lia|lia|].
  fold hs in Hw, Hst. frame_fact hs s FMesh Hm. rewrite run_bind. destruct (hs s) as [n s1]. cbn [fst snd] in *.
  assert (h_length h <> Z.of_nat (length payload) \/
     h_length h <> 0 /\ ionic_dp_mr_covers (h_rkey h) (h_remote_va h) (h_length h) s = false -> False) as Hno.
  { intros [?|[Hz Hv]]; [done|]. rewrite Hv in Hc. apply andb_false_iff in Hc as [Hc|Hc]; [|done].
    apply negb_false_iff, Z.eqb_eq in Hc. done. }
  destruct (n =? h_length h) eqn:Hn; cbn [negb]; bdestr.
  - rewrite (proj2 (Z.eqb_neq (h_op h) _)) by done. cbn [andb]. rewrite !run_bind, run_ret. cbn [fst snd].
    set (rb := ionic_dp_rdma_bytes sq (h_length h) ERNIC_STAT_RDMA_WRITE DP_RDMA_RX).
    frame_fact rb s1 FMesh Hm2. frame_fact rb s1 FMem Hm3. destruct (rb s1) as [u s2]. cbn [fst snd] in *.
    exists IONIC_STS_OK, n, s2. rewrite run_ret. cbn [snd]. split_and!; (done || congruence || (by rewrite Hm3) || (by left) || (intros H'; by destruct (Hno H'))).
  - exists IONIC_STS_REMOTE_ACC_ERR, n, s1. rewrite run_ret. split_and!; try done.
    right. split; [done|right; right]. apply Hst. pose proof (wr_range _ _ _ _ _ _ _ Hw). lia.
Qed.

Lemma wire_reply_mem node op h st bs s : dp_mem (dp_wire_reply node op h st bs s).2 = dp_mem s.
Proof. frame_fact (dp_wire_reply node op h st bs) s FMem H. exact H. Qed.

Lemma addr_at_fits s key va i x : mrs_wf s -> addr_at s key va i = Some x -> key = 0 \/ region_byte s key x.
Proof.
  intros Hwf Ha. destruct (decide (key = 0)) as [->|Hk]; [by left|right]. by apply (key_byte_region s key (u64 (va + i))).
Qed.

(** What a READ sends back is what the addresses it names hold. *)
Lemma wire_read_spec node h sq s :
  mrs_wf s -> hdr_ok h ->
  exists st bs s1,
    (dp_wire_read node h sq s).2 = (dp_wire_reply node IONIC_WIRE_READ_RESP h st bs s1).2 /\
    dp_pvrdma_handle s1 = dp_pvrdma_handle s /\ dp_mem s1 = dp_mem s /\
    (forall i b, bs !! i = Some b -> exists x,
       addr_at s (h_rkey h) (h_remote_va h) (Z.of_nat i) = Some x /\ b = peek (dp_mem s) x) /\
    (st = IONIC_STS_OK /\ Z.of_nat (length bs) = h_length h \/
     st = IONIC_STS_REMOTE_ACC_ERR /\ bs = [] /\
     (IONIC_WIRE_MAX_PAYLOAD < h_length h \/ h_length h <> 0 /\ (alloc s).1 = false \/
      read_stops (addr_at s (h_rkey h) (h_remote_va h)) (h_length h) (dp_mem s))).
Proof.
  intros Hwf Hh. unfold dp_wire_read. assert (fits 32 (h_length h)) as Hlen by apply Hh. unfold fits in Hlen.
  rewrite run_bind. set (al := if _ && _ then _ else _). assert (keeps (frame [FCalls]) al) as Hal by (subst al; frame_auto).
  pose proof (frame_get _ al FMesh s Hal eq_refl) as A1. pose proof (frame_get _ al FMem s Hal eq_refl) as A2.
  pose proof (frame_get _ al FMr s Hal eq_refl) as A3.
  assert ((al s).1 = false -> h_length h = 0 \/ IONIC_WIRE_MAX_PAYLOAD < h_length h \/ (alloc s).1 = false) as Hal'.
  { subst al. destruct (negb _ && _) eqn:Hb; [auto|]. intros _. apply andb_false_iff in Hb as [Hb|Hb]; bdestr; auto. }
  destruct (al s) as [data s1]. cbn [fst snd fld_same] in *.
  rewrite run_bind. destruct (_ || _) eqn:Hb.
  { exists IONIC_STS_REMOTE_ACC_ERR, [], s1. rewrite run_ret. split_and!; try done. right. split_and!; [done..|].
    apply orb_true_iff in Hb as [Hb|Hb]; bdestr; [by left|]. destruct data; [done|]. destruct (Hal' eq_refl) as [?|[?|?]]; [done|by left|by right; left]. }
  set (rd := ionic_dp_sge_to_host (h_rkey h) (h_remote_va h) (h_length h)). rewrite run_bind.
  pose proof (sge_to_host_spec (h_rkey h) (h_remote_va h) (h_length h) s1 (mrs_wf_mrs _ _ A3 Hwf) Hlen) as Hr.
  fold rd in Hr. frame_fact rd s1 FMesh B1. frame_fact rd s1 FMem B2. destruct (rd s1) as [bs s2]. cbn [fst snd] in *.
  destruct (Z.of_nat (length bs) =? h_length h) eqn:Hn; cbn [negb]; bdestr.
  - set (rb := ionic_dp_rdma_bytes sq (h_length h) ERNIC_STAT_RDMA_READ DP_RDMA_TX). rewrite run_bind.
    frame_fact rb s2 FMesh C1. frame_fact rb s2 FMem C2. destruct (rb s2) as [u s3]. rewrite run_ret. cbn [fst snd] in *.
    exists IONIC_STS_OK, bs, s3. split_and!; [done|congruence|congruence| |by left].
    intros i b Hi. destruct (sth_read _ _ _ _ _ _ _ Hr i) as (x & Hx & Hb'); [apply lookup_lt_Some in Hi; cbn; lia|].
    exists x. rewrite (addr_at_mrs _ _ A3) in Hx. split; [done|]. rewrite <-A2. congruence.
  - exists IONIC_STS_REMOTE_ACC_ERR, [], s2. rewrite run_ret. split_and!; try congruence; try done. right. split_and!; [done..|right; right].
    rewrite <-(addr_at_mrs _ _ A3), <-A2. apply Hr. pose proof (sth_range _ _ _ _ _ _ _ Hr). lia.
Qed.

(** The word an atomic names, byte by byte. *)
Definition word_at_key (s : ionic_datapath) (h : ionic_wire_hdr) (i : Z) : option Z :=
  key_byte s (h_rkey h) (h_remote_va h + i).

Lemma atomic_apply_refused A gpa cs swap_add compare s :
  range_in A gpa 8 -> (dp_atomic_apply gpa cs swap_add compare s).1 = None ->
  read_refused A (dp_mem s) \/ write_refused A (dp_mem s).
Proof.
  intros Hr. pose proof Hr as [Hg _]. unfold dp_atomic_apply, dp_dma_read. run.
  destruct (dma_read (dp_mem s) gpa 8) as [mem|] eqn:Hm; [|intros _; left; by exists gpa, 8].
  apply dma_read_spec in Hm as [-> _]; [|done|lia]. run. set (bs := ernic_put_le64 _ _ _).
  assert (length bs = 8%nat) as Hb by (subst bs; unfold ernic_put_le64; rewrite bput_whole by (by rewrite length_peekn); done).
  destruct (dp_dma_write_perm A gpa bs s) as [_ H]; [by rewrite Hb|].
  destruct (dp_dma_write gpa bs s) as [[] s1]; cbn in *; [done|]. intros _. right. by apply H.
Qed.

Lemma atomic_apply_works gpa cs swap_add compare s :
  fits 64 gpa -> is_Some (dma_read (dp_mem s) gpa 8) ->
  (forall bs, length bs = 8%nat -> (dma_write (dp_mem s) gpa bs).1 = true) ->
  is_Some (dp_atomic_apply gpa cs swap_add compare s).1.
Proof.
  intros Hg [mem Hm] Hw. unfold dp_atomic_apply, dp_dma_read. run. rewrite Hm.
  apply dma_read_spec in Hm as [-> _]; [|done|lia]. run. unfold ernic_put_le64. rewrite bput_whole by (by rewrite length_peekn).
  unfold dp_dma_write. specialize (Hw (le64_bytes (atomic_new cs (ernic_get_le64 (peekn (dp_mem s) gpa 8) 0) swap_add compare)) eq_refl).
  destruct (dma_write _ _ _) as [ok m]. cbn in *. by rewrite Hw.
Qed.

(** A peer's atomic, answered with the value it replaced. *)
Lemma wire_atomic_spec node h s :
  mrs_wf s -> hdr_ok h ->
  let old g := word_at (dp_mem s) g in
  exists s1,
    (exists g, (dp_wire_atomic node h s).2 =
       (dp_wire_reply node IONIC_WIRE_ATOMIC_RESP h IONIC_STS_OK (le64_bytes (old g)) s1).2 /\
       (forall i, 0 <= i < 8 -> word_at_key s h i = Some (g + i)) /\
       peekn (dp_mem s1) g 8 =
         le64_bytes (atomic_new (negb (h_atomic_cs h =? 0)) (old g) (h_swap_add h) (h_compare h)) /\
       forall x, peek (dp_mem s1) x <> peek (dp_mem s) x -> g <= x < g + 8) \/
    (dp_wire_atomic node h s).2 = (dp_wire_reply node IONIC_WIRE_ATOMIC_RESP h IONIC_STS_REMOTE_ACC_ERR [] s1).2 /\
    (forall x, peek (dp_mem s1) x <> peek (dp_mem s) x -> addrs (word_at_key s h) 8 x) /\
    ((~ exists g, forall i, 0 <= i < 8 -> word_at_key s h i = Some (g + i)) \/
     read_refused (addrs (word_at_key s h) 8) (dp_mem s) \/ write_refused (addrs (word_at_key s h) 8) (dp_mem s)).
Proof.
  intros Hwf Hh old. unfold dp_wire_atomic, dp_remote_atomic.
  assert (fits 64 (h_remote_va h)) as Hva by apply Hh. rewrite !run_bind.
  pose proof (sge_gpa_spec (h_rkey h) (h_remote_va h) s Hwf Hva) as (Hgf & _ & _ & Hgb).
  pose proof (fun g => sge_gpa_maximal (h_rkey h) (h_remote_va h) s g 8 Hwf Hva ltac:(unfold UINT64_MAX; lia)) as Hmax.
  frame_fact (sge_gpa (h_rkey h) (h_remote_va h)) s FMem A1.
  destruct (sge_gpa (h_rkey h) (h_remote_va h) s) as [[g run] s1]. cbn [fst snd] in *.
  destruct (8 <=? run) eqn:H8; bdestr.
  2: { exists s1. right. rewrite run_ret. split_and!; [done|intros x Hx; by rewrite A1 in Hx|].
       left. intros (g' & Hw). pose proof (Hmax g' Hw). lia. }
  clear Hmax. assert (forall i, 0 <= i < 8 -> g + i < 2 ^ 64 -> word_at_key s h i = Some (g + i)) as Hw by (intros; apply Hgb; lia).
  pose proof (atomic_apply_refused (addrs (word_at_key s h) 8) g (negb (h_atomic_cs h =? 0)) (h_swap_add h) (h_compare h) s1) as Hrf.
  destruct (atomic_apply_spec g (negb (h_atomic_cs h =? 0)) (h_swap_add h) (h_compare h) s1 Hgf) as [Hch Hap].
  destruct (dp_atomic_apply _ _ _ _ s1) as [[v|] s2]; cbn [fst snd] in *; rewrite A1 in *.
  - destruct (Hap v eq_refl) as (-> & Hc & Hnew). exists s2. left. exists g. split_and!; [done|intros i Hi; apply Hw; lia|done|].
    intros x Hx. by apply Hch.
  - exists s2. right. split_and!; [done| |right; apply Hrf; [|done]].
    + intros x Hx. apply Hch in Hx as [Hx Hc]. exists (x - g). split; [lia|]. rewrite Hw by lia. f_equal. lia.
    + split_and!; [done|lia|]. intros i Hi Hx. exists i. split; [done|]. by apply Hw.
Qed.
End peer.

(** ** The messages as they arrive *)
Section handle.
Context {E : Env} {ML : GuestMemLaws Mem}.

Definition wire_payload (msg : list Z) : list Z := drop (Z.to_nat IONIC_WIRE_HDR_LEN) msg.

(** An arriving request is dispatched on its op once its key is accepted. *)
Lemma handle_refused node msg retry s :
  let h := ionic_dp_wire_hdr_get msg in
  h_rkey h = 0 -> h_length h <> 0 -> names_memory (h_op h) = true ->
  dp_mem (dp_handle_wire node msg retry s).2 = dp_mem s.
Proof.
  intros h Hk Hl Hn. unfold dp_handle_wire. destruct (negb _); [done|]. rewrite run_bind, run_gets. cbn [fst snd].
  fold h. rewrite Hk, (proj2 (Z.eqb_neq _ _) Hl), Hn. cbn [andb Z.eqb negb]. rewrite run_bind, run_ret. cbn [snd].
  apply wire_reply_mem.
Qed.

Lemma handle_write node msg retry s :
  let h := ionic_dp_wire_hdr_get msg in
  h_magic h = IONIC_WIRE_MAGIC -> h_op h = IONIC_WIRE_WRITE -> h_rkey h <> 0 \/ h_length h = 0 ->
  (dp_handle_wire node msg retry s).2 =
    (dp_wire_write node h (live_qp (h_dst_qp_id h) s)
       (if live_qp (h_dst_qp_id h) s then h_dst_qp_id h else ERNIC_STAT_NO_QP) (wire_payload msg) s).2.
Proof.
  intros h Hm Ho Hk. unfold dp_handle_wire. fold h. rewrite Hm, Z.eqb_refl. cbn [negb]. rewrite run_bind, run_gets. cbn [fst snd].
  replace ((h_rkey h =? 0) && negb (h_length h =? 0)) with false.
  2: { symmetry. destruct Hk as [Hk|Hk]; [by rewrite (proj2 (Z.eqb_neq _ _) Hk)|rewrite Hk, andb_false_r; done]. }
  cbn [andb]. rewrite Ho. cbn. rewrite run_bind, run_ret. done.
Qed.

Lemma handle_read node msg retry s :
  let h := ionic_dp_wire_hdr_get msg in
  h_magic h = IONIC_WIRE_MAGIC -> h_op h = IONIC_WIRE_READ_REQ -> h_rkey h <> 0 \/ h_length h = 0 ->
  (dp_handle_wire node msg retry s).2 =
    (dp_wire_read node h (if live_qp (h_dst_qp_id h) s then h_dst_qp_id h else ERNIC_STAT_NO_QP) s).2.
Proof.
  intros h Hm Ho Hk. unfold dp_handle_wire. fold h. rewrite Hm, Z.eqb_refl. cbn [negb]. rewrite run_bind, run_gets. cbn [fst snd].
  replace ((h_rkey h =? 0) && negb (h_length h =? 0)) with false.
  2: { symmetry. destruct Hk as [Hk|Hk]; [by rewrite (proj2 (Z.eqb_neq _ _) Hk)|rewrite Hk, andb_false_r; done]. }
  cbn [andb]. rewrite Ho. cbn. rewrite run_bind, run_ret. done.
Qed.

Lemma handle_atomic node msg retry s :
  let h := ionic_dp_wire_hdr_get msg in
  h_magic h = IONIC_WIRE_MAGIC -> h_op h = IONIC_WIRE_ATOMIC_REQ -> h_rkey h <> 0 \/ h_length h = 0 ->
  (dp_handle_wire node msg retry s).2 = (dp_wire_atomic node h s).2.
Proof.
  intros h Hm Ho Hk. unfold dp_handle_wire. fold h. rewrite Hm, Z.eqb_refl. cbn [negb]. rewrite run_bind, run_gets. cbn [fst snd].
  replace ((h_rkey h =? 0) && negb (h_length h =? 0)) with false.
  - cbn [andb]. rewrite Ho. cbn. rewrite run_bind, run_ret. done.
  - symmetry. destruct Hk as [Hk| ->]; [by rewrite (proj2 (Z.eqb_neq _ _) Hk)|apply andb_false_r].
Qed.

Lemma handle_bad_magic node msg retry s :
  h_magic (ionic_dp_wire_hdr_get msg) <> IONIC_WIRE_MAGIC -> (dp_handle_wire node msg retry s).2 = s.
Proof. intros Hm. unfold dp_handle_wire. by rewrite (proj2 (Z.eqb_neq _ _) Hm). Qed.

(** C5: whatever a peer's WRITE, READ or (length 8) atomic says, a byte of
    guest memory it changes is a byte of the region registered under the
    request's non-zero key. *)
Theorem peer_confined node msg retry s x :
  let h := ionic_dp_wire_hdr_get msg in
  mrs_wf s -> bytes_ok msg -> Z.of_nat (length msg) < 2 ^ 32 ->
  h_op h = IONIC_WIRE_WRITE \/ h_op h = IONIC_WIRE_READ_REQ \/ h_op h = IONIC_WIRE_ATOMIC_REQ /\ h_length h <> 0 ->
  peek (dp_mem (dp_handle_wire node msg retry s).2) x <> peek (dp_mem s) x ->
  h_rkey h <> 0 /\ region_byte s (h_rkey h) x.
Proof.
  intros h Hwf Hb Hlen Hop Hx. pose proof (wire_hdr_get_fits msg Hb) as Hh. fold h in Hh.
  destruct (decide (h_magic h = IONIC_WIRE_MAGIC)) as [Hm|Hm]; [|by rewrite handle_bad_magic in Hx].
  assert (h_rkey h <> 0 \/ h_rkey h = 0 /\ h_length h = 0) as Hk.
  { destruct (decide (h_rkey h = 0)) as [Hk|]; [right|by left]. split; [done|].
    destruct (decide (h_length h = 0)) as [|Hl]; [done|]. exfalso. apply Hx. f_equal. apply handle_refused; try done.
    fold h. by destruct Hop as [->|[->|[-> _]]]. }
  destruct Hop as [Ho|[Ho|[Ho Hl]]].
  - rewrite (handle_write node msg retry s Hm Ho ltac:(clear -Hk; tauto)) in Hx. fold h in Hx.
    match type of Hx with peek (dp_mem (dp_wire_write _ _ ?d ?q ?p _).2) _ <> _ =>
      destruct (wire_write_spec node h d q p s) as (st & n & s1 & Heq & _ & Hw & _); try done end.
    { by rewrite Ho. }
    { unfold wire_payload. rewrite length_drop. lia. }
    rewrite Heq, wire_reply_mem in Hx. destruct (wr_confined _ _ _ _ _ _ _ Hw x Hx) as (i & Hi & Ha).
    destruct Hk as [Hk|[_ Hk]]; [|lia]. split; [done|]. destruct (addr_at_fits _ _ _ _ _ Hwf Ha) as [?|?]; [done|done].
  - rewrite (handle_read node msg retry s Hm Ho ltac:(clear -Hk; tauto)) in Hx. fold h in Hx.
    match type of Hx with peek (dp_mem (dp_wire_read _ _ ?q _).2) _ <> _ =>
      destruct (wire_read_spec node h q s Hwf Hh) as (st & bs & s1 & Heq & _ & Hmm & _) end.
    rewrite Heq, wire_reply_mem, Hmm in Hx. done.
  - destruct Hk as [Hk|[_ Hk]]; [|done]. rewrite (handle_atomic node msg retry s Hm Ho (or_introl Hk)) in Hx.
    split; [done|]. fold h in Hx.
    destruct (wire_atomic_spec node h s Hwf Hh) as (s1 & [(g & Heq & Hkb & _ & Hc)|(Heq & Hc & _)]);
      rewrite Heq, wire_reply_mem in Hx; apply Hc in Hx.
    + apply (key_byte_region s _ (h_remote_va h + (x - g)) x Hk). unfold word_at_key in Hkb. rewrite Hkb by lia. f_equal. lia.
    + destruct Hx as (i & _ & Hv). by apply (key_byte_region s _ (h_remote_va h + i)).
Qed.

(** C24: a peer's WRITE is acknowledged with status OK when its whole payload,
    of exactly the length it gave, was written to the addresses it names, and
    is refused only if its length is not its payload's, its range is not inside
    the region, a byte of it has no address or guest memory refuses a store to
    it; in the first two cases no byte changes. *)
Theorem peer_write node msg retry s :
  let h := ionic_dp_wire_hdr_get msg in
  let payload := wire_payload msg in
  mrs_wf s -> bytes_ok msg -> Z.of_nat (length msg) < 2 ^ 32 ->
  h_magic h = IONIC_WIRE_MAGIC -> h_op h = IONIC_WIRE_WRITE -> h_rkey h <> 0 \/ h_length h = 0 ->
  exists st n s1,
    (dp_handle_wire node msg retry s).2 = (dp_wire_reply node IONIC_WIRE_ACK h st [] s1).2 /\
    dp_pvrdma_handle s1 = dp_pvrdma_handle s /\
    wrote (addr_at s (h_rkey h) (h_remote_va h)) payload (h_length h) 0 n (dp_mem s) (dp_mem s1) /\
    (st = IONIC_STS_OK /\ n = h_length h /\ h_length h = Z.of_nat (length payload) \/
     st = IONIC_STS_REMOTE_ACC_ERR /\
     (h_length h <> Z.of_nat (length payload) \/
      h_length h <> 0 /\ ionic_dp_mr_covers (h_rkey h) (h_remote_va h) (h_length h) s = false \/
      write_stops (addr_at s (h_rkey h) (h_remote_va h)) (h_length h) (dp_mem s))) /\
    (h_length h <> Z.of_nat (length payload) \/
     h_length h <> 0 /\ ionic_dp_mr_covers (h_rkey h) (h_remote_va h) (h_length h) s = false ->
     st = IONIC_STS_REMOTE_ACC_ERR /\ dp_mem s1 = dp_mem s).
Proof.
  intros h payload Hwf Hb Hlen Hm Ho Hk. rewrite (handle_write node msg retry s Hm Ho Hk). fold h payload.
  apply wire_write_spec; [done|by apply wire_hdr_get_fits|by rewrite Ho|].
  subst payload. unfold wire_payload. rewrite length_drop. lia.
Qed.

(** C25: the answer to a peer's READ carries, in order, what the addresses it
    names hold, the whole length it asked for with status OK.  It is refused,
    with no data at all, only if it asks for more than a message holds, there
    is no memory for the answer, or a byte has no address or guest memory
    refuses to read it.  No guest byte changes. *)
Theorem peer_read node msg retry s :
  let h := ionic_dp_wire_hdr_get msg in
  mrs_wf s -> bytes_ok msg -> h_magic h = IONIC_WIRE_MAGIC -> h_op h = IONIC_WIRE_READ_REQ ->
  h_rkey h <> 0 \/ h_length h = 0 ->
  exists st bs s1,
    (dp_handle_wire node msg retry s).2 = (dp_wire_reply node IONIC_WIRE_READ_RESP h st bs s1).2 /\
    dp_pvrdma_handle s1 = dp_pvrdma_handle s /\ dp_mem s1 = dp_mem s /\
    (forall i b, bs !! i = Some b -> exists x,
       addr_at s (h_rkey h) (h_remote_va h) (Z.of_nat i) = Some x /\ b = peek (dp_mem s) x) /\
    (st = IONIC_STS_OK /\ Z.of_nat (length bs) = h_length h \/
     st = IONIC_STS_REMOTE_ACC_ERR /\ bs = [] /\
     (IONIC_WIRE_MAX_PAYLOAD < h_length h \/ h_length h <> 0 /\ (alloc s).1 = false \/
      read_stops (addr_at s (h_rkey h) (h_remote_va h)) (h_length h) (dp_mem s))).
Proof.
  intros h Hwf Hb Hm Ho Hk. rewrite (handle_read node msg retry s Hm Ho Hk).
  apply wire_read_spec; [done|by apply wire_hdr_get_fits].
Qed.

(** C26: a peer's atomic on a keyed word reads and replaces the eight bytes at
    one place of that region, answering with the value it replaced.  It is
    refused, with no data, only if the word is not eight consecutive bytes of
    guest memory under its key or guest memory refuses the access. *)
Theorem peer_atomic node msg retry s :
  let h := ionic_dp_wire_hdr_get msg in
  let old g := word_at (dp_mem s) g in
  mrs_wf s -> bytes_ok msg -> h_magic h = IONIC_WIRE_MAGIC -> h_op h = IONIC_WIRE_ATOMIC_REQ -> h_rkey h <> 0 ->
  exists s1,
    (exists g, (dp_handle_wire node msg retry s).2 =
       (dp_wire_reply node IONIC_WIRE_ATOMIC_RESP h IONIC_STS_OK (le64_bytes (old g)) s1).2 /\
       (forall i, 0 <= i < 8 -> word_at_key s h i = Some (g + i)) /\
       peekn (dp_mem s1) g 8 =
         le64_bytes (atomic_new (negb (h_atomic_cs h =? 0)) (old g) (h_swap_add h) (h_compare h)) /\
       forall x, peek (dp_mem s1) x <> peek (dp_mem s) x -> g <= x < g + 8) \/
    (dp_handle_wire node msg retry s).2 =
      (dp_wire_reply node IONIC_WIRE_ATOMIC_RESP h IONIC_STS_REMOTE_ACC_ERR [] s1).2 /\
    (forall x, peek (dp_mem s1) x <> peek (dp_mem s) x -> addrs (word_at_key s h) 8 x) /\
    ((~ exists g, forall i, 0 <= i < 8 -> word_at_key s h i = Some (g + i)) \/
     read_refused (addrs (word_at_key s h) 8) (dp_mem s) \/ write_refused (addrs (word_at_key s h) 8) (dp_mem s)).
Proof.
  intros h old Hwf Hb Hm Ho Hk. rewrite (handle_atomic node msg retry s Hm Ho (or_introl Hk)).
  apply wire_atomic_spec; [done|by apply wire_hdr_get_fits].
Qed.

(** C31: the exemption of zero-length requests from the key check lets an
    atomic through.  Whatever is registered, a request with key 0 and length
    0 that names a word the device can read and write is performed on the
    guest physical address in the message. *)
Theorem unkeyed_atomic_reaches_guest_memory node msg retry s :
  let h := ionic_dp_wire_hdr_get msg in
  let gpa := h_remote_va h in
  bytes_ok msg -> h_magic h = IONIC_WIRE_MAGIC -> h_op h = IONIC_WIRE_ATOMIC_REQ -> h_rkey h = 0 -> h_length h = 0 ->
  is_Some (dma_read (dp_mem s) gpa 8) ->
  (forall bs, length bs = 8%nat -> (dma_write (dp_mem s) gpa bs).1 = true) ->
  peekn (dp_mem (dp_handle_wire node msg retry s).2) gpa 8 =
    le64_bytes (atomic_new (negb (h_atomic_cs h =? 0)) (word_at (dp_mem s) gpa) (h_swap_add h) (h_compare h)).
Proof.
  intros h gpa Hb Hm Ho Hk Hl Hrd Hwr. rewrite (handle_atomic node msg retry s Hm Ho (or_intror Hl)). fold h.
  assert (fits 64 gpa) as Hva by apply (wire_hdr_get_fits msg Hb).
  unfold dp_wire_atomic, dp_remote_atomic, sge_gpa. rewrite Hk. cbn [Z.eqb]. rewrite !run_bind, run_ret. cbn [fst snd]. fold gpa.
  set (cs := negb _). destruct (atomic_apply_works gpa cs (h_swap_add h) (h_compare h) s Hva Hrd Hwr) as [v Hv].
  destruct (atomic_apply_spec gpa cs (h_swap_add h) (h_compare h) s Hva) as [_ H]. destruct (H v Hv) as (_ & _ & Hnew).
  change (8 <=? UINT64_MAX) with true. cbn iota.
  destruct (dp_atomic_apply gpa cs (h_swap_add h) (h_compare h) s) as [o s1]. cbn [fst snd] in *. subst o. by rewrite wire_reply_mem.
Qed.

(** A message that is not of this protocol, or answers no request, is
    ignored. *)
Lemma handle_response node msg retry s :
  let h := ionic_dp_wire_hdr_get msg in
  h_magic h = IONIC_WIRE_MAGIC -> is_response_op (h_op h) = true ->
  (dp_handle_wire node msg retry s).2 = (dp_wire_response h (wire_payload msg) s).2.
Proof.
  intros h Hm Ho. unfold dp_handle_wire. fold h. rewrite Hm, Z.eqb_refl. cbn [negb]. rewrite run_bind, run_gets. cbn [fst snd].
  unfold is_response_op in Ho. rewrite !orb_true_iff, !Z.eqb_eq in Ho.
  destruct Ho as [[Ho|Ho]|Ho]; rewrite Ho; cbn; rewrite ?andb_false_r; rewrite run_bind, run_ret; done.
Qed.
End handle.

(** ** A node with one region registered: key 0x105, addresses 0x7000 to
    0x8fff, kept at guest physical 0x40000. *)
Definition ex_peer_dp : @ionic_datapath ex_env :=
  (ionic_datapath_register_mr 0x105 0x7000 0x2000 (BufDesc 0x40000 1 12) ex_dp).2.

Definition ex_peer_msg (op rkey len va : Z) (payload : list Z) : list Z :=
  ionic_dp_wire_hdr_put (WireHdr IONIC_WIRE_MAGIC op 0 3 7 41 rkey len 0 0 va 5 0) ++ payload.

Lemma ex_peer_wf : mrs_wf ex_peer_dp.
Proof.
  apply (@register_mr_wf ex_env ex_laws); [vm_compute; repeat split; congruence..|].
  exact (di_mrs _ (create_inv _ _ _ ex_dp_created)).
Qed.

Lemma peer_confined_witness :
  region_byte ex_peer_dp 0x105 0x40010.
Proof.
  refine (proj2 (@peer_confined ex_env ex_laws 2 (ex_peer_msg IONIC_WIRE_WRITE 0x105 2 0x7010 [9; 8]) false ex_peer_dp
    0x40010 ex_peer_wf _ _ _ _)).
  - bytes_by_computation.
  - reflexivity.
  - left. reflexivity.
  - vm_compute. congruence.
Defined.

(** The example's memory refuses nothing around the bytes it is asked for. *)
Lemma ex_range A gpa n :
  (forall x, A x -> 0x40010 <= x < 0x40018) -> range_in A gpa n ->
  exists k l : nat, gpa = 0x40010 + Z.of_nat k /\ n = Z.of_nat l /\ (k + l <= 8)%nat.
Proof.
  intros HA (Hf & Hn & Hi). unfold fits in Hf. pose proof (HA _ (Hi 0 ltac:(lia) ltac:(lia))) as H0.
  assert (gpa + n <= 0x40018).
  { apply Z.nlt_ge. intros Hlt. pose proof (HA _ (Hi (0x40018 - gpa) ltac:(lia) ltac:(lia))). lia. }
  exists (Z.to_nat (gpa - 0x40010)), (Z.to_nat n). split_and!; lia.
Qed.

Lemma ex_no_write_refused A : (forall x, A x -> 0x40010 <= x < 0x40018) -> ~ write_refused A (dp_mem ex_peer_dp).
Proof.
  intros HA (gpa & bs & Hr & Hf). destruct (ex_range _ _ _ HA Hr) as (k & l & -> & Hl & Hkl). clear Hr HA.
  do 9 (destruct k as [|k]; [do 9 (destruct bs as [|? bs]; [vm_compute in Hf; discriminate Hf|]); cbn in Hl; lia|]). lia.
Qed.

Lemma ex_no_read_refused A : (forall x, A x -> 0x40010 <= x < 0x40018) -> ~ read_refused A (dp_mem ex_peer_dp).
Proof.
  intros HA (gpa & n & Hr & Hf). destruct (ex_range _ _ _ HA Hr) as (k & l & -> & -> & Hkl). clear Hr HA.
  do 9 (destruct k as [|k]; [do 9 (destruct l as [|l]; [vm_compute in Hf; discriminate Hf|]); lia|]). lia.
Qed.

(** Its word at 0x7010, byte by byte. *)
Lemma ex_addr_at i : 0 <= i < 8 -> addr_at ex_peer_dp 0x105 0x7010 i = Some (0x40010 + i).
Proof.
  intros Hi. assert (exists k : nat, i = Z.of_nat k /\ (k < 8)%nat) as (k & -> & Hk) by (exists (Z.to_nat i); lia).
  do 8 (destruct k as [|k]; [computes|]). lia.
Qed.

Lemma ex_addrs len x : len <= 8 -> addrs (addr_at ex_peer_dp 0x105 0x7010) len x -> 0x40010 <= x < 0x40018.
Proof. intros Hl (i & Hi & Hx). rewrite ex_addr_at in Hx by lia. simplify_eq. lia. Qed.

Lemma ex_addr_inj : addr_inj (addr_at ex_peer_dp 0x105 0x7010) 0 2.
Proof. intros a b x Ha Hb Hxa Hxb. rewrite ex_addr_at in Hxa, Hxb by lia. simplify_eq. lia. Qed.

Lemma peer_write_witness :
  exists s1 : @ionic_datapath ex_env,
    (dp_handle_wire 2 (ex_peer_msg IONIC_WIRE_WRITE 0x105 2 0x7010 [9; 8]) false ex_peer_dp).2 =
      (dp_wire_reply 2 IONIC_WIRE_ACK (ionic_dp_wire_hdr_get (ex_peer_msg IONIC_WIRE_WRITE 0x105 2 0x7010 [9; 8]))
         IONIC_STS_OK [] s1).2 /\
    peek (dp_mem s1) 0x40010 = 9 /\ peek (dp_mem s1) 0x40011 = 8.
Proof.
  destruct (@peer_write ex_env ex_laws 2 (ex_peer_msg IONIC_WIRE_WRITE 0x105 2 0x7010 [9; 8]) false ex_peer_dp
    ex_peer_wf ltac:(bytes_by_computation) ltac:(computes) ltac:(computes) ltac:(computes) ltac:(left; vm_compute; discriminate))
    as (st & n & s1 & Heq & _ & Hw & [(-> & -> & _)|(_ & [H|[[_ H]|[(i & Hi & H)|H]]])] & _).
  - exists s1. split; [exact Heq|]. change (wrote (addr_at ex_peer_dp 0x105 0x7010) [9; 8] 2 0 2 (dp_mem ex_peer_dp) (dp_mem s1)) in Hw.
    split; [exact (wr_written _ _ _ _ _ _ _ Hw 0 _ ex_addr_inj ltac:(lia) (ex_addr_at 0 ltac:(lia)))|
            exact (wr_written _ _ _ _ _ _ _ Hw 1 _ ex_addr_inj ltac:(lia) (ex_addr_at 1 ltac:(lia)))].
  - vm_compute in H. by destruct H.
  - vm_compute in H. discriminate H.
  - change (addr_at ex_peer_dp 0x105 0x7010 i = None) in H. change (0 <= i < 2) in Hi. rewrite ex_addr_at in H by lia. discriminate H.
  - exfalso. revert H. apply ex_no_write_refused. intros x. by apply (ex_addrs 2).
Defined.

Lemma peer_read_witness :
  exists s1 : @ionic_datapath ex_env,
    (dp_handle_wire 2 (ex_peer_msg IONIC_WIRE_READ_REQ 0x105 1 0x7010 []) false ex_peer_dp).2 =
      (dp_wire_reply 2 IONIC_WIRE_READ_RESP (ionic_dp_wire_hdr_get (ex_peer_msg IONIC_WIRE_READ_REQ 0x105 1 0x7010 []))
         IONIC_STS_OK [peek (dp_mem ex_peer_dp) 0x40010] s1).2.
Proof.
  destruct (@peer_read ex_env ex_laws 2 (ex_peer_msg IONIC_WIRE_READ_REQ 0x105 1 0x7010 []) false ex_peer_dp
    ex_peer_wf ltac:(bytes_by_computation) ltac:(computes) ltac:(computes) ltac:(left; vm_compute; discriminate))
    as (st & bs & s1 & Heq & _ & _ & Hbs & [(-> & Hl)|(_ & _ & [H|[[_ H]|[(i & Hi & H)|H]]])]).
  - exists s1. rewrite Heq. change (Z.of_nat (length bs) = 1) in Hl. destruct bs as [|b [|]]; cbn in Hl; [lia| |lia].
    destruct (Hbs 0%nat b eq_refl) as (x & Hx & ->). change (addr_at ex_peer_dp 0x105 0x7010 0 = Some x) in Hx.
    rewrite ex_addr_at in Hx by lia. by injection Hx as <-.
  - vm_compute in H. discriminate H.
  - vm_compute in H. discriminate H.
  - change (addr_at ex_peer_dp 0x105 0x7010 i = None) in H. change (0 <= i < 1) in Hi. rewrite ex_addr_at in H by lia. discriminate H.
  - exfalso. revert H. apply ex_no_read_refused. intros x. by apply (ex_addrs 1).
Defined.

Lemma ex_word_at_key i :
  0 <= i < 8 -> word_at_key ex_peer_dp (ionic_dp_wire_hdr_get (ex_peer_msg IONIC_WIRE_ATOMIC_REQ 0x105 8 0x7010 [])) i =
    Some (0x40010 + i).
Proof.
  intros Hi. assert (exists k : nat, i = Z.of_nat k /\ (k < 8)%nat) as (k & -> & Hk) by (exists (Z.to_nat i); lia).
  do 8 (destruct k as [|k]; [computes|]). lia.
Qed.

Lemma ex_word_addrs x :
  addrs (word_at_key ex_peer_dp (ionic_dp_wire_hdr_get (ex_peer_msg IONIC_WIRE_ATOMIC_REQ 0x105 8 0x7010 []))) 8 x ->
  0x40010 <= x < 0x40018.
Proof. intros (i & Hi & Hx). rewrite ex_word_at_key in Hx by lia. simplify_eq. lia. Qed.

Lemma peer_atomic_witness :
  let msg := ex_peer_msg IONIC_WIRE_ATOMIC_REQ 0x105 8 0x7010 [] in
  exists s1 : @ionic_datapath ex_env,
    (dp_handle_wire 2 msg false ex_peer_dp).2 =
      (dp_wire_reply 2 IONIC_WIRE_ATOMIC_RESP (ionic_dp_wire_hdr_get msg) IONIC_STS_OK [1; 1; 1; 1; 1; 1; 1; 1] s1).2 /\
    peekn (dp_mem s1) 0x40010 8 = [6; 1; 1; 1; 1; 1; 1; 1].
Proof.
  intros msg. destruct (@peer_atomic ex_env ex_laws 2 msg false ex_peer_dp
    ex_peer_wf ltac:(bytes_by_computation) ltac:(computes) ltac:(computes) ltac:(vm_compute; discriminate))
    as (s1 & [(g & Heq & Hg & Hnew & _)|(_ & _ & [H|[H|H]])]).
  - pose proof (Hg 0 ltac:(lia)) as H0. unfold msg in H0. rewrite ex_word_at_key in H0 by lia.
    assert (g = 0x40010) as -> by (injection H0; lia). exists s1. split; [exact Heq|exact Hnew].
  - exfalso. apply H. exists 0x40010. exact ex_word_at_key.
  - exfalso. revert H. apply ex_no_read_refused, ex_word_addrs.
  - exfalso. revert H. apply ex_no_write_refused, ex_word_addrs.
Defined.

Lemma unkeyed_atomic_reaches_guest_memory_witness :
  dp_mrs ex_dp = ∅ /\ peekn (dp_mem ex_dp) 0x12340 8 = [1; 1; 1; 1; 1; 1; 1; 1] /\
  peekn (dp_mem (dp_handle_wire 2 (ex_peer_msg IONIC_WIRE_ATOMIC_REQ 0 0 0x12340 []) false ex_dp).2) 0x12340 8 =
    [6; 1; 1; 1; 1; 1; 1; 1].
Proof.
  split; [reflexivity|]. split; [computes|].
  refine (@unkeyed_atomic_reaches_guest_memory ex_env ex_laws 2 (ex_peer_msg IONIC_WIRE_ATOMIC_REQ 0 0 0x12340 []) false ex_dp
    ltac:(bytes_by_computation) ltac:(computes) ltac:(computes) ltac:(computes) ltac:(computes) _ _).
  - vm_compute. by eexists.
  - intros bs Hb. do 8 (destruct bs as [|? bs]; [discriminate Hb|]). destruct bs; [computes|discriminate Hb].
Defined.
