(* ===== verification/DpQp.v ===== *)
(** * The life of a queue pair

    Registration, flush and destruction, as far as the requests a queue pair
    has outstanding go: what each leaves in the pending table, which replies
    can still complete, and what a qp_id that is used again inherits. *)
From S2P Require Export DpPeer.

Section settled.
Context {E : Env}.

(** No request of this queue pair is waiting for an answer. *)
Definition no_pending (qp_id : Z) (s : ionic_datapath) : Prop :=
  Forall (fun p => pending_of qp_id p = false) (dp_pending_tab s).

(** Requests only leave the table. *)
Definition settles (p p' : dp_pending) : Prop := p' = p \/ p' = p <| p_valid := false |>.
Definition pend_shrinks (s s' : ionic_datapath) : Prop :=
  Forall2 settles (dp_pending_tab s) (dp_pending_tab s').

#[global] Instance settles_preorder : PreOrder settles.
Proof. split; [by left|]. intros p p' p'' [-> | ->] [-> | ->]; unfold settles; auto. Qed.
#[global] Instance pend_shrinks_preorder : PreOrder pend_shrinks.
Proof.
  split; unfold pend_shrinks; [intros s; reflexivity|]. intros a b c H1 H2. by transitivity (dp_pending_tab b).
Qed.

Lemma shrinks_frame {A} F (m : DP A) :
  keeps (frame F) m -> flds_disj F [FPend] = true -> keeps pend_shrinks m.
Proof.
  intros Hm Hd s. unfold flds_disj in Hd. cbn -[bool_decide] in Hd. bdestr.
  pose proof (Hm s FPend ltac:(done)) as H1. cbn in H1. unfold pend_shrinks.
  replace (dp_pending_tab (m s).2) with (dp_pending_tab s) by congruence.
  apply Forall_Forall2_diag, Forall_true. by left.
Qed.

Lemma cancel_qp_tab q s :
  dp_pending_tab (pending_cancel_qp q s).2 =
  (fun p => if pending_of q p then p <| p_valid := false |> else p) <$> dp_pending_tab s.
Proof. done. Qed.

Lemma cancel_qp_shrinks q : keeps pend_shrinks (pending_cancel_qp q).
Proof.
  intros s. unfold pend_shrinks. rewrite cancel_qp_tab. apply Forall2_fmap_r, Forall_Forall2_diag, Forall_true.
  intros p. unfold settles, compose. destruct (pending_of q p); auto.
Qed.

Lemma cancel_qp_none q s : no_pending q (pending_cancel_qp q s).2.
Proof.
  unfold no_pending. rewrite cancel_qp_tab. apply Forall_fmap, Forall_true. intros p. cbn.
  destruct (pending_of q p) eqn:Hp; [done|exact Hp].
Qed.

Lemma upd_pending_drop_shrinks i : keeps pend_shrinks (upd_pending i (fun p => p <| p_valid := false |>)).
Proof.
  intros s. unfold pend_shrinks, upd_pending. cbn. apply Forall2_same_length_lookup_2; [by rewrite length_alter|].
  intros j p p' Hp Hp'. destruct (decide (i = j)) as [->|].
  - rewrite list_lookup_alter_eq, Hp in Hp'. injection Hp' as <-. by right.
  - rewrite list_lookup_alter_ne, Hp in Hp' by done. injection Hp' as <-. by left.
Qed.

Lemma no_pending_frame {A} F (m : DP A) q s :
  keeps (frame F) m -> flds_disj F [FPend] = true -> no_pending q s -> no_pending q (m s).2.
Proof.
  intros Hm Hd Hs. unfold flds_disj in Hd. cbn -[bool_decide] in Hd. bdestr.
  pose proof (Hm s FPend ltac:(done)) as H1. cbn in H1. unfold no_pending.
  by replace (dp_pending_tab (m s).2) with (dp_pending_tab s) by congruence.
Qed.

Lemma shrinks_at i s s' : pend_shrinks s s' -> settles (pending_at i s) (pending_at i s').
Proof.
  unfold pend_shrinks, pending_at. intros Hs. destruct (dp_pending_tab s !! i) as [p|] eqn:Hp.
  - destruct (Forall2_lookup_l _ _ _ _ _ Hs Hp) as (p' & Hp' & Hset).
    by rewrite (list_lookup_total_correct _ _ _ Hp), (list_lookup_total_correct _ _ _ Hp').
  - left. rewrite !list_lookup_total_alt, Hp. apply lookup_ge_None in Hp. rewrite (Forall2_length _ _ _ Hs) in Hp.
    by rewrite (proj2 (lookup_ge_None _ _) Hp).
Qed.

Lemma shrinks_invalid i s s' :
  pend_shrinks s s' -> p_valid (pending_at i s) = false -> p_valid (pending_at i s') = false.
Proof. intros [-> | ->]%(shrinks_at i); done. Qed.
End settled.

Ltac shrinks_step :=
  first [ eapply shrinks_frame; [solve [auto 2 with frame nocore] | reflexivity]
        | apply cancel_qp_shrinks | apply upd_pending_drop_shrinks | keeps_step ].

(** ** What posting a completion does to the queue pairs

    Only the counters of the queue pair it is for. *)
Section rdma_only.
Context {E : Env}.

Definition rdma_only (q : Z) (s s' : ionic_datapath) : Prop :=
  forall j, qp_at j s' = if decide (j = q) then (qp_at q s) <| q_rdma := q_rdma (qp_at q s') |> else qp_at j s.
#[global] Instance rdma_only_preorder q : PreOrder (rdma_only q).
Proof.
  split; [intros s j; case_decide; [subst; by destruct (qp_at q s)|done]|].
  intros a b c H1 H2 j. rewrite (H2 j). case_decide; [subst|by rewrite (H1 j), decide_False].
  by rewrite (H1 q), decide_True.
Qed.

Lemma rdma_only_frame {A} F (m : DP A) q : keeps (frame F) m -> flds_disj F [FQp] = true -> keeps (rdma_only q) m.
Proof.
  intros Hm Hd s j. unfold flds_disj in Hd. cbn -[bool_decide] in Hd. bdestr.
  pose proof (Hm s FQp ltac:(done)) as H1. cbn in H1. unfold qp_at. rewrite H1. case_decide; [subst; by destruct (dp_qp s !!! q)|done].
Qed.

Lemma dp_count_rdma_only q c : keeps (rdma_only q) (dp_count q c).
Proof.
  unfold dp_count. eapply (keeps_bind _); [eapply rdma_only_frame; [apply set_rdma_frame|reflexivity]|intros _].
  eapply (keeps_bind _); [apply (keeps_gets _)|]. intros [|]; [|apply (keeps_ret _)].
  intros s j. rewrite !qp_at_upd. case_decide; [|done]. by rewrite decide_True.
Qed.

Ltac rdma_only_step :=
  first [ apply dp_count_rdma_only | eapply rdma_only_frame; [solve [auto 2 with frame nocore] | reflexivity] | keeps_step ].

Lemma cq_post_rdma_only c body st ty q e : keeps (rdma_only q) (cq_post c body st ty q e).
Proof. unfold cq_post, dp_count_cqe_err. repeat rdma_only_step. Qed.

Lemma cq_post_flush_rdma_only c q ty : keeps (rdma_only q) (cq_post_flush c q ty).
Proof. apply cq_post_rdma_only. Qed.
Lemma cq_post_send_msn_rdma_only c q n st : keeps (rdma_only q) (cq_post_send_msn c q n st).
Proof. apply cq_post_rdma_only. Qed.
Lemma cq_post_send_npg_rdma_only c q n st : keeps (rdma_only q) (cq_post_send_npg c q n st).
Proof. apply cq_post_rdma_only. Qed.
End rdma_only.

Section flush.
Context {E : Env}.

Lemma flush_qp_shrinks q : keeps pend_shrinks (ionic_datapath_flush_qp q).
Proof. unfold ionic_datapath_flush_qp. repeat shrinks_step. Qed.
Lemma sq_fault_finish_shrinks q : keeps pend_shrinks (sq_fault_finish q).
Proof. unfold sq_fault_finish. repeat first [apply flush_qp_shrinks | shrinks_step]. Qed.

(** A request is completed once: its slot is free afterwards. *)
Lemma pending_complete_spec i st s :
  let s' := (pending_complete i st s).2 in
  pend_shrinks s s' /\ p_valid (pending_at i s') = false.
Proof.
  cbn zeta. unfold pending_complete. rewrite !run_bind, !run_gets. cbn [fst snd].
  match goal with |- context [((if ?b then ?x else ?y) s).2] => set (c := if b then x else y) end.
  assert (keeps pend_shrinks c) as Hc by (subst c; repeat shrinks_step).
  set (s1 := (c s).2). set (s2 := (upd_pending i _ s1).2).
  assert (pend_shrinks s s2) as H2 by (transitivity s1; [apply Hc|apply upd_pending_drop_shrinks]).
  assert (p_valid (pending_at i s2) = false) as Hv.
  { subst s2. unfold upd_pending, pending_at. cbn. destruct (dp_pending_tab s1 !! i) as [p|] eqn:Hp.
    - rewrite (list_lookup_total_correct _ _ (p <| p_valid := false |>)); [done|].
      by rewrite list_lookup_alter_eq, Hp.
    - rewrite list_lookup_total_alt, (proj2 (lookup_ge_None _ _)); [done|].
      rewrite length_alter. by apply lookup_ge_None. }
  destruct (_ && _); [|done]. pose proof (sq_fault_finish_shrinks (p_qp_id (pending_at i s)) s2) as H3.
  split; [by transitivity s2|by eapply shrinks_invalid].
Qed.

(** The completions a flush posts. *)
Definition flush_cqes (q : Z) (n : ionic_qp_ring) : DP unit :=
  cq_post_flush (q_sq_cq_id n) q CQE_TYPE_SEND_NPG ;;
  if q_has_srq n then mret tt else cq_post_flush (q_rq_cq_id n) q CQE_TYPE_RECV.

Lemma flush_cqes_rdma_only q n : keeps (rdma_only q) (flush_cqes q n).
Proof.
  unfold flush_cqes. eapply (keeps_bind _); [apply cq_post_flush_rdma_only|intros _].
  case_match; [apply (keeps_ret _)|apply cq_post_flush_rdma_only].
Qed.

(** What a flush does to a live queue pair: drained, unstalled, its requests
    withdrawn and its flush completions posted, all else as it was. *)
Lemma flush_qp_spec q s :
  live_qp q s = true ->
  let s' := (ionic_datapath_flush_qp q s).2 in
  dp_pending_tab s' = (fun p => if pending_of q p then p <| p_valid := false |> else p) <$> dp_pending_tab s /\
  qp_at q s' = (qp_at q s) <| q_sq_fault := false |> <| q_sq_rnr := false |>
    <| q_sq_busy := false |> <| q_sq_cons := q_sq_prod (qp_at q s) |> <| q_rdma := q_rdma (qp_at q s') |> /\
  (forall j, j <> q -> qp_at j s' = qp_at j s) /\
  exists s1, dp_cq s1 = dp_cq s /\ dp_mem s1 = dp_mem s /\ s' = (flush_cqes q (qp_at q s) s1).2.
Proof.
  intros Hl. cbn zeta. unfold ionic_datapath_flush_qp. unfold live_qp in Hl. rewrite run_bind, run_gets. cbn [fst snd].
  rewrite Hl. cbn [negb]. rewrite run_bind. set (s1 := (pending_cancel_qp q s).2).
  assert (dp_pending_tab s1 = _) as N1 by apply cancel_qp_tab. assert (dp_qp s1 = dp_qp s) as Q1 by done.
  assert (dp_cq s1 = dp_cq s /\ dp_mem s1 = dp_mem s) as M1 by done.
  rewrite run_bind, run_gets. cbn [fst snd]. rewrite run_bind. set (mc := dp_mesh_cancel_qp _). set (s2 := (mc s1).2).
  frame_fact mc s1 FQp Q2. frame_fact mc s1 FPend N2. frame_fact mc s1 FCq C2. frame_fact mc s1 FMem M2. fold s2 in Q2, N2, C2, M2.
  assert (forall j, qp_at j s2 = qp_at j s) as A2 by (intros; unfold qp_at; congruence). clearbody s1 s2.
  rewrite run_bind. destruct (sq_stall_clear_spec q s2) as (_ & Hq & Hj).
  frame_fact (sq_stall_clear q) s2 FPend N3. frame_fact (sq_stall_clear q) s2 FCq C3. frame_fact (sq_stall_clear q) s2 FMem M3.
  set (s3 := (sq_stall_clear q s2).2) in *. clearbody s3.
  rewrite run_bind. set (u := upd_qp q _). set (s4 := (u s3).2).
  assert (dp_pending_tab s4 = dp_pending_tab s3 /\ dp_cq s4 = dp_cq s3 /\ dp_mem s4 = dp_mem s3) as (N4 & C4 & M4) by done.
  assert (forall j, qp_at j s4 = if decide (j = q) then (qp_at q s3) <| q_sq_cons := q_sq_prod (qp_at q s3) |> else qp_at j s3)
    as A4 by (intros j; exact (qp_at_upd _ _ _ _)). clearbody s4.
  rewrite run_bind, run_gets. cbn [fst snd].
  replace (q_sq_cq_id (qp_at q s4)) with (q_sq_cq_id (qp_at q s)) by (by rewrite A4, decide_True, Hq, A2).
  replace (q_has_srq (qp_at q s4)) with (q_has_srq (qp_at q s)) by (by rewrite A4, decide_True, Hq, A2).
  replace (q_rq_cq_id (qp_at q s4)) with (q_rq_cq_id (qp_at q s)) by (by rewrite A4, decide_True, Hq, A2).
  fold (flush_cqes q (qp_at q s)). pose proof (flush_cqes_rdma_only q (qp_at q s) s4) as Hr.
  assert (keeps (frame cq_flds) (flush_cqes q (qp_at q s))) as Hf by (unfold flush_cqes; frame_auto).
  pose proof (frame_get _ _ FPend s4 Hf eq_refl) as N5. cbn [fld_same] in N5.
  split_and!; [congruence| | |].
  - rewrite (Hr q), decide_True, A4, decide_True, Hq, A2 by done. done.
  - intros j Hne. by rewrite (Hr j), decide_False, A4, decide_False, Hj, A2.
  - exists s4. split_and!; [intuition congruence|intuition congruence|done].
Qed.

Lemma flush_qp_core q s :
  live_qp q s = true ->
  qp_core (qp_at q (ionic_datapath_flush_qp q s).2) = qp_core ((qp_at q s) <| q_sq_fault := false |> <| q_sq_rnr := false |>
    <| q_sq_busy := false |> <| q_sq_cons := q_sq_prod (qp_at q s) |>).
Proof. intros Hl. by rewrite (proj1 (proj2 (flush_qp_spec q s Hl))). Qed.

(** ** Completing one request *)

(** The completion a request asked for, on its queue pair [n]'s send CQ. *)
Definition request_cqe (p : dp_pending) (st : Z) (n : ionic_qp_ring) (live : bool) : DP unit :=
  if live then
    if p_use_msn p then cq_post_send_msn (q_sq_cq_id n) (p_qp_id p) (p_msn p) st
    else if p_signalled p then cq_post_send_npg (q_sq_cq_id n) (p_qp_id p) (p_wqe_id p) st
    else mret tt
  else mret tt.

Definition freed (i : nat) (tab : list dp_pending) : list dp_pending := alter (fun p => p <| p_valid := false |>) i tab.

Lemma request_cqe_frame p st n live : keeps (frame cq_flds) (request_cqe p st n live).
Proof. unfold request_cqe. frame_auto. Qed.
Lemma request_cqe_rdma_only p st n live : keeps (rdma_only (p_qp_id p)) (request_cqe p st n live).
Proof.
  unfold request_cqe. repeat case_match; try apply (keeps_ret _);
    [apply cq_post_send_msn_rdma_only|apply cq_post_send_npg_rdma_only].
Qed.

Lemma lookup_total_fmap_id (f : dp_pending -> dp_pending) (l : list dp_pending) j :
  f inhabitant = inhabitant -> (f <$> l) !!! j = f (l !!! j).
Proof. intros Hf. rewrite !list_lookup_total_alt, list_lookup_fmap. by destruct (l !! j). Qed.

Lemma freed_at i j tab : freed i tab !!! j = if decide (j = i) then (tab !!! j) <| p_valid := false |> else tab !!! j.
Proof.
  unfold freed. rewrite !list_lookup_total_alt. case_decide; subst.
  - rewrite list_lookup_alter_eq. by destruct (tab !! i).
  - by rewrite list_lookup_alter_ne.
Qed.

Lemma sq_fault_finish_live q s : live_qp q s = true -> dp_pending_tab (sq_fault_finish q s).2 =
  if q_sq_fault (qp_at q s) && negb (pending_completes_qp q s)
  then (fun p => if pending_of q p then p <| p_valid := false |> else p) <$> dp_pending_tab s else dp_pending_tab s.
Proof.
  intros Hl. unfold sq_fault_finish. rewrite run_bind, run_gets. cbn [fst snd]. destruct (_ && _); [|done]. cbn [negb].
  rewrite run_bind, run_gets. cbn [fst snd]. rewrite run_bind. set (c := cq_post_send_npg _ _ _ _).
  pose proof (cq_post_send_npg_rdma_only (q_sq_cq_id (qp_at q s)) q (q_sq_cons (qp_at q s) mod q_sq_depth (qp_at q s))
    IONIC_STS_LOCAL_QP_OPER_ERR s q) as Hq. fold c in Hq. rewrite decide_True in Hq by done.
  frame_fact c s FPend Hp. frame_fact c s FCfg Hc. injection Hp as Hp _. injection Hc as Hc _.
  assert (live_qp q (c s).2 = true) as Hl2 by (unfold live_qp in *; by rewrite Hq, Hc).
  destruct (flush_qp_spec q (c s).2 Hl2) as [-> _]. by rewrite Hp.
Qed.

Lemma completes_false q s j :
  pending_completes_qp q s = false -> pending_of q (pending_at j s) = true ->
  p_use_msn (pending_at j s) || p_signalled (pending_at j s) = false.
Proof.
  unfold pending_completes_qp, pending_at. intros Hc Ho. rewrite list_lookup_total_alt in *.
  destruct (dp_pending_tab s !! j) as [p|] eqn:Hj; cbn in *; [|by vm_compute in Ho].
  destruct (p_use_msn p || p_signalled p) eqn:Hb; [|done]. rewrite <-not_true_iff_false in Hc. destruct Hc.
  apply existsb_exists. exists p. split; [by apply list_elem_of_In, list_elem_of_lookup_2 with j|]. by rewrite Ho, Hb.
Qed.

(** [s1] is [s] with the answer's data placed. *)
Lemma pending_complete_exact i st s s1 :
  dp_pending_tab s1 = dp_pending_tab s -> dp_qp s1 = dp_qp s -> dp_qp_count s1 = dp_qp_count s ->
  let p := pending_at i s in
  let s' := (pending_complete i st s1).2 in
  let s2 := (request_cqe p st (qp_at (p_qp_id p) s) (live_qp (p_qp_id p) s) s1).2 in
  let s3 := s2 <| dp_pending_tab := freed i (dp_pending_tab s) |> in
  let drains := live_qp (p_qp_id p) s && q_sq_fault (qp_at (p_qp_id p) s) && negb (pending_completes_qp (p_qp_id p) s3) in
  s' = (if drains then (sq_fault_finish (p_qp_id p) s3).2 else s3) /\
  p_valid (pending_at i s') = false /\
  forall j, j <> i -> pending_at j s' = pending_at j s \/
    drains = true /\ pending_of (p_qp_id p) (pending_at j s) = true /\
    p_use_msn (pending_at j s) || p_signalled (pending_at j s) = false.
Proof.
  intros Hp Hq Hn p s'.
  assert (pending_at i s1 = p /\ (forall j, qp_at j s1 = qp_at j s) /\ live_qp (p_qp_id p) s1 = live_qp (p_qp_id p) s) as (Hpi & Hqa & Hlv).
  { unfold p, pending_at, live_qp, qp_at. by rewrite Hp, Hq, Hn. }
  intros s2 s3 drains. set (q := p_qp_id p) in *.
  pose proof (request_cqe_rdma_only p st (qp_at q s) (live_qp q s) s1 q) as R2. rewrite decide_True in R2 by done.
  pose proof (frame_get _ _ FPend s1 (request_cqe_frame p st (qp_at q s) (live_qp q s)) eq_refl) as P2.
  pose proof (frame_get _ _ FCfg s1 (request_cqe_frame p st (qp_at q s) (live_qp q s)) eq_refl) as C2.
  cbn [fld_same] in P2, C2. injection P2 as P2 _. injection C2 as C2 _. fold s2 in R2, P2, C2.
  assert (s' = if live_qp q s then (sq_fault_finish q s3).2 else s3) as Hs'.
  { subst s'. unfold pending_complete. rewrite !run_bind, !run_gets. cbn [fst snd]. rewrite Hpi. fold q.
    fold (live_qp q s1). rewrite Hlv, Hqa.
    match goal with |- context [(upd_pending _ _ ?t).2] => change t with s2 end.
    assert ((upd_pending i (fun p => p <| p_valid := false |>) s2).2 = s3) as ->.
    { subst s3. unfold upd_pending. cbn. unfold freed. rewrite <-Hp, <-P2. by destruct s2. }
    destruct (live_qp q s); done. }
  assert (q_sq_fault (qp_at q s3) = q_sq_fault (qp_at q s)) as Hft.
  { change (qp_at q s3) with (qp_at q s2). by rewrite R2, Hqa. }
  assert (live_qp q s3 = live_qp q s) as Hl3.
  { unfold live_qp in *. change (qp_at q s3) with (qp_at q s2). rewrite R2, Hqa. change (dp_qp_count s3) with (dp_qp_count s2).
    by rewrite C2, Hn. }
  destruct (live_qp q s) eqn:Hl; cycle 1.
  { rewrite Hs'. cbn [andb] in drains. subst drains. unfold pending_at. cbn. rewrite freed_at, decide_True by done.
    split_and!; [done..|]. intros j Hj. left. by rewrite freed_at, decide_False. }
  pose proof (sq_fault_finish_live q s3 Hl3) as Ht. rewrite Hft in Ht. cbn [andb] in drains. fold drains in Ht.
  split.
  { rewrite Hs'. destruct drains eqn:Hd; [done|]. unfold sq_fault_finish. rewrite run_bind, run_gets. cbn [fst snd].
    subst drains. by rewrite Hft, Hd. }
  rewrite <-Hs' in Ht. unfold pending_at. rewrite Ht.
  change (dp_pending_tab s3) with (freed i (dp_pending_tab s)). destruct drains eqn:Hd.
  - subst drains. apply andb_true_iff in Hd as [_ Hd]. apply negb_true_iff in Hd. split.
    + rewrite lookup_total_fmap_id by (by vm_compute). rewrite freed_at, decide_True by done. by case_match.
    + intros j Hj. rewrite lookup_total_fmap_id by (by vm_compute). pose proof (completes_false q s3 j Hd) as Hc.
      unfold pending_at in Hc. change (dp_pending_tab s3) with (freed i (dp_pending_tab s)) in Hc.
      rewrite freed_at, decide_False in * by done. destruct (pending_of q _); [right|by left]. auto.
  - rewrite freed_at, decide_True by done. split; [done|]. intros j Hj. left. by rewrite freed_at, decide_False.
Qed.
End flush.

Section register.
Context {E : Env} {T : Targets} {TL : TargetsLaws}.

(** What placing the rings leaves alone. *)
Definition reg_same (q : Z) (s s' : ionic_datapath) : Prop :=
  dp_qp_count s' = dp_qp_count s /\ dp_next_mesh_id s' = dp_next_mesh_id s /\
  q_qkey (qp_at q s') = q_qkey (qp_at q s) /\ q_qkey_valid (qp_at q s') = q_qkey_valid (qp_at q s).
#[local] Instance reg_same_preorder q : PreOrder (reg_same q).
Proof. unfold reg_same. split; [done|]. intros a b c. intuition congruence. Qed.

Lemma reg_same_frame {A} F (m : DP A) q :
  keeps (frame F) m -> flds_disj F [FQp; FMeshId; FCfg] = true -> keeps (reg_same q) m.
Proof.
  intros Hm Hd s. unfold flds_disj in Hd. cbn -[bool_decide] in Hd. bdestr.
  pose proof (Hm s FQp ltac:(done)) as F1. pose proof (Hm s FMeshId ltac:(done)) as F2.
  pose proof (Hm s FCfg ltac:(done)) as F3. cbn in F1, F2, F3. unfold reg_same, qp_at.
  rewrite F1. split_and!; try done; congruence.
Qed.

Lemma reg_same_upd q f :
  (forall r, q_qkey (f r) = q_qkey r /\ q_qkey_valid (f r) = q_qkey_valid r) -> keeps (reg_same q) (upd_qp q f).
Proof.
  intros Hf s. unfold reg_same. rewrite qp_at_upd, decide_True by done. split_and!; [done|done|apply Hf|apply Hf].
Qed.

(** The state of a queue pair that has just been registered over an id whose
    Q_Key was [k]. *)
Definition qp_fresh (q mesh_id : Z) (k : Z * bool) (s : ionic_datapath) : Prop :=
  let n := qp_at q s in
  (live_qp q s = true /\ no_pending q s) /\
  (stalled n = false /\ q_sq_fault n = false) /\
  (q_sq_prod n = 0 /\ q_sq_cons n = 0 /\ q_rq_prod n = 0 /\ q_rq_cons n = 0 /\ q_msn n = 0) /\
  (q_dest_valid n = false /\ q_has_srq n = false /\ q_rdma n = no_counts) /\
  q_mesh_id n = mesh_id /\ (q_qkey n, q_qkey_valid n) = k.

(** The fields registration writes once the rings are in place. *)
Lemma register_qp_tail q (f : ionic_qp_ring -> ionic_qp_ring) s :
  q < dp_qp_count s -> (forall r, q_qkey (f r) = q_qkey r /\ q_qkey_valid (f r) = q_qkey_valid r) ->
  qp_fresh q (u32 (dp_next_mesh_id s + 1)) (q_qkey (qp_at q s), q_qkey_valid (qp_at q s))
    ((upd_qp q f ;; sq_stall_clear q ;;
      upd_qp q (fun q => q <| q_sq_cons := 0 |> <| q_sq_prod := 0 |> <| q_rq_prod := 0 |>
                               <| q_rq_cons := 0 |> <| q_msn := 0 |>) ;;
      _ ← pending_cancel_qp q;
      modify (fun s => s <| dp_next_mesh_id ::= fun n => u32 (n + 1) |>) ;;
      mesh_id ← gets dp_next_mesh_id;
      upd_qp q (fun q => q <| q_mesh_id := mesh_id |> <| q_dest_valid := false |>
        <| q_dest_node_id := UINT32_MAX |> <| q_has_srq := false |> <| q_srq_id := 0 |>
        <| q_rdma := no_counts |> <| q_valid := true |>) ;; (mret 0 : DP Z)) s).2.
Proof.
  intros Hq Hf. destruct (Hf (qp_at q s)) as [K1 K2].
  rewrite run_bind. set (s1 := (upd_qp q f s).2). assert (qp_at q s1 = f (qp_at q s)) as A1.
  { subst s1. by rewrite qp_at_upd, decide_True. }
  assert (dp_qp_count s1 = dp_qp_count s /\ dp_next_mesh_id s1 = dp_next_mesh_id s) as [C1 D1] by done. clearbody s1.
  rewrite run_bind. destruct (sq_stall_clear_spec q s1) as (_ & A2 & _). frame_fact (sq_stall_clear q) s1 FCfg C2.
  frame_fact (sq_stall_clear q) s1 FMeshId D2. set (s2 := (sq_stall_clear q s1).2) in *. clearbody s2.
  assert (dp_qp_count s2 = dp_qp_count s1) as C2' by congruence.
  rewrite run_bind. set (u := upd_qp q _). set (s3 := (u s2).2).
  assert (qp_at q s3 = (qp_at q s2) <| q_sq_cons := 0 |> <| q_sq_prod := 0 |> <| q_rq_prod := 0 |>
     <| q_rq_cons := 0 |> <| q_msn := 0 |>) as A3 by (subst s3 u; by rewrite qp_at_upd, decide_True).
  assert (dp_qp_count s3 = dp_qp_count s2 /\ dp_next_mesh_id s3 = dp_next_mesh_id s2) as [C3 D3] by done. clearbody s3.
  rewrite run_bind. pose proof (cancel_qp_none q s3) as N4. set (s4 := (pending_cancel_qp q s3).2) in *.
  assert (qp_at q s4 = qp_at q s3 /\ dp_qp_count s4 = dp_qp_count s3 /\ dp_next_mesh_id s4 = dp_next_mesh_id s3)
    as (A4 & C4 & D4) by done. clearbody s4.
  rewrite run_bind, run_modify. cbn [fst snd]. set (s5 := s4 <| dp_next_mesh_id ::= _ |>).
  assert (qp_at q s5 = qp_at q s4 /\ dp_qp_count s5 = dp_qp_count s4 /\ no_pending q s5 /\
    dp_next_mesh_id s5 = u32 (dp_next_mesh_id s4 + 1)) as (A5 & C5 & N5 & D5) by done. clearbody s5.
  rewrite run_bind, run_gets. cbn [fst snd]. rewrite run_bind, run_ret. cbn [snd].
  unfold qp_fresh, live_qp. rewrite qp_at_upd, decide_True by done.
  rewrite A5, A4, A3, A2, A1, D5, D4, D3, D2, D1, <-K1, <-K2.
  assert (dp_qp_count s5 = dp_qp_count s) as C6 by congruence.
  split_and!; try done. cbn. rewrite C6, (proj2 (Z.ltb_lt _ _)) by done. done.
Qed.

Lemma register_qp_spec q ty sc sq rc rq s :
  let r := ionic_datapath_register_qp q ty sc sq rc rq s in
  r.1 = 0 ->
  qp_fresh q (u32 (dp_next_mesh_id s + 1)) (q_qkey (qp_at q s), q_qkey_valid (qp_at q s)) r.2.
Proof.
  cbn zeta. unfold ionic_datapath_register_qp. rewrite run_bind, run_gets. cbn [fst snd].
  destruct (_ <=? q) eqn:Hq; [done|]. bdestr. destruct (_ || _); [done|].
  set (bi := ionic_dp_buf_init (rd_buf sq) _ _). rewrite run_bind.
  assert (keeps (reg_same q) bi) as H1 by (eapply reg_same_frame; [subst bi; auto 2 with frame nocore|reflexivity]).
  specialize (H1 s). destruct (bi s) as [[rc1 sb] s1]. cbn [fst snd] in *.
  rewrite run_bind. set (s2 := (upd_qp q _ s1).2).
  assert (reg_same q s s2) as H2 by (transitivity s1; [done|by apply reg_same_upd]). clearbody s2. clear H1.
  rewrite run_bind. match goal with |- context [(?m s2).1] => assert (keeps (reg_same q) m) as H3;
    [|specialize (H3 s2); destruct (m s2) as [rc2 s3]] end.
  { destruct (rc1 =? 0); [|apply (keeps_ret _)]. eapply (keeps_bind _); [eapply reg_same_frame; [auto 2 with frame nocore|reflexivity]|].
    intros [rc2 rb]. eapply (keeps_bind _); [by apply reg_same_upd|]. intros _. apply (keeps_ret _). }
  cbn [fst snd] in *. destruct (rc2 <? 0) eqn:Hr; bdestr.
  { rewrite run_bind, run_ret. cbn [fst]. lia. }
  intros _. destruct H2 as (E1 & E2 & E3 & E4), H3 as (G1 & G2 & G3 & G4).
  rewrite <-E2, <-G2, <-E3, <-G3, <-E4, <-G4. apply register_qp_tail; [lia|done].
Qed.

Lemma unregister_qp_spec q s :
  q < dp_qp_count s ->
  let s' := (ionic_datapath_unregister_qp q s).2 in
  no_pending q s' /\
  qp_at q s' = (qp_at q s) <| q_sq_fault := false |> <| q_sq_rnr := false |> <| q_sq_busy := false |>
    <| q_sq_buf := inhabitant |> <| q_rq_buf := inhabitant |> <| q_valid := false |> /\
  forall j, j <> q -> qp_at j s' = qp_at j s.
Proof.
  intros Hq. cbn zeta. unfold ionic_datapath_unregister_qp. rewrite run_bind, run_gets. cbn [fst snd].
  rewrite (proj2 (Z.leb_gt _ _)) by done. rewrite run_bind. frame_fact (ionic_dp_nvmeof_drop_qp q) s FQp A1.
  set (s1 := (ionic_dp_nvmeof_drop_qp q s).2) in *. clearbody s1. rewrite run_bind. pose proof (cancel_qp_none q s1) as N2.
  set (s2 := (pending_cancel_qp q s1).2) in *. assert (dp_qp s2 = dp_qp s1) as A2 by done. clearbody s2.
  rewrite run_bind. destruct (sq_stall_clear_spec q s2) as (_ & A3 & B3).
  assert (no_pending q (sq_stall_clear q s2).2) as N3 by (eapply no_pending_frame; [auto with frame nocore|reflexivity|done]).
  set (s3 := (sq_stall_clear q s2).2) in *. clearbody s3.
  assert (forall j, qp_at j s2 = qp_at j s) as Hs by (intros j; unfold qp_at; congruence).
  split_and!; [exact N3| |].
  - by rewrite qp_at_upd, decide_True, A3, Hs.
  - intros j Hne. by rewrite qp_at_upd, decide_False, B3, Hs.
Qed.
End register.

Section qp_claims.
Context {E : Env} {T : Targets} {TL : TargetsLaws}.

(** C28: flushing a live queue pair leaves it drained (consumer at producer),
    unstalled and with no request waiting for an answer, posts its flush
    completions, and changes nothing else of it but its counters; no other
    queue pair changes and no request of another is withdrawn. *)
Theorem flush_qp_drains q s :
  live_qp q s = true ->
  let s' := (ionic_datapath_flush_qp q s).2 in
  no_pending q s' /\
  dp_pending_tab s' = (fun p => if pending_of q p then p <| p_valid := false |> else p) <$> dp_pending_tab s /\
  qp_at q s' = (qp_at q s) <| q_sq_fault := false |> <| q_sq_rnr := false |>
    <| q_sq_busy := false |> <| q_sq_cons := q_sq_prod (qp_at q s) |> <| q_rdma := q_rdma (qp_at q s') |> /\
  (forall j, j <> q -> qp_at j s' = qp_at j s) /\
  exists s1, dp_cq s1 = dp_cq s /\ dp_mem s1 = dp_mem s /\ s' = (flush_cqes q (qp_at q s) s1).2.
Proof.
  intros Hl. destruct (flush_qp_spec q s Hl) as (Hp & H). cbv zeta. split; [|done].
  unfold no_pending. rewrite Hp. exact (cancel_qp_none q s).
Qed.

(** C27: an answer from the mesh completes at most one request.  One that
    matches no outstanding request changes nothing at all.  One that does
    match places the answer's data, posts the one completion the request
    asked for, and frees that request's slot and no other, so that a second
    copy finds nothing; if the queue pair was in fault and this was the last
    completion it waited for, it is then flushed, which withdraws only
    requests of its own that were to complete silently. *)
Theorem response_completes_once node msg retry s :
  let h := ionic_dp_wire_hdr_get msg in
  let s' := (dp_handle_wire node msg retry s).2 in
  h_magic h = IONIC_WIRE_MAGIC -> is_response_op (h_op h) = true ->
  match pending_find (h_req_id h) s with
  | None => s' = s
  | Some i =>
      let p := pending_at i s in
      (p_valid p = true /\ p_req_id p = h_req_id h) /\
      exists st s1,
        (dp_pending_tab s1 = dp_pending_tab s /\ dp_cq s1 = dp_cq s /\ dp_qp s1 = dp_qp s) /\
        (h_op h = IONIC_WIRE_ACK \/ h_status h <> IONIC_STS_OK -> s1 = s /\ st = h_status h) /\
        let s2 := (request_cqe p st (qp_at (p_qp_id p) s) (live_qp (p_qp_id p) s) s1).2 in
        let s3 := s2 <| dp_pending_tab := freed i (dp_pending_tab s) |> in
        let drains := live_qp (p_qp_id p) s && q_sq_fault (qp_at (p_qp_id p) s) && negb (pending_completes_qp (p_qp_id p) s3) in
        s' = (if drains then (sq_fault_finish (p_qp_id p) s3).2 else s3) /\
        p_valid (pending_at i s') = false /\
        forall j, j <> i -> pending_at j s' = pending_at j s \/
          drains = true /\ pending_of (p_qp_id p) (pending_at j s) = true /\
          p_use_msn (pending_at j s) || p_signalled (pending_at j s) = false
  end.
Proof.
  intros h s' Hm Ho. subst s'. rewrite handle_response by done. fold h. unfold dp_wire_response. rewrite run_bind, run_gets.
  cbn [fst snd]. destruct (pending_find (h_req_id h) s) as [i|] eqn:Hf; [|done]. cbv zeta. split.
  { unfold pending_find in Hf. destruct (list_find _ _) as [[i' p]|] eqn:Hl; cbn in Hf; simplify_eq.
    apply list_find_Some in Hl as (Hi & Hp & _). unfold pending_at. by rewrite (list_lookup_total_correct _ _ _ Hi). }
  rewrite run_bind, run_gets. cbn [fst snd]. rewrite run_bind.
  match goal with |- context [((if ?b then ?x else ?y) s).2] => set (c := if b then x else y) end.
  assert (keeps (frame [FMem; FFault; FStats]) c) as Hc by (subst c; frame_auto).
  pose proof (frame_get _ _ FPend s Hc eq_refl) as Hp. pose proof (frame_get _ _ FCq s Hc eq_refl) as Hq.
  pose proof (frame_get _ _ FQp s Hc eq_refl) as Hqp. pose proof (frame_get _ _ FCfg s Hc eq_refl) as Hcf.
  cbn [fld_same] in *. injection Hp as Hp _. assert (dp_qp_count (c s).2 = dp_qp_count s) as Hn by congruence.
  exists (c s).1, (c s).2. split; [done|]. split.
  { intros Hs. subst c. destruct (_ && _) eqn:Hb; [|done]. apply andb_true_iff in Hb as [H1 H2]. bdestr. by destruct Hs. }
  exact (pending_complete_exact i (c s).1 s (c s).2 Hp Hqp Hn).
Qed.

(** Registering a queue pair under an id, used before or not, gives one
    with empty rings, no peer, no shared receive queue, no stall, no
    outstanding request and a mesh identity of its own. *)
Theorem register_qp_is_new q ty sc sq rc rq s :
  let r := ionic_datapath_register_qp q ty sc sq rc rq s in
  let n := qp_at q r.2 in
  r.1 = 0 ->
  (live_qp q r.2 = true /\ no_pending q r.2) /\ (stalled n = false /\ q_sq_fault n = false) /\
  (q_sq_prod n = 0 /\ q_sq_cons n = 0 /\ q_rq_prod n = 0 /\ q_rq_cons n = 0 /\ q_msn n = 0) /\
  (q_dest_valid n = false /\ q_has_srq n = false /\ q_rdma n = no_counts) /\
  q_mesh_id n = u32 (dp_next_mesh_id s + 1).
Proof. intros r n Hr. destruct (register_qp_spec q ty sc sq rc rq s Hr) as (? & ? & ? & ? & ? & _). done. Qed.

(** C32: the Q_Key is the exception.  A queue pair destroyed and created again
    under the same id, with no MODIFY_QP in between, still has the key its
    predecessor was given. *)
Theorem reused_qp_inherits_qkey q k ty sc sq rc rq s :
  let s1 := (ionic_datapath_set_qkey q k s).2 in
  let s2 := (ionic_datapath_unregister_qp q s1).2 in
  let r := ionic_datapath_register_qp q ty sc sq rc rq s2 in
  live_qp q s = true -> r.1 = 0 ->
  q_qkey (qp_at q r.2) = k /\ q_qkey_valid (qp_at q r.2) = true.
Proof.
  intros s1 s2 r Hl Hr. destruct (register_qp_spec q ty sc sq rc rq s2 Hr) as (_ & _ & _ & _ & _ & Hk).
  fold r in Hk. unfold live_qp in Hl. bdestr.
  assert (qp_at q s1 = (qp_at q s) <| q_qkey := k |> <| q_qkey_valid := true |> /\ dp_qp_count s1 = dp_qp_count s) as [H1 Hc].
  { subst s1. unfold ionic_datapath_set_qkey. rewrite run_bind, run_gets. cbn [fst snd]. unfold live_qp.
    rewrite (proj2 (Z.ltb_lt _ _)), H0 by done. cbn [andb]. by rewrite qp_at_upd, decide_True. }
  destruct (unregister_qp_spec q s1) as (_ & H2 & _); [lia|]. fold s2 in H2. rewrite H2, H1 in Hk.
  cbn in Hk. by injection Hk as -> ->.
Qed.
End qp_claims.

(** ** A device with a completion queue and a queue pair. *)
Definition ex_qp_op : ST (@ionic_datapath ex_env) Z :=
  ionic_datapath_register_qp (T := no_targets) 1 2 0 (ex_ring 0x10000 6) 0 (ex_ring 0x11000 6).
Definition ex_qp_dp : @ionic_datapath ex_env :=
  (ex_qp_op (ionic_datapath_register_cq 0 0 (ex_ring 0x20000 5) ex_peer_dp).2).2.

(** The same with a READ of that queue pair outstanding at node 2. *)
Definition ex_pending_dp : @ionic_datapath ex_env :=
  (upd_pending 0 (fun p => p <| p_valid := true |> <| p_req_id := 41 |> <| p_qp_id := 1 |>
    <| p_signalled := true |> <| p_dest_node := 2 |> <| p_length := 2 |> <| p_reply_bytes := 62 |>) ex_qp_dp).2.

Lemma flush_qp_drains_witness :
  p_valid (pending_at 0 ex_pending_dp) = true /\ no_pending 1 (ionic_datapath_flush_qp 1 ex_pending_dp).2 /\
  exists s1 : @ionic_datapath ex_env, c_prod (cq_at 0 s1) = 0 /\
    (ionic_datapath_flush_qp 1 ex_pending_dp).2 = (flush_cqes 1 (qp_at 1 ex_pending_dp) s1).2.
Proof.
  destruct (@flush_qp_drains ex_env 1 ex_pending_dp ltac:(computes)) as (Hn & _ & _ & _ & s1 & Hc & _ & Hs).
  split; [computes|]. split; [exact Hn|]. exists s1. split; [|exact Hs]. unfold cq_at. rewrite Hc. computes.
Defined.

Lemma response_completes_once_witness :
  let s' := (dp_handle_wire 2 (ex_peer_msg IONIC_WIRE_ACK 0 0 0 []) false ex_pending_dp).2 in
  (p_valid (pending_at 0 ex_pending_dp) = true /\ c_prod (cq_at 0 ex_pending_dp) = 0) /\
  p_valid (pending_at 0 s') = false /\ c_prod (cq_at 0 s') = 1.
Proof.
  split; [split; computes|].
  assert (pending_find (h_req_id (ionic_dp_wire_hdr_get (ex_peer_msg IONIC_WIRE_ACK 0 0 0 []))) ex_pending_dp = Some 0%nat)
    as Hf by (vm_compute; reflexivity).
  pose proof (@response_completes_once ex_env 2 (ex_peer_msg IONIC_WIRE_ACK 0 0 0 []) false ex_pending_dp
    ltac:(vm_compute; reflexivity) ltac:(vm_compute; reflexivity)) as H.
  rewrite Hf in H. destruct H as (_ & st & s1 & _ & Hack & Heq & Hv & _). split; [exact Hv|].
  assert (h_op (ionic_dp_wire_hdr_get (ex_peer_msg IONIC_WIRE_ACK 0 0 0 [])) = IONIC_WIRE_ACK) as Ha by computes.
  destruct (Hack (or_introl Ha)) as [-> ->]. rewrite Heq. computes.
Defined.

Lemma register_qp_is_new_witness :
  let n := qp_at 1 (ex_qp_op ex_pending_dp).2 in q_dest_valid n = false /\ no_pending 1 (ex_qp_op ex_pending_dp).2.
Proof.
  pose proof (@register_qp_is_new ex_env no_targets 1 2 0 (ex_ring 0x10000 6) 0
    (ex_ring 0x11000 6) ex_pending_dp ltac:(vm_compute; reflexivity)) as (H1 & _ & _ & H2 & _).
  exact (conj (proj1 H2) (proj2 H1)).
Defined.

Lemma reused_qp_inherits_qkey_witness :
  let s1 := (ionic_datapath_set_qkey 1 0x11111111 ex_qp_dp).2 in
  let s2 := (ionic_datapath_unregister_qp (T := no_targets) 1 s1).2 in
  q_qkey (qp_at 1 (ex_qp_op s2).2) = 0x11111111 /\ q_qkey_valid (qp_at 1 (ex_qp_op s2).2) = true.
Proof.
  exact (@reused_qp_inherits_qkey ex_env no_targets no_targets_laws 1 0x11111111 2 0 (ex_ring 0x10000 6) 0
    (ex_ring 0x11000 6) ex_qp_dp ltac:(vm_compute; reflexivity) ltac:(vm_compute; reflexivity)).
Defined.
