(* ===== verification/DpData.v ===== *)
(** * Data movement

    The properties of the paths guest data takes: translation of a buffer
    offset or a keyed address, the memory region table, the scatter/gather
    lists of a work request, and the copies between them, each against the
    per-byte reference [buf_byte], [addr_at] or [sgl_addr]. *)
From S2P Require Export DpQp.

(** ** Translation *)

(** The walk of a buffer's page table, which joins consecutive pages into
    one run, agrees byte for byte with looking each byte's page up on its
    own, and it reports no run exactly when the buffer has no such byte. *)
Theorem buf_gpa_translates b off gpa run :
  buf_wf b -> fits 64 off -> buf_gpa b off = (gpa, run) ->
  fits 64 gpa /\ 0 <= run /\ (run = 0 <-> buf_byte b off = None) /\
  forall i, 0 <= i < run -> gpa + i < 2 ^ 64 -> buf_byte b (off + i) = Some (gpa + i).
Proof.
  intros Hb Ho Hg. pose proof (buf_gpa_range b Hb off Ho) as [Hf Hr]. pose proof (buf_gpa_none b Hb off Ho) as Hn.
  rewrite Hg in Hf, Hr, Hn. split_and!; try done. intros i. by apply buf_gpa_bytes.
Qed.

(** Three pages of 4 KiB, the first two adjacent. *)
Definition ex_buf : dp_buf := DpBuf 0 (Some [0x10000; 0x11000; 0x40000]) 3 12 0x100.
Lemma ex_buf_wf : buf_wf ex_buf.
Proof.
  unfold buf_wf, fits, ERNIC_MAX_PAGE_TABLE_ENTRIES, DP_PAGE_SIZE_LOG2_MAX. cbn. split_and!; try lia.
  repeat constructor; lia.
Qed.

Lemma buf_gpa_translates_witness :
  buf_gpa ex_buf 0x80 = (0x10180, 0x1e80) /\ buf_byte ex_buf (0x80 + 0x1000) = Some (0x10180 + 0x1000).
Proof.
  split; [reflexivity|].
  destruct (buf_gpa_translates ex_buf 0x80 0x10180 0x1e80 ex_buf_wf ltac:(unfold fits; lia) ltac:(computes))
    as (_ & _ & _ & H).
  apply H; lia.
Defined.

Section data.
Context {E : Env} {ML : GuestMemLaws Mem}.

(** Describing a buffer to the device either fails and leaves it with no
    address and no page table, or leaves the direct address given, or the
    page table guest memory holds at that moment, no longer than the pages
    the span can touch. *)
Theorem buf_init_reads_table desc va span s :
  desc_ok desc -> fits 64 span ->
  let r := (ionic_dp_buf_init desc va span s).1 in
  dp_mem (ionic_dp_buf_init desc va span s).2 = dp_mem s /\
  (r.1 < 0 /\ b_pages r.2 = None /\ b_npages r.2 = 0 /\ b_base r.2 = 0 \/
   r.1 = 0 /\ buf_init_post (dp_mem s) desc va span r.2 /\ buf_wf r.2).
Proof.
  intros Hd Hs r. split; [by frame_fact (ionic_dp_buf_init desc va span) s FMem H|].
  destruct (buf_init_cases desc va span s Hd Hs) as [?|[H1 H2]]; [by left|right].
  split_and!; [done|done|]. by apply (buf_init_post_wf _ _ _ _ _ Hd Hs H2).
Qed.

(** After a registration, the slot its key names answers to that key only
    and only if the registration succeeded, with the region it gave; every
    key of another slot is bound as before. *)
Theorem register_mr_binds lkey slot va len buf s key :
  ionic_mr_slot lkey = Some slot ->
  let r := ionic_datapath_register_mr lkey va len buf s in
  let b := (ionic_dp_buf_init buf va len s).1.2 in
  mr_find key r.2 =
  if decide (ionic_mr_slot key = Some slot) then
    if (0 <=? r.1) && (lkey =? key) then Some (DpMr true lkey va len b) else None
  else mr_find key s.
Proof. apply register_mr_find. Qed.

(** LOCAL_INV of a key unbinds that key and no other, in particular not a
    newer key of the same slot. *)
Theorem local_inv_unbinds key key' s :
  mr_find key' (dp_local_inv key s).2 = if decide (key' = key) then None else mr_find key' s.
Proof. apply mr_find_local_inv. Qed.

(** A keyed range is covered exactly when the key is bound and the whole
    range lies inside the region, for any 64-bit address and length. *)
Theorem mr_covers_exact key va len s :
  mrs_wf s -> key <> 0 -> fits 64 va -> fits 64 len ->
  ionic_dp_mr_covers key va len s = true <->
  exists m, mr_find key s = Some m /\ mr_va m <= va /\ va + len <= mr_va m + mr_length m.
Proof. apply mr_covers_spec. Qed.

(** ** Lists *)

(** A work request's list is refused for an unknown format, and otherwise
    has at most ERNIC_MAX_SGE entries, all inside the request, whose lengths
    are summed without wrap-around: a sum past 32 bits is reported as too
    long and the total held at the maximum. *)
Theorem parse_sges_bounded wqe wqe_len num_sge :
  bytes_ok wqe -> 0 <= num_sge ->
  let r := parse_sges wqe wqe_len num_sge in
  r = (DP_SGL_BAD_FMT, inhabitant) \/
  exists n : nat,
    sl_sges r.2 = sge_at wqe (Z.to_nat (sgl_start wqe)) <$> seq 0 n /\
    Z.of_nat n <= ERNIC_MAX_SGE /\ Z.of_nat n <= num_sge /\
    (n <> 0%nat -> sgl_start wqe + 16 * Z.of_nat n <= wqe_len) /\
    sl_total r.2 = Z.min UINT32_MAX (sumZ (sg_len <$> sl_sges r.2)) /\
    r.1 = if sumZ (sg_len <$> sl_sges r.2) <=? UINT32_MAX then DP_SGL_OK else DP_SGL_TOO_LONG.
Proof. apply parse_sges_cases. Qed.

(** Scattering bytes into a list changes only bytes the list names,
    writes them in order from the first, and stops short only where an
    address is not mapped or guest memory failed, leaving the fault set. *)
Theorem scatter_writes l src len s :
  mrs_wf s -> Forall sge_ok (sl_sges l) -> 0 <= len < 2 ^ 32 -> len <= Z.of_nat (length src) ->
  let r := dp_scatter l src len s in
  wrote (sgl_addr s (sl_sges l)) src len 0 r.1 (dp_mem s) (dp_mem r.2) /\
  (r.1 < len -> sgl_addr s (sl_sges l) r.1 = None \/ dp_fault r.2 <> IONIC_STS_OK).
Proof. apply scatter_spec. Qed.

(** Gathering a list yields at most the length asked for, byte [i] of the
    result being what guest memory holds at byte [i] of the list, changes no
    memory, and stops short only where the list has no address or a read
    failed. *)
Theorem gather_reads l len s :
  mrs_wf s -> Forall sge_ok (sl_sges l) -> 0 <= len < 2 ^ 32 ->
  let r := ionic_dp_gather l len s in
  dp_mem r.2 = dp_mem s /\ Z.of_nat (length r.1) <= len /\
  (forall i, (i < length r.1)%nat ->
    exists x, sgl_addr s (sl_sges l) (Z.of_nat i) = Some x /\ r.1 !! i = Some (peek (dp_mem s) x)) /\
  (Z.of_nat (length r.1) < len ->
    sgl_addr s (sl_sges l) (Z.of_nat (length r.1)) = None \/ dp_fault r.2 <> IONIC_STS_OK).
Proof.
  intros Hm Hl Hn r. split; [by frame_fact (ionic_dp_gather l len) s FMem H|by apply gather_spec].
Qed.

(** C30: an RDMA READ or WRITE within the device copies the list's bytes to or
    from the remote range in order, whatever pieces either side is in,
    changes nothing but the destination, and stops short only where either
    side has no address or guest memory failed. *)
Theorem rdma_xfer_copies l rkey rva len dir s :
  mrs_wf s -> Forall sge_ok (sl_sges l) -> 0 <= len < 2 ^ 32 -> fits 64 rva ->
  let r := rdma_xfer l rkey rva len dir s in
  moved (rdma_dst s (sl_sges l) rkey rva dir) (rdma_src s (sl_sges l) rkey rva dir)
    len 0 r.1 (dp_mem s) (dp_mem r.2) /\
  (r.1 < len -> rdma_src s (sl_sges l) rkey rva dir r.1 = None \/
     rdma_dst s (sl_sges l) rkey rva dir r.1 = None \/ dp_fault r.2 <> IONIC_STS_OK).
Proof. apply rdma_xfer_spec. Qed.

(** A local atomic that succeeds read the old value from one keyed
    eight-byte word, left the new value there and the old one in the local
    buffer, and changed no other byte; one that fails leaves the fault set. *)
Theorem local_atomic wqe cs s :
  mrs_wf s -> bytes_ok wqe ->
  let res := do_atomic wqe cs s in
  if res.1 then exists r l, atomic_done s res.2 wqe cs r l else dp_fault res.2 <> IONIC_STS_OK.
Proof. apply do_atomic_spec. Qed.


(** The data a work request may name is bounded before anything is moved:
    its total fits 32 bits and is the sum of its entries, and inline data is
    taken from the request's own bytes and nowhere else. *)
Theorem wqe_src_confined wqe gpa read_sz op flags src s :
  bytes_ok wqe -> 32 <= read_sz < 2 ^ 32 -> 0 <= gpa -> gpa + read_sz < 2 ^ 64 ->
  wqe_src wqe gpa read_sz op flags = inr src ->
  Forall sge_ok (sl_sges src) /\ sl_total src = sgl_sum (sl_sges src) /\ sl_total src <= UINT32_MAX /\
  (is_atomic_op op = false -> Z.land flags IONIC_V1_FLAG_INL <> 0 ->
   forall i x, 0 <= i -> sgl_addr s (sl_sges src) i = Some x -> gpa + 32 <= x < gpa + read_sz).
Proof.
  intros Hw Hn Hg Hge Hs. destruct (wqe_src_ok _ _ _ _ _ _ Hw Hs) as (H1 & H2 & H3). split_and!; try done; [lia|].
  intros Ha Hi i x Hx0. unfold wqe_src in Hs. unfold is_atomic_op in Ha. rewrite Ha in Hs.
  rewrite (proj2 (Z.eqb_neq _ _) Hi) in Hs. cbn [negb] in Hs. change (Z.of_nat WQE_PLD_OFF) with 32 in *.
  rewrite wrap_id in Hs by (unfold fits; lia). destruct (_ <? _) eqn:Hl; [done|]. bdestr. injection Hs as <-.
  cbn [sl_sges sgl_addr sg_len sg_lkey sg_va]. rewrite wrap_id by (unfold fits; lia).
  destruct (i <? _) eqn:Hil; [|done]. bdestr. unfold addr_at, key_byte. cbn [Z.eqb].
  rewrite wrap_id by (unfold fits; lia). intros [= <-]. lia.
Qed.

(** The in-process targets cannot use key 0, which would reach guest
    memory unchecked: with it they read nothing and write nothing, and with
    any other key they are held to the region it names. *)
Theorem target_needs_key key addr src len s :
  mrs_wf s -> 0 <= len < 2 ^ 32 -> len <= Z.of_nat (length src) ->
  let r := ionic_dp_target_to_host key addr src len s in
  (key = 0 -> r = (0, s) /\ ionic_dp_target_from_host key addr len s = ([], s)) /\
  forall x, peek (dp_mem r.2) x <> peek (dp_mem s) x -> region_byte s key x.
Proof.
  intros Hm Hl Hs r. subst r. unfold ionic_dp_target_to_host, ionic_dp_target_from_host.
  destruct (decide (key = 0)) as [->|Hk]; [split; [done|intros x Hx; by destruct Hx]|].
  split; [done|]. rewrite (proj2 (Z.eqb_neq _ _) Hk). intros x Hx.
  destruct (host_to_sge_spec key addr src len s Hm Hl Hs) as [Hw _].
  destruct (wr_confined _ _ _ _ _ _ _ Hw x Hx) as (i & _ & Ha).
  by destruct (addr_at_fits _ _ _ _ _ Hm Ha).
Qed.
End data.

(** ** Instances, on the device with a receive posted *)

Lemma ex_posted_inv : dp_inv ex_posted.
Proof. exact (@reachable_dp_inv ex_env no_targets no_targets_laws ex_laws ex_posted ex_posted_reachable). Qed.

Definition ex_sgl : dp_sge_list := DpSgeList [DpSge 0x7000 3 0x105; DpSge 0x8f00 4 0x105] 7.
Lemma ex_sgl_ok : Forall sge_ok (sl_sges ex_sgl).
Proof. repeat constructor; vm_compute; congruence. Qed.

Ltac in_range := vm_compute; repeat split; congruence.

Lemma buf_init_reads_table_witness :
  let r := (ionic_dp_buf_init (BufDesc 0x40000 2 12) 0x10 0x1000 ex_posted).1 in
  r.1 < 0 \/ r.1 = 0 /\ buf_wf r.2.
Proof.
  destruct (@buf_init_reads_table ex_env ex_laws (BufDesc 0x40000 2 12) 0x10 0x1000 ex_posted
    ltac:(in_range) ltac:(in_range)) as [_ [[H _]|(H1 & _ & H2)]]; [left|right; split]; assumption.
Defined.

Lemma register_mr_binds_witness :
  mr_find 0x105 (ionic_datapath_register_mr 0x106 0 4096 (BufDesc 0x50000 1 12) ex_posted).2 = None.
Proof.
  rewrite (@register_mr_binds ex_env 0x106 0 0 4096 (BufDesc 0x50000 1 12) ex_posted 0x105 ltac:(computes)). computes.
Defined.

Lemma mr_covers_exact_witness :
  exists m, mr_find 0x105 ex_posted = Some m /\ mr_va m <= 0x8f00 /\ 0x8f00 + 0x100 <= mr_va m + mr_length m.
Proof.
  apply (@mr_covers_exact ex_env 0x105 0x8f00 0x100 ex_posted (di_mrs _ ex_posted_inv)
    ltac:(congruence) ltac:(in_range) ltac:(in_range)). computes.
Defined.

Lemma parse_sges_bounded_witness :
  let r := parse_sges (ex_wqe 77 0 0 0x8000 16 0x105) 64 1 in
  r = (DP_SGL_BAD_FMT, inhabitant) \/ exists n : nat, Z.of_nat n <= 1.
Proof.
  destruct (parse_sges_bounded (ex_wqe 77 0 0 0x8000 16 0x105) 64 1 ltac:(bytes_by_computation) ltac:(lia))
    as [H|(n & _ & _ & H & _)]; [left; exact H|right; exists n; exact H].
Defined.

Lemma scatter_writes_witness :
  let r := dp_scatter ex_sgl [1; 2; 3; 4; 5; 6; 7] 7 ex_posted in
  wrote (sgl_addr ex_posted (sl_sges ex_sgl)) [1; 2; 3; 4; 5; 6; 7] 7 0 r.1 (dp_mem ex_posted) (dp_mem r.2).
Proof.
  exact (proj1 (@scatter_writes ex_env ex_laws ex_sgl [1; 2; 3; 4; 5; 6; 7] 7 ex_posted (di_mrs _ ex_posted_inv)
    ex_sgl_ok ltac:(lia) ltac:(cbn; lia))).
Defined.

Lemma gather_reads_witness : Z.of_nat (length (ionic_dp_gather ex_sgl 7 ex_posted).1) <= 7.
Proof.
  exact (proj1 (proj2 (@gather_reads ex_env ex_laws ex_sgl 7 ex_posted (di_mrs _ ex_posted_inv) ex_sgl_ok ltac:(lia)))).
Defined.

Lemma rdma_xfer_copies_witness :
  let r := rdma_xfer ex_sgl 0x105 0x7800 7 true ex_posted in
  moved (rdma_dst ex_posted (sl_sges ex_sgl) 0x105 0x7800 true) (rdma_src ex_posted (sl_sges ex_sgl) 0x105 0x7800 true)
    7 0 r.1 (dp_mem ex_posted) (dp_mem r.2).
Proof.
  exact (proj1 (@rdma_xfer_copies ex_env ex_laws ex_sgl 0x105 0x7800 7 true ex_posted (di_mrs _ ex_posted_inv) ex_sgl_ok
    ltac:(lia) ltac:(in_range))).
Defined.

(** A fetch-and-add of 5 to the word at 0x7100, the old value to 0x7200. *)
Definition ex_atomic_wqe : list Z :=
  let w := ernic_put_be64 (zeros 64) WQE_RDMA_VA_OFF 0x7100 in
  let w := ernic_put_be32 w WQE_RDMA_RKEY_OFF 0x105 in
  let w := ernic_put_be64 w WQE_ATOMIC_SWAP_ADD_OFF 5 in
  let w := ernic_put_be64 w WQE_ATOMIC_SGE_OFF 0x7200 in
  ernic_put_be32 w (WQE_ATOMIC_SGE_OFF + SGE_LKEY_OFF) 0x105.

Lemma local_atomic_witness : exists r l, atomic_done ex_posted (do_atomic ex_atomic_wqe false ex_posted).2 ex_atomic_wqe false r l.
Proof.
  pose proof (@local_atomic ex_env ex_laws ex_atomic_wqe false ex_posted (di_mrs _ ex_posted_inv)
    ltac:(bytes_by_computation)) as H.
  assert ((do_atomic ex_atomic_wqe false ex_posted).1 = true) as Hr by computes. cbn zeta in H. rewrite Hr in H. exact H.
Defined.


(** Twelve bytes of inline data in a 64-byte request. *)
Definition ex_inline_wqe : list Z :=
  ernic_put_be16 (ernic_put_be32 (zeros 64) WQE_SEND_LEN_OFF 12) WQE_FLAGS_OFF IONIC_V1_FLAG_INL.
Lemma wqe_src_confined_witness :
  0x10000 + 32 <= 0x1002b < 0x10000 + 64.
Proof.
  destruct (@wqe_src_confined ex_env ex_inline_wqe 0x10000 64 IONIC_V1_OP_SEND IONIC_V1_FLAG_INL
    (DpSgeList [DpSge 0x10020 12 0] 12) ex_posted ltac:(bytes_by_computation) ltac:(lia) ltac:(lia) ltac:(lia) ltac:(computes))
    as (_ & _ & _ & H).
  apply (H ltac:(computes) ltac:(vm_compute; congruence) 11 0x1002b); [lia|computes].
Defined.

Lemma target_needs_key_witness :
  ionic_dp_target_to_host 0 0x40000 [1; 2; 3] 3 ex_posted = (0, ex_posted).
Proof.
  exact (proj1 (proj1 (@target_needs_key ex_env ex_laws 0 0x40000 [1; 2; 3] 3 ex_posted (di_mrs _ ex_posted_inv)
    ltac:(lia) ltac:(cbn; lia)) eq_refl)).
Defined.
