(* ===== verification/DpDriver.v ===== *)
(** * What the guest's driver and the other nodes rely on

    The completion queue as the driver polls it, the receive doorbell, the
    Q_Key rules of datagrams, and the inbound queue: what it takes, in which
    order it is applied, which requests time out, and what a reset leaves. *)
From S2P Require Export DpData.

(** ** Completion queues *)
Section cq_claims.
Context {E : Env} {T : Targets} {ML : GuestMemLaws Mem}.

(** A ring at one guest address has all its bytes. *)
Lemma direct_ring_mapped c :
  b_pages (c_buf c) = None -> b_base (c_buf c) + c_depth c * 2 ^ c_stride_log2 c <= UINT64_MAX -> ring_mapped c.
Proof.
  intros Hp Hb. split.
  - intros o Ho. unfold buf_byte. rewrite Hp, (proj2 (Z.leb_le _ _)) by lia. by eexists.
  - intros o o' x _ _. unfold buf_byte. rewrite Hp. repeat case_match; intros; simplify_eq. lia.
Qed.

Lemma driver_poll_same s s' cq_id k :
  cq_at cq_id s' = cq_at cq_id s ->
  (forall i x, 0 <= i < 32 -> slot_addr (cq_at cq_id s) k i = Some x -> peek (dp_mem s') x = peek (dp_mem s) x) ->
  driver_poll s' cq_id k = driver_poll s cq_id k.
Proof.
  intros Hc Hm. unfold driver_poll. rewrite Hc. destruct (mapM _ _) as [a|] eqn:Ha; [|done]. cbn [mbind option_bind].
  assert (peek (dp_mem s') <$> a = peek (dp_mem s) <$> a) as ->; [|done].
  apply list_fmap_ext. intros i x Hx. apply mapM_Some_1 in Ha.
  destruct (Forall2_lookup_r _ _ _ _ _ Ha Hx) as (y & Hy & Hs). apply lookup_seqZ in Hy as [-> Hi].
  apply (Hm (0 + Z.of_nat i)); [lia|done].
Qed.

Lemma cq_post_depth s cq_id e :
  cq_geom (cq_at cq_id s) -> cq_id < dp_cq_count s -> entry_ok e ->
  c_depth (cq_at cq_id (cq_post_entry cq_id e s).2) = c_depth (cq_at cq_id s).
Proof.
  intros Hg Hid He. destruct (cq_post_cases cq_id e s Hid Hg He) as [[Hcq _]|(s2 & -> & Hcq & _)].
  - unfold cq_at. by rewrite Hcq.
  - destruct (cq_post_tail_spec cq_id e s2) as (-> & _ & _). unfold cq_at. rewrite Hcq. done.
Qed.

(** C15: posting to a completion queue refines appending to a list.  The
    driver, reading slot [k] with the colour it expects there, finds exactly
    the [k]-th completion posted, byte for byte, as long as it is less than a
    ring behind, and nothing at the next slot.  The only post that does not
    append is one whose store into its own slot guest memory refuses, and that
    leaves the queue as it was and none of the completions the driver can
    still read disturbed. *)
Theorem cq_post_refines_append s cq_id L e :
  cq_ring_inv s cq_id L -> cq_id < dp_cq_count s -> Forall entry_ok (L ++ [e]) ->
  event_spares s (cq_at cq_id s) ->
  let s' := (cq_post_entry cq_id e s).2 in
  let depth := c_depth (cq_at cq_id s) in
  cq_ring_inv s' cq_id (L ++ [e]) /\ c_depth (cq_at cq_id s') = c_depth (cq_at cq_id s) /\
    (forall k : nat, Z.of_nat (length (L ++ [e])) <= Z.of_nat k + c_depth (cq_at cq_id s') ->
      (k <= length (L ++ [e]))%nat ->
      driver_poll s' cq_id (Z.of_nat k) = entry_bytes (c_depth (cq_at cq_id s')) (Z.of_nat k) <$> (L ++ [e]) !! k) \/
  write_refused (addrs (slot_addr (cq_at cq_id s) (Z.of_nat (length L))) 32) (dp_mem s) /\ cq_at cq_id s' = cq_at cq_id s /\
  forall k : nat, (k < length L)%nat -> Z.of_nat (length L) < Z.of_nat k + depth ->
    driver_poll s' cq_id (Z.of_nat k) = driver_poll s cq_id (Z.of_nat k).
Proof.
  intros Hinv Hid Hok Hev s' depth. pose proof Hok as [_ He]%list.Forall_app. apply Forall_inv in He.
  destruct (cq_post_refines s cq_id L e Hinv Hid He Hev) as [Hi|(Hc & Hrf & Hm)].
  - left. fold s' in Hi. split; [done|]. split.
    + apply cq_post_depth; [apply Hinv|done|done].
    + intros k Hk Hle. by apply driver_poll_refines.
  - right. split; [done|]. split; [done|]. intros k Hk Hd. apply driver_poll_same; [done|]. intros i x Hx Hsl. by apply (Hm k i x).
Qed.

Lemma register_cq_spec cq_id eq_id ring s :
  ring_desc_ok ring ->
  let r := ionic_datapath_register_cq cq_id eq_id ring s in
  let c := cq_at cq_id r.2 in
  r.1 = 0 ->
  cq_id < dp_cq_count s /\ cq_geom c /\ dp_mem r.2 = dp_mem s /\
  c_depth c = 2 ^ rd_depth_log2 ring /\ c_stride_log2 c = ionic_dp_cq_stride_log2 ring /\
  c_prod c = 0 /\ c_cons c = 0 /\ c_color c = true /\ c_armed c = false /\ c_eq_id c = eq_id.
Proof.
  intros (Hd & Hde & Hst). cbn zeta. unfold ionic_datapath_register_cq. rewrite run_bind, run_gets. cbn [fst snd].
  destruct (_ <=? cq_id) eqn:Hq; [done|]. bdestr. destruct (negb _) eqn:Hg; [done|].
  unfold ionic_dp_ring_geometry_ok in Hg. bdestr. set (bi := ionic_dp_buf_init (rd_buf ring) 0 _).
  assert (fits 8 (ionic_dp_cq_stride_log2 ring)) as Hs8.
  { unfold ionic_dp_cq_stride_log2 in *. unfold fits, IONIC_CQ_MIN_STRIDE_LOG2, IONIC_RING_MAX_STRIDE_LOG2 in *. lia. }
  pose proof (span_fits _ _ Hde Hs8) as Hsp. pose proof (buf_init_wf (rd_buf ring) 0 _ s Hd Hsp) as Hb. fold bi in Hb.
  frame_fact bi s FMem Hmem. rewrite run_bind. destruct (bi s) as [[rc b] s1]. cbn [fst snd] in *.
  rewrite run_bind. destruct (rc <? 0) eqn:Hrc; bdestr.
  { rewrite run_bind, run_ret. cbn [fst]. lia. }
  intros _. rewrite run_bind, run_ret. cbn [snd fst]. rewrite !cq_at_upd, !decide_True by done.
  unfold fits in Hde. split_and!; try done; cbn.
  - split_and!; try done. exists (rd_depth_log2 ring). rewrite Z.shiftl_mul_pow2, Z.mul_1_l by lia. split; [lia|done].
  - rewrite Z.shiftl_mul_pow2, Z.mul_1_l by lia. done.
Qed.

(** A completion queue the driver registers over a ring it has cleared
    starts out empty: producer at 0, first colour set, and no slot the driver
    would take for a completion. *)
Theorem register_cq_empty cq_id eq_id ring s :
  ring_desc_ok ring ->
  let r := ionic_datapath_register_cq cq_id eq_id ring s in
  r.1 = 0 -> ring_mapped (cq_at cq_id r.2) ->
  (forall x, in_ring (cq_at cq_id r.2) x -> Z.testbit (peek (dp_mem s) x) 0 = false) ->
  cq_ring_inv r.2 cq_id [] /\ driver_poll r.2 cq_id 0 = None.
Proof.
  intros Hok r Hr Hmap Hclr.
  destruct (register_cq_spec cq_id eq_id ring s Hok Hr) as (_ & Hg & Hm & _ & _ & Hp & _ & Hc & _). fold r in Hg, Hm, Hp, Hc.
  destruct (geom_facts _ Hg) as [Hd _]. assert (cq_ring_inv r.2 cq_id []) as Hinv.
  { split; [done|done|by rewrite Hp| |done|].
    - rewrite Hc. cbn. unfold color_at. by rewrite Z.div_0_l by lia.
    - intros k x Hk Hx. rewrite Hm, Hclr.
      + unfold color_at. by rewrite Z.div_small by (cbn in Hk; lia).
      + eapply (slot_in_ring _ Hg k 31); [lia|done]. }
  split; [done|]. exact (driver_poll_refines r.2 cq_id [] 0 Hinv (Forall_nil_2 _) ltac:(cbn; lia) ltac:(done)).
Qed.
End cq_claims.

(** The ring of the history's completion queue, cleared before it is
    registered, and a completion for it. *)
Definition ex_cleared : @ionic_datapath ex_env :=
  ex_dp <| dp_mem := (host_write ∅ 0x20000 (zeros 128) : @Mem ex_env) |>.
Definition ex_cq_dp : @ionic_datapath ex_env := (ionic_datapath_register_cq 0 0 (ex_ring 0x20000 5) ex_cleared).2.
Definition ex_entry : cq_entry := CqEntry (zeros 24) 5 CQE_TYPE_SEND_NPG 1 false.

Lemma ex_cq_mapped : ring_mapped (cq_at 0 ex_cq_dp).
Proof. apply direct_ring_mapped; [computes|vm_compute; congruence]. Qed.

Lemma ex_cq_clear x : in_ring (cq_at 0 ex_cq_dp) x -> Z.testbit (peek (dp_mem ex_cleared) x) 0 = false.
Proof.
  intros (o & Ho & Hx). change (c_depth (cq_at 0 ex_cq_dp) * 2 ^ c_stride_log2 (cq_at 0 ex_cq_dp)) with 128 in Ho.
  assert (buf_byte (c_buf (cq_at 0 ex_cq_dp)) o = if o <=? UINT64_MAX - 0x20000 then Some (0x20000 + o) else None) as Hb by done.
  rewrite Hb in Hx. rewrite (proj2 (Z.leb_le _ _)) in Hx by (unfold UINT64_MAX; lia). injection Hx as <-.
  assert (forallb (fun o => negb (Z.testbit (peek (dp_mem ex_cleared) (0x20000 + o)) 0)) (seqZ 0 128) = true) as Hall
    by computes.
  rewrite forallb_forall in Hall. apply negb_true_iff, Hall, list_elem_of_In, elem_of_seqZ. lia.
Qed.

Lemma register_cq_empty_witness : cq_ring_inv ex_cq_dp 0 [] /\ driver_poll ex_cq_dp 0 0 = None.
Proof.
  exact (@register_cq_empty ex_env ex_laws 0 0 (ex_ring 0x20000 5) ex_cleared ltac:(in_range) ltac:(computes)
    ex_cq_mapped ex_cq_clear).
Defined.

Lemma ex_cq_inv : cq_ring_inv ex_cq_dp 0 [].
Proof.
  destruct (@register_cq_spec ex_env ex_laws 0 0 (ex_ring 0x20000 5) ex_cleared ltac:(in_range) ltac:(computes)) as (_ & Hg & _).
  split; [exact Hg|exact ex_cq_mapped|computes|computes|done|]. intros k x Hk Hx.
  change (dp_mem ex_cq_dp) with (dp_mem ex_cleared). rewrite ex_cq_clear.
  - change (c_depth (cq_at 0 ex_cq_dp)) with 4 in *. unfold color_at. by rewrite Z.div_small by (cbn in Hk; lia).
  - eapply (slot_in_ring _ Hg k 31); [lia|done].
Qed.

Lemma cq_post_refines_append_witness :
  driver_poll ex_cq_dp 0 0 = None /\
  driver_poll (cq_post_entry 0 ex_entry ex_cq_dp).2 0 0 = Some (entry_bytes 4 0 ex_entry).
Proof.
  split; [computes|].
  destruct (@cq_post_refines_append ex_env ex_laws ex_cq_dp 0 [] ex_entry ex_cq_inv ltac:(computes)
    ltac:(repeat constructor; in_range) I) as [(_ & Hd & H)|_]; [|computes].
  specialize (H 0%nat). change (c_depth (cq_at 0 ex_cq_dp)) with 4 in Hd. rewrite Hd in H. apply H; cbn; lia.
Defined.

(** ** The receive doorbell *)

(** A receive doorbell moves the producer forward by less than a ring, to
    the index the driver wrote, whatever the 32-bit counter holds, and an
    index the ring has no slot for is refused. *)
Theorem rq_prod_advance_moves d prod p_index :
  0 <= d <= IONIC_RING_MAX_DEPTH_LOG2 -> fits 32 prod -> 0 <= p_index ->
  match rq_prod_advance prod (2 ^ d) p_index with
  | None => 2 ^ d <= p_index
  | Some prod' => p_index < 2 ^ d /\ fits 32 prod' /\ prod' mod 2 ^ d = p_index /\
      exists a, 0 <= a < 2 ^ d /\ prod' = u32 (prod + a)
  end.
Proof.
  unfold IONIC_RING_MAX_DEPTH_LOG2. intros Hd Hp Hi. unfold rq_prod_advance.
  pose proof (Z.pow_pos_nonneg 2 d ltac:(lia) ltac:(lia)) as Hpow.
  rewrite (proj2 (Z.eqb_neq _ _)) by lia. cbn [orb]. destruct (2 ^ d <=? p_index) eqn:Hle; bdestr; [done|].
  rewrite land_mask, u32_mod_depth by lia. set (a := (p_index - prod mod 2 ^ d) mod 2 ^ d).
  pose proof (Z.mod_pos_bound (p_index - prod mod 2 ^ d) (2 ^ d) Hpow) as Ha. fold a in Ha.
  split_and!; [done|by apply wrap_fits| |by exists a].
  rewrite u32_mod_depth by lia. subst a. rewrite Zplus_mod_idemp_r.
  rewrite <-(Zplus_mod_idemp_l prod). replace (prod mod 2 ^ d + (p_index - prod mod 2 ^ d)) with p_index by lia.
  apply Z.mod_small. lia.
Qed.

Lemma rq_prod_advance_moves_witness :
  exists prod', rq_prod_advance 0xffffffff 4 2 = Some prod' /\ prod' mod 4 = 2.
Proof.
  pose proof (rq_prod_advance_moves 2 0xffffffff 2 ltac:(in_range) ltac:(in_range) ltac:(lia)) as H.
  change (2 ^ 2) with 4 in H. exists 2. split; [computes|].
  change (rq_prod_advance 0xffffffff 4 2) with (Some 2) in H. exact (proj1 (proj2 (proj2 H))).
Defined.

(** ** Datagrams *)

(** A queue pair whose Q_Key is a controlled one takes a datagram only
    from a queue pair that was itself given that very key: no key a process
    writes in its work request gets around it. *)
Theorem controlled_qkey_protects sq dq sent :
  qp_is_datagram sq = true -> qp_is_datagram dq = true -> q_qkey_valid dq = true ->
  Z.land (q_qkey dq) DP_QKEY_CONTROLLED <> 0 ->
  ionic_dp_ud_delivery_refused sq dq sent = None -> q_qkey_valid sq = true /\ q_qkey sq = q_qkey dq.
Proof.
  intros Hs Hd Hv Hc. unfold ionic_dp_ud_delivery_refused. rewrite Hs, Hd, Hv. cbn [negb].
  destruct (Z.land sent DP_QKEY_CONTROLLED =? 0) eqn:Hk; cbn [negb andb]; bdestr.
  - destruct (sent =? q_qkey dq) eqn:He; [|done]. bdestr. congruence.
  - destruct (q_qkey_valid sq); [|done]. cbn [negb]. destruct (q_qkey sq =? q_qkey dq) eqn:He; [|done]. by bdestr.
Qed.

Definition ex_ud_qp (key : Z) : ionic_qp_ring :=
  (inhabitant : ionic_qp_ring) <| q_ib_qp_type := IBV_QPT_UD |> <| q_qkey := key |> <| q_qkey_valid := true |>.
Lemma controlled_qkey_protects_witness :
  let dq := ex_ud_qp 0x80010000 in
  ionic_dp_ud_delivery_refused (ex_ud_qp 0x80010000) dq 0x80000000 = None /\
  q_qkey (ex_ud_qp 0x80010000) = q_qkey dq.
Proof.
  split; [computes|].
  exact (proj2 (controlled_qkey_protects (ex_ud_qp 0x80010000) (ex_ud_qp 0x80010000) 0x80000000
    ltac:(computes) ltac:(computes) ltac:(computes) ltac:(vm_compute; congruence) ltac:(computes))).
Defined.

(** ** The inbound queue *)
Section pass_order.
Context {E : Env}.

(** What became of a message the pass took: applied, tried without success,
    or not tried because an earlier one to the same queue pair waits. *)
Inductive outcome := Applied | Tried | Blocked.

Definition first_tried (now : Z) (m : dp_inmsg) : dp_inmsg :=
  if im_first_try_ms m =? 0 then m <| im_first_try_ms := now |> else m.
Definition may_wait (now : Z) (giveup : bool) (m : dp_inmsg) : bool :=
  negb giveup && (u64 (now - im_first_try_ms (first_tried now m)) <? RNR_RETRY_MS).
Definition count_rnr (m : dp_inmsg) : DP unit :=
  dp_count (inmsg_dst_qp m) RESP_TX_RNR_RETRY_ERR ;;
  if im_rnr_counted m then mret tt else dp_count (inmsg_dst_qp m) RESP_RX_OUT_OF_BUFFER.

(** The messages not blocked are given to [dp_handle_wire] one after the other,
    each in the state the one before left. *)
Inductive ran (now : Z) (giveup : bool) : list dp_inmsg -> list outcome -> ionic_datapath -> ionic_datapath -> Prop :=
  | ran_end s : ran now giveup [] [] s s
  | ran_applied m ms os s s1 s' :
      dp_handle_wire (im_src_node m) (im_buf m) (may_wait now giveup m) s = (true, s1) ->
      ran now giveup ms os s1 s' -> ran now giveup (m :: ms) (Applied :: os) s s'
  | ran_tried m ms os s s1 s' :
      dp_handle_wire (im_src_node m) (im_buf m) (may_wait now giveup m) s = (false, s1) ->
      ran now giveup ms os (count_rnr m s1).2 s' -> ran now giveup (m :: ms) (Tried :: os) s s'
  | ran_blocked m ms os s s' :
      ran now giveup ms os s s' -> ran now giveup (m :: ms) (Blocked :: os) s s'.

(** What is put back, in order. *)
Fixpoint put_back (now : Z) (os : list outcome) (msgs : list dp_inmsg) : list dp_inmsg :=
  match os, msgs with
  | Applied :: os, _ :: msgs => put_back now os msgs
  | Tried :: os, m :: msgs => (first_tried now m) <| im_rnr_counted := true |> :: put_back now os msgs
  | Blocked :: os, m :: msgs => m :: put_back now os msgs
  | _, _ => []
  end.

(** A request is blocked exactly when one to the same queue pair has been put
    back before it. *)
Definition waits_its_turn (defer : list dp_inmsg) (os : list outcome) (msgs : list dp_inmsg) : Prop :=
  forall j m, msgs !! j = Some m -> os !! j = Some Blocked <->
    inmsg_is_response m = false /\
    ((exists d, d ∈ defer /\ inmsg_dst_qp d = inmsg_dst_qp m) \/
     (exists i m', (i < j)%nat /\ msgs !! i = Some m' /\ os !! i <> Some Applied /\ inmsg_dst_qp m' = inmsg_dst_qp m)).

Lemma blocked_by_iff defer m :
  blocked_by defer m = true <-> inmsg_is_response m = false /\ exists d, d ∈ defer /\ inmsg_dst_qp d = inmsg_dst_qp m.
Proof.
  unfold blocked_by. rewrite andb_true_iff, negb_true_iff, existsb_exists.
  setoid_rewrite Z.eqb_eq. by setoid_rewrite <-list_elem_of_In.
Qed.

Lemma waits_cons defer defer' m o os msgs :
  (o = Blocked <-> blocked_by defer m = true) ->
  (o = Applied /\ defer' = defer \/ o <> Applied /\ exists m', defer' = defer ++ [m'] /\ inmsg_dst_qp m' = inmsg_dst_qp m) ->
  waits_its_turn defer' os msgs -> waits_its_turn defer (o :: os) (m :: msgs).
Proof.
  intros Ho Hd Hw j x Hx. destruct j as [|j]; cbn in Hx |- *.
  - simplify_eq. rewrite blocked_by_iff in Ho. split.
    + intros [= ->]. destruct (proj1 Ho eq_refl) as [? ?]. auto.
    + intros [Hr [H|(i & ? & ? & _)]]; [|lia]. f_equal. by apply Ho.
  - rewrite (Hw j x Hx). apply and_iff_compat_l. split.
    + intros [(d & Hin & Hq)|(i & y & Hi & Hy & Hn & Hq)].
      * destruct Hd as [[_ ->]|(Hna & m' & -> & Hm)]; [left; by exists d|]. apply elem_of_app in Hin as [Hin|Hin]; [left; by exists d|].
        apply list_elem_of_singleton in Hin as ->. right. exists 0%nat, m. split_and!; [lia|done|cbn; congruence|congruence].
      * right. exists (S i), y. split_and!; [lia|done..].
    + intros [(d & Hin & Hq)|(i & y & Hi & Hy & Hn & Hq)].
      * left. exists d. split; [|done]. destruct Hd as [[_ ->]|(_ & m' & -> & _)]; [done|]. apply elem_of_app. by left.
      * destruct i as [|i]; cbn in *; [|right; exists i, y; split_and!; [lia|done..]]. simplify_eq.
        destruct Hd as [[-> _]|(_ & m' & -> & Hm)]; [done|]. left. exists m'. split; [set_solver|congruence].
Qed.

Lemma poll_pass_ran now giveup msgs defer n b s :
  let r := poll_pass now giveup msgs defer n b s in
  exists os, ran now giveup msgs os s r.2 /\ r.1.1.1 = defer ++ put_back now os msgs /\ waits_its_turn defer os msgs.
Proof.
  revert defer n b s. induction msgs as [|m msgs IH]; intros defer n b s; cbn [poll_pass].
  { exists []. split_and!; [constructor|by rewrite app_nil_r|done]. }
  destruct (blocked_by defer m) eqn:Hbl.
  { destruct (IH (defer ++ [m]) n b s) as (os & Hr & Hk & Hw). exists (Blocked :: os). split_and!; [by constructor|by rewrite Hk, <-app_assoc|].
    apply (waits_cons _ (defer ++ [m])); [done|right; split; [done|by exists m]|done]. }
  fold (first_tried now m). rewrite run_bind. fold (may_wait now giveup m).
  assert (im_src_node (first_tried now m) = im_src_node m /\ im_buf (first_tried now m) = im_buf m /\
    im_rnr_counted (first_tried now m) = im_rnr_counted m) as (E1 & E2 & E3) by (unfold first_tried; by case_match).
  assert (inmsg_dst_qp (first_tried now m) = inmsg_dst_qp m) as E4 by (unfold inmsg_dst_qp; by rewrite E2).
  rewrite E1, E2, E3, E4. destruct (dp_handle_wire (im_src_node m) (im_buf m) (may_wait now giveup m) s) as [[] s1] eqn:Hh; cbn [fst snd].
  - destruct (IH defer (n + 1) (b + im_len (first_tried now m)) s1) as (os & Hr & Hk & Hw). exists (Applied :: os).
    split_and!; [by eapply ran_applied|done|]. apply (waits_cons _ defer); [rewrite Hbl; by split|by left|done].
  - rewrite !run_bind. match goal with |- context [poll_pass _ _ _ _ _ _ ?t] =>
      assert (t = (count_rnr m s1).2) as -> by (unfold count_rnr; by rewrite run_bind) end.
    destruct (IH (defer ++ [(first_tried now m) <| im_rnr_counted := true |>]) n b (count_rnr m s1).2) as (os & Hr & Hk & Hw).
    exists (Tried :: os). split_and!; [eapply ran_tried; [done|exact Hr]|rewrite <-app_assoc in Hk; exact Hk|].
    eapply waits_cons; [rewrite Hbl; by split| |exact Hw]. right. split; [done|]. eexists. split; [done|exact E4].
Qed.

(** C29: one pass over the inbound queue gives the messages it took to the
    receive path one after the other in the order they arrived, leaving out
    exactly the requests to a queue pair that one put back before them waits
    for; what was not applied is put back in order, and the counts it reports
    add up. *)
Theorem poll_pass_keeps_order now giveup msgs s :
  let r := poll_pass now giveup msgs [] 0 0 s in
  let kept := r.1.1.1 in
  exists os, ran now giveup msgs os s r.2 /\ kept = put_back now os msgs /\ waits_its_turn [] os msgs /\
    r.1.1.2 + Z.of_nat (length kept) = Z.of_nat (length msgs) /\ r.1.2 + sum_len kept = sum_len msgs.
Proof.
  destruct (poll_pass_ran now giveup msgs [] 0 0 s) as (os & Hr & Hk & Hw).
  destruct (poll_pass_spec now giveup msgs [] 0 0 s) as (flags & kept & _ & Hr' & _ & _ & _ & Hn & _ & Hb).
  exists os. cbn zeta. split_and!; [done..| |]; rewrite Hr'; cbn [app]; lia.
Qed.

End pass_order.

Section queue.
Context {E : Env} {T : Targets} {TL : TargetsLaws}.

(** A message of the protocol's size that arrives while memory is to be
    had is queued last if there is room for it; without room it is left with
    the mesh, unless nothing has polled the queue for longer than
    DP_RX_STUCK_MS, and then it alone is dropped and counted. *)
Theorem mesh_recv_queues node buf s :
  let len := Z.of_nat (length buf) in
  let r := dp_mesh_recv node buf s in
  IONIC_WIRE_HDR_LEN <= len <= IONIC_WIRE_HDR_LEN + IONIC_WIRE_MAX_PAYLOAD -> (alloc s).1 = true ->
  if dp_rx_room (dp_rx_msgs s) (dp_rx_bytes s) len then
    r.1 = true /\ dp_rx_queue r.2 = dp_rx_queue s ++ [DpInmsg node 0 false buf] /\ dp_rx_dropped r.2 = dp_rx_dropped s
  else
    dp_rx_queue r.2 = dp_rx_queue s /\
    if r.1 then dp_rx_dropped r.2 = u64 (dp_rx_dropped s + 1) /\ dp_rx_in_pass s = false /\
      DP_RX_STUCK_MS < (ionic_dp_now_ms (alloc s).2).1 - dp_rx_polled_ms s
    else dp_rx_dropped r.2 = dp_rx_dropped s /\ len <= dp_rx_waiting r.2.
Proof.
  intros len r Hl Ha. subst r. unfold dp_mesh_recv. fold len.
  rewrite (proj2 (Z.ltb_ge _ _)), (proj2 (Z.ltb_ge _ _)) by lia. cbn [orb]. rewrite run_bind.
  set (s0 := (alloc s).2). assert (dp_rx_msgs s0 = dp_rx_msgs s /\ dp_rx_bytes s0 = dp_rx_bytes s) as [E1 E2] by done.
  assert (dp_rx_queue s0 = dp_rx_queue s /\ dp_rx_dropped s0 = dp_rx_dropped s) as [E3 E4] by done.
  assert (dp_rx_in_pass s0 = dp_rx_in_pass s /\ dp_rx_polled_ms s0 = dp_rx_polled_ms s) as [E5 E6] by done.
  clearbody s0. rewrite Ha. cbn [negb]. rewrite run_bind, run_gets. cbn [fst snd]. rewrite E1, E2.
  destruct (dp_rx_room _ _ _).
  { rewrite run_bind, run_modify, run_ret. cbn [fst snd]. split_and!; [done|by rewrite <-E3|by rewrite <-E4]. }
  rewrite run_bind. set (now := (ionic_dp_now_ms s0).1). set (s1 := (ionic_dp_now_ms s0).2).
  rewrite run_bind, run_gets. cbn [fst snd]. rewrite run_bind, run_modify, run_ret. cbn [fst snd].
  change (dp_rx_in_pass s1) with (dp_rx_in_pass s0). change (dp_rx_polled_ms s1) with (dp_rx_polled_ms s0).
  rewrite E5, E6. destruct (_ && _ && _) eqn:Hst; bdestr.
  - split_and!; [by rewrite <-E3|by rewrite <-E4|done|done].
  - destruct (dp_rx_waiting s1 <? len) eqn:Hw; bdestr; (split_and!; [by rewrite <-E3|by rewrite <-E4|first [exact Hw|apply Z.le_refl]]).
Qed.

(** ** Requests that time out *)

Lemma poll_timeouts_spec now s :
  let s' := (poll_timeouts now s).2 in
  pend_shrinks s s' /\
  forall i, (i < MAX_PENDING)%nat -> p_valid (pending_at i s') = true -> now <= p_deadline_ms (pending_at i s').
Proof.
  assert (forall i st, keeps pend_shrinks (pending_complete i st)) as Hpc by (intros i st s1; apply pending_complete_spec).
  cbn zeta. unfold poll_timeouts. match goal with |- context [for_each _ ?b] => set (body := b) end.
  assert (forall i, keeps pend_shrinks (body i)) as Hb by (intros i; subst body; cbn beta; repeat first [apply Hpc | shrinks_step]).
  split; [exact (keeps_for_each pend_shrinks (seq 0 MAX_PENDING) body (fun x _ => Hb x) s)|]. intros i Hi.
  refine (for_each_all pend_shrinks (fun i s => p_valid (pending_at i s) = true -> now <= p_deadline_ms (pending_at i s))
    (seq 0 MAX_PENDING) body s i Hb _ _ _); [| |apply elem_of_seq; lia].
  - clear i Hi. intros i s1. subst body. cbn beta. rewrite run_bind, run_gets. cbn [fst snd].
    destruct (_ && _) eqn:Hc.
    + rewrite run_bind. match goal with |- context [pending_complete i ?st ?t] =>
        destruct (pending_complete_spec i st t) as [_ Hv]; rewrite Hv; done end.
    + rewrite run_ret. cbn [snd]. intros Hv. rewrite Hv in Hc. cbn [andb] in Hc. by bdestr.
  - intros j s1 s2 Hs Ht. destruct (shrinks_at j s1 s2 Hs) as [-> | ->]; done.
Qed.

(** After a poll at time [now] no request is outstanding past its
    deadline, and none has become outstanding: each that was late has been
    completed and its slot freed. *)
Theorem poll_timeouts_expires now s :
  length (dp_pending_tab s) = MAX_PENDING ->
  let s' := (poll_timeouts now s).2 in
  pend_shrinks s s' /\ Forall (fun p => p_valid p = true -> now <= p_deadline_ms p) (dp_pending_tab s').
Proof.
  intros Hlen. cbn zeta. destruct (poll_timeouts_spec now s) as [Hs Ht]. revert Hs Ht.
  generalize (poll_timeouts now s).2. intros s' Hs Ht. split; [done|].
  apply Forall_lookup. intros i p Hi. pose proof (lookup_lt_Some _ _ _ Hi) as Hlt.
  rewrite <-(Forall2_length _ _ _ Hs), Hlen in Hlt. specialize (Ht i Hlt). unfold pending_at in Ht.
  by rewrite (list_lookup_total_correct _ _ _ Hi) in Ht.
Qed.
End queue.

Lemma mesh_recv_queues_witness :
  dp_rx_queue (dp_mesh_recv 2 (ex_peer_msg IONIC_WIRE_ACK 0 0 0 []) ex_pending_dp).2 =
  dp_rx_queue ex_pending_dp ++ [DpInmsg 2 0 false (ex_peer_msg IONIC_WIRE_ACK 0 0 0 [])].
Proof.
  pose proof (@mesh_recv_queues ex_env 2 (ex_peer_msg IONIC_WIRE_ACK 0 0 0 []) ex_pending_dp ltac:(in_range)
    ltac:(computes)) as H.
  assert (dp_rx_room (dp_rx_msgs ex_pending_dp) (dp_rx_bytes ex_pending_dp)
    (Z.of_nat (length (ex_peer_msg IONIC_WIRE_ACK 0 0 0 []))) = true) as Hr by computes.
  cbn zeta in H. rewrite Hr in H. exact (proj1 (proj2 H)).
Defined.

Lemma poll_timeouts_expires_witness :
  p_valid (pending_at 0 ex_pending_dp) = true /\
  Forall (fun p => p_valid p = true -> 5000 <= p_deadline_ms p) (dp_pending_tab (poll_timeouts 5000 ex_pending_dp).2).
Proof.
  split; [computes|]. exact (proj2 (@poll_timeouts_expires ex_env 5000 ex_pending_dp ltac:(computes))).
Defined.
