(* ===== verification/DpReset.v ===== *)
(** * Reset

    ionic_datapath_reset_rdma() unregisters every object in turn.  Each step
    only takes objects away, so that what one loop has cleared the following
    ones leave cleared. *)
From S2P Require Export DpDriver.

Section reset.
Context {E : Env} {T : Targets} {TL : TargetsLaws}.

(** No object appears. *)
Record wiped (s s' : ionic_datapath) : Prop := {
  wi_qp i : q_valid (qp_at i s) = false -> q_valid (qp_at i s') = false;
  wi_cq i : c_valid (cq_at i s) = false -> c_valid (cq_at i s') = false;
  wi_srq i : sr_valid (srq_at i s) = false -> sr_valid (srq_at i s') = false;
  wi_ah i : ah_valid (ah_at i s) = false -> ah_valid (ah_at i s') = false;
  wi_mr i : mr_valid (mr_at i s) = false -> mr_valid (mr_at i s') = false;
  wi_count : dp_qp_count s' = dp_qp_count s /\ dp_cq_count s' = dp_cq_count s /\
    dp_srq_count s' = dp_srq_count s /\ dp_ah_count s' = dp_ah_count s;
}.
#[global] Instance wiped_preorder : PreOrder wiped.
Proof.
  split; [by split|]. intros a b c [] []. split; try by auto. intuition congruence.
Qed.

Lemma wiped_frame {A} F (m : DP A) :
  keeps (frame F) m -> flds_disj F [FQp; FCq; FSrq; FAh; FMr; FCfg] = true -> keeps wiped m.
Proof.
  intros Hm Hd s. unfold flds_disj in Hd. cbn -[bool_decide] in Hd. bdestr.
  pose proof (Hm s FQp ltac:(done)) as F1. pose proof (Hm s FCq ltac:(done)) as F2. pose proof (Hm s FSrq ltac:(done)) as F3.
  pose proof (Hm s FAh ltac:(done)) as F4. pose proof (Hm s FMr ltac:(done)) as F5. pose proof (Hm s FCfg ltac:(done)) as F6.
  cbn in F1, F2, F3, F4, F5, F6. unfold qp_at, cq_at, srq_at, ah_at, mr_at.
  split; intros; unfold qp_at, cq_at, srq_at, ah_at, mr_at in *; try congruence. split_and!; congruence.
Qed.

Lemma upd_qp_wiped i f : (forall q, q_valid q = false -> q_valid (f q) = false) -> keeps wiped (upd_qp i f).
Proof. intros Hf s. split; try done. intros j Hj. rewrite qp_at_upd. case_decide; subst; auto. Qed.
Lemma upd_cq_wiped i f : (forall c, c_valid c = false -> c_valid (f c) = false) -> keeps wiped (upd_cq i f).
Proof. intros Hf s. split; try done. intros j Hj. rewrite cq_at_upd. case_decide; subst; auto. Qed.
Lemma upd_srq_wiped i f : (forall r, sr_valid r = false -> sr_valid (f r) = false) -> keeps wiped (upd_srq i f).
Proof. intros Hf s. split; try done. intros j Hj. rewrite srq_at_upd. case_decide; subst; auto. Qed.
Lemma upd_mr_wiped i f : (forall m, mr_valid m = false -> mr_valid (f m) = false) -> keeps wiped (upd_mr i f).
Proof. intros Hf s. split; try done. intros j Hj. rewrite mr_at_upd. case_decide; subst; auto. Qed.
Lemma ah_at_upd i f s j : ah_at j (upd_ah i f s).2 = if decide (j = i) then f (ah_at i s) else ah_at j s.
Proof.
  unfold upd_ah, ah_at. cbn. case_decide; subst; [by rewrite lookup_total_insert_eq|by rewrite lookup_total_insert_ne].
Qed.
Lemma upd_ah_wiped i f : (forall a, ah_valid a = false -> ah_valid (f a) = false) -> keeps wiped (upd_ah i f).
Proof. intros Hf s. split; try done. intros j Hj. rewrite ah_at_upd. case_decide; subst; auto. Qed.
End reset.

Ltac wiped_upd :=
  first [ apply upd_qp_wiped | apply upd_cq_wiped | apply upd_srq_wiped | apply upd_ah_wiped | apply upd_mr_wiped ];
  intros []; cbn; intros; subst; done.
Ltac wiped_step :=
  first [ eapply wiped_frame; [solve [auto 2 with frame nocore] | reflexivity] | solve [wiped_upd] | keeps_step ].

Section reset_spec.
Context {E : Env} {T : Targets} {TL : TargetsLaws}.

Lemma sq_stall_clear_wiped q : keeps wiped (sq_stall_clear q).
Proof. unfold sq_stall_clear. repeat wiped_step. Qed.
Lemma unregister_qp_wiped q : keeps wiped (ionic_datapath_unregister_qp q).
Proof. unfold ionic_datapath_unregister_qp. repeat first [apply sq_stall_clear_wiped | wiped_step]. Qed.
Lemma unregister_srq_wiped i : keeps wiped (ionic_datapath_unregister_srq i).
Proof. unfold ionic_datapath_unregister_srq. repeat wiped_step. Qed.
Lemma unregister_cq_wiped i : keeps wiped (ionic_datapath_unregister_cq i).
Proof. unfold ionic_datapath_unregister_cq. repeat wiped_step. Qed.
Lemma unregister_ah_wiped i : keeps wiped (ionic_datapath_unregister_ah i).
Proof. unfold ionic_datapath_unregister_ah. repeat wiped_step. Qed.

Lemma wipe_loop (P : Z -> ionic_datapath -> Prop) l (body : Z -> DP unit) s :
  (forall y, keeps wiped (body y)) -> (forall y s, P y (body y s).2) ->
  (forall y s s', wiped s s' -> P y s -> P y s') ->
  let s' := (for_each l body s).2 in wiped s s' /\ forall x, x ∈ l -> P x s'.
Proof.
  intros Hk HP Hst. split; [exact (keeps_for_each wiped l body (fun x _ => Hk x) s)|]. intros x Hx.
  exact (for_each_all wiped P l body s x Hk HP Hst Hx).
Qed.

(** What is left of one object of each kind. *)
Definition qp_gone (i : Z) (s : ionic_datapath) : Prop := i < dp_qp_count s -> q_valid (qp_at i s) = false.
Definition srq_gone (i : Z) (s : ionic_datapath) : Prop := 0 <= i < dp_srq_count s -> sr_valid (srq_at i s) = false.
Definition cq_gone (i : Z) (s : ionic_datapath) : Prop := i < dp_cq_count s -> c_valid (cq_at i s) = false.
Definition ah_gone (i : Z) (s : ionic_datapath) : Prop := i < dp_ah_count s -> ah_valid (ah_at i s) = false.
Definition mr_gone (i : Z) (s : ionic_datapath) : Prop := mr_valid (mr_at i s) = false.

Lemma gone_stable i s s' : wiped s s' ->
  (qp_gone i s -> qp_gone i s') /\ (srq_gone i s -> srq_gone i s') /\ (cq_gone i s -> cq_gone i s') /\
  (ah_gone i s -> ah_gone i s') /\ (mr_gone i s -> mr_gone i s').
Proof.
  intros [? ? ? ? ? (C1 & C2 & C3 & C4)]. unfold qp_gone, srq_gone, cq_gone, ah_gone, mr_gone.
  rewrite C1, C2, C3, C4. auto 10.
Qed.

Lemma unregister_qp_gone i s : qp_gone i (ionic_datapath_unregister_qp i s).2.
Proof.
  intros Hi. rewrite (proj1 (wi_count _ _ (unregister_qp_wiped i s))) in Hi.
  by destruct (unregister_qp_spec i s Hi) as (_ & -> & _).
Qed.
Lemma unregister_cq_gone i s : cq_gone i (ionic_datapath_unregister_cq i s).2.
Proof.
  intros Hi. unfold ionic_datapath_unregister_cq in *. rewrite run_bind, run_gets in *. cbn [fst snd] in *.
  destruct (_ <=? i) eqn:Hc; bdestr; [by cbn in Hi; lia|]. by rewrite cq_at_upd, decide_True.
Qed.
Lemma unregister_ah_gone i s : ah_gone i (ionic_datapath_unregister_ah i s).2.
Proof.
  intros Hi. unfold ionic_datapath_unregister_ah in *. rewrite run_bind, run_gets in *. cbn [fst snd] in *.
  destruct (_ <=? i) eqn:Hc; bdestr; [by cbn in Hi; lia|]. by rewrite ah_at_upd, decide_True.
Qed.
Lemma unregister_srq_gone i s : srq_gone i (ionic_datapath_unregister_srq (IONIC_SRQ_QID_BASE + i) s).2.
Proof.
  intros Hi. destruct (wi_count _ _ (unregister_srq_wiped (IONIC_SRQ_QID_BASE + i) s)) as (_ & _ & Hc & _). rewrite Hc in Hi.
  unfold ionic_datapath_unregister_srq. rewrite run_bind, run_gets. cbn [fst snd]. unfold srq_by_qid.
  rewrite (proj2 (Z.ltb_ge _ _)) by lia. replace (IONIC_SRQ_QID_BASE + i - IONIC_SRQ_QID_BASE) with i by lia.
  cbn zeta. rewrite (proj2 (Z.leb_gt _ _)) by lia. rewrite srq_at_upd, decide_True by done.
  by destruct (sr_valid (srq_at i s)) eqn:Hv.
Qed.

Lemma unbind_gone i s : mr_gone i (upd_mr i dp_mr_unbind s).2.
Proof. unfold mr_gone. by rewrite mr_at_upd, decide_True. Qed.

(** One loop of the reset: what it clears is [P], shown by [Hgone]. *)
Ltac wipe P Hwiped Hgone :=
  match goal with
  | |- context [for_each ?l ?b ?s] =>
      assert (wiped s (for_each l b s).2 /\ forall x, x ∈ l -> P x (for_each l b s).2) as [W G];
      [ apply wipe_loop;
        [ intros ?; cbn beta; repeat first [apply Hwiped | wiped_step]
        | intros ? ?; cbn beta; rewrite ?run_bind, ?run_gets; cbn [fst snd];
          first [ apply Hgone | case_match; [apply Hgone | first [intros ?; assumption | assumption]] ]
        | intros ? ? ? Hw; apply (gone_stable _ _ _ Hw) ]
      | set (s0 := (for_each l b s).2) in *; clearbody s0 ]
  end.

Lemma reset_rdma_spec s :
  let s' := (ionic_datapath_reset_rdma s).2 in wiped s s' /\ forall i,
  (0 <= i < dp_qp_count s -> q_valid (qp_at i s') = false) /\
  (0 <= i < dp_srq_count s -> sr_valid (srq_at i s') = false) /\
  (0 <= i < dp_cq_count s -> c_valid (cq_at i s') = false) /\
  (0 <= i < dp_ah_count s -> ah_valid (ah_at i s') = false) /\
  (0 <= i < ERNIC_MAX_MR -> mr_valid (mr_at i s') = false).
Proof.
  cbn zeta. unfold ionic_datapath_reset_rdma.
  rewrite run_bind, run_gets. cbn [fst snd]. rewrite run_bind.
  wipe qp_gone unregister_qp_wiped unregister_qp_gone. rename s0 into s1, W into W1, G into G1.
  rewrite run_bind, run_gets. cbn [fst snd]. rewrite run_bind.
  wipe srq_gone unregister_srq_wiped unregister_srq_gone. rename s0 into s2, W into W2, G into G2.
  rewrite run_bind, run_gets. cbn [fst snd]. rewrite run_bind.
  wipe cq_gone unregister_cq_wiped unregister_cq_gone. rename s0 into s3, W into W3, G into G3.
  rewrite run_bind, run_gets. cbn [fst snd]. rewrite run_bind.
  wipe ah_gone unregister_ah_wiped unregister_ah_gone. rename s0 into s4, W into W4, G into G4.
  wipe mr_gone unregister_ah_wiped unbind_gone. rename s0 into s5, W into W5, G into G5.
  assert (wiped s1 s5) as V1 by (transitivity s2; [done|transitivity s3; [done|by transitivity s4]]).
  assert (wiped s2 s5) as V2 by (transitivity s3; [done|by transitivity s4]).
  assert (wiped s3 s5) as V3 by (by transitivity s4).
  assert (wiped s s5) as V0 by (by transitivity s1).
  destruct (wi_count _ _ V0) as (C1 & C2 & C3 & C4), (wi_count _ _ V1) as (D1 & D2 & D3 & D4),
    (wi_count _ _ V2) as (_ & E2 & _ & _), (wi_count _ _ V3) as (_ & _ & _ & E4).
  split; [done|]. intros i. split_and!; intros Hi.
  - apply (proj1 (gone_stable i _ _ V1)); [apply G1, elem_of_seqZ; lia|lia].
  - apply (proj1 (proj2 (gone_stable i _ _ V2))); [apply G2, elem_of_seqZ; lia|lia].
  - apply (proj1 (proj2 (proj2 (gone_stable i _ _ V3)))); [apply G3, elem_of_seqZ; lia|lia].
  - apply (proj1 (proj2 (proj2 (proj2 (gone_stable i _ _ W5))))); [apply G4, elem_of_seqZ; lia|lia].
  - apply G5, elem_of_seqZ. lia.
Qed.

(** After a reset of the device's RDMA side no queue pair, completion
    queue, shared receive queue, address handle or memory region is left
    registered: no key and no queue number of the old guest means anything
    to the next one. *)
Theorem reset_rdma_forgets s i :
  let s' := (ionic_datapath_reset_rdma s).2 in
  (0 <= i < dp_qp_count s -> q_valid (qp_at i s') = false) /\
  (0 <= i < dp_srq_count s -> sr_valid (srq_at i s') = false) /\
  (0 <= i < dp_cq_count s -> c_valid (cq_at i s') = false) /\
  (0 <= i < dp_ah_count s -> ah_valid (ah_at i s') = false) /\
  (0 <= i < ERNIC_MAX_MR -> mr_valid (mr_at i s') = false).
Proof. apply reset_rdma_spec. Qed.
End reset_spec.

Lemma reset_rdma_forgets_witness :
  q_valid (qp_at 1 ex_qp_dp) = true /\
  q_valid (qp_at 1 (ionic_datapath_reset_rdma (T := no_targets) ex_qp_dp).2) = false.
Proof.
  split; [computes|].
  apply (proj1 (@reset_rdma_forgets ex_env no_targets no_targets_laws ex_qp_dp 1)). in_range.
Defined.
