(* ===== verification/DpSq.v ===== *)
(** * Progress of a send queue

    sq_service() runs a queue until it is empty, waits for something, or has
    faulted: there is no fourth way for it to stop, and the bound on its loop
    is never what stops it. *)
From S2P Require Export DpReset.

Section sq.
Context {E : Env}.

(** Where a queue pair's send queue stands. *)
Definition sq_pos (q : ionic_qp_ring) : bool * Z * Z * Z := (q_valid q, q_sq_depth q, q_sq_prod q, q_sq_cons q).

(** No send queue moves. *)
Definition sq_same (s s' : ionic_datapath) : Prop := forall i, sq_pos (qp_at i s') = sq_pos (qp_at i s).
#[global] Instance sq_same_preorder : PreOrder sq_same.
Proof. split; [by intros s i|]. intros a b c H1 H2 i. by rewrite H2, H1. Qed.

Lemma sq_same_quiet {A} (m : DP A) : keeps quiet m -> keeps sq_same m.
Proof.
  intros Hm s i. pose proof (qz_qp _ _ (Hm s) i) as Hc.
  change (sq_pos (qp_core (qp_at i (m s).2)) = sq_pos (qp_core (qp_at i s))). by rewrite Hc.
Qed.
Lemma sq_same_frame {A} F (m : DP A) : keeps (frame F) m -> flds_disj F [FQp] = true -> keeps sq_same m.
Proof.
  intros Hm Hd s i. unfold flds_disj in Hd. cbn -[bool_decide] in Hd. bdestr.
  pose proof (Hm s FQp ltac:(done)) as F1. cbn in F1. unfold qp_at. by rewrite F1.
Qed.
Lemma sq_same_upd i f : (forall q, sq_pos (f q) = sq_pos q) -> keeps sq_same (upd_qp i f).
Proof. intros Hf s j. rewrite qp_at_upd. case_decide; subst; auto. Qed.
End sq.

Create HintDb sq discriminated.
#[export] Hint Constants Opaque : sq.
Ltac sq_step :=
  first [ solve [auto 2 with sq nocore]
        | apply sq_same_quiet; solve [auto 2 with quiet nocore]
        | eapply sq_same_frame; [solve [auto 2 with frame nocore] | reflexivity]
        | apply sq_same_upd; intros ?; reflexivity
        | keeps_step ].
Ltac sq_auto := repeat sq_step.

Section sq_ops.
Context {E : Env} {T : Targets} {TL : TargetsLaws}.

Lemma stall_clear_sq q : keeps sq_same (sq_stall_clear q).
Proof. unfold sq_stall_clear. sq_auto. Qed.
Lemma busy_set_sq q : keeps sq_same (sq_busy_set q).
Proof. unfold sq_busy_set. sq_auto. Qed.
Lemma rnr_set_sq q now : keeps sq_same (sq_rnr_set q now).
Proof. unfold sq_rnr_set. sq_auto. Qed.
Lemma remote_send_sq i q w um h n d l sh : keeps sq_same (remote_send i q w um h n d l sh).
Proof. unfold remote_send. sq_auto. Qed.
Hint Resolve remote_send_sq : sq.
Lemma remote_post_sq q op id um sg src wqe dq dn sh : keeps sq_same (remote_post q op id um sg src wqe dq dn sh).
Proof. unfold remote_post. sq_auto. Qed.
Lemma complete_send_sq q id r st : keeps sq_same (dp_complete_send q id r st).
Proof. unfold dp_complete_send. sq_auto. Qed.
Lemma sq_rdma_sq q op w l i : keeps sq_same (sq_rdma q op w l i).
Proof. unfold sq_rdma. sq_auto. Qed.
Lemma sq_local_op_sq q op id w n : keeps sq_same (sq_local_op q op id w n).
Proof. unfold sq_local_op. sq_auto. Qed.
End sq_ops.
#[export] Hint Resolve stall_clear_sq busy_set_sq rnr_set_sq remote_post_sq complete_send_sq sq_rdma_sq sq_local_op_sq : sq.

(** ** Why a work request is not done yet

    [waits q w]: the send queues stay where they are, and a result that says
    "stop here", picked out by [w], leaves the queue stalled. *)
Section waits.
Context {E : Env} {T : Targets} {TL : TargetsLaws}.

Definition waits {A} (q : Z) (w : A -> bool) (m : DP A) : Prop :=
  yields (fun s a s' => sq_same s s' /\ (w a = true -> stalled (qp_at q s') = true)) m.

Lemma waits_bind {A B} q (w : B -> bool) (m : DP A) (k : A -> DP B) :
  keeps sq_same m -> (forall a, waits q w (k a)) -> waits q w (m ≫= k).
Proof.
  intros Hm Hk s. rewrite run_bind. destruct (Hk (m s).1 (m s).2) as [H1 H2]. split; [|done].
  etrans; [apply Hm|done].
Qed.
Lemma waits_ret {A} q (w : A -> bool) a : w a = false -> waits q w (mret a).
Proof. intros Ha s. rewrite run_ret. cbn [fst snd]. rewrite Ha. done. Qed.
Lemma waits_keeps {A} q (w : A -> bool) (m : DP A) : waits q w m -> keeps sq_same m.
Proof. intros Hm s. apply Hm. Qed.

Lemma busy_waits {A} q (w : A -> bool) (a : A) : waits q w (sq_busy_set q ;; mret a).
Proof.
  intros s. split; [|intros _].
  - assert (keeps sq_same (sq_busy_set q ;; (mret a : DP A))) as H by sq_auto. apply H.
  - unfold sq_busy_set. rewrite !run_bind, run_gets, run_ret. cbn [snd]. rewrite qp_at_upd, decide_True by done.
    unfold stalled. cbn. apply orb_true_r.
Qed.

Lemma rnr_set_stalls q now s : stalled (qp_at q (sq_rnr_set q now s).2) = true.
Proof.
  unfold sq_rnr_set. rewrite run_bind, run_gets. cbn [fst snd]. destruct (q_sq_rnr (qp_at q s)) eqn:Hr.
  - rewrite run_ret. unfold stalled. cbn [snd]. by rewrite Hr.
  - rewrite !run_bind, run_ret. cbn [snd]. by rewrite qp_at_upd, decide_True.
Qed.

Lemma quiet_stalled {A} (m : DP A) q s : keeps quiet m -> stalled (qp_at q (m s).2) = stalled (qp_at q s).
Proof.
  intros Hm. pose proof (qz_qp _ _ (Hm s) q) as Hc.
  change (stalled (qp_core (qp_at q (m s).2)) = stalled (qp_core (qp_at q s))). by rewrite Hc.
Qed.

Lemma send_rnr_waits q d : waits q snd (sq_send_rnr q d).
Proof.
  unfold sq_send_rnr. apply waits_bind; [sq_auto|]. intros now. apply waits_bind; [sq_auto|]. intros r.
  destruct (negb _); [apply waits_bind; [sq_auto|]; intros _; by apply waits_ret|].
  intros s. rewrite run_bind. pose proof (rnr_set_sq q now s) as Hs. pose proof (rnr_set_stalls q now s) as Hst.
  destruct (sq_rnr_set q now s) as [first s1]. cbn [fst snd] in *. rewrite run_bind.
  match goal with |- context [(?m s1).2] => assert (keeps quiet m) as Hq by (destruct first; quiet_auto);
    pose proof (sq_same_quiet m Hq s1) as H1; pose proof (quiet_stalled m q s1 Hq) as H2; set (s2 := (m s1).2) in * end.
  rewrite run_bind, run_gets. cbn [fst snd]. destruct (_ <? _).
  - rewrite run_bind, run_ret. cbn [fst snd]. assert (keeps quiet (dp_count d RESP_TX_RNR_RETRY_ERR)) as Hc by quiet_auto.
    split; [etrans; [exact Hs|etrans; [exact H1|by apply sq_same_quiet]]|]. intros _. by rewrite quiet_stalled, H2.
  - rewrite run_ret. cbn [fst snd]. split; [by etrans|done].
Qed.
End waits.

Ltac waits_step :=
  lazymatch goal with
  | |- waits _ _ (mret _) => first [ apply waits_ret; reflexivity | fail 1 ]
  | |- waits _ _ (sq_busy_set _ ≫= _) => apply busy_waits
  | |- waits _ _ (let '(_, _) := ?p in _) => destruct p
  | |- waits _ _ (if ?b then _ else _) => destruct b eqn:?
  | |- waits _ _ (match ?x with _ => _ end) => destruct x eqn:?
  | |- waits _ _ (_ ≫= _) => apply waits_bind; [solve [sq_auto] | intros ?]
  end.
Ltac waits_auto := repeat waits_step.

Section waits_ops.
Context {E : Env} {T : Targets} {TL : TargetsLaws}.

Lemma send_ud_remote_waits q op id w l d n ah : waits q snd (sq_send_ud_remote q op id w l d n ah).
Proof. unfold sq_send_ud_remote. waits_auto. Qed.
Lemma send_local_waits q op w l i d ah : waits q snd (sq_send_local q op w l i d ah).
Proof. unfold sq_send_local. repeat first [apply send_rnr_waits | waits_step]. Qed.
Lemma sq_send_waits q op id w l i r : waits q snd (sq_send q op id w l i r).
Proof. unfold sq_send. repeat first [apply send_ud_remote_waits | apply send_local_waits | waits_step]. Qed.

Lemma sq_remote_waits q op id fl r w l : waits q negb (sq_remote q op id fl r w l).
Proof. unfold sq_remote. waits_auto. Qed.

(** The last step of a request inside the device passes on whether it waits. *)
Lemma sq_local_waits q op id r w l : waits q negb (sq_local q op id r w l).
Proof.
  unfold sq_local. apply waits_bind; [sq_auto|]. intros _. intros s. rewrite run_bind.
  match goal with |- context [(?m s).2] => assert (waits q snd m) as Hm end.
  { repeat first [apply sq_send_waits | waits_step]. }
  destruct (Hm s) as [H1 H2]. match goal with |- context [(?m s).2] => destruct (m s) as [[st wt] s1] end.
  cbn [fst snd] in *. destruct wt.
  - rewrite run_ret. cbn [fst snd negb]. split; [done|intros _; by apply H2].
  - match goal with |- context [(?m s1).2] => assert (waits q negb m) as Ht by waits_auto end.
    destruct (Ht s1) as [H3 H4]. split; [by etrans|done].
Qed.

Lemma sq_wqe_waits q g n w : waits q negb (sq_wqe q g n w).
Proof.
  unfold sq_wqe. apply waits_bind; [sq_auto|]. intros r. apply waits_bind; [sq_auto|]. intros _.
  destruct (_ || _).
  { unfold sq_local_op. waits_auto. }
  destruct (wqe_src w g n _ _); [waits_auto|]. apply waits_bind; [sq_auto|]. intros ok. destruct (negb ok); [waits_auto|].
  apply waits_bind; [apply sq_same_quiet, p4_quiet'|]. intros p4. destruct p4; [waits_auto|].
  repeat first [apply sq_remote_waits | apply sq_local_waits | waits_step].
Qed.
End waits_ops.

(** ** One work request, and the loop *)
Section service.
Context {E : Env} {T : Targets} {TL : TargetsLaws}.

(** The queue is empty, waits, or has faulted. *)
Definition sq_at_rest (q : ionic_qp_ring) : Prop :=
  q_sq_cons q mod q_sq_depth q = q_sq_prod q \/ stalled q = true \/ q_sq_fault q = true.

(** A queue marked as faulted either stays so until what it has outstanding
    is done, or is flushed, which empties it. *)
Lemma fault_finish_rest q s :
  live_qp q s = true -> q_sq_fault (qp_at q s) = true -> 0 <= q_sq_prod (qp_at q s) < q_sq_depth (qp_at q s) ->
  sq_at_rest (qp_at q (sq_fault_finish q s).2).
Proof.
  intros Hl Hfl Hp. unfold sq_fault_finish. rewrite run_bind, run_gets. cbn [fst snd]. destruct (_ && _) eqn:Hgo; cbn [negb].
  2: { rewrite run_ret. by right; right. }
  rewrite run_bind, run_gets. cbn [fst snd]. rewrite run_bind. set (cp := cq_post_send_npg _ _ _ _).
  assert (keeps quiet cp) as Hqt by (subst cp; quiet_auto). pose proof (sq_same_quiet cp Hqt s q) as Hpos.
  frame_fact cp s FCfg Hcfg. set (s3 := (cp s).2) in *. assert (dp_qp_count s3 = dp_qp_count s) as Hc by congruence.
  clearbody s3. unfold sq_pos in Hpos. injection Hpos as Hv Hd Hpr _.
  assert (live_qp q s3 = true) as Hl3 by (unfold live_qp in *; by rewrite Hc, Hv).
  pose proof (flush_qp_core q s3 Hl3) as Hf. left.
  assert (sq_pos (qp_at q (ionic_datapath_flush_qp q s3).2) =
    (q_valid (qp_at q s3), q_sq_depth (qp_at q s3), q_sq_prod (qp_at q s3), q_sq_prod (qp_at q s3))) as Hfin.
  { change (sq_pos (qp_at q (ionic_datapath_flush_qp q s3).2)) with (sq_pos (qp_core (qp_at q (ionic_datapath_flush_qp q s3).2))).
    by rewrite Hf. }
  unfold sq_pos in Hfin. injection Hfin as _ -> -> ->. rewrite Hd, Hpr. by apply Z.mod_small.
Qed.

Lemma process_sq_wqe_spec q slot s :
  live_qp q s = true -> 0 <= q_sq_prod (qp_at q s) < q_sq_depth (qp_at q s) ->
  let r := process_sq_wqe q slot s in
  if r.1 then sq_same s r.2 else sq_at_rest (qp_at q r.2).
Proof.
  intros Hl Hp. cbn zeta. unfold process_sq_wqe. rewrite run_bind, run_gets. cbn [fst snd].
  destruct (buf_gpa _ _) as [gpa run]. set (rd := if _ || _ then _ else _).
  assert ((rd s).2 = s) as Hrd by (subst rd; by destruct (_ || _)). rewrite run_bind, Hrd. destruct (rd s).1 as [wqe|].
  - match goal with |- context [sq_wqe q ?g ?n wqe] => pose proof (sq_wqe_waits q g n wqe s) as [H1 H2];
      destruct (sq_wqe q g n wqe s) as [[] s1] end; cbn [fst snd] in *; [done|]. right. left. by apply H2.
  - rewrite run_bind. pose proof (stall_clear_sq q s q) as Hq. frame_fact (sq_stall_clear q) s FCfg Hcfg.
    set (s1 := (sq_stall_clear q s).2) in *. assert (dp_qp_count s1 = dp_qp_count s) as Hc1 by congruence. clearbody s1.
    rewrite run_bind. set (u := upd_qp q _). set (s2 := (u s1).2).
    assert (qp_at q s2 = (qp_at q s1) <| q_sq_fault := true |>) as Hq2 by (subst s2 u; by rewrite qp_at_upd, decide_True).
    assert (dp_qp_count s2 = dp_qp_count s1) as Hc2 by done. clearbody s2.
    rewrite run_bind, run_ret. cbn [fst snd]. unfold sq_pos in Hq. injection Hq as Hv Hd Hpr _.
    apply fault_finish_rest; rewrite ?Hq2; [|done|cbn; by rewrite Hd, Hpr].
    unfold live_qp in *. rewrite Hc2, Hc1, Hq2. cbn. by rewrite Hv.
Qed.

(** How many work requests are left. *)
Lemma sq_left_step depth prod c :
  (exists d, 0 <= d <= 32 /\ depth = 2 ^ d) -> 0 <= prod < depth -> c mod depth <> prod ->
  (prod - u32 (c + 1)) mod depth = (prod - c) mod depth - 1.
Proof.
  intros (d & Hd & ->) Hp Hne. rewrite <-Zminus_mod_idemp_r, u32_mod_depth, Zminus_mod_idemp_r by done.
  pose proof (Z.mod_pos_bound (prod - c) (2 ^ d) ltac:(lia)) as Hb.
  assert ((prod - c) mod 2 ^ d <> 0) as Hnz.
  { intros H0. apply Hne. rewrite <-(Z.mod_small prod (2 ^ d)) by lia. symmetry.
    replace prod with (c + (prod - c)) by lia. rewrite <-Zplus_mod_idemp_r, H0. by rewrite Z.add_0_r. }
  replace (prod - (c + 1)) with ((prod - c) + (-1)) by lia. rewrite <-Zplus_mod_idemp_l.
  rewrite Z.mod_small; lia.
Qed.

Lemma sq_service_loop_rest n q s :
  live_qp q s = true -> (exists d, 0 <= d <= 32 /\ q_sq_depth (qp_at q s) = 2 ^ d) ->
  0 <= q_sq_prod (qp_at q s) < q_sq_depth (qp_at q s) ->
  (q_sq_prod (qp_at q s) - q_sq_cons (qp_at q s)) mod q_sq_depth (qp_at q s) <= Z.of_nat n ->
  sq_at_rest (qp_at q (sq_service_loop n q s).2).
Proof.
  revert s. induction n as [|n IH]; intros s Hl Hd Hp Hn; cbn [sq_service_loop].
  { left. cbn [snd mret st_ret]. 
    pose proof (Z.mod_pos_bound (q_sq_prod (qp_at q s) - q_sq_cons (qp_at q s)) (q_sq_depth (qp_at q s)) ltac:(lia)) as Hb.
    destruct (decide (q_sq_cons (qp_at q s) mod q_sq_depth (qp_at q s) = q_sq_prod (qp_at q s))) as [|Hne]; [done|].
    pose proof (sq_left_step _ _ _ Hd Hp Hne) as Hs.
    pose proof (Z.mod_pos_bound (q_sq_prod (qp_at q s) - u32 (q_sq_cons (qp_at q s) + 1)) (q_sq_depth (qp_at q s)) ltac:(lia)). lia. }
  rewrite run_bind, run_gets. cbn [fst snd]. destruct (_ =? _) eqn:Hc; bdestr; [by left|].
  rewrite run_bind. match goal with |- context [process_sq_wqe q ?sl s] => pose proof (process_sq_wqe_spec q sl s Hl Hp) as H1;
    frame_fact (process_sq_wqe q sl) s FCfg H2; destruct (process_sq_wqe q sl s) as [[] s1] end; cbn [fst snd negb] in *; [|done].
  rewrite run_bind. pose proof (stall_clear_sq q s1 q) as H3. frame_fact (sq_stall_clear q) s1 FCfg H4.
  set (s2 := (sq_stall_clear q s1).2) in *. rewrite (H1 q) in H3. unfold sq_pos in H3. injection H3 as Hv Hdd Hpp Hcc.
  assert (dp_qp_count s2 = dp_qp_count s) as Hcnt by congruence. clearbody s2. clear H1 H2 H4.
  rewrite run_bind. apply IH; rewrite ?qp_at_upd, ?decide_True by done.
  - unfold live_qp in *. rewrite qp_at_upd, decide_True by done. cbn. by rewrite Hcnt, Hv.
  - cbn. by rewrite Hdd.
  - cbn. by rewrite Hdd, Hpp.
  - cbn. rewrite Hdd, Hpp, Hcc. rewrite sq_left_step by done. lia.
Qed.

(** C17: running the send queue of a live queue pair with a ring of 2^d slots
    always comes to rest with the queue empty, stalled on a receive or on
    room in the mesh, or faulted; it never stops in between, and never
    because the loop's bound ran out. *)
Theorem sq_service_rests q s :
  live_qp q s = true -> (exists d, 0 <= d <= 32 /\ q_sq_depth (qp_at q s) = 2 ^ d) ->
  0 <= q_sq_prod (qp_at q s) < q_sq_depth (qp_at q s) ->
  sq_at_rest (qp_at q (sq_service q s).2).
Proof.
  intros Hl Hd Hp. unfold sq_service. rewrite run_bind, run_gets. cbn [fst snd].
  destruct (q_sq_fault _) eqn:Hf; [by right; right|]. apply sq_service_loop_rest; try done.
  pose proof (Z.mod_pos_bound (q_sq_prod (qp_at q s) - q_sq_cons (qp_at q s)) (q_sq_depth (qp_at q s)) ltac:(lia)). lia.
Qed.
End service.

Lemma sq_service_rests_witness : sq_at_rest (qp_at 1 (sq_service (T := no_targets) 1
  (upd_qp 1 (fun q => q <| q_sq_prod := 1 |>) ex_posted).2).2).
Proof.
  apply (@sq_service_rests ex_env no_targets no_targets_laws 1 (upd_qp 1 (fun q => q <| q_sq_prod := 1 |>) ex_posted).2).
  - computes.
  - exists 2. split; [lia|computes].
  - in_range.
Defined.
