(* ===== verification/DpNames.v ===== *)
(** * Which objects the data path has

    An object exists while its [valid] flag is set.  Only registering and
    unregistering change that: everything a doorbell, a poll or an arriving
    message sets off leaves the sets of queue pairs, completion queues and
    shared receive queues as they are. *)
From S2P Require Export DpTop DpQp DpReset.

(** Only the objects [cx], [qx] and [rx] may have come or gone. *)
Record same_names `{E : Env} (cx qx rx : option Z) (s s' : ionic_datapath) : Prop := {
  sn_cq i : Some i <> cx -> c_valid (cq_at i s') = c_valid (cq_at i s);
  sn_qp i : Some i <> qx -> q_valid (qp_at i s') = q_valid (qp_at i s);
  sn_srq i : Some i <> rx -> sr_valid (srq_at i s') = sr_valid (srq_at i s);
  sn_count : dp_qp_count s' = dp_qp_count s /\ dp_cq_count s' = dp_cq_count s /\ dp_srq_count s' = dp_srq_count s }.

Create HintDb names discriminated.
#[export] Hint Constants Opaque : names.

Section names.
Context {E : Env} {T : Targets} {TL : TargetsLaws} {cx qx rx : option Z}.
Abbreviation N := (same_names cx qx rx).

#[global] Instance same_names_preorder : PreOrder N.
Proof. split; [by split|]. intros a b c [A1 A2 A3 A4] [B1 B2 B3 B4]. split; [..|intuition congruence]; intros i Hi; [rewrite B1, A1|rewrite B2, A2|rewrite B3, A3]; done. Qed.

Lemma names_frame {A} F (m : DP A) : keeps (frame F) m -> flds_disj F [FQp; FCq; FSrq; FCfg] = true -> keeps N m.
Proof.
  intros Hm Hd s. unfold flds_disj in Hd. cbn -[bool_decide] in Hd. bdestr.
  pose proof (Hm s FQp ltac:(done)) as F1. pose proof (Hm s FCq ltac:(done)) as F2. pose proof (Hm s FSrq ltac:(done)) as F3.
  pose proof (Hm s FCfg ltac:(done)) as F4. cbn in F1, F2, F3, F4.
  split; [..|split_and!; congruence]; intros i _; unfold cq_at, qp_at, srq_at; congruence.
Qed.

(** A call that is quiet on the work queues and keeps the completion queues. *)
Lemma quiet_names {A} F (m : DP A) :
  keeps (frame F) m -> flds_disj F [FCfg] = true -> keeps quiet m -> keeps cqs_kept m -> keeps N m.
Proof.
  intros Hm Hd Hq Hc s. unfold flds_disj in Hd. cbn -[bool_decide] in Hd. bdestr. pose proof (Hm s FCfg ltac:(done)) as F4.
  cbn in F4. destruct (Hq s) as [Q1 Q2 _ _]. split; [..|split_and!; congruence]; intros i _.
  - apply Hc.
  - specialize (Q1 i). by apply (f_equal q_valid) in Q1.
  - specialize (Q2 i). by apply (f_equal sr_valid) in Q2.
Qed.

Lemma upd_qp_names i f : (Some i = qx \/ forall q, q_valid (f q) = q_valid q) -> keeps N (upd_qp i f).
Proof.
  intros Hf s. split; try done. intros j Hj. rewrite qp_at_upd. case_decide; [subst|done]. by destruct Hf as [<-|Hf].
Qed.
Lemma upd_cq_names i f : (Some i = cx \/ forall c, c_valid (f c) = c_valid c) -> keeps N (upd_cq i f).
Proof.
  intros Hf s. split; try done. intros j Hj. rewrite cq_at_upd. case_decide; [subst|done]. by destruct Hf as [<-|Hf].
Qed.
Lemma upd_srq_names i f : (Some i = rx \/ forall r, sr_valid (f r) = sr_valid r) -> keeps N (upd_srq i f).
Proof.
  intros Hf s. split; try done. intros j Hj. rewrite srq_at_upd. case_decide; [subst|done]. by destruct Hf as [<-|Hf].
Qed.
End names.

Ltac names_upd :=
  first [apply upd_qp_names | apply upd_cq_names | apply upd_srq_names];
  first [by left | right; intros ?; repeat case_match; cbn; congruence].
Ltac names_step :=
  first [ solve [auto 2 with names nocore]
        | eapply names_frame; [solve [auto 2 with frame nocore] | reflexivity]
        | solve [names_upd]
        | keeps_step ].
Ltac names_auto := repeat names_step.
(** One run of a call that keeps the names. *)
Ltac names_run :=
  match goal with |- same_names ?c ?q ?r _ (?m _).2 => assert (keeps (same_names c q r) m) as Hkeeps; [names_auto|apply Hkeeps] end.

Section names_ops.
Context {E : Env} {T : Targets} {TL : TargetsLaws} {cx qx rx : option Z}.
Abbreviation N := (same_names cx qx rx).

(** ** Completions and receives *)
Lemma fire_event_names c : keeps N (cq_fire_event c).
Proof. unfold cq_fire_event. names_auto. Qed.
Hint Resolve fire_event_names : names.
Lemma count_names q c : keeps N (dp_count q c).
Proof. unfold dp_count. names_auto. Qed.
Hint Resolve count_names : names.
Lemma count_cqe_err_names q t st : keeps N (dp_count_cqe_err q t st).
Proof. unfold dp_count_cqe_err. names_auto. Qed.
Hint Resolve count_cqe_err_names : names.
Lemma cq_post_names c body sl ty q e : keeps N (cq_post c body sl ty q e).
Proof. unfold cq_post. names_auto. Qed.
Hint Resolve cq_post_names : names.
Lemma cq_post_recv_names c q w sq op imm bl e mac v4 : keeps N (cq_post_recv c q w sq op imm bl e mac v4).
Proof. unfold cq_post_recv. names_auto. Qed.
Lemma cq_post_flush_names c q t : keeps N (cq_post_flush c q t).
Proof. unfold cq_post_flush. names_auto. Qed.
Lemma cq_post_send_msn_names c q m st : keeps N (cq_post_send_msn c q m st).
Proof. unfold cq_post_send_msn. names_auto. Qed.
Lemma cq_post_send_npg_names c q w st : keeps N (cq_post_send_npg c q w st).
Proof. unfold cq_post_send_npg. names_auto. Qed.
Lemma take_recv_names q : keeps N (take_recv q).
Proof. unfold take_recv. names_auto. Qed.
Hint Resolve cq_post_recv_names cq_post_flush_names cq_post_send_msn_names cq_post_send_npg_names take_recv_names : names.
Lemma deliver_recv_names dq sq src sh op imm : keeps N (ionic_dp_deliver_recv dq sq src sh op imm).
Proof. unfold ionic_dp_deliver_recv. names_auto. Qed.
Hint Resolve deliver_recv_names : names.

(** ** Sends *)
Lemma stall_clear_names q : keeps N (sq_stall_clear q).
Proof. unfold sq_stall_clear. names_auto. Qed.
Lemma busy_set_names q : keeps N (sq_busy_set q).
Proof. unfold sq_busy_set. names_auto. Qed.
Lemma rnr_set_names q now : keeps N (sq_rnr_set q now).
Proof. unfold sq_rnr_set. names_auto. Qed.
Hint Resolve stall_clear_names busy_set_names rnr_set_names : names.
Lemma flush_qp_names q : keeps N (ionic_datapath_flush_qp q).
Proof. unfold ionic_datapath_flush_qp. names_auto. Qed.
Hint Resolve flush_qp_names : names.
Lemma fault_finish_names q : keeps N (sq_fault_finish q).
Proof. unfold sq_fault_finish. names_auto. Qed.
Hint Resolve fault_finish_names : names.
Lemma pending_complete_names i st : keeps N (pending_complete i st).
Proof. unfold pending_complete. names_auto. Qed.
Hint Resolve pending_complete_names : names.
Lemma remote_send_names i q w um h n d l sh : keeps N (remote_send i q w um h n d l sh).
Proof. unfold remote_send. names_auto. Qed.
Hint Resolve remote_send_names : names.
Lemma remote_post_names q op id um sg src wqe dq dn sh : keeps N (remote_post q op id um sg src wqe dq dn sh).
Proof. unfold remote_post. names_auto. Qed.
Lemma complete_send_names q id r st : keeps N (dp_complete_send q id r st).
Proof. unfold dp_complete_send. names_auto. Qed.
Hint Resolve remote_post_names complete_send_names : names.
Lemma send_ud_remote_names q op id w l d n ah : keeps N (sq_send_ud_remote q op id w l d n ah).
Proof. unfold sq_send_ud_remote. names_auto. Qed.
Lemma send_rnr_names q d : keeps N (sq_send_rnr q d).
Proof. unfold sq_send_rnr. names_auto. Qed.
Hint Resolve send_ud_remote_names send_rnr_names : names.

Lemma gsi_names q l : keeps N (ionic_dp_nvmeof_gsi q l).
Proof. eapply quiet_names; [apply gsi_frame|reflexivity|apply gsi_quiet|apply gsi_cqs]. Qed.
Lemma rc_send_names q l : keeps N (ionic_dp_nvmeof_rc_send q l).
Proof. eapply quiet_names; [apply rc_send_frame|reflexivity|apply rc_send_quiet|apply rc_send_cqs]. Qed.
Lemma s3_names : keeps N ionic_dp_s3_poll.
Proof. eapply quiet_names; [apply s3_frame|reflexivity|apply s3_quiet|apply s3_cqs]. Qed.
Lemma p4_names q op w n l i :
  keeps N match ionic_dp_p4_policy with None => mret None | Some policy => policy q op w n l i end.
Proof.
  destruct ionic_dp_p4_policy as [f|] eqn:Hf; [|apply (keeps_ret _)].
  eapply quiet_names; [by apply p4_frame|reflexivity|by apply p4_quiet|by apply p4_cqs].
Qed.
Hint Resolve gsi_names rc_send_names s3_names p4_names : names.
Lemma send_local_names q op w l i d ah : keeps N (sq_send_local q op w l i d ah).
Proof. unfold sq_send_local. names_auto. Qed.
Hint Resolve send_local_names : names.
Lemma sq_send_names q op id w l i r : keeps N (sq_send q op id w l i r).
Proof. unfold sq_send. names_auto. Qed.
Lemma sq_rdma_names q op w l i : keeps N (sq_rdma q op w l i).
Proof. unfold sq_rdma. names_auto. Qed.
Lemma sq_local_op_names q op id w n : keeps N (sq_local_op q op id w n).
Proof. unfold sq_local_op. names_auto. Qed.
Lemma sq_remote_names q op id fl r w l : keeps N (sq_remote q op id fl r w l).
Proof. unfold sq_remote. names_auto. Qed.
Hint Resolve sq_send_names sq_rdma_names sq_local_op_names sq_remote_names : names.
Lemma sq_local_names q op id r w l : keeps N (sq_local q op id r w l).
Proof. unfold sq_local. names_auto. Qed.
Hint Resolve sq_local_names : names.
Lemma sq_wqe_names q g n w : keeps N (sq_wqe q g n w).
Proof. unfold sq_wqe. names_auto. Qed.
Hint Resolve sq_wqe_names : names.
Lemma process_sq_wqe_names q sl : keeps N (process_sq_wqe q sl).
Proof. unfold process_sq_wqe. names_auto. Qed.
Hint Resolve process_sq_wqe_names : names.
Lemma sq_service_loop_names n q : keeps N (sq_service_loop n q).
Proof. induction n as [|n IH]; cbn [sq_service_loop]; names_auto. Qed.
Hint Resolve sq_service_loop_names : names.
Lemma sq_service_names q : keeps N (sq_service q).
Proof. unfold sq_service. names_auto. Qed.
Hint Resolve sq_service_names : names.

(** ** Messages and polling *)
Lemma wire_reply_names d op h st p : keeps N (dp_wire_reply d op h st p).
Proof. unfold dp_wire_reply. names_auto. Qed.
Hint Resolve wire_reply_names : names.
Lemma wire_send_names n h q p r : keeps N (dp_wire_send n h q p r).
Proof. unfold dp_wire_send. names_auto. Qed.
Lemma wire_write_names n h q sq p : keeps N (dp_wire_write n h q sq p).
Proof. unfold dp_wire_write. names_auto. Qed.
Lemma wire_read_names n h sq : keeps N (dp_wire_read n h sq).
Proof. unfold dp_wire_read. names_auto. Qed.
Lemma wire_atomic_names n h : keeps N (dp_wire_atomic n h).
Proof. unfold dp_wire_atomic. names_auto. Qed.
Hint Resolve wire_send_names wire_write_names wire_read_names wire_atomic_names : names.
Lemma handle_wire_names n m r : keeps N (dp_handle_wire n m r).
Proof. unfold dp_handle_wire, dp_wire_response. names_auto. Qed.
Hint Resolve handle_wire_names : names.
Lemma poll_pass_names now g l d n b : keeps N (poll_pass now g l d n b).
Proof. revert d n b. induction l as [|m l IH]; intros d n b; cbn [poll_pass]; names_auto. Qed.
Lemma poll_stalled_names : keeps N poll_stalled.
Proof. unfold poll_stalled. names_auto. Qed.
Lemma poll_timeouts_names now : keeps N (poll_timeouts now).
Proof. unfold poll_timeouts. names_auto. Qed.
Hint Resolve poll_pass_names poll_stalled_names poll_timeouts_names : names.
Lemma poll_names arrivals : keeps N (ionic_datapath_poll arrivals).
Proof. unfold ionic_datapath_poll. names_auto. Qed.

(** ** Doorbells and settings *)
Lemma srq_doorbell_names q p : keeps N (srq_doorbell q p).
Proof. unfold srq_doorbell. names_auto. Qed.
Lemma cq_doorbell_names r q p : keeps N (cq_doorbell r q p).
Proof. unfold cq_doorbell. names_auto. Qed.
Lemma rq_doorbell_names q p : keeps N (rq_doorbell q p).
Proof. unfold rq_doorbell. names_auto. Qed.
Hint Resolve srq_doorbell_names cq_doorbell_names rq_doorbell_names : names.
Lemma doorbell_names t db : keeps N (ionic_datapath_doorbell t db).
Proof. unfold ionic_datapath_doorbell. names_auto. Qed.
Lemma set_qkey_names q k : keeps N (ionic_datapath_set_qkey q k).
Proof. unfold ionic_datapath_set_qkey. names_auto. Qed.
Lemma set_dest_names q d n : keeps N (ionic_datapath_set_dest q d n).
Proof. unfold ionic_datapath_set_dest. names_auto. Qed.
Lemma bind_qp_srq_names q i : keeps N (ionic_datapath_bind_qp_srq q i).
Proof. unfold ionic_datapath_bind_qp_srq. names_auto. Qed.
Lemma reset_counters_names : keeps N ionic_datapath_reset_rdma_counters.
Proof. unfold ionic_datapath_reset_rdma_counters. names_auto. Qed.

(** ** Registration changes the one object it names *)
Lemma register_cq_names c e r : Some c = cx -> keeps N (ionic_datapath_register_cq c e r).
Proof. intros Hc. unfold ionic_datapath_register_cq. names_auto. Qed.
Lemma unregister_cq_names c : Some c = cx -> keeps N (ionic_datapath_unregister_cq c).
Proof. intros Hc. unfold ionic_datapath_unregister_cq. names_auto. Qed.
Lemma unregister_qp_names q : Some q = qx -> keeps N (ionic_datapath_unregister_qp q).
Proof. intros Hq. unfold ionic_datapath_unregister_qp. names_auto. Qed.
Lemma register_qp_names q ty sc sq rc rq : Some q = qx -> keeps N (ionic_datapath_register_qp q ty sc sq rc rq).
Proof. intros Hq. pose proof (unregister_qp_names q Hq). unfold ionic_datapath_register_qp. names_auto. Qed.
Lemma srq_by_qid_index i s j : srq_by_qid i s = Some j -> j = i - IONIC_SRQ_QID_BASE /\ 0 <= j < dp_srq_count s.
Proof. unfold srq_by_qid. repeat case_match; bdestr; [done..|]. intros [= <-]. lia. Qed.
Lemma srq_by_qid_at s j : 0 <= j < dp_srq_count s -> srq_by_qid (IONIC_SRQ_QID_BASE + j) s = Some j.
Proof.
  intros Hj. unfold srq_by_qid. rewrite (proj2 (Z.ltb_ge _ _)) by lia. cbn zeta.
  replace (IONIC_SRQ_QID_BASE + j - IONIC_SRQ_QID_BASE) with j by lia. by rewrite (proj2 (Z.leb_gt _ _)) by lia.
Qed.
Lemma register_srq_names i r : Some (i - IONIC_SRQ_QID_BASE) = rx -> keeps N (ionic_datapath_register_srq i r).
Proof.
  intros Hi. unfold ionic_datapath_register_srq. apply keeps_gets_bind. intros s.
  destruct (srq_by_qid i s) as [j|] eqn:Hj; [|done]. apply srq_by_qid_index in Hj as [-> _].
  match goal with |- N s (?m s).2 => assert (keeps N m) as Hk; [|apply Hk] end. names_auto.
Qed.
Lemma unregister_srq_names i : Some (i - IONIC_SRQ_QID_BASE) = rx -> keeps N (ionic_datapath_unregister_srq i).
Proof.
  intros Hi. unfold ionic_datapath_unregister_srq. apply keeps_gets_bind. intros s.
  destruct (srq_by_qid i s) as [j|] eqn:Hj; [|done]. apply srq_by_qid_index in Hj as [-> _].
  match goal with |- N s (?m s).2 => assert (keeps N m) as Hk; [|apply Hk] end. names_auto.
Qed.
End names_ops.
#[export] Hint Resolve doorbell_names poll_names set_qkey_names set_dest_names bind_qp_srq_names reset_counters_names
  flush_qp_names : names.

(** ** Whether the object is there afterwards *)
Section registered.
Context {E : Env} {T : Targets} {TL : TargetsLaws}.

Lemma register_cq_valid c e r s :
  c < dp_cq_count s ->
  c_valid (cq_at c (ionic_datapath_register_cq c e r s).2) = ((ionic_datapath_register_cq c e r s).1 =? 0).
Proof.
  intros Hc. unfold ionic_datapath_register_cq. rewrite run_bind, run_gets. cbn [fst snd].
  rewrite (proj2 (Z.leb_gt _ _)) by done. destruct (negb _).
  { rewrite run_bind. cbn [fst snd]. rewrite run_ret. cbn [fst snd]. by rewrite cq_at_upd, decide_True. }
  rewrite run_bind. destruct (ionic_dp_buf_init _ _ _ s) as [[rc b] s1]. cbn [fst snd]. rewrite run_bind.
  destruct (rc <? 0) eqn:Hr; rewrite run_bind, run_ret; cbn [fst snd]; rewrite cq_at_upd, decide_True by done; cbn [c_valid upd].
  - bdestr. symmetry. apply Z.eqb_neq. lia.
  - done.
Qed.

Lemma register_srq_valid j r s :
  0 <= j < dp_srq_count s -> sr_valid (srq_at j s) = false ->
  let m := ionic_datapath_register_srq (IONIC_SRQ_QID_BASE + j) r s in sr_valid (srq_at j m.2) = (m.1 =? 0).
Proof.
  intros Hj Hv. cbn zeta. unfold ionic_datapath_register_srq. rewrite run_bind, run_gets. cbn [fst snd].
  rewrite srq_by_qid_at by done. destruct (_ || _); [done|]. rewrite run_bind. set (s1 := (upd_srq _ _ s).2).
  assert (sr_valid (srq_at j s1) = false) as H1.
  { subst s1. rewrite srq_at_upd, decide_True by done. by rewrite Hv. }
  clearbody s1. rewrite run_bind. frame_fact (ionic_dp_buf_init (rd_buf r) 0
    (ionic_dp_ring_span_bytes (rd_depth_log2 r) (rd_stride_log2 r))) s1 FSrq F1.
  destruct (ionic_dp_buf_init _ _ _ s1) as [[rc b] s2]. cbn [fst snd] in *. rewrite run_bind.
  destruct (rc <? 0) eqn:Hr.
  - rewrite run_ret. cbn [fst snd]. rewrite srq_at_upd, decide_True by done. cbn. unfold srq_at in *. by rewrite F1, H1.
  - rewrite run_bind, run_ret. cbn [fst snd]. by rewrite srq_at_upd, decide_True.
Qed.

Lemma register_qp_valid q ty sc sq rc rq s :
  q < dp_qp_count s -> q_valid (qp_at q s) = false ->
  let m := ionic_datapath_register_qp q ty sc sq rc rq s in q_valid (qp_at q m.2) = (m.1 =? 0).
Proof.
  intros Hq Hv. cbn zeta. destruct (_ =? 0) eqn:H0; bdestr.
  { destruct (register_qp_spec q ty sc sq rc rq s H0) as ([Hl _] & _). unfold live_qp in Hl. by bdestr. }
  revert H0. unfold ionic_datapath_register_qp. rewrite run_bind, run_gets. cbn [fst snd].
  rewrite (proj2 (Z.leb_gt _ _)) by done. destruct (_ || _); [done|]. rewrite run_bind.
  set (N := same_names None None None). assert (forall A (m : DP A) s, keeps N m -> dp_qp_count (m s).2 = dp_qp_count s) as Hcnt.
  { intros A m s0 Hk. apply (sn_count _ _ _ _ _ (Hk s0)). }
  pose proof (Hcnt _ (ionic_dp_buf_init (rd_buf sq) 0 (ionic_dp_ring_span_bytes (rd_depth_log2 sq) (rd_stride_log2 sq))) s
    ltac:(names_auto)) as C1.
  destruct (ionic_dp_buf_init _ _ _ s) as [[rc1 sb] s1]. cbn [fst snd] in *. rewrite run_bind.
  set (s2 := (upd_qp q _ s1).2). assert (dp_qp_count s2 = dp_qp_count s1) as C2 by done. clearbody s2. rewrite run_bind.
  match goal with |- context [(?m s2).1] => pose proof (Hcnt _ m s2) as C3; destruct (m s2) as [rc2 s3] end.
  cbn [fst snd] in *. specialize (C3 ltac:(names_auto)).
  destruct (rc2 <? 0) eqn:Hr; [|by rewrite !run_bind].
  intros _. rewrite run_bind, run_ret. cbn [snd]. destruct (unregister_qp_spec q s3) as (_ & -> & _); [lia|done].
Qed.
End registered.
