(* ===== verification/Irq.v ===== *)
(** * Interrupt vectors (ionic_eth_emu.c)

    Every vector is masked, pending or neither; an assertion on a masked
    vector is latched and replayed when the driver unmasks it. *)
From S2P Require Export DpTypes.

Definition IONIC_MSIX_MAX_VECTORS : Z := 128.

(** libvfio-user's vfu_irq_trigger(): its return, given the triggers so far. *)
Class VfuIrq := vfu_irq_trigger : list Z -> Z -> Z.

(** The three arrays of struct ionic_eth_emu, and the vectors triggered, last
    first, each with what the trigger returned. *)
Record irqs := Irqs {
  intr_mask : list Z; intr_mask_assert : list Z; intr_pending : list Z; irq_log : list (Z * Z) }.
#[export] Instance irqs_eta : Eta irqs := fun r => Irqs (intr_mask r) (intr_mask_assert r) (intr_pending r) (irq_log r).

(** The arrays as ionic_eth_emu_create() leaves them. *)
Definition irqs_create : irqs :=
  let n := Z.to_nat IONIC_MSIX_MAX_VECTORS in Irqs (replicate n 1) (zeros n) (zeros n) [].

Section irq.
Context {V : VfuIrq}.
Implicit Types s : irqs.

Definition masked (vec : Z) s : bool := negb ((intr_mask s !!! Z.to_nat vec) =? 0).
Definition pending (vec : Z) s : bool := negb ((intr_pending s !!! Z.to_nat vec) =? 0).

Definition deliver_irq (vec : Z) : ST irqs Z := fun s =>
  let i := Z.to_nat vec in
  let s := s <| intr_pending ::= <[i := 0]> |> in
  let s := if negb ((intr_mask_assert s !!! i) =? 0) then s <| intr_mask ::= <[i := 1]> |> else s in
  let ret := vfu_irq_trigger (irq_log s).*1 vec in
  (ret, s <| irq_log ::= cons (vec, ret) |>).

Definition unmask_irq (vec : Z) : ST irqs unit :=
  modify (fun s => s <| intr_mask ::= <[Z.to_nat vec := 0]> |>) ;;
  p ← gets (pending vec);
  if p : bool then _ ← deliver_irq vec; mret tt else mret tt.

Definition ionic_eth_emu_trigger_irq (vec : Z) : ST irqs Z :=
  if (vec <? 0) || (IONIC_MSIX_MAX_VECTORS <=? vec) then mret (- EINVAL)
  else
    m ← gets (masked vec);
    if m : bool then modify (fun s => s <| intr_pending ::= <[Z.to_nat vec := 1]> |>) ;; mret 0
    else deliver_irq vec.
End irq.

(** ** Register writes

    A 4-byte write at [rel] past the interrupt control block, as
    ionic_eth_emu_bar0_access() decodes it. *)
Definition INTR_REG_STRIDE : Z := 32.
Definition INTR_MASK_OFF : Z := 4.
Definition INTR_CREDITS_OFF : Z := 8.
Definition INTR_MASK_ASSERT_OFF : Z := 12.
Definition INTR_CRED_UNMASK : Z := 0x10000.

Section intr_regs.
Context {V : VfuIrq}.

Definition intr_ctrl_write (rel val : Z) : ST irqs unit :=
  let vec := rel / INTR_REG_STRIDE in
  let reg := rel mod INTR_REG_STRIDE in
  if (0 <=? vec) && (vec <? IONIC_MSIX_MAX_VECTORS) then
    if reg =? INTR_MASK_OFF then
      if negb (val =? 0) then modify (fun s => s <| intr_mask ::= <[Z.to_nat vec := val]> |>) else unmask_irq vec
    else if reg =? INTR_MASK_ASSERT_OFF then modify (fun s => s <| intr_mask_assert ::= <[Z.to_nat vec := val]> |>)
    else if reg =? INTR_CREDITS_OFF then
      if negb (Z.land val INTR_CRED_UNMASK =? 0) then unmask_irq vec else mret tt
    else mret tt
  else mret tt.
End intr_regs.

(** ** No assertion is lost *)
Inductive irq_op := IrqTrigger (vec : Z) | IrqWrite (rel val : Z).

Section never_lost.
Context {V : VfuIrq}.
Implicit Types s : irqs.

Definition irq_run (op : irq_op) : ST irqs unit :=
  match op with
  | IrqTrigger vec => _ ← ionic_eth_emu_trigger_irq vec; mret tt
  | IrqWrite rel val => intr_ctrl_write rel val
  end.

Definition in_vectors vec : Prop := 0 <= vec < IONIC_MSIX_MAX_VECTORS.

(** A pending vector is masked; in the middle of an unmask, all but [v]. *)
Record irqs_but (v : option Z) s : Prop := {
  iq_mask : length (intr_mask s) = Z.to_nat IONIC_MSIX_MAX_VECTORS;
  iq_pend : length (intr_pending s) = Z.to_nat IONIC_MSIX_MAX_VECTORS;
  iq_latch vec : in_vectors vec -> Some vec <> v -> pending vec s = true -> masked vec s = true }.
Abbreviation irqs_ok := (irqs_but None).

(** [raised vec n s]: [vec] was triggered after the first [n] triggers. *)
Definition raised (vec : Z) (n : nat) s : Prop := exists ret l l', irq_log s = l ++ (vec, ret) :: l' /\ (n <= length l')%nat.
Definition owed_or_raised vec n s : Prop := pending vec s = true \/ raised vec n s.

Lemma raised_cons vec n s s' x : irq_log s' = x :: irq_log s -> raised vec n s -> raised vec n s'.
Proof. intros Hl (ret & l & l' & He & Hn). exists ret, (x :: l), l'. by rewrite Hl, He. Qed.

Lemma vec_insert (l : list Z) vec v x :
  length l = Z.to_nat IONIC_MSIX_MAX_VECTORS -> in_vectors vec -> in_vectors v ->
  <[Z.to_nat v := x]> l !!! Z.to_nat vec = if decide (vec = v) then x else l !!! Z.to_nat vec.
Proof.
  unfold in_vectors. intros Hl Hv Hw. case_decide as Hd; [subst|].
  - apply list_lookup_total_insert_eq. rewrite Hl. lia.
  - apply list_lookup_total_insert_ne. lia.
Qed.

(** What a delivery leaves. *)
Lemma deliver_spec v s :
  irqs_but (Some v) s -> in_vectors v ->
  let s' := (deliver_irq v s).2 in
  irqs_ok s' /\ raised v (length (irq_log s)) s' /\ (exists ret, irq_log s' = (v, ret) :: irq_log s) /\
  forall vec, in_vectors vec -> vec <> v -> pending vec s' = pending vec s.
Proof.
  intros [Hm Hp Hl] Hv. unfold deliver_irq. cbn zeta. set (ret := vfu_irq_trigger _ _). clearbody ret. cbn [snd].
  set (s1 := s <| intr_pending ::= <[Z.to_nat v := 0]> |>).
  set (s2 := if negb _ then s1 <| intr_mask ::= <[Z.to_nat v := 1]> |> else s1).
  assert (irq_log s2 = irq_log s) as Hlog by (subst s2; by case_match).
  assert (intr_pending s2 = <[Z.to_nat v := 0]> (intr_pending s)) as Hpend by (subst s2; by case_match).
  assert (forall vec, in_vectors vec -> masked vec s = true -> masked vec s2 = true) as Hmask.
  { intros vec Hvec Hs. subst s2. case_match; [|done]. unfold masked in *. cbn. rewrite vec_insert by done. by case_decide. }
  assert (length (intr_mask s2) = length (intr_mask s)) as Hlen by (subst s2; case_match; cbn; by rewrite ?length_insert).
  clearbody s2. split_and!.
  - split; cbn; [congruence|by rewrite Hpend, length_insert|]. intros vec Hvec _ Hpd. apply Hmask; [done|].
    revert Hpd. unfold pending. cbn. rewrite Hpend, vec_insert by done. case_decide; [done|]. apply Hl; [done|congruence].
  - exists ret, [], (irq_log s). cbn. by rewrite Hlog.
  - exists ret. cbn. by rewrite Hlog.
  - intros vec Hvec Hne. unfold pending. cbn. rewrite Hpend, vec_insert by done. by rewrite decide_False.
Qed.

(** Every operation keeps the latches sound, the log growing, and what is owed
    owed until it is raised. *)
Record irq_good s s' : Prop := {
  ig_ok : irqs_ok s';
  ig_log : (length (irq_log s) <= length (irq_log s'))%nat;
  ig_owed vec n : in_vectors vec -> (n <= length (irq_log s))%nat -> owed_or_raised vec n s -> owed_or_raised vec n s' }.

Lemma good_same s s' :
  irqs_ok s' -> irq_log s' = irq_log s -> (forall vec, in_vectors vec -> pending vec s = true -> pending vec s' = true) -> irq_good s s'.
Proof.
  intros Hok Hl Hp. split; [done|by rewrite Hl|]. intros vec n Hv _ [Ho|(ret & l & l' & He & Hn)]; [left; auto|right].
  exists ret, l, l'. by rewrite Hl.
Qed.
Lemma deliver_good v s : irqs_but (Some v) s -> in_vectors v -> irq_good s (deliver_irq v s).2.
Proof.
  intros Hok Hv. destruct (deliver_spec v s Hok Hv) as (Hok' & Hr & [ret Hl] & Hp). split; [done|rewrite Hl; cbn; lia|].
  intros vec n Hvec Hn [Ho|Ho]; [|right; by eapply raised_cons]. destruct (decide (vec = v)) as [->|Hne]; [|left; by rewrite Hp].
  right. destruct Hr as (ret' & l & l' & He & Hl'). exists ret', l, l'. split; [done|lia].
Qed.
Lemma good_trans s1 s2 s3 : irq_good s1 s2 -> irq_good s2 s3 -> irq_good s1 s3.
Proof. intros [H1 H2 H3] [H4 H5 H6]. split; [done|lia|]. intros vec n Hv Hn Ho. apply H6; [done|lia|]. by apply H3. Qed.
Lemma good_refl s : irqs_ok s -> irq_good s s.
Proof. intros Hs. by apply good_same. Qed.

Lemma unmask_good v s :
  irqs_ok s -> in_vectors v ->
  irq_good s (unmask_irq v s).2 /\ (forall n, (n <= length (irq_log s))%nat -> owed_or_raised v n s -> raised v n (unmask_irq v s).2).
Proof.
  intros Hok Hv. unfold unmask_irq. rewrite run_bind, run_modify. cbn [fst snd].
  set (s1 := s <| intr_mask ::= <[Z.to_nat v := 0]> |>). rewrite run_bind, run_gets. cbn [fst snd].
  assert (irq_log s1 = irq_log s) as Hlog by done. assert (forall vec, pending vec s1 = pending vec s) as Hpd by done.
  assert (length (intr_mask s1) = Z.to_nat IONIC_MSIX_MAX_VECTORS) as Hm1 by (cbn; rewrite length_insert; apply Hok).
  assert (forall vec, in_vectors vec -> vec <> v -> masked vec s1 = masked vec s) as Hmk.
  { intros vec Hvec Hne. unfold masked. cbn. rewrite vec_insert; [by rewrite decide_False|apply Hok|done..]. }
  assert (irqs_but (Some v) s1) as H1.
  { split; [done|apply Hok|]. intros vec Hvec Hne Hs. rewrite Hmk by (done || congruence). by apply (iq_latch _ _ Hok). }
  destruct (pending v s1) eqn:Hpv.
  - rewrite run_bind. cbn [snd]. destruct (deliver_spec v s1 H1 Hv) as (_ & Hr & _). split.
    + destruct (deliver_good v s1 H1 Hv) as [G1 G2 G3]. by split.
    + intros n Hn _. destruct Hr as (ret & l & l' & He & Hl'). exists ret, l, l'. split; [done|]. rewrite Hlog in Hl'. lia.
  - split.
    + apply good_same; [|done..]. split; [done|apply Hok|]. intros vec Hvec _ Hs. apply (iq_latch _ _ H1); [done| |done]. intros [= ->]. change (pending v s1 = true) in Hs. congruence.
    + intros n Hn [Ho|Ho]; [|done]. rewrite <-Hpd in Ho. congruence.
Qed.

Lemma trigger_good v s :
  irqs_ok s ->
  let s' := (ionic_eth_emu_trigger_irq v s).2 in
  irq_good s s' /\ (in_vectors v -> owed_or_raised v (length (irq_log s)) s').
Proof.
  intros Hok. cbn zeta. unfold ionic_eth_emu_trigger_irq. destruct (_ || _) eqn:Hr.
  { split; [by apply good_refl|]. unfold in_vectors. apply orb_true_iff in Hr as [?|?]; bdestr; lia. }
  bdestr. assert (in_vectors v) as Hv by (split; lia). rewrite run_bind, run_gets. cbn [fst snd]. destruct (masked v s) eqn:Hm.
  - rewrite run_bind, run_modify. cbn [snd]. set (s1 := s <| intr_pending ::= _ |>).
    assert (forall vec, in_vectors vec -> pending vec s1 = if decide (vec = v) then true else pending vec s) as Hp.
    { intros vec Hvec. unfold pending. cbn. rewrite vec_insert; [by case_decide|apply Hok|done..]. }
    split; [|intros _; left; by rewrite Hp, decide_True].
    apply good_same; [|done|intros vec Hvec; rewrite Hp by done; by case_decide].
    split; [apply Hok|cbn; rewrite length_insert; apply Hok|]. intros vec Hvec _. rewrite Hp by done.
    case_decide as Hd; [by subst|]. by apply (iq_latch _ _ Hok).
  - assert (irqs_but (Some v) s) as Hb by (destruct Hok; split; auto). split; [by apply deliver_good|]. intros _. right.
    by apply deliver_spec.
Qed.

Lemma write_good rel val s : irqs_ok s -> irq_good s (intr_ctrl_write rel val s).2.
Proof.
  intros Hok. unfold intr_ctrl_write. destruct (_ && _) eqn:Hv; [|by apply good_refl]. bdestr.
  assert (in_vectors (rel / INTR_REG_STRIDE)) as Hin by (split; lia). set (v := rel / INTR_REG_STRIDE) in *. clearbody v.
  destruct (_ =? INTR_MASK_OFF).
  { destruct (negb _) eqn:Hnz; [|by apply unmask_good]. bdestr. apply good_same; [|done..].
    split; [cbn; rewrite length_insert; apply Hok|apply Hok|]. intros vec Hvec _ Hs. unfold masked. cbn.
    rewrite vec_insert; [|apply Hok|done..]. case_decide; [by apply negb_true_iff, Z.eqb_neq|]. by apply (iq_latch _ _ Hok). }
  destruct (_ =? INTR_MASK_ASSERT_OFF); [apply good_same; [by destruct Hok|done..]|].
  destruct (_ =? INTR_CREDITS_OFF); [|by apply good_refl]. destruct (negb _); [by apply unmask_good|by apply good_refl].
Qed.

Definition irq_ops (l : list irq_op) : ST irqs unit := for_each l irq_run.
Lemma run_good l s : irqs_ok s -> irq_good s (irq_ops l s).2.
Proof.
  revert s. induction l as [|op l IH]; intros s Hok; [by apply good_refl|]. unfold irq_ops. cbn [for_each]. rewrite run_bind.
  assert (irq_good s (irq_run op s).2) as Hg.
  { destruct op; cbn; [rewrite run_bind; cbn [snd]; by apply trigger_good|by apply write_good]. }
  eapply good_trans; [done|]. apply IH, Hg.
Qed.

(** The driver's two ways to unmask a vector. *)
Definition unmasks (vec rel val : Z) : Prop :=
  rel = vec * INTR_REG_STRIDE + INTR_MASK_OFF /\ val = 0 \/
  rel = vec * INTR_REG_STRIDE + INTR_CREDITS_OFF /\ Z.land val INTR_CRED_UNMASK <> 0.

(** C38: an asserted interrupt is never lost.  Once ionic_eth_emu_trigger_irq()
    has been called for a vector, whatever triggers and register writes follow,
    the vector has been raised through libvfio-user after that call as soon as
    the driver unmasks it, by the mask register or by returning credits. *)
Theorem irq_never_lost vec s between rel val :
  irqs_ok s -> in_vectors vec -> unmasks vec rel val ->
  let s1 := (ionic_eth_emu_trigger_irq vec s).2 in
  let s2 := (irq_ops between s1).2 in
  let s3 := (intr_ctrl_write rel val s2).2 in
  irqs_ok s3 /\ raised vec (length (irq_log s)) s3.
Proof.
  intros Hok Hv Hu. cbn zeta. destruct (trigger_good vec s Hok) as [[Hok1 Hl1 _] Ho]. specialize (Ho Hv).
  destruct (run_good between _ Hok1) as [Hok2 Hl2 Hg2]. apply Hg2 in Ho; [|done|done].
  set (s2 := (irq_ops between _).2) in *. clearbody s2.
  assert (intr_ctrl_write rel val s2 = unmask_irq vec s2) as ->.
  { unfold in_vectors, IONIC_MSIX_MAX_VECTORS in Hv. unfold unmasks, INTR_REG_STRIDE, INTR_MASK_OFF, INTR_CREDITS_OFF in Hu.
    unfold intr_ctrl_write, INTR_REG_STRIDE, IONIC_MSIX_MAX_VECTORS. cbv zeta.
    assert (rel / 32 = vec) as -> by (symmetry; apply Z.div_unique with (r := rel - vec * 32); lia).
    rewrite (proj2 (Z.leb_le 0 vec)), (proj2 (Z.ltb_lt vec 128)) by lia. cbn [andb].
    destruct Hu as [[-> ->]|[-> Hc]]; rewrite Z.add_comm, Z.mod_add by lia; [done|]. cbn. apply Z.eqb_neq in Hc. by rewrite Hc. }
  destruct (unmask_good vec s2 Hok2 Hv) as [[Hok3 _ _] Hr]. split; [done|]. apply Hr; [lia|done].
Qed.
End never_lost.

Lemma irq_never_lost_witness :
  let V : VfuIrq := fun _ _ => 0 in
  let s1 := (ionic_eth_emu_trigger_irq 5 irqs_create).2 in
  irq_log s1 = [] /\ raised 5 0 (intr_ctrl_write (5 * 32 + 4) 0 (irq_ops [IrqTrigger 6; IrqWrite (5 * 32 + 12) 1] s1).2).2.
Proof.
  intros V s1. split; [by vm_compute|].
  apply (irq_never_lost 5 irqs_create [IrqTrigger 6; IrqWrite (5 * 32 + 12) 1] (5 * 32 + 4) 0).
  - split; [by vm_compute..|]. intros vec Hv _ Hp. exfalso. revert Hp. unfold pending, irqs_create. cbn [intr_pending].
    unfold zeros. rewrite lookup_total_replicate_2; [done|]. unfold in_vectors in Hv. lia.
  - by split.
  - left. by vm_compute.
Defined.
