(* ===== verification/AdmTypes.v ===== *)
(** * The admin queue: state, maps and the resource manager's wrappers
    (ionic_adminq_priv.h, ionic_adminq.c, rocm_ernic_compat.c)

    The admin queue names objects as the guest's driver does and keeps, in its
    maps, the resource manager's handle for each.  [adm] is the admin queue's
    context with the two components it drives: the data path and the device of
    the resource manager. *)
From S2P Require Export Fault RdmaRm Stats DpReg.

(** ** Constants *)
Definition IONIC_V1_ADMIN_NOOP : Z := 0.
Definition IONIC_V1_ADMIN_CREATE_CQ : Z := 1.
Definition IONIC_V1_ADMIN_CREATE_QP : Z := 2.
Definition IONIC_V1_ADMIN_CREATE_MR : Z := 3.
Definition IONIC_V1_ADMIN_STATS_HDRS : Z := 4.
Definition IONIC_V1_ADMIN_STATS_VALS : Z := 5.
Definition IONIC_V1_ADMIN_DESTROY_MR : Z := 6.
Definition IONIC_V1_ADMIN_DESTROY_CQ : Z := 8.
Definition IONIC_V1_ADMIN_MODIFY_QP : Z := 9.
Definition IONIC_V1_ADMIN_QUERY_QP : Z := 10.
Definition IONIC_V1_ADMIN_DESTROY_QP : Z := 11.
Definition IONIC_V1_ADMIN_DEBUG : Z := 12.
Definition IONIC_V1_ADMIN_CREATE_AH : Z := 13.
Definition IONIC_V1_ADMIN_QUERY_AH : Z := 14.
Definition IONIC_V1_ADMIN_MODIFY_DCQCN : Z := 15.
Definition IONIC_V1_ADMIN_DESTROY_AH : Z := 16.
Definition IONIC_V1_ADMIN_QP_STATS_HDRS : Z := 17.
Definition IONIC_V1_ADMIN_QP_STATS_VALS : Z := 18.
Definition IONIC_V1_ADMIN_CREATE_SRQ : Z := 26.
Definition IONIC_V1_ADMIN_MODIFY_SRQ : Z := 27.
Definition IONIC_V1_ADMIN_QUERY_SRQ : Z := 28.
Definition IONIC_V1_ADMIN_DESTROY_SRQ : Z := 29.
Definition IONIC_QPT_RC : Z := 0.
Definition IONIC_QPT_UC : Z := 1.
Definition IONIC_QPT_UD : Z := 3.
Definition IONIC_QPS_ERR : Z := 6.
Definition IONIC_ADMINQ_MAX_DEPTH_LOG2 : Z := 16.
Definition MAX_AQ : nat := 4.
Definition MAX_CQ_MAP : nat := Z.to_nat ERNIC_MAX_CQ.
Definition MAX_QP_MAP : nat := Z.to_nat ERNIC_MAX_QP.
Definition MAX_SRQ_MAP : nat := Z.to_nat ERNIC_MAX_SRQ.

(** ** State *)
Record ionic_aq_ring := AqRing {
  aq_valid : bool; aq_dma : Z; aq_depth : Z; aq_cons : Z; aq_prod : Z; aq_cq_dma : Z; aq_cq_depth : Z;
  aq_cq_prod : Z; aq_cq_color : bool; aq_id : Z; aq_cq_id : Z; aq_eq_id : Z }.
#[export] Instance aq_ring_eta : Eta ionic_aq_ring := fun r =>
  AqRing (aq_valid r) (aq_dma r) (aq_depth r) (aq_cons r) (aq_prod r) (aq_cq_dma r) (aq_cq_depth r)
    (aq_cq_prod r) (aq_cq_color r) (aq_id r) (aq_cq_id r) (aq_eq_id r).
#[export] Instance aq_ring_zero : Inhabited ionic_aq_ring := populate (AqRing false 0 0 0 0 0 0 0 false 0 0 0).

Record ionic_cq_map_entry := CqEntry { ce_valid : bool; ce_cq_id : Z; ce_handle : Z }.
#[export] Instance cq_entry_eta : Eta ionic_cq_map_entry := fun r => CqEntry (ce_valid r) (ce_cq_id r) (ce_handle r).
#[export] Instance cq_entry_zero : Inhabited ionic_cq_map_entry := populate (CqEntry false 0 0).
Record ionic_qp_map_entry := QpEntry {
  qe_valid : bool; qe_qp_id : Z; qe_qpn : Z; qe_dest_set : bool; qe_dest_qp_id : Z }.
#[export] Instance qp_entry_eta : Eta ionic_qp_map_entry := fun r =>
  QpEntry (qe_valid r) (qe_qp_id r) (qe_qpn r) (qe_dest_set r) (qe_dest_qp_id r).
#[export] Instance qp_entry_zero : Inhabited ionic_qp_map_entry := populate (QpEntry false 0 0 false 0).
Record ionic_mr_map_entry := MrEntry { me_valid : bool; me_handle : Z }.
#[export] Instance mr_entry_eta : Eta ionic_mr_map_entry := fun r => MrEntry (me_valid r) (me_handle r).
#[export] Instance mr_entry_zero : Inhabited ionic_mr_map_entry := populate (MrEntry false 0).
Record ionic_srq_map_entry := SrqEntry { se_valid : bool; se_srq_id : Z; se_handle : Z; se_srq_limit : Z }.
#[export] Instance srq_entry_eta : Eta ionic_srq_map_entry := fun r =>
  SrqEntry (se_valid r) (se_srq_id r) (se_handle r) (se_srq_limit r).
#[export] Instance srq_entry_zero : Inhabited ionic_srq_map_entry := populate (SrqEntry false 0 0 0).

Section adm_state.
Context {E : Env}.

(** [ax_pvrdma_handle] and [ax_stats] say whether the pointers are set. *)
Record ionic_adminq_ctx := AdminqCtx {
  ax_aq : list ionic_aq_ring; ax_aq_count : Z; ax_pvrdma_handle : bool; ax_stats : bool; ax_resp_len : Z;
  ax_cq_event_fn : option (ionic_dp_cq_event_fn_t E); ax_cq_map : list ionic_cq_map_entry;
  ax_qp_map : list ionic_qp_map_entry; ax_mr_map : gmap Z ionic_mr_map_entry; ax_srq_map : list ionic_srq_map_entry;
  ax_pd_valid : bool; ax_pd_handle : Z; ax_faults : option ionic_fault_set }.
#[global] Instance adminq_ctx_eta : Eta ionic_adminq_ctx := fun r =>
  AdminqCtx (ax_aq r) (ax_aq_count r) (ax_pvrdma_handle r) (ax_stats r) (ax_resp_len r) (ax_cq_event_fn r) (ax_cq_map r)
    (ax_qp_map r) (ax_mr_map r) (ax_srq_map r) (ax_pd_valid r) (ax_pd_handle r) (ax_faults r).

(** ionic_adminq_create(), whose two allocations succeed, and the setters. *)
Definition ionic_adminq_create : ionic_adminq_ctx :=
  AdminqCtx (replicate MAX_AQ inhabitant) 0 false false 0 None (replicate MAX_CQ_MAP inhabitant)
    (replicate MAX_QP_MAP inhabitant) ∅ (replicate MAX_SRQ_MAP inhabitant) false 0 None.
Definition ionic_adminq_set_faults (f : option ionic_fault_set) (ctx : ionic_adminq_ctx) := ctx <| ax_faults := f |>.
Definition ionic_adminq_set_cq_event_cb (f : option (ionic_dp_cq_event_fn_t E)) (ctx : ionic_adminq_ctx) :=
  ctx <| ax_cq_event_fn := f |>.
Definition ionic_adminq_set_pvrdma (h : bool) (ctx : ionic_adminq_ctx) := ctx <| ax_pvrdma_handle := h |>.
Definition ionic_adminq_set_stats (h : bool) (ctx : ionic_adminq_ctx) := ctx <| ax_stats := h |>.

(** [am_vfu]: whether the device's vfu_ctx is set. *)
Record adm (P : Type) := Adm {
  am_ctx : ionic_adminq_ctx; am_dp : ionic_datapath; am_pv : PVRDMADev P; am_vfu : bool }.
End adm_state.
Arguments Adm {E P}.
Arguments am_ctx {E P}.
Arguments am_dp {E P}.
Arguments am_pv {E P}.
Arguments am_vfu {E P}.
#[export] Instance adm_eta `{E : Env} P : Eta (adm P) := fun r => Adm (am_ctx r) (am_dp r) (am_pv r) (am_vfu r).

(** ** Calls into the components *)
Section calls.
Context {E : Env} {P : Type} (backend_ops : option (RdmaBackendOps P)).
Abbreviation ADM := (ST (adm P)).

Definition on_dp {A} (m : DP A) : ADM A := fun s => let '(a, d) := m (am_dp s) in (a, s <| am_dp := d |>).
Definition on_rm {A} (m : ST (PVRDMADev P) A) : ADM A := fun s => let '(a, p) := m (am_pv s) in (a, s <| am_pv := p |>).
Definition in_ctx (f : ionic_adminq_ctx -> ionic_adminq_ctx) : ADM unit := modify (fun s => s <| am_ctx ::= f |>).
Definition ctx_gets {A} (f : ionic_adminq_ctx -> A) : ADM A := gets (fun s => f (am_ctx s)).

(** ernic_dma_read() and ernic_dma_write() with the context's own scratch. *)
Definition adm_dma_read (gpa len : Z) : ADM (option (list Z)) := on_dp (dp_dma_read gpa len).
Definition adm_dma_write (gpa : Z) (bs : list Z) : ADM bool := on_dp (dp_dma_write gpa bs).

(** ernic_stats_qp_forget() and ernic_stats_command() *)
Definition adm_stat (e : dp_stat) : ADM unit :=
  st ← ctx_gets ax_stats; if st : bool then on_dp (stat e) else mret tt.

(** *** rocm_ernic_compat.c *)
Definition rm_up : ADM bool := gets (fun s => ax_pvrdma_handle (am_ctx s) && am_vfu s).

Definition ernic_rm_alloc_cq (cqe : Z) : ADM (Z + Z) :=
  up ← rm_up; if up : bool then on_rm (rdma_rm_alloc_cq backend_ops cqe) else mret (inl (- EINVAL)).
Definition ernic_rm_dealloc_cq (cq_handle : Z) : ADM unit :=
  h ← ctx_gets ax_pvrdma_handle; if h : bool then on_rm (rdma_rm_dealloc_cq backend_ops cq_handle) else mret tt.
Definition ernic_rm_alloc_srq (pd_handle max_wr max_sge srq_limit : Z) : ADM (Z + Z) :=
  up ← rm_up;
  if up : bool then on_rm (rdma_rm_alloc_srq backend_ops pd_handle max_wr max_sge srq_limit) else mret (inl (- EINVAL)).
Definition ernic_rm_dealloc_srq (srq_handle : Z) : ADM unit :=
  h ← ctx_gets ax_pvrdma_handle; if h : bool then on_rm (rdma_rm_dealloc_srq backend_ops srq_handle) else mret tt.
Definition ernic_rm_modify_srq (srq_handle srq_limit : Z) : ADM Z :=
  up ← rm_up;
  if negb (up : bool) then mret (- EINVAL)
  else if srq_limit =? 0 then mret 0
  else on_rm (rdma_rm_modify_srq backend_ops srq_handle (SrqAttr 0 0 srq_limit) IBV_SRQ_LIMIT).
Definition ernic_rm_query_srq (srq_handle : Z) : ADM (Z * ibv_srq_attr) :=
  up ← rm_up;
  if up : bool then on_rm (rdma_rm_query_srq backend_ops srq_handle inhabitant) else mret (- EINVAL, inhabitant).
Definition ernic_rm_alloc_pd : ADM (Z + Z) :=
  up ← rm_up; if up : bool then on_rm (rdma_rm_alloc_pd backend_ops) else mret (inl (- EINVAL)).
Definition ernic_rm_dealloc_pd (pd_handle : Z) : ADM unit :=
  h ← ctx_gets ax_pvrdma_handle; if h : bool then on_rm (rdma_rm_dealloc_pd pd_handle) else mret tt.
Definition ernic_rm_alloc_qp (pd_handle qp_type send_cq_handle recv_cq_handle : Z) : ADM (Z + Z) :=
  up ← rm_up;
  if up : bool then on_rm (rdma_rm_alloc_qp backend_ops pd_handle qp_type send_cq_handle recv_cq_handle None)
  else mret (inl (- EINVAL)).
Definition ernic_rm_dealloc_qp (qpn : Z) : ADM unit :=
  h ← ctx_gets ax_pvrdma_handle; if h : bool then on_rm (rdma_rm_dealloc_qp backend_ops qpn) else mret tt.
Definition ernic_rm_alloc_mr (pd_handle access_flags : Z) : ADM (Z + Z) :=
  up ← rm_up;
  if up : bool then
    r ← on_rm (rdma_rm_alloc_mr backend_ops pd_handle access_flags);
    mret (sum_map id (fun x => x.1.1) (r : Z + Z * Z * Z))
  else mret (inl (- EINVAL)).
Definition ernic_rm_dealloc_mr (mr_handle : Z) : ADM unit :=
  h ← ctx_gets ax_pvrdma_handle; if h : bool then on_rm (rdma_rm_dealloc_mr backend_ops mr_handle) else mret tt.

Record ernic_rm_qp_attr := RmQpAttr {
  ra_attr_mask : Z; ra_type_state : Z; ra_sq_psn : Z; ra_rq_psn : Z; ra_qkey_dest_qpn : Z; ra_dest_gid : option (list Z) }.
Definition QKEY_DEST_QPN_QKEY_SHIFT : Z := 24.

(** The attributes as the resource manager takes them: the state is the low
    nibble of type_state, and one field is both the number and the key. *)
Definition rm_qp_mod (a : ernic_rm_qp_attr) : qp_mod :=
  QpMod (ra_attr_mask a) 0 (default (zeros 16) (ra_dest_gid a)) (Z.land (ra_qkey_dest_qpn a) 0x00ffffff)
    (Z.land (ra_type_state a) 0x0f) (Z.shiftr (ra_qkey_dest_qpn a) QKEY_DEST_QPN_QKEY_SHIFT) (ra_rq_psn a) (ra_sq_psn a).
Definition ernic_rm_modify_qp (qpn : Z) (a : ernic_rm_qp_attr) : ADM Z :=
  up ← rm_up; if up : bool then on_rm (rdma_rm_modify_qp backend_ops qpn (rm_qp_mod a)) else mret (- EINVAL).

Definition rm_query_mask : Z :=
  Z.lor IBV_QP_STATE (Z.lor IBV_QP_PATH_MTU (Z.lor IBV_QP_DEST_QPN (Z.lor IBV_QP_ACCESS_FLAGS (Z.lor IBV_QP_RQ_PSN IBV_QP_SQ_PSN)))).
(** On success, what the caller's six pointers are given. *)
Definition ernic_rm_query_qp (qpn : Z) : ADM (Z + ibv_qp_attr) :=
  up ← rm_up;
  if up : bool then
    r ← on_rm (rdma_rm_query_qp backend_ops qpn rm_query_mask);
    let '(ret, a) := r : Z * ibv_qp_attr in
    mret (if negb (ret =? 0) then inl ret
          else inr (a <| qa_qp_state := u8 (qa_qp_state a) |> <| qa_path_mtu := u8 (qa_path_mtu a) |>))
  else mret (inl (- EINVAL)).
End calls.

(** ** The maps *)
Section maps.
Context {E : Env}.
Implicit Types ctx : ionic_adminq_ctx.

(** The first entry a loop over the map stops at. *)
Definition adminq_cq_free_entry ctx : option nat := fst <$> list_find (fun e => ce_valid e = false) (ax_cq_map ctx).
Definition adminq_lookup_cq (cq_id : Z) ctx : option Z :=
  ce_handle ∘ snd <$> list_find (fun e => ce_valid e = true /\ ce_cq_id e = cq_id) (ax_cq_map ctx).
Definition adminq_unmap_cq (cq_id : Z) ctx : ionic_adminq_ctx :=
  ctx <| ax_cq_map ::= fmap (fun e => if ce_valid e && (ce_cq_id e =? cq_id) then e <| ce_valid := false |> else e) |>.

Definition adminq_qp_free_entry ctx : option nat := fst <$> list_find (fun e => qe_valid e = false) (ax_qp_map ctx).
Definition adminq_qp_entry (qp_id : Z) ctx : option (nat * ionic_qp_map_entry) :=
  list_find (fun e => qe_valid e = true /\ qe_qp_id e = qp_id) (ax_qp_map ctx).
Definition adminq_lookup_qp (qp_id : Z) ctx : option Z := qe_qpn ∘ snd <$> adminq_qp_entry qp_id ctx.
Definition adminq_lookup_qp_id (qpn : Z) ctx : option Z :=
  qe_qp_id ∘ snd <$> list_find (fun e => qe_valid e = true /\ qe_qpn e = qpn) (ax_qp_map ctx).
Definition adminq_unmap_qp (qp_id : Z) ctx : ionic_adminq_ctx :=
  ctx <| ax_qp_map ::= fmap (fun e => if qe_valid e && (qe_qp_id e =? qp_id) then e <| qe_valid := false |> else e) |>.

Definition adminq_alloc_srq (handle srq_limit : Z) ctx : option (Z * ionic_adminq_ctx) :=
  match list_find (fun e => se_valid e = false) (ax_srq_map ctx) with
  | Some (i, _) =>
      let srq_id := IONIC_SRQ_QID_BASE + Z.of_nat i in
      Some (srq_id, ctx <| ax_srq_map ::= <[i := SrqEntry true srq_id handle srq_limit]> |>)
  | None => None
  end.
Definition adminq_srq_entry (srq_id : Z) ctx : option (nat * ionic_srq_map_entry) :=
  list_find (fun e => se_valid e = true /\ se_srq_id e = srq_id) (ax_srq_map ctx).
Definition adminq_lookup_srq (srq_id : Z) ctx : option Z := se_handle ∘ snd <$> adminq_srq_entry srq_id ctx.
Definition adminq_unmap_srq (srq_id : Z) ctx : ionic_adminq_ctx :=
  match adminq_srq_entry srq_id ctx with
  | Some (i, e) => ctx <| ax_srq_map ::= <[i := e <| se_valid := false |>]> |>
  | None => ctx
  end.

(** The slot of [mrid]'s entry. *)
Definition adminq_mr_entry (mrid : Z) : option Z := ionic_mr_slot mrid.
Definition mr_entry_at (slot : Z) ctx : ionic_mr_map_entry := ax_mr_map ctx !!! slot.
Definition adminq_lookup_mr (mrid : Z) ctx : option Z :=
  slot ← adminq_mr_entry mrid;
  let e := mr_entry_at slot ctx in
  if me_valid e then Some (me_handle e) else None.
Definition adminq_unmap_mr (mrid : Z) ctx : ionic_adminq_ctx :=
  match adminq_mr_entry mrid with
  | Some slot => ctx <| ax_mr_map ::= <[slot := (mr_entry_at slot ctx) <| me_valid := false |>]> |>
  | None => ctx
  end.
End maps.
