(* ===== verification/AdmStats.v ===== *)
(** * The statistics commands (ionic_adminq.c, ionic_adminq_priv.h)

    STATS_HDRS and QP_STATS_HDRS name the counters, STATS_VALS and
    QP_STATS_VALS give their values, at the offsets the names came with.  A
    table's entry pairs a name with the field of the values struct it is. *)
From S2P Require Export AdmTypes.
From stdpp Require Import strings.
#[local] Open Scope Z_scope.

Definition STATS_BODY_LEN : Z := 17.
Definition STAT_HDR_SIZE : Z := 32.
Definition STAT_NAME_OFF : nat := 4.
Definition STAT_NAME_LEN : nat := 28.
Definition STAT_TYPE_SHIFT : Z := 28.
Definition STAT_TYPE_LE64 : Z := 4.
Definition STAT_VAL_SIZE : Z := 8.

(** struct adminq_dev_vals and struct adminq_qp_vals *)
Record adminq_dev_vals := DevVals { dv_stats : ernic_dev_counters; dv_rdma : rdma_counts }.
Record adminq_qp_vals := QpVals { qv_stats : ernic_qp_counters; qv_rdma : rdma_counts }.

(** IONIC_DP_RDMA_COUNTERS *)
Definition rdma_stats : list (list Z * rdma_counter) :=
  [ (chars "req_rx_pkt_seq_err", REQ_RX_PKT_SEQ_ERR); (chars "req_rx_rnr_retry_err", REQ_RX_RNR_RETRY_ERR);
    (chars "req_rx_remote_access_err", REQ_RX_REMOTE_ACCESS_ERR);
    (chars "req_rx_remote_inv_req_err", REQ_RX_REMOTE_INV_REQ_ERR);
    (chars "req_rx_remote_oper_err", REQ_RX_REMOTE_OPER_ERR);
    (chars "req_rx_implied_nak_seq_err", REQ_RX_IMPLIED_NAK_SEQ_ERR); (chars "req_rx_cqe_err", REQ_RX_CQE_ERR);
    (chars "req_rx_cqe_flush_err", REQ_RX_CQE_FLUSH_ERR); (chars "req_rx_dup_responses", REQ_RX_DUP_RESPONSES);
    (chars "req_rx_invalid_packets", REQ_RX_INVALID_PACKETS); (chars "req_tx_local_access_err", REQ_TX_LOCAL_ACCESS_ERR);
    (chars "req_tx_local_oper_err", REQ_TX_LOCAL_OPER_ERR); (chars "req_tx_memory_mgmt_err", REQ_TX_MEMORY_MGMT_ERR);
    (chars "resp_rx_dup_requests", RESP_RX_DUP_REQUESTS); (chars "resp_rx_out_of_buffer", RESP_RX_OUT_OF_BUFFER);
    (chars "resp_rx_out_of_seq_pkts", RESP_RX_OUT_OF_SEQ_PKTS); (chars "resp_rx_cqe_err", RESP_RX_CQE_ERR);
    (chars "resp_rx_cqe_flush_err", RESP_RX_CQE_FLUSH_ERR); (chars "resp_rx_local_len_err", RESP_RX_LOCAL_LEN_ERR);
    (chars "resp_rx_inv_request_err", RESP_RX_INV_REQUEST_ERR);
    (chars "resp_rx_local_qp_oper_err", RESP_RX_LOCAL_QP_OPER_ERR);
    (chars "resp_rx_out_of_atomic_res", RESP_RX_OUT_OF_ATOMIC_RES); (chars "resp_tx_pkt_seq_err", RESP_TX_PKT_SEQ_ERR);
    (chars "resp_tx_remote_inv_req_err", RESP_TX_REMOTE_INV_REQ_ERR);
    (chars "resp_tx_remote_access_err", RESP_TX_REMOTE_ACCESS_ERR);
    (chars "resp_tx_remote_oper_err", RESP_TX_REMOTE_OPER_ERR); (chars "resp_tx_rnr_retry_err", RESP_TX_RNR_RETRY_ERR);
    (chars "tx_cnp_pkts", TX_CNP_PKTS); (chars "rx_cnp_pkts", RX_CNP_PKTS); (chars "rx_ecn_pkts", RX_ECN_PKTS) ].

Definition dev_stats : list (list Z * (adminq_dev_vals -> Z)) :=
  [ (chars "commands", dc_commands ∘ dv_stats); (chars "total_bytes_sent", dc_total_bytes_sent ∘ dv_stats);
    (chars "total_bytes_received", dc_total_bytes_received ∘ dv_stats);
    (chars "total_bytes_rdma_read", dc_total_bytes_rdma_read ∘ dv_stats);
    (chars "total_bytes_rdma_write", dc_total_bytes_rdma_write ∘ dv_stats) ] ++
  ((fun '(n, c) => (n, fun v => dv_rdma v c)) <$> rdma_stats).
Definition qp_stats_tbl : list (list Z * (adminq_qp_vals -> Z)) :=
  [ (chars "doorbell_send", qc_doorbell_send ∘ qv_stats); (chars "doorbell_recv", qc_doorbell_recv ∘ qv_stats);
    (chars "wqes_processed", qc_wqes_processed ∘ qv_stats); (chars "cqes_posted", qc_cqes_posted ∘ qv_stats);
    (chars "bytes_sent", qc_bytes_sent ∘ qv_stats); (chars "bytes_received", qc_bytes_received ∘ qv_stats);
    (chars "bytes_rdma_read", qc_bytes_rdma_read ∘ qv_stats);
    (chars "bytes_rdma_write", qc_bytes_rdma_write ∘ qv_stats) ] ++
  ((fun '(n, c) => (n, fun v => qv_rdma v c)) <$> rdma_stats).

(** Header [i] of a table. *)
Definition stat_hdr (i : nat) (name : list Z) : list Z :=
  let h := ernic_put_be32 (zeros 32) 0 (u32 (Z.lor (Z.shiftl STAT_TYPE_LE64 STAT_TYPE_SHIFT) (Z.of_nat i * STAT_VAL_SIZE))) in
  bput h STAT_NAME_OFF (take (STAT_NAME_LEN - 1) name).
Definition stat_hdrs (names : list (list Z)) : list Z := concat (imap stat_hdr names) ++ zeros 32.
Definition stat_vals (vals : list Z) : list Z := concat (le64_bytes <$> vals).

Section stats.
Context {E : Env} {P : Type}.
Abbreviation ADM := (ST (adm P)).

Definition stats_write_hdrs (dma length : Z) (names : list (list Z)) : ADM Z :=
  let fit := length / STAT_HDR_SIZE in
  if fit =? 0 then mret IONIC_RC_ENOSPC
  else
    let entries := Z.min (Z.of_nat (List.length names) + 1) fit in
    ok ← adm_dma_write dma (take (Z.to_nat (entries * STAT_HDR_SIZE)) (stat_hdrs names));
    mret (if negb (ok : bool) then IONIC_RC_EIO else IONIC_RC_SUCCESS).

Definition stats_write_vals (dma length : Z) (vals : list Z) : ADM Z :=
  let n := length / STAT_VAL_SIZE in
  if n =? 0 then mret IONIC_RC_ENOSPC
  else
    let n := Z.min n (Z.of_nat (List.length vals)) in
    ok ← adm_dma_write dma (stat_vals (take (Z.to_nat n) vals));
    mret (if negb (ok : bool) then IONIC_RC_EIO else IONIC_RC_SUCCESS).

(** The counters the device shares with the server, or NULL. *)
Definition adm_stats (s : adm P) : option ernic_stats :=
  if ax_stats (am_ctx s) then Some (stats_of (dp_stats (am_dp s))) else None.

(** The fault injected into STATS_VALS: the status it fails with, if it fires. *)
Definition stats_vals_fault : ADM (option Z) := fun s =>
  match ionic_fault_set_get (ax_faults (am_ctx s)) IONIC_FAULT_SITE_STATS_VALS with
  | None => (None, s)
  | Some f =>
      let '(fire, f') := ionic_fault_event f in
      (if fire then Some (f_status f') else None,
       s <| am_ctx ::= upd ax_faults (fmap (insert (site_index IONIC_FAULT_SITE_STATS_VALS) f')) |>)
  end.

Definition handle_stats_op (op : Z) (body : list Z) (len : Z) : ADM Z :=
  if len <? STATS_BODY_LEN then mret IONIC_RC_EINVAL
  else
    let dma := ernic_get_le64 body 0 in
    let length := ernic_get_le32 body 8 in
    let id_ver := ernic_get_le32 body 12 in
    if dma =? 0 then mret IONIC_RC_BAD_ADDR
    else if op =? IONIC_V1_ADMIN_STATS_HDRS then stats_write_hdrs dma length (fst <$> dev_stats)
    else if op =? IONIC_V1_ADMIN_QP_STATS_HDRS then stats_write_hdrs dma length (fst <$> qp_stats_tbl)
    else if op =? IONIC_V1_ADMIN_STATS_VALS then
      fault ← stats_vals_fault;
      match fault with
      | Some status => mret status
      | None =>
          c ← gets (fun s => ernic_stats_dev_counters (adm_stats s));
          if negb ((c : Z * ernic_dev_counters).1 =? 0) then mret IONIC_RC_EIO
          else
            r ← gets (fun s => ionic_datapath_rdma_counters IONIC_DP_DEVICE (am_dp s));
            stats_write_vals dma length ((fun e => e.2 (DevVals c.2 r)) <$> dev_stats)
      end
    else if op =? IONIC_V1_ADMIN_QP_STATS_VALS then
      let qp_id := Z.land id_ver 0x00ffffff in
      q ← ctx_gets (adminq_lookup_qp qp_id);
      if negb (bool_decide (is_Some q)) then mret IONIC_RC_ENOENT
      else
        c ← gets (fun s => ernic_stats_qp_counters (adm_stats s) qp_id);
        if negb ((c : Z * ernic_qp_counters).1 =? 0) then mret IONIC_RC_EIO
        else
          r ← gets (fun s => ionic_datapath_rdma_counters qp_id (am_dp s));
          stats_write_vals dma length ((fun e => e.2 (QpVals c.2 r)) <$> qp_stats_tbl)
    else mret IONIC_RC_EOPCODE.
End stats.
