(* ===== verification/AdmCmd.v ===== *)
(** * The admin commands (ionic_adminq.c)

    One definition per handler, and the dispatch.  [body] is the buffer after
    the work request's header and [len] the length the header gives; a handler
    reads the fields at the offsets of the driver's struct and returns the
    completion's status. *)
From S2P Require Export AdmStats NetHeaders.

Definition ETH_HDR_LEN : Z := 14.
Definition ETH_DST_OFF : nat := 0.
Definition ETH_TYPE_OFF : nat := 12.
Definition ETH_VLAN_TAG_LEN : nat := 4.
Definition ETH_ETHERTYPE_IP : Z := 0x0800.
Definition ETH_ETHERTYPE_IPV6 : Z := 0x86dd.
Definition ETH_ETHERTYPE_VLAN : Z := 0x8100.
Definition IP6_HDR_LEN : nat := 40.

Definition IONIC_MRF_ACCESS_MASK : Z := 0x0fff.
Definition ID_MASK : Z := 0x00ffffff.

Definition adminq_dp_status (err : Z) : Z :=
  if err =? - EINVAL then IONIC_RC_EINVAL
  else if err =? - ENOMEM then IONIC_RC_ENOMEM
  else if err =? - ENOSPC then IONIC_RC_ENOSPC
  else IONIC_RC_EIO.

Definition ionic_qpt_to_ib (ionic_qpt qp_id : Z) : Z :=
  if qp_id =? 1 then ERNIC_IB_QPT_GSI
  else if ionic_qpt =? IONIC_QPT_RC then IBV_QPT_RC
  else if ionic_qpt =? IONIC_QPT_UC then IBV_QPT_UC
  else if ionic_qpt =? IONIC_QPT_UD then IBV_QPT_UD
  else IBV_QPT_RC.

(** The address in a RoCE header template: the destination and source GIDs and
    the destination MAC. *)
Definition roce_addr (hdr : list Z) (len : Z) : option (list Z * list Z * list Z) :=
  let dmac := bslice hdr ETH_DST_OFF ETH_ADDR_LEN in
  let at_ip off ethertype :=
    let off := (off + 2)%nat in
    if ethertype =? ETH_ETHERTYPE_IP then
      if len <? Z.of_nat (off + IP_HDR_LEN) then None
      else Some (ernic_gid_from_ipv4 (bslice hdr (off + IP_DST_OFF) 4),
                 ernic_gid_from_ipv4 (bslice hdr (off + IP_SRC_OFF) 4), dmac)
    else if ethertype =? ETH_ETHERTYPE_IPV6 then
      if len <? Z.of_nat (off + IP6_HDR_LEN) then None
      else Some (bslice hdr (off + IP6_DST_OFF) ERNIC_GID_LEN, bslice hdr (off + IP6_SRC_OFF) ERNIC_GID_LEN, dmac)
    else None in
  let ethertype := ernic_get_be16 hdr ETH_TYPE_OFF in
  if ethertype =? ETH_ETHERTYPE_VLAN then
    let off := (ETH_TYPE_OFF + ETH_VLAN_TAG_LEN)%nat in
    if len <? Z.of_nat (off + 2) then None else at_ip off (ernic_get_be16 hdr off)
  else at_ip ETH_TYPE_OFF ethertype.

Section commands.
Context {E : Env} {T : Targets} {P : Type} (backend_ops : option (RdmaBackendOps P)).
Abbreviation ADM := (ST (adm P)).
Abbreviation bo := backend_ops.

Definition adminq_parse_roce_hdr (gpa len : Z) : ADM (option (list Z * list Z * list Z)) :=
  if (len <? ETH_HDR_LEN) || (128 <? len) then mret None
  else
    r ← adm_dma_read gpa len;
    mret (hdr ← r; roce_addr (hdr : list Z) len).

Definition adminq_get_pd : ADM (Z + Z) :=
  v ← ctx_gets ax_pd_valid;
  if v : bool then h ← ctx_gets ax_pd_handle; mret (inr h)
  else
    r ← ernic_rm_alloc_pd bo;
    match r with
    | inl ret => mret (inl ret)
    | inr h => in_ctx (fun c => c <| ax_pd_handle := h |> <| ax_pd_valid := true |>) ;; mret (inr h)
    end.

(** Every handler but the address handles' succeeds while there is no resource
    manager, and refuses a body shorter than its struct. *)
Definition with_body (len need : Z) (m : ADM Z) : ADM Z :=
  h ← ctx_gets ax_pvrdma_handle;
  if negb (h : bool) then mret IONIC_RC_SUCCESS
  else if len <? need then mret IONIC_RC_EINVAL
  else m.

(** A ring descriptor, from the offsets of its fields. *)
Definition ring_desc_at (body : list Z) (dma maps page depth stride : nat) : ionic_dp_ring_desc :=
  RingDesc (BufDesc (ernic_get_le64 body dma) (ernic_get_le32 body maps) (body !!! page)) (body !!! depth) (body !!! stride).

(** ** Completion queues *)
Definition handle_create_cq_op (body : list Z) (len : Z) : ADM Z :=
  with_body len 34 (
    let cq_id := Z.land (ernic_get_le32 body 12) ID_MASK in
    if ERNIC_MAX_CQ <=? cq_id then mret IONIC_RC_EQID
    else
      let eq_id := ernic_get_le32 body 0 in
      let ring := ring_desc_at body 24 20 7 4 5 in
      if negb (ionic_dp_ring_geometry_ok (rd_depth_log2 ring) (ionic_dp_cq_stride_log2 ring)
                 IONIC_CQ_MIN_STRIDE_LOG2 IONIC_RING_MAX_STRIDE_LOG2) then mret IONIC_RC_ERANGE
      else
        used ← ctx_gets (adminq_lookup_cq cq_id);
        if bool_decide (is_Some used) then mret IONIC_RC_EEXIST
        else
          entry ← ctx_gets adminq_cq_free_entry;
          match entry with
          | None => mret IONIC_RC_ENOSPC
          | Some i =>
              r ← ernic_rm_alloc_cq bo (Z.shiftl 1 (rd_depth_log2 ring));
              match r with
              | inl _ => mret IONIC_RC_ERDMA
              | inr cq_handle =>
                  ret ← on_dp (ionic_datapath_register_cq cq_id eq_id ring);
                  if negb (ret =? 0) then ernic_rm_dealloc_cq bo cq_handle ;; mret (adminq_dp_status ret)
                  else
                    in_ctx (fun c => c <| ax_cq_map ::= <[i := CqEntry true cq_id cq_handle]> |>) ;;
                    mret IONIC_RC_SUCCESS
              end
          end).

Definition handle_destroy_cq_op (body : list Z) (len : Z) : ADM Z :=
  with_body len 4 (
    let cq_id := ernic_get_le32 body 0 in
    on_dp (ionic_datapath_unregister_cq cq_id) ;;
    r ← ctx_gets (adminq_lookup_cq cq_id);
    match r with
    | None => mret IONIC_RC_SUCCESS
    | Some cq_handle =>
        ernic_rm_dealloc_cq bo cq_handle ;; in_ctx (adminq_unmap_cq cq_id) ;; mret IONIC_RC_SUCCESS
    end).

(** ** Shared receive queues *)
Definition adminq_srq_unwind (srq_id srq_handle : Z) : ADM unit :=
  on_dp (ionic_datapath_unregister_srq srq_id) ;;
  ernic_rm_dealloc_srq bo srq_handle ;;
  in_ctx (adminq_unmap_srq srq_id).

Definition IONIC_ADMIN_CREATE_SRQ_OUT_V1_LEN : Z := 5.

(** The last part of CREATE_SRQ: the id goes back by DMA. *)
Definition create_srq_answer (srq_id srq_handle resp_buf_len resp_dma_addr : Z) : ADM Z :=
  if (resp_buf_len <? IONIC_ADMIN_CREATE_SRQ_OUT_V1_LEN) || (resp_dma_addr =? 0) then
    adminq_srq_unwind srq_id srq_handle ;; mret IONIC_RC_EINVAL
  else
    ok ← adm_dma_write resp_dma_addr (ernic_put_le32 (zeros 5) 0 srq_id);
    if negb (ok : bool) then adminq_srq_unwind srq_id srq_handle ;; mret IONIC_RC_EIO
    else in_ctx (fun c => c <| ax_resp_len := IONIC_ADMIN_CREATE_SRQ_OUT_V1_LEN |>) ;; mret IONIC_RC_SUCCESS.

Definition handle_create_srq_op (body : list Z) (len : Z) : ADM Z :=
  with_body len 42 (
    let low_wqes_limit := ernic_get_le16 body 22 in
    let resp_buf_len := ernic_get_le32 body 30 in
    let resp_dma_addr := ernic_get_le64 body 34 in
    let ring := ring_desc_at body 0 8 28 26 27 in
    let depth_log2 := rd_depth_log2 ring in
    let stride_log2 := rd_stride_log2 ring in
    if (IONIC_SRQ_MAX_DEPTH_LOG2 <? depth_log2) || (IONIC_SRQ_MAX_STRIDE_LOG2 <? stride_log2) ||
       (stride_log2 <? IONIC_SRQ_MIN_STRIDE_LOG2) then mret IONIC_RC_ERANGE
    else
      pd ← adminq_get_pd;
      match pd with
      | inl _ => mret IONIC_RC_ERDMA
      | inr pd_handle =>
          r ← ernic_rm_alloc_srq bo pd_handle (Z.shiftl 1 depth_log2) ERNIC_MAX_SRQ_SGE low_wqes_limit;
          match r with
          | inl _ => mret IONIC_RC_ERDMA
          | inr srq_handle =>
              a ← ctx_gets (adminq_alloc_srq srq_handle low_wqes_limit);
              match a with
              | None => ernic_rm_dealloc_srq bo srq_handle ;; mret IONIC_RC_ENOSPC
              | Some (srq_id, ctx) =>
                  in_ctx (fun _ => ctx) ;;
                  reg ← on_dp (ionic_datapath_register_srq srq_id ring);
                  if negb ((reg : Z) =? 0) then adminq_srq_unwind srq_id srq_handle ;; mret IONIC_RC_EIO
                  else create_srq_answer srq_id srq_handle resp_buf_len resp_dma_addr
              end
          end
      end).

Definition handle_modify_srq_op (body : list Z) (len : Z) : ADM Z :=
  with_body len 6 (
    let qid := ernic_get_le32 body 0 in
    e ← ctx_gets (adminq_srq_entry qid);
    match e with
    | None => mret IONIC_RC_ENOENT
    | Some (i, e) =>
        let limit := ernic_get_le16 body 4 in
        ret ← (if negb (limit =? 0) then ernic_rm_modify_srq bo (se_handle e) limit else mret 0);
        if negb ((ret : Z) =? 0) then mret IONIC_RC_ERDMA
        else in_ctx (fun c => c <| ax_srq_map ::= <[i := e <| se_srq_limit := limit |>]> |>) ;; mret IONIC_RC_SUCCESS
    end).

Definition handle_query_srq_op (body : list Z) (len : Z) : ADM Z :=
  with_body len 4 (
    e ← ctx_gets (adminq_srq_entry (ernic_get_le32 body 0));
    match e with
    | None => mret IONIC_RC_ENOENT
    | Some (_, e) =>
        r ← ernic_rm_query_srq bo (se_handle e);
        mret (if negb ((r : Z * ibv_srq_attr).1 =? 0) then IONIC_RC_ERDMA else IONIC_RC_SUCCESS)
    end).

Definition handle_destroy_srq_op (body : list Z) (len : Z) : ADM Z :=
  with_body len 4 (
    let qid := ernic_get_le32 body 0 in
    r ← ctx_gets (adminq_lookup_srq qid);
    match r with
    | None => mret IONIC_RC_SUCCESS
    | Some handle => adminq_srq_unwind qid handle ;; mret IONIC_RC_SUCCESS
    end).

(** ** Queue pairs *)
Definition NO_SRQ : Z := 0xffffffff.

(** What CREATE_QP does once every check has passed. *)
Definition create_qp_make (i : nat) (qp_id ib_qp_type sq_cq_id rq_cq_id srq_id send_cq recv_cq : Z)
    (sq rq : ionic_dp_ring_desc) : ADM Z :=
  pd ← adminq_get_pd;
  match pd with
  | inl _ => mret IONIC_RC_ERDMA
  | inr pd_handle =>
      r ← ernic_rm_alloc_qp bo pd_handle ib_qp_type send_cq recv_cq;
      match r with
      | inl _ => mret IONIC_RC_ERDMA
      | inr qpn =>
          ret ← on_dp (ionic_datapath_register_qp qp_id ib_qp_type sq_cq_id sq rq_cq_id rq);
          if negb ((ret : Z) =? 0) then ernic_rm_dealloc_qp bo qpn ;; mret (adminq_dp_status ret)
          else
            in_ctx (fun c => c <| ax_qp_map ::= <[i := QpEntry true qp_id qpn false 0]> |>) ;;
            (if negb (srq_id =? NO_SRQ) then on_dp (ionic_datapath_bind_qp_srq qp_id srq_id) else mret tt) ;;
            mret IONIC_RC_SUCCESS
      end
  end.

Definition handle_create_qp_op (body : list Z) (len : Z) : ADM Z :=
  with_body len 63 (
    let sq_cq_id := ernic_get_le32 body 8 in
    let rq_cq_id := ernic_get_le32 body 32 in
    let qp_id := Z.land (ernic_get_le32 body 56) ID_MASK in
    let type_state := body !!! 62%nat in
    let ib_qp_type := ionic_qpt_to_ib (Z.land type_state 0x0f) qp_id in
    if ERNIC_MAX_QP <=? qp_id then mret IONIC_RC_EQID
    else
      used ← ctx_gets (adminq_qp_entry qp_id);
      if bool_decide (is_Some used) then mret IONIC_RC_EEXIST
      else
        entry ← ctx_gets adminq_qp_free_entry;
        match entry with
        | None => mret IONIC_RC_ENOSPC
        | Some i =>
            scq ← ctx_gets (adminq_lookup_cq sq_cq_id);
            rcq ← ctx_gets (adminq_lookup_cq rq_cq_id);
            match scq, rcq with
            | Some send_cq, Some recv_cq =>
                let srq_id := ernic_get_le32 body 40 in
                srq ← ctx_gets (adminq_srq_entry srq_id);
                if negb (srq_id =? NO_SRQ) && negb (bool_decide (is_Some srq)) then mret IONIC_RC_ENOENT
                else
                  let sq := ring_desc_at body 24 20 15 12 13 in
                  let rq := ring_desc_at body 48 44 39 36 37 in
                  let rq_min := if srq_id =? NO_SRQ then IONIC_WQE_MIN_STRIDE_LOG2 else 0 in
                  if negb (ionic_dp_ring_geometry_ok (rd_depth_log2 sq) (rd_stride_log2 sq)
                             IONIC_WQE_MIN_STRIDE_LOG2 IONIC_WQE_MAX_STRIDE_LOG2) ||
                     negb (ionic_dp_ring_geometry_ok (rd_depth_log2 rq) (rd_stride_log2 rq)
                             rq_min IONIC_WQE_MAX_STRIDE_LOG2) then mret IONIC_RC_ERANGE
                  else create_qp_make i qp_id ib_qp_type sq_cq_id rq_cq_id srq_id send_cq recv_cq sq rq
            | _, _ => mret IONIC_RC_ENOENT
            end
        end).

Definition handle_destroy_qp_op (body : list Z) (len : Z) : ADM Z :=
  with_body len 4 (
    let qp_id := ernic_get_le32 body 0 in
    on_dp (ionic_datapath_unregister_qp qp_id) ;;
    adm_stat (StatQpForget qp_id) ;;
    r ← ctx_gets (adminq_lookup_qp qp_id);
    match r with
    | None => mret IONIC_RC_SUCCESS
    | Some qpn => ernic_rm_dealloc_qp bo qpn ;; in_ctx (adminq_unmap_qp qp_id) ;; mret IONIC_RC_SUCCESS
    end).

(** The destination node of a MODIFY_QP, or [None] when it must fail. *)
Definition modify_qp_dest (attr_mask : Z) (dgid : option (list Z)) : ADM (option Z) :=
  if has_bit attr_mask IBV_QP_DEST_QPN then
    node ← on_dp (ionic_dp_node_from_gid dgid);
    here ← gets (fun s => ionic_dp_local_node (am_dp s));
    mret (if (node =? UINT32_MAX) && negb ((here : Z) =? UINT32_MAX) then None else Some node)
  else mret (Some UINT32_MAX).

(** What a modification the resource manager has made changes elsewhere. *)
Definition modify_qp_apply (qp_id attr_mask type_state guest_qkey_dest_qpn dest_node : Z) : ADM Z :=
  (if has_bit attr_mask IBV_QP_QKEY then on_dp (ionic_datapath_set_qkey qp_id guest_qkey_dest_qpn) else mret tt) ;;
  (if has_bit attr_mask IBV_QP_DEST_QPN then
     e ← ctx_gets (adminq_qp_entry qp_id);
     on_dp (ionic_datapath_set_dest qp_id guest_qkey_dest_qpn dest_node) ;;
     match e with
     | Some (i, e) =>
         in_ctx (fun c => c <| ax_qp_map ::= <[i := e <| qe_dest_set := true |> <| qe_dest_qp_id := guest_qkey_dest_qpn |>]> |>)
     | None => mret tt
     end
   else mret tt) ;;
  (if has_bit attr_mask IBV_QP_STATE && (type_state =? IONIC_QPS_ERR)
   then on_dp (ionic_datapath_flush_qp qp_id) else mret tt) ;;
  mret IONIC_RC_SUCCESS.

Definition handle_modify_qp_op (body : list Z) (len : Z) : ADM Z :=
  with_body len 60 (
    let attr_mask := ernic_get_be32 body 0 in
    let rq_psn := ernic_get_le32 body 8 in
    let sq_psn := ernic_get_le32 body 12 in
    let qkey_dest_qpn := ernic_get_le32 body 16 in
    let qp_id := Z.land (ernic_get_le32 body 56) ID_MASK in
    let type_state := body !!! 39%nat in
    q ← ctx_gets (adminq_lookup_qp qp_id);
    match q with
    | None => mret IONIC_RC_ENOENT
    | Some qpn =>
        let hdr_len := Z.shiftr (ernic_get_le32 body 32) 24 in
        let ah_dma := ernic_get_le64 body 48 in
        addr ← (if negb (hdr_len =? 0) && negb (ah_dma =? 0) then adminq_parse_roce_hdr ah_dma hdr_len else mret None);
        let dgid := (fun a : list Z * list Z * list Z => a.1.1) <$> addr in
        dest ← modify_qp_dest attr_mask dgid;
        match dest with
        | None => mret IONIC_RC_ENOENT
        | Some dest_node =>
            peer ← ctx_gets (adminq_lookup_qp qkey_dest_qpn);
            let rm_dest := if has_bit attr_mask IBV_QP_DEST_QPN then default qkey_dest_qpn peer else qkey_dest_qpn in
            ret ← ernic_rm_modify_qp bo qpn
                    (RmQpAttr attr_mask type_state sq_psn rq_psn rm_dest (Some (default (zeros 16) dgid)));
            if negb ((ret : Z) =? 0) then mret IONIC_RC_ERDMA
            else modify_qp_apply qp_id attr_mask type_state qkey_dest_qpn dest_node
        end
    end).

Definition qpf_flags (access : Z) : Z :=
  Z.lor (if has_bit access IBV_ACCESS_REMOTE_WRITE then 1 else 0)
    (Z.lor (if has_bit access IBV_ACCESS_REMOTE_READ then 2 else 0)
       (if has_bit access IBV_ACCESS_REMOTE_ATOMIC then 4 else 0)).
Definition query_qp_sqbuf (flags guest_dest rq_psn : Z) : list Z :=
  ernic_put_be32 (ernic_put_be32 (ernic_put_be16 (zeros 20) 2 flags) 8 guest_dest) 16 (Z.land rq_psn 0xffffff).
Definition query_qp_rqbuf (state path_mtu flags sq_psn : Z) : list Z :=
  let b := bput (zeros 12) 0 [u8 (Z.lor (Z.shiftl (Z.land state 0x0f) 4) (Z.land (path_mtu + 7) 0x0f));
                              u8 (Z.lor (Z.shiftl 7 4) 7); 1; 1] in
  ernic_put_be16 (ernic_put_be32 b 4 (Z.land sq_psn 0xffffff)) 8 flags.

Definition handle_query_qp_op (body : list Z) (len : Z) : ADM Z :=
  with_body len 34 (
    let sq_dma := ernic_get_le64 body 8 in
    let rq_dma := ernic_get_le64 body 16 in
    let qp_id := Z.land (ernic_get_le32 body 28) ID_MASK in
    e ← ctx_gets (adminq_qp_entry qp_id);
    match e with
    | None => mret IONIC_RC_ENOENT
    | Some (_, qp_entry) =>
        r ← ernic_rm_query_qp bo (qe_qpn qp_entry);
        match r with
        | inl _ => mret IONIC_RC_ERDMA
        | inr a =>
            named ← ctx_gets (adminq_lookup_qp_id (qa_dest_qp_num a));
            let guest_dest := if qe_dest_set qp_entry then qe_dest_qp_id qp_entry
                              else if qa_dest_qp_num a =? 0 then 0 else default 0 named in
            let flags := qpf_flags (qa_qp_access_flags a) in
            ok ← (if negb (sq_dma =? 0) then adm_dma_write sq_dma (query_qp_sqbuf flags guest_dest (qa_rq_psn a)) else mret true);
            if negb (ok : bool) then mret IONIC_RC_EIO
            else
              ok ← (if negb (rq_dma =? 0)
                    then adm_dma_write rq_dma (query_qp_rqbuf (qa_qp_state a) (qa_path_mtu a) flags (qa_sq_psn a)) else mret true);
              mret (if negb (ok : bool) then IONIC_RC_EIO else IONIC_RC_SUCCESS)
        end
    end).

(** ** Memory regions *)
Definition handle_create_mr_op (body : list Z) (len : Z) : ADM Z :=
  with_body len 45 (
    let mrid := ernic_get_le32 body 20 in
    let access := Z.land (ernic_get_le16 body 40) IONIC_MRF_ACCESS_MASK in
    let mr_va := ernic_get_le64 body 0 in
    let mr_len := ernic_get_le64 body 8 in
    if UINT64_MAX - mr_va <? mr_len then mret IONIC_RC_ERANGE
    else
      match adminq_mr_entry mrid with
      | None => mret IONIC_RC_ERANGE
      | Some slot =>
          e ← ctx_gets (mr_entry_at slot);
          if me_valid e then mret IONIC_RC_EEXIST
          else
            pd ← adminq_get_pd;
            match pd with
            | inl _ => mret IONIC_RC_ERDMA
            | inr pd_handle =>
                r ← ernic_rm_alloc_mr bo pd_handle access;
                match r with
                | inl _ => mret IONIC_RC_ERDMA
                | inr mr_handle =>
                    let mrbuf := BufDesc (ernic_get_le64 body 32) (ernic_get_le32 body 28) (body !!! 44%nat) in
                    ret ← (if mr_len =? 0 then on_dp (ionic_datapath_unregister_mr mrid) ;; mret 0
                           else on_dp (ionic_datapath_register_mr mrid mr_va mr_len mrbuf));
                    if negb ((ret : Z) =? 0) then ernic_rm_dealloc_mr bo mr_handle ;; mret (adminq_dp_status ret)
                    else
                      in_ctx (fun c => c <| ax_mr_map ::= <[slot := MrEntry true mr_handle]> |>) ;;
                      mret IONIC_RC_SUCCESS
                end
            end
      end).

Definition handle_destroy_mr_op (body : list Z) (len : Z) : ADM Z :=
  with_body len 4 (
    let mrid := ernic_get_le32 body 0 in
    on_dp (ionic_datapath_unregister_mr mrid) ;;
    r ← ctx_gets (adminq_lookup_mr mrid);
    match r with
    | None => mret IONIC_RC_ENOENT
    | Some mr_handle => ernic_rm_dealloc_mr bo mr_handle ;; in_ctx (adminq_unmap_mr mrid) ;; mret IONIC_RC_SUCCESS
    end).

(** ** Address handles *)
Definition handle_create_ah_op (body : list Z) (len : Z) : ADM Z :=
  if len <? 24 then mret IONIC_RC_EINVAL
  else
    let hdr_dma := ernic_get_le64 body 0 in
    let hdr_len := ernic_get_le32 body 8 in
    let ah_id := Z.land (ernic_get_le32 body 16) ID_MASK in
    addr ← (if negb (hdr_len =? 0) && negb (hdr_dma =? 0) then adminq_parse_roce_hdr hdr_dma hdr_len else mret None);
    match (addr : option (list Z * list Z * list Z)) with
    | None => on_dp (ionic_datapath_register_ah ah_id None None None) ;; mret IONIC_RC_SUCCESS
    | Some (dgid, sgid, dmac) =>
        on_dp (ionic_datapath_register_ah ah_id (Some dgid) (Some sgid) (Some dmac)) ;;
        here ← gets (fun s => ionic_dp_local_node (am_dp s));
        (if negb ((here : Z) =? UINT32_MAX) then _ ← on_dp (ionic_dp_node_from_gid (Some dgid)); mret tt else mret tt) ;;
        mret IONIC_RC_SUCCESS
    end.

Definition handle_destroy_ah_op (body : list Z) (len : Z) : ADM Z :=
  if len <? 4 then mret IONIC_RC_EINVAL
  else on_dp (ionic_datapath_unregister_ah (Z.land (ernic_get_le32 body 0) ID_MASK)) ;; mret IONIC_RC_SUCCESS.

(** ** Dispatch *)
Definition ionic_adminq_dispatch_wqe (op : Z) (body : list Z) (len : Z) : ADM Z :=
  in_ctx (fun c => c <| ax_resp_len := 0 |>) ;;
  if op =? IONIC_V1_ADMIN_NOOP then mret IONIC_RC_SUCCESS
  else if op =? IONIC_V1_ADMIN_CREATE_CQ then handle_create_cq_op body len
  else if op =? IONIC_V1_ADMIN_CREATE_QP then handle_create_qp_op body len
  else if op =? IONIC_V1_ADMIN_CREATE_SRQ then handle_create_srq_op body len
  else if op =? IONIC_V1_ADMIN_MODIFY_SRQ then handle_modify_srq_op body len
  else if op =? IONIC_V1_ADMIN_QUERY_SRQ then handle_query_srq_op body len
  else if op =? IONIC_V1_ADMIN_DESTROY_SRQ then handle_destroy_srq_op body len
  else if op =? IONIC_V1_ADMIN_CREATE_MR then handle_create_mr_op body len
  else if op =? IONIC_V1_ADMIN_DESTROY_MR then handle_destroy_mr_op body len
  else if op =? IONIC_V1_ADMIN_DESTROY_CQ then handle_destroy_cq_op body len
  else if op =? IONIC_V1_ADMIN_DESTROY_QP then handle_destroy_qp_op body len
  else if op =? IONIC_V1_ADMIN_MODIFY_QP then handle_modify_qp_op body len
  else if op =? IONIC_V1_ADMIN_QUERY_QP then handle_query_qp_op body len
  else if op =? IONIC_V1_ADMIN_CREATE_AH then handle_create_ah_op body len
  else if op =? IONIC_V1_ADMIN_DESTROY_AH then handle_destroy_ah_op body len
  else if op =? IONIC_V1_ADMIN_QUERY_AH then mret IONIC_RC_SUCCESS
  else if (op =? IONIC_V1_ADMIN_STATS_HDRS) || (op =? IONIC_V1_ADMIN_STATS_VALS) ||
          (op =? IONIC_V1_ADMIN_QP_STATS_HDRS) || (op =? IONIC_V1_ADMIN_QP_STATS_VALS) then handle_stats_op op body len
  else if (op =? IONIC_V1_ADMIN_MODIFY_DCQCN) || (op =? IONIC_V1_ADMIN_DEBUG) then mret IONIC_RC_SUCCESS
  else mret IONIC_RC_EOPCODE.
End commands.
