(* ===== verification/AdmPoll.v ===== *)
(** * The admin rings: work requests, completions, reset (ionic_adminq.c)

    The poll loop reads work requests between the consumer and the producer
    index of each ring, runs them, and posts a completion for each. *)
From S2P Require Export AdmCmd.

Definition ADMIN_WQE_STRIDE : Z := 64.
Definition ADMIN_WQE_HDR_LEN : nat := 4.
Definition ADMIN_WQE_MAX_STRIDES : Z := 4.
Definition CQE_SIZE : Z := 32.
Definition CQE_COLOR_BIT : Z := 1.
Definition CQE_ERROR_BIT : Z := 2.

Section ring_state.
Context {E : Env}.
Implicit Types ctx : ionic_adminq_ctx.

Definition aq_at (i : nat) ctx : ionic_aq_ring := ax_aq ctx !!! i.

(** [1U << depth_log2] entries each; what is refused changes nothing. *)
Definition ionic_adminq_register_queue (aq_idx aq_dma aq_depth_log2 cq_dma cq_depth_log2 cq_id eq_id : Z) ctx
    : bool * ionic_adminq_ctx :=
  if (aq_idx <? 0) || (Z.of_nat MAX_AQ <=? aq_idx) then (false, ctx)
  else if (IONIC_ADMINQ_MAX_DEPTH_LOG2 <? aq_depth_log2) || (IONIC_RING_MAX_DEPTH_LOG2 <? cq_depth_log2) then (false, ctx)
  else
    (true, ctx <| ax_aq ::= <[Z.to_nat aq_idx := AqRing true aq_dma (Z.shiftl 1 aq_depth_log2) 0 0 cq_dma
                                 (Z.shiftl 1 cq_depth_log2) 0 true aq_idx cq_id eq_id]> |>
               <| ax_aq_count := if ax_aq_count ctx <=? aq_idx then aq_idx + 1 else ax_aq_count ctx |>).

Definition ionic_adminq_update_prod (aq_idx p_index : Z) ctx : ionic_adminq_ctx :=
  if (aq_idx <? 0) || (ax_aq_count ctx <=? aq_idx) then ctx
  else if aq_valid (aq_at (Z.to_nat aq_idx) ctx) then
    ctx <| ax_aq ::= alter (fun r => r <| aq_prod := p_index mod aq_depth r |>) (Z.to_nat aq_idx) |>
  else ctx.
End ring_state.

(** ** Completions *)
Definition adm_cqe (r : ionic_aq_ring) (cmd_idx cmd_op status resp_len : Z) : list Z :=
  let c := ernic_put_be16 (zeros 32) 0 cmd_idx in
  let c := bput c 2 [u8 cmd_op] in
  let c := ernic_put_be32 c 24 (if negb (status =? 0) then status else resp_len) in
  ernic_put_be32 c 28 (u32 (Z.lor (Z.shiftl (aq_id r) 8)
    (Z.lor (if aq_cq_color r then CQE_COLOR_BIT else 0) (if negb (status =? 0) then CQE_ERROR_BIT else 0)))).

Section polling.
Context {E : Env} {T : Targets} {P : Type} (backend_ops : option (RdmaBackendOps P)).
Abbreviation ADM := (ST (adm P)).

Definition upd_aq (i : nat) (f : ionic_aq_ring -> ionic_aq_ring) : ADM unit := in_ctx (fun c => c <| ax_aq ::= alter f i |>).

Definition ionic_adminq_post_cqe (i : nat) (cmd_idx cmd_op status resp_len : Z) : ADM unit :=
  r ← ctx_gets (aq_at i);
  let cqe_gpa := u64 (aq_cq_dma r + (aq_cq_prod r mod aq_cq_depth r) * CQE_SIZE) in
  ok ← adm_dma_write cqe_gpa (adm_cqe r cmd_idx cmd_op status resp_len);
  if negb (ok : bool) then mret tt
  else
    let prod := u32 (aq_cq_prod r + 1) in
    upd_aq i (fun r => r <| aq_cq_prod := prod |>
                         <| aq_cq_color := if prod mod aq_cq_depth r =? 0 then negb (aq_cq_color r) else aq_cq_color r |>) ;;
    fn ← ctx_gets ax_cq_event_fn;
    match fn with
    | Some fn =>
        on_dp (modify (fun s => let '(m, d) := fn (aq_eq_id r) (aq_cq_id r) (dp_mem s) (dp_dev s) in
                                s <| dp_mem := m |> <| dp_dev := d |>))
    | None => mret tt
    end.

(** ** Work requests *)

(** The strides after the first; [None] is a failed read. *)
Fixpoint read_tail_loop (fuel : nat) (r : ionic_aq_ring) (next left : Z) : ADM (option (list Z)) :=
  match fuel with
  | O => mret (Some [])
  | S fuel =>
      if left <=? 0 then mret (Some [])
      else
        let run := Z.min (aq_depth r - next) left in
        d ← adm_dma_read (u64 (aq_dma r + next * ADMIN_WQE_STRIDE)) (run * ADMIN_WQE_STRIDE);
        match d with
        | None => mret None
        | Some bs => rest ← read_tail_loop fuel r 0 (left - run); mret (app bs <$> rest)
        end
  end.
Definition read_wqe_tail (r : ionic_aq_ring) (slot strides : Z) : ADM (option (list Z)) :=
  read_tail_loop (Z.to_nat (strides - 1)) r ((slot + 1) mod aq_depth r) (strides - 1).

(** The body handed to a handler: the buffer past the header. *)
Definition wqe_body (bs : list Z) : list Z := drop ADMIN_WQE_HDR_LEN (bs ++ zeros (256 - length bs)).
Definition wqe_strides (len : Z) : Z := (Z.of_nat ADMIN_WQE_HDR_LEN + len + ADMIN_WQE_STRIDE - 1) / ADMIN_WQE_STRIDE.

(** One work request at the consumer index, [avail] strides before the
    producer: the strides taken, or [None] when a read failed. *)
Definition aq_wqe (i : nat) (avail : Z) : ADM (option Z) :=
  r ← ctx_gets (aq_at i);
  let slot := aq_cons r mod aq_depth r in
  d ← adm_dma_read (u64 (aq_dma r + slot * ADMIN_WQE_STRIDE)) ADMIN_WQE_STRIDE;
  match d with
  | None => mret None
  | Some hd =>
      let op := hd !!! 0%nat in
      let len := ernic_get_le16 hd 2 in
      let strides := wqe_strides len in
      st ← (if (ADMIN_WQE_MAX_STRIDES <? strides) || (avail <? strides) then mret (Some IONIC_RC_EINVAL)
            else
              tail ← read_wqe_tail r slot strides;
              match tail with
              | None => mret None
              | Some tail =>
                  status ← ionic_adminq_dispatch_wqe backend_ops op (wqe_body (hd ++ tail)) len;
                  mret (Some (status : Z))
              end);
      match st with
      | None => mret None
      | Some status =>
          resp_len ← ctx_gets ax_resp_len;
          ionic_adminq_post_cqe i (u16 slot) op status resp_len ;;
          adm_stat StatCommand ;;
          let taken := Z.min strides avail in
          upd_aq i (fun r => r <| aq_cons := (aq_cons r + taken) mod aq_depth r |>) ;;
          mret (Some taken)
      end
  end.

(** Whether the loop came to its end. *)
Fixpoint aq_loop (fuel : nat) (i : nat) (pending processed : Z) : ADM bool :=
  match fuel with
  | O => mret false
  | S fuel =>
      r ← ctx_gets (aq_at i);
      if (processed <? pending) && (processed <? aq_depth r) then
        n ← aq_wqe i (pending - processed);
        match n with
        | None => mret true
        | Some n => aq_loop fuel i pending (processed + n)
        end
      else mret true
  end.

Definition aq_pending (r : ionic_aq_ring) : Z := u32 (aq_prod r - aq_cons r + aq_depth r) mod aq_depth r.
Definition poll_aq (i : nat) : ADM unit :=
  r ← ctx_gets (aq_at i);
  if negb (aq_valid r) || (aq_prod r =? aq_cons r) then mret tt
  else _ ← aq_loop (S (Z.to_nat (aq_pending r))) i (aq_pending r) 0; mret tt.
Definition ionic_adminq_poll : ADM unit :=
  n ← ctx_gets ax_aq_count;
  for_each (seq 0 (Z.to_nat n)) poll_aq.

(** ** Reset *)
Definition release_qp (i : nat) : ADM unit :=
  e ← ctx_gets (fun c => ax_qp_map c !!! i);
  if qe_valid e then
    adm_stat (StatQpForget (qe_qp_id e)) ;;
    ernic_rm_dealloc_qp backend_ops (qe_qpn e) ;;
    in_ctx (fun c => c <| ax_qp_map ::= <[i := e <| qe_valid := false |>]> |>)
  else mret tt.
Definition release_srq (i : nat) : ADM unit :=
  e ← ctx_gets (fun c => ax_srq_map c !!! i);
  if se_valid e then
    ernic_rm_dealloc_srq backend_ops (se_handle e) ;;
    in_ctx (fun c => c <| ax_srq_map ::= <[i := e <| se_valid := false |>]> |>)
  else mret tt.
Definition release_mr (i : Z) : ADM unit :=
  e ← ctx_gets (mr_entry_at i);
  if me_valid e then
    ernic_rm_dealloc_mr backend_ops (me_handle e) ;;
    in_ctx (fun c => c <| ax_mr_map ::= <[i := e <| me_valid := false |>]> |>)
  else mret tt.
Definition release_cq (i : nat) : ADM unit :=
  e ← ctx_gets (fun c => ax_cq_map c !!! i);
  if ce_valid e then
    ernic_rm_dealloc_cq backend_ops (ce_handle e) ;;
    in_ctx (fun c => c <| ax_cq_map ::= <[i := e <| ce_valid := false |>]> |>)
  else mret tt.
Definition ionic_adminq_release_all : ADM unit :=
  on_dp ionic_datapath_reset_rdma ;;
  for_each (seq 0 MAX_QP_MAP) release_qp ;;
  for_each (seq 0 MAX_SRQ_MAP) release_srq ;;
  for_each (seqZ 0 ERNIC_MAX_MR) release_mr ;;
  for_each (seq 0 MAX_CQ_MAP) release_cq ;;
  v ← ctx_gets ax_pd_valid;
  if v : bool then
    h ← ctx_gets ax_pd_handle;
    ernic_rm_dealloc_pd h ;;
    in_ctx (fun c => c <| ax_pd_valid := false |>)
  else mret tt.
End polling.
