(* ===== verification/RdmaDevcmd.v ===== *)
(** * RDMA device commands and event queues (ionic_rdma_devcmd.c)

    The four commands that set up event queues and admin rings and reset them,
    and the event a completion raises.  The event queues and the interrupt
    vectors are part of [Dev], the rest of the device as the data path's
    callback reaches it; everything else of struct ionic_rdma_devcmd_state is
    [ionic_rdma_devcmd_state]. *)
From S2P Require Export AdmPoll Irq.

Definition IONIC_CMD_RDMA_RESET_LIF : Z := 50.
Definition IONIC_CMD_RDMA_CREATE_EQ : Z := 51.
Definition IONIC_CMD_RDMA_CREATE_CQ : Z := 52.
Definition IONIC_CMD_RDMA_CREATE_ADMINQ : Z := 53.
Definition RDMA_QUEUE_QID_VER_OFF : nat := 4.
Definition RDMA_QUEUE_CID_OFF : nat := 8.
Definition RDMA_QUEUE_DEPTH_OFF : nat := 14.
Definition RDMA_QUEUE_STRIDE_OFF : nat := 15.
Definition RDMA_QUEUE_DMA_OFF : nat := 16.
Definition IONIC_MAX_EQ : Z := 32.
Definition EQ_MIN_STRIDE_LOG2 : Z := 2.
Definition IONIC_DEVCMD_COMP_LEN : nat := 16.

Record ionic_rdma_eq := RdmaEq {
  eq_valid : bool; eq_qid : Z; eq_intr_index : Z; eq_dma_addr : Z; eq_depth_log2 : Z; eq_stride_log2 : Z;
  eq_prod : Z; eq_color : Z }.
#[export] Instance rdma_eq_eta : Eta ionic_rdma_eq := fun r =>
  RdmaEq (eq_valid r) (eq_qid r) (eq_intr_index r) (eq_dma_addr r) (eq_depth_log2 r) (eq_stride_log2 r) (eq_prod r) (eq_color r).
#[export] Instance rdma_eq_zero : Inhabited ionic_rdma_eq := populate (RdmaEq false 0 0 0 0 0 0 0).

Record ionic_rdma_aq := RdmaAq {
  ra_valid : bool; ra_qid : Z; ra_cq_id : Z; ra_eq_id : Z; ra_dma_addr : Z; ra_cq_dma_addr : Z; ra_depth_log2 : Z;
  ra_stride_log2 : Z; ra_cq_depth_log2 : Z; ra_cq_stride_log2 : Z }.
#[export] Instance rdma_aq_zero : Inhabited ionic_rdma_aq := populate (RdmaAq false 0 0 0 0 0 0 0 0 0).

(** The event queue table. *)
Record rdma_eqs := RdmaEqs { es_eq : list ionic_rdma_eq; es_count : Z }.
#[export] Instance rdma_eqs_eta : Eta rdma_eqs := fun r => RdmaEqs (es_eq r) (es_count r).
Definition no_eqs : rdma_eqs := RdmaEqs (replicate (Z.to_nat IONIC_MAX_EQ) inhabitant) 0.

(** The parts of [Dev] this file works on; [dev_has_emu] says whether the
    emulator is attached. *)
Class DevParts {E : Env} := {
  dev_eqs : Dev -> rdma_eqs; set_dev_eqs : rdma_eqs -> Dev -> Dev;
  dev_irqs : Dev -> irqs; set_dev_irqs : irqs -> Dev -> Dev;
  dev_has_emu : Dev -> bool;
  eqs_set_eqs x d : dev_eqs (set_dev_eqs x d) = x;
  eqs_set_irqs x d : dev_eqs (set_dev_irqs x d) = dev_eqs d;
  irqs_set_irqs x d : dev_irqs (set_dev_irqs x d) = x;
  irqs_set_eqs x d : dev_irqs (set_dev_eqs x d) = dev_irqs d;
  emu_set_eqs x d : dev_has_emu (set_dev_eqs x d) = dev_has_emu d;
  emu_set_irqs x d : dev_has_emu (set_dev_irqs x d) = dev_has_emu d }.

(** ** Events *)
Section events.
Context {E : Env} {D : DevParts} {V : VfuIrq}.

(** The first queue in use with that id. *)
Definition find_eq (eq_id : Z) (es : rdma_eqs) : option (nat * ionic_rdma_eq) :=
  list_find (fun e => eq_valid e = true /\ eq_qid e = eq_id) (take (Z.to_nat (es_count es)) (es_eq es)).

Definition eqe_bytes (cq_id color : Z) : list Z :=
  ernic_put_be32 (zeros 4) 0 (u32 (Z.lor (Z.shiftl cq_id 8) (if negb (color =? 0) then 1 else 0))).
Definition eq_gpa (eq : ionic_rdma_eq) : Z := u64 (eq_dma_addr eq + eq_prod eq * Z.shiftl 1 (eq_stride_log2 eq)).
Definition eq_advance (eq : ionic_rdma_eq) : ionic_rdma_eq :=
  if eq_prod eq + 1 =? Z.shiftl 1 (eq_depth_log2 eq)
  then eq <| eq_prod := 0 |> <| eq_color := Z.lxor (eq_color eq) 1 |>
  else eq <| eq_prod := u32 (eq_prod eq + 1) |>.

Definition ionic_rdma_devcmd_post_cq_event (eq_id cq_id : Z) (m : Mem) (d : Dev) : Z * (Mem * Dev) :=
  match find_eq eq_id (dev_eqs d) with
  | None => (- ENOENT, (m, d))
  | Some (i, eq) =>
      let '(ok, m') := dma_write m (eq_gpa eq) (eqe_bytes cq_id (eq_color eq)) in
      if negb ok then (- EIO, (m', d))
      else
        let d := set_dev_eqs ((dev_eqs d) <| es_eq ::= <[i := eq_advance eq]> |>) d in
        if negb (dev_has_emu d) then (0, (m', d))
        else
          let '(ret, q) := ionic_eth_emu_trigger_irq (eq_intr_index eq) (dev_irqs d) in
          (ret, (m', set_dev_irqs q d))
  end.

Definition rdma_cq_event_cb : ionic_dp_cq_event_fn_t E := fun eq_id cq_id m d =>
  (ionic_rdma_devcmd_post_cq_event eq_id cq_id m d).2.
End events.

(** ** Commands *)
Section devcmd.
Context {E : Env} {T : Targets} {D : DevParts} {V : VfuIrq} {P : Type} (backend_ops : option (RdmaBackendOps P)).

(** [ds_pvrdma_handle] and [ds_stats] say whether the pointers are set. *)
Record ionic_rdma_devcmd_state := DevcmdState {
  ds_pending_cq_qid : Z; ds_pending_cq_eq_id : Z; ds_pending_cq_dma : Z; ds_pending_cq_depth_log2 : Z;
  ds_pending_cq_stride_log2 : Z; ds_pending_cq_valid : bool; ds_aq : list ionic_rdma_aq; ds_aq_count : Z;
  ds_adminq_ctx : option ionic_adminq_ctx; ds_pvrdma_handle : bool; ds_stats : bool; ds_faults : option ionic_fault_set }.
#[global] Instance devcmd_state_eta : Eta ionic_rdma_devcmd_state := fun r =>
  DevcmdState (ds_pending_cq_qid r) (ds_pending_cq_eq_id r) (ds_pending_cq_dma r) (ds_pending_cq_depth_log2 r)
    (ds_pending_cq_stride_log2 r) (ds_pending_cq_valid r) (ds_aq r) (ds_aq_count r) (ds_adminq_ctx r) (ds_pvrdma_handle r)
    (ds_stats r) (ds_faults r).

(** The state, with the data path and the resource manager the admin queue
    works on. *)
Record rdma_dev := RdmaDev { rv_s : ionic_rdma_devcmd_state; rv_dp : ionic_datapath; rv_pv : PVRDMADev P; rv_vfu : bool }.
#[global] Instance rdma_dev_eta : Eta rdma_dev := fun r => RdmaDev (rv_s r) (rv_dp r) (rv_pv r) (rv_vfu r).
Abbreviation RD := (ST rdma_dev).

(** A call on the admin queue's context; the functions ignore NULL. *)
Definition with_adminq (m : ST (adm P) unit) : RD unit := modify (fun v =>
  match ds_adminq_ctx (rv_s v) with
  | None => v
  | Some c =>
      let a := (m (Adm c (rv_dp v) (rv_pv v) (rv_vfu v))).2 in
      v <| rv_s ::= upd ds_adminq_ctx (fun _ => Some (am_ctx a)) |> <| rv_dp := am_dp a |> <| rv_pv := am_pv a |>
  end).
Definition upd_s (f : ionic_rdma_devcmd_state -> ionic_rdma_devcmd_state) : RD unit := modify (fun v => v <| rv_s ::= f |>).
Definition upd_eqs (f : rdma_eqs -> rdma_eqs) : RD unit :=
  modify (fun v => v <| rv_dp ::= upd dp_dev (fun d => set_dev_eqs (f (dev_eqs d)) d) |>).
Definition get_eqs : RD rdma_eqs := gets (fun v => dev_eqs (dp_dev (rv_dp v))).
Definition get_s {A} (f : ionic_rdma_devcmd_state -> A) : RD A := gets (fun v => f (rv_s v)).

Definition wire_adminq_ctx (s : ionic_rdma_devcmd_state) (c : ionic_adminq_ctx) : ionic_adminq_ctx :=
  ionic_adminq_set_faults (ds_faults s)
    (ionic_adminq_set_stats (ds_stats s)
       (ionic_adminq_set_pvrdma (ds_pvrdma_handle s) (ionic_adminq_set_cq_event_cb (Some rdma_cq_event_cb) c))).

(** Each handler returns the completion's status byte. *)
Definition handle_rdma_reset : RD Z :=
  upd_eqs (fun _ => no_eqs) ;;
  upd_s (fun s => s <| ds_aq := replicate MAX_AQ inhabitant |> <| ds_aq_count := 0 |> <| ds_pending_cq_valid := false |>) ;;
  with_adminq (ionic_adminq_release_all backend_ops) ;;
  upd_s (fun s => s <| ds_adminq_ctx := None |>) ;;
  mret 0.

Definition handle_create_eq (cmd : list Z) : RD Z :=
  es ← get_eqs;
  if IONIC_MAX_EQ <=? es_count es then mret 1
  else
    let qid := Z.land (ernic_get_le32 cmd RDMA_QUEUE_QID_VER_OFF) 0x00ffffff in
    let cid := ernic_get_le32 cmd RDMA_QUEUE_CID_OFF in
    let dma_addr := ernic_get_le64 cmd RDMA_QUEUE_DMA_OFF in
    let depth_log2 := cmd !!! RDMA_QUEUE_DEPTH_OFF in
    let stride_log2 := cmd !!! RDMA_QUEUE_STRIDE_OFF in
    if negb (ionic_dp_ring_geometry_ok depth_log2 stride_log2 EQ_MIN_STRIDE_LOG2 IONIC_RING_MAX_STRIDE_LOG2) then mret 1
    else if IONIC_MSIX_MAX_VECTORS <=? cid then mret 1
    else
      upd_eqs (fun es => es <| es_eq ::= <[Z.to_nat (es_count es) := RdmaEq true qid cid dma_addr depth_log2 stride_log2 0 1]> |>
                            <| es_count := es_count es + 1 |>) ;;
      mret 0.

Definition handle_create_cq (cmd : list Z) : RD Z :=
  let depth_log2 := cmd !!! RDMA_QUEUE_DEPTH_OFF in
  if IONIC_RING_MAX_DEPTH_LOG2 <? depth_log2 then mret 1
  else
    upd_s (fun s => s <| ds_pending_cq_qid := Z.land (ernic_get_le32 cmd RDMA_QUEUE_QID_VER_OFF) 0x00ffffff |>
                      <| ds_pending_cq_eq_id := ernic_get_le32 cmd RDMA_QUEUE_CID_OFF |>
                      <| ds_pending_cq_dma := ernic_get_le64 cmd RDMA_QUEUE_DMA_OFF |>
                      <| ds_pending_cq_depth_log2 := depth_log2 |>
                      <| ds_pending_cq_stride_log2 := cmd !!! RDMA_QUEUE_STRIDE_OFF |> <| ds_pending_cq_valid := true |>) ;;
    mret 0.

(** [alloc]: whether ionic_adminq_create() succeeds. *)
Definition handle_create_adminq (alloc : bool) (cmd : list Z) : RD Z :=
  s ← get_s id;
  if Z.of_nat MAX_AQ <=? ds_aq_count s then mret 1
  else if negb (ds_pending_cq_valid s) then mret 1
  else
    let qid := Z.land (ernic_get_le32 cmd RDMA_QUEUE_QID_VER_OFF) 0x00ffffff in
    let dma_addr := ernic_get_le64 cmd RDMA_QUEUE_DMA_OFF in
    let depth_log2 := cmd !!! RDMA_QUEUE_DEPTH_OFF in
    if IONIC_ADMINQ_MAX_DEPTH_LOG2 <? depth_log2 then mret 1
    else
      let idx := ds_aq_count s in
      let aq := RdmaAq true qid (ds_pending_cq_qid s) (ds_pending_cq_eq_id s) dma_addr (ds_pending_cq_dma s) depth_log2
                  (cmd !!! RDMA_QUEUE_STRIDE_OFF) (ds_pending_cq_depth_log2 s) (ds_pending_cq_stride_log2 s) in
      upd_s (fun s => s <| ds_aq_count := idx + 1 |> <| ds_aq ::= <[Z.to_nat idx := aq]> |> <| ds_pending_cq_valid := false |>) ;;
      let have := bool_decide (is_Some (ds_adminq_ctx s)) in
      if negb have && negb alloc then mret 1
      else
        (if have then mret tt
         else upd_s (fun s => s <| ds_adminq_ctx := Some (wire_adminq_ctx s ionic_adminq_create) |>)) ;;
        c ← get_s ds_adminq_ctx;
        let '(ok, c) := ionic_adminq_register_queue idx dma_addr depth_log2 (ds_pending_cq_dma s) (ds_pending_cq_depth_log2 s)
                          (ra_cq_id aq) (ra_eq_id aq) (default ionic_adminq_create c) in
        upd_s (fun s => s <| ds_adminq_ctx := Some c |>) ;;
        if negb ok then
          upd_s (fun s => s <| ds_aq ::= <[Z.to_nat idx := inhabitant]> |> <| ds_aq_count := idx |>) ;; mret 1
        else mret 0.

(** The completion: 16 bytes, the status first. *)
Definition ionic_rdma_devcmd_dispatch (alloc : bool) (cmd : list Z) : RD (list Z) :=
  let opcode := cmd !!! 0%nat in
  st ← (if opcode =? IONIC_CMD_RDMA_RESET_LIF then handle_rdma_reset
        else if opcode =? IONIC_CMD_RDMA_CREATE_EQ then handle_create_eq cmd
        else if opcode =? IONIC_CMD_RDMA_CREATE_CQ then handle_create_cq cmd
        else if opcode =? IONIC_CMD_RDMA_CREATE_ADMINQ then handle_create_adminq alloc cmd
        else mret 1);
  mret (bput (zeros IONIC_DEVCMD_COMP_LEN) 0 [st]).
End devcmd.
