(* ===== verification/AdmMaps.v ===== *)
(** * The admin queue's maps as relations

    A map is an array of entries, searched linearly; a valid entry gives the
    driver's name and the resource manager's handle of one object.  [map_ok n m
    hs]: no two valid entries share a name or a handle, and their handles are
    the set [hs].  Adding at a free entry, invalidating one and updating one in
    place keep it. *)
From S2P Require Export AdmPoll.

Class MapEntry (A : Type) := { en_valid : A -> bool; en_id : A -> Z; en_handle : A -> Z }.
#[export] Instance cq_map_entry : MapEntry ionic_cq_map_entry := {| en_valid := ce_valid; en_id := ce_cq_id; en_handle := ce_handle |}.
#[export] Instance qp_map_entry : MapEntry ionic_qp_map_entry := {| en_valid := qe_valid; en_id := qe_qp_id; en_handle := qe_qpn |}.
#[export] Instance srq_map_entry : MapEntry ionic_srq_map_entry := {| en_valid := se_valid; en_id := se_srq_id; en_handle := se_handle |}.

(** A map from the driver's names to handles is one to one onto the live ones. *)
Definition one_to_one (lookup : Z -> option Z) (live : gset Z) : Prop :=
  (forall h, h ∈ live <-> exists id, lookup id = Some h) /\
  (forall id id' h, lookup id = Some h -> lookup id' = Some h -> id = id').

Section maps.
Context `{MapEntry A}.
Implicit Types (m : list A) (e : A) (hs : gset Z).

Definition names m : gset Z := list_to_set (en_id <$> filter (fun e => en_valid e = true) m).
Lemma elem_of_names x m : x ∈ names m <-> exists i e, m !! i = Some e /\ en_valid e = true /\ en_id e = x.
Proof.
  unfold names. rewrite elem_of_list_to_set, list_elem_of_fmap. split.
  - intros (e & -> & [Hv Hin]%list_elem_of_filter). apply list_elem_of_lookup in Hin as [i Hi]. eauto.
  - intros (i & e & Hi & Hv & <-). exists e. split; [done|]. apply list_elem_of_filter. split; [done|]. by eapply list_elem_of_lookup_2.
Qed.

Record map_ok (n : nat) m hs : Prop := {
  mo_len : length m = n;
  mo_id i j e f : m !! i = Some e -> m !! j = Some f -> en_valid e = true -> en_valid f = true -> en_id e = en_id f -> i = j;
  mo_inj i j e f : m !! i = Some e -> m !! j = Some f -> en_valid e = true -> en_valid f = true ->
    en_handle e = en_handle f -> i = j;
  mo_img h : h ∈ hs <-> exists i e, m !! i = Some e /\ en_valid e = true /\ en_handle e = h }.

Lemma names_in m i e : m !! i = Some e -> en_valid e = true -> en_id e ∈ names m.
Proof. intros. apply elem_of_names. eauto. Qed.

(** A lookup by name. *)
Lemma find_name_Some x m i e :
  list_find (fun e => en_valid e = true /\ en_id e = x) m = Some (i, e) ->
  m !! i = Some e /\ en_valid e = true /\ en_id e = x /\ x ∈ names m.
Proof. intros (Hi & [Hv <-] & _)%list_find_Some. split_and!; try done. by eapply names_in. Qed.
Lemma find_name_None x m : list_find (fun e => en_valid e = true /\ en_id e = x) m = None -> x ∉ names m.
Proof.
  intros Hn (i & e & Hi & Hv & Hx)%elem_of_names. apply list_find_None in Hn.
  rewrite Forall_forall in Hn. apply (Hn e); [by eapply list_elem_of_lookup_2|done].
Qed.
Lemma find_free_Some m i e : list_find (fun e => en_valid e = false) m = Some (i, e) -> m !! i = Some e /\ en_valid e = false.
Proof. by intros (Hi & Hv & _)%list_find_Some. Qed.

(** What an insertion at [i] leaves of the other entries. *)
Lemma insert_lookup_inv m i j e f : (i < length m)%nat -> <[i := e]> m !! j = Some f -> j = i /\ f = e \/ j <> i /\ m !! j = Some f.
Proof.
  intros Hl Hj. destruct (decide (j = i)) as [->|Hne].
  - left. rewrite list_lookup_insert_eq in Hj by done. by simplify_eq.
  - right. by rewrite list_lookup_insert_ne in Hj.
Qed.

Lemma map_add n m hs i e0 e :
  map_ok n m hs -> m !! i = Some e0 -> en_valid e0 = false -> en_valid e = true -> en_id e ∉ names m -> en_handle e ∉ hs ->
  map_ok n (<[i := e]> m) ({[en_handle e]} ∪ hs) /\ names (<[i := e]> m) = {[en_id e]} ∪ names m.
Proof.
  intros [Hlen Hid Hinj Himg] H0 Hv0 Hv Hn Hh. pose proof (lookup_lt_Some _ _ _ H0) as Hl. split; [split|].
  - by rewrite length_insert.
  - intros j k f g Hj Hk Vf Vg Heq.
    destruct (insert_lookup_inv _ _ _ _ _ Hl Hj) as [[-> ->]|[? Hj']], (insert_lookup_inv _ _ _ _ _ Hl Hk) as [[-> ->]|[? Hk']]; [done|..].
    + destruct Hn. rewrite Heq. by eapply names_in.
    + destruct Hn. rewrite <-Heq. by eapply names_in.
    + by eapply Hid.
  - intros j k f g Hj Hk Vf Vg Heq.
    destruct (insert_lookup_inv _ _ _ _ _ Hl Hj) as [[-> ->]|[? Hj']], (insert_lookup_inv _ _ _ _ _ Hl Hk) as [[-> ->]|[? Hk']]; [done|..].
    + destruct Hh. apply Himg. exists k, g. by rewrite Heq.
    + destruct Hh. apply Himg. exists j, f. by rewrite <-Heq.
    + by eapply Hinj.
  - intros h. rewrite elem_of_union, elem_of_singleton, Himg. split.
    + intros [->|(j & f & Hj & Vf & <-)]; [exists i, e; by rewrite list_lookup_insert_eq|].
      exists j, f. rewrite list_lookup_insert_ne; [done|]. intros ->. congruence.
    + intros (j & f & Hj & Vf & <-). destruct (insert_lookup_inv _ _ _ _ _ Hl Hj) as [[-> ->]|[? Hj']]; [by left|right; eauto].
  - apply set_eq. intros x. rewrite elem_of_union, elem_of_singleton, !elem_of_names. split.
    + intros (j & f & Hj & Vf & <-). destruct (insert_lookup_inv _ _ _ _ _ Hl Hj) as [[-> ->]|[? Hj']]; [by left|right; eauto].
    + intros [->|(j & f & Hj & Vf & <-)]; [exists i, e; by rewrite list_lookup_insert_eq|].
      exists j, f. rewrite list_lookup_insert_ne; [done|]. intros ->. congruence.
Qed.

Lemma map_remove n m hs i e e' :
  map_ok n m hs -> m !! i = Some e -> en_valid e = true -> en_valid e' = false ->
  map_ok n (<[i := e']> m) (hs ∖ {[en_handle e]}) /\ names (<[i := e']> m) = names m ∖ {[en_id e]}.
Proof.
  intros [Hlen Hid Hinj Himg] He Hv Hv'. pose proof (lookup_lt_Some _ _ _ He) as Hl.
  assert (forall j f, <[i := e']> m !! j = Some f -> en_valid f = true -> j <> i /\ m !! j = Some f) as Hold.
  { intros j f Hj Vf. destruct (insert_lookup_inv _ _ _ _ _ Hl Hj) as [[-> ->]|?]; [congruence|done]. }
  split; [split|].
  - by rewrite length_insert.
  - intros j k f g Hj Hk Vf Vg Heq. apply Hold in Hj as [_ Hj], Hk as [_ Hk]; [|done..]. by eapply Hid.
  - intros j k f g Hj Hk Vf Vg Heq. apply Hold in Hj as [_ Hj], Hk as [_ Hk]; [|done..]. by eapply Hinj.
  - intros h. rewrite elem_of_difference, elem_of_singleton, Himg. split.
    + intros [(j & f & Hj & Vf & <-) Hne]. exists j, f. rewrite list_lookup_insert_ne; [done|]. intros ->. congruence.
    + intros (j & f & Hj & Vf & <-). apply Hold in Hj as [Hne Hj]; [|done]. split; [eauto|]. intros Heq. destruct Hne. by eapply Hinj.
  - apply set_eq. intros x. rewrite elem_of_difference, elem_of_singleton, !elem_of_names. split.
    + intros (j & f & Hj & Vf & <-). apply Hold in Hj as [Hne Hj]; [|done]. split; [eauto|]. intros Heq. destruct Hne. by eapply Hid.
    + intros [(j & f & Hj & Vf & <-) Hne]. exists j, f. rewrite list_lookup_insert_ne; [done|]. intros ->. congruence.
Qed.

Lemma map_change n m hs i e e' :
  map_ok n m hs -> m !! i = Some e -> en_valid e' = en_valid e -> en_id e' = en_id e -> en_handle e' = en_handle e ->
  map_ok n (<[i := e']> m) hs /\ names (<[i := e']> m) = names m.
Proof.
  intros [Hlen Hid Hinj Himg] He Hv Hi Hh. pose proof (lookup_lt_Some _ _ _ He) as Hl.
  assert (forall j f, <[i := e']> m !! j = Some f ->
    exists g, m !! j = Some g /\ en_valid g = en_valid f /\ en_id g = en_id f /\ en_handle g = en_handle f) as Hold.
  { intros j f Hj. destruct (insert_lookup_inv _ _ _ _ _ Hl Hj) as [[-> ->]|[_ ?]]; [exists e|exists f]; done. }
  assert (forall j g, m !! j = Some g ->
    exists f, <[i := e']> m !! j = Some f /\ en_valid g = en_valid f /\ en_id g = en_id f /\ en_handle g = en_handle f) as Hnew.
  { intros j g Hg. destruct (decide (j = i)) as [->|Hne].
    - exists e'. rewrite list_lookup_insert_eq by done. by simplify_eq.
    - exists g. by rewrite list_lookup_insert_ne. }
  split; [split|].
  - by rewrite length_insert.
  - intros j k f g Hj Hk Vf Vg Heq. apply Hold in Hj as (f' & ? & ? & ? & ?), Hk as (g' & ? & ? & ? & ?).
    eapply (Hid j k f' g'); congruence.
  - intros j k f g Hj Hk Vf Vg Heq. apply Hold in Hj as (f' & ? & ? & ? & ?), Hk as (g' & ? & ? & ? & ?).
    eapply (Hinj j k f' g'); congruence.
  - intros h. rewrite Himg. split.
    + intros (j & f & Hj & Vf & <-). apply Hnew in Hj as (g & ? & ? & ? & ?). exists j, g. split_and!; congruence.
    + intros (j & f & Hj & Vf & <-). apply Hold in Hj as (g & ? & ? & ? & ?). exists j, g. split_and!; congruence.
  - apply set_eq. intros x. rewrite !elem_of_names. split.
    + intros (j & f & Hj & Vf & <-). apply Hold in Hj as (g & ? & ? & ? & ?). exists j, g. split_and!; congruence.
    + intros (j & f & Hj & Vf & <-). apply Hnew in Hj as (g & ? & ? & ? & ?). exists j, g. split_and!; congruence.
Qed.

(** A walk over the map that has left nothing valid at the indices [dn]. *)
Definition walked (dn : list nat) m : Prop := forall j e, m !! j = Some e -> en_valid e = true -> j ∉ dn.
Lemma walked_nil m : walked [] m.
Proof. intros j e _ _. apply not_elem_of_nil. Qed.
Lemma walked_skip dn m i : walked dn m -> (forall e, m !! i = Some e -> en_valid e = false) -> walked (dn ++ [i]) m.
Proof.
  intros Hw Hi j e Hj Hv. rewrite not_elem_of_app, list_elem_of_singleton. split; [by eapply Hw|]. intros ->. specialize (Hi e Hj). congruence.
Qed.
Lemma walked_off dn m i e' : walked dn m -> en_valid e' = false -> walked (dn ++ [i]) (<[i := e']> m).
Proof.
  intros Hw Hv. apply walked_skip.
  - intros j e Hj Ve. destruct (decide (i < length m)%nat) as [Hl|Hge].
    + destruct (insert_lookup_inv _ _ _ _ _ Hl Hj) as [[-> ->]|[_ Hj']]; [congruence|by eapply Hw].
    + rewrite list_insert_ge in Hj by lia. by eapply Hw.
  - intros e He. apply list_lookup_insert_Some in He as [(_ & <- & _)|[? _]]; done.
Qed.
Lemma walked_all m : walked (seq 0 (length m)) m -> names m = ∅.
Proof.
  intros Hw. apply set_eq. intros x. split; [|by intros ?%not_elem_of_empty].
  intros (j & e & Hj & Ve & _)%elem_of_names. destruct (Hw j e Hj Ve). apply elem_of_seq. pose proof (lookup_lt_Some _ _ _ Hj). lia.
Qed.

(** A search by name, as a map from the names to the handles, is one to one. *)
Definition lookup_of m (x : Z) : option Z := en_handle ∘ snd <$> list_find (fun e => en_valid e = true /\ en_id e = x) m.
Lemma lookup_of_Some n m hs x h :
  map_ok n m hs -> lookup_of m x = Some h <-> exists i e, m !! i = Some e /\ en_valid e = true /\ en_id e = x /\ en_handle e = h.
Proof.
  intros Hm. unfold lookup_of. destruct (list_find _ m) as [[j f]|] eqn:Hf.
  - apply find_name_Some in Hf as (Hj & Vf & Hx & _). cbn. split; [intros [= <-]; eauto 6|]. intros (i & e & He & Ve & Hx' & <-).
    assert (j = i) as ->; [|by simplify_eq]. eapply (mo_id _ _ _ Hm); [done..|congruence].
  - apply find_name_None in Hf. split; [done|]. intros (i & e & He & Ve & <- & _). destruct Hf. by eapply names_in.
Qed.
Lemma lookup_of_is_Some n m hs x : map_ok n m hs -> is_Some (lookup_of m x) <-> x ∈ names m.
Proof.
  intros Hm. rewrite elem_of_names. unfold is_Some. setoid_rewrite (lookup_of_Some n m hs x); [|done]. naive_solver.
Qed.
Lemma lookup_of_bij n m hs : map_ok n m hs -> one_to_one (lookup_of m) hs.
Proof.
  intros Hm. split.
  - intros h. rewrite (mo_img _ _ _ Hm). setoid_rewrite (lookup_of_Some n m hs); [|done]. naive_solver.
  - intros x y h (i & e & He & Ve & <- & Hh)%(lookup_of_Some n m hs) (j & f & Hf & Vf & <- & Hh')%(lookup_of_Some n m hs); [|done..].
    assert (i = j) as ->; [|by simplify_eq]. eapply (mo_inj _ _ _ Hm); [done..|congruence].
Qed.

(** A map with nothing in it. *)
Lemma map_ok_fresh n e0 : en_valid e0 = false -> map_ok n (replicate n e0) ∅ /\ names (replicate n e0) = ∅.
Proof.
  intros He. assert (forall i e, replicate n e0 !! i = Some e -> en_valid e = true -> False) as Hno.
  { intros i e [-> _]%lookup_replicate. congruence. }
  split; [split|].
  - apply length_replicate.
  - intros i j e f Hi _ Ve. by destruct (Hno i e).
  - intros i j e f Hi _ Ve. by destruct (Hno i e).
  - intros h. split; [by intros ?%not_elem_of_empty|]. intros (i & e & Hi & Ve & _). by destruct (Hno i e).
  - apply set_eq. intros x. split; [|by intros ?%not_elem_of_empty]. intros (i & e & Hi & Ve & _)%elem_of_names. by destruct (Hno i e).
Qed.
End maps.

Section unmap.
Context `{MapEntry A} (off : A -> A).
Implicit Types m : list A.

(** The loops that invalidate by name touch the one entry that has it. *)
Lemma unmap_one n m hs x i e :
  map_ok n m hs -> m !! i = Some e -> en_valid e = true -> en_id e = x ->
  (fun e => if en_valid e && (en_id e =? x) then off e else e) <$> m = <[i := off e]> m.
Proof.
  intros Hm He Hv Hx. apply list_eq. intros j. rewrite list_lookup_fmap. destruct (decide (j = i)) as [->|Hne].
  - rewrite He, list_lookup_insert_eq by (by eapply lookup_lt_Some). cbn. by rewrite Hv, Hx, Z.eqb_refl.
  - rewrite list_lookup_insert_ne by done. destruct (m !! j) as [f|] eqn:Hf; [|done]. cbn. f_equal.
    destruct (en_valid f) eqn:Vf; [|done]. cbn. destruct (Z.eqb_spec (en_id f) x); [|done].
    destruct Hne. eapply (mo_id n m hs Hm); [done..|congruence].
Qed.
End unmap.

#[global] Arguments names : simpl never.

(** ** The MR map, indexed by slot *)
Definition mr_names (m : gmap Z ionic_mr_map_entry) : gset Z := dom (filter (fun kv => me_valid kv.2 = true) m).
Lemma elem_of_mr_names k m : k ∈ mr_names m <-> me_valid (m !!! k) = true.
Proof.
  unfold mr_names. rewrite elem_of_dom. unfold is_Some. setoid_rewrite map_lookup_filter_Some. rewrite lookup_total_alt.
  split.
  - by intros (e & -> & Hv).
  - destruct (m !! k) as [e|]; [|done]. cbn. eauto.
Qed.
Record mr_ok (m : gmap Z ionic_mr_map_entry) (hs : gset Z) : Prop := {
  ro_rng k : k ∈ mr_names m -> 0 <= k < ERNIC_MAX_MR;
  ro_inj k l : k ∈ mr_names m -> l ∈ mr_names m -> me_handle (m !!! k) = me_handle (m !!! l) -> k = l;
  ro_img h : h ∈ hs <-> exists k, k ∈ mr_names m /\ me_handle (m !!! k) = h }.

Lemma mr_ok_fresh : mr_ok ∅ ∅ /\ mr_names ∅ = ∅.
Proof.
  assert (mr_names ∅ = ∅) as Hn. { unfold mr_names. by rewrite map_filter_empty, dom_empty_L. }
  split; [|done]. split; rewrite ?Hn.
  - by intros k ?%not_elem_of_empty.
  - by intros k l ?%not_elem_of_empty.
  - intros h. split; [by intros ?%not_elem_of_empty|]. by intros (k & ?%not_elem_of_empty & _).
Qed.
Lemma mr_names_insert k e m :
  mr_names (<[k := e]> m) = if me_valid e then {[k]} ∪ mr_names m else mr_names m ∖ {[k]}.
Proof.
  apply set_eq. intros x. destruct (me_valid e) eqn:Hv; rewrite ?elem_of_union, ?elem_of_difference, elem_of_singleton, !elem_of_mr_names;
    destruct (decide (x = k)) as [->|Hne]; rewrite ?lookup_total_insert_eq, ?lookup_total_insert_ne by done; intuition congruence.
Qed.
Lemma mr_add m hs k h :
  mr_ok m hs -> 0 <= k < ERNIC_MAX_MR -> k ∉ mr_names m -> h ∉ hs -> mr_ok (<[k := MrEntry true h]> m) ({[h]} ∪ hs).
Proof.
  intros [Hr Hi Hm] Hk Hn Hh. assert (mr_names (<[k := MrEntry true h]> m) = {[k]} ∪ mr_names m) as Hnm by apply mr_names_insert.
  assert (forall l, l ∈ mr_names m -> (<[k := MrEntry true h]> m) !!! l = m !!! l) as Ho.
  { intros l Hl. apply lookup_total_insert_ne. congruence. }
  split; rewrite ?Hnm.
  - set_solver.
  - intros a b [->%elem_of_singleton|Ha]%elem_of_union [->%elem_of_singleton|Hb]%elem_of_union; [done|..].
    + rewrite lookup_total_insert_eq, Ho by done. intros Heq. destruct Hh. apply Hm. eauto.
    + rewrite lookup_total_insert_eq, Ho by done. intros Heq. destruct Hh. apply Hm. eauto.
    + rewrite !Ho by done. by apply Hi.
  - intros x. rewrite elem_of_union, elem_of_singleton, Hm. split.
    + intros [->|(l & Hl & <-)]; [exists k; rewrite lookup_total_insert_eq; set_solver|]. exists l. rewrite Ho by done. set_solver.
    + intros (l & [->%elem_of_singleton|Hl]%elem_of_union & <-); [left; by rewrite lookup_total_insert_eq|].
      right. exists l. by rewrite Ho.
Qed.
Lemma mr_remove m hs k e :
  mr_ok m hs -> k ∈ mr_names m -> me_valid e = false ->
  mr_ok (<[k := e]> m) (hs ∖ {[me_handle (m !!! k)]}).
Proof.
  intros [Hr Hi Hm] Hk He. pose proof (mr_names_insert k e m) as Hnm. rewrite He in Hnm.
  assert (forall l, l ∈ mr_names m ∖ {[k]} -> (<[k := e]> m) !!! l = m !!! l) as Ho.
  { intros l Hl. apply lookup_total_insert_ne. set_solver. }
  split; rewrite ?Hnm.
  - set_solver.
  - intros a b Ha Hb. rewrite !Ho by done. apply Hi; set_solver.
  - intros x. rewrite elem_of_difference, elem_of_singleton, Hm. split.
    + intros [(l & Hl & <-) Hne]. assert (l <> k) by congruence. exists l. rewrite Ho by set_solver. set_solver.
    + intros (l & Hl & <-). rewrite Ho by done. apply elem_of_difference in Hl as [Hl Hne%not_elem_of_singleton].
      split; [eauto|]. intros Heq. by apply Hne, Hi.
Qed.

(** ** The searches of the source *)
Section searches.
Context {E : Env}.
Implicit Types ctx : ionic_adminq_ctx.

Lemma lookup_cq_None x ctx : adminq_lookup_cq x ctx = None -> x ∉ names (ax_cq_map ctx).
Proof. unfold adminq_lookup_cq. intros H%fmap_None. exact (find_name_None x (ax_cq_map ctx) H). Qed.
Lemma lookup_cq_Some x h ctx :
  adminq_lookup_cq x ctx = Some h ->
  exists i e, ax_cq_map ctx !! i = Some e /\ ce_valid e = true /\ ce_cq_id e = x /\ ce_handle e = h /\ x ∈ names (ax_cq_map ctx).
Proof.
  unfold adminq_lookup_cq. intros ([i e] & H & ->)%fmap_Some_1. destruct (@find_name_Some _ cq_map_entry x (ax_cq_map ctx) i e H) as (? & ? & ? & ?). exists i, e. done.
Qed.
Lemma free_cq_Some i ctx : adminq_cq_free_entry ctx = Some i -> exists e, ax_cq_map ctx !! i = Some e /\ ce_valid e = false.
Proof.
  unfold adminq_cq_free_entry. intros ([j e] & H & ->)%fmap_Some_1. destruct (@find_free_Some _ cq_map_entry (ax_cq_map ctx) j e H). by exists e.
Qed.

Lemma qp_entry_None x ctx : adminq_qp_entry x ctx = None -> x ∉ names (ax_qp_map ctx).
Proof. intros H. exact (find_name_None x (ax_qp_map ctx) H). Qed.
Lemma qp_entry_Some x i e ctx :
  adminq_qp_entry x ctx = Some (i, e) -> ax_qp_map ctx !! i = Some e /\ qe_valid e = true /\ qe_qp_id e = x /\ x ∈ names (ax_qp_map ctx).
Proof. intros H. exact (@find_name_Some _ qp_map_entry x (ax_qp_map ctx) i e H). Qed.
Lemma lookup_qp_None x ctx : adminq_lookup_qp x ctx = None -> x ∉ names (ax_qp_map ctx).
Proof. intros H%fmap_None. by apply qp_entry_None. Qed.
Lemma lookup_qp_Some x h ctx :
  adminq_lookup_qp x ctx = Some h ->
  exists i e, ax_qp_map ctx !! i = Some e /\ qe_valid e = true /\ qe_qp_id e = x /\ qe_qpn e = h /\ x ∈ names (ax_qp_map ctx).
Proof. intros ([i e] & H & ->)%fmap_Some_1. apply qp_entry_Some in H as (? & ? & ? & ?). exists i, e. done. Qed.
Lemma free_qp_Some i ctx : adminq_qp_free_entry ctx = Some i -> exists e, ax_qp_map ctx !! i = Some e /\ qe_valid e = false.
Proof.
  unfold adminq_qp_free_entry. intros ([j e] & H & ->)%fmap_Some_1. destruct (@find_free_Some _ qp_map_entry (ax_qp_map ctx) j e H). by exists e.
Qed.

Lemma srq_entry_None x ctx : adminq_srq_entry x ctx = None -> x ∉ names (ax_srq_map ctx).
Proof. intros H. exact (find_name_None x (ax_srq_map ctx) H). Qed.
Lemma srq_entry_Some x i e ctx :
  adminq_srq_entry x ctx = Some (i, e) -> ax_srq_map ctx !! i = Some e /\ se_valid e = true /\ se_srq_id e = x /\ x ∈ names (ax_srq_map ctx).
Proof. intros H. exact (@find_name_Some _ srq_map_entry x (ax_srq_map ctx) i e H). Qed.
Lemma lookup_srq_None x ctx : adminq_lookup_srq x ctx = None -> x ∉ names (ax_srq_map ctx).
Proof. intros H%fmap_None. by apply srq_entry_None. Qed.
Lemma alloc_srq_Some h l id ctx ctx' :
  adminq_alloc_srq h l ctx = Some (id, ctx') ->
  exists i e, ax_srq_map ctx !! i = Some e /\ se_valid e = false /\ id = IONIC_SRQ_QID_BASE + Z.of_nat i /\
    ctx' = ctx <| ax_srq_map ::= <[i := SrqEntry true id h l]> |>.
Proof.
  unfold adminq_alloc_srq. destruct (list_find _ _) as [[i e]|] eqn:H; [|done]. intros [= <- <-].
  destruct (@find_free_Some _ srq_map_entry (ax_srq_map ctx) i e H). by exists i, e.
Qed.

Lemma unmap_cq_at n hs x i e ctx :
  map_ok n (ax_cq_map ctx) hs -> ax_cq_map ctx !! i = Some e -> ce_valid e = true -> ce_cq_id e = x ->
  adminq_unmap_cq x ctx = ctx <| ax_cq_map ::= <[i := e <| ce_valid := false |>]> |>.
Proof.
  intros Hm He Hv Hx. pose proof (@unmap_one _ cq_map_entry (fun e => e <| ce_valid := false |>) n _ hs x i e Hm He Hv Hx) as Hu.
  unfold adminq_unmap_cq, upd. by f_equal.
Qed.
Lemma unmap_qp_at n hs x i e ctx :
  map_ok n (ax_qp_map ctx) hs -> ax_qp_map ctx !! i = Some e -> qe_valid e = true -> qe_qp_id e = x ->
  adminq_unmap_qp x ctx = ctx <| ax_qp_map ::= <[i := e <| qe_valid := false |>]> |>.
Proof.
  intros Hm He Hv Hx. pose proof (@unmap_one _ qp_map_entry (fun e => e <| qe_valid := false |>) n _ hs x i e Hm He Hv Hx) as Hu.
  unfold adminq_unmap_qp, upd. by f_equal.
Qed.

Lemma unmap_srq_at n hs x i e ctx :
  map_ok n (ax_srq_map ctx) hs -> ax_srq_map ctx !! i = Some e -> se_valid e = true -> se_srq_id e = x ->
  adminq_unmap_srq x ctx = ctx <| ax_srq_map ::= <[i := e <| se_valid := false |>]> |>.
Proof.
  intros Hm He Hv Hx. unfold adminq_unmap_srq. destruct (adminq_srq_entry x ctx) as [[j f]|] eqn:Hf.
  - apply srq_entry_Some in Hf as (Hj & Vf & Hid & _). assert (j = i) as ->; [|by simplify_eq].
    eapply (mo_id _ _ _ Hm); [exact Hj|exact He|exact Vf|exact Hv|]. cbn. congruence.
  - apply srq_entry_None in Hf. destruct Hf. rewrite <-Hx. by eapply (@names_in _ srq_map_entry).
Qed.
End searches.
