(* ===== verification/AdmInv.v ===== *)
(** * The admin queue, the resource manager and the data path agree

    [adm_inv]: the names the admin queue has mapped are exactly the objects
    the data path has registered, and the handles it has mapped are exactly the
    live handles of the resource manager, one to one.  Every command keeps it,
    and does to the names what [adm_spec] says. *)
From S2P Require Export AdmMaps DpNames RdmaRmSpec.

(** ** Stepping through an operation *)
Definition wp {S A} (m : ST S A) (Q : A -> S -> Prop) (s : S) : Prop := Q (m s).1 (m s).2.
Lemma wp_bind {S A B} (m : ST S A) (k : A -> ST S B) Q s : wp m (fun a s' => wp (k a) Q s') s -> wp (m ≫= k) Q s.
Proof. unfold wp. by rewrite run_bind. Qed.
Lemma wp_mono {S A} (m : ST S A) (Q Q' : A -> S -> Prop) s : wp m Q s -> (forall a s', Q a s' -> Q' a s') -> wp m Q' s.
Proof. unfold wp. auto. Qed.
Lemma wp_ret {S A} (a : A) Q (s : S) : Q a s -> wp (mret a) Q s.
Proof. done. Qed.
Lemma wp_gets {S A} (f : S -> A) Q s : Q (f s) s -> wp (gets f) Q s.
Proof. done. Qed.

#[global] Arguments view_of : simpl never.
#[global] Arguments mr_names : simpl never.

(** ** The driver's names *)
Record adm_view := AdmView { a_cqs : gset Z; a_qps : gset Z; a_srqs : gset Z; a_mrs : gset Z }.
#[export] Instance adm_view_eta : Eta adm_view := fun r => AdmView (a_cqs r) (a_qps r) (a_srqs r) (a_mrs r).

Section inv.
Context {E : Env} {T : Targets} {TL : TargetsLaws} {P : Type} (ops : RdmaBackendOps P) `{!BackendLaws ops}.
Abbreviation bo := (Some ops).
Abbreviation ADM := (ST (adm P)).
Implicit Types (s : adm P) (c : @ionic_adminq_ctx E) (d : ionic_datapath).

Definition names_of c : adm_view :=
  AdmView (names (ax_cq_map c)) (names (ax_qp_map c)) (names (ax_srq_map c)) (mr_names (ax_mr_map c)).
Definition av s : adm_view := names_of (am_ctx s).

(** The maps against the resource manager's live handles. *)
Record maps_inv c (v : rm_view) : Prop := {
  mi_up : ax_pvrdma_handle c = true;
  mi_cq : map_ok MAX_CQ_MAP (ax_cq_map c) (v_cqs v);
  mi_qp : map_ok MAX_QP_MAP (ax_qp_map c) (v_qps v);
  mi_srq : map_ok MAX_SRQ_MAP (ax_srq_map c) (v_srqs v);
  mi_srq_at i e : ax_srq_map c !! i = Some e -> se_valid e = true -> se_srq_id e = IONIC_SRQ_QID_BASE + Z.of_nat i;
  mi_mr : mr_ok (ax_mr_map c) (v_mrs v);
  mi_pd : v_pds v = if ax_pd_valid c then {[ax_pd_handle c]} else ∅;
  mi_cq_rng x : x ∈ names (ax_cq_map c) -> 0 <= x < ERNIC_MAX_CQ;
  mi_qp_rng x : x ∈ names (ax_qp_map c) -> 0 <= x < ERNIC_MAX_QP }.

(** The data path's objects against the names. *)
Record dp_has (a : adm_view) d : Prop := {
  dh_cq i : c_valid (cq_at i d) = bool_decide (i ∈ a_cqs a);
  dh_qp i : q_valid (qp_at i d) = bool_decide (i ∈ a_qps a);
  dh_srq i : sr_valid (srq_at i d) = bool_decide (IONIC_SRQ_QID_BASE + i ∈ a_srqs a);
  dh_counts : dp_cq_count d = ERNIC_MAX_CQ /\ dp_qp_count d = ERNIC_MAX_QP /\ dp_srq_count d = ERNIC_MAX_SRQ }.

Record adm_inv s : Prop := {
  ai_rm : rm_inv ops (am_pv s);
  ai_maps : maps_inv (am_ctx s) (view_of (am_pv s));
  ai_dp : dp_has (av s) (am_dp s) }.

(** Adding to a map and taking from it. *)
Lemma maps_cq_add c v i e0 e :
  maps_inv c v -> ax_cq_map c !! i = Some e0 -> ce_valid e0 = false -> ce_valid e = true -> ce_cq_id e ∉ names (ax_cq_map c) ->
  ce_handle e ∉ v_cqs v -> 0 <= ce_cq_id e < ERNIC_MAX_CQ ->
  let c' := c <| ax_cq_map ::= <[i := e]> |> in
  maps_inv c' (v <| v_cqs ::= union {[ce_handle e]} |>) /\ names_of c' = (names_of c) <| a_cqs ::= union {[ce_cq_id e]} |>.
Proof.
  intros Hm He0 Hv0 Hv Hn Hh Hr. destruct (@map_add _ cq_map_entry _ _ _ i e0 e (mi_cq _ _ Hm) He0 Hv0 Hv Hn Hh) as [Hm' Hnm].
  split; [|unfold names_of; cbn; f_equal; exact Hnm]. destruct Hm. split; try done; cbn [ax_cq_map upd].
  intros x Hx. rewrite Hnm in Hx. apply elem_of_union in Hx as [->%elem_of_singleton|]; auto.
Qed.
Lemma maps_cq_del c v i e e' :
  maps_inv c v -> ax_cq_map c !! i = Some e -> ce_valid e = true -> ce_valid e' = false ->
  let c' := c <| ax_cq_map ::= <[i := e']> |> in
  maps_inv c' (v <| v_cqs := v_cqs v ∖ {[ce_handle e]} |>) /\
  names_of c' = (names_of c) <| a_cqs := a_cqs (names_of c) ∖ {[ce_cq_id e]} |>.
Proof.
  intros Hm He Hv Hv'. destruct (@map_remove _ cq_map_entry _ _ _ i e e' (mi_cq _ _ Hm) He Hv Hv') as [Hm' Hnm].
  split; [|unfold names_of; cbn; f_equal; exact Hnm]. destruct Hm. split; try done; cbn [ax_cq_map upd].
  intros x Hx. rewrite Hnm in Hx. apply elem_of_difference in Hx as [? _]. auto.
Qed.
Lemma maps_qp_add c v i e0 e :
  maps_inv c v -> ax_qp_map c !! i = Some e0 -> qe_valid e0 = false -> qe_valid e = true -> qe_qp_id e ∉ names (ax_qp_map c) ->
  qe_qpn e ∉ v_qps v -> 0 <= qe_qp_id e < ERNIC_MAX_QP ->
  let c' := c <| ax_qp_map ::= <[i := e]> |> in
  maps_inv c' (v <| v_qps ::= union {[qe_qpn e]} |>) /\ names_of c' = (names_of c) <| a_qps ::= union {[qe_qp_id e]} |>.
Proof.
  intros Hm He0 Hv0 Hv Hn Hh Hr. destruct (@map_add _ qp_map_entry _ _ _ i e0 e (mi_qp _ _ Hm) He0 Hv0 Hv Hn Hh) as [Hm' Hnm].
  split; [|unfold names_of; cbn; f_equal; exact Hnm]. destruct Hm. split; try done; cbn [ax_qp_map upd].
  intros x Hx. rewrite Hnm in Hx. apply elem_of_union in Hx as [->%elem_of_singleton|]; auto.
Qed.
Lemma maps_qp_del c v i e e' :
  maps_inv c v -> ax_qp_map c !! i = Some e -> qe_valid e = true -> qe_valid e' = false ->
  let c' := c <| ax_qp_map ::= <[i := e']> |> in
  maps_inv c' (v <| v_qps := v_qps v ∖ {[qe_qpn e]} |>) /\
  names_of c' = (names_of c) <| a_qps := a_qps (names_of c) ∖ {[qe_qp_id e]} |>.
Proof.
  intros Hm He Hv Hv'. destruct (@map_remove _ qp_map_entry _ _ _ i e e' (mi_qp _ _ Hm) He Hv Hv') as [Hm' Hnm].
  split; [|unfold names_of; cbn; f_equal; exact Hnm]. destruct Hm. split; try done; cbn [ax_qp_map upd].
  intros x Hx. rewrite Hnm in Hx. apply elem_of_difference in Hx as [? _]. auto.
Qed.
Lemma maps_srq_add c v i e0 e :
  maps_inv c v -> ax_srq_map c !! i = Some e0 -> se_valid e0 = false -> se_valid e = true -> se_srq_id e ∉ names (ax_srq_map c) ->
  se_handle e ∉ v_srqs v -> se_srq_id e = IONIC_SRQ_QID_BASE + Z.of_nat i ->
  let c' := c <| ax_srq_map ::= <[i := e]> |> in
  maps_inv c' (v <| v_srqs ::= union {[se_handle e]} |>) /\ names_of c' = (names_of c) <| a_srqs ::= union {[se_srq_id e]} |>.
Proof.
  intros Hm He0 Hv0 Hv Hn Hh Hr. destruct (@map_add _ srq_map_entry _ _ _ i e0 e (mi_srq _ _ Hm) He0 Hv0 Hv Hn Hh) as [Hm' Hnm].
  split; [|unfold names_of; cbn; f_equal; exact Hnm]. destruct Hm. split; try done; cbn [ax_srq_map upd].
  intros j f Hj Hf. destruct (insert_lookup_inv _ _ _ _ _ (lookup_lt_Some _ _ _ He0) Hj) as [[-> ->]|[_ ?]]; auto.
Qed.
Lemma maps_srq_del c v i e e' :
  maps_inv c v -> ax_srq_map c !! i = Some e -> se_valid e = true -> se_valid e' = false ->
  let c' := c <| ax_srq_map ::= <[i := e']> |> in
  maps_inv c' (v <| v_srqs := v_srqs v ∖ {[se_handle e]} |>) /\
  names_of c' = (names_of c) <| a_srqs := a_srqs (names_of c) ∖ {[se_srq_id e]} |>.
Proof.
  intros Hm He Hv Hv'. destruct (@map_remove _ srq_map_entry _ _ _ i e e' (mi_srq _ _ Hm) He Hv Hv') as [Hm' Hnm].
  split; [|unfold names_of; cbn; f_equal; exact Hnm]. destruct Hm. split; try done; cbn [ax_srq_map upd].
  intros j f Hj Hf. destruct (insert_lookup_inv _ _ _ _ _ (lookup_lt_Some _ _ _ He) Hj) as [[-> ->]|[_ ?]]; [congruence|auto].
Qed.
Lemma maps_qp_change c v i e e' :
  maps_inv c v -> ax_qp_map c !! i = Some e -> qe_valid e' = qe_valid e -> qe_qp_id e' = qe_qp_id e -> qe_qpn e' = qe_qpn e ->
  let c' := c <| ax_qp_map ::= <[i := e']> |> in maps_inv c' v /\ names_of c' = names_of c.
Proof.
  intros Hm He Hv Hi Hh. destruct (@map_change _ qp_map_entry _ _ _ i e e' (mi_qp _ _ Hm) He Hv Hi Hh) as [Hm' Hnm].
  split; [|unfold names_of; cbn; f_equal; exact Hnm]. destruct Hm. split; try done; cbn [ax_qp_map upd].
  intros x Hx. rewrite Hnm in Hx. auto.
Qed.
Lemma maps_srq_change c v i e e' :
  maps_inv c v -> ax_srq_map c !! i = Some e -> se_valid e' = se_valid e -> se_srq_id e' = se_srq_id e -> se_handle e' = se_handle e ->
  let c' := c <| ax_srq_map ::= <[i := e']> |> in maps_inv c' v /\ names_of c' = names_of c.
Proof.
  intros Hm He Hv Hi Hh. destruct (@map_change _ srq_map_entry _ _ _ i e e' (mi_srq _ _ Hm) He Hv Hi Hh) as [Hm' Hnm].
  split; [|unfold names_of; cbn; f_equal; exact Hnm]. destruct Hm. split; try done; cbn [ax_srq_map upd].
  intros j f Hj Hf. destruct (insert_lookup_inv _ _ _ _ _ (lookup_lt_Some _ _ _ He) Hj) as [[-> ->]|[_ ?]]; [|by auto].
  rewrite Hi. apply mi_srq_at0; [done|congruence].
Qed.
Lemma maps_mr_add c v k h :
  maps_inv c v -> 0 <= k < ERNIC_MAX_MR -> k ∉ mr_names (ax_mr_map c) -> h ∉ v_mrs v ->
  let c' := c <| ax_mr_map ::= <[k := MrEntry true h]> |> in
  maps_inv c' (v <| v_mrs ::= union {[h]} |>) /\ names_of c' = (names_of c) <| a_mrs ::= union {[k]} |>.
Proof.
  intros Hm Hk Hn Hh. pose proof (mr_add _ _ k h (mi_mr _ _ Hm) Hk Hn Hh) as Hm'.
  split; [|unfold names_of; cbn; f_equal; apply mr_names_insert]. by destruct Hm.
Qed.
Lemma maps_mr_del c v k e :
  maps_inv c v -> k ∈ mr_names (ax_mr_map c) -> me_valid e = false ->
  let c' := c <| ax_mr_map ::= <[k := e]> |> in
  maps_inv c' (v <| v_mrs := v_mrs v ∖ {[me_handle (ax_mr_map c !!! k)]} |>) /\
  names_of c' = (names_of c) <| a_mrs := a_mrs (names_of c) ∖ {[k]} |>.
Proof.
  intros Hm Hk He. pose proof (mr_remove _ _ k e (mi_mr _ _ Hm) Hk He) as Hm'. split; [by destruct Hm|].
  unfold names_of. cbn. f_equal. rewrite mr_names_insert. by rewrite He.
Qed.

(** ** Primitive steps *)
Lemma wp_ctx_gets {A} (f : @ionic_adminq_ctx E -> A) Q s : Q (f (am_ctx s)) s -> wp (ctx_gets f) Q s.
Proof. done. Qed.
Lemma wp_in_ctx f Q s :
  (forall s', am_ctx s' = f (am_ctx s) -> am_dp s' = am_dp s -> am_pv s' = am_pv s -> Q tt s') -> wp (in_ctx f) Q s.
Proof. intros H. by apply H. Qed.
Lemma wp_on_dp {A} (m : DP A) Q s :
  (forall s', am_dp s' = (m (am_dp s)).2 -> am_ctx s' = am_ctx s -> am_pv s' = am_pv s -> Q (m (am_dp s)).1 s') ->
  wp (on_dp m) Q s.
Proof. intros H. unfold wp, on_dp in *. destruct (m (am_dp s)) as [a d]. by apply H. Qed.

(** A call into the resource manager that leaves the rest alone. *)
Definition rm_did (op : rm_op) s (r : Z + Z) s' : Prop :=
  am_ctx s' = am_ctx s /\ am_dp s' = am_dp s /\ rm_inv ops (am_pv s') /\
  rm_spec op (view_of (am_pv s)) r (view_of (am_pv s')).

Lemma wp_on_rm op Q s : rm_inv ops (am_pv s) -> (forall r s', rm_did op s r s' -> Q r s') -> wp (on_rm (rm_run ops op)) Q s.
Proof.
  intros Hi HQ. pose proof (rm_step_ok ops op (am_pv s) Hi) as Hs. unfold step_ok in Hs. unfold wp, on_rm.
  destruct (rm_run ops op (am_pv s)) as [r p]. destruct Hs. by apply HQ.
Qed.
(** The same for an operation whose result the caller drops or converts. *)
Lemma wp_on_rm_map {A} (m : ST (PVRDMADev P) A) (f : A -> Z + Z) op Q s :
  rm_inv ops (am_pv s) -> (forall p, rm_run ops op p = (f (m p).1, (m p).2)) ->
  (forall a s', rm_did op s (f a) s' -> Q a s') -> wp (on_rm m) Q s.
Proof.
  intros Hi Hm HQ. pose proof (rm_step_ok ops op (am_pv s) Hi) as Hs. unfold step_ok in Hs. rewrite Hm in Hs. unfold wp, on_rm.
  destruct (m (am_pv s)) as [r p]. cbn [fst snd] in *. destruct Hs. by apply HQ.
Qed.

Lemma wp_up {A} (m n : ADM A) Q s :
  wp m Q s -> wp n Q s -> wp (up ← rm_up; if up : bool then m else n) Q s.
Proof. intros Hm Hn. apply wp_bind, wp_gets. by destruct (_ && _). Qed.
Lemma wp_handle (m : ADM unit) Q s :
  ax_pvrdma_handle (am_ctx s) = true -> wp m Q s ->
  wp (h ← ctx_gets ax_pvrdma_handle; if h : bool then m else mret tt) Q s.
Proof. intros Hh Hm. apply wp_bind, wp_ctx_gets. by rewrite Hh. Qed.

Section wrappers.
Context (s : adm P) (Hi : rm_inv ops (am_pv s)) (Hup : ax_pvrdma_handle (am_ctx s) = true).
Ltac refused := apply wp_ret; match goal with HQ : forall _ _, rm_did _ _ _ _ -> _ |- _ => apply HQ end; by split_and!.
Ltac released op := apply wp_handle; [done|]; eapply (wp_on_rm_map _ (fun _ => inr 0) op); [done|by intros p; cbn; rewrite run_bind|];
  let H := fresh in intros [] ? H; eauto.

Lemma wp_alloc_cq n Q : (forall r s', rm_did (RmAllocCq n) s r s' -> Q r s') -> wp (ernic_rm_alloc_cq bo n) Q s.
Proof. intros HQ. apply wp_up; [by apply (wp_on_rm (RmAllocCq n))|refused]. Qed.
Lemma wp_alloc_pd Q : (forall r s', rm_did RmAllocPd s r s' -> Q r s') -> wp (ernic_rm_alloc_pd bo) Q s.
Proof. intros HQ. apply wp_up; [by apply (wp_on_rm RmAllocPd)|refused]. Qed.
Lemma wp_alloc_srq a b x y Q :
  (forall r s', rm_did (RmAllocSrq a b x y) s r s' -> Q r s') -> wp (ernic_rm_alloc_srq bo a b x y) Q s.
Proof. intros HQ. apply wp_up; [by apply (wp_on_rm (RmAllocSrq a b x y))|refused]. Qed.
Lemma wp_alloc_qp a b x y Q :
  (forall r s', rm_did (RmAllocQp a b x y None) s r s' -> Q r s') -> wp (ernic_rm_alloc_qp bo a b x y) Q s.
Proof. intros HQ. apply wp_up; [by apply (wp_on_rm (RmAllocQp a b x y None))|refused]. Qed.
Lemma wp_alloc_mr a b Q :
  (forall r s', rm_did (RmAllocMr a b) s r s' -> Q r s') -> wp (ernic_rm_alloc_mr bo a b) Q s.
Proof.
  intros HQ. apply wp_up; [|refused]. apply wp_bind.
  eapply (wp_on_rm_map _ (fun r => sum_map id (fun x => x.1.1) r) (RmAllocMr a b)); [done|by intros p; cbn; rewrite run_bind|].
  intros r s' H. apply wp_ret. by apply HQ.
Qed.
Lemma wp_dealloc_cq h Q : (forall s', rm_did (RmDeallocCq h) s (inr 0) s' -> Q tt s') -> wp (ernic_rm_dealloc_cq bo h) Q s.
Proof. intros HQ. released (RmDeallocCq h). Qed.
Lemma wp_dealloc_srq h Q : (forall s', rm_did (RmDeallocSrq h) s (inr 0) s' -> Q tt s') -> wp (ernic_rm_dealloc_srq bo h) Q s.
Proof. intros HQ. released (RmDeallocSrq h). Qed.
Lemma wp_dealloc_mr h Q : (forall s', rm_did (RmDeallocMr h) s (inr 0) s' -> Q tt s') -> wp (ernic_rm_dealloc_mr bo h) Q s.
Proof. intros HQ. released (RmDeallocMr h). Qed.
Lemma wp_dealloc_qp h Q : (forall s', rm_did (RmDeallocQp h) s (inr 0) s' -> Q tt s') -> wp (ernic_rm_dealloc_qp bo h) Q s.
Proof. intros HQ. released (RmDeallocQp h). Qed.
Lemma wp_dealloc_pd h Q : (forall s', rm_did (RmDeallocPd h) s (inr 0) s' -> Q tt s') -> wp (ernic_rm_dealloc_pd h) Q s.
Proof. intros HQ. released (RmDeallocPd h). Qed.

(** Modifying and querying change no live set. *)
Definition rm_kept s s' : Prop :=
  am_ctx s' = am_ctx s /\ am_dp s' = am_dp s /\ rm_inv ops (am_pv s') /\ view_of (am_pv s') = view_of (am_pv s).
Ltac kept op f := eapply (wp_on_rm_map _ f op); [done|by intros p; cbn; rewrite run_bind|];
  let H := fresh in intros ? ? (? & ? & ? & [? _]).
Lemma rm_kept_refl : rm_kept s s.
Proof. by split_and!. Qed.
Lemma wp_modify_srq h l Q : (forall r s', rm_kept s s' -> Q r s') -> wp (ernic_rm_modify_srq bo h l) Q s.
Proof.
  intros HQ. unfold ernic_rm_modify_srq. apply wp_bind, wp_gets. destruct (_ && _); [|by apply HQ, rm_kept_refl].
  cbn [negb]. destruct (l =? 0); [by apply HQ, rm_kept_refl|]. kept (RmModifySrq h (SrqAttr 0 0 l) IBV_SRQ_LIMIT) code. by apply HQ.
Qed.
Lemma wp_query_srq h Q : (forall r s', rm_kept s s' -> Q r s') -> wp (ernic_rm_query_srq bo h) Q s.
Proof.
  intros HQ. apply wp_up; [|by apply HQ, rm_kept_refl]. kept (RmQuerySrq h) (fun r : Z * ibv_srq_attr => code r.1). by apply HQ.
Qed.
Lemma wp_modify_qp n a Q : (forall r s', rm_kept s s' -> Q r s') -> wp (ernic_rm_modify_qp bo n a) Q s.
Proof. intros HQ. apply wp_up; [|by apply HQ, rm_kept_refl]. kept (RmModifyQp n (rm_qp_mod a)) code. by apply HQ. Qed.
Lemma wp_query_qp n Q : (forall r s', rm_kept s s' -> Q r s') -> wp (ernic_rm_query_qp bo n) Q s.
Proof.
  intros HQ. apply wp_up; [|by apply HQ, rm_kept_refl]. apply wp_bind.
  kept (RmQueryQp n rm_query_mask) (fun r : Z * ibv_qp_attr => code r.1). destruct a as [ret a]. apply wp_ret. by apply HQ.
Qed.
End wrappers.

(** ** Rebuilding the invariant *)

(** The parts of the context the invariant speaks of. *)
Definition same_maps c c' : Prop :=
  ax_pvrdma_handle c' = ax_pvrdma_handle c /\ ax_cq_map c' = ax_cq_map c /\ ax_qp_map c' = ax_qp_map c /\
  ax_srq_map c' = ax_srq_map c /\ ax_mr_map c' = ax_mr_map c /\ ax_pd_valid c' = ax_pd_valid c /\ ax_pd_handle c' = ax_pd_handle c.
Lemma same_maps_refl c : same_maps c c.
Proof. by split_and!. Qed.
Lemma maps_inv_same c c' v : same_maps c c' -> maps_inv c v -> maps_inv c' v.
Proof. intros (H1 & H2 & H3 & H4 & H5 & H6 & H7) []. by split; rewrite ?H1, ?H2, ?H3, ?H4, ?H5, ?H6, ?H7. Qed.
Lemma names_of_same c c' : same_maps c c' -> names_of c' = names_of c.
Proof. intros (H1 & H2 & H3 & H4 & H5 & H6 & H7). unfold names_of. by rewrite H2, H3, H4, H5. Qed.

Lemma dp_has_same a d d' : same_names None None None d d' -> dp_has a d -> dp_has a d'.
Proof.
  intros [Hc Hq Hr Hn] [Ic Iq Ir In]. split; intros; rewrite ?Hc, ?Hq, ?Hr by done; auto.
  destruct Hn as (-> & -> & ->). done.
Qed.
(** One name of one kind may have come or gone. *)
Lemma dp_has_cq a a' x d d' :
  same_names (Some x) None None d d' -> dp_has a d -> a_qps a' = a_qps a -> a_srqs a' = a_srqs a ->
  (forall i, i <> x -> i ∈ a_cqs a' <-> i ∈ a_cqs a) -> c_valid (cq_at x d') = bool_decide (x ∈ a_cqs a') -> dp_has a' d'.
Proof.
  intros [Hc Hq Hr Hn] [Ic Iq Ir In] Eq Er Hx Hv. split; rewrite ?Eq, ?Er; intros; rewrite ?Hq, ?Hr by done; auto.
  - destruct (decide (i = x)) as [->|Hne]; [done|]. rewrite Hc, Ic by congruence. apply bool_decide_ext. by rewrite Hx.
  - destruct Hn as (-> & -> & ->). done.
Qed.
Lemma dp_has_qp a a' x d d' :
  same_names None (Some x) None d d' -> dp_has a d -> a_cqs a' = a_cqs a -> a_srqs a' = a_srqs a ->
  (forall i, i <> x -> i ∈ a_qps a' <-> i ∈ a_qps a) -> q_valid (qp_at x d') = bool_decide (x ∈ a_qps a') -> dp_has a' d'.
Proof.
  intros [Hc Hq Hr Hn] [Ic Iq Ir In] Eq Er Hx Hv. split; rewrite ?Eq, ?Er; intros; rewrite ?Hc, ?Hr by done; auto.
  - destruct (decide (i = x)) as [->|Hne]; [done|]. rewrite Hq, Iq by congruence. apply bool_decide_ext. by rewrite Hx.
  - destruct Hn as (-> & -> & ->). done.
Qed.
Lemma dp_has_srq a a' x d d' :
  same_names None None (Some x) d d' -> dp_has a d -> a_cqs a' = a_cqs a -> a_qps a' = a_qps a ->
  (forall i, i <> x -> IONIC_SRQ_QID_BASE + i ∈ a_srqs a' <-> IONIC_SRQ_QID_BASE + i ∈ a_srqs a) ->
  sr_valid (srq_at x d') = bool_decide (IONIC_SRQ_QID_BASE + x ∈ a_srqs a') -> dp_has a' d'.
Proof.
  intros [Hc Hq Hr Hn] [Ic Iq Ir In] Eq Er Hx Hv. split; rewrite ?Eq, ?Er; intros; rewrite ?Hc, ?Hq by done; auto.
  - destruct (decide (i = x)) as [->|Hne]; [done|]. rewrite Hr, Ir by congruence. apply bool_decide_ext. by rewrite Hx.
  - destruct Hn as (-> & -> & ->). done.
Qed.

Lemma adm_inv_same s s' :
  adm_inv s -> same_maps (am_ctx s) (am_ctx s') -> rm_inv ops (am_pv s') -> view_of (am_pv s') = view_of (am_pv s) ->
  same_names None None None (am_dp s) (am_dp s') -> adm_inv s' /\ av s' = av s.
Proof.
  intros [Hr Hm Hd] Hc Hr' Hv Hn. unfold av in *. rewrite (names_of_same _ _ Hc). split; [|done]. split; [done|..].
  - rewrite Hv. by eapply maps_inv_same.
  - unfold av. rewrite (names_of_same _ _ Hc). by eapply dp_has_same.
Qed.
End inv.
