(* ===== verification/AdmSpec.v ===== *)
(** * The admin commands refine operations on sets of names

    [adm_spec]: what each command does to the driver's names, given its status.
    [dispatch_ok]: every command implements it and keeps [adm_inv]. *)
From S2P Require Export AdmInv.

(** ** The contract *)

(** A command that fails changes no name. *)
Definition on_success (st : Z) (v v' : adm_view) (R : Prop) : Prop :=
  if st =? IONIC_RC_SUCCESS then R else v' = v.

Definition adm_spec (op : Z) (body : list Z) (st : Z) (v v' : adm_view) : Prop :=
  let le32 := ernic_get_le32 body in
  on_success st v v' (
    if op =? IONIC_V1_ADMIN_CREATE_CQ then
      let id := Z.land (le32 12%nat) ID_MASK in
      (id ∉ a_cqs v) /\ id < ERNIC_MAX_CQ /\ v' = v <| a_cqs ::= union {[id]} |>
    else if op =? IONIC_V1_ADMIN_CREATE_QP then
      let id := Z.land (le32 56%nat) ID_MASK in
      (id ∉ a_qps v) /\ id < ERNIC_MAX_QP /\ le32 8%nat ∈ a_cqs v /\ le32 32%nat ∈ a_cqs v /\
      (le32 40%nat <> NO_SRQ -> le32 40%nat ∈ a_srqs v) /\ v' = v <| a_qps ::= union {[id]} |>
    else if op =? IONIC_V1_ADMIN_CREATE_SRQ then
      exists id, (id ∉ a_srqs v) /\ IONIC_SRQ_QID_BASE <= id < IONIC_SRQ_QID_BASE + ERNIC_MAX_SRQ /\
        v' = v <| a_srqs ::= union {[id]} |>
    else if op =? IONIC_V1_ADMIN_CREATE_MR then
      exists slot, ionic_mr_slot (le32 20%nat) = Some slot /\ (slot ∉ a_mrs v) /\ v' = v <| a_mrs ::= union {[slot]} |>
    else if op =? IONIC_V1_ADMIN_DESTROY_CQ then v' = v <| a_cqs := a_cqs v ∖ {[le32 0%nat]} |>
    else if op =? IONIC_V1_ADMIN_DESTROY_QP then v' = v <| a_qps := a_qps v ∖ {[le32 0%nat]} |>
    else if op =? IONIC_V1_ADMIN_DESTROY_SRQ then v' = v <| a_srqs := a_srqs v ∖ {[le32 0%nat]} |>
    else if op =? IONIC_V1_ADMIN_DESTROY_MR then
      exists slot, ionic_mr_slot (le32 0%nat) = Some slot /\ slot ∈ a_mrs v /\ v' = v <| a_mrs := a_mrs v ∖ {[slot]} |>
    else
      v' = v /\
      (op = IONIC_V1_ADMIN_MODIFY_QP -> Z.land (le32 56%nat) ID_MASK ∈ a_qps v) /\
      (op = IONIC_V1_ADMIN_QUERY_QP -> Z.land (le32 28%nat) ID_MASK ∈ a_qps v) /\
      (op = IONIC_V1_ADMIN_MODIFY_SRQ \/ op = IONIC_V1_ADMIN_QUERY_SRQ -> le32 0%nat ∈ a_srqs v)).

(** Stepping through a handler: [wif H] takes a test, a failing branch is closed
    when it changes nothing. *)
Ltac wclose := lazymatch goal with |- wp (mret _) _ _ => try solve [apply wp_ret; by split] | _ => idtac end.
Ltac wif H := cbv zeta; lazymatch goal with |- wp (if ?b then _ else _) _ _ => destruct b eqn:H; wclose; bdestr end.
Ltac wget := apply wp_bind, wp_ctx_gets.

Section handlers.
Context {E : Env} {T : Targets} {TL : TargetsLaws} {P : Type} (ops : RdmaBackendOps P) `{!BackendLaws ops}.
Abbreviation bo := (Some ops).
Abbreviation ADM := (ST (adm P)).
Abbreviation adm_inv := (adm_inv ops).
Implicit Types s : adm P.

Definition does (R : Z -> adm_view -> adm_view -> Prop) (m : ADM Z) : Prop :=
  forall s, adm_inv s -> wp m (fun st s' => adm_inv s' /\ R st (av s) (av s')) s.

Lemma does_body R len need m :
  (forall v, R IONIC_RC_EINVAL v v) -> does R m -> does R (with_body len need m).
Proof.
  intros He Hm s Hi. unfold with_body. apply wp_bind, wp_ctx_gets. rewrite (mi_up _ _ (ai_maps _ _ Hi)). cbn [negb].
  destruct (_ <? _); [|by apply Hm]. by apply wp_ret.
Qed.

Lemma dp_status_fails e : (adminq_dp_status e =? IONIC_RC_SUCCESS) = false.
Proof. unfold adminq_dp_status. by repeat case_match. Qed.

(** Taking back the number just made. *)
Lemma add_remove (h : Z) (X : gset Z) : h ∉ X -> ({[h]} ∪ X) ∖ {[h]} = X.
Proof. set_solver. Qed.
Lemma remove_absent (h : Z) (X : gset Z) : h ∉ X -> X ∖ {[h]} = X.
Proof. set_solver. Qed.

(** The protection domain is made on first use. *)
Lemma wp_get_pd (Q : Z + Z -> adm P -> Prop) s :
  adm_inv s ->
  (forall r s', adm_inv s' -> av s' = av s -> am_dp s' = am_dp s -> ax_cq_map (am_ctx s') = ax_cq_map (am_ctx s) ->
    ax_qp_map (am_ctx s') = ax_qp_map (am_ctx s) -> Q r s') ->
  wp (adminq_get_pd bo) Q s.
Proof.
  intros Hi HQ. unfold adminq_get_pd. apply wp_bind, wp_ctx_gets. destruct (ax_pd_valid (am_ctx s)) eqn:Hv.
  { apply wp_bind, wp_ctx_gets, wp_ret. by apply HQ. }
  pose proof (ai_maps _ _ Hi) as Hm. apply wp_bind, (wp_alloc_pd ops); [apply Hi|].
  intros [e|h] s1 (Hc & Hd & Hr & Hs); cbn in Hs.
  { apply wp_ret. destruct (adm_inv_same ops s s1); rewrite ?Hc, ?Hd; [done|apply same_maps_refl|done..|]. apply HQ; by rewrite ?Hc. }
  destruct Hs as [_ Hs]. apply wp_bind, wp_in_ctx. intros s2 Hc2 Hd2 Hp2. apply wp_ret.
  assert (av s2 = av s) as Ha by (unfold av; by rewrite Hc2, Hc).
  apply HQ; rewrite ?Hd2, ?Hc2, ?Hc; try done. split; rewrite ?Ha, ?Hp2, ?Hd2, ?Hd; [done| |apply Hi].
  rewrite Hs, Hc2, Hc. destruct Hm. split; try done.
  change ({[h]} ∪ v_pds (view_of (am_pv s)) = {[h]}). rewrite mi_pd, Hv. by rewrite union_empty_r_L.
Qed.

(** ** Completion queues *)
Lemma unregister_cq_off x d :
  (dp_cq_count d <= x -> c_valid (cq_at x d) = false) -> c_valid (cq_at x (ionic_datapath_unregister_cq x d).2) = false.
Proof.
  intros Hf. unfold ionic_datapath_unregister_cq. rewrite run_bind, run_gets. cbn [fst snd].
  destruct (_ <=? x) eqn:Hc; bdestr; [by apply Hf|]. by rewrite cq_at_upd, decide_True.
Qed.

(** A command whose changes were all undone, or touched nothing the invariant names. *)
Lemma undone s s' :
  adm_inv s -> am_ctx s' = am_ctx s -> rm_inv ops (am_pv s') -> view_of (am_pv s') = view_of (am_pv s) ->
  same_names None None None (am_dp s) (am_dp s') -> adm_inv s' /\ av s' = av s.
Proof. intros Hi Hc Hr Hv Hn. apply (adm_inv_same ops s s'); rewrite ?Hc; done. Qed.

Lemma id_mask_nonneg x : 0 <= Z.land x ID_MASK.
Proof. apply Z.land_nonneg. by right. Qed.

Lemma cq_refused x d d' : same_names (Some x) None None d d' -> c_valid (cq_at x d') = c_valid (cq_at x d) -> same_names None None None d d'.
Proof. intros [Hc Hq Hr Hn] Hx. split; auto. intros i _. destruct (decide (i = x)) as [->|]; [done|]. apply Hc. congruence. Qed.

Lemma create_cq_ok body len :
  does (adm_spec IONIC_V1_ADMIN_CREATE_CQ body) (handle_create_cq_op bo body len).
Proof.
  apply does_body; [done|]. intros s Hi. pose proof (ai_maps _ _ Hi) as Hm. wif Hid. wif Hg. wget.
  set (id := Z.land (ernic_get_le32 body 12) ID_MASK) in *. wif Hu. apply eq_None_not_Some, lookup_cq_None in Hu.
  wget. destruct (adminq_cq_free_entry (am_ctx s)) as [i|] eqn:Hfree; wclose. apply free_cq_Some in Hfree as (e0 & He0 & Hv0).
  apply wp_bind, (wp_alloc_cq ops); [apply Hi|]. intros [e|h] s1 (Hc1 & Hd1 & Hr1 & Hs1).
  { apply wp_ret. apply undone; try done. by rewrite Hd1. }
  destruct Hs1 as [Hh Hs1]. apply wp_bind, wp_on_dp. intros s2 Hd2 Hc2 Hp2. rewrite Hd1 in *.
  pose proof (register_cq_names (cx := Some id) (qx := None) (rx := None) id (ernic_get_le32 body 0)
    (ring_desc_at body 24 20 7 4 5) eq_refl (am_dp s)) as Hn.
  pose proof (register_cq_valid id (ernic_get_le32 body 0) (ring_desc_at body 24 20 7 4 5) (am_dp s)) as Hval.
  rewrite <-Hd2 in *. destruct (dh_counts _ _ (ai_dp _ _ Hi)) as (Hcnt & _). specialize (Hval ltac:(lia)).
  wif Hret.
  - apply wp_bind, (wp_dealloc_cq ops); [by rewrite Hp2|by rewrite Hc2, Hc1; apply Hm|]. intros s3 (Hc3 & Hd3 & Hr3 & Hs3). apply wp_ret.
    cbn in Hs3. rewrite Hp2, Hs1 in Hs3. unfold adm_spec, on_success. rewrite dp_status_fails.
    apply undone; try done; [congruence| |].
    + rewrite Hs3. destruct (view_of (am_pv s)). cbn in *. by rewrite add_remove.
    + rewrite Hd3. eapply cq_refused; [done|]. rewrite Hval, (dh_cq _ _ (ai_dp _ _ Hi)). rewrite bool_decide_eq_false_2 by done. by apply Z.eqb_neq.
  - apply wp_bind, wp_in_ctx. intros s3 Hc3 Hd3 Hp3. apply wp_ret. rewrite Hc2, Hc1 in Hc3. rewrite Hp2 in Hp3.
    pose proof (id_mask_nonneg (ernic_get_le32 body 12)) as Hid0.
    destruct (maps_cq_add _ _ i e0 (AdmTypes.CqEntry true id h) Hm He0 Hv0 eq_refl Hu Hh (conj Hid0 Hid)) as [Hm' Ha].
    rewrite <-Hc3 in Hm', Ha. change (av s3 = (av s) <| a_cqs ::= union {[id]} |>) in Ha.
    rewrite Ha. split; [|by split_and!]. split; rewrite ?Hp3; [done|by rewrite Hs1|].
    rewrite Ha, Hd3. eapply dp_has_cq; [done|apply Hi|done..| |].
    + intros x Hx'. cbn. set_solver.
    + rewrite Hval, Hret. symmetry. apply bool_decide_eq_true. cbn. set_solver.
Qed.

Lemma destroy_cq_ok body len :
  does (adm_spec IONIC_V1_ADMIN_DESTROY_CQ body) (handle_destroy_cq_op bo body len).
Proof.
  apply does_body; [done|]. intros s Hi. pose proof (ai_maps _ _ Hi) as Hm. pose proof (ai_dp _ _ Hi) as Hdp. cbv zeta.
  set (id := ernic_get_le32 body 0) in *. apply wp_bind, wp_on_dp. intros s1 Hd1 Hc1 Hp1.
  pose proof (unregister_cq_names (cx := Some id) (qx := None) (rx := None) id eq_refl (am_dp s)) as Hn.
  assert (c_valid (cq_at id (am_dp s1)) = false) as Hoff.
  { rewrite Hd1. apply unregister_cq_off. intros Hge. rewrite (dh_cq _ _ Hdp). apply bool_decide_eq_false. intros Hin%(mi_cq_rng _ _ Hm).
    destruct (dh_counts _ _ Hdp) as (Hc & _). lia. }
  rewrite <-Hd1 in Hn. wget. rewrite Hc1. destruct (adminq_lookup_cq id (am_ctx s)) as [h|] eqn:Hl.
  - apply lookup_cq_Some in Hl as (i & e & He & Hv & Hx & <- & Hin).
    apply wp_bind, (wp_dealloc_cq ops); [by rewrite Hp1; apply Hi|by rewrite Hc1; apply Hm|]. intros s2 (Hc2 & Hd2 & Hr2 & Hs2).
    apply wp_bind, wp_in_ctx. intros s3 Hc3 Hd3 Hp3. apply wp_ret. rewrite Hc2, Hc1 in Hc3. cbn in Hs2. rewrite Hp1 in Hs2.
    rewrite (unmap_cq_at _ _ id i e _ (mi_cq _ _ Hm) He Hv Hx) in Hc3.
    set (e' := e <| ce_valid := false |>) in Hc3. assert (ce_valid e' = false) as Hv' by done. clearbody e'.
    destruct (maps_cq_del _ _ i e e' Hm He Hv Hv') as [Hm' Ha].
    rewrite <-Hc3 in Hm', Ha. rewrite Hx in Ha. change (av s3 = (av s) <| a_cqs := a_cqs (av s) ∖ {[id]} |>) in Ha.
    rewrite Ha. split; [|done]. split; rewrite ?Hp3; [done|by rewrite Hs2|].
    rewrite Ha, Hd3, Hd2. eapply dp_has_cq; [done..| |]; cbn.
    + set_solver.
    + rewrite Hoff. symmetry. apply bool_decide_eq_false. set_solver.
  - apply lookup_cq_None in Hl. apply wp_ret. destruct (undone s s1) as [Hi1 Ha]; rewrite ?Hp1; try done; [apply Hi| |].
    + eapply cq_refused; [done|]. rewrite Hoff, (dh_cq _ _ Hdp). symmetry. by apply bool_decide_eq_false.
    + split; [done|]. rewrite Ha. cbn. unfold av, names_of. cbn. by rewrite remove_absent.
Qed.

(** ** Queue pairs *)
Lemma unregister_qp_off x d :
  (dp_qp_count d <= x -> q_valid (qp_at x d) = false) -> q_valid (qp_at x (ionic_datapath_unregister_qp x d).2) = false.
Proof.
  intros Hf. destruct (decide (x < dp_qp_count d)) as [Hlt|Hge].
  - by destruct (unregister_qp_spec x d Hlt) as (_ & -> & _).
  - unfold ionic_datapath_unregister_qp. rewrite run_bind, run_gets. cbn [fst snd]. rewrite (proj2 (Z.leb_le _ _)) by lia.
    apply Hf. lia.
Qed.
Lemma qp_refused x d d' : same_names None (Some x) None d d' -> q_valid (qp_at x d') = q_valid (qp_at x d) -> same_names None None None d d'.
Proof. intros [Hc Hq Hr Hn] Hx. split; auto. intros i _. destruct (decide (i = x)) as [->|]; [done|]. apply Hq. congruence. Qed.

Lemma wp_adm_stat e Q s :
  (forall s', am_ctx s' = am_ctx s -> am_pv s' = am_pv s -> same_names None None None (am_dp s) (am_dp s') -> Q tt s') ->
  wp (adm_stat e) Q s.
Proof.
  intros HQ. unfold adm_stat. wget. destruct (ax_stats _); [|by apply wp_ret, HQ].
  apply wp_on_dp. intros s1 Hd Hc Hp. apply HQ; try done. rewrite Hd. done.
Qed.

Lemma create_qp_make_ok i e0 id ty sc rc srq scq rcq sq rq s :
  adm_inv s -> ax_qp_map (am_ctx s) !! i = Some e0 -> qe_valid e0 = false -> id ∉ a_qps (av s) -> 0 <= id < ERNIC_MAX_QP ->
  wp (create_qp_make bo i id ty sc rc srq scq rcq sq rq)
    (fun st s' => adm_inv s' /\ on_success st (av s) (av s') (av s' = (av s) <| a_qps ::= union {[id]} |>)) s.
Proof.
  intros Hi0 He0 Hv0 Hu Hid. unfold create_qp_make. apply wp_bind, wp_get_pd; [done|]. intros pd s0 Hi Ha0 Hd0 _ Hq0.
  rewrite <-Ha0 in *. rewrite <-Hq0 in *. clear s Hi0 Ha0 Hd0 Hq0. rename s0 into s. pose proof (ai_maps _ _ Hi) as Hm.
  destruct pd as [e|pd]; wclose.
  apply wp_bind, (wp_alloc_qp ops); [apply Hi|]. intros [e|h] s1 (Hc1 & Hd1 & Hr1 & Hs1).
  { apply wp_ret. apply undone; try done. by rewrite Hd1. }
  destruct Hs1 as [(Hh & _) Hs1]. apply wp_bind, wp_on_dp. intros s2 Hd2 Hc2 Hp2. rewrite Hd1 in *.
  pose proof (register_qp_names (cx := None) (qx := Some id) (rx := None) id ty sc sq rc rq eq_refl (am_dp s)) as Hn.
  pose proof (register_qp_valid id ty sc sq rc rq (am_dp s)) as Hval. cbn zeta in Hval.
  pose proof (dh_qp _ _ (ai_dp _ _ Hi) id) as Hold. rewrite (bool_decide_eq_false_2 _ Hu) in Hold.
  rewrite <-Hd2 in *. destruct (dh_counts _ _ (ai_dp _ _ Hi)) as (_ & Hcnt & _). specialize (Hval ltac:(lia) Hold).
  wif Hret.
  - apply wp_bind, (wp_dealloc_qp ops); [by rewrite Hp2|by rewrite Hc2, Hc1; apply Hm|]. intros s3 (Hc3 & Hd3 & Hr3 & Hs3). apply wp_ret.
    cbn in Hs3. rewrite Hp2, Hs1 in Hs3. unfold on_success. rewrite dp_status_fails.
    apply undone; try done; [congruence| |].
    + rewrite Hs3. destruct (view_of (am_pv s)). cbn in *. by rewrite add_remove.
    + rewrite Hd3. eapply qp_refused; [done|]. rewrite Hval, Hold. by apply Z.eqb_neq.
  - apply wp_bind, wp_in_ctx. intros s3 Hc3 Hd3 Hp3. rewrite Hc2, Hc1 in Hc3. rewrite Hp2 in Hp3.
    destruct (maps_qp_add _ _ i e0 (AdmTypes.QpEntry true id h false 0) Hm He0 Hv0 eq_refl Hu Hh Hid) as [Hm' Ha].
    rewrite <-Hc3 in Hm', Ha. change (av s3 = (av s) <| a_qps ::= union {[id]} |>) in Ha.
    assert (adm_inv s3) as Hi3.
    { split; rewrite ?Hp3; [done|by rewrite Hs1|]. rewrite Ha, Hd3. eapply dp_has_qp; [done|apply Hi|done..| |].
      - intros x Hx'. cbn. set_solver.
      - rewrite Hval, Hret. symmetry. apply bool_decide_eq_true. cbn. set_solver. }
    assert (forall s4, am_ctx s4 = am_ctx s3 -> am_pv s4 = am_pv s3 -> same_names None None None (am_dp s3) (am_dp s4) ->
      wp (mret IONIC_RC_SUCCESS) (fun st s' => adm_inv s' /\
        on_success st (av s) (av s') (av s' = (av s) <| a_qps ::= union {[id]} |>)) s4) as Hend.
    { intros s4 Hc4 Hp4 Hn4. apply wp_ret. rewrite <-Ha. apply (undone s3 s4); rewrite ?Hp4; try done. apply Hi3. }
    apply wp_bind. destruct (negb _); [|by apply wp_ret, Hend]. apply wp_on_dp. intros s4 Hd4 Hc4 Hp4. apply Hend; try done.
    rewrite Hd4. apply bind_qp_srq_names.
Qed.

Lemma create_qp_ok body len :
  does (adm_spec IONIC_V1_ADMIN_CREATE_QP body) (handle_create_qp_op bo body len).
Proof.
  apply does_body; [done|]. intros s Hi. pose proof (ai_maps _ _ Hi) as Hm. wif Hid. wget. wif Hu. apply eq_None_not_Some, qp_entry_None in Hu.
  wget. destruct (adminq_qp_free_entry (am_ctx s)) as [i|] eqn:Hfree; wclose. apply free_qp_Some in Hfree as (e0 & He0 & Hv0).
  wget. destruct (adminq_lookup_cq (ernic_get_le32 body 8) (am_ctx s)) as [scq|] eqn:Hsc; [|wget; wclose].
  wget. destruct (adminq_lookup_cq (ernic_get_le32 body 32) (am_ctx s)) as [rcq|] eqn:Hrc; wclose.
  apply lookup_cq_Some in Hsc as (? & ? & _ & _ & _ & _ & Hsc), Hrc as (? & ? & _ & _ & _ & _ & Hrc).
  cbv zeta. wget. wif Hsr. wif Hgeo. eapply wp_mono; [by apply (create_qp_make_ok i e0); [..|split; [apply id_mask_nonneg|]]|].
  intros st s' [Hi' Hs]. split; [done|]. unfold adm_spec, on_success in *. destruct (st =? _); [|done]. split_and!; try done.
  intros Hno. apply andb_false_iff in Hsr as [Hsr|Hsr]; bdestr; [done|].
  destruct Hsr as [[j e] He]. by apply srq_entry_Some in He as (_ & _ & _ & ?).
Qed.

Lemma destroy_qp_ok body len :
  does (adm_spec IONIC_V1_ADMIN_DESTROY_QP body) (handle_destroy_qp_op bo body len).
Proof.
  apply does_body; [done|]. intros s Hi. pose proof (ai_maps _ _ Hi) as Hm. pose proof (ai_dp _ _ Hi) as Hdp. cbv zeta.
  set (id := ernic_get_le32 body 0) in *. apply wp_bind, wp_on_dp. intros s0 Hd1 Hc0 Hp0.
  pose proof (unregister_qp_names (cx := None) (qx := Some id) (rx := None) id eq_refl (am_dp s)) as Hn.
  assert (q_valid (qp_at id (am_dp s0)) = false) as Hoff.
  { rewrite Hd1. apply unregister_qp_off. intros Hge. rewrite (dh_qp _ _ Hdp). apply bool_decide_eq_false. intros Hin%(mi_qp_rng _ _ Hm).
    destruct (dh_counts _ _ Hdp) as (_ & Hc & _). lia. }
  rewrite <-Hd1 in Hn. apply wp_bind, wp_adm_stat. intros s1 Hc1 Hp1 Hn1. rewrite Hc0 in Hc1. rewrite Hp0 in Hp1.
  rewrite <-(sn_qp _ _ _ _ _ Hn1 id) in Hoff by done.
  assert (same_names None (Some id) None (am_dp s) (am_dp s1)) as Hn2.
  { etrans; [done|]. destruct Hn1. split; auto. }
  clear Hn Hn1 Hd1 Hc0 Hp0 s0. wget. rewrite Hc1. destruct (adminq_lookup_qp id (am_ctx s)) as [h|] eqn:Hl.
  - apply lookup_qp_Some in Hl as (i & e & He & Hv & Hx & <- & Hin).
    apply wp_bind, (wp_dealloc_qp ops); [by rewrite Hp1; apply Hi|by rewrite Hc1; apply Hm|]. intros s2 (Hc2 & Hd2 & Hr2 & Hs2).
    apply wp_bind, wp_in_ctx. intros s3 Hc3 Hd3 Hp3. apply wp_ret. rewrite Hc2, Hc1 in Hc3. cbn in Hs2. rewrite Hp1 in Hs2.
    rewrite (unmap_qp_at _ _ id i e _ (mi_qp _ _ Hm) He Hv Hx) in Hc3.
    set (e' := e <| qe_valid := false |>) in Hc3. assert (qe_valid e' = false) as Hv' by done. clearbody e'.
    destruct (maps_qp_del _ _ i e e' Hm He Hv Hv') as [Hm' Ha].
    rewrite <-Hc3 in Hm', Ha. rewrite Hx in Ha. change (av s3 = (av s) <| a_qps := a_qps (av s) ∖ {[id]} |>) in Ha.
    rewrite Ha. split; [|done]. split; rewrite ?Hp3; [done|by rewrite Hs2|].
    rewrite Ha, Hd3, Hd2. eapply dp_has_qp; [done..| |]; cbn.
    + set_solver.
    + rewrite Hoff. symmetry. apply bool_decide_eq_false. set_solver.
  - apply lookup_qp_None in Hl. apply wp_ret. destruct (undone s s1) as [Hi1 Ha]; rewrite ?Hp1; try done; [apply Hi| |].
    + eapply qp_refused; [done|]. rewrite Hoff, (dh_qp _ _ Hdp). symmetry. by apply bool_decide_eq_false.
    + split; [done|]. rewrite Ha. cbn. unfold av, names_of. cbn. by rewrite remove_absent.
Qed.
End handlers.
