(* ===== verification/AdmDispatch.v ===== *)
(** * Shared receive queues and memory regions, and every command at once *)
From S2P Require Export AdmSpec.

(** * The other commands, and the dispatch *)
Create HintDb calm discriminated.
#[export] Hint Constants Opaque : calm.

Section refine.
Context {E : Env} {T : Targets} {TL : TargetsLaws} {P : Type} (ops : RdmaBackendOps P) `{!BackendLaws ops}.
Abbreviation bo := (Some ops).
Abbreviation ADM := (ST (adm P)).
Abbreviation adm_inv := (adm_inv ops).
Abbreviation does := (does ops).
Implicit Types s : adm P.

(** ** Calls that touch no name *)
Definition calm s s' : Prop := adm_inv s -> adm_inv s' /\ av s' = av s.
#[export] Instance calm_preorder : PreOrder calm.
Proof.
  split; [done|]. intros s1 s2 s3 H12 H23 H1. destruct (H12 H1) as [H2 E12]. destruct (H23 H2). split; [done|congruence].
Qed.

Lemma calm_on_dp {A} (m : DP A) : keeps (same_names None None None) m -> keeps calm (on_dp m).
Proof.
  intros Hm s Hi. apply (wp_on_dp m (fun _ s' => adm_inv s' /\ av s' = av s) s). intros s' Hd Hc Hp.
  apply (undone ops); rewrite ?Hp; try done; [apply Hi|]. rewrite Hd. apply Hm.
Qed.
Lemma calm_in_ctx (f : ionic_adminq_ctx -> ionic_adminq_ctx) : (forall c, same_maps c (f c)) -> keeps calm (in_ctx f).
Proof.
  intros Hf s Hi. apply (adm_inv_same ops s); [done|apply Hf|apply Hi|done..].
Qed.
Lemma calm_ctx_gets {A} (f : ionic_adminq_ctx -> A) : keeps calm (ctx_gets f).
Proof. by intros s Hi. Qed.
Lemma calm_stat e : keeps calm (adm_stat e).
Proof.
  intros s Hi. apply (wp_adm_stat e (fun _ s' => adm_inv s' /\ av s' = av s) s). intros s' Hc Hp Hn.
  apply (undone ops); rewrite ?Hp; try done. apply Hi.
Qed.
Lemma calm_rm {A} (m : ADM A) :
  (forall s, rm_inv ops (am_pv s) -> forall Q : A -> adm P -> Prop, (forall r s', rm_kept ops s s' -> Q r s') -> wp m Q s) ->
  keeps calm m.
Proof.
  intros Hm s Hi. apply (Hm s (ai_rm _ _ Hi) (fun _ s' => adm_inv s' /\ av s' = av s)). intros r s' (Hc & Hd & Hr & Hv).
  apply (undone ops); try done. by rewrite Hd.
Qed.
Lemma calm_query_qp n : keeps calm (ernic_rm_query_qp bo n).
Proof. apply calm_rm. intros s Hi Q. by apply wp_query_qp. Qed.
Lemma calm_modify_qp n a : keeps calm (ernic_rm_modify_qp bo n a).
Proof. apply calm_rm. intros s Hi Q. by apply wp_modify_qp. Qed.
Lemma calm_query_srq n : keeps calm (ernic_rm_query_srq bo n).
Proof. apply calm_rm. intros s Hi Q. by apply wp_query_srq. Qed.
Lemma calm_modify_srq n l : keeps calm (ernic_rm_modify_srq bo n l).
Proof. apply calm_rm. intros s Hi Q. by apply wp_modify_srq. Qed.
Lemma calm_get_pd : keeps calm (adminq_get_pd bo).
Proof. intros s Hi. by apply (wp_get_pd ops (fun _ s' => adm_inv s' /\ av s' = av s)). Qed.

Lemma does_calm R (m : ADM Z) : keeps calm m -> (forall st v, R st v v) -> does R m.
Proof. intros Hm HR s Hi. unfold wp. destruct (Hm s Hi) as [Hi' ->]. done. Qed.

End refine.
#[export] Hint Resolve calm_stat calm_query_qp calm_modify_qp calm_query_srq calm_modify_srq calm_get_pd calm_ctx_gets : calm.
Ltac calm_step :=
  first [ solve [auto 2 with calm nocore]
        | apply calm_on_dp; solve [names_auto]
        | apply calm_in_ctx; done
        | keeps_step ].
Ltac calm_auto := repeat calm_step.

Section others.
Context {E : Env} {T : Targets} {TL : TargetsLaws} {P : Type} (ops : RdmaBackendOps P) `{!BackendLaws ops}.
Abbreviation bo := (Some ops).
Abbreviation ADM := (ST (adm P)).
Abbreviation adm_inv := (adm_inv ops).
Abbreviation calm := (calm ops).
Abbreviation does := (does ops).
Implicit Types s : adm P.

(** A handler that touches no name past its lookups. *)
Lemma wp_calm (m : ADM Z) (X : Prop) s :
  keeps calm m -> adm_inv s -> X -> wp m (fun st s' => adm_inv s' /\ on_success st (av s) (av s') (av s' = av s /\ X)) s.
Proof. intros Hm Hi HX. unfold wp. destruct (Hm s Hi) as [Hi' ->]. unfold on_success. by case_match. Qed.

Lemma parse_roce_hdr_calm gpa len : keeps calm (adminq_parse_roce_hdr gpa len).
Proof. unfold adminq_parse_roce_hdr, adm_dma_read. calm_auto. Qed.
Lemma dma_write_calm gpa bs : keeps calm (adm_dma_write gpa bs).
Proof. unfold adm_dma_write. calm_auto. Qed.
Hint Resolve parse_roce_hdr_calm dma_write_calm : calm.

(** ** Queue pairs *)
Lemma adm_query_qp_ok body len : does (adm_spec IONIC_V1_ADMIN_QUERY_QP body) (handle_query_qp_op bo body len).
Proof.
  apply does_body; [done|]. intros s Hi. cbv zeta. wget. destruct (adminq_qp_entry _ _) as [[i e]|] eqn:He; wclose.
  apply qp_entry_Some in He as (_ & _ & _ & Hin). apply wp_calm; [|done|by split_and!; [|intros _|intros []]]. calm_auto.
Qed.

Lemma set_dest_entry_calm qp_id dest node :
  keeps calm (e ← ctx_gets (adminq_qp_entry qp_id);
     on_dp (ionic_datapath_set_dest qp_id dest node) ;;
     match e with
     | Some (i, e) =>
         in_ctx (fun c => c <| ax_qp_map ::= <[i := e <| qe_dest_set := true |> <| qe_dest_qp_id := dest |>]> |>)
     | None => mret tt
     end : ADM unit).
Proof.
  intros s Hi. pose proof (ai_maps _ _ Hi) as Hm.
  match goal with |- context [(?m s).2] => assert (wp m (fun _ s' => adm_inv s' /\ av s' = av s) s) as Hw; [|exact Hw] end.
  wget. apply wp_bind, wp_on_dp. intros s1 Hd Hc Hp.
  assert (dp_has (av s) (am_dp s1)) as Hdp.
  { eapply dp_has_same; [|apply Hi]. rewrite Hd. apply (set_dest_names (cx := None) (qx := None) (rx := None)). }
  destruct (adminq_qp_entry qp_id (am_ctx s)) as [[i e]|] eqn:He.
  - apply qp_entry_Some in He as (He & _). apply wp_in_ctx. intros s2 Hc2 Hd2 Hp2. rewrite Hc in Hc2.
    destruct (maps_qp_change _ _ i e (e <| qe_dest_set := true |> <| qe_dest_qp_id := dest |>) Hm He) as [Hm' Ha]; [done..|].
    rewrite <-Hc2 in Hm', Ha. split; [|done]. split; rewrite ?Hp2, ?Hp, ?Hd2; [apply Hi|done|]. unfold av. by rewrite Ha.
  - apply wp_ret. apply (undone ops s s1); rewrite ?Hp; try done; [apply Hi|]. rewrite Hd.
    apply (set_dest_names (cx := None) (qx := None) (rx := None)).
Qed.
Hint Resolve set_dest_entry_calm : calm.

Lemma modify_qp_dest_calm m g : keeps calm (modify_qp_dest m g : ADM _).
Proof. unfold modify_qp_dest. calm_auto. Qed.
Lemma modify_qp_apply_calm q m t g d : keeps calm (modify_qp_apply q m t g d : ADM _).
Proof. unfold modify_qp_apply. calm_auto. Qed.
Hint Resolve modify_qp_dest_calm modify_qp_apply_calm : calm.
Lemma adm_modify_qp_ok body len : does (adm_spec IONIC_V1_ADMIN_MODIFY_QP body) (handle_modify_qp_op bo body len).
Proof.
  apply does_body; [done|]. intros s Hi. cbv zeta. wget. destruct (adminq_lookup_qp _ _) as [n|] eqn:He; wclose.
  apply lookup_qp_Some in He as (? & ? & _ & _ & _ & _ & Hin). apply wp_calm; [|done|by split_and!; [intros _| |intros []]]. calm_auto.
Qed.

(** ** Shared receive queues *)
Lemma adm_query_srq_ok body len : does (adm_spec IONIC_V1_ADMIN_QUERY_SRQ body) (handle_query_srq_op bo body len).
Proof.
  apply does_body; [done|]. intros s Hi. cbv zeta. wget. destruct (adminq_srq_entry _ _) as [[i e]|] eqn:He; wclose.
  apply srq_entry_Some in He as (_ & _ & _ & Hin). apply wp_calm; [|done|by split_and!]. calm_auto.
Qed.
Lemma adm_modify_srq_ok body len : does (adm_spec IONIC_V1_ADMIN_MODIFY_SRQ body) (handle_modify_srq_op bo body len).
Proof.
  apply does_body; [done|]. intros s Hi. cbv zeta. wget. destruct (adminq_srq_entry _ _) as [[i e]|] eqn:He; wclose.
  apply srq_entry_Some in He as (He & _ & _ & Hin).
  apply wp_bind. eapply (wp_mono _ (fun _ s1 => am_ctx s1 = am_ctx s /\ am_dp s1 = am_dp s /\ rm_inv ops (am_pv s1) /\ view_of (am_pv s1) = view_of (am_pv s))).
  { destruct (negb _); [|by split_and!; [..|apply Hi|]]. apply (wp_modify_srq ops); [apply Hi|]. by intros r s1 (? & ? & ? & ?). }
  intros r s1 (Hc & Hd & Hr & Hv). wif Hret.
  { apply wp_ret, (undone ops); try done. by rewrite Hd. }
  apply wp_bind, wp_in_ctx. intros s2 Hc2 Hd2 Hp2. rewrite Hc in Hc2. apply wp_ret.
  destruct (maps_srq_change _ _ i e (e <| se_srq_limit := ernic_get_le16 body 4 |>) (ai_maps _ _ Hi) He) as [Hm' Ha]; [done..|].
  rewrite <-Hc2 in Hm', Ha. change (av s2 = av s) in Ha. rewrite Ha. split; [|by split_and!].
  split; rewrite ?Hp2, ?Hd2, ?Hd, ?Ha; [done|by rewrite Hv|apply Hi].
Qed.

(** ** Address handles and statistics *)
Lemma create_ah_ok body len : does (adm_spec IONIC_V1_ADMIN_CREATE_AH body) (handle_create_ah_op body len).
Proof.
  intros s Hi. apply (wp_calm _ (_ /\ _)); [|done|by split_and!; [..|intros []]]. unfold handle_create_ah_op. calm_auto.
Qed.

Lemma destroy_ah_ok body len : does (adm_spec IONIC_V1_ADMIN_DESTROY_AH body) (handle_destroy_ah_op body len).
Proof. intros s Hi. apply (wp_calm _ (_ /\ _)); [|done|by split_and!; [..|intros []]]. unfold handle_destroy_ah_op. calm_auto. Qed.

Lemma stats_vals_fault_calm : keeps calm (stats_vals_fault : ADM _).
Proof.
  intros s Hi. unfold stats_vals_fault. destruct (ionic_fault_set_get _ _) as [f|]; [|done]. destruct (ionic_fault_event f) as [fire f'].
  apply (adm_inv_same ops s); [done|done|apply Hi|done..].
Qed.
Hint Resolve stats_vals_fault_calm : calm.
Lemma stats_calm op body len : keeps calm (handle_stats_op op body len : ADM _).
Proof. unfold handle_stats_op, stats_write_hdrs, stats_write_vals. calm_auto. Qed.
End others.
#[export] Hint Resolve parse_roce_hdr_calm dma_write_calm stats_calm : calm.

Section dispatch.
Context {E : Env} {T : Targets} {TL : TargetsLaws} {P : Type} (ops : RdmaBackendOps P) `{!BackendLaws ops}.
Abbreviation bo := (Some ops).
Abbreviation ADM := (ST (adm P)).
Abbreviation adm_inv := (adm_inv ops).
Abbreviation calm := (calm ops).
Abbreviation does := (does ops).
Implicit Types s : adm P.

(** ** Shared receive queues *)
Lemma srq_refused x d d' : same_names None None (Some x) d d' -> sr_valid (srq_at x d') = sr_valid (srq_at x d) -> same_names None None None d d'.
Proof. intros [Hc Hq Hr Hn] Hx. split; auto. intros i _. destruct (decide (i = x)) as [->|]; [done|]. apply Hr. congruence. Qed.

(** Undoing an SRQ: its name and handle go, its ring in the data path with them. *)
Lemma wp_srq_unwind i e (Q : unit -> adm P -> Prop) s :
  maps_inv (am_ctx s) (view_of (am_pv s)) -> rm_inv ops (am_pv s) -> dp_srq_count (am_dp s) = ERNIC_MAX_SRQ ->
  ax_srq_map (am_ctx s) !! i = Some e -> se_valid e = true ->
  (forall s', maps_inv (am_ctx s') (view_of (am_pv s')) -> rm_inv ops (am_pv s') ->
    av s' = (av s) <| a_srqs := a_srqs (av s) ∖ {[se_srq_id e]} |> ->
    same_names None None (Some (Z.of_nat i)) (am_dp s) (am_dp s') -> sr_valid (srq_at (Z.of_nat i) (am_dp s')) = false -> Q tt s') ->
  wp (adminq_srq_unwind bo (se_srq_id e) (se_handle e)) Q s.
Proof.
  intros Hm Hr Hcnt He Hv HQ. pose proof (mi_srq_at _ _ Hm i e He Hv) as Hid. pose proof (lookup_lt_Some _ _ _ He) as Hlt.
  pose proof (mo_len _ _ _ (mi_srq _ _ Hm)) as Hlen. rewrite Hlen in Hlt. unfold MAX_SRQ_MAP in Hlt.
  unfold adminq_srq_unwind. apply wp_bind, wp_on_dp. intros s1 Hd1 Hc1 Hp1.
  assert (same_names None None (Some (Z.of_nat i)) (am_dp s) (am_dp s1)) as Hn.
  { rewrite Hd1, Hid. apply unregister_srq_names. f_equal. lia. }
  assert (sr_valid (srq_at (Z.of_nat i) (am_dp s1)) = false) as Hoff.
  { rewrite Hd1, Hid. apply unregister_srq_gone. rewrite <-Hid, <-Hd1. destruct (sn_count _ _ _ _ _ Hn) as (_ & _ & ->). lia. }
  apply wp_bind, (wp_dealloc_srq ops); [by rewrite Hp1|by rewrite Hc1; apply Hm|]. intros s2 (Hc2 & Hd2 & Hr2 & Hs2).
  apply wp_in_ctx. intros s3 Hc3 Hd3 Hp3. rewrite Hc2, Hc1 in Hc3. cbn in Hs2. rewrite Hp1 in Hs2.
  rewrite (unmap_srq_at _ _ _ i e _ (mi_srq _ _ Hm) He Hv eq_refl) in Hc3.
  set (e' := e <| se_valid := false |>) in Hc3. assert (se_valid e' = false) as Hv' by done. clearbody e'.
  destruct (maps_srq_del _ _ i e e' Hm He Hv Hv') as [Hm' Ha]. rewrite <-Hc3 in Hm', Ha.
  apply HQ; rewrite ?Hp3, ?Hd3, ?Hd2; try done. by rewrite Hs2.
Qed.

Lemma destroy_srq_ok body len :
  does (adm_spec IONIC_V1_ADMIN_DESTROY_SRQ body) (handle_destroy_srq_op bo body len).
Proof.
  apply does_body; [done|]. intros s Hi. pose proof (ai_maps _ _ Hi) as Hm. cbv zeta. wget.
  set (id := ernic_get_le32 body 0) in *. unfold adminq_lookup_srq. destruct (adminq_srq_entry id (am_ctx s)) as [[i e]|] eqn:He.
  - apply srq_entry_Some in He as (He & Hv & Hx & Hin). pose proof (mi_srq_at _ _ Hm i e He Hv) as Hid.
    apply wp_bind. cbn [fmap option_fmap option_map compose snd]. rewrite <-Hx.
    apply (wp_srq_unwind i e); [done|apply Hi|apply (dh_counts _ _ (ai_dp _ _ Hi))|done..|].
    intros s1 Hm1 Hr1 Ha Hn Hoff. apply wp_ret. split; [|cbn; by rewrite Ha, Hx]. split; [done..|].
    rewrite Ha. eapply dp_has_srq; [done|apply Hi|done..| |]; cbn; rewrite Hid.
    + intros j Hj. rewrite elem_of_difference, elem_of_singleton. naive_solver lia.
    + rewrite Hoff. symmetry. apply bool_decide_eq_false. set_solver.
  - apply srq_entry_None in He. apply wp_ret. split; [done|]. cbn. unfold av, names_of. cbn. by rewrite remove_absent.
Qed.

(** In the middle of CREATE_SRQ: the name is mapped to a live handle, and only
    the ring at its index may be new in the data path. *)
Record srq_half (s0 : adm P) i e s : Prop := {
  sh_maps : maps_inv (am_ctx s) (view_of (am_pv s));
  sh_rm : rm_inv ops (am_pv s);
  sh_entry : ax_srq_map (am_ctx s) !! i = Some e /\ se_valid e = true;
  sh_new : se_srq_id e ∉ a_srqs (av s0);
  sh_names : av s = (av s0) <| a_srqs ::= union {[se_srq_id e]} |>;
  sh_dp : same_names None None (Some (Z.of_nat i)) (am_dp s0) (am_dp s) }.

Lemma srq_undone s0 i e s (st : Z) R :
  adm_inv s0 -> srq_half s0 i e s -> (st =? IONIC_RC_SUCCESS) = false ->
  wp (adminq_srq_unwind bo (se_srq_id e) (se_handle e) ;; mret st)
    (fun st s' => adm_inv s' /\ on_success st (av s0) (av s') (R s')) s.
Proof.
  intros Hi [Hm Hr [He Hv] Hnew Hnm Hdp] Hst. pose proof (mi_srq_at _ _ Hm i e He Hv) as Hid.
  apply wp_bind, (wp_srq_unwind i e); try done.
  { destruct (sn_count _ _ _ _ _ Hdp) as (_ & _ & ->). apply (dh_counts _ _ (ai_dp _ _ Hi)). }
  intros s1 Hm1 Hr1 Ha Hn Hoff. apply wp_ret. unfold on_success. rewrite Hst.
  assert (av s1 = av s0) as Ha1.
  { rewrite Ha, Hnm. destruct (av s0). cbn in *. by rewrite add_remove. }
  split; [|done]. split; [done..|]. rewrite Ha1. eapply dp_has_same; [|apply Hi]. eapply srq_refused; [by etrans|].
  rewrite Hoff, (dh_srq _ _ (ai_dp _ _ Hi)), <-Hid. symmetry. by apply bool_decide_eq_false.
Qed.

Definition srq_made (s0 : adm P) s : Prop :=
  exists id, (id ∉ a_srqs (av s0)) /\ IONIC_SRQ_QID_BASE <= id < IONIC_SRQ_QID_BASE + ERNIC_MAX_SRQ /\
    av s = (av s0) <| a_srqs ::= union {[id]} |>.
Lemma srq_half_range s0 i e s : srq_half s0 i e s -> IONIC_SRQ_QID_BASE <= se_srq_id e < IONIC_SRQ_QID_BASE + ERNIC_MAX_SRQ.
Proof.
  intros [Hm _ [He Hv] _ _ _]. rewrite (mi_srq_at _ _ Hm i e He Hv). pose proof (lookup_lt_Some _ _ _ He) as Hlt.
  rewrite (mo_len _ _ _ (mi_srq _ _ Hm)) in Hlt. unfold MAX_SRQ_MAP in Hlt. lia.
Qed.
Lemma srq_half_whole s0 i e s :
  adm_inv s0 -> srq_half s0 i e s -> sr_valid (srq_at (Z.of_nat i) (am_dp s)) = true -> adm_inv s /\ srq_made s0 s.
Proof.
  intros Hi Hh Hv. pose proof (srq_half_range _ _ _ _ Hh) as Hrng. destruct Hh as [Hm Hr [He Hve] Hnew Hnm Hdp].
  pose proof (mi_srq_at _ _ Hm i e He Hve) as Hid. split; [|by exists (se_srq_id e)]. split; [done..|]. rewrite Hnm.
  eapply dp_has_srq; [done|apply Hi|done..| |]; cbn.
  - intros j Hj. rewrite elem_of_union, elem_of_singleton. naive_solver lia.
  - rewrite Hv, Hid. symmetry. apply bool_decide_eq_true. set_solver.
Qed.

Lemma create_srq_answer_ok s0 i e l a s :
  adm_inv s0 -> srq_half s0 i e s -> sr_valid (srq_at (Z.of_nat i) (am_dp s)) = true ->
  wp (create_srq_answer bo (se_srq_id e) (se_handle e) l a)
    (fun st s' => adm_inv s' /\ on_success st (av s0) (av s') (srq_made s0 s')) s.
Proof.
  intros Hi Hh Hv. unfold create_srq_answer. destruct (_ || _); [by eapply srq_undone|].
  apply wp_bind, wp_on_dp. intros s1 Hd Hc Hp. set (b := (dp_dma_write _ _ _).1). clearbody b.
  assert (same_names None None None (am_dp s) (am_dp s1)) as Hn.
  { rewrite Hd. names_run. }
  assert (srq_half s0 i e s1) as Hh1.
  { destruct Hh. split; unfold av in *; rewrite ?Hp, ?Hc; try done. etrans; [done|]. destruct Hn. by split; auto. }
  destruct b; [|by eapply srq_undone].
  rewrite <-(sn_srq _ _ _ _ _ Hn) in Hv by done. destruct (srq_half_whole _ _ _ _ Hi Hh1 Hv) as [Hi1 (id & ? & ? & Ha)].
  apply wp_bind, wp_in_ctx. intros s2 Hc2 Hd2 Hp2. apply wp_ret.
  destruct (adm_inv_same ops s1 s2) as [Hi2 Ha2]; rewrite ?Hc2, ?Hp2, ?Hd2; [done|done|apply Hi1|done..|].
  split; [done|]. exists id. by rewrite Ha2.
Qed.

Lemma create_srq_ok body len :
  does (adm_spec IONIC_V1_ADMIN_CREATE_SRQ body) (handle_create_srq_op bo body len).
Proof.
  apply does_body; [done|]. intros s00 Hi00. wif Hg. apply wp_bind, (wp_get_pd ops); [done|]. intros pd s Hi <- _ _ _. clear s00 Hi00.
  pose proof (ai_maps _ _ Hi) as Hm. destruct pd as [e|pd]; wclose.
  apply wp_bind, (wp_alloc_srq ops); [apply Hi|]. intros [e|h] s1 (Hc1 & Hd1 & Hr1 & Hs1).
  { apply wp_ret. apply (undone ops); try done. by rewrite Hd1. }
  destruct Hs1 as [(Hh & _) Hs1]. wget. rewrite Hc1. set (lim := ernic_get_le16 body 22).
  destruct (adminq_alloc_srq h lim (am_ctx s)) as [[id ctx]|] eqn:Hal.
  2:{ apply wp_bind, (wp_dealloc_srq ops); [done|by rewrite Hc1; apply Hm|]. intros s2 (Hc2 & Hd2 & Hr2 & Hs2). apply wp_ret.
    cbn in Hs2. rewrite Hs1 in Hs2. apply (undone ops); try done; [congruence| |by rewrite Hd2, Hd1].
    rewrite Hs2. destruct (view_of (am_pv s)). cbn in *. by rewrite add_remove. }
  apply alloc_srq_Some in Hal as (i & e0 & He0 & Hv0 & Hid & ->). set (e := AdmTypes.SrqEntry true id h lim).
  assert (id ∉ a_srqs (av s)) as Hu.
  { intros (j & f & Hj & Vf & Hf)%elem_of_names. pose proof (mi_srq_at _ _ Hm j f Hj Vf) as Hjf. cbn in Hf.
    assert (j = i) as -> by lia. cbn in Vf. congruence. }
  destruct (maps_srq_add _ _ i e0 e Hm He0 Hv0 eq_refl Hu Hh Hid) as [Hm2 Ha2].
  apply wp_bind, wp_in_ctx. intros s2 Hc2 Hd2 Hp2. rewrite <-Hc2 in Hm2, Ha2.
  apply wp_bind, wp_on_dp. intros s3 Hd3 Hc3 Hp3. rewrite Hd2, Hd1 in *. set (ring := ring_desc_at body 0 8 28 26 27) in *.
  assert (srq_half s i e s3) as Hsh.
  { split; rewrite ?Hc3, ?Hp3, ?Hp2; try done; [by rewrite Hs1|..].
    - rewrite Hc2. split; [|done]. cbn. apply list_lookup_insert_eq. by eapply lookup_lt_Some.
    - unfold av in *. by rewrite Hc3.
    - rewrite Hd3. apply register_srq_names. f_equal. lia. }
  destruct (negb _) eqn:Hret; [by apply (srq_undone s i e s3 _ (srq_made s))|]. bdestr.
  eapply (create_srq_answer_ok s i e); [done..|]. rewrite Hd3, Hid, register_srq_valid; [by rewrite <-Hid, Hret| |].
  - destruct (dh_counts _ _ (ai_dp _ _ Hi)) as (_ & _ & ->). pose proof (srq_half_range _ _ _ _ Hsh) as Hrng. cbn in Hrng. lia.
  - rewrite (dh_srq _ _ (ai_dp _ _ Hi)), <-Hid. by apply bool_decide_eq_false.
Qed.

(** ** Memory regions *)
Lemma mr_slot_range key slot : 0 <= key -> ionic_mr_slot key = Some slot -> 0 <= slot < ERNIC_MAX_MR.
Proof.
  intros Hk. unfold ionic_mr_slot. cbv zeta. pose proof (proj2 (Z.shiftr_nonneg key IONIC_MRID_INDEX_SHIFT) Hk).
  destruct (_ || _) eqn:Hb; [done|]. intros [= <-]. bdestr. lia.
Qed.

Lemma create_mr_ok body len :
  bytes_ok body -> does (adm_spec IONIC_V1_ADMIN_CREATE_MR body) (handle_create_mr_op bo body len).
Proof.
  intros Hb. apply does_body; [done|]. intros s00 Hi00. wif Hg. unfold adminq_mr_entry. set (mrid := ernic_get_le32 body 20).
  destruct (ionic_mr_slot mrid) as [slot|] eqn:Hsl; wclose. wget. wif Hfree.
  assert (slot ∉ a_mrs (av s00)) as Hu. { intros Hin%elem_of_mr_names. unfold mr_entry_at in Hfree. congruence. } clear Hfree.
  apply wp_bind, (wp_get_pd ops); [done|]. intros pd s Hi Ha _ _ _. rewrite <-Ha in *. clear s00 Hi00 Ha.
  pose proof (ai_maps _ _ Hi) as Hm. destruct pd as [e|pd]; wclose.
  apply wp_bind, (wp_alloc_mr ops); [apply Hi|]. intros [e|h] s1 (Hc1 & Hd1 & Hr1 & Hs1).
  { apply wp_ret. apply (undone ops); try done. by rewrite Hd1. }
  destruct Hs1 as [(Hh & _) Hs1]. cbv zeta. apply wp_bind.
  eapply (wp_mono _ (fun _ s2 => am_ctx s2 = am_ctx s1 /\ am_pv s2 = am_pv s1 /\ same_names None None None (am_dp s) (am_dp s2))).
  { destruct (_ =? 0).
    - apply wp_bind, wp_on_dp. intros s2 Hd2 Hc2 Hp2. apply wp_ret. split_and!; try done. rewrite Hd2, Hd1.
      names_run.
    - apply wp_on_dp. intros s2 Hd2 Hc2 Hp2. split_and!; try done. rewrite Hd2, Hd1.
      names_run. }
  intros ret s2 (Hc2 & Hp2 & Hn2). wif Hret.
  - apply wp_bind, (wp_dealloc_mr ops); [by rewrite Hp2|by rewrite Hc2, Hc1; apply Hm|]. intros s3 (Hc3 & Hd3 & Hr3 & Hs3). apply wp_ret.
    cbn in Hs3. rewrite Hp2, Hs1 in Hs3. unfold adm_spec, on_success. rewrite dp_status_fails.
    apply (undone ops); try done; [congruence| |by rewrite Hd3].
    rewrite Hs3. destruct (view_of (am_pv s)). cbn in *. by rewrite add_remove.
  - apply wp_bind, wp_in_ctx. intros s3 Hc3 Hd3 Hp3. apply wp_ret. rewrite Hc2, Hc1 in Hc3. rewrite Hp2 in Hp3.
    assert (0 <= slot < ERNIC_MAX_MR) as Hrng. { eapply mr_slot_range; [|done]. by apply get_le32_fits. }
    destruct (maps_mr_add _ _ slot h Hm Hrng Hu Hh) as [Hm' Ha]. rewrite <-Hc3 in Hm', Ha.
    change (av s3 = (av s) <| a_mrs ::= union {[slot]} |>) in Ha. split; [|by exists slot].
    split; rewrite ?Hp3; [done|by rewrite Hs1|]. rewrite Ha, Hd3. destruct (dp_has_same _ _ _ Hn2 (ai_dp _ _ Hi)). by split.
Qed.

Lemma destroy_mr_ok body len :
  does (adm_spec IONIC_V1_ADMIN_DESTROY_MR body) (handle_destroy_mr_op bo body len).
Proof.
  apply does_body; [done|]. intros s Hi. pose proof (ai_maps _ _ Hi) as Hm. cbv zeta. set (mrid := ernic_get_le32 body 0).
  apply wp_bind, wp_on_dp. intros s1 Hd1 Hc1 Hp1.
  assert (same_names None None None (am_dp s) (am_dp s1)) as Hn.
  { rewrite Hd1. names_run. }
  wget. rewrite Hc1. unfold adminq_lookup_mr, adminq_mr_entry. destruct (ionic_mr_slot mrid) as [slot|] eqn:Hsl.
  2:{ apply wp_ret, (undone ops); rewrite ?Hp1; try done. apply Hi. }
  cbn [mbind option_bind]. unfold mr_entry_at. destruct (me_valid (ax_mr_map (am_ctx s) !!! slot)) eqn:Hv.
  2:{ apply wp_ret, (undone ops); rewrite ?Hp1; try done. apply Hi. }
  apply wp_bind, (wp_dealloc_mr ops); [by rewrite Hp1; apply Hi|by rewrite Hc1; apply Hm|]. intros s2 (Hc2 & Hd2 & Hr2 & Hs2).
  apply wp_bind, wp_in_ctx. intros s3 Hc3 Hd3 Hp3. apply wp_ret. rewrite Hc2, Hc1 in Hc3. cbn in Hs2. rewrite Hp1 in Hs2.
  unfold adminq_unmap_mr, adminq_mr_entry in Hc3. rewrite Hsl in Hc3. set (e' := _ <| me_valid := false |>) in Hc3.
  assert (me_valid e' = false) as Hv' by done. clearbody e'. apply elem_of_mr_names in Hv.
  destruct (maps_mr_del _ _ slot e' Hm Hv Hv') as [Hm' Ha]. rewrite <-Hc3 in Hm', Ha.
  change (av s3 = (av s) <| a_mrs := a_mrs (av s) ∖ {[slot]} |>) in Ha. split; [|by exists slot].
  split; rewrite ?Hp3; [done|by rewrite Hs2|]. rewrite Ha, Hd3, Hd2. destruct (dp_has_same _ _ _ Hn (ai_dp _ _ Hi)). by split.
Qed.

(** ** Every command *)
Lemma spec_same op body st v :
  op ∈ [IONIC_V1_ADMIN_NOOP; IONIC_V1_ADMIN_QUERY_AH; IONIC_V1_ADMIN_STATS_HDRS; IONIC_V1_ADMIN_STATS_VALS;
        IONIC_V1_ADMIN_QP_STATS_HDRS; IONIC_V1_ADMIN_QP_STATS_VALS; IONIC_V1_ADMIN_MODIFY_DCQCN; IONIC_V1_ADMIN_DEBUG] ->
  adm_spec op body st v v.
Proof.
  intros Hop. unfold adm_spec, on_success. destruct (st =? _); [|done].
  repeat (apply elem_of_cons in Hop as [->|Hop]; [by split_and!; [..|intros []]|]). by apply not_elem_of_nil in Hop.
Qed.

Ltac command H L := destruct (_ =? _) eqn:H; [apply Z.eqb_eq in H as ->; apply L; done|apply Z.eqb_neq in H].
Ltac untouched H :=
  destruct (_ =? _) eqn:H; [apply Z.eqb_eq in H as ->; apply wp_ret; split; [done|]; apply spec_same; set_solver|apply Z.eqb_neq in H].

Lemma dispatch_ok op body len :
  bytes_ok body -> does (adm_spec op body) (ionic_adminq_dispatch_wqe bo op body len).
Proof.
  intros Hb s0 Hi0. unfold ionic_adminq_dispatch_wqe. apply wp_bind, wp_in_ctx. intros s Hc Hd Hp.
  destruct (adm_inv_same ops s0 s) as [Hi <-]; rewrite ?Hc, ?Hp, ?Hd; [done|done|apply Hi0|done..|]. clear s0 Hi0 Hc Hd Hp.
  untouched O1. command O2 (create_cq_ok ops). command O3 (create_qp_ok ops). command O4 create_srq_ok.
  command O5 (adm_modify_srq_ok ops). command O6 (adm_query_srq_ok ops). command O7 destroy_srq_ok. command O8 create_mr_ok.
  command O9 destroy_mr_ok. command O10 (destroy_cq_ok ops). command O11 (destroy_qp_ok ops). command O12 (adm_modify_qp_ok ops).
  command O13 (adm_query_qp_ok ops). command O14 (create_ah_ok ops). command O15 (destroy_ah_ok ops). untouched O16.
  destruct (_ || _) eqn:Hst.
  { destruct (stats_calm ops op body len s Hi) as [Hi' Ha]. unfold wp. rewrite Ha. split; [done|]. apply spec_same.
    rewrite !orb_true_iff, !Z.eqb_eq in Hst. destruct Hst as [[[->| ->]| ->]| ->]; repeat constructor. }
  clear Hst. destruct (_ || _) eqn:Hdd; [|by apply wp_ret]. apply wp_ret. split; [done|]. apply spec_same.
  rewrite !orb_true_iff, !Z.eqb_eq in Hdd. destruct Hdd as [->| ->]; repeat constructor.
Qed.
End dispatch.
