(* ===== verification/AdmLoop.v ===== *)
(** * Polling an admin ring

    The strides of a work request are read around the end of the ring; a poll
    takes every stride up to the producer index and keeps the rings well
    formed. *)
From S2P Require Export AdmMaps DpNames AdmDispatch.

(** * The admin rings

    [aq_ok]: the indices of a registered ring stay inside it and the
    completion queue's colour is the parity of its pass.  A command leaves the
    rings alone; the poll loop takes every stride between the consumer and the
    producer, and reads a work request's strides around the end of the ring. *)
Record aq_ok (r : ionic_aq_ring) : Prop := {
  aqo_depth : exists k, 0 <= k <= IONIC_ADMINQ_MAX_DEPTH_LOG2 /\ aq_depth r = 2 ^ k;
  aqo_cons : 0 <= aq_cons r < aq_depth r;
  aqo_prod : 0 <= aq_prod r < aq_depth r;
  aqo_cq_depth : exists k, 0 <= k <= IONIC_RING_MAX_DEPTH_LOG2 /\ aq_cq_depth r = 2 ^ k;
  aqo_cq_prod : fits 32 (aq_cq_prod r);
  aqo_color : aq_cq_color r = Z.even (aq_cq_prod r / aq_cq_depth r) }.

Section rings.
Context {E : Env}.
Implicit Types c : ionic_adminq_ctx.

Definition aqs_ok c : Prop :=
  length (ax_aq c) = MAX_AQ /\ 0 <= ax_aq_count c <= Z.of_nat MAX_AQ /\
  forall i r, ax_aq c !! i = Some r -> aq_valid r = true -> aq_ok r.

Lemma aq_depth_bounds r : aq_ok r -> 1 <= aq_depth r <= 2 ^ 16.
Proof.
  intros [(k & Hk & ->) _ _ _ _ _]. split; [pose proof (Z.pow_pos_nonneg 2 k); lia|]. apply Z.pow_le_mono_r; [lia|]. apply Hk.
Qed.

Lemma create_aqs_ok : aqs_ok ionic_adminq_create.
Proof. split_and!; [done..|]. intros i r [-> _]%lookup_replicate. done. Qed.

Lemma upd_aqs_ok c i f n :
  aqs_ok c -> 0 <= n <= Z.of_nat MAX_AQ -> (forall r, ax_aq c !! i = Some r -> aq_valid (f r) = true -> aq_ok (f r)) ->
  aqs_ok (c <| ax_aq ::= alter f i |> <| ax_aq_count := n |>).
Proof.
  intros (Hlen & Hcnt & Hok) Hn Hf. split_and!; cbn; [by rewrite length_alter|lia..|].
  intros j r. destruct (decide (j = i)) as [->|Hne].
  - rewrite list_lookup_alter_eq. destruct (ax_aq c !! i) as [r0|] eqn:Hr; [|done]. intros [= <-]. by apply Hf.
  - rewrite list_lookup_alter_ne by done. apply Hok.
Qed.

Lemma register_queue_aqs_ok i a d cd cdl ci ei c :
  0 <= d -> 0 <= cdl -> aqs_ok c -> aqs_ok (ionic_adminq_register_queue i a d cd cdl ci ei c).2.
Proof.
  intros Hd Hcd Hc. unfold ionic_adminq_register_queue. destruct (_ || _) eqn:H1; [done|]. bdestr.
  destruct (_ || _) eqn:H2; [done|]. bdestr. destruct Hc as (Hlen & Hcnt & Hok). split_and!; cbn; [by rewrite length_insert|..].
  1,2: by destruct (_ <=? i) eqn:Hi; bdestr; lia.
  intros j r Hj Hv. destruct (decide (j = Z.to_nat i)) as [->|Hne]; [|rewrite list_lookup_insert_ne in Hj by done; by eapply Hok].
  apply list_lookup_insert_Some in Hj as [(_ & <- & _)|[? _]]; [|done].
  assert (forall k, 0 <= k -> 0 < 2 ^ k) as Hp by (intros; by apply Z.pow_pos_nonneg).
  assert (forall k, 0 <= k -> Z.shiftl 1 k = 2 ^ k) as Hs by (intros; by rewrite Z.shiftl_1_l).
  pose proof (Hp d Hd). split; cbn; rewrite ?Hs by done; try lia; [by exists d|by exists cdl|done|].
  by rewrite Z.div_0_l by (pose proof (Hp cdl Hcd); lia).
Qed.

Lemma update_prod_aqs_ok i p c : aqs_ok c -> aqs_ok (ionic_adminq_update_prod i p c).
Proof.
  intros Hc. unfold ionic_adminq_update_prod. destruct (_ || _) eqn:H1; [done|]. destruct (aq_valid _) eqn:Hv; [|done].
  apply (upd_aqs_ok c (Z.to_nat i) (fun r => r <| aq_prod := p mod aq_depth r |>) (ax_aq_count c)); [done|apply Hc|].
  intros r Hr Hvr. destruct Hc as (_ & _ & Hok). pose proof (Hok _ _ Hr Hvr) as Ho. pose proof (aq_depth_bounds _ Ho).
  destruct Ho. split; try done. cbn. apply Z.mod_pos_bound. lia.
Qed.
End rings.

(** The colour's phase, across the end of the queue and of the counter. *)
Lemma phase_step k p :
  0 <= k <= IONIC_RING_MAX_DEPTH_LOG2 -> fits 32 p ->
  let p' := u32 (p + 1) in
  Z.even (p' / 2 ^ k) = if p' mod 2 ^ k =? 0 then negb (Z.even (p / 2 ^ k)) else Z.even (p / 2 ^ k).
Proof.
  intros Hk Hp. cbv zeta. unfold fits in Hp. unfold IONIC_RING_MAX_DEPTH_LOG2 in Hk. assert (0 < 2 ^ k) as HD by (apply Z.pow_pos_nonneg; lia).
  destruct (decide (p + 1 = 2 ^ 32)) as [He|Hne].
  - rewrite He. change (u32 (2 ^ 32)) with 0. rewrite Z.mod_0_l, Z.div_0_l by lia. cbn.
    assert (p / 2 ^ k = 2 * 2 ^ (31 - k) - 1) as ->; [|by rewrite Z.even_sub, Z.even_mul].
    symmetry. apply (Z.div_unique _ _ _ (2 ^ k - 1)); [left; lia|].
    assert (2 ^ 32 = 2 ^ k * (2 * 2 ^ (31 - k))); [|lia]. rewrite <-Z.pow_succ_r by lia. rewrite <-Z.pow_add_r by lia. f_equal. lia.
  - assert (u32 (p + 1) = p + 1) as -> by (apply wrap_id; unfold fits; lia).
    destruct (_ =? 0) eqn:Hm; bdestr.
    + assert (p / 2 ^ k = (p + 1) / 2 ^ k - 1) as ->; [|by rewrite Z.even_sub; destruct (Z.even _)].
      symmetry. apply (Z.div_unique _ _ _ (2 ^ k - 1)); [left; lia|].
      pose proof (Z.div_mod (p + 1) (2 ^ k) ltac:(lia)) as Hdm. rewrite Hm in Hdm. generalize dependent ((p + 1) / 2 ^ k). intros. nia.
    + f_equal. apply (Z.div_unique _ _ _ ((p + 1) mod 2 ^ k - 1)); cycle 1.
      { pose proof (Z.div_mod (p + 1) (2 ^ k) ltac:(lia)) as Hdm. lia. }
      left. pose proof (Z.mod_pos_bound (p + 1) (2 ^ k) HD). lia.
Qed.

(** ** A command leaves the rings alone *)
Section aq_same.
Context {E : Env} {T : Targets} {P : Type} (bo : option (RdmaBackendOps P)).
Abbreviation ADM := (ST (adm P)).

Definition rings_of (s : adm P) := (ax_aq (am_ctx s), ax_aq_count (am_ctx s)).
Abbreviation R := (same rings_of).

Lemma on_dp_rings {A} (m : DP A) : keeps R (on_dp m : ADM A).
Proof. intros s. unfold on_dp. by destruct (m (am_dp s)). Qed.
Lemma on_rm_rings {A} (m : ST (PVRDMADev P) A) : keeps R (on_rm m : ADM A).
Proof. intros s. unfold on_rm. by destruct (m (am_pv s)). Qed.
Lemma ctx_gets_rings {A} (f : ionic_adminq_ctx -> A) : keeps R (ctx_gets f : ADM A).
Proof. done. Qed.
Lemma in_ctx_rings (f : ionic_adminq_ctx -> ionic_adminq_ctx) :
  (forall c, ax_aq (f c) = ax_aq c /\ ax_aq_count (f c) = ax_aq_count c) -> keeps R (in_ctx f : ADM unit).
Proof. intros Hf s. destruct (Hf (am_ctx s)) as [H1 H2]. unfold same, rings_of. cbn. by rewrite H1, H2. Qed.
Lemma rm_up_rings : keeps R (rm_up : ADM bool).
Proof. done. Qed.
End aq_same.

Create HintDb rings discriminated.
#[export] Hint Constants Opaque : rings.
#[export] Hint Resolve on_dp_rings on_rm_rings ctx_gets_rings rm_up_rings : rings.
Ltac rings_step :=
  first [ solve [auto 2 with rings nocore]
        | apply in_ctx_rings; intros ?; repeat case_match; done
        | keeps_step ].
Ltac rings_auto := repeat rings_step.

Section dispatch_rings.
Context {E : Env} {T : Targets} {P : Type} (bo : option (RdmaBackendOps P)).
Abbreviation ADM := (ST (adm P)).
Abbreviation R := (same (@rings_of E P)).
Ltac go f := unfold f; rings_auto.

Lemma stat_rings e : keeps R (adm_stat e : ADM _).
Proof. go (@adm_stat). Qed.
Lemma dma_read_rings a n : keeps R (adm_dma_read a n : ADM _).
Proof. go (@adm_dma_read). Qed.
Lemma dma_write_rings a bs : keeps R (adm_dma_write a bs : ADM _).
Proof. go (@adm_dma_write). Qed.
Hint Resolve stat_rings dma_read_rings dma_write_rings : rings.
Lemma get_pd_rings : keeps R (adminq_get_pd bo : ADM _).
Proof. unfold adminq_get_pd, ernic_rm_alloc_pd. rings_auto. Qed.
Lemma parse_rings a n : keeps R (adminq_parse_roce_hdr a n : ADM _).
Proof. go (@adminq_parse_roce_hdr). Qed.
Lemma unwind_rings a b : keeps R (adminq_srq_unwind bo a b : ADM _).
Proof. unfold adminq_srq_unwind, ernic_rm_dealloc_srq, adminq_unmap_srq. rings_auto. Qed.
Hint Resolve get_pd_rings parse_rings unwind_rings : rings.

Lemma create_cq_rings body len : keeps R (handle_create_cq_op bo body len).
Proof. unfold handle_create_cq_op, with_body, ernic_rm_alloc_cq, ernic_rm_dealloc_cq. rings_auto. Qed.
Lemma destroy_cq_rings body len : keeps R (handle_destroy_cq_op bo body len).
Proof. unfold handle_destroy_cq_op, with_body, ernic_rm_dealloc_cq. rings_auto. Qed.
Lemma alloc_srq_rings {A} h l (k0 : ADM A) (k : Z -> ADM A) :
  keeps R k0 -> (forall id, keeps R (k id)) ->
  keeps R (a ← ctx_gets (adminq_alloc_srq h l);
           match a with None => k0 | Some (id, ctx) => in_ctx (fun _ => ctx) ;; k id end).
Proof.
  intros H0 Hk s. unfold ctx_gets. rewrite run_bind, run_gets. cbn [fst snd].
  destruct (adminq_alloc_srq h l (am_ctx s)) as [[id c]|] eqn:Ha; [|by apply H0].
  apply alloc_srq_Some in Ha as (i & e & _ & _ & _ & ->). rewrite run_bind. etrans; [|apply Hk]. done.
Qed.
Lemma create_srq_rings body len : keeps R (handle_create_srq_op bo body len).
Proof.
  unfold handle_create_srq_op, with_body, ernic_rm_alloc_srq, ernic_rm_dealloc_srq, create_srq_answer.
  repeat lazymatch goal with
  | |- keeps _ (ctx_gets (adminq_alloc_srq _ _) ≫= _) => apply alloc_srq_rings; [|intros ?]
  | _ => rings_step
  end.
Qed.
Lemma modify_srq_rings body len : keeps R (handle_modify_srq_op bo body len).
Proof. unfold handle_modify_srq_op, with_body, ernic_rm_modify_srq. rings_auto. Qed.
Lemma query_srq_rings body len : keeps R (handle_query_srq_op bo body len).
Proof. unfold handle_query_srq_op, with_body, ernic_rm_query_srq. rings_auto. Qed.
Lemma destroy_srq_rings body len : keeps R (handle_destroy_srq_op bo body len).
Proof. unfold handle_destroy_srq_op, with_body. rings_auto. Qed.
Lemma create_qp_rings body len : keeps R (handle_create_qp_op bo body len).
Proof. unfold handle_create_qp_op, with_body, create_qp_make, ernic_rm_alloc_qp, ernic_rm_dealloc_qp. rings_auto. Qed.
Lemma destroy_qp_rings body len : keeps R (handle_destroy_qp_op bo body len).
Proof. unfold handle_destroy_qp_op, with_body, ernic_rm_dealloc_qp. rings_auto. Qed.
Lemma modify_qp_rings body len : keeps R (handle_modify_qp_op bo body len).
Proof. unfold handle_modify_qp_op, with_body, modify_qp_dest, modify_qp_apply, ernic_rm_modify_qp. rings_auto. Qed.
Lemma query_qp_rings body len : keeps R (handle_query_qp_op bo body len).
Proof. unfold handle_query_qp_op, with_body, ernic_rm_query_qp. rings_auto. Qed.
Lemma create_mr_rings body len : keeps R (handle_create_mr_op bo body len).
Proof. unfold handle_create_mr_op, with_body, ernic_rm_alloc_mr, ernic_rm_dealloc_mr. rings_auto. Qed.
Lemma destroy_mr_rings body len : keeps R (handle_destroy_mr_op bo body len).
Proof. unfold handle_destroy_mr_op, with_body, ernic_rm_dealloc_mr, adminq_unmap_mr. rings_auto. Qed.
Lemma create_ah_rings body len : keeps R (handle_create_ah_op body len : ADM _).
Proof. unfold handle_create_ah_op. rings_auto. Qed.
Lemma destroy_ah_rings body len : keeps R (handle_destroy_ah_op body len : ADM _).
Proof. unfold handle_destroy_ah_op. rings_auto. Qed.
Lemma stats_fault_rings : keeps R (stats_vals_fault : ADM _).
Proof. intros s. unfold stats_vals_fault. repeat case_match; done. Qed.
Hint Resolve stats_fault_rings create_cq_rings destroy_cq_rings create_srq_rings modify_srq_rings query_srq_rings
  destroy_srq_rings create_qp_rings destroy_qp_rings modify_qp_rings query_qp_rings create_mr_rings destroy_mr_rings
  create_ah_rings destroy_ah_rings : rings.
Lemma stats_rings op body len : keeps R (handle_stats_op op body len : ADM _).
Proof. unfold handle_stats_op, stats_write_hdrs, stats_write_vals. rings_auto. Qed.
Hint Resolve stats_rings : rings.

Lemma dispatch_rings op body len : keeps R (ionic_adminq_dispatch_wqe bo op body len).
Proof. unfold ionic_adminq_dispatch_wqe. rings_auto. Qed.
End dispatch_rings.
#[export] Hint Resolve stat_rings dma_read_rings dma_write_rings dispatch_rings : rings.

(** The bytes of one stride, by its index counted around the ring. *)
Definition stride_at `{GuestMem M} (m : M) (r : ionic_aq_ring) (i : Z) : list Z :=
  peekn m (u64 (aq_dma r + (i mod aq_depth r) * ADMIN_WQE_STRIDE)) ADMIN_WQE_STRIDE.
Definition strides_from `{GuestMem M} (m : M) (r : ionic_aq_ring) (i n : Z) : list Z :=
  mjoin (stride_at m r <$> seqZ i n).

Section tail.
Context {E : Env} {T : Targets} {P : Type} {ML : GuestMemLaws Mem}.
Abbreviation ADM := (ST (adm P)).

Lemma peekn_app {M} `{GuestMem M} (m : M) a n k : 0 <= n -> 0 <= k -> peekn m a (n + k) = peekn m a n ++ peekn m (a + n) k.
Proof. intros. unfold peekn. by rewrite seqZ_app, fmap_app by lia. Qed.

(** A run of strides that does not pass the end is one read. *)
Lemma run_strides m r next (n : nat) a :
  1 <= aq_depth r -> 0 <= next -> next + Z.of_nat n <= aq_depth r -> a = u64 (aq_dma r + next * ADMIN_WQE_STRIDE) ->
  a + Z.of_nat n * ADMIN_WQE_STRIDE < 2 ^ 64 ->
  peekn m a (Z.of_nat n * ADMIN_WQE_STRIDE) = strides_from m r next (Z.of_nat n).
Proof.
  intros Hd Hn Hle Ha Hend. unfold ADMIN_WQE_STRIDE in *. revert next a Hn Hle Ha Hend. induction n as [|n IH]; intros; [done|].
  assert (fits 64 a) as [Ha0 _] by (rewrite Ha; apply wrap_fits; lia).
  replace (Z.of_nat (S n) * 64) with (64 + Z.of_nat n * 64) by lia. rewrite peekn_app by lia.
  unfold strides_from. rewrite Nat2Z.inj_succ, seqZ_cons by lia. cbn [fmap list_fmap mjoin list_join]. f_equal.
  - unfold stride_at, ADMIN_WQE_STRIDE. rewrite Z.mod_small by lia. by rewrite <-Ha.
  - rewrite Z.pred_succ. apply IH; try lia.
    replace (aq_dma r + Z.succ next * 64) with (aq_dma r + next * 64 + 64) by lia. unfold wrap in *.
    assert ((aq_dma r + next * 64 + 64) mod 2 ^ 64 = (a + 64) mod 2 ^ 64) as ->.
    { rewrite Ha. symmetry. apply Z.add_mod_idemp_l. lia. }
    rewrite Z.mod_small; lia.
Qed.

Lemma strides_app m r i n k : 0 <= n -> 0 <= k -> strides_from m r i (n + k) = strides_from m r i n ++ strides_from m r (i + n) k.
Proof. intros. unfold strides_from. by rewrite seqZ_app, fmap_app, join_app by lia. Qed.
Lemma strides_wrap m r i n : 1 <= aq_depth r -> strides_from m r (i mod aq_depth r) n = strides_from m r i n.
Proof.
  intros Hd. unfold strides_from. f_equal. apply list_eq. intros j. rewrite !list_lookup_fmap.
  destruct (decide (Z.of_nat j < n)).
  - rewrite !lookup_seqZ_lt by lia. cbn. unfold stride_at. do 4 f_equal. by rewrite Z.add_mod_idemp_l by lia.
  - by rewrite !lookup_seqZ_ge by lia.
Qed.

Lemma adm_dma_read_run a n (s : adm P) : adm_dma_read a n s = (dma_read (dp_mem (am_dp s)) a n, s).
Proof. by destruct s. Qed.

Lemma read_tail_state fuel r next left (s : adm P) : (read_tail_loop fuel r next left s).2 = s.
Proof.
  revert next left. induction fuel as [|fuel IH]; intros next left; [done|]. cbn [read_tail_loop]. destruct (left <=? 0); [done|].
  cbv zeta. rewrite run_bind, adm_dma_read_run. cbn [fst snd]. destruct (dma_read _ _ _); [|done]. rewrite run_bind. apply IH.
Qed.

(** The fuel is enough: every read takes a stride. *)
Lemma read_tail_exact fuel r next left (s : adm P) bs s' :
  1 <= aq_depth r <= 2 ^ 16 -> 0 <= next < aq_depth r -> 0 <= left <= 2 ^ 16 -> left <= Z.of_nat fuel ->
  read_tail_loop fuel r next left s = (Some bs, s') ->
  bs = strides_from (dp_mem (am_dp s)) r next left /\ s' = s.
Proof.
  intros Hd. revert next left bs s'. induction fuel as [|fuel IH]; intros next left bs s' Hn Hl Hf.
  { replace left with 0 by lia. cbn. by intros [= <- <-]. }
  cbn [read_tail_loop]. destruct (left <=? 0) eqn:H0; bdestr.
  { replace left with 0 by lia. cbn. by intros [= <- <-]. }
  cbv zeta. set (run := Z.min (aq_depth r - next) left). 
  assert (1 <= run <= left /\ next + run <= aq_depth r /\ (left = run \/ next + run = aq_depth r)) as (Hr & Hend & Hcase) by lia. clearbody run.
  set (a := u64 (aq_dma r + next * ADMIN_WQE_STRIDE)). rewrite run_bind, adm_dma_read_run.
  cbn [fst snd]. destruct (dma_read _ a _) as [d|] eqn:Hread; [|done].
  assert (fits 64 a) as Ha by (apply wrap_fits; lia).
  apply dma_read_spec in Hread as [-> Hlim]; [|done|unfold ADMIN_WQE_STRIDE; lia].
  replace run with (Z.of_nat (Z.to_nat run)) in Hlim |- * by lia.
  rewrite (run_strides _ r next) by (unfold ADMIN_WQE_STRIDE in *; lia || done). rewrite run_bind, Z2Nat.id by lia.
  destruct (read_tail_loop fuel r 0 (left - run) s) as [[rest|] s1] eqn:Hrest; [|done]. cbn. intros [= <- <-].
  apply IH in Hrest as [-> ->]; [|lia..]. split; [|done].
  replace left with (run + (left - run)) at 2 by lia. rewrite strides_app by lia. f_equal.
  destruct Hcase as [->|Hcase]; [by rewrite Z.sub_diag|].
  rewrite <-(strides_wrap _ _ (next + run)) by lia. by rewrite Hcase, Z.mod_same by lia.
Qed.
End tail.

(** ** One work request *)
Section wqe.
Context {E : Env} {T : Targets} {P : Type} (bo : option (RdmaBackendOps P)).
Abbreviation ADM := (ST (adm P)).
Implicit Types (s : adm P) (r : ionic_aq_ring).

Lemma wp_rings {A} (m : ADM A) (Q : A -> adm P -> Prop) s :
  keeps (same rings_of) m -> (forall a s', rings_of s' = rings_of s -> Q a s') -> wp m Q s.
Proof. intros Hm HQ. apply HQ, Hm. Qed.

(** What a posted completion does to the ring, unless its write failed. *)
Definition posted r : ionic_aq_ring :=
  let prod := u32 (aq_cq_prod r + 1) in
  r <| aq_cq_prod := prod |> <| aq_cq_color := if prod mod aq_cq_depth r =? 0 then negb (aq_cq_color r) else aq_cq_color r |>.
Lemma posted_ok r : aq_ok r -> aq_ok (posted r).
Proof.
  intros [? ? ? (k & Hk & Hd) Hp Hc]. split; try done; cbn; [by exists k|apply wrap_fits; lia|].
  rewrite Hd in *. rewrite phase_step by done. by rewrite Hc.
Qed.

(** The rings after [r] at [i] became [r']. *)
Definition ring_now i r' s s' : Prop := rings_of s' = (<[i := r']> (ax_aq (am_ctx s)), ax_aq_count (am_ctx s)).
Lemma ring_same_now i r s s' : ax_aq (am_ctx s) !! i = Some r -> rings_of s' = rings_of s -> ring_now i r s s'.
Proof. intros Hr Hs. unfold ring_now. rewrite Hs. unfold rings_of. by rewrite list_insert_id. Qed.
Lemma ring_now_at i r r' s s' : ax_aq (am_ctx s) !! i = Some r -> ring_now i r' s s' -> ax_aq (am_ctx s') !! i = Some r'.
Proof. intros Hr [= -> _]. apply list_lookup_insert_eq. by eapply lookup_lt_Some. Qed.
Lemma ring_now_trans i r r' s s' s'' : ring_now i r s s' -> ring_now i r' s' s'' -> ring_now i r' s s''.
Proof. intros [= H1 H2]. unfold ring_now. rewrite H1, H2. by rewrite list_insert_insert_eq. Qed.
Lemma aq_at_lookup i r (c : ionic_adminq_ctx) : ax_aq c !! i = Some r -> aq_at i c = r.
Proof. intros Hr. by apply list_lookup_total_correct. Qed.

Lemma upd_aq_now i r f (Q : unit -> adm P -> Prop) s :
  ax_aq (am_ctx s) !! i = Some r -> (forall s', ring_now i (f r) s s' -> Q tt s') -> wp (upd_aq i f) Q s.
Proof.
  intros Hr HQ. apply wp_in_ctx. intros s' Hc _ _. apply HQ. unfold ring_now, rings_of. rewrite Hc. cbn. f_equal.
  apply list_eq. intros j. destruct (decide (j = i)) as [->|Hne].
  - rewrite list_lookup_alter_eq, Hr. cbn. rewrite list_lookup_insert_eq; [done|]. by eapply lookup_lt_Some.
  - by rewrite list_lookup_alter_ne, list_lookup_insert_ne by done.
Qed.

Lemma post_cqe_ring i r cmd op st rl (Q : unit -> adm P -> Prop) s :
  ax_aq (am_ctx s) !! i = Some r ->
  (forall r' s', r' = r \/ r' = posted r -> ring_now i r' s s' -> Q tt s') -> wp (ionic_adminq_post_cqe i cmd op st rl) Q s.
Proof.
  intros Hr HQ. unfold ionic_adminq_post_cqe. wget. rewrite (aq_at_lookup i r) by done. cbv zeta.
  apply wp_bind, wp_rings; [rings_auto|]. intros ok s1 H1. destruct (negb ok).
  { apply wp_ret, (HQ r); [by left|]. by apply ring_same_now. }
  assert (ax_aq (am_ctx s1) !! i = Some r) as Hr1 by (by injection H1 as -> _).
  apply wp_bind, (upd_aq_now i r); [done|]. intros s2 H2.
  apply wp_rings; [rings_auto|]. intros [] s3 H3. apply (HQ (posted r)); [by right|].
  unfold ring_now in *. rewrite H3, H2. injection H1 as -> ->. done.
Qed.

(** No read of the ring's strides fails. *)
Definition ring_readable r : Prop :=
  forall (m : Mem) j n, 0 <= j -> 1 <= n -> j + n <= aq_depth r ->
    is_Some (dma_read m (u64 (aq_dma r + j * ADMIN_WQE_STRIDE)) (n * ADMIN_WQE_STRIDE)).

Lemma read_tail_some fuel r next left s :
  ring_readable r -> 0 <= next < aq_depth r -> is_Some (read_tail_loop fuel r next left s).1.
Proof.
  intros Hrd. revert next left. induction fuel as [|fuel IH]; intros next left Hn; [done|]. cbn [read_tail_loop].
  destruct (left <=? 0) eqn:Hl; bdestr; [done|]. cbv zeta. rewrite run_bind, adm_dma_read_run. cbn [fst snd].
  destruct (Hrd (dp_mem (am_dp s)) next (Z.min (aq_depth r - next) left)) as [d ->]; [lia..|]. rewrite run_bind.
  destruct (IH 0 (left - Z.min (aq_depth r - next) left)) as [d' Hd']; [lia|]. rewrite Hd'. by eexists.
Qed.

Lemma read_tail_rings fuel r next left : keeps (same rings_of) (read_tail_loop fuel r next left : ADM _).
Proof. revert next left. induction fuel as [|fuel IH]; intros next left; cbn [read_tail_loop]; rings_auto. Qed.

Lemma wqe_strides_pos bs : 1 <= wqe_strides (ernic_get_le16 bs 2).
Proof.
  unfold wqe_strides. pose proof (wrap_fits 16 (Z.lor (bat bs 2 0) (Z.shiftl (bat bs 2 1) 8)) ltac:(lia)) as Hf.
  change (fits 16 (ernic_get_le16 bs 2)) in Hf. unfold fits, ADMIN_WQE_STRIDE, ADMIN_WQE_HDR_LEN in *. apply Z.div_le_lower_bound; lia.
Qed.

Lemma aq_wqe_ring i r avail (Q : option Z -> adm P -> Prop) s :
  ax_aq (am_ctx s) !! i = Some r -> aq_ok r -> 1 <= avail ->
  (forall s', ~ ring_readable r -> rings_of s' = rings_of s -> Q None s') ->
  (forall n r' s', 1 <= n <= avail -> r' = r \/ r' = posted r ->
    ring_now i (r' <| aq_cons := (aq_cons r + n) mod aq_depth r |>) s s' -> Q (Some n) s') ->
  wp (aq_wqe bo i avail) Q s.
Proof.
  intros Hr Hok Hav HN HS. unfold aq_wqe. wget. rewrite (aq_at_lookup i r) by done. cbv zeta.
  pose proof (aqo_cons _ Hok) as Hcons. rewrite (Z.mod_small (aq_cons r)) by lia. apply wp_bind. unfold wp. rewrite adm_dma_read_run.
  cbn [fst snd]. destruct (dma_read _ _ _) as [hd|] eqn:Hd.
  2:{ apply HN; [|done]. intros Hrd. destruct (Hrd (dp_mem (am_dp s)) (aq_cons r) 1) as [? Hx]; [lia..|].
      change (1 * ADMIN_WQE_STRIDE) with ADMIN_WQE_STRIDE in Hx. congruence. }
  set (strides := wqe_strides _). pose proof (wqe_strides_pos hd) as Hst. fold strides in Hst. clearbody strides.
  match goal with |- Q (?m s).1 (?m s).2 => change (wp m Q s) end. apply wp_bind.
  eapply (wp_mono _ (fun st s1 => rings_of s1 = rings_of s /\ (st = None -> ~ ring_readable r))).
  { destruct (_ || _); [by split|]. apply wp_bind. set (m := read_wqe_tail r (aq_cons r) strides).
    assert (rings_of (m s).2 = rings_of s) as Hs1 by apply read_tail_rings.
    assert ((m s).1 = None -> ~ ring_readable r) as Hn1.
    { intros Hn Hrd. apply eq_None_not_Some in Hn. apply Hn, read_tail_some; [done|]. apply Z.mod_pos_bound. lia. }
    unfold wp. destruct (m s) as [[tl|] s1]; cbn [fst snd] in *; [|by split; [|intros _; apply Hn1]].
    match goal with |- rings_of (?k s1).2 = _ /\ _ => change (wp k (fun st s1 => rings_of s1 = rings_of s /\ (st = None -> ~ ring_readable r)) s1) end.
    apply wp_bind, wp_rings; [rings_auto|]. intros st s2 H2. apply wp_ret. split; [congruence|done]. }
  intros [st|] s1 [H1 Hn1]; [|apply wp_ret, HN; auto]. assert (ax_aq (am_ctx s1) !! i = Some r) as Hr1 by (by injection H1 as -> _).
  wget. apply wp_bind, (post_cqe_ring i r); [done|]. intros r' s2 Hr' H2. apply wp_bind, wp_rings; [rings_auto|]. intros [] s3 H3.
  assert (ax_aq (am_ctx s3) !! i = Some r') as Hr3. { injection H3 as -> _. by eapply ring_now_at. }
  apply wp_bind, (upd_aq_now i r'); [done|]. intros s4 H4. apply wp_ret, (HS _ r'); [lia|done|].
  assert (aq_cons r' = aq_cons r /\ aq_depth r' = aq_depth r) as [Ec Ed] by (by destruct Hr' as [->| ->]). rewrite Ec, Ed in H4.
  unfold ring_now in *. rewrite H4. injection H3 as -> ->. injection H2 as -> ->. injection H1 as -> ->. by rewrite list_insert_insert_eq.
Qed.

(** What polling does to a ring: it stays well formed and registered as it
    was, and what it has consumed is [k] strides. *)
Record ring_went k r r' : Prop := {
  rw_ok : aq_ok r';
  rw_same : aq_valid r' = aq_valid r /\ aq_dma r' = aq_dma r /\ aq_depth r' = aq_depth r /\ aq_prod r' = aq_prod r;
  rw_cons : aq_cons r' = (aq_cons r + k) mod aq_depth r }.

Lemma ring_went_0 r : aq_ok r -> ring_went 0 r r.
Proof. intros Hr. split; [done..|]. rewrite Z.add_0_r. symmetry. apply Z.mod_small, Hr. Qed.
Lemma ring_went_step n k r r1 r2 :
  aq_ok r -> r1 = r \/ r1 = posted r -> ring_went k (r1 <| aq_cons := (aq_cons r + n) mod aq_depth r |>) r2 -> ring_went (n + k) r r2.
Proof.
  intros Hr Hr1 [Ho Hs Hc]. assert (1 <= aq_depth r) by (by apply aq_depth_bounds).
  assert (aq_valid r1 = aq_valid r /\ aq_dma r1 = aq_dma r /\ aq_depth r1 = aq_depth r /\ aq_prod r1 = aq_prod r) as (E1 & E2 & E3 & E4)
    by (by destruct Hr1 as [->| ->]).
  cbn in *. split; [done|intuition congruence|]. rewrite Hc, E3, Z.add_mod_idemp_l by lia. f_equal. lia.
Qed.
Lemma readable_same r r' : aq_dma r' = aq_dma r -> aq_depth r' = aq_depth r -> ring_readable r -> ring_readable r'.
Proof. unfold ring_readable. by intros -> ->. Qed.
Lemma advanced_ok n r r1 :
  aq_ok r -> r1 = r \/ r1 = posted r -> aq_ok (r1 <| aq_cons := (aq_cons r + n) mod aq_depth r |>).
Proof.
  intros Hr Hr1. assert (1 <= aq_depth r) by (by apply aq_depth_bounds). assert (aq_ok r1 /\ aq_depth r1 = aq_depth r) as [[] Hd].
  { destruct Hr1 as [->| ->]; [done|]. split; [by apply posted_ok|done]. }
  split; try done. cbn. rewrite Hd. apply Z.mod_pos_bound. lia.
Qed.

Lemma aq_loop_ok fuel i r pending processed (Q : bool -> adm P -> Prop) s :
  ax_aq (am_ctx s) !! i = Some r -> aq_ok r -> processed <= pending -> pending < aq_depth r -> pending - processed < Z.of_nat fuel ->
  (forall k r' s', 0 <= k <= pending - processed -> ring_went k r r' -> (ring_readable r -> k = pending - processed) ->
    ring_now i r' s s' -> Q true s') ->
  wp (aq_loop bo fuel i pending processed) Q s.
Proof.
  revert r processed Q s. induction fuel as [|fuel IH]; intros r processed Q s Hr Hok Hle Hlt Hf HQ; [lia|].
  cbn [aq_loop]. wget. rewrite (aq_at_lookup i r) by done. destruct (_ && _) eqn:Hgo.
  2:{ apply wp_ret, (HQ 0 r); [lia|by apply ring_went_0| |by apply ring_same_now]. intros _.
      apply andb_false_iff in Hgo as [?|?]; bdestr; lia. }
  bdestr. apply wp_bind, (aq_wqe_ring i r); [done..|lia| |].
  - intros s1 Hnr Hs1. apply wp_ret, (HQ 0 r); [lia|by apply ring_went_0|done|by apply ring_same_now].
  - intros n r1 s1 Hn Hr1 Hs1. set (r1' := r1 <| aq_cons := _ |>) in *. assert (aq_ok r1') as Hok1 by (by apply advanced_ok).
    assert (aq_dma r1' = aq_dma r /\ aq_depth r1' = aq_depth r) as [Ea Ed] by (by destruct Hr1 as [->| ->]).
    apply (IH r1'); [by eapply ring_now_at|done|lia|lia|lia|]. intros k r2 s2 Hk Hw Hall H2.
    apply (HQ (n + k) r2); [lia| | |by eapply ring_now_trans].
    + by eapply ring_went_step.
    + intros Hrd. rewrite Hall; [lia|]. by eapply readable_same.
Qed.

Lemma pending_bounds r : aq_ok r -> 0 <= aq_pending r < aq_depth r /\ (aq_cons r + aq_pending r) mod aq_depth r = aq_prod r.
Proof.
  intros Hr. pose proof (aq_depth_bounds r Hr). pose proof (aqo_cons _ Hr). pose proof (aqo_prod _ Hr). unfold aq_pending.
  rewrite (wrap_id 32) by (unfold fits; lia). split; [apply Z.mod_pos_bound; lia|].
  rewrite Z.add_mod_idemp_r by lia. replace (aq_cons r + (aq_prod r - aq_cons r + aq_depth r)) with (aq_prod r + 1 * aq_depth r) by lia.
  rewrite Z.mod_add by lia. apply Z.mod_small. lia.
Qed.

(** One ring polled: what the loop says, and where the ring stands. *)
Lemma poll_aq_ok i r (Q : unit -> adm P -> Prop) s :
  ax_aq (am_ctx s) !! i = Some r -> aq_ok r ->
  (forall k r' s', 0 <= k <= aq_pending r -> ring_went k r r' -> (aq_valid r = true -> ring_readable r -> aq_cons r' = aq_prod r) ->
    ring_now i r' s s' -> Q tt s') ->
  wp (poll_aq bo i) Q s.
Proof.
  intros Hr Hok HQ. destruct (pending_bounds r Hok) as [Hp Hprod]. unfold poll_aq. wget. rewrite (aq_at_lookup i r) by done.
  destruct (_ || _) eqn:Hidle.
  { apply wp_ret, (HQ 0 r); [lia|by apply ring_went_0| |by apply ring_same_now]. intros Hv _.
    apply orb_true_iff in Hidle as [?|?]; bdestr; congruence. }
  apply wp_bind, (aq_loop_ok _ i r); [done..|lia|lia|lia|]. intros k r' s' Hk Hw Hall Hs. apply wp_ret, (HQ k r'); [lia|done| |done].
  intros _ Hrd. rewrite (rw_cons _ _ _ Hw), Hall, Z.sub_0_r by done. done.
Qed.

Lemma ring_now_aqs i r r' s s' :
  aqs_ok (am_ctx s) -> ax_aq (am_ctx s) !! i = Some r -> (aq_valid r' = true -> aq_ok r') -> ring_now i r' s s' -> aqs_ok (am_ctx s').
Proof.
  intros (Hl & Hc & Ho) Hr Hr' [= Ha Hn]. unfold aqs_ok. rewrite Ha, Hn, length_insert. split_and!; [done|lia..|].
  intros j q Hj Hv. destruct (insert_lookup_inv _ _ _ _ _ (lookup_lt_Some _ _ _ Hr) Hj) as [[-> ->]|[_ ?]]; [auto|by eapply Ho].
Qed.
Lemma poll_aq_aqs i : keeps (preserves (fun s => aqs_ok (am_ctx s))) (poll_aq bo i).
Proof.
  intros s Hs. destruct (ax_aq (am_ctx s) !! i) as [r|] eqn:Hr.
  - destruct (aq_valid r) eqn:Hv.
    + apply (poll_aq_ok i r (fun _ s' => aqs_ok (am_ctx s')) s Hr); [by apply (proj2 (proj2 Hs) i)|].
      intros k r' s' _ Hw _ Hn. apply (ring_now_aqs i r r' s s'); [done..| |done]. intros _. apply Hw.
    + unfold poll_aq. unfold ctx_gets. rewrite run_bind, run_gets. cbn [fst snd]. by rewrite (aq_at_lookup i r), Hv.
  - unfold poll_aq, ctx_gets. rewrite run_bind, run_gets. cbn [fst snd]. unfold aq_at. by rewrite list_lookup_total_alt, Hr.
Qed.
Lemma poll_aqs : keeps (preserves (fun s => aqs_ok (am_ctx s))) (ionic_adminq_poll bo).
Proof. unfold ionic_adminq_poll. eapply (keeps_bind _); [by intros s|intros n]. keeps_step. apply poll_aq_aqs. Qed.
End wqe.

(** ** What polling preserves *)
Section poll_pres.
Context {E : Env} {T : Targets} {ML : GuestMemLaws Mem} {P : Type} (bo : option (RdmaBackendOps P)).
Abbreviation ADM := (ST (adm P)).
Implicit Types s : adm P.
(** A property the parts of the poll keep. *)
Context (I : adm P -> Prop)
  (I_dispatch : forall op body len, bytes_ok body -> keeps (preserves I) (ionic_adminq_dispatch_wqe bo op body len))
  (I_post : forall i c o st rl, keeps (preserves I) (ionic_adminq_post_cqe i c o st rl : ADM unit))
  (I_stat : keeps (preserves I) (adm_stat StatCommand : ADM unit))
  (I_upd : forall i f, keeps (preserves I) (upd_aq i f : ADM unit)).

Lemma strides_ok (m : Mem) r i n : bytes_ok (strides_from m r i n).
Proof.
  unfold strides_from. generalize (seqZ i n). intros l. induction l as [|x l IH]; [constructor|].
  cbn. apply Forall_app_2; [apply peekn_ok|apply IH].
Qed.
Lemma wqe_body_ok bs : bytes_ok bs -> bytes_ok (wqe_body bs).
Proof.
  intros Hb. apply Forall_drop, Forall_app_2; [done|]. apply Forall_replicate. done.
Qed.

Lemma aq_wqe_pres i r avail s :
  ax_aq (am_ctx s) !! i = Some r -> aq_ok r -> 1 <= avail -> I s -> I (aq_wqe bo i avail s).2.
Proof.
  intros Hr Hok Hav Hi. match goal with |- I (?m s).2 => change (wp m (fun _ s' => I s') s) end.
  unfold aq_wqe. wget. rewrite (aq_at_lookup i r) by done. cbv zeta. pose proof (aqo_cons _ Hok) as Hcons.
  pose proof (aq_depth_bounds _ Hok). rewrite (Z.mod_small (aq_cons r)) by lia.
  apply wp_bind. unfold wp at 1. rewrite adm_dma_read_run. cbn [fst snd]. destruct (dma_read _ _ _) as [hd|] eqn:Hd; [|done].
  apply dma_read_spec in Hd as [Hd _]; [|apply wrap_fits; lia|by unfold ADMIN_WQE_STRIDE].
  set (strides := wqe_strides _). apply wp_bind.
  apply (wp_mono _ (fun _ s1 => I s1)).
  - destruct (_ || _) eqn:Hfit; [done|]. bdestr. unfold ADMIN_WQE_MAX_STRIDES in *. pose proof (wqe_strides_pos hd) as Hst. fold strides in Hst. apply wp_bind.
    unfold wp at 1. pose proof (read_tail_state (Z.to_nat (strides - 1)) r ((aq_cons r + 1) mod aq_depth r) (strides - 1) s) as Hs1.
    change (read_tail_loop _ _ _ _) with (read_wqe_tail r (aq_cons r) strides : ADM _) in Hs1. rewrite Hs1.
    destruct (read_wqe_tail r (aq_cons r) strides s) as [[tl|] s1] eqn:Htl; [|done]. cbn [fst snd] in *. subst s1.
    apply read_tail_exact in Htl as [-> _]; [|lia| |lia|lia]; [|apply Z.mod_pos_bound; lia].
    apply wp_bind.
    apply I_dispatch; [|done].
    apply wqe_body_ok, Forall_app_2; [rewrite Hd; apply peekn_ok|apply strides_ok].
  - intros [st|] s1 Hi1; [|done]. set (taken := Z.min _ _).
    match goal with |- wp ?m _ s1 => assert (keeps (preserves I) m) as Hk; [|by apply Hk] end.
    repeat first [apply I_post|apply I_stat|apply I_upd|apply (keeps_gets _)|keeps_step].
Qed.

Lemma aq_loop_pres fuel i r pending processed s :
  ax_aq (am_ctx s) !! i = Some r -> aq_ok r -> I s -> I (aq_loop bo fuel i pending processed s).2.
Proof.
  revert r processed s. induction fuel as [|fuel IH]; intros r processed s Hr Hok Hi; [done|]. cbn [aq_loop].
  match goal with |- I (?m s).2 => change (wp m (fun _ s' => I s') s) end. wget. rewrite (aq_at_lookup i r) by done.
  destruct (_ && _) eqn:Hgo; [|done]. bdestr. apply wp_bind.
  pose proof (aq_wqe_pres i r (pending - processed) s Hr Hok ltac:(lia) Hi) as Hi1.
  pose proof (aq_wqe_ring bo i r (pending - processed)
    (fun n s1 => I s1 -> wp (match n with Some n => aq_loop bo fuel i pending (processed + n) | None => mret true end)
       (fun _ s' => I s') s1) s Hr Hok ltac:(lia)) as Hw.
  apply Hw; [done| |exact Hi1]. intros n r1 s1 Hn Hr1 Hs1 Hi'. eapply IH; [by eapply ring_now_at| |done]. by apply advanced_ok.
Qed.
Lemma poll_aq_pres i s : I s -> aqs_ok (am_ctx s) -> I (poll_aq bo i s).2.
Proof.
  intros Hi Hq. match goal with |- I (?m s).2 => change (wp m (fun _ s' => I s') s) end. unfold poll_aq. wget.
  destruct (_ || _) eqn:Hidle; [done|]. bdestr. apply wp_bind. unfold wp. unfold aq_at in *. rewrite list_lookup_total_alt in *.
  destruct (ax_aq (am_ctx s) !! i) as [r|] eqn:Hr; [|done]. apply (aq_loop_pres _ i r); [done| |done].
  by apply (proj2 (proj2 Hq) i).
Qed.


Lemma poll_pres : keeps (preserves (fun s => I s /\ aqs_ok (am_ctx s))) (ionic_adminq_poll bo).
Proof.
  unfold ionic_adminq_poll. eapply (keeps_bind _); [by intros s|intros n]. keeps_step. intros s [Hi Hq].
  split; [by apply poll_aq_pres|by apply poll_aq_aqs].
Qed.
End poll_pres.
