(* ===== verification/AdmRelease.v ===== *)
(** * Reset: everything the driver made is released

    ionic_adminq_release_all() resets the data path, then walks the maps and
    gives every handle back. *)
From S2P Require Export AdmLoop DpReset.

(** * The device: admin queue, resource manager and data path together

    The steps of the server's main loop on the three of them, and the
    invariant every reachable state has. *)
Section poll_inv.
Context {E : Env} {T : Targets} {TL : TargetsLaws} {ML : GuestMemLaws Mem} {P : Type} (ops : RdmaBackendOps P) `{!BackendLaws ops}.
Abbreviation bo := (Some ops).
Abbreviation ADM := (ST (adm P)).
Abbreviation adm_inv := (adm_inv ops).
Abbreviation calm := (calm ops).
Implicit Types s : adm P.

Lemma event_calm (fn : ionic_dp_cq_event_fn_t E) a b :
  keeps calm (on_dp (modify (fun d : ionic_datapath => let '(m, v) := fn a b (dp_mem d) (dp_dev d) in d <| dp_mem := m |> <| dp_dev := v |>)) : ADM unit).
Proof. apply calm_on_dp. intros d. cbn. destruct (fn a b _ _). done. Qed.
Lemma upd_aq_calm i f : keeps calm (upd_aq i f : ADM unit).
Proof. unfold upd_aq. calm_auto. Qed.
Hint Resolve event_calm upd_aq_calm dma_write_calm : calm.
Lemma post_cqe_calm i c o st rl : keeps calm (ionic_adminq_post_cqe i c o st rl : ADM unit).
Proof. unfold ionic_adminq_post_cqe. calm_auto. Qed.
Hint Resolve post_cqe_calm : calm.

Definition dev_inv s : Prop := adm_inv s /\ aqs_ok (am_ctx s).
Lemma poll_dev_inv : keeps (preserves dev_inv) (ionic_adminq_poll bo).
Proof.
  assert (forall A (m : ADM A), keeps calm m -> keeps (preserves adm_inv) m) as Hc by (intros A m Hm s Hi; by apply Hm).
  apply (poll_pres bo adm_inv).
  - intros op body len Hb s Hi. by apply (dispatch_ok ops op body len Hb s Hi).
  - intros. apply Hc. auto with calm nocore.
  - apply Hc. auto with calm nocore.
  - intros. apply Hc. auto with calm nocore.
Qed.

(** ** Reset *)
Lemma wp_for_each {X} (f : X -> ADM unit) l (I : list X -> adm P -> Prop) s :
  I [] s -> (forall done x rest s, l = done ++ x :: rest -> I done s -> wp (f x) (fun _ s' => I (done ++ [x]) s') s) ->
  wp (for_each l f) (fun _ s' => I l s') s.
Proof.
  intros H0 Hstep. enough (forall done rest s, l = done ++ rest -> I done s -> wp (for_each rest f) (fun _ s' => I l s') s) as Hx by (by apply (Hx [])).
  intros dn rest. revert dn. induction rest as [|x rest IH]; intros dn s1 Hl Hs1.
  - rewrite app_nil_r in Hl. by subst.
  - cbn [for_each]. apply wp_bind. eapply wp_mono; [by eapply Hstep|]. intros [] s2 H2. apply (IH (dn ++ [x])); [|done].
    by rewrite <-app_assoc.
Qed.
End poll_inv.

Section release.
Context {E : Env} {T : Targets} {TL : TargetsLaws} {P : Type} (ops : RdmaBackendOps P) `{!BackendLaws ops}.
Abbreviation bo := (Some ops).
Abbreviation ADM := (ST (adm P)).
Abbreviation adm_inv := (adm_inv ops).
Implicit Types s : adm P.

Definition no_names : adm_view := AdmView ∅ ∅ ∅ ∅.
Definition no_handles : rm_view := RmView ∅ ∅ ∅ ∅ ∅.

(** While the maps are walked: they still agree with the resource manager, and
    the data path has nothing. *)
Definition base s : Prop :=
  maps_inv (am_ctx s) (view_of (am_pv s)) /\ rm_inv ops (am_pv s) /\ dp_has no_names (am_dp s) /\ aqs_ok (am_ctx s).

Lemma reset_has_nothing s : adm_inv s -> dp_has no_names (ionic_datapath_reset_rdma (am_dp s)).2.
Proof.
  intros Hi. pose proof (ai_maps _ _ Hi) as Hm. destruct (ai_dp _ _ Hi) as [Hc Hq Hr (N1 & N2 & N3)].
  destruct (reset_rdma_spec (am_dp s)) as [Hw Hall]. destruct (wi_count _ _ Hw) as (C1 & C2 & C3 & _).
  split; [..|by rewrite C1, C2, C3]; intros i; destruct (Hall i) as (A1 & A2 & A3 & _); cbn; rewrite bool_decide_eq_false_2 by set_solver.
  - destruct (decide (0 <= i < dp_cq_count (am_dp s))); [by apply A3|]. apply (wi_cq _ _ Hw). rewrite Hc. apply bool_decide_eq_false.
    intros Hx%(mi_cq_rng _ _ Hm). lia.
  - destruct (decide (0 <= i < dp_qp_count (am_dp s))); [by apply A1|]. apply (wi_qp _ _ Hw). rewrite Hq. apply bool_decide_eq_false.
    intros Hx%(mi_qp_rng _ _ Hm). lia.
  - destruct (decide (0 <= i < dp_srq_count (am_dp s))); [by apply A2|]. apply (wi_srq _ _ Hw). rewrite Hr. apply bool_decide_eq_false.
    intros (j & e & Hj & Ve & Hid)%(@elem_of_names _ srq_map_entry). pose proof (mi_srq_at _ _ Hm j e Hj Ve) as Hj'. cbn in Hid.
    pose proof (lookup_lt_Some _ _ _ Hj) as Hlt. rewrite (mo_len _ _ _ (mi_srq _ _ Hm)) in Hlt. unfold MAX_SRQ_MAP in Hlt. lia.
Qed.

Lemma release_qp_ok v0 dn i s :
  base s -> (av s) <| a_qps := ∅ |> = v0 -> walked dn (ax_qp_map (am_ctx s)) ->
  wp (release_qp bo i) (fun _ s' => base s' /\ (av s') <| a_qps := ∅ |> = v0 /\ walked (dn ++ [i]) (ax_qp_map (am_ctx s'))) s.
Proof.
  intros Hb Hv Hw. unfold release_qp. wget. rewrite list_lookup_total_alt.
  destruct (ax_qp_map (am_ctx s) !! i) as [e|] eqn:He; [|by apply wp_ret; split_and!; [..|apply walked_skip; [|rewrite He]]].
  cbn [default id]. destruct (qe_valid e) eqn:Hve; [|by apply wp_ret; split_and!; [..|apply walked_skip; [|rewrite He; intros ? [= <-]]]].
  destruct Hb as (Hm & Hr & Hd & Hq).
  apply wp_bind, wp_adm_stat. intros s1 Hc1 Hp1 Hn1.
  apply wp_bind, (wp_dealloc_qp ops); [by rewrite Hp1|by rewrite Hc1; apply Hm|]. intros s2 (Hc2 & Hd2 & Hr2 & Hs2).
  apply wp_in_ctx. intros s3 Hc3 Hd3 Hp3. rewrite Hc2, Hc1 in Hc3. cbn in Hs2. rewrite Hp1 in Hs2.
  set (e' := e <| qe_valid := false |>) in Hc3. assert (qe_valid e' = false) as Hv' by done. clearbody e'.
  destruct (maps_qp_del _ _ i e e' Hm He Hve Hv') as [Hm' Ha]. rewrite <-Hc3 in Hm', Ha. split_and!.
  - split_and!; rewrite ?Hp3, ?Hs2; try done; [rewrite Hd3, Hd2; by eapply dp_has_same|]. by rewrite Hc3.
  - unfold av. rewrite Ha. apply Hv.
  - rewrite Hc3. by apply (@walked_off _ qp_map_entry).
Qed.
Lemma release_qps_ok s :
  base s -> wp (for_each (seq 0 MAX_QP_MAP) (release_qp bo)) (fun _ s' => base s' /\ av s' = (av s) <| a_qps := ∅ |>) s.
Proof.
  intros Hb. eapply wp_mono; [apply (wp_for_each (release_qp bo) _ (fun dn s' => base s' /\ (av s') <| a_qps := ∅ |> = (av s) <| a_qps := ∅ |> /\
    walked dn (ax_qp_map (am_ctx s'))))|].
  - split_and!; [done..|apply walked_nil].
  - intros dn x rest s1 _ (? & ? & ?). by apply release_qp_ok.
  - intros [] s1 (Hb1 & <- & Hw). split; [done|]. rewrite <-(mo_len _ _ _ (mi_qp _ _ (proj1 Hb1))) in Hw. apply walked_all in Hw.
    unfold av, names_of. cbn. by rewrite Hw.
Qed.

Lemma release_srq_ok v0 dn i s :
  base s -> (av s) <| a_srqs := ∅ |> = v0 -> walked dn (ax_srq_map (am_ctx s)) ->
  wp (release_srq bo i) (fun _ s' => base s' /\ (av s') <| a_srqs := ∅ |> = v0 /\ walked (dn ++ [i]) (ax_srq_map (am_ctx s'))) s.
Proof.
  intros Hb Hv Hw. unfold release_srq. wget. rewrite list_lookup_total_alt.
  destruct (ax_srq_map (am_ctx s) !! i) as [e|] eqn:He; [|by apply wp_ret; split_and!; [..|apply walked_skip; [|rewrite He]]].
  cbn [default id]. destruct (se_valid e) eqn:Hve; [|by apply wp_ret; split_and!; [..|apply walked_skip; [|rewrite He; intros ? [= <-]]]].
  destruct Hb as (Hm & Hr & Hd & Hq).
  apply wp_bind, (wp_dealloc_srq ops); [done|apply Hm|]. intros s2 (Hc2 & Hd2 & Hr2 & Hs2).
  apply wp_in_ctx. intros s3 Hc3 Hd3 Hp3. rewrite Hc2 in Hc3. cbn in Hs2.
  set (e' := e <| se_valid := false |>) in Hc3. assert (se_valid e' = false) as Hv' by done. clearbody e'.
  destruct (maps_srq_del _ _ i e e' Hm He Hve Hv') as [Hm' Ha]. rewrite <-Hc3 in Hm', Ha. split_and!.
  - split_and!; rewrite ?Hp3, ?Hs2; try done; [by rewrite Hd3, Hd2|]. by rewrite Hc3.
  - unfold av. rewrite Ha. apply Hv.
  - rewrite Hc3. by apply (@walked_off _ srq_map_entry).
Qed.
Lemma release_srqs_ok s :
  base s -> wp (for_each (seq 0 MAX_SRQ_MAP) (release_srq bo)) (fun _ s' => base s' /\ av s' = (av s) <| a_srqs := ∅ |>) s.
Proof.
  intros Hb. eapply wp_mono; [apply (wp_for_each (release_srq bo) _ (fun dn s' => base s' /\ (av s') <| a_srqs := ∅ |> = (av s) <| a_srqs := ∅ |> /\
    walked dn (ax_srq_map (am_ctx s'))))|].
  - split_and!; [done..|apply walked_nil].
  - intros dn x rest s1 _ (? & ? & ?). by apply release_srq_ok.
  - intros [] s1 (Hb1 & <- & Hw). split; [done|]. rewrite <-(mo_len _ _ _ (mi_srq _ _ (proj1 Hb1))) in Hw. apply walked_all in Hw.
    unfold av, names_of. cbn. by rewrite Hw.
Qed.

Lemma release_cq_ok v0 dn i s :
  base s -> (av s) <| a_cqs := ∅ |> = v0 -> walked dn (ax_cq_map (am_ctx s)) ->
  wp (release_cq bo i) (fun _ s' => base s' /\ (av s') <| a_cqs := ∅ |> = v0 /\ walked (dn ++ [i]) (ax_cq_map (am_ctx s'))) s.
Proof.
  intros Hb Hv Hw. unfold release_cq. wget. rewrite list_lookup_total_alt.
  destruct (ax_cq_map (am_ctx s) !! i) as [e|] eqn:He; [|by apply wp_ret; split_and!; [..|apply walked_skip; [|rewrite He]]].
  cbn [default id]. destruct (ce_valid e) eqn:Hve; [|by apply wp_ret; split_and!; [..|apply walked_skip; [|rewrite He; intros ? [= <-]]]].
  destruct Hb as (Hm & Hr & Hd & Hq).
  apply wp_bind, (wp_dealloc_cq ops); [done|apply Hm|]. intros s2 (Hc2 & Hd2 & Hr2 & Hs2).
  apply wp_in_ctx. intros s3 Hc3 Hd3 Hp3. rewrite Hc2 in Hc3. cbn in Hs2.
  set (e' := e <| ce_valid := false |>) in Hc3. assert (ce_valid e' = false) as Hv' by done. clearbody e'.
  destruct (maps_cq_del _ _ i e e' Hm He Hve Hv') as [Hm' Ha]. rewrite <-Hc3 in Hm', Ha. split_and!.
  - split_and!; rewrite ?Hp3, ?Hs2; try done; [by rewrite Hd3, Hd2|]. by rewrite Hc3.
  - unfold av. rewrite Ha. apply Hv.
  - rewrite Hc3. by apply (@walked_off _ cq_map_entry).
Qed.
Lemma release_cqs_ok s :
  base s -> wp (for_each (seq 0 MAX_CQ_MAP) (release_cq bo)) (fun _ s' => base s' /\ av s' = (av s) <| a_cqs := ∅ |>) s.
Proof.
  intros Hb. eapply wp_mono; [apply (wp_for_each (release_cq bo) _ (fun dn s' => base s' /\ (av s') <| a_cqs := ∅ |> = (av s) <| a_cqs := ∅ |> /\
    walked dn (ax_cq_map (am_ctx s'))))|].
  - split_and!; [done..|apply walked_nil].
  - intros dn x rest s1 _ (? & ? & ?). by apply release_cq_ok.
  - intros [] s1 (Hb1 & <- & Hw). split; [done|]. rewrite <-(mo_len _ _ _ (mi_cq _ _ (proj1 Hb1))) in Hw. apply walked_all in Hw.
    unfold av, names_of. cbn. by rewrite Hw.
Qed.

Lemma release_mr_ok v0 dn i s :
  base s -> (av s) <| a_mrs := ∅ |> = v0 -> (forall k, k ∈ mr_names (ax_mr_map (am_ctx s)) -> k ∉ dn) ->
  wp (release_mr bo i) (fun _ s' => base s' /\ (av s') <| a_mrs := ∅ |> = v0 /\
    forall k, k ∈ mr_names (ax_mr_map (am_ctx s')) -> k ∉ dn ++ [i]) s.
Proof.
  intros Hb Hv Hw. unfold release_mr. wget. unfold mr_entry_at. destruct (me_valid _) eqn:Hve.
  2:{ apply wp_ret. split_and!; [done..|]. intros k Hk. rewrite not_elem_of_app, list_elem_of_singleton. split; [by apply Hw|].
      intros ->. apply elem_of_mr_names in Hk. congruence. }
  destruct Hb as (Hm & Hr & Hd & Hq). apply elem_of_mr_names in Hve.
  apply wp_bind, (wp_dealloc_mr ops); [done|apply Hm|]. intros s2 (Hc2 & Hd2 & Hr2 & Hs2).
  apply wp_in_ctx. intros s3 Hc3 Hd3 Hp3. rewrite Hc2 in Hc3. cbn in Hs2.
  set (e' := _ <| me_valid := false |>) in Hc3. assert (me_valid e' = false) as Hv' by done. clearbody e'.
  destruct (maps_mr_del _ _ i e' Hm Hve Hv') as [Hm' Ha]. rewrite <-Hc3 in Hm', Ha. split_and!.
  - split_and!; rewrite ?Hp3, ?Hs2; try done; [by rewrite Hd3, Hd2|]. by rewrite Hc3.
  - unfold av. rewrite Ha. apply Hv.
  - intros k. change (mr_names (ax_mr_map (am_ctx s3))) with (a_mrs (names_of (am_ctx s3))). rewrite Ha. cbn.
    intros [Hk Hne]%elem_of_difference. rewrite not_elem_of_app, list_elem_of_singleton. split; [by apply Hw|set_solver].
Qed.
Lemma release_mrs_ok s :
  base s -> wp (for_each (seqZ 0 ERNIC_MAX_MR) (release_mr bo)) (fun _ s' => base s' /\ av s' = (av s) <| a_mrs := ∅ |>) s.
Proof.
  intros Hb. eapply wp_mono; [apply (wp_for_each (release_mr bo) _ (fun dn s' => base s' /\ (av s') <| a_mrs := ∅ |> = (av s) <| a_mrs := ∅ |> /\
    forall k, k ∈ mr_names (ax_mr_map (am_ctx s')) -> k ∉ dn))|].
  - split_and!; [done..|]. intros. apply not_elem_of_nil.
  - intros dn x rest s1 _ (? & ? & ?). by apply release_mr_ok.
  - intros [] s1 (Hb1 & <- & Hw). split; [done|]. unfold av, names_of. cbn. f_equal. apply set_eq. intros k.
    split; [|by intros ?%not_elem_of_empty]. intros Hk. destruct (Hw k Hk). apply elem_of_seqZ.
    pose proof (ro_rng _ _ (mi_mr _ _ (proj1 Hb1)) k Hk). lia.
Qed.

(** No names left, no handles left. *)
Lemma no_names_no_handles c v :
  maps_inv c v -> names_of c = no_names -> v = RmView (v_pds v) ∅ ∅ ∅ ∅.
Proof.
  intros Hm Hn. injection Hn as Nc Nq Ns Nr. destruct v as [pds mrs cqs srqs qps]. cbn. f_equal; apply set_eq; intros h;
    (split; [|by intros ?%not_elem_of_empty]).
  - intros (k & Hk & _)%(ro_img _ _ (mi_mr _ _ Hm)). set_solver.
  - intros (i & e & Hi & Ve & _)%(mo_img _ _ _ (mi_cq _ _ Hm)). pose proof (names_in _ _ _ Hi Ve). set_solver.
  - intros (i & e & Hi & Ve & _)%(mo_img _ _ _ (mi_srq _ _ Hm)). pose proof (names_in _ _ _ Hi Ve). set_solver.
  - intros (i & e & Hi & Ve & _)%(mo_img _ _ _ (mi_qp _ _ Hm)). pose proof (names_in _ _ _ Hi Ve). set_solver.
Qed.

Lemma release_all_ok s :
  dev_inv ops s ->
  wp (ionic_adminq_release_all bo) (fun _ s' => dev_inv ops s' /\ av s' = no_names /\ view_of (am_pv s') = no_handles) s.
Proof.
  intros [Hi Hq]. pose proof (ai_maps _ _ Hi) as Hm. unfold ionic_adminq_release_all. apply wp_bind, wp_on_dp. intros s0 Hd0 Hc0 Hp0.
  assert (base s0) as Hb0.
  { split_and!; rewrite ?Hc0, ?Hp0; try done; [apply Hi|]. rewrite Hd0. by apply reset_has_nothing. }
  apply wp_bind. eapply wp_mono; [by apply release_qps_ok|]. intros [] s1 [Hb1 A1].
  apply wp_bind. eapply wp_mono; [by apply release_srqs_ok|]. intros [] s2 [Hb2 A2].
  apply wp_bind. eapply wp_mono; [by apply release_mrs_ok|]. intros [] s3 [Hb3 A3].
  apply wp_bind. eapply wp_mono; [by apply release_cqs_ok|]. clear s Hi Hq Hm Hd0 Hc0 Hp0. intros [] s [Hb A4].
  assert (av s = no_names) as Ha by (by rewrite A4, A3, A2, A1). destruct Hb as (Hm4 & Hr4 & Hd4 & Hq4).
  pose proof (no_names_no_handles _ _ Hm4 Ha) as Hh. wget. destruct (ax_pd_valid (am_ctx s)) eqn:Hpd.
  - wget. apply wp_bind, (wp_dealloc_pd ops); [done|apply Hm4|]. intros s5 (Hc5 & Hd5 & Hr5 & Hs5). cbn in Hs5.
    apply wp_in_ctx. intros s6 Hc6 Hd6 Hp6. rewrite Hc5 in Hc6.
    assert (view_of (am_pv s6) = no_handles) as Hv6.
    { rewrite Hp6, Hs5, (mi_pd _ _ Hm4), Hpd, difference_diag_L. rewrite Hh. done. }
    split_and!; [split; [split; rewrite ?Hp6|]|..]; try done; [| |by rewrite Hc6|unfold av; by rewrite Hc6].
    + rewrite <-Hp6, Hv6, Hc6. rewrite Hh in Hm4. destruct Hm4. by split.
    + unfold av. rewrite Hc6, Hd6, Hd5. change (names_of _) with (av s). by rewrite Ha.
  - apply wp_ret. split_and!; [split; [split|]|..]; try done; [by rewrite Ha|]. rewrite Hh, (mi_pd _ _ Hm4), Hpd. done.
Qed.
End release.
