(* ===== verification/AdmReach.v ===== *)
(** * What the admin queue does to the data path

    Everything the admin queue asks of the data path is an operation of
    [dp_op] with arguments in range, so a data path under an admin queue is one
    of [reachable]'s and has every property of those. *)
From S2P Require Export AdmPoll DpTop.
From S2P Require Import AdmMaps AdmLoop.

Create HintDb reach discriminated.
#[export] Hint Constants Opaque : reach.

Section reach.
Context {E : Env} {T : Targets} {P : Type} (bo : option (RdmaBackendOps P)).
Abbreviation ADM := (ST (adm P)).

Definition dp_reaches (s s' : adm P) : Prop := reachable (am_dp s) -> reachable (am_dp s').
#[export] Instance dp_reaches_preorder : PreOrder dp_reaches.
Proof. split; [by intros s|]. unfold dp_reaches. auto. Qed.
Abbreviation R := dp_reaches.

Lemma on_dp_reach {A} (m : DP A) : (forall d, exists op, op_ok op /\ (m d).2 = (run_op op d).2) -> keeps R (on_dp m : ADM A).
Proof.
  intros Hm s Hs. unfold on_dp. destruct (Hm (am_dp s)) as (op & Hok & He). destruct (m (am_dp s)) as [a d]. cbn in *.
  rewrite He. by apply reach_step.
Qed.
Lemma on_dp_op {A} (m : DP A) op : op_ok op -> (forall d, (m d).2 = (run_op op d).2) -> keeps R (on_dp m : ADM A).
Proof. intros Hok He. apply on_dp_reach. intros d. by exists op. Qed.
Lemma void_run {A} (m : DP A) d : (m d).2 = (void m d).2.
Proof. unfold void. by rewrite run_bind. Qed.

Lemma on_rm_reach {A} (m : ST (PVRDMADev P) A) : keeps R (on_rm m : ADM A).
Proof. intros s Hs. unfold on_rm. by destruct (m (am_pv s)). Qed.
Lemma ctx_gets_reach {A} (f : ionic_adminq_ctx -> A) : keeps R (ctx_gets f : ADM A).
Proof. by intros s Hs. Qed.
Lemma in_ctx_reach f : keeps R (in_ctx f : ADM unit).
Proof. by intros s Hs. Qed.
Lemma rm_up_reach : keeps R (rm_up : ADM bool).
Proof. by intros s Hs. Qed.
Lemma dma_read_reach a n : keeps R (adm_dma_read a n : ADM _).
Proof. intros s Hs. unfold adm_dma_read, on_dp. by destruct s. Qed.
Lemma dma_write_reach a bs : keeps R (adm_dma_write a bs : ADM _).
Proof.
  apply on_dp_reach. intros d. unfold dp_dma_write. destruct (dma_write _ a bs) as [ok m]. exists (OpGuest m (dp_dev d)).
  split; [done|]. by destruct d.
Qed.

Lemma unregister_cq_reach c : keeps R (on_dp (ionic_datapath_unregister_cq c) : ADM _).
Proof. by apply (on_dp_op _ (OpUnregisterCq c)). Qed.
Lemma unregister_qp_reach c : keeps R (on_dp (ionic_datapath_unregister_qp c) : ADM _).
Proof. by apply (on_dp_op _ (OpUnregisterQp c)). Qed.
Lemma unregister_srq_reach c : keeps R (on_dp (ionic_datapath_unregister_srq c) : ADM _).
Proof. by apply (on_dp_op _ (OpUnregisterSrq c)). Qed.
Lemma unregister_mr_reach c : keeps R (on_dp (ionic_datapath_unregister_mr c) : ADM _).
Proof. by apply (on_dp_op _ (OpUnregisterMr c)). Qed.
Lemma unregister_ah_reach c : keeps R (on_dp (ionic_datapath_unregister_ah c) : ADM _).
Proof. by apply (on_dp_op _ (OpUnregisterAh c)). Qed.
Lemma register_ah_reach a d s m : keeps R (on_dp (ionic_datapath_register_ah a d s m) : ADM _).
Proof. by apply (on_dp_op _ (OpRegisterAh a d s m)). Qed.
Lemma bind_reach q i : keeps R (on_dp (ionic_datapath_bind_qp_srq q i) : ADM _).
Proof. by apply (on_dp_op _ (OpBindQpSrq q i)). Qed.
Lemma set_qkey_reach q k : keeps R (on_dp (ionic_datapath_set_qkey q k) : ADM _).
Proof. by apply (on_dp_op _ (OpSetQkey q k)). Qed.
Lemma set_dest_reach q d n : keeps R (on_dp (ionic_datapath_set_dest q d n) : ADM _).
Proof. by apply (on_dp_op _ (OpSetDest q d n)). Qed.
Lemma flush_reach q : keeps R (on_dp (ionic_datapath_flush_qp q) : ADM _).
Proof. by apply (on_dp_op _ (OpFlushQp q)). Qed.
Lemma reset_reach : keeps R (on_dp ionic_datapath_reset_rdma : ADM _).
Proof. by apply (on_dp_op _ OpResetRdma). Qed.
Lemma stat_reach e : keeps R (on_dp (stat e) : ADM _).
Proof. by apply (on_dp_op _ (OpStat e)). Qed.
Lemma node_reach g : keeps R (on_dp (ionic_dp_node_from_gid g) : ADM _).
Proof. apply (on_dp_op _ (OpNodeFromGid g)); [done|]. intros d. apply void_run. Qed.
Lemma event_reach (fn : ionic_dp_cq_event_fn_t E) a b :
  keeps R (on_dp (modify (fun d : ionic_datapath => let '(m, v) := fn a b (dp_mem d) (dp_dev d) in d <| dp_mem := m |> <| dp_dev := v |>)) : ADM _).
Proof.
  apply on_dp_reach. intros d. cbn. destruct (fn a b _ _) as [m v]. exists (OpGuest m v). done.
Qed.
Lemma register_cq_reach c e r : ring_desc_ok r -> keeps R (on_dp (ionic_datapath_register_cq c e r) : ADM _).
Proof. intros. apply (on_dp_op _ (OpRegisterCq c e r)); [done|]. intros d. apply void_run. Qed.
Lemma register_srq_reach i r : ring_desc_ok r -> keeps R (on_dp (ionic_datapath_register_srq i r) : ADM _).
Proof. intros. apply (on_dp_op _ (OpRegisterSrq i r)); [done|]. intros d. apply void_run. Qed.
Lemma register_qp_reach q ty sc sq rc rq :
  ring_desc_ok sq -> ring_desc_ok rq -> keeps R (on_dp (ionic_datapath_register_qp q ty sc sq rc rq) : ADM _).
Proof. intros. apply (on_dp_op _ (OpRegisterQp q ty sc sq rc rq)); [done|]. intros d. apply void_run. Qed.
Lemma register_mr_reach k va len buf :
  fits 64 va -> fits 64 len -> desc_ok buf -> keeps R (on_dp (ionic_datapath_register_mr k va len buf) : ADM _).
Proof. intros. apply (on_dp_op _ (OpRegisterMr k va len buf)); [done|]. intros d. apply void_run. Qed.

Lemma byte_at_fits body i : bytes_ok body -> fits 8 (body !!! i).
Proof.
  intros Hb. rewrite list_lookup_total_alt. destruct (body !! i) as [x|] eqn:Hx; [|done]. cbn. by apply (Forall_lookup_1 _ _ _ _ Hb) in Hx.
Qed.
Lemma buf_desc_at_ok body a b c : bytes_ok body -> desc_ok (BufDesc (ernic_get_le64 body a) (ernic_get_le32 body b) (body !!! c)).
Proof. intros Hb. split; [by apply get_le64_fits|split; [by apply get_le32_fits|by apply byte_at_fits]]. Qed.
Lemma ring_desc_at_ok body a b c d e : bytes_ok body -> ring_desc_ok (ring_desc_at body a b c d e).
Proof.
  intros Hb. split; [by apply buf_desc_at_ok|split; by apply byte_at_fits].
Qed.
End reach.
#[export] Hint Resolve on_rm_reach ctx_gets_reach in_ctx_reach rm_up_reach dma_read_reach dma_write_reach unregister_cq_reach
  unregister_qp_reach unregister_srq_reach unregister_mr_reach unregister_ah_reach register_ah_reach bind_reach set_qkey_reach
  set_dest_reach flush_reach reset_reach stat_reach node_reach event_reach : reach.

Ltac reach_step :=
  first [ solve [auto 2 with reach nocore]
        | apply register_cq_reach; by apply ring_desc_at_ok
        | apply register_srq_reach; by apply ring_desc_at_ok
        | apply register_qp_reach; by apply ring_desc_at_ok
        | apply register_mr_reach; [by apply get_le64_fits|by apply get_le64_fits|by apply buf_desc_at_ok]
        | keeps_step ].
Ltac reach_auto := repeat reach_step.

Section dispatch_reach.
Context {E : Env} {T : Targets} {P : Type} (bo : option (RdmaBackendOps P)).
Abbreviation ADM := (ST (adm P)).
Abbreviation R := (@dp_reaches E T P).

Lemma adm_stat_reach e : keeps R (adm_stat e : ADM _).
Proof. unfold adm_stat. reach_auto. Qed.
Lemma get_pd_reach : keeps R (adminq_get_pd bo : ADM _).
Proof. unfold adminq_get_pd, ernic_rm_alloc_pd. reach_auto. Qed.
Lemma parse_reach a n : keeps R (adminq_parse_roce_hdr a n : ADM _).
Proof. unfold adminq_parse_roce_hdr. reach_auto. Qed.
Lemma unwind_reach a b : keeps R (adminq_srq_unwind bo a b : ADM _).
Proof. unfold adminq_srq_unwind, ernic_rm_dealloc_srq. reach_auto. Qed.
Hint Resolve adm_stat_reach get_pd_reach parse_reach unwind_reach : reach.
Lemma stats_fault_reach : keeps R (stats_vals_fault : ADM _).
Proof. intros s Hs. unfold stats_vals_fault. repeat case_match; done. Qed.
Hint Resolve stats_fault_reach : reach.
Lemma stats_reach op body len : keeps R (handle_stats_op op body len : ADM _).
Proof. unfold handle_stats_op, stats_write_hdrs, stats_write_vals. reach_auto. Qed.
Hint Resolve stats_reach : reach.

Lemma dispatch_reach op body len : bytes_ok body -> keeps R (ionic_adminq_dispatch_wqe bo op body len).
Proof.
  intros Hb. unfold ionic_adminq_dispatch_wqe, handle_create_cq_op, handle_create_qp_op, handle_create_srq_op,
    handle_modify_srq_op, handle_query_srq_op, handle_destroy_srq_op, handle_create_mr_op, handle_destroy_mr_op,
    handle_destroy_cq_op, handle_destroy_qp_op, handle_modify_qp_op, handle_query_qp_op, handle_create_ah_op,
    handle_destroy_ah_op, with_body, create_qp_make, create_srq_answer, modify_qp_dest, modify_qp_apply,
    ernic_rm_alloc_cq, ernic_rm_dealloc_cq, ernic_rm_alloc_srq, ernic_rm_dealloc_srq, ernic_rm_modify_srq, ernic_rm_query_srq,
    ernic_rm_alloc_qp, ernic_rm_dealloc_qp, ernic_rm_alloc_mr, ernic_rm_dealloc_mr, ernic_rm_modify_qp, ernic_rm_query_qp.
  reach_auto.
Qed.

Lemma post_cqe_reach i c o st rl : keeps R (ionic_adminq_post_cqe i c o st rl : ADM unit).
Proof. unfold ionic_adminq_post_cqe, upd_aq. reach_auto. Qed.
Hint Resolve post_cqe_reach : reach.

Lemma poll_reach `{!GuestMemLaws Mem} s :
  aqs_ok (am_ctx s) -> reachable (am_dp s) -> reachable (am_dp (ionic_adminq_poll bo s).2).
Proof.
  intros Hq Hr. refine (proj1 (poll_pres bo (fun s => reachable (am_dp s)) _ _ _ _ s (conj Hr Hq))).
  - intros op body len Hb s0 Hs. by apply dispatch_reach.
  - intros i c o st rl s0 Hs. by apply post_cqe_reach.
  - intros s0 Hs. by apply adm_stat_reach.
  - by intros i f s0 Hs.
Qed.

Lemma release_all_reach : keeps R (ionic_adminq_release_all bo).
Proof.
  unfold ionic_adminq_release_all, release_qp, release_srq, release_mr, release_cq, ernic_rm_dealloc_qp, ernic_rm_dealloc_srq,
    ernic_rm_dealloc_mr, ernic_rm_dealloc_cq, ernic_rm_dealloc_pd. reach_auto.
Qed.
End dispatch_reach.
