(* ===== verification/Device.v ===== *)
(** * The RDMA device

    The admin queue, the event queues, the resource manager and the data path
    as the server's main loop drives them: device commands, doorbells, polls.
    [device_invariant] is what ties the components together in every reachable
    state. *)
From S2P Require Export RdmaDevcmd AdmRelease AdmReach RdmaRmProps.

(** What the server asks of the data path itself, past the admin queue. *)
Definition server_op `{E : Env} (op : dp_op) : bool :=
  match op with
  | OpDoorbell _ _ | OpMeshRecv _ _ | OpPoll _ | OpResetCounters | OpSetPvrdma _ | OpSetCqEventCb _ | OpGuest _ _ | OpStat _ => true
  | _ => false
  end.

Inductive dev_op `{E : Env} :=
  | DevDevcmd (alloc : bool) (cmd : list Z)
  | DevAqDoorbell (qid p_index : Z)
  | DevAdminPoll
  | DevDp (op : dp_op)
  | DevVfu (set : bool).
Definition dev_op_ok `{E : Env} (op : dev_op) : Prop :=
  match op with
  | DevDevcmd _ cmd => bytes_ok cmd
  | DevDp op => op_ok op /\ server_op op = true
  | _ => True
  end.

Section device.
Context {E : Env} {T : Targets} {D : DevParts} {V : VfuIrq} {P : Type} (ops : RdmaBackendOps P) `{!BackendLaws ops}.
Abbreviation bo := (Some ops).
Abbreviation RD := (ST (@rdma_dev E P)).
Implicit Types v : @rdma_dev E P.

Definition dev_run (op : dev_op) : RD unit :=
  match op with
  | DevDevcmd alloc cmd => _ ← ionic_rdma_devcmd_dispatch bo alloc cmd; mret tt
  | DevAqDoorbell qid p_index => with_adminq (in_ctx (ionic_adminq_update_prod qid p_index))
  | DevAdminPoll => with_adminq (ionic_adminq_poll bo)
  | DevDp op => modify (fun v => v <| rv_dp := (run_op op (rv_dp v)).2 |>)
  | DevVfu set => modify (fun v => v <| rv_vfu := set |>)
  end.

(** ionic_rdma_devcmd_create(), given the handle, the counters and the faults. *)
Definition ionic_rdma_devcmd_create (stats : bool) (faults : option ionic_fault_set) : @ionic_rdma_devcmd_state E :=
  DevcmdState 0 0 0 0 0 false (replicate MAX_AQ inhabitant) 0 None true stats faults.

Inductive dev_reach : @rdma_dev E P -> Prop :=
  | dev_start m dev d pv vfu stats faults :
      ionic_datapath_create m dev = Some d -> rm_fresh ops pv -> dev_reach (RdmaDev (ionic_rdma_devcmd_create stats faults) d pv vfu)
  | dev_step op v : dev_reach v -> dev_op_ok op -> dev_reach (dev_run op v).2.

(** The admin queue's own state, when there is a context. *)
Definition adm_of v (c : ionic_adminq_ctx) : adm P := Adm c (rv_dp v) (rv_pv v) (rv_vfu v).

Record rdma_dev_inv v : Prop := {
  ri_up : ds_pvrdma_handle (rv_s v) = true;
  ri_aq : length (ds_aq (rv_s v)) = MAX_AQ /\ 0 <= ds_aq_count (rv_s v) <= Z.of_nat MAX_AQ;
  ri_pending : 0 <= ds_pending_cq_depth_log2 (rv_s v);
  ri_adm : match ds_adminq_ctx (rv_s v) with
           | Some c => dev_inv ops (adm_of v c)
           | None => rm_inv ops (rv_pv v) /\ view_of (rv_pv v) = no_handles /\ dp_has no_names (rv_dp v)
           end;
  ri_dp : reachable (rv_dp v) }.
End device.

Section device_inv.
Context {E : Env} {T : Targets} {TL : TargetsLaws} {ML : GuestMemLaws Mem} {D : DevParts} {V : VfuIrq}.
Context {P : Type} (ops : RdmaBackendOps P) `{!BackendLaws ops}.
Abbreviation bo := (Some ops).
Abbreviation RD := (ST (@rdma_dev E P)).
Abbreviation inv := (rdma_dev_inv ops).
Implicit Types v : @rdma_dev E P.

Lemma dev_inv_vfu c d p u u' : dev_inv ops (Adm c d p u : adm P) -> dev_inv ops (Adm c d p u').
Proof. intros [[] ?]. by split. Qed.

(** A call on the admin queue keeps the invariant if it keeps the admin
    queue's. *)
Lemma with_adminq_inv m :
  (forall s : adm P, dev_inv ops s -> reachable (am_dp s) -> dev_inv ops (m s).2 /\ reachable (am_dp (m s).2)) ->
  keeps (preserves inv) (with_adminq m : RD unit).
Proof.
  intros Hm v [H1 H2 H3 H4 H5]. unfold with_adminq, modify. cbn. destruct (ds_adminq_ctx (rv_s v)) as [c|] eqn:Hc; [|by split; rewrite ?Hc].
  destruct (Hm (adm_of v c) H4 H5) as [H6 H7]. fold (adm_of v c).
  destruct (m (adm_of v c)).2 as [c' d' p' u'] eqn:Hr. split; try done. by eapply dev_inv_vfu.
Qed.
Lemma poll_inv : keeps (preserves inv) (with_adminq (ionic_adminq_poll bo) : RD unit).
Proof. apply with_adminq_inv. intros s Hi Hr. split; [by apply poll_dev_inv|by apply (poll_reach bo s (proj2 Hi) Hr)]. Qed.
Lemma doorbell_inv qid p : keeps (preserves inv) (with_adminq (in_ctx (ionic_adminq_update_prod qid p)) : RD unit).
Proof.
  apply with_adminq_inv. intros s [Hi Hq] Hr. split; [|done]. split; [|by apply update_prod_aqs_ok].
  apply (adm_inv_same ops s); [done| |apply Hi|done..]. unfold ionic_adminq_update_prod. cbn. by repeat case_match.
Qed.

(** ** The data path on its own *)
Lemma server_op_names op : server_op op = true -> keeps (same_names None None None) (run_op op).
Proof.
  intros Hs. destruct op; try done; cbn [run_op]; unfold void; try names_auto.
  intros d. unfold ionic_datapath_set_pvrdma. rewrite run_bind, run_modify. by destruct handle.
Qed.

(** Only the data path changed, and no name of it. *)
Lemma dp_only_inv v d :
  inv v -> same_names None None None (rv_dp v) d -> reachable d -> inv (v <| rv_dp := d |>).
Proof.
  intros [H1 H2 H3 H4 H5] Hn Hr. split; try done. cbn. destruct (ds_adminq_ctx (rv_s v)) as [c|].
  - destruct H4 as [Hi Hq]. split; [|done].
    destruct (undone ops (adm_of v c) (adm_of (v <| rv_dp := d |>) c)) as [? _]; try done. apply Hi.
  - destruct H4 as (? & ? & ?). split_and!; [done..|]. by eapply dp_has_same.
Qed.
Lemma server_op_inv op v : op_ok op -> server_op op = true -> inv v -> inv (v <| rv_dp := (run_op op (rv_dp v)).2 |>).
Proof. intros Hok Hs Hi. apply dp_only_inv; [done|by apply server_op_names|]. apply DpTop.reach_step; [apply Hi|done]. Qed.
Lemma upd_eqs_inv f : keeps (preserves inv) (upd_eqs f : RD unit).
Proof.
  intros v Hi. apply (dp_only_inv v); [done|done|].
  apply (DpTop.reach_step (rv_dp v) (OpGuest (dp_mem (rv_dp v)) (set_dev_eqs (f (dev_eqs (dp_dev (rv_dp v)))) (dp_dev (rv_dp v))))); [apply Hi|done].
Qed.

(** ** Device commands *)
Lemma upd_s_inv v f :
  inv v -> ds_pvrdma_handle (f (rv_s v)) = ds_pvrdma_handle (rv_s v) ->
  length (ds_aq (f (rv_s v))) = MAX_AQ -> 0 <= ds_aq_count (f (rv_s v)) <= Z.of_nat MAX_AQ ->
  0 <= ds_pending_cq_depth_log2 (f (rv_s v)) -> ds_adminq_ctx (f (rv_s v)) = ds_adminq_ctx (rv_s v) ->
  inv (upd_s f v).2.
Proof.
  intros [H1 H2 H3 H4 H5] E1 E2 E3 E4 E5. split; cbn; [congruence|done|done|by rewrite E5|done].
Qed.

Lemma reset_inv : keeps (preserves inv) (handle_rdma_reset bo : RD Z).
Proof.
  intros v0 Hi0. unfold handle_rdma_reset. rewrite run_bind. apply (upd_eqs_inv (fun _ => no_eqs)) in Hi0.
  set (v1 := (upd_eqs (fun _ => no_eqs) v0).2) in *. clearbody v1. rewrite run_bind.
  match goal with |- context [upd_s ?f v1] => assert (inv (upd_s f v1).2) as Hi; [apply upd_s_inv; try done; apply Hi0|] end.
  set (v := (upd_s _ v1).2) in *. clearbody v. rewrite run_bind. unfold with_adminq, modify. cbn [snd].
  destruct Hi as [H1 H2 H3 H4 H5]. rewrite run_bind, run_ret. cbn [snd].
  destruct (ds_adminq_ctx (rv_s v)) as [c|] eqn:Hc; [|by split].
  destruct (release_all_ok ops (adm_of v c) H4) as (Hd & Ha & Hv). fold (adm_of v c).
  pose proof (release_all_reach bo (adm_of v c) H5) as Hr. destruct (ionic_adminq_release_all bo (adm_of v c)).2 as [c' d' p' u'].
  cbn in *. split; try done. cbn. destruct Hd as [[? ? Hdp] ?]. split_and!; [done..|]. by rewrite <-Ha.
Qed.
Lemma create_eq_inv cmd : keeps (preserves inv) (handle_create_eq cmd : RD Z).
Proof.
  unfold handle_create_eq. keeps_step; [by intros v|]. repeat (keeps_step; try apply upd_eqs_inv).
Qed.
Lemma create_cq_inv cmd : bytes_ok cmd -> keeps (preserves inv) (handle_create_cq cmd : RD Z).
Proof.
  intros Hb. unfold handle_create_cq. keeps_step; [by keeps_step|]. keeps_step; [|by keeps_step].
  intros v Hi. apply upd_s_inv; try done; [apply Hi..|]. by apply byte_at_fits.
Qed.

(** A context made anew agrees with a device that holds nothing. *)
Lemma fresh_ctx_inv v s :
  rm_inv ops (rv_pv v) -> view_of (rv_pv v) = no_handles -> dp_has no_names (rv_dp v) -> ds_pvrdma_handle s = true ->
  dev_inv ops (adm_of v (wire_adminq_ctx s ionic_adminq_create)).
Proof.
  intros Hr Hv Hd Hup. destruct (@map_ok_fresh _ cq_map_entry MAX_CQ_MAP inhabitant) as [Mc Nc]; [done|].
  destruct (@map_ok_fresh _ qp_map_entry MAX_QP_MAP inhabitant) as [Mq Nq]; [done|].
  destruct (@map_ok_fresh _ srq_map_entry MAX_SRQ_MAP inhabitant) as [Ms Ns]; [done|]. destruct mr_ok_fresh as [Mr Nr].
  assert (av (adm_of v (wire_adminq_ctx s ionic_adminq_create)) = no_names) as Ha.
  { unfold av, names_of, no_names. f_equal; done. }
  split; [|apply create_aqs_ok]. split; [done| |by rewrite Ha].
  change (am_pv _) with (rv_pv v). rewrite Hv. split; try done.
  intros i e [-> _]%lookup_replicate. done.
Qed.
Lemma register_queue_dev_inv i a d cd cdl ci ei (s : adm P) :
  0 <= d -> 0 <= cdl -> dev_inv ops s ->
  dev_inv ops (s <| am_ctx := (ionic_adminq_register_queue i a d cd cdl ci ei (am_ctx s)).2 |>).
Proof.
  intros Hd Hcd [Hi Hq]. split; [|by apply register_queue_aqs_ok].
  apply (adm_inv_same ops s); [done| |apply Hi|done..]. unfold ionic_adminq_register_queue. cbn. by repeat case_match.
Qed.

Lemma create_adminq_inv alloc cmd : bytes_ok cmd -> keeps (preserves inv) (handle_create_adminq alloc cmd : RD Z).
Proof.
  intros Hb v0 Hi0. unfold handle_create_adminq, get_s. rewrite run_bind, run_gets. cbn [fst snd id]. set (s := rv_s v0) in *.
  destruct (_ <=? ds_aq_count s) eqn:Hfull; [done|]. destruct (negb (ds_pending_cq_valid s)); [done|]. cbv zeta.
  destruct (_ <? cmd !!! RDMA_QUEUE_DEPTH_OFF); [done|]. rewrite run_bind. set (aq := RdmaAq _ _ _ _ _ _ _ _ _ _). bdestr.
  match goal with |- context [upd_s ?f v0] => assert (inv (upd_s f v0).2) as Hi end.
  { destruct Hi0 as [I1 [I2 I3] I4 I5 I6]. apply upd_s_inv; try done; cbn; [by rewrite length_insert|fold s in I3; lia]. }
  set (v1 := (upd_s _ v0).2) in *.
  assert (ds_adminq_ctx (rv_s v1) = ds_adminq_ctx s /\ ds_aq_count (rv_s v1) = ds_aq_count s + 1) as [Hctx Hcnt] by done.
  assert (0 <= ds_aq_count s) as Hc0 by (apply Hi0). assert (0 <= ds_pending_cq_depth_log2 s) as Hpd by (apply Hi0). clearbody v1.
  destruct (_ && _) eqn:Hal; [done|]. rewrite run_bind.
  set (m := if bool_decide _ then _ else _). assert (exists c, ds_adminq_ctx (rv_s (m v1).2) = Some c /\ inv (m v1).2 /\
    ds_aq_count (rv_s (m v1).2) = ds_aq_count s + 1) as (c & Hc & Hi2 & Hn2).
  { subst m. destruct Hi as [I1 I2 I3 I4 I5]. rewrite Hctx in I4. destruct (ds_adminq_ctx s) as [c|].
    - exists c. split_and!; [done| |done]. split; try done. cbn. by rewrite Hctx.
    - eexists. split_and!; [done| |done]. split; try done. destruct I4 as (? & ? & ?). by apply fresh_ctx_inv. }
  set (v2 := (m v1).2) in *. clearbody v2. rewrite run_bind, run_gets. cbn [fst snd]. rewrite Hc. cbn [default from_option id].
  destruct Hi2 as [J1 J2 J3 J4 J5]. rewrite Hc in J4.
  set (dma := ernic_get_le64 cmd RDMA_QUEUE_DMA_OFF) in *. set (d := cmd !!! RDMA_QUEUE_DEPTH_OFF) in *.
  assert (0 <= d) as Hd by (by apply byte_at_fits).
  pose proof (register_queue_dev_inv (ds_aq_count s) dma d (ds_pending_cq_dma s) (ds_pending_cq_depth_log2 s) (ra_cq_id aq) (ra_eq_id aq)
    (adm_of v2 c) Hd Hpd J4) as Hreg. cbn [am_ctx adm_of] in Hreg. destruct (ionic_adminq_register_queue _ _ _ _ _ _ _ c) as [ok c'].
  cbn [snd] in Hreg. rewrite run_bind. cbn [fst snd]. set (v3 := (upd_s _ v2).2).
  assert (inv v3) as Hi3 by (by split). assert (ds_aq_count (rv_s v3) = ds_aq_count s + 1) as Hn3 by done. clearbody v3.
  destruct (negb ok); [|done]. rewrite run_bind. destruct Hi3 as [K1 [K2 K3] K4 K5 K6].
  apply upd_s_inv; try done; cbn; [by rewrite length_insert|lia].
Qed.

Lemma devcmd_inv alloc cmd : bytes_ok cmd -> keeps (preserves inv) (ionic_rdma_devcmd_dispatch bo alloc cmd : RD (list Z)).
Proof.
  intros Hb. unfold ionic_rdma_devcmd_dispatch. keeps_step; [|by keeps_step].
  repeat case_match; [apply reset_inv|apply create_eq_inv|by apply create_cq_inv|by apply create_adminq_inv|by keeps_step].
Qed.

Lemma dev_reach_inv v : dev_reach ops v -> inv v.
Proof.
  induction 1 as [m dev d pv vfu stats faults Hd Hpv|op v _ IH Hok].
  - assert (dp_has no_names d) as Hdp.
    { unfold ionic_datapath_create in Hd. destruct (forallb _ _); [|done]. injection Hd as <-. split; [..|done]; intros i; done. }
    split; try done; cbn; [|by eapply reach_create]. split_and!; [by apply rm_fresh_inv| |done].
    destruct Hpv as (_ & _ & mem & a & r0 & Hi & H1 & H2 & H3 & H4 & H5).
    apply rm_init_ok in Hi as (_ & _ & _ & _ & _ & E1 & E2 & _ & E3 & E4 & _ & E5); [|done..].
    unfold view_of. by rewrite E1, E2, E3, E4, E5, dom_empty_L.
  - destruct op; cbn [dev_run].
    + rewrite run_bind. by apply devcmd_inv.
    + by apply doorbell_inv.
    + by apply poll_inv.
    + destruct Hok. by apply server_op_inv.
    + destruct IH as [H1 H2 H3 H4 H5]. split; try done. cbn. destruct (ds_adminq_ctx (rv_s v)); [|done]. by eapply dev_inv_vfu.
Qed.
End device_inv.
