(* ===== verification/DevProps.v ===== *)
(** * The RDMA device: the theorems *)
From S2P Require Export Device DpHist.

(** * A concrete device

    The environment [ex_env] with the event queues and the interrupt vectors
    as the device's other parts, on the loopback backend: an event queue and an
    admin ring set up by device commands, and a driver that creates a
    completion queue through it.  The closed examples of the device theorems
    run on it. *)
#[export] Instance ex_vfu_irq : VfuIrq := fun _ _ => 0.

Definition dx_env : Env := {|
  Mem := @Mem ex_env;
  env_mem := @env_mem ex_env;
  MeshSt := ex_mesh;
  mesh_local_node := @mesh_local_node ex_env;
  mesh_node_from_gid := @mesh_node_from_gid ex_env;
  mesh_sendv := @mesh_sendv ex_env;
  mesh_has_room := @mesh_has_room ex_env;
  mesh_cancel := @mesh_cancel ex_env;
  Dev := rdma_eqs * irqs;
  dev_trigger_irq vec d := (d.1, (ionic_eth_emu_trigger_irq vec d.2).2);
  now_ms := @now_ms ex_env;
  alloc_ok := @alloc_ok ex_env;
|}.
Lemma dx_laws : GuestMemLaws (@Mem dx_env).
Proof. exact ex_laws. Defined.

Definition dx_parts : @DevParts dx_env.
Proof.
  refine {| dev_eqs := fst : @Dev dx_env -> _; set_dev_eqs x d := (x, d.2) : @Dev dx_env; dev_irqs := snd : @Dev dx_env -> _;
            set_dev_irqs x d := (d.1, x) : @Dev dx_env; dev_has_emu _ := true |}; done.
Defined.

Abbreviation dx_dev := (@rdma_dev dx_env (option LoopbackBackendPrivate)).
Abbreviation dx_reach := (@dev_reach dx_env no_targets dx_parts ex_vfu_irq _ ops_loopback).

Definition dx0 : dx_dev :=
  RdmaDev (ionic_rdma_devcmd_create true None)
    (default (Dp (E := dx_env) (∅ : @Mem ex_env) (no_eqs, irqs_create) None None ∅ ∅ ∅ ∅ ∅ 0 0 0 0 0 0 0 [] [] 0 0 0 0 false 0 0 false 0 0 IONIC_STS_OK 0 no_counts 0 [])
       (ionic_datapath_create (E := dx_env) ∅ (no_eqs, irqs_create))) ex_rm0 true.
Lemma dx0_reach : dx_reach dx0.
Proof.
  eapply dev_start; [reflexivity|]. split_and!; [|done|].
  - eexists. split; [done|]. split; [unfold fits; cbn; unfold LOOPBACK_FIRST_QPN; lia|]. done.
  - exists (fun _ => (true, true)), ex_attr, inhabitant. split_and!; [vm_compute; reflexivity|done..].
Qed.

Definition dx_run (ops : list (@dev_op dx_env)) (v : dx_dev) : dx_dev :=
  foldl (fun v op => (@dev_run dx_env no_targets dx_parts ex_vfu_irq _ ops_loopback op v).2) v ops.
Lemma dx_run_reach ops v : Forall dev_op_ok ops -> dx_reach v -> dx_reach (dx_run ops v).
Proof.
  revert v. induction ops as [|op ops IH]; intros v Hok Hv; [done|]. apply list.Forall_cons in Hok as [Ho Hok].
  apply IH; [done|]. by apply dev_step.
Qed.

(** A queue set-up command. *)
Definition dx_queue (op qid cid depth_log2 stride_log2 dma : Z) : list Z :=
  let c := bput (zeros 64) 0 [op] in
  let c := ernic_put_le32 c RDMA_QUEUE_QID_VER_OFF qid in
  let c := ernic_put_le32 c RDMA_QUEUE_CID_OFF cid in
  let c := bput c RDMA_QUEUE_DEPTH_OFF [depth_log2; stride_log2] in
  ernic_put_le64 c RDMA_QUEUE_DMA_OFF dma.

(** The work request that creates completion queue [cq_id] on event queue 0,
    four entries of 32 bytes at [dma], and one that does nothing and says it is
    [len] bytes long. *)
Definition dx_create_cq (cq_id dma : Z) : list Z :=
  let w := ernic_put_le16 (bput (zeros 64) 0 [IONIC_V1_ADMIN_CREATE_CQ]) 2 34 in
  let w := ernic_put_le32 w (4 + 12) cq_id in
  let w := bput w (4 + 4) [2; 5; 0; 12] in
  let w := ernic_put_le32 w (4 + 20) 1 in
  ernic_put_le64 w (4 + 24) dma.
Definition dx_noop (len : Z) : list Z := ernic_put_le16 (bput (zeros 64) 0 [IONIC_V1_ADMIN_NOOP]) 2 len.

(** The admin ring: CREATE_CQ 5, two requests that do nothing, and one of two
    strides that starts in the ring's last slot. *)
Definition dx_ram : host := host_write ∅ 0x1000 (dx_create_cq 5 0x5000 ++ dx_noop 0 ++ dx_noop 0 ++ dx_noop 100).
Definition dx_setup : list (@dev_op dx_env) :=
  [ DevDevcmd true (dx_queue IONIC_CMD_RDMA_CREATE_EQ 0 3 4 2 0x3000);
    DevDevcmd true (dx_queue IONIC_CMD_RDMA_CREATE_CQ 1 0 2 5 0x2000);
    DevDevcmd true (dx_queue IONIC_CMD_RDMA_CREATE_ADMINQ 0 0 2 6 0x1000) ].
Definition dx1 : dx_dev := dx_run dx_setup dx0.
Definition dx_posted : dx_dev :=
  dx_run [DevDp (OpGuest (dx_ram : @Mem dx_env) (dp_dev (rv_dp dx1))); DevAqDoorbell 0 3] dx1.
Definition dx_polled : dx_dev := dx_run [DevAdminPoll] dx_posted.
Definition dx_ctx (v : dx_dev) : @ionic_adminq_ctx dx_env := default ionic_adminq_create (ds_adminq_ctx (rv_s v)).
Lemma dx_has_ctx v : bool_decide (is_Some (ds_adminq_ctx (rv_s v))) = true -> ds_adminq_ctx (rv_s v) = Some (dx_ctx v).
Proof. unfold dx_ctx. by destruct (ds_adminq_ctx _). Qed.

Lemma dx_posted_reach : dx_reach dx_posted.
Proof.
  apply dx_run_reach; [repeat constructor|]. apply dx_run_reach; [|apply dx0_reach].
  unfold dx_setup. do 3 (apply Forall_cons_2; [cbn [dev_op_ok]; bytes_by_computation|]). done.
Qed.
Lemma dx_polled_reach : dx_reach dx_polled.
Proof. apply dx_run_reach; [repeat constructor|apply dx_posted_reach]. Qed.

(** What the poll does: completion queue 5 exists, under handle 0 of the
    resource manager, and the ring has been taken to its producer. *)
Example dx_polled_cq : adminq_lookup_cq 5 (dx_ctx dx_polled) = Some 0 /\ c_valid (cq_at 5 (rv_dp dx_polled)) = true.
Proof. vm_compute. done. Qed.
Example dx_polled_ring : aq_cons (aq_at 0 (dx_ctx dx_polled)) = 3 /\ aq_cq_prod (aq_at 0 (dx_ctx dx_polled)) = 3.
Proof. vm_compute. done. Qed.

Section claims.
Context {E : Env} {T : Targets} {TL : TargetsLaws} {ML : GuestMemLaws Mem} {D : DevParts} {V : VfuIrq}.
Context {P : Type} (ops : RdmaBackendOps P) `{!BackendLaws ops}.
Abbreviation bo := (Some ops).
Implicit Types (v : @rdma_dev E P) (c : @ionic_adminq_ctx E).

Definition mr_handle_at c (slot : Z) : option Z :=
  let e := mr_entry_at slot c in if me_valid e then Some (me_handle e) else None.
Lemma mr_handle_bij c hs : mr_ok (ax_mr_map c) hs -> one_to_one (mr_handle_at c) hs.
Proof.
  intros [_ Hinj Himg]. assert (forall k h, mr_handle_at c k = Some h <-> k ∈ mr_names (ax_mr_map c) /\ me_handle (ax_mr_map c !!! k) = h) as Hk.
  { intros k h. rewrite elem_of_mr_names. unfold mr_handle_at, mr_entry_at. cbv zeta. destruct (me_valid _); naive_solver. }
  split.
  - intros h. rewrite Himg. by setoid_rewrite Hk.
  - intros k l h [Hx <-]%Hk [Hy He]%Hk. by apply Hinj.
Qed.

(** The driver's names, the resource manager's handles and the data path's
    objects of one device. *)
Record in_step c v : Prop := {
  is_cq : one_to_one (fun id => adminq_lookup_cq id c) (v_cqs (view_of (rv_pv v)));
  is_qp : one_to_one (fun id => adminq_lookup_qp id c) (v_qps (view_of (rv_pv v)));
  is_srq : one_to_one (fun id => adminq_lookup_srq id c) (v_srqs (view_of (rv_pv v)));
  is_mr : one_to_one (mr_handle_at c) (v_mrs (view_of (rv_pv v)));
  is_dp_cq id : c_valid (cq_at id (rv_dp v)) = true <-> is_Some (adminq_lookup_cq id c);
  is_dp_qp id : q_valid (qp_at id (rv_dp v)) = true <-> is_Some (adminq_lookup_qp id c);
  is_dp_srq id : sr_valid (srq_at id (rv_dp v)) = true <-> is_Some (adminq_lookup_srq (IONIC_SRQ_QID_BASE + id) c) }.

Lemma dev_inv_in_step c v : dev_inv ops (adm_of v c) -> in_step c v.
Proof.
  intros [[_ Hm [Hc Hq Hr _]] _]. cbn in *. destruct Hm as [_ Mc Mq Ms _ Mr _ _ _].
  split; try (exact (lookup_of_bij _ _ _ Mc)); try (exact (lookup_of_bij _ _ _ Mq)); try (exact (lookup_of_bij _ _ _ Ms)).
  - by apply mr_handle_bij.
  - intros id. rewrite Hc, bool_decide_eq_true. symmetry. exact (lookup_of_is_Some _ _ _ id Mc).
  - intros id. rewrite Hq, bool_decide_eq_true. symmetry. exact (lookup_of_is_Some _ _ _ id Mq).
  - intros id. rewrite Hr, bool_decide_eq_true. symmetry. exact (lookup_of_is_Some _ _ _ (IONIC_SRQ_QID_BASE + id) Ms).
Qed.

(** C1: in every state the device reaches, by device commands, doorbells, polls
    of the admin queue and whatever else the server asks of the data path, the
    components agree: the driver's names of CQs, QPs, SRQs and MRs are one to
    one with the resource manager's live handles, and the data path has exactly
    the queues that have a name.  With no admin queue there is nothing anywhere.
    The data path under it keeps its own invariant. *)
Theorem device_invariant v :
  dev_reach ops v ->
  dp_inv (rv_dp v) /\
  match ds_adminq_ctx (rv_s v) with
  | Some c => in_step c v
  | None => view_of (rv_pv v) = no_handles /\
      forall id, c_valid (cq_at id (rv_dp v)) = false /\ q_valid (qp_at id (rv_dp v)) = false /\ sr_valid (srq_at id (rv_dp v)) = false
  end.
Proof.
  intros [_ _ _ Ha Hd]%dev_reach_inv. split; [by apply reachable_dp_inv|]. destruct (ds_adminq_ctx (rv_s v)) as [c|].
  - by apply dev_inv_in_step.
  - destruct Ha as (_ & Hv & [Hc Hq Hr _]). split; [done|]. intros id. by rewrite Hc, Hq, Hr.
Qed.

(** C2: every admin command does to the driver's names what [adm_spec] says,
    whatever state the device has reached and whatever the command's bytes:
    CREATE adds one name that was free, and CREATE_QP needs its CQs and SRQ to
    exist; DESTROY takes out its name and nothing else; MODIFY and QUERY need
    theirs; no other command, and none that fails, changes a name. *)
Theorem admin_refines_names v c op body len :
  dev_reach ops v -> ds_adminq_ctx (rv_s v) = Some c -> bytes_ok body ->
  let '(st, a) := ionic_adminq_dispatch_wqe bo op body len (adm_of v c) in
  adm_spec op body st (names_of c) (names_of (am_ctx a)).
Proof.
  intros [_ _ _ Ha _]%dev_reach_inv Hc Hb. rewrite Hc in Ha. destruct Ha as [Hi _].
  pose proof (dispatch_ok ops op body len Hb (adm_of v c) Hi) as [_ Hs]. by destruct (ionic_adminq_dispatch_wqe _ _ _ _ _).
Qed.

Lemma reset_state v :
  (handle_rdma_reset bo v).1 = 0 /\ ds_adminq_ctx (rv_s (handle_rdma_reset bo v).2) = None /\
  ds_aq_count (rv_s (handle_rdma_reset bo v).2) = 0.
Proof.
  unfold handle_rdma_reset. rewrite !run_bind, run_ret. cbn [fst snd]. unfold with_adminq, upd_s, modify. cbn [fst snd].
  split_and!; try done. by case_match.
Qed.

(** C33: RDMA_RESET_LIF leaves nothing: from any state, the resource manager
    has no live object, the data path no queue, the admin queue is gone, and the command
    succeeds. *)
Theorem reset_lif_releases_all v alloc cmd :
  dev_reach ops v -> bytes_ok cmd -> cmd !!! 0%nat = IONIC_CMD_RDMA_RESET_LIF ->
  let '(comp, v') := ionic_rdma_devcmd_dispatch bo alloc cmd v in
  comp = zeros 16 /\ ds_adminq_ctx (rv_s v') = None /\ ds_aq_count (rv_s v') = 0 /\ view_of (rv_pv v') = no_handles /\
  (forall id, c_valid (cq_at id (rv_dp v')) = false /\ q_valid (qp_at id (rv_dp v')) = false /\ sr_valid (srq_at id (rv_dp v')) = false).
Proof.
  intros Hr Hb Hop. pose proof (devcmd_inv ops alloc cmd Hb v (dev_reach_inv ops v Hr)) as Hi.
  destruct (reset_state v) as (Hn1 & Hn2 & Hn3).
  assert (ionic_rdma_devcmd_dispatch bo alloc cmd v = (zeros 16, (handle_rdma_reset bo v).2)) as He.
  { unfold ionic_rdma_devcmd_dispatch. cbv zeta. rewrite Hop, run_bind. 
    change (IONIC_CMD_RDMA_RESET_LIF =? IONIC_CMD_RDMA_RESET_LIF) with true. cbv iota. by rewrite Hn1. }
  rewrite He in *. cbn [snd] in Hi. destruct Hi as [_ _ _ Ha _]. rewrite Hn2 in Ha. destruct Ha as (_ & Hv & [H1 H2 H3 _]).
  by split_and!.
Qed.

Lemma reach_ring v c i r :
  dev_reach ops v -> ds_adminq_ctx (rv_s v) = Some c -> ax_aq c !! i = Some r -> aq_valid r = true -> aq_ok r.
Proof.
  intros [_ _ _ Ha _]%dev_reach_inv Hc Hr Hv. rewrite Hc in Ha. destruct Ha as [_ (_ & _ & Ho)]. by eapply Ho.
Qed.

(** C34: polling an admin ring ends, and takes everything the driver posted.
    The loop comes to its end within one turn per pending stride and one more;
    if no read of the ring fails it stops with the consumer index at the
    producer index; the ring is otherwise registered as it was, and no other
    ring changes. *)
Theorem admin_poll_drains v c i r :
  dev_reach ops v -> ds_adminq_ctx (rv_s v) = Some c -> ax_aq c !! i = Some r -> aq_valid r = true ->
  (aq_loop bo (S (Z.to_nat (aq_pending r))) i (aq_pending r) 0 (adm_of v c)).1 = true /\
  exists r', ax_aq (am_ctx (poll_aq bo i (adm_of v c)).2) = <[i := r']> (ax_aq c) /\
    aq_dma r' = aq_dma r /\ aq_depth r' = aq_depth r /\ aq_prod r' = aq_prod r /\
    (ring_readable r -> aq_cons r' = aq_prod r).
Proof.
  intros Hv Hc Hr Hval. pose proof (reach_ring v c i r Hv Hc Hr Hval) as Hok. destruct (pending_bounds r Hok) as [Hp _]. split.
  - assert (wp (aq_loop bo (S (Z.to_nat (aq_pending r))) i (aq_pending r) 0) (fun b _ => b = true) (adm_of v c)) as Hw; [|exact Hw].
    eapply aq_loop_ok; [done..|lia|lia|lia|done].
  - assert (wp (poll_aq bo i) (fun _ a => exists r', ax_aq (am_ctx a) = <[i := r']> (ax_aq c) /\
      aq_dma r' = aq_dma r /\ aq_depth r' = aq_depth r /\ aq_prod r' = aq_prod r /\ (ring_readable r -> aq_cons r' = aq_prod r))
      (adm_of v c)) as Hw; [|exact Hw]. eapply poll_aq_ok; [done..|].
    intros k r' a _ [_ (_ & ? & ? & ?) _] Hall [= Ha _]. exists r'. split_and!; auto.
Qed.

(** A work request longer than one stride is read around the end of the
    ring: the bytes handed to its handler are those of the strides from its
    slot on, each at its own place in the ring, and reading them changes
    nothing. *)
Theorem wqe_read_around_end v c i r n bs a :
  dev_reach ops v -> ds_adminq_ctx (rv_s v) = Some c -> ax_aq c !! i = Some r -> aq_valid r = true ->
  1 <= n <= ADMIN_WQE_MAX_STRIDES ->
  read_wqe_tail r (aq_cons r) n (adm_of v c) = (Some bs, a) ->
  let m := dp_mem (rv_dp v) in
  stride_at m r (aq_cons r) ++ bs = mjoin (stride_at m r <$> seqZ (aq_cons r) n) /\ a = adm_of v c.
Proof.
  intros Hv Hc Hr Hval Hn Hread. pose proof (reach_ring v c i r Hv Hc Hr Hval) as Hok. pose proof (aq_depth_bounds r Hok) as Hd.
  unfold ADMIN_WQE_MAX_STRIDES in Hn. unfold read_wqe_tail in Hread. apply read_tail_exact in Hread as [-> ->]; [|done| |lia|lia].
  - split; [|done]. change (mjoin (stride_at _ r <$> seqZ (aq_cons r) n)) with (strides_from (dp_mem (rv_dp v)) r (aq_cons r) n).
    replace n with (1 + (n - 1)) at 2 by lia. rewrite strides_app by lia. rewrite strides_wrap by lia. f_equal.
  - apply Z.mod_pos_bound. lia.
Qed.
End claims.

Abbreviation dx_claim f := (f dx_env no_targets no_targets_laws dx_laws dx_parts ex_vfu_irq _ ops_loopback loopback_laws).

Lemma device_invariant_witness :
  dp_inv (rv_dp dx_polled) /\ in_step (dx_ctx dx_polled) dx_polled /\ adminq_lookup_cq 5 (dx_ctx dx_polled) = Some 0.
Proof.
  pose proof (dx_claim (@device_invariant) dx_polled dx_polled_reach) as [H1 H2].
  rewrite (dx_has_ctx dx_polled) in H2 by (vm_compute; reflexivity). split_and!; [exact H1|exact H2|vm_compute; reflexivity].
Defined.

Definition dx_body : list Z := drop 4 (dx_create_cq 7 0x5000).
Lemma admin_refines_names_witness :
  let '(st, a) := ionic_adminq_dispatch_wqe (T := no_targets) (Some ops_loopback) IONIC_V1_ADMIN_CREATE_CQ dx_body 34
                    (adm_of dx_polled (dx_ctx dx_polled)) in
  st = IONIC_RC_SUCCESS /\ adm_spec IONIC_V1_ADMIN_CREATE_CQ dx_body st (names_of (dx_ctx dx_polled)) (names_of (am_ctx a)).
Proof.
  pose proof (dx_claim (@admin_refines_names) dx_polled (dx_ctx dx_polled) IONIC_V1_ADMIN_CREATE_CQ dx_body 34 dx_polled_reach) as H.
  assert ((ionic_adminq_dispatch_wqe (T := no_targets) (Some ops_loopback) IONIC_V1_ADMIN_CREATE_CQ dx_body 34
             (adm_of dx_polled (dx_ctx dx_polled))).1 = IONIC_RC_SUCCESS) as Hst by (vm_compute; reflexivity).
  destruct (ionic_adminq_dispatch_wqe _ _ _ _ _) as [st a]. split; [exact Hst|].
  apply H; [apply dx_has_ctx; vm_compute; reflexivity|bytes_by_computation].
Defined.

Definition dx_reset_cmd : list Z := bput (zeros 64) 0 [IONIC_CMD_RDMA_RESET_LIF].
Lemma reset_lif_releases_all_witness :
  c_valid (cq_at 5 (rv_dp dx_polled)) = true /\
  let '(comp, v') := ionic_rdma_devcmd_dispatch (T := no_targets) (D := dx_parts) (Some ops_loopback) true dx_reset_cmd dx_polled in
  comp = zeros 16 /\ ds_adminq_ctx (rv_s v') = None /\ view_of (rv_pv v') = no_handles /\ c_valid (cq_at 5 (rv_dp v')) = false.
Proof.
  split; [vm_compute; reflexivity|].
  pose proof (dx_claim (@reset_lif_releases_all) dx_polled true dx_reset_cmd dx_polled_reach) as H.
  destruct (ionic_rdma_devcmd_dispatch _ _ _ _) as [comp v'].
  destruct H as (H1 & H2 & _ & H3 & H4); [bytes_by_computation|reflexivity|].
  split_and!; [exact H1|exact H2|exact H3|]. apply (H4 5).
Defined.

Lemma dx_readable : ring_readable (E := dx_env) (aq_at 0 (dx_ctx dx_posted)).
Proof.
  assert (aq_depth (aq_at 0 (dx_ctx dx_posted)) = 4 /\ aq_dma (aq_at 0 (dx_ctx dx_posted)) = 0x1000) as [Hd Ha] by (vm_compute; done).
  intros m j n H1 H2 H3. rewrite Hd in H3. rewrite Ha.
  assert (j = 0 \/ j = 1 \/ j = 2 \/ j = 3) as Hj by lia. assert (n = 1 \/ n = 2 \/ n = 3 \/ n = 4) as Hn by lia.
  apply (bool_decide_unpack _). destruct_or! Hj; destruct_or! Hn; subst; try lia; vm_compute; exact I.
Qed.

Lemma admin_poll_drains_witness :
  aq_pending (aq_at 0 (dx_ctx dx_posted)) = 3 /\
  (aq_loop (T := no_targets) (Some ops_loopback) 4 0 3 0 (adm_of dx_posted (dx_ctx dx_posted))).1 = true /\
  exists r', ax_aq (am_ctx (poll_aq (T := no_targets) (Some ops_loopback) 0 (adm_of dx_posted (dx_ctx dx_posted))).2)
               = <[0%nat := r']> (ax_aq (dx_ctx dx_posted)) /\ aq_cons r' = 3.
Proof.
  split; [vm_compute; reflexivity|].
  pose proof (dx_claim (@admin_poll_drains) dx_posted (dx_ctx dx_posted) 0%nat (aq_at 0 (dx_ctx dx_posted)) dx_posted_reach)
    as [H1 (r' & H2 & _ & _ & _ & H3)]; [apply dx_has_ctx; vm_compute; reflexivity|vm_compute; reflexivity..|].
  split; [exact H1|]. exists r'. split; [exact H2|]. rewrite (H3 dx_readable). vm_compute. reflexivity.
Defined.

Lemma wqe_read_around_end_witness :
  let r := aq_at 0 (dx_ctx dx_polled) in
  exists bs, (read_wqe_tail r 3 2 (adm_of dx_polled (dx_ctx dx_polled))).1 = Some bs /\
    stride_at (dp_mem (rv_dp dx_polled)) r 3 ++ bs = mjoin (stride_at (dp_mem (rv_dp dx_polled)) r <$> [3; 4]) /\
    bs = dx_create_cq 5 0x5000.
Proof.
  cbv zeta. set (r := aq_at 0 (dx_ctx dx_polled)).
  assert ((read_wqe_tail r 3 2 (adm_of dx_polled (dx_ctx dx_polled))).1 = Some (dx_create_cq 5 0x5000)) as Hr by (vm_compute; reflexivity).
  exists (dx_create_cq 5 0x5000). split; [exact Hr|]. split; [|reflexivity].
  destruct (read_wqe_tail r 3 2 (adm_of dx_polled (dx_ctx dx_polled))) as [o a] eqn:He. cbn in Hr. subst o.
  apply (dx_claim (@wqe_read_around_end) dx_polled (dx_ctx dx_polled) 0%nat r 2 (dx_create_cq 5 0x5000) a dx_polled_reach);
    [apply dx_has_ctx; vm_compute; reflexivity|vm_compute; reflexivity..|unfold ADMIN_WQE_MAX_STRIDES; lia|exact He].
Defined.
