(* ===== verification/P4Value.v ===== *)
(** * P4 values (p4_value.h)

    Every operand of a P4 program is 64 bytes, big-endian and right-aligned.
    The definitions follow the byte and bit loops of the header; the lemmas
    relate them to the number [be_value] of the bytes and to the bits of a
    buffer counted from its left end. *)
From S2P Require Export ParseProps ByteOrder.

Definition P4_MAX_FIELD_BITS : Z := 512.
Definition P4_VALUE_BYTES : nat := 64.

Definition value_zero : list Z := zeros P4_VALUE_BYTES.

(** Read [bits] bits starting at [bit_off] of [src]. *)
Definition bits_get (src : list Z) (bit_off bits : Z) : list Z :=
  foldl (fun out i =>
    let b := bit_off + i in
    let bit := Z.land (Z.shiftr (src !!! Z.to_nat (b / 8)) (7 - b mod 8)) 1 in
    let from_right := bits - 1 - i in
    let byte := (P4_VALUE_BYTES - 1 - Z.to_nat (from_right / 8))%nat in
    if negb (bit =? 0) then alter (fun x => Z.lor x (Z.shiftl 1 (from_right mod 8))) byte out else out)
  value_zero (seqZ 0 bits).

(** Write the low [bits] bits of [v] at [bit_off] of [dst]. *)
Definition bits_set (dst : list Z) (bit_off bits : Z) (v : list Z) : list Z :=
  foldl (fun dst i =>
    let b := bit_off + i in
    let mask := Z.shiftl 1 (7 - b mod 8) in
    let from_right := bits - 1 - i in
    let byte := (P4_VALUE_BYTES - 1 - Z.to_nat (from_right / 8))%nat in
    let bit := Z.land (Z.shiftr (v !!! byte) (from_right mod 8)) 1 in
    alter (fun x => if negb (bit =? 0) then Z.lor x mask else Z.land x (u8 (Z.lnot mask))) (Z.to_nat (b / 8)) dst)
  dst (seqZ 0 bits).

(** memcmp(): the sign of the first difference. *)
Fixpoint memcmp (a b : list Z) : comparison :=
  match a, b with
  | x :: a, y :: b => match x ?= y with Eq => memcmp a b | c => c end
  | _, _ => Eq
  end.
Definition value_cmp (a b : list Z) : comparison := memcmp a b.

Definition value_nonzero (v : list Z) : bool := existsb (fun x => negb (x =? 0)) v.

(** From the last byte to the first, with the carry. *)
Definition value_add (a b : list Z) : list Z :=
  (foldr (fun '(x, y) '(out, carry) =>
     let sum := x + y + carry in (Z.land sum 0xff :: out, Z.shiftr sum 8)) ([], 0) (zip a b)).1.
Definition value_sub (a b : list Z) : list Z :=
  (foldr (fun '(x, y) '(out, borrow) =>
     let d := u32 (x - y - borrow) in (Z.land d 0xff :: out, Z.land (Z.shiftr d 8) 1)) ([], 0) (zip a b)).1.

Definition value_u32 (v : list Z) : Z :=
  foldl (fun x c => u32 (Z.lor (Z.shiftl x 8) c)) 0 (drop (P4_VALUE_BYTES - 4) v).
Definition value_set_u32 (x : Z) : list Z :=
  foldl (fun v i => <[(P4_VALUE_BYTES - 1 - i)%nat := u8 (Z.shiftr x (8 * Z.of_nat i))]> v) value_zero (seq 0 4).

(** The bits a nonzero byte needs, then those of a big-endian number. *)
Fixpoint byte_bits (fuel : nat) (x bits : Z) : Z :=
  match fuel with
  | O => bits
  | S fuel => if Z.land x (Z.shiftl 1 (bits - 1)) =? 0 then byte_bits fuel x (bits - 1) else bits
  end.
Fixpoint be_bit_length (b : list Z) : Z :=
  match b with
  | [] => 0
  | x :: r => if x =? 0 then be_bit_length r else Z.of_nat (length r) * 8 + byte_bits 8 x 8
  end.

(** ** Bits of a buffer, counted from its first *)
Definition bit_of (bs : list Z) (i : Z) : bool := Z.testbit (bs !!! Z.to_nat (i / 8)) (7 - i mod 8).
Definition nbits (bs : list Z) : Z := 8 * Z.of_nat (length bs).

Lemma land_bit x k : 0 <= k -> negb (Z.land (Z.shiftr x k) 1 =? 0) = Z.testbit x k.
Proof.
  intros Hk. rewrite Z.land_comm. change 1 with (Z.ones 1). rewrite Z.land_comm, Z.land_ones by lia.
  rewrite <-Z.bit0_mod, Z.shiftr_spec, Z.add_0_l by lia. by destruct (Z.testbit x k).
Qed.

Lemma bit_of_alter f j bs i :
  0 <= j < nbits bs -> 0 <= i -> i / 8 <> j / 8 -> bit_of (alter f (Z.to_nat (j / 8)) bs) i = bit_of bs i.
Proof.
  intros Hj Hi Hne. unfold bit_of. rewrite list_lookup_total_alter_ne; [done|].
  pose proof (Z.div_pos i 8). pose proof (Z.div_pos j 8). lia.
Qed.
Lemma bit_of_alter_same f j bs i :
  0 <= j < nbits bs -> i / 8 = j / 8 ->
  bit_of (alter f (Z.to_nat (j / 8)) bs) i = Z.testbit (f (bs !!! Z.to_nat (j / 8))) (7 - i mod 8).
Proof.
  intros Hj He. unfold bit_of, nbits in *. rewrite He.
  rewrite list_lookup_total_alter_eq; [done|]. apply Nat2Z.inj_lt. rewrite Z2Nat.id by (apply Z.div_pos; lia).
  apply Z.div_lt_upper_bound; lia.
Qed.

Lemma testbit_pow2 a n : 0 <= a -> 0 <= n -> Z.testbit (Z.shiftl 1 a) n = bool_decide (n = a).
Proof.
  intros Ha Hn. rewrite Z.shiftl_1_l, Z.pow2_bits_eqb by lia. case_bool_decide; [by apply Z.eqb_eq|apply Z.eqb_neq; congruence].
Qed.
Lemma same_bit_of i j : i / 8 = j / 8 -> 7 - i mod 8 = 7 - j mod 8 <-> i = j.
Proof. intros. pose proof (Z.div_mod i 8). pose proof (Z.div_mod j 8). lia. Qed.

(** Setting bit [j] to [c], as both loops do it. *)
Definition put_bit (c : bool) (j : Z) (bs : list Z) : list Z :=
  alter (fun x => if c then Z.lor x (Z.shiftl 1 (7 - j mod 8)) else Z.land x (u8 (Z.lnot (Z.shiftl 1 (7 - j mod 8)))))
    (Z.to_nat (j / 8)) bs.
Lemma put_bit_length c j bs : length (put_bit c j bs) = length bs.
Proof. apply length_alter. Qed.
Lemma mod8 j : 0 <= j mod 8 < 8.
Proof. by apply Z.mod_pos_bound. Qed.
Lemma bit_of_put c j bs i :
  0 <= j < nbits bs -> 0 <= i -> bit_of (put_bit c j bs) i = if decide (i = j) then c else bit_of bs i.
Proof.
  intros Hj Hi. unfold put_bit. pose proof (mod8 i). pose proof (mod8 j).
  destruct (decide (i / 8 = j / 8)) as [He|He].
  - rewrite bit_of_alter_same by done. assert (bit_of bs i = Z.testbit (bs !!! Z.to_nat (j / 8)) (7 - i mod 8)) as Hb.
    { unfold bit_of. by rewrite He. }
    assert (forall b1 b2 : bool, (if bool_decide (i = j) then b1 else b2) = if decide (i = j) then b1 else b2) as Hd
      by (intros; case_bool_decide; case_decide; congruence).
    rewrite <-Hd, <-(bool_decide_ext _ _ (same_bit_of i j He)), Hb. destruct c.
    + rewrite Z.lor_spec, testbit_pow2 by lia. repeat case_bool_decide; rewrite ?orb_true_r, ?orb_false_r; congruence.
    + rewrite Z.land_spec. unfold wrap. rewrite Z.mod_pow2_bits_low by lia. rewrite Z.lnot_spec, testbit_pow2 by lia.
      repeat case_bool_decide; rewrite ?andb_true_r, ?andb_false_r; congruence.
  - rewrite bit_of_alter by done. by rewrite decide_False by congruence.
Qed.

Lemma put_loop (c : Z -> bool) base n bs :
  0 <= n -> 0 <= base -> base + n <= nbits bs ->
  let r := foldl (fun bs i => put_bit (c i) (base + i) bs) bs (seqZ 0 n) in
  length r = length bs /\
  forall i, 0 <= i -> bit_of r i = if decide (base <= i < base + n) then c (i - base) else bit_of bs i.
Proof.
  intros Hn Hb. revert n Hn. apply (natlike_ind (fun n => base + n <= nbits bs -> _)); cbn zeta.
  - intros _. split; [done|]. intros i Hi. by rewrite decide_False by lia.
  - intros n Hn IH Hle. destruct IH as [Hl IH]; [lia|]. change (Z.succ n) with (n + 1). rewrite seqZ_app, foldl_app by lia.
    change (seqZ (0 + n) 1) with [0 + n]. cbn [foldl]. rewrite Z.add_0_l. rewrite put_bit_length. split; [done|].
    intros i Hi. rewrite bit_of_put by (unfold nbits in *; rewrite ?Hl; lia). rewrite IH by done.
    repeat case_decide; try lia; [by subst; f_equal; lia|done..].
Qed.
Lemma or_loop (c : Z -> bool) base n bs :
  0 <= n -> 0 <= base -> base + n <= nbits bs ->
  let r := foldl (fun bs i => if c i then put_bit true (base + i) bs else bs) bs (seqZ 0 n) in
  length r = length bs /\
  forall i, 0 <= i -> bit_of r i = (bool_decide (base <= i < base + n) && c (i - base)) || bit_of bs i.
Proof.
  intros Hn Hb. revert n Hn. apply (natlike_ind (fun n => base + n <= nbits bs -> _)); cbn zeta.
  - intros _. split; [done|]. intros i Hi. by rewrite bool_decide_eq_false_2 by lia.
  - intros n Hn IH Hle. destruct IH as [Hl IH]; [lia|]. change (Z.succ n) with (n + 1). rewrite seqZ_app, foldl_app by lia.
    change (seqZ (0 + n) 1) with [0 + n]. cbn [foldl]. rewrite Z.add_0_l. destruct (c n) eqn:Hc; [rewrite put_bit_length|]; split; try done.
    + intros i Hi. rewrite bit_of_put by (unfold nbits in *; rewrite ?Hl; lia). rewrite IH by done. case_decide as Hin.
      * subst. rewrite bool_decide_eq_true_2 by lia. replace (base + n - base) with n by lia. by rewrite Hc.
      * by rewrite (bool_decide_ext (base <= i < base + (n + 1)) (base <= i < base + n)) by lia.
    + intros i Hi. rewrite IH by done. destruct (decide (i = base + n)) as [->|Hne].
      * replace (base + n - base) with n by lia. by rewrite Hc, !andb_false_r.
      * by rewrite (bool_decide_ext (base <= i < base + (n + 1)) (base <= i < base + n)) by lia.
Qed.

(** Bit [from_right] of a value is bit [511 - from_right] of its buffer. *)
Lemma mirror fr : 0 <= fr < 512 -> (511 - fr) / 8 = 63 - fr / 8 /\ 7 - (511 - fr) mod 8 = fr mod 8.
Proof.
  intros Hf. pose proof (Z.div_mod fr 8). pose proof (mod8 fr).
  assert (511 - fr = (63 - fr / 8) * 8 + (7 - fr mod 8)) as -> by lia.
  split; [rewrite Z.div_add_l, (Z.div_small (7 - _)) by lia; lia|]. rewrite (Z.add_comm (_ * 8)), Z.mod_add, Z.mod_small by lia. lia.
Qed.
Lemma value_byte fr : 0 <= fr < 512 -> (P4_VALUE_BYTES - 1 - Z.to_nat (fr / 8))%nat = Z.to_nat ((511 - fr) / 8).
Proof.
  intros Hf. destruct (mirror fr Hf) as [-> _]. unfold P4_VALUE_BYTES.
  pose proof (Z.div_pos fr 8). pose proof (Z.div_lt_upper_bound fr 8 64). lia.
Qed.

(** A value: 64 bytes. *)
Definition value_ok (v : list Z) : Prop := length v = P4_VALUE_BYTES /\ bytes_ok v.
Lemma value_nbits v : value_ok v -> nbits v = 512.
Proof. intros [Hl _]. unfold nbits. by rewrite Hl. Qed.

Lemma alter_byte_ok f n bs : bytes_ok bs -> (forall x, byte_ok x -> byte_ok (f x)) -> bytes_ok (alter f n bs).
Proof.
  intros Hb Hf. apply Forall_lookup. intros i x Hx. destruct (decide (i = n)) as [->|Hne].
  - rewrite list_lookup_alter_eq in Hx. apply fmap_Some in Hx as (y & Hy & ->). apply Hf. by eapply Forall_lookup in Hy.
  - rewrite list_lookup_alter_ne in Hx by congruence. by eapply Forall_lookup in Hx.
Qed.
Lemma lor_byte x y : byte_ok x -> byte_ok y -> byte_ok (Z.lor x y).
Proof.
  unfold byte_ok, fits. intros Hx Hy. split; [apply Z.lor_nonneg; lia|].
  destruct (Z.eq_dec (Z.lor x y) 0) as [->|Hz]; [lia|]. apply Z.log2_lt_pow2; [pose proof (proj2 (Z.lor_nonneg x y)); lia|].
  rewrite Z.log2_lor by lia. destruct (Z.max_spec (Z.log2 x) (Z.log2 y)) as [[_ ->]|[_ ->]].
  - destruct (Z.eq_dec y 0) as [->|]; [done|]. apply Z.log2_lt_pow2; lia.
  - destruct (Z.eq_dec x 0) as [->|]; [done|]. apply Z.log2_lt_pow2; lia.
Qed.
Lemma land_byte x y : byte_ok x -> byte_ok (Z.land x y).
Proof.
  unfold byte_ok, fits. intros Hx. split; [apply Z.land_nonneg; lia|].
  rewrite <-(Z.mod_small x (2 ^ 8)) by lia. rewrite <-Z.land_ones, <-Z.land_assoc, (Z.land_comm _ y), Z.land_assoc, Z.land_ones by lia.
  by apply Z.mod_pos_bound.
Qed.
Lemma pow_byte k : 0 <= k < 8 -> byte_ok (Z.shiftl 1 k).
Proof. intros Hk. rewrite Z.shiftl_1_l. split; [apply Z.pow_nonneg; lia|apply Z.pow_lt_mono_r; lia]. Qed.

Lemma foldl_inv {A B} (I : A -> Prop) (f : A -> B -> A) l a :
  I a -> (forall a b, b ∈ l -> I a -> I (f a b)) -> I (foldl f a l).
Proof.
  revert a. induction l as [|b l IH]; intros a Ha Hf; [done|]. cbn. apply IH; [apply Hf; [left|done]|].
  intros; apply Hf; [by right|done].
Qed.

Lemma bits_get_ok src off bits : value_ok (bits_get src off bits).
Proof.
  unfold bits_get. apply foldl_inv; [split; [done|apply zeros_ok]|]. intros out i _ [Hl Hb]. cbn zeta.
  case_match; [|done]. split; [by rewrite length_alter|]. apply alter_byte_ok; [done|]. intros x Hx.
  apply lor_byte; [done|]. apply pow_byte, mod8.
Qed.
Lemma bits_set_length dst off bits v : length (bits_set dst off bits v) = length dst.
Proof. unfold bits_set. apply (foldl_inv (fun d => length d = length dst)); [done|]. intros d i _ Hd. by rewrite length_alter. Qed.
Lemma bits_set_ok dst off bits v : bytes_ok dst -> bytes_ok (bits_set dst off bits v).
Proof.
  intros Hd. unfold bits_set. apply foldl_inv; [done|]. intros d i _ Hb. apply alter_byte_ok; [done|]. intros x Hx. pose proof (mod8 (off + i)).
  case_match; [apply lor_byte; [done|]; apply pow_byte; lia|by apply land_byte].
Qed.

Lemma bit_of_zeros n i : 0 <= i < 8 * Z.of_nat n -> bit_of (zeros n) i = false.
Proof.
  intros Hi. unfold bit_of, zeros. rewrite lookup_total_replicate_2; [apply Z.testbit_0_l|].
  pose proof (Z.div_pos i 8). pose proof (Z.div_lt_upper_bound i 8 (Z.of_nat n)). lia.
Qed.

Lemma foldl_ext_in {A B} (f g : A -> B -> A) l a :
  (forall a b, b ∈ l -> f a b = g a b) -> foldl f a l = foldl g a l.
Proof.
  revert a. induction l as [|b l IH]; intros a H; [done|]. cbn. rewrite (H a b) by left. apply IH. intros; apply H. by right.
Qed.

Lemma bits_get_spec src off bits i :
  0 <= off -> 0 <= bits <= 512 -> 0 <= i < 512 ->
  bit_of (bits_get src off bits) i = bool_decide (512 - bits <= i) && bit_of src (off + (i - (512 - bits))).
Proof.
  intros Ho Hb Hi. unfold bits_get. rewrite (foldl_ext_in _
    (fun bs i => if bit_of src (off + i) then put_bit true ((512 - bits) + i) bs else bs)).
  - destruct (or_loop (fun i => bit_of src (off + i)) (512 - bits) bits value_zero) as [_ H]; try lia; [by unfold nbits; cbn; lia|].
    cbn zeta in H. unfold value_zero in H. rewrite H, bit_of_zeros, orb_false_r by (unfold P4_VALUE_BYTES; lia). f_equal. apply bool_decide_ext. lia.
  - intros out j Hj%elem_of_seqZ. cbn zeta. pose proof (mod8 (off + j)). rewrite land_bit by lia. fold (bit_of src (off + j)).
    destruct (bit_of src (off + j)); [|done]. unfold put_bit. replace (512 - bits + j) with (511 - (bits - 1 - j)) by lia.
    rewrite value_byte by lia. by destruct (mirror (bits - 1 - j)) as [_ ->]; [lia|].
Qed.

Lemma bits_set_spec dst off bits v i :
  0 <= off -> 0 <= bits <= 512 -> off + bits <= nbits dst -> 0 <= i ->
  bit_of (bits_set dst off bits v) i = if decide (off <= i < off + bits) then bit_of v ((512 - bits) + (i - off)) else bit_of dst i.
Proof.
  intros Ho Hb Hd Hi. unfold bits_set. rewrite (foldl_ext_in _
    (fun bs i => put_bit (bit_of v ((512 - bits) + i)) (off + i) bs)).
  - destruct (put_loop (fun i => bit_of v ((512 - bits) + i)) off bits dst) as [_ H]; try lia. cbn zeta in H. by rewrite H by lia.
  - intros out j Hj%elem_of_seqZ. cbn zeta. unfold put_bit. replace (512 - bits + j) with (511 - (bits - 1 - j)) by lia.
    pose proof (mod8 (bits - 1 - j)). rewrite land_bit by lia. rewrite value_byte by lia.
    unfold bit_of. by destruct (mirror (bits - 1 - j)) as [_ ->]; [lia|].
Qed.

(** ** The number of a buffer and its bits *)
Lemma be_cons x b : be_value (x :: b) = x * 2 ^ nbits b + be_value b.
Proof.
  change (x :: b) with ([x] ++ b). rewrite be_app. unfold nbits. change 256 with (2 ^ 8). rewrite <-Z.pow_mul_r by lia.
  by f_equal.
Qed.
Lemma be_bound b : bytes_ok b -> 0 <= be_value b < 2 ^ nbits b.
Proof. intros Hb. pose proof (be_range b Hb) as H. unfold nbits. by rewrite Z.pow_mul_r by lia. Qed.

Lemma testbit_split x y n k :
  0 <= n -> 0 <= y < 2 ^ n -> 0 <= k -> Z.testbit (x * 2 ^ n + y) k = if decide (k < n) then Z.testbit y k else Z.testbit x (k - n).
Proof.
  intros Hn Hy Hk. rewrite Z.add_comm, <-lor_shl_add, Z.lor_comm by lia.
  rewrite Z.lor_spec. case_decide.
  - by rewrite Z.shiftl_spec_low by lia.
  - rewrite Z.shiftl_spec by lia. rewrite <-(Z.mod_small y (2 ^ n)) by lia. rewrite Z.mod_pow2_bits_high by lia. apply orb_false_r.
Qed.

Lemma bit_of_cons x b i : 8 <= i -> bit_of (x :: b) i = bit_of b (i - 8).
Proof.
  intros Hi. unfold bit_of. replace i with ((i - 8) + 1 * 8) at 1 2 by lia. rewrite Z.div_add, Z.mod_add by lia.
  replace (Z.to_nat ((i - 8) / 8 + 1)) with (S (Z.to_nat ((i - 8) / 8))); [done|]. pose proof (Z.div_pos (i - 8) 8). lia.
Qed.
Lemma be_testbit b k :
  bytes_ok b -> 0 <= k -> Z.testbit (be_value b) k = bool_decide (k < nbits b) && bit_of b (nbits b - 1 - k).
Proof.
  intros Hb Hk. induction Hb as [|x b Hx Hb IH]; [rewrite bool_decide_eq_false_2 by (unfold nbits; cbn; lia); apply Z.testbit_0_l|].
  assert (nbits (x :: b) = nbits b + 8) as Hn by (unfold nbits; cbn [length]; lia).
  assert (0 <= nbits b) by (unfold nbits; lia). rewrite be_cons, testbit_split; [|done|by apply be_bound|done]. rewrite Hn. case_decide.
  - rewrite IH, !bool_decide_eq_true_2 by lia. rewrite bit_of_cons by lia. cbn. f_equal. lia.
  - destruct (decide (k < nbits b + 8)) as [Hlt|Hge].
    + rewrite bool_decide_eq_true_2 by done. unfold bit_of. rewrite Z.div_small, Z.mod_small by lia. cbn. f_equal. lia.
    + rewrite bool_decide_eq_false_2 by done. cbn. unfold byte_ok, fits in Hx. rewrite <-(Z.mod_small x (2 ^ 8)) by lia.
      apply Z.mod_pow2_bits_high. lia.
Qed.

Lemma bits_ext a b : bytes_ok a -> bytes_ok b -> length a = length b -> (forall i, 0 <= i < nbits a -> bit_of a i = bit_of b i) -> a = b.
Proof.
  intros Ha Hb Hl Hi. apply (list_eq_same_length _ _ (length a)); [congruence|congruence|]. intros n x y Hn Hx Hy.
  assert (byte_ok x /\ byte_ok y) as [Hbx Hby] by (split; [exact (Forall_lookup_1 _ _ _ _ Ha Hx)|exact (Forall_lookup_1 _ _ _ _ Hb Hy)]). unfold byte_ok, fits in *.
  apply Z.bits_inj'. intros k Hk. destruct (decide (k < 8)) as [Hk8|Hk8].
  - specialize (Hi (8 * Z.of_nat n + (7 - k))). unfold bit_of in Hi.
    assert ((8 * Z.of_nat n + (7 - k)) / 8 = Z.of_nat n) as Hq by (rewrite Z.mul_comm, Z.div_add_l, (Z.div_small (7 - k)) by lia; lia).
    assert ((8 * Z.of_nat n + (7 - k)) mod 8 = 7 - k) as Hm by (rewrite Z.add_comm, Z.mul_comm, Z.mod_add, Z.mod_small by lia; lia).
    rewrite Hq, Hm, Nat2Z.id, (list_lookup_total_correct _ _ _ Hx), (list_lookup_total_correct _ _ _ Hy) in Hi.
    replace (7 - (7 - k)) with k in Hi by lia. apply Hi. unfold nbits. lia.
  - rewrite <-(Z.mod_small x (2 ^ 8)), <-(Z.mod_small y (2 ^ 8)) by lia. by rewrite !Z.mod_pow2_bits_high by lia.
Qed.

(** ** What the operations compute *)
Section values.
Implicit Types (a b v src dst : list Z).

(** The number [bits] bits wide at [off] of a buffer. *)
Lemma get_testbit src off bits k :
  0 <= off -> 0 <= bits <= 512 -> 0 <= k ->
  Z.testbit (be_value (bits_get src off bits)) k = bool_decide (k < bits) && bit_of src (off + (bits - 1 - k)).
Proof.
  intros Ho Hb Hk. pose proof (bits_get_ok src off bits) as Hv. rewrite be_testbit, (value_nbits _ Hv) by (done || apply Hv).
  destruct (decide (k < 512)) as [Hlt|Hge].
  - rewrite bool_decide_eq_true_2, bits_get_spec by lia. cbn. f_equal; [apply bool_decide_ext; lia|f_equal; lia].
  - by rewrite !bool_decide_eq_false_2 by lia.
Qed.
Lemma get_bound src off bits : 0 <= off -> 0 <= bits <= 512 -> 0 <= be_value (bits_get src off bits) < 2 ^ bits.
Proof.
  intros Ho Hb. pose proof (bits_get_ok src off bits) as [_ Hv]. apply be_bound in Hv. split; [lia|].
  rewrite <-(Z.mod_small (be_value _) (2 ^ nbits (bits_get src off bits))) by lia.
  assert (be_value (bits_get src off bits) mod 2 ^ bits = be_value (bits_get src off bits)) as He.
  { apply Z.bits_inj'. intros k Hk. destruct (decide (k < bits)).
    - by rewrite Z.mod_pow2_bits_low by lia.
    - rewrite Z.mod_pow2_bits_high, get_testbit by lia. by rewrite bool_decide_eq_false_2 by lia. }
  rewrite Z.mod_small by lia. rewrite <-He. apply Z.mod_pos_bound. lia.
Qed.

(** Reading back what was written: the low bits of the value. *)
Lemma get_set dst off bits v :
  value_ok v -> 0 <= off -> 0 <= bits <= 512 -> off + bits <= nbits dst ->
  be_value (bits_get (bits_set dst off bits v) off bits) = be_value v mod 2 ^ bits.
Proof.
  intros Hv Ho Hb Hd. apply Z.bits_inj'. intros k Hk. rewrite get_testbit by lia. destruct (decide (k < bits)) as [Hlt|Hge].
  - rewrite Z.mod_pow2_bits_low, be_testbit, (value_nbits v Hv) by (lia || apply Hv). rewrite !bool_decide_eq_true_2 by lia. cbn.
    rewrite bits_set_spec, decide_True by lia. f_equal. lia.
  - by rewrite Z.mod_pow2_bits_high, bool_decide_eq_false_2 by lia.
Qed.
(** A write changes no other field. *)
Lemma get_set_other dst off bits v off' bits' :
  0 <= off -> 0 <= bits <= 512 -> off + bits <= nbits dst -> 0 <= off' -> 0 <= bits' <= 512 ->
  off' + bits' <= off \/ off + bits <= off' ->
  bits_get (bits_set dst off bits v) off' bits' = bits_get dst off' bits'.
Proof.
  intros Ho Hb Hd Ho' Hb' Hdis. destruct (bits_get_ok (bits_set dst off bits v) off' bits') as [Hl1 H1].
  destruct (bits_get_ok dst off' bits') as [Hl2 H2]. apply bits_ext; [done|done|congruence|].
  intros i Hi. unfold nbits in Hi. rewrite Hl1 in Hi. unfold P4_VALUE_BYTES in Hi. rewrite !bits_get_spec by lia.
  case_bool_decide; [|done]. rewrite bits_set_spec by lia. rewrite decide_False; [done|]. lia.
Qed.
(** Writing back what was read changes nothing. *)
Lemma set_get dst off bits :
  bytes_ok dst -> 0 <= off -> 0 <= bits <= 512 -> off + bits <= nbits dst -> bits_set dst off bits (bits_get dst off bits) = dst.
Proof.
  intros Hd Ho Hb Hn. apply bits_ext; [by apply bits_set_ok|done|apply bits_set_length|]. intros i Hi.
  unfold nbits in Hi. rewrite bits_set_length in Hi. rewrite bits_set_spec by lia. case_decide; [|done].
  rewrite bits_get_spec, bool_decide_eq_true_2 by lia. cbn. f_equal. lia.
Qed.

(** ** Arithmetic *)
Lemma land_ff x : Z.land x 0xff = x mod 256.
Proof. change 0xff with (Z.ones 8). by rewrite Z.land_ones. Qed.
Lemma land_1 x : Z.land x 1 = x mod 2.
Proof. change 1 with (Z.ones 1). by rewrite Z.land_ones. Qed.

Lemma add_fold a b :
  length a = length b -> bytes_ok a -> bytes_ok b ->
  let '(out, carry) := foldr (fun '(x, y) '(out, carry) =>
     let sum := x + y + carry in (Z.land sum 0xff :: out, Z.shiftr sum 8)) ([], 0) (zip a b) in
  length out = length a /\ bytes_ok out /\ 0 <= carry <= 1 /\
  be_value a + be_value b = carry * 2 ^ nbits a + be_value out.
Proof.
  revert b. induction a as [|x a IH]; intros [|y b] Hl Ha Hb; try done.
  apply Forall_cons in Ha as [Hx Ha], Hb as [Hy Hb]. cbn [zip foldr]. injection Hl as Hl.
  specialize (IH b Hl Ha Hb). cbn [zip foldr] in *. destruct (foldr _ _ _) as [out c]. destruct IH as (Hlo & Hok & Hc & He).
  unfold byte_ok, fits in Hx, Hy. rewrite land_ff, Z.shiftr_div_pow2 by lia. change (2 ^ 8) with 256 in *.
  pose proof (Z.mod_pos_bound (x + y + c) 256). pose proof (Z.div_mod (x + y + c) 256). split_and!.
  - cbn. by f_equal.
  - constructor; [|done]. unfold byte_ok, fits. change (2 ^ 8) with 256. lia.
  - apply Z.div_pos; lia.
  - assert ((x + y + c) / 256 < 2); [apply Z.div_lt_upper_bound; lia|lia].
  - rewrite !be_cons. assert (nbits out = nbits a) as -> by (unfold nbits; by rewrite Hlo).
    assert (nbits b = nbits a) as -> by (unfold nbits; by rewrite Hl).
    assert (nbits (x :: a) = nbits a + 8) as -> by (unfold nbits; cbn [length]; lia). rewrite Z.pow_add_r by (unfold nbits; lia).
    change (2 ^ 8) with 256. set (N := 2 ^ nbits a) in *. nia.
Qed.
Lemma value_add_spec a b :
  value_ok a -> value_ok b -> value_ok (value_add a b) /\ be_value (value_add a b) = (be_value a + be_value b) mod 2 ^ 512.
Proof.
  intros [Hla Ha] [Hlb Hb]. pose proof (add_fold a b ltac:(congruence) Ha Hb) as H. unfold value_add.
  destruct (foldr _ _ _) as [out c]. destruct H as (Hl & Hok & Hc & He). cbn [fst]. split; [split; [congruence|done]|].
  assert (nbits a = 512) as Hn by (by apply value_nbits). rewrite Hn in He. rewrite He, Z.add_comm, Z.mod_add by lia.
  rewrite Z.mod_small; [done|]. pose proof (be_bound out Hok) as Hr. unfold nbits in Hr. rewrite Hl in Hr. fold (nbits a) in Hr. by rewrite Hn in Hr.
Qed.

Lemma sub_fold a b :
  length a = length b -> bytes_ok a -> bytes_ok b ->
  let '(out, borrow) := foldr (fun '(x, y) '(out, borrow) =>
     let d := u32 (x - y - borrow) in (Z.land d 0xff :: out, Z.land (Z.shiftr d 8) 1)) ([], 0) (zip a b) in
  length out = length a /\ bytes_ok out /\ 0 <= borrow <= 1 /\
  be_value a - be_value b = be_value out - borrow * 2 ^ nbits a.
Proof.
  revert b. induction a as [|x a IH]; intros [|y b] Hl Ha Hb; try done.
  apply Forall_cons in Ha as [Hx Ha], Hb as [Hy Hb]. cbn [zip foldr]. injection Hl as Hl.
  specialize (IH b Hl Ha Hb). cbn [zip foldr] in *. destruct (foldr _ _ _) as [out c]. destruct IH as (Hlo & Hok & Hc & He).
  unfold byte_ok, fits in Hx, Hy. change (2 ^ 8) with 256 in *.
  assert (exists r, Z.land (u32 (x - y - c)) 0xff = x - y - c + 256 * r /\ Z.land (Z.shiftr (u32 (x - y - c)) 8) 1 = r /\ 0 <= r <= 1 /\
          0 <= x - y - c + 256 * r < 256) as (r & -> & -> & Hr & Hd).
  { rewrite land_ff, Z.shiftr_div_pow2 by lia. rewrite land_1. unfold wrap.
    destruct (decide (0 <= x - y - c)).
    - exists 0. rewrite (Z.mod_small _ (2 ^ 32)) by lia. rewrite Z.mod_small by lia. rewrite Z.div_small by lia. split_and!; [lia|done|lia..].
    - exists 1. rewrite <-(Z.mod_add (x - y - c) 1 (2 ^ 32)) by lia. rewrite (Z.mod_small _ (2 ^ 32)) by lia.
      replace (x - y - c + 1 * 2 ^ 32) with ((x - y - c + 256) + (2 ^ 24 - 1) * 256) by lia.
      rewrite Z.mod_add, Z.mod_small by lia. change (2 ^ 8) with 256. rewrite Z.div_add, (Z.div_small (_ + 256)) by lia. split_and!; [lia|done|lia..]. }
  split_and!; [by cbn; f_equal|by constructor|lia..|].
  rewrite !be_cons. assert (nbits out = nbits a) as -> by (unfold nbits; by rewrite Hlo).
  assert (nbits b = nbits a) as -> by (unfold nbits; by rewrite Hl).
  assert (nbits (x :: a) = nbits a + 8) as -> by (unfold nbits; cbn [length]; lia). rewrite Z.pow_add_r by (unfold nbits; lia).
  change (2 ^ 8) with 256. set (N := 2 ^ nbits a) in *. nia.
Qed.
Lemma value_sub_spec a b :
  value_ok a -> value_ok b -> value_ok (value_sub a b) /\ be_value (value_sub a b) = (be_value a - be_value b) mod 2 ^ 512.
Proof.
  intros [Hla Ha] [Hlb Hb]. pose proof (sub_fold a b ltac:(congruence) Ha Hb) as H. unfold value_sub.
  destruct (foldr _ _ _) as [out c]. destruct H as (Hl & Hok & Hc & He). cbn [fst]. split; [split; [congruence|done]|].
  assert (nbits a = 512) as Hn by (by apply value_nbits). rewrite Hn in He. rewrite He, <-Z.add_opp_r, <-Z.mul_opp_l, Z.mod_add by lia.
  rewrite Z.mod_small; [done|]. pose proof (be_bound out Hok) as Hr. unfold nbits in Hr. rewrite Hl in Hr. fold (nbits a) in Hr. by rewrite Hn in Hr.
Qed.
End values.

(** ** Order and conversions *)
Lemma be_lt_high x y a b :
  length a = length b -> bytes_ok a -> bytes_ok b -> x < y -> be_value (x :: a) < be_value (y :: b).
Proof.
  intros Hl Ha Hb Hxy. rewrite !be_cons. pose proof (be_bound a Ha). pose proof (be_bound b Hb).
  assert (nbits b = nbits a) as -> by (unfold nbits; by rewrite Hl). nia.
Qed.
Lemma memcmp_spec a b : length a = length b -> bytes_ok a -> bytes_ok b -> memcmp a b = (be_value a ?= be_value b).
Proof.
  revert b. induction a as [|x a IH]; intros [|y b] Hl Ha Hb; try done.
  injection Hl as Hl. apply Forall_cons in Ha as [Hx Ha], Hb as [Hy Hb]. cbn [memcmp]. destruct (Z.compare_spec x y) as [->|Hlt|Hgt].
  - rewrite IH by done. rewrite !be_cons. assert (nbits b = nbits a) as -> by (unfold nbits; by rewrite Hl). by rewrite Z.add_compare_mono_l.
  - symmetry. by apply Z.compare_lt_iff, be_lt_high.
  - symmetry. by apply Z.compare_gt_iff, be_lt_high.
Qed.
Lemma value_cmp_spec a b : value_ok a -> value_ok b -> value_cmp a b = (be_value a ?= be_value b).
Proof. intros [Hla Ha] [Hlb Hb]. apply memcmp_spec; congruence. Qed.

Lemma value_nonzero_spec v : bytes_ok v -> value_nonzero v = negb (be_value v =? 0).
Proof.
  intros Hv. induction Hv as [|x v Hx Hv IH]; [done|]. cbn [value_nonzero existsb]. change (existsb _ v) with (value_nonzero v).
  rewrite IH, be_cons. pose proof (be_bound v Hv). unfold byte_ok, fits in Hx.
  destruct (Z.eqb_spec x 0), (Z.eqb_spec (be_value v) 0); destruct (Z.eqb_spec (x * 2 ^ nbits v + be_value v) 0); try done; nia.
Qed.

Lemma value_zero_ok : value_ok value_zero.
Proof. split; [done|apply zeros_ok]. Qed.
Lemma value_zero_num : be_value value_zero = 0.
Proof. apply be_zeros. Qed.
Lemma be_zeros_app n b : be_value (zeros n ++ b) = be_value b.
Proof. by rewrite be_app, be_zeros. Qed.
Lemma value_set_u32_bytes x : value_set_u32 x = zeros 60 ++ be32_bytes x.
Proof. unfold value_set_u32. cbn. by rewrite Z.shiftr_0_r. Qed.
Lemma be32_number x : be_value (be32_bytes x) = u32 x.
Proof.
  unfold be32_bytes, be_value. cbn [foldl]. rewrite <-(u32_shiftr_split' x). lia.
Qed.
Lemma value_set_u32_spec x : fits 32 x -> value_ok (value_set_u32 x) /\ be_value (value_set_u32 x) = x.
Proof.
  intros Hx. rewrite value_set_u32_bytes. split.
  - split; [done|]. apply Forall_app. split; [apply zeros_ok|apply be32_bytes_ok].
  - rewrite be_zeros_app, be32_number. by apply wrap_id.
Qed.
Lemma u32_foldl l x :
  bytes_ok l -> 0 <= x -> x * 2 ^ nbits l + be_value l < 2 ^ 32 ->
  foldl (fun x c => u32 (Z.lor (Z.shiftl x 8) c)) x l = x * 2 ^ nbits l + be_value l.
Proof.
  intros Hl. revert x. induction Hl as [|c l Hc Hl IH]; intros x Hx Hb; [cbn; change (nbits []) with 0; lia|]. cbn [foldl].
  unfold byte_ok, fits in Hc. rewrite be_cons in *. pose proof (be_bound l Hl).
  assert (nbits (c :: l) = 8 + nbits l) as Hn by (unfold nbits; cbn [length]; lia). rewrite Hn, Z.pow_add_r in * by (unfold nbits; lia).
  assert (0 < 2 ^ nbits l) by (apply Z.pow_pos_nonneg; unfold nbits; lia).
  rewrite Z.lor_comm, lor_shl_add by lia. assert (0 <= c + x * 2 ^ 8 < 2 ^ 32) by nia. rewrite wrap_id by done.
  rewrite IH by nia. lia.
Qed.
Lemma value_u32_spec v : value_ok v -> value_u32 v = be_value v mod 2 ^ 32.
Proof.
  intros [Hl Hv]. unfold value_u32. assert (length (drop (P4_VALUE_BYTES - 4) v) = 4%nat) as Hd by (by rewrite length_drop, Hl).
  assert (bytes_ok (drop (P4_VALUE_BYTES - 4) v)) as Hb by (by apply Forall_drop). pose proof (be_bound _ Hb) as Hr.
  assert (nbits (drop (P4_VALUE_BYTES - 4) v) = 32) as Hn by (unfold nbits; by rewrite Hd). rewrite Hn in Hr.
  rewrite u32_foldl by (done || lia). replace (be_value v) with (be_value (take (P4_VALUE_BYTES - 4) v ++ drop (P4_VALUE_BYTES - 4) v)) by (by rewrite take_drop).
  rewrite be_app, Hd. change (256 ^ Z.of_nat 4) with (2 ^ 32). by rewrite (Z.add_comm (_ * 2 ^ 32)), Z.mod_add, Z.mod_small by lia.
Qed.

Lemma byte_bits_spec x : 1 <= x < 256 -> byte_bits 8 x 8 = Z.log2 x + 1.
Proof.
  intros Hx. assert (x ∈ seqZ 1 255) as Hin by (apply elem_of_seqZ; lia). revert Hin. clear Hx.
  apply (Forall_forall (fun x => byte_bits 8 x 8 = Z.log2 x + 1)). apply (bool_decide_unpack _). vm_compute. exact I.
Qed.
(** The bits a big-endian number needs. *)
Lemma be_bit_length_spec b : bytes_ok b -> be_bit_length b = if be_value b =? 0 then 0 else Z.log2 (be_value b) + 1.
Proof.
  intros Hb. induction Hb as [|x b Hx Hb IH]; [done|]. cbn [be_bit_length]. rewrite be_cons. pose proof (be_bound b Hb) as Hr. unfold byte_ok, fits in Hx.
  destruct (Z.eqb_spec x 0) as [->|Hne]; [by rewrite IH|]. rewrite byte_bits_spec by lia.
  destruct (Z.eqb_spec (x * 2 ^ nbits b + be_value b) 0) as [H0|_]; [nia|].
  assert (0 <= nbits b) as Hn by (unfold nbits; lia). rewrite (Z.log2_unique (x * 2 ^ nbits b + be_value b) (Z.log2 x + nbits b)); [unfold nbits; lia| |].
  - pose proof (Z.log2_nonneg x). lia.
  - pose proof (Z.log2_spec x ltac:(lia)) as [H1 H2]. pose proof (Z.log2_nonneg x). rewrite Z.pow_succ_r in H2 by lia.
    rewrite Z.pow_succ_r, Z.pow_add_r by lia. nia.
Qed.
Lemma be_bit_length_le b w : bytes_ok b -> 0 <= w -> be_bit_length b <= w <-> be_value b < 2 ^ w.
Proof.
  intros Hb Hw. rewrite be_bit_length_spec by done. pose proof (be_bound b Hb) as Hr. destruct (Z.eqb_spec (be_value b) 0) as [->|Hne].
  - pose proof (Z.pow_pos_nonneg 2 w). lia.
  - rewrite Z.log2_lt_pow2 by lia. lia.
Qed.
(** Bytes are their number and how many they are. *)
Lemma be_inj a b : bytes_ok a -> bytes_ok b -> length a = length b -> be_value a = be_value b -> a = b.
Proof.
  intros Ha Hb Hl He. apply bits_ext; try done. intros i Hi. assert (nbits b = nbits a) as Hn by (unfold nbits; by rewrite Hl).
  pose proof (be_testbit a (nbits a - 1 - i) Ha ltac:(lia)) as H1. pose proof (be_testbit b (nbits a - 1 - i) Hb ltac:(lia)) as H2.
  rewrite Hn in H2. rewrite He, H2, !bool_decide_eq_true_2 in H1 by lia. cbn in H1.
  by replace (nbits a - 1 - (nbits a - 1 - i)) with i in H1 by lia.
Qed.
