(* ===== verification/P4Prog.v ===== *)
(** * A loaded P4 program (p4_program.h)

    The structs of a bmv2 program as the loader leaves it.  An array and its
    count are a list; an element past the count is the zeroed struct the
    calloc() left there.  A reference is an index, [P4_IDX_NONE] where there is
    none. *)
From S2P Require Export P4Value.

Definition P4_MAX_NAME : nat := 63.
Definition P4_MAX_HEADER_TYPES : nat := 64.
Definition P4_MAX_FIELDS : nat := 64.
Definition P4_MAX_HEADERS : nat := 64.
Definition P4_PHV_BYTES : Z := 1024.
Definition P4_IDX_NONE : Z := 0xffff.
Definition P4_MAX_ID : Z := 65534.
Definition P4_MAX_PARSE_STATES : nat := 64.
Definition P4_MAX_PARSER_OPS : nat := 16.
Definition P4_MAX_TRANSITIONS : nat := 32.
Definition P4_MAX_TRANSITION_KEY : nat := 8.
Definition P4_MAX_KEY_BYTES : nat := 16.
Definition P4_MAX_DEPARSE_ORDER : nat := 64.
Definition P4_MAX_ENTRY_BYTES : nat := 16.
Definition P4_MAX_ACTIONS : nat := 64.
Definition P4_MAX_RUNTIME_ARGS : nat := 8.
Definition P4_MAX_PRIMITIVES : nat := 32.
Definition P4_MAX_PRIM_PARAMS : nat := 4.
Definition P4_MAX_IMM_BYTES : nat := 16.
Definition P4_MAX_EXTERNS : nat := 8.
Definition P4_MAX_PIPELINES : nat := 2.
Definition P4_MAX_TABLES : nat := 32.
Definition P4_MAX_CONDITIONALS : nat := 32.
Definition P4_MAX_NODES : nat := 64.
Definition P4_MAX_TABLE_KEY : nat := 8.
Definition P4_MAX_TABLE_ACTIONS : nat := 16.
Definition P4_MAX_EXPR_NODES : nat := 64.
Definition P4_MAX_EXPR_DEPTH : Z := 8.
Definition P4_MAX_TOTAL_ENTRIES : Z := 65536.
Definition P4_PIPE_INGRESS : Z := 0.
Definition P4_PIPE_EGRESS : Z := 1.

(** Printable ASCII only. *)
Definition p4_name_printable (s : cstr) : bool := forallb (fun c => (32 <=? c) && (c <=? 126)) s.

(** An array read. *)
Definition elt {A} `{!Inhabited A} (l : list A) (i : Z) : A := l !!! Z.to_nat i.

Record p4_field := P4Field { fd_name : cstr; fd_bits : Z; fd_offset_bits : Z }.
#[export] Instance p4_field_zero : Inhabited p4_field := populate (P4Field [] 0 0).
Record p4_header_type := P4HeaderType { ht_name : cstr; ht_id : Z; ht_total_bits : Z; ht_fields : list p4_field }.
#[export] Instance p4_header_type_zero : Inhabited p4_header_type := populate (P4HeaderType [] 0 0 []).
Record p4_header := P4Header { hd_name : cstr; hd_id : Z; hd_header_type : Z; hd_metadata : bool; hd_phv_offset : Z }.
#[export] Instance p4_header_eta : Eta p4_header := fun r => P4Header (hd_name r) (hd_id r) (hd_header_type r) (hd_metadata r) (hd_phv_offset r).
#[export] Instance p4_header_zero : Inhabited p4_header := populate (P4Header [] 0 0 false 0).

Record p4_field_ref := FieldRef { fr_header : Z; fr_field : Z }.
#[export] Instance p4_field_ref_zero : Inhabited p4_field_ref := populate (FieldRef 0 0).
#[export] Instance p4_field_ref_eq : EqDecision p4_field_ref.
Proof. solve_decision. Defined.
Definition no_ref : p4_field_ref := FieldRef P4_IDX_NONE P4_IDX_NONE.

(** The one parser operation is extract; it names a header. *)
Record p4_transition := P4Transition {
  tr_is_default : bool; tr_has_mask : bool; tr_value : list Z; tr_mask : list Z; tr_next_state : Z }.
#[export] Instance p4_transition_eta : Eta p4_transition := fun r =>
  P4Transition (tr_is_default r) (tr_has_mask r) (tr_value r) (tr_mask r) (tr_next_state r).
#[export] Instance p4_transition_zero : Inhabited p4_transition :=
  populate (P4Transition false false (zeros P4_MAX_KEY_BYTES) (zeros P4_MAX_KEY_BYTES) 0).
Record p4_parse_state := P4ParseState {
  ps_name : cstr; ps_key_bytes : Z; ps_ops : list Z; ps_key : list p4_field_ref; ps_transitions : list p4_transition }.
#[export] Instance p4_parse_state_eta : Eta p4_parse_state := fun r =>
  P4ParseState (ps_name r) (ps_key_bytes r) (ps_ops r) (ps_key r) (ps_transitions r).
#[export] Instance p4_parse_state_zero : Inhabited p4_parse_state := populate (P4ParseState [] 0 [] [] []).

Inductive p4_prim_kind := PRIM_ASSIGN | PRIM_ADD | PRIM_SUB | PRIM_DROP | PRIM_NOP | PRIM_EXTERN.
Definition P4_EXTERN_FP8 : Z := 0.
Definition P4_EXTERN_FP8_MAP : Z := 0.
Definition P4_EXTERN_FP8_CVT : Z := 1.
Record p4_extern_inst := P4ExternInst { xi_name : cstr; xi_id : Z; xi_type : Z }.
#[export] Instance p4_extern_inst_zero : Inhabited p4_extern_inst := populate (P4ExternInst [] 0 0).

Inductive p4_operand :=
  | OPD_FIELD (field : p4_field_ref)
  | OPD_HEXSTR (imm_len : Z) (imm : list Z)
  | OPD_RUNTIME (runtime : Z)
  | OPD_EXTERN (inst : Z).
#[export] Instance p4_operand_zero : Inhabited p4_operand := populate (OPD_FIELD inhabitant).
(** The field a primitive writes: params[0].field. *)
Definition opd_field (o : p4_operand) : p4_field_ref := match o with OPD_FIELD r => r | _ => inhabitant end.
Definition opd_inst (o : p4_operand) : Z := match o with OPD_EXTERN i => i | _ => 0 end.
Record p4_primitive := P4Primitive { pr_kind : p4_prim_kind; pr_method : Z; pr_params : list p4_operand }.
Record p4_action := P4Action { ac_name : cstr; ac_id : Z; ac_runtime_bits : list Z; ac_primitives : list p4_primitive }.
#[export] Instance p4_action_zero : Inhabited p4_action := populate (P4Action [] 0 [] []).

Inductive p4_match_kind := MATCH_EXACT | MATCH_LPM | MATCH_TERNARY.
#[export] Instance p4_match_kind_eq : EqDecision p4_match_kind.
Proof. solve_decision. Defined.
Record p4_table_key := P4TableKey { tk_match_type : p4_match_kind; tk_has_mask : bool; tk_field : p4_field_ref; tk_mask : list Z }.
#[export] Instance p4_table_key_zero : Inhabited p4_table_key :=
  populate (P4TableKey MATCH_EXACT false inhabitant (zeros P4_MAX_ENTRY_BYTES)).
(** [tb_default_data]: each argument of the default action, with its length. *)
Record p4_table := P4Table {
  tb_name : cstr; tb_id : Z; tb_max_size : Z; tb_match_type : p4_match_kind; tb_key : list p4_table_key; tb_lpm_key : Z;
  tb_actions : list Z; tb_next : list Z; tb_base_default_next : Z; tb_default_action : Z; tb_default_data : list (Z * list Z) }.
#[export] Instance p4_table_eta : Eta p4_table := fun r =>
  P4Table (tb_name r) (tb_id r) (tb_max_size r) (tb_match_type r) (tb_key r) (tb_lpm_key r) (tb_actions r) (tb_next r)
    (tb_base_default_next r) (tb_default_action r) (tb_default_data r).
#[export] Instance p4_table_zero : Inhabited p4_table := populate (P4Table [] 0 0 MATCH_EXACT [] 0 [] [] 0 0 []).

Inductive p4_expr_op := EXPR_VALID | EXPR_EQ | EXPR_NE | EXPR_LT | EXPR_LE | EXPR_GT | EXPR_GE | EXPR_AND | EXPR_OR | EXPR_NOT.
Inductive p4_expr_operand :=
  | EO_NONE
  | EO_EXPR (expr : Z)
  | EO_FIELD (field : p4_field_ref)
  | EO_HEXSTR (imm_len : Z) (imm : list Z)
  | EO_HEADER (header : Z)
  | EO_BOOL (bval : bool).
Record p4_expr_node := P4ExprNode { en_op : p4_expr_op; en_left : p4_expr_operand; en_right : p4_expr_operand }.
#[export] Instance p4_expr_node_eta : Eta p4_expr_node := fun r => P4ExprNode (en_op r) (en_left r) (en_right r).
#[export] Instance p4_expr_node_zero : Inhabited p4_expr_node := populate (P4ExprNode EXPR_VALID EO_NONE EO_NONE).
Record p4_conditional := P4Conditional {
  cn_name : cstr; cn_id : Z; cn_true_next : Z; cn_false_next : Z; cn_expr : list p4_expr_node }.
#[export] Instance p4_conditional_eta : Eta p4_conditional := fun r =>
  P4Conditional (cn_name r) (cn_id r) (cn_true_next r) (cn_false_next r) (cn_expr r).
#[export] Instance p4_conditional_zero : Inhabited p4_conditional := populate (P4Conditional [] 0 0 0 []).

Inductive p4_node := NODE_TABLE (index : Z) | NODE_CONDITIONAL (index : Z).
#[export] Instance p4_node_zero : Inhabited p4_node := populate (NODE_TABLE 0).
Record p4_pipeline := P4Pipeline {
  pl_name : cstr; pl_id : Z; pl_init_node : Z; pl_nodes : list p4_node; pl_tables : list p4_table;
  pl_conditionals : list p4_conditional }.
#[export] Instance p4_pipeline_eta : Eta p4_pipeline := fun r =>
  P4Pipeline (pl_name r) (pl_id r) (pl_init_node r) (pl_nodes r) (pl_tables r) (pl_conditionals r).
#[export] Instance p4_pipeline_zero : Inhabited p4_pipeline := populate (P4Pipeline [] 0 0 [] [] []).

Record p4_program := P4Program {
  pg_egress_spec : p4_field_ref; pg_ingress_port : p4_field_ref; pg_egress_port : p4_field_ref;
  pg_externs : list p4_extern_inst;
  pg_has_rdma_metadata : bool; pg_rdma_opcode : p4_field_ref; pg_rdma_qp_num : p4_field_ref; pg_rdma_length : p4_field_ref;
  pg_rdma_imm_data : p4_field_ref; pg_rdma_rkey : p4_field_ref;
  pg_pipelines : list p4_pipeline; pg_actions : list p4_action; pg_header_types : list p4_header_type;
  pg_headers : list p4_header; pg_phv_bytes : Z; pg_init_state : Z; pg_parse_states : list p4_parse_state;
  pg_deparse_order : list Z }.
#[export] Instance p4_program_eta : Eta p4_program := fun r =>
  P4Program (pg_egress_spec r) (pg_ingress_port r) (pg_egress_port r) (pg_externs r) (pg_has_rdma_metadata r) (pg_rdma_opcode r)
    (pg_rdma_qp_num r) (pg_rdma_length r) (pg_rdma_imm_data r) (pg_rdma_rkey r) (pg_pipelines r) (pg_actions r)
    (pg_header_types r) (pg_headers r) (pg_phv_bytes r) (pg_init_state r) (pg_parse_states r) (pg_deparse_order r).
#[export] Instance p4_program_zero : Inhabited p4_program :=
  populate (P4Program inhabitant inhabitant inhabitant [] false inhabitant inhabitant inhabitant inhabitant inhabitant [] [] [] [] 0 0 [] []).

(** ** Well-formed programs

    What the loader guarantees and the executor relies on: every index in
    range, every field inside its header and every header inside the packet
    header vector, literals at their width, and a pipeline graph with no
    cycle. *)
Section ok.
Variable prog : p4_program.

Definition type_of (h : Z) : p4_header_type := elt (pg_header_types prog) (hd_header_type (elt (pg_headers prog) h)).
Definition field_of (ref : p4_field_ref) : p4_field := elt (ht_fields (type_of (fr_header ref))) (fr_field ref).
(** The bytes a header takes. *)
Definition hdr_bytes (h : Z) : Z := (ht_total_bits (type_of h) + 7) / 8.

(** Fields one after the other from bit [off] on, up to [total]. *)
Fixpoint fields_ok (off : Z) (fs : list p4_field) (total : Z) : Prop :=
  match fs with
  | [] => total = off
  | f :: fs => fd_offset_bits f = off /\ 1 <= fd_bits f <= P4_MAX_FIELD_BITS /\ fields_ok (off + fd_bits f) fs total
  end.
Definition type_ok (t : p4_header_type) : Prop := fields_ok 0 (ht_fields t) (ht_total_bits t) /\ ht_total_bits t <= 0xffff.
(** Headers one after the other from byte [off] on. *)
Fixpoint layout_ok (off : Z) (hs : list p4_header) : Prop :=
  match hs with
  | [] => pg_phv_bytes prog = off
  | h :: hs => hd_phv_offset h = off /\
      layout_ok (off + (ht_total_bits (elt (pg_header_types prog) (hd_header_type h)) + 7) / 8) hs
  end.
Definition header_ok (h : p4_header) : Prop :=
  0 <= hd_header_type h < Z.of_nat (length (pg_header_types prog)) /\
  (hd_metadata h = false -> ht_total_bits (elt (pg_header_types prog) (hd_header_type h)) mod 8 = 0).

Definition hdr_idx_ok (h : Z) : Prop := 0 <= h < Z.of_nat (length (pg_headers prog)).
Definition ref_ok (r : p4_field_ref) : Prop :=
  hdr_idx_ok (fr_header r) /\ 0 <= fr_field r < Z.of_nat (length (ht_fields (type_of (fr_header r)))).
(** An architecture field: absent, or of its width. *)
Definition arch_ok (bits : Z) (r : p4_field_ref) : Prop := r = no_ref \/ ref_ok r /\ fd_bits (field_of r) = bits.
Definition bytes16_ok (b : list Z) : Prop := length b = 16%nat /\ bytes_ok b.

Definition next_in (n next : Z) : Prop := next = P4_IDX_NONE \/ 0 <= next < n.
Definition transition_ok (t : p4_transition) : Prop :=
  bytes16_ok (tr_value t) /\ bytes16_ok (tr_mask t) /\ next_in (Z.of_nat (length (pg_parse_states prog))) (tr_next_state t).
Definition key_width (refs : list p4_field_ref) : Z := sumZ ((fun r => (fd_bits (field_of r) + 7) / 8) <$> refs).
Definition state_ok (st : p4_parse_state) : Prop :=
  Forall (fun h => hdr_idx_ok h /\ hd_metadata (elt (pg_headers prog) h) = false) (ps_ops st) /\
  Forall ref_ok (ps_key st) /\ ps_key_bytes st = key_width (ps_key st) /\ ps_key_bytes st <= Z.of_nat P4_MAX_KEY_BYTES /\
  Forall transition_ok (ps_transitions st).

Definition operand_ok (nargs : nat) (o : p4_operand) : Prop :=
  match o with
  | OPD_FIELD r => ref_ok r
  | OPD_HEXSTR n imm => bytes16_ok imm /\ 0 <= n <= 16
  | OPD_RUNTIME i => 0 <= i < Z.of_nat nargs
  | OPD_EXTERN i => 0 <= i < Z.of_nat (length (pg_externs prog))
  end.
Definition is_extern (o : p4_operand) : bool := match o with OPD_EXTERN _ => true | _ => false end.
Definition is_field (o : p4_operand) : bool := match o with OPD_FIELD _ => true | _ => false end.
Definition prim_ok (nargs : nat) (p : p4_primitive) : Prop :=
  Forall (operand_ok nargs) (pr_params p) /\
  match pr_kind p with
  | PRIM_DROP | PRIM_NOP => pr_params p = []
  | PRIM_EXTERN => exists i args, pr_params p = OPD_EXTERN i :: args /\ Forall (fun o => is_extern o = false) args /\
      (length args < P4_MAX_PRIM_PARAMS)%nat
  | PRIM_ASSIGN => exists d s, pr_params p = [d; s] /\ is_field d = true /\ is_extern s = false
  | PRIM_ADD | PRIM_SUB => exists d s, pr_params p = d :: s /\ is_field d = true /\ Forall (fun o => is_extern o = false) s /\
      (length s = 1 \/ length s = 2)%nat
  end.
Definition action_ok (a : p4_action) : Prop :=
  Forall (fun b => 1 <= b <= 8 * Z.of_nat P4_MAX_ENTRY_BYTES) (ac_runtime_bits a) /\
  (length (ac_runtime_bits a) <= P4_MAX_RUNTIME_ARGS)%nat /\
  Forall (prim_ok (length (ac_runtime_bits a))) (ac_primitives a).

Definition act_idx_ok (a : Z) : Prop := 0 <= a < Z.of_nat (length (pg_actions prog)).
Definition key_ok (k : p4_table_key) : Prop :=
  ref_ok (tk_field k) /\ fd_bits (field_of (tk_field k)) <= 8 * Z.of_nat P4_MAX_ENTRY_BYTES /\
  (tk_has_mask k = true -> bytes16_ok (tk_mask k)).
Definition kind_rank (k : p4_match_kind) : Z := match k with MATCH_EXACT => 0 | MATCH_LPM => 1 | MATCH_TERNARY => 2 end.
(** The table is as general as its most general key, and one key at most is
    LPM: [tb_lpm_key]. *)
Definition kinds_ok (t : p4_table) : Prop :=
  Forall (fun k => kind_rank (tk_match_type k) <= kind_rank (tb_match_type t)) (tb_key t) /\
  (forall i, tk_match_type <$> tb_key t !! i = Some MATCH_LPM -> Z.of_nat i = tb_lpm_key t) /\
  (tb_match_type t = MATCH_LPM -> 0 <= tb_lpm_key t < Z.of_nat (length (tb_key t))).
Definition default_ok (t : p4_table) : Prop :=
  (tb_default_action t = P4_IDX_NONE /\ tb_default_data t = []) \/
  tb_default_action t ∈ tb_actions t /\
  length (tb_default_data t) = length (ac_runtime_bits (elt (pg_actions prog) (tb_default_action t))) /\
  Forall (fun d => bytes16_ok d.2 /\ 0 <= d.1 <= 16) (tb_default_data t).
Definition table_ok (nnodes : Z) (t : p4_table) : Prop :=
  Forall key_ok (tb_key t) /\ (length (tb_key t) <= P4_MAX_TABLE_KEY)%nat /\ kinds_ok t /\ Forall act_idx_ok (tb_actions t) /\
  length (tb_next t) = length (tb_actions t) /\ Forall (next_in nnodes) (tb_next t) /\ next_in nnodes (tb_base_default_next t) /\
  default_ok t /\ 0 <= tb_max_size t <= P4_MAX_TOTAL_ENTRIES.

(** Nested expressions come after the node that has them, no deeper than the
    executor follows. *)
Inductive expr_ok (nodes : list p4_expr_node) : Z -> Z -> Prop :=
  | Expr_ok i depth n :
      nodes !! Z.to_nat i = Some n -> 0 <= i -> 0 <= depth <= P4_MAX_EXPR_DEPTH ->
      side_ok nodes i depth (en_left n) -> side_ok nodes i depth (en_right n) -> expr_ok nodes i depth
with side_ok (nodes : list p4_expr_node) : Z -> Z -> p4_expr_operand -> Prop :=
  | Side_none i depth : side_ok nodes i depth EO_NONE
  | Side_expr i depth e : i < e -> expr_ok nodes e (depth + 1) -> side_ok nodes i depth (EO_EXPR e)
  | Side_field i depth r : ref_ok r -> side_ok nodes i depth (EO_FIELD r)
  | Side_hexstr i depth n imm : bytes16_ok imm -> 0 <= n <= 16 -> side_ok nodes i depth (EO_HEXSTR n imm)
  | Side_header i depth h : hdr_idx_ok h -> side_ok nodes i depth (EO_HEADER h)
  | Side_bool i depth b : side_ok nodes i depth (EO_BOOL b).

(** The nodes a node leads to. *)
Definition node_edges (pl : p4_pipeline) (n : Z) : list Z :=
  match elt (pl_nodes pl) n with
  | NODE_TABLE i => let t := elt (pl_tables pl) i in tb_next t ++ [tb_base_default_next t]
  | NODE_CONDITIONAL i => let c := elt (pl_conditionals pl) i in [cn_true_next c; cn_false_next c]
  end.
Definition node_ok (pl : p4_pipeline) (n : p4_node) : Prop :=
  match n with
  | NODE_TABLE i => 0 <= i < Z.of_nat (length (pl_tables pl))
  | NODE_CONDITIONAL i => 0 <= i < Z.of_nat (length (pl_conditionals pl))
  end.
(** An order of the nodes that every edge goes down. *)
Definition acyclic (pl : p4_pipeline) : Prop :=
  exists rank : Z -> nat, forall n m, 0 <= n < Z.of_nat (length (pl_nodes pl)) -> m ∈ node_edges pl n -> m <> P4_IDX_NONE ->
    (rank m < rank n < length (pl_nodes pl))%nat.
Definition pipeline_ok (pl : p4_pipeline) : Prop :=
  let n := Z.of_nat (length (pl_nodes pl)) in
  Forall (node_ok pl) (pl_nodes pl) /\ Forall (table_ok n) (pl_tables pl) /\ (length (pl_tables pl) <= P4_MAX_TABLES)%nat /\
  Forall (fun c => expr_ok (cn_expr c) 0 0 /\ next_in n (cn_true_next c) /\ next_in n (cn_false_next c)) (pl_conditionals pl) /\
  next_in n (pl_init_node pl) /\ acyclic pl.

Record prog_ok : Prop := {
  po_types : Forall type_ok (pg_header_types prog);
  po_headers : Forall header_ok (pg_headers prog);
  po_count : (length (pg_headers prog) <= P4_MAX_HEADERS)%nat;
  po_layout : layout_ok 0 (pg_headers prog);
  po_fits : pg_phv_bytes prog <= P4_PHV_BYTES;
  po_states : Forall state_ok (pg_parse_states prog);
  po_init : 0 <= pg_init_state prog < Z.of_nat (length (pg_parse_states prog));
  po_deparse : Forall hdr_idx_ok (pg_deparse_order prog) /\ NoDup (pg_deparse_order prog);
  po_egress_spec : ref_ok (pg_egress_spec prog) /\ fd_bits (field_of (pg_egress_spec prog)) = 9;
  po_ports : arch_ok 9 (pg_ingress_port prog) /\ arch_ok 9 (pg_egress_port prog);
  po_rdma : pg_has_rdma_metadata prog = true ->
    arch_ok 8 (pg_rdma_opcode prog) /\ arch_ok 24 (pg_rdma_qp_num prog) /\ arch_ok 32 (pg_rdma_length prog) /\
    arch_ok 32 (pg_rdma_imm_data prog) /\ arch_ok 32 (pg_rdma_rkey prog);
  po_actions : Forall action_ok (pg_actions prog);
  po_pipelines : Forall pipeline_ok (pg_pipelines prog) /\ length (pg_pipelines prog) = P4_MAX_PIPELINES }.
End ok.

(** * Where an accepted program's fields lie

    The headers follow one another in the packet header vector, the fields
    follow one another in their header; so a field lies inside the vector and
    no two overlap. *)
Section layout.
Variable prog : p4_program.
Hypothesis Hok : prog_ok prog.

(** Where the field starts in the vector, in bits (p4_exec.c). *)
Definition phv_bit (ref : p4_field_ref) : Z := hd_phv_offset (elt (pg_headers prog) (fr_header ref)) * 8 + fd_offset_bits (field_of prog ref).
Definition fbits (ref : p4_field_ref) : Z := fd_bits (field_of prog ref).

Lemma elt_lookup {A} `{Inhabited A} (l : list A) i : 0 <= i < Z.of_nat (length l) -> l !! Z.to_nat i = Some (elt l i).
Proof. intros Hi. apply list_lookup_lookup_total_lt. lia. Qed.
Lemma elt_Forall {A} `{Inhabited A} (P : A -> Prop) l i : Forall P l -> 0 <= i < Z.of_nat (length l) -> P (elt l i).
Proof. intros Hl Hi. exact (Forall_lookup_1 _ _ _ _ Hl (elt_lookup l i Hi)). Qed.

Lemma fields_at off fs total i f :
  fields_ok off fs total -> fs !! i = Some f ->
  off <= fd_offset_bits f /\ fd_offset_bits f + fd_bits f <= total /\ 1 <= fd_bits f <= P4_MAX_FIELD_BITS.
Proof.
  revert off i. induction fs as [|g fs IH]; intros off i; [done|]. intros (Ho & Hb & Hf).
  assert (off + fd_bits g <= total) as Ht.
  { clear IH. revert Hf. generalize (off + fd_bits g). induction fs as [|h fs IH]; cbn; [lia|]. intros o (_ & ? & H). specialize (IH _ H). lia. }
  destruct i; cbn; [intros [= <-]; lia|]. intros Hi. destruct (IH _ _ Hf Hi). lia.
Qed.
Lemma fields_apart off fs total i j f g :
  fields_ok off fs total -> fs !! i = Some f -> fs !! j = Some g -> (i < j)%nat -> fd_offset_bits f + fd_bits f <= fd_offset_bits g.
Proof.
  revert off i j. induction fs as [|h fs IH]; intros off i j; [done|]. intros (Ho & Hb & Hf). destruct j as [|j]; [lia|]. destruct i as [|i]; cbn.
  - intros [= <-] Hg _. destruct (fields_at _ _ _ _ _ Hf Hg). lia.
  - intros Hi Hj Hlt. apply (IH _ i j Hf Hi Hj). lia.
Qed.

Lemma type_total_nonneg t : type_ok t -> 0 <= ht_total_bits t.
Proof.
  intros [Hf _]. revert Hf. generalize 0. induction (ht_fields t) as [|f fs IH]; cbn; intros o; [lia|].
  intros (_ & Hb & Hf). specialize (IH _ Hf). lia.
Qed.
Lemma type_at h : hdr_idx_ok prog h -> type_ok (type_of prog h).
Proof.
  intros Hh. pose proof (elt_Forall _ _ h (po_headers _ Hok) Hh) as [Ht _]. exact (elt_Forall _ _ _ (po_types _ Hok) Ht).
Qed.
Lemma hdr_bytes_nonneg h : hdr_idx_ok prog h -> 0 <= hdr_bytes prog h.
Proof. intros Hh. pose proof (type_total_nonneg _ (type_at h Hh)). unfold hdr_bytes. apply Z.div_pos; lia. Qed.

(** A header instance's bytes, by the instance. *)
Abbreviation ibytes h := ((ht_total_bits (elt (pg_header_types prog) (hd_header_type h)) + 7) / 8).
Lemma layout_at off hs i h :
  Forall (fun h => 0 <= ibytes h) hs -> layout_ok prog off hs -> hs !! i = Some h ->
  off <= hd_phv_offset h /\ hd_phv_offset h + ibytes h <= pg_phv_bytes prog.
Proof.
  revert off i. induction hs as [|g hs IH]; intros off i; [done|]. intros [Hg Hn]%Forall_cons (Ho & Hl).
  assert (off + ibytes g <= pg_phv_bytes prog) as Ht.
  { clear IH Ho. revert Hl. generalize (off + ibytes g). induction hs as [|k hs IH]; cbn; [lia|]. apply Forall_cons in Hn as [? Hn].
    intros o (_ & Hl). specialize (IH Hn _ Hl). lia. }
  destruct i; cbn; [intros [= <-]; lia|]. intros Hi. destruct (IH _ _ Hn Hl Hi). lia.
Qed.
Lemma layout_apart off hs i j h g :
  Forall (fun h => 0 <= ibytes h) hs -> layout_ok prog off hs -> hs !! i = Some h -> hs !! j = Some g -> (i < j)%nat ->
  hd_phv_offset h + ibytes h <= hd_phv_offset g.
Proof.
  revert off i j. induction hs as [|k hs IH]; intros off i j; [done|]. intros [Hk Hn]%Forall_cons (Ho & Hl). destruct j as [|j]; [lia|]. destruct i as [|i]; cbn.
  - intros [= <-] Hg _. destruct (layout_at _ _ _ _ Hn Hl Hg). lia.
  - intros Hi Hj Hlt. apply (IH _ i j Hn Hl Hi Hj). lia.
Qed.
Lemma ibytes_nonneg : Forall (fun h => 0 <= ibytes h) (pg_headers prog).
Proof.
  apply Forall_lookup. intros i h Hi. assert (hdr_idx_ok prog (Z.of_nat i)) as Hx by (apply lookup_lt_Some in Hi; unfold hdr_idx_ok; lia).
  pose proof (hdr_bytes_nonneg _ Hx) as H. unfold hdr_bytes, type_of in H. unfold elt at 2 in H.
  by rewrite Nat2Z.id, (list_lookup_total_correct _ _ _ Hi) in H.
Qed.
Lemma header_at h : hdr_idx_ok prog h ->
  0 <= hd_phv_offset (elt (pg_headers prog) h) /\ hd_phv_offset (elt (pg_headers prog) h) + hdr_bytes prog h <= pg_phv_bytes prog.
Proof. intros Hh. exact (layout_at 0 _ _ _ ibytes_nonneg (po_layout _ Hok) (elt_lookup _ _ Hh)). Qed.
Lemma headers_apart h g : hdr_idx_ok prog h -> hdr_idx_ok prog g -> h < g ->
  hd_phv_offset (elt (pg_headers prog) h) + hdr_bytes prog h <= hd_phv_offset (elt (pg_headers prog) g).
Proof.
  intros Hh Hg Hlt. refine (layout_apart 0 _ _ _ _ _ ibytes_nonneg (po_layout _ Hok) (elt_lookup _ _ Hh) (elt_lookup _ _ Hg) _).
  unfold hdr_idx_ok in *. lia.
Qed.

(** A field's place in its header, and the header's in the vector. *)
Lemma ref_in_header r : ref_ok prog r ->
  0 <= fd_offset_bits (field_of prog r) /\ fd_offset_bits (field_of prog r) + fbits r <= 8 * hdr_bytes prog (fr_header r) /\
  1 <= fbits r <= P4_MAX_FIELD_BITS.
Proof.
  intros [Hh Hf]. destruct (type_at _ Hh) as [Hfs _]. destruct (fields_at _ _ _ _ _ Hfs (elt_lookup _ _ Hf)) as (H1 & H2 & H3).
  unfold fbits, field_of, hdr_bytes. split; [done|]. split; [|done].
  pose proof (Z.div_mod (ht_total_bits (type_of prog (fr_header r)) + 7) 8 ltac:(lia)).
  pose proof (Z.mod_pos_bound (ht_total_bits (type_of prog (fr_header r)) + 7) 8 ltac:(lia)). lia.
Qed.
Lemma ref_in_phv r : ref_ok prog r ->
  0 <= phv_bit r /\ phv_bit r + fbits r <= 8 * pg_phv_bytes prog /\ 1 <= fbits r <= P4_MAX_FIELD_BITS.
Proof.
  intros Hr. destruct (ref_in_header r Hr) as (H1 & H2 & H3). destruct (header_at (fr_header r)) as [H4 H5]; [apply Hr|]. unfold phv_bit. lia.
Qed.
(** Two fields are the same or do not overlap. *)
Lemma refs_apart r s : ref_ok prog r -> ref_ok prog s -> r <> s -> phv_bit r + fbits r <= phv_bit s \/ phv_bit s + fbits s <= phv_bit r.
Proof.
  intros Hr Hs Hne. destruct (ref_in_header r Hr) as (Hr1 & Hr2 & Hr3). destruct (ref_in_header s Hs) as (Hs1 & Hs2 & Hs3).
  destruct Hr as [Hrh Hrf], Hs as [Hsh Hsf]. unfold phv_bit.
  destruct (Z.lt_trichotomy (fr_header r) (fr_header s)) as [Hlt|[Heq|Hlt]].
  - left. pose proof (headers_apart _ _ Hrh Hsh Hlt). lia.
  - destruct r as [h i], s as [h' j]. cbn in *. subst h'. assert (i <> j) as Hij by congruence. unfold fbits, field_of in *. cbn in *.
    destruct (type_at _ Hrh) as [Hfs _].
    pose proof (fields_apart _ _ _ (Z.to_nat i) (Z.to_nat j) _ _ Hfs (elt_lookup _ _ Hrf) (elt_lookup _ _ Hsf)) as Hl.
    pose proof (fields_apart _ _ _ (Z.to_nat j) (Z.to_nat i) _ _ Hfs (elt_lookup _ _ Hsf) (elt_lookup _ _ Hrf)) as Hg.
    destruct (Z.lt_total i j) as [?|[?|?]]; [left; specialize (Hl ltac:(lia)); lia|done|right; specialize (Hg ltac:(lia)); lia].
  - right. pose proof (headers_apart _ _ Hsh Hrh Hlt). lia.
Qed.
End layout.
