(* ===== verification/P4Table.v ===== *)
(** * Match-action tables (p4_table.c)

    The entry store and the lookup.  The reasons a refusal gives in words are
    left out; its error number is the result. *)
From S2P Require Export P4Prog.

Definition P4_MATCH_BYTES : nat := P4_MAX_ENTRY_BYTES.
Definition P4_UPDATE_INSERT : Z := 0.
Definition P4_UPDATE_MODIFY : Z := 1.
Definition P4_UPDATE_DELETE : Z := 2.

Record p4_match_spec := P4MatchSpec { ms_len : Z; ms_prefix_bits : Z; ms_value : list Z; ms_mask : list Z }.
#[export] Instance p4_match_spec_eta : Eta p4_match_spec := fun r => P4MatchSpec (ms_len r) (ms_prefix_bits r) (ms_value r) (ms_mask r).
#[export] Instance p4_match_spec_zero : Inhabited p4_match_spec :=
  populate (P4MatchSpec 0 0 (zeros P4_MATCH_BYTES) (zeros P4_MATCH_BYTES)).
Record p4_param := P4Param { pm_len : Z; pm_value : list Z }.
#[export] Instance p4_param_zero : Inhabited p4_param := populate (P4Param 0 (zeros P4_MATCH_BYTES)).
(** An update as it arrives: the arrays are as long as their caps, the counts
    apart. *)
Record p4_update := P4Update {
  up_type : Z; up_table : cstr; up_action : cstr; up_priority : Z; up_nmatch : Z; up_nparams : Z;
  up_match : list p4_match_spec; up_params : list p4_param }.
#[export] Instance p4_update_eta : Eta p4_update := fun r =>
  P4Update (up_type r) (up_table r) (up_action r) (up_priority r) (up_nmatch r) (up_nparams r) (up_match r) (up_params r).

Record p4_entry_key := P4EntryKey { ek_value : list Z; ek_mask : list Z }.
#[export] Instance p4_entry_key_zero : Inhabited p4_entry_key := populate (P4EntryKey (zeros P4_MATCH_BYTES) (zeros P4_MATCH_BYTES)).
#[export] Instance p4_entry_key_eq : EqDecision p4_entry_key.
Proof. solve_decision. Defined.
Record p4_entry := P4Entry {
  ent_priority : Z; ent_rank : Z; ent_action : Z; ent_key : list p4_entry_key; ent_params : list p4_param }.
#[export] Instance p4_entry_zero : Inhabited p4_entry := populate (P4Entry 0 0 0 [] []).

(** [te_e]: the entries in use, packed; [te_cap] is 0 until the first. *)
Record p4_table_entries := P4TableEntries { te_cap : Z; te_e : list p4_entry }.
#[export] Instance p4_table_entries_eta : Eta p4_table_entries := fun r => P4TableEntries (te_cap r) (te_e r).
#[export] Instance p4_table_entries_zero : Inhabited p4_table_entries := populate (P4TableEntries 0 []).
Record p4_entries := P4Entries { pe_t : list (list p4_table_entries) }.
#[export] Instance p4_entries_eta : Eta p4_entries := fun r => P4Entries (pe_t r).
Definition p4_entries_create : p4_entries := P4Entries (replicate P4_MAX_PIPELINES (replicate P4_MAX_TABLES inhabitant)).

(** The first table of that name, over the pipelines in order. *)
Definition find_in (name : cstr) (pl : p4_pipeline) : option Z :=
  (fun p => Z.of_nat p.1) <$> list_find (fun t => tb_name t = name) (pl_tables pl).
Fixpoint find_table_from (p : Z) (pls : list p4_pipeline) (name : cstr) : option (Z * Z) :=
  match pls with
  | [] => None
  | pl :: pls => match find_in name pl with Some t => Some (p, t) | None => find_table_from (p + 1) pls name end
  end.
Definition find_table (prog : p4_program) (name : cstr) : option (Z * Z) := find_table_from 0 (pg_pipelines prog) name.
Definition the_table (prog : p4_program) (pipe table : Z) : p4_table := elt (pl_tables (elt (pg_pipelines prog) pipe)) table.

(** The last [len] of the sixteen bytes, at most all of them. *)
Definition sig_len (len : Z) : nat := if Z.of_nat P4_MATCH_BYTES <? len then P4_MATCH_BYTES else Z.to_nat len.
Definition sig_bits (v : list Z) (len : Z) : Z := be_bit_length (drop (P4_MATCH_BYTES - sig_len len) v).
Definition low_copy (src : list Z) (len : Z) : list Z :=
  foldl (fun out i => <[(P4_VALUE_BYTES - 1 - i)%nat := src !!! (P4_MATCH_BYTES - 1 - i)%nat]> out) value_zero (seq 0 (sig_len len)).
Definition spec_value (s : p4_match_spec) : list Z := low_copy (ms_value s) (ms_len s).
Definition spec_mask (s : p4_match_spec) : list Z := low_copy (ms_mask s) (ms_len s).
(** The top [bits] of a [width]-bit field. *)
Definition prefix_mask (width bits : Z) : list Z :=
  foldl (fun out i =>
    let from_right := width - 1 - i in
    alter (fun x => Z.lor x (Z.shiftl 1 (from_right mod 8))) (P4_VALUE_BYTES - 1 - Z.to_nat (from_right / 8))%nat out)
  value_zero (seqZ 0 (Z.min bits width)).
Definition low_bytes (v : list Z) : list Z := bslice v (P4_VALUE_BYTES - P4_MATCH_BYTES) P4_MATCH_BYTES.
Definition land_bytes (a b : list Z) : list Z := zip_with Z.land a b.

Section with_program.
Variable prog : p4_program.
Implicit Types (tb : p4_table) (up : p4_update) (e : p4_entry).

Definition key_bits (k : p4_table_key) : Z := fd_bits (field_of prog (tk_field k)).

(** One key field in the form the lookup reads. *)
Definition entry_key (k : p4_table_key) (s : p4_match_spec) : p4_entry_key :=
  P4EntryKey (low_bytes (spec_value s))
    (match tk_match_type k with
     | MATCH_LPM => low_bytes (prefix_mask (key_bits k) (ms_prefix_bits s))
     | MATCH_TERNARY => low_bytes (spec_mask s)
     | MATCH_EXACT => replicate P4_MATCH_BYTES 0xff
     end).
Definition entry_keys tb up : list p4_entry_key := imap (fun i k => entry_key k (up_match up !!! i)) (tb_key tb).

Definition field_matches (field : list Z) (k : p4_entry_key) : bool :=
  forallb (fun '(f, (m, v)) => Z.land f m =? v) (zip field (zip (ek_mask k) (ek_value k))).
Definition entry_matches e (keys : list (list Z)) : bool := forallb (fun '(f, k) => field_matches f k) (zip keys (ent_key e)).

Definition value_outside (v m : list Z) : bool := existsb (fun '(x, y) => negb (Z.land x (u8 (Z.lnot y)) =? 0)) (zip v m).

Definition same_key tb e (keys : list p4_entry_key) (priority : Z) : bool :=
  bool_decide (ent_key e = keys) &&
  negb (bool_decide (tb_match_type tb = MATCH_TERNARY) && negb (ent_priority e =? priority)).

(** Whether a key field of the update fits the field it is matched against. *)
Definition spec_fits (k : p4_table_key) (m : p4_match_spec) : bool :=
  let width := key_bits k in
  negb (((width + 7) / 8 <? ms_len m) || (width <? sig_bits (ms_value m) (ms_len m)) ||
        (bool_decide (tk_match_type k = MATCH_TERNARY) && (width <? sig_bits (ms_mask m) (ms_len m)))) &&
  negb (bool_decide (tk_match_type k = MATCH_LPM) && (width <? ms_prefix_bits m)) &&
  negb (negb (bool_decide (tk_match_type k = MATCH_LPM)) && negb (ms_prefix_bits m =? 0)) &&
  match tk_match_type k with
  | MATCH_LPM => negb (value_outside (spec_value m) (prefix_mask width (ms_prefix_bits m)))
  | MATCH_TERNARY => negb (value_outside (spec_value m) (spec_mask m))
  | MATCH_EXACT => true
  end.
Definition param_fits (bits : Z) (p : p4_param) : bool :=
  negb (((bits + 7) / 8 <? pm_len p) || (bits <? sig_bits (pm_value p) (pm_len p))).

(** The table and the action an update names, or an error. *)
Definition resolve up : Z + (Z * Z * Z) :=
  match find_table prog (up_table up) with
  | None => inl (- EINVAL)
  | Some (pipe, table) =>
      let tb := the_table prog pipe table in
      if negb (up_nmatch up =? Z.of_nat (length (tb_key tb))) then inl (- EINVAL)
      else if negb (forallb id (imap (fun i k => spec_fits k (up_match up !!! i)) (tb_key tb))) then inl (- EINVAL)
      else if bool_decide (tb_match_type tb = MATCH_TERNARY) && (up_priority up =? 0) then inl (- EINVAL)
      else if negb (bool_decide (tb_match_type tb = MATCH_TERNARY)) && negb (up_priority up =? 0) then inl (- EINVAL)
      else if up_type up =? P4_UPDATE_DELETE then inr (pipe, table, P4_IDX_NONE)
      else
        match list_find (fun a => ac_name (elt (pg_actions prog) a) = up_action up) (tb_actions tb) with
        | None => inl (- EINVAL)
        | Some (_, action) =>
            let act := elt (pg_actions prog) action in
            if negb (up_nparams up =? Z.of_nat (length (ac_runtime_bits act))) then inl (- EINVAL)
            else if negb (forallb id (imap (fun i bits => param_fits bits (up_params up !!! i)) (ac_runtime_bits act))) then inl (- EINVAL)
            else inr (pipe, table, action)
        end
  end.

(** The update's values under the program's key masks. *)
Definition mask_spec (k : p4_table_key) (m : p4_match_spec) : p4_match_spec :=
  if tk_has_mask k then m <| ms_value ::= fun v => land_bytes v (tk_mask k) |> else m.
Definition mask_update tb up : p4_update :=
  up <| up_match ::= fun ms => imap (fun i m => match tb_key tb !! i with Some k => mask_spec k m | None => m end) ms |>.

Definition entry_of tb up (keys : list p4_entry_key) (action : Z) : p4_entry :=
  P4Entry (up_priority up)
    (match tb_match_type tb with MATCH_LPM => ms_prefix_bits (elt (up_match up) (tb_lpm_key tb)) | _ => up_priority up end)
    action keys ((fun i => up_params up !!! i) <$> seq 0 (Z.to_nat (up_nparams up))).

(** The last entry fills the hole. *)
Definition delete_at (i : nat) (es : list p4_entry) : list p4_entry :=
  let last := es !!! (length es - 1)%nat in take (length es - 1) (<[i := last]> es).

(** The update of one table; [mem] is whether calloc() succeeds. *)
Definition table_update (mem : bool) tb up (keys : list p4_entry_key) (action : Z) (te : p4_table_entries) : Z * p4_table_entries :=
  let found := fst <$> list_find (fun e => same_key tb e keys (up_priority up) = true) (te_e te) in
  if up_type up =? P4_UPDATE_DELETE then
    match found with
    | None => (- ENOENT, te)
    | Some i => (0, te <| te_e ::= delete_at i |>)
    end
  else if up_type up =? P4_UPDATE_MODIFY then
    match found with
    | None => (- ENOENT, te)
    | Some i => (0, te <| te_e ::= <[i := entry_of tb up keys action]> |>)
    end
  else
    match found with
    | Some _ => (- EEXIST, te)
    | None =>
        let first := te_cap te =? 0 in
        if first && negb mem then (- ENOMEM, te)
        else
          let te := if first then te <| te_cap := if negb (tb_max_size tb =? 0) then tb_max_size tb else 1 |> else te in
          if te_cap te <=? Z.of_nat (length (te_e te)) then (- ENOSPC, te)
          else (0, te <| te_e ::= fun es => es ++ [entry_of tb up keys action] |>)
    end.

Definition p4_entries_update (mem : bool) (ent : p4_entries) up : Z * p4_entries :=
  if P4_UPDATE_DELETE <? up_type up then (- EINVAL, ent)
  else if (Z.of_nat P4_MAX_TABLE_KEY <? up_nmatch up) || (Z.of_nat P4_MAX_RUNTIME_ARGS <? up_nparams up) then (- EINVAL, ent)
  else
    match resolve up with
    | inl rc => (rc, ent)
    | inr (pipe, table, action) =>
        let tb := the_table prog pipe table in
        let up := mask_update tb up in
        let '(rc, te) := table_update mem tb up (entry_keys tb up) action (elt (elt (pe_t ent) pipe) table) in
        (rc, ent <| pe_t ::= alter (alter (fun _ => te) (Z.to_nat table)) (Z.to_nat pipe) |>)
    end.

(** The packet's key, under the program's masks. *)
Definition lookup_key tb (keys : list (list Z)) : list (list Z) :=
  zip_with (fun k v => let field := low_bytes v in if tk_has_mask k then land_bytes field (tk_mask k) else field) (tb_key tb) keys.
Fixpoint lookup_loop (kind : p4_match_kind) (key : list (list Z)) (best : option p4_entry) (es : list p4_entry) : option p4_entry :=
  match es with
  | [] => best
  | e :: es =>
      if negb (entry_matches e key) then lookup_loop kind key best es
      else
        match kind with
        | MATCH_EXACT => Some e
        | _ =>
            let better := match best with None => true | Some b => ent_rank b <? ent_rank e end in
            lookup_loop kind key (if better then Some e else best) es
        end
  end.
Definition p4_entries_lookup (ent : p4_entries) (pipe table : Z) (keys : list (list Z)) : option p4_entry :=
  if Z.of_nat (length (pg_pipelines prog)) <=? pipe then None
  else
    let tb := the_table prog pipe table in
    lookup_loop (tb_match_type tb) (lookup_key tb keys) None (te_e (elt (elt (pe_t ent) pipe) table)).
End with_program.
