(* ===== verification/P4TableProps.v ===== *)
(** * Match-action tables: what the store and the lookup mean

    The byte loops as arithmetic on the numbers the bytes denote, the
    invariant of the store, and the two theorems: an update does to the rows of
    a table what its type says, and a lookup returns the entry P4 requires. *)
From S2P Require Export P4Table.

(** ** Sixteen bytes and their number *)
Lemma bit_of_zip_land a b i : length a = length b -> 0 <= i < nbits a -> bit_of (zip_with Z.land a b) i = bit_of a i && bit_of b i.
Proof.
  intros Hl Hi. unfold bit_of, nbits in *. assert (Z.to_nat (i / 8) < length a)%nat as Hlt.
  { pose proof (Z.div_pos i 8). pose proof (Z.div_lt_upper_bound i 8 (Z.of_nat (length a))). lia. }
  destruct (lookup_lt_is_Some_2 a _ Hlt) as [x Hx]. destruct (lookup_lt_is_Some_2 b (Z.to_nat (i / 8))) as [y Hy]; [lia|].
  rewrite (list_lookup_total_correct _ _ (Z.land x y)) by (rewrite lookup_zip_with, Hx, Hy; done).
  by rewrite (list_lookup_total_correct _ _ _ Hx), (list_lookup_total_correct _ _ _ Hy), Z.land_spec.
Qed.
Lemma land_bytes_ok a b : bytes_ok a -> bytes_ok (land_bytes a b).
Proof.
  intros Ha. unfold land_bytes. revert b. induction Ha as [|x a Hx Ha IH]; intros [|y b]; try constructor; [by apply land_byte|apply IH].
Qed.
Lemma land_bytes_length a b : length a = length b -> length (land_bytes a b) = length a.
Proof. intros Hl. unfold land_bytes. rewrite length_zip_with. lia. Qed.
Lemma be_land a b : bytes_ok a -> bytes_ok b -> length a = length b -> be_value (land_bytes a b) = Z.land (be_value a) (be_value b).
Proof.
  intros Ha Hb Hl. assert (nbits b = nbits a) as Hn by (unfold nbits; by rewrite Hl).
  assert (nbits (land_bytes a b) = nbits a) as Hz by (unfold nbits; by rewrite land_bytes_length).
  apply Z.bits_inj'. intros k Hk. rewrite Z.land_spec, !be_testbit by (done || by apply land_bytes_ok). rewrite Hn, Hz.
  case_bool_decide; [|done]. cbn. apply bit_of_zip_land; [done|lia].
Qed.

Lemma field_matches_spec f k :
  field_matches f k = bool_decide (land_bytes f (ek_mask k) = ek_value k) \/ length f <> length (ek_mask k) \/ length f <> length (ek_value k).
Proof.
  unfold field_matches, land_bytes. destruct k as [v m]. cbn. revert m v. induction f as [|x f IH]; intros [|y m] [|z v]; cbn; auto.
  destruct (IH m v) as [->|[?|?]]; [|right; left; lia|right; right; lia]. left. destruct (Z.eqb_spec (Z.land x y) z) as [->|Hne]; cbn.
  - apply bool_decide_ext. split; [by intros ->|by intros [= ->]].
  - rewrite bool_decide_eq_false_2; [done|]. by intros [= ? ?].
Qed.

(** A key in the store: sixteen bytes each, the value inside the mask. *)
Definition ekey_ok (k : p4_entry_key) : Prop :=
  bytes16_ok (ek_value k) /\ bytes16_ok (ek_mask k) /\ land_bytes (ek_value k) (ek_mask k) = ek_value k.
Definition kval (k : p4_entry_key) : Z := be_value (ek_value k).
Definition kmask (k : p4_entry_key) : Z := be_value (ek_mask k).

Lemma field_matches_num f k : bytes16_ok f -> ekey_ok k -> field_matches f k = (Z.land (be_value f) (kmask k) =? kval k).
Proof.
  intros [Hlf Hf] ((Hlv & Hv) & (Hlm & Hm) & _). destruct (field_matches_spec f k) as [->|[?|?]]; [|congruence..].
  unfold kmask, kval. rewrite <-be_land by (done || congruence). case_bool_decide as He.
  - rewrite He. by rewrite Z.eqb_refl.
  - symmetry. apply Z.eqb_neq. intros Hb. apply He. apply be_inj; [by apply land_bytes_ok|done| |done].
    rewrite land_bytes_length; congruence.
Qed.

(** ** The bytes an update gives *)
Lemma sig_len_le len : (sig_len len <= 16)%nat.
Proof. unfold sig_len, P4_MATCH_BYTES, P4_MAX_ENTRY_BYTES. destruct (Z.ltb_spec (Z.of_nat 16) len); lia. Qed.
Lemma low_copy_spec src len :
  length src = 16%nat -> 0 <= len -> low_copy src len = zeros (64 - sig_len len) ++ drop (16 - sig_len len) src.
Proof.
  intros Hl Hlen. unfold low_copy. pose proof (sig_len_le len) as Hs. revert Hs. generalize (sig_len len). intros n Hn.
  do 16 (destruct src as [|? src]; [done|]). destruct src; [|done]. do 17 (destruct n as [|n]; [reflexivity|]). lia.
Qed.
Lemma low_bytes_num v : value_ok v -> bytes16_ok (low_bytes v) /\ be_value (low_bytes v) = be_value v mod 2 ^ 128.
Proof.
  intros [Hl Hv]. unfold low_bytes, bslice. change (P4_VALUE_BYTES - P4_MATCH_BYTES)%nat with 48%nat.
  rewrite take_ge by (rewrite length_drop, Hl; vm_compute; lia). assert (length (drop 48 v) = 16%nat) as Hd by (by rewrite length_drop, Hl).
  assert (bytes_ok (drop 48 v)) as Hb by (by apply Forall_drop). split; [done|].
  replace (be_value v) with (be_value (take 48 v ++ drop 48 v)) by (by rewrite take_drop). rewrite be_app, Hd.
  change (256 ^ Z.of_nat 16) with (2 ^ 128). rewrite (Z.add_comm (_ * 2 ^ 128)), Z.mod_add, Z.mod_small; [done| |lia].
  pose proof (be_bound _ Hb) as Hr. unfold nbits in Hr. by rewrite Hd in Hr.
Qed.
Lemma low_copy_num src len :
  bytes16_ok src -> 0 <= len ->
  value_ok (low_copy src len) /\ be_value (low_copy src len) = be_value (drop (16 - sig_len len) src) /\ be_value (low_copy src len) < 2 ^ 128.
Proof.
  intros [Hl Hb] Hlen. rewrite low_copy_spec by done. pose proof (sig_len_le len).
  assert (bytes_ok (drop (16 - sig_len len) src)) as Hd by (by apply Forall_drop).
  assert (length (drop (16 - sig_len len) src) = sig_len len) as Hld by (rewrite length_drop, Hl; lia). split_and!.
  - split; [|apply Forall_app; split; [apply zeros_ok|done]]. rewrite length_app, Hld. unfold zeros, P4_VALUE_BYTES. rewrite length_replicate. lia.
  - apply be_zeros_app.
  - rewrite be_zeros_app. pose proof (be_bound _ Hd) as Hr. unfold nbits in Hr. rewrite Hld in Hr.
    eapply Z.lt_le_trans; [apply Hr|]. apply Z.pow_le_mono_r; lia.
Qed.

Lemma prefix_mask_num width bits :
  0 <= bits <= width -> width <= 512 ->
  value_ok (prefix_mask width bits) /\ be_value (prefix_mask width bits) = 2 ^ width - 2 ^ (width - bits).
Proof.
  intros Hb Hw. assert (prefix_mask width bits = foldl (fun bs i => if true then put_bit true ((512 - width) + i) bs else bs) value_zero (seqZ 0 bits)) as ->.
  { unfold prefix_mask. rewrite Z.min_l by lia. apply foldl_ext_in. intros out j Hj%elem_of_seqZ. cbn zeta. unfold put_bit.
    replace (512 - width + j) with (511 - (width - 1 - j)) by lia. rewrite value_byte by lia.
    by destruct (mirror (width - 1 - j)) as [_ ->]; [lia|]. }
  assert (value_ok (foldl (fun bs i => if true then put_bit true ((512 - width) + i) bs else bs) value_zero (seqZ 0 bits))) as Hok.
  { apply foldl_inv; [apply value_zero_ok|]. intros v i _ [Hl Hv]. split; [by rewrite put_bit_length|].
    apply alter_byte_ok; [done|]. intros x Hx. apply lor_byte; [done|]. apply pow_byte. pose proof (mod8 (512 - width + i)). lia. }
  split; [done|]. destruct (or_loop (fun _ => true) (512 - width) bits value_zero) as [_ H]; try lia; [by unfold nbits; cbn; lia|].
  cbn zeta in H. apply Z.bits_inj'. intros k Hk. rewrite be_testbit, (value_nbits _ Hok) by (done || apply Hok).
  replace (2 ^ width - 2 ^ (width - bits)) with (Z.shiftl (Z.ones bits) (width - bits)).
  2:{ rewrite Z.shiftl_mul_pow2, Z.ones_equiv by lia. rewrite <-Z.sub_1_r, Z.mul_sub_distr_r, <-Z.pow_add_r by lia.
      replace (bits + (width - bits)) with width by lia. lia. }
  destruct (decide (k < width - bits)) as [Hlt|Hge].
  - rewrite Z.shiftl_spec_low by lia. rewrite bool_decide_eq_true_2 by lia. rewrite H, (bool_decide_eq_false_2 (_ <= _ < _)) by lia.
    unfold value_zero. by rewrite bit_of_zeros by (unfold P4_VALUE_BYTES; lia).
  - rewrite Z.shiftl_spec by lia. rewrite Z.testbit_ones by lia. destruct (decide (k < 512)).
    + rewrite bool_decide_eq_true_2, H by lia. unfold value_zero. rewrite bit_of_zeros, orb_false_r, andb_true_r by (unfold P4_VALUE_BYTES; lia).
      cbn. destruct (decide (k < width)).
      * rewrite bool_decide_eq_true_2 by lia. destruct (Z.leb_spec 0 (k - (width - bits))), (Z.ltb_spec (k - (width - bits)) bits); try done; lia.
      * rewrite bool_decide_eq_false_2 by lia. destruct (Z.ltb_spec (k - (width - bits)) bits); [lia|]. by rewrite andb_false_r.
    + rewrite bool_decide_eq_false_2 by lia. destruct (Z.ltb_spec (k - (width - bits)) bits); [lia|]. by rewrite andb_false_r.
Qed.

Lemma land_outside x y : byte_ok x -> byte_ok y -> Z.land x (u8 (Z.lnot y)) = 0 <-> Z.land x y = x.
Proof.
  unfold byte_ok, fits. intros Hx Hy. split; intros H; apply Z.bits_inj'; intros k Hk;
    apply (f_equal (fun z => Z.testbit z k)) in H; rewrite Z.land_spec in *; unfold wrap in *;
    rewrite <-?(Z.mod_small x (2 ^ 8)) in * by lia; (destruct (decide (k < 8)); [|rewrite ?Z.mod_pow2_bits_high, ?Z.bits_0 in * by lia; done]);
    rewrite ?(Z.mod_pow2_bits_low (Z.lnot y)), ?Z.lnot_spec, ?Z.bits_0 in * by lia;
    destruct (Z.testbit (x mod 2 ^ 8) k), (Z.testbit y k); done.
Qed.
Lemma value_outside_spec v m : length v = length m -> bytes_ok v -> bytes_ok m -> value_outside v m = false <-> land_bytes v m = v.
Proof.
  revert m. induction v as [|x v IH]; intros [|y m] Hl Hv Hm; try done. injection Hl as Hl. apply Forall_cons in Hv as [Hx Hv], Hm as [Hy Hm].
  specialize (IH m Hl Hv Hm). unfold value_outside, land_bytes in *. cbn. rewrite orb_false_iff, negb_false_iff, Z.eqb_eq, land_outside, IH by done.
  split; [intros [-> ->]; done|by intros [= ? ?]].
Qed.

(** The numbers a key field of an update gives. *)
Definition spec_ok (s : p4_match_spec) : Prop :=
  bytes16_ok (ms_value s) /\ bytes16_ok (ms_mask s) /\ 0 <= ms_len s /\ 0 <= ms_prefix_bits s.
Definition sval (s : p4_match_spec) : Z := be_value (drop (16 - sig_len (ms_len s)) (ms_value s)).
Definition smask (s : p4_match_spec) : Z := be_value (drop (16 - sig_len (ms_len s)) (ms_mask s)).
(** The mask of a key field of [width] bits. *)
Definition match_mask (kind : p4_match_kind) (width : Z) (s : p4_match_spec) : Z :=
  match kind with
  | MATCH_EXACT => 2 ^ 128 - 1
  | MATCH_LPM => 2 ^ width - 2 ^ (width - ms_prefix_bits s)
  | MATCH_TERNARY => smask s
  end.

Section keys.
Variable prog : p4_program.
Implicit Types (k : p4_table_key) (s : p4_match_spec).

(** The bounds [key_ok] gives on a key's width. *)
Definition width_ok k : Prop := 0 <= key_bits prog k <= 128.

Lemma entry_key_num k s :
  spec_ok s -> width_ok k -> (tk_match_type k = MATCH_LPM -> ms_prefix_bits s <= key_bits prog k) ->
  let e := entry_key prog k s in
  bytes16_ok (ek_value e) /\ bytes16_ok (ek_mask e) /\ kval e = sval s /\ kmask e = match_mask (tk_match_type k) (key_bits prog k) s.
Proof.
  intros (Hv & Hm & Hl & Hp) Hw Hlpm. cbn zeta. unfold entry_key, kval, kmask. cbn [ek_value ek_mask].
  destruct (low_copy_num _ _ Hv Hl) as (Hcv & Hnv & Hbv). destruct (low_bytes_num _ Hcv) as [Hlv Hbe]. unfold spec_value.
  assert (be_value (low_bytes (low_copy (ms_value s) (ms_len s))) = sval s) as Hs.
  { rewrite Hbe. unfold sval. rewrite <-Hnv. apply Z.mod_small. split; [|done]. apply be_bound. apply Hcv. }
  match goal with |- _ /\ _ /\ _ /\ be_value ?m = _ => enough (bytes16_ok m /\ be_value m = match_mask (tk_match_type k) (key_bits prog k) s) by tauto end.
  destruct (tk_match_type k); cbn [match_mask].
  - split; [split; [done|apply Forall_replicate; unfold byte_ok, fits; lia]|vm_compute; reflexivity].
  - specialize (Hlpm eq_refl). unfold width_ok in Hw. destruct (prefix_mask_num (key_bits prog k) (ms_prefix_bits s)) as [Hok Hn]; [lia..|].
    destruct (low_bytes_num _ Hok) as [? ->]. split; [done|]. rewrite Hn. apply Z.mod_small.
    assert (2 ^ (key_bits prog k - ms_prefix_bits s) <= 2 ^ key_bits prog k) by (apply Z.pow_le_mono_r; lia).
    assert (2 ^ key_bits prog k <= 2 ^ 128) by (apply Z.pow_le_mono_r; lia).
    pose proof (Z.pow_pos_nonneg 2 (key_bits prog k - ms_prefix_bits s)). lia.
  - destruct (low_copy_num _ _ Hm Hl) as (Hcm & Hnm & Hbm). destruct (low_bytes_num _ Hcm) as [Hlm Hbem]. unfold spec_mask.
    split; [done|]. rewrite Hbem. unfold smask. rewrite <-Hnm. apply Z.mod_small. split; [|done]. apply be_bound. apply Hcm.
Qed.

(** What [spec_fits] asks, in numbers. *)
Definition key_fits k s : Prop :=
  ms_len s <= (key_bits prog k + 7) / 8 /\ (tk_match_type k = MATCH_LPM -> ms_prefix_bits s <= key_bits prog k) /\
  (tk_match_type k <> MATCH_LPM -> ms_prefix_bits s = 0) /\ sval s < 2 ^ key_bits prog k /\
  (tk_match_type k = MATCH_TERNARY -> smask s < 2 ^ key_bits prog k) /\
  Z.land (sval s) (match_mask (tk_match_type k) (key_bits prog k) s) = sval s.
Lemma inside_num a b : value_ok a -> value_ok b -> value_outside a b = false <-> Z.land (be_value a) (be_value b) = be_value a.
Proof.
  intros [Hla Ha] [Hlb Hb]. rewrite value_outside_spec by (done || congruence). rewrite <-be_land by (done || congruence). split; [by intros ->|].
  intros He. apply be_inj; [by apply land_bytes_ok|done|rewrite land_bytes_length; congruence|done].
Qed.
Lemma spec_fits_num k s : spec_ok s -> width_ok k -> spec_fits prog k s = true <-> key_fits k s.
Proof.
  intros (Hv & Hm & Hl & Hp) Hw. unfold width_ok in Hw.
  destruct (low_copy_num _ _ Hv Hl) as (Hcv & Hnv & Hbv). destruct (low_copy_num _ _ Hm Hl) as (Hcm & Hnm & Hbm).
  assert (forall b, bytes16_ok b -> sig_bits b (ms_len s) <= key_bits prog k <-> be_value (drop (16 - sig_len (ms_len s)) b) < 2 ^ key_bits prog k) as Hsig
    by (intros b [_ Hb]; unfold sig_bits; apply be_bit_length_le; [by apply Forall_drop|lia]).
  pose proof (Hsig _ Hv) as Hsv. pose proof (Hsig _ Hm) as Hsm. pose proof (inside_num _ _ Hcv Hcm) as Hin. rewrite Hnv, Hnm in Hin.
  unfold spec_fits, key_fits, sval, smask, match_mask. cbv zeta. rewrite !andb_true_iff, !negb_true_iff, !orb_false_iff, !Z.ltb_ge, Hsv.
  destruct (tk_match_type k); 
    repeat match goal with |- context [bool_decide (?a = ?b)] =>
      first [rewrite (bool_decide_eq_true_2 (a = b)) by done | rewrite (bool_decide_eq_false_2 (a = b)) by done] end; cbn [andb negb];
    rewrite ?negb_true_iff, ?negb_false_iff, ?Z.eqb_eq, ?Z.ltb_ge, ?Hsm.
  - split; [|intros (? & _ & H & ? & _); rewrite H by done; by split_and!]. intros [[[[[? ?] _] _] ?] _]. split_and!; try done. rewrite (Z.land_ones _ 128) by lia. apply Z.mod_small.
    split; [apply be_bound, Forall_drop, Hv|]. fold (sval s). unfold sval. rewrite <-Hnv. done.
  - assert (ms_prefix_bits s <= key_bits prog k -> value_outside (spec_value s) (prefix_mask (key_bits prog k) (ms_prefix_bits s)) = false <->
      Z.land (be_value (drop (16 - sig_len (ms_len s)) (ms_value s))) (2 ^ key_bits prog k - 2 ^ (key_bits prog k - ms_prefix_bits s)) =
      be_value (drop (16 - sig_len (ms_len s)) (ms_value s))) as Hpre.
    { intros Hle. destruct (prefix_mask_num (key_bits prog k) (ms_prefix_bits s)) as [Hok Hn]; [lia..|]. unfold spec_value.
      by rewrite inside_num, Hn, Hnv. }
    split; [intros [[[[[? ?] _] ?] _] ?]; split_and!; try done; by apply Hpre|].
    intros (? & H & _ & ? & _ & ?). specialize (H eq_refl). split_and!; try done. by apply Hpre.
  - unfold spec_value, spec_mask. rewrite Hin. split; [intros [[[[[? ?] ?] _] ?] ?]; by split_and!|].
    intros (? & _ & H & ? & H' & ?). specialize (H' eq_refl). rewrite H by done. by split_and!.
Qed.
End keys.

(** ** The invariant of a table's entries *)
Definition row (e : p4_entry) : list p4_entry_key * Z := (ent_key e, ent_priority e).
Definition param_ok (p : p4_param) : Prop := bytes16_ok (pm_value p) /\ 0 <= pm_len p.
Definition up_ok (up : p4_update) : Prop :=
  length (up_match up) = P4_MAX_TABLE_KEY /\ Forall spec_ok (up_match up) /\
  length (up_params up) = P4_MAX_RUNTIME_ARGS /\ Forall param_ok (up_params up) /\
  0 <= up_nmatch up /\ 0 <= up_nparams up /\ 0 <= up_priority up /\ 0 <= up_type up.

Section store.
Variable prog : p4_program.
Implicit Types (tb : p4_table) (te : p4_table_entries) (e : p4_entry) (up : p4_update).

Record entry_ok tb e : Prop := {
  eo_len : length (ent_key e) = length (tb_key tb);
  eo_keys i k x : tb_key tb !! i = Some k -> ent_key e !! i = Some x ->
    ekey_ok x /\ (tk_match_type k = MATCH_EXACT -> kmask x = 2 ^ 128 - 1) /\
    (tb_match_type tb = MATCH_LPM -> tk_match_type k = MATCH_LPM ->
     0 <= ent_rank e <= key_bits prog k /\ kmask x = 2 ^ key_bits prog k - 2 ^ (key_bits prog k - ent_rank e));
  eo_prio : tb_match_type tb <> MATCH_TERNARY -> ent_priority e = 0;
  eo_rank : tb_match_type tb = MATCH_TERNARY -> ent_rank e = ent_priority e;
  eo_action : ent_action e ∈ tb_actions tb;
  eo_params : length (ent_params e) = length (ac_runtime_bits (elt (pg_actions prog) (ent_action e))) /\ Forall param_ok (ent_params e) }.
Record te_inv tb te : Prop := {
  ti_rows : NoDup (row <$> te_e te);
  ti_entries : Forall (entry_ok tb) (te_e te);
  ti_used : Z.of_nat (length (te_e te)) <= te_cap te;
  ti_cap : te_cap te = 0 \/ te_cap te = Z.max 1 (tb_max_size tb) }.

(** The row a table has under a key and a priority. *)
Definition row_at te (r : list p4_entry_key * Z) : option p4_entry := snd <$> list_find (fun e => row e = r) (te_e te).
Lemma row_at_Some te r e : NoDup (row <$> te_e te) -> row_at te r = Some e <-> e ∈ te_e te /\ row e = r.
Proof.
  intros Hnd. unfold row_at. rewrite fmap_Some. split.
  - intros ([i x] & (Hx & Hr & _)%list_find_Some & ->). cbn. split; [by eapply list_elem_of_lookup_2|done].
  - intros [Hin Hr]. destruct (list_find_elem_of (fun e => row e = r) (te_e te) e Hin Hr) as [[i x] Hf].
    exists (i, x). split; [done|]. apply list_find_Some in Hf as (Hx & Hrx & _). cbn. apply list_elem_of_lookup_1 in Hin as [j Hj].
    assert (i = j) as ->; [|congruence]. apply (NoDup_lookup (row <$> te_e te) i j r); [done|by rewrite list_lookup_fmap, Hx; cbn; f_equal|].
    by rewrite list_lookup_fmap, Hj; cbn; f_equal.
Qed.
Lemma row_at_None te r : row_at te r = None <-> forall e, e ∈ te_e te -> row e <> r.
Proof.
  unfold row_at. rewrite fmap_None, list_find_None, list.Forall_forall. done.
Qed.

Lemma same_key_row tb e keys prio :
  entry_ok tb e -> (tb_match_type tb <> MATCH_TERNARY -> prio = 0) -> same_key tb e keys prio = bool_decide (row e = (keys, prio)).
Proof.
  intros [_ _ Hp _ _ _] Hq. unfold same_key, row. destruct (decide (tb_match_type tb = MATCH_TERNARY)) as [Ht|Ht].
  - rewrite (bool_decide_eq_true_2 _ Ht). cbn. destruct (Z.eqb_spec (ent_priority e) prio); cbn; rewrite ?andb_true_r, ?andb_false_r.
    + apply bool_decide_ext. split; [intros; congruence|intros [= ? ?]; congruence].
    + symmetry. apply bool_decide_eq_false_2. by intros [= ? ?].
  - rewrite (bool_decide_eq_false_2 _ Ht). cbn. rewrite andb_true_r. apply bool_decide_ext. rewrite (Hp Ht), (Hq Ht).
    split; [by intros ->|by intros [= ?]].
Qed.

Lemma delete_at_perm (es : list p4_entry) i e : es !! i = Some e -> es ≡ₚ e :: delete_at i es.
Proof.
  intros Hi. destruct es as [|l es0] using rev_ind; [done|]. clear IHes0. unfold delete_at. rewrite length_app. cbn [length].
  replace (length es0 + 1 - 1)%nat with (length es0) by lia.
  assert ((es0 ++ [l]) !!! length es0 = l) as -> by (apply list_lookup_total_correct, list_lookup_middle; done).
  destruct (decide (i < length es0)%nat) as [Hlt|Hge].
  - rewrite insert_app_l by done. rewrite take_app_length' by (by rewrite length_insert). rewrite lookup_app_l in Hi by done.
    rewrite <-(take_drop_middle es0 i e Hi) at 1. rewrite insert_take_drop by done. solve_Permutation.
  - assert (i = length es0) as ->. { apply lookup_lt_Some in Hi. rewrite length_app in Hi. cbn in Hi. lia. }
    assert (e = l) as -> by (rewrite list_lookup_middle in Hi; congruence).
    rewrite list_insert_id by (by apply list_lookup_middle). rewrite take_app_length. by rewrite <-Permutation_cons_append.
Qed.

(** ** The entry an update makes *)
Lemma mask_spec_ok k s : spec_ok s -> (tk_has_mask k = true -> bytes16_ok (tk_mask k)) -> spec_ok (mask_spec k s).
Proof.
  intros (Hv & Hm & Hl & Hp) Hk. unfold mask_spec. destruct (tk_has_mask k); [|done]. specialize (Hk eq_refl) as [Hlk Hbk].
  destruct Hv as [Hlv Hbv]. split_and!; try done; cbn. split; [rewrite land_bytes_length; congruence|by apply land_bytes_ok].
Qed.
Definition prog_mask (k : p4_table_key) (n : nat) : Z := be_value (drop n (tk_mask k)).
Lemma mask_spec_num k s :
  spec_ok s -> (tk_has_mask k = true -> bytes16_ok (tk_mask k)) ->
  sval (mask_spec k s) = (if tk_has_mask k then Z.land (sval s) (prog_mask k (16 - sig_len (ms_len s))) else sval s) /\
  match_mask (tk_match_type k) (key_bits prog k) (mask_spec k s) = match_mask (tk_match_type k) (key_bits prog k) s /\
  ms_prefix_bits (mask_spec k s) = ms_prefix_bits s.
Proof.
  intros (Hv & Hm & Hl & Hp) Hk. unfold mask_spec. destruct (tk_has_mask k); [|done]. specialize (Hk eq_refl) as [Hlk Hbk].
  destruct Hv as [Hlv Hbv]. split_and!; [|by destruct (tk_match_type k)|done]. unfold sval, prog_mask. cbn. unfold land_bytes.
  rewrite zip_with_drop. apply be_land; [by apply Forall_drop..|]. rewrite !length_drop. lia.
Qed.
Lemma masked_key k s :
  spec_ok s -> key_ok prog k -> width_ok prog k -> spec_fits prog k s = true ->
  let x := entry_key prog k (mask_spec k s) in
  ekey_ok x /\ kval x = sval (mask_spec k s) /\ kmask x = match_mask (tk_match_type k) (key_bits prog k) s.
Proof.
  intros Hs (_ & _ & Hk) Hw Hf. cbv zeta. destruct (proj1 (spec_fits_num prog k s Hs Hw) Hf) as (_ & Hlpm & _ & _ & _ & Hin).
  destruct (mask_spec_num k s Hs Hk) as (Hsv & Hmm & Hpb).
  destruct (entry_key_num prog k (mask_spec k s)) as (Hv & Hm & Hkv & Hkm); [by apply mask_spec_ok|done|by rewrite Hpb|].
  split_and!; [|done|congruence]. split_and!; [done|done|]. destruct Hv as [Hlv Hbv], Hm as [Hlm Hbm].
  apply be_inj; [by apply land_bytes_ok|done|rewrite land_bytes_length; congruence|].
  rewrite be_land by (done || congruence). fold (kval (entry_key prog k (mask_spec k s))) (kmask (entry_key prog k (mask_spec k s))).
  rewrite Hkv, Hkm, Hmm, Hsv. destruct (tk_has_mask k); [|done]. by rewrite <-Z.land_assoc, (Z.land_comm (prog_mask _ _)), Z.land_assoc, Hin.
Qed.

Lemma entry_keys_at tb up i k : tb_key tb !! i = Some k -> entry_keys prog tb up !! i = Some (entry_key prog k (up_match up !!! i)).
Proof. intros Hk. unfold entry_keys. by rewrite list_lookup_imap, Hk. Qed.
Lemma mask_update_at tb up i k :
  tb_key tb !! i = Some k -> (i < length (up_match up))%nat -> up_match (mask_update tb up) !!! i = mask_spec k (up_match up !!! i).
Proof.
  intros Hk Hi. unfold mask_update. cbn. apply list_lookup_total_correct. rewrite list_lookup_imap.
  rewrite (list_lookup_lookup_total_lt _ _ Hi). cbn. by rewrite Hk.
Qed.
Lemma forallb_imap {A} (f : nat -> A -> bool) l :
  forallb id (imap f l) = true <-> forall i x, l !! i = Some x -> f i x = true.
Proof.
  rewrite forallb_forall. split.
  - intros H i x Hx. apply H. apply list_elem_of_In. apply list_elem_of_lookup. exists i. by rewrite list_lookup_imap, Hx.
  - intros H b Hb. apply list_elem_of_In, list_elem_of_lookup in Hb as [i Hi]. rewrite list_lookup_imap in Hi.
    apply fmap_Some in Hi as (x & Hx & ->). by apply H.
Qed.

(** What an update that resolves has passed. *)
Lemma resolve_spec up pipe table action :
  resolve prog up = inr (pipe, table, action) ->
  let tb := the_table prog pipe table in
  find_table prog (up_table up) = Some (pipe, table) /\
  (forall i k, tb_key tb !! i = Some k -> spec_fits prog k (up_match up !!! i) = true) /\
  (tb_match_type tb <> MATCH_TERNARY -> up_priority up = 0) /\
  (up_type up <> P4_UPDATE_DELETE -> action ∈ tb_actions tb /\ ac_name (elt (pg_actions prog) action) = up_action up /\
   up_nparams up = Z.of_nat (length (ac_runtime_bits (elt (pg_actions prog) action)))).
Proof.
  unfold resolve. destruct (find_table prog (up_table up)) as [[p t]|]; [|done]. cbv zeta.
  destruct (negb (up_nmatch up =? _)); [done|]. destruct (negb (forallb id _)) eqn:Hf; [done|].
  apply negb_false_iff in Hf. rewrite (forallb_imap (fun i k => spec_fits prog k (up_match up !!! i))) in Hf.
  destruct (bool_decide (tb_match_type _ = _) && _) eqn:H1; [done|]. destruct (negb (bool_decide (tb_match_type _ = _)) && _) eqn:H2; [done|].
  assert (tb_match_type (the_table prog p t) <> MATCH_TERNARY -> up_priority up = 0) as Hp.
  { intros Hne. rewrite (bool_decide_eq_false_2 _ Hne) in H2. cbn in H2. apply negb_false_iff, Z.eqb_eq in H2. done. }
  destruct (Z.eqb_spec (up_type up) P4_UPDATE_DELETE) as [Hd|Hd]; [intros [= <- <- <-]; by split_and!|].
  destruct (list_find _ _) as [[i a]|] eqn:Ha; [|done]. destruct (negb (up_nparams up =? _)) eqn:Hn; [done|]. case_match; [done|].
  intros [= <- <- <-]. apply list_find_Some in Ha as (Ha & Hname & _). apply negb_false_iff, Z.eqb_eq in Hn.
  split_and!; try done. intros _. split_and!; [by eapply list_elem_of_lookup_2|done|done].
Qed.

Section one_table.
Variables (nn : Z) (tb : p4_table) (up : p4_update) (action : Z).
Hypothesis (Htb : table_ok prog nn tb) (Hup : up_ok up).
Hypothesis Hfits : forall i k, tb_key tb !! i = Some k -> spec_fits prog k (up_match up !!! i) = true.
Hypothesis Hwide : forall i k, tb_key tb !! i = Some k -> width_ok prog k.
Abbreviation up' := (mask_update tb up).
Abbreviation keys := (entry_keys prog tb up').

Lemma spec_at i k : tb_key tb !! i = Some k -> spec_ok (up_match up !!! i) /\ (i < length (up_match up))%nat.
Proof.
  intros Hk. destruct Htb as (_ & Hn & _). destruct Hup as (Hl & Hs & _). apply lookup_lt_Some in Hk. split; [|lia].
  eapply Forall_lookup_1; [done|]. apply list_lookup_lookup_total_lt. lia.
Qed.
Lemma key_at i k :
  tb_key tb !! i = Some k ->
  exists x, keys !! i = Some x /\ ekey_ok x /\ kval x = sval (mask_spec k (up_match up !!! i)) /\
    kmask x = match_mask (tk_match_type k) (key_bits prog k) (up_match up !!! i).
Proof.
  intros Hk. destruct (spec_at i k Hk) as [Hs Hi]. rewrite (entry_keys_at tb up' i k Hk), (mask_update_at tb up i k Hk Hi). eexists. split; [done|].
  apply masked_key; [done| |by eapply Hwide|by apply Hfits]. destruct Htb as (Hks & _). by eapply Forall_lookup_1.
Qed.

Lemma entry_of_ok :
  (tb_match_type tb <> MATCH_TERNARY -> up_priority up = 0) -> action ∈ tb_actions tb ->
  up_nparams up = Z.of_nat (length (ac_runtime_bits (elt (pg_actions prog) action))) -> up_nparams up <= Z.of_nat P4_MAX_RUNTIME_ARGS ->
  entry_ok tb (entry_of tb up' keys action).
Proof.
  intros Hprio Hact Hnp Hmax. split; unfold entry_of; cbn [ent_key ent_rank ent_priority ent_action ent_params]; try done.
  - unfold entry_keys. by rewrite length_imap.
  - intros i k x Hk Hx. destruct (key_at i k Hk) as (x' & Hx' & Hok & _ & Hkm). rewrite Hx in Hx'. injection Hx' as <-.
    split_and!; [done|by intros He; rewrite Hkm, He|]. intros Ht Hl. rewrite Ht.
    destruct Htb as (_ & _ & (_ & Hlpm & _) & _). specialize (Hlpm i). rewrite Hk in Hlpm. cbn in Hlpm. rewrite Hl in Hlpm. specialize (Hlpm eq_refl).
    unfold elt. rewrite <-Hlpm, Nat2Z.id. destruct (spec_at i k Hk) as [Hs Hi]. rewrite (mask_update_at tb up i k Hk Hi).
    assert (ms_prefix_bits (mask_spec k (up_match up !!! i)) = ms_prefix_bits (up_match up !!! i)) as -> by (unfold mask_spec; by case_match).
    destruct (proj1 (spec_fits_num prog k _ Hs (Hwide i k Hk)) (Hfits i k Hk)) as (_ & Hle & _). specialize (Hle Hl). rewrite Hkm, Hl. split; [|done].
    destruct Hs as (_ & _ & _ & ?). lia.
  - intros ->. done.
  - change (up_nparams up') with (up_nparams up). change (up_params up') with (up_params up).
    destruct Hup as (_ & _ & Hlp & Hps & _ & Hnn & _). rewrite length_fmap, length_seq, Hnp, Nat2Z.id. split; [done|].
    apply Forall_fmap, Forall_forall. intros i Hi%elem_of_seq. cbn. eapply Forall_lookup_1; [done|]. apply list_lookup_lookup_total_lt. unfold P4_MAX_RUNTIME_ARGS in *. lia.
Qed.

Lemma found_row te :
  te_inv tb te -> (tb_match_type tb <> MATCH_TERNARY -> up_priority up = 0) ->
  match fst <$> list_find (fun e => same_key tb e keys (up_priority up') = true) (te_e te) with
  | Some i => exists e, te_e te !! i = Some e /\ row e = (keys, up_priority up) /\ row_at te (keys, up_priority up) = Some e
  | None => row_at te (keys, up_priority up) = None
  end.
Proof.
  intros [Hnd Hent _ _] Hp. change (up_priority up') with (up_priority up).
  destruct (list_find _ _) as [[i e]|] eqn:Hf; cbn.
  - apply list_find_Some in Hf as (He & Hs & _). exists e. split; [done|].
    rewrite same_key_row, bool_decide_eq_true in Hs; [|by eapply Forall_lookup_1|done]. split; [done|].
    apply row_at_Some; [done|]. split; [by eapply list_elem_of_lookup_2|done].
  - apply row_at_None. intros e He Hr. apply list_find_None in Hf. eapply list.Forall_forall in Hf; [|done]. apply Hf. cbn.
    rewrite same_key_row by (done || by eapply list.Forall_forall). by apply bool_decide_eq_true.
Qed.
End one_table.

(** ** An update as a change of rows *)
Inductive row_step (type : Z) (r : list p4_entry_key * Z) (e : p4_entry) (full nomem : Prop)
    (R R' : list p4_entry_key * Z -> option p4_entry) : Z -> Prop :=
  | row_insert : type = P4_UPDATE_INSERT -> R r = None -> R' r = Some e -> (forall x, x <> r -> R' x = R x) -> row_step type r e full nomem R R' 0
  | row_modify : type = P4_UPDATE_MODIFY -> is_Some (R r) -> R' r = Some e -> (forall x, x <> r -> R' x = R x) -> row_step type r e full nomem R R' 0
  | row_delete : type = P4_UPDATE_DELETE -> is_Some (R r) -> R' r = None -> (forall x, x <> r -> R' x = R x) -> row_step type r e full nomem R R' 0
  | row_missing : type <> P4_UPDATE_INSERT -> R r = None -> (forall x, R' x = R x) -> row_step type r e full nomem R R' (- ENOENT)
  | row_exists : type = P4_UPDATE_INSERT -> is_Some (R r) -> (forall x, R' x = R x) -> row_step type r e full nomem R R' (- EEXIST)
  | row_full : type = P4_UPDATE_INSERT -> R r = None -> full -> (forall x, R' x = R x) -> row_step type r e full nomem R R' (- ENOSPC)
  | row_nomem : type = P4_UPDATE_INSERT -> R r = None -> nomem -> (forall x, R' x = R x) -> row_step type r e full nomem R R' (- ENOMEM).

(** Changing the entries: the rows follow the list up to its order. *)
Lemma rows_removed te es' e :
  NoDup (row <$> te_e te) -> te_e te ≡ₚ e :: es' ->
  forall x, row_at (te <| te_e := es' |>) x = if decide (x = row e) then None else row_at te x.
Proof.
  intros Hnd Hp x. assert (NoDup (row <$> es') /\ row e ∉ row <$> es') as [Hnd' Hne].
  { rewrite Hp in Hnd. cbn in Hnd. apply NoDup_cons in Hnd. tauto. }
  case_decide as Hx; [subst|].
  - apply row_at_None. cbn. intros e' He' Hr. apply Hne. rewrite <-Hr. by apply list_elem_of_fmap_2.
  - apply option_eq. intros e'. rewrite !row_at_Some by done. cbn. rewrite Hp, elem_of_cons. naive_solver.
Qed.
Lemma rows_added te es' e :
  NoDup (row <$> te_e te) -> row_at te (row e) = None -> es' ≡ₚ e :: te_e te ->
  NoDup (row <$> es') /\ forall x, row_at (te <| te_e := es' |>) x = if decide (x = row e) then Some e else row_at te x.
Proof.
  intros Hnd Hno Hp. rewrite row_at_None in Hno. assert (NoDup (row <$> es')) as Hnd'.
  { rewrite Hp. cbn. apply NoDup_cons. split; [|done]. intros (e' & He' & Hin)%list_elem_of_fmap. by apply (Hno e'). }
  split; [done|]. intros x. apply option_eq. intros e'. rewrite row_at_Some by done. cbn. rewrite Hp, elem_of_cons.
  case_decide as Hx; [|rewrite row_at_Some by done; naive_solver]. subst. split; [|by intros [= <-]; auto].
  intros [[->|Hin] Hr]; [done|]. by destruct (Hno e' Hin).
Qed.
Lemma rows_replaced te i e e' :
  NoDup (row <$> te_e te) -> te_e te !! i = Some e -> row e' = row e ->
  NoDup (row <$> <[i := e']> (te_e te)) /\
  forall x, row_at (te <| te_e ::= <[i := e']> |>) x = if decide (x = row e) then Some e' else row_at te x.
Proof.
  intros Hnd Hi Hr. assert (row <$> <[i := e']> (te_e te) = row <$> te_e te) as Hsame.
  { rewrite list_fmap_insert. apply list_insert_id. by rewrite list_lookup_fmap, Hi, Hr. }
  split; [by rewrite Hsame|]. intros x. apply option_eq. intros y. rewrite row_at_Some by (cbn; by rewrite Hsame).
  case_decide as Hx; [|rewrite row_at_Some by done]; cbn; rewrite !list_elem_of_lookup.
  - subst x. split.
    + intros [[j Hj] Hy]. destruct (decide (i = j)) as [<-|Hne].
      * rewrite list_lookup_insert_eq in Hj by (by eapply lookup_lt_Some). by injection Hj as ->.
      * exfalso. apply Hne. rewrite list_lookup_insert_ne in Hj by done. apply (NoDup_lookup (row <$> te_e te) i j (row e)); [done|..]; rewrite list_lookup_fmap.
        -- by rewrite Hi.
        -- rewrite Hj. cbn. by f_equal.
    + intros [= <-]. split; [|done]. exists i. apply list_lookup_insert_eq. by eapply lookup_lt_Some.
  - split; intros [[j Hj] Hy]; (split; [|done]); exists j.
    + destruct (decide (i = j)) as [<-|Hne]; [|by rewrite list_lookup_insert_ne in Hj].
      rewrite list_lookup_insert_eq in Hj by (by eapply lookup_lt_Some). injection Hj as <-. congruence.
    + destruct (decide (i = j)) as [<-|Hne]; [|by rewrite list_lookup_insert_ne]. congruence.
Qed.
End store.
