(* ===== verification/P4Exec.v ===== *)
(** * The pipeline executor (p4_exec.c)

    Parse, run ingress and egress, deparse.  The packet header vector holds the
    bytes of it that phv_init() clears, [pg_phv_bytes] of them.  An extern's
    context is a state [X] that its calls thread. *)
From S2P Require Export P4Table P4Prog.

Definition P4_PORT_RDMA : Z := 2.
Definition P4_DROP_PORT : Z := 511.
Record p4_phv := P4Phv { ph_data : list Z; ph_valid : list bool; ph_egress_assigned : bool }.
#[export] Instance p4_phv_eta : Eta p4_phv := fun r => P4Phv (ph_data r) (ph_valid r) (ph_egress_assigned r).
Record p4_rdma_meta := P4RdmaMeta { rm_opcode : Z; rm_qp_num : Z; rm_length : Z; rm_imm_data : Z; rm_rkey : Z }.
Record p4_exec_result := P4ExecResult { er_dropped : bool; er_egress_assigned : bool; er_egress_spec : Z; er_len : Z }.
#[export] Instance p4_exec_result_eta : Eta p4_exec_result := fun r =>
  P4ExecResult (er_dropped r) (er_egress_assigned r) (er_egress_spec r) (er_len r).
#[export] Instance p4_exec_result_zero : Inhabited p4_exec_result := populate (P4ExecResult false false 0 0).

Section exec.
Variable prog : p4_program.
Implicit Types (phv : p4_phv) (args : list p4_param).

Definition is_valid phv (h : Z) : bool := ph_valid phv !!! Z.to_nat h.
Definition phv_init : Z + p4_phv :=
  if P4_PHV_BYTES <? pg_phv_bytes prog then inl (- ENOSPC)
  else inr (P4Phv (zeros (Z.to_nat (pg_phv_bytes prog))) (replicate P4_MAX_HEADERS false) false).
Definition phv_get phv (ref : p4_field_ref) : list Z := bits_get (ph_data phv) (phv_bit prog ref) (fd_bits (field_of prog ref)).
Definition phv_set phv (ref : p4_field_ref) (v : list Z) : p4_phv :=
  let phv := if (fr_header ref =? fr_header (pg_egress_spec prog)) && (fr_field ref =? fr_field (pg_egress_spec prog))
             then phv <| ph_egress_assigned := true |> else phv in
  phv <| ph_data ::= fun d => bits_set d (phv_bit prog ref) (fd_bits (field_of prog ref)) v |>.
(** The last [len] of the [cap] bytes. *)
Definition imm_value (imm : list Z) (cap : nat) (len : Z) : list Z :=
  let n := if Z.of_nat cap <? len then cap else Z.to_nat len in
  let n := if (P4_VALUE_BYTES <? n)%nat then P4_VALUE_BYTES else n in
  foldl (fun out i => <[(P4_VALUE_BYTES - 1 - i)%nat := imm !!! (cap - 1 - i)%nat]> out) value_zero (seq 0 n).

(** ** The parser *)
(** The extracts of one state. *)
Fixpoint extract_ops (frame : list Z) (ops : list Z) phv (pos : Z) : Z + (p4_phv * Z) :=
  match ops with
  | [] => inr (phv, pos)
  | h :: ops =>
      let n := hdr_bytes prog h in
      if Z.of_nat (length frame) - pos <? n then inl (- EMSGSIZE)
      else
        let phv := phv <| ph_data ::= fun d => bput d (Z.to_nat (hd_phv_offset (elt (pg_headers prog) h))) (bslice frame (Z.to_nat pos) (Z.to_nat n)) |>
                       <| ph_valid ::= <[Z.to_nat h := true]> |> in
        extract_ops frame ops phv (pos + n)
  end.
(** The select key, each field right-aligned in bytes of its own. *)
Definition select_key phv (refs : list p4_field_ref) : list Z * Z :=
  foldl (fun '(key, key_bytes) ref =>
    let bits := fd_bits (field_of prog ref) in
    let key_bytes := key_bytes + (bits + 7) / 8 in
    (bits_set key (key_bytes * 8 - bits) bits (phv_get phv ref), key_bytes)) (zeros P4_MAX_KEY_BYTES, 0) refs.
Definition arm_eq (key : list Z) (key_bytes : Z) (t : p4_transition) : bool :=
  forallb (fun b =>
    let ko := (P4_MAX_KEY_BYTES - Z.to_nat key_bytes + b)%nat in
    let kb := key !!! b in
    let vb := tr_value t !!! ko in
    if tr_has_mask t then Z.land kb (tr_mask t !!! ko) =? Z.land vb (tr_mask t !!! ko) else kb =? vb) (seq 0 (Z.to_nat key_bytes)).
(** The state the first arm that takes the key leads to. *)
Fixpoint pick_arm (key : list Z) (key_bytes : Z) (ts : list p4_transition) : option Z :=
  match ts with
  | [] => None
  | t :: ts => if tr_is_default t || arm_eq key key_bytes t then Some (tr_next_state t) else pick_arm key key_bytes ts
  end.
Fixpoint parse_loop (fuel : nat) (frame : list Z) (state : Z) phv (pos : Z) : Z + (p4_phv * Z) :=
  if state =? P4_IDX_NONE then inr (phv, pos)
  else
    match fuel with
    | O => inl (- ELOOP)
    | S fuel =>
        let st := elt (pg_parse_states prog) state in
        match extract_ops frame (ps_ops st) phv pos with
        | inl rc => inl rc
        | inr (phv, pos) =>
            match ps_key st with
            | [] =>
                parse_loop fuel frame (match ps_transitions st with [] => P4_IDX_NONE | t :: _ => tr_next_state t end) phv pos
            | refs =>
                match pick_arm (fst (select_key phv refs)) (ps_key_bytes st) (ps_transitions st) with
                | None => inl (- EBADMSG)
                | Some next => parse_loop fuel frame next phv pos
                end
            end
        end
    end.
Definition run_parser phv (frame : list Z) : Z + (p4_phv * Z) :=
  parse_loop (length (pg_parse_states prog) * 4 + 16) frame (pg_init_state prog) phv 0.

(** ** Actions *)
Definition operand_value phv (op : p4_operand) args : list Z :=
  match op with
  | OPD_FIELD field => phv_get phv field
  | OPD_HEXSTR imm_len imm => imm_value imm P4_MAX_IMM_BYTES imm_len
  | OPD_RUNTIME runtime =>
      if runtime <? Z.of_nat (length args) then imm_value (pm_value (elt args runtime)) P4_MAX_IMM_BYTES (pm_len (elt args runtime)) else value_zero
  | OPD_EXTERN _ => value_zero
  end.

Section with_ops.
Context {X : Type}.
(** [call type method args]: 0 or a negative errno. *)
Variable ops : option (Z -> Z -> list (list Z) -> X -> Z * X).
Definition run_primitive (p : p4_primitive) args phv (dropped : bool) (x : X) : Z * (p4_phv * bool * X) :=
  let param i := pr_params p !!! i in
  match pr_kind p with
  | PRIM_DROP => (0, (phv, true, x))
  | PRIM_NOP => (0, (phv, dropped, x))
  | PRIM_ASSIGN => (0, (phv_set phv (opd_field (param 0%nat)) (operand_value phv (param 1%nat) args), dropped, x))
  | PRIM_ADD | PRIM_SUB =>
      let '(a, b) :=
        if (length (pr_params p) =? 2)%nat then (phv_get phv (opd_field (param 0%nat)), operand_value phv (param 1%nat) args)
        else (operand_value phv (param 1%nat) args, operand_value phv (param 2%nat) args) in
      let r := match pr_kind p with PRIM_ADD => value_add a b | _ => value_sub a b end in
      (0, (phv_set phv (opd_field (param 0%nat)) r, dropped, x))
  | PRIM_EXTERN =>
      match ops with
      | None => (- EPERM, (phv, dropped, x))
      | Some call =>
          let argv := (fun o => operand_value phv o args) <$> tail (pr_params p) in
          let '(rc, x) := call (xi_type (elt (pg_externs prog) (opd_inst (param 0%nat)))) (pr_method p) argv x in
          (rc, (phv, dropped, x))
      end
  end.
Fixpoint run_primitives (ps : list p4_primitive) args phv (dropped : bool) (x : X) : Z * (p4_phv * bool * X) :=
  match ps with
  | [] => (0, (phv, dropped, x))
  | p :: ps =>
      let '(rc, (phv, dropped, x)) := run_primitive p args phv dropped x in
      if negb (rc =? 0) then (rc, (phv, dropped, x)) else run_primitives ps args phv dropped x
  end.
Definition run_action (act : p4_action) args phv (dropped : bool) (x : X) : Z * (p4_phv * bool * X) :=
  run_primitives (ac_primitives act) args phv dropped x.
End with_ops.

(** ** Conditionals *)
(** [sub]: the value of a nested expression. *)
Definition eval_operand phv (sub : Z -> bool) (o : p4_expr_operand) : list Z :=
  match o with
  | EO_FIELD field => phv_get phv field
  | EO_HEXSTR imm_len imm => imm_value imm P4_MAX_IMM_BYTES imm_len
  | EO_HEADER header => value_set_u32 (if is_valid phv header then 1 else 0)
  | EO_BOOL bval => value_set_u32 (if bval then 1 else 0)
  | EO_EXPR expr => value_set_u32 (if sub expr then 1 else 0)
  | EO_NONE => value_zero
  end.
(** [n] bounds the C stack: a depth past [P4_MAX_EXPR_DEPTH] is not followed. *)
Fixpoint eval_node (n : nat) phv (c : list p4_expr_node) (idx depth : Z) : bool :=
  match n with
  | O => false
  | S n =>
      let eval_operand := eval_operand phv (fun expr => eval_node n phv c expr (depth + 1)) in
      if (P4_MAX_EXPR_DEPTH <? depth) || (Z.of_nat (length c) <=? idx) then false
      else
        let nd := elt c idx in
        let r := eval_operand (en_right nd) in
        let l := eval_operand (en_left nd) in
        let cmp := value_cmp l r in
        match en_op nd with
        | EXPR_VALID => value_nonzero r
        | EXPR_NOT => negb (value_nonzero r)
        | EXPR_EQ => match cmp with Eq => true | _ => false end
        | EXPR_NE => match cmp with Eq => false | _ => true end
        | EXPR_LT => match cmp with Lt => true | _ => false end
        | EXPR_LE => match cmp with Gt => false | _ => true end
        | EXPR_GT => match cmp with Gt => true | _ => false end
        | EXPR_GE => match cmp with Lt => false | _ => true end
        | EXPR_AND => value_nonzero l && value_nonzero r
        | EXPR_OR => value_nonzero l || value_nonzero r
        end
  end.
Definition eval_depth : nat := Z.to_nat P4_MAX_EXPR_DEPTH + 2.

(** ** The pipeline *)
Section with_store.
Context {X : Type}.
Variables (ops : option (Z -> Z -> list (list Z) -> X -> Z * X)) (ent : p4_entries) (pipe : Z).

(** A hit follows the edge of the action that matched. *)
Definition hit_edge (t : p4_table) (action : Z) : Z :=
  match list_find (fun a => a = action) (tb_actions t) with Some (i, _) => tb_next t !!! i | None => P4_IDX_NONE end.
Definition table_keys (t : p4_table) phv : list (list Z) := (fun k => phv_get phv (tk_field k)) <$> tb_key t.
Definition run_table (index : Z) (t : p4_table) phv (dropped : bool) (x : X) : Z * Z * (p4_phv * bool * X) :=
  match p4_entries_lookup prog ent pipe index (table_keys t phv) with
  | Some hit =>
      let '(rc, s) := run_action ops (elt (pg_actions prog) (ent_action hit)) (ent_params hit) phv dropped x in
      (rc, hit_edge t (ent_action hit), s)
  | None =>
      if negb (tb_default_action t =? P4_IDX_NONE) then
        let '(rc, s) := run_action ops (elt (pg_actions prog) (tb_default_action t))
                          ((fun d => P4Param d.1 d.2) <$> tb_default_data t) phv dropped x in
        (rc, tb_base_default_next t, s)
      else (0, tb_base_default_next t, (phv, dropped, x))
  end.
Fixpoint node_loop (fuel : nat) (pl : p4_pipeline) (node : Z) phv (dropped : bool) (x : X) : Z * (p4_phv * bool * X) :=
  if node =? P4_IDX_NONE then (0, (phv, dropped, x))
  else
    match fuel with
    | O => (- ELOOP, (phv, dropped, x))
    | S fuel =>
        match elt (pl_nodes pl) node with
        | NODE_CONDITIONAL i =>
            let c := elt (pl_conditionals pl) i in
            node_loop fuel pl (if eval_node eval_depth phv (cn_expr c) 0 0 then cn_true_next c else cn_false_next c) phv dropped x
        | NODE_TABLE i =>
            let '(rc, next, (phv, dropped, x)) := run_table i (elt (pl_tables pl) i) phv dropped x in
            if negb (rc =? 0) then (rc, (phv, dropped, x)) else node_loop fuel pl next phv dropped x
        end
    end.
Definition run_pipeline (pl : p4_pipeline) phv (dropped : bool) (x : X) : Z * (p4_phv * bool * X) :=
  node_loop (length (pl_nodes pl) + 1) pl (pl_init_node pl) phv dropped x.
End with_store.

(** ** Deparsing *)
Fixpoint deparse_headers phv (out_cap : Z) (hs : list Z) (out : list Z) : Z + list Z :=
  match hs with
  | [] => inr out
  | h :: hs =>
      if negb (is_valid phv h) then deparse_headers phv out_cap hs out
      else
        let n := hdr_bytes prog h in
        if out_cap - Z.of_nat (length out) <? n then inl (- EMSGSIZE)
        else deparse_headers phv out_cap hs (out ++ bslice (ph_data phv) (Z.to_nat (hd_phv_offset (elt (pg_headers prog) h))) (Z.to_nat n))
  end.
(** The bytes at [out] and, in the C, their number at [out_len]. *)
Definition run_deparser phv (frame : list Z) (consumed out_cap : Z) : Z + list Z :=
  match deparse_headers phv out_cap (pg_deparse_order prog) [] with
  | inl rc => inl rc
  | inr out =>
      if out_cap - Z.of_nat (length out) <? Z.of_nat (length frame) - consumed then inl (- EMSGSIZE)
      else inr (out ++ drop (Z.to_nat consumed) frame)
  end.

(** ** One packet *)
Definition meta_set phv (ref : p4_field_ref) (v : Z) : p4_phv :=
  if fr_header ref =? P4_IDX_NONE then phv else phv_set phv ref (value_set_u32 v).
Definition egress_spec_get phv : Z := value_u32 (phv_get phv (pg_egress_spec prog)).
Definition enter_egress phv (port : Z) : p4_phv :=
  let phv := meta_set phv (pg_egress_port prog) port in
  let phv := meta_set phv (pg_egress_spec prog) (P4_DROP_PORT + 1) in
  phv <| ph_egress_assigned := false |>.
(** Metadata is valid from the start. *)
Definition valid_metadata phv : p4_phv :=
  phv <| ph_valid ::= imap (fun h v => v || match pg_headers prog !! h with Some hd => hd_metadata hd | None => false end) |>.
(** The pipelines: ingress, and what comes of it. *)
Definition p4_exec_run_meta {X} (ent : p4_entries) (ops : option (Z -> Z -> list (list Z) -> X -> Z * X)) (meta : p4_rdma_meta) (x : X)
    : Z * p4_exec_result * X :=
  if negb (pg_has_rdma_metadata prog) then (- ENOENT, inhabitant, x)
  else
    match phv_init with
    | inl rc => (rc, inhabitant, x)
    | inr phv =>
        let phv := valid_metadata phv in
        let phv := meta_set phv (pg_ingress_port prog) P4_PORT_RDMA in
        let phv := meta_set phv (pg_rdma_opcode prog) (rm_opcode meta) in
        let phv := meta_set phv (pg_rdma_qp_num prog) (rm_qp_num meta) in
        let phv := meta_set phv (pg_rdma_length prog) (rm_length meta) in
        let phv := meta_set phv (pg_rdma_imm_data prog) (rm_imm_data meta) in
        let phv := meta_set phv (pg_rdma_rkey prog) (rm_rkey meta) in
        let '(rc, (phv, dropped, x)) := run_pipeline ops ent P4_PIPE_INGRESS (elt (pg_pipelines prog) P4_PIPE_INGRESS) phv false x in
        let '(rc, (phv, dropped, x)) :=
          if (rc =? 0) && negb dropped then
            run_pipeline ops ent P4_PIPE_EGRESS (elt (pg_pipelines prog) P4_PIPE_EGRESS) (enter_egress phv (egress_spec_get phv)) dropped x
          else (rc, (phv, dropped, x)) in
        (rc, inhabitant <| er_dropped := dropped |>, x)
    end.
(** The result, and the bytes at [out]. *)
Definition p4_exec_run (ent : p4_entries) (ingress_port default_port : Z) (frame : list Z) (out_cap : Z) (res : p4_exec_result)
    : Z * p4_exec_result * list Z :=
  if (length frame =? 0)%nat then (- EINVAL, res, [])
  else
    let res := inhabitant in
    match phv_init with
    | inl rc => (rc, res, [])
    | inr phv =>
        let phv := valid_metadata phv in
        let phv := if negb (fr_header (pg_ingress_port prog) =? P4_IDX_NONE) then phv_set phv (pg_ingress_port prog) (value_set_u32 ingress_port) else phv in
        match run_parser phv frame with
        | inl rc => (rc, res, [])
        | inr (phv, consumed) =>
            let '(rc, (phv, dropped, _)) := run_pipeline None ent P4_PIPE_INGRESS (elt (pg_pipelines prog) P4_PIPE_INGRESS) phv false tt in
            if negb (rc =? 0) then (rc, res, [])
            else
              let assigned := ph_egress_assigned phv in
              let port := egress_spec_get phv in
              let dropped := dropped || (port =? P4_DROP_PORT) in
              let '(rc, (phv, dropped, _)) :=
                if negb dropped then
                  run_pipeline None ent P4_PIPE_EGRESS (elt (pg_pipelines prog) P4_PIPE_EGRESS)
                    (enter_egress phv (if assigned then port else default_port)) dropped tt
                else (0, (phv, dropped, tt)) in
              if negb (rc =? 0) then (rc, res, [])
              else
                let dropped := dropped || (egress_spec_get phv =? P4_DROP_PORT) in
                let res := P4ExecResult dropped assigned port 0 in
                if dropped then (0, res, [])
                else
                  match run_deparser phv frame consumed out_cap with
                  | inl rc => (rc, res, [])
                  | inr out => (0, res <| er_len := Z.of_nat (length out) |>, out)
                  end
        end
    end.
End exec.
