(* ===== verification/P4Ex.v ===== *)
(** * A small program

    Ethernet frames routed on their destination by longest prefix, RDMA
    operations counted down in egress: a program the loader accepts, on which
    the theorems about programs are tried. *)
From S2P Require Export P4Prog P4TableProps.
From stdpp Require Import strings.
#[local] Open Scope Z_scope.

Definition px_imm (n : Z) : list Z := zeros 14 ++ [n / 256; n mod 256].
Definition px_transition (v next : Z) : p4_transition := P4Transition false false (px_imm v) (zeros 16) next.
Definition px_default (next : Z) : p4_transition := P4Transition true false (zeros 16) (zeros 16) next.

Definition px_std : p4_header_type := P4HeaderType (chars "standard_metadata_t") 0 27
  [P4Field (chars "ingress_port") 9 0; P4Field (chars "egress_spec") 9 9; P4Field (chars "egress_port") 9 18].
Definition px_eth : p4_header_type := P4HeaderType (chars "ethernet_t") 1 112
  [P4Field (chars "dst") 48 0; P4Field (chars "src") 48 48; P4Field (chars "type") 16 96].
Definition px_rdma : p4_header_type := P4HeaderType (chars "rdma_metadata_t") 2 128
  [P4Field (chars "opcode") 8 0; P4Field (chars "qp_num") 24 8; P4Field (chars "length") 32 32;
   P4Field (chars "imm_data") 32 64; P4Field (chars "rkey") 32 96].
Definition px_route : p4_table := P4Table (chars "route") 0 4 MATCH_LPM [P4TableKey MATCH_LPM false (FieldRef 1 0) (zeros 16)] 0
  [0; 1] [P4_IDX_NONE; P4_IDX_NONE] P4_IDX_NONE 1 [].
Definition px_count : p4_table := P4Table (chars "count") 1 2 MATCH_EXACT [P4TableKey MATCH_EXACT false (FieldRef 2 0) (zeros 16)] P4_IDX_NONE
  [2; 3] [P4_IDX_NONE; P4_IDX_NONE] P4_IDX_NONE P4_IDX_NONE [].
(** Only frames, not operations, are routed. *)
Definition px_is_frame : p4_conditional := P4Conditional (chars "is_frame") 0 0 P4_IDX_NONE
  [P4ExprNode EXPR_AND (EO_EXPR 1) (EO_EXPR 2); P4ExprNode EXPR_VALID EO_NONE (EO_HEADER 1);
   P4ExprNode EXPR_NE (EO_FIELD (FieldRef 0 0)) (EO_HEXSTR 2 (px_imm 2))].
Definition px : p4_program := P4Program (FieldRef 0 1) (FieldRef 0 0) (FieldRef 0 2)
  [P4ExternInst (chars "fp8") 0 P4_EXTERN_FP8]
  true (FieldRef 2 0) (FieldRef 2 1) (FieldRef 2 2) (FieldRef 2 3) (FieldRef 2 4)
  [P4Pipeline (chars "ingress") 0 1 [NODE_TABLE 0; NODE_CONDITIONAL 0] [px_route] [px_is_frame];
   P4Pipeline (chars "egress") 1 0 [NODE_TABLE 0] [px_count] []]
  [P4Action (chars "forward") 0 [9] [P4Primitive PRIM_ASSIGN 0 [OPD_FIELD (FieldRef 0 1); OPD_RUNTIME 0]];
   P4Action (chars "toss") 1 [] [P4Primitive PRIM_DROP 0 []];
   P4Action (chars "down") 2 [] [P4Primitive PRIM_SUB 0 [OPD_FIELD (FieldRef 2 3); OPD_HEXSTR 1 (px_imm 1)]];
   P4Action (chars "sum") 3 [] [P4Primitive PRIM_EXTERN P4_EXTERN_FP8_MAP [OPD_EXTERN 0; OPD_HEXSTR 1 (px_imm 3)]]]
  [px_std; px_eth; px_rdma]
  [P4Header (chars "standard_metadata") 0 0 true 0; P4Header (chars "ethernet") 1 1 false 4; P4Header (chars "rdma_metadata") 2 2 true 18]
  34 0
  [P4ParseState (chars "start") 2 [1] [FieldRef 1 2] [px_transition 0x0800 P4_IDX_NONE; px_default 1];
   P4ParseState (chars "done") 0 [] [] []]
  [1].

Ltac px_go :=
  repeat match goal with
  | |- Forall _ [] => constructor
  | |- Forall _ (_ :: _) => apply Forall_cons
  | |- Forall ?P ?l => let l' := eval hnf in l in progress change (Forall P l')
  | |- _ /\ _ => split
  | |- operand_ok _ _ _ => hnf
  | |- bytes16_ok _ => split
  | |- bytes_ok _ => apply (bool_decide_unpack _)
  | |- ref_ok _ _ => split
  end.
(** What is left is closed: a comparison, an equality, or one of two cases. *)
Ltac px_done := first [done | by vm_compute | by left; vm_compute | by right; vm_compute | apply (bool_decide_unpack _); vm_compute; exact I | vm_compute; intuition congruence].

Lemma px_acyclic pl : pl ∈ pg_pipelines px -> acyclic pl.
Proof.
  intros [->|[->|[]%elem_of_nil]%elem_of_cons]%elem_of_cons; exists Z.to_nat; intros n m Hn Hm Hne.
  - cbn in Hn. unfold P4_IDX_NONE in *. assert (n = 0 \/ n = 1) as [->| ->] by lia; cbn in Hm; set_unfold in Hm; destruct_or?; subst; try done. vm_compute. lia.
  - cbn in Hn. unfold P4_IDX_NONE in *. assert (n = 0) as -> by lia. cbn in Hm. set_unfold in Hm. destruct_or?; subst; done.
Qed.
Lemma px_expr : expr_ok px (cn_expr px_is_frame) 0 0.
Proof. repeat (econstructor; try (px_go; px_done)). Qed.
Lemma px_state st : st ∈ pg_parse_states px -> state_ok px st.
Proof. intros [->|[->|[]%elem_of_nil]%elem_of_cons]%elem_of_cons; unfold state_ok, transition_ok; cbn [ps_ops ps_key ps_transitions]; px_go; px_done. Qed.
Lemma px_action a : a ∈ pg_actions px -> action_ok px a.
Proof.
  intros [-> |[-> |[-> |[-> |[]%elem_of_nil]%elem_of_cons]%elem_of_cons]%elem_of_cons]%elem_of_cons;
    unfold action_ok, prim_ok; cbn [ac_runtime_bits ac_primitives pr_params pr_kind operand_ok]; px_go; try px_done; repeat eexists; px_go; px_done.
Qed.
Lemma px_route_ok : table_ok px 2 px_route.
Proof.
  unfold table_ok, kinds_ok, key_ok. px_go; try px_done.
  intros [|i]; [done|]. by destruct i.
Qed.
Lemma px_count_ok : table_ok px 1 px_count.
Proof.
  unfold table_ok, kinds_ok, key_ok. px_go; try px_done. intros [|i]; [done|]. by destruct i.
Qed.
Lemma px_pipelines : Forall (pipeline_ok px) (pg_pipelines px).
Proof.
  repeat apply Forall_cons_2; [..|constructor]; split_and!; px_go; try px_done.
  - exact px_route_ok.
  - exact px_expr.
  - apply px_acyclic. by left.
  - exact px_count_ok.
  - apply px_acyclic. by right; left.
Qed.
Lemma px_ok : prog_ok px.
Proof.
  split; [| | | | |apply Forall_forall, px_state| | | | | |apply Forall_forall, px_action|split; [exact px_pipelines|done]].
  1, 2, 3, 4, 5, 6, 8: px_go; px_done.
  - split; [px_go; px_done|]. apply (bool_decide_unpack _). by vm_compute.
  - px_go; right; px_go; px_done.
  - intros _. px_go; right; px_go; px_done.
Qed.

(** Two routes, the longer inside the shorter. *)
Definition px_prefix (top bits : Z) : p4_match_spec := P4MatchSpec 6 bits (zeros 10 ++ [top / 256; top mod 256; 0; 0; 0; 0]) (zeros 16).
Definition px_pad {A} `{Inhabited A} (n : nat) (l : list A) : list A := l ++ replicate (n - length l) inhabitant.
Definition px_up (type top bits port : Z) : p4_update :=
  P4Update type (chars "route") (chars "forward") 0 1 1 (px_pad P4_MAX_TABLE_KEY [px_prefix top bits])
    (px_pad P4_MAX_RUNTIME_ARGS [P4Param 2 (px_imm port)]).
Definition px_short : p4_update := px_up P4_UPDATE_INSERT 0x0200 8 0.
Definition px_long : p4_update := px_up P4_UPDATE_INSERT 0x0201 16 1.
Definition px_store1 : p4_entries := snd (p4_entries_update px true p4_entries_create px_short).
Definition px_store : p4_entries := snd (p4_entries_update px true px_store1 px_long).
Lemma px_short_ok : up_ok px_short.
Proof. unfold up_ok, spec_ok, param_ok. px_go; px_done. Qed.
Lemma px_long_ok : up_ok px_long.
Proof. unfold up_ok, spec_ok, param_ok. px_go; px_done. Qed.
