(* ===== verification/P4Store.v ===== *)
(** * Match-action tables: the theorems

    Every store a control plane can build, whatever updates it sends, keeps
    [store_inv]; [p4_update_refines] says what an update does to the rows, and
    [p4_lookup_best] what a lookup finds in them. *)
From S2P Require Export P4Prog P4TableProps.
From S2P Require Import P4Ex.

Section store.
Variable prog : p4_program.
Implicit Types (tb : p4_table) (te : p4_table_entries) (e : p4_entry) (up : p4_update).

(** Taking the table's memory, on its first insert. *)
Definition grown tb te : p4_table_entries :=
  if te_cap te =? 0 then te <| te_cap := if negb (tb_max_size tb =? 0) then tb_max_size tb else 1 |> else te.
Lemma grown_ok nn tb te :
  table_ok prog nn tb -> te_inv prog tb te ->
  te_inv prog tb (grown tb te) /\ te_e (grown tb te) = te_e te /\ te_cap (grown tb te) = Z.max 1 (tb_max_size tb).
Proof.
  intros (_ & _ & _ & _ & _ & _ & _ & _ & Hms) [Hnd Hes Hused Hcap]. unfold grown. destruct (Z.eqb_spec (te_cap te) 0) as [H0|H0].
  - set (cap := if negb (tb_max_size tb =? 0) then tb_max_size tb else 1).
    assert (cap = Z.max 1 (tb_max_size tb)) as Hc by (subst cap; destruct (Z.eqb_spec (tb_max_size tb) 0); cbn; lia).
    clearbody cap. split_and!; [|done|done]. split; cbn; [done|done|lia|by right].
  - destruct Hcap as [|Hcap]; [lia|]. split_and!; [split; auto|done|done].
Qed.

Definition of_row (type : Z) tb te te' (mem : bool) e (rc : Z) : Prop :=
  te_inv prog tb te' /\
  row_step type (row e) e (Z.of_nat (length (te_e te)) = Z.max 1 (tb_max_size tb)) (mem = false) (row_at te) (row_at te') rc.

Lemma delete_row tb te mem i e e0 :
  te_inv prog tb te -> te_e te !! i = Some e0 -> row e0 = row e -> row_at te (row e) = Some e0 ->
  of_row P4_UPDATE_DELETE tb te (te <| te_e ::= delete_at i |>) mem e 0.
Proof.
  intros [Hnd Hes Hused Hcap] Hi Hr Hat. pose proof (delete_at_perm (te_e te) i e0 Hi) as Hperm.
  pose proof (rows_removed te (delete_at i (te_e te)) e0 Hnd Hperm) as Hrows. rewrite Hr in Hrows.
  change (te <| te_e ::= delete_at i |>) with (te <| te_e := delete_at i (te_e te) |>). split.
  - split; cbn; [| |apply Permutation_length in Hperm; cbn in Hperm; lia|done].
    + rewrite Hperm in Hnd. cbn in Hnd. by apply NoDup_cons in Hnd as [_ ?].
    + rewrite Hperm in Hes. by apply Forall_cons in Hes as [_ ?].
  - apply row_delete; [done|by eexists|by rewrite Hrows, decide_True|]. intros x Hx. by rewrite Hrows, decide_False.
Qed.
Lemma modify_row tb te mem i e e0 :
  te_inv prog tb te -> te_e te !! i = Some e0 -> row e0 = row e -> row_at te (row e) = Some e0 -> entry_ok prog tb e ->
  of_row P4_UPDATE_MODIFY tb te (te <| te_e ::= <[i := e]> |>) mem e 0.
Proof.
  intros [Hnd Hes Hused Hcap] Hi Hr Hat He. destruct (rows_replaced te i e0 e Hnd Hi) as [Hnd' Hrows]; [congruence|]. rewrite Hr in Hrows. split.
  - split; cbn; [done|by apply Forall_insert|by rewrite length_insert|done].
  - apply row_modify; [done|by eexists|by rewrite Hrows, decide_True|]. intros x Hx. by rewrite Hrows, decide_False.
Qed.
Lemma insert_row tb te mem e :
  te_inv prog tb te -> row_at te (row e) = None -> entry_ok prog tb e -> Z.of_nat (length (te_e te)) < te_cap te ->
  of_row P4_UPDATE_INSERT tb te (te <| te_e ::= fun es => es ++ [e] |>) mem e 0.
Proof.
  intros [Hnd Hes Hused Hcap] Hno He Hlt. destruct (rows_added te (te_e te ++ [e]) e Hnd Hno) as [Hnd' Hrows]; [by rewrite <-Permutation_cons_append|].
  change (te <| te_e ::= fun es => es ++ [e] |>) with (te <| te_e := te_e te ++ [e] |>). split.
  - split; cbn; [done|by apply Forall_app_2; [|constructor]|rewrite length_app; cbn; lia|done].
  - apply row_insert; [done|done|by rewrite Hrows, decide_True|]. intros x Hx. by rewrite Hrows, decide_False.
Qed.

Lemma table_update_ok nn tb up action mem te :
  table_ok prog nn tb -> up_ok up -> te_inv prog tb te -> (tb_match_type tb <> MATCH_TERNARY -> up_priority up = 0) ->
  up_type up <= P4_UPDATE_DELETE ->
  let up' := mask_update tb up in
  let keys := entry_keys prog tb up' in
  let e := entry_of tb up' keys action in
  (up_type up <> P4_UPDATE_DELETE -> entry_ok prog tb e) ->
  let '(rc, te') := table_update mem tb up' keys action te in of_row (up_type up) tb te te' mem e rc.
Proof.
  intros Htb Hup Hinv Hp Hty. cbv zeta. intros Hent. pose proof (found_row prog tb up te Hinv Hp) as Hf.
  set (up' := mask_update tb up) in *. set (keys := entry_keys prog tb up') in *. set (e := entry_of tb up' keys action) in *.
  assert ((keys, up_priority up) = row e) as Hre by done. rewrite Hre in Hf. destruct Hup as (_ & _ & _ & _ & _ & _ & _ & Ht0).
  unfold table_update. change (up_type up') with (up_type up). change (entry_of tb up' keys action) with e. clearbody e.
  destruct (Z.eqb_spec (up_type up) P4_UPDATE_DELETE) as [->|Hd].
  - destruct (fst <$> _) as [i|]; [destruct Hf as (e0 & ? & ? & ?); by eapply delete_row|]. split; [done|]. by apply row_missing.
  - specialize (Hent Hd). destruct (Z.eqb_spec (up_type up) P4_UPDATE_MODIFY) as [->|Hm].
    + destruct (fst <$> _) as [i|]; [destruct Hf as (e0 & ? & ? & ?); by eapply modify_row|]. split; [done|]. by apply row_missing.
    + assert (up_type up = P4_UPDATE_INSERT) as -> by (unfold P4_UPDATE_DELETE, P4_UPDATE_MODIFY, P4_UPDATE_INSERT in *; lia).
      destruct (fst <$> _) as [i|]; [destruct Hf as (e0 & _ & _ & Hat); split; [done|]; by apply row_exists; [|eexists|]|].
      destruct ((te_cap te =? 0) && negb mem) eqn:Hmem.
      { apply andb_true_iff in Hmem as [_ Hmem%negb_true_iff]. split; [done|]. by apply row_nomem. }
      destruct (grown_ok nn tb te Htb Hinv) as (Hg & He & Hc). assert (forall x, row_at (grown tb te) x = row_at te x) as Hrow by (unfold row_at; by rewrite He).
      unfold grown in *. match type of Hg with te_inv _ _ ?g => set (te1 := g) in *; clearbody te1 end.
      destruct (Z.leb_spec (te_cap te1) (Z.of_nat (length (te_e te1)))) as [Hle|Hgt].
      * split; [done|]. rewrite He in Hle. apply row_full; try done. pose proof (ti_used _ _ _ Hinv). pose proof (ti_used _ _ _ Hg) as Hu. rewrite He in Hu. lia.
      * destruct (insert_row tb _ mem e Hg) as [Hi Hs]; [by rewrite Hrow|done|lia|]. split; [done|]. rewrite He in Hs.
        inversion Hs; subst; try done. apply row_insert; try done. intros x Hx. rewrite <-Hrow. auto.
Qed.

(** ** The whole store *)
Hypothesis Hok : prog_ok prog.
Definition has_table (pipe table : Z) : Prop :=
  0 <= pipe < Z.of_nat (length (pg_pipelines prog)) /\ 0 <= table < Z.of_nat (length (pl_tables (elt (pg_pipelines prog) pipe))).
Definition table_at (ent : p4_entries) (pipe table : Z) : p4_table_entries := elt (elt (pe_t ent) pipe) table.
Record store_inv (ent : p4_entries) : Prop := {
  si_pipes : length (pe_t ent) = P4_MAX_PIPELINES;
  si_shape : Forall (fun r => length r = P4_MAX_TABLES) (pe_t ent);
  si_tables pipe table : has_table pipe table -> te_inv prog (the_table prog pipe table) (table_at ent pipe table) }.

Lemma find_from_spec p pls name pipe table :
  find_table_from p pls name = Some (pipe, table) ->
  exists i pl j t, pls !! i = Some pl /\ pl_tables pl !! j = Some t /\ pipe = p + Z.of_nat i /\ table = Z.of_nat j /\ tb_name t = name.
Proof.
  revert p. induction pls as [|pl pls IH]; intros p; [done|]. cbn [find_table_from]. unfold find_in.
  destruct (list_find _ (pl_tables pl)) as [[j t]|] eqn:Hf; cbn.
  - intros [= <- <-]. apply list_find_Some in Hf as (Hj & Hn & _). exists 0%nat, pl, j, t. split_and!; try done; lia.
  - intros (i & q & j & t & Hi & Hj & -> & -> & Hn)%IH. exists (S i), q, j, t. split_and!; try done; lia.
Qed.
Lemma find_table_has name pipe table :
  find_table prog name = Some (pipe, table) -> has_table pipe table /\ tb_name (the_table prog pipe table) = name.
Proof.
  intros (i & pl & j & t & Hi & Hj & -> & -> & Hn)%find_from_spec. unfold has_table, the_table, elt.
  rewrite Z.add_0_l, !Nat2Z.id, (list_lookup_total_correct _ _ _ Hi), (list_lookup_total_correct _ _ _ Hj).
  apply lookup_lt_Some in Hi, Hj. split; [lia|done].
Qed.
Lemma has_pipeline pipe : 0 <= pipe < Z.of_nat (length (pg_pipelines prog)) -> pipeline_ok prog (elt (pg_pipelines prog) pipe).
Proof. intros H. apply elt_Forall; [apply Hok|done]. Qed.
Lemma has_table_ok pipe table : has_table pipe table -> exists nn, table_ok prog nn (the_table prog pipe table).
Proof. intros [Hp Ht]. destruct (has_pipeline pipe Hp) as (_ & Hts & _). eexists. exact (elt_Forall _ _ _ Hts Ht). Qed.
Lemma has_table_width pipe table i k : has_table pipe table -> tb_key (the_table prog pipe table) !! i = Some k -> width_ok prog k.
Proof.
  intros Ht Hk. destruct (has_table_ok _ _ Ht) as (nn & Hks & _). destruct (Forall_lookup_1 _ _ _ _ Hks Hk) as (Hr & Hb & _).
  destruct (ref_in_phv prog Hok _ Hr) as (_ & _ & Hw). unfold fbits, width_ok, key_bits, P4_MAX_ENTRY_BYTES in *. lia.
Qed.
Lemma has_table_shape ent pipe table : store_inv ent -> has_table pipe table ->
  (Z.to_nat pipe < length (pe_t ent))%nat /\ (Z.to_nat table < length (elt (pe_t ent) pipe))%nat.
Proof.
  intros [Hl Hs _] [Hp Ht]. destruct (po_pipelines _ Hok) as [_ Hn]. destruct (has_pipeline pipe Hp) as (_ & _ & Hm & _).
  assert (0 <= pipe < Z.of_nat (length (pe_t ent))) as Hp' by lia. split; [lia|]. rewrite (elt_Forall _ _ _ Hs Hp'). lia.
Qed.

(** Writing one table of the store. *)
Definition set_table (pipe table : Z) te (ent : p4_entries) : p4_entries :=
  ent <| pe_t ::= alter (alter (fun _ => te) (Z.to_nat table)) (Z.to_nat pipe) |>.
Lemma set_table_at ent pipe table te p t : store_inv ent -> has_table pipe table -> 0 <= p -> 0 <= t ->
  table_at (set_table pipe table te ent) p t = if decide (p = pipe /\ t = table) then te else table_at ent p t.
Proof.
  intros Hs Hh Hp Ht. destruct (has_table_shape _ _ _ Hs Hh) as [H1 H2]. destruct Hh as [? ?]. unfold table_at, set_table, elt. cbn [pe_t upd].
  destruct (decide (p = pipe)) as [->|Hne].
  - cbn. rewrite list_lookup_total_alter_eq by done. destruct (decide (t = table)) as [->|Hnt].
    + rewrite decide_True by done. by rewrite list_lookup_total_alter_eq.
    + rewrite decide_False by tauto. rewrite list_lookup_total_alter_ne by lia. done.
  - rewrite decide_False by tauto. cbn. by rewrite list_lookup_total_alter_ne by lia.
Qed.
Lemma set_table_inv ent pipe table te :
  store_inv ent -> has_table pipe table -> te_inv prog (the_table prog pipe table) te -> store_inv (set_table pipe table te ent).
Proof.
  intros Hs Hh Hte. split; [cbn; rewrite length_alter; apply Hs| |].
  - cbn. apply Forall_lookup. intros i r Hr. pose proof (si_shape _ Hs) as Hf. rewrite Forall_lookup in Hf.
    destruct (decide (i = Z.to_nat pipe)) as [->|Hi]; [|rewrite list_lookup_alter_ne in Hr by done; by apply Hf in Hr].
    rewrite list_lookup_alter_eq in Hr. apply fmap_Some in Hr as (r0 & Hr0 & ->). rewrite length_alter. by apply Hf in Hr0.
  - intros p t Hpt. rewrite set_table_at by (done || apply Hpt). case_decide as Hd; [by destruct Hd as [-> ->]|by apply Hs].
Qed.

(** ** What an update has to be *)
Definition pval (p : p4_param) : Z := be_value (drop (16 - sig_len (pm_len p)) (pm_value p)).
Definition arg_fits (bits : Z) (p : p4_param) : Prop := pm_len p <= (bits + 7) / 8 /\ pval p < 2 ^ bits.
Lemma param_fits_num bits p : param_ok p -> 0 <= bits -> param_fits bits p = true <-> arg_fits bits p.
Proof.
  intros [[_ Hb] _] Hbits. unfold param_fits, arg_fits, pval, sig_bits. rewrite negb_true_iff, orb_false_iff, !Z.ltb_ge.
  by rewrite (be_bit_length_le _ _ (Forall_drop _ _ _ Hb) Hbits).
Qed.
Definition named_action tb up : option Z :=
  snd <$> list_find (fun a => ac_name (elt (pg_actions prog) a) = up_action up) (tb_actions tb).
Definition call_ok tb up (action : Z) : Prop :=
  let act := elt (pg_actions prog) action in
  named_action tb up = Some action /\ up_nparams up = Z.of_nat (length (ac_runtime_bits act)) /\
  forall i bits, ac_runtime_bits act !! i = Some bits -> arg_fits bits (up_params up !!! i).
Definition update_ok up (pipe table action : Z) : Prop :=
  let tb := the_table prog pipe table in
  find_table prog (up_table up) = Some (pipe, table) /\ up_nmatch up = Z.of_nat (length (tb_key tb)) /\
  (forall i k, tb_key tb !! i = Some k -> key_fits prog k (up_match up !!! i)) /\
  (tb_match_type tb = MATCH_TERNARY <-> up_priority up <> 0) /\
  (if decide (up_type up = P4_UPDATE_DELETE) then action = P4_IDX_NONE else call_ok tb up action).

Lemma imap_true {A} (f : nat -> A -> bool) (P : nat -> A -> Prop) l :
  (forall i x, l !! i = Some x -> f i x = true <-> P i x) -> forallb id (imap f l) = true <-> (forall i x, l !! i = Some x -> P i x).
Proof. intros H. rewrite forallb_imap. split; intros Hl i x Hi; eapply H; eauto. Qed.

Lemma call_iff tb up (pipe table action : Z) :
  Forall (act_idx_ok prog) (tb_actions tb) -> length (up_params up) = P4_MAX_RUNTIME_ARGS -> Forall param_ok (up_params up) ->
  match list_find (fun a => ac_name (elt (pg_actions prog) a) = up_action up) (tb_actions tb) with
  | None => inl (- EINVAL)
  | Some (_, action) =>
      let act := elt (pg_actions prog) action in
      if negb (up_nparams up =? Z.of_nat (length (ac_runtime_bits act))) then inl (- EINVAL)
      else if negb (forallb id (imap (fun i bits => param_fits bits (up_params up !!! i)) (ac_runtime_bits act))) then inl (- EINVAL)
      else inr (pipe, table, action)
  end = inr (pipe, table, action) <-> call_ok tb up action.
Proof.
  intros Hacts Hl Hps. unfold call_ok, named_action. destruct (list_find _ _) as [[j a]|] eqn:Hf; cbn [fmap option_fmap option_map snd]; [|by split; [|intros [??]]].
  apply list_find_Some in Hf as (Ha & _ & _). pose proof (Forall_lookup_1 _ _ _ _ Hacts Ha) as Hact.
  destruct (elt_Forall _ _ _ (po_actions _ Hok) Hact) as (Hbits & Hn & _). cbv zeta.
  destruct (decide (a = action)) as [->|Hne]; [|split; [intros H; repeat case_match; congruence|intros [??]; congruence]].
  rewrite <-(imap_true (fun i bits => param_fits bits (up_params up !!! i))).
  - destruct (Z.eqb_spec (up_nparams up) (Z.of_nat (length (ac_runtime_bits (elt (pg_actions prog) action))))); cbn [negb]; [|by split; [|intros (? & ? & _)]].
    destruct (forallb id _); cbn [negb]; [done|]. by split; [|intros (? & ? & ?)].
  - intros i bits Hi. apply param_fits_num; [|by apply (Forall_lookup_1 _ _ _ _ Hbits) in Hi; lia]. apply lookup_lt_Some in Hi.
    eapply Forall_lookup_1; [exact Hps|]. apply list_lookup_lookup_total_lt. lia.
Qed.
Lemma resolve_iff up pipe table action : up_ok up -> resolve prog up = inr (pipe, table, action) <-> update_ok up pipe table action.
Proof.
  intros (Hlm & Hms & Hlp & Hps & _). unfold resolve, update_ok. destruct (find_table prog (up_table up)) as [[p t]|] eqn:Hf; [|by split; [|intros [??]]].
  destruct (find_table_has _ _ _ Hf) as [Hh _]. cbv zeta. set (tb := the_table prog p t).
  destruct (decide ((p, t) = (pipe, table))) as [[= <- <-]|Hne]; [|split; [intros H; repeat case_match; congruence|intros [??]; congruence]]. fold tb.
  destruct (has_table_ok _ _ Hh) as (nn & Hks & Hnk & _ & Hacts & _).
  pose proof (imap_true (fun i k => spec_fits prog k (up_match up !!! i)) (fun i k => key_fits prog k (up_match up !!! i)) (tb_key tb)) as Hkeys.
  rewrite <-Hkeys; clear Hkeys.
  2: { intros i k Hk. apply spec_fits_num; [|by eapply has_table_width]. apply lookup_lt_Some in Hk. fold tb in Hnk. eapply Forall_lookup_1; [exact Hms|].
       apply list_lookup_lookup_total_lt. lia. }
  destruct (Z.eqb_spec (up_nmatch up) (Z.of_nat (length (tb_key tb)))) as [Hn|]; cbn [negb]; [|by split; [|intros (? & ? & _)]].
  destruct (forallb id _); cbn [negb]; [|by split; [|intros (? & ? & ? & _)]].
  destruct (bool_decide (tb_match_type tb = MATCH_TERNARY) && _) eqn:Ht1.
  { apply andb_true_iff in Ht1 as [Ht1%bool_decide_eq_true Hz%Z.eqb_eq]. split; [done|]. intros (_ & _ & _ & [H _] & _). by destruct (H Ht1). }
  destruct (negb (bool_decide (tb_match_type tb = MATCH_TERNARY)) && _) eqn:Ht2.
  { apply andb_true_iff in Ht2 as [Ht2%negb_true_iff%bool_decide_eq_false Hz%negb_true_iff%Z.eqb_neq]. split; [done|]. intros (_ & _ & _ & [_ H] & _). tauto. }
  assert (tb_match_type tb = MATCH_TERNARY <-> up_priority up <> 0) as Hprio.
  { destruct (Z.eqb_spec (up_priority up) 0); case_bool_decide; cbn in Ht1, Ht2; tauto || congruence. }
  destruct (Z.eqb_spec (up_type up) P4_UPDATE_DELETE) as [Hd|Hd].
  - rewrite decide_True by done. split; [by intros [= <-]|by intros (_ & _ & _ & _ & ->)].
  - rewrite decide_False by done. rewrite call_iff by done. tauto.
Qed.

(** ** What an update does *)
Definition accepted up (pipe table action : Z) : Prop :=
  up_type up <= P4_UPDATE_DELETE /\ up_nparams up <= Z.of_nat P4_MAX_RUNTIME_ARGS /\ update_ok up pipe table action.
(** The number a key field is stored under: what the update says, under the
    mask the program gives the field. *)
Definition key_number (k : p4_table_key) (s : p4_match_spec) : Z := if tk_has_mask k then Z.land (sval s) (be_value (tk_mask k)) else sval s.
Record entry_says tb up (action : Z) e : Prop := {
  es_priority : ent_priority e = up_priority up;
  es_action : ent_action e = action;
  es_rank : ent_rank e = match tb_match_type tb with MATCH_LPM => ms_prefix_bits (elt (up_match up) (tb_lpm_key tb)) | _ => up_priority up end;
  es_params i : ent_params e !! i = if decide (Z.of_nat i < up_nparams up) then Some (up_params up !!! i) else None;
  es_len : length (ent_key e) = length (tb_key tb);
  es_key i k x : tb_key tb !! i = Some k -> ent_key e !! i = Some x ->
    kval x = key_number k (up_match up !!! i) /\ kmask x = match_mask (tk_match_type k) (key_bits prog k) (up_match up !!! i) }.

Lemma land_low x y w : 0 <= x < 2 ^ w -> 0 <= w -> Z.land x (y mod 2 ^ w) = Z.land x y.
Proof.
  intros Hx Hw. rewrite <-Z.land_ones by done. rewrite (Z.land_comm y), Z.land_assoc, Z.land_ones by done. by rewrite Z.mod_small.
Qed.
Lemma mask_spec_value k s : spec_ok s -> (tk_has_mask k = true -> bytes16_ok (tk_mask k)) -> sval (mask_spec k s) = key_number k s.
Proof.
  intros Hs Hk. destruct (mask_spec_num prog k s Hs Hk) as [-> _]. unfold key_number, prog_mask. destruct (tk_has_mask k); [|done].
  destruct (Hk eq_refl) as [Hl Hb]. destruct Hs as ([Hlv Hbv] & _ & _). pose proof (sig_len_le (ms_len s)).
  set (n := (16 - sig_len (ms_len s))%nat). rewrite <-(take_drop n (tk_mask k)) at 2. rewrite be_app.
  pose proof (be_bound _ (Forall_drop _ n _ Hb)) as Hd. pose proof (be_bound _ (Forall_drop _ n _ Hbv)) as Hv. fold (sval s) in Hv.
  assert (nbits (drop n (tk_mask k)) = nbits (drop n (ms_value s))) as Hn by (unfold nbits; rewrite !length_drop; lia). rewrite Hn in Hd.
  rewrite <-(land_low (sval s) (_ * _ + _) (nbits (drop n (ms_value s)))) by (unfold nbits; done || lia). f_equal.
  change 256 with (2 ^ 8). rewrite <-Z.pow_mul_r by lia. fold (nbits (drop n (tk_mask k))). rewrite Hn, Z.add_comm, Z.mod_add by lia. by rewrite Z.mod_small.
Qed.

Lemma entry_of_says pipe table nn up action :
  let tb := the_table prog pipe table in
  has_table pipe table -> table_ok prog nn tb -> up_ok up -> (forall i k, tb_key tb !! i = Some k -> spec_fits prog k (up_match up !!! i) = true) ->
  up_nparams up <= Z.of_nat P4_MAX_RUNTIME_ARGS ->
  entry_says tb up action (entry_of tb (mask_update tb up) (entry_keys prog tb (mask_update tb up)) action).
Proof.
  intros tb Hh Htb Hup Hfits Hnp. split; unfold entry_of; cbn [ent_key ent_rank ent_priority ent_action ent_params]; try done.
  - destruct (tb_match_type tb) eqn:Hm; [done| |done]. destruct Htb as (Hks & Hlk & (_ & _ & Hlpm) & _). specialize (Hlpm Hm).
    pose proof (elt_lookup _ _ Hlpm) as Hk. destruct Hup as (Hlm & _).
    unfold elt at 1. rewrite (mask_update_at tb up _ _ Hk) by lia. unfold elt, mask_spec. by case_match.
  - intros i. change (up_nparams (mask_update tb up)) with (up_nparams up). change (up_params (mask_update tb up)) with (up_params up).
    rewrite list_lookup_fmap. case_decide; [rewrite lookup_seq_lt by lia; done|by rewrite lookup_seq_ge by lia].
  - unfold entry_keys. by rewrite length_imap.
  - intros i k x Hk Hx. destruct (key_at prog nn tb up Htb Hup Hfits (fun i k => has_table_width pipe table i k Hh) i k Hk) as (x' & Hx' & _ & Hv & Hm).
    rewrite Hx in Hx'. injection Hx' as <-. split; [|done]. rewrite Hv. destruct (spec_at prog nn tb up Htb Hup i k Hk) as [Hs _].
    apply mask_spec_value; [done|]. destruct Htb as (Hks & _). by destruct (Forall_lookup_1 _ _ _ _ Hks Hk) as (_ & _ & ?).
Qed.

Definition updates up (mem : bool) (ent ent' : p4_entries) (rc : Z) (pipe table action : Z) : Prop :=
  let tb := the_table prog pipe table in
  let te := table_at ent pipe table in
  (exists e, entry_says tb up action e /\
     row_step (up_type up) (row e) e (Z.of_nat (length (te_e te)) = Z.max 1 (tb_max_size tb)) (mem = false)
       (row_at te) (row_at (table_at ent' pipe table)) rc) /\
  (forall p t, 0 <= p -> 0 <= t -> ~ (p = pipe /\ t = table) -> table_at ent' p t = table_at ent p t).
Lemma update_cases mem ent up :
  store_inv ent -> up_ok up ->
  let '(rc, ent') := p4_entries_update prog mem ent up in
  store_inv ent' /\
  ((exists pipe table action, accepted up pipe table action /\ updates up mem ent ent' rc pipe table action) \/
   ((forall pipe table action, ~ accepted up pipe table action) /\ rc = - EINVAL /\ ent' = ent)).
Proof.
  intros Hs Hup. unfold p4_entries_update. destruct (Z.ltb_spec P4_UPDATE_DELETE (up_type up)) as [Ht|Ht].
  { split; [done|]. right. split; [|done]. intros ? ? ? (? & _). lia. }
  destruct ((Z.of_nat P4_MAX_TABLE_KEY <? up_nmatch up) || (Z.of_nat P4_MAX_RUNTIME_ARGS <? up_nparams up)) eqn:Hcap.
  { split; [done|]. right. split; [|done]. intros p t a (_ & Hnp & (Hf & Hn & _)). destruct (find_table_has _ _ _ Hf) as [Hh _].
    destruct (has_table_ok _ _ Hh) as (nn & _ & Hk & _). apply orb_true_iff in Hcap as [Hcap%Z.ltb_lt|Hcap%Z.ltb_lt]; lia. }
  apply orb_false_iff in Hcap as [_ Hnp%Z.ltb_ge]. destruct (resolve prog up) as [rc|[[pipe table] action]] eqn:Hr.
  { assert (rc = - EINVAL) as -> by (unfold resolve in Hr; repeat case_match; congruence). split; [done|]. right. split; [|done].
    intros p t a (_ & _ & Ha%resolve_iff); [congruence|done]. }
  destruct (resolve_spec prog up _ _ _ Hr) as (Hf & Hfits & Hprio & Hact). destruct (find_table_has _ _ _ Hf) as [Hh _].
  destruct (has_table_ok _ _ Hh) as (nn & Htb). pose proof (si_tables _ Hs _ _ Hh) as Hte. set (tb := the_table prog pipe table) in *.
  pose proof (table_update_ok nn tb up action mem _ Htb Hup Hte Hprio Ht) as Hstep. cbv zeta in Hstep. cbv zeta.
  change (elt (elt (pe_t ent) pipe) table) with (table_at ent pipe table).
  destruct (table_update mem tb _ _ action (table_at ent pipe table)) as [rc te']. fold (set_table pipe table te' ent).
  destruct Hstep as [Hinv Hstep].
  { intros Hd. destruct (Hact Hd) as (Ha & _ & Hn). eapply entry_of_ok; eauto. intros. by eapply has_table_width. }
  split; [by apply set_table_inv|]. left. exists pipe, table, action. split; [split_and!; [done|done|by apply resolve_iff]|]. split.
  - eexists. split; [eapply entry_of_says; eauto|]. rewrite set_table_at by (done || apply Hh). by rewrite decide_True.
  - intros p t Hp Ht' Hne. rewrite set_table_at by done. by rewrite decide_False.
Qed.

Lemma entries_create_inv : store_inv p4_entries_create.
Proof.
  assert (forall pipe table, has_table pipe table -> table_at p4_entries_create pipe table = inhabitant) as Hc.
  { intros pipe table [Hp Ht]. destruct (po_pipelines _ Hok) as [_ Hn]. destruct (has_pipeline pipe Hp) as (_ & _ & Hm & _).
    unfold table_at, p4_entries_create, elt. cbn [pe_t]. rewrite lookup_total_replicate_2 by lia. by rewrite lookup_total_replicate_2 by lia. }
  split; [done|by repeat constructor|]. intros pipe table Hh. rewrite Hc by done. split; cbn; [constructor|constructor|done|by left].
Qed.
(** The stores a control plane can build. *)
Inductive store_reach : p4_entries -> Prop :=
  | store_created : store_reach p4_entries_create
  | store_updated mem ent up : store_reach ent -> up_ok up -> store_reach (snd (p4_entries_update prog mem ent up)).
Lemma reach_store ent : store_reach ent -> store_inv ent.
Proof.
  induction 1 as [|mem ent up _ IH Hup]; [exact entries_create_inv|]. pose proof (update_cases mem ent up IH Hup) as H.
  destruct (p4_entries_update prog mem ent up). apply H.
Qed.

(** ** What a lookup finds *)
(** [e] at [i] is the one to take: the first that matches, or the first of the
    highest rank that does. *)
Definition ahead (kind : p4_match_kind) (i : nat) e (j : nat) e' : Prop :=
  match kind with MATCH_EXACT => (i <= j)%nat | _ => ent_rank e' < ent_rank e \/ ent_rank e' = ent_rank e /\ (i <= j)%nat end.
Definition best_of (kind : p4_match_kind) (m : p4_entry -> Prop) (es : list p4_entry) (o : option p4_entry) : Prop :=
  match o with
  | None => forall e, e ∈ es -> ~ m e
  | Some e => exists i, es !! i = Some e /\ m e /\ forall j e', es !! j = Some e' -> m e' -> ahead kind i e j e'
  end.
Lemma lookup_snoc {A} (l : list A) x j y : (l ++ [x]) !! j = Some y -> l !! j = Some y \/ j = length l /\ y = x.
Proof.
  intros Hj. destruct (decide (j < length l)%nat); [left; by rewrite lookup_app_l in Hj|]. right. rewrite lookup_app_r in Hj by lia.
  destruct (j - length l)%nat eqn:Hd; cbn in Hj; [|done]. injection Hj as ->. split; [lia|done].
Qed.
Lemma best_skip kind m es o e : best_of kind m es o -> ~ m e -> best_of kind m (es ++ [e]) o.
Proof.
  destruct o as [b|]; cbn.
  - intros (i & Hi & Hm & Hb) Hn. exists i. split_and!; [by apply lookup_app_l_Some|done|]. intros j e' [Hj|[_ ->]]%lookup_snoc He'; [eauto|done].
  - intros Hno Hn x [Hx|Hx]%elem_of_app; [eauto|]. by apply list_elem_of_singleton in Hx as ->.
Qed.
Lemma best_new kind m es e : best_of kind m es None -> m e -> best_of kind m (es ++ [e]) (Some e).
Proof.
  cbn. intros Hno Hm. exists (length es). split_and!; [by apply list_lookup_middle|done|]. intros j e' [Hj|[-> ->]]%lookup_snoc He'.
  - by destruct (Hno e' (list_elem_of_lookup_2 _ _ _ Hj)).
  - destruct kind; cbn; lia.
Qed.
Lemma best_more kind m es b e : kind <> MATCH_EXACT ->
  best_of kind m es (Some b) -> m e -> best_of kind m (es ++ [e]) (if ent_rank b <? ent_rank e then Some e else Some b).
Proof.
  intros Hk (i & Hi & Hm & Hb) He. destruct (Z.ltb_spec (ent_rank b) (ent_rank e)) as [Hlt|Hge].
  - exists (length es). split_and!; [by apply list_lookup_middle|done|]. intros j e' [Hj|[-> ->]]%lookup_snoc He'.
    + specialize (Hb j e' Hj He'). destruct kind; [done|cbn in *; lia..].
    + destruct kind; [done|cbn; lia..].
  - exists i. split_and!; [by apply lookup_app_l_Some|done|]. intros j e' [Hj|[-> ->]]%lookup_snoc He'; [eauto|].
    apply lookup_lt_Some in Hi. destruct kind; [done|cbn; lia..].
Qed.
Lemma best_exact m es e es' : best_of MATCH_EXACT m es (Some e) -> best_of MATCH_EXACT m (es ++ es') (Some e).
Proof.
  intros (i & Hi & Hm & Hb). exists i. split_and!; [by apply lookup_app_l_Some|done|]. intros j e' Hj He'.
  destruct (decide (j < length es)%nat); [rewrite lookup_app_l in Hj by done; eauto|]. apply lookup_lt_Some in Hi. cbn. lia.
Qed.
Lemma lookup_loop_best kind key es pre best :
  best_of kind (fun e => entry_matches e key = true) pre best -> (kind = MATCH_EXACT -> best = None) ->
  best_of kind (fun e => entry_matches e key = true) (pre ++ es) (lookup_loop kind key best es).
Proof.
  revert pre best. induction es as [|e es IH]; intros pre best Hb Hk; cbn [lookup_loop]; [by rewrite app_nil_r|].
  rewrite cons_middle, app_assoc. destruct (entry_matches e key) eqn:Hm; cbn [negb]; [|apply IH; [|done]; apply best_skip; congruence].
  destruct (decide (kind = MATCH_EXACT)) as [->|Hne].
  - rewrite (Hk eq_refl) in Hb. apply best_exact. by apply best_new.
  - assert (forall A (a b : A), match kind with MATCH_EXACT => a | _ => b end = b) as -> by (by destruct kind). apply IH; [|done].
    destruct best as [b|]; [|by apply best_new].
    pose proof (best_more kind _ pre b e Hne Hb Hm) as H. by destruct (ent_rank b <? ent_rank e).
Qed.

(** The number the packet's field is looked up as. *)
Definition field_number (k : p4_table_key) (v : Z) : Z :=
  let n := v mod 2 ^ 128 in if tk_has_mask k then Z.land n (be_value (tk_mask k)) else n.
Definition matches tb (vals : list Z) e : Prop :=
  forall i k v x, tb_key tb !! i = Some k -> vals !! i = Some v -> ent_key e !! i = Some x -> Z.land (field_number k v) (kmask x) = kval x.
Lemma lookup_key_at tb vals i k v :
  tb_key tb !! i = Some k -> vals !! i = Some v -> (tk_has_mask k = true -> bytes16_ok (tk_mask k)) -> value_ok v ->
  exists f, lookup_key tb vals !! i = Some f /\ bytes16_ok f /\ be_value f = field_number k (be_value v).
Proof.
  intros Hk Hv Hm Hok'. unfold lookup_key. rewrite lookup_zip_with, Hk, Hv. eexists. split; [reflexivity|].
  destruct (low_bytes_num _ Hok') as [[Hl Hb] Hn]. unfold field_number. destruct (tk_has_mask k); [|done].
  destruct (Hm eq_refl) as [Hlm Hbm]. split; [split; [rewrite land_bytes_length; congruence|by apply land_bytes_ok]|].
  rewrite be_land by (done || congruence). by rewrite Hn.
Qed.
Lemma entry_matches_num tb nn vals e :
  table_ok prog nn tb -> entry_ok prog tb e -> length vals = length (tb_key tb) -> Forall value_ok vals ->
  entry_matches e (lookup_key tb vals) = true <-> matches tb (be_value <$> vals) e.
Proof.
  intros (Hks & _) He Hl Hvs. unfold entry_matches. rewrite forallb_forall. split.
  - intros H i k n x Hk Hn Hx. apply list_lookup_fmap_Some in Hn as (v & -> & Hv). destruct (Forall_lookup_1 _ _ _ _ Hks Hk) as (_ & _ & Hm).
    destruct (lookup_key_at tb vals i k v Hk Hv Hm (Forall_lookup_1 _ _ _ _ Hvs Hv)) as (f & Hf & Hfb & <-).
    destruct (eo_keys _ _ _ He i k x Hk Hx) as [Hx' _]. apply Z.eqb_eq. rewrite <-field_matches_num by done.
    apply (H (f, x)). apply list_elem_of_In, (list_elem_of_lookup_2 _ i). by apply lookup_zip_Some.
  - intros H [f x] Hin. apply list_elem_of_In, list_elem_of_lookup in Hin as (i & Hi). apply lookup_zip_Some in Hi as [Hf Hx].
    destruct (lookup_lt_is_Some_2 (tb_key tb) i) as [k Hk]; [apply lookup_lt_Some in Hx; rewrite (eo_len _ _ _ He) in Hx; lia|].
    destruct (lookup_lt_is_Some_2 vals i) as [v Hv]; [apply lookup_lt_Some in Hk; lia|].
    destruct (Forall_lookup_1 _ _ _ _ Hks Hk) as (_ & _ & Hm).
    destruct (lookup_key_at tb vals i k v Hk Hv Hm (Forall_lookup_1 _ _ _ _ Hvs Hv)) as (f' & Hf' & Hfb & Hn). rewrite Hf in Hf'. injection Hf' as <-.
    destruct (eo_keys _ _ _ He i k x Hk Hx) as [Hx' _]. rewrite field_matches_num by done. apply Z.eqb_eq. rewrite Hn.
    apply (H i k); [done|by rewrite list_lookup_fmap, Hv|done].
Qed.

(** Off the ternary tables, two rows that match and rank alike are one. *)
Lemma same_rank_key tb nn vals e e' :
  table_ok prog nn tb -> entry_ok prog tb e -> entry_ok prog tb e' -> length vals = length (tb_key tb) -> tb_match_type tb <> MATCH_TERNARY ->
  (tb_match_type tb = MATCH_LPM -> ent_rank e' = ent_rank e) -> matches tb vals e -> matches tb vals e' -> row e' = row e.
Proof.
  intros Htb He He' Hl Hnt Hrank Hm Hm'. unfold row. rewrite (eo_prio _ _ _ He Hnt), (eo_prio _ _ _ He' Hnt). f_equal.
  apply (list_eq_same_length _ _ (length (tb_key tb))); [apply He|apply He'|]. intros i x' x Hi Hx' Hx.
  destruct (lookup_lt_is_Some_2 (tb_key tb) i Hi) as [k Hk]. destruct (lookup_lt_is_Some_2 vals i) as [v Hv]; [lia|].
  destruct (eo_keys _ _ _ He i k x Hk Hx) as ((Hv1 & Hm1 & _) & Hex & Hlpm). destruct (eo_keys _ _ _ He' i k x' Hk Hx') as ((Hv2 & Hm2 & _) & Hex' & Hlpm').
  assert (kmask x' = kmask x) as Hkm.
  { destruct Htb as (_ & _ & (Hkinds & _) & _). pose proof (Forall_lookup_1 _ _ _ _ Hkinds Hk) as Hr. cbv beta in Hr.
    destruct (tk_match_type k); [by rewrite Hex, Hex'| |destruct (tb_match_type tb); [done|done|by destruct Hnt]].
    destruct (tb_match_type tb); [done| |by destruct Hnt]. destruct (Hlpm eq_refl eq_refl) as [_ ->], (Hlpm' eq_refl eq_refl) as [_ ->].
    by rewrite Hrank. }
  assert (kval x' = kval x) as Hkv by (rewrite <-(Hm i k v x Hk Hv Hx), <-(Hm' i k v x' Hk Hv Hx'); by rewrite Hkm).
  destruct x as [a b], x' as [a' b']. destruct Hv1, Hm1, Hv2, Hm2. unfold kval, kmask in *. cbn [ek_value ek_mask] in *. f_equal; apply be_inj; done || congruence.
Qed.
Lemma lookup_is_best ent pipe table vals :
  store_inv ent -> has_table pipe table -> length vals = length (tb_key (the_table prog pipe table)) -> Forall value_ok vals ->
  let tb := the_table prog pipe table in
  best_of (tb_match_type tb) (matches tb (be_value <$> vals)) (te_e (table_at ent pipe table)) (p4_entries_lookup prog ent pipe table vals).
Proof.
  intros Hs Hh Hl Hvs tb. destruct (has_table_ok _ _ Hh) as (nn & Htb). pose proof (si_tables _ Hs _ _ Hh) as [_ Hes _ _].
  set (es := te_e (table_at ent pipe table)) in *. set (o := p4_entries_lookup prog ent pipe table vals).
  assert (forall e, e ∈ es -> entry_matches e (lookup_key tb vals) = true <-> matches tb (be_value <$> vals) e) as Hm.
  { intros e He. rewrite Forall_forall in Hes. eapply entry_matches_num; eauto. }
  assert (best_of (tb_match_type tb) (fun e => entry_matches e (lookup_key tb vals) = true) es o) as Hb.
  { subst o. unfold p4_entries_lookup. rewrite (proj2 (Z.leb_gt _ _)) by (apply Hh). apply (lookup_loop_best _ _ _ []); [|done]. by intros e ?%elem_of_nil. }
  destruct o as [e|]; cbn in *; [|intros e He Hx; apply (Hb e He); by apply Hm].
  destruct Hb as (i & Hi & He & Hb). exists i. split_and!; [done|apply Hm; [by eapply list_elem_of_lookup_2|done]|].
  intros j e' Hj He'. apply Hb; [done|]. apply Hm; [by eapply list_elem_of_lookup_2|done].
Qed.
End store.

Lemma px_store1_reach : store_reach px px_store1.
Proof. apply (store_updated px true p4_entries_create px_short); [constructor|exact px_short_ok]. Qed.
Lemma px_store_reach : store_reach px px_store.
Proof. apply (store_updated px true px_store1 px_long); [exact px_store1_reach|exact px_long_ok]. Qed.

(** C9: a control-plane update of an accepted program's tables.  One that names no
    table or no action of the program, or whose key fields or arguments do not
    fit, is refused with EINVAL and changes nothing.  Any other changes one row
    of the table it names as [row_step] says: insert, modify and delete of the
    row under its key fields' values and masks, with ENOENT, EEXIST, ENOSPC and
    ENOMEM when and only when the row is missing, present, or has no place. *)
Theorem p4_update_refines prog mem ent up :
  prog_ok prog -> store_reach prog ent -> up_ok up ->
  let '(rc, ent') := p4_entries_update prog mem ent up in
  (exists pipe table action, accepted prog up pipe table action /\ updates prog up mem ent ent' rc pipe table action) \/
  ((forall pipe table action, ~ accepted prog up pipe table action) /\ rc = - EINVAL /\ ent' = ent).
Proof.
  intros Hok Hr Hup. pose proof (update_cases prog Hok mem ent up (reach_store prog Hok ent Hr) Hup) as H.
  destruct (p4_entries_update prog mem ent up). apply H.
Qed.
Lemma p4_update_refines_witness :
  let '(rc, ent') := p4_entries_update px true px_store1 px_long in
  rc = 0 /\ length (te_e (table_at ent' 0 0)) = 2%nat /\
  ((exists pipe table action, accepted px px_long pipe table action /\ updates px px_long true px_store1 ent' rc pipe table action) \/
   ((forall pipe table action, ~ accepted px px_long pipe table action) /\ rc = - EINVAL /\ ent' = px_store1)).
Proof.
  pose proof (p4_update_refines px true px_store1 px_long px_ok px_store1_reach px_long_ok) as H.
  destruct (p4_entries_update px true px_store1 px_long) as [rc ent'] eqn:He. split_and!; [| |exact H].
  - apply (f_equal fst) in He. vm_compute in He. by cbn.
  - apply (f_equal (fun p => length (te_e (table_at (snd p) 0 0)))) in He. vm_compute in He. by cbn.
Defined.

(** C10: a lookup in a store of an accepted program finds the first of the matching
    entries of the highest rank: the longest prefix, or the highest priority;
    it misses only if no entry matches.  A field matches if its value, under
    the program's mask and then the entry's, is the entry's.  Outside ternary
    tables there is one such entry at most. *)
Theorem p4_lookup_best prog ent pipe table vals :
  prog_ok prog -> store_reach prog ent -> has_table prog pipe table ->
  length vals = length (tb_key (the_table prog pipe table)) -> Forall value_ok vals ->
  let tb := the_table prog pipe table in
  let es := te_e (table_at ent pipe table) in
  let o := p4_entries_lookup prog ent pipe table vals in
  best_of (tb_match_type tb) (matches tb (be_value <$> vals)) es o /\
  (forall e e', o = Some e -> e' ∈ es -> matches tb (be_value <$> vals) e' -> tb_match_type tb <> MATCH_TERNARY ->
   (tb_match_type tb = MATCH_LPM -> ent_rank e' = ent_rank e) -> e' = e).
Proof.
  intros Hok Hr Hh Hl Hvs tb es o. pose proof (reach_store prog Hok ent Hr) as Hs. destruct (has_table_ok prog Hok _ _ Hh) as (nn & Htb).
  pose proof (lookup_is_best prog Hok ent pipe table vals Hs Hh Hl Hvs) as Hb. split; [done|].
  pose proof (si_tables _ _ Hs _ _ Hh) as [Hnd Hes _ _]. intros e e' Ho He' Hm' Hnt Hrank.
  cbv zeta in Hb. fold tb es o in Hb. rewrite Ho in Hb. destruct Hb as (i & Hi & He & _). apply list_elem_of_lookup_2 in Hi.
  rewrite Forall_forall in Hes. assert (row e' = row e) as Hrow by (eapply same_rank_key; eauto; by rewrite length_fmap).
  pose proof (proj2 (row_at_Some _ (row e) e Hnd) (conj Hi eq_refl)) as H1. pose proof (proj2 (row_at_Some _ (row e) e' Hnd) (conj He' Hrow)) as H2. congruence.
Qed.
Lemma p4_lookup_best_witness :
  let vals := [zeros 58 ++ [2; 1; 0; 0; 0; 9]] in
  let o := p4_entries_lookup px px_store 0 0 vals in
  ent_rank <$> o = Some 16 /\ best_of MATCH_LPM (matches px_route (be_value <$> vals)) (te_e (table_at px_store 0 0)) o.
Proof.
  cbv zeta. split; [by vm_compute|].
  refine (proj1 (p4_lookup_best px px_store 0 0 [zeros 58 ++ [2; 1; 0; 0; 0; 9]] px_ok px_store_reach _ _ _)).
  - unfold has_table. by vm_compute.
  - done.
  - repeat constructor; done.
Defined.
