(* ===== verification/P4Sem.v ===== *)
(** * What a program means

    A packet is a number for each field, a flag for each header and two flags
    of the architecture's.  Actions, conditions, tables, the parser and the
    deparser are defined on these numbers, with no bytes, offsets, loop bounds
    or recursion depths; P4ExecProps shows that the executor computes them. *)
From S2P Require Export P4Store.

(** The number in [n] bits at bit [off], the most significant first. *)
Definition bnum (d : list Z) (off n : Z) : Z := be_value d / 2 ^ (nbits d - off - n) mod 2 ^ n.
(** The [n] bytes of a number. *)
Fixpoint be_bytes (n : nat) (x : Z) : list Z :=
  match n with O => [] | S n => (x / 256 ^ Z.of_nat n) mod 256 :: be_bytes n x end.

Record pkt := Pkt { k_field : p4_field_ref -> Z; k_valid : Z -> bool; k_assigned : bool; k_dropped : bool }.
#[export] Instance pkt_eta : Eta pkt := fun r => Pkt (k_field r) (k_valid r) (k_assigned r) (k_dropped r).

Section sem.
Variable prog : p4_program.
Implicit Types (s : pkt) (args : list p4_param).

Definition imm_num (imm : list Z) (len : Z) : Z := be_value (drop (16 - sig_len len) imm).
Definition opd_num s (o : p4_operand) args : Z :=
  match o with
  | OPD_FIELD r => k_field s r
  | OPD_HEXSTR n imm => imm_num imm n
  | OPD_RUNTIME i => match args !! Z.to_nat i with Some p => pval p | None => 0 end
  | OPD_EXTERN _ => 0
  end.
(** A field takes a number at its width. *)
Definition assign s (r : p4_field_ref) (v : Z) : pkt :=
  Pkt (fun r' => if decide (r' = r) then v mod 2 ^ fbits prog r else k_field s r') (k_valid s)
    (k_assigned s || bool_decide (r = pg_egress_spec prog)) (k_dropped s).

(** ** Actions *)
Section act.
Context {X : Type}.
Variable call : option (Z -> Z -> list Z -> X -> Z * X).
Definition prim_num (p : p4_primitive) args s (x : X) : Z * (pkt * X) :=
  match pr_kind p, pr_params p with
  | PRIM_DROP, _ => (0, (s <| k_dropped := true |>, x))
  | PRIM_NOP, _ => (0, (s, x))
  | PRIM_ASSIGN, [OPD_FIELD d; v] => (0, (assign s d (opd_num s v args), x))
  | PRIM_ADD, [OPD_FIELD d; b] => (0, (assign s d (k_field s d + opd_num s b args), x))
  | PRIM_ADD, [OPD_FIELD d; a; b] => (0, (assign s d (opd_num s a args + opd_num s b args), x))
  | PRIM_SUB, [OPD_FIELD d; b] => (0, (assign s d (k_field s d - opd_num s b args), x))
  | PRIM_SUB, [OPD_FIELD d; a; b] => (0, (assign s d (opd_num s a args - opd_num s b args), x))
  | PRIM_EXTERN, OPD_EXTERN i :: os =>
      match call with
      | None => (- EPERM, (s, x))
      | Some f => let '(rc, x) := f (xi_type (elt (pg_externs prog) i)) (pr_method p) ((fun o => opd_num s o args) <$> os) x in (rc, (s, x))
      end
  | _, _ => (- ENOSYS, (s, x))
  end.
Fixpoint prims_num (ps : list p4_primitive) args s (x : X) : Z * (pkt * X) :=
  match ps with
  | [] => (0, (s, x))
  | p :: ps => let '(rc, (s, x)) := prim_num p args s x in if rc =? 0 then prims_num ps args s x else (rc, (s, x))
  end.
Definition act_num (a : option (Z * list p4_param)) s (x : X) : Z * (pkt * X) :=
  match a with None => (0, (s, x)) | Some (i, args) => prims_num (ac_primitives (elt (pg_actions prog) i)) args s x end.
End act.

(** ** Conditions *)
Definition op_num (op : p4_expr_op) (l r : Z) : bool :=
  match op with
  | EXPR_VALID => negb (r =? 0)
  | EXPR_NOT => r =? 0
  | EXPR_EQ => l =? r
  | EXPR_NE => negb (l =? r)
  | EXPR_LT => l <? r
  | EXPR_LE => l <=? r
  | EXPR_GT => r <? l
  | EXPR_GE => r <=? l
  | EXPR_AND => negb (l =? 0) && negb (r =? 0)
  | EXPR_OR => negb (l =? 0) || negb (r =? 0)
  end.
Inductive means s (c : list p4_expr_node) : Z -> bool -> Prop :=
  | Means i n l r : 0 <= i -> c !! Z.to_nat i = Some n -> side_means s c (en_left n) l -> side_means s c (en_right n) r ->
      means s c i (op_num (en_op n) l r)
with side_means s (c : list p4_expr_node) : p4_expr_operand -> Z -> Prop :=
  | Side_means_none : side_means s c EO_NONE 0
  | Side_means_expr e b : means s c e b -> side_means s c (EO_EXPR e) (Z.b2z b)
  | Side_means_field r : side_means s c (EO_FIELD r) (k_field s r)
  | Side_means_hexstr n imm : side_means s c (EO_HEXSTR n imm) (imm_num imm n)
  | Side_means_header h : side_means s c (EO_HEADER h) (Z.b2z (k_valid s h))
  | Side_means_bool b : side_means s c (EO_BOOL b) (Z.b2z b).

(** ** Pipelines *)
(** What a table does with what it found: the action to run, with its
    arguments, and the node that comes next. *)
Definition chosen (t : p4_table) (o : option p4_entry) : option (Z * list p4_param) * Z :=
  match o with
  | Some e =>
      (Some (ent_action e, ent_params e),
       match list_find (fun a => a = ent_action e) (tb_actions t) with Some (i, _) => tb_next t !!! i | None => P4_IDX_NONE end)
  | None =>
      (if decide (tb_default_action t = P4_IDX_NONE) then None
       else Some (tb_default_action t, (fun d => P4Param d.1 d.2) <$> tb_default_data t), tb_base_default_next t)
  end.
Definition finds (ent : p4_entries) (pipe i : Z) (t : p4_table) s (o : option p4_entry) : Prop :=
  best_of (tb_match_type t) (matches t ((fun k => k_field s (tk_field k)) <$> tb_key t)) (te_e (table_at ent pipe i)) o.
Inductive runs {X} (call : option (Z -> Z -> list Z -> X -> Z * X)) (ent : p4_entries) (pipe : Z) (pl : p4_pipeline) :
    Z -> pkt -> X -> Z -> pkt -> X -> Prop :=
  | Runs_end s x : runs call ent pipe pl P4_IDX_NONE s x 0 s x
  | Runs_cond n i b s x rc s' x' : n <> P4_IDX_NONE -> elt (pl_nodes pl) n = NODE_CONDITIONAL i ->
      let c := elt (pl_conditionals pl) i in
      means s (cn_expr c) 0 b -> runs call ent pipe pl (if b then cn_true_next c else cn_false_next c) s x rc s' x' ->
      runs call ent pipe pl n s x rc s' x'
  | Runs_table n i o s x s1 x1 rc s' x' : n <> P4_IDX_NONE -> elt (pl_nodes pl) n = NODE_TABLE i ->
      let t := elt (pl_tables pl) i in
      finds ent pipe i t s o -> act_num call (fst (chosen t o)) s x = (0, (s1, x1)) ->
      runs call ent pipe pl (snd (chosen t o)) s1 x1 rc s' x' -> runs call ent pipe pl n s x rc s' x'
  | Runs_error n i o s x rc s' x' : n <> P4_IDX_NONE -> elt (pl_nodes pl) n = NODE_TABLE i ->
      let t := elt (pl_tables pl) i in
      finds ent pipe i t s o -> act_num call (fst (chosen t o)) s x = (rc, (s', x')) -> rc <> 0 ->
      runs call ent pipe pl n s x rc s' x'.
Definition pipe_of (i : Z) : p4_pipeline := elt (pg_pipelines prog) i.
Definition runs_pipe {X} (call : option (Z -> Z -> list Z -> X -> Z * X)) (ent : p4_entries) (i : Z) s (x : X) (rc : Z) s' (x' : X) : Prop :=
  runs call ent i (pipe_of i) (pl_init_node (pipe_of i)) s x rc s' x'.

(** ** The parser *)
Definition take_header (frame : list Z) (pos h : Z) s : pkt :=
  s <| k_field := fun r => if decide (fr_header r = h) then bnum frame (8 * pos + fd_offset_bits (field_of prog r)) (fbits prog r) else k_field s r |>
    <| k_valid := fun h' => if decide (h' = h) then true else k_valid s h' |>.
Fixpoint take_headers (frame : list Z) (hs : list Z) s (pos : Z) : option (pkt * Z) :=
  match hs with
  | [] => Some (s, pos)
  | h :: hs =>
      if Z.of_nat (length frame) <? pos + hdr_bytes prog h then None else take_headers frame hs (take_header frame pos h s) (pos + hdr_bytes prog h)
  end.
(** The select fields, side by side, each in whole bytes. *)
Definition key_num s (refs : list p4_field_ref) : Z :=
  foldl (fun k r => k * 2 ^ (8 * ((fbits prog r + 7) / 8)) + k_field s r) 0 refs.
Definition arm_takes (key n : Z) (t : p4_transition) : bool :=
  let low b := be_value (drop (16 - Z.to_nat n) b) in
  tr_is_default t ||
  (if tr_has_mask t then Z.land key (low (tr_mask t)) =? Z.land (low (tr_value t)) (low (tr_mask t)) else key =? low (tr_value t)).
Definition next_state (st : p4_parse_state) s : option Z :=
  match ps_key st with
  | [] => Some (match ps_transitions st with [] => P4_IDX_NONE | t :: _ => tr_next_state t end)
  | refs => (fun p => tr_next_state p.2) <$> list_find (fun t => arm_takes (key_num s refs) (ps_key_bytes st) t = true) (ps_transitions st)
  end.
(** At most [steps] states. *)
Fixpoint parse_num (steps : nat) (frame : list Z) (state : Z) s (pos : Z) : Z + (pkt * Z) :=
  if decide (state = P4_IDX_NONE) then inr (s, pos)
  else
    match steps with
    | O => inl (- ELOOP)
    | S steps =>
        let st := elt (pg_parse_states prog) state in
        match take_headers frame (ps_ops st) s pos with
        | None => inl (- EMSGSIZE)
        | Some (s, pos) => match next_state st s with None => inl (- EBADMSG) | Some next => parse_num steps frame next s pos end
        end
    end.

(** ** The deparser *)
(** The fields of a header side by side. *)
Definition header_num s (h : Z) : Z :=
  foldl (fun n i => n * 2 ^ fbits prog (FieldRef h i) + k_field s (FieldRef h i)) 0 (seqZ 0 (Z.of_nat (length (ht_fields (type_of prog h))))).
Definition image s (h : Z) : list Z :=
  be_bytes (Z.to_nat (hdr_bytes prog h)) (header_num s h * 2 ^ (8 * hdr_bytes prog h - ht_total_bits (type_of prog h))).
Definition emitted s (frame : list Z) (pos : Z) : list Z :=
  mjoin (image s <$> filter (fun h => k_valid s h = true) (pg_deparse_order prog)) ++ drop (Z.to_nat pos) frame.

(** ** Packets *)
Definition clear : pkt :=
  Pkt (fun _ => 0) (fun h => match pg_headers prog !! Z.to_nat h with Some hd => hd_metadata hd | None => false end) false false.
Definition assign_arch s (r : p4_field_ref) (v : Z) : pkt := if decide (r = no_ref) then s else assign s r v.
Definition to_egress s (port : Z) : pkt :=
  (assign_arch (assign_arch s (pg_egress_port prog) port) (pg_egress_spec prog) 0) <| k_assigned := false |>.
Definition port_of s : Z := k_field s (pg_egress_spec prog).
Definition drop_port : Z := 2 ^ 9 - 1.
Definition arrives (frame : list Z) (port : Z) : Z + (pkt * Z) :=
  parse_num (length (pg_parse_states prog) * 4 + 16) frame (pg_init_state prog) (assign_arch clear (pg_ingress_port prog) port) 0.
(** What becomes of a frame: where ingress sent it, if it chose, and the frame
    it became. *)
Inductive fate := Failed (rc : Z) | Dropped | Sent (port : option Z) (out : list Z).
Definition drops s : Prop := k_dropped s = true \/ port_of s = drop_port.
Definition runs_in (ent : p4_entries) (i : Z) s (rc : Z) s' : Prop := runs_pipe (X := unit) None ent i s tt rc s' tt.
(** [leaves choice rc s]: how egress ends. *)
Inductive leaves (choice : option Z) : Z -> pkt -> list Z -> Z -> Z -> fate -> Prop :=
  | Leaves_error rc s frame pos cap : rc <> 0 -> leaves choice rc s frame pos cap (Failed rc)
  | Leaves_drop s frame pos cap : drops s -> leaves choice 0 s frame pos cap Dropped
  | Leaves_long s frame pos cap : ~ drops s -> cap < Z.of_nat (length (emitted s frame pos)) ->
      leaves choice 0 s frame pos cap (Failed (- EMSGSIZE))
  | Leaves_sent s frame pos cap : ~ drops s -> Z.of_nat (length (emitted s frame pos)) <= cap ->
      leaves choice 0 s frame pos cap (Sent choice (emitted s frame pos)).
Inductive switches (ent : p4_entries) (in_port default_port : Z) (frame : list Z) (out_cap : Z) : fate -> Prop :=
  | Switches_empty : frame = [] -> switches ent in_port default_port frame out_cap (Failed (- EINVAL))
  | Switches_unparsed rc : frame <> [] -> arrives frame in_port = inl rc -> switches ent in_port default_port frame out_cap (Failed rc)
  | Switches_ingress_error s pos rc s1 : frame <> [] -> arrives frame in_port = inr (s, pos) ->
      runs_in ent P4_PIPE_INGRESS s rc s1 -> rc <> 0 -> switches ent in_port default_port frame out_cap (Failed rc)
  | Switches_ingress_drop s pos s1 : frame <> [] -> arrives frame in_port = inr (s, pos) ->
      runs_in ent P4_PIPE_INGRESS s 0 s1 -> drops s1 -> switches ent in_port default_port frame out_cap Dropped
  | Switches_egress s pos s1 rc s2 f : frame <> [] -> arrives frame in_port = inr (s, pos) ->
      runs_in ent P4_PIPE_INGRESS s 0 s1 -> ~ drops s1 ->
      runs_in ent P4_PIPE_EGRESS (to_egress s1 (if k_assigned s1 then port_of s1 else default_port)) rc s2 ->
      leaves (if k_assigned s1 then Some (port_of s1) else None) rc s2 frame pos out_cap f ->
      switches ent in_port default_port frame out_cap f.

(** What becomes of an RDMA operation: the error or 0, whether it is dropped,
    and the externs' state. *)
Definition op_port : Z := 2.
Definition operation (opcode qp_num len imm_data rkey : Z) : pkt :=
  let s := assign_arch clear (pg_ingress_port prog) op_port in
  let s := assign_arch s (pg_rdma_opcode prog) opcode in
  let s := assign_arch s (pg_rdma_qp_num prog) qp_num in
  let s := assign_arch s (pg_rdma_length prog) len in
  let s := assign_arch s (pg_rdma_imm_data prog) imm_data in
  assign_arch s (pg_rdma_rkey prog) rkey.
Inductive operates {X} (call : option (Z -> Z -> list Z -> X -> Z * X)) (ent : p4_entries) s (x : X) : Z -> bool -> X -> Prop :=
  | Operates_ingress rc s1 x1 : runs_pipe call ent P4_PIPE_INGRESS s x rc s1 x1 -> rc <> 0 \/ k_dropped s1 = true ->
      operates call ent s x rc (k_dropped s1) x1
  | Operates_egress s1 x1 rc s2 x2 : runs_pipe call ent P4_PIPE_INGRESS s x 0 s1 x1 -> k_dropped s1 = false ->
      runs_pipe call ent P4_PIPE_EGRESS (to_egress s1 (port_of s1)) x1 rc s2 x2 -> operates call ent s x rc (k_dropped s2) x2.
End sem.
