(* ===== verification/P4ExecProps.v ===== *)
(** * The executor computes the program's meaning

    [sim phv dropped s] relates a packet header vector and the drop flag to a
    packet of P4Sem.  Every part of the executor keeps it. *)
From S2P Require Export P4Sem P4Exec.

(** * Numbers in bit ranges

    The lemmas on [bnum] and [be_bytes] that relate the bytes of a packet to
    the numbers of its fields. *)
Lemma bnum_bits d off n k :
  bytes_ok d -> 0 <= off -> 0 <= n -> off + n <= nbits d -> 0 <= k ->
  Z.testbit (bnum d off n) k = bool_decide (k < n) && bit_of d (off + (n - 1 - k)).
Proof.
  intros Hd Ho Hn Hle Hk. unfold bnum. case_bool_decide; [|by rewrite Z.mod_pow2_bits_high by lia].
  rewrite Z.mod_pow2_bits_low, Z.div_pow2_bits by lia. rewrite be_testbit by (done || lia).
  rewrite bool_decide_eq_true_2 by lia. cbn. f_equal. lia.
Qed.
Lemma bnum_bound d off n : 0 <= n -> 0 <= bnum d off n < 2 ^ n.
Proof. intros Hn. apply Z.mod_pos_bound. by apply Z.pow_pos_nonneg. Qed.
Lemma bnum_ext d off d' off' n :
  bytes_ok d -> bytes_ok d' -> 0 <= off -> 0 <= off' -> 0 <= n -> off + n <= nbits d -> off' + n <= nbits d' ->
  (forall i, 0 <= i < n -> bit_of d (off + i) = bit_of d' (off' + i)) -> bnum d off n = bnum d' off' n.
Proof.
  intros Hd Hd' Ho Ho' Hn Hl Hl' H. apply Z.bits_inj'. intros k Hk. rewrite !bnum_bits by done. case_bool_decide; [|done]. cbn. apply H. lia.
Qed.
Lemma get_bnum d off n : bytes_ok d -> 0 <= off -> 0 <= n <= 512 -> off + n <= nbits d -> be_value (bits_get d off n) = bnum d off n.
Proof.
  intros Hd Ho Hn Hl. apply Z.bits_inj'. intros k Hk. rewrite get_testbit, bnum_bits by (done || lia). done.
Qed.
Lemma bnum_split d off a b :
  0 <= a -> 0 <= b -> off + a + b <= nbits d -> bnum d off (a + b) = bnum d off a * 2 ^ b + bnum d (off + a) b.
Proof.
  intros Ha Hb Hl. unfold bnum. replace (nbits d - (off + a) - b) with (nbits d - off - (a + b)) by lia. set (m := nbits d - off - (a + b)).
  replace (nbits d - off - a) with (m + b) by lia. assert (0 < 2 ^ m /\ 0 < 2 ^ b /\ 0 < 2 ^ a) as (? & ? & ?) by (split_and!; apply Z.pow_pos_nonneg; lia).
  rewrite (Z.pow_add_r 2 m b), <-Z.div_div by lia. rewrite (Z.pow_add_r 2 a b), (Z.mul_comm (2 ^ a)), Z.rem_mul_r by lia. lia.
Qed.
Lemma bit_of_slice d o n i : 0 <= i < 8 * Z.of_nat n -> bit_of (bslice d o n) i = bit_of d (8 * Z.of_nat o + i).
Proof.
  intros Hi. unfold bit_of, bslice. rewrite lookup_total_take_lt, lookup_total_drop.
  - rewrite (Z.mul_comm 8), Z.add_comm, Z.mod_add, Z.div_add by lia. f_equal. f_equal. pose proof (Z.div_pos i 8). lia.
  - pose proof (Z.div_pos i 8). pose proof (Z.div_lt_upper_bound i 8 (Z.of_nat n)). lia.
Qed.
Lemma slice_bnum d o n : bytes_ok d -> (o + n <= length d)%nat -> be_value (bslice d o n) = bnum d (8 * Z.of_nat o) (8 * Z.of_nat n).
Proof.
  intros Hd Hl. assert (length (bslice d o n) = n) as Hn by (unfold bslice; rewrite length_take, length_drop; lia).
  assert (nbits (bslice d o n) = 8 * Z.of_nat n) as Hb by (unfold nbits; lia). apply Z.bits_inj'. intros k Hk.
  rewrite be_testbit, bnum_bits by (try apply bslice_ok; unfold nbits; done || lia). rewrite Hb. case_bool_decide; [|done]. cbn.
  rewrite bit_of_slice by lia. f_equal; lia.
Qed.
Lemma bput_length d o src : length (bput d o src) = length d.
Proof. apply length_inserts. Qed.
Lemma bit_of_bput d o src i :
  (o + length src <= length d)%nat -> 0 <= i ->
  bit_of (bput d o src) i = if decide (8 * Z.of_nat o <= i < 8 * Z.of_nat o + nbits src) then bit_of src (i - 8 * Z.of_nat o) else bit_of d i.
Proof.
  intros Hl Hi. unfold bit_of, nbits. replace ((i - 8 * Z.of_nat o)) with (i + (- Z.of_nat o) * 8) by lia. rewrite Z.mod_add, Z.div_add by lia.
  assert (bput d o src !!! Z.to_nat (i / 8) =
    if decide (8 * Z.of_nat o <= i < 8 * Z.of_nat o + 8 * Z.of_nat (length src)) then src !!! Z.to_nat (i / 8 + - Z.of_nat o) else d !!! Z.to_nat (i / 8)) as ->.
  2: { by case_decide. }
  unfold bput. pose proof (Z.div_mod i 8 ltac:(lia)). pose proof (mod8 i). case_decide.
  - rewrite list_lookup_total_inserts by lia. f_equal. lia.
  - destruct (decide (i / 8 < Z.of_nat o)); [by rewrite list_lookup_total_inserts_lt by lia|by rewrite list_lookup_total_inserts_ge by lia].
Qed.

(** ** The bytes of a number *)
Lemma be_bytes_length n x : length (be_bytes n x) = n.
Proof. induction n as [|n IH]; cbn; congruence. Qed.
Lemma be_bytes_mod n x y : x mod 256 ^ Z.of_nat n = y mod 256 ^ Z.of_nat n -> be_bytes n x = be_bytes n y.
Proof.
  revert x y. induction n as [|n IH]; intros x y H; [done|]. cbn [be_bytes]. rewrite Nat2Z.inj_succ, Z.pow_succ_r in H by lia.
  assert (0 < 256 ^ Z.of_nat n) as Hp by (apply Z.pow_pos_nonneg; lia). rewrite (Z.mul_comm 256), !Z.rem_mul_r in H by lia.
  pose proof (Z.mod_pos_bound x (256 ^ Z.of_nat n) Hp) as Hx. pose proof (Z.mod_pos_bound y (256 ^ Z.of_nat n) Hp) as Hy.
  rewrite (Z.add_comm (x mod _)), (Z.add_comm (y mod _)) in H. apply Z.div_mod_unique in H as [H1 H2]; [|lia..]. f_equal; auto.
Qed.
Lemma be_bytes_value v : bytes_ok v -> be_bytes (length v) (be_value v) = v.
Proof.
  induction 1 as [|x v Hx Hv IH]; [done|]. cbn [length be_bytes]. rewrite be_cons. pose proof (be_bound v Hv) as Hb.
  assert (2 ^ nbits v = 256 ^ Z.of_nat (length v)) as Hp by (unfold nbits; by rewrite Z.pow_mul_r by lia). rewrite Hp in *. unfold byte_ok, fits in Hx. f_equal.
  - rewrite Z.div_add_l, Z.div_small by lia. rewrite Z.mod_small; lia.
  - etrans; [apply be_bytes_mod|exact IH]. by rewrite Z.add_comm, Z.mod_add by lia.
Qed.

Section sim.
Variable prog : p4_program.
Hypothesis Hok : prog_ok prog.
Implicit Types (phv : p4_phv) (s : pkt) (r : p4_field_ref) (args : list p4_param).

(** The unused bits of a header's last byte stay zero. *)
Record phv_ok phv : Prop := {
  vo_len : Z.of_nat (length (ph_data phv)) = pg_phv_bytes prog;
  vo_bytes : bytes_ok (ph_data phv);
  vo_valid : length (ph_valid phv) = P4_MAX_HEADERS;
  vo_pad h i : hdr_idx_ok prog h -> ht_total_bits (type_of prog h) <= i < 8 * hdr_bytes prog h ->
    bit_of (ph_data phv) (8 * hd_phv_offset (elt (pg_headers prog) h) + i) = false }.
Record sim phv (dropped : bool) s : Prop := {
  sm_ok : phv_ok phv;
  sm_field r : ref_ok prog r -> be_value (phv_get prog phv r) = k_field s r;
  sm_valid h : hdr_idx_ok prog h -> is_valid phv h = k_valid s h;
  sm_assigned : ph_egress_assigned phv = k_assigned s;
  sm_dropped : dropped = k_dropped s }.

Lemma field_fits phv r : phv_ok phv -> ref_ok prog r ->
  0 <= phv_bit prog r /\ 0 <= fd_bits (field_of prog r) <= 512 /\ phv_bit prog r + fd_bits (field_of prog r) <= nbits (ph_data phv) /\ 1 <= fd_bits (field_of prog r).
Proof.
  intros Hp Hr. destruct (ref_in_phv prog Hok r Hr) as (H1 & H2 & H3). unfold nbits. pose proof (vo_len _ Hp). unfold fbits, P4_MAX_FIELD_BITS in *. lia.
Qed.
Lemma phv_get_ok phv r : value_ok (phv_get prog phv r).
Proof. apply bits_get_ok. Qed.
Lemma field_range phv d s r : sim phv d s -> ref_ok prog r -> 0 <= k_field s r < 2 ^ fbits prog r.
Proof.
  intros Hs Hr. rewrite <-(sm_field _ _ _ Hs r Hr). destruct (field_fits phv r (sm_ok _ _ _ Hs) Hr) as (? & ? & _). by apply get_bound.
Qed.

Lemma phv_set_parts phv r v :
  ph_data (phv_set prog phv r v) = bits_set (ph_data phv) (phv_bit prog r) (fd_bits (field_of prog r)) v /\
  ph_valid (phv_set prog phv r v) = ph_valid phv.
Proof. unfold phv_set. by case_match. Qed.
Lemma phv_set_ok phv r v : phv_ok phv -> ref_ok prog r -> phv_ok (phv_set prog phv r v).
Proof.
  intros Hp Hr. destruct (field_fits phv r Hp Hr) as (H1 & H2 & H3 & _). destruct (phv_set_parts phv r v) as [Hd Hv]. destruct Hp as [Hl Hb Hvl Hpad].
  split; rewrite ?Hd, ?Hv; [by rewrite bits_set_length|by apply bits_set_ok|done|]. intros h i Hh Hi.
  destruct (header_at prog Hok h Hh) as [Ho Hend]. pose proof (type_total_nonneg _ (type_at prog Hok h Hh)).
  rewrite bits_set_spec by (done || lia). rewrite decide_False; [by apply Hpad|]. destruct (ref_in_header prog Hok r Hr) as (Hr1 & Hr2 & Hr3).
  unfold phv_bit, fbits in *. destruct (Z.lt_trichotomy (fr_header r) h) as [Hlt|[Heq|Hlt]].
  - pose proof (headers_apart prog Hok _ _ (proj1 Hr) Hh Hlt). lia.
  - subst h. destruct (type_at prog Hok _ Hh) as [Hfs _]. destruct (fields_at _ _ _ _ _ Hfs (elt_lookup _ _ (proj2 Hr))). unfold field_of in *. lia.
  - pose proof (headers_apart prog Hok _ _ Hh (proj1 Hr) Hlt). lia.
Qed.
Lemma ref_eqb r r' : (fr_header r =? fr_header r') && (fr_field r =? fr_field r') = bool_decide (r = r').
Proof.
  destruct r, r'. cbn. case_bool_decide as H; [injection H as -> ->; by rewrite !Z.eqb_refl|].
  apply andb_false_iff. destruct (Z.eqb_spec fr_header fr_header0), (Z.eqb_spec fr_field fr_field0); auto. congruence.
Qed.
Lemma phv_set_sim phv d s r v :
  sim phv d s -> ref_ok prog r -> value_ok v -> sim (phv_set prog phv r v) d (assign prog s r (be_value v)).
Proof.
  intros Hs Hr Hv. pose proof (sm_ok _ _ _ Hs) as Hp. destruct (field_fits phv r Hp Hr) as (H1 & H2 & H3 & _).
  assert (forall r', phv_get prog (phv_set prog phv r v) r' =
    bits_get (bits_set (ph_data phv) (phv_bit prog r) (fd_bits (field_of prog r)) v) (phv_bit prog r') (fd_bits (field_of prog r'))) as Hg.
  { intros r'. unfold phv_get, phv_set. by case_match. }
  split; [by apply phv_set_ok| | | |by apply Hs].
  - intros r' Hr'. rewrite Hg. cbn. destruct (decide (r' = r)) as [->|Hne]; [by rewrite get_set|].
    destruct (field_fits phv r' Hp Hr') as (H1' & H2' & H3' & _). rewrite get_set_other; [by apply Hs|done..|].
    destruct (refs_apart prog Hok r r' Hr Hr'); [congruence|right; done|left; done].
  - intros h Hh. unfold phv_set, is_valid. case_match; by apply Hs.
  - unfold phv_set. rewrite ref_eqb. cbn. case_bool_decide; cbn; [by rewrite orb_true_r|]. rewrite orb_false_r. apply Hs.
Qed.

(** ** Operands *)
Lemma imm_low imm len : imm_value imm P4_MAX_IMM_BYTES len = low_copy imm len.
Proof.
  unfold imm_value, low_copy, sig_len. change P4_MATCH_BYTES with P4_MAX_IMM_BYTES. destruct (Z.ltb_spec (Z.of_nat P4_MAX_IMM_BYTES) len); [done|].
  rewrite (proj2 (Nat.ltb_ge _ _)); [done|]. unfold P4_MAX_IMM_BYTES, P4_VALUE_BYTES in *. lia.
Qed.
Lemma imm_value_num imm len : bytes16_ok imm -> 0 <= len ->
  value_ok (imm_value imm P4_MAX_IMM_BYTES len) /\ be_value (imm_value imm P4_MAX_IMM_BYTES len) = imm_num imm len.
Proof. intros Hi Hl. rewrite imm_low. destruct (low_copy_num imm len Hi Hl) as (? & ? & _). done. Qed.
Lemma value_zero_sim : value_ok value_zero /\ be_value value_zero = 0.
Proof. split; [apply value_zero_ok|reflexivity]. Qed.
Lemma operand_num phv d s o args :
  sim phv d s -> operand_ok prog (length args) o -> Forall param_ok args ->
  value_ok (operand_value prog phv o args) /\ be_value (operand_value prog phv o args) = opd_num s o args.
Proof.
  intros Hs Ho Ha. destruct o as [r|n imm|i|i]; cbn [operand_value opd_num operand_ok] in *.
  - split; [apply phv_get_ok|by apply Hs].
  - apply imm_value_num; [apply Ho|lia].
  - rewrite (proj2 (Z.ltb_lt _ _)) by lia. rewrite (elt_lookup _ _ Ho). destruct (elt_Forall _ _ _ Ha Ho) as [Hb Hl]. by apply imm_value_num.
  - apply value_zero_sim.
Qed.

(** ** Actions *)
(** An extern, as a function of its arguments' numbers. *)
Definition num_ops {X} (ops : option (Z -> Z -> list (list Z) -> X -> Z * X)) : option (Z -> Z -> list Z -> X -> Z * X) :=
  match ops with None => None | Some f => Some (fun type method (ns : list Z) x => f type method (be_bytes P4_VALUE_BYTES <$> ns) x) end.
Lemma value_bytes v : value_ok v -> be_bytes P4_VALUE_BYTES (be_value v) = v.
Proof. intros [Hl Hb]. rewrite <-Hl. by apply be_bytes_value. Qed.

Section act.
Context {X : Type}.
Variable ops : option (Z -> Z -> list (list Z) -> X -> Z * X).
Implicit Types x : X.
Definition simulates (r : Z * (p4_phv * bool * X)) (r' : Z * (pkt * X)) : Prop :=
  let '(rc, (phv, d, x)) := r in let '(rc', (s, x')) := r' in rc = rc' /\ x = x' /\ sim phv d s.
Lemma assign_sim phv d s r v n x :
  sim phv d s -> ref_ok prog r -> value_ok v -> n mod 2 ^ fbits prog r = be_value v mod 2 ^ fbits prog r ->
  simulates (0, (phv_set prog phv r v, d, x)) (0, (assign prog s r n, x)).
Proof.
  intros Hs Hr Hv Hn. split_and!; [done..|]. replace (assign prog s r n) with (assign prog s r (be_value v)); [by apply phv_set_sim|].
  unfold assign. by rewrite Hn.
Qed.
Lemma wide_mod r a : ref_ok prog r -> (a mod 2 ^ 512) mod 2 ^ fbits prog r = a mod 2 ^ fbits prog r.
Proof.
  intros Hr. destruct (ref_in_phv prog Hok r Hr) as (_ & _ & H). unfold P4_MAX_FIELD_BITS in H.
  replace 512 with (fbits prog r + (512 - fbits prog r)) by lia. rewrite Z.pow_add_r by lia.
  rewrite Z.rem_mul_r by (try apply Z.pow_nonzero; try apply Z.pow_pos_nonneg; lia). by rewrite (Z.mul_comm (2 ^ fbits prog r)), Z.mod_add, Z.mod_mod by (apply Z.pow_nonzero; lia).
Qed.
Lemma arith_sim kind method params args phv d s x :
  sim phv d s -> Forall (operand_ok prog (length args)) params -> (kind = PRIM_ADD \/ kind = PRIM_SUB) ->
  (exists o os, params = o :: os /\ is_field o = true /\ Forall (fun o => is_extern o = false) os /\ (length os = 1 \/ length os = 2)%nat) ->
  (forall o, o ∈ params -> value_ok (operand_value prog phv o args) /\ be_value (operand_value prog phv o args) = opd_num s o args) ->
  simulates (run_primitive prog ops (P4Primitive kind method params) args phv d x)
    (prim_num prog (num_ops ops) (P4Primitive kind method params) args s x).
Proof.
  intros Hs Hos Hk (o & os & -> & Hf & _ & Hl) Hnum. destruct o as [r| | |]; try done. apply Forall_cons in Hos as [Hr _].
  assert (forall a b, a ∈ OPD_FIELD r :: os -> b ∈ OPD_FIELD r :: os ->
    simulates (0, (phv_set prog phv r (value_add (operand_value prog phv a args) (operand_value prog phv b args)), d, x))
      (0, (assign prog s r (opd_num s a args + opd_num s b args), x)) /\
    simulates (0, (phv_set prog phv r (value_sub (operand_value prog phv a args) (operand_value prog phv b args)), d, x))
      (0, (assign prog s r (opd_num s a args - opd_num s b args), x))) as H.
  { intros a b Ha Hb. destruct (Hnum a Ha) as [Hva Hna], (Hnum b Hb) as [Hvb Hnb].
    destruct (value_add_spec _ _ Hva Hvb) as [Hoa Hea], (value_sub_spec _ _ Hva Hvb) as [Hob Heb].
    split; apply assign_sim; try done; by rewrite ?Hea, ?Heb, wide_mod, Hna, Hnb. }
  destruct os as [|a [|b [|]]]; cbn in Hl; try lia.
  - destruct (H (OPD_FIELD r) a) as [H1 H2]; [by left|by right; left|]. by destruct Hk as [-> | ->].
  - destruct (H a b) as [H1 H2]; [by right; left|by right; right; left|]. by destruct Hk as [-> | ->].
Qed.
Lemma prim_sim p args phv d s x :
  sim phv d s -> prim_ok prog (length args) p -> Forall param_ok args ->
  simulates (run_primitive prog ops p args phv d x) (prim_num prog (num_ops ops) p args s x).
Proof.
  intros Hs [Hos Hp] Ha. assert (forall o, o ∈ pr_params p ->
    value_ok (operand_value prog phv o args) /\ be_value (operand_value prog phv o args) = opd_num s o args) as Hnum.
  { intros o Ho. rewrite Forall_forall in Hos. by apply (operand_num phv d); auto. }
  unfold run_primitive, prim_num. destruct p as [kind method params]. cbn [pr_kind pr_params pr_method] in *. destruct kind.
  - destruct Hp as (o & v & -> & Hf & _). destruct o as [r| | |]; try done. apply Forall_cons in Hos as [Hr _].
    destruct (Hnum v) as [Hv Hn]; [by right; left|]. apply assign_sim; try done. by rewrite <-Hn.
  - apply (arith_sim PRIM_ADD method params); auto.
  - apply (arith_sim PRIM_SUB method params); auto.
  - split_and!; [done..|]. destruct Hs. by split.
  - by split_and!.
  - destruct Hp as (i & os & -> & _). unfold num_ops. destruct ops as [f|]; [|by split_and!]. cbn [tail lookup_total opd_inst].
    assert (be_bytes P4_VALUE_BYTES <$> ((fun o => opd_num s o args) <$> os) = (fun o => operand_value prog phv o args) <$> os) as Hargs.
    { rewrite <-list_fmap_compose. apply list_fmap_ext. intros j o Ho. apply list_elem_of_lookup_2 in Ho. destruct (Hnum o) as [Hv Hn]; [by right|].
      unfold compose. rewrite <-Hn. by apply value_bytes. }
    cbv beta iota zeta. rewrite Hargs. destruct (f _ _ _ x). by split_and!.
Qed.
Lemma prims_sim ps args phv d s x :
  sim phv d s -> Forall (prim_ok prog (length args)) ps -> Forall param_ok args ->
  simulates (run_primitives prog ops ps args phv d x) (prims_num prog (num_ops ops) ps args s x).
Proof.
  intros Hs Hps Ha. revert phv d s x Hs. induction Hps as [|p ps Hp _ IH]; intros phv d s x Hs; cbn [run_primitives prims_num]; [done|].
  pose proof (prim_sim p args phv d s x Hs Hp Ha) as H.
  destruct (run_primitive prog ops p args phv d x) as [rc [[phv' d'] x']], (prim_num prog (num_ops ops) p args s x) as [rc' [s' x'']].
  destruct H as (<- & <- & Hs'). destruct (Z.eqb_spec rc 0) as [->|]; cbn [negb]; [by apply IH|done].
Qed.
End act.

(** ** Conditions *)
Lemma bit_value (b : bool) : value_ok (value_set_u32 (if b then 1 else 0)) /\ be_value (value_set_u32 (if b then 1 else 0)) = Z.b2z b.
Proof. by destruct b; split; try apply (bool_decide_unpack _); vm_compute. Qed.
Lemma eval_sim n phv d s c i depth :
  sim phv d s -> expr_ok prog c i depth -> P4_MAX_EXPR_DEPTH + 1 - depth < Z.of_nat n -> means s c i (eval_node prog n phv c i depth).
Proof.
  intros Hs. revert i depth. induction n as [|n IH]; intros i depth He Hn; [inversion He; lia|]. inversion He as [i' depth' nd Hnd Hi Hd Hl Hr]; subst i' depth'.
  cbn [eval_node]. set (ev := eval_operand prog phv (fun expr => eval_node prog n phv c expr (depth + 1))).
  assert (forall o, side_ok prog c i depth o -> value_ok (ev o) /\ side_means s c o (be_value (ev o))) as Hev.
  { intros o Ho. subst ev. inversion Ho; subst; cbn [eval_operand].
    - destruct value_zero_sim as [? ->]. split; [done|constructor].
    - destruct (bit_value (eval_node prog n phv c e (depth + 1))) as [? ->]. split; [done|]. constructor. apply IH; [done|lia].
    - rewrite (sm_field _ _ _ Hs) by done. split; [apply phv_get_ok|constructor].
    - destruct (imm_value_num imm n0) as [? ->]; [done|lia|]. split; [done|constructor].
    - destruct (bit_value (is_valid phv h)) as [? ->]. split; [done|]. rewrite (sm_valid _ _ _ Hs) by done. constructor.
    - destruct (bit_value b) as [? ->]. split; [done|constructor]. }
  destruct (Hev _ Hl) as [Hvl Hml], (Hev _ Hr) as [Hvr Hmr].
  pose proof (lookup_lt_Some _ _ _ Hnd). rewrite (proj2 (Z.ltb_ge _ _)), (proj2 (Z.leb_gt _ _)) by lia. cbn [orb].
  assert (elt c i = nd) as -> by (unfold elt; by apply list_lookup_total_correct).
  rewrite !value_nonzero_spec by (apply Hvl || apply Hvr). rewrite value_cmp_spec by done.
  pose proof (Means s c i nd _ _ Hi Hnd Hml Hmr) as Hm. match type of Hm with means _ _ _ ?b => match goal with |- means _ _ _ ?b' => replace b' with b; [done|] end end. clear.
  generalize (be_value (ev (en_left nd))) (be_value (ev (en_right nd))). intros l r.
  destruct (en_op nd); cbn [op_num]; rewrite ?negb_involutive; try done; destruct (Z.compare_spec l r), (Z.eqb_spec l r), (Z.ltb_spec l r), (Z.leb_spec l r), (Z.ltb_spec r l), (Z.leb_spec r l); done || lia.
Qed.

(** ** Tables and pipelines *)
Section pipeline.
Context {X : Type}.
Variables (ops : option (Z -> Z -> list (list Z) -> X -> Z * X)) (ent : p4_entries) (pipe : Z).
Hypothesis (Hent : store_inv prog ent) (Hpipe : 0 <= pipe < Z.of_nat (length (pg_pipelines prog))).
Implicit Types x : X.
Abbreviation pl := (elt (pg_pipelines prog) pipe).
Abbreviation table i := (the_table prog pipe i).

Lemma action_sim a args phv d s x :
  sim phv d s -> act_idx_ok prog a -> length args = length (ac_runtime_bits (elt (pg_actions prog) a)) -> Forall param_ok args ->
  simulates (run_action prog ops (elt (pg_actions prog) a) args phv d x) (act_num prog (num_ops ops) (Some (a, args)) s x).
Proof.
  intros Hs Ha Hl Hp. destruct (elt_Forall _ _ _ (po_actions _ Hok) Ha) as (_ & _ & Hprims). rewrite <-Hl in Hprims. by apply prims_sim.
Qed.
Lemma keys_num i phv d s : sim phv d s -> has_table prog pipe i ->
  be_value <$> table_keys prog (table i) phv = (fun k => k_field s (tk_field k)) <$> tb_key (table i).
Proof.
  intros Hs Hh. destruct (has_table_ok prog Hok _ _ Hh) as (nn & Hks & _). unfold table_keys. rewrite <-list_fmap_compose.
  apply list_fmap_ext. intros j k Hk. destruct (Forall_lookup_1 _ _ _ _ Hks Hk) as [Hr _]. unfold compose. by apply (sm_field _ _ _ Hs).
Qed.
Lemma lookup_finds i phv d s : sim phv d s -> has_table prog pipe i ->
  finds ent pipe i (table i) s (p4_entries_lookup prog ent pipe i (table_keys prog (table i) phv)).
Proof.
  intros Hs Hh. unfold finds. rewrite <-(keys_num i phv d s Hs Hh). apply lookup_is_best; try done; unfold table_keys; [by rewrite length_fmap|].
  apply Forall_fmap, Forall_forall. intros k _. apply phv_get_ok.
Qed.
Lemma found_entry i s o e : has_table prog pipe i -> finds ent pipe i (table i) s o -> o = Some e -> entry_ok prog (table i) e.
Proof.
  intros Hh Hf ->. destruct Hf as (j & Hj & _). exact (Forall_lookup_1 _ _ _ _ (ti_entries _ _ _ (si_tables _ _ Hent _ _ Hh)) Hj).
Qed.
(** The rest of a table's step, once it has found [o]. *)
Lemma table_sim i phv d s x :
  sim phv d s -> has_table prog pipe i ->
  let o := p4_entries_lookup prog ent pipe i (table_keys prog (table i) phv) in
  let '(rc, next, r) := run_table prog ops ent pipe i (table i) phv d x in
  next = snd (chosen (table i) o) /\ simulates (rc, r) (act_num prog (num_ops ops) (fst (chosen (table i) o)) s x).
Proof.
  intros Hs Hh. cbv zeta. pose proof (lookup_finds i phv d s Hs Hh) as Hf. destruct (has_table_ok prog Hok _ _ Hh) as (nn & _ & _ & _ & Hacts & _ & _ & _ & Hdef & _).
  unfold run_table. destruct (p4_entries_lookup _ _ _ _ _) as [e|]; cbn [chosen fst snd].
  - destruct (found_entry i s _ e Hh Hf eq_refl) as [_ _ _ _ Ha [Hl Hp]]. rewrite Forall_forall in Hacts.
    pose proof (action_sim (ent_action e) (ent_params e) phv d s x Hs (Hacts _ Ha) Hl Hp) as H.
    destruct (run_action _ _ _ _ _ _ _) as [rc r]. by split.
  - destruct (Z.eqb_spec (tb_default_action (table i)) P4_IDX_NONE) as [Hd|Hd]; cbn [negb].
    + rewrite decide_True by done. by split_and!.
    + rewrite decide_False by done. destruct Hdef as [[? _]|(Ha & Hl & Hp)]; [done|]. rewrite Forall_forall in Hacts.
      pose proof (action_sim _ ((fun p => P4Param p.1 p.2) <$> tb_default_data (table i)) phv d s x Hs (Hacts _ Ha)) as H.
      rewrite length_fmap in H. specialize (H Hl). destruct (run_action _ _ _ _ _ _ _) as [rc r]. split; [done|]. apply H.
      apply Forall_fmap. eapply Forall_impl; [exact Hp|]. intros [n b] [? ?]. split; cbn in *; [done|lia].
Qed.
Lemma chosen_edge n i o : elt (pl_nodes pl) n = NODE_TABLE i -> has_table prog pipe i -> (forall e, o = Some e -> entry_ok prog (table i) e) ->
  snd (chosen (table i) o) ∈ node_edges pl n.
Proof.
  intros Hn Hh Ho. unfold node_edges. rewrite Hn. fold (table i). destruct o as [e|]; cbn [chosen snd]; [|set_solver].
  destruct (has_table_ok prog Hok _ _ Hh) as (nn & _ & _ & _ & _ & Hl & _). apply elem_of_app. left.
  destruct (list_find _ _) as [[j a]|] eqn:Hf.
  - apply list_find_Some in Hf as (Hj & _ & _). apply lookup_lt_Some in Hj. apply list_elem_of_lookup_total_2. lia.
  - apply list_find_None in Hf. rewrite Forall_forall in Hf. by destruct (Hf _ (eo_action _ _ _ (Ho e eq_refl))).
Qed.
Abbreviation nnodes := (Z.of_nat (length (pl_nodes pl))).
Lemma edge_in n m : 0 <= n < nnodes -> m ∈ node_edges pl n -> next_in nnodes m.
Proof.
  intros Hn Hm. destruct (has_pipeline prog Hok pipe Hpipe) as (Hns & Hts & _ & Hcs & _). pose proof (elt_Forall _ _ _ Hns Hn) as Hnd. unfold node_edges in Hm.
  destruct (elt (pl_nodes pl) n) as [i|i]; cbn in Hnd.
  - destruct (elt_Forall _ _ _ Hts Hnd) as (_ & _ & _ & _ & _ & Hnx & Hdef & _). apply elem_of_app in Hm as [Hm|Hm]; [rewrite Forall_forall in Hnx; auto|].
    by apply list_elem_of_singleton in Hm as ->.
  - destruct (elt_Forall _ _ _ Hcs Hnd) as (_ & Ht & Hf). set_unfold in Hm. destruct Hm as [->|[->|[]]]; done.
Qed.
(** A run that has [fuel] nodes left. *)
Definition enough (rank : Z -> nat) (fuel : nat) (n : Z) : Prop :=
  n = P4_IDX_NONE \/ 0 <= n < nnodes /\ (1 <= fuel)%nat /\ forall m, m ∈ node_edges pl n -> m <> P4_IDX_NONE -> (rank m + 2 <= fuel)%nat.
Lemma enough_next rank fuel n m :
  (forall n m, 0 <= n < nnodes -> m ∈ node_edges pl n -> m <> P4_IDX_NONE -> (rank m < rank n < length (pl_nodes pl))%nat) ->
  n <> P4_IDX_NONE -> enough rank (S fuel) n -> m ∈ node_edges pl n -> enough rank fuel m.
Proof.
  intros Hrank Hne [?|(Hn & _ & He)] Hm; [done|]. destruct (edge_in n m Hn Hm) as [?|Hin]; [by left|]. destruct (decide (m = P4_IDX_NONE)) as [?|Hmn]; [by left|].
  right. specialize (He m Hm Hmn). split_and!; [lia..|]. intros m' Hm' Hne'. pose proof (Hrank m m' Hin Hm' Hne'). lia.
Qed.
Lemma node_loop_sim rank fuel n phv d s x :
  (forall n m, 0 <= n < nnodes -> m ∈ node_edges pl n -> m <> P4_IDX_NONE -> (rank m < rank n < length (pl_nodes pl))%nat) ->
  enough rank fuel n -> sim phv d s ->
  let '(rc, (phv', d', x')) := node_loop prog ops ent pipe fuel pl n phv d x in
  exists s', runs prog (num_ops ops) ent pipe pl n s x rc s' x' /\ sim phv' d' s'.
Proof.
  intros Hrank. revert n phv d s x. induction fuel as [|fuel IH]; intros n phv d s x Hen Hs; cbn [node_loop].
  { destruct Hen as [->|(_ & ? & _)]; [|lia]. rewrite Z.eqb_refl. exists s. split; [constructor|done]. }
  destruct (Z.eqb_spec n P4_IDX_NONE) as [->|Hne]; [exists s; split; [constructor|done]|].
  pose proof (enough_next rank fuel n) as Hnext. destruct (elt (pl_nodes pl) n) as [i|i] eqn:Hnode.
  - assert (has_table prog pipe i) as Hh.
    { destruct Hen as [?|[Hn _]]; [done|]. destruct (has_pipeline prog Hok pipe Hpipe) as (Hns & _). pose proof (elt_Forall _ _ _ Hns Hn) as Hnd.
      rewrite Hnode in Hnd. by split. }
    pose proof (lookup_finds i phv d s Hs Hh) as Hf. pose proof (table_sim i phv d s x Hs Hh) as Hstep. cbv zeta in Hstep. fold (table i).
    destruct (run_table prog ops ent pipe i (table i) phv d x) as [[rc next] [[phv' d'] x']]. destruct Hstep as [-> Hstep].
    destruct (act_num _ _ _ s x) as [rc' [s' x'']] eqn:Hact. destruct Hstep as (<- & <- & Hs'). destruct (Z.eqb_spec rc 0) as [->|Hrc]; cbn [negb].
    + specialize (Hnext (snd (chosen (table i) (p4_entries_lookup prog ent pipe i (table_keys prog (table i) phv)))) Hrank Hne Hen).
      specialize (IH _ phv' d' s' x' (Hnext ltac:(apply chosen_edge; [done|done|intros e He; by eapply found_entry])) Hs').
      destruct (node_loop _ _ _ _ _ _ _ _ _ _) as [rc [[phv2 d2] x2]]. destruct IH as (s2 & Hr & Hs2). exists s2. split; [|done].
      by eapply Runs_table.
    + exists s'. split; [|done]. by eapply Runs_error.
  - set (c := elt (pl_conditionals pl) i). destruct Hen as [?|Hen]; [done|]. destruct Hen as [Hn Hen].
    assert (means s (cn_expr c) 0 (eval_node prog eval_depth phv (cn_expr c) 0 0)) as Hm.
    { destruct (has_pipeline prog Hok pipe Hpipe) as (Hns & _ & _ & Hcs & _). pose proof (elt_Forall _ _ _ Hns Hn) as Hnd. rewrite Hnode in Hnd.
      destruct (elt_Forall _ _ _ Hcs Hnd) as (He & _). apply (eval_sim _ phv d); [done|done|]. vm_compute. done. }
    set (b := eval_node _ _ _ _ _ _) in *. specialize (Hnext (if b then cn_true_next c else cn_false_next c) Hrank Hne (or_intror (conj Hn Hen))).
    specialize (IH _ phv d s x (Hnext ltac:(unfold node_edges; rewrite Hnode; fold c; destruct b; set_solver)) Hs).
    destruct (node_loop _ _ _ _ _ _ _ _ _ _) as [rc [[phv2 d2] x2]]. destruct IH as (s2 & Hr & Hs2). exists s2. split; [|done]. by eapply Runs_cond.
Qed.
Lemma pipeline_sim phv d s x :
  sim phv d s ->
  let '(rc, (phv', d', x')) := run_pipeline prog ops ent pipe pl phv d x in
  exists s', runs_pipe prog (num_ops ops) ent pipe s x rc s' x' /\ sim phv' d' s'.
Proof.
  intros Hs. destruct (has_pipeline prog Hok pipe Hpipe) as (_ & _ & _ & _ & Hinit & rank & Hrank). apply (node_loop_sim rank); [done| |done].
  unfold pipe_of. destruct Hinit as [?|Hin]; [by left|right]. split_and!; [lia..|]. intros m Hm Hne. pose proof (Hrank _ _ Hin Hm Hne). lia.
Qed.
End pipeline.
End sim.
