(* ===== verification/P4Frame.v ===== *)
(** * Parsing and deparsing a frame

    The parser's copies and key comparisons, and the deparser's copies back,
    against P4Sem; with them, the theorems about a whole packet. *)
From S2P Require Export P4ExecProps.
From S2P Require Import P4Ex.

Section frame.
Variable prog : p4_program.
Hypothesis Hok : prog_ok prog.
Implicit Types (phv : p4_phv) (s : pkt) (r : p4_field_ref).
Variable frame : list Z.
Hypothesis Hframe : bytes_ok frame.
Abbreviation flen := (Z.of_nat (length frame)).
Abbreviation hoff h := (hd_phv_offset (elt (pg_headers prog) h)).

(** ** Extraction *)
Definition extract phv (pos h : Z) : p4_phv :=
  phv <| ph_data ::= fun d => bput d (Z.to_nat (hoff h)) (bslice frame (Z.to_nat pos) (Z.to_nat (hdr_bytes prog h))) |>
      <| ph_valid ::= <[Z.to_nat h := true]> |>.
Definition on_wire (h : Z) : Prop := hdr_idx_ok prog h /\ hd_metadata (elt (pg_headers prog) h) = false.
Lemma on_wire_bytes h : on_wire h -> ht_total_bits (type_of prog h) = 8 * hdr_bytes prog h.
Proof.
  intros [Hh Hm]. destruct (elt_Forall _ _ _ (po_headers _ Hok) Hh) as [_ H8]. specialize (H8 Hm). fold (type_of prog h) in H8.
  unfold hdr_bytes. pose proof (Z.div_mod (ht_total_bits (type_of prog h)) 8 ltac:(lia)). set (q := ht_total_bits (type_of prog h) / 8) in *.
  replace (ht_total_bits (type_of prog h) + 7) with (7 + q * 8) by lia. rewrite Z.div_add by lia. change (7 / 8) with 0. lia.
Qed.
Section one.
Variables (phv : p4_phv) (pos h : Z).
Hypothesis (Hp : phv_ok prog phv) (Hh : on_wire h) (Hpos : 0 <= pos) (Hfit : pos + hdr_bytes prog h <= flen).
Lemma extract_slice : length (bslice frame (Z.to_nat pos) (Z.to_nat (hdr_bytes prog h))) = Z.to_nat (hdr_bytes prog h).
Proof. pose proof (hdr_bytes_nonneg prog Hok h (proj1 Hh)). unfold bslice. rewrite length_take, length_drop. lia. Qed.
Lemma extract_data i : 0 <= i ->
  bit_of (ph_data (extract phv pos h)) i =
  if decide (8 * hoff h <= i < 8 * hoff h + 8 * hdr_bytes prog h) then bit_of frame (8 * pos + (i - 8 * hoff h)) else bit_of (ph_data phv) i.
Proof.
  intros Hi. destruct (header_at prog Hok h (proj1 Hh)) as [Ho Hend]. pose proof (hdr_bytes_nonneg prog Hok h (proj1 Hh)) as Hn.
  pose proof (vo_len _ _ Hp) as Hl. unfold extract. cbn [ph_data upd]. cbn. rewrite bit_of_bput; [|rewrite extract_slice; lia|done].
  unfold nbits. rewrite extract_slice, !Z2Nat.id by lia. case_decide; [|done]. rewrite bit_of_slice by lia. by rewrite Z2Nat.id.
Qed.
Lemma extract_ok : phv_ok prog (extract phv pos h).
Proof.
  destruct Hp as [Hl Hb Hv Hpad]. split.
  - cbn. by rewrite bput_length.
  - cbn. apply bput_ok; [done|by apply bslice_ok].
  - cbn. by rewrite length_insert.
  - intros g i Hg Hi. destruct (header_at prog Hok g Hg) as [Ho Hend]. pose proof (type_total_nonneg _ (type_at prog Hok g Hg)).
    rewrite extract_data by lia. rewrite decide_False; [by apply Hpad|]. destruct (Z.lt_trichotomy g h) as [Hlt|[->|Hlt]].
    + pose proof (headers_apart prog Hok _ _ Hg (proj1 Hh) Hlt). lia.
    + pose proof (on_wire_bytes h Hh). lia.
    + pose proof (headers_apart prog Hok _ _ (proj1 Hh) Hg Hlt). lia.
Qed.
Lemma extract_sim d s : sim prog phv d s -> sim prog (extract phv pos h) d (take_header prog frame pos h s).
Proof.
  intros Hs. pose proof extract_ok as Hp'. split; [done| | |by apply Hs..].
  - intros r Hr. destruct (field_fits prog Hok _ r Hp Hr) as (H1 & H2 & H3 & _). destruct (field_fits prog Hok _ r Hp' Hr) as (_ & _ & H3' & _).
    destruct (ref_in_header prog Hok r Hr) as (Hr1 & Hr2 & _). unfold fbits in Hr2.
    unfold phv_get. rewrite get_bnum by (done || apply Hp'). 
    change (k_field (take_header prog frame pos h s) r) with
      (if decide (fr_header r = h) then bnum frame (8 * pos + fd_offset_bits (field_of prog r)) (fd_bits (field_of prog r)) else k_field s r). case_decide as Hrh.
    + rewrite Hrh in Hr2. apply bnum_ext; [apply Hp'|done|lia|lia|lia|done|unfold nbits; lia|]. intros i Hi. unfold phv_bit in *. rewrite Hrh in *.
      rewrite extract_data by lia. rewrite decide_True by lia. f_equal. lia.
    + rewrite <-(sm_field _ _ _ _ Hs r Hr). unfold phv_get. rewrite get_bnum by (done || apply Hp).
      apply bnum_ext; [apply Hp'|apply Hp|lia|lia|lia|done|done|]. intros i Hi. unfold phv_bit in *. rewrite extract_data by lia. rewrite decide_False; [done|].
      destruct (Z.lt_trichotomy (fr_header r) h) as [Hlt|[?|Hlt]]; [|done|].
      * pose proof (headers_apart prog Hok _ _ (proj1 Hr) (proj1 Hh) Hlt). lia.
      * pose proof (headers_apart prog Hok _ _ (proj1 Hh) (proj1 Hr) Hlt). lia.
  - intros g Hg. unfold is_valid. cbn. pose proof (vo_valid _ _ Hp) as Hv. pose proof (po_count _ Hok). unfold hdr_idx_ok in Hg.
    case_decide as Hgh; [subst g; apply list_lookup_total_insert_eq; lia|]. destruct Hh as [Hh' _]. unfold hdr_idx_ok in Hh'.
    rewrite list_lookup_total_insert_ne by lia. by apply Hs.
Qed.
End one.
Lemma extracts_sim hs phv d s pos :
  Forall on_wire hs -> sim prog phv d s -> 0 <= pos <= flen ->
  match extract_ops prog frame hs phv pos, take_headers prog frame hs s pos with
  | inl rc, None => rc = - EMSGSIZE
  | inr (phv', pos'), Some (s', pos'') => pos' = pos'' /\ sim prog phv' d s' /\ 0 <= pos' <= flen
  | _, _ => False
  end.
Proof.
  intros Hhs. revert phv s pos. induction Hhs as [|h hs Hh _ IH]; intros phv s pos Hs Hpos; cbn [extract_ops take_headers]; [done|].
  pose proof (hdr_bytes_nonneg prog Hok h (proj1 Hh)).
  destruct (Z.ltb_spec (flen - pos) (hdr_bytes prog h)), (Z.ltb_spec flen (pos + hdr_bytes prog h)); try lia; try done.
  fold (extract phv pos h). apply IH; [|lia]. apply extract_sim; try done; [apply Hs|lia].
Qed.

(** ** The select key *)
Lemma bnum_zero d off n : bytes_ok d -> 0 <= off -> 0 <= n -> off + n <= nbits d -> (forall i, 0 <= i < n -> bit_of d (off + i) = false) -> bnum d off n = 0.
Proof.
  intros Hd Ho Hn Hl H. apply Z.bits_inj'. intros k Hk. rewrite bnum_bits, Z.testbit_0_l by done. case_bool_decide; [|done]. cbn. apply H. lia.
Qed.
(** [key], with [kb] bytes of it filled, holds [n]. *)
Definition key_holds (key : list Z) (kb n : Z) : Prop :=
  bytes16_ok key /\ 0 <= kb /\ bnum key 0 (8 * kb) = n /\ forall i, 8 * kb <= i < 128 -> bit_of key i = false.
Lemma key_step key kb n bits v :
  key_holds key kb n -> 1 <= bits <= 512 -> kb + (bits + 7) / 8 <= 16 -> value_ok v -> 0 <= be_value v < 2 ^ bits ->
  let kb' := kb + (bits + 7) / 8 in
  key_holds (bits_set key (kb' * 8 - bits) bits v) kb' (n * 2 ^ (8 * ((bits + 7) / 8)) + be_value v).
Proof.
  intros ((Hl & Hb) & Hkb & Hn & Hz) Hbits Hle Hv Hr. cbv zeta. pose proof (Z.div_mod (bits + 7) 8 ltac:(lia)) as Hdm. pose proof (mod8 (bits + 7)).
  set (w := (bits + 7) / 8) in *. set (key' := bits_set key ((kb + w) * 8 - bits) bits v).
  assert (nbits key = 128) as Hnb by (unfold nbits; lia).
  assert (length key' = 16%nat) as Hl' by (subst key'; by rewrite bits_set_length). assert (nbits key' = 128) as Hnb' by (unfold nbits; lia).
  assert (bytes_ok key') as Hb' by (by apply bits_set_ok).
  assert (forall i, 0 <= i -> bit_of key' i = if decide ((kb + w) * 8 - bits <= i < (kb + w) * 8) then bit_of v (512 - bits + (i - ((kb + w) * 8 - bits))) else bit_of key i) as Hbit.
  { intros i Hi. subst key'. rewrite bits_set_spec by lia. do 2 case_decide; try done; lia. }
  split_and!; [by split|lia| |].
  - replace (8 * (kb + w)) with (8 * kb + 8 * w) by lia. rewrite bnum_split by lia. rewrite Z.add_0_l.
    replace (8 * w) with ((8 * w - bits) + bits) at 2 by lia. rewrite (bnum_split key' (8 * kb)) by lia.
    rewrite (bnum_zero key' (8 * kb) (8 * w - bits)); [|done|lia..|intros i Hi; rewrite Hbit by lia; rewrite decide_False by lia; apply Hz; lia].
    rewrite (bnum_ext key' 0 key 0 (8 * kb)), Hn; [|done|done|lia..|intros i Hi; rewrite Hbit by lia; by rewrite decide_False by lia].
    replace (8 * kb + (8 * w - bits)) with ((kb + w) * 8 - bits) by lia. rewrite <-get_bnum by (done || lia). subst key'. rewrite get_set by (done || lia).
    rewrite Z.mod_small by done. lia.
  - intros i Hi. rewrite Hbit by lia. rewrite decide_False by lia. apply Hz. lia.
Qed.
Lemma key_width_cons r refs : key_width prog (r :: refs) = (fd_bits (field_of prog r) + 7) / 8 + key_width prog refs.
Proof. done. Qed.
Lemma key_width_nonneg refs : Forall (ref_ok prog) refs -> 0 <= key_width prog refs.
Proof.
  induction 1 as [|r refs Hr _ IH]; [done|]. rewrite key_width_cons. destruct (ref_in_phv prog Hok r Hr) as (_ & _ & ?). unfold fbits in *.
  pose proof (Z.div_pos (fd_bits (field_of prog r) + 7) 8). lia.
Qed.
Lemma select_key_sim phv d s refs : sim prog phv d s -> Forall (ref_ok prog) refs -> key_width prog refs <= 16 ->
  key_holds (fst (select_key prog phv refs)) (key_width prog refs) (key_num prog s refs).
Proof.
  intros Hs Hrefs. unfold select_key, key_num.
  assert (forall key kb n, key_holds key kb n -> kb + key_width prog refs <= 16 ->
    key_holds (fst (foldl (fun '(key, key_bytes) ref =>
      let bits := fd_bits (field_of prog ref) in
      let key_bytes := key_bytes + (bits + 7) / 8 in
      (bits_set key (key_bytes * 8 - bits) bits (phv_get prog phv ref), key_bytes)) (key, kb) refs)) (kb + key_width prog refs)
      (foldl (fun k r => k * 2 ^ (8 * ((fbits prog r + 7) / 8)) + k_field s r) n refs)) as H.
  { induction Hrefs as [|r refs Hr Hrefs IH]; intros key kb n Hk Hle; [cbn [foldl fst]; by rewrite Z.add_0_r|]. cbn [foldl]. rewrite key_width_cons in *.
    pose proof (key_width_nonneg refs Hrefs). destruct (ref_in_phv prog Hok r Hr) as (_ & _ & Hb). unfold P4_MAX_FIELD_BITS in Hb.
    rewrite Z.add_assoc. unfold fbits in *. rewrite <-(sm_field _ _ _ _ Hs r Hr). apply IH; [|lia].
    apply key_step; [done|lia|lia|apply phv_get_ok|rewrite (sm_field _ _ _ _ Hs r Hr); by eapply field_range]. }
  intros Hle. apply (H _ 0 0); [|lia]. split_and!; [split; [done|apply zeros_ok]|done|done|]. intros i Hi. apply bit_of_zeros. unfold P4_MAX_KEY_BYTES. lia.
Qed.

(** ** The arms *)
Lemma forallb_bytes (f : nat -> bool) (x y : list Z) n :
  length x = n -> length y = n -> (forall b, (b < n)%nat -> f b = (x !!! b =? y !!! b)) -> bytes_ok x -> bytes_ok y ->
  forallb f (seq 0 n) = (be_value x =? be_value y).
Proof.
  intros Hx Hy Hf Hbx Hby. apply eq_true_iff_eq. rewrite forallb_forall, Z.eqb_eq. split.
  - intros H. f_equal. apply (list_eq_same_length _ _ n); [done|done|]. intros b u v Hb Hu Hv. specialize (H b). rewrite Hf in H by done.
    rewrite (list_lookup_total_correct _ _ _ Hu), (list_lookup_total_correct _ _ _ Hv) in H. apply Z.eqb_eq, H, in_seq. lia.
  - intros He b Hb%in_seq. rewrite Hf by lia. apply Z.eqb_eq. f_equal. apply be_inj; [done|done|congruence|done].
Qed.
Lemma land_bytes_at x y b : (b < length x)%nat -> (b < length y)%nat -> land_bytes x y !!! b = Z.land (x !!! b) (y !!! b).
Proof.
  intros Hx Hy. destruct (lookup_lt_is_Some_2 x b Hx) as [u Hu], (lookup_lt_is_Some_2 y b Hy) as [v Hv].
  rewrite (list_lookup_total_correct _ _ _ Hu), (list_lookup_total_correct _ _ _ Hv). apply list_lookup_total_correct. apply lookup_zip_with_Some. eauto.
Qed.
Lemma arm_eq_num key kb n t :
  key_holds key kb n -> kb <= 16 -> transition_ok prog t -> tr_is_default t || arm_eq key kb t = arm_takes n kb t.
Proof.
  intros ((Hl & Hb) & Hkb & Hn & _) Hle ([Hlv Hv] & [Hlm Hm] & _). unfold arm_takes. f_equal. cbv zeta. set (k := Z.to_nat kb).
  set (K := take k key). set (V := drop (16 - k) (tr_value t)). set (M := drop (16 - k) (tr_mask t)).
  assert (length K = k) as HlK by (subst K; rewrite length_take; lia). assert (length V = k) as HlV by (subst V; rewrite length_drop; lia).
  assert (length M = k) as HlM by (subst M; rewrite length_drop; lia).
  assert (bytes_ok K /\ bytes_ok V /\ bytes_ok M) as (HbK & HbV & HbM) by (split_and!; [by apply Forall_take|by apply Forall_drop..]).
  assert (be_value K = n) as HK by (rewrite <-Hn; etrans; [apply (slice_bnum key 0 k); [done|lia]|]; f_equal; lia).
  assert (forall b, (b < k)%nat -> key !!! b = K !!! b /\ tr_value t !!! (P4_MAX_KEY_BYTES - k + b)%nat = V !!! b /\
    tr_mask t !!! (P4_MAX_KEY_BYTES - k + b)%nat = M !!! b) as Hat.
  { intros b Hbk. subst K V M. by rewrite lookup_total_take_lt, !lookup_total_drop by lia. }
  unfold arm_eq. fold k. rewrite <-HK. destruct (tr_has_mask t).
  - rewrite <-!be_land by (done || congruence).
    apply forallb_bytes; [rewrite land_bytes_length; congruence|rewrite land_bytes_length; congruence| |by apply land_bytes_ok|by apply land_bytes_ok]. intros b Hbk. destruct (Hat b Hbk) as (-> & -> & ->).
    by rewrite !land_bytes_at by lia.
  - apply forallb_bytes; try done. intros b Hbk. by destruct (Hat b Hbk) as (-> & -> & _).
Qed.
Lemma pick_arm_sim key kb n ts :
  key_holds key kb n -> kb <= 16 -> Forall (transition_ok prog) ts ->
  pick_arm key kb ts = (fun p => tr_next_state p.2) <$> list_find (fun t => arm_takes n kb t = true) ts.
Proof.
  intros Hk Hle. induction 1 as [|t ts Ht _ IH]; [done|]. cbn [pick_arm list_find]. rewrite (arm_eq_num key kb n t Hk Hle Ht), IH.
  destruct (arm_takes n kb t); [by rewrite decide_True|]. rewrite decide_False by done. by destruct (list_find _ ts) as [[]|].
Qed.

(** ** The parser *)
Abbreviation nstates := (Z.of_nat (length (pg_parse_states prog))).
Lemma next_state_in st s next : state_ok prog st -> next_state prog st s = Some next -> next_in nstates next.
Proof.
  intros (_ & _ & _ & _ & Hts). unfold next_state. destruct (ps_key st).
  - intros [= <-]. destruct (ps_transitions st) as [|t ts]; [by left|]. apply Forall_cons in Hts as [(_ & _ & ?) _]. done.
  - destruct (list_find _ _) as [[i t]|] eqn:Hf; [|done]. intros [= <-]. apply list_find_Some in Hf as (Hi & _ & _).
    by destruct (Forall_lookup_1 _ _ _ _ Hts Hi) as (_ & _ & ?).
Qed.
Lemma parse_sim fuel state phv d s pos :
  next_in nstates state -> sim prog phv d s -> 0 <= pos <= flen ->
  match parse_loop prog fuel frame state phv pos, parse_num prog fuel frame state s pos with
  | inl rc, inl rc' => rc = rc'
  | inr (phv', pos'), inr (s', pos'') => pos' = pos'' /\ sim prog phv' d s' /\ 0 <= pos' <= flen
  | _, _ => False
  end.
Proof.
  revert state phv s pos. induction fuel as [|fuel IH]; intros state phv s pos Hst Hs Hpos; cbn [parse_loop parse_num];
    (destruct (Z.eqb_spec state P4_IDX_NONE) as [->|Hne]; [rewrite decide_True by done; split_and!; done || lia|rewrite decide_False by done]); [done|].
  destruct Hst as [?|Hst]; [done|]. pose proof (elt_Forall _ _ _ (po_states _ Hok) Hst) as Hok'. set (st := elt (pg_parse_states prog) state) in *.
  pose proof Hok' as (Hops & Hkey & Hkb & Hk16 & Hts). pose proof (extracts_sim (ps_ops st) phv d s pos Hops Hs Hpos) as He.
  destruct (extract_ops prog frame (ps_ops st) phv pos) as [rc|[phv1 pos1]], (take_headers prog frame (ps_ops st) s pos) as [[s1 pos1']|]; try done.
  destruct He as (<- & Hs1 & Hpos1). pose proof (next_state_in st s1) as Hnext.
  destruct (ps_key st) as [|r refs] eqn:Hrefs.
  - unfold next_state in *. rewrite Hrefs in *. apply IH; [by apply Hnext|done|done].
  - assert (pick_arm (fst (select_key prog phv1 (r :: refs))) (ps_key_bytes st) (ps_transitions st) = next_state prog st s1) as Hp.
    { unfold next_state. rewrite Hrefs. apply pick_arm_sim; [|done|done]. rewrite Hkb. apply (select_key_sim phv1 d); [done|done|]. rewrite <-Hkb. exact Hk16. }
    rewrite Hp. destruct (next_state prog st s1) as [next|]; [|done]. apply IH; [by apply Hnext|done|done].
Qed.

(** ** The deparser *)
Definition width (fs : list p4_field) : Z := sumZ (fd_bits <$> fs).
Lemma width_cons f fs : width (f :: fs) = fd_bits f + width fs.
Proof. done. Qed.
Lemma fields_run off fs total k : fields_ok off fs total ->
  (forall f, fs !! k = Some f -> fd_offset_bits f = off + width (take k fs)) /\ total = off + width fs.
Proof.
  revert off k. induction fs as [|f fs IH]; intros off k; [intros Ht; unfold width; cbn in *; split; [done|lia]|]. intros (Ho & _ & Hf). split.
  - destruct k as [|k]; cbn [lookup list_lookup]; [intros g [= <-]; change (width (take 0 _)) with 0; lia|].
    intros g Hg. rewrite firstn_cons, width_cons, (proj1 (IH _ k Hf) g Hg). lia.
  - rewrite (proj2 (IH _ 0%nat Hf)), width_cons. lia.
Qed.
Lemma width_snoc fs k f : fs !! k = Some f -> width (take (S k) fs) = width (take k fs) + fd_bits f.
Proof.
  revert k. induction fs as [|g fs IH]; intros [|k]; try done.
  - intros [= ->]. rewrite firstn_cons, width_cons. change (width (take 0 _)) with 0. lia.
  - intros Hk. rewrite !(firstn_cons _ g), !width_cons, (IH k Hk). lia.
Qed.
Lemma header_bits phv d s h : sim prog phv d s -> hdr_idx_ok prog h ->
  bnum (ph_data phv) (8 * hoff h) (ht_total_bits (type_of prog h)) = header_num prog s h.
Proof.
  intros Hs Hh. destruct (type_at prog Hok h Hh) as [Hfs _]. set (fs := ht_fields (type_of prog h)) in *.
  destruct (header_at prog Hok h Hh) as [Ho Hend]. pose proof (sm_ok _ _ _ _ Hs) as Hp.
  assert (forall k, (k <= length fs)%nat -> 0 <= width (take k fs) /\ bnum (ph_data phv) (8 * hoff h) (width (take k fs)) =
    foldl (fun n i => n * 2 ^ fbits prog (FieldRef h i) + k_field s (FieldRef h i)) 0 (seqZ 0 (Z.of_nat k))) as H.
  { induction k as [|k IH]; intros Hk; [split; [done|]; cbn; unfold bnum; by rewrite Z.pow_0_r, Z.mod_1_r|]. destruct (IH ltac:(lia)) as [Hw Hn].
    assert (ref_ok prog (FieldRef h (Z.of_nat k))) as Hr by (split; [done|cbn; fold fs; lia]).
    assert (fs !! k = Some (field_of prog (FieldRef h (Z.of_nat k)))) as Hf.
    { unfold field_of. cbn. fold fs. rewrite <-(Nat2Z.id k) at 1. apply elt_lookup. lia. }
    destruct (fields_run 0 fs _ k Hfs) as [Hoff _]. specialize (Hoff _ Hf). destruct (field_fits prog Hok phv _ Hp Hr) as (H1 & H2 & H3 & _).
    rewrite (width_snoc _ _ _ Hf). rewrite seqZ_S, foldl_app by lia. cbn [foldl]. rewrite Z.add_0_l, <-Hn. unfold fbits.
    assert (phv_bit prog (FieldRef h (Z.of_nat k)) = 8 * hoff h + width (take k fs)) as Hpb by (unfold phv_bit; cbn [fr_header]; lia).
    split; [lia|]. rewrite bnum_split by lia. rewrite <-(sm_field _ _ _ _ Hs _ Hr). unfold phv_get. rewrite get_bnum by (done || apply Hp). by rewrite Hpb. }
  destruct (fields_run 0 fs _ 0%nat Hfs) as [_ Ht]. destruct (H (length fs) ltac:(lia)) as [_ Hn]. unfold header_num. fold fs. rewrite <-Hn, take_ge by lia.
  f_equal. lia.
Qed.
Lemma image_sim phv d s h : sim prog phv d s -> hdr_idx_ok prog h ->
  bslice (ph_data phv) (Z.to_nat (hoff h)) (Z.to_nat (hdr_bytes prog h)) = image prog s h.
Proof.
  intros Hs Hh. pose proof (sm_ok _ _ _ _ Hs) as Hp. destruct (header_at prog Hok h Hh) as [Ho Hend]. pose proof (vo_len _ _ Hp) as Hl.
  pose proof (hdr_bytes_nonneg prog Hok h Hh) as Hn. pose proof (type_total_nonneg _ (type_at prog Hok h Hh)) as Ht.
  assert (length (bslice (ph_data phv) (Z.to_nat (hoff h)) (Z.to_nat (hdr_bytes prog h))) = Z.to_nat (hdr_bytes prog h)) as Hlen
    by (unfold bslice; rewrite length_take, length_drop; lia).
  unfold image. rewrite <-(be_bytes_value (bslice _ _ _)) by (apply bslice_ok, Hp). rewrite Hlen. f_equal.
  rewrite slice_bnum by (apply Hp || lia). rewrite !Z2Nat.id by lia. set (w := ht_total_bits (type_of prog h)) in *.
  assert (w <= 8 * hdr_bytes prog h) as Hw.
  { unfold hdr_bytes. fold w. pose proof (Z.div_mod (w + 7) 8 ltac:(lia)). pose proof (mod8 (w + 7)). lia. }
  replace (8 * hdr_bytes prog h) with (w + (8 * hdr_bytes prog h - w)) at 1 by lia. rewrite bnum_split by (unfold nbits; lia).
  pose proof (header_bits phv d s h Hs Hh) as Hbits. fold w in Hbits. rewrite Hbits. rewrite bnum_zero; [lia|apply Hp|lia|lia|unfold nbits; lia|].
  intros i Hi. rewrite <-Z.add_assoc. apply (vo_pad _ _ Hp); [done|]. fold w. lia.
Qed.
Lemma image_length s h : hdr_idx_ok prog h -> Z.of_nat (length (image prog s h)) = hdr_bytes prog h.
Proof. intros Hh. unfold image. rewrite be_bytes_length. pose proof (hdr_bytes_nonneg prog Hok h Hh). lia. Qed.
Lemma deparse_headers_sim phv d s cap hs out : sim prog phv d s -> Forall (hdr_idx_ok prog) hs -> Z.of_nat (length out) <= cap ->
  let all := out ++ mjoin (image prog s <$> filter (fun h => k_valid s h = true) hs) in
  deparse_headers prog phv cap hs out = if cap <? Z.of_nat (length all) then inl (- EMSGSIZE) else inr all.
Proof.
  intros Hs Hhs. revert out. induction Hhs as [|h hs Hh Hhs IH]; intros out Hout; cbv zeta; cbn [deparse_headers].
  { cbn. rewrite app_nil_r, (proj2 (Z.ltb_ge _ _)) by done. done. }
  rewrite filter_cons, <-(sm_valid _ _ _ _ Hs h Hh). destruct (is_valid phv h); cbn [negb]; [rewrite decide_True by done|rewrite decide_False by done; by apply IH].
  cbn [fmap list_fmap mjoin list_join]. rewrite (image_sim phv d s h Hs Hh). pose proof (image_length s h Hh) as Hl.
  destruct (Z.ltb_spec (cap - Z.of_nat (length out)) (hdr_bytes prog h)).
  - rewrite (proj2 (Z.ltb_lt _ _)); [done|]. rewrite !length_app. lia.
  - rewrite IH by (rewrite length_app; lia). rewrite <-app_assoc. done.
Qed.
Lemma deparser_sim phv d s pos cap : sim prog phv d s -> 0 <= pos <= flen -> 0 <= cap ->
  run_deparser prog phv frame pos cap =
  if cap <? Z.of_nat (length (emitted prog s frame pos)) then inl (- EMSGSIZE) else inr (emitted prog s frame pos).
Proof.
  intros Hs Hpos Hcap. destruct (po_deparse _ Hok) as [Hhs _]. unfold run_deparser, emitted. rewrite (deparse_headers_sim phv d s cap _ [] Hs Hhs) by (cbn; lia). cbv zeta.
  rewrite app_nil_l. set (hd := mjoin _). rewrite length_app, length_drop. destruct (Z.ltb_spec cap (Z.of_nat (length hd))).
  - by rewrite (proj2 (Z.ltb_lt _ _)) by lia.
  - destruct (Z.ltb_spec (cap - Z.of_nat (length hd)) (flen - pos)).
    + by rewrite (proj2 (Z.ltb_lt _ _)) by lia.
    + by rewrite (proj2 (Z.ltb_ge _ _)) by lia.
Qed.
End frame.

(** ** A packet from start to end *)
Section packet.
Variable prog : p4_program.
Hypothesis Hok : prog_ok prog.
Implicit Types (phv : p4_phv) (s : pkt).

Lemma metadata_valid phv :
  ph_valid (valid_metadata prog phv) = imap (fun h v => v || match pg_headers prog !! h with Some hd => hd_metadata hd | None => false end) (ph_valid phv).
Proof. done. Qed.
Lemma init_sim : exists phv, phv_init prog = inr phv /\ sim prog (valid_metadata prog phv) false (clear prog).
Proof.
  unfold phv_init. pose proof (po_fits _ Hok) as Hf. rewrite (proj2 (Z.ltb_ge _ _)) by done. eexists. split; [done|].
  assert (0 <= pg_phv_bytes prog) as Hn by (destruct (po_egress_spec _ Hok) as [[Hh _] _]; pose proof (header_at prog Hok _ Hh); pose proof (hdr_bytes_nonneg prog Hok _ Hh); lia).
  assert (forall i, 0 <= i < 8 * pg_phv_bytes prog -> bit_of (zeros (Z.to_nat (pg_phv_bytes prog))) i = false) as Hz by (intros i Hi; apply bit_of_zeros; lia).
  assert (phv_ok prog (valid_metadata prog (P4Phv (zeros (Z.to_nat (pg_phv_bytes prog))) (replicate P4_MAX_HEADERS false) false))) as Hp.
  { split; [cbn; unfold zeros; rewrite length_replicate; lia|apply zeros_ok|by rewrite metadata_valid, length_imap|]. intros h i Hh Hi. destruct (header_at prog Hok h Hh).
    pose proof (type_total_nonneg _ (type_at prog Hok h Hh)). apply Hz. lia. }
  split; [done| | |done|done].
  - intros r Hr. destruct (field_fits prog Hok _ r Hp Hr) as (H1 & H2 & H3 & _). unfold phv_get. rewrite get_bnum by (done || apply Hp).
    apply bnum_zero; [apply Hp|lia|lia|done|]. intros i Hi. apply Hz. destruct (ref_in_phv prog Hok r Hr) as (_ & H4 & _). unfold fbits in H4. lia.
  - intros h Hh. unfold is_valid. rewrite metadata_valid. apply list_lookup_total_correct. cbn [ph_valid]. rewrite list_lookup_imap, lookup_replicate_2; [done|].
    pose proof (po_count _ Hok). unfold hdr_idx_ok in Hh. lia.
Qed.
Lemma arch_sim bits phv d s r v : sim prog phv d s -> arch_ok prog bits r -> fits 32 v -> sim prog (meta_set prog phv r v) d (assign_arch prog s r v).
Proof.
  intros Hs Hr Hv. unfold meta_set, assign_arch. destruct Hr as [->|[Hr _]]; [by rewrite decide_True|].
  assert (fr_header r <> P4_IDX_NONE) as Hne by (destruct Hr as [[_ Hh] _]; pose proof (po_count _ Hok); unfold P4_IDX_NONE, P4_MAX_HEADERS in *; lia).
  rewrite (proj2 (Z.eqb_neq _ _) Hne). rewrite decide_False by (intros ->; done). destruct (value_set_u32_spec v Hv) as [Ho Hn]. rewrite <-Hn at 2. by apply phv_set_sim.
Qed.
Lemma egress_spec_sim phv d s : sim prog phv d s -> egress_spec_get prog phv = port_of prog s /\ fits 32 (port_of prog s).
Proof.
  intros Hs. destruct (po_egress_spec _ Hok) as [Hr Hb]. pose proof (field_range prog Hok phv d s _ Hs Hr) as Hf. unfold fbits in Hf. rewrite Hb in Hf.
  unfold egress_spec_get, port_of. rewrite value_u32_spec, (sm_field _ _ _ _ Hs _ Hr) by (apply phv_get_ok). unfold fits. split; [apply Z.mod_small|]; lia.
Qed.
Lemma egress_sim phv d s port : sim prog phv d s -> fits 32 port -> sim prog (enter_egress prog phv port) d (to_egress prog s port).
Proof.
  intros Hs Hp. unfold enter_egress, to_egress. destruct (po_egress_spec _ Hok) as [Hr Hb]. destruct (po_ports _ Hok) as [_ He].
  pose proof (arch_sim 9 _ d _ _ _ Hs He Hp) as H1. pose proof (arch_sim 9 _ d _ _ (P4_DROP_PORT + 1) H1 (or_intror (conj Hr Hb)) ltac:(done)) as H2.
  assert (pg_egress_spec prog <> no_ref) as Hne.
  { intros He'. rewrite He' in Hr. destruct Hr as [[_ Hh] _]. pose proof (po_count _ Hok). cbn in Hh. unfold P4_IDX_NONE, P4_MAX_HEADERS in *. lia. }
  unfold assign_arch in H2 at 1. unfold assign_arch at 1. rewrite !decide_False in * by done. destruct H2 as [Ho Hf Hv Ha Hd]. split; [by destruct Ho|..|done|done]; try done.
  intros r Hr'. etrans; [exact (Hf r Hr')|]. cbn [k_field assign upd]. cbn. case_decide; [|done]. unfold fbits. by rewrite Hb.
Qed.

Definition fate_of (r : Z * p4_exec_result * list Z) : fate :=
  let '(rc, res, out) := r in
  if rc =? 0 then if er_dropped res then Dropped else Sent (if er_egress_assigned res then Some (er_egress_spec res) else None) out
  else Failed rc.
Lemma fate_failed rc res out : rc <> 0 -> fate_of (rc, res, out) = Failed rc.
Proof. intros H. unfold fate_of. by rewrite (proj2 (Z.eqb_neq _ _) H). Qed.
Lemma parse_rc fuel frame state s pos rc : parse_num prog fuel frame state s pos = inl rc -> rc <> 0.
Proof.
  revert state s pos. induction fuel as [|fuel IH]; intros state s pos; cbn [parse_num]; (case_decide; [done|]); [by intros [= <-]|].
  destruct (take_headers _ _ _ _ _) as [[s1 pos1]|]; [|by intros [= <-]]. destruct (next_state _ _ _); [apply IH|by intros [= <-]].
Qed.
Section switch.
Variables (ent : p4_entries) (in_port default_port : Z) (frame : list Z) (cap : Z).
Hypothesis (Hent : store_inv prog ent) (Hframe : bytes_ok frame) (Hin : fits 32 in_port) (Hdef : fits 32 default_port) (Hcap : 0 <= cap).
Lemma pipe_in i : i = P4_PIPE_INGRESS \/ i = P4_PIPE_EGRESS -> 0 <= i < Z.of_nat (length (pg_pipelines prog)).
Proof. destruct (po_pipelines _ Hok) as [_ ->]. unfold P4_PIPE_INGRESS, P4_PIPE_EGRESS, P4_MAX_PIPELINES. lia. Qed.
Lemma drop_flag phv d s : sim prog phv d s -> d || (egress_spec_get prog phv =? P4_DROP_PORT) = true <-> drops prog s.
Proof.
  intros Hs. destruct (egress_spec_sim phv d s Hs) as [-> _]. rewrite orb_true_iff, Z.eqb_eq, (sm_dropped _ _ _ _ Hs). done.
Qed.
(** From the end of ingress on. *)
Lemma finish_sim phv d s0 s pos :
  frame <> [] -> arrives prog frame in_port = inr (s0, pos) -> 0 <= pos <= Z.of_nat (length frame) ->
  runs_in prog ent P4_PIPE_INGRESS s0 0 s -> sim prog phv d s ->
  let assigned := ph_egress_assigned phv in
  let port := egress_spec_get prog phv in
  let dropped := d || (port =? P4_DROP_PORT) in
  let '(rc, (phv, dropped, _)) :=
    if negb dropped then
      run_pipeline prog None ent P4_PIPE_EGRESS (elt (pg_pipelines prog) P4_PIPE_EGRESS)
        (enter_egress prog phv (if assigned then port else default_port)) dropped tt
    else (0, (phv, dropped, tt)) in
  let r :=
    if negb (rc =? 0) then (rc, inhabitant, [])
    else
      let dropped := dropped || (egress_spec_get prog phv =? P4_DROP_PORT) in
      let res := P4ExecResult dropped assigned port 0 in
      if dropped then (0, res, [])
      else
        match run_deparser prog phv frame pos cap with
        | inl rc => (rc, res, [])
        | inr out => (0, res <| er_len := Z.of_nat (length out) |>, out)
        end in
  switches prog ent in_port default_port frame cap (fate_of r) /\
  (fst (fst r) = 0 -> er_len (snd (fst r)) = Z.of_nat (length (snd r))).
Proof.
  intros Hne Harr Hpos Hrun Hs. cbv zeta. pose proof (drop_flag phv d s Hs) as Hdrop. destruct (egress_spec_sim phv d s Hs) as [Hport Hfits].
  destruct (d || (egress_spec_get prog phv =? P4_DROP_PORT)) eqn:Hd; cbn [negb].
  { rewrite Z.eqb_refl. cbn [negb orb]. cbn. split; [|done]. eapply Switches_ingress_drop; eauto. by apply Hdrop. }
  assert (~ drops prog s) as Hnd by (intros H%Hdrop; done).
  assert (d = false) as -> by (by destruct d).
  set (port := if ph_egress_assigned phv then egress_spec_get prog phv else default_port).
  assert (port = (if k_assigned s then port_of prog s else default_port)) as Hp by (subst port; by rewrite Hport, (sm_assigned _ _ _ _ Hs)).
  assert (fits 32 port) as Hpf by (rewrite Hp; by case_match).
  pose proof (pipeline_sim prog Hok (X := unit) None ent P4_PIPE_EGRESS Hent (pipe_in _ (or_intror eq_refl)) _ false _ tt (egress_sim phv false s port Hs Hpf)) as He.
  destruct (run_pipeline prog None ent P4_PIPE_EGRESS _ _ false tt) as [rc [[phv2 d2] []]]. destruct He as (s2 & Hrun2 & Hs2).
  assert (forall f, leaves prog (if k_assigned s then Some (port_of prog s) else None) rc s2 frame pos cap f -> switches prog ent in_port default_port frame cap f) as Hsw.
  { intros f Hf. eapply Switches_egress; eauto. rewrite <-Hp. exact Hrun2. }
  destruct (Z.eqb_spec rc 0) as [->|Hrc]; cbn [negb]; [|split; [|done]; rewrite fate_failed by done; apply Hsw; by constructor].
  pose proof (drop_flag phv2 d2 s2 Hs2) as Hdrop2. destruct (d2 || (egress_spec_get prog phv2 =? P4_DROP_PORT)) eqn:Hd2.
  { split; [|done]. apply Hsw. constructor. by apply Hdrop2. }
  assert (~ drops prog s2) as Hnd2 by (intros H%Hdrop2; done).
  rewrite (deparser_sim prog Hok frame phv2 d2 s2 pos cap Hs2 Hpos Hcap).
  destruct (Z.ltb_spec cap (Z.of_nat (length (emitted prog s2 frame pos)))); (split; [apply Hsw|done]).
  - by apply Leaves_long.
  - match goal with |- leaves _ _ _ _ _ _ _ (fate_of (0, ?r, ?o)) =>
      change (fate_of (0, r, o)) with (Sent (if ph_egress_assigned phv then Some (egress_spec_get prog phv) else None) o) end.
    rewrite Hport, (sm_assigned _ _ _ _ Hs). by apply Leaves_sent.
Qed.
End switch.
End packet.

Lemma exec_refines prog ent in_port default_port frame cap res :
  prog_ok prog -> store_reach prog ent -> bytes_ok frame -> fits 32 in_port -> fits 32 default_port -> 0 <= cap ->
  let r := p4_exec_run prog ent in_port default_port frame cap res in
  switches prog ent in_port default_port frame cap (fate_of r) /\
  (fst (fst r) = 0 -> er_len (snd (fst r)) = Z.of_nat (length (snd r))).
Proof.
  intros Hok Hr Hframe Hin Hdef Hcap. cbv zeta. apply (reach_store prog Hok) in Hr as Hent. unfold p4_exec_run.
  destruct (Nat.eqb_spec (length frame) 0) as [He|Hne]; [split; [apply Switches_empty; by apply nil_length_inv|done]|].
  assert (frame <> []) as Hnil by (by destruct frame). destruct (init_sim prog Hok) as (phv & -> & Hs). destruct (po_ports _ Hok) as [Hip _].
  assert (sim prog (if negb (fr_header (pg_ingress_port prog) =? P4_IDX_NONE) then phv_set prog (valid_metadata prog phv) (pg_ingress_port prog) (value_set_u32 in_port)
    else valid_metadata prog phv) false (assign_arch prog (clear prog) (pg_ingress_port prog) in_port)) as Hs0.
  { pose proof (arch_sim prog Hok 9 _ _ _ _ _ Hs Hip Hin) as H. unfold meta_set in H. by destruct (fr_header (pg_ingress_port prog) =? P4_IDX_NONE). }
  set (phv0 := if negb _ then _ else _) in *. clearbody phv0. unfold run_parser.
  pose proof (parse_sim prog Hok frame Hframe (length (pg_parse_states prog) * 4 + 16) (pg_init_state prog) phv0 false _ 0 (or_intror (po_init _ Hok)) Hs0 ltac:(lia)) as Hparse.
  fold (arrives prog frame in_port) in Hparse.
  destruct (parse_loop prog _ frame (pg_init_state prog) phv0 0) as [rc|[phv1 pos]], (arrives prog frame in_port) as [rc'|[s1 pos']] eqn:Harr; try done.
  { subst rc'. assert (rc <> 0) as Hrc by (by eapply parse_rc). split; [|done]. rewrite fate_failed by done. by apply Switches_unparsed. }
  destruct Hparse as (<- & Hs1 & Hpos).
  pose proof (pipeline_sim prog Hok (X := unit) None ent P4_PIPE_INGRESS Hent (pipe_in prog Hok _ (or_introl eq_refl)) phv1 false s1 tt Hs1) as Hp.
  destruct (run_pipeline prog None ent P4_PIPE_INGRESS _ phv1 false tt) as [rc [[phv2 d2] []]]. destruct Hp as (s2 & Hrun & Hs2).
  destruct (Z.eqb_spec rc 0) as [->|Hrc]; cbn [negb]; [|split; [|done]; rewrite fate_failed by done; by eapply Switches_ingress_error].
  pose proof (finish_sim prog Hok ent in_port default_port frame cap Hent Hdef Hcap phv2 d2 s1 s2 pos Hnil Harr Hpos Hrun Hs2) as Hfin. cbv zeta in Hfin.
  set (e := if negb (d2 || (egress_spec_get prog phv2 =? P4_DROP_PORT)) then _ else _) in *. destruct e as [rc [[phv3 d3] []]]. exact Hfin.
Qed.
(** C6: a frame an accepted program is run over meets the fate the program means
    for it: it is dropped, or sent where ingress chose with its headers
    rewritten and its payload kept, or fails with the error its meaning has,
    whatever the frame holds and however long it is. *)
Theorem p4_exec_refines prog ent in_port default_port frame cap res :
  prog_ok prog -> store_reach prog ent -> bytes_ok frame -> fits 32 in_port -> fits 32 default_port -> 0 <= cap ->
  let r := p4_exec_run prog ent in_port default_port frame cap res in
  switches prog ent in_port default_port frame cap (fate_of r) /\
  (fst (fst r) = 0 -> er_len (snd (fst r)) = Z.of_nat (length (snd r))).
Proof. exact (exec_refines prog ent in_port default_port frame cap res). Qed.
Lemma p4_exec_refines_witness :
  let frame := [2; 1; 0; 0; 0; 9] ++ [2; 0; 0; 0; 0; 1] ++ [8; 0] ++ [7; 8; 9] in
  let r := p4_exec_run px px_store 0 1 frame 64 inhabitant in
  fate_of r = Sent (Some 1) frame /\ switches px px_store 0 1 frame 64 (fate_of r).
Proof.
  cbv zeta. split; [vm_compute; reflexivity|].
  refine (proj1 (p4_exec_refines px px_store 0 1 _ 64 inhabitant px_ok px_store_reach _ _ _ _)); [apply (bool_decide_unpack _)|..]; by vm_compute.
Defined.

(** C18: an RDMA operation run through an accepted program that declares
    rdma_metadata: its fields are the operation's, ingress and egress run as
    they mean, egress not if ingress dropped it, the externs are called with
    the numbers the program passes, and the verdict is the drop flag, kept
    also when the pipeline stops with an error. *)
Theorem p4_exec_meta_refines {X} prog ent (ops : option (Z -> Z -> list (list Z) -> X -> Z * X)) meta (x : X) :
  prog_ok prog -> store_reach prog ent ->
  fits 32 (rm_opcode meta) -> fits 32 (rm_qp_num meta) -> fits 32 (rm_length meta) -> fits 32 (rm_imm_data meta) -> fits 32 (rm_rkey meta) ->
  let '(rc, res, x') := p4_exec_run_meta prog ent ops meta x in
  if pg_has_rdma_metadata prog then
    operates prog (num_ops ops) ent (operation prog (rm_opcode meta) (rm_qp_num meta) (rm_length meta) (rm_imm_data meta) (rm_rkey meta))
      x rc (er_dropped res) x'
  else rc = - ENOENT /\ x' = x /\ er_dropped res = false.
Proof.
  intros Hok Hr H1 H2 H3 H4 H5. apply (reach_store prog Hok) in Hr as Hent. unfold p4_exec_run_meta.
  destruct (pg_has_rdma_metadata prog) eqn:Hmd; [|done]. cbn [negb]. destruct (init_sim prog Hok) as (phv & -> & Hs). destruct (po_ports _ Hok) as [Hip _].
  destruct (po_rdma _ Hok Hmd) as (A1 & A2 & A3 & A4 & A5). cbv zeta.
  match goal with |- context [meta_set prog (meta_set prog ?p (pg_rdma_imm_data prog) ?a) (pg_rdma_rkey prog) ?b] =>
    assert (sim prog (meta_set prog (meta_set prog p (pg_rdma_imm_data prog) a) (pg_rdma_rkey prog) b) false
      (operation prog (rm_opcode meta) (rm_qp_num meta) (rm_length meta) (rm_imm_data meta) (rm_rkey meta))) as Hs0
      by (unfold operation; repeat (eapply (arch_sim prog Hok); [|eassumption || done|eassumption || done]); done);
    set (phv0 := meta_set prog (meta_set prog p (pg_rdma_imm_data prog) a) (pg_rdma_rkey prog) b) in * end.
  clearbody phv0. set (s0 := operation _ _ _ _ _ _) in *. clearbody s0.
  pose proof (pipeline_sim prog Hok ops ent P4_PIPE_INGRESS Hent (pipe_in prog Hok _ (or_introl eq_refl)) phv0 false s0 x Hs0) as Hp.
  destruct (run_pipeline prog ops ent P4_PIPE_INGRESS _ phv0 false x) as [rc [[phv1 d1] x1]]. destruct Hp as (s1 & Hrun & Hs1).
  destruct ((rc =? 0) && negb d1) eqn:Hgo.
  - apply andb_true_iff in Hgo as [->%Z.eqb_eq Hd%negb_true_iff]. subst d1. destruct (egress_spec_sim prog Hok phv1 false s1 Hs1) as [Hport Hfits].
    rewrite Hport. pose proof (pipeline_sim prog Hok ops ent P4_PIPE_EGRESS Hent (pipe_in prog Hok _ (or_intror eq_refl)) _ false _ x1
      (egress_sim prog Hok phv1 false s1 _ Hs1 Hfits)) as Hp.
    destruct (run_pipeline prog ops ent P4_PIPE_EGRESS _ _ false x1) as [rc [[phv2 d2] x2]]. destruct Hp as (s2 & Hrun2 & Hs2).
    cbn. rewrite (sm_dropped _ _ _ _ Hs2). eapply Operates_egress; [done|symmetry; apply Hs1|done].
  - cbn. rewrite (sm_dropped _ _ _ _ Hs1). apply Operates_ingress; [done|]. rewrite <-(sm_dropped _ _ _ _ Hs1).
    apply andb_false_iff in Hgo as [Hgo%Z.eqb_neq|Hgo%negb_false_iff]; auto.
Qed.
Lemma p4_exec_meta_refines_witness :
  let meta := P4RdmaMeta 1 7 4096 5 9 in
  let ops := Some (fun _ _ argv (n : nat) => (0, (n + length argv)%nat)) in
  let '(rc, res, x) := p4_exec_run_meta px px_store ops meta 0%nat in
  rc = 0 /\ operates px (num_ops ops) px_store (operation px 1 7 4096 5 9) 0%nat rc (er_dropped res) x.
Proof.
  cbv zeta. set (ops := Some _).
  pose proof (p4_exec_meta_refines px px_store ops (P4RdmaMeta 1 7 4096 5 9) 0%nat px_ok px_store_reach ltac:(done) ltac:(done) ltac:(done) ltac:(done) ltac:(done)) as H.
  destruct (p4_exec_run_meta px px_store ops (P4RdmaMeta 1 7 4096 5 9) 0%nat) as [[rc res] x] eqn:He. split; [|exact H].
  apply (f_equal (fun p => fst (fst p))) in He. vm_compute in He. by cbn.
Defined.
