(* ===== verification/P4Engine.v ===== *)
(** * The engine (p4_engine.c)

    The port model, the statistics, the chunked loading of a program and the
    one way in for table updates.  The loader is what [Loader] says of it;
    [json_loader] is it.  Allocations succeed or not as a flag says; the reason a
    load was refused is a value for each message. *)
From S2P Require Export P4Frame.

(** What p4_json_parse() does: a program or an error. *)
Class Loader := load_program : list Z -> Z + p4_program.
Class LoaderLaws `{!Loader} : Prop := {
  parse_accepts b p : load_program b = inr p -> prog_ok p;
  parse_refuses b rc : load_program b = inl rc -> rc < 0 }.

Definition P4_PORT_HOST : Z := 0.
Definition P4_PORT_UPLINK : Z := 1.
Definition P4_PORT_COUNT : Z := 2.
Definition P4_FRAME_MAX : Z := 9600.
Definition P4_PROGRAM_MAX : Z := 4 * 1024 * 1024.
Inductive p4_verdict := VERDICT_DROP | VERDICT_FORWARD.
#[export] Instance p4_verdict_eq : EqDecision p4_verdict.
Proof. solve_decision. Defined.
Record p4_result := P4Result { rs_verdict : p4_verdict; rs_egress_port : Z; rs_len : Z }.
#[export] Instance p4_result_eta : Eta p4_result := fun r => P4Result (rs_verdict r) (rs_egress_port r) (rs_len r).
#[export] Instance p4_result_zero : Inhabited p4_result := populate (P4Result VERDICT_DROP 0 0).
Record p4_stats := P4Stats { st_frames_in : list Z; st_frames_out : list Z; st_frames_dropped : Z; st_frames_too_big : Z; st_parse_errors : Z }.
#[export] Instance p4_stats_eta : Eta p4_stats := fun r =>
  P4Stats (st_frames_in r) (st_frames_out r) (st_frames_dropped r) (st_frames_too_big r) (st_parse_errors r).
#[export] Instance p4_stats_zero : Inhabited p4_stats := populate (P4Stats [0; 0] [0; 0] 0 0 0).

(** Why a load was refused. *)
Inductive load_reason :=
  | LoadEmpty | LoadTooBig (total : Z) | LoadNoMemory (total : Z) | LoadNone | LoadNoData (offset : Z)
  | LoadOutOfOrder (offset got : Z) | LoadPastEnd (len offset total : Z) | LoadIncomplete (got total : Z) | LoadRefused | LoadNoTables.
(** [eg_load_buf]: the bytes received, the rest of the allocation apart. *)
Record p4_engine := P4Engine {
  eg_prog : option p4_program; eg_entries : p4_entries;
  eg_load_buf : option (list Z); eg_load_total : Z; eg_load_got : Z; eg_load_err : option load_reason; eg_stats : p4_stats }.
#[export] Instance p4_engine_eta : Eta p4_engine := fun r =>
  P4Engine (eg_prog r) (eg_entries r) (eg_load_buf r) (eg_load_total r) (eg_load_got r) (eg_load_err r) (eg_stats r).
Definition p4_engine_create : p4_engine := P4Engine None (P4Entries []) None 0 0 None inhabitant.

Section engine.
Context `{!Loader}.
Implicit Types eng : p4_engine.

(** ** RDMA operations and updates *)
Definition p4_engine_process_rdma {X} eng (ops : option (Z -> Z -> list (list Z) -> X -> Z * X)) (meta : p4_rdma_meta) (x : X) : Z * bool * X :=
  match eg_prog eng with
  | None => (- ENOENT, false, x)
  | Some prog => let '(rc, er, x) := p4_exec_run_meta prog (eg_entries eng) ops meta x in (rc, er_dropped er, x)
  end.
Definition p4_engine_update (mem : bool) eng (up : p4_update) : Z * p4_engine :=
  match eg_prog eng with
  | None => (- ENOENT, eng)
  | Some prog => let '(rc, entries) := p4_entries_update prog mem (eg_entries eng) up in (rc, eng <| eg_entries := entries |>)
  end.
Definition p4_engine_load_error eng : option load_reason := eg_load_err eng.
Definition p4_engine_has_program eng : bool := match eg_prog eng with Some _ => true | None => false end.

(** ** Loading *)
Definition p4_engine_load_abort eng : p4_engine := eng <| eg_load_buf := None |> <| eg_load_total := 0 |> <| eg_load_got := 0 |>.
Definition p4_engine_load_fail eng (why : load_reason) : p4_engine := eng <| eg_load_err := Some why |>.
Definition p4_engine_load_begin (mem : bool) eng (total_len : Z) : Z * p4_engine :=
  let eng := eng <| eg_load_err := None |> in
  if total_len =? 0 then (- EINVAL, p4_engine_load_fail eng LoadEmpty)
  else if P4_PROGRAM_MAX <? total_len then (- EINVAL, p4_engine_load_fail eng (LoadTooBig total_len))
  else
    let eng := p4_engine_load_abort eng in
    if negb mem then (- ENOMEM, p4_engine_load_fail eng (LoadNoMemory total_len))
    else (0, eng <| eg_load_buf := Some [] |> <| eg_load_total := total_len |> <| eg_load_got := 0 |>).
Definition p4_engine_load_chunk eng (offset : Z) (data : list Z) : Z * p4_engine :=
  let len := Z.of_nat (length data) in
  match eg_load_buf eng with
  | None => (- EINVAL, p4_engine_load_fail eng LoadNone)
  | Some buf =>
      if len =? 0 then (- EINVAL, p4_engine_load_abort (p4_engine_load_fail eng (LoadNoData offset)))
      else if negb (offset =? eg_load_got eng) then
        (- EINVAL, p4_engine_load_abort (p4_engine_load_fail eng (LoadOutOfOrder offset (eg_load_got eng))))
      else if eg_load_total eng - eg_load_got eng <? len then
        (- EINVAL, p4_engine_load_abort (p4_engine_load_fail eng (LoadPastEnd len offset (eg_load_total eng))))
      else (0, eng <| eg_load_buf := Some (buf ++ data) |> <| eg_load_got ::= fun got => got + len |>)
  end.
Definition p4_engine_load_commit (mem : bool) eng : Z * p4_engine :=
  let incomplete := (- EINVAL, p4_engine_load_abort (p4_engine_load_fail eng (LoadIncomplete (eg_load_got eng) (eg_load_total eng)))) in
  match eg_load_buf eng with
  | None => incomplete
  | Some buf =>
      if negb (eg_load_got eng =? eg_load_total eng) then incomplete
      else
        match load_program buf with
        | inl rc => (rc, p4_engine_load_abort (p4_engine_load_fail eng LoadRefused))
        | inr prog =>
            let eng := p4_engine_load_abort eng in
            if negb mem then (- ENOMEM, p4_engine_load_fail eng LoadNoTables)
            else (0, eng <| eg_prog := Some prog |> <| eg_entries := p4_entries_create |>)
        end
  end.
Definition p4_engine_load_progress eng : Z * Z := (eg_load_got eng, eg_load_total eng).

(** ** Frames *)
Definition p4_peer_port (port : Z) : Z := if port =? P4_PORT_HOST then P4_PORT_UPLINK else P4_PORT_HOST.
Definition bump (l : list Z) (port : Z) : list Z := alter (fun n => u64 (n + 1)) (Z.to_nat port) l.
Definition count_drop eng (parse_error : bool) : p4_engine :=
  let eng := if parse_error then eng <| eg_stats ::= fun s => s <| st_parse_errors ::= fun n => u64 (n + 1) |> |> else eng in
  eng <| eg_stats ::= fun s => s <| st_frames_dropped ::= fun n => u64 (n + 1) |> |>.
Definition count_out eng (port : Z) : p4_engine := eng <| eg_stats ::= fun s => s <| st_frames_out ::= fun l => bump l port |> |>.
(** The result, what is at [out], and the engine with its counters. *)
Definition p4_engine_process eng (in_port : Z) (frame : list Z) (out_cap : Z) (res : p4_result) : Z * p4_result * list Z * p4_engine :=
  let len := Z.of_nat (length frame) in
  if (len =? 0) || (P4_PORT_COUNT <=? in_port) then (- EINVAL, res, [], eng)
  else if P4_FRAME_MAX <? len then
    (- EMSGSIZE, res, [], eng <| eg_stats ::= fun s => s <| st_frames_too_big ::= fun n => u64 (n + 1) |> |>)
  else if out_cap <? len then (- ENOSPC, res, [], eng)
  else
    let eng := eng <| eg_stats ::= fun s => s <| st_frames_in ::= fun l => bump l in_port |> |> in
    match eg_prog eng with
    | Some prog =>
        let '(rc, er, out) := p4_exec_run prog (eg_entries eng) in_port (p4_peer_port in_port) frame out_cap inhabitant in
        if negb (rc =? 0) then (0, inhabitant, out, count_drop eng ((rc =? - EBADMSG) || (rc =? - EMSGSIZE)))
        else if er_dropped er then (0, inhabitant, out, count_drop eng false)
        else if negb (er_egress_assigned er) then
          (0, P4Result VERDICT_FORWARD (p4_peer_port in_port) (er_len er), out, count_out eng (p4_peer_port in_port))
        else if P4_PORT_COUNT <=? er_egress_spec er then (0, inhabitant, out, count_drop eng false)
        else (0, P4Result VERDICT_FORWARD (er_egress_spec er) (er_len er), out, count_out eng (er_egress_spec er))
    | None => (0, P4Result VERDICT_FORWARD (p4_peer_port in_port) len, frame, count_out eng (p4_peer_port in_port))
    end.
Definition p4_engine_get_stats eng : p4_stats := eg_stats eng.
End engine.
