(* ===== verification/P4EngineProps.v ===== *)
(** * What the engine promises

    Every engine reachable by loads, updates and frames, in any order, keeps
    [eng_inv]; [p4_engine_switches] says what it does with a frame,
    [p4_engine_load] what a load does, [p4_engine_conserves] what the counters
    add up to. *)
From S2P Require Export P4Engine.
From S2P Require Import P4Ex.

Section props.
Context {HL : Loader} {HLL : LoaderLaws}.
Implicit Types eng : p4_engine.

Inductive eng_op :=
  | OpBegin (mem : bool) (total : Z) | OpChunk (offset : Z) (data : list Z) | OpCommit (mem : bool) | OpAbort
  | OpUpdate (mem : bool) (up : p4_update) | OpProcess (in_port : Z) (frame : list Z) (out_cap : Z).
Definition op_ok (op : eng_op) : Prop :=
  match op with
  | OpBegin _ total => 0 <= total
  | OpChunk _ data => bytes_ok data
  | OpUpdate _ up => up_ok up
  | OpProcess in_port frame out_cap => fits 32 in_port /\ bytes_ok frame
  | _ => True
  end.
Definition eng_step eng (op : eng_op) : p4_engine :=
  match op with
  | OpBegin mem total => (p4_engine_load_begin mem eng total).2
  | OpChunk offset data => (p4_engine_load_chunk eng offset data).2
  | OpCommit mem => (p4_engine_load_commit mem eng).2
  | OpAbort => p4_engine_load_abort eng
  | OpUpdate mem up => (p4_engine_update mem eng up).2
  | OpProcess in_port frame out_cap => (p4_engine_process eng in_port frame out_cap inhabitant).2
  end.
Inductive eng_reach : p4_engine -> Prop :=
  | eng_created : eng_reach p4_engine_create
  | eng_stepped eng op : eng_reach eng -> op_ok op -> eng_reach (eng_step eng op).

(** ** The invariant *)
Definition loaded (prog : p4_program) : Prop :=
  exists b, bytes_ok b /\ 0 < Z.of_nat (length b) <= P4_PROGRAM_MAX /\ load_program b = inr prog.
(** The frames that are still in the engine, modulo the counters' width. *)
Definition balance (s : p4_stats) : Z := sumZ (st_frames_in s) - sumZ (st_frames_out s) - st_frames_dropped s.
Record eng_inv eng : Prop := {
  ei_prog prog : eg_prog eng = Some prog -> loaded prog /\ store_reach prog (eg_entries eng);
  ei_load : match eg_load_buf eng with
            | None => eg_load_total eng = 0 /\ eg_load_got eng = 0
            | Some b => bytes_ok b /\ eg_load_got eng = Z.of_nat (length b) /\ 0 < eg_load_total eng <= P4_PROGRAM_MAX /\ eg_load_got eng <= eg_load_total eng
            end;
  ei_ports : length (st_frames_in (eg_stats eng)) = 2%nat /\ length (st_frames_out (eg_stats eng)) = 2%nat;
  ei_balance : balance (eg_stats eng) mod 2 ^ 64 = 0 }.
Lemma created_inv : eng_inv p4_engine_create.
Proof. by split. Qed.
(** What the loads and the counters leave alone. *)
Lemma abort_inv eng : eng_inv eng -> eng_inv (p4_engine_load_abort eng).
Proof. intros []. by split. Qed.
Lemma fail_inv eng why : eng_inv eng -> eng_inv (p4_engine_load_fail eng why).
Proof. intros []. by split. Qed.
Lemma begin_inv mem eng total : eng_inv eng -> 0 <= total -> eng_inv (p4_engine_load_begin mem eng total).2.
Proof.
  intros [Hp Hl Hs Hb] Ht. unfold p4_engine_load_begin. destruct (Z.eqb_spec total 0); [by split|].
  destruct (Z.ltb_spec P4_PROGRAM_MAX total); [by split|]. destruct mem; split; try done. cbn. split_and!; [constructor|done|lia..].
Qed.
Lemma chunk_inv eng offset data : eng_inv eng -> bytes_ok data -> eng_inv (p4_engine_load_chunk eng offset data).2.
Proof.
  intros Hi Hd. unfold p4_engine_load_chunk. pose proof (ei_load _ Hi) as Hl. destruct (eg_load_buf eng) as [b|] eqn:Hb; [|by apply fail_inv].
  destruct (Z.of_nat (length data) =? 0); [by apply abort_inv, fail_inv|]. destruct (negb _); [by apply abort_inv, fail_inv|].
  destruct (Z.ltb_spec (eg_load_total eng - eg_load_got eng) (Z.of_nat (length data))); [by apply abort_inv, fail_inv|].
  destruct Hi as [Hp _ Hs Hbal], Hl as (Hbb & Hg & Ht & Hle). split; try done. cbn. rewrite length_app, Nat2Z.inj_add. split_and!; [by apply Forall_app_2|lia..].
Qed.
Lemma commit_inv mem eng : eng_inv eng -> eng_inv (p4_engine_load_commit mem eng).2.
Proof.
  intros Hi. unfold p4_engine_load_commit. pose proof (ei_load _ Hi) as Hl. destruct (eg_load_buf eng) as [b|] eqn:Hb; [|by apply abort_inv, fail_inv].
  destruct (Z.eqb_spec (eg_load_got eng) (eg_load_total eng)) as [He|]; cbn [negb]; [|by apply abort_inv, fail_inv].
  destruct (load_program b) as [rc|prog] eqn:Hparse; [by apply abort_inv, fail_inv|]. destruct mem; [|by apply fail_inv, abort_inv].
  apply abort_inv in Hi. destruct Hi as [_ Hl' Hs Hbal], Hl as (Hbb & Hg & Ht & Hle). split; try done. cbn. intros ? [= <-]. split; [|constructor].
  exists b. split_and!; [done|lia..|done].
Qed.
Lemma update_inv mem eng up : eng_inv eng -> up_ok up -> eng_inv (p4_engine_update mem eng up).2.
Proof.
  intros Hi Hup. unfold p4_engine_update. destruct (eg_prog eng) as [prog|] eqn:Hprog; [|done]. destruct (ei_prog _ Hi prog Hprog) as [Hld Hr].
  pose proof (store_updated prog mem (eg_entries eng) up Hr Hup) as Hr'. destruct (p4_entries_update prog mem (eg_entries eng) up) as [rc ent].
  destruct Hi as [_ Hl Hs Hb]. split; try done. cbn. intros ? Hp. rewrite Hprog in Hp. injection Hp as <-. done.
Qed.

(** ** Frames *)
(** Where a frame of that fate goes, and as what. *)
Definition carried (in_port : Z) (f : fate) : option (Z * list Z) :=
  match f with
  | Sent None out => Some (p4_peer_port in_port, out)
  | Sent (Some port) out => if port <? P4_PORT_COUNT then Some (port, out) else None
  | _ => None
  end.
Definition result_of (c : option (Z * list Z)) : p4_result :=
  match c with Some (port, out) => P4Result VERDICT_FORWARD port (Z.of_nat (length out)) | None => inhabitant end.
Definition counted (in_port : Z) (c : option (Z * list Z)) (s s' : p4_stats) : Prop :=
  st_frames_in s' = bump (st_frames_in s) in_port /\ st_frames_too_big s' = st_frames_too_big s /\
  match c with
  | Some (port, _) => st_frames_out s' = bump (st_frames_out s) port /\ st_frames_dropped s' = st_frames_dropped s /\ st_parse_errors s' = st_parse_errors s
  | None => st_frames_out s' = st_frames_out s /\ st_frames_dropped s' = u64 (st_frames_dropped s + 1)
  end.
Definition meets eng (in_port : Z) (frame : list Z) (cap : Z) (f : fate) : Prop :=
  match eg_prog eng with
  | Some prog => switches prog (eg_entries eng) in_port (p4_peer_port in_port) frame cap f
  | None => f = Sent None frame
  end.
(** Nothing but the counters. *)
Definition unchanged eng eng' : Prop :=
  eg_prog eng' = eg_prog eng /\ eg_entries eng' = eg_entries eng /\ eg_load_buf eng' = eg_load_buf eng /\
  eg_load_total eng' = eg_load_total eng /\ eg_load_got eng' = eg_load_got eng /\ eg_load_err eng' = eg_load_err eng.
Definition takes (in_port : Z) (frame : list Z) (cap : Z) : Prop :=
  0 <= in_port < P4_PORT_COUNT /\ 0 < Z.of_nat (length frame) <= P4_FRAME_MAX /\ Z.of_nat (length frame) <= cap.
Lemma process_takes eng in_port frame cap res :
  eng_inv eng -> takes in_port frame cap -> bytes_ok frame ->
  let '(rc, res', out, eng') := p4_engine_process eng in_port frame cap res in
  exists f, let c := carried in_port f in
  meets eng in_port frame cap f /\ rc = 0 /\ res' = result_of c /\ (forall port o, c = Some (port, o) -> out = o) /\
  counted in_port c (eg_stats eng) (eg_stats eng') /\ unchanged eng eng'.
Proof.
  intros Hi (Hport & Hlen & Hcap) Hframe. unfold p4_engine_process, meets. unfold P4_PORT_COUNT in *.
  rewrite (proj2 (Z.eqb_neq (Z.of_nat (length frame)) 0)), (proj2 (Z.leb_gt 2 in_port)) by lia. cbn [orb].
  rewrite (proj2 (Z.ltb_ge P4_FRAME_MAX _)), (proj2 (Z.ltb_ge cap _)) by lia.
  set (eng1 := eng <| eg_stats ::= _ |>). change (eg_prog eng1) with (eg_prog eng). change (eg_entries eng1) with (eg_entries eng).
  destruct (eg_prog eng) as [prog|] eqn:Hprog.
  2: { exists (Sent None frame). split_and!; try done. by intros ?? [= _ <-]. }
  destruct (ei_prog _ Hi prog Hprog) as [(b & _ & _ & Hb) Hr].
  assert (fits 32 in_port) as Hin by (unfold fits; lia). assert (fits 32 (p4_peer_port in_port)) as Hpeer by (unfold p4_peer_port; by case_match).
  pose proof (exec_refines prog (eg_entries eng) in_port (p4_peer_port in_port) frame cap inhabitant (parse_accepts _ _ Hb) Hr Hframe Hin Hpeer ltac:(lia)) as [Hsw Hout].
  destruct (p4_exec_run prog (eg_entries eng) in_port (p4_peer_port in_port) frame cap inhabitant) as [[rc er] out]. cbn [fst snd] in Hout.
  assert (forall pe, counted in_port None (eg_stats eng) (eg_stats (count_drop eng1 pe)) /\ unchanged eng (count_drop eng1 pe)) as Hdrop by (by intros []).
  destruct (Z.eqb_spec rc 0) as [->|Hrc]; cbn [negb]; [|rewrite fate_failed in Hsw by done; exists (Failed rc); do 4 (split; [done|]); apply Hdrop].
  specialize (Hout eq_refl). change (fate_of _) with (if er_dropped er then Dropped else Sent (if er_egress_assigned er then Some (er_egress_spec er) else None) out) in Hsw.
  destruct (er_dropped er); [exists Dropped; do 4 (split; [done|]); apply Hdrop|].
  destruct (er_egress_assigned er); cbn [negb].
  2: { exists (Sent None out). do 2 (split; [done|]). split; [by rewrite Hout|]. split; [by intros ?? [= _ <-]|]. done. }
  unfold P4_PORT_COUNT. destruct (Z.leb_spec 2 (er_egress_spec er)) as [Hle|Hlt]; exists (Sent (Some (er_egress_spec er)) out); cbn [carried]; unfold P4_PORT_COUNT.
  - rewrite (proj2 (Z.ltb_ge _ _)) by done. do 4 (split; [done|]). apply Hdrop.
  - rewrite (proj2 (Z.ltb_lt _ _)) by done. do 2 (split; [done|]). split; [by rewrite Hout|]. split; [by intros ?? [= _ <-]|]. done.
Qed.
Lemma bump_sum l port : (Z.to_nat port < length l)%nat -> exists k, sumZ (bump l port) = sumZ l + 1 + k * 2 ^ 64.
Proof.
  unfold bump. generalize (Z.to_nat port). induction l as [|n l IH]; intros [|i] Hi; cbn in Hi; try lia.
  - exists (- ((n + 1) / 2 ^ 64)). change (alter _ 0%nat (n :: l)) with (u64 (n + 1) :: l). unfold sumZ. cbn [foldr]. unfold u64, wrap.
    rewrite Z.mod_eq by lia. lia.
  - destruct (IH i) as [k Hk]; [lia|]. exists k. change (alter ?f (S i) (n :: l)) with (n :: alter f i l). unfold sumZ in *. cbn [foldr]. lia.
Qed.
Lemma counted_balance in_port c s s' :
  counted in_port c s s' -> (Z.to_nat in_port < length (st_frames_in s))%nat -> (forall port o, c = Some (port, o) -> (Z.to_nat port < length (st_frames_out s))%nat) ->
  balance s mod 2 ^ 64 = 0 -> balance s' mod 2 ^ 64 = 0.
Proof.
  intros (Hin & _ & Hc) Hl Ho Hb. unfold balance in *. rewrite Hin. destruct (bump_sum _ _ Hl) as [k ->]. destruct c as [[port o]|].
  - destruct Hc as (-> & -> & _). destruct (bump_sum _ port (Ho _ _ eq_refl)) as [j ->]. etrans; [|exact Hb]. rewrite <-(Z.mod_add (sumZ _ - sumZ (st_frames_out s) - _) (k - j) (2 ^ 64)) by lia. f_equal. lia.
  - destruct Hc as (-> & ->). unfold u64, wrap. rewrite (Z.mod_eq (st_frames_dropped s + 1)) by lia.
    etrans; [|exact Hb]. rewrite <-(Z.mod_add (_ - _ - st_frames_dropped s) (k + (st_frames_dropped s + 1) / 2 ^ 64) (2 ^ 64)) by lia. f_equal. lia.
Qed.
Lemma bump_length l port : length (bump l port) = length l.
Proof. apply length_alter. Qed.
Lemma carried_port in_port f port o : carried in_port f = Some (port, o) -> (Z.to_nat port < 2)%nat.
Proof.
  destruct f as [| |[q|] out]; try done; cbn [carried].
  - unfold P4_PORT_COUNT. destruct (Z.ltb_spec q 2); [|done]. intros [= <- _]. lia.
  - intros [= <- _]. unfold p4_peer_port. case_match; unfold P4_PORT_UPLINK, P4_PORT_HOST; lia.
Qed.
Lemma process_inv eng in_port frame cap : eng_inv eng -> fits 32 in_port -> bytes_ok frame -> eng_inv (p4_engine_process eng in_port frame cap inhabitant).2.
Proof.
  intros Hi Hin Hf. destruct (decide (takes in_port frame cap)) as [Ht|Hn].
  - pose proof (process_takes eng in_port frame cap inhabitant Hi Ht Hf) as H. destruct (p4_engine_process eng in_port frame cap inhabitant) as [[[rc res] out] eng'].
    destruct H as (f & _ & _ & _ & _ & Hc & (Hp & He & Hb & Htot & Hg & _)). destruct Hi as [Hprog Hl [Hli Hlo] Hbal]. destruct Ht as [Hport _]. unfold P4_PORT_COUNT in Hport.
    split; cbn [snd].
    + intros prog. rewrite Hp, He. apply Hprog.
    + by rewrite Hb, Htot, Hg.
    + destruct Hc as (-> & _ & Hc). rewrite bump_length. split; [done|]. destruct (carried in_port f) as [[port o]|]; destruct Hc as (-> & _); by rewrite ?bump_length.
    + eapply counted_balance; [done|lia| |done]. intros port o Hcar. rewrite Hlo. by eapply carried_port.
  - unfold p4_engine_process. destruct ((Z.of_nat (length frame) =? 0) || (P4_PORT_COUNT <=? in_port)) eqn:H1; [done|].
    apply orb_false_iff in H1 as [H1%Z.eqb_neq H2%Z.leb_gt]. destruct (Z.ltb_spec P4_FRAME_MAX (Z.of_nat (length frame))); [by destruct Hi|].
    destruct (Z.ltb_spec cap (Z.of_nat (length frame))); [done|]. destruct Hn. unfold takes, fits in *. lia.
Qed.
Lemma reach_inv eng : eng_reach eng -> eng_inv eng.
Proof.
  induction 1 as [|eng op _ IH Hop]; [exact created_inv|]. destruct op; cbn [eng_step op_ok] in *.
  - by apply begin_inv.
  - by apply chunk_inv.
  - by apply commit_inv.
  - by apply abort_inv.
  - by apply update_inv.
  - destruct Hop. by apply process_inv.
Qed.

(** ** A load from start to end *)
Definition run_chunks (chunks : list (Z * list Z)) eng : p4_engine := foldl (fun eng c => (p4_engine_load_chunk eng c.1 c.2).2) eng chunks.
(** Each chunk is there, and starts where the last one ended. *)
Fixpoint in_order (got : Z) (chunks : list (Z * list Z)) : Prop :=
  match chunks with
  | [] => True
  | (offset, data) :: chunks => offset = got /\ data <> [] /\ in_order (got + Z.of_nat (length data)) chunks
  end.
Definition text (chunks : list (Z * list Z)) : list Z := mjoin (chunks.*2).
Lemma text_cons c chunks : text (c :: chunks) = c.2 ++ text chunks.
Proof. done. Qed.
Lemma chunk_keeps eng offset data : let e := (p4_engine_load_chunk eng offset data).2 in eg_prog e = eg_prog eng /\ eg_entries e = eg_entries eng.
Proof. unfold p4_engine_load_chunk. by repeat case_match. Qed.
Lemma chunks_keep chunks eng : eg_prog (run_chunks chunks eng) = eg_prog eng /\ eg_entries (run_chunks chunks eng) = eg_entries eng.
Proof.
  revert eng. induction chunks as [|c chunks IH]; intros eng; [done|]. cbn [run_chunks foldl]. fold (run_chunks chunks (p4_engine_load_chunk eng c.1 c.2).2).
  destruct (IH (p4_engine_load_chunk eng c.1 c.2).2) as [-> ->]. apply chunk_keeps.
Qed.
(** An abandoned load stays so. *)
Lemma chunks_none chunks eng : eg_load_buf eng = None -> eg_load_buf (run_chunks chunks eng) = None.
Proof.
  revert eng. induction chunks as [|c chunks IH]; intros eng Hn; [done|]. cbn [run_chunks foldl]. apply IH. unfold p4_engine_load_chunk. by rewrite Hn.
Qed.
Lemma chunks_run chunks eng b total : eg_load_buf eng = Some b -> eg_load_got eng = Z.of_nat (length b) -> eg_load_total eng = total -> Z.of_nat (length b) <= total ->
  let e := run_chunks chunks eng in
  match eg_load_buf e with
  | Some b' => b' = b ++ text chunks /\ in_order (Z.of_nat (length b)) chunks /\ eg_load_got e = Z.of_nat (length b') /\ eg_load_total e = total
  | None => ~ (in_order (Z.of_nat (length b)) chunks /\ Z.of_nat (length (b ++ text chunks)) <= total)
  end.
Proof.
  revert eng b. induction chunks as [|[offset data] chunks IH]; intros eng b Hb Hg Ht Hle; cbv zeta.
  { cbn [run_chunks foldl]. rewrite Hb. cbn. by rewrite app_nil_r. }
  change (run_chunks ((offset, data) :: chunks) eng) with (run_chunks chunks (p4_engine_load_chunk eng offset data).2). cbn [in_order]. rewrite text_cons. cbn [snd].
  unfold p4_engine_load_chunk. rewrite Hb, Hg, Ht.
  destruct (Z.eqb_spec (Z.of_nat (length data)) 0) as [H0|H0].
  { rewrite chunks_none by done. intros [(_ & Hne & _) _]. by destruct data. }
  assert (data <> []) as Hne by (by intros ->). destruct (Z.eqb_spec offset (Z.of_nat (length b))) as [->|Hoff]; cbn [negb].
  2: { rewrite chunks_none by done. by intros [(? & _) _]. }
  destruct (Z.ltb_spec (total - Z.of_nat (length b)) (Z.of_nat (length data))) as [Hlt|Hge].
  { rewrite chunks_none by done. intros [_ Hlen]. rewrite !length_app in Hlen. lia. }
  cbn [snd]. set (e1 := eng <| eg_load_buf := _ |> <| eg_load_got ::= _ |>).
  assert (length (b ++ data) = (length b + length data)%nat) as Hl by (by rewrite length_app).
  specialize (IH e1 (b ++ data) eq_refl). cbv zeta in IH. rewrite Hl, Nat2Z.inj_add, <-app_assoc in IH.
  specialize (IH ltac:(subst e1; cbn; lia) Ht ltac:(lia)). destruct (eg_load_buf (run_chunks chunks e1)); tauto.
Qed.
Lemma begin_ok eng total : 0 < total <= P4_PROGRAM_MAX ->
  let e := (p4_engine_load_begin true eng total).2 in
  eg_load_buf e = Some [] /\ eg_load_got e = 0 /\ eg_load_total e = total /\ eg_prog e = eg_prog eng /\ eg_entries e = eg_entries eng.
Proof.
  intros Ht. unfold p4_engine_load_begin. rewrite (proj2 (Z.eqb_neq _ _)), (proj2 (Z.ltb_ge _ _)) by lia. done.
Qed.
Definition load eng (total : Z) (chunks : list (Z * list Z)) : Z * p4_engine :=
  p4_engine_load_commit true (run_chunks chunks (p4_engine_load_begin true eng total).2).
Lemma load_spec eng total chunks : 0 < total <= P4_PROGRAM_MAX ->
  let '(rc, eng') := load eng total chunks in
  eg_load_buf eng' = None /\
  match load_program (text chunks) with
  | inr prog =>
      if decide (rc = 0) then in_order 0 chunks /\ total = Z.of_nat (length (text chunks)) /\ eg_prog eng' = Some prog /\ eg_entries eng' = p4_entries_create
      else ~ (in_order 0 chunks /\ total = Z.of_nat (length (text chunks))) /\ eg_prog eng' = eg_prog eng /\ eg_entries eng' = eg_entries eng /\
        is_Some (p4_engine_load_error eng')
  | inl _ => rc <> 0 /\ eg_prog eng' = eg_prog eng /\ eg_entries eng' = eg_entries eng /\ is_Some (p4_engine_load_error eng')
  end.
Proof.
  intros Ht. unfold load. destruct (begin_ok eng total Ht) as (Hb & Hg & Htot & Hp & He). set (e0 := (p4_engine_load_begin true eng total).2) in *.
  pose proof (chunks_run chunks e0 [] total Hb Hg Htot ltac:(cbn; lia)) as H. cbv zeta in H. destruct (chunks_keep chunks e0) as [Hp1 He1].
  set (e1 := run_chunks chunks e0) in *. unfold p4_engine_load_commit.
  destruct (eg_load_buf e1) as [b|].
  - destruct H as (-> & Hord & Hg1 & Ht1). rewrite Hg1, Ht1. cbn [app length] in *. destruct (Z.eqb_spec (Z.of_nat (length (text chunks))) total) as [Heq|Hne]; cbn [negb].
    + destruct (load_program (text chunks)) as [rc|prog] eqn:Hparse.
      * split; [done|]. apply parse_refuses in Hparse. cbn. rewrite Hp1, He1. split_and!; [lia|done|done|by eexists].
      * split; [done|]. rewrite decide_True by done. done.
    + split; [done|]. cbn. rewrite Hp1, He1. destruct (load_program (text chunks)); [split_and!; try done; by eexists|].
      split_and!; [|done|done|by eexists]. intros [_ ?]. lia.
  - split; [done|]. cbn. rewrite Hp1, He1. destruct (load_program (text chunks)); [split_and!; try done; by eexists|].
    split_and!; [|done|done|by eexists]. intros [Ho ->]. apply H. split; [done|]. cbn. lia.
Qed.
End props.

(** A loader with one program, for the examples. *)
Definition px_loader : Loader := fun b => if decide (b = [0x7b; 0x7d]) then inr px else inl (- EINVAL).
Lemma px_loader_laws : @LoaderLaws px_loader.
Proof.
  split; intros b ?; unfold load_program, px_loader; case_decide; try done; [intros [= <-]; exact px_ok|by intros [= <-]].
Qed.
(** The program loaded in two chunks, and a route added. *)
Definition px_eng : p4_engine :=
  foldl (@eng_step px_loader) p4_engine_create
    [OpBegin true 2; OpChunk 0 [0x7b]; OpChunk 1 [0x7d]; OpCommit true; OpUpdate true px_short; OpUpdate true px_long].
Lemma px_eng_reach : @eng_reach px_loader px_eng.
Proof.
  unfold px_eng. cbn [foldl]. do 6 (apply eng_stepped; [|first [exact px_short_ok|exact px_long_ok|by apply (bool_decide_unpack _); vm_compute|done]]). constructor.
Qed.

(** C19: however loads, aborted loads, updates and frames are interleaved: the
    program is one the loader accepted, from a text of at most four megabytes,
    so it is well formed; the entries are ones updates of that program built;
    and the frames that came in are those sent out and those dropped. *)
Theorem p4_engine_invariant {HL : Loader} {HLL : LoaderLaws} eng :
  eng_reach eng ->
  (forall prog, eg_prog eng = Some prog -> loaded prog /\ prog_ok prog /\ store_reach prog (eg_entries eng)) /\
  sumZ (st_frames_in (eg_stats eng)) mod 2 ^ 64 =
    (sumZ (st_frames_out (eg_stats eng)) + st_frames_dropped (eg_stats eng)) mod 2 ^ 64.
Proof.
  intros [Hp _ _ Hb]%reach_inv. split.
  - intros prog Hprog. destruct (Hp prog Hprog) as [Hl Hr]. split_and!; [done| |done]. destruct Hl as (b & _ & _ & Hparse). by eapply parse_accepts.
  - unfold balance in Hb. apply Z.mod_divide in Hb as [k Hk]; [|lia].
    rewrite <-(Z.mod_add (sumZ (st_frames_out _) + _) k) by lia. f_equal. lia.
Qed.
Lemma p4_engine_invariant_witness :
  eg_prog px_eng = Some px /\ store_reach px (eg_entries px_eng).
Proof.
  split; [vm_compute; reflexivity|]. destruct (@p4_engine_invariant px_loader px_loader_laws px_eng px_eng_reach) as [H _].
  apply (H px). vm_compute. reflexivity.
Defined.

(** A frame in a reachable engine, of a size and at a port the engine takes:
    with no program it goes out of the other port unchanged; with one it goes
    where its fate says.  A frame that the program fails on, drops, or sends
    to a port the device does not have is dropped, and counted as dropped;
    any other is counted out of the port it takes. *)
Theorem p4_engine_switches {HL : Loader} {HLL : LoaderLaws} eng in_port frame cap res :
  eng_reach eng -> takes in_port frame cap -> bytes_ok frame ->
  let '(rc, res', out, eng') := p4_engine_process eng in_port frame cap res in
  exists f, let c := carried in_port f in
  meets eng in_port frame cap f /\ rc = 0 /\ res' = result_of c /\ (forall port o, c = Some (port, o) -> out = o) /\
  counted in_port c (eg_stats eng) (eg_stats eng') /\ unchanged eng eng'.
Proof. intros Hr. apply process_takes. by apply reach_inv. Qed.
Lemma p4_engine_switches_witness :
  let frame := [2; 1; 0; 0; 0; 9] ++ [2; 0; 0; 0; 0; 1] ++ [8; 0] ++ [7; 8; 9] in
  let '(rc, res', out, eng') := @p4_engine_process px_eng 0 frame 64 inhabitant in
  res' = P4Result VERDICT_FORWARD 1 17 /\
  exists f, let c := carried 0 f in
  meets px_eng 0 frame 64 f /\ rc = 0 /\ res' = result_of c /\ (forall port o, c = Some (port, o) -> out = o) /\
  counted 0 c (eg_stats px_eng) (eg_stats eng') /\ unchanged px_eng eng'.
Proof.
  cbv zeta. set (frame := _ ++ _ ++ _ ++ _).
  assert (takes 0 frame 64) as Ht by (by vm_compute). assert (bytes_ok frame) as Hb by (apply (bool_decide_unpack _); by vm_compute).
  pose proof (@p4_engine_switches px_loader px_loader_laws px_eng 0 frame 64 inhabitant px_eng_reach Ht Hb) as H.
  destruct (p4_engine_process px_eng 0 frame 64 inhabitant) as [[[rc res'] out] eng'] eqn:He. split; [|exact H].
  apply (f_equal (fun p => snd (fst (fst p)))) in He. vm_compute in He. by cbn.
Defined.

(** A load of a size the engine takes, whatever came before it: the chunks are
    accepted, and their text becomes the program with empty tables, exactly
    when they come in order, without gaps, none empty, with the announced
    size in all, and the loader accepts the text.  Otherwise the program and
    its entries stay, and there is a reason to report.  No load is left in
    progress. *)
Theorem p4_engine_load {HL : Loader} {HLL : LoaderLaws} eng total chunks :
  0 < total <= P4_PROGRAM_MAX ->
  let '(rc, eng') := load eng total chunks in
  eg_load_buf eng' = None /\
  match load_program (text chunks) with
  | inr prog =>
      if decide (rc = 0) then in_order 0 chunks /\ total = Z.of_nat (length (text chunks)) /\ eg_prog eng' = Some prog /\ eg_entries eng' = p4_entries_create
      else ~ (in_order 0 chunks /\ total = Z.of_nat (length (text chunks))) /\ eg_prog eng' = eg_prog eng /\ eg_entries eng' = eg_entries eng /\
        is_Some (p4_engine_load_error eng')
  | inl _ => rc <> 0 /\ eg_prog eng' = eg_prog eng /\ eg_entries eng' = eg_entries eng /\ is_Some (p4_engine_load_error eng')
  end.
Proof. apply load_spec. Qed.
Lemma p4_engine_load_witness :
  let '(rc, eng') := @load px_loader px_eng 2 [(0, [0x7b]); (1, [0x7d])] in
  rc = 0 /\ eg_load_buf eng' = None.
Proof.
  pose proof (@p4_engine_load px_loader px_loader_laws px_eng 2 [(0, [0x7b]); (1, [0x7d])] ltac:(done)) as H.
  destruct (@load px_loader px_eng 2 [(0, [0x7b]); (1, [0x7d])]) as [rc eng'] eqn:He. split; [|apply H].
  apply (f_equal fst) in He. vm_compute in He. by cbn.
Defined.

(** A begin that is refused for its size leaves a load in progress as it is,
    with a reason to report that is not about it: the load can still be
    completed and committed, and the reason stays. *)
Lemma failed_begin_keeps_load :
  let e := foldl (@eng_step px_loader) p4_engine_create [OpBegin true 2; OpChunk 0 [0x7b]; OpBegin true 0; OpChunk 1 [0x7d]] in
  let '(rc, e') := @p4_engine_load_commit px_loader true e in
  rc = 0 /\ p4_engine_has_program e' = true /\ p4_engine_load_error e' = Some LoadEmpty.
Proof. by vm_compute. Qed.
