(* ===== verification/P4Devcmd.v ===== *)
(** * The guest's way in to the P4 engine (p4_devcmd.c), and the limit on what
    it can have logged (ernic_log.c)

    The three commands, their wire structures as offsets into the 64 bytes of
    a command and into the request, and the check of the operator's grant.
    Guest memory is [GuestMem] and the loader [Loader].  Whether each
    allocation of a command succeeds, and what its clock reads, are the
    command's [p4_io]; what is logged is a list of values, a constructor for
    each message. *)
From stdpp Require Import strings.
From S2P Require Export Dma P4EngineProps.

(** ** Limited logging *)
Definition ERNIC_LOG_LIMIT_BURST : Z := 10.
Definition ERNIC_LOG_LIMIT_MS : Z := 5000.
Record ErnicLogLimit := LogLimit { ll_start_ms : Z; ll_logged : Z; ll_held : Z }.
#[export] Instance log_limit_eta : Eta ErnicLogLimit := fun r => LogLimit (ll_start_ms r) (ll_logged r) (ll_held r).
#[export] Instance log_limit_zero : Inhabited ErnicLogLimit := populate (LogLimit 0 0 0).

(** Whether to log, and the lines held back since the last one logged. *)
Definition ernic_log_limit (now_ms : Z) (lim : ErnicLogLimit) : bool * Z * ErnicLogLimit :=
  let lim :=
    if (now_ms <? ll_start_ms lim) || (ERNIC_LOG_LIMIT_MS <=? u64 (now_ms - ll_start_ms lim))
    then lim <| ll_start_ms := now_ms |> <| ll_logged := 0 |> else lim in
  if ERNIC_LOG_LIMIT_BURST <=? ll_logged lim then (false, 0, lim <| ll_held ::= fun n => u64 (n + 1) |>)
  else (true, ll_held lim, lim <| ll_logged ::= fun n => u32 (n + 1) |> <| ll_held := 0 |>).

(** ** Scopes and operations *)
Definition IONIC_CMD_P4_IDENT : Z := 70.
Definition IONIC_CMD_P4_RPC : Z := 71.
Definition IONIC_CMD_P4_QUERY : Z := 72.
Definition P4_SCOPE_NONE : Z := 0.
Definition P4_SCOPE_READ : Z := 1.
Definition P4_SCOPE_WRITE : Z := 2.
Definition P4_SCOPE_LOAD : Z := 3.
Definition P4_EP_PROGRAM : Z := 1.
Definition P4_EP_TABLE : Z := 2.
Definition P4_EP_STATS : Z := 3.
Definition P4_OP_LOAD_BEGIN : Z := 1.
Definition P4_OP_LOAD_CHUNK : Z := 2.
Definition P4_OP_LOAD_COMMIT : Z := 3.
Definition P4_OP_LOAD_ABORT : Z := 4.
Definition P4_OP_ENTRY_UPDATE : Z := 1.
Definition P4_OP_STATS_READ : Z := 1.
Definition P4_QUERY_ROOT : Z := 0.
Definition P4_QUERY_ENDPOINT : Z := 1.

Definition P4_STS_OK : Z := 0.
Definition P4_STS_EOPCODE : Z := 1.
Definition P4_STS_EPERM : Z := 2.
Definition P4_STS_EINVAL : Z := 3.
Definition P4_STS_ERANGE : Z := 4.
Definition P4_STS_EFAULT : Z := 5.
Definition P4_STS_ENOENT : Z := 6.
Definition P4_STS_EEXIST : Z := 7.
Definition P4_STS_ENOSPC : Z := 8.
Definition P4_STS_EDEVICE : Z := 10.

Definition P4_DEVCMD_NAME_MAX : nat := 63.
Definition P4_DEVCMD_REQ_MAX : Z := 64 * 1024.
Definition P4_DEVCMD_RESP_MAX : Z := 4 * 1024.
Definition P4_DEVCMD_IDENT_LEN : Z := 32.
Definition P4_QUERY_HDR_LEN : Z := 16.
Definition P4_QUERY_ENDPOINT_LEN : Z := 4.
Definition P4_QUERY_OPERATION_LEN : Z := 8.
Definition P4_LOAD_BEGIN_LEN : Z := 8.
Definition P4_LOAD_CHUNK_LEN : Z := 16.
Definition P4_RPC_ENTRY_UPDATE_LEN : nat := 140.
Definition P4_RPC_ENTRY_MATCH_LEN : nat := 36.
Definition P4_RPC_ENTRY_PARAM_LEN : nat := 20.
Definition P4_RPC_STATS_LEN : Z := 56.

Record p4_op_def := P4OpDef { od_ep : Z; od_op : Z; od_scope : Z }.
Definition p4_ops : list p4_op_def :=
  [P4OpDef P4_EP_PROGRAM P4_OP_LOAD_BEGIN P4_SCOPE_LOAD; P4OpDef P4_EP_PROGRAM P4_OP_LOAD_CHUNK P4_SCOPE_LOAD;
   P4OpDef P4_EP_PROGRAM P4_OP_LOAD_COMMIT P4_SCOPE_LOAD; P4OpDef P4_EP_PROGRAM P4_OP_LOAD_ABORT P4_SCOPE_LOAD;
   P4OpDef P4_EP_TABLE P4_OP_ENTRY_UPDATE P4_SCOPE_WRITE; P4OpDef P4_EP_STATS P4_OP_STATS_READ P4_SCOPE_READ].
Definition p4_endpoints : list Z := [P4_EP_PROGRAM; P4_EP_TABLE; P4_EP_STATS].
Definition scope_names : list (cstr * Z) :=
  [(chars "none"%string, P4_SCOPE_NONE); (chars "read"%string, P4_SCOPE_READ); (chars "write"%string, P4_SCOPE_WRITE); (chars "load"%string, P4_SCOPE_LOAD)].
Definition p4_scope_parse (name : cstr) : option Z := snd ∘ snd <$> list_find (fun x => x.1 = name) scope_names.
Definition p4_scope_name (scope : Z) : cstr :=
  if scope =? P4_SCOPE_NONE then chars "none"%string else if scope =? P4_SCOPE_READ then chars "read"%string
  else if scope =? P4_SCOPE_WRITE then chars "write"%string else if scope =? P4_SCOPE_LOAD then chars "load"%string else chars "?"%string.
Definition p4_find_op (ep op : Z) : option p4_op_def := snd <$> list_find (fun d => od_ep d = ep /\ od_op d = op) p4_ops.

(** Map an engine errno onto the set the guest sees. *)
Definition p4_status_of (rc : Z) : Z :=
  if rc =? 0 then P4_STS_OK else if rc =? - EINVAL then P4_STS_EINVAL else if rc =? - ENOENT then P4_STS_ENOENT
  else if rc =? - EEXIST then P4_STS_EEXIST else if rc =? - ENOSPC then P4_STS_ENOSPC else P4_STS_EDEVICE.

(** ** The module *)
Record p4_devcmd := P4Devcmd { pd_eng : p4_engine; pd_scope : Z; pd_log_update : ErnicLogLimit; pd_log_commit : ErnicLogLimit; pd_log_opcode : ErnicLogLimit }.
#[export] Instance p4_devcmd_eta : Eta p4_devcmd := fun r => P4Devcmd (pd_eng r) (pd_scope r) (pd_log_update r) (pd_log_commit r) (pd_log_opcode r).
Definition p4_devcmd_create (eng : p4_engine) (scope : Z) : p4_devcmd := P4Devcmd eng scope inhabitant inhabitant inhabitant.

(** What is logged: the lines of each kind held back, and the three lines.
    A refused update's message names its table or its action. *)
Inductive p4_line :=
  | LineHeldUpdates (n : Z) | LineHeldPrograms (n : Z) | LineHeldOpcodes (n : Z)
  | LineUpdateRefused (table action : cstr) (rc : Z) | LineProgramRefused (why : option load_reason) | LineOpcode (opcode : Z).
Record p4_io := P4Io { io_now_ms : Z; io_req : bool; io_resp : bool; io_eng : bool }.
Record p4_host (M : Type) := P4Host { ph_pd : p4_devcmd; ph_mem : M; ph_log : list p4_line }.
Arguments P4Host {M}. Arguments ph_pd {M}. Arguments ph_mem {M}. Arguments ph_log {M}.
#[export] Instance p4_host_eta {M} : Eta (p4_host M) := fun r => P4Host (ph_pd r) (ph_mem r) (ph_log r).

Section devcmd.
Context {M : Type} {GM : GuestMem M} {HL : Loader}.
Abbreviation PH := (ST (p4_host M)).
Variable io : p4_io.

Definition vfu_log (l : p4_line) : PH unit := modify (fun h => h <| ph_log ::= fun ls => ls ++ [l] |>).
Definition ernic_dma_put (pa : Z) (bs : list Z) : PH bool := fun h =>
  let '(ok, m) := dma_write (ph_mem h) pa bs in (ok, h <| ph_mem := m |>).
(** A call on the engine. *)
Definition on_engine {A} (f : p4_engine -> A * p4_engine) : PH A := fun h =>
  let '(a, e) := f (pd_eng (ph_pd h)) in (a, h <| ph_pd ::= upd pd_eng (fun _ => e) |>).

(** One more of the lines a limit limits; [held] says how many there were. *)
Definition p4_devcmd_log_ok (get : p4_devcmd -> ErnicLogLimit) (set : ErnicLogLimit -> p4_devcmd -> p4_devcmd) (held_line : Z -> p4_line) : PH bool :=
  lim ← gets (fun h => get (ph_pd h));
  let '(ok, held, lim) := ernic_log_limit (io_now_ms io) lim in
  modify (fun h => h <| ph_pd ::= set lim |>) ;;
  if negb ok then mret false
  else (if negb (held =? 0) then vfu_log (held_line held) else mret tt) ;; mret true.

(** *** IDENT *)
Definition ident_bytes (scope : Z) : list Z :=
  le32_bytes 1 ++ le32_bytes scope ++ le32_bytes P4_PROGRAM_MAX ++ le32_bytes (P4_DEVCMD_REQ_MAX - P4_LOAD_CHUNK_LEN) ++
  le32_bytes P4_DEVCMD_REQ_MAX ++ le32_bytes P4_DEVCMD_RESP_MAX ++ le32_bytes (Z.of_nat (length p4_endpoints)) ++ le32_bytes 0.
Definition handle_ident (cmd : list Z) : PH Z :=
  let len := ernic_get_le32 cmd 4 in
  let pa := ernic_get_le64 cmd 8 in
  if (len =? 0) || (P4_DEVCMD_IDENT_LEN <? len) then mret P4_STS_EINVAL
  else
    scope ← gets (fun h => pd_scope (ph_pd h));
    ok ← ernic_dma_put pa (take (Z.to_nat len) (ident_bytes scope));
    mret (if (ok : bool) then P4_STS_OK else P4_STS_EFAULT).

(** *** QUERY *)
Definition ops_of (ep : Z) : list p4_op_def := filter (fun d => od_ep d = ep) p4_ops.
Definition endpoint_entry (id : Z) : list Z := le32_bytes id.
Definition operation_entry (d : p4_op_def) : list Z := le32_bytes (od_op d) ++ [u8 (od_scope d); 0; 0; 0].
(** The entries there are for an entity, each in its bytes, with their size. *)
Definition query_entries (entity ep : Z) : Z + (Z * list (list Z)) :=
  if entity =? P4_QUERY_ROOT then inr (P4_QUERY_ENDPOINT_LEN, endpoint_entry <$> p4_endpoints)
  else if entity =? P4_QUERY_ENDPOINT then
    match ops_of ep with
    | [] => inl P4_STS_EOPCODE
    | ops => inr (P4_QUERY_OPERATION_LEN, operation_entry <$> ops)
    end
  else inl P4_STS_EINVAL.
Definition query_header (entry_size fit total : Z) : list Z :=
  [1; u8 entry_size; 0; 0] ++ le32_bytes fit ++ le32_bytes total ++ le32_bytes 0.
Definition handle_query (cmd : list Z) : PH Z :=
  let buf_len := ernic_get_le32 cmd 4 in
  if (buf_len <? P4_QUERY_HDR_LEN) || (P4_DEVCMD_RESP_MAX <? buf_len) then mret P4_STS_EINVAL
  else
    match query_entries (bat cmd 1 0) (ernic_get_le32 cmd 16) with
    | inl status => mret status
    | inr (entry_size, entries) =>
        let total := Z.of_nat (length entries) in
        let fit := Z.min total ((buf_len - P4_QUERY_HDR_LEN) / entry_size) in
        ok ← ernic_dma_put (ernic_get_le64 cmd 8) (query_header entry_size fit total ++ concat (take (Z.to_nat fit) entries));
        mret (if (ok : bool) then P4_STS_OK else P4_STS_EFAULT)
    end.

(** *** RPC payloads; [req] is as long as the command says *)
Definition rpc_load_begin (req : list Z) : PH Z :=
  if Z.of_nat (length req) <? P4_LOAD_BEGIN_LEN then mret P4_STS_EINVAL
  else rc ← on_engine (fun e => p4_engine_load_begin (io_eng io) e (ernic_get_le32 req 0)); mret (p4_status_of rc).
Definition rpc_load_chunk (req : list Z) : PH Z :=
  let req_len := Z.of_nat (length req) in
  if req_len <? P4_LOAD_CHUNK_LEN then mret P4_STS_EINVAL
  else
    let len := ernic_get_le32 req 8 in
    if (len =? 0) || (req_len - P4_LOAD_CHUNK_LEN <? len) then mret P4_STS_EINVAL
    else
      rc ← on_engine (fun e => p4_engine_load_chunk e (ernic_get_le64 req 0) (bslice req (Z.to_nat P4_LOAD_CHUNK_LEN) (Z.to_nat len)));
      mret (p4_status_of rc).

Fixpoint c_string (b : list Z) : cstr := match b with [] => [] | c :: b => if c =? 0 then [] else c :: c_string b end.
Definition wire_match (b : list Z) : p4_match_spec :=
  P4MatchSpec (ernic_get_le16 b 0) (ernic_get_le16 b 2) (bslice b 4 P4_MATCH_BYTES) (bslice b 20 P4_MATCH_BYTES).
Definition wire_param (b : list Z) : p4_param := P4Param (ernic_get_le16 b 0) (bslice b 4 P4_MATCH_BYTES).
(** The [n] records of [size] bytes from [b]. *)
Fixpoint records (n size : nat) (b : list Z) : list (list Z) :=
  match n with O => [] | S n => take size b :: records n size (drop size b) end.
(** An array of the update, zero past what the record has of it. *)
Definition padded {A} `{Inhabited A} (n : nat) (l : list A) : list A := l ++ replicate (n - length l) inhabitant.
(** The update a record names, if it is well formed. *)
Definition wire_update (req : list Z) : option p4_update :=
  if bool_decide (length req < P4_RPC_ENTRY_UPDATE_LEN)%nat then None
  else
    let nmatch := Z.to_nat (ernic_get_le16 req 8) in
    let nparams := Z.to_nat (ernic_get_le16 req 10) in
    if bool_decide (P4_MAX_TABLE_KEY < nmatch)%nat || bool_decide (P4_MAX_RUNTIME_ARGS < nparams)%nat then None
    else if bool_decide (length req - P4_RPC_ENTRY_UPDATE_LEN < nmatch * P4_RPC_ENTRY_MATCH_LEN + nparams * P4_RPC_ENTRY_PARAM_LEN)%nat then None
    else
      let table := c_string (bslice req 12 P4_DEVCMD_NAME_MAX) in
      let action := c_string (bslice req 76 P4_DEVCMD_NAME_MAX) in
      if negb (p4_name_printable table) || negb (p4_name_printable action) then None
      else
        let p := drop P4_RPC_ENTRY_UPDATE_LEN req in
        let ms := wire_match <$> records nmatch P4_RPC_ENTRY_MATCH_LEN p in
        let ps := wire_param <$> records nparams P4_RPC_ENTRY_PARAM_LEN (drop (nmatch * P4_RPC_ENTRY_MATCH_LEN) p) in
        if existsb (fun m => Z.of_nat P4_MATCH_BYTES <? ms_len m) ms || existsb (fun a => Z.of_nat P4_MATCH_BYTES <? pm_len a) ps then None
        else Some (P4Update (bat req 0 0) table action (ernic_get_le32 req 4) (Z.of_nat nmatch) (Z.of_nat nparams)
                     (padded P4_MAX_TABLE_KEY ms) (padded P4_MAX_RUNTIME_ARGS ps)).
(** The engine gives every refusal a message, so a negative return is one to log. *)
Definition rpc_entry_update (req : list Z) : PH Z :=
  match wire_update req with
  | None => mret P4_STS_EINVAL
  | Some up =>
      rc ← on_engine (fun e => p4_engine_update (io_eng io) e up);
      (if rc <? 0 then
         ok ← p4_devcmd_log_ok pd_log_update (fun l => upd pd_log_update (fun _ => l)) LineHeldUpdates;
         if (ok : bool) then vfu_log (LineUpdateRefused (up_table up) (up_action up) rc) else mret tt
       else mret tt) ;;
      mret (p4_status_of rc)
  end.

Definition stats_bytes (s : p4_stats) : list Z :=
  concat (le64_bytes <$> take 2 (st_frames_in s)) ++ concat (le64_bytes <$> take 2 (st_frames_out s)) ++
  le64_bytes (st_frames_dropped s) ++ le64_bytes (st_frames_too_big s) ++ le64_bytes (st_parse_errors s).
(** The status, and the response with how much of it is written. *)
Definition rpc_stats_read (resp : list Z) : PH (Z * (list Z * Z)) :=
  if Z.of_nat (length resp) <? P4_RPC_STATS_LEN then mret (P4_STS_ERANGE, (resp, 0))
  else
    es ← gets (fun h => p4_engine_get_stats (pd_eng (ph_pd h)));
    mret (P4_STS_OK, (bput resp 0 (stats_bytes es), P4_RPC_STATS_LEN)).

(** *** RPC *)
Definition rpc_load_commit : PH Z :=
  rc ← on_engine (p4_engine_load_commit (io_eng io));
  let status := p4_status_of rc in
  (if negb (status =? P4_STS_OK) then
     ok ← p4_devcmd_log_ok pd_log_commit (fun l => upd pd_log_commit (fun _ => l)) LineHeldPrograms;
     if (ok : bool) then why ← gets (fun h => p4_engine_load_error (pd_eng (ph_pd h))); vfu_log (LineProgramRefused why) else mret tt
   else mret tt) ;;
  mret status.
Definition rpc_program (op : Z) (req : list Z) : PH Z :=
  if op =? P4_OP_LOAD_BEGIN then rpc_load_begin req
  else if op =? P4_OP_LOAD_CHUNK then rpc_load_chunk req
  else if op =? P4_OP_LOAD_COMMIT then rpc_load_commit
  else if op =? P4_OP_LOAD_ABORT then on_engine (fun e => (tt, p4_engine_load_abort e)) ;; mret P4_STS_OK
  else mret P4_STS_EOPCODE.
Definition rpc_switch (ep op : Z) (req resp : list Z) : PH (Z * (list Z * Z)) :=
  if ep =? P4_EP_PROGRAM then status ← rpc_program op req; mret (status, (resp, 0))
  else if ep =? P4_EP_TABLE then status ← rpc_entry_update req; mret (status, (resp, 0))
  else if ep =? P4_EP_STATS then rpc_stats_read resp
  else mret (P4_STS_EOPCODE, (resp, 0)).
(** The staged request, or why there is none. *)
Definition read_req (pa req_len : Z) (m : M) : Z + list Z :=
  if req_len =? 0 then inr []
  else if negb (io_req io) then inl P4_STS_EDEVICE
  else match dma_read m pa req_len with None => inl P4_STS_EFAULT | Some req => inr req end.
Definition scope_ok (grant need claim : Z) : bool :=
  negb ((grant =? P4_SCOPE_NONE) || (grant <? need)) && negb ((claim <? need) || (grant <? claim)).
(** The status, and the length of the response. *)
Definition handle_rpc (cmd : list Z) : PH (Z * Z) :=
  let ep := ernic_get_le32 cmd 4 in
  let op := ernic_get_le32 cmd 8 in
  let req_len := ernic_get_le32 cmd 12 in
  let resp_len := ernic_get_le32 cmd 24 in
  match p4_find_op ep op with
  | None => mret (P4_STS_EOPCODE, 0)
  | Some def =>
      grant ← gets (fun h => pd_scope (ph_pd h));
      if negb (scope_ok grant (od_scope def) (bat cmd 1 0)) then mret (P4_STS_EPERM, 0)
      else if (P4_DEVCMD_REQ_MAX <? req_len) || (P4_DEVCMD_RESP_MAX <? resp_len) then mret (P4_STS_ERANGE, 0)
      else
        m ← gets ph_mem;
        match read_req (ernic_get_le64 cmd 16) req_len m with
        | inl status => mret (status, 0)
        | inr req =>
            if negb (resp_len =? 0) && negb (io_resp io) then mret (P4_STS_EDEVICE, 0)
            else
              '(status, (resp, written)) ← rpc_switch ep op req (zeros (Z.to_nat resp_len));
              if (status =? P4_STS_OK) && negb (written =? 0) then
                ok ← ernic_dma_put (ernic_get_le64 cmd 32) (take (Z.to_nat written) resp);
                mret (if (ok : bool) then status else P4_STS_EFAULT, written)
              else mret (status, written)
        end
  end.

(** *** Dispatch: the 16 bytes of the completion *)
Definition comp_bytes (status resp_len : Z) : list Z := [u8 status; 0; 0; 0] ++ le32_bytes resp_len ++ zeros 8.
(** The status, and the length of the response. *)
Definition p4_devcmd_switch (cmd : list Z) : PH (Z * Z) :=
  if bat cmd 0 0 =? IONIC_CMD_P4_IDENT then s ← handle_ident cmd; mret (s, 0)
  else if bat cmd 0 0 =? IONIC_CMD_P4_QUERY then s ← handle_query cmd; mret (s, 0)
  else if bat cmd 0 0 =? IONIC_CMD_P4_RPC then handle_rpc cmd
  else
    (ok ← p4_devcmd_log_ok pd_log_opcode (fun l => upd pd_log_opcode (fun _ => l)) LineHeldOpcodes;
     if (ok : bool) then vfu_log (LineOpcode (bat cmd 0 0)) else mret tt) ;;
    mret (P4_STS_EOPCODE, 0).
Definition p4_devcmd_dispatch (cmd : list Z) : PH (list Z) :=
  scope ← gets (fun h => pd_scope (ph_pd h));
  if scope =? P4_SCOPE_NONE then mret (comp_bytes P4_STS_EPERM 0)
  else
    r ← p4_devcmd_switch cmd;
    mret (comp_bytes r.1 (if r.1 =? P4_STS_OK then r.2 else 0)).
End devcmd.
