(* ===== verification/P4DevcmdProps.v ===== *)
(** * What the device commands of the P4 engine promise

    A command acts on the engine with at most one operation, one its scope
    allows; it writes guest memory only in the buffer it names; QUERY lists
    the scopes RPC enforces; an update record is read back as the update it
    encodes; and a limit on logged lines lets through so many and counts the
    rest. *)
From stdpp Require Import sorting.
From S2P Require Export P4Devcmd.
From S2P Require Import P4Ex.

(** ** Frames *)
(** The names of a logged line can neither forge a line nor drive a terminal. *)
Definition line_ok (l : p4_line) : Prop :=
  match l with
  | LineUpdateRefused table action _ =>
      (p4_name_printable table = true /\ (length table <= P4_DEVCMD_NAME_MAX)%nat) /\
      p4_name_printable action = true /\ (length action <= P4_DEVCMD_NAME_MAX)%nat
  | _ => True
  end.
Definition logs {M} (h h' : p4_host M) : Prop := exists ls, ph_log h' = ph_log h ++ ls /\ Forall line_ok ls.
#[export] Instance logs_preorder {M} : PreOrder (@logs M).
Proof.
  split; [intros h; exists []; by rewrite app_nil_r|]. intros a b c (ls & H1 & Hl) (ls' & H2 & Hl'). exists (ls ++ ls').
  rewrite H2, H1, assoc by apply _. split; [done|by apply Forall_app].
Qed.
(** Nothing but the log and its limits. *)
Record quiet {M} (h h' : p4_host M) : Prop := {
  qu_eng : pd_eng (ph_pd h') = pd_eng (ph_pd h);
  qu_scope : pd_scope (ph_pd h') = pd_scope (ph_pd h);
  qu_mem : ph_mem h' = ph_mem h;
  qu_logs : logs h h' }.
#[export] Instance quiet_preorder {M} : PreOrder (@quiet M).
Proof.
  split; [intros h; by split|]. intros a b c [] []. split; [congruence..|]. by etrans.
Qed.

(** The scope an operation on the engine takes; a frame is not a command's. *)
Definition needs (op : eng_op) : Z :=
  match op with
  | OpBegin _ _ | OpChunk _ _ | OpCommit _ | OpAbort => P4_SCOPE_LOAD
  | OpUpdate _ _ => P4_SCOPE_WRITE
  | OpProcess _ _ _ => P4_SCOPE_LOAD + 1
  end.
(** The buffer a command names for the answer. *)
Definition answer_buf (cmd : list Z) : Z * Z :=
  if bat cmd 0 0 =? IONIC_CMD_P4_RPC then (ernic_get_le64 cmd 32, ernic_get_le32 cmd 24)
  else (ernic_get_le64 cmd 8, ernic_get_le32 cmd 4).

Section confined.
Context {M : Type} {GM : GuestMem M} {ML : GuestMemLaws M} {HL : Loader} {HLL : LoaderLaws}.
Implicit Types (h : p4_host M) (io : p4_io).

Lemma vfu_log_quiet l : line_ok l -> keeps quiet (vfu_log (M := M) l).
Proof. intros Hl h. split; try done. exists [l]. split; [done|]. by apply Forall_singleton. Qed.
Lemma log_ok_quiet io get set held_line :
  (forall l pd, pd_eng (set l pd) = pd_eng pd /\ pd_scope (set l pd) = pd_scope pd) -> (forall n, line_ok (held_line n)) ->
  keeps quiet (p4_devcmd_log_ok (M := M) io get set held_line).
Proof.
  intros Hset Hline h. unfold p4_devcmd_log_ok. run. destruct (ernic_log_limit _ _) as [[ok held] lim]. run.
  assert (quiet h (h <| ph_pd ::= set lim |>)) as Hq.
  { destruct (Hset lim (ph_pd h)) as [He Hs]. split; try done. by exists []; rewrite app_nil_r. }
  etrans; [exact Hq|]. destruct (negb ok); [done|]. run. destruct (negb _); [|done]. by apply vfu_log_quiet.
Qed.

(** A line under its limit. *)
Lemma limited_quiet io get set held_line (say : ST (p4_host M) unit) :
  (forall l pd, pd_eng (set l pd) = pd_eng pd /\ pd_scope (set l pd) = pd_scope pd) -> (forall n, line_ok (held_line n)) -> keeps quiet say ->
  keeps quiet (ok ← p4_devcmd_log_ok io get set held_line; if (ok : bool) then say else mret tt).
Proof.
  intros Hset Hline Hsay. apply keeps_bind; [apply _|by apply log_ok_quiet|]. intros []; [done|]. apply (keeps_ret _).
Qed.

(** An operation on the engine, and what is logged of it. *)
Record moved (op : eng_op) h h' : Prop := {
  mo_ok : op_ok op;
  mo_eng : pd_eng (ph_pd h') = eng_step (pd_eng (ph_pd h)) op;
  mo_scope : pd_scope (ph_pd h') = pd_scope (ph_pd h);
  mo_mem : ph_mem h' = ph_mem h;
  mo_logs : logs h h' }.
Lemma moved_quiet op h h1 h2 : moved op h h1 -> quiet h1 h2 -> moved op h h2.
Proof. intros [] []. split; [done|congruence..|]. by etrans. Qed.
Lemma on_engine_moved {A} (f : p4_engine -> A * p4_engine) op h :
  op_ok op -> (f (pd_eng (ph_pd h))).2 = eng_step (pd_eng (ph_pd h)) op -> moved op h (on_engine f h).2.
Proof.
  intros Hop Hf. unfold on_engine. destruct (f _) as [a e]. cbn in Hf. subst e. split; try done. by exists []; rewrite app_nil_r.
Qed.
(** At most one operation, which needs [need]. *)
Definition acts (need : Z) h h' : Prop := quiet h h' \/ exists op, needs op = need /\ moved op h h'.
Lemma acts_quiet need h : acts need h h.
Proof. by left. Qed.

Lemma program_acts io op req h : bytes_ok req -> acts P4_SCOPE_LOAD h (rpc_program io op req h).2.
Proof.
  intros Hreq. unfold rpc_program. destruct (op =? P4_OP_LOAD_BEGIN).
  { unfold rpc_load_begin. destruct (_ <? P4_LOAD_BEGIN_LEN); [by left|]. run. right.
    exists (OpBegin (io_eng io) (ernic_get_le32 req 0)). split; [done|]. apply on_engine_moved; [|done]. apply get_le32_fits, Hreq. }
  destruct (op =? P4_OP_LOAD_CHUNK).
  { unfold rpc_load_chunk. destruct (_ <? P4_LOAD_CHUNK_LEN); [by left|]. destruct (_ || _); [by left|]. run. right.
    eexists (OpChunk _ _). split; [done|]. apply on_engine_moved; [|done]. by apply bslice_ok. }
  destruct (op =? P4_OP_LOAD_COMMIT).
  { unfold rpc_load_commit. run. right. exists (OpCommit (io_eng io)). split; [done|].
    eapply moved_quiet; [by apply (on_engine_moved (p4_engine_load_commit (io_eng io)))|]. destruct (negb _); [|done].
    apply limited_quiet; [done..|]. apply (keeps_bind _); [apply (keeps_gets _)|]. intros why. by apply vfu_log_quiet. }
  destruct (op =? P4_OP_LOAD_ABORT); [|by left]. run. right. exists OpAbort. split; [done|]. by apply on_engine_moved.
Qed.

(** What a record names is an update the engine can be given. *)
Lemma c_string_length b : (length (c_string b) <= length b)%nat.
Proof. induction b as [|c b IH]; cbn; [done|]. destruct (c =? 0); cbn; lia. Qed.
Lemma records_ok n size b : bytes_ok b -> Forall bytes_ok (records n size b).
Proof. revert b. induction n as [|n IH]; intros b Hb; cbn; constructor; [by apply Forall_take|]. by apply IH, Forall_drop. Qed.
Lemma records_length n size b : length (records n size b) = n.
Proof. revert b. induction n; intros b; cbn; auto. Qed.
Lemma records_size n size b : (n * size <= length b)%nat -> Forall (fun r => length r = size) (records n size b).
Proof.
  revert b. induction n as [|n IH]; intros b Hb; cbn; constructor; [rewrite length_take; lia|]. apply IH. rewrite length_drop. lia.
Qed.
Lemma get_le16_nonneg b off : 0 <= ernic_get_le16 b off.
Proof. unfold ernic_get_le16. by apply wrap_fits. Qed.
Lemma padded_length {A} `{Inhabited A} n (l : list A) : (length l <= n)%nat -> length (padded n l) = n.
Proof. intros. unfold padded. rewrite length_app, length_replicate. lia. Qed.
Lemma padded_ok {A} `{Inhabited A} (P : A -> Prop) n (l : list A) : Forall P l -> P inhabitant -> Forall P (padded n l).
Proof. intros. apply Forall_app. split; [done|]. by apply Forall_replicate. Qed.
Lemma records_both n size b : bytes_ok b -> (n * size <= length b)%nat -> Forall (fun r => bytes_ok r /\ length r = size) (records n size b).
Proof. intros. apply Forall_and. split; [by apply records_ok|by apply records_size]. Qed.
Lemma slice16 b off : bytes_ok b -> (off + 16 <= length b)%nat -> bytes16_ok (bslice b off P4_MATCH_BYTES).
Proof. intros Hb Hl. split; [unfold bslice; rewrite length_take, length_drop; change P4_MATCH_BYTES with 16%nat; lia|]. by apply bslice_ok. Qed.
Lemma wire_update_ok req up : bytes_ok req -> wire_update req = Some up ->
  up_ok up /\ line_ok (LineUpdateRefused (up_table up) (up_action up) 0).
Proof.
  intros Hreq. unfold wire_update. case_bool_decide as Hlen; [done|]. set (nm := Z.to_nat _). set (np := Z.to_nat _).
  destruct (_ || _) eqn:Hn; [done|]. apply orb_false_iff in Hn as [Hm%bool_decide_eq_false Hp%bool_decide_eq_false].
  case_bool_decide as Hneed; [done|]. destruct (_ || _) eqn:Hnames; [done|]. apply orb_false_iff in Hnames as [Ht%negb_false_iff Ha%negb_false_iff].
  destruct (existsb _ _ || _); [done|]. intros [= <-]. split.
  - assert (bytes_ok (drop P4_RPC_ENTRY_UPDATE_LEN req)) as Hd by by apply Forall_drop.
    split_and!; [apply padded_length; by rewrite length_fmap, records_length; lia| |apply padded_length; by rewrite length_fmap, records_length; lia| |cbn; try lia..].
    + apply padded_ok; [|repeat split; (done || apply zeros_ok)]. apply Forall_fmap. eapply Forall_impl; [apply records_both; [exact Hd|]|].
      * rewrite length_drop. lia.
      * intros r [Hr Hl]. cbn. split_and!; [apply slice16; [done|rewrite Hl; apply (bool_decide_unpack _); by vm_compute]..|apply get_le16_nonneg|apply get_le16_nonneg].
    + apply padded_ok; [|repeat split; (done || apply zeros_ok)]. apply Forall_fmap. eapply Forall_impl; [apply records_both; [by apply Forall_drop|]|].
      * rewrite !length_drop. lia.
      * intros r [Hr Hl]. cbn. split; [apply slice16; [done|rewrite Hl; apply (bool_decide_unpack _); by vm_compute]|apply get_le16_nonneg].
    + apply get_le32_fits, Hreq.
    + exact (proj1 (bat_ok req 0 0 Hreq)).
  - split_and!; try done; (etrans; [apply c_string_length|]); unfold bslice; rewrite length_take; lia.
Qed.
Lemma update_acts io req h : bytes_ok req -> acts P4_SCOPE_WRITE h (rpc_entry_update io req h).2.
Proof.
  intros Hreq. unfold rpc_entry_update. destruct (wire_update req) as [up|] eqn:Hup; [|by left].
  destruct (wire_update_ok req up Hreq Hup) as [Hok Hline]. run. right. exists (OpUpdate (io_eng io) up). split; [done|].
  eapply moved_quiet; [by apply (on_engine_moved (fun e => p4_engine_update (io_eng io) e up))|].
  destruct (_ <? 0); [|done]. apply limited_quiet; [done..|]. by apply vfu_log_quiet.
Qed.
(** The switch acts within the scope of the operation the table has, and
    fills in no more of the response than there is. *)
Lemma switch_acts io ep op def req resp h : bytes_ok req -> p4_find_op ep op = Some def ->
  let r := rpc_switch io ep op req resp h in
  acts (od_scope def) h r.2 /\ 0 <= r.1.2.2 <= Z.of_nat (length resp) /\ length r.1.2.1 = length resp.
Proof.
  intros Hreq Hdef.
  assert (ep = od_ep def /\ def ∈ p4_ops) as [Hep Hin].
  { unfold p4_find_op in Hdef. apply fmap_Some in Hdef as ([i d] & Hf & ->). apply list_find_Some in Hf as (Hl & [<- _] & _).
    split; [done|]. by eapply list_elem_of_lookup_2. }
  unfold rpc_switch. destruct (Z.eqb_spec ep P4_EP_PROGRAM) as [->|H1].
  { run. split; [|cbn; lia]. replace (od_scope def) with P4_SCOPE_LOAD; [by apply program_acts|].
    repeat (apply elem_of_cons in Hin as [->|Hin]; [done|]). by apply not_elem_of_nil in Hin. }
  destruct (Z.eqb_spec ep P4_EP_TABLE) as [->|H2].
  { run. split; [|cbn; lia]. replace (od_scope def) with P4_SCOPE_WRITE; [by apply update_acts|].
    repeat (apply elem_of_cons in Hin as [->|Hin]; [done|]). by apply not_elem_of_nil in Hin. }
  destruct (Z.eqb_spec ep P4_EP_STATS) as [->|H3]; [|split; [by left|cbn; lia]].
  unfold rpc_stats_read. destruct (Z.ltb_spec (Z.of_nat (length resp)) P4_RPC_STATS_LEN); [split; [by left|cbn; lia]|].
  run. split; [by left|]. unfold P4_RPC_STATS_LEN in *. cbn -[bput stats_bytes]. split; [lia|]. apply length_inserts.
Qed.

(** What a command does to the host. *)
Record confined io cmd h h' : Prop := {
  cf_scope : pd_scope (ph_pd h') = pd_scope (ph_pd h);
  cf_eng : pd_eng (ph_pd h') = pd_eng (ph_pd h) \/
           exists op, op_ok op /\ pd_eng (ph_pd h') = eng_step (pd_eng (ph_pd h)) op /\
             bat cmd 0 0 = IONIC_CMD_P4_RPC /\ needs op <= bat cmd 1 0 <= pd_scope (ph_pd h);
  cf_mem x : ~ ((answer_buf cmd).1 <= x < (answer_buf cmd).1 + (answer_buf cmd).2) -> peek (ph_mem h') x = peek (ph_mem h) x;
  cf_logs : logs h h' }.
Lemma quiet_confined io cmd h h' : quiet h h' -> confined io cmd h h'.
Proof. intros [He Hs Hm Hl]. split; [done|by left| |done]. intros x _. by rewrite Hm. Qed.
(** Writing an answer that fits its buffer. *)
Lemma put_confined io cmd h h1 pa len bs :
  bytes_ok cmd -> answer_buf cmd = (pa, len) -> fits 64 pa -> Z.of_nat (length bs) <= len < 2 ^ 32 -> confined io cmd h h1 ->
  confined io cmd h (ernic_dma_put pa bs h1).2.
Proof.
  intros Hcmd Hbuf Hpa Hlen [Hs He Hm Hl]. unfold ernic_dma_put. destruct (dma_write (ph_mem h1) pa bs) as [ok m] eqn:Hw.
  split; [done..| |done]. intros x Hx. rewrite <-Hm by done. rewrite Hbuf in Hx. cbn in Hx |- *. eapply dma_write_frame; [done| |done|]; lia.
Qed.

Lemma ident_confined io cmd h : bytes_ok cmd -> bat cmd 0 0 = IONIC_CMD_P4_IDENT -> confined io cmd h (handle_ident cmd h).2.
Proof.
  intros Hcmd Hop. unfold handle_ident. destruct (_ || _) eqn:Hlen; [by apply quiet_confined|]. run.
  apply orb_false_iff in Hlen as [_ Hlen%Z.ltb_ge]. pose proof (get_le32_fits cmd Hcmd 4) as [Hl0 Hl1].
  apply (put_confined _ _ _ _ _ (ernic_get_le32 cmd 4)); [done|by unfold answer_buf; rewrite Hop|by apply get_le64_fits| |by apply quiet_confined].
  rewrite length_take. lia.
Qed.
Lemma concat_length {A} (l : list (list A)) n : Forall (fun x => length x = n) l -> length (concat l) = (length l * n)%nat.
Proof. induction 1 as [|x l Hx _ IH]; cbn; [done|]. rewrite length_app. lia. Qed.
Lemma query_sizes entity ep sz es : query_entries entity ep = inr (sz, es) -> 0 < sz /\ Forall (fun e => length e = Z.to_nat sz) es.
Proof.
  unfold query_entries. destruct (entity =? _); [intros [= <- <-]; split; [done|]; by repeat constructor|].
  destruct (entity =? _); [|done]. destruct (ops_of ep) as [|d ops]; [done|]. intros [= <- <-]. split; [done|].
  rewrite <-fmap_cons. by apply Forall_fmap, Forall_true.
Qed.
(** The answer to a query fits the buffer it is for. *)
Lemma answer_fits sz (es : list (list Z)) buf_len : 0 < sz -> Forall (fun e => length e = Z.to_nat sz) es -> P4_QUERY_HDR_LEN <= buf_len ->
  let fit := Z.min (Z.of_nat (length es)) ((buf_len - P4_QUERY_HDR_LEN) / sz) in
  Z.of_nat (length (query_header sz fit (Z.of_nat (length es)) ++ concat (take (Z.to_nat fit) es))) <= buf_len.
Proof.
  intros Hsz Hes Hb fit. rewrite length_app, (concat_length _ (Z.to_nat sz)) by by apply Forall_take.
  change (length (query_header _ _ _)) with 16%nat. unfold P4_QUERY_HDR_LEN in *. rewrite length_take.
  assert (0 <= fit <= (buf_len - 16) / sz) as Hf by (subst fit; pose proof (Z.div_pos (buf_len - 16) sz); lia).
  assert (fit * sz <= buf_len - 16) by (pose proof (Z.mul_div_le (buf_len - 16) sz); nia). nia.
Qed.
Lemma query_confined io cmd h : bytes_ok cmd -> bat cmd 0 0 = IONIC_CMD_P4_QUERY -> confined io cmd h (handle_query cmd h).2.
Proof.
  intros Hcmd Hop. unfold handle_query. destruct (_ || _) eqn:Hlen; [by apply quiet_confined|].
  apply orb_false_iff in Hlen as [Hlen%Z.ltb_ge _]. destruct (query_entries _ _) as [|[sz es]] eqn:Hq; [by apply quiet_confined|].
  apply query_sizes in Hq as [Hsz Hes]. run.
  apply (put_confined _ _ _ _ _ (ernic_get_le32 cmd 4)); [done|by unfold answer_buf; rewrite Hop|by apply get_le64_fits| |by apply quiet_confined].
  split; [by apply answer_fits|]. apply get_le32_fits, Hcmd.
Qed.

Lemma peekn_bytes (m : M) a n : bytes_ok (peekn m a n).
Proof. apply Forall_fmap, Forall_true. intros x. apply peek_byte. Qed.
Lemma read_req_bytes io pa len (m : M) req : fits 64 pa -> 0 <= len < 2 ^ 32 -> read_req io pa len m = inr req -> req = peekn m pa len.
Proof.
  intros Hpa Hlen. unfold read_req. destruct (Z.eqb_spec len 0) as [->|]; [by intros [= <-]|]. destruct (negb _); [done|].
  destruct (dma_read m pa len) as [bs|] eqn:Hr; [|done]. intros [= <-]. apply dma_read_spec in Hr as [-> _]; (done || lia).
Qed.
Lemma scope_ok_spec grant need claim : scope_ok grant need claim = true <-> grant <> P4_SCOPE_NONE /\ need <= claim <= grant.
Proof. unfold scope_ok. rewrite andb_true_iff, !negb_true_iff, !orb_false_iff, Z.eqb_neq, !Z.ltb_ge. lia. Qed.
Lemma acts_confined io cmd need h h' : bat cmd 0 0 = IONIC_CMD_P4_RPC -> need <= bat cmd 1 0 <= pd_scope (ph_pd h) -> acts need h h' -> confined io cmd h h'.
Proof.
  intros Hop Hclaim [Hq|(op & <- & [Hok He Hs Hm Hl])]; [by apply quiet_confined|]. split; [done| | |done]; [right; by exists op|].
  intros x _. by rewrite Hm.
Qed.
Lemma rpc_confined io cmd h : bytes_ok cmd -> bat cmd 0 0 = IONIC_CMD_P4_RPC -> confined io cmd h (handle_rpc io cmd h).2.
Proof.
  intros Hcmd Hop. unfold handle_rpc. destruct (p4_find_op _ _) as [def|] eqn:Hdef; [|by apply quiet_confined]. run.
  destruct (negb (scope_ok _ _ _)) eqn:Hsc; [by apply quiet_confined|]. apply negb_false_iff, scope_ok_spec in Hsc as [_ Hsc].
  destruct (_ || _) eqn:Hlen; [by apply quiet_confined|]. apply orb_false_iff in Hlen as [_ Hresp%Z.ltb_ge]. run.
  pose proof (get_le32_fits cmd Hcmd) as Hfits. pose proof (get_le64_fits cmd Hcmd) as Hfits64.
  destruct (read_req _ _ _ _) as [|req] eqn:Hreq; [by apply quiet_confined|].
  apply read_req_bytes in Hreq as ->; [|done|apply Hfits]. destruct (_ && _); [by apply quiet_confined|]. run.
  destruct (switch_acts io _ _ _ (peekn (ph_mem h) (ernic_get_le64 cmd 16) (ernic_get_le32 cmd 12)) (zeros (Z.to_nat (ernic_get_le32 cmd 24)))
    h (peekn_bytes _ _ _) Hdef) as (Hacts & Hw & Hl).
  destruct (rpc_switch _ _ _ _ _ _) as [[status [resp written]] h1]. cbn [fst snd] in *.
  apply (acts_confined io cmd) in Hacts; [|done..]. destruct (_ && _); [|done]. run.
  apply (put_confined _ _ _ _ _ (ernic_get_le32 cmd 24)); [done|by unfold answer_buf; rewrite Hop|done| |done].
  specialize (Hfits 24%nat) as [Hf0 Hf1]. unfold zeros in *. rewrite length_replicate in *. rewrite length_take. lia.
Qed.
Lemma switch_confined io cmd h : bytes_ok cmd -> confined io cmd h (p4_devcmd_switch io cmd h).2.
Proof.
  intros Hcmd. unfold p4_devcmd_switch.
  destruct (Z.eqb_spec (bat cmd 0 0) IONIC_CMD_P4_IDENT); [run; by apply ident_confined|].
  destruct (Z.eqb_spec (bat cmd 0 0) IONIC_CMD_P4_QUERY); [run; by apply query_confined|].
  destruct (Z.eqb_spec (bat cmd 0 0) IONIC_CMD_P4_RPC); [by apply rpc_confined|].
  rewrite run_bind. apply quiet_confined, limited_quiet; [done..|]. by apply vfu_log_quiet.
Qed.
Lemma dispatch_confined io cmd h : bytes_ok cmd -> confined io cmd h (p4_devcmd_dispatch io cmd h).2.
Proof.
  intros Hcmd. unfold p4_devcmd_dispatch. run. destruct (_ =? P4_SCOPE_NONE); [by apply quiet_confined|]. run. by apply switch_confined.
Qed.
End confined.

(** ** Any number of commands *)
Section runs.
Context {M : Type} {GM : GuestMem M} {ML : GuestMemLaws M} {HL : Loader} {HLL : LoaderLaws}.
Implicit Types (h : p4_host M).

Definition run_cmds (cmds : list (p4_io * list Z)) h : p4_host M := foldl (fun h c => (p4_devcmd_dispatch c.1 c.2 h).2) h cmds.
(** What an operation a command can cause leaves alone. *)
Lemma step_keeps eng op : needs op <= P4_SCOPE_LOAD ->
  let e := eng_step eng op in
  eg_stats e = eg_stats eng /\ (needs op < P4_SCOPE_LOAD -> eg_prog e = eg_prog eng /\ eg_load_buf e = eg_load_buf eng).
Proof.
  destruct op as [mem total|offset data|mem| |mem up|]; unfold needs, P4_SCOPE_LOAD, P4_SCOPE_WRITE; intros Hn; cbn [eng_step].
  - split; [|lia]. unfold p4_engine_load_begin. by repeat case_match.
  - split; [|lia]. unfold p4_engine_load_chunk. by repeat case_match.
  - split; [|lia]. unfold p4_engine_load_commit. by repeat case_match.
  - by split; [|lia].
  - unfold p4_engine_update. destruct (eg_prog eng) eqn:Hp; [|done]. by destruct (p4_entries_update _ _ _ _).
  - lia.
Qed.
(** Everything a guest's commands do, by what it was granted. *)
Record within (bufs : list (Z * Z)) h h' : Prop := {
  wi_scope : pd_scope (ph_pd h') = pd_scope (ph_pd h);
  wi_none : pd_scope (ph_pd h) = P4_SCOPE_NONE -> h' = h;
  wi_read : pd_scope (ph_pd h) < P4_SCOPE_WRITE -> pd_eng (ph_pd h') = pd_eng (ph_pd h);
  wi_write : pd_scope (ph_pd h) < P4_SCOPE_LOAD ->
    eg_prog (pd_eng (ph_pd h')) = eg_prog (pd_eng (ph_pd h)) /\ eg_load_buf (pd_eng (ph_pd h')) = eg_load_buf (pd_eng (ph_pd h));
  wi_stats : pd_scope (ph_pd h) <= P4_SCOPE_LOAD -> eg_stats (pd_eng (ph_pd h')) = eg_stats (pd_eng (ph_pd h));
  wi_reach : pd_scope (ph_pd h) <= P4_SCOPE_LOAD -> eng_reach (pd_eng (ph_pd h)) -> eng_reach (pd_eng (ph_pd h'));
  wi_mem x : Forall (fun b => ~ (b.1 <= x < b.1 + b.2)) bufs -> peek (ph_mem h') x = peek (ph_mem h) x;
  wi_logs : logs h h' }.
Lemma dispatch_none io cmd h : pd_scope (ph_pd h) = P4_SCOPE_NONE -> p4_devcmd_dispatch io cmd h = (comp_bytes P4_STS_EPERM 0, h).
Proof. intros Hs. unfold p4_devcmd_dispatch. run. by rewrite Hs. Qed.
Lemma dispatch_within io cmd h : bytes_ok cmd -> within [answer_buf cmd] h (p4_devcmd_dispatch io cmd h).2.
Proof.
  intros Hcmd. pose proof (dispatch_confined io cmd h Hcmd) as [Hs He Hm Hl]. split; try done.
  - intros Hn. by rewrite dispatch_none.
  - intros Hlt. destruct He as [|(op & _ & _ & _ & Hn)]; [done|]. destruct op; cbn in Hn; unfold P4_SCOPE_LOAD, P4_SCOPE_WRITE in *; lia.
  - intros Hlt. destruct He as [->|(op & _ & -> & _ & Hn)]; [done|]. by apply step_keeps; lia.
  - intros Hle. destruct He as [->|(op & _ & -> & _ & Hn)]; [done|]. by apply step_keeps; lia.
  - intros _ Hr. destruct He as [->|(op & Hok & -> & _)]; [done|]. by apply eng_stepped.
  - intros x [Hx _]%list.Forall_cons. by apply Hm.
Qed.
Lemma within_trans b1 b2 h1 h2 h3 : within b1 h1 h2 -> within b2 h2 h3 -> within (b1 ++ b2) h1 h3.
Proof.
  intros [S1 N1 R1 W1 T1 E1 M1 L1] [S2 N2 R2 W2 T2 E2 M2 L2]. rewrite S1 in *. split.
  - congruence.
  - intros Hn. rewrite N2 by done. by apply N1.
  - intros Hn. rewrite R2 by done. by apply R1.
  - intros Hn. destruct (W1 Hn), (W2 Hn). split; congruence.
  - intros Hn. rewrite T2 by done. by apply T1.
  - intros Hn Hr. apply E2; [done|]. by apply E1.
  - intros x [Hx1 Hx2]%Forall_app. rewrite M2 by done. by apply M1.
  - by etrans.
Qed.

(** C8: a guest stays within its grant: with none nothing changes, with
    read the engine does not, with write its program does not; a command
    never changes the grant or the counters, writes guest memory only in the
    buffer it names, and logs only printable names; and the engine stays one
    its own operations can reach. *)
Theorem p4_devcmd_confined cmds h :
  Forall (fun c => bytes_ok c.2) cmds -> within (answer_buf ∘ snd <$> cmds) h (run_cmds cmds h).
Proof.
  intros Hc. revert h. induction Hc as [|[io cmd] cmds Hcmd _ IH]; intros h; cbn.
  - by split.
  - eapply (within_trans [answer_buf cmd]); [by apply dispatch_within|]. apply IH.
Qed.
End runs.

(** ** The limit on logged lines *)
(** The calls at the times [nows]: which go through, what each says was held
    back, and the limit after them. *)
Fixpoint limit_run (nows : list Z) (lim : ErnicLogLimit) : list (bool * Z) * ErnicLogLimit :=
  match nows with
  | [] => ([], lim)
  | now :: nows =>
      let '(ok, held, lim) := ernic_log_limit now lim in
      let '(rs, lim) := limit_run nows lim in ((ok, held) :: rs, lim)
  end.
Definition passed (rs : list (bool * Z)) : Z := Z.of_nat (length (filter (fun r => r.1 = true) rs)).
Definition refused (rs : list (bool * Z)) : Z := Z.of_nat (length (filter (fun r => r.1 = false) rs)).
Lemma passed_cons ok held rs : passed ((ok, held) :: rs) = (if ok then 1 else 0) + passed rs.
Proof. unfold passed. rewrite filter_cons. cbn [fst]. destruct ok; case_decide; try done; cbn [length]; lia. Qed.
Lemma refused_cons ok held rs : refused ((ok, held) :: rs) = (if ok then 0 else 1) + refused rs.
Proof. unfold refused. rewrite filter_cons. cbn [fst]. destruct ok; case_decide; try done; cbn [length]; lia. Qed.
(** What is left of the interval, and the intervals that can start before [e]. *)
Definition quota (lim : ErnicLogLimit) (e : Z) : Z :=
  (ERNIC_LOG_LIMIT_BURST - ll_logged lim) + ERNIC_LOG_LIMIT_BURST * Z.max 0 ((e - ll_start_ms lim - 1) / ERNIC_LOG_LIMIT_MS).
Definition limit_ok (lim : ErnicLogLimit) : Prop := 0 <= ll_logged lim <= ERNIC_LOG_LIMIT_BURST /\ 0 <= ll_start_ms lim.
Lemma limit_step now lim e : limit_ok lim -> ll_start_ms lim <= now < e -> e <= 2 ^ 64 ->
  let '(ok, held, lim') := ernic_log_limit now lim in
  limit_ok lim' /\ ll_start_ms lim' <= now /\ (if ok then 1 else 0) + quota lim' e <= quota lim e /\
  (0 <= ll_held lim < 2 ^ 64 - 1 -> 0 <= ll_held lim' <= ll_held lim + 1 /\ held + ll_held lim' = ll_held lim + (if ok then 0 else 1)).
Proof.
  intros [Hl Hs] Hn He. unfold ernic_log_limit, limit_ok, quota, ERNIC_LOG_LIMIT_BURST, ERNIC_LOG_LIMIT_MS in *.
  rewrite (wrap_id 64 (now - _)) by (unfold fits; lia). destruct lim as [start logged held]. cbn in *.
  replace (now <? start) with false by lia. cbn. destruct (Z.leb_spec 5000 (now - start)) as [Hnew|Hold]; cbn.
  - change (u32 (0 + 1)) with 1. split_and!; try lia. pose proof (Z.div_mod (e - now - 1) 5000). pose proof (Z.div_mod (e - start - 1) 5000).
    pose proof (Z.mod_pos_bound (e - now - 1) 5000). pose proof (Z.mod_pos_bound (e - start - 1) 5000). lia.
  - destruct (Z.leb_spec 10 logged); cbn; split_and!; try lia.
    + intros. rewrite wrap_id by (unfold fits; lia). lia.
    + rewrite wrap_id by (unfold fits; lia). lia.
    + rewrite wrap_id by (unfold fits; lia). lia.
    + rewrite wrap_id by (unfold fits; lia). lia.
Qed.
Lemma quota_nonneg lim e : limit_ok lim -> 0 <= quota lim e.
Proof. unfold limit_ok, quota, ERNIC_LOG_LIMIT_BURST. lia. Qed.
Lemma limit_run_spec nows lim t e : limit_ok lim -> ll_start_ms lim <= t -> e <= 2 ^ 64 -> StronglySorted Z.le (t :: nows) -> Forall (fun now => now < e) nows ->
  let '(rs, lim') := limit_run nows lim in
  passed rs <= quota lim e /\
  (0 <= ll_held lim -> ll_held lim + Z.of_nat (length nows) < 2 ^ 64 -> sumZ (snd <$> rs) + ll_held lim' = ll_held lim + refused rs).
Proof.
  revert lim t. induction nows as [|now nows IH]; intros lim t Hok Ht He Hso Hlt; cbn [limit_run].
  - split; [by apply quota_nonneg|]. unfold refused. cbn. lia.
  - apply list.Forall_cons in Hlt as [Hn Hlt]. apply StronglySorted_inv in Hso as [Hso Hall]. apply list.Forall_cons in Hall as [Htn _].
    pose proof (limit_step now lim e Hok ltac:(lia) He) as Hst. destruct (ernic_log_limit now lim) as [[ok held] lim1].
    destruct Hst as (Hok1 & Hs1 & Hq & Hheld). specialize (IH lim1 now Hok1 Hs1 He Hso Hlt). destruct (limit_run nows lim1) as [rs lim2].
    destruct IH as [Hp Hc]. rewrite passed_cons, refused_cons. split; [lia|]. cbn [length fmap list_fmap]. intros H0 Hb.
    destruct Hheld as [Hh1 Hh2]; [lia|]. specialize (Hc ltac:(lia) ltac:(lia)). cbn [snd] in *. unfold sumZ in *. cbn. lia.
Qed.
(** A call once the interval is over starts another. *)
Lemma limit_restarts now nows lim : 0 <= ll_start_ms lim -> ll_start_ms lim + ERNIC_LOG_LIMIT_MS <= now < 2 ^ 64 ->
  limit_run (now :: nows) lim = limit_run (now :: nows) (LogLimit now 0 (ll_held lim)).
Proof.
  intros Hs Hn. cbn [limit_run]. f_equal. unfold ernic_log_limit, ERNIC_LOG_LIMIT_MS in *. destruct lim as [start logged held]. cbn [ll_start_ms ll_logged ll_held] in *.
  rewrite !wrap_id by (unfold fits; lia). replace (now <? start) with false by lia. replace (now <? now) with false by lia.
  replace (5000 <=? now - start) with true by lia. by rewrite Z.sub_diag.
Qed.

(** In any span of [n] intervals, on a clock that does not go back, at most
    [n + 1] bursts of lines go through; and no line is lost from the count:
    what the lines that went through said was held back, and what still is,
    are the lines that were refused. *)
Theorem log_limit_bounds nows lim t n :
  limit_ok lim -> ll_start_ms lim <= t -> 0 <= n -> t + n * ERNIC_LOG_LIMIT_MS <= 2 ^ 64 ->
  StronglySorted Z.le (t :: nows) -> Forall (fun now => now < t + n * ERNIC_LOG_LIMIT_MS) nows ->
  let '(rs, lim') := limit_run nows lim in
  passed rs <= ERNIC_LOG_LIMIT_BURST * (n + 1) /\
  (0 <= ll_held lim -> ll_held lim + Z.of_nat (length nows) < 2 ^ 64 -> sumZ (snd <$> rs) + ll_held lim' = ll_held lim + refused rs).
Proof.
  intros Hok Ht Hn He Hso Hlt. destruct nows as [|now nows].
  { unfold ERNIC_LOG_LIMIT_BURST, passed, refused. cbn. lia. }
  assert (exists lim0 t0, limit_ok lim0 /\ ll_start_ms lim0 <= t0 /\ t - ERNIC_LOG_LIMIT_MS < ll_start_ms lim0 /\ ll_held lim0 = ll_held lim /\
    StronglySorted Z.le (t0 :: now :: nows) /\ limit_run (now :: nows) lim = limit_run (now :: nows) lim0) as (lim0 & t0 & Hok0 & Ht0 & Hs0 & Hh0 & Hso0 & ->).
  { destruct Hok as [Hl Hs]. apply StronglySorted_inv in Hso as Hso'. destruct Hso' as [Hso' [Htn _]%list.Forall_cons].
    apply list.Forall_cons in Hlt as [Hnow _]. destruct (decide (ll_start_ms lim + ERNIC_LOG_LIMIT_MS <= now)).
    - exists (LogLimit now 0 (ll_held lim)), now. unfold limit_ok, ERNIC_LOG_LIMIT_BURST, ERNIC_LOG_LIMIT_MS in *. cbn.
      split_and!; try lia; [constructor; [done|]|by apply limit_restarts; unfold ERNIC_LOG_LIMIT_MS; lia].
      apply StronglySorted_inv in Hso' as [_ Hall]. constructor; [lia|done].
    - exists lim, t. unfold ERNIC_LOG_LIMIT_MS in *. split_and!; (done || lia). }
  pose proof (limit_run_spec (now :: nows) lim0 t0 _ Hok0 Ht0 He Hso0 Hlt) as H. destruct (limit_run _ lim0) as [rs lim2].
  rewrite Hh0 in H. destruct H as [Hp Hc]. split; [|done]. etrans; [exact Hp|]. unfold quota, limit_ok, ERNIC_LOG_LIMIT_BURST, ERNIC_LOG_LIMIT_MS in *.
  enough ((t + n * 5000 - ll_start_ms lim0 - 1) / 5000 <= n) by lia. apply Z.lt_succ_r, Z.div_lt_upper_bound; lia.
Qed.

(** ** The update record *)
Definition name_field (s : cstr) : list Z := s ++ zeros (P4_DEVCMD_NAME_MAX + 1 - length s).
Definition match_record (m : p4_match_spec) : list Z := le16_bytes (ms_len m) ++ le16_bytes (ms_prefix_bits m) ++ ms_value m ++ ms_mask m.
Definition param_record (p : p4_param) : list Z := le16_bytes (pm_len p) ++ [0; 0] ++ pm_value p.
Definition used_match (up : p4_update) : list p4_match_spec := take (Z.to_nat (up_nmatch up)) (up_match up).
Definition used_params (up : p4_update) : list p4_param := take (Z.to_nat (up_nparams up)) (up_params up).
Definition update_record (up : p4_update) : list Z :=
  [up_type up; 0; 0; 0] ++ le32_bytes (up_priority up) ++ le16_bytes (up_nmatch up) ++ le16_bytes (up_nparams up) ++
  name_field (up_table up) ++ name_field (up_action up) ++ concat (match_record <$> used_match up) ++ concat (param_record <$> used_params up).

(** An update a record can carry. *)
Definition name_ok (s : cstr) : Prop := p4_name_printable s = true /\ (length s <= P4_DEVCMD_NAME_MAX)%nat.
Definition match_ok (m : p4_match_spec) : Prop := bytes16_ok (ms_value m) /\ bytes16_ok (ms_mask m) /\ 0 <= ms_len m <= 16 /\ fits 16 (ms_prefix_bits m).
Definition arg_ok (p : p4_param) : Prop := bytes16_ok (pm_value p) /\ 0 <= pm_len p <= 16.
Record wire_ok (up : p4_update) : Prop := {
  wo_type : fits 8 (up_type up);
  wo_priority : fits 32 (up_priority up);
  wo_table : name_ok (up_table up);
  wo_action : name_ok (up_action up);
  wo_nmatch : 0 <= up_nmatch up <= Z.of_nat P4_MAX_TABLE_KEY;
  wo_nparams : 0 <= up_nparams up <= Z.of_nat P4_MAX_RUNTIME_ARGS;
  wo_match : up_match up = padded P4_MAX_TABLE_KEY (used_match up) /\ length (used_match up) = Z.to_nat (up_nmatch up) /\ Forall match_ok (used_match up);
  wo_params : up_params up = padded P4_MAX_RUNTIME_ARGS (used_params up) /\ length (used_params up) = Z.to_nat (up_nparams up) /\ Forall arg_ok (used_params up) }.

Lemma records_concat n size (rs : list (list Z)) rest :
  length rs = n -> Forall (fun r => length r = size) rs -> records n size (concat rs ++ rest) = rs.
Proof.
  revert n. induction rs as [|r rs IH]; intros n <- Hr; cbn; [done|]. apply list.Forall_cons in Hr as [<- Hr].
  rewrite <-app_assoc. rewrite take_app_length, drop_app_length. f_equal. by apply IH.
Qed.
Lemma c_string_field s rest : p4_name_printable s = true -> (length s <= P4_DEVCMD_NAME_MAX)%nat ->
  c_string (take P4_DEVCMD_NAME_MAX (name_field s ++ rest)) = s.
Proof.
  intros Hp Hl. unfold name_field. rewrite <-app_assoc. rewrite take_app_ge by done.
  replace (P4_DEVCMD_NAME_MAX + 1 - length s)%nat with (S (P4_DEVCMD_NAME_MAX - length s)) by lia.
  destruct (P4_DEVCMD_NAME_MAX - length s)%nat as [|k] eqn:Hk.
  - rewrite take_0, app_nil_r. clear -Hp. induction s as [|c s IH]; [done|]. cbn in *. apply andb_true_iff in Hp as [Hc Hp].
    replace (c =? 0) with false by lia. by rewrite IH.
  - cbn [zeros replicate take app]. clear -Hp. induction s as [|c s IH]; [done|]. cbn in *. apply andb_true_iff in Hp as [Hc Hp].
    replace (c =? 0) with false by lia. by rewrite IH.
Qed.
Lemma match_back m : match_ok m -> bytes_ok (match_record m) /\ length (match_record m) = P4_RPC_ENTRY_MATCH_LEN /\ wire_match (match_record m) = m.
Proof.
  destruct m as [len pre value mask]. intros ([Lv Hv] & [Lm Hm] & Hlen & Hpre). cbn in *.
  assert (bytes_ok (match_record (P4MatchSpec len pre value mask))) as Hb.
  { apply Forall_app. split; [apply le16_bytes_ok|]. apply Forall_app. split; [apply le16_bytes_ok|]. by apply Forall_app. }
  split_and!; [done|cbn; rewrite length_app; unfold P4_RPC_ENTRY_MATCH_LEN; lia|]. unfold wire_match. f_equal.
  - rewrite (get_le16_of_bytes _ _ len); [apply wrap_id; unfold fits; lia|done|]. intros i Hi. destruct i as [|[|i]]; [done..|lia].
  - rewrite (get_le16_of_bytes _ _ pre); [by apply wrap_id|done|]. intros i Hi. destruct i as [|[|i]]; [done..|lia].
  - unfold bslice, match_record, le16_bytes. cbn [app drop ms_value ms_mask]. by rewrite drop_0, take_app_length' by done.
  - unfold bslice. change 20%nat with (4 + 16)%nat. rewrite <-drop_drop. unfold match_record, le16_bytes. cbn [Nat.add app drop ms_value ms_mask]. rewrite drop_0, drop_app_length' by done. by apply take_ge; rewrite Lm.
Qed.
Lemma param_back p : arg_ok p -> bytes_ok (param_record p) /\ length (param_record p) = P4_RPC_ENTRY_PARAM_LEN /\ wire_param (param_record p) = p.
Proof.
  destruct p as [len value]. intros ([Lv Hv] & Hlen). cbn in *.
  assert (bytes_ok (param_record (P4Param len value))) as Hb.
  { apply Forall_app. split; [apply le16_bytes_ok|]. apply Forall_app. split; [by repeat constructor|done]. }
  split_and!; [done|cbn; unfold P4_RPC_ENTRY_PARAM_LEN; lia|]. unfold wire_param. f_equal.
  - rewrite (get_le16_of_bytes _ _ len); [apply wrap_id; unfold fits; lia|done|]. intros i Hi. destruct i as [|[|i]]; [done..|lia].
  - unfold bslice. cbn -[take]. by apply take_ge; rewrite Lv.
Qed.
(** The record, in the pieces the code reads. *)
Lemma name_field_length s : name_ok s -> length (name_field s) = 64%nat.
Proof. intros [_ Hl]. unfold name_field, zeros. rewrite length_app, length_replicate. unfold P4_DEVCMD_NAME_MAX in *. lia. Qed.
Lemma name_field_ok s : name_ok s -> bytes_ok (name_field s).
Proof.
  intros [Hp _]. apply Forall_app. split; [|apply zeros_ok]. unfold p4_name_printable in Hp.
  apply Forall_forall. intros c Hc%list_elem_of_In. rewrite forallb_forall in Hp. specialize (Hp c Hc). apply andb_true_iff in Hp. unfold byte_ok, fits. lia.
Qed.
(** An array of records written and read. *)
Lemma records_back {A} (ok : A -> Prop) (wr : A -> list Z) (rd : list Z -> A) size (l : list A) rest :
  (forall x, ok x -> bytes_ok (wr x) /\ length (wr x) = size /\ rd (wr x) = x) -> Forall ok l ->
  length (concat (wr <$> l)) = (length l * size)%nat /\ bytes_ok (concat (wr <$> l)) /\ rd <$> records (length l) size (concat (wr <$> l) ++ rest) = l.
Proof.
  intros Hrt Hl.
  assert (Forall (fun r => length r = size) (wr <$> l)) as Hs by (apply Forall_fmap; eapply Forall_impl; [exact Hl|]; intros x Hx; by apply Hrt).
  split_and!.
  - by rewrite (concat_length _ _ Hs), length_fmap.
  - apply Forall_concat, Forall_fmap. eapply Forall_impl; [exact Hl|]. intros x Hx. by apply Hrt.
  - rewrite records_concat by (done || by rewrite length_fmap). rewrite <-list_fmap_compose. rewrite <-(list_fmap_id l) at 2.
    apply Forall_fmap_ext_1. eapply Forall_impl; [exact Hl|]. intros x Hx. by apply Hrt.
Qed.


Section record.
Variables (up : p4_update) (rest : list Z).
Hypotheses (Hup : wire_ok up) (Hrest : bytes_ok rest).
Let req := update_record up ++ rest.
Let matches := concat (match_record <$> used_match up).
Let params := concat (param_record <$> used_params up).
Let head := [up_type up; 0; 0; 0] ++ le32_bytes (up_priority up) ++ le16_bytes (up_nmatch up) ++ le16_bytes (up_nparams up).

Lemma record_pieces : req = head ++ name_field (up_table up) ++ name_field (up_action up) ++ matches ++ params ++ rest.
Proof. unfold req, update_record, head. by rewrite <-!app_assoc. Qed.
Lemma record_bytes : bytes_ok req.
Proof.
  rewrite record_pieces. destruct Hup as [Ht _ Hta Hac _ _ (_ & _ & Hm) (_ & _ & Hp)]. unfold bytes_ok, head. rewrite !Forall_app. split_and!; try done.
  all: try apply le16_bytes_ok; try apply le32_bytes_ok; try by apply name_field_ok.
  - constructor; [exact Ht|exact (zeros_ok 3)].
  - by apply (records_back match_ok match_record wire_match _ _ [] match_back).
  - by apply (records_back arg_ok param_record wire_param _ _ [] param_back).
Qed.
Lemma record_counts : ernic_get_le16 req 8 = up_nmatch up /\ ernic_get_le16 req 10 = up_nparams up /\ ernic_get_le32 req 4 = up_priority up.
Proof.
  pose proof record_bytes as Hb. destruct Hup as [_ Hpr _ _ Hm Hp _ _]. change (Z.of_nat P4_MAX_TABLE_KEY) with 8 in Hm. change (Z.of_nat P4_MAX_RUNTIME_ARGS) with 8 in Hp. split_and!.
  - rewrite (get_le16_of_bytes _ _ (up_nmatch up)); [apply wrap_id; unfold fits; lia|done|]. intros i Hi. rewrite record_pieces. by destruct i as [|[|i]]; [..|lia].
  - rewrite (get_le16_of_bytes _ _ (up_nparams up)); [apply wrap_id; unfold fits; lia|done|]. intros i Hi. rewrite record_pieces. by destruct i as [|[|i]]; [..|lia].
  - rewrite (get_le32_of_bytes _ _ (up_priority up)); [by apply wrap_id|done|]. intros i Hi. rewrite record_pieces. by destruct i as [|[|[|[|i]]]]; [..|lia].
Qed.
Lemma record_names : c_string (bslice req 12 P4_DEVCMD_NAME_MAX) = up_table up /\ c_string (bslice req 76 P4_DEVCMD_NAME_MAX) = up_action up /\
  drop P4_RPC_ENTRY_UPDATE_LEN req = matches ++ params ++ rest.
Proof.
  destruct Hup as [_ _ Hta Hac _ _ _ _]. rewrite record_pieces. unfold bslice. change P4_RPC_ENTRY_UPDATE_LEN with (12 + (64 + 64))%nat. change 76%nat with (12 + 64)%nat.
  rewrite <-!drop_drop. change (drop 12 (head ++ ?x)) with (drop 0 x). rewrite drop_0, !(drop_app_length' (name_field (up_table up))), (drop_app_length' (name_field (up_action up)))
    by by rewrite name_field_length. split_and!; [| |done]; apply c_string_field; [apply Hta..|apply Hac|apply Hac].
Qed.
(** The record is read as the update it was written from. *)
Lemma wire_update_back : wire_update req = Some up.
Proof.
  destruct record_counts as (E8 & E10 & E4). destruct record_names as (Et & Ea & Ed). unfold wire_update.
  pose proof Hup as [Ht _ [Pt _] [Pa _] Hm Hp (Em & Lm & Am) (Ep & Lp & Ap)].
  destruct (records_back match_ok match_record wire_match _ (used_match up) (params ++ rest) match_back Am) as (Sm & _ & Bm).
  destruct (records_back arg_ok param_record wire_param _ (used_params up) rest param_back Ap) as (Sp & _ & Bp). fold matches in Sm, Bm. fold params in Sp, Bp.
  assert (length req = P4_RPC_ENTRY_UPDATE_LEN + (length matches + length params + length rest))%nat as Hlen.
  { apply (f_equal length) in Ed. rewrite length_drop, !length_app in Ed. enough (140 <= length req)%nat by (unfold P4_RPC_ENTRY_UPDATE_LEN in *; lia).
    rewrite record_pieces, !length_app, !name_field_length by apply Hup. unfold head. cbn. lia. }
  rewrite E8, E10, E4, Et, Ea, Ed, Pt, Pa. rewrite Lm in Sm, Bm. rewrite Lp in Sp, Bp.
  rewrite (bool_decide_eq_false_2 (length req < _)%nat), (bool_decide_eq_false_2 (P4_MAX_TABLE_KEY < _)%nat), (bool_decide_eq_false_2 (P4_MAX_RUNTIME_ARGS < _)%nat) by lia.
  rewrite (bool_decide_eq_false_2 (_ < _)%nat) by lia. cbn [orb negb]. rewrite Bm, <-Sm, drop_app_length, Bp.
  rewrite !existsb_none; [|eapply Forall_impl; [exact Ap|]; intros a [_ Ha]; apply Z.ltb_ge; change (Z.of_nat P4_MATCH_BYTES) with 16; lia|eapply Forall_impl; [exact Am|]; intros m (_ & _ & Hl & _); apply Z.ltb_ge; change (Z.of_nat P4_MATCH_BYTES) with 16; lia].
  cbn [orb]. rewrite <-Em, <-Ep, !Z2Nat.id by lia. replace (bat req 0 0) with (up_type up) by by rewrite record_pieces. by destruct up.
Qed.
End record.

(** ** Commands, end to end *)
Section commands.
Context {M : Type} {GM : GuestMem M} {ML : GuestMemLaws M} {HL : Loader} {HLL : LoaderLaws}.
Implicit Types (h : p4_host M).

(** An RPC on [ep] and [op], with the lengths the device takes. *)
Record rpc_on (ep op : Z) (cmd : list Z) : Prop := {
  ro_bytes : bytes_ok cmd;
  ro_opcode : bat cmd 0 0 = IONIC_CMD_P4_RPC;
  ro_ep : ernic_get_le32 cmd 4 = ep;
  ro_op : ernic_get_le32 cmd 8 = op }.
Lemma dispatch_rpc io ep op cmd h : rpc_on ep op cmd -> pd_scope (ph_pd h) <> P4_SCOPE_NONE ->
  p4_devcmd_dispatch io cmd h =
    let r := handle_rpc io cmd h in (comp_bytes r.1.1 (if r.1.1 =? P4_STS_OK then r.1.2 else 0), r.2).
Proof.
  intros [_ Hop _ _] Hs. unfold p4_devcmd_dispatch. run. rewrite (proj2 (Z.eqb_neq _ _) Hs). run. unfold p4_devcmd_switch. by rewrite Hop.
Qed.

(** An RPC the checks let through, with nothing to write back. *)
Lemma handle_rpc_runs io ep op def cmd h req status resp h1 :
  rpc_on ep op cmd -> p4_find_op ep op = Some def ->
  od_scope def <= bat cmd 1 0 <= pd_scope (ph_pd h) -> pd_scope (ph_pd h) <> P4_SCOPE_NONE ->
  0 < ernic_get_le32 cmd 12 <= P4_DEVCMD_REQ_MAX -> ernic_get_le32 cmd 24 <= P4_DEVCMD_RESP_MAX -> io_req io = true -> io_resp io = true ->
  dma_read (ph_mem h) (ernic_get_le64 cmd 16) (ernic_get_le32 cmd 12) = Some req ->
  rpc_switch io ep op req (zeros (Z.to_nat (ernic_get_le32 cmd 24))) h = (status, (resp, 0), h1) ->
  handle_rpc io cmd h = (status, 0, h1).
Proof.
  intros [_ _ Hep Hop] Hdef Hsc Hnone Hreq Hresp Hio1 Hio2 Hrd Hsw. unfold handle_rpc. rewrite Hep, Hop, Hdef. run.
  rewrite (proj2 (scope_ok_spec _ _ _)) by done. cbn [negb]. rewrite (proj2 (orb_false_iff _ _)) by (rewrite !Z.ltb_ge; lia). run.
  unfold read_req. rewrite (proj2 (Z.eqb_neq _ _)) by lia. rewrite Hio1, Hrd. cbn [negb]. rewrite Hio2, andb_false_r. rewrite run_bind, Hsw. cbn. by rewrite andb_false_r.
Qed.
Lemma update_effect io req up h : wire_update req = Some up -> line_ok (LineUpdateRefused (up_table up) (up_action up) 0) ->
  let '(rc, e) := p4_engine_update (io_eng io) (pd_eng (ph_pd h)) up in
  exists h1, rpc_entry_update io req h = (p4_status_of rc, h1) /\
    pd_eng (ph_pd h1) = e /\ ph_mem h1 = ph_mem h /\ pd_scope (ph_pd h1) = pd_scope (ph_pd h) /\ (0 <= rc -> ph_log h1 = ph_log h).
Proof.
  intros Hup Hline. unfold rpc_entry_update. rewrite Hup, run_bind. unfold on_engine. destruct (p4_engine_update _ _ up) as [rc e] eqn:He. cbn [fst snd].
  set (h0 := h <| ph_pd ::= upd pd_eng (fun _ => e) |>). destruct (Z.ltb_spec rc 0) as [Hrc|Hrc].
  - rewrite run_bind. set (say := p4_devcmd_log_ok _ _ _ _ ≫= _). eexists. split; [done|].
    assert (quiet h0 (say h0).2) as [He1 Hs1 Hm1 _] by (apply limited_quiet; [done..|]; by apply vfu_log_quiet).
    split_and!; [by rewrite He1|by rewrite Hm1|by rewrite Hs1|lia].
  - exists h0. by split_and!.
Qed.

(** C23: a record in guest memory, given with enough scope, is the update the
    engine is given, and the status says how that went; the memory, the grant
    and, when it is taken, the log are as they were. *)
Theorem p4_devcmd_updates io cmd h up rest :
  rpc_on P4_EP_TABLE P4_OP_ENTRY_UPDATE cmd ->
  P4_SCOPE_WRITE <= bat cmd 1 0 <= pd_scope (ph_pd h) ->
  0 < ernic_get_le32 cmd 12 <= P4_DEVCMD_REQ_MAX -> ernic_get_le32 cmd 24 <= P4_DEVCMD_RESP_MAX -> io_req io = true -> io_resp io = true ->
  dma_read (ph_mem h) (ernic_get_le64 cmd 16) (ernic_get_le32 cmd 12) = Some (update_record up ++ rest) -> wire_ok up -> bytes_ok rest ->
  let '(comp, h') := p4_devcmd_dispatch io cmd h in
  let '(rc, e) := p4_engine_update (io_eng io) (pd_eng (ph_pd h)) up in
  comp = comp_bytes (p4_status_of rc) 0 /\ pd_eng (ph_pd h') = e /\ ph_mem h' = ph_mem h /\ pd_scope (ph_pd h') = pd_scope (ph_pd h) /\
  (0 <= rc -> ph_log h' = ph_log h).
Proof.
  intros Hrpc Hsc Hreq Hresp Hio1 Hio2 Hrd Hup Hrest. pose proof (wire_update_back up rest Hup Hrest) as Hback.
  assert (pd_scope (ph_pd h) <> P4_SCOPE_NONE) as Hnone by (unfold P4_SCOPE_WRITE, P4_SCOPE_NONE in *; lia).
  pose proof (update_effect io _ up h Hback (conj (wo_table up Hup) (wo_action up Hup))) as Heff. destruct (p4_engine_update _ _ up) as [rc e].
  destruct Heff as (h1 & Hrun & He & Hm & Hs & Hl). rewrite (dispatch_rpc io _ _ _ _ Hrpc Hnone).
  rewrite (handle_rpc_runs io _ _ _ cmd h _ (p4_status_of rc) (zeros (Z.to_nat (ernic_get_le32 cmd 24))) h1 Hrpc eq_refl Hsc Hnone Hreq Hresp Hio1 Hio2 Hrd).
  - cbn. split_and!; try done. by destruct (_ =? _).
  - unfold rpc_switch. change (P4_EP_TABLE =? P4_EP_PROGRAM) with false. change (P4_EP_TABLE =? P4_EP_TABLE) with true. cbn iota. by rewrite run_bind, Hrun.
Qed.

(** The status of a completion. *)
Definition sts_of (comp : list Z) : Z := bat comp 0 0.
(** The statuses of an operation that was let through. *)
Definition outcome (sts : Z) : Prop :=
  sts ∈ [P4_STS_OK; P4_STS_EINVAL; P4_STS_ERANGE; P4_STS_EFAULT; P4_STS_ENOENT; P4_STS_EEXIST; P4_STS_ENOSPC; P4_STS_EDEVICE].
Lemma outcome_of rc : outcome (p4_status_of rc).
Proof. unfold p4_status_of. repeat case_match; by apply (bool_decide_unpack _). Qed.
Lemma outcome_not sts : outcome sts -> sts <> P4_STS_EOPCODE /\ sts <> P4_STS_EPERM.
Proof. unfold outcome. rewrite !elem_of_cons. intros H. destruct_or! H; subst; try done. by apply not_elem_of_nil in H. Qed.
Ltac outcome := first [apply outcome_of|by apply (bool_decide_unpack _)].
Lemma find_op_in ep op d : p4_find_op ep op = Some d -> d ∈ p4_ops /\ od_ep d = ep /\ od_op d = op.
Proof.
  intros Hf. unfold p4_find_op in Hf. apply fmap_Some in Hf as ([i x] & Hf & ->). apply list_find_Some in Hf as (Hl & [<- <-] & _).
  split; [by eapply list_elem_of_lookup_2|done].
Qed.
Lemma program_status io op req h : op ∈ [P4_OP_LOAD_BEGIN; P4_OP_LOAD_CHUNK; P4_OP_LOAD_COMMIT; P4_OP_LOAD_ABORT] -> outcome (rpc_program io op req h).1.
Proof.
  rewrite !elem_of_cons. intros [->|[->|[->|[->|[]%not_elem_of_nil]]]]; unfold rpc_program; cbn -[rpc_load_begin rpc_load_chunk rpc_load_commit].
  - unfold rpc_load_begin. destruct (_ <? _); [outcome|]. run. outcome.
  - unfold rpc_load_chunk. destruct (_ <? _); [outcome|]. destruct (_ || _); [outcome|]. run. outcome.
  - unfold rpc_load_commit. rewrite !run_bind. outcome.
  - outcome.
Qed.
Lemma switch_status io ep op d req resp h : p4_find_op ep op = Some d -> outcome (rpc_switch io ep op req resp h).1.1.
Proof.
  intros (Hin & <- & <-)%find_op_in. unfold rpc_switch. destruct (Z.eqb_spec (od_ep d) P4_EP_PROGRAM) as [He|He].
  { rewrite run_bind. apply program_status. unfold p4_ops in Hin. rewrite !elem_of_cons in Hin. destruct_or! Hin; subst; try done; try by apply (bool_decide_unpack _).
    by apply not_elem_of_nil in Hin. }
  destruct (Z.eqb_spec (od_ep d) P4_EP_TABLE) as [He2|He2].
  { rewrite run_bind. unfold rpc_entry_update. destruct (wire_update req); [|outcome]. rewrite !run_bind. outcome. }
  destruct (Z.eqb_spec (od_ep d) P4_EP_STATS) as [He3|He3].
  { unfold rpc_stats_read. destruct (_ <? _); [outcome|]. run. outcome. }
  unfold p4_ops in Hin. rewrite !elem_of_cons in Hin. destruct_or! Hin; subst; try done. by apply not_elem_of_nil in Hin.
Qed.
(** The status of an RPC: by the table of operations, then by the scope. *)
Lemma handle_rpc_status io cmd h : pd_scope (ph_pd h) <> P4_SCOPE_NONE ->
  let sts := (handle_rpc io cmd h).1.1 in
  match p4_find_op (ernic_get_le32 cmd 4) (ernic_get_le32 cmd 8) with
  | None => sts = P4_STS_EOPCODE
  | Some d => if decide (od_scope d <= bat cmd 1 0 <= pd_scope (ph_pd h)) then outcome sts else sts = P4_STS_EPERM
  end.
Proof.
  intros Hnone. unfold handle_rpc. destruct (p4_find_op _ _) as [d|] eqn:Hd; [|done]. rewrite run_bind. cbn [gets fst snd]. case_decide as Hin.
  - rewrite (proj2 (scope_ok_spec _ _ _)) by done. cbn [negb]. destruct (_ || _); [outcome|]. rewrite run_bind. cbn [gets fst snd].
    destruct (read_req _ _ _ _) as [sts|req] eqn:Hreq.
    { unfold read_req in Hreq. destruct (_ =? _); [done|]. destruct (negb _); [injection Hreq as <-; outcome|]. destruct (dma_read _ _ _); [done|]. injection Hreq as <-. outcome. }
    destruct (_ && _); [outcome|]. rewrite run_bind.
    pose proof (switch_status io _ _ d req (zeros (Z.to_nat (ernic_get_le32 cmd 24))) h Hd) as Hs. destruct (rpc_switch _ _ _ _ _ _) as [[sts [resp written]] h1]. cbn [fst snd] in *.
    destruct (_ && _); [|done]. rewrite run_bind. destruct (ernic_dma_put _ _ _) as [[] h2]; [done|outcome].
  - replace (scope_ok _ _ _) with false; [done|]. symmetry. apply not_true_is_false. rewrite scope_ok_spec. tauto.
Qed.
Lemma rpc_status io ep op cmd h : rpc_on ep op cmd -> pd_scope (ph_pd h) <> P4_SCOPE_NONE ->
  let sts := sts_of (p4_devcmd_dispatch io cmd h).1 in
  match p4_find_op ep op with
  | None => sts = P4_STS_EOPCODE
  | Some d => if decide (od_scope d <= bat cmd 1 0 <= pd_scope (ph_pd h)) then outcome sts else sts = P4_STS_EPERM
  end.
Proof.
  intros Hrpc Hnone. rewrite (dispatch_rpc io ep op cmd h Hrpc Hnone). destruct Hrpc as [_ _ <- <-]. pose proof (handle_rpc_status io cmd h Hnone) as H.
  destruct (handle_rpc io cmd h) as [[sts n] h1]. cbn [fst snd] in *. change (sts_of (comp_bytes sts ?x)) with (u8 sts).
  destruct (p4_find_op _ _); [case_decide|]; try (by rewrite H). replace (u8 sts) with sts; [done|].
  unfold outcome in H. rewrite !elem_of_cons in H. destruct_or! H; subst; try done. by apply not_elem_of_nil in H.
Qed.
(** QUERY's entries are the table's rows for the endpoint. *)
Lemma ops_of_cases ep : ops_of ep = [] \/ ep ∈ p4_endpoints.
Proof.
  unfold ops_of, p4_ops, p4_endpoints. rewrite !filter_cons. cbn [od_ep]. rewrite !elem_of_cons. repeat case_decide; subst; auto 10.
Qed.

(** The answer to a query, as the guest finds it. *)
Lemma peekn_written (m m' : M) pa bs len : fits 64 pa -> bytes_ok bs -> Z.of_nat (length bs) <= len < 2 ^ 32 -> dma_write m pa bs = (true, m') ->
  exists rest, bytes_ok rest /\ peekn m' pa len = bs ++ rest.
Proof.
  intros Hpa Hbs Hlen Hw. apply dma_write_spec in Hw as [_ Hp]; [|done|lia]. exists (peekn m' (pa + Z.of_nat (length bs)) (len - Z.of_nat (length bs))). split; [apply peekn_bytes|].
  unfold peekn. replace len with (Z.of_nat (length bs) + (len - Z.of_nat (length bs))) at 1 by lia. rewrite seqZ_app, fmap_app by lia. f_equal.
  apply list_eq_same_length with (n := length bs); [done|by rewrite length_fmap, seqZ_length_nat|]. intros i x y Hi Hx Hy.
  rewrite list_lookup_fmap, lookup_seqZ_lt in Hx by lia. cbn in Hx. simplify_eq. rewrite Hp, bool_decide_true by lia.
  replace (pa + Z.of_nat i - pa) with (Z.of_nat i) by lia. rewrite Nat2Z.id, (list_lookup_total_correct _ _ _ Hy). apply wrap_id. by apply (Forall_lookup_1 _ _ _ _ Hbs Hy).
Qed.
(** The operations a query's answer lists, with their scopes. *)
Definition listed (b : list Z) (op scope : Z) : Prop :=
  exists i, (i < Z.to_nat (ernic_get_le32 b 4))%nat /\ ernic_get_le32 b (16 + 8 * i) = op /\ bat b (20 + 8 * i) 0 = scope.
(** Only the header and the entries it counts matter. *)
Lemma listed_app_l b rest op scope : (8 <= length b)%nat -> (16 + 8 * Z.to_nat (ernic_get_le32 b 4) <= length b)%nat -> listed (b ++ rest) op scope <-> listed b op scope.
Proof.
  intros Hl Hn. unfold listed. rewrite get_le32_app_l by lia. split; intros (i & Hi & Ho & Hs); exists i.
  - rewrite get_le32_app_l in Ho by lia. rewrite bat_app_l in Hs by lia. done.
  - rewrite get_le32_app_l, bat_app_l by lia. done.
Qed.
(** The whole answer for an endpoint. *)
Definition endpoint_answer (ep : Z) : list Z :=
  let ops := operation_entry <$> ops_of ep in
  query_header P4_QUERY_OPERATION_LEN (Z.of_nat (length ops)) (Z.of_nat (length ops)) ++ concat ops.
Lemma listed_rows ep rest op scope : ep ∈ p4_endpoints ->
  listed (endpoint_answer ep ++ rest) op scope <-> exists d, p4_find_op ep op = Some d /\ od_scope d = scope.
Proof.
  unfold p4_endpoints. rewrite !elem_of_cons. intros [->|[->|[->|[]%not_elem_of_nil]]]; (rewrite listed_app_l; [|vm_compute; lia..]); split.
  1, 3, 5: intros (i & Hi & <- & <-); vm_compute in Hi; do 4 (destruct i as [|i]; [first [lia|eexists; split; [vm_compute; reflexivity|reflexivity]]|]); lia.
  all: intros (d & (Hin & He & <-)%find_op_in & <-); unfold p4_ops in Hin; rewrite !elem_of_cons in Hin.
  all: destruct_or! Hin; subst; try done; try by apply not_elem_of_nil in Hin.
  all: first [exists 0%nat; split_and!; [vm_compute; lia|reflexivity..]|exists 1%nat; split_and!; [vm_compute; lia|reflexivity..]
             |exists 2%nat; split_and!; [vm_compute; lia|reflexivity..]|exists 3%nat; split_and!; [vm_compute; lia|reflexivity..]].
Qed.
Lemma endpoint_entries ep : ep ∈ p4_endpoints ->
  query_entries P4_QUERY_ENDPOINT ep = inr (P4_QUERY_OPERATION_LEN, operation_entry <$> ops_of ep) /\
  (length (ops_of ep) <= 4)%nat /\ bytes_ok (concat (operation_entry <$> ops_of ep)).
Proof.
  unfold p4_endpoints. rewrite !elem_of_cons. intros [->|[->|[->|[]%not_elem_of_nil]]].
  all: split_and!; [reflexivity|vm_compute; lia|by apply (bool_decide_unpack _); vm_compute].
Qed.
Lemma no_entries ep : ops_of ep = [] -> query_entries P4_QUERY_ENDPOINT ep = inl P4_STS_EOPCODE.
Proof. unfold query_entries. by intros ->. Qed.
Lemma query_answer io cmd h : bytes_ok cmd -> bat cmd 0 0 = IONIC_CMD_P4_QUERY -> bat cmd 1 0 = P4_QUERY_ENDPOINT -> 64 <= ernic_get_le32 cmd 4 ->
  sts_of (p4_devcmd_dispatch io cmd h).1 = P4_STS_OK ->
  ernic_get_le32 cmd 16 ∈ p4_endpoints /\ exists rest,
  peekn (ph_mem (p4_devcmd_dispatch io cmd h).2) (ernic_get_le64 cmd 8) (ernic_get_le32 cmd 4) = endpoint_answer (ernic_get_le32 cmd 16) ++ rest.
Proof.
  intros Hcmd Hop Hent Hlen. unfold p4_devcmd_dispatch. run. destruct (_ =? P4_SCOPE_NONE); [done|]. run. unfold p4_devcmd_switch. rewrite Hop.
  change (IONIC_CMD_P4_QUERY =? IONIC_CMD_P4_IDENT) with false. rewrite Z.eqb_refl. cbn iota. run. unfold handle_query. rewrite Hent.
  rewrite (proj2 (Z.ltb_ge _ _)) by (unfold P4_QUERY_HDR_LEN; lia). cbn [orb]. destruct (_ <? _); [done|].
  generalize (ernic_get_le32 cmd 16). intros ep. destruct (ops_of_cases ep) as [He|Hep]; [by rewrite (no_entries _ He)|].
  destruct (endpoint_entries ep Hep) as (-> & Hn & Hb). unfold endpoint_answer. cbn zeta. rewrite length_fmap.
  replace (Z.min _ _) with (Z.of_nat (length (ops_of ep))); cycle 1.
  { unfold P4_QUERY_HDR_LEN, P4_QUERY_OPERATION_LEN. pose proof (Z.div_le_mono 48 (ernic_get_le32 cmd 4 - 16) 8 ltac:(lia) ltac:(lia)). change (48 / 8) with 6 in *. lia. }
  rewrite Nat2Z.id, take_ge by by rewrite length_fmap. run. unfold ernic_dma_put. set (bs := query_header _ _ _ ++ _).
  destruct (dma_write (ph_mem h) (ernic_get_le64 cmd 8) bs) as [ok m'] eqn:Hw. destruct ok; [|done]. intros _. split; [done|].
  eapply peekn_written in Hw as (rest & _ & Hrest); [exists rest; exact Hrest|by apply get_le64_fits| |].
  - apply Forall_app. split; [|done]. repeat (apply Forall_app; split); try apply le32_bytes_ok. by apply (bool_decide_unpack _); vm_compute.
  - split; [|apply get_le32_fits, Hcmd]. subst bs. rewrite length_app, (concat_length _ 8) by (by apply Forall_fmap, Forall_true). rewrite length_fmap.
    change (length (query_header _ _ _)) with 16%nat. lia.
Qed.

(** C35: what QUERY tells a guest of an endpoint is what RPC holds it to: an
    operation it does not list is unknown, one it lists is refused exactly
    when the claim is less than the scope listed or more than the grant. *)
Theorem p4_query_enforced io cmd h io1 op rpc h1 :
  bytes_ok cmd -> bat cmd 0 0 = IONIC_CMD_P4_QUERY -> bat cmd 1 0 = P4_QUERY_ENDPOINT -> 64 <= ernic_get_le32 cmd 4 ->
  sts_of (p4_devcmd_dispatch io cmd h).1 = P4_STS_OK ->
  rpc_on (ernic_get_le32 cmd 16) op rpc -> pd_scope (ph_pd h1) <> P4_SCOPE_NONE ->
  let b := peekn (ph_mem (p4_devcmd_dispatch io cmd h).2) (ernic_get_le64 cmd 8) (ernic_get_le32 cmd 4) in
  let sts := sts_of (p4_devcmd_dispatch io1 rpc h1).1 in
  (sts = P4_STS_EOPCODE <-> ~ exists scope, listed b op scope) /\
  (sts = P4_STS_EPERM <-> exists scope, listed b op scope /\ ~ (scope <= bat rpc 1 0 <= pd_scope (ph_pd h1))).
Proof.
  intros Hcmd Hop Hent Hlen Hok Hrpc Hnone. destruct (query_answer io cmd h Hcmd Hop Hent Hlen Hok) as (Hep & rest & ->). cbn zeta.
  pose proof (rpc_status io1 _ _ _ _ Hrpc Hnone) as Hst.  setoid_rewrite (listed_rows _ rest op _ Hep).
  destruct (p4_find_op _ op) as [d|].
  - case_decide as Hsc.
    + apply outcome_not in Hst as [H1 H2]. split; split; [done|by intros []; eauto|done|]. intros (s & (d' & [= <-] & <-) & Hn). by destruct Hn.
    + rewrite Hst. split; split; try done; [by intros []; eauto|eauto 10].
  - rewrite Hst. split; split; try done; [by intros _ (s & d & ? & _)|by intros (s & (d & ? & _) & _)].
Qed.
End commands.

(** ** A host, for the examples *)
Definition dv_vfu : Vfu := flat_vfu 0 1048576 4096.
Definition dv_vfu_laws : @VfuLaws dv_vfu := flat_laws 0 1048576 4096.
#[local] Existing Instance dv_vfu.
#[local] Existing Instance dv_vfu_laws.
#[local] Existing Instance px_loader.
#[local] Existing Instance px_loader_laws.
Definition dv_io : p4_io := P4Io 60000 true true true.
(** RPC and QUERY commands: a buffer at 0x1000 to read, one at 0x2000 to write. *)
Definition dv_rpc (claim ep op req_len resp_len : Z) : list Z :=
  [IONIC_CMD_P4_RPC; claim; 0; 0] ++ le32_bytes ep ++ le32_bytes op ++ le32_bytes req_len ++ le64_bytes 0x1000 ++ le32_bytes resp_len ++ zeros 4 ++ le64_bytes 0x2000 ++ zeros 24.
Definition dv_query (ep len : Z) : list Z :=
  [IONIC_CMD_P4_QUERY; P4_QUERY_ENDPOINT; 0; 0] ++ le32_bytes len ++ le64_bytes 0x2000 ++ le32_bytes ep ++ zeros 44.
Definition dv_eng : p4_engine := foldl eng_step p4_engine_create [OpBegin true 2; OpChunk 0 [0x7b]; OpChunk 1 [0x7d]; OpCommit true].
Definition dv_host (scope : Z) (bs : list Z) : p4_host host := P4Host (p4_devcmd_create dv_eng scope) (host_write ∅ 0x1000 bs) [].
Ltac dv_done := first [by apply (bool_decide_unpack _); vm_compute|vm_compute; reflexivity|vm_compute; lia].

(** A guest that may write entries tries to abort a load and to begin one. *)
Lemma p4_devcmd_confined_witness :
  let cmds := [(dv_io, dv_rpc P4_SCOPE_WRITE P4_EP_PROGRAM P4_OP_LOAD_ABORT 0 0); (dv_io, dv_rpc P4_SCOPE_LOAD P4_EP_PROGRAM P4_OP_LOAD_BEGIN 8 0)] in
  eg_prog (pd_eng (ph_pd (run_cmds cmds (dv_host P4_SCOPE_WRITE [])))) = Some px.
Proof.
  intros cmds. assert (Forall (fun c => bytes_ok c.2) cmds) as Hc by dv_done.
  destruct (wi_write _ _ _ (p4_devcmd_confined cmds (dv_host P4_SCOPE_WRITE []) Hc) ltac:(dv_done)) as [Hp _].
  etrans; [exact Hp|]. vm_compute. reflexivity.
Defined.
Lemma log_limit_bounds_witness :
  passed (limit_run (replicate 25 60000 ++ [65000; 65001]) (LogLimit 0 0 0)).1 = 12 /\ passed (limit_run (replicate 25 60000 ++ [65000; 65001]) (LogLimit 0 0 0)).1 <= 30.
Proof.
  split; [vm_compute; reflexivity|]. set (nows := replicate 25 60000 ++ [65000; 65001]).
  assert (StronglySorted Z.le (60000 :: nows)) as Hs by (repeat (constructor; [|by apply (bool_decide_unpack _); vm_compute]); constructor).
  pose proof (log_limit_bounds nows (LogLimit 0 0 0) 60000 2 ltac:(unfold limit_ok, ERNIC_LOG_LIMIT_BURST; cbn; lia) ltac:(cbn; lia)
    ltac:(lia) ltac:(unfold ERNIC_LOG_LIMIT_MS; lia) Hs ltac:(dv_done)) as H.
  destruct (limit_run _ _). exact (proj1 H).
Defined.
Lemma px_short_wire : wire_ok px_short.
Proof. split; unfold name_ok, match_ok, arg_ok; cbn -[Z.pow]. all: repeat match goal with |- _ /\ _ => split end; try dv_done. Qed.
Lemma p4_devcmd_updates_witness :
  let cmd := dv_rpc P4_SCOPE_WRITE P4_EP_TABLE P4_OP_ENTRY_UPDATE 196 0 in
  let r := p4_devcmd_dispatch dv_io cmd (dv_host P4_SCOPE_WRITE (update_record px_short)) in
  r.1 = comp_bytes P4_STS_OK 0 /\ pd_eng (ph_pd r.2) = (p4_engine_update true dv_eng px_short).2.
Proof.
  intros cmd r. pose proof (p4_devcmd_updates dv_io cmd (dv_host P4_SCOPE_WRITE (update_record px_short)) px_short []) as H.
  specialize (H ltac:(split; dv_done) ltac:(dv_done) ltac:(dv_done) ltac:(dv_done) eq_refl eq_refl ltac:(dv_done) px_short_wire ltac:(constructor)).
  fold r in H. destruct r as [comp h'], (p4_engine_update (io_eng dv_io) _ px_short) as [rc e] eqn:He. destruct H as (Hc & He' & _).
  cbn [fst snd]. split.
  - rewrite Hc. f_equal. apply (f_equal fst) in He. vm_compute in He. by subst rc.
  - rewrite He'. change e with (rc, e).2. by rewrite <-He.
Defined.
Lemma p4_query_enforced_witness :
  let r := p4_devcmd_dispatch dv_io (dv_query P4_EP_PROGRAM 64) (dv_host P4_SCOPE_READ []) in
  exists scope, listed (peekn (ph_mem r.2) 0x2000 64) P4_OP_LOAD_BEGIN scope /\ ~ (scope <= P4_SCOPE_WRITE <= P4_SCOPE_WRITE).
Proof.
  intros r. assert (rpc_on (ernic_get_le32 (dv_query P4_EP_PROGRAM 64) 16) P4_OP_LOAD_BEGIN (dv_rpc P4_SCOPE_WRITE P4_EP_PROGRAM P4_OP_LOAD_BEGIN 0 0)) as Hrpc by (split; dv_done).
  destruct (p4_query_enforced dv_io (dv_query P4_EP_PROGRAM 64) (dv_host P4_SCOPE_READ []) dv_io P4_OP_LOAD_BEGIN (dv_rpc P4_SCOPE_WRITE P4_EP_PROGRAM P4_OP_LOAD_BEGIN 0 0) (dv_host P4_SCOPE_WRITE [])
    ltac:(dv_done) eq_refl eq_refl ltac:(dv_done) ltac:(dv_done) Hrpc ltac:(dv_done)) as [_ [H _]].
  apply H. vm_compute. reflexivity.
Defined.
