(* ===== verification/P4Fp8.v ===== *)
(** * OCP FP8 E4M3 arithmetic (p4_fp8.c)

    A float is its 32 bits.  The conversions are the integer code of the
    source; the float addition, multiplication and comparison are those of
    IEEE 754 binary32: the exact result, rounded to nearest, ties to even. *)
From S2P Require Export Prelude.
#[local] Open Scope Z_scope.

Definition P4_FP8_NAN : Z := 0x7f.
Definition P4_FP8_MAX : Z := 0x7e.
Definition P4_FP8_OP_ADD : Z := 0.
Definition P4_FP8_OP_MUL : Z := 1.
Definition P4_FP8_OP_MAX : Z := 2.
Definition FP8_BIAS : Z := 7.
Definition FP8_EXP_MAX : Z := 15.
Definition FP8_SUBNORMAL_SHIFT : Z := FP8_BIAS - 1 + 3.
Definition FP8_TOP_MAN_MAX : Z := 6.
Definition F32_BIAS : Z := 127.
Definition F32_INF_BITS : Z := 0x7f800000.
Definition F32_NAN_BITS : Z := 0x7fc00000.
Definition F32_SATURATE_BITS : Z := 0x43e80000.
Definition F32_FLUSH_BITS : Z := 0x3a800000.
Definition FP8_NORMAL_SHIFT : Z := 20.

Definition rne_shift (sig shift : Z) : Z :=
  if shift =? 0 then sig
  else if 32 <=? shift then 0
  else
    let result := Z.shiftr sig shift in
    let half := Z.shiftl 1 (shift - 1) in
    let rem := Z.land sig (Z.shiftl 1 shift - 1) in
    if (half <? rem) || ((rem =? half) && negb (Z.land result 1 =? 0)) then u32 (result + 1) else result.

Definition p4_fp8_is_nan (v : Z) : bool := Z.land v 0x7f =? P4_FP8_NAN.
Definition p4_fp8_to_float (v : Z) : Z :=
  let sign := if negb (Z.land v 0x80 =? 0) then 0x80000000 else 0 in
  let exp := Z.shiftr (Z.land v 0x78) 3 in
  let man := Z.land v 0x07 in
  if p4_fp8_is_nan v then F32_NAN_BITS
  else if exp =? 0 then
    if man =? 0 then sign
    else
      let msb := if 4 <=? man then 2 else if 2 <=? man then 1 else 0 in
      Z.lor (Z.lor sign (u32 (Z.shiftl (msb - FP8_SUBNORMAL_SHIFT + F32_BIAS) 23))) (Z.land (u32 (Z.shiftl man (23 - msb))) 0x007fffff)
  else Z.lor (Z.lor sign (u32 (Z.shiftl (exp + F32_BIAS - FP8_BIAS) 23))) (u32 (Z.shiftl man FP8_NORMAL_SHIFT)).
Definition p4_fp8_from_float (bits : Z) : Z :=
  let mag := Z.land bits 0x7fffffff in
  let sign := if negb (Z.land bits 0x80000000 =? 0) then 0x80 else 0 in
  if F32_INF_BITS <? mag then P4_FP8_NAN
  else if F32_SATURATE_BITS <=? mag then Z.lor sign P4_FP8_MAX
  else if mag <? F32_FLUSH_BITS then sign
  else
    let sig := Z.lor (Z.land mag 0x007fffff) (Z.shiftl 1 23) in
    let field := Z.shiftr mag 23 - F32_BIAS + FP8_BIAS in
    if field <? 1 then
      let q := rne_shift sig (FP8_NORMAL_SHIFT + 1 - field) in
      if 8 <=? q then Z.lor sign (Z.shiftl 1 3) else Z.lor sign (Z.land q 0x07)
    else
      let q := rne_shift sig FP8_NORMAL_SHIFT in
      let '(q, field) := if 16 <=? q then (8, field + 1) else (q, field) in
      if (FP8_EXP_MAX <? field) || ((field =? FP8_EXP_MAX) && (8 + FP8_TOP_MAN_MAX <? q)) then Z.lor sign P4_FP8_MAX
      else u8 (Z.lor (Z.lor sign (Z.shiftl field 3)) (Z.land (q - 8) 0x07)).

(** ** Binary32 *)
(** The magnitude of a float that is not a NaN, in units of 2^-149; the number
    of a finite one. *)
Definition fmag (mag : Z) : Z := if mag <? 2 ^ 23 then mag else (2 ^ 23 + mag mod 2 ^ 23) * 2 ^ (mag / 2 ^ 23 - 1).
Definition f32_neg (b : Z) : bool := Z.testbit b 31.
Definition f32_mag (b : Z) : Z := b mod 2 ^ 31.
Definition f32_num (b : Z) : Z := if f32_neg b then - fmag (f32_mag b) else fmag (f32_mag b).
Definition f32_nan (b : Z) : bool := F32_INF_BITS <? f32_mag b.
Definition f32_inf (b : Z) : bool := f32_mag b =? F32_INF_BITS.
Definition signed (s : bool) (mag : Z) : Z := if s then mag + 2 ^ 31 else mag.
(** [m / 2^k] to the nearest, ties to even. *)
Definition rne_div (m k : Z) : Z :=
  let q := m / 2 ^ k in
  let r := m mod 2 ^ k in
  if (2 ^ k <? 2 * r) || ((2 * r =? 2 ^ k) && Z.odd q) then q + 1 else q.
(** [m * 2^e] as a float. *)
Definition f32_round (s : bool) (m e : Z) : Z :=
  if m =? 0 then signed s 0
  else
    let k := Z.max (-149) (Z.log2 m + e - 23) in
    let q := if k <=? e then m * 2 ^ (e - k) else rne_div m (k - e) in
    signed s (Z.min F32_INF_BITS ((k + 149) * 2 ^ 23 + q)).
Definition f32_add (a b : Z) : Z :=
  if f32_nan a || f32_nan b || (f32_inf a && f32_inf b && negb (bool_decide (f32_neg a = f32_neg b))) then F32_NAN_BITS
  else if f32_inf a then a
  else if f32_inf b then b
  else
    let x := f32_num a + f32_num b in
    f32_round (if x =? 0 then f32_neg a && f32_neg b else x <? 0) (Z.abs x) (-149).
Definition f32_mul (a b : Z) : Z :=
  let s := xorb (f32_neg a) (f32_neg b) in
  if f32_nan a || f32_nan b || (f32_inf a && (f32_mag b =? 0)) || (f32_inf b && (f32_mag a =? 0)) then F32_NAN_BITS
  else if f32_inf a || f32_inf b then signed s F32_INF_BITS
  else f32_round s (fmag (f32_mag a) * fmag (f32_mag b)) (-298).
Definition f32_gt (a b : Z) : bool := negb (f32_nan a || f32_nan b) && (f32_num b <? f32_num a).

Definition fp8_combine (op fa fb : Z) : option Z :=
  if op =? P4_FP8_OP_ADD then Some (f32_add fa fb)
  else if op =? P4_FP8_OP_MUL then Some (f32_mul fa fb)
  else if op =? P4_FP8_OP_MAX then Some (if f32_gt fa fb then fa else fb)
  else None.
(** One element of the map. *)
Definition fp8_element (op a b : Z) : Z :=
  if p4_fp8_is_nan a || p4_fp8_is_nan b then P4_FP8_NAN
  else match fp8_combine op (p4_fp8_to_float a) (p4_fp8_to_float b) with Some r => p4_fp8_from_float r | None => 0 end.
(** [a] and [b] as long as each other; the result is what is written. *)
Definition p4_fp8_map (op : Z) (a b : list Z) : option (list Z) :=
  match fp8_combine op 0 0 with None => None | Some _ => Some (zip_with (fp8_element op) a b) end.

(** ** The numbers *)
(** The magnitude of a finite code, in units of 2^-9. *)
Definition w (c : Z) : Z := if c <? 8 then c else (8 + c mod 8) * 2 ^ (c / 8 - 1).
Definition fp8_num (v : Z) : Z := if Z.testbit v 7 then - w (v mod 128) else w (v mod 128).
Definition finite (v : Z) : Prop := 0 <= v < 256 /\ v mod 128 <> P4_FP8_NAN.
(** [v], of the numbers the format has, is nearest to [x / unit * 2^-9], and
    the even one of two. *)
Definition nearest (x unit v : Z) : Prop :=
  finite v /\ forall c, finite c -> Z.abs (x - fp8_num v * unit) <= Z.abs (x - fp8_num c * unit) /\
    (Z.abs (x - fp8_num v * unit) = Z.abs (x - fp8_num c * unit) -> fp8_num c = fp8_num v \/ Z.even v = true).
