(* ===== verification/P4Fp8Props.v ===== *)
(** * FP8 is rounded correctly

    Every float is encoded as the nearest FP8 number; every sum and product of
    two FP8 numbers is exact in float, so it is rounded once. *)
From S2P Require Export P4Fp8.
#[local] Open Scope Z_scope.

(** ** The order of the codes *)
Lemma all_codes (f : Z -> bool) n : forallb f (seqZ 0 n) = true -> forall c, 0 <= c < n -> f c = true.
Proof. intros H c Hc. rewrite forallb_forall in H. apply H, list_elem_of_In, elem_of_seqZ. lia. Qed.
Lemma w_step c : 0 <= c < 126 -> w c < w (c + 1).
Proof. intros Hc. apply Z.ltb_lt. revert c Hc. apply (all_codes (fun c => w c <? w (c + 1))). by vm_compute. Qed.
Lemma w_le c c' : 0 <= c <= c' -> c' <= 126 -> w c <= w c'.
Proof.
  intros [H0 Hc] Hle. revert c' Hc Hle. apply (Zlt_lower_bound_ind (fun c' => c' <= 126 -> w c <= w c') c). intros c' IH Hc Hle.
  destruct (decide (c = c')) as [->|Hne]; [lia|]. pose proof (IH (c' - 1) ltac:(lia) ltac:(lia)). pose proof (w_step (c' - 1) ltac:(lia)) as Hs.
  replace (c' - 1 + 1) with c' in Hs by lia. lia.
Qed.
Lemma w_nonneg c : 0 <= c <= 126 -> 0 <= w c.
Proof. intros Hc. change 0 with (w 0) at 1. apply w_le; lia. Qed.
(** [c] is nearest to the magnitude [x]. *)
Definition near (x unit c : Z) : Prop :=
  0 <= c <= 126 /\ forall c', 0 <= c' <= 126 ->
    Z.abs (x - w c * unit) <= Z.abs (x - w c' * unit) /\ (Z.abs (x - w c * unit) = Z.abs (x - w c' * unit) -> c' = c \/ Z.even c = true).
(** Being nearer than the neighbours is enough. *)
Lemma near_local x unit c :
  0 < unit -> 0 <= c <= 126 ->
  (0 < c -> w (c - 1) * unit + w c * unit <= 2 * x /\ (w (c - 1) * unit + w c * unit = 2 * x -> Z.even c = true)) ->
  (c < 126 -> 2 * x <= w c * unit + w (c + 1) * unit /\ (2 * x = w c * unit + w (c + 1) * unit -> Z.even c = true)) ->
  near x unit c.
Proof.
  intros Hu Hc Hlo Hhi. split; [done|]. intros c' Hc'. destruct (Z.lt_trichotomy c' c) as [Hlt|[->|Hlt]]; [|split; [lia|auto]|].
  - destruct (Hlo ltac:(lia)) as [Hl He]. pose proof (w_le c' (c - 1) ltac:(lia) ltac:(lia)). pose proof (w_step (c - 1) ltac:(lia)) as Hs.
    replace (c - 1 + 1) with c in Hs by lia. assert (w c' * unit <= w (c - 1) * unit) by nia. assert (w (c - 1) * unit < w c * unit) by nia.
    split; [lia|]. intros Heq. right. apply He. lia.
  - destruct (Hhi ltac:(lia)) as [Hl He]. pose proof (w_le (c + 1) c' ltac:(lia) ltac:(lia)). pose proof (w_step c ltac:(lia)).
    assert (w (c + 1) * unit <= w c' * unit) by nia. assert (w c * unit < w (c + 1) * unit) by nia.
    split; [lia|]. intros Heq. right. apply He. lia.
Qed.

(** ** Rounding a shift *)
Lemma rne_shift_spec sig s :
  0 <= sig < 2 ^ 31 -> 0 < s < 32 ->
  let q := rne_shift sig s in
  0 <= q /\ 2 * q * 2 ^ s - 2 ^ s <= 2 * sig <= 2 * q * 2 ^ s + 2 ^ s /\
  (2 * sig = 2 * q * 2 ^ s - 2 ^ s \/ 2 * sig = 2 * q * 2 ^ s + 2 ^ s -> Z.even q = true).
Proof.
  intros Hsig Hs. cbv zeta. unfold rne_shift. rewrite (proj2 (Z.eqb_neq _ _)), (proj2 (Z.leb_gt _ _)) by lia.
  rewrite Z.shiftr_div_pow2, !Z.shiftl_1_l by lia. replace (2 ^ s - 1) with (Z.ones s) by (rewrite Z.ones_equiv; lia). rewrite Z.land_ones by lia.
  assert (2 ^ s = 2 * 2 ^ (s - 1)) as Hp by (rewrite <-Z.pow_succ_r by lia; f_equal; lia). assert (0 < 2 ^ (s - 1)) as Hh by (apply Z.pow_pos_nonneg; lia).
  pose proof (Z.div_mod sig (2 ^ s) ltac:(lia)) as Hdm. pose proof (Z.mod_pos_bound sig (2 ^ s) ltac:(lia)) as Hr.
  assert (0 <= sig / 2 ^ s < 2 ^ 31) as Hq by (split; [apply Z.div_pos; lia|apply Z.div_lt_upper_bound; nia]).
  set (q0 := sig / 2 ^ s) in *. set (r := sig mod 2 ^ s) in *. set (H := 2 ^ (s - 1)) in *. rewrite Hp in *.
  change (Z.land q0 1) with (Z.land q0 (Z.ones 1)). rewrite (Z.land_ones q0 1) by lia. change (2 ^ 1) with 2. pose proof (Zmod_even q0) as Hev.
  assert (u32 (q0 + 1) = q0 + 1) as Hw by (apply wrap_id; unfold fits; lia). rewrite Hw.
  destruct (Z.ltb_spec H r); cbn [orb]; [split_and!; [lia|nia|nia|intros [?|?]; nia]|].
  destruct (Z.eqb_spec r H) as [->|Hne]; cbn [andb]; [|split_and!; [lia|nia|nia|intros [?|?]; nia]].
  destruct (Z.even q0) eqn:Heven; rewrite Hev; cbn [Z.eqb negb].
  - split_and!; [lia|nia|nia|]. intros _. done.
  - split_and!; [lia|nia|nia|]. intros _. rewrite Z.add_1_r, Z.even_succ, <-Z.negb_even. by rewrite Heven.
Qed.

(** ** Encoding *)
(** [p4_fp8_from_float] after its NaN check. *)
Definition fp8_enc (sign mag : Z) : Z :=
  if F32_SATURATE_BITS <=? mag then Z.lor sign P4_FP8_MAX
  else if mag <? F32_FLUSH_BITS then sign
  else
    let sig := Z.lor (Z.land mag 0x007fffff) (Z.shiftl 1 23) in
    let field := Z.shiftr mag 23 - F32_BIAS + FP8_BIAS in
    if field <? 1 then
      let q := rne_shift sig (FP8_NORMAL_SHIFT + 1 - field) in
      if 8 <=? q then Z.lor sign (Z.shiftl 1 3) else Z.lor sign (Z.land q 0x07)
    else
      let q := rne_shift sig FP8_NORMAL_SHIFT in
      let '(q, field) := if 16 <=? q then (8, field + 1) else (q, field) in
      if (FP8_EXP_MAX <? field) || ((field =? FP8_EXP_MAX) && (8 + FP8_TOP_MAN_MAX <? q)) then Z.lor sign P4_FP8_MAX
      else u8 (Z.lor (Z.lor sign (Z.shiftl field 3)) (Z.land (q - 8) 0x07)).
Definition sign_bit (s : bool) : Z := if s then 0x80 else 0.
Lemma lor_sign s c : 0 <= c < 128 -> Z.lor (sign_bit s) c = sign_bit s + c.
Proof. intros Hc. destruct s; [|done]. change (Z.lor (sign_bit true) c) with (Z.lor (Z.shiftl 1 7) c). rewrite Z.lor_comm, lor_shl_add by lia. unfold sign_bit. lia. Qed.
Lemma sig_mag mag : 0 <= mag -> Z.lor (Z.land mag 0x007fffff) (Z.shiftl 1 23) = 2 ^ 23 + mag mod 2 ^ 23.
Proof.
  intros Hm. change 0x007fffff with (Z.ones 23). rewrite Z.land_ones by lia. pose proof (Z.mod_pos_bound mag (2 ^ 23) ltac:(lia)).
  rewrite lor_shl_add by lia. lia.
Qed.
Lemma w_small c : 0 <= c <= 9 -> w c = c.
Proof. intros Hc. assert ((w c =? c) = true) as H%Z.eqb_eq; [|done]. revert c Hc. intros c Hc. apply (all_codes (fun c => w c =? c) 10); [by vm_compute|lia]. Qed.
(** The codes of a binade, and the first of the next. *)
Lemma w_binade f q : 1 <= f -> 8 <= q <= 16 -> w (8 * (f - 1) + q) = q * 2 ^ (f - 1).
Proof.
  intros Hf Hq. unfold w. rewrite (proj2 (Z.ltb_ge _ _)) by lia. destruct (decide (q = 16)) as [->|Hne].
  - replace (8 * (f - 1) + 16) with (0 + (f + 1) * 8) by lia. rewrite Z.mod_add, Z.div_add by lia. change (0 mod 8) with 0. change (0 / 8) with 0.
    replace (0 + (f + 1) - 1) with (Z.succ (f - 1)) by lia. rewrite Z.pow_succ_r by lia. lia.
  - replace (8 * (f - 1) + q) with ((q - 8) + f * 8) by lia. rewrite Z.mod_add, Z.div_add, Z.mod_small, Z.div_small by lia. replace (8 + (q - 8)) with q by lia. do 2 f_equal; lia.
Qed.
(** The middle of the range: field [f], significand [sig]. *)
Section mid.
Variables (E sig : Z).
Hypothesis (Hsig : 2 ^ 23 <= sig < 2 ^ 24).
Lemma near_subnormal : 117 <= E <= 120 ->
  let q := rne_shift sig (141 - E) in 0 <= q <= 8 /\ near (sig * 2 ^ (E - 1)) (2 ^ 140) q.
Proof.
  intros HE. destruct (rne_shift_spec sig (141 - E)) as (H0 & Hb & He); [lia..|]. set (q := rne_shift sig (141 - E)) in *. cbv zeta.
  assert (2 ^ 140 = 2 ^ (141 - E) * 2 ^ (E - 1)) as Hu by (rewrite <-Z.pow_add_r by lia; f_equal; lia).
  assert (0 < 2 ^ (E - 1)) as Hp by (apply Z.pow_pos_nonneg; lia). assert (2 ^ 21 <= 2 ^ (141 - E)) as Hs by (apply Z.pow_le_mono_r; lia).
  assert (q <= 8) as Hq by nia. split; [lia|]. rewrite Hu. set (S := 2 ^ (141 - E)) in *. set (P := 2 ^ (E - 1)) in *.
  apply near_local; [nia|lia|intros Hlt; rewrite !w_small by lia; split; [nia|intros; apply He; nia]|intros Hlt; rewrite !w_small by lia; split; [nia|intros; apply He; nia]].
Qed.
Lemma near_normal : 121 <= E <= 135 -> (E = 135 -> 2 * sig < 29 * 2 ^ 20) ->
  let q := rne_shift sig 20 in let c := 8 * (E - 121) + q in 8 <= q <= 16 /\ c <= 126 /\ near (sig * 2 ^ (E - 1)) (2 ^ 140) c.
Proof.
  intros HE Htop. destruct (rne_shift_spec sig 20) as (H0 & Hb & He); [lia..|]. set (q := rne_shift sig 20) in *. cbv zeta.
  assert (8 <= q <= 16) as Hq by lia. assert (8 * (E - 121) + q <= 126) as Hc by (destruct (decide (E = 135)); lia).
  assert (2 ^ (E - 121) * 2 ^ 140 = 2 ^ 20 * 2 ^ (E - 1)) as Hu by (rewrite <-!Z.pow_add_r by lia; f_equal; lia).
  assert (0 < 2 ^ (E - 1)) as Hp by (apply Z.pow_pos_nonneg; lia). split_and!; [lia..|].
  assert (Z.even (8 * (E - 121) + q) = Z.even q) as Hev by (rewrite Z.even_add; replace (8 * (E - 121)) with (2 * (4 * (E - 121))) by lia; rewrite Z.even_mul; by destruct (Z.even q)).
  assert (forall q', 8 <= q' <= 16 -> w (8 * (E - 121) + q') * 2 ^ 140 = q' * 2 ^ 20 * 2 ^ (E - 1)) as Hw.
  { intros q' Hq'. replace (E - 121) with (E - 120 - 1) by lia. rewrite w_binade by lia. replace (E - 120 - 1) with (E - 121) by lia. nia. }
  set (P := 2 ^ (E - 1)) in *. apply near_local; [done|lia|intros Hlt|intros Hlt]; rewrite Hev, (Hw q) by lia.
  - destruct (decide (q = 8)) as [Hq8|Hq8].
    + pose proof (w_step (8 * (E - 121) + q - 1) ltac:(lia)) as Hst. replace (8 * (E - 121) + q - 1 + 1) with (8 * (E - 121) + q) in Hst by lia.
      assert (w (8 * (E - 121) + q - 1) * 2 ^ 140 < q * 2 ^ 20 * P) by (rewrite <-Hw by lia; nia). split; [nia|intros; nia].
    + replace (8 * (E - 121) + q - 1) with (8 * (E - 121) + (q - 1)) by lia. rewrite Hw by lia. split; [nia|intros; apply He; nia].
  - destruct (decide (q = 16)) as [Hq16|Hq16].
    + pose proof (w_step (8 * (E - 121) + q) ltac:(lia)) as Hst.
      assert (q * 2 ^ 20 * P < w (8 * (E - 121) + q + 1) * 2 ^ 140) by (rewrite <-Hw by lia; nia). split; [nia|intros; nia].
    + replace (8 * (E - 121) + q + 1) with (8 * (E - 121) + (q + 1)) by lia. rewrite Hw by lia. split; [nia|intros; apply He; nia].
Qed.
End mid.
Lemma fmag_normal mag : 2 ^ 23 <= mag -> fmag mag = (2 ^ 23 + mag mod 2 ^ 23) * 2 ^ (mag / 2 ^ 23 - 1).
Proof. intros Hm. unfold fmag. by rewrite (proj2 (Z.ltb_ge _ _)) by lia. Qed.
Lemma near_top mag : F32_SATURATE_BITS <= mag -> near (fmag mag) (2 ^ 140) 126.
Proof.
  unfold F32_SATURATE_BITS. intros Hm. rewrite fmag_normal by lia. pose proof (Z.div_mod mag (2 ^ 23) ltac:(lia)) as Hdm.
  pose proof (Z.mod_pos_bound mag (2 ^ 23) ltac:(lia)) as Hr. set (E := mag / 2 ^ 23) in *. set (r := mag mod 2 ^ 23) in *.
  apply near_local; [done|lia|intros _; split; [|done]|lia].
  assert (2 * (0xe80000 * 2 ^ 134) <= 2 * ((2 ^ 23 + r) * 2 ^ (E - 1))); [|change (w (126 - 1)) with 212992; change (w 126) with 229376; lia].
  destruct (decide (E = 135)) as [->|HE]; [change (135 - 1) with 134; lia|].
  assert (2 ^ 135 <= 2 ^ (E - 1)) by (apply Z.pow_le_mono_r; lia). nia.
Qed.
Lemma near_zero mag : 0 <= mag < F32_FLUSH_BITS -> near (fmag mag) (2 ^ 140) 0.
Proof.
  unfold F32_FLUSH_BITS. intros Hm. assert (0 <= fmag mag < 2 ^ 139).
  { unfold fmag. destruct (Z.ltb_spec mag (2 ^ 23)); [lia|]. pose proof (Z.div_mod mag (2 ^ 23) ltac:(lia)). pose proof (Z.mod_pos_bound mag (2 ^ 23) ltac:(lia)).
    set (E := mag / 2 ^ 23) in *. set (r := mag mod 2 ^ 23) in *. assert (1 <= 2 ^ (E - 1) <= 2 ^ 115) by (split; [change 1 with (2 ^ 0)|]; apply Z.pow_le_mono_r; lia). nia. }
  apply near_local; [done|lia|lia|intros _]. change (w 0) with 0. change (w (0 + 1)) with 1. split; lia.
Qed.
Lemma enc_near s mag : 0 <= mag <= F32_INF_BITS -> exists c, fp8_enc (sign_bit s) mag = sign_bit s + c /\ near (fmag mag) (2 ^ 140) c.
Proof.
  intros Hm. unfold fp8_enc. destruct (Z.leb_spec F32_SATURATE_BITS mag) as [Hsat|Hsat].
  { exists 126. split; [by apply lor_sign|by apply near_top]. }
  destruct (Z.ltb_spec mag F32_FLUSH_BITS) as [Hfl|Hfl]; [exists 0; split; [lia|apply near_zero; lia]|].
  rewrite sig_mag, Z.shiftr_div_pow2 by lia. unfold F32_SATURATE_BITS, F32_FLUSH_BITS, F32_BIAS, FP8_BIAS, FP8_NORMAL_SHIFT in *.
  rewrite fmag_normal by lia. pose proof (Z.div_mod mag (2 ^ 23) ltac:(lia)) as Hdm. pose proof (Z.mod_pos_bound mag (2 ^ 23) ltac:(lia)) as Hr. cbv zeta.
  set (E := mag / 2 ^ 23) in *. set (sig := 2 ^ 23 + mag mod 2 ^ 23) in *. assert (2 ^ 23 <= sig < 2 ^ 24) as Hsig by lia.
  destruct (Z.ltb_spec (E - 127 + 7) 1) as [Hf|Hf].
  - replace (20 + 1 - (E - 127 + 7)) with (141 - E) by lia. destruct (near_subnormal E sig Hsig) as [Hq Hn]; [lia|]. set (q := rne_shift sig (141 - E)) in *.
    exists q. split; [|done]. destruct (Z.leb_spec 8 q); [replace q with 8 by lia; by apply lor_sign|].
    change 0x07 with (Z.ones 3). rewrite Z.land_ones, Z.mod_small by lia. apply lor_sign. lia.
  - destruct (near_normal E sig Hsig) as (Hq & Hc & Hn); [lia|intros ->; lia|]. set (q := rne_shift sig 20) in *. exists (8 * (E - 121) + q). split; [|done].
    assert (forall f r, 0 <= f <= 15 -> 0 <= r < 8 -> u8 (Z.lor (Z.lor (sign_bit s) (Z.shiftl f 3)) (Z.land r 0x07)) = sign_bit s + (8 * f + r)) as Hout.
    { intros f r Hf' Hr'. change 0x07 with (Z.ones 3). rewrite Z.land_ones, Z.mod_small by lia. rewrite <-Z.lor_assoc, (Z.lor_comm _ r), lor_shl_add by lia.
      rewrite lor_sign by lia. etrans; [apply wrap_id|lia]. unfold fits, sign_bit. destruct s; lia. }
    unfold FP8_EXP_MAX, FP8_TOP_MAN_MAX. destruct (Z.leb_spec 16 q).
    + rewrite (proj2 (Z.ltb_ge 15 _)) by lia. cbn [orb]. rewrite (proj2 (Z.ltb_ge (8 + 6) 8)), andb_false_r by lia.
      rewrite Hout by lia. lia.
    + rewrite (proj2 (Z.ltb_ge 15 _)) by lia. cbn [orb]. replace ((E - 127 + 7 =? 15) && (8 + 6 <? q)) with false.
      * rewrite Hout by lia. lia.
      * symmetry. apply andb_false_iff. destruct (Z.eqb_spec (E - 127 + 7) 15); [right; apply Z.ltb_ge; lia|by left].
Qed.
Lemma land_pow2 b n : 0 <= n -> Z.land b (2 ^ n) = if Z.testbit b n then 2 ^ n else 0.
Proof.
  intros Hn. apply Z.bits_inj'. intros k Hk. rewrite Z.land_spec, Z.pow2_bits_eqb by done. destruct (Z.eqb_spec n k) as [->|Hne].
  - destruct (Z.testbit b k) eqn:Hb; [by rewrite Z.pow2_bits_eqb, Z.eqb_refl|by rewrite Z.bits_0].
  - rewrite andb_false_r. destruct (Z.testbit b n); [by rewrite Z.pow2_bits_eqb, (proj2 (Z.eqb_neq _ _) Hne)|by rewrite Z.bits_0].
Qed.
Lemma from_float_enc b : p4_fp8_from_float b = if f32_nan b then P4_FP8_NAN else fp8_enc (sign_bit (f32_neg b)) (f32_mag b).
Proof.
  unfold p4_fp8_from_float, f32_nan, f32_mag, f32_neg. change 0x7fffffff with (Z.ones 31). rewrite Z.land_ones by lia.
  change 0x80000000 with (2 ^ 31). rewrite land_pow2 by lia. by destruct (Z.testbit b 31).
Qed.
Lemma code_parts (s : bool) c : 0 <= c <= 126 -> finite (sign_bit s + c) /\ fp8_num (sign_bit s + c) = (if s then - w c else w c) /\ Z.even (sign_bit s + c) = Z.even c.
Proof.
  intros Hc. assert ((sign_bit s + c) mod 128 = c /\ Z.testbit (sign_bit s + c) 7 = s) as [Hm Ht].
  { rewrite Z.testbit_odd, Z.shiftr_div_pow2 by lia. change (2 ^ 7) with 128. destruct s; unfold sign_bit; [rewrite <-(Z.mul_1_l 0x80), Z.add_comm|rewrite Z.add_0_l].
    - rewrite Z.mod_add, Z.div_add, Z.mod_small, Z.div_small by lia. done.
    - rewrite Z.mod_small, Z.div_small by lia. done. }
  split_and!.
  - unfold finite. rewrite Hm. unfold P4_FP8_NAN, sign_bit. destruct s; lia.
  - unfold fp8_num. by rewrite Ht, Hm.
  - rewrite Z.even_add. by destruct s; destruct (Z.even c).
Qed.
Lemma finite_parts v : finite v -> exists s c, v = sign_bit s + c /\ 0 <= c <= 126.
Proof.
  intros [Hv Hn]. unfold P4_FP8_NAN in Hn. exists (128 <=? v), (v mod 128). pose proof (Z.div_mod v 128 ltac:(lia)). pose proof (Z.mod_pos_bound v 128 ltac:(lia)).
  destruct (Z.leb_spec 128 v); unfold sign_bit; [assert (v / 128 = 1) by lia|assert (v / 128 = 0) by lia]; lia.
Qed.
(** The sign is that of the number. *)
Lemma near_nearest (s : bool) x unit c : 0 < unit -> 0 <= x -> near x unit c -> nearest (if s then - x else x) unit (sign_bit s + c).
Proof.
  intros Hu Hx [Hc Hn]. destruct (code_parts s c Hc) as (Hf & Hnum & Hev). split; [done|]. intros v Hv. destruct (finite_parts v Hv) as (t & c' & -> & Hc').
  destruct (code_parts t c' Hc') as (_ & Hnum' & _). rewrite Hnum, Hnum', Hev. destruct (Hn c' Hc') as [Hle He]. destruct (Hn 0 ltac:(lia)) as [Hle0 He0].
  change (w 0) with 0 in *. pose proof (w_nonneg c' Hc') as Hw. assert (w c' = 0 -> c' = 0) as Hz.
  { intros H0. destruct (decide (c' = 0)); [done|]. pose proof (w_step 0 ltac:(lia)) as Hs. pose proof (w_le (0 + 1) c' ltac:(lia) ltac:(lia)). change (w 0) with 0 in Hs. lia. }
  destruct (Bool.bool_dec s t) as [->|Hst].
  - assert (forall a, Z.abs ((if t then - x else x) - (if t then - a else a) * unit) = Z.abs (x - a * unit)) as Habs by (intros a; destruct t; lia).
    rewrite !Habs. split; [done|]. intros [->|Heven]%He; auto.
  - assert (Z.abs ((if s then - x else x) - (if s then - w c else w c) * unit) = Z.abs (x - w c * unit)) as -> by (destruct s; lia).
    assert (Z.abs ((if s then - x else x) - (if t then - w c' else w c') * unit) = x + w c' * unit) as -> by (destruct s, t; try done; nia).
    assert (0 <= w c' * unit) by nia. split; [lia|]. intros Heq. assert (w c' * unit = 0) as Hw0 by lia. assert (w c' = 0) as Hw' by nia.
    destruct He0 as [<-|?]; [lia|left|by right]. rewrite Hw'. change (w 0) with 0. by destruct s, t.
Qed.
Lemma fmag_nonneg mag : 0 <= mag -> 0 <= fmag mag.
Proof.
  intros Hm. unfold fmag. case_match; [done|]. pose proof (Z.mod_pos_bound mag (2 ^ 23) ltac:(lia)). apply Z.mul_nonneg_nonneg; [lia|]. apply Z.pow_nonneg. lia.
Qed.
Lemma from_float_nearest b : f32_nan b = false -> nearest (f32_num b) (2 ^ 140) (p4_fp8_from_float b).
Proof.
  intros Hn. rewrite from_float_enc, Hn. apply Z.ltb_ge in Hn. assert (0 <= f32_mag b) as H0 by (apply Z.mod_pos_bound; lia).
  destruct (enc_near (f32_neg b) (f32_mag b)) as (c & -> & Hc); [lia|]. unfold f32_num. apply near_nearest; [done|by apply fmag_nonneg|done].
Qed.

(** ** Decoding, and the float operations on what it gives *)
Lemma fp8_is_nan_finite v : 0 <= v < 256 -> p4_fp8_is_nan v = false <-> finite v.
Proof.
  intros Hv. unfold p4_fp8_is_nan, finite. change 0x7f with (Z.ones 7) at 1. rewrite Z.land_ones by lia. change (2 ^ 7) with 128.
  rewrite Z.eqb_neq. tauto.
Qed.
Definition decodes (v : Z) : bool :=
  let f := p4_fp8_to_float v in
  p4_fp8_is_nan v ||
  negb (f32_nan f) && negb (f32_inf f) && bool_decide (f32_neg f = Z.testbit v 7) && (fmag (f32_mag f) =? w (v mod 128) * 2 ^ 140) && (p4_fp8_from_float f =? v).
Lemma decode_exact v : finite v ->
  let f := p4_fp8_to_float v in
  f32_nan f = false /\ f32_inf f = false /\ f32_neg f = Z.testbit v 7 /\ fmag (f32_mag f) = w (v mod 128) * 2 ^ 140 /\ p4_fp8_from_float f = v.
Proof.
  intros Hv. cbv zeta. assert (decodes v = true) as H by (apply (all_codes decodes 256); [by vm_compute|apply Hv]).
  unfold decodes in H. rewrite (proj2 (fp8_is_nan_finite v (proj1 Hv)) Hv) in H. cbn [orb] in H.
  apply andb_true_iff in H as [[[[H1%negb_true_iff H2%negb_true_iff]%andb_true_iff H3%bool_decide_eq_true]%andb_true_iff H4%Z.eqb_eq]%andb_true_iff H5%Z.eqb_eq]. done.
Qed.
Lemma decode_num v : finite v -> f32_num (p4_fp8_to_float v) = fp8_num v * 2 ^ 140.
Proof. intros Hv. destruct (decode_exact v Hv) as (_ & _ & Hs & Hm & _). unfold f32_num, fp8_num. rewrite Hs, Hm. destruct (Z.testbit v 7); lia. Qed.
Lemma w_split c : 0 <= c <= 126 -> exists n i, w c = n * 2 ^ i /\ 0 <= n < 16 /\ 0 <= i <= 14.
Proof.
  intros Hc. unfold w. destruct (Z.ltb_spec c 8); [exists c, 0; lia|]. exists (8 + c mod 8), (c / 8 - 1). pose proof (Z.mod_pos_bound c 8 ltac:(lia)).
  pose proof (Z.div_mod c 8 ltac:(lia)). lia.
Qed.
(** A number of at most 24 bits in the exponent range is rounded to itself. *)
Lemma round_exact s n j e :
  0 < n < 2 ^ 24 -> 0 <= j -> -149 <= Z.log2 n + j + e - 23 <= 104 ->
  let b := f32_round s (n * 2 ^ j) e in f32_nan b = false /\ f32_num b = (if s then -1 else 1) * (n * 2 ^ (j + e + 149)).
Proof.
  intros Hn Hj Hl. cbv zeta. pose proof (Z.log2_spec n ltac:(lia)) as Hlog. assert (Z.log2 n < 24) as Hl24 by (apply Z.log2_lt_pow2; lia).
  pose proof (Z.log2_nonneg n) as Hl0. assert (0 < 2 ^ j) as Hpj by (apply Z.pow_pos_nonneg; lia).
  unfold f32_round. rewrite (proj2 (Z.eqb_neq _ _)) by nia. rewrite Z.log2_mul_pow2 by lia. set (L := Z.log2 n) in *.
  replace (Z.max (-149) (j + L + e - 23)) with (L + j + e - 23) by lia. set (k := L + j + e - 23).
  assert ((if k <=? e then n * 2 ^ j * 2 ^ (e - k) else rne_div (n * 2 ^ j) (k - e)) = n * 2 ^ (23 - L)) as ->.
  { destruct (Z.leb_spec k e); [rewrite <-Z.mul_assoc, <-Z.pow_add_r by lia; do 2 f_equal; lia|]. unfold rne_div.
    replace j with ((23 - L) + (k - e)) by lia. rewrite Z.pow_add_r, Z.mul_assoc by lia. assert (0 < 2 ^ (k - e)) by (apply Z.pow_pos_nonneg; lia).
    rewrite Z.mod_mul, Z.div_mul by lia. rewrite (proj2 (Z.ltb_ge _ _)), (proj2 (Z.eqb_neq _ _)) by lia. done. }
  assert (2 ^ 23 <= n * 2 ^ (23 - L) < 2 ^ 24) as Hq.
  { assert (2 ^ 23 = 2 ^ L * 2 ^ (23 - L)) as H1 by (rewrite <-Z.pow_add_r by lia; f_equal; lia).
    assert (2 ^ 24 = 2 ^ Z.succ L * 2 ^ (23 - L)) as H2 by (rewrite <-Z.pow_add_r by lia; f_equal; lia).
    assert (0 < 2 ^ (23 - L)) by (apply Z.pow_pos_nonneg; lia). rewrite H1, H2. nia. }
  set (q := n * 2 ^ (23 - L)) in *. set (mag := (k + 149) * 2 ^ 23 + q). assert (0 <= mag < F32_INF_BITS) as Hmag by (unfold F32_INF_BITS; lia).
  rewrite Z.min_r by lia. assert (f32_mag (signed s mag) = mag /\ f32_neg (signed s mag) = s) as [Hm Hs].
  { unfold f32_mag, f32_neg, signed. rewrite Z.testbit_odd, Z.shiftr_div_pow2 by lia. unfold F32_INF_BITS in *.
    destruct s; [rewrite <-(Z.mul_1_l (2 ^ 31)) at 1 3; rewrite Z.mod_add, Z.div_add by lia|]; rewrite Z.mod_small, Z.div_small by lia; done. }
  split; [unfold f32_nan; rewrite Hm; apply Z.ltb_ge; lia|]. unfold f32_num. rewrite Hm, Hs.
  assert (fmag mag = n * 2 ^ (j + e + 149)) as ->; [|destruct s; lia].
  rewrite fmag_normal by lia. replace mag with ((q - 2 ^ 23) + (k + 150) * 2 ^ 23) by lia. rewrite Z.mod_add, Z.div_add, Z.mod_small, Z.div_small by lia.
  subst q. replace (2 ^ 23 + (n * 2 ^ (23 - L) - 2 ^ 23)) with (n * 2 ^ (23 - L)) by lia. rewrite <-Z.mul_assoc, <-Z.pow_add_r by lia. do 2 f_equal. lia.
Qed.
Lemma fp8_num_abs v : Z.abs (fp8_num v) = Z.abs (w (v mod 128)).
Proof. unfold fp8_num. destruct (Z.testbit v 7); lia. Qed.
Lemma num_bound v : finite v -> Z.abs (fp8_num v) <= 229376.
Proof.
  intros Hv. destruct (finite_parts v Hv) as (s & c & -> & Hc). destruct (code_parts s c Hc) as (_ & -> & _).
  pose proof (w_nonneg c Hc) as Hw0. pose proof (w_le c 126 ltac:(lia) ltac:(lia)) as H. change (w 126) with 229376 in H. destruct s; lia.
Qed.
Lemma finite_mod v : finite v -> 0 <= v mod 128 <= 126.
Proof. intros [_ Hn]. unfold P4_FP8_NAN in Hn. pose proof (Z.mod_pos_bound v 128 ltac:(lia)). lia. Qed.
Lemma add_exact a b : finite a -> finite b ->
  let r := f32_add (p4_fp8_to_float a) (p4_fp8_to_float b) in f32_nan r = false /\ f32_num r = (fp8_num a + fp8_num b) * 2 ^ 140.
Proof.
  intros Ha Hb. cbv zeta. destruct (decode_exact a Ha) as (Hna & Hia & _), (decode_exact b Hb) as (Hnb & Hib & _).
  unfold f32_add. rewrite Hna, Hnb, Hia, Hib. cbn [orb andb]. rewrite (decode_num a Ha), (decode_num b Hb), <-Z.mul_add_distr_r.
  pose proof (num_bound a Ha). pose proof (num_bound b Hb). set (n := fp8_num a + fp8_num b). assert (Z.abs n < 2 ^ 19) as Hn by lia.
  destruct (decide (n = 0)) as [->|Hne].
  { change (0 * 2 ^ 140 =? 0) with true. cbn [Z.mul Z.abs]. unfold f32_round. cbn [Z.eqb].
    by destruct (f32_neg (p4_fp8_to_float a) && f32_neg (p4_fp8_to_float b)). }
  rewrite (proj2 (Z.eqb_neq _ _)) by lia. rewrite Z.abs_mul. change (Z.abs (2 ^ 140)) with (2 ^ 140).
  assert (0 <= Z.log2 (Z.abs n) < 19) by (split; [apply Z.log2_nonneg|apply Z.log2_lt_pow2; lia]).
  destruct (round_exact (n * 2 ^ 140 <? 0) (Z.abs n) 140 (-149)) as [Hnan Hnum]; [lia..|]. split; [done|]. rewrite Hnum.
  change (140 + -149 + 149) with 140. destruct (Z.ltb_spec (n * 2 ^ 140) 0); lia.
Qed.
Lemma mul_exact a b : finite a -> finite b ->
  let r := f32_mul (p4_fp8_to_float a) (p4_fp8_to_float b) in f32_nan r = false /\ f32_num r = fp8_num a * fp8_num b * 2 ^ 131.
Proof.
  intros Ha Hb. cbv zeta. destruct (decode_exact a Ha) as (Hna & Hia & Hsa & Hma & _), (decode_exact b Hb) as (Hnb & Hib & Hsb & Hmb & _).
  unfold f32_mul. rewrite Hna, Hnb, Hia, Hib. cbn [orb andb]. rewrite Hsa, Hsb, Hma, Hmb.
  destruct (w_split _ (finite_mod a Ha)) as (n & i & Hwa & Hn & Hi), (w_split _ (finite_mod b Hb)) as (m & j & Hwb & Hm & Hj).
  assert (fp8_num a * fp8_num b = (if xorb (Z.testbit a 7) (Z.testbit b 7) then -1 else 1) * (w (a mod 128) * w (b mod 128))) as ->
    by (unfold fp8_num; destruct (Z.testbit a 7), (Z.testbit b 7); cbn [xorb]; lia).
  set (s := xorb (Z.testbit a 7) (Z.testbit b 7)). rewrite Hwa, Hwb.
  destruct (decide (n * m = 0)) as [H0|Hne].
  { assert (n * 2 ^ i * (m * 2 ^ j) = 0) as H1 by nia. assert (n * 2 ^ i * 2 ^ 140 * (m * 2 ^ j * 2 ^ 140) = 0) as -> by nia. rewrite H1. unfold f32_round. cbn [Z.eqb].
    by destruct s. }
  replace (n * 2 ^ i * 2 ^ 140 * (m * 2 ^ j * 2 ^ 140)) with (n * m * 2 ^ (280 + i + j)).
  2: { replace (280 + i + j) with (i + j + 140 + 140) by lia. rewrite !Z.pow_add_r by lia. lia. }
  assert (0 <= Z.log2 (n * m) < 8) by (split; [apply Z.log2_nonneg|apply Z.log2_lt_pow2; nia]).
  destruct (round_exact s (n * m) (280 + i + j) (-298)) as [Hnan Hnum]; [nia|lia|lia|]. split; [done|]. rewrite Hnum.
  replace (280 + i + j + -298 + 149) with (i + j + 131) by lia. rewrite !Z.pow_add_r by lia. lia.
Qed.
Lemma nearest_scale x unit k v : 0 < k -> nearest (x * k) (unit * k) v -> nearest x unit v.
Proof.
  intros Hk [Hf Hn]. split; [done|]. intros c Hc. destruct (Hn c Hc) as [Hle He].
  assert (forall a, Z.abs (x * k - a * (unit * k)) = Z.abs (x - a * unit) * k) as Hs by (intros a; rewrite <-(Z.abs_eq k) at 3 by lia; rewrite <-Z.abs_mul; f_equal; lia).
  rewrite !Hs in *. split; [nia|]. intros Heq. apply He. by rewrite Heq.
Qed.

(** ** The map *)
(** What the element of [a] and [b] is to be; products are in units of 2^-18. *)
Definition element_ok (op a b v : Z) : Prop :=
  if decide (finite a /\ finite b) then
    if decide (op = P4_FP8_OP_ADD) then nearest (fp8_num a + fp8_num b) 1 v
    else if decide (op = P4_FP8_OP_MUL) then nearest (fp8_num a * fp8_num b) (2 ^ 9) v
    else (v = a \/ v = b) /\ fp8_num v = Z.max (fp8_num a) (fp8_num b)
  else v = P4_FP8_NAN.
Definition fp8_op (op : Z) : Prop := op = P4_FP8_OP_ADD \/ op = P4_FP8_OP_MUL \/ op = P4_FP8_OP_MAX.
Lemma element_spec op a b : fp8_op op -> byte_ok a -> byte_ok b -> element_ok op a b (fp8_element op a b).
Proof.
  intros Hop Ha Hb. unfold byte_ok, fits in *. change (2 ^ 8) with 256 in *. unfold element_ok, fp8_element. pose proof (fp8_is_nan_finite a ltac:(lia)) as Hfa. pose proof (fp8_is_nan_finite b ltac:(lia)) as Hfb.
  case_decide as Hf.
  2: { destruct (p4_fp8_is_nan a), (p4_fp8_is_nan b); cbn [orb]; try done. tauto. }
  destruct Hf as [Fa Fb]. rewrite (proj2 Hfa Fa), (proj2 Hfb Fb). cbn [orb]. unfold fp8_combine.
  destruct Hop as [->|[->| ->]].
  - rewrite decide_True by done. cbn [Z.eqb]. destruct (add_exact a b Fa Fb) as [Hn Hx]. pose proof (from_float_nearest _ Hn) as H. rewrite Hx in H.
    rewrite <-(Z.mul_1_l (2 ^ 140)) in H at 2. by apply nearest_scale in H.
  - rewrite decide_False, decide_True by done. destruct (mul_exact a b Fa Fb) as [Hn Hx]. pose proof (from_float_nearest _ Hn) as H. rewrite Hx in H.
    change (2 ^ 140) with (2 ^ 9 * 2 ^ 131) in H. by apply nearest_scale in H.
  - rewrite !decide_False by done. destruct (decode_exact a Fa) as (Hna & _ & _ & _ & Hra), (decode_exact b Fb) as (Hnb & _ & _ & _ & Hrb).
    change (P4_FP8_OP_MAX =? P4_FP8_OP_ADD) with false. change (P4_FP8_OP_MAX =? P4_FP8_OP_MUL) with false. change (P4_FP8_OP_MAX =? P4_FP8_OP_MAX) with true. cbv iota.
    unfold f32_gt. rewrite Hna, Hnb, (decode_num a Fa), (decode_num b Fb). cbn [orb negb andb].
    destruct (Z.ltb_spec (fp8_num b * 2 ^ 140) (fp8_num a * 2 ^ 140)); [rewrite Hra|rewrite Hrb]; split; auto; lia.
Qed.

(** Every float that is not a NaN, infinities included, is encoded as the FP8
    number nearest to it, the even one of two; so a magnitude beyond 448
    saturates.  Every NaN is encoded as a NaN, and the encodings of the numbers
    decode to themselves exactly. *)
Theorem fp8_conversions :
  (forall b, nearest (f32_num b) (2 ^ 140) (p4_fp8_from_float b) \/ f32_nan b = true /\ p4_fp8_from_float b = P4_FP8_NAN) /\
  (forall v, finite v -> f32_num (p4_fp8_to_float v) = fp8_num v * 2 ^ 140 /\ p4_fp8_from_float (p4_fp8_to_float v) = v).
Proof.
  split.
  - intros b. destruct (f32_nan b) eqn:Hn; [right|left; by apply from_float_nearest]. split; [done|]. by rewrite from_float_enc, Hn.
  - intros v Hv. split; [by apply decode_num|by apply decode_exact].
Qed.

(** The elementwise map: an operation it does not have writes nothing; the
    others give, for every pair of elements, the FP8 number nearest to the
    exact sum or product, rounded once, or the larger of the two; a NaN in
    either spoils its own element and no other. *)
Theorem fp8_map_rounds op a b :
  length a = length b -> bytes_ok a -> bytes_ok b ->
  match p4_fp8_map op a b with
  | None => ~ fp8_op op
  | Some out => fp8_op op /\ length out = length a /\
      forall i x y v, a !! i = Some x -> b !! i = Some y -> out !! i = Some v -> element_ok op x y v
  end.
Proof.
  intros Hl Ha Hb. unfold p4_fp8_map. destruct (fp8_combine op 0 0) eqn:Hc.
  - assert (fp8_op op) as Hop by (unfold fp8_combine, fp8_op in *; destruct (Z.eqb_spec op P4_FP8_OP_ADD), (Z.eqb_spec op P4_FP8_OP_MUL), (Z.eqb_spec op P4_FP8_OP_MAX); auto; done).
    split_and!; [done|rewrite length_zip_with; lia|]. intros i x y v Hx Hy Hv. rewrite lookup_zip_with, Hx, Hy in Hv. injection Hv as <-.
    apply element_spec; [done|exact (Forall_lookup_1 _ _ _ _ Ha Hx)|exact (Forall_lookup_1 _ _ _ _ Hb Hy)].
  - unfold fp8_combine in Hc. intros [->|[->| ->]]; done.
Qed.
Lemma fp8_map_rounds_witness :
  let a := [0x38; 0x7e; 0x01; 0x7f] in
  let b := [0x38; 0x7e; 0x01; 0x00] in
  match p4_fp8_map P4_FP8_OP_ADD a b with
  | None => False
  | Some out => out = [0x40; 0x7e; 0x02; 0x7f] /\ forall i x y v, a !! i = Some x -> b !! i = Some y -> out !! i = Some v -> element_ok P4_FP8_OP_ADD x y v
  end.
Proof.
  cbv zeta. pose proof (fp8_map_rounds P4_FP8_OP_ADD [0x38; 0x7e; 0x01; 0x7f] [0x38; 0x7e; 0x01; 0x00] eq_refl) as H.
  destruct (p4_fp8_map P4_FP8_OP_ADD [0x38; 0x7e; 0x01; 0x7f] [0x38; 0x7e; 0x01; 0x00]) as [out|] eqn:He; vm_compute in He; [|done].
  injection He as <-. split; [done|]. apply H; apply (bool_decide_unpack _); by vm_compute.
Defined.
