(* ===== verification/P4Fmt.v ===== *)
(** * Conversions between floating-point formats (p4_fmt.c)

    Six formats, one descriptor, one encoder and one decoder.  A float is its
    32 bits, as in [P4Fp8]; the one float sum and the one halving are those of
    IEEE 754 binary32.  An array is its bytes. *)
From S2P Require Export P4Fp8.
From S2P Require Export ByteOrder.
#[local] Open Scope Z_scope.

Definition P4_FMT_FP32 : Z := 0.
Definition P4_FMT_FP16 : Z := 1.
Definition P4_FMT_BF16 : Z := 2.
Definition P4_FMT_FP8_E4M3 : Z := 3.
Definition P4_FMT_FP8_E5M2 : Z := 4.
Definition P4_FMT_FP4_E2M1 : Z := 5.
Definition P4_FMT_COUNT : Z := 6.
Definition F32_SIGN_MASK : Z := 0x80000000.
Definition F32_ABS_MASK : Z := 0x7fffffff.
Definition F32_EXP_SHIFT : Z := 23.
Definition F32_MAN_MASK : Z := 0x007fffff.
Definition F32_MAN_BITS : Z := 23.
Definition F32_QNAN_BITS : Z := 0x7fc00000.

Record fmt_desc := FmtDesc { fm_exp_bits : Z; fm_man_bits : Z; fm_bias : Z; fm_has_inf : bool; fm_has_nan : bool; fm_name : list Z }.
#[export] Instance fmt_desc_zero : Inhabited fmt_desc := populate (FmtDesc 0 0 0 false false []).
Definition fmt_table : list fmt_desc :=
  [FmtDesc 8 23 127 true true [102; 112; 51; 50]; FmtDesc 5 10 15 true true [102; 112; 49; 54]; FmtDesc 8 7 127 true true [98; 102; 49; 54];
   FmtDesc 4 3 7 false true [102; 112; 56; 95; 101; 52; 109; 51]; FmtDesc 5 2 15 true true [102; 112; 56; 95; 101; 53; 109; 50];
   FmtDesc 2 1 1 false false [102; 112; 52; 95; 101; 50; 109; 49]].
Definition fmt_at (f : Z) : fmt_desc := fmt_table !!! Z.to_nat f.

Definition p4_fmt_valid (f : Z) : bool := u32 f <? P4_FMT_COUNT.
Definition p4_fmt_bits (f : Z) : Z := if negb (p4_fmt_valid f) then 0 else let d := fmt_at f in 1 + fm_exp_bits d + fm_man_bits d.
Definition p4_fmt_name (f : Z) : list Z := if p4_fmt_valid f then fm_name (fmt_at f) else [63].
Definition p4_fmt_bytes (f n : Z) : Z :=
  let bits := p4_fmt_bits f in
  if bits =? 0 then 0 else if negb (u64 (n * bits) mod 8 =? 0) then 0 else u64 (n * bits) / 8.
Definition p4_fmt_elems (f bytes : Z) : Z :=
  let bits := p4_fmt_bits f in
  if bits =? 0 then 0 else if negb (u64 (bytes * 8) mod bits =? 0) then 0 else u64 (bytes * 8) / bits.

(** The raw encoding of element [i]; the byte of two 4-bit elements is read
    and written whole. *)
Definition fmt_load (f : Z) (base : list Z) (i : nat) : Z :=
  let bits := p4_fmt_bits f in
  if bits =? 4 then (if Nat.odd i then Z.shiftr (bat base (i / 2) 0) 4 else Z.land (bat base (i / 2) 0) 0x0f)
  else if bits =? 8 then bat base i 0
  else if bits =? 16 then ernic_get_le16 base (2 * i)
  else ernic_get_le32 base (4 * i).
Definition fmt_store (f : Z) (base : list Z) (i : nat) (raw : Z) : list Z :=
  let bits := p4_fmt_bits f in
  if bits =? 4 then
    let b := bat base (i / 2) 0 in
    bput base (i / 2) [if Nat.odd i then u8 (Z.lor (Z.land b 0x0f) (Z.shiftl (Z.land raw 0x0f) 4))
                       else u8 (Z.lor (Z.land b (Z.shiftl 0x0f 4)) (Z.land raw 0x0f))]
  else if bits =? 8 then bput base i [u8 raw]
  else if bits =? 16 then ernic_put_le16 base (2 * i) (wrap 16 raw)
  else ernic_put_le32 base (4 * i) raw.

(** ** Decoding *)
(** [while ((sig >> p) > 1) p++], on a uint32_t. *)
Fixpoint msb_loop (fuel : nat) (sig p : Z) : Z :=
  match fuel with O => p | S fuel => if 1 <? Z.shiftr sig p then msb_loop fuel sig (p + 1) else p end.
Definition msb_of (sig : Z) : Z := msb_loop 32 sig 0.
(** The float [sign * sig * 2^e]. *)
Definition make_f32 (sign sig e : Z) : Z :=
  if sig =? 0 then sign
  else
    let p := msb_of sig in
    let '(sig, e) :=
      if p <? F32_MAN_BITS then (u32 (Z.shiftl sig (F32_MAN_BITS - p)), e - (F32_MAN_BITS - p))
      else if F32_MAN_BITS <? p then (Z.shiftr sig (p - F32_MAN_BITS), e + (p - F32_MAN_BITS)) else (sig, e) in
    let field := e + F32_MAN_BITS + F32_BIAS in
    if 1 <=? field then Z.lor (Z.lor sign (u32 (Z.shiftl field F32_EXP_SHIFT))) (Z.land sig F32_MAN_MASK)
    else
      let shift := 1 - field in
      if F32_MAN_BITS <? shift then sign else Z.lor sign (Z.shiftr sig shift).
Definition fmt_decode_raw (d : fmt_desc) (raw : Z) : Z :=
  let man_mask := Z.shiftl 1 (fm_man_bits d) - 1 in
  let exp_mask := Z.shiftl 1 (fm_exp_bits d) - 1 in
  let sign := if negb (Z.land (Z.shiftr raw (fm_exp_bits d + fm_man_bits d)) 1 =? 0) then F32_SIGN_MASK else 0 in
  let exp := Z.land (Z.shiftr raw (fm_man_bits d)) exp_mask in
  let man := Z.land raw man_mask in
  let finite :=
    if exp =? 0 then make_f32 sign man (1 - fm_bias d - fm_man_bits d)
    else make_f32 sign (Z.lor (Z.shiftl 1 (fm_man_bits d)) man) (exp - fm_bias d - fm_man_bits d) in
  if exp =? exp_mask then
    if fm_has_inf d then Z.lor (Z.lor sign F32_INF_BITS) (u32 (Z.shiftl man (F32_MAN_BITS - fm_man_bits d)))
    else if fm_has_nan d && (man =? man_mask) then Z.lor sign F32_QNAN_BITS
    else finite
  else finite.
Definition p4_fmt_decode (f : Z) (base : list Z) (i : nat) : Z :=
  if negb (p4_fmt_valid f) then 0
  else if f =? P4_FMT_FP32 then fmt_load f base i
  else fmt_decode_raw (fmt_at f) (fmt_load f base i).

(** ** Encoding *)
(** [v / 2], rounded. *)
Definition f32_half (b : Z) : Z :=
  if f32_nan b then F32_NAN_BITS else if f32_inf b then b else f32_round (f32_neg b) (fmag (f32_mag b)) (-150).
Record fmt_enc := FmtEnc { fe_d : fmt_desc; fe_max_raw : Z; fe_nan_raw : Z; fe_inf_raw : Z; fe_saturate_f32 : Z }.
Definition fmt_enc_init (d : fmt_desc) : fmt_enc :=
  let man_mask := Z.shiftl 1 (fm_man_bits d) - 1 in
  let exp_mask := Z.shiftl 1 (fm_exp_bits d) - 1 in
  let raw exp man := Z.lor (Z.shiftl exp (fm_man_bits d)) man in
  let '(max_exp, max_man, inf_raw, nan_raw) :=
    if fm_has_inf d then
      (exp_mask - 1, man_mask, Z.shiftl exp_mask (fm_man_bits d), Z.lor (Z.shiftl exp_mask (fm_man_bits d)) (Z.shiftl 1 (fm_man_bits d - 1)))
    else if fm_has_nan d then (exp_mask, man_mask - 1, raw exp_mask (man_mask - 1), raw exp_mask man_mask)
    else (exp_mask, man_mask, raw exp_mask man_mask, raw exp_mask man_mask) in
  let max_raw := raw max_exp max_man in
  let max_v := fmt_decode_raw d max_raw in
  let step := u32 (Z.shiftl (u32 (max_exp - fm_bias d - fm_man_bits d + F32_BIAS)) F32_EXP_SHIFT) in
  FmtEnc d max_raw nan_raw inf_raw (f32_add max_v (f32_half step)).
(** [v >> n], to nearest, ties to even. *)
Definition fmt_rne_shift (v n : Z) : Z :=
  if n =? 0 then v
  else if 32 <=? n then 0
  else
    let keep := Z.shiftr v n in
    let half := Z.land (Z.shiftr v (n - 1)) 1 in
    let rest := Z.land v (Z.shiftl 1 (n - 1) - 1) in
    if negb (half =? 0) && (negb (rest =? 0) || negb (Z.land keep 1 =? 0)) then u32 (keep + 1) else keep.
Definition fmt_encode_raw (e : fmt_enc) (bits : Z) : Z :=
  let d := fe_d e in
  let mag := Z.land bits F32_ABS_MASK in
  let sign_bit := if negb (Z.land bits F32_SIGN_MASK =? 0) then Z.shiftl 1 (fm_exp_bits d + fm_man_bits d) else 0 in
  let man_mask := Z.shiftl 1 (fm_man_bits d) - 1 in
  let emin := 1 - fm_bias d - fm_man_bits d in
  let over := Z.lor sign_bit (if fm_has_inf d then fe_inf_raw e else fe_max_raw e) in
  if F32_INF_BITS <? mag then (if fm_has_nan d then fe_nan_raw e else Z.lor sign_bit (fe_max_raw e))
  else if fe_saturate_f32 e <=? mag then over
  else if mag =? 0 then sign_bit
  else
    let '(sig, src_e) :=
      if Z.shiftr mag F32_EXP_SHIFT =? 0 then (mag, 1 - F32_BIAS - F32_MAN_BITS)
      else (Z.lor (Z.land mag F32_MAN_MASK) (Z.shiftl 1 F32_EXP_SHIFT), Z.shiftr mag F32_EXP_SHIFT - F32_BIAS - F32_MAN_BITS) in
    let msb := msb_of sig in
    let field := src_e + msb + fm_bias d in
    let shift := if 1 <=? field then msb - fm_man_bits d else emin - src_e in
    let q := if 0 <? shift then fmt_rne_shift sig shift else u32 (Z.shiftl sig (- shift)) in
    if field <? 1 then Z.lor sign_bit q
    else
      let '(q, field) := if Z.lor man_mask (man_mask + 1) <? q then (Z.shiftr q 1, field + 1) else (q, field) in
      let raw := Z.lor (u32 (Z.shiftl field (fm_man_bits d))) (Z.land q man_mask) in
      if fe_max_raw e <? raw then over else Z.lor sign_bit raw.
Definition p4_fmt_encode (f v : Z) (base : list Z) (i : nat) : list Z :=
  if negb (p4_fmt_valid f) then base
  else if f =? P4_FMT_FP32 then fmt_store f base i v
  else fmt_store f base i (fmt_encode_raw (fmt_enc_init (fmt_at f)) v).

(** ** Arrays; [None]: false, with nothing written *)
Definition convert_one (src dst : Z) (inp : list Z) (out : list Z) (i : nat) : list Z :=
  let v := p4_fmt_decode src inp i in
  fmt_store dst out i (if dst =? P4_FMT_FP32 then v else fmt_encode_raw (fmt_enc_init (fmt_at dst)) v).
Definition p4_fmt_convert (src dst : Z) (inp : list Z) (n : nat) (out : list Z) : option (list Z) :=
  if negb (p4_fmt_valid src) || negb (p4_fmt_valid dst) then None
  else if (p4_fmt_bytes src (Z.of_nat n) =? 0) && negb (Z.of_nat n =? 0) then None
  else if (p4_fmt_bytes dst (Z.of_nat n) =? 0) && negb (Z.of_nat n =? 0) then None
  else Some (foldl (convert_one src dst inp) out (seq 0 n)).
