(* ===== verification/P4FmtProps.v ===== *)
(** * Every format is rounded correctly

    A float is encoded as the nearest number of a format, or past its range
    as its infinity or its largest number; every number of a format is decoded
    exactly, so an array survives being widened; and the path for E4M3 is that
    of p4_fp8.c. *)
From S2P Require Export P4Fmt P4Fp8Props.
#[local] Open Scope Z_scope.

(** ** The numbers of a format with [M] bits of significand
    The magnitude of a code, in units of its smallest. *)
Definition wm (M c : Z) : Z := if c <? 2 ^ M then c else (2 ^ M + c mod 2 ^ M) * 2 ^ (c / 2 ^ M - 1).
Lemma fmag_wm mag : fmag mag = wm 23 mag.
Proof. done. Qed.

Section numbers.
Variable M : Z.
Hypothesis HM : 0 < M.
Lemma pow_M : 2 <= 2 ^ M /\ 2 ^ (M + 1) = 2 * 2 ^ M.
Proof. split; [change 2 with (2 ^ 1) at 1; apply Z.pow_le_mono_r; lia|]. by rewrite Z.pow_add_r, Z.mul_comm by lia. Qed.
Lemma wm_small c : 0 <= c <= 2 ^ M -> wm M c = c.
Proof.
  destruct pow_M as [H2 _]. intros Hc. unfold wm. destruct (Z.ltb_spec c (2 ^ M)); [done|]. replace c with (2 ^ M) by lia.
  rewrite Z.mod_same, Z.div_same by lia. cbn. lia.
Qed.
(** The codes of a binade, and the first of the next. *)
Lemma wm_binade f q : 1 <= f -> 2 ^ M <= q <= 2 ^ (M + 1) -> wm M (2 ^ M * (f - 1) + q) = q * 2 ^ (f - 1).
Proof.
  destruct pow_M as [H2 ->]. intros Hf Hq. set (P := 2 ^ M) in *. unfold wm. fold P. rewrite (proj2 (Z.ltb_ge _ _)) by nia. destruct (decide (q = 2 * P)) as [->|Hne].
  - replace (P * (f - 1) + 2 * P) with (0 + (f + 1) * P) by lia. rewrite Z.mod_add, Z.div_add, Z.mod_0_l, Z.div_0_l by lia.
    replace (0 + (f + 1) - 1) with (Z.succ (f - 1)) by lia. rewrite Z.pow_succ_r by lia. lia.
  - replace (P * (f - 1) + q) with ((q - P) + f * P) by lia. rewrite Z.mod_add, Z.div_add, Z.mod_small, Z.div_small by lia. replace (P + (q - P)) with q by lia. do 2 f_equal; lia.
Qed.
Lemma code_split c : 2 ^ M <= c -> exists f q, c = 2 ^ M * (f - 1) + q /\ 1 <= f /\ 2 ^ M <= q < 2 ^ (M + 1).
Proof.
  destruct pow_M as [H2 ->]. intros Hc. exists (c / 2 ^ M), (2 ^ M + c mod 2 ^ M). pose proof (Z.div_mod c (2 ^ M) ltac:(lia)). pose proof (Z.mod_pos_bound c (2 ^ M) ltac:(lia)).
  pose proof (Z.div_le_lower_bound c (2 ^ M) 1 ltac:(lia) ltac:(lia)). lia.
Qed.
Lemma wm_step c : 0 <= c -> wm M c < wm M (c + 1).
Proof.
  intros Hc. destruct (decide (c < 2 ^ M)); [rewrite !wm_small by lia; lia|]. destruct (code_split c ltac:(lia)) as (f & q & -> & Hf & Hq).
  rewrite <-Z.add_assoc, !wm_binade by lia. assert (0 < 2 ^ (f - 1)) by (apply Z.pow_pos_nonneg; lia). nia.
Qed.
Lemma wm_lt c c' : 0 <= c < c' -> wm M c < wm M c'.
Proof.
  intros [H0 Hc]. replace c' with (c + (1 + Z.of_nat (Z.to_nat (c' - c - 1)))) by lia. generalize (Z.to_nat (c' - c - 1)). intros n. induction n as [|n IH].
  - by apply wm_step.
  - etrans; [exact IH|]. pose proof (wm_step (c + (1 + Z.of_nat n)) ltac:(lia)) as Hs. by replace (c + (1 + Z.of_nat n) + 1) with (c + (1 + Z.of_nat (S n))) in Hs by lia.
Qed.
Lemma wm_le c c' : 0 <= c <= c' -> wm M c <= wm M c'.
Proof. intros Hc. destruct (decide (c = c')) as [->|]; [done|]. apply Z.lt_le_incl, wm_lt. lia. Qed.
Lemma wm_inj c c' : 0 <= c -> 0 <= c' -> wm M c = wm M c' -> c = c'.
Proof. intros H0 H1 He. destruct (Z.lt_trichotomy c c') as [Hlt|[?|Hlt]]; [|done|]; [pose proof (wm_lt c c' ltac:(lia))|pose proof (wm_lt c' c ltac:(lia))]; lia. Qed.
Lemma wm_nonneg c : 0 <= c -> 0 <= wm M c.
Proof. intros Hc. pose proof (wm_le 0 c ltac:(lia)) as H. destruct pow_M. rewrite (wm_small 0) in H by lia. done. Qed.

(** [c] is nearest to the magnitude [x], of all codes; the even one of two. *)
Definition mnear (x unit c : Z) : Prop :=
  0 <= c /\ forall c', 0 <= c' ->
    Z.abs (x - wm M c * unit) <= Z.abs (x - wm M c' * unit) /\ (Z.abs (x - wm M c * unit) = Z.abs (x - wm M c' * unit) -> c' = c \/ Z.even c = true).
(** Being nearer than the neighbours is enough. *)
Lemma mnear_local x unit c :
  0 < unit -> 0 <= c ->
  (0 < c -> wm M (c - 1) * unit + wm M c * unit <= 2 * x /\ (wm M (c - 1) * unit + wm M c * unit = 2 * x -> Z.even c = true)) ->
  (2 * x <= wm M c * unit + wm M (c + 1) * unit /\ (2 * x = wm M c * unit + wm M (c + 1) * unit -> Z.even c = true)) ->
  mnear x unit c.
Proof.
  intros Hu Hc Hlo [Hhi Hhe]. split; [done|]. intros c' Hc'. destruct (Z.lt_trichotomy c' c) as [Hlt|[->|Hlt]]; [|split; [lia|auto]|].
  - destruct (Hlo ltac:(lia)) as [Hl He]. pose proof (wm_le c' (c - 1) ltac:(lia)). pose proof (wm_step (c - 1) ltac:(lia)) as Hs.
    replace (c - 1 + 1) with c in Hs by lia. assert (wm M c' * unit <= wm M (c - 1) * unit) by nia. assert (wm M (c - 1) * unit < wm M c * unit) by nia.
    split; [lia|]. intros Heq. right. apply He. lia.
  - pose proof (wm_le (c + 1) c' ltac:(lia)). pose proof (wm_step c ltac:(lia)).
    assert (wm M (c + 1) * unit <= wm M c' * unit) by nia. assert (wm M c * unit < wm M (c + 1) * unit) by nia.
    split; [lia|]. intros Heq. right. apply Hhe. lia.
Qed.
(** A magnitude below the middle of two codes has a nearest no greater. *)
Lemma mnear_below x unit c top : 0 < unit -> 0 <= top -> mnear x unit c -> 2 * x < (wm M top + wm M (top + 1)) * unit -> c <= top.
Proof.
  intros Hu Ht [Hc Hn] Hx. destruct (decide (c <= top)); [done|]. exfalso. destruct (Hn top Ht) as [Hle _].
  pose proof (wm_le (top + 1) c ltac:(lia)). pose proof (wm_step top Ht). assert (wm M (top + 1) * unit <= wm M c * unit) by nia.
  assert (wm M top * unit < wm M (top + 1) * unit) by nia. lia.
Qed.
Lemma mnear_exact unit c c' : 0 < unit -> 0 <= c' -> mnear (wm M c' * unit) unit c -> c = c'.
Proof. intros Hu Hc' [Hc Hn]. destruct (Hn c' Hc') as [Hle _]. apply wm_inj; [done..|]. nia. Qed.
End numbers.

(** ** Rounding *)
Lemma land1_odd a : Z.land a 1 = a mod 2.
Proof. change 1 with (Z.ones 1) at 1. by rewrite Z.land_ones by lia. Qed.
Lemma fmt_rne_shift_spec v n :
  0 <= v < 2 ^ 24 -> 0 < n ->
  let q := fmt_rne_shift v n in
  0 <= q /\ 2 * q * 2 ^ n - 2 ^ n <= 2 * v <= 2 * q * 2 ^ n + 2 ^ n /\
  (2 * v = 2 * q * 2 ^ n - 2 ^ n \/ 2 * v = 2 * q * 2 ^ n + 2 ^ n -> Z.even q = true).
Proof.
  intros Hv Hn. cbv zeta. unfold fmt_rne_shift. rewrite (proj2 (Z.eqb_neq _ _)) by lia. destruct (Z.leb_spec 32 n) as [H32|H32].
  { assert (2 ^ 32 <= 2 ^ n) by (apply Z.pow_le_mono_r; lia). split; [done|]. split; [lia|]. intros. done. }
  assert (2 ^ n = 2 * 2 ^ (n - 1)) as Hp by (rewrite <-Z.pow_succ_r by lia; f_equal; lia). assert (0 < 2 ^ (n - 1)) as Hh by (apply Z.pow_pos_nonneg; lia).
  rewrite !Z.shiftr_div_pow2, !land1_odd, Z.shiftl_1_l, Hp by lia. replace (2 ^ (n - 1) - 1) with (Z.ones (n - 1)) by (rewrite Z.ones_equiv; lia). rewrite Z.land_ones by lia.
  set (H := 2 ^ (n - 1)) in *. pose proof (Z.div_mod v H ltac:(lia)) as Hd1. pose proof (Z.mod_pos_bound v H ltac:(lia)) as Hr. rewrite (Z.mul_comm 2 H), <-Z.div_div by lia.
  set (k := v / H) in *. pose proof (Z.div_mod k 2 ltac:(lia)) as Hd2. pose proof (Z.mod_pos_bound k 2 ltac:(lia)) as Hb. set (keep := k / 2) in *. set (r := v mod H) in *.
  assert (0 <= keep < 2 ^ 31) as Hk by (assert (0 <= k) by (apply Z.div_pos; lia); assert (k <= v) by nia; lia).
  assert (u32 (keep + 1) = keep + 1) as Hw by (apply wrap_id; unfold fits; lia). rewrite Hw. pose proof (Zmod_even keep) as Hev.
  destruct (Z.eqb_spec (k mod 2) 0) as [Hk0|Hk0]; cbn [negb andb].
  - split; [lia|]. split; [nia|]. intros [?|?]; nia.
  - assert (k mod 2 = 1) as Hk1 by lia. destruct (Z.eqb_spec r 0) as [Hr0|Hr0]; cbn [negb orb]; [|split; [lia|]; split; [nia|]; intros [?|?]; nia].
    destruct (Z.even keep) eqn:He; rewrite Hev; cbn [Z.eqb negb]; (split; [lia|]); (split; [nia|]); intros _; [done|].
    by rewrite Z.add_1_r, Z.even_succ, <-Z.negb_even, He.
Qed.
Lemma msb_loop_spec fuel sig p : 0 < sig -> 0 <= p <= Z.log2 sig -> Z.log2 sig - p <= Z.of_nat fuel -> msb_loop fuel sig p = Z.log2 sig.
Proof.
  revert p. induction fuel as [|fuel IH]; intros p Hs Hp Hf; cbn [msb_loop]; [lia|]. rewrite Z.shiftr_div_pow2 by lia.
  destruct (Z.ltb_spec 1 (sig / 2 ^ p)) as [H|H].
  - apply IH; [done| |lia]. split; [lia|]. destruct (decide (p = Z.log2 sig)) as [->|]; [|lia]. exfalso. pose proof (Z.log2_spec sig Hs) as [_ Hl].
    assert (sig / 2 ^ Z.log2 sig < 2) by (apply Z.div_lt_upper_bound; [apply Z.pow_pos_nonneg; lia|]; rewrite Z.mul_comm, <-Z.pow_succ_r by lia; done). lia.
  - apply Z.le_antisymm; [lia|]. assert (sig < 2 ^ (p + 1)) as Hlt; [|apply Z.lt_succ_r, Z.log2_lt_pow2; [done|]; by rewrite <-Z.add_1_r].
    rewrite Z.pow_add_r by lia. change (2 ^ 1) with 2. pose proof (Z.div_mod sig (2 ^ p) ltac:(apply Z.pow_nonzero; lia)). pose proof (Z.mod_pos_bound sig (2 ^ p) ltac:(apply Z.pow_pos_nonneg; lia)). nia.
Qed.
Lemma msb_of_log2 sig : 0 < sig < 2 ^ 32 -> msb_of sig = Z.log2 sig.
Proof. intros Hs. apply msb_loop_spec; [lia| |]; pose proof (Z.log2_nonneg sig); [lia|]. assert (Z.log2 sig < 32) by (apply Z.log2_lt_pow2; lia). lia. Qed.

(** The significand [sig * 2^s], quantised in steps of [2^(shift + s)]. *)
Definition quantised (sig shift : Z) : Z := if 0 <? shift then fmt_rne_shift sig shift else u32 (Z.shiftl sig (- shift)).
Lemma quantised_spec sig s shift : 0 <= sig < 2 ^ 24 -> 0 <= s -> 0 <= shift + s -> (shift <= 0 -> sig * 2 ^ (- shift) < 2 ^ 32) ->
  let q := quantised sig shift in let P := 2 ^ (shift + s) in
  0 <= q /\ 2 * q * P - P <= 2 * (sig * 2 ^ s) <= 2 * q * P + P /\ (2 * (sig * 2 ^ s) = 2 * q * P - P \/ 2 * (sig * 2 ^ s) = 2 * q * P + P -> Z.even q = true).
Proof.
  intros Hsig Hs Hk Hw. cbv zeta. unfold quantised. destruct (Z.ltb_spec 0 shift) as [H|H].
  - destruct (fmt_rne_shift_spec sig shift Hsig H) as (Hq & Hb & He). set (q := fmt_rne_shift sig shift) in *. rewrite Z.pow_add_r by lia.
    assert (0 < 2 ^ s) by (apply Z.pow_pos_nonneg; lia). set (S := 2 ^ s) in *. set (N := 2 ^ shift) in *. split; [done|]. split; [nia|]. intros [?|?]; apply He; [left|right]; nia.
  - rewrite Z.shiftl_mul_pow2 by lia. assert (0 < 2 ^ (- shift)) by (apply Z.pow_pos_nonneg; lia). assert (u32 (sig * 2 ^ (- shift)) = sig * 2 ^ (- shift)) as -> by (apply wrap_id; unfold fits; nia).
    assert (2 ^ s = 2 ^ (- shift) * 2 ^ (shift + s)) as -> by (rewrite <-Z.pow_add_r by lia; f_equal; lia). assert (0 < 2 ^ (shift + s)) by (apply Z.pow_pos_nonneg; lia).
    split; [nia|]. split; [nia|]. intros [?|?]; nia.
Qed.

(** ** The code of a magnitude *)
Lemma msb_bounds sig : 0 < sig < 2 ^ 24 -> 0 <= Z.log2 sig < 24 /\ 2 ^ Z.log2 sig <= sig < 2 * 2 ^ Z.log2 sig.
Proof.
  intros Hsig. pose proof (Z.log2_spec sig ltac:(lia)) as Hl. pose proof (Z.log2_nonneg sig). rewrite Z.pow_succ_r in Hl by lia.
  split; [|lia]. split; [done|]. apply Z.log2_lt_pow2; lia.
Qed.
Section code.
Variables (M B sig s : Z).
Hypotheses (HM : 0 < M <= 10) (HB : 0 <= 150 - B - M) (Hsig : 0 < sig < 2 ^ 24) (Hs : 0 <= s).
Let msb := Z.log2 sig.
Let f := s - 149 + msb + B.
Let unit := 2 ^ (150 - B - M).
Let X := sig * 2 ^ s.
Lemma unit_pos : 0 < unit.
Proof. apply Z.pow_pos_nonneg; lia. Qed.
(** Below the normals, in steps of the unit. *)
Lemma near_sub : f < 1 -> let q := quantised sig (1 - B - M - (s - 149)) in 0 <= q <= 2 ^ M /\ mnear M X unit q.
Proof.
  intros Hf. destruct (msb_bounds sig Hsig) as [Hm0 Hm]. fold msb in Hm0, Hm. destruct (pow_M M ltac:(lia)) as [H2 HM1]. cbv zeta.
  assert (X < 2 ^ M * unit) as HX.
  { unfold X, unit. rewrite <-Z.pow_add_r by lia. apply Z.lt_le_trans with (2 ^ (msb + 1) * 2 ^ s); [apply Z.mul_lt_mono_pos_r; [apply Z.pow_pos_nonneg; lia|]; rewrite Z.pow_add_r by lia; lia|].
    rewrite <-Z.pow_add_r by lia. apply Z.pow_le_mono_r; lia. }
  destruct (quantised_spec sig s (1 - B - M - (s - 149))) as (Hq & Hb & He); [lia|done|lia| |].
  { intros Hsh. apply Z.lt_le_trans with (2 ^ (msb + 1) * 2 ^ (- (1 - B - M - (s - 149)))); [apply Z.mul_lt_mono_pos_r; [apply Z.pow_pos_nonneg; lia|]; rewrite Z.pow_add_r by lia; lia|].
    rewrite <-Z.pow_add_r by lia. apply Z.pow_le_mono_r; lia. }
  replace (1 - B - M - (s - 149) + s) with (150 - B - M) in * by lia. fold unit X in Hb, He. set (q := quantised _ _) in *. pose proof unit_pos as Hu.
  assert (q <= 2 ^ M) as Hle by nia. split; [lia|]. apply mnear_local; [lia|done|done| |].
  - intros Hlt. rewrite !wm_small by lia. split; [nia|]. intros. apply He. nia.
  - assert (wm M (q + 1) = q + 1) as ->.
    { destruct (decide (q = 2 ^ M)) as [->|]; [|by apply wm_small; lia]. replace (2 ^ M + 1) with (2 ^ M * (1 - 1) + (2 ^ M + 1)) by lia. rewrite wm_binade by lia. change (2 ^ (1 - 1)) with 1. lia. }
    rewrite wm_small by lia. split; [nia|]. intros. apply He. nia.
Qed.
(** In a binade, in its own steps. *)
Lemma near_norm : 1 <= f -> let q := quantised sig (msb - M) in 2 ^ M <= q <= 2 ^ (M + 1) /\ mnear M X unit (2 ^ M * (f - 1) + q).
Proof.
  intros Hf. destruct (msb_bounds sig Hsig) as [Hm0 Hm]. fold msb in Hm0, Hm. destruct (pow_M M ltac:(lia)) as [H2 HM1]. cbv zeta. pose proof unit_pos as Hu.
  set (P := 2 ^ (msb - M + s)). assert (P = 2 ^ (f - 1) * unit) as HP by (unfold P, unit; rewrite <-Z.pow_add_r by lia; f_equal; lia).
  assert (0 < P) as HP0 by (apply Z.pow_pos_nonneg; lia).
  assert (2 ^ M * P <= X < 2 ^ (M + 1) * P) as HX.
  { unfold X, P. rewrite <-!Z.pow_add_r by lia. replace (M + (msb - M + s)) with (msb + s) by lia. replace (M + 1 + (msb - M + s)) with (msb + 1 + s) by lia.
    rewrite !Z.pow_add_r by lia. assert (0 < 2 ^ s) by (apply Z.pow_pos_nonneg; lia). nia. }
  destruct (quantised_spec sig s (msb - M)) as (Hq & Hb & He); [lia|done|lia| |].
  { intros Hsh. apply Z.lt_le_trans with (2 ^ (msb + 1) * 2 ^ (- (msb - M))); [apply Z.mul_lt_mono_pos_r; [apply Z.pow_pos_nonneg; lia|]; rewrite Z.pow_add_r by lia; lia|].
    rewrite <-Z.pow_add_r by lia. apply Z.pow_le_mono_r; lia. }
  fold P X in Hb, He. set (q := quantised _ _) in *. assert (2 ^ M <= q <= 2 ^ (M + 1)) as Hqb by nia. split; [done|].
  assert (forall q', 2 ^ M <= q' <= 2 ^ (M + 1) -> wm M (2 ^ M * (f - 1) + q') * unit = q' * P) as Hw by (intros q' Hq'; rewrite wm_binade by lia; nia).
  assert (Z.even (2 ^ M * (f - 1) + q) = Z.even q) as Hev by (rewrite Z.even_add, Z.even_mul, Z.even_pow by lia; by destruct (Z.even q)).
  apply mnear_local; [lia|done|nia|intros Hlt|]; rewrite Hev, (Hw q) by lia.
  - destruct (decide (q = 2 ^ M)) as [Hq0|Hq0].
    + pose proof (wm_step M ltac:(lia) (2 ^ M * (f - 1) + q - 1) ltac:(lia)) as Hst. replace (2 ^ M * (f - 1) + q - 1 + 1) with (2 ^ M * (f - 1) + q) in Hst by lia.
      assert (wm M (2 ^ M * (f - 1) + q - 1) * unit < q * P) by (rewrite <-Hw by lia; nia). split; [nia|intros; nia].
    + replace (2 ^ M * (f - 1) + q - 1) with (2 ^ M * (f - 1) + (q - 1)) by lia. rewrite Hw by lia. split; [nia|intros; apply He; nia].
  - destruct (decide (q = 2 ^ (M + 1))) as [Hq1|Hq1].
    + pose proof (wm_step M ltac:(lia) (2 ^ M * (f - 1) + q) ltac:(nia)) as Hst.
      assert (q * P < wm M (2 ^ M * (f - 1) + q + 1) * unit) by (rewrite <-Hw by lia; nia). split; [nia|intros; nia].
    + replace (2 ^ M * (f - 1) + q + 1) with (2 ^ M * (f - 1) + (q + 1)) by lia. rewrite Hw by lia. split; [nia|intros; apply He; nia].
Qed.
End code.

(** ** The formats narrower than a float *)
Definition fmt_unit (d : fmt_desc) : Z := 2 ^ (150 - fm_bias d - fm_man_bits d).
Definition fmt_sign (d : fmt_desc) (s : bool) : Z := if s then 2 ^ (fm_exp_bits d + fm_man_bits d) else 0.
(** Twice the magnitude halfway between the largest number and what would be
    the next. *)
Definition fmt_limit (d : fmt_desc) : Z :=
  let max := fe_max_raw (fmt_enc_init d) in (wm (fm_man_bits d) max + wm (fm_man_bits d) (max + 1)) * fmt_unit d.
Record fmt_ok (d : fmt_desc) : Prop := {
  fo_man : 0 < fm_man_bits d <= 10;
  fo_exp : 0 < fm_exp_bits d /\ fm_exp_bits d + fm_man_bits d <= 15;
  fo_bias : 0 <= 150 - fm_bias d - fm_man_bits d;
  fo_desc : fe_d (fmt_enc_init d) = d;
  fo_max : fe_max_raw (fmt_enc_init d) =
    if fm_has_inf d then 2 ^ fm_man_bits d * (2 ^ fm_exp_bits d - 1) - 1
    else if fm_has_nan d then 2 ^ (fm_exp_bits d + fm_man_bits d) - 2 else 2 ^ (fm_exp_bits d + fm_man_bits d) - 1;
  fo_inf : fm_has_inf d = true -> fe_inf_raw (fmt_enc_init d) = fe_max_raw (fmt_enc_init d) + 1;
  fo_nan : 0 <= fe_nan_raw (fmt_enc_init d) < 2 ^ (fm_exp_bits d + fm_man_bits d);
  fo_range : 0 <= fe_max_raw (fmt_enc_init d) < 2 ^ (fm_exp_bits d + fm_man_bits d);
  fo_sat : 0 < fe_saturate_f32 (fmt_enc_init d) < F32_INF_BITS /\ 2 * fmag (fe_saturate_f32 (fmt_enc_init d)) = fmt_limit d;
  fo_top : wm (fm_man_bits d) (fe_max_raw (fmt_enc_init d)) * fmt_unit d < 2 ^ 277 }.
Lemma formats_ok f : 1 <= f <= 5 -> fmt_ok (fmt_at f).
Proof.
  intros Hf. assert (f = 1 \/ f = 2 \/ f = 3 \/ f = 4 \/ f = 5) as Hc by lia. destruct_or! Hc; subst f.
  all: split; vm_compute; split_and?; try done; try congruence.
Qed.
Lemma lor_fmt_sign d s c : fmt_ok d -> 0 <= c < 2 ^ (fm_exp_bits d + fm_man_bits d) -> Z.lor (fmt_sign d s) c = fmt_sign d s + c.
Proof.
  intros Hd Hc. destruct (fo_man d Hd), (fo_exp d Hd). destruct s; [|done]. unfold fmt_sign. rewrite <-Z.shiftl_1_l at 1. rewrite Z.lor_comm, lor_shl_add by lia. lia.
Qed.

Section encode.
Variables (d : fmt_desc) (v : Z).
Hypotheses (Hd : fmt_ok d) (Hv : fits 32 v).
Let e := fmt_enc_init d.
Let mag := f32_mag v.
Let M := fm_man_bits d.
Let s := f32_neg v.

Lemma mag_bounds : 0 <= mag < 2 ^ 31.
Proof. apply Z.mod_pos_bound. lia. Qed.
(** The significand and the exponent of the source. *)
Definition source_of (m : Z) : Z * Z :=
  if Z.shiftr m F32_EXP_SHIFT =? 0 then (m, 1 - F32_BIAS - F32_MAN_BITS)
  else (Z.lor (Z.land m F32_MAN_MASK) (Z.shiftl 1 F32_EXP_SHIFT), Z.shiftr m F32_EXP_SHIFT - F32_BIAS - F32_MAN_BITS).
Lemma source_spec m : 0 < m < 2 ^ 31 -> let '(sig, src_e) := source_of m in 0 < sig < 2 ^ 24 /\ 0 <= src_e + 149 /\ fmag m = sig * 2 ^ (src_e + 149).
Proof.
  intros Hm. unfold source_of, F32_EXP_SHIFT, F32_MAN_MASK, F32_MAN_BITS, F32_BIAS. rewrite Z.shiftr_div_pow2 by lia. pose proof (Z.div_mod m (2 ^ 23) ltac:(lia)). pose proof (Z.mod_pos_bound m (2 ^ 23) ltac:(lia)).
  destruct (Z.eqb_spec (m / 2 ^ 23) 0) as [He|He].
  - unfold fmag. rewrite (proj2 (Z.ltb_lt _ _)) by lia. change (2 ^ (1 - 127 - 23 + 149)) with 1. lia.
  - assert (0 <= m / 2 ^ 23) by (apply Z.div_pos; lia). rewrite sig_mag, fmag_normal by lia. split_and!; try lia. do 2 f_equal. lia.
Qed.
(** The encoder past its checks, on the parts of the float. *)
Definition enc_body (sgn sig src_e : Z) : Z :=
  let msb := msb_of sig in
  let field := src_e + msb + fm_bias d in
  let q := quantised sig (if 1 <=? field then msb - M else 1 - fm_bias d - M - src_e) in
  if field <? 1 then Z.lor sgn q
  else
    let '(q, field) := if Z.lor (Z.shiftl 1 M - 1) (Z.shiftl 1 M - 1 + 1) <? q then (Z.shiftr q 1, field + 1) else (q, field) in
    let raw := Z.lor (u32 (Z.shiftl field M)) (Z.land q (Z.shiftl 1 M - 1)) in
    if fe_max_raw e <? raw then Z.lor sgn (if fm_has_inf d then fe_inf_raw e else fe_max_raw e) else Z.lor sgn raw.
Lemma encode_parts : fmt_encode_raw e v =
  if f32_nan v then (if fm_has_nan d then fe_nan_raw e else Z.lor (fmt_sign d s) (fe_max_raw e))
  else if fe_saturate_f32 e <=? mag then Z.lor (fmt_sign d s) (if fm_has_inf d then fe_inf_raw e else fe_max_raw e)
  else if mag =? 0 then fmt_sign d s
  else let '(sig, src_e) := source_of mag in enc_body (fmt_sign d s) sig src_e.
Proof.
  unfold fmt_encode_raw. change (fe_d e) with (fe_d (fmt_enc_init d)). rewrite (fo_desc d Hd). change F32_ABS_MASK with (Z.ones 31). rewrite Z.land_ones by lia. fold (f32_mag v) mag.
  change F32_SIGN_MASK with (2 ^ 31). rewrite land_pow2, Z.shiftl_1_l by lia. fold (f32_neg v) s. unfold f32_nan. fold mag.
  replace (if negb ((if s then 2 ^ 31 else 0) =? 0) then 2 ^ (fm_exp_bits d + fm_man_bits d) else 0) with (fmt_sign d s) by by destruct s.
  reflexivity.
Qed.
(** The two fields of a code side by side. *)
Lemma code_fields f q : 0 <= f < 2 ^ 16 -> 2 ^ M <= q < 2 ^ (M + 1) -> Z.lor (u32 (Z.shiftl f M)) (Z.land q (Z.shiftl 1 M - 1)) = 2 ^ M * (f - 1) + q.
Proof.
  intros Hf Hq. pose proof (fo_man d Hd) as HM. fold M in HM. destruct (pow_M M ltac:(lia)) as [H2 HM1]. rewrite Z.shiftl_1_l. replace (2 ^ M - 1) with (Z.ones M) by (rewrite Z.ones_equiv; lia).
  rewrite Z.land_ones by lia. assert (2 ^ M <= 2 ^ 10) by (apply Z.pow_le_mono_r; lia).
  assert (u32 (Z.shiftl f M) = Z.shiftl f M) as -> by (apply wrap_id; unfold fits; rewrite Z.shiftl_mul_pow2 by lia; nia).
  replace (q mod 2 ^ M) with (q - 2 ^ M) by (apply Z.mod_unique with 1; lia). rewrite Z.lor_comm, lor_shl_add by lia. lia.
Qed.
Lemma body_code sgn sig src_e : (forall c, 0 <= c < 2 ^ (fm_exp_bits d + M) -> Z.lor sgn c = sgn + c) ->
  0 < sig < 2 ^ 24 -> 0 <= src_e + 149 -> 2 * (sig * 2 ^ (src_e + 149)) < fmt_limit d ->
  exists c, enc_body sgn sig src_e = sgn + c /\ 0 <= c <= fe_max_raw e /\ mnear M (sig * 2 ^ (src_e + 149)) (fmt_unit d) c.
Proof.
  intros Hsgn Hsig Hse Hlim. pose proof (fo_man d Hd) as HM. pose proof (fo_bias d Hd) as HB. pose proof (fo_range d Hd) as Hr. destruct (fo_exp d Hd) as [HE HEM]. fold M in HM, HB, HEM, Hr. fold e in Hr.
  assert (forall c, mnear M (sig * 2 ^ (src_e + 149)) (fmt_unit d) c -> 0 <= c <= fe_max_raw e) as Htop.
  { intros c Hc. split; [apply Hc|]. eapply (mnear_below M); [lia| | |exact Hc|exact Hlim]; [by apply unit_pos|lia]. }
  unfold enc_body. rewrite msb_of_log2 by lia. set (f := src_e + Z.log2 sig + fm_bias d). destruct (Z.ltb_spec f 1) as [Hf|Hf].
  - rewrite (proj2 (Z.leb_gt _ _)) by lia. destruct (near_sub M (fm_bias d) sig (src_e + 149) HM HB Hsig Hse) as [Hq Hn]; [lia|].
    replace (src_e + 149 - 149) with src_e in * by lia. exists (quantised sig (1 - fm_bias d - M - src_e)). fold (fmt_unit d) in Hn. split_and!; [|by apply Htop..|done].
    apply Hsgn. pose proof (Htop _ Hn). lia.
  - rewrite (proj2 (Z.leb_le _ _)) by lia. destruct (near_norm M (fm_bias d) sig (src_e + 149) HM HB Hsig Hse) as [Hq Hn]; [lia|].
    replace (src_e + 149 - 149) with src_e in * by lia. fold f in Hn. change (2 ^ (150 - fm_bias d - M)) with (fmt_unit d) in Hn. set (q := quantised sig (Z.log2 sig - M)) in *.
    pose proof (Htop _ Hn) as Hc. exists (2 ^ M * (f - 1) + q). split; [|done].
    destruct (pow_M M ltac:(lia)) as [H2 HM1]. assert (2 ^ (fm_exp_bits d + M) <= 2 ^ 15) as H15 by (apply Z.pow_le_mono_r; lia). assert (f < 2 ^ 15) as Hf15 by nia.
    replace (Z.lor (Z.shiftl 1 M - 1) (Z.shiftl 1 M - 1 + 1)) with (2 ^ (M + 1) - 1); cycle 1.
    { replace (Z.shiftl 1 M - 1 + 1) with (Z.shiftl 1 M) by lia. rewrite lor_shl_add by (rewrite ?Z.shiftl_1_l; lia). rewrite Z.shiftl_1_l. lia. }
    destruct (Z.ltb_spec (2 ^ (M + 1) - 1) q) as [Hc1|Hc1].
    + assert (q = 2 ^ (M + 1)) as Hq2 by lia. rewrite Z.shiftr_div_pow2 by lia. replace (q / 2 ^ 1) with (2 ^ M) by (rewrite Hq2, HM1, Z.mul_comm; symmetry; by apply Z.div_mul).
      rewrite code_fields by lia. replace (2 ^ M * (f + 1 - 1) + 2 ^ M) with (2 ^ M * (f - 1) + q) by lia. rewrite (proj2 (Z.ltb_ge _ _)) by lia. apply Hsgn. lia.
    + rewrite code_fields by lia. rewrite (proj2 (Z.ltb_ge _ _)) by lia. apply Hsgn. lia.
Qed.
Lemma below_limit : mag < fe_saturate_f32 e -> 2 * fmag mag < fmt_limit d.
Proof.
  intros Hm. destruct (fo_sat d Hd) as [Hs0 Hsat]. fold e in Hs0. rewrite <-Hsat. pose proof mag_bounds. apply Z.mul_lt_mono_pos_l; [lia|]. apply (wm_lt 23); fold e; lia.
Qed.
Lemma above_limit : fe_saturate_f32 e <= mag -> fmt_limit d <= 2 * fmag mag.
Proof.
  intros Hm. destruct (fo_sat d Hd) as [Hs0 Hsat]. fold e in Hs0. rewrite <-Hsat. pose proof mag_bounds. apply Z.mul_le_mono_nonneg_l; [lia|]. apply (wm_le 23); fold e; lia.
Qed.
(** The code of a magnitude within range. *)
Lemma encode_finite : mag < fe_saturate_f32 e -> exists c, fmt_encode_raw e v = fmt_sign d s + c /\ 0 <= c <= fe_max_raw e /\ mnear M (fmag mag) (fmt_unit d) c.
Proof.
  intros Hm. pose proof mag_bounds as Hmag. destruct (fo_sat d Hd) as [Hs0 _]. fold e in Hs0. rewrite encode_parts. unfold f32_nan. fold mag.
  rewrite (proj2 (Z.ltb_ge _ _)), (proj2 (Z.leb_gt _ _)) by lia. pose proof (below_limit Hm) as Hlim. destruct (Z.eqb_spec mag 0) as [H0|H0].
  - exists 0. pose proof (fo_range d Hd) as Hr. fold e in Hr. pose proof (fo_man d Hd) as HM. fold M in HM. split_and!; [lia..|]. rewrite H0. change (fmag 0) with 0.
    split; [done|]. intros c' Hc'. destruct (pow_M M ltac:(lia)). rewrite (wm_small M ltac:(lia) 0) by lia. split; [lia|]. by right.
  - pose proof (source_spec mag ltac:(lia)) as Hsrc. destruct (source_of mag) as [sig src_e]. destruct Hsrc as (Hsig & Hse & Hfm). rewrite Hfm in *. apply body_code; try done.
    intros c Hc. by apply lor_fmt_sign.
Qed.
End encode.

(** ** Decoding *)
Lemma signed_parts s mag : 0 <= mag < 2 ^ 31 -> f32_mag (signed s mag) = mag /\ f32_neg (signed s mag) = s /\ fits 32 (signed s mag).
Proof.
  intros Hm. unfold f32_mag, f32_neg, signed, fits. rewrite Z.testbit_odd, Z.shiftr_div_pow2 by lia.
  destruct s; [rewrite <-(Z.mul_1_l (2 ^ 31)) at 1 3; rewrite Z.mod_add, Z.div_add by lia|]; rewrite Z.mod_small, Z.div_small by lia; split_and!; (done || lia).
Qed.
Lemma lor_signed s mag : 0 <= mag < 2 ^ 31 -> Z.lor (signed s 0) mag = signed s mag.
Proof. intros Hm. destruct s; [|done]. change (signed true 0) with (Z.shiftl 1 31). rewrite Z.lor_comm, lor_shl_add by lia. unfold signed. lia. Qed.
Lemma make_f32_spec s sig e : 0 <= sig < 2 ^ 24 -> -149 <= e -> (0 < sig -> Z.log2 sig + e <= 127) ->
  exists mag, make_f32 (signed s 0) sig e = signed s mag /\ 0 <= mag < F32_INF_BITS /\ fmag mag = sig * 2 ^ (e + 149).
Proof.
  intros Hsig He Htop. unfold make_f32, F32_MAN_BITS, F32_EXP_SHIFT, F32_BIAS, F32_MAN_MASK, F32_INF_BITS. destruct (Z.eqb_spec sig 0) as [->|Hne]; [by exists 0|].
  specialize (Htop ltac:(lia)). rewrite msb_of_log2 by lia. destruct (msb_bounds sig ltac:(lia)) as [Hp Hb]. set (p := Z.log2 sig) in *.
  assert ((if p <? 23 then (u32 (Z.shiftl sig (23 - p)), e - (23 - p)) else if 23 <? p then (Z.shiftr sig (p - 23), e + (p - 23)) else (sig, e)) = (sig * 2 ^ (23 - p), e - (23 - p))) as ->.
  { destruct (Z.ltb_spec p 23).
    - rewrite Z.shiftl_mul_pow2 by lia. f_equal. apply wrap_id. split; [assert (0 < 2 ^ (23 - p)) by (apply Z.pow_pos_nonneg; lia); nia|].
      apply Z.lt_le_trans with (2 * 2 ^ p * 2 ^ (23 - p)); [apply Z.mul_lt_mono_pos_r; [apply Z.pow_pos_nonneg; lia|lia]|]. rewrite <-Z.mul_assoc, <-Z.pow_add_r by lia. replace (p + (23 - p)) with 23 by lia. lia.
    - rewrite (proj2 (Z.ltb_ge _ _)) by lia. replace p with 23 by lia. change (2 ^ (23 - 23)) with 1. by rewrite Z.mul_1_r, Z.sub_0_r. }
  set (n := sig * 2 ^ (23 - p)). assert (2 ^ 23 <= n < 2 ^ 24) as Hn.
  { assert (2 ^ 23 = 2 ^ p * 2 ^ (23 - p)) as H1 by (rewrite <-Z.pow_add_r by lia; f_equal; lia). assert (0 < 2 ^ (23 - p)) by (apply Z.pow_pos_nonneg; lia). change (2 ^ 24) with (2 * 2 ^ 23). rewrite H1. subst n. nia. }
  replace (e - (23 - p) + 23 + 127) with (e + p + 127) by lia. destruct (Z.leb_spec 1 (e + p + 127)) as [Hf|Hf].
  - exists ((n - 2 ^ 23) + (e + p + 127) * 2 ^ 23). assert (u32 (Z.shiftl (e + p + 127) 23) = Z.shiftl (e + p + 127) 23) as -> by (apply wrap_id; unfold fits; rewrite Z.shiftl_mul_pow2 by lia; lia).
    change 0x007fffff with (Z.ones 23). rewrite Z.land_ones by lia. replace (n mod 2 ^ 23) with (n - 2 ^ 23) by (apply Z.mod_unique with 1; lia).
    rewrite <-Z.lor_assoc, (Z.lor_comm (Z.shiftl _ _)), lor_shl_add, lor_signed by lia. split_and!; [done|lia|lia|].
    rewrite fmag_normal by lia. rewrite Z.mod_add, Z.div_add, Z.mod_small, Z.div_small by lia. replace (2 ^ 23 + (n - 2 ^ 23)) with n by lia. unfold n. rewrite <-Z.mul_assoc, <-Z.pow_add_r by lia. do 2 f_equal. lia.
  - assert (sig * 2 ^ (e + 149) < 2 ^ 23) as Hsm.
    { apply Z.lt_le_trans with (2 ^ (p + 1) * 2 ^ (e + 149)); [apply Z.mul_lt_mono_pos_r; [apply Z.pow_pos_nonneg; lia|]; rewrite Z.pow_add_r by lia; lia|]. rewrite <-Z.pow_add_r by lia. apply Z.pow_le_mono_r; lia. }
    assert (0 < 2 ^ (e + 149)) by (apply Z.pow_pos_nonneg; lia). exists (sig * 2 ^ (e + 149)). rewrite (proj2 (Z.ltb_ge _ _)) by lia. rewrite Z.shiftr_div_pow2 by lia.
    assert (n = sig * 2 ^ (e + 149) * 2 ^ (1 - (e + p + 127))) as -> by (unfold n; rewrite <-Z.mul_assoc, <-Z.pow_add_r by lia; do 2 f_equal; lia).
    rewrite Z.div_mul by (apply Z.pow_nonzero; lia). rewrite lor_signed by nia. split_and!; [done|nia|nia|]. unfold fmag. by rewrite (proj2 (Z.ltb_lt _ _)).
Qed.
(** The fields of a code under its sign. *)
Lemma raw_fields d s c : fmt_ok d -> 0 <= c < 2 ^ (fm_exp_bits d + fm_man_bits d) ->
  let raw := fmt_sign d s + c in
  (if negb (Z.land (Z.shiftr raw (fm_exp_bits d + fm_man_bits d)) 1 =? 0) then F32_SIGN_MASK else 0) = signed s 0 /\
  Z.land (Z.shiftr raw (fm_man_bits d)) (Z.shiftl 1 (fm_exp_bits d) - 1) = c / 2 ^ fm_man_bits d /\ Z.land raw (Z.shiftl 1 (fm_man_bits d) - 1) = c mod 2 ^ fm_man_bits d.
Proof.
  intros Hd Hc. destruct (fo_man d Hd), (fo_exp d Hd). cbv zeta. set (E := fm_exp_bits d) in *. set (M := fm_man_bits d) in *. set (k := if s then 1 else 0).
  assert (fmt_sign d s + c = c + k * 2 ^ (E + M)) as -> by (unfold fmt_sign, k; fold E M; destruct s; lia). rewrite !Z.shiftl_1_l, !Z.shiftr_div_pow2 by lia.
  replace (2 ^ E - 1) with (Z.ones E) by (rewrite Z.ones_equiv; lia). replace (2 ^ M - 1) with (Z.ones M) by (rewrite Z.ones_equiv; lia). rewrite land1_odd, !Z.land_ones by lia.
  assert (0 < 2 ^ E /\ 0 < 2 ^ M) as [HE HM] by (split; apply Z.pow_pos_nonneg; lia). split_and!.
  - rewrite Z.div_add, Z.div_small by lia. unfold k. by destruct s.
  - rewrite (Z.pow_add_r 2 E M), Z.mul_assoc, Z.div_add, Z.mod_add by lia. apply Z.mod_small. split; [apply Z.div_pos; lia|]. apply Z.div_lt_upper_bound; [lia|]. rewrite <-Z.pow_add_r, Z.add_comm by lia. lia.
  - rewrite (Z.pow_add_r 2 E M), Z.mul_assoc, Z.mod_add by lia. done.
Qed.
Lemma lor_pow n r : 0 <= n -> 0 <= r < 2 ^ n -> Z.lor (2 ^ n) r = 2 ^ n + r.
Proof. intros Hn Hr. rewrite <-Z.shiftl_1_l at 1. rewrite Z.lor_comm, lor_shl_add by lia. lia. Qed.
(** A code's significand and exponent, as a float. *)
Lemma make_code d s c : fmt_ok d -> 0 <= c <= fe_max_raw (fmt_enc_init d) ->
  let M := fm_man_bits d in
  exists mag, (if c / 2 ^ M =? 0 then make_f32 (signed s 0) (c mod 2 ^ M) (1 - fm_bias d - M)
    else make_f32 (signed s 0) (Z.lor (2 ^ M) (c mod 2 ^ M)) (c / 2 ^ M - fm_bias d - M)) = signed s mag /\ 0 <= mag < F32_INF_BITS /\ fmag mag = wm M c * fmt_unit d.
Proof.
  intros Hd Hc. pose proof (fo_man d Hd) as HM. pose proof (fo_bias d Hd) as HB. pose proof (fo_top d Hd) as Htop. cbv zeta.
  set (M := fm_man_bits d) in *. destruct (pow_M M ltac:(lia)) as [H2 HM1]. assert (2 ^ M <= 2 ^ 10) as H10 by (apply Z.pow_le_mono_r; lia).
  pose proof (Z.div_mod c (2 ^ M) ltac:(lia)) as Hdm. pose proof (Z.mod_pos_bound c (2 ^ M) ltac:(lia)) as Hmb. assert (0 <= c / 2 ^ M) as Hd0 by (apply Z.div_pos; lia).
  assert (wm M c * fmt_unit d < 2 ^ 277) as Hlt.
  { eapply Z.le_lt_trans; [|exact Htop]. apply Z.mul_le_mono_nonneg_r; [apply Z.pow_nonneg; lia|]. apply wm_le; lia. }
  assert (exists sig e, 0 <= sig < 2 ^ 24 /\ -149 <= e /\ wm M c * fmt_unit d = sig * 2 ^ (e + 149) /\ (if c / 2 ^ M =? 0 then make_f32 (signed s 0) (c mod 2 ^ M) (1 - fm_bias d - M)
    else make_f32 (signed s 0) (Z.lor (2 ^ M) (c mod 2 ^ M)) (c / 2 ^ M - fm_bias d - M)) = make_f32 (signed s 0) sig e) as (sig & e & Hsig & He & Hval & ->).
  { destruct (Z.eqb_spec (c / 2 ^ M) 0) as [H0|H0].
    - rewrite H0 in Hdm. exists (c mod 2 ^ M), (1 - fm_bias d - M). split_and!; try lia. rewrite wm_small by lia. replace (c mod 2 ^ M) with c by lia. unfold fmt_unit. fold M. do 2 f_equal. lia.
    - exists (2 ^ M + c mod 2 ^ M), (c / 2 ^ M - fm_bias d - M). split_and!; try lia.
      + unfold wm. rewrite (proj2 (Z.ltb_ge _ _)) by nia. unfold fmt_unit. fold M. rewrite <-Z.mul_assoc, <-Z.pow_add_r by lia. do 2 f_equal. lia.
      + f_equal. by apply lor_pow; lia. }
  rewrite Hval in *. apply make_f32_spec; [done..|]. intros Hpos. destruct (msb_bounds sig ltac:(lia)) as [Hl0 [Hl _]].
  assert (2 ^ (Z.log2 sig + (e + 149)) < 2 ^ 277) as Hp%Z.pow_lt_mono_r_iff; [|lia..]. eapply Z.le_lt_trans; [|exact Hlt].
  rewrite Z.pow_add_r by lia. apply Z.mul_le_mono_nonneg_r; [apply Z.pow_nonneg; lia|done].
Qed.
(** Every number is decoded exactly. *)
Lemma decode_finite d s c : fmt_ok d -> 0 <= c <= fe_max_raw (fmt_enc_init d) ->
  exists mag, fmt_decode_raw d (fmt_sign d s + c) = signed s mag /\ 0 <= mag < F32_INF_BITS /\ fmag mag = wm (fm_man_bits d) c * fmt_unit d.
Proof.
  intros Hd Hc. destruct (make_code d s c Hd Hc) as (mag & Hmk & Hmag). exists mag. split; [|done]. pose proof (fo_man d Hd) as HM. pose proof (fo_exp d Hd) as HE. pose proof (fo_range d Hd) as Hr. pose proof (fo_max d Hd) as Hmax.
  destruct (raw_fields d s c Hd) as (Hs & He & Hm); [lia|]. unfold fmt_decode_raw. rewrite Hs, He, Hm, !Z.shiftl_1_l, Hmk. clear Hs He Hm Hmk.
  destruct (pow_M (fm_man_bits d) ltac:(lia)) as [H2 _]. assert (0 < 2 ^ fm_exp_bits d) as HE0 by (apply Z.pow_pos_nonneg; lia).
  pose proof (Z.div_mod c (2 ^ fm_man_bits d) ltac:(lia)) as Hdm. pose proof (Z.mod_pos_bound c (2 ^ fm_man_bits d) ltac:(lia)) as Hmb.
  destruct (Z.eqb_spec (c / 2 ^ fm_man_bits d) (2 ^ fm_exp_bits d - 1)) as [He|]; [|done]. rewrite He in Hdm. rewrite (Z.pow_add_r 2 (fm_exp_bits d)) in Hmax by lia.
  destruct (fm_has_inf d); [nia|]. destruct (fm_has_nan d); [|done]. cbn [andb]. rewrite (proj2 (Z.eqb_neq _ _)); [done|nia].
Qed.

(** A code past the largest number: an infinity or a NaN. *)
Lemma decode_special d s c : fmt_ok d -> fe_max_raw (fmt_enc_init d) < c < 2 ^ (fm_exp_bits d + fm_man_bits d) ->
  exists mag, fmt_decode_raw d (fmt_sign d s + c) = signed s mag /\ F32_INF_BITS <= mag < 2 ^ 31 /\ (mag = F32_INF_BITS <-> fm_has_inf d = true /\ c = fe_inf_raw (fmt_enc_init d)).
Proof.
  intros Hd Hc. pose proof (fo_man d Hd) as HM. pose proof (fo_exp d Hd) as HE. pose proof (fo_range d Hd) as Hr. pose proof (fo_max d Hd) as Hmax. pose proof (fo_inf d Hd) as Hinf.
  destruct (raw_fields d s c Hd) as (Hs & He & Hm); [lia|]. unfold fmt_decode_raw. rewrite Hs, He, Hm, !Z.shiftl_1_l. clear Hs He Hm.
  set (M := fm_man_bits d) in *. set (E := fm_exp_bits d) in *. destruct (pow_M M ltac:(lia)) as [H2 _]. assert (0 < 2 ^ E) as HE0 by (apply Z.pow_pos_nonneg; lia).
  pose proof (Z.div_mod c (2 ^ M) ltac:(lia)) as Hdm. pose proof (Z.mod_pos_bound c (2 ^ M) ltac:(lia)) as Hmb. rewrite (Z.pow_add_r 2 E M) in Hc, Hmax by lia.
  assert (c / 2 ^ M = 2 ^ E - 1) as He.
  { symmetry. apply Z.div_unique with (c - 2 ^ M * (2 ^ E - 1)); [|lia]. left. destruct (fm_has_inf d); [nia|]. destruct (fm_has_nan d); nia. }
  rewrite He, Z.eqb_refl. rewrite He in Hdm. destruct (fm_has_inf d) eqn:Hi; [|destruct (fm_has_nan d) eqn:Hn; cbn [andb]; [|nia]].
  - exists (F32_INF_BITS + c mod 2 ^ M * 2 ^ (23 - M)). unfold F32_MAN_BITS. rewrite Z.shiftl_mul_pow2 by lia. assert (0 < 2 ^ (23 - M)) by (apply Z.pow_pos_nonneg; lia).
    assert (2 ^ 23 = 2 ^ M * 2 ^ (23 - M)) as H23 by (rewrite <-Z.pow_add_r by lia; f_equal; lia). assert (c mod 2 ^ M * 2 ^ (23 - M) < 2 ^ 23) as Hb by (rewrite H23; nia).
    assert (u32 (c mod 2 ^ M * 2 ^ (23 - M)) = c mod 2 ^ M * 2 ^ (23 - M)) as -> by (apply wrap_id; unfold fits; nia).
    rewrite <-Z.lor_assoc. assert (Z.lor F32_INF_BITS (c mod 2 ^ M * 2 ^ (23 - M)) = F32_INF_BITS + c mod 2 ^ M * 2 ^ (23 - M)) as ->.
    { change F32_INF_BITS with (Z.shiftl 255 23) at 1. rewrite Z.lor_comm, lor_shl_add by nia. unfold F32_INF_BITS. lia. }
    rewrite lor_signed by (unfold F32_INF_BITS; nia). split_and!; [done|unfold F32_INF_BITS; nia..|]. rewrite Hinf by done. rewrite Hmax. split; [intros ?; split; [done|]; nia|intros [_ ?]; nia].
  - rewrite (proj2 (Z.eqb_eq _ _)) by nia. exists F32_QNAN_BITS. rewrite lor_signed by done. split_and!; [done..|]. split; [done|by intros []].
Qed.
Lemma raw_split d raw : fmt_ok d -> 0 <= raw < 2 ^ (1 + fm_exp_bits d + fm_man_bits d) -> exists s c, raw = fmt_sign d s + c /\ 0 <= c < 2 ^ (fm_exp_bits d + fm_man_bits d).
Proof.
  intros Hd Hr. destruct (fo_man d Hd), (fo_exp d Hd). rewrite <-Z.add_assoc, Z.pow_add_r in Hr by lia. change (2 ^ 1) with 2 in Hr. unfold fmt_sign. set (N := 2 ^ (fm_exp_bits d + fm_man_bits d)) in *.
  destruct (decide (raw < N)); [exists false, raw; lia|exists true, (raw - N); lia].
Qed.

(** ** The encoder, on every float *)
(** The nearest of the numbers of a format, the even one of two. *)
Definition fmt_nearest (d : fmt_desc) (x c : Z) : Prop :=
  let max := fe_max_raw (fmt_enc_init d) in let near c := Z.abs (x - wm (fm_man_bits d) c * fmt_unit d) in
  0 <= c <= max /\ forall c', 0 <= c' <= max -> near c <= near c' /\ (near c = near c' -> c' = c \/ Z.even c = true).
(** The encoding of a float of sign [s] and magnitude [x]. *)
Definition fmt_rounds (d : fmt_desc) (s : bool) (x raw : Z) : Prop :=
  if decide (fmt_limit d <= 2 * x) then raw = fmt_sign d s + (if fm_has_inf d then fe_inf_raw (fmt_enc_init d) else fe_max_raw (fmt_enc_init d))
  else exists c, raw = fmt_sign d s + c /\ fmt_nearest d x c.
Lemma over_range d : fmt_ok d -> 0 <= (if fm_has_inf d then fe_inf_raw (fmt_enc_init d) else fe_max_raw (fmt_enc_init d)) < 2 ^ (fm_exp_bits d + fm_man_bits d).
Proof.
  intros Hd. pose proof (fo_range d Hd). pose proof (fo_max d Hd) as Hmax. pose proof (fo_inf d Hd) as Hinf. destruct (fm_has_inf d); [|done]. rewrite Hinf by done.
  destruct (fo_man d Hd), (fo_exp d Hd). rewrite Z.pow_add_r by lia. destruct (pow_M (fm_man_bits d) ltac:(lia)). nia.
Qed.
Lemma encode_rounds d v : fmt_ok d -> fits 32 v -> let raw := fmt_encode_raw (fmt_enc_init d) v in
  if f32_nan v then raw = (if fm_has_nan d then fe_nan_raw (fmt_enc_init d) else fmt_sign d (f32_neg v) + fe_max_raw (fmt_enc_init d))
  else fmt_rounds d (f32_neg v) (fmag (f32_mag v)) raw.
Proof.
  intros Hd Hv. cbv zeta. pose proof (over_range d Hd) as Hover. destruct (f32_nan v) eqn:Hn.
  { rewrite (encode_parts d v Hd), Hn. destruct (fm_has_nan d); [done|]. apply lor_fmt_sign; [done|]. apply (fo_range d Hd). }
  unfold fmt_rounds. destruct (Z.lt_ge_cases (f32_mag v) (fe_saturate_f32 (fmt_enc_init d))) as [Hlt|Hge].
  - pose proof (below_limit d v Hd Hlt) as Hlim. rewrite decide_False by lia. destruct (encode_finite d v Hd Hlt) as (c & -> & Hc & Hnear). exists c. split; [done|]. split; [done|].
    intros c' Hc'. apply Hnear. lia.
  - pose proof (above_limit d v Hd Hge) as Hlim. rewrite decide_True by lia. rewrite (encode_parts d v Hd), Hn, (proj2 (Z.leb_le _ _)) by lia. by apply lor_fmt_sign.
Qed.

(** ** Arrays *)
(** Element [i] lies in the array. *)
Definition in_array (f : Z) (base : list Z) (i : nat) : Prop := (Z.of_nat i + 1) * p4_fmt_bits f <= 8 * Z.of_nat (length base).
Lemma widths f : 0 <= f <= 5 -> p4_fmt_bits f = 4 \/ p4_fmt_bits f = 8 \/ p4_fmt_bits f = 16 \/ p4_fmt_bits f = 32.
Proof. intros Hf. assert (f = 0 \/ f = 1 \/ f = 2 \/ f = 3 \/ f = 4 \/ f = 5) as Hc by lia. destruct_or! Hc; subst f; vm_compute; auto. Qed.
Ltac each_width Hf := destruct (widths _ Hf) as [Hbits|[Hbits|[Hbits|Hbits]]]; unfold fmt_load, fmt_store, in_array in *; rewrite Hbits in *; cbn [Z.eqb Pos.eqb] in *.
Lemma nibble_load b : byte_ok b -> Z.shiftr b 4 = b / 16 /\ Z.land b 0x0f = b mod 16.
Proof. intros _. change 0x0f with (Z.ones 4). by rewrite Z.shiftr_div_pow2, Z.land_ones by lia. Qed.
Lemma half_lt i n : Z.of_nat i + 1 <= 2 * Z.of_nat n -> (i / 2 < n)%nat.
Proof. intros H. apply Nat.Div0.div_lt_upper_bound. lia. Qed.
Lemma nibble_store b raw : byte_ok b -> 0 <= raw < 16 ->
  u8 (Z.lor (Z.land b 0x0f) (Z.shiftl (Z.land raw 0x0f) 4)) = b mod 16 + raw * 16 /\ u8 (Z.lor (Z.land b (Z.shiftl 0x0f 4)) (Z.land raw 0x0f)) = b / 16 * 16 + raw.
Proof.
  intros Hb Hr. change 0x0f with (Z.ones 4). assert (Z.land b (Z.shiftl (Z.ones 4) 4) = Z.shiftl (b / 16) 4) as ->.
  { unfold byte_ok, fits in Hb. assert (forall x, 0 <= x < 256 -> (Z.land x (Z.shiftl (Z.ones 4) 4) =? Z.shiftl (x / 16) 4) = true) as H; [|by apply Z.eqb_eq, H].
    apply (all_codes (fun x => Z.land x (Z.shiftl (Z.ones 4) 4) =? Z.shiftl (x / 16) 4)). by vm_compute. }
  rewrite !Z.land_ones by lia. change (2 ^ 4) with 16. rewrite (Z.mod_small raw) by lia. pose proof (Z.mod_pos_bound b 16 ltac:(lia)). pose proof (Z.div_mod b 16 ltac:(lia)). unfold byte_ok, fits in Hb.
  rewrite lor_shl_add by lia. rewrite (Z.lor_comm _ raw), lor_shl_add by lia. change (2 ^ 4) with 16. split; (etrans; [apply wrap_id; unfold fits; lia|lia]).
Qed.
Lemma fmt_store_length f base i raw : length (fmt_store f base i raw) = length base.
Proof. unfold fmt_store. repeat case_match; apply length_inserts. Qed.
Lemma fmt_store_ok f base i raw : bytes_ok base -> bytes_ok (fmt_store f base i raw).
Proof.
  intros Hb. unfold fmt_store, ernic_put_le16, ernic_put_le32. repeat case_match; apply bput_ok; auto with bytes.
  all: repeat constructor; apply wrap_fits; lia.
Qed.
Lemma fmt_load_store f base i raw : 0 <= f <= 5 -> bytes_ok base -> in_array f base i -> 0 <= raw < 2 ^ p4_fmt_bits f -> fmt_load f (fmt_store f base i raw) i = raw.
Proof.
  intros Hf Hb Hi Hr. each_width Hf.
  - pose proof (half_lt i (length base) ltac:(lia)) as Hlt. destruct (nibble_store (bat base (i / 2) 0) raw (bat_ok _ _ _ Hb) Hr) as [Ho He]. pose proof (bat_ok base (i / 2) 0 Hb) as Hbb.
    pose proof (Z.mod_pos_bound (bat base (i / 2) 0) 16 ltac:(lia)). destruct (Nat.odd i); rewrite bat_bput_same by (cbn [length]; lia); change ([?x] !!! 0%nat) with x.
    + rewrite Ho. rewrite Z.shiftr_div_pow2 by lia. change (2 ^ 4) with 16. rewrite Z.div_add, Z.div_small by lia. lia.
    + rewrite He. change 0x0f with (Z.ones 4). rewrite Z.land_ones by lia. change (2 ^ 4) with 16. rewrite Z.add_comm, Z.mod_add by lia. by apply Z.mod_small.
  - rewrite bat_bput_same by (cbn [length]; lia). by apply wrap_id.
  - rewrite get_put_le16 by (done || lia). rewrite wrap_wrap by lia. by apply wrap_id.
  - rewrite get_put_le32 by (done || lia). by apply wrap_id.
Qed.
Lemma fmt_load_other f base i j raw : 0 <= f <= 5 -> bytes_ok base -> in_array f base i -> 0 <= raw < 2 ^ p4_fmt_bits f -> i <> j -> fmt_load f (fmt_store f base i raw) j = fmt_load f base j.
Proof.
  intros Hf Hb Hi Hr Hij. each_width Hf.
  - pose proof (half_lt i (length base) ltac:(lia)) as Hlt. destruct (decide (i / 2 = j / 2)%nat) as [Heq|Hne]; [|by rewrite bat_bput_other by (cbn [length]; lia)].
    rewrite <-Heq, bat_bput_same by (cbn [length]; lia). destruct (nibble_store (bat base (i / 2) 0) raw (bat_ok _ _ _ Hb) Hr) as [Ho He].
    pose proof (bat_ok base (i / 2) 0 Hb) as Hbb. set (b := bat base (i / 2) 0) in *. pose proof (Z.mod_pos_bound b 16 ltac:(lia)). pose proof (Z.div_mod b 16 ltac:(lia)).
    assert (Nat.odd j = negb (Nat.odd i)) as ->.
    { pose proof (Nat.div_mod_eq i 2). pose proof (Nat.div_mod_eq j 2). pose proof (Nat.mod_upper_bound i 2 ltac:(lia)). pose proof (Nat.mod_upper_bound j 2 ltac:(lia)).
      rewrite <-!Nat.bit0_odd, !Nat.bit0_eqb. destruct (Nat.eqb_spec (i mod 2) 1), (Nat.eqb_spec (j mod 2) 1); (done || lia). }
    destruct (Nat.odd i); cbn [negb].
    + rewrite Ho. change ([?x] !!! 0%nat) with x. change 0x0f with (Z.ones 4). rewrite !Z.land_ones by lia. change (2 ^ 4) with 16. rewrite Z.mod_add, Z.mod_mod by lia. done.
    + rewrite He. change ([?x] !!! 0%nat) with x. rewrite !Z.shiftr_div_pow2 by lia. change (2 ^ 4) with 16. rewrite Z.add_comm, Z.div_add, Z.div_small by lia. done.
  - by rewrite bat_bput_other by (cbn [length]; lia).
  - by apply get_le16_bput_other; cbn [length le16_bytes le32_bytes]; lia.
  - by apply get_le32_bput_other; cbn [length le16_bytes le32_bytes]; lia.
Qed.
Lemma fmt_load_range f base i : 0 <= f <= 5 -> bytes_ok base -> 0 <= fmt_load f base i < 2 ^ p4_fmt_bits f.
Proof.
  intros Hf Hb. each_width Hf.
  - pose proof (bat_ok base (i / 2) 0 Hb). destruct (nibble_load (bat base (i / 2) 0)) as [-> ->]; [done|]. change (2 ^ 4) with 16.
    destruct (Nat.odd i); [split; [apply Z.div_pos; lia|apply Z.div_lt_upper_bound; lia]|by apply Z.mod_pos_bound].
  - by apply bat_ok.
  - by apply get_le16_fits.
  - by apply get_le32_fits.
Qed.
(** An array is its elements. *)
Lemma fmt_load_ext f n a b : 0 <= f <= 5 -> bytes_ok a -> bytes_ok b -> Z.of_nat n * p4_fmt_bits f = 8 * Z.of_nat (length a) -> length b = length a ->
  (forall i, (i < n)%nat -> fmt_load f a i = fmt_load f b i) -> a = b.
Proof.
  intros Hf Ha Hb Hn Hl H. apply list_eq_same_length with (n := length a); [done..|]. intros i x y Hi Hx Hy.
  assert (bat a i 0 = bat b i 0) as He; [|unfold bat in He; rewrite Nat.add_0_r, (list_lookup_total_correct _ _ _ Hx), (list_lookup_total_correct _ _ _ Hy) in He; done].
  clear x y Hx Hy. each_width Hf.
  - pose proof (H (2 * i)%nat ltac:(lia)) as H0. pose proof (H (2 * i + 1)%nat ltac:(lia)) as H1. rewrite Nat.odd_even in H0. rewrite Nat.odd_odd in H1.
    rewrite (Nat.mul_comm 2 i), Nat.div_mul in H0 by lia. replace ((2 * i + 1) / 2)%nat with i in H1 by (apply Nat.div_unique with 1%nat; lia).
    pose proof (bat_ok a i 0 Ha) as Hxa. pose proof (bat_ok b i 0 Hb) as Hxb. destruct (nibble_load (bat a i 0)) as [Ea Fa], (nibble_load (bat b i 0)) as [Eb Fb]; try done.
    rewrite Fa, Fb in H0. rewrite Ea, Eb in H1. rewrite (Z.div_mod (bat a i 0) 16), (Z.div_mod (bat b i 0) 16) by lia. lia.
  - apply H. lia.
  - pose proof (Nat.div_mod_eq i 2) as Hdm. pose proof (Nat.mod_upper_bound i 2 ltac:(lia)) as Hub. pose proof (H (i / 2)%nat ltac:(lia)) as H0.
    set (k := (i / 2)%nat) in *. set (r := (i mod 2)%nat) in *. rewrite !get_le16_arith in H0 by done.
    assert (forall c j, bat c (2 * k) j = bat c (2 * k + j) 0) as Hbat by (intros; unfold bat; f_equal; lia).
    pose proof (bat_ok a (2 * k) 0 Ha). pose proof (bat_ok a (2 * k) 1 Ha). pose proof (bat_ok b (2 * k) 0 Hb). pose proof (bat_ok b (2 * k) 1 Hb).
    replace i with (2 * k + r)%nat by lia. rewrite <-!Hbat. assert (r = 0 \/ r = 1)%nat as [->| ->] by lia; lia.
  - pose proof (Nat.div_mod_eq i 4) as Hdm. pose proof (Nat.mod_upper_bound i 4 ltac:(lia)) as Hub. pose proof (H (i / 4)%nat ltac:(lia)) as H0.
    set (k := (i / 4)%nat) in *. set (r := (i mod 4)%nat) in *. rewrite !get_le32_arith in H0 by done.
    assert (forall c j, bat c (4 * k) j = bat c (4 * k + j) 0) as Hbat by (intros; unfold bat; f_equal; lia).
    pose proof (bat_ok a (4 * k) 0 Ha). pose proof (bat_ok a (4 * k) 1 Ha). pose proof (bat_ok b (4 * k) 0 Hb). pose proof (bat_ok b (4 * k) 1 Hb).
    pose proof (bat_ok a (4 * k) 2 Ha). pose proof (bat_ok a (4 * k) 3 Ha). pose proof (bat_ok b (4 * k) 2 Hb). pose proof (bat_ok b (4 * k) 3 Hb).
    replace i with (4 * k + r)%nat by lia. rewrite <-!Hbat. assert (r = 0 \/ r = 1 \/ r = 2 \/ r = 3)%nat as [->|[->|[->| ->]]] by lia; lia.
Qed.

(** *** Conversion *)
(** What becomes of one element. *)
Definition recode (src dst raw : Z) : Z :=
  let v := if src =? P4_FMT_FP32 then raw else fmt_decode_raw (fmt_at src) raw in
  if dst =? P4_FMT_FP32 then v else fmt_encode_raw (fmt_enc_init (fmt_at dst)) v.
Lemma valid_iff f : 0 <= f < 2 ^ 32 -> p4_fmt_valid f = true <-> 0 <= f <= 5.
Proof. intros Hf. unfold p4_fmt_valid, P4_FMT_COUNT. rewrite wrap_id by done. rewrite Z.ltb_lt. lia. Qed.
Lemma convert_one_eq src dst inp out i : 0 <= src <= 5 -> convert_one src dst inp out i = fmt_store dst out i (recode src dst (fmt_load src inp i)).
Proof.
  intros Hs. unfold convert_one, recode, p4_fmt_decode. rewrite (proj2 (valid_iff src ltac:(lia)) Hs). cbn [negb]. by destruct (src =? P4_FMT_FP32).
Qed.
Lemma convert_loop src dst inp out l : 0 <= src <= 5 -> 0 <= dst <= 5 -> bytes_ok out -> NoDup l ->
  Forall (fun i => in_array dst out i) l -> (forall i, 0 <= recode src dst (fmt_load src inp i) < 2 ^ p4_fmt_bits dst) ->
  let r := foldl (convert_one src dst inp) out l in
  bytes_ok r /\ length r = length out /\ (forall i, i ∈ l -> fmt_load dst r i = recode src dst (fmt_load src inp i)) /\ (forall i, i ∉ l -> fmt_load dst r i = fmt_load dst out i).
Proof.
  intros Hs Hd Ho Hnd Hin Hrange. revert out Ho Hin. induction l as [|i l IH]; intros out Ho Hin; cbn [foldl].
  { split_and!; [done..| |done]. intros i Hi. by apply not_elem_of_nil in Hi. }
  apply NoDup_cons in Hnd as [Hni Hnd]. apply list.Forall_cons in Hin as [Hi Hin]. rewrite convert_one_eq by done. set (raw := recode _ _ _).
  destruct (IH Hnd (fmt_store dst out i raw)) as (Hb & Hl & Hon & Hoff); [by apply fmt_store_ok|eapply Forall_impl; [exact Hin|]; intros j Hj; unfold in_array; by rewrite fmt_store_length|].
  split_and!; [done|by rewrite Hl, fmt_store_length| |].
  - intros j [->|Hj]%elem_of_cons; [|by apply Hon]. rewrite Hoff by done. by apply fmt_load_store.
  - intros j [Hji Hj]%not_elem_of_cons. rewrite Hoff by done. apply fmt_load_other; (done || congruence || apply Hrange).
Qed.

(** Numbers and infinities, which a float carries; a NaN's payload is not kept. *)
Definition plain (d : fmt_desc) (raw : Z) : Prop :=
  exists s c, raw = fmt_sign d s + c /\ (0 <= c <= fe_max_raw (fmt_enc_init d) \/ fm_has_inf d = true /\ c = fe_inf_raw (fmt_enc_init d)).
Lemma bits_of f : 1 <= f <= 5 -> p4_fmt_bits f = 1 + fm_exp_bits (fmt_at f) + fm_man_bits (fmt_at f).
Proof. intros Hf. unfold p4_fmt_bits. by rewrite (proj2 (valid_iff f ltac:(lia)) ltac:(lia)). Qed.
Lemma decode_fits d raw : fmt_ok d -> 0 <= raw < 2 ^ (1 + fm_exp_bits d + fm_man_bits d) -> fits 32 (fmt_decode_raw d raw).
Proof.
  intros Hd Hr. destruct (raw_split d raw Hd Hr) as (s & c & -> & Hc). destruct (decide (c <= fe_max_raw (fmt_enc_init d))).
  - destruct (decode_finite d s c Hd ltac:(lia)) as (mag & -> & Hm & _). apply signed_parts. unfold F32_INF_BITS in *. lia.
  - destruct (decode_special d s c Hd ltac:(lia)) as (mag & -> & Hm & _). apply signed_parts. unfold F32_INF_BITS in *. lia.
Qed.
Lemma sign_range d s c : fmt_ok d -> 0 <= c < 2 ^ (fm_exp_bits d + fm_man_bits d) -> 0 <= fmt_sign d s + c < 2 ^ (1 + fm_exp_bits d + fm_man_bits d).
Proof. intros Hd Hc. destruct (fo_man d Hd), (fo_exp d Hd). rewrite <-Z.add_assoc, (Z.pow_add_r 2 1) by lia. unfold fmt_sign. destruct s; lia. Qed.
Lemma encode_range d v : fmt_ok d -> fits 32 v -> 0 <= fmt_encode_raw (fmt_enc_init d) v < 2 ^ (1 + fm_exp_bits d + fm_man_bits d).
Proof.
  intros Hd Hv. pose proof (encode_rounds d v Hd Hv) as H. cbv zeta in H. pose proof (fo_range d Hd) as Hr. pose proof (over_range d Hd) as Ho. pose proof (fo_nan d Hd) as Hn. destruct (f32_nan v).
  - rewrite H. destruct (fm_has_nan d); [|by apply sign_range]. pose proof (sign_range d false _ Hd Hn) as Hf. done.
  - unfold fmt_rounds in H. case_decide; [rewrite H; by apply sign_range|]. destruct H as (c & -> & Hc & _). apply sign_range; [done|lia].
Qed.
Lemma recode_range src dst raw : 0 <= src <= 5 -> 0 <= dst <= 5 -> 0 <= raw < 2 ^ p4_fmt_bits src -> 0 <= recode src dst raw < 2 ^ p4_fmt_bits dst.
Proof.
  intros Hs Hd Hr. unfold recode, P4_FMT_FP32. set (v := if src =? 0 then raw else _). assert (fits 32 v) as Hv.
  { unfold v. destruct (Z.eqb_spec src 0) as [->|]; [done|]. rewrite bits_of in Hr by lia. by apply decode_fits; [apply formats_ok; lia|]. }
  destruct (Z.eqb_spec dst 0) as [->|]; [done|]. rewrite bits_of by lia. apply encode_range; [apply formats_ok; lia|done].
Qed.
Lemma recode_back f raw : 1 <= f <= 5 -> plain (fmt_at f) raw -> recode P4_FMT_FP32 f (recode f P4_FMT_FP32 raw) = raw.
Proof.
  intros Hf (s & c & -> & Hc). unfold recode, P4_FMT_FP32. rewrite (proj2 (Z.eqb_neq f 0)) by lia. cbn [Z.eqb]. set (d := fmt_at f) in *. assert (fmt_ok d) as Hd by by apply formats_ok.
  pose proof (fo_range d Hd) as Hr. destruct Hc as [Hc|[Hi ->]].
  - destruct (decode_finite d s c Hd Hc) as (mag & -> & Hm & Hfm). destruct (signed_parts s mag) as (Hmag & Hneg & Hfits); [unfold F32_INF_BITS in *; lia|].
    assert (mag < fe_saturate_f32 (fmt_enc_init d)) as Hlt.
    { destruct (Z.lt_ge_cases mag (fe_saturate_f32 (fmt_enc_init d))) as [|Hge]; [done|]. pose proof (above_limit d (signed s mag) Hd ltac:(by rewrite Hmag)) as Hlim. rewrite Hmag, Hfm in Hlim. unfold fmt_limit in Hlim.
      pose proof (fo_man d Hd) as HM. pose proof (wm_le (fm_man_bits d) ltac:(lia) c _ Hc) as Hw. pose proof (wm_step (fm_man_bits d) ltac:(lia) (fe_max_raw (fmt_enc_init d)) ltac:(lia)).
      assert (0 < fmt_unit d) by (apply Z.pow_pos_nonneg; [lia|]; pose proof (fo_bias d Hd); lia). nia. }
    destruct (encode_finite d (signed s mag) Hd) as (c' & -> & Hc' & Hnear); [by rewrite Hmag|]. rewrite Hneg. f_equal. rewrite Hmag, Hfm in Hnear.
    destruct (fo_man d Hd). apply (mnear_exact (fm_man_bits d) ltac:(lia) (fmt_unit d)); [|lia|done]. apply Z.pow_pos_nonneg; [lia|]. pose proof (fo_bias d Hd). lia.
  - pose proof (fo_inf d Hd Hi) as Hinf. pose proof (over_range d Hd) as Ho. rewrite Hi in Ho. destruct (decode_special d s (fe_inf_raw (fmt_enc_init d)) Hd) as (mag & -> & Hm & Heq); [lia|].
    rewrite (proj2 Heq) by done. destruct (signed_parts s F32_INF_BITS ltac:(done)) as (Hmag & Hneg & Hfits).
    rewrite (encode_parts d _ Hd), Hneg, Hmag, Hi. unfold f32_nan. rewrite Hmag, Z.ltb_irrefl. rewrite (proj2 (Z.leb_le _ _)) by (pose proof (fo_sat d Hd); lia). by apply lor_fmt_sign.
Qed.
(** The sizes the code computes. *)
Lemma fmt_bytes_whole f n k : 0 <= f <= 5 -> Z.of_nat n * p4_fmt_bits f = 8 * k -> Z.of_nat n < 2 ^ 58 -> p4_fmt_bytes f (Z.of_nat n) = k.
Proof.
  intros Hf Hk Hn. unfold p4_fmt_bytes. destruct (widths f Hf) as [Hb|[Hb|[Hb|Hb]]]; rewrite Hb in *; cbn [Z.eqb]; rewrite wrap_id by (unfold fits; lia);
    rewrite Hk, (Z.mul_comm 8), Z.mod_mul, Z.div_mul by lia; done.
Qed.
(** A whole number of bytes in both formats is converted, element by element,
    and nothing past the last element is touched. *)
Lemma convert_exact src dst n inp out k k' : 0 <= src <= 5 -> 0 <= dst <= 5 -> bytes_ok inp -> bytes_ok out -> Z.of_nat n < 2 ^ 58 ->
  Z.of_nat n * p4_fmt_bits src = 8 * k -> Z.of_nat n * p4_fmt_bits dst = 8 * k' -> k' <= Z.of_nat (length out) ->
  exists r, p4_fmt_convert src dst inp n out = Some r /\ bytes_ok r /\ length r = length out /\
    forall i, (i < n)%nat -> fmt_load dst r i = recode src dst (fmt_load src inp i).
Proof.
  intros Hs Hd Hi Ho Hn Hks Hkd Hle. unfold p4_fmt_convert. rewrite (proj2 (valid_iff src ltac:(lia)) Hs), (proj2 (valid_iff dst ltac:(lia)) Hd). cbn [negb orb].
  rewrite (fmt_bytes_whole src n k), (fmt_bytes_whole dst n k') by done.
  assert (forall f k, 0 <= f <= 5 -> Z.of_nat n * p4_fmt_bits f = 8 * k -> (k =? 0) && negb (Z.of_nat n =? 0) = false) as Hz.
  { intros f k0 Hf Hk'. destruct (Z.eqb_spec k0 0), (Z.eqb_spec (Z.of_nat n) 0); try done. destruct (widths f Hf) as [Hb|[Hb|[Hb|Hb]]]; rewrite Hb in Hk'; lia. }
  rewrite (Hz src k), (Hz dst _ Hd Hkd) by done.
  destruct (convert_loop src dst inp out (seq 0 n)) as (Hb & Hl & Hon & _); try done.
  - apply NoDup_seq.
  - apply Forall_forall. intros i [_ Hlt]%elem_of_seq. unfold in_array. destruct (widths dst Hd) as [Hb|[Hb|[Hb|Hb]]]; rewrite Hb in *; lia.
  - intros i. apply recode_range; [done..|]. by apply fmt_load_range.
  - eexists. split; [done|]. split_and!; [done..|]. intros i Hlt. apply Hon, elem_of_seq. lia.
Qed.

(** ** The published formats
    IEEE 754 binary16, bfloat16, the OCP 8-bit formats E4M3 and E5M2 and the
    OCP 4-bit format E2M1: the widths, the bias, and the codes of the largest
    number, of infinity and of the canonical NaN, if there is one. *)
Record fmt_std := FmtStd { st_exp : Z; st_man : Z; st_bias : Z; st_max : Z; st_inf : option Z; st_nan : option Z }.
Definition standard (f : Z) : fmt_std :=
  if f =? P4_FMT_FP16 then FmtStd 5 10 15 0x7bff (Some 0x7c00) (Some 0x7e00)
  else if f =? P4_FMT_BF16 then FmtStd 8 7 127 0x7f7f (Some 0x7f80) (Some 0x7fc0)
  else if f =? P4_FMT_FP8_E4M3 then FmtStd 4 3 7 0x7e None (Some 0x7f)
  else if f =? P4_FMT_FP8_E5M2 then FmtStd 5 2 15 0x7b (Some 0x7c) (Some 0x7e)
  else FmtStd 2 1 1 0x7 None None.

(** The value of a code, in units of the smallest float. *)
Definition std_mag (t : fmt_std) (c : Z) : Z := wm (st_man t) c * 2 ^ (150 - st_bias t - st_man t).
Definition std_code (t : fmt_std) (s : bool) (c : Z) : Z := (if s then 2 ^ (st_exp t + st_man t) else 0) + c.
(** The encoding of a float of sign [s] and magnitude [x]: past the middle
    between the largest number and what would be the next, infinity or the
    largest number; else the nearest number, of two the even one. *)
Definition std_rounds (t : fmt_std) (s : bool) (x raw : Z) : Prop :=
  if decide (std_mag t (st_max t) + std_mag t (st_max t + 1) <= 2 * x) then raw = std_code t s (default (st_max t) (st_inf t))
  else exists c, raw = std_code t s c /\ 0 <= c <= st_max t /\ forall c', 0 <= c' <= st_max t ->
    Z.abs (x - std_mag t c) <= Z.abs (x - std_mag t c') /\
    (Z.abs (x - std_mag t c) = Z.abs (x - std_mag t c') -> c' = c \/ Z.even c = true).

(** The table and the encoder's limits are those of the standards. *)
Record follows (d : fmt_desc) (t : fmt_std) : Prop := {
  fl_exp : fm_exp_bits d = st_exp t;
  fl_man : fm_man_bits d = st_man t;
  fl_bias : fm_bias d = st_bias t;
  fl_max : fe_max_raw (fmt_enc_init d) = st_max t;
  fl_inf : (if fm_has_inf d then Some (fe_inf_raw (fmt_enc_init d)) else None) = st_inf t;
  fl_nan : (if fm_has_nan d then Some (fe_nan_raw (fmt_enc_init d)) else None) = st_nan t }.
Lemma formats_follow f : 1 <= f <= 5 -> follows (fmt_at f) (standard f).
Proof.
  intros Hf. assert (f = 1 \/ f = 2 \/ f = 3 \/ f = 4 \/ f = 5) as Hc by lia. destruct_or! Hc; subst f; by split; vm_compute.
Qed.
Lemma follows_sign d t s c : follows d t -> fmt_sign d s + c = std_code t s c.
Proof. intros [He Hm _ _ _ _]. unfold fmt_sign, std_code. by rewrite He, Hm. Qed.
Lemma follows_rounds d t s x raw : follows d t -> fmt_rounds d s x raw -> std_rounds t s x raw.
Proof.
  intros H. pose proof H as [_ Hm Hb Hx Hi _]. unfold fmt_rounds, std_rounds, fmt_limit, fmt_nearest, fmt_unit, std_mag. cbv zeta.
  rewrite Hm, Hb, Hx, Z.mul_add_distr_r. case_decide.
  - rewrite (follows_sign d t) by done. rewrite <-Hi. by destruct (fm_has_inf d).
  - intros (c & -> & Hc). exists c. by rewrite (follows_sign d t).
Qed.
Lemma decode_infinity f s i : 1 <= f <= 5 -> st_inf (standard f) = Some i -> fmt_decode_raw (fmt_at f) (std_code (standard f) s i) = signed s F32_INF_BITS.
Proof.
  intros Hf. assert (f = 1 \/ f = 2 \/ f = 3 \/ f = 4 \/ f = 5) as Hc by lia.
  destruct_or! Hc; subst f; intros [= <-]; by destruct s; vm_compute.
Qed.
Lemma decode_nan f s n : 1 <= f <= 5 -> st_nan (standard f) = Some n -> f32_nan (fmt_decode_raw (fmt_at f) (std_code (standard f) s n)) = true.
Proof.
  intros Hf. assert (f = 1 \/ f = 2 \/ f = 3 \/ f = 4 \/ f = 5) as Hc by lia.
  destruct_or! Hc; subst f; intros [= <-]; by destruct s; vm_compute.
Qed.

(** C22: each narrow format is rounded to as its published definition has it: a
    NaN becomes its NaN, or its largest number if it has none; a magnitude
    past the middle between the largest number and the next becomes an
    infinity, or the largest number; every other float becomes the nearest
    number, of two the even one.  And each number is decoded to the float that
    is exactly it, infinity to infinity and NaN to a NaN. *)
Theorem fmt_rounds_correctly f v :
  1 <= f <= 5 -> fits 32 v ->
  let t := standard f in let raw := fmt_encode_raw (fmt_enc_init (fmt_at f)) v in
  (if f32_nan v then raw = default (std_code t (f32_neg v) (st_max t)) (st_nan t)
   else std_rounds t (f32_neg v) (fmag (f32_mag v)) raw) /\
  (forall s c, 0 <= c <= st_max t ->
    let b := fmt_decode_raw (fmt_at f) (std_code t s c) in
    f32_nan b = false /\ f32_inf b = false /\ f32_neg b = s /\ fmag (f32_mag b) = std_mag t c) /\
  (forall s i, st_inf t = Some i -> fmt_decode_raw (fmt_at f) (std_code t s i) = signed s F32_INF_BITS) /\
  (forall s n, st_nan t = Some n -> f32_nan (fmt_decode_raw (fmt_at f) (std_code t s n)) = true).
Proof.
  intros Hf Hv t raw. assert (fmt_ok (fmt_at f)) as Hd by by apply formats_ok. pose proof (formats_follow f Hf) as Hfl. fold t in Hfl.
  split_and!; [| |intros s i; by apply decode_infinity|intros s n; by apply decode_nan].
  - pose proof (encode_rounds (fmt_at f) v Hd Hv) as H. fold raw in H. cbv zeta in H. destruct (f32_nan v); [|by eapply follows_rounds].
    rewrite H, <-(follows_sign _ t _ _ Hfl), <-(fl_nan _ _ Hfl), <-(fl_max _ _ Hfl). by destruct (fm_has_nan _).
  - intros s c Hc. cbv zeta. rewrite <-(fl_max _ _ Hfl) in Hc. rewrite <-(follows_sign _ t _ _ Hfl).
    destruct (decode_finite (fmt_at f) s c Hd Hc) as (mag & -> & Hm & Hfm). unfold F32_INF_BITS in Hm. destruct (signed_parts s mag ltac:(lia)) as (Hmag & Hneg & _).
    unfold f32_nan, f32_inf, std_mag. rewrite Hmag, Hneg, Hfm. unfold F32_INF_BITS, fmt_unit. rewrite (proj2 (Z.ltb_ge _ _)), (proj2 (Z.eqb_neq _ _)) by lia.
    by rewrite (fl_man _ _ Hfl), (fl_bias _ _ Hfl).
Qed.
(** C36: an array of numbers and infinities of a narrow format survives being
    widened to floats and narrowed back, byte for byte, whatever was in the
    buffers. *)
Theorem fmt_array_roundtrip f n inp wide out :
  1 <= f <= 5 -> bytes_ok inp -> bytes_ok wide -> bytes_ok out -> Z.of_nat n < 2 ^ 58 ->
  Z.of_nat n * p4_fmt_bits f = 8 * Z.of_nat (length inp) -> length wide = (4 * n)%nat -> length out = length inp ->
  (forall i, (i < n)%nat -> plain (fmt_at f) (fmt_load f inp i)) ->
  exists mid, p4_fmt_convert f P4_FMT_FP32 inp n wide = Some mid /\ p4_fmt_convert P4_FMT_FP32 f mid n out = Some inp.
Proof.
  intros Hf Hi Hw Ho Hn Hbits Hlw Hlo Hpl. assert (Z.of_nat n * p4_fmt_bits P4_FMT_FP32 = 8 * Z.of_nat (length wide)) as H32 by (change (p4_fmt_bits P4_FMT_FP32) with 32; lia).
  destruct (convert_exact f P4_FMT_FP32 n inp wide _ _ ltac:(lia) ltac:(done) Hi Hw Hn Hbits H32 ltac:(done)) as (mid & Hm & Hbm & Hlm & Hel). exists mid. split; [done|].
  destruct (convert_exact P4_FMT_FP32 f n mid out _ _ ltac:(done) ltac:(lia) Hbm Ho Hn H32 Hbits ltac:(by rewrite Hlo)) as (back & Hb & Hbb & Hlb & Hel2). rewrite Hb. f_equal.
  apply (fmt_load_ext f n); [lia|done|done|by rewrite Hlb, Hlo|by rewrite Hlb, Hlo|]. intros i Hlt. rewrite Hel2, Hel by done. apply recode_back; [done|]. by apply Hpl.
Qed.

(** ** E4M3 *)
Lemma near_unique x unit c c' : 0 < unit -> near x unit c -> near x unit c' -> c = c'.
Proof.
  intros Hu [Hc Hn] [Hc' Hn']. destruct (Hn c' Hc') as [H1 E1]. destruct (Hn' c Hc) as [H2 E2]. assert (Z.abs (x - w c * unit) = Z.abs (x - w c' * unit)) as He by lia.
  destruct (E1 He) as [->|Hev]; [done|]. destruct (E2 (eq_sym He)) as [->|Hev']; [done|]. destruct (decide (c = c')) as [|Hne]; [done|]. exfalso.
  assert (exists a b, a < b /\ (a = c /\ b = c' \/ a = c' /\ b = c)) as (a & b & Hab & Hcases) by (destruct (decide (c < c')); [exists c, c'|exists c', c]; lia).
  assert (a + 1 < b) as Hgap.
  { destruct (decide (b = a + 1)) as [Hb|]; [|lia]. exfalso. assert (Z.even a = true /\ Z.even b = true) as [Ha Hb'] by (destruct Hcases as [[-> ->]|[-> ->]]; done).
    rewrite Hb, Z.add_1_r, Z.even_succ, <-Z.negb_even, Ha in Hb'. done. }
  assert (0 <= a /\ b <= 126) as [Ha0 Hb126] by (destruct Hcases as [[-> ->]|[-> ->]]; lia).
  pose proof (w_step a ltac:(lia)) as S1. pose proof (w_step (a + 1) ltac:(lia)) as S2. pose proof (w_le (a + 1 + 1) b ltac:(lia) ltac:(lia)) as S3.
  destruct (Hn (a + 1) ltac:(lia)) as [H3 _]. assert (Z.abs (x - w a * unit) = Z.abs (x - w b * unit)) as Hab' by (destruct Hcases as [[-> ->]|[-> ->]]; lia).
  assert (Z.abs (x - w a * unit) <= Z.abs (x - w (a + 1) * unit)) as H4 by (destruct Hcases as [[-> ->]|[-> ->]]; lia).
  assert (w a * unit < w (a + 1) * unit < w b * unit) by nia. lia.
Qed.
Definition e4m3_decodes (raw : Z) : bool :=
  fmt_decode_raw (fmt_at P4_FMT_FP8_E4M3) raw =? if p4_fp8_is_nan raw then signed (128 <=? raw) F32_NAN_BITS else p4_fp8_to_float raw.
Definition e4m3_same (raw : Z) : bool :=
  (raw =? 0xff) || (fmt_decode_raw (fmt_at P4_FMT_FP8_E4M3) raw =? p4_fp8_to_float raw).
(** C37: the generic path for E4M3 is the one in p4_fp8.c, on every float and on
    every code but the negative NaN 0xff, which the generic path decodes to a
    NaN with the sign and p4_fp8.c to the one without. *)
Theorem e4m3_paths_agree :
  (forall v, fits 32 v -> fmt_encode_raw (fmt_enc_init (fmt_at P4_FMT_FP8_E4M3)) v = p4_fp8_from_float v) /\
  (forall raw, fits 8 raw -> fmt_decode_raw (fmt_at P4_FMT_FP8_E4M3) raw = if p4_fp8_is_nan raw then signed (128 <=? raw) F32_NAN_BITS else p4_fp8_to_float raw) /\
  (forall raw, fits 8 raw -> raw <> 0xff -> fmt_decode_raw (fmt_at P4_FMT_FP8_E4M3) raw = p4_fp8_to_float raw) /\
  p4_fp8_to_float 0xff = F32_NAN_BITS.
Proof.
  split_and!.
  - intros v Hv. assert (fmt_ok (fmt_at P4_FMT_FP8_E4M3)) as Hd by by apply formats_ok. rewrite from_float_enc.
    assert (0 <= f32_mag v) as H0 by (apply Z.mod_pos_bound; lia). destruct (f32_nan v) eqn:Hn; [by rewrite (encode_parts _ v Hd), Hn|].
    apply Z.ltb_ge in Hn as Hle. destruct (Z.lt_ge_cases (f32_mag v) F32_SATURATE_BITS) as [Hlt|Hge].
    + destruct (encode_finite _ v Hd) as (c & -> & Hc & Hm0 & Hm); [exact Hlt|]. destruct (enc_near (f32_neg v) (f32_mag v)) as (c' & -> & Hn'); [lia|].
      assert (c = c') as ->; [|by destruct (f32_neg v)]. apply (near_unique (fmag (f32_mag v)) (2 ^ 140)); [done| |done]. split; [exact Hc|]. intros c'' Hc''. apply Hm. lia.
    + rewrite (encode_parts _ v Hd), Hn, (proj2 (Z.leb_le _ _)) by exact Hge. unfold fp8_enc. rewrite (proj2 (Z.leb_le _ _)) by exact Hge. by destruct (f32_neg v).
  - intros raw Hr. apply Z.eqb_eq. apply (all_codes e4m3_decodes 256); [by vm_compute|done].
  - intros raw Hr Hne. pose proof (all_codes e4m3_same 256 ltac:(by vm_compute) raw Hr) as H. unfold e4m3_same in H.
    apply orb_true_iff in H as [H%Z.eqb_eq|H%Z.eqb_eq]; done.
  - done.
Qed.

(** Halfway between two bfloat16 numbers, and above the largest. *)
Lemma fmt_rounds_correctly_witness :
  fmt_encode_raw (fmt_enc_init (fmt_at P4_FMT_BF16)) 0x3f818000 = 0x3f82 /\ std_rounds (standard P4_FMT_BF16) false (fmag 0x3f818000) 0x3f82 /\
  std_rounds (standard P4_FMT_BF16) true (fmag 0x7f7fffff) 0xff80.
Proof.
  split; [vm_compute; reflexivity|]. split.
  - exact (proj1 (fmt_rounds_correctly P4_FMT_BF16 0x3f818000 ltac:(done) ltac:(done))).
  - exact (proj1 (fmt_rounds_correctly P4_FMT_BF16 0xff7fffff ltac:(done) ltac:(done))).
Defined.
Lemma fmt_array_roundtrip_witness : exists mid,
  p4_fmt_convert P4_FMT_FP4_E2M1 P4_FMT_FP32 [0x1f; 0x62] 4 (replicate 16 0xaa) = Some mid /\ p4_fmt_convert P4_FMT_FP32 P4_FMT_FP4_E2M1 mid 4 [0xaa; 0xaa] = Some [0x1f; 0x62].
Proof.
  apply (fmt_array_roundtrip P4_FMT_FP4_E2M1 4 [0x1f; 0x62] (replicate 16 0xaa) [0xaa; 0xaa]); try done; try by apply (bool_decide_unpack _); vm_compute.
  intros i Hi. destruct i as [|[|[|[|i]]]]; [| | | |lia].
  - exists true, 7. split; [reflexivity|left; by vm_compute].
  - exists false, 1. split; [reflexivity|left; by vm_compute].
  - exists false, 2. split; [reflexivity|left; by vm_compute].
  - exists false, 6. split; [reflexivity|left; by vm_compute].
Defined.
