(* ===== verification/DpP4.v ===== *)
(** * The data path's side of the P4 pipeline (ionic_datapath_p4.c)

    Every send work request runs through the loaded program before it is
    dispatched.  The program can deny the request, and its extern can run an
    FP8 arithmetic or a format conversion over registered guest memory in
    place of the transfer.  [p4_targets] is the device with this policy: an
    instance of the interface the data path is written against.  The lines
    the policy logs are not modelled. *)
From S2P Require Import P4Engine P4Fp8Props P4FmtProps.
From S2P Require Import P4Ex DpData.
From S2P Require Export DpSend.
From stdpp Require Import strings.
#[local] Open Scope Z_scope.

Definition EACCES : Z := 13.
Definition EFAULT : Z := 14.
Definition ENOEXEC : Z := 8.
Definition FP8_MAP_CHUNK : Z := 2048.
Definition IONIC_FP8_MAP_MAX : Z := 262144.
Definition FMT_CVT_CHUNK_ELEMS : Z := 512.
Definition FMT_MAX_ELEM_BYTES : Z := 4.
(** The work request did not ask for a compute operation. *)
Definition DP_P4_NOT_COMPUTE : Z := - ENOEXEC.

Section p4.
Context {E : Env}.

(** ** The operations *)
Definition fp8_key_ok (key va len : Z) (s : ionic_datapath) : bool := negb (key =? 0) && ionic_dp_mr_covers key va len s.

(** The result, in blocks. *)
Fixpoint fp8_map_loop (fuel : nat) (op : Z) (a b : list Z) (len c_rkey c_va done : Z) : DP Z :=
  match fuel with
  | O => mret 0
  | S fuel =>
      if done <? len then
        let n := if FP8_MAP_CHUNK <? len - done then FP8_MAP_CHUNK else len - done in
        match p4_fp8_map op (bslice a (Z.to_nat done) (Z.to_nat n)) (bslice b (Z.to_nat done) (Z.to_nat n)) with
        | None => mret (- EINVAL)
        | Some c =>
            k ← ionic_dp_host_to_sge c_rkey (u64 (c_va + done)) c n;
            if negb (k =? n) then mret (- EFAULT) else fp8_map_loop fuel op a b len c_rkey c_va (done + n)
        end
      else mret 0
  end.
Definition ionic_datapath_fp8_map (op a_lkey a_va b_lkey b_va len c_rkey c_va : Z) : DP Z :=
  if (len =? 0) || (IONIC_FP8_MAP_MAX <? len) then mret (- EINVAL)
  else
    ok ← gets (fun s => fp8_key_ok a_lkey a_va len s && fp8_key_ok b_lkey b_va len s && fp8_key_ok c_rkey c_va len s);
    if negb (ok : bool) then mret (- EACCES)
    else
      mem ← alloc;
      if negb (mem : bool) then mret (- ENOMEM)
      else
        a ← ionic_dp_sge_to_host a_lkey a_va len;
        if negb (Z.of_nat (length a) =? len) then mret (- EFAULT)
        else
          b ← ionic_dp_sge_to_host b_lkey b_va len;
          if negb (Z.of_nat (length b) =? len) then mret (- EFAULT)
          else fp8_map_loop (Z.to_nat len) op a b len c_rkey c_va 0.

(** [out] is a buffer on the stack, which keeps what the last pass left. *)
Fixpoint fmt_convert_loop (fuel : nat) (src_fmt dst_fmt : Z) (inp out : list Z) (n_elems c_rkey c_va done : Z) : DP Z :=
  match fuel with
  | O => mret 0
  | S fuel =>
      if done <? n_elems then
        let n := if FMT_CVT_CHUNK_ELEMS <? n_elems - done then FMT_CVT_CHUNK_ELEMS else n_elems - done in
        let out_bytes := p4_fmt_bytes dst_fmt n in
        match p4_fmt_convert src_fmt dst_fmt (drop (Z.to_nat (p4_fmt_bytes src_fmt done)) inp) (Z.to_nat n) out with
        | None => mret (- EINVAL)
        | Some out =>
            k ← ionic_dp_host_to_sge c_rkey (u64 (c_va + p4_fmt_bytes dst_fmt done)) out (u32 out_bytes);
            if negb (k =? out_bytes) then mret (- EFAULT)
            else fmt_convert_loop fuel src_fmt dst_fmt inp out n_elems c_rkey c_va (u32 (done + n))
        end
      else mret 0
  end.
Definition ionic_datapath_fmt_convert (stack : list Z) (src_fmt dst_fmt a_lkey a_va in_len c_rkey c_va : Z) : DP Z :=
  if in_len =? 0 then mret (- EINVAL)
  else if negb (p4_fmt_valid src_fmt) || negb (p4_fmt_valid dst_fmt) then mret (- EINVAL)
  else if IONIC_FP8_MAP_MAX * FMT_MAX_ELEM_BYTES <? in_len then mret (- EINVAL)
  else
    let n_elems := p4_fmt_elems src_fmt in_len in
    if n_elems =? 0 then mret (- EINVAL)
    else if IONIC_FP8_MAP_MAX <? n_elems then mret (- EINVAL)
    else
      let out_len := p4_fmt_bytes dst_fmt n_elems in
      if out_len =? 0 then mret (- EINVAL)
      else
        ok ← gets (fun s => fp8_key_ok a_lkey a_va in_len s && fp8_key_ok c_rkey c_va (u32 out_len) s);
        if negb (ok : bool) then mret (- EACCES)
        else
          mem ← alloc;
          if negb (mem : bool) then mret (- ENOMEM)
          else
            inp ← ionic_dp_sge_to_host a_lkey a_va in_len;
            if negb (Z.of_nat (length inp) =? in_len) then mret (- EFAULT)
            else fmt_convert_loop (Z.to_nat n_elems) src_fmt dst_fmt inp stack n_elems c_rkey c_va 0.

(** ** The extern *)
(** What a call is given of the work request. *)
Record dp_p4_ctx := DpP4Ctx { pc_src : dp_sge_list; pc_wqe : list Z; pc_read_sz : Z; pc_op : Z; pc_stack : list Z }.
Implicit Types c : dp_p4_ctx.
Definition is_write (op : Z) : bool := (op =? IONIC_V1_OP_RDMA_WRITE) || (op =? IONIC_V1_OP_RDMA_WRITE_IMM).
Definition dp_p4_fp8_map c (sel : Z) : DP Z :=
  if negb (is_write (pc_op c)) then mret DP_P4_NOT_COMPUTE
  else
    match sl_sges (pc_src c) with
    | [a; b] =>
        if negb (sg_len a =? sg_len b) then mret DP_P4_NOT_COMPUTE
        else if pc_read_sz c <? Z.of_nat WQE_SEND_LEN_OFF + 4 then mret (- EINVAL)
        else
          let remote_va := ernic_get_be64 (pc_wqe c) WQE_RDMA_VA_OFF in
          let rkey := ernic_get_be32 (pc_wqe c) WQE_RDMA_RKEY_OFF in
          if negb (ernic_get_be32 (pc_wqe c) WQE_SEND_LEN_OFF =? sl_total (pc_src c)) then mret (- EINVAL)
          else ionic_datapath_fp8_map sel (sg_lkey a) (sg_va a) (sg_lkey b) (sg_va b) (sg_len a) rkey remote_va
    | _ => mret DP_P4_NOT_COMPUTE
    end.
Definition dp_p4_fmt_convert c (src_fmt dst_fmt : Z) : DP Z :=
  if negb (is_write (pc_op c)) then mret DP_P4_NOT_COMPUTE
  else
    match sl_sges (pc_src c) with
    | [a] =>
        if pc_read_sz c <? Z.of_nat WQE_SEND_LEN_OFF + 4 then mret (- EINVAL)
        else
          let remote_va := ernic_get_be64 (pc_wqe c) WQE_RDMA_VA_OFF in
          let rkey := ernic_get_be32 (pc_wqe c) WQE_RDMA_RKEY_OFF in
          if negb (ernic_get_be32 (pc_wqe c) WQE_SEND_LEN_OFF =? sl_total (pc_src c)) then mret (- EINVAL)
          else ionic_datapath_fmt_convert (pc_stack c) src_fmt dst_fmt (sg_lkey a) (sg_va a) (sg_len a) rkey remote_va
    | _ => mret DP_P4_NOT_COMPUTE
    end.
(** A selector is the last byte of a value whose others are zero. *)
Definition sel_ok (v : list Z) : bool := forallb (fun b => b =? 0) (take (P4_VALUE_BYTES - 1) v).
Definition sel_of (v : list Z) : Z := u8 (bat v (P4_VALUE_BYTES - 1) 0).
(** The data path, and whether an extern did work. *)
Definition dp_p4_extern_call c (type method : Z) (args : list (list Z)) (x : ionic_datapath * bool) : Z * (ionic_datapath * bool) :=
  let run (m : DP Z) := let '(rc, s) := m x.1 in (rc, (s, (rc =? 0) || x.2)) in
  if negb (type =? P4_EXTERN_FP8) then (- ENOSYS, x)
  else if method =? P4_EXTERN_FP8_MAP then
    match args with
    | [sel] => if negb (sel_ok sel) then (- EINVAL, x) else run (dp_p4_fp8_map c (sel_of sel))
    | _ => (- ENOSYS, x)
    end
  else if method =? P4_EXTERN_FP8_CVT then
    match args with
    | [src; dst] => if negb (sel_ok src && sel_ok dst) then (- EINVAL, x) else run (dp_p4_fmt_convert c (sel_of src) (sel_of dst))
    | _ => (- ENOSYS, x)
    end
  else (- ENOSYS, x).

(** ** The policy *)
Definition p4_meta_of (qp_id op : Z) (wqe : list Z) (read_sz : Z) (src : dp_sge_list) (imm_be : Z) : p4_rdma_meta :=
  let keyed := is_write op || (op =? IONIC_V1_OP_RDMA_READ) in
  P4RdmaMeta op qp_id (sl_total src) (ernic_get_be32 (le32_bytes imm_be) 0)
    (if keyed && (Z.of_nat WQE_RDMA_RKEY_OFF + 4 <=? read_sz) then ernic_get_be32 wqe WQE_RDMA_RKEY_OFF else 0).
(** [Some status]: the request is done with. *)
Definition p4_outcome (rc : Z) (suppress ran : bool) : option Z :=
  if rc =? - ENOENT then None
  else if (rc =? DP_P4_NOT_COMPUTE) && negb ran then (if suppress then Some IONIC_STS_LOCAL_QP_OPER_ERR else None)
  else if rc <? 0 then Some IONIC_STS_LOCAL_QP_OPER_ERR
  else if ran && negb suppress then Some IONIC_STS_LOCAL_QP_OPER_ERR
  else if ran then Some IONIC_STS_OK
  else if suppress then Some IONIC_STS_LOCAL_QP_OPER_ERR
  else None.
Definition dp_p4_policy (stack : list Z) (eng : p4_engine) (qp_id op : Z) (wqe : list Z) (read_sz : Z) (src : dp_sge_list) (imm_be : Z) : DP (option Z) := fun s =>
  let c := DpP4Ctx src wqe read_sz op stack in
  let '(rc, suppress, (s, ran)) := p4_engine_process_rdma eng (Some (dp_p4_extern_call c)) (p4_meta_of qp_id op wqe read_sz src imm_be) (s, false) in
  (p4_outcome rc suppress ran, s).

(** The device with an engine, besides its other targets. *)
Definition p4_targets (stack : list Z) (eng : option p4_engine) (T : Targets) : Targets := {|
  ionic_dp_nvmeof_gsi := @ionic_dp_nvmeof_gsi E T;
  ionic_dp_nvmeof_rc_send := @ionic_dp_nvmeof_rc_send E T;
  ionic_dp_nvmeof_drop_qp := @ionic_dp_nvmeof_drop_qp E T;
  ionic_dp_p4_policy := dp_p4_policy stack <$> eng;
  ionic_dp_s3_has_work := @ionic_dp_s3_has_work E T;
  ionic_dp_s3_poll := @ionic_dp_s3_poll E T;
|}.
End p4.

(** ** Frames: memory, the fault and the allocations *)
Section frames.
Context {E : Env}.
Definition p4_flds : list fld := [FMem; FFault; FCalls].
Lemma fp8_map_loop_frame fuel op a b len key va done : keeps (frame p4_flds) (fp8_map_loop fuel op a b len key va done).
Proof. revert done. induction fuel as [|fuel IH]; intros done; cbn [fp8_map_loop]; frame_auto. Qed.
Hint Resolve fp8_map_loop_frame : frame.
Lemma fp8_map_frame op ak av bk bv len ck cv : keeps (frame p4_flds) (ionic_datapath_fp8_map op ak av bk bv len ck cv).
Proof. unfold ionic_datapath_fp8_map. frame_auto. Qed.
Lemma fmt_convert_loop_frame fuel sf df inp out n key va done : keeps (frame p4_flds) (fmt_convert_loop fuel sf df inp out n key va done).
Proof. revert out done. induction fuel as [|fuel IH]; intros out done; cbn [fmt_convert_loop]; frame_auto. Qed.
Hint Resolve fmt_convert_loop_frame : frame.
Lemma fmt_convert_frame st sf df ak av len ck cv : keeps (frame p4_flds) (ionic_datapath_fmt_convert st sf df ak av len ck cv).
Proof. unfold ionic_datapath_fmt_convert. frame_auto. Qed.
Hint Resolve fp8_map_frame fmt_convert_frame : frame.
Lemma fp8_method_frame c sel : keeps (frame p4_flds) (dp_p4_fp8_map c sel).
Proof. unfold dp_p4_fp8_map. frame_auto. Qed.
Lemma fmt_method_frame c sf df : keeps (frame p4_flds) (dp_p4_fmt_convert c sf df).
Proof. unfold dp_p4_fmt_convert. frame_auto. Qed.
(** A call is refused as it stands, or runs one of the two methods. *)
Definition ran_with (m : DP Z) (x : ionic_datapath * bool) : Z * (ionic_datapath * bool) := ((m x.1).1, ((m x.1).2, ((m x.1).1 =? 0) || x.2)).
Lemma call_cases c type method args x : let r := dp_p4_extern_call c type method args x in
  r = (- ENOSYS, x) \/ r = (- EINVAL, x) \/ (exists sel, r = ran_with (dp_p4_fp8_map c sel) x) \/ exists sf df, fits 8 sf /\ fits 8 df /\ r = ran_with (dp_p4_fmt_convert c sf df) x.
Proof.
  assert (forall m : DP Z, (let '(rc, s) := m x.1 in (rc, (s, (rc =? 0) || x.2))) = ran_with m x) as Hrun by (intros m; unfold ran_with; by destruct (m x.1)).
  unfold dp_p4_extern_call. destruct (negb (type =? _)); [by left|]. destruct (method =? P4_EXTERN_FP8_MAP).
  - destruct args as [|sel [|? ?]]; [by left| |by left]. destruct (negb (sel_ok sel)); [by right; left|]. rewrite Hrun. right; right; left. by eexists.
  - destruct (method =? P4_EXTERN_FP8_CVT); [|by left]. destruct args as [|sf [|df [|? ?]]]; [by left|by left| |by left].
    destruct (negb _); [by right; left|]. rewrite Hrun. right; right; right. exists (sel_of sf), (sel_of df). split_and!; [by apply wrap_fits..|done].
Qed.
Lemma call_frame c type method args x : frame p4_flds x.1 (dp_p4_extern_call c type method args x).2.1.
Proof.
  assert (forall m : DP Z, keeps (frame p4_flds) m -> frame p4_flds x.1 (ran_with m x).2.1) as Hrun by (intros m Hm; exact (Hm x.1)).
  destruct (call_cases c type method args x) as [->|[->|[(sel & ->)|(sf & df & _ & _ & ->)]]]; [reflexivity..| |]; apply Hrun; [apply fp8_method_frame|apply fmt_method_frame].
Qed.
End frames.

(** ** The calls a pipeline makes *)
Section calls.
Context {X : Type} (call : Z -> Z -> list (list Z) -> X -> Z * X).
Variable prog : p4_program.
(** Calls that each returned 0. *)
Inductive called (x : X) : X -> Prop :=
  | called_none : called x x
  | called_one x1 x2 type method args : called x x1 -> call type method args x1 = (0, x2) -> called x x2.
(** How a run that returns [rc] ends: after such calls, or at one that failed. *)
Inductive ended (x : X) : Z -> X -> Prop :=
  | ended_ok x' : called x x' -> ended x 0 x'
  | ended_loop x' : called x x' -> ended x (- ELOOP) x'
  | ended_failed x1 rc x' type method args : called x x1 -> call type method args x1 = (rc, x') -> rc <> 0 -> ended x rc x'.
Lemma called_trans x x1 x2 : called x x1 -> called x1 x2 -> called x x2.
Proof. intros H. induction 1 as [|y z type method args _ IH Hc]; [done|]. by eapply called_one. Qed.
Lemma ended_trans x x1 rc x2 : called x x1 -> ended x1 rc x2 -> ended x rc x2.
Proof.
  intros H [x' Hc|x' Hc|y rc' x' type method args Hc Hf Hn]; [apply ended_ok|apply ended_loop|eapply ended_failed; [|done..]]; by eapply called_trans.
Qed.
Lemma ended_called x x' : ended x 0 x' -> called x x'.
Proof. by inversion 1. Qed.
Lemma primitives_ended ps args phv dropped x : let r := run_primitives prog (Some call) ps args phv dropped x in ended x r.1 r.2.2.
Proof.
  revert phv dropped x. induction ps as [|p ps IH]; intros phv dropped x; cbn [run_primitives]; [apply ended_ok, called_none|].
  assert (ended x (run_primitive prog (Some call) p args phv dropped x).1 (run_primitive prog (Some call) p args phv dropped x).2.2) as Hp.
  { unfold run_primitive. destruct (pr_kind p); try apply ended_ok, called_none; [by destruct (_ =? _)%nat; apply ended_ok, called_none..|].
    destruct (call _ _ _ x) as [rc x'] eqn:Hc. cbn. destruct (decide (rc = 0)) as [->|Hn]; [eapply ended_ok, called_one; [apply called_none|done]|eapply ended_failed; [apply called_none|done..]]. }
  destruct (run_primitive _ _ p args phv dropped x) as [rc [[phv' dropped'] x']]. cbn [fst snd] in *. destruct (Z.eqb_spec rc 0) as [->|Hn]; cbn [negb]; [|done].
  eapply ended_trans; [by apply ended_called|]. apply IH.
Qed.
Lemma table_ended ent pipe i t phv dropped x : let r := run_table prog (Some call) ent pipe i t phv dropped x in ended x r.1.1 r.2.2.
Proof.
  unfold run_table, run_action. destruct (p4_entries_lookup _ _ _ _ _) as [hit|].
  - pose proof (primitives_ended (ac_primitives (elt (pg_actions prog) (ent_action hit))) (ent_params hit) phv dropped x) as H. by destruct (run_primitives _ _ _ _ _ _ _) as [rc [[? ?] ?]].
  - destruct (negb _); [|apply ended_ok, called_none].
    match goal with |- context [run_primitives _ _ ?ps ?args _ _ _] => pose proof (primitives_ended ps args phv dropped x) as H end. by destruct (run_primitives _ _ _ _ _ _ _) as [rc [[? ?] ?]].
Qed.
Lemma node_loop_ended ent pipe fuel pl node phv dropped x : let r := node_loop prog (Some call) ent pipe fuel pl node phv dropped x in ended x r.1 r.2.2.
Proof.
  revert node phv dropped x. induction fuel as [|fuel IH]; intros node phv dropped x; cbn [node_loop]; destruct (node =? _); try apply ended_ok, called_none; [apply ended_loop, called_none|].
  destruct (elt (pl_nodes pl) node) as [i|i]; [|apply IH].
  pose proof (table_ended ent pipe i (elt (pl_tables pl) i) phv dropped x) as Ht. destruct (run_table _ _ _ _ _ _ _ _ _) as [[rc next] [[phv' dropped'] x']]. cbn [fst snd] in *.
  destruct (Z.eqb_spec rc 0) as [->|Hn]; cbn [negb]; [|done]. eapply ended_trans; [by apply ended_called|]. apply IH.
Qed.
Lemma meta_ended ent meta x : let r := p4_exec_run_meta prog ent (Some call) meta x in r.2 = x \/ ended x r.1.1 r.2.
Proof.
  unfold p4_exec_run_meta. destruct (negb _); [by left|]. destruct (phv_init prog); [by left|]. right.
  match goal with |- context [run_pipeline _ _ _ ?p ?pl ?phv false x] => pose proof (node_loop_ended ent p (length (pl_nodes pl) + 1) pl (pl_init_node pl) phv false x) as H1 end.
  unfold run_pipeline in *. destruct (node_loop _ _ _ _ _ _ _ _ false x) as [rc [[phv1 dropped1] x1]]. cbn [fst snd] in *.
  destruct (Z.eqb_spec rc 0) as [->|Hn]; cbn [andb]; [|done]. destruct dropped1; cbn [negb]; [done|].
  match goal with |- context [node_loop _ _ _ ?p ?f ?pl ?nd ?phv false x1] => pose proof (node_loop_ended ent p f pl nd phv false x1) as H2 end.
  destruct (node_loop _ _ _ _ _ _ _ _ false x1) as [rc2 [[phv2 dropped2] x2]]. cbn [fst snd] in *. eapply ended_trans; [by apply ended_called|done].
Qed.
End calls.

(** ** The interface of the data path *)
Section laws.
Context {E : Env}.
Lemma called_frame c x x' : called (dp_p4_extern_call c) x x' -> frame p4_flds x.1 x'.1.
Proof. induction 1 as [|y z type method args _ IH Hc]; [reflexivity|]. rewrite IH. pose proof (call_frame c type method args y) as H. by rewrite Hc in H. Qed.
Lemma ended_frame c x rc x' : ended (dp_p4_extern_call c) x rc x' -> frame p4_flds x.1 x'.1.
Proof.
  intros [y H|y H|y rc' z type method args H Hc _]; [by eapply called_frame..|]. rewrite (called_frame _ _ _ H). pose proof (call_frame c type method args y) as Hf. by rewrite Hc in Hf.
Qed.
(** The run of the program over a request. *)
Definition p4_run (stack : list Z) (eng : p4_engine) (qp_id op : Z) (wqe : list Z) (read_sz : Z) (src : dp_sge_list) (imm_be : Z) s : Z * bool * (ionic_datapath * bool) :=
  p4_engine_process_rdma eng (Some (dp_p4_extern_call (DpP4Ctx src wqe read_sz op stack))) (p4_meta_of qp_id op wqe read_sz src imm_be) (s, false).
Lemma policy_run stack eng qp_id op wqe read_sz src imm s :
  let run := p4_run stack eng qp_id op wqe read_sz src imm s in
  dp_p4_policy stack eng qp_id op wqe read_sz src imm s = (p4_outcome run.1.1 run.1.2 run.2.2, run.2.1).
Proof. unfold dp_p4_policy, p4_run. by destruct (p4_engine_process_rdma _ _ _ _) as [[rc suppress] [s' ran]]. Qed.
Lemma run_ended stack eng qp_id op wqe read_sz src imm s :
  let run := p4_run stack eng qp_id op wqe read_sz src imm s in
  run.2 = (s, false) \/ ended (dp_p4_extern_call (DpP4Ctx src wqe read_sz op stack)) (s, false) run.1.1 run.2.
Proof.
  cbv zeta. unfold p4_run, p4_engine_process_rdma. destruct (eg_prog eng) as [prog|]; [|by left].
  pose proof (meta_ended (dp_p4_extern_call (DpP4Ctx src wqe read_sz op stack)) prog (eg_entries eng) (p4_meta_of qp_id op wqe read_sz src imm) (s, false)) as H.
  by destruct (p4_exec_run_meta _ _ _ _ _) as [[rc er] x].
Qed.
Lemma policy_frame stack eng qp_id op wqe read_sz src imm : keeps (frame p4_flds) (dp_p4_policy stack eng qp_id op wqe read_sz src imm).
Proof.
  intros s. rewrite policy_run. cbn [snd]. destruct (run_ended stack eng qp_id op wqe read_sz src imm s) as [H|H]; [rewrite H; reflexivity|].
  exact (ended_frame _ _ _ _ H).
Qed.
Lemma p4_targets_laws stack eng (T : Targets) : @TargetsLaws E T -> @TargetsLaws E (p4_targets stack eng T).
Proof.
  intros L. split; cbn; try apply L; intros f q op w n l i [e [-> ->]]%fmap_Some_1; pose proof (policy_frame stack e q op w n l i) as H.
  - by eapply frame_weaken.
  - by eapply quiet_frame.
  - intros s j. unfold cq_at. pose proof (H s FCq ltac:(by apply (bool_decide_unpack _))) as Hc. cbn in Hc. by rewrite Hc.
Qed.
End laws.

(** ** What reaches guest memory *)
Section mem.
Context {E : Env} {ML : GuestMemLaws Mem}.
Lemma wrote_src addr src src' len done n (m m' : Mem) :
  (forall i, done <= i < len -> src !!! Z.to_nat i = src' !!! Z.to_nat i) -> wrote addr src len done n m m' -> wrote addr src' len done n m m'.
Proof. intros Hs [R C M W]. split; [done..|]. intros i x Hinj Hi Hx. rewrite <-Hs by lia. by apply W. Qed.
(** A block of [src], from byte [done] on. *)
Lemma put_block key va src buf done n s :
  mrs_wf s -> 0 <= done -> 0 <= n < 2 ^ 32 -> n <= Z.of_nat (length buf) ->
  (forall i, 0 <= i < n -> buf !!! Z.to_nat i = src !!! Z.to_nat (done + i)) ->
  let r := ionic_dp_host_to_sge key (u64 (va + done)) buf n s in
  wrote (addr_at s key va) src (done + n) done (done + r.1) (dp_mem s) (dp_mem r.2) /\
  (r.1 < n -> addr_at s key va (done + r.1) = None \/ dp_fault r.2 <> IONIC_STS_OK).
Proof.
  intros Hwf Hd Hn Hl Hb. cbv zeta. destruct (host_to_sge_spec key (u64 (va + done)) buf n s Hwf Hn Hl) as (Hw & Hs & _).
  assert (forall i, addr_at s key (u64 (va + done)) (i - done) = addr_at s key va i) as Ha.
  { intros i. unfold addr_at. f_equal. unfold wrap. rewrite Zplus_mod_idemp_l. f_equal. lia. }
  set (r := ionic_dp_host_to_sge _ _ _ _ _) in *. split.
  - apply wrote_ext with (addr := fun i => addr_at s key (u64 (va + done)) (i - done)); [intros; apply Ha|]. apply wrote_shift; [done|].
    eapply wrote_src; [|exact Hw]. intros i Hi. rewrite Hb, lookup_total_drop by lia. f_equal. lia.
  - intros Hlt. rewrite <-Ha. replace (done + r.1 - done) with r.1 by lia. by apply Hs.
Qed.

(** [src] is stored from byte [done] on, to its end or to a byte that cannot be. *)
Definition put_post s key va src len done rc s' : Prop := exists n,
  wrote (addr_at s key va) src len done n (dp_mem s) (dp_mem s') /\
  (rc = 0 /\ n = len \/ rc = - EFAULT /\ n < len /\ (addr_at s key va n = None \/ dp_fault s' <> IONIC_STS_OK)).
Lemma put_step key va src buf len done n (rest : DP Z) s :
  mrs_wf s -> 0 <= done -> 0 <= n < 2 ^ 32 -> done + n <= len -> n <= Z.of_nat (length buf) ->
  (forall i, 0 <= i < n -> buf !!! Z.to_nat i = src !!! Z.to_nat (done + i)) ->
  (forall s1, dp_mrs s1 = dp_mrs s -> put_post s1 key va src len (done + n) (rest s1).1 (rest s1).2) ->
  let r := (k ← ionic_dp_host_to_sge key (u64 (va + done)) buf n; if negb (k =? n) then mret (- EFAULT) else rest) s in
  put_post s key va src len done r.1 r.2.
Proof.
  intros Hwf Hd Hn Hle Hl Hb Hrest. cbv zeta. rewrite run_bind.
  destruct (put_block key va src buf done n s Hwf Hd Hn Hl Hb) as [Hw Hs]. frame_fact (ionic_dp_host_to_sge key (u64 (va + done)) buf n) s FMr Hm.
  destruct (ionic_dp_host_to_sge _ _ _ _ s) as [k s1]. cbn [fst snd] in *. destruct (Z.eqb_spec k n) as [->|Hk]; cbn [negb].
  - destruct (Hrest s1 Hm) as (n' & Hw' & Hc). rewrite (addr_at_mrs _ _ Hm) in Hw', Hc. exists n'. split; [|done]. by eapply wrote_trans.
  - pose proof (wr_range _ _ _ _ _ _ _ Hw). exists (done + k). split; [by eapply wrote_len|]. right. split_and!; [done|lia|]. apply Hs. lia.
Qed.

(** *** The FP8 map *)
Lemma fp8_combine_valid op fa fb : is_Some (fp8_combine op fa fb) <-> fp8_op op.
Proof.
  unfold fp8_combine, fp8_op. destruct (Z.eqb_spec op P4_FP8_OP_ADD), (Z.eqb_spec op P4_FP8_OP_MUL), (Z.eqb_spec op P4_FP8_OP_MAX); (split; [intros H|]); auto; try by eexists.
  - by destruct H.
  - intros [?|[?|?]]; done.
Qed.
#[local] Instance fp8_op_dec op : Decision (fp8_op op).
Proof. unfold fp8_op. apply _. Defined.
Lemma fp8_map_valid op a b : fp8_op op -> p4_fp8_map op a b = Some (zip_with (fp8_element op) a b).
Proof. intros [r Hr]%(fp8_combine_valid op 0 0). unfold p4_fp8_map. by rewrite Hr. Qed.
Lemma fp8_map_invalid op a b : ~ fp8_op op -> p4_fp8_map op a b = None.
Proof. intros Hn. unfold p4_fp8_map. destruct (fp8_combine op 0 0) eqn:He; [|done]. destruct Hn. by apply (fp8_combine_valid op 0 0). Qed.
Lemma fp8_map_loop_spec fuel op a b len key va done s :
  mrs_wf s -> fp8_op op -> Z.of_nat (length a) = len -> Z.of_nat (length b) = len -> 0 <= done <= len -> len - done <= Z.of_nat fuel ->
  let r := fp8_map_loop fuel op a b len key va done s in put_post s key va (zip_with (fp8_element op) a b) len done r.1 r.2.
Proof.
  intros Hwf Hop Ha Hb. revert done s Hwf. induction fuel as [|fuel IH]; intros done s Hwf Hd Hf; cbn [fp8_map_loop]; destruct (Z.ltb_spec done len) as [Hlt|Hge].
  1: lia. 1, 3: exists len; split; [replace done with len by lia; by apply wrote_stop|left; by split].
  set (n := if FP8_MAP_CHUNK <? len - done then FP8_MAP_CHUNK else len - done).
  assert (0 < n <= len - done /\ n < 2 ^ 32) as [Hn Hn'] by (unfold n, FP8_MAP_CHUNK; destruct (Z.ltb_spec 2048 (len - done)); lia).
  rewrite fp8_map_valid by done. apply put_step; try lia; [done| | |].
  - rewrite length_zip_with, !length_bslice by lia. lia.
  - intros i Hi. unfold bslice. rewrite <-zip_with_take, <-zip_with_drop. fold (bslice (zip_with (fp8_element op) a b) (Z.to_nat done) (Z.to_nat n)).
    rewrite bslice_lookup_total by lia. f_equal. lia.
  - intros s1 Hm. apply IH; [by eapply mrs_wf_mrs|lia..].
Qed.
(** A byte of a transfer that no address serves. *)
Definition unmapped s key va len : Prop := exists i, 0 <= i < len /\ addr_at s key va i = None.
(** An operand, staged whole or not at all. *)
Lemma staged key va len s :
  mrs_wf s -> 0 <= len < 2 ^ 32 ->
  let r := ionic_dp_sge_to_host key va len s in
  dp_mem r.2 = dp_mem s /\ dp_mrs r.2 = dp_mrs s /\ (Z.of_nat (length r.1) <> len -> dp_fault r.2 <> IONIC_STS_OK \/ unmapped s key va len) /\
  bytes_ok r.1 /\
  (Z.of_nat (length r.1) = len -> forall i, 0 <= i < len -> exists x, addr_at s key va i = Some x /\ r.1 !!! Z.to_nat i = peek (dp_mem s) x).
Proof.
  intros Hwf Hl. cbv zeta. destruct (sge_to_host_spec key va len s Hwf Hl) as [R _ Rd Sh _].
  frame_fact (ionic_dp_sge_to_host key va len) s FMr Hm. frame_fact (ionic_dp_sge_to_host key va len) s FMem Hmm. set (r := ionic_dp_sge_to_host key va len s) in *. cbn [length] in *.
  split_and!; [done|done| | |].
  - intros Hne. destruct (Sh ltac:(lia)) as [H|H]; [|by left]. right. exists (Z.of_nat (length r.1)). split; [lia|done].
  - apply Forall_lookup_2. intros i v Hv. pose proof (lookup_lt_Some _ _ _ Hv). destruct (Rd i ltac:(lia)) as (x & _ & Hx). simplify_eq. apply peek_byte.
  - intros He i Hi. destruct (Rd (Z.to_nat i) ltac:(lia)) as (x & Hx & Hv). rewrite Z2Nat.id in Hx by lia. exists x. split; [done|]. by apply list_lookup_total_correct.
Qed.
Lemma element_byte op a b v : byte_ok a -> byte_ok b -> element_ok op a b v -> byte_ok v.
Proof.
  intros Ha Hb. unfold element_ok, byte_ok, fits in *. case_decide; [|intros ->; done].
  case_decide; [intros [[Hv _] _]; exact Hv|]. case_decide; [intros [[Hv _] _]; exact Hv|]. intros [[->| ->] _]; done.
Qed.
(** Every element of the destination, from the operands as they were. *)
Definition fp8_mapped op s ak av bk bv ck cv len s' : Prop := forall i, 0 <= i < len -> exists x y z,
  addr_at s ak av i = Some x /\ addr_at s bk bv i = Some y /\ addr_at s ck cv i = Some z /\
  (addr_inj (addr_at s ck cv) 0 len -> element_ok op (peek (dp_mem s) x) (peek (dp_mem s) y) (peek (dp_mem s') z)).
(** How the map ends once it has its staging buffer. *)
Definition fp8_map_post op s ak av bk bv ck cv len rc s' : Prop :=
  (forall x, peek (dp_mem s') x <> peek (dp_mem s) x -> exists i, 0 <= i < len /\ addr_at s ck cv i = Some x) /\
  (rc = 0 /\ fp8_op op /\ fp8_mapped op s ak av bk bv ck cv len s' \/
   rc = - EINVAL /\ ~ fp8_op op /\ dp_mem s' = dp_mem s \/
   rc = - EFAULT /\ (dp_fault s' <> IONIC_STS_OK \/ unmapped s ak av len \/ unmapped s bk bv len \/ unmapped s ck cv len)).
Lemma fp8_map_post_ext op s0 s ak av bk bv ck cv len rc s' : dp_mrs s0 = dp_mrs s -> dp_mem s0 = dp_mem s ->
  fp8_map_post op s0 ak av bk bv ck cv len rc s' -> fp8_map_post op s ak av bk bv ck cv len rc s'.
Proof. intros Hr Hm. unfold fp8_map_post, fp8_mapped, unmapped. by rewrite (addr_at_mrs _ _ Hr), Hm. Qed.
Lemma fp8_map_staged op ak av bk bv ck cv len s :
  mrs_wf s -> 0 < len <= IONIC_FP8_MAP_MAX ->
  let r := (a ← ionic_dp_sge_to_host ak av len;
    if negb (Z.of_nat (length a) =? len) then mret (- EFAULT)
    else
      b ← ionic_dp_sge_to_host bk bv len;
      if negb (Z.of_nat (length b) =? len) then mret (- EFAULT)
      else fp8_map_loop (Z.to_nat len) op a b len ck cv 0 : DP Z) s in
  fp8_map_post op s ak av bk bv ck cv len r.1 r.2.
Proof.
  intros Hwf Hl. unfold IONIC_FP8_MAP_MAX in Hl. cbv zeta. rewrite run_bind. destruct (staged ak av len s Hwf ltac:(lia)) as (M1 & R1 & F1 & B1 & V1).
  destruct (ionic_dp_sge_to_host ak av len s) as [a s1]. cbn [fst snd] in *.
  destruct (Z.eqb_spec (Z.of_nat (length a)) len) as [La|La]; cbn [negb].
  2: { split; cbn; [by rewrite M1|]. right; right. split; [done|]. destruct (F1 La); auto. }
  rewrite run_bind. destruct (staged bk bv len s1 (mrs_wf_mrs _ _ R1 Hwf) ltac:(lia)) as (M2 & R2 & F2 & B2 & V2). unfold unmapped in F2. rewrite (addr_at_mrs _ _ R1) in F2, V2. rewrite M1 in M2, V2.
  destruct (ionic_dp_sge_to_host bk bv len s1) as [b s2]. cbn [fst snd] in *.
  destruct (Z.eqb_spec (Z.of_nat (length b)) len) as [Lb|Lb]; cbn [negb].
  2: { split; cbn; [by rewrite M2|]. right; right. split; [done|]. destruct (F2 Lb); auto. }
  assert (dp_mrs s2 = dp_mrs s) as Hm by congruence.
  destruct (decide (fp8_op op)) as [Hop|Hop].
  2: { replace (Z.to_nat len) with (S (Z.to_nat (len - 1))) by lia. cbn [fp8_map_loop]. rewrite (proj2 (Z.ltb_lt 0 len)) by lia. rewrite fp8_map_invalid by done.
       split; cbn; [by rewrite M2|]. by right; left. }
  destruct (fp8_map_loop_spec (Z.to_nat len) op a b len ck cv 0 s2) as (n & [R C M W] & Hc); [by eapply mrs_wf_mrs|done|done|done|lia|lia|]. rewrite (addr_at_mrs _ _ Hm) in *. rewrite M2 in C.
  split; [exact C|]. destruct Hc as [[-> ->]|(-> & Hn & Hc)].
  - left. split_and!; [done|done|]. intros i Hi. destruct (V1 La i Hi) as (x & Hx & Ea), (V2 Lb i Hi) as (y & Hy & Eb), (M i Hi) as [z Hz].
    exists x, y, z. split_and!; [done..|]. intros Hinj. rewrite (W i z Hinj Hi Hz).
    rewrite (list_lookup_total_correct _ _ (fp8_element op (peek (dp_mem s) x) (peek (dp_mem s) y))).
    + rewrite wrap_id; [by apply element_spec; [|apply peek_byte..]|]. eapply element_byte; [apply peek_byte..|]. apply element_spec; [done|apply peek_byte..].
    + rewrite lookup_zip_with, <-Ea, <-Eb. rewrite !list_lookup_lookup_total_lt by lia. done.
  - right; right. split; [done|]. destruct Hc; [|by left]. right; right; right. exists n. split; [lia|done].
Qed.
Lemma fp8_map_ends op ak av bk bv len ck cv s :
  mrs_wf s -> fits 32 len ->
  let r := ionic_datapath_fp8_map op ak av bk bv len ck cv s in
  if (len =? 0) || (IONIC_FP8_MAP_MAX <? len) then r = (- EINVAL, s)
  else if negb (fp8_key_ok ak av len s && fp8_key_ok bk bv len s && fp8_key_ok ck cv len s) then r = (- EACCES, s)
  else if negb (alloc_ok (dp_calls s)) then r.1 = - ENOMEM /\ dp_mem r.2 = dp_mem s
  else fp8_map_post op s ak av bk bv ck cv len r.1 r.2.
Proof.
  intros Hwf Hl. cbv zeta. unfold ionic_datapath_fp8_map, fits in *. destruct (_ || _) eqn:Hlen; [done|]. apply orb_false_iff in Hlen as [H0 H1].
  apply Z.eqb_neq in H0. apply Z.ltb_ge in H1. rewrite run_bind. cbn [fst snd gets]. destruct (_ && _); cbn [negb]; [|done].
  rewrite run_bind. cbn [fst snd alloc]. destruct (alloc_ok _); cbn [negb]; [|done].
  apply (fp8_map_post_ext _ (s <| dp_calls ::= S |>)); [done..|]. apply fp8_map_staged; [done|lia].
Qed.

(** *** Format conversion *)
Lemma bat_drop (b : list Z) k off i : bat (drop k b) off i = bat b (k + off) i.
Proof. unfold bat. rewrite lookup_total_drop. f_equal. lia. Qed.
Lemma bat_take (b : list Z) k off i : (off + i < k)%nat -> bat (take k b) off i = bat b off i.
Proof. intros. unfold bat. by rewrite lookup_total_take_lt. Qed.
(** Past a whole number of bytes, and up to one. *)
Lemma fmt_load_drop f b k j i : 0 <= f <= 5 -> Z.of_nat j * p4_fmt_bits f = 8 * Z.of_nat k -> fmt_load f (drop k b) i = fmt_load f b (j + i)%nat.
Proof.
  intros Hf Hj. each_width Hf; unfold ernic_get_le16, ernic_get_le32; rewrite !bat_drop.
  - assert (j = (k * 2)%nat) as -> by lia. rewrite Nat.div_add_l by lia. by rewrite Nat.odd_add, Nat.odd_mul, andb_false_r.
  - by replace k with j by lia.
  - by replace (k + 2 * i)%nat with (2 * (j + i))%nat by lia.
  - by replace (k + 4 * i)%nat with (4 * (j + i))%nat by lia.
Qed.
Lemma fmt_load_take f b k n i : 0 <= f <= 5 -> Z.of_nat n * p4_fmt_bits f = 8 * Z.of_nat k -> (i < n)%nat -> fmt_load f (take k b) i = fmt_load f b i.
Proof.
  intros Hf Hn Hi. each_width Hf; unfold ernic_get_le16, ernic_get_le32; [pose proof (half_lt i k ltac:(lia))|..]; by rewrite !bat_take by lia.
Qed.
(** What a conversion in one pass would give. *)
Definition fmt_whole sf df n (inp outp : list Z) : Prop := forall i, (i < n)%nat -> fmt_load df outp i = recode sf df (fmt_load sf inp i).
(** A pass over [n] elements from element [j] on, at byte [ks] of the source
    and [kd] of the destination, gives the [m] bytes there of the whole. *)
Lemma convert_chunk sf df inp outp out j n ks kd k m :
  0 <= sf <= 5 -> 0 <= df <= 5 -> bytes_ok inp -> bytes_ok outp -> bytes_ok out -> Z.of_nat n < 2 ^ 58 ->
  Z.of_nat j * p4_fmt_bits sf = 8 * Z.of_nat ks -> Z.of_nat j * p4_fmt_bits df = 8 * Z.of_nat kd ->
  Z.of_nat n * p4_fmt_bits sf = 8 * k -> Z.of_nat n * p4_fmt_bits df = 8 * Z.of_nat m ->
  (m <= length out)%nat -> (kd + m <= length outp)%nat -> fmt_whole sf df (j + n) inp outp ->
  exists r, p4_fmt_convert sf df (drop ks inp) n out = Some r /\ bytes_ok r /\ length r = length out /\ forall i, (i < m)%nat -> r !!! i = outp !!! (kd + i)%nat.
Proof.
  intros Hs Hd Hi Hw Ho Hn Hjs Hjd Hns Hnd Hm Hkm Hel.
  destruct (convert_exact sf df n (drop ks inp) out k (Z.of_nat m)) as (r & Hr & Hrb & Hrl & Hre); try done; [by apply Forall_drop|lia|].
  exists r. split_and!; [done..|]. intros i Him.
  assert (take m r = bslice outp kd m) as He.
  { apply (fmt_load_ext df n); try done.
    - by apply Forall_take.
    - by apply Forall_take, Forall_drop.
    - rewrite length_take. lia.
    - rewrite length_bslice, length_take by lia. lia.
    - intros e He. unfold bslice. rewrite (fmt_load_take _ _ _ n), (fmt_load_take _ _ _ n), (fmt_load_drop _ _ _ j), Hre, Hel, (fmt_load_drop _ _ _ j) by (done || lia). done. }
  rewrite <-(bslice_lookup_total outp kd m) by done. by rewrite <-He, lookup_total_take_lt.
Qed.
Lemma fmt_convert_loop_spec fuel sf df inp outp out N key va done ks kd s :
  mrs_wf s -> 0 <= sf <= 5 -> 0 <= df <= 5 -> bytes_ok inp -> bytes_ok outp -> bytes_ok out ->
  Z.of_nat (length out) = FMT_CVT_CHUNK_ELEMS * FMT_MAX_ELEM_BYTES -> 0 <= N <= IONIC_FP8_MAP_MAX ->
  N * p4_fmt_bits sf = 8 * Z.of_nat (length inp) -> N * p4_fmt_bits df = 8 * Z.of_nat (length outp) -> fmt_whole sf df (Z.to_nat N) inp outp ->
  0 <= done <= N -> N - done <= Z.of_nat fuel -> 0 <= ks -> 0 <= kd -> done * p4_fmt_bits sf = 8 * ks -> done * p4_fmt_bits df = 8 * kd ->
  let r := fmt_convert_loop fuel sf df inp out N key va done s in put_post s key va outp (Z.of_nat (length outp)) kd r.1 r.2.
Proof.
  intros Hwf Hs Hd Hi Hw Ho Hlo HN Hns Hnd Hel. unfold IONIC_FP8_MAP_MAX, FMT_CVT_CHUNK_ELEMS, FMT_MAX_ELEM_BYTES in *.
  assert (0 < p4_fmt_bits df <= 32 /\ 0 < p4_fmt_bits sf <= 32) as [Hdb Hsb] by (destruct (widths df Hd), (widths sf Hs); lia).
  revert out Ho Hlo done ks kd s Hwf. induction fuel as [|fuel IH]; intros out Ho Hlo done ks kd s Hwf Hdone Hf Hks Hkd Hds Hdd; cbn [fmt_convert_loop]; destruct (Z.ltb_spec done N) as [Hlt|Hge].
  1: lia. 1, 3: exists kd; assert (kd = Z.of_nat (length outp)) as -> by nia; split; [by apply wrote_stop|left; by split].
  unfold FMT_CVT_CHUNK_ELEMS. set (n := if 512 <? N - done then 512 else N - done).
  assert (exists k m, n * p4_fmt_bits sf = 8 * k /\ n * p4_fmt_bits df = 8 * m /\ 0 < n <= 512 /\ done + n <= N) as (k & m & Hk & Hm & Hn & Hle).
  { unfold n. destruct (Z.ltb_spec 512 (N - done)); [exists (64 * p4_fmt_bits sf), (64 * p4_fmt_bits df)|exists (Z.of_nat (length inp) - ks), (Z.of_nat (length outp) - kd)]; lia. }
  assert (0 < m <= 2048 /\ kd + m <= Z.of_nat (length outp)) as [Hm1 Hm2] by nia.
  assert (forall f e x, 0 <= f <= 5 -> 0 <= e <= 262144 -> e * p4_fmt_bits f = 8 * x -> p4_fmt_bytes f e = x) as Hbytes.
  { intros f e x ? ? He. rewrite <-(Z2Nat.id e) in * by lia. apply fmt_bytes_whole; [done..|lia]. }
  rewrite !(Hbytes sf done ks), !(Hbytes df done kd), !(Hbytes df n m) by (done || lia).
  destruct (convert_chunk sf df inp outp out (Z.to_nat done) (Z.to_nat n) (Z.to_nat ks) (Z.to_nat kd) k (Z.to_nat m)) as (r & -> & Hrb & Hrl & Hre); try done; try lia.
  { intros i ?. apply Hel. lia. }
  rewrite !(wrap_id 32) by (unfold fits; lia). apply put_step; [done|lia..| |].
  - intros i ?. rewrite Hre by lia. f_equal. lia.
  - intros s1 Hmr. apply (IH r Hrb ltac:(lia) _ (ks + k) (kd + m)); [by eapply mrs_wf_mrs|lia..].
Qed.
(** The destination's bytes are those of the converted array, and its
    elements the source's, as they were, recoded. *)
Definition fmt_converted sf df s ak av in_len ck cv s' : Prop := exists inp outp,
  let n := Z.to_nat (p4_fmt_elems sf in_len) in
  Z.of_nat (length inp) = in_len /\ Z.of_nat (length outp) = p4_fmt_bytes df (p4_fmt_elems sf in_len) /\ fmt_whole sf df n inp outp /\
  (forall i, 0 <= i < in_len -> exists x, addr_at s ak av i = Some x /\ inp !!! Z.to_nat i = peek (dp_mem s) x) /\
  (forall i, 0 <= i < Z.of_nat (length outp) -> exists z, addr_at s ck cv i = Some z /\
     (addr_inj (addr_at s ck cv) 0 (Z.of_nat (length outp)) -> peek (dp_mem s') z = outp !!! Z.to_nat i)).
Definition fmt_convert_post sf df s ak av in_len ck cv rc s' : Prop :=
  let out_len := p4_fmt_bytes df (p4_fmt_elems sf in_len) in
  (forall x, peek (dp_mem s') x <> peek (dp_mem s) x -> exists i, 0 <= i < out_len /\ addr_at s ck cv i = Some x) /\
  (rc = 0 /\ fmt_converted sf df s ak av in_len ck cv s' \/
   rc = - EFAULT /\ (dp_fault s' <> IONIC_STS_OK \/ unmapped s ak av in_len \/ unmapped s ck cv out_len)).
Lemma fmt_convert_post_ext sf df s0 s ak av in_len ck cv rc s' : dp_mrs s0 = dp_mrs s -> dp_mem s0 = dp_mem s ->
  fmt_convert_post sf df s0 ak av in_len ck cv rc s' -> fmt_convert_post sf df s ak av in_len ck cv rc s'.
Proof. intros Hr Hm. unfold fmt_convert_post, fmt_converted, unmapped. by rewrite (addr_at_mrs _ _ Hr), Hm. Qed.
Lemma fmt_elems_whole f len : 0 <= f <= 5 -> fits 32 len -> p4_fmt_elems f len <> 0 -> p4_fmt_elems f len * p4_fmt_bits f = 8 * len.
Proof.
  intros Hf Hl. unfold p4_fmt_elems, fits in *. destruct (Z.eqb_spec (p4_fmt_bits f) 0); [done|]. rewrite wrap_id by (unfold fits; lia).
  destruct (Z.eqb_spec (len * 8 mod p4_fmt_bits f) 0) as [Hm|]; cbn [negb]; [|done]. intros _. pose proof (Z.div_mod (len * 8) (p4_fmt_bits f) ltac:(done)). lia.
Qed.
Lemma fmt_bytes_exact f n : 0 <= f <= 5 -> 0 <= n <= IONIC_FP8_MAP_MAX -> p4_fmt_bytes f n <> 0 -> n * p4_fmt_bits f = 8 * p4_fmt_bytes f n.
Proof.
  intros Hf Hn. unfold p4_fmt_bytes, IONIC_FP8_MAP_MAX in *. destruct (Z.eqb_spec (p4_fmt_bits f) 0); [done|]. rewrite wrap_id by (unfold fits; destruct (widths f Hf); lia).
  destruct (Z.eqb_spec (n * p4_fmt_bits f mod 8) 0) as [Hm|]; cbn [negb]; [|done]. intros _. pose proof (Z.div_mod (n * p4_fmt_bits f) 8 ltac:(done)). lia.
Qed.
Lemma fmt_convert_staged stack sf df ak av in_len ck cv s :
  let n := p4_fmt_elems sf in_len in let out_len := p4_fmt_bytes df n in
  mrs_wf s -> 0 <= sf <= 5 -> 0 <= df <= 5 -> bytes_ok stack -> Z.of_nat (length stack) = FMT_CVT_CHUNK_ELEMS * FMT_MAX_ELEM_BYTES ->
  fits 32 in_len -> 0 < n <= IONIC_FP8_MAP_MAX -> 0 < out_len ->
  let r := (inp ← ionic_dp_sge_to_host ak av in_len;
    if negb (Z.of_nat (length inp) =? in_len) then mret (- EFAULT)
    else fmt_convert_loop (Z.to_nat n) sf df inp stack n ck cv 0 : DP Z) s in
  fmt_convert_post sf df s ak av in_len ck cv r.1 r.2.
Proof.
  intros n out_len Hwf Hs Hd Hst Hsl Hl Hn Hol. cbv zeta. rewrite run_bind. destruct (staged ak av in_len s Hwf Hl) as (M1 & R1 & F1 & B1 & V1).
  destruct (ionic_dp_sge_to_host ak av in_len s) as [inp s1]. cbn [fst snd] in *. destruct (Z.eqb_spec (Z.of_nat (length inp)) in_len) as [La|La]; cbn [negb].
  2: { split; cbn; [by rewrite M1|]. right. split; [done|]. destruct (F1 La); auto. }
  pose proof (fmt_elems_whole sf in_len Hs Hl ltac:(lia)) as Hns. fold n in Hns. pose proof (fmt_bytes_exact df n Hd ltac:(lia) ltac:(lia)) as Hnd. fold out_len in Hnd.
  destruct (convert_exact sf df (Z.to_nat n) inp (replicate (Z.to_nat out_len) 0) in_len out_len) as (outp & _ & Hob & Hlo & Hel); try done; try (unfold IONIC_FP8_MAP_MAX in *; lia).
  { by apply Forall_replicate. } { rewrite length_replicate. lia. }
  rewrite length_replicate in Hlo.
  destruct (fmt_convert_loop_spec (Z.to_nat n) sf df inp outp stack n ck cv 0 0 0 s1) as (k & [R C M W] & Hc); try done; try lia; [by eapply mrs_wf_mrs|].
  rewrite (addr_at_mrs _ _ R1) in *. rewrite M1 in C. assert (Z.of_nat (length outp) = out_len) as Hlen by lia. rewrite Hlen in *. unfold fmt_convert_post. fold n out_len.
  split; [exact C|]. destruct Hc as [[-> ->]|(-> & Hk & Hc)].
  - left. split; [done|]. exists inp, outp. cbv zeta. fold n out_len. split_and!; [done|lia|done|by apply V1|]. rewrite Hlen. intros i Hi. destruct (M i Hi) as [z Hz]. exists z. split; [done|].
    intros Hinj. rewrite (W i z Hinj Hi Hz). apply wrap_id. apply (Forall_lookup_total_1 _ outp); [done|lia].
  - right. split; [done|]. destruct Hc; [|by left]. right; right. exists k. split; [lia|done].
Qed.

Lemma fmt_convert_ends stack sf df ak av in_len ck cv s :
  let n := p4_fmt_elems sf in_len in let out_len := p4_fmt_bytes df n in
  mrs_wf s -> fits 8 sf -> fits 8 df -> fits 32 in_len -> bytes_ok stack -> Z.of_nat (length stack) = FMT_CVT_CHUNK_ELEMS * FMT_MAX_ELEM_BYTES ->
  let r := ionic_datapath_fmt_convert stack sf df ak av in_len ck cv s in
  if negb (p4_fmt_valid sf && p4_fmt_valid df) || (n =? 0) || (IONIC_FP8_MAP_MAX <? n) || (out_len =? 0) then r = (- EINVAL, s)
  else if negb (fp8_key_ok ak av in_len s && fp8_key_ok ck cv out_len s) then r = (- EACCES, s)
  else if negb (alloc_ok (dp_calls s)) then r.1 = - ENOMEM /\ dp_mem r.2 = dp_mem s
  else fmt_convert_post sf df s ak av in_len ck cv r.1 r.2.
Proof.
  intros n out_len Hwf Hs Hd Hl Hst Hsl. cbv zeta. unfold ionic_datapath_fmt_convert. fold n out_len.
  destruct (p4_fmt_valid sf) eqn:Vs, (p4_fmt_valid df) eqn:Vd; cbn [negb andb orb]; try by destruct (in_len =? 0).
  apply valid_iff in Vs, Vd; try (unfold fits in *; lia).
  assert (0 < p4_fmt_bits sf <= 32) as Hsb by (destruct (widths sf Vs); lia).
  assert (n <> 0 -> n * p4_fmt_bits sf = 8 * in_len) as Hn by by apply fmt_elems_whole.
  destruct (Z.eqb_spec n 0) as [Hn0|Hn0]; cbn [orb].
  { by destruct (in_len =? 0), (IONIC_FP8_MAP_MAX * FMT_MAX_ELEM_BYTES <? in_len). }
  specialize (Hn Hn0). unfold fits in Hl. rewrite (proj2 (Z.eqb_neq in_len 0)) by lia. assert (0 < n) as Hpos by nia.
  destruct (Z.ltb_spec IONIC_FP8_MAP_MAX n) as [Hmax|Hmax]; cbn [orb]; [by destruct (IONIC_FP8_MAP_MAX * FMT_MAX_ELEM_BYTES <? in_len)|].
  rewrite (proj2 (Z.ltb_ge (IONIC_FP8_MAP_MAX * FMT_MAX_ELEM_BYTES) in_len)) by (unfold FMT_MAX_ELEM_BYTES; nia).
  destruct (Z.eqb_spec out_len 0) as [Ho|Ho]; [done|]. pose proof (fmt_bytes_exact df n Vd ltac:(lia) Ho) as Hnd. fold out_len in Hnd.
  assert (0 < out_len < 2 ^ 32) as Hol by (unfold IONIC_FP8_MAP_MAX in *; destruct (widths df Vd); lia). rewrite (wrap_id 32 out_len) by (unfold fits; lia).
  rewrite run_bind. cbn [fst snd gets]. destruct (_ && _); cbn [negb]; [|done]. rewrite run_bind. cbn [fst snd alloc]. destruct (alloc_ok _); cbn [negb]; [|done].
  apply (fmt_convert_post_ext _ _ (s <| dp_calls ::= S |>)); [done..|]. apply fmt_convert_staged; try done; fold n out_len; lia.
Qed.
End mem.

(** ** The policy *)
Section policy.
Context {E : Env} {ML : GuestMemLaws Mem}.
Definition stack_ok (stack : list Z) : Prop := bytes_ok stack /\ Z.of_nat (length stack) = FMT_CVT_CHUNK_ELEMS * FMT_MAX_ELEM_BYTES.
Definition p4_codes : list Z := [0; - EINVAL; - EACCES; - ENOMEM; - EFAULT].
(** Memory changes only where [key], which is not 0, covers a transfer from [va]. *)
Definition under_key (key va : Z) s s' : Prop := forall a, peek (dp_mem s') a <> peek (dp_mem s) a ->
  key <> 0 /\ exists i len, 0 <= i < len /\ ionic_dp_mr_covers key va len s = true /\ addr_at s key va i = Some a.
Lemma under_key_same key va s s' : dp_mem s' = dp_mem s -> under_key key va s s'.
Proof. intros Hm a. by rewrite Hm. Qed.
Lemma mr_covers_mrs s s' key va len : dp_mrs s' = dp_mrs s -> ionic_dp_mr_covers key va len s' = ionic_dp_mr_covers key va len s.
Proof. intros Hm. unfold ionic_dp_mr_covers, mr_find, mr_at. by rewrite Hm. Qed.
Lemma under_key_trans key va s s1 s2 : dp_mrs s1 = dp_mrs s -> under_key key va s s1 -> under_key key va s1 s2 -> under_key key va s s2.
Proof.
  intros Hm H1 H2 a Ha. destruct (decide (peek (dp_mem s2) a = peek (dp_mem s1) a)) as [He|He]; [apply H1; by rewrite <-He|].
  destruct (H2 a He) as (Hk & i & len & Hi & Hc & Hx). rewrite (addr_at_mrs _ _ Hm) in Hx. rewrite (mr_covers_mrs s) in Hc by done. by eauto 10.
Qed.
Lemma key_ok_under key va len s s' : fp8_key_ok key va len s = true ->
  (forall x, peek (dp_mem s') x <> peek (dp_mem s) x -> exists i, 0 <= i < len /\ addr_at s key va i = Some x) -> under_key key va s s'.
Proof. intros [Hk%negb_true_iff%Z.eqb_neq Hc]%andb_prop H a (i & Hi & Ha)%H. split; [done|]. by exists i, len. Qed.
Lemma fp8_map_effects op ak av bk bv len ck cv s : mrs_wf s -> fits 32 len ->
  let r := ionic_datapath_fp8_map op ak av bk bv len ck cv s in r.1 ∈ p4_codes /\ under_key ck cv s r.2.
Proof.
  intros Hwf Hl. pose proof (fp8_map_ends op ak av bk bv len ck cv s Hwf Hl) as H. cbv zeta in *. unfold p4_codes.
  destruct (_ || _); [rewrite H; split; [set_solver|by apply under_key_same]|]. destruct (_ && _) eqn:Hk; cbn [negb] in H; [|rewrite H; split; [set_solver|by apply under_key_same]].
  destruct (alloc_ok _); cbn [negb] in H; [|destruct H as [-> Hm]; split; [set_solver|by apply under_key_same]].
  apply andb_prop in Hk as [_ Hk]. destruct H as [Hc Ho]. split; [|by eapply key_ok_under]. destruct Ho as [[-> _]|[[-> _]|[-> _]]]; set_solver.
Qed.
Lemma fmt_convert_effects stack sf df ak av len ck cv s : mrs_wf s -> fits 8 sf -> fits 8 df -> fits 32 len -> stack_ok stack ->
  let r := ionic_datapath_fmt_convert stack sf df ak av len ck cv s in r.1 ∈ p4_codes /\ under_key ck cv s r.2.
Proof.
  intros Hwf Hs Hd Hl [Hst Hsl]. pose proof (fmt_convert_ends stack sf df ak av len ck cv s Hwf Hs Hd Hl Hst Hsl) as H. cbv zeta in *. unfold p4_codes.
  destruct (_ || _); [rewrite H; split; [set_solver|by apply under_key_same]|]. destruct (_ && _) eqn:Hk; cbn [negb] in H; [|rewrite H; split; [set_solver|by apply under_key_same]].
  destruct (alloc_ok _); cbn [negb] in H; [|destruct H as [-> Hm]; split; [set_solver|by apply under_key_same]].
  apply andb_prop in Hk as [_ Hk]. destruct H as [Hc Ho]. split; [|by eapply key_ok_under]. destruct Ho as [[-> _]|[-> _]]; set_solver.
Qed.

(** The work request of a call. *)
Record ctx_ok c : Prop := { co_stack : stack_ok (pc_stack c); co_wqe : bytes_ok (pc_wqe c); co_sges : Forall sge_ok (sl_sges (pc_src c)) }.
Definition wqe_rkey (wqe : list Z) : Z := ernic_get_be32 wqe WQE_RDMA_RKEY_OFF.
Definition wqe_va (wqe : list Z) : Z := ernic_get_be64 wqe WQE_RDMA_VA_OFF.
(** A method declines, or ends as an operation does. *)
Definition method_post c s rc s' : Prop :=
  rc = DP_P4_NOT_COMPUTE /\ s' = s \/ is_write (pc_op c) = true /\ rc ∈ p4_codes /\ under_key (wqe_rkey (pc_wqe c)) (wqe_va (pc_wqe c)) s s'.
Lemma method_refused c s : is_write (pc_op c) = true -> method_post c s (- EINVAL) s.
Proof. intros Hw. right. split_and!; [done|unfold p4_codes; set_solver|by apply under_key_same]. Qed.
Lemma fp8_map_method c sel s : ctx_ok c -> mrs_wf s -> let r := dp_p4_fp8_map c sel s in method_post c s r.1 r.2.
Proof.
  intros [_ _ Hg] Hwf. cbv zeta. unfold dp_p4_fp8_map. destruct (is_write (pc_op c)) eqn:Hw; cbn [negb]; [|by left].
  destruct (sl_sges (pc_src c)) as [|a [|b [|? ?]]]; try by left. apply Forall_cons in Hg as [(_ & Hl & _) _].
  destruct (sg_len a =? sg_len b); cbn [negb]; [|by left]. destruct (pc_read_sz c <? _); [by apply method_refused|]. destruct (_ =? sl_total _); cbn [negb]; [|by apply method_refused].
  right. split; [done|]. by apply fp8_map_effects.
Qed.
Lemma fmt_convert_method c sf df s : ctx_ok c -> mrs_wf s -> fits 8 sf -> fits 8 df -> let r := dp_p4_fmt_convert c sf df s in method_post c s r.1 r.2.
Proof.
  intros [Hst _ Hg] Hwf Hs Hd. cbv zeta. unfold dp_p4_fmt_convert. destruct (is_write (pc_op c)) eqn:Hw; cbn [negb]; [|by left].
  destruct (sl_sges (pc_src c)) as [|a [|? ?]]; try by left. apply Forall_cons in Hg as [(_ & Hl & _) _].
  destruct (pc_read_sz c <? _); [by apply method_refused|]. destruct (_ =? sl_total _); cbn [negb]; [|by apply method_refused].
  right. split; [done|]. by apply fmt_convert_effects.
Qed.
(** One call: a failed one that ran nothing declined, or was refused. *)
Record call_post c (x : ionic_datapath * bool) (rc : Z) (x' : ionic_datapath * bool) : Prop := {
  cp_rc : rc <= 0 /\ rc <> - ENOENT;
  cp_declined : rc = DP_P4_NOT_COMPUTE -> x' = x;
  cp_ran : x'.2 = (rc =? 0) || x.2;
  cp_moved : x' = x \/ is_write (pc_op c) = true;
  cp_mrs : dp_mrs x'.1 = dp_mrs x.1;
  cp_under : under_key (wqe_rkey (pc_wqe c)) (wqe_va (pc_wqe c)) x.1 x'.1;
}.
Lemma call_effects c type method args x : ctx_ok c -> mrs_wf x.1 -> let r := dp_p4_extern_call c type method args x in call_post c x r.1 r.2.
Proof.
  intros Hc Hwf. cbv zeta. assert (forall rc, rc < 0 -> rc <> - ENOENT -> call_post c x rc x) as Hsame.
  { intros rc Hn He. split; [lia|done| |by left|done|by apply under_key_same]. by rewrite (proj2 (Z.eqb_neq rc 0)) by lia. }
  assert (forall m : DP Z, keeps (frame p4_flds) m -> method_post c x.1 (m x.1).1 (m x.1).2 -> call_post c x (ran_with m x).1 (ran_with m x).2) as Hm.
  { intros m Hf H. pose proof (frame_get _ m FMr x.1 Hf eq_refl) as Hr. unfold ran_with. destruct (m x.1) as [rc s'], x as [s0 b]. cbn [fst snd fld_same] in *. destruct H as [[-> ->]|(Hw & Hrc & Hu)]; [by apply Hsame|].
    unfold p4_codes, EINVAL, EACCES, ENOMEM, EFAULT in Hrc. split; cbn [fst snd]; [unfold ENOENT; set_solver by lia|unfold DP_P4_NOT_COMPUTE, ENOEXEC; intros ->; set_solver by lia|done|by right|done|done]. }
  destruct (call_cases c type method args x) as [->|[->|[(sel & ->)|(sf & df & Hs & Hd & ->)]]]; [by apply Hsame..| |].
  - apply Hm; [apply fp8_method_frame|by apply fp8_map_method].
  - apply Hm; [apply fmt_method_frame|by apply fmt_convert_method].
Qed.
(** What holds of the data path after any calls of one request. *)
Record calls_post c s (x : ionic_datapath * bool) : Prop := {
  ca_mrs : dp_mrs x.1 = dp_mrs s;
  ca_none : x.2 = false -> x.1 = s;
  ca_write : x.1 = s \/ is_write (pc_op c) = true;
  ca_ran : x.2 = true -> is_write (pc_op c) = true;
  ca_under : under_key (wqe_rkey (pc_wqe c)) (wqe_va (pc_wqe c)) s x.1;
}.
Lemma called_post c s x : ctx_ok c -> mrs_wf s -> called (dp_p4_extern_call c) (s, false) x -> calls_post c s x.
Proof.
  intros Hc Hwf. induction 1 as [|x1 x2 type method args _ IH Hcall]; [split; [done|done|by left|done|by apply under_key_same]|].
  pose proof (call_effects c type method args x1 Hc (mrs_wf_mrs _ _ (ca_mrs _ _ _ IH) Hwf)) as H. rewrite Hcall in H. cbv zeta in H. destruct H as [_ Hd Hr Hm Hmr Hu], IH as [Im In Iw Ir Iu]. cbn [fst snd] in *.
  assert (x2.1 = s \/ is_write (pc_op c) = true) as Hw by (destruct Hm as [->|?]; [done|by right]).
  split; [congruence|by rewrite Hr|done| |by eapply under_key_trans].
  intros _. destruct Hm as [->|?]; [|done]. by apply Ir.
Qed.
(** The last call of a run may have failed. *)
Lemma ended_post c s rc s' ran : ctx_ok c -> mrs_wf s -> ended (dp_p4_extern_call c) (s, false) rc (s', ran) ->
  under_key (wqe_rkey (pc_wqe c)) (wqe_va (pc_wqe c)) s s' /\ (s' = s \/ is_write (pc_op c) = true) /\ rc <= 0 /\ rc <> - ENOENT /\
  (ran = true -> is_write (pc_op c) = true) /\ (ran = false -> rc = 0 \/ rc = DP_P4_NOT_COMPUTE -> s' = s).
Proof.
  intros Hc Hwf He. inversion He as [x' H|x' H|x1 rc' x' type method args H Hcall Hn]; subst.
  - destruct (called_post _ _ _ Hc Hwf H). cbn [fst snd] in *. by split_and!; auto.
  - destruct (called_post _ _ _ Hc Hwf H). cbn [fst snd] in *. split_and!; auto; unfold ELOOP, ENOENT; lia.
  - destruct (called_post _ _ _ Hc Hwf H) as [Im In Iw Ir Iu].
    pose proof (call_effects c type method args x1 Hc (mrs_wf_mrs _ _ Im Hwf)) as Hp. rewrite Hcall in Hp. cbv zeta in Hp. destruct Hp as [[Hle Hne] Hd Hr Hm Hmr Hu], x1 as [s1 ran1]. cbn [fst snd] in *.
    rewrite (proj2 (Z.eqb_neq rc 0)) in Hr by done. cbn [orb] in Hr. subst ran1. split_and!; try done; [by eapply under_key_trans| |].
    + destruct Hm as [[= ->]|?]; [done|by right].
    + intros Hran [->|Hnc]; [done|]. specialize (Hd Hnc). injection Hd as ->. by apply In.
Qed.

(** C7: the policy is safe to put in front of every send request, whatever the
    program.  When it leaves the request to the ordinary dispatch, nothing at
    all has happened, and the program did not drop the request.  It completes
    a request itself only when the request is a write, an extern did the work
    and the program dropped the transfer.  And a byte of guest memory that
    changes is a byte of the memory registered under the request's own key,
    never key 0, inside a range that key covers. *)
Theorem p4_policy_safe stack eng qp_id op wqe read_sz src imm s :
  mrs_wf s -> bytes_ok wqe -> Forall sge_ok (sl_sges src) -> stack_ok stack ->
  let r := dp_p4_policy stack eng qp_id op wqe read_sz src imm s in
  let '(rc, suppress, (_, ran)) := p4_run stack eng qp_id op wqe read_sz src imm s in
  (r.1 = None -> r.2 = s /\ (rc = - ENOENT \/ suppress = false)) /\
  (r.1 = Some IONIC_STS_OK -> is_write op = true /\ rc = 0 /\ suppress = true /\ ran = true) /\
  (forall a, peek (dp_mem r.2) a <> peek (dp_mem s) a -> is_write op = true /\ wqe_rkey wqe <> 0 /\
     exists i len, 0 <= i < len /\ ionic_dp_mr_covers (wqe_rkey wqe) (wqe_va wqe) len s = true /\ addr_at s (wqe_rkey wqe) (wqe_va wqe) i = Some a).
Proof.
  intros Hwf Hw Hg Hst. cbv zeta. rewrite policy_run. pose proof (run_ended stack eng qp_id op wqe read_sz src imm s) as He.
  destruct (p4_run _ _ _ _ _ _ _ _ s) as [[rc suppress] [s' ran]]. cbn [fst snd] in *.
  destruct He as [[= -> ->]|He].
  - unfold p4_outcome. rewrite andb_true_r, !andb_false_l. split_and!; [|intros H|done].
    + destruct (Z.eqb_spec rc (- ENOENT)); [by auto|]. destruct (rc =? DP_P4_NOT_COMPUTE), suppress, (rc <? 0); by auto.
    + by destruct (rc =? - ENOENT), (rc =? DP_P4_NOT_COMPUTE), suppress, (rc <? 0).
  - destruct (ended_post (DpP4Ctx src wqe read_sz op stack) s rc s' ran ltac:(by split) Hwf He) as (Hu & Hm & Hle & Hne & Hr & Hn). cbn [pc_op pc_wqe] in *. unfold p4_outcome. rewrite (proj2 (Z.eqb_neq rc (- ENOENT))) by done.
    split_and!.
    + destruct (Z.eqb_spec rc DP_P4_NOT_COMPUTE), ran, suppress, (Z.ltb_spec rc 0); cbn [andb negb]; try done; intros _; (split; [apply Hn; [done|]|by right]); auto. left. lia.
    + destruct (Z.eqb_spec rc DP_P4_NOT_COMPUTE), ran, suppress, (Z.ltb_spec rc 0); cbn [andb negb]; try done; intros _; split_and!; auto; lia.
    + intros a Ha. destruct Hm as [->|Hm]; [done|]. split; [done|]. by apply Hu.
Qed.

(** C20: an FP8 map ends in one of these ways, and no other.  A length that is
    zero or past the cap, then an operand or a destination that is not
    registered memory under a nonzero key, are refused with the state as it
    was; a failed allocation leaves memory alone.  Past those, only bytes of
    the destination can change; on success every one of them is the correctly
    rounded element of the operands as they were before the request, even
    where the destination overlaps them; an unknown operation writes nothing;
    and a fault means a transfer failed or a byte had no address. *)
Theorem fp8_map_computes op ak av bk bv len ck cv s :
  mrs_wf s -> fits 32 len ->
  let r := ionic_datapath_fp8_map op ak av bk bv len ck cv s in
  if (len =? 0) || (IONIC_FP8_MAP_MAX <? len) then r = (- EINVAL, s)
  else if negb (fp8_key_ok ak av len s && fp8_key_ok bk bv len s && fp8_key_ok ck cv len s) then r = (- EACCES, s)
  else if negb (alloc_ok (dp_calls s)) then r.1 = - ENOMEM /\ dp_mem r.2 = dp_mem s
  else fp8_map_post op s ak av bk bv ck cv len r.1 r.2.
Proof. exact (fp8_map_ends op ak av bk bv len ck cv s). Qed.

(** C21: a conversion of formats ends in one of these ways.  A malformed request
    (no whole number of elements at either end, a format that does not exist,
    more elements than the cap) is refused with the state as it was, as are
    regions that are not registered; a failed allocation leaves memory alone.
    Past those, only bytes of the destination can change, and on success they
    are the converted array: passes of 512 elements through a buffer that
    keeps the last pass's bytes give what one pass would, from the source as
    it was before the request, even where the destination overlaps it. *)
Theorem fmt_convert_computes stack sf df ak av in_len ck cv s :
  let n := p4_fmt_elems sf in_len in let out_len := p4_fmt_bytes df n in
  mrs_wf s -> fits 8 sf -> fits 8 df -> fits 32 in_len -> bytes_ok stack -> Z.of_nat (length stack) = FMT_CVT_CHUNK_ELEMS * FMT_MAX_ELEM_BYTES ->
  let r := ionic_datapath_fmt_convert stack sf df ak av in_len ck cv s in
  if negb (p4_fmt_valid sf && p4_fmt_valid df) || (n =? 0) || (IONIC_FP8_MAP_MAX <? n) || (out_len =? 0) then r = (- EINVAL, s)
  else if negb (fp8_key_ok ak av in_len s && fp8_key_ok ck cv out_len s) then r = (- EACCES, s)
  else if negb (alloc_ok (dp_calls s)) then r.1 = - ENOMEM /\ dp_mem r.2 = dp_mem s
  else fmt_convert_post sf df s ak av in_len ck cv r.1 r.2.
Proof. exact (fmt_convert_ends stack sf df ak av in_len ck cv s). Qed.
End policy.

(** ** A reduction, on a small device *)
(** The small program, with a sum of FP8 values in place of every transfer. *)
Definition rx_reduce : p4_action := P4Action (chars "reduce") 3 []
  [P4Primitive PRIM_EXTERN P4_EXTERN_FP8_MAP [OPD_EXTERN 0; OPD_HEXSTR 1 (px_imm P4_FP8_OP_ADD)]; P4Primitive PRIM_DROP 0 []].
Definition rx_egress : p4_pipeline := P4Pipeline (chars "egress") 1 0 [NODE_TABLE 0] [px_count <| tb_default_action := 3 |>] [].
Definition rx_prog : p4_program := px <| pg_actions ::= fun l => take 3 l ++ [rx_reduce] |> <| pg_pipelines ::= fun l => take 1 l ++ [rx_egress] |>.
Definition rx_eng : p4_engine := p4_engine_create <| eg_prog := Some rx_prog |>.
(** Two operands of four bytes, the same one twice; the result overlaps it. *)
Definition rx_src : dp_sge_list := DpSgeList [DpSge 0x7000 4 0x105; DpSge 0x7000 4 0x105] 8.
Definition rx_wqe : list Z :=
  ernic_put_be32 (ernic_put_be32 (ernic_put_be64 (zeros 64) WQE_RDMA_VA_OFF 0x7002) WQE_RDMA_RKEY_OFF 0x105) WQE_SEND_LEN_OFF 8.
Definition rx_stack : list Z := replicate 2048 0xaa.
Lemma rx_stack_ok : stack_ok rx_stack.
Proof. split; [by apply Forall_replicate|done]. Qed.
Lemma rx_src_ok : Forall sge_ok (sl_sges rx_src).
Proof. repeat constructor; done. Qed.
Lemma rx_wqe_ok : bytes_ok rx_wqe.
Proof. bytes_by_computation. Qed.

Lemma p4_policy_safe_witness :
  let r := dp_p4_policy rx_stack rx_eng 1 IONIC_V1_OP_RDMA_WRITE rx_wqe 64 rx_src 0 ex_posted in
  r.1 = Some IONIC_STS_OK /\ peekn (dp_mem r.2) 0x40000 7 = [0x68; 0x65; 0x70; 0x6d; 0x74; 0x74; 1] /\
  (forall a, peek (dp_mem r.2) a <> peek (dp_mem ex_posted) a -> is_write IONIC_V1_OP_RDMA_WRITE = true /\ wqe_rkey rx_wqe <> 0 /\
     exists i len, 0 <= i < len /\ ionic_dp_mr_covers (wqe_rkey rx_wqe) (wqe_va rx_wqe) len ex_posted = true /\ addr_at ex_posted (wqe_rkey rx_wqe) (wqe_va rx_wqe) i = Some a).
Proof.
  cbv zeta. split; [computes|]. split; [computes|].
  pose proof (@p4_policy_safe ex_env ex_laws rx_stack rx_eng 1 IONIC_V1_OP_RDMA_WRITE rx_wqe 64 rx_src 0 ex_posted (di_mrs _ ex_posted_inv) rx_wqe_ok rx_src_ok rx_stack_ok) as H.
  cbv zeta in H. destruct (p4_run _ _ _ _ _ _ _ _ _) as [[rc suppress] [s' ran]]. exact (proj2 (proj2 H)).
Defined.

Lemma fp8_map_computes_witness :
  let r := ionic_datapath_fp8_map P4_FP8_OP_ADD 0x105 0x7000 0x105 0x7000 4 0x105 0x7002 ex_posted in
  r.1 = 0 /\ fp8_map_post P4_FP8_OP_ADD ex_posted 0x105 0x7000 0x105 0x7000 0x105 0x7002 4 r.1 r.2.
Proof.
  cbv zeta. split; [computes|].
  exact (@fp8_map_computes ex_env ex_laws P4_FP8_OP_ADD 0x105 0x7000 0x105 0x7000 4 0x105 0x7002 ex_posted (di_mrs _ ex_posted_inv) ltac:(done)).
Defined.

(** The four letters, one byte each, widened in place to sixteen bytes. *)
Lemma fmt_convert_computes_witness :
  let r := ionic_datapath_fmt_convert rx_stack P4_FMT_FP8_E4M3 P4_FMT_FP32 0x105 0x7000 4 0x105 0x7000 ex_posted in
  r.1 = 0 /\ fmt_convert_post P4_FMT_FP8_E4M3 P4_FMT_FP32 ex_posted 0x105 0x7000 4 0x105 0x7000 r.1 r.2.
Proof.
  cbv zeta. split; [computes|].
  exact (@fmt_convert_computes ex_env ex_laws rx_stack P4_FMT_FP8_E4M3 P4_FMT_FP32 0x105 0x7000 4 0x105 0x7000 ex_posted (di_mrs _ ex_posted_inv)
    ltac:(done) ltac:(done) ltac:(done) (proj1 rx_stack_ok) (proj2 rx_stack_ok)).
Defined.
