(* ===== verification/P4Json.v ===== *)
(** * The loader (p4_json.c)

    A bmv2 program from the tree json-c builds of its text.  json-c is
    [Tokener]: what json_tokener_parse_ex() makes of the text.  The tree is
    json-c's, where NULL and JSON's null are one, an object is its members in
    their order with one member of a name, and a string may hold any byte.
    Every walk returns what it read or the negative errno the code returns;
    the program a failed walk has half filled is freed and not seen.  The text
    of the messages is left out. *)
From S2P Require Export P4Engine.
From stdpp Require Import strings.
#[local] Open Scope Z_scope.

(** ** The tree *)
Inductive json :=
  | JNull
  | JBool (b : bool)
  | JInt (v : Z)
  | JDouble
  | JStr (s : list Z)
  | JArr (l : list json)
  | JObj (m : list (cstr * json)).
#[export] Instance json_null : Inhabited json := populate JNull.

Fixpoint member (key : cstr) (m : list (cstr * json)) : option json :=
  match m with
  | [] => None
  | (k, v) :: m => if bool_decide (k = key) then Some v else member key m
  end.
Definition json_object_object_get_ex (j : json) (key : cstr) : option json :=
  match j with JObj m => member key m | _ => None end.
Definition json_object_array_get_idx (l : list json) (i : nat) : json := l !!! i.
(** The saturated value json-c gives for an integer past int64_t. *)
Definition json_object_get_int64 (v : Z) : Z := Z.min v (2 ^ 63 - 1).

Definition is_object (j : json) : bool := match j with JObj _ => true | _ => false end.
Definition is_null (j : json) : bool := match j with JNull => true | _ => false end.
Definition is_string (j : json) : bool := match j with JStr _ => true | _ => false end.
(** json_type_int, and json_object_get_int64(). *)
Definition int_of (j : json) : option Z := match j with JInt v => Some (json_object_get_int64 v) | _ => None end.

(** ** Errors: the negative errno of the first failure *)
Definition result (A : Type) : Type := (Z + A)%type.
#[export] Instance result_ret : MRet result := fun A x => inr x.
#[export] Instance result_bind : MBind result := fun A B f r => match r with inl rc => inl rc | inr x => f x end.
Definition p4_fail {A} (rc : Z) : result A := inl (- rc).
Definition need {A} (rc : Z) (o : option A) : result A := match o with Some x => inr x | None => p4_fail rc end.
Definition fail_if (b : bool) (rc : Z) : result unit := if b then p4_fail rc else inr tt.

(** A loop over an array's elements that stops at the first failure. *)
Fixpoint each {S A} (f : S -> A -> result S) (s : S) (l : list A) : result S :=
  match l with
  | [] => inr s
  | x :: l => s ← f s x; each f s l
  end.

(** ** Checked accessors *)
Section accessors.
Variables (parent : json) (key : string).
Definition get : option json := json_object_object_get_ex parent (chars key).
(** Absent and null are one. *)
Definition get_nonnull : option json := v ← get; if is_null v then None else Some v.
Definition p4_get_obj : option json := v ← get; if is_object v then Some v else None.
Definition p4_get_array (cap : nat) : option (list json) :=
  v ← get;
  match v with
  | JArr l => if bool_decide (cap < length l)%nat then None else Some l
  | _ => None
  end.
Definition p4_get_u32 (min max : Z) : option Z :=
  v ← get;
  raw ← int_of v;
  if (raw <? 0) || (max <? raw) || (raw <? min) then None else Some raw.
Definition p4_get_bool : option bool :=
  v ← get;
  match v with JBool b => Some b | _ => None end.
Definition p4_absent_or_empty : bool :=
  match get with
  | None | Some JNull => true
  | Some (JArr l) => bool_decide (l = [])
  | Some (JObj m) => bool_decide (length m = 0%nat)
  | Some _ => false
  end.
End accessors.

(** strlen() of a json-c string: up to its first NUL. *)
Fixpoint strlen (s : list Z) : nat := match s with [] => 0 | c :: s => if c =? 0 then 0 else S (strlen s) end.
Definition p4_cstr (v : json) : option cstr :=
  match v with JStr s => if bool_decide (strlen s = length s) then Some s else None | _ => None end.
Definition p4_str_val (v : json) (out_cap : nat) : option cstr :=
  s ← p4_cstr v;
  if bool_decide (length s = 0%nat) || bool_decide (out_cap <= length s)%nat || negb (p4_name_printable s) then None else Some s.
Definition NAME_CAP : nat := S P4_MAX_NAME.
Definition p4_get_str (parent : json) (key : string) : option cstr := v ← get parent key; p4_str_val v NAME_CAP.
Definition p4_pair_strings (arr : json) : option (cstr * cstr) :=
  match arr with
  | JArr [a; b] => a ← p4_str_val a NAME_CAP; b ← p4_str_val b NAME_CAP; Some (a, b)
  | _ => None
  end.
(** A literal: the bytes and how many of them the digits needed. *)
Definition hexstr (v : json) (cap : nat) : option (list Z * Z * bool) := s ← p4_cstr v; ernic_parse_hexstr (Some s) cap.
Definition hexstr_pos (v : json) (cap : nat) : option (list Z * Z) :=
  h ← hexstr v cap;
  if (h : _ * _ * bool).2 then None else Some h.1.
Definition is_chars (s : cstr) (w : string) : bool := bool_decide (s = chars w).

(** ** What the document says of itself *)
Definition p4_unsupported_keys : list string :=
  ["header_stacks"; "header_union_types"; "header_unions"; "header_union_stacks"; "parse_vsets"; "meter_arrays"; "counter_arrays";
   "register_arrays"; "learn_lists"; "checksums"; "calculations"; "enums"; "field_lists"].
Definition p4_check_unsupported (root : json) : result unit :=
  fail_if (negb (forallb (p4_absent_or_empty root) p4_unsupported_keys)) ENOSYS.
Definition p4_check_meta (root : json) : result unit :=
  meta ← need EINVAL (p4_get_obj root "__meta__");
  version ← need EINVAL (v ← get meta "version"; match v with JArr [a; b] => Some (a, b) | _ => None end);
  major ← need EINVAL (int_of (version : json * json).1);
  minor ← need EINVAL (int_of version.2);
  fail_if (negb (major =? 2)) ENOSYS ;;
  fail_if ((minor <? 0) || (255 <? minor)) EINVAL.

(** ** Header types and headers *)
Definition p4_walk_field (acc : Z * list p4_field) (tuple : json) : result (Z * list p4_field) :=
  let '(total_bits, fields) := acc in
  match tuple with
  | JArr t =>
      fail_if (negb (bool_decide (length t = 2%nat)) && negb (bool_decide (length t = 3%nat))) EINVAL ;;
      name ← need EINVAL (p4_str_val (json_object_array_get_idx t 0) NAME_CAP);
      let fbits := json_object_array_get_idx t 1 in
      fail_if (bool_decide (p4_cstr fbits = Some (chars "*"))) ENOSYS ;;
      bits ← need EINVAL (int_of fbits);
      fail_if ((bits <? 1) || (P4_MAX_FIELD_BITS <? bits)) EINVAL ;;
      fail_if (0xffff - total_bits <? bits) EINVAL ;;
      fail_if (bool_decide (length t = 3%nat) && match json_object_array_get_idx t 2 with JBool b => b | _ => false end) ENOSYS ;;
      mret (total_bits + bits, fields ++ [P4Field name bits total_bits])
  | _ => p4_fail EINVAL
  end.
(** The name and the id differ from those of every earlier element. *)
Definition p4_unique {A} (nm : A -> cstr) (id : A -> Z) (l : list A) (name : cstr) (i : Z) : result unit :=
  fail_if (existsb (fun a => bool_decide (nm a = name) || (id a =? i)) l) EINVAL.
Definition p4_walk_header_type (types : list p4_header_type) (ht : json) : result (list p4_header_type) :=
  fail_if (negb (is_object ht)) EINVAL ;;
  name ← need EINVAL (p4_get_str ht "name");
  id ← need EINVAL (p4_get_u32 ht "id" 0 P4_MAX_ID);
  fields ← need EINVAL (p4_get_array ht "fields" P4_MAX_FIELDS);
  fs ← each p4_walk_field (0, []) fields;
  p4_unique ht_name ht_id types name id ;;
  mret (types ++ [P4HeaderType name id (fs : Z * list p4_field).1 fs.2]).
Definition p4_walk_header_types (prog : p4_program) (root : json) : result p4_program :=
  arr ← need EINVAL (p4_get_array root "header_types" P4_MAX_HEADER_TYPES);
  types ← each p4_walk_header_type [] arr;
  mret (prog <| pg_header_types := types |>).

(** The index of the first element of a name, or [P4_IDX_NONE]. *)
Definition find_name {A} (nm : A -> cstr) (l : list A) (name : cstr) : Z :=
  match list_find (fun a => nm a = name) l with Some (i, _) => Z.of_nat i | None => P4_IDX_NONE end.
Definition p4_walk_header (types : list p4_header_type) (headers : list p4_header) (h : json) : result (list p4_header) :=
  fail_if (negb (is_object h)) EINVAL ;;
  name ← need EINVAL (p4_get_str h "name");
  id ← need EINVAL (p4_get_u32 h "id" 0 P4_MAX_ID);
  type_name ← need EINVAL (p4_get_str h "header_type");
  metadata ← need EINVAL (p4_get_bool h "metadata");
  let t := find_name ht_name types type_name in
  fail_if (t =? P4_IDX_NONE) EINVAL ;;
  fail_if (negb metadata && negb (ht_total_bits (elt types t) mod 8 =? 0)) EINVAL ;;
  p4_unique hd_name hd_id headers name id ;;
  mret (headers ++ [P4Header name id t metadata 0]).
Definition p4_walk_headers (prog : p4_program) (root : json) : result p4_program :=
  arr ← need EINVAL (p4_get_array root "headers" P4_MAX_HEADERS);
  headers ← each (p4_walk_header (pg_header_types prog)) [] arr;
  mret (prog <| pg_headers := headers |>).

(** ** Layout *)
Definition p4_header_bytes (prog : p4_program) (h : p4_header) : Z :=
  (ht_total_bits (elt (pg_header_types prog) (hd_header_type h)) + 7) / 8.
(** The second loop: each header's offset, from byte [total] on. *)
Fixpoint layout_loop (prog : p4_program) (total : Z) (hs : list p4_header) : list p4_header * Z :=
  match hs with
  | [] => ([], total)
  | h :: hs =>
      let '(hs, fin) := layout_loop prog (total + p4_header_bytes prog h) hs in
      (h <| hd_phv_offset := wrap 16 total |> :: hs, fin)
  end.
Definition p4_layout_phv (prog : p4_program) : result p4_program :=
  let total := sumZ (p4_header_bytes prog <$> pg_headers prog) in
  fail_if (P4_PHV_BYTES <? total) EINVAL ;;
  let '(headers, total) := layout_loop prog 0 (pg_headers prog) in
  mret (prog <| pg_headers := headers |> <| pg_phv_bytes := wrap 16 total |>).

(** ** Names of headers and fields *)
Section names.
Variable prog : p4_program.
Definition p4_find_header (name : cstr) : Z := find_name hd_name (pg_headers prog) name.
Definition p4_resolve_field (hname fname : cstr) : option p4_field_ref :=
  let h := p4_find_header hname in
  if h =? P4_IDX_NONE then None
  else
    let f := find_name fd_name (ht_fields (type_of prog h)) fname in
    if f =? P4_IDX_NONE then None else Some (FieldRef h f).
Definition p4_field_bits (ref : p4_field_ref) : Z := fd_bits (field_of prog ref).
(** A field the program does not have is [no_ref] and no failure; one of
    another width is. *)
Definition p4_resolve_arch_field (hdr field : cstr) (bits : Z) : result p4_field_ref :=
  match p4_resolve_field hdr field with
  | None => mret no_ref
  | Some ref => fail_if (negb (p4_field_bits ref =? bits)) EINVAL ;; mret ref
  end.
End names.
Definition p4_resolve_std_metadata (prog : p4_program) : result p4_program :=
  let std := chars "standard_metadata" in
  egress_spec ← p4_resolve_arch_field prog std (chars "egress_spec") 9;
  fail_if (bool_decide (egress_spec = no_ref)) EINVAL ;;
  ingress_port ← p4_resolve_arch_field prog std (chars "ingress_port") 9;
  egress_port ← p4_resolve_arch_field prog std (chars "egress_port") 9;
  mret (prog <| pg_egress_spec := egress_spec |> <| pg_ingress_port := ingress_port |> <| pg_egress_port := egress_port |>).
(** rdma_metadata, or a name that ends in .rdma_metadata. *)
Definition is_rdma_metadata (n : cstr) : bool :=
  let md := chars "rdma_metadata" in
  let nl := length n in
  let ml := length md in
  bool_decide (n = md) ||
  bool_decide (ml < nl)%nat && (at_ n (nl - ml - 1) =? 46) && bool_decide (drop (nl - ml) n = md).
Definition p4_resolve_rdma_metadata (prog : p4_program) : result p4_program :=
  match list_find (fun h => is_rdma_metadata (hd_name h) = true) (pg_headers prog) with
  | None => mret prog
  | Some (h, hd) =>
      fail_if (bool_decide (Z.of_nat h ∈ pg_deparse_order prog)) EINVAL ;;
      let field name bits := p4_resolve_arch_field prog (hd_name hd) (chars name) bits in
      opcode ← field "opcode" 8;
      qp_num ← field "qp_num" 24;
      length ← field "length" 32;
      imm_data ← field "imm_data" 32;
      rkey ← field "rkey" 32;
      mret (prog <| pg_rdma_opcode := opcode |> <| pg_rdma_qp_num := qp_num |> <| pg_rdma_length := length |>
                 <| pg_rdma_imm_data := imm_data |> <| pg_rdma_rkey := rkey |> <| pg_has_rdma_metadata := true |>)
  end.

(** ** The parser *)
Section parser.
Variable prog : p4_program.
Definition p4_walk_parser_op (ops : list Z) (op : json) : result (list Z) :=
  fail_if (negb (is_object op)) EINVAL ;;
  opname ← need EINVAL (p4_get_str op "op");
  fail_if (negb (is_chars opname "extract")) ENOSYS ;;
  params ← need EINVAL (p4_get_array op "parameters" 2);
  fail_if (negb (bool_decide (length params = 1%nat))) EINVAL ;;
  let p0 := json_object_array_get_idx params 0 in
  fail_if (negb (is_object p0)) EINVAL ;;
  ptype ← need EINVAL (p4_get_str p0 "type");
  pval ← need EINVAL (p4_get_str p0 "value");
  fail_if (negb (is_chars ptype "regular")) ENOSYS ;;
  let header := p4_find_header prog pval in
  fail_if (header =? P4_IDX_NONE) EINVAL ;;
  fail_if (hd_metadata (elt (pg_headers prog) header)) EINVAL ;;
  mret (ops ++ [header]).
Definition p4_walk_parser_ops (st : json) : result (list Z) :=
  ops ← need EINVAL (p4_get_array st "parser_ops" P4_MAX_PARSER_OPS);
  each p4_walk_parser_op [] ops.
Definition p4_walk_key (acc : Z * list p4_field_ref) (k : json) : result (Z * list p4_field_ref) :=
  fail_if (negb (is_object k)) EINVAL ;;
  ktype ← need EINVAL (p4_get_str k "type");
  fail_if (negb (is_chars ktype "field")) ENOSYS ;;
  names ← need EINVAL (v ← get k "value"; p4_pair_strings v);
  ref ← need EINVAL (p4_resolve_field prog (names : cstr * cstr).1 names.2);
  mret (acc.1 + (p4_field_bits prog ref + 7) / 8, acc.2 ++ [ref]).
Definition p4_walk_transition_key (st : json) : result (Z * list p4_field_ref) :=
  keys ← need EINVAL (p4_get_array st "transition_key" P4_MAX_TRANSITION_KEY);
  k ← each p4_walk_key (0, []) keys;
  fail_if (Z.of_nat P4_MAX_KEY_BYTES <? (k : Z * list p4_field_ref).1) EINVAL ;;
  mret k.
Definition p4_walk_transition (key_bytes : Z) (trs : list p4_transition) (t : json) : result (list p4_transition) :=
  fail_if (negb (is_object t)) EINVAL ;;
  let type := p4_get_str t "type" in
  val ← need EINVAL (get t "value");
  td ←
    (if match type with Some type => is_chars type "default" | None => bool_decide (p4_cstr val = Some (chars "default")) end then
       (mret (P4Transition true false (zeros P4_MAX_KEY_BYTES) (zeros P4_MAX_KEY_BYTES) P4_IDX_NONE) : result p4_transition)
     else
       fail_if (match type with Some type => negb (is_chars type "hexstr") | None => false end) ENOSYS ;;
       v ← need EINVAL (hexstr_pos val P4_MAX_KEY_BYTES);
       fail_if (key_bytes <? (v : list Z * Z).2) EINVAL ;;
       match get_nonnull t "mask" with
       | None => mret (P4Transition false false v.1 (zeros P4_MAX_KEY_BYTES) P4_IDX_NONE)
       | Some mask =>
           m ← need EINVAL (hexstr_pos mask P4_MAX_KEY_BYTES);
           fail_if (key_bytes <? (m : list Z * Z).2) EINVAL ;;
           mret (P4Transition false true v.1 m.1 P4_IDX_NONE)
       end);
  need EINVAL (get t "next_state") ;;
  mret (trs ++ [td]).
Definition p4_walk_transitions (key_bytes : Z) (st : json) : result (list p4_transition) :=
  arr ← need EINVAL (p4_get_array st "transitions" P4_MAX_TRANSITIONS);
  each (p4_walk_transition key_bytes) [] arr.
(** Pass one over a state. *)
Definition p4_walk_state (states : list p4_parse_state) (st : json) : result (list p4_parse_state) :=
  fail_if (negb (is_object st)) EINVAL ;;
  name ← need EINVAL (p4_get_str st "name");
  fail_if (existsb (fun s => bool_decide (ps_name s = name)) states) EINVAL ;;
  ops ← p4_walk_parser_ops st;
  key ← p4_walk_transition_key st;
  trs ← p4_walk_transitions (key : Z * list p4_field_ref).1 st;
  mret (states ++ [P4ParseState name key.1 ops key.2 trs]).
(** Pass two over an arm: [states] has every name. *)
Definition p4_resolve_arm (states : list p4_parse_state) (acc : list p4_transition) (arm : p4_transition * json) : result (list p4_transition) :=
  let '(td, tr) := arm in
  next ← need EINVAL (get tr "next_state");
  if is_null next then mret (acc ++ [td])
  else
    name ← need EINVAL (p4_str_val next NAME_CAP);
    let idx := find_name ps_name states name in
    fail_if (idx =? P4_IDX_NONE) EINVAL ;;
    mret (acc ++ [td <| tr_next_state := idx |>]).
Definition p4_resolve_arms (states : list p4_parse_state) (acc : list p4_parse_state) (s : p4_parse_state * json) : result (list p4_parse_state) :=
  let '(dst, st) := s in
  tarr ← need EINVAL (p4_get_array st "transitions" P4_MAX_TRANSITIONS);
  trs ← each (p4_resolve_arm states) [] (zip (ps_transitions dst) tarr);
  mret (acc ++ [dst <| ps_transitions := trs |>]).
Definition p4_walk_parser (root : json) : result p4_program :=
  arr ← need EINVAL (p4_get_array root "parsers" 2);
  fail_if (negb (bool_decide (length arr = 1%nat))) ENOSYS ;;
  let parser := json_object_array_get_idx arr 0 in
  fail_if (negb (is_object parser)) EINVAL ;;
  init ← need EINVAL (p4_get_str parser "init_state");
  states ← need EINVAL (p4_get_array parser "parse_states" P4_MAX_PARSE_STATES);
  fail_if (bool_decide (length states = 0%nat)) EINVAL ;;
  sts ← each p4_walk_state [] states;
  sts' ← each (p4_resolve_arms sts) [] (zip sts states);
  let init_state := find_name ps_name sts' init in
  fail_if (init_state =? P4_IDX_NONE) EINVAL ;;
  mret (prog <| pg_parse_states := sts' |> <| pg_init_state := init_state |>).

(** ** The deparser *)
Definition p4_walk_emit (order : list Z) (e : json) : result (list Z) :=
  name ← need EINVAL (p4_str_val e NAME_CAP);
  let h := p4_find_header prog name in
  fail_if (h =? P4_IDX_NONE) EINVAL ;;
  fail_if (bool_decide (h ∈ order)) EINVAL ;;
  mret (order ++ [h]).
Definition p4_walk_deparser (root : json) : result p4_program :=
  arr ← need EINVAL (p4_get_array root "deparsers" 2);
  fail_if (negb (bool_decide (length arr = 1%nat))) ENOSYS ;;
  let dep := json_object_array_get_idx arr 0 in
  fail_if (negb (is_object dep)) EINVAL ;;
  order ← need EINVAL (p4_get_array dep "order" P4_MAX_DEPARSE_ORDER);
  emits ← each p4_walk_emit [] order;
  mret (prog <| pg_deparse_order := emits |>).

(** ** Externs *)
Definition extern_types : list (cstr * Z) := [(chars "Fp8", P4_EXTERN_FP8)].
Definition p4_walk_extern (externs : list p4_extern_inst) (e : json) : result (list p4_extern_inst) :=
  fail_if (negb (is_object e)) EINVAL ;;
  name ← need EINVAL (p4_get_str e "name");
  id ← need EINVAL (p4_get_u32 e "id" 0 P4_MAX_ID);
  type ← need EINVAL (p4_get_str e "type");
  t ← need ENOSYS (snd <$> list_find (fun t => t.1 = type) extern_types);
  fail_if (match p4_get_array e "attribute_values" P4_MAX_EXTERNS with Some attrs => negb (bool_decide (length attrs = 0%nat)) | None => false end) ENOSYS ;;
  p4_unique xi_name xi_id externs name id ;;
  mret (externs ++ [P4ExternInst name id (t : cstr * Z).2]).
Definition p4_walk_externs (root : json) : result p4_program :=
  match get root "extern_instances" with
  | None => mret prog
  | Some _ =>
      arr ← need EINVAL (p4_get_array root "extern_instances" P4_MAX_EXTERNS);
      externs ← each p4_walk_extern [] arr;
      mret (prog <| pg_externs := externs |>)
  end.
End parser.

(** ** Actions *)
Record prim_row := PrimRow { pt_name : cstr; pt_kind : p4_prim_kind; pt_min_params : nat; pt_max_params : nat; pt_method : Z; pt_extern_type : Z }.
Definition p4_primitives : list prim_row :=
  [PrimRow (chars "assign") PRIM_ASSIGN 2 2 0 0; PrimRow (chars "modify_field") PRIM_ASSIGN 2 2 0 0;
   PrimRow (chars "add") PRIM_ADD 3 3 0 0; PrimRow (chars "add_to_field") PRIM_ADD 2 2 0 0;
   PrimRow (chars "subtract") PRIM_SUB 3 3 0 0; PrimRow (chars "subtract_from_field") PRIM_SUB 2 2 0 0;
   PrimRow (chars "drop") PRIM_DROP 0 1 0 0; PrimRow (chars "mark_to_drop") PRIM_DROP 0 1 0 0; PrimRow (chars "no_op") PRIM_NOP 0 0 0 0;
   PrimRow (chars "_Fp8_map") PRIM_EXTERN 2 2 P4_EXTERN_FP8_MAP P4_EXTERN_FP8;
   PrimRow (chars "_Fp8_cvt") PRIM_EXTERN 3 3 P4_EXTERN_FP8_CVT P4_EXTERN_FP8].
Section actions.
Variable prog : p4_program.
Definition p4_walk_operand (nruntime : nat) (p : json) : result p4_operand :=
  fail_if (negb (is_object p)) EINVAL ;;
  type ← need EINVAL (p4_get_str p "type");
  val ← need EINVAL (get p "value");
  if is_chars type "field" then
    names ← need EINVAL (p4_pair_strings val);
    ref ← need EINVAL (p4_resolve_field prog (names : cstr * cstr).1 names.2);
    mret (OPD_FIELD ref)
  else if is_chars type "hexstr" then
    h ← need EINVAL (hexstr val P4_MAX_IMM_BYTES);
    fail_if (h : list Z * Z * bool).2 ENOSYS ;;
    mret (OPD_HEXSTR h.1.2 h.1.1)
  else if is_chars type "extern" then
    iname ← need EINVAL (p4_str_val val NAME_CAP);
    let inst := find_name xi_name (pg_externs prog) iname in
    fail_if (inst =? P4_IDX_NONE) EINVAL ;;
    mret (OPD_EXTERN inst)
  else if is_chars type "runtime_data" then
    idx ← need EINVAL (int_of val);
    fail_if ((idx <? 0) || (Z.of_nat nruntime <=? idx)) EINVAL ;;
    mret (OPD_RUNTIME idx)
  else p4_fail ENOSYS.
Definition p4_walk_operands (nruntime : nat) (params : list json) : result (list p4_operand) :=
  each (fun ops p => o ← p4_walk_operand nruntime p; mret (ops ++ [o])) [] params.
(** A call names the instance it is made on, of the method's type, and passes
    no other. *)
Definition p4_check_call (row : prim_row) (params : list p4_operand) : result unit :=
  let inst := params !!! 0%nat in
  fail_if (negb (is_extern inst)) EINVAL ;;
  fail_if (negb (xi_type (elt (pg_externs prog) (opd_inst inst)) =? pt_extern_type row)) EINVAL ;;
  fail_if (existsb is_extern (tail params)) EINVAL.
(** Any other primitive writes a field, from values no wider than it. *)
Definition p4_check_write (params : list p4_operand) : result unit :=
  let dst := params !!! 0%nat in
  fail_if (negb (is_field dst)) EINVAL ;;
  let fbits := p4_field_bits prog (opd_field dst) in
  fail_if (existsb (fun o => match o with
                             | OPD_EXTERN _ => true
                             | OPD_HEXSTR _ imm => fbits <? be_bit_length imm
                             | _ => false
                             end) (tail params)) EINVAL.
Definition p4_walk_primitive (nruntime : nat) (prims : list p4_primitive) (pr : json) : result (list p4_primitive) :=
  fail_if (negb (is_object pr)) EINVAL ;;
  opname ← need EINVAL (p4_get_str pr "op");
  row ← need ENOSYS (snd <$> list_find (fun r => pt_name r = opname) p4_primitives);
  params ← need EINVAL (p4_get_array pr "parameters" P4_MAX_PRIM_PARAMS);
  fail_if (bool_decide (length params < pt_min_params row)%nat || bool_decide (pt_max_params row < length params)%nat) EINVAL ;;
  let kind := pt_kind row in
  match kind with
  | PRIM_DROP | PRIM_NOP => mret (prims ++ [P4Primitive kind (pt_method row) []])
  | _ =>
      ops ← p4_walk_operands nruntime params;
      match kind with PRIM_EXTERN => p4_check_call row ops | _ => p4_check_write ops end ;;
      mret (prims ++ [P4Primitive kind (pt_method row) ops])
  end.
Definition p4_walk_runtime (bits : list Z) (e : json) : result (list Z) :=
  fail_if (negb (is_object e)) EINVAL ;;
  b ← need EINVAL (p4_get_u32 e "bitwidth" 1 P4_MAX_FIELD_BITS);
  fail_if (Z.of_nat P4_MAX_ENTRY_BYTES * 8 <? b) EINVAL ;;
  mret (bits ++ [b]).
Definition p4_walk_action (actions : list p4_action) (a : json) : result (list p4_action) :=
  fail_if (negb (is_object a)) EINVAL ;;
  name ← need EINVAL (p4_get_str a "name");
  id ← need EINVAL (p4_get_u32 a "id" 0 P4_MAX_ID);
  p4_unique ac_name ac_id actions name id ;;
  rt ← need EINVAL (p4_get_array a "runtime_data" P4_MAX_RUNTIME_ARGS);
  bits ← each p4_walk_runtime [] rt;
  prims ← need EINVAL (p4_get_array a "primitives" P4_MAX_PRIMITIVES);
  ps ← each (p4_walk_primitive (length bits)) [] prims;
  mret (actions ++ [P4Action name id bits ps]).
Definition p4_walk_actions (root : json) : result p4_program :=
  arr ← need EINVAL (p4_get_array root "actions" P4_MAX_ACTIONS);
  actions ← each p4_walk_action [] arr;
  mret (prog <| pg_actions := actions |>).

(** ** Conditions *)
Inductive p4_expr_type := ET_NONE | ET_HEADER | ET_BOOL | ET_DATA | ET_SAME.
#[export] Instance p4_expr_type_eq : EqDecision p4_expr_type.
Proof. solve_decision. Defined.
Record expr_row := ExprRow { eo_name : cstr; eo_op : p4_expr_op; eo_unary : bool; eo_takes : p4_expr_type }.
Definition p4_expr_ops : list expr_row :=
  [ExprRow (chars "valid") EXPR_VALID true ET_HEADER; ExprRow (chars "not") EXPR_NOT true ET_BOOL;
   ExprRow (chars "==") EXPR_EQ false ET_SAME; ExprRow (chars "!=") EXPR_NE false ET_SAME;
   ExprRow (chars "<") EXPR_LT false ET_DATA; ExprRow (chars "<=") EXPR_LE false ET_DATA;
   ExprRow (chars ">") EXPR_GT false ET_DATA; ExprRow (chars ">=") EXPR_GE false ET_DATA;
   ExprRow (chars "and") EXPR_AND false ET_BOOL; ExprRow (chars "or") EXPR_OR false ET_BOOL].
Definition p4_expr_type_of (o : p4_expr_operand) : p4_expr_type :=
  match o with
  | EO_HEADER _ => ET_HEADER
  | EO_BOOL _ | EO_EXPR _ => ET_BOOL
  | EO_FIELD _ | EO_HEXSTR _ _ => ET_DATA
  | EO_NONE => ET_NONE
  end.
Definition p4_check_expr_types (row : expr_row) (left right : p4_expr_operand) : result unit :=
  let l := p4_expr_type_of left in
  let r := p4_expr_type_of right in
  if bool_decide (eo_takes row = ET_SAME) then
    fail_if (bool_decide (l = ET_HEADER) && bool_decide (r = ET_HEADER)) ENOSYS ;;
    fail_if (negb (bool_decide (l = r))) EINVAL
  else fail_if (negb (eo_unary row) && negb (bool_decide (l = eo_takes row)) || negb (bool_decide (r = eo_takes row))) EINVAL.
(** One side of an operator; [rec] walks a nested expression. *)
Definition p4_walk_expr_operand (rec : json -> list p4_expr_node -> result (Z * list p4_expr_node)) (tv : json) (nodes : list p4_expr_node)
    : result (p4_expr_operand * list p4_expr_node) :=
  if is_null tv then mret (EO_NONE, nodes)
  else
    fail_if (negb (is_object tv)) EINVAL ;;
    type ← need EINVAL (p4_get_str tv "type");
    val ← need EINVAL (get tv "value");
    if is_chars type "expression" then
      r ← rec tv nodes;
      mret (EO_EXPR (r : Z * list p4_expr_node).1, r.2)
    else if is_chars type "field" then
      names ← need EINVAL (p4_pair_strings val);
      ref ← need EINVAL (p4_resolve_field prog (names : cstr * cstr).1 names.2);
      mret (EO_FIELD ref, nodes)
    else if is_chars type "header" then
      hn ← need EINVAL (p4_str_val val NAME_CAP);
      let h := p4_find_header prog hn in
      fail_if (h =? P4_IDX_NONE) EINVAL ;;
      mret (EO_HEADER h, nodes)
    else if is_chars type "hexstr" then
      v ← need EINVAL (hexstr_pos val P4_MAX_IMM_BYTES);
      mret (EO_HEXSTR (v : list Z * Z).2 v.1, nodes)
    else if is_chars type "bool" then
      match val with JBool b => mret (EO_BOOL b, nodes) | _ => p4_fail EINVAL end
    else p4_fail ENOSYS.
(** [levels] is the depths left, this one's included. *)
Fixpoint p4_walk_expr (levels : nat) (tv : json) (nodes : list p4_expr_node) : result (Z * list p4_expr_node) :=
  match levels with
  | O => p4_fail EINVAL
  | S levels =>
      fail_if (bool_decide (P4_MAX_EXPR_NODES <= length nodes)%nat) EINVAL ;;
      val ← need EINVAL (p4_get_obj tv "value");
      opname ← need EINVAL (p4_get_str val "op");
      row ← need ENOSYS (snd <$> list_find (fun r => eo_name r = opname) p4_expr_ops);
      let self := length nodes in
      let side key nodes := p4_walk_expr_operand (p4_walk_expr levels) (default JNull (get val key)) nodes in
      l ← side "left" (nodes ++ [P4ExprNode (eo_op row) EO_NONE EO_NONE]);
      r ← side "right" (l : p4_expr_operand * list p4_expr_node).2;
      let node := P4ExprNode (eo_op row) l.1 (r : p4_expr_operand * list p4_expr_node).1 in
      let absent o := match o with EO_NONE => true | _ => false end in
      fail_if (if eo_unary row then negb (absent (en_left node)) || absent (en_right node) else absent (en_left node) || absent (en_right node)) EINVAL ;;
      p4_check_expr_types row (en_left node) (en_right node) ;;
      mret (Z.of_nat self, <[self := node]> r.2)
  end.
Definition expr_levels : nat := Z.to_nat P4_MAX_EXPR_DEPTH + 1.
End actions.

(** ** Tables *)
Definition p4_match_kind_of (s : cstr) : option p4_match_kind :=
  if is_chars s "exact" then Some MATCH_EXACT
  else if is_chars s "lpm" then Some MATCH_LPM
  else if is_chars s "ternary" then Some MATCH_TERNARY
  else None.
Section tables.
Variable prog : p4_program.
(** The mask of a key field of [fbits] bits. *)
Definition p4_walk_key_mask (kf : json) (fbits : Z) : result (option (list Z)) :=
  match get_nonnull kf "mask" with
  | None => mret None
  | Some mask =>
      m ← need EINVAL (hexstr_pos mask P4_MAX_ENTRY_BYTES);
      fail_if (fbits <? be_bit_length (m : list Z * Z).1) EINVAL ;;
      mret (Some m.1)
  end.
(** The keys read so far, the LPM key among them and their kind. *)
Definition p4_walk_table_key (acc : list p4_table_key * Z * p4_match_kind) (kf : json) : result (list p4_table_key * Z * p4_match_kind) :=
  let '(keys, lpm_key, keys_kind) := acc in
  fail_if (negb (is_object kf)) EINVAL ;;
  mt ← need EINVAL (p4_get_str kf "match_type");
  kind ← need ENOSYS (p4_match_kind_of mt);
  fail_if (bool_decide (kind = MATCH_LPM) && negb (lpm_key =? P4_IDX_NONE)) EINVAL ;;
  let lpm_key := if bool_decide (kind = MATCH_LPM) then Z.of_nat (length keys) else lpm_key in
  let keys_kind := if kind_rank keys_kind <? kind_rank kind then kind else keys_kind in
  names ← need EINVAL (v ← get kf "target"; p4_pair_strings v);
  field ← need EINVAL (p4_resolve_field prog (names : cstr * cstr).1 names.2);
  let fbits := p4_field_bits prog field in
  fail_if (Z.of_nat P4_MAX_ENTRY_BYTES * 8 <? fbits) EINVAL ;;
  mask ← p4_walk_key_mask kf fbits;
  mret (keys ++ [match (mask : option (list Z)) with
                 | Some m => P4TableKey kind true field m
                 | None => P4TableKey kind false field (zeros P4_MAX_ENTRY_BYTES)
                 end], lpm_key, keys_kind).
Definition p4_walk_table_action (actions : list Z) (e : json) : result (list Z) :=
  name ← need EINVAL (p4_str_val e NAME_CAP);
  let a := find_name ac_name (pg_actions prog) name in
  fail_if (a =? P4_IDX_NONE) EINVAL ;;
  mret (actions ++ [a]).
Definition p4_walk_default_arg (acc : list (Z * list Z)) (arg : Z * json) : result (list (Z * list Z)) :=
  let '(pbits, e) := arg in
  v ← need EINVAL (hexstr_pos e P4_MAX_IMM_BYTES);
  fail_if (pbits <? be_bit_length (v : list Z * Z).1) EINVAL ;;
  mret (acc ++ [(v.2, v.1)]).
(** The default action and its arguments. *)
Definition p4_walk_default (t : json) (actions : list Z) : result (Z * list (Z * list Z)) :=
  match p4_get_obj t "default_entry" with
  | None => mret (P4_IDX_NONE, [])
  | Some v =>
      aid ← need EINVAL (p4_get_u32 v "action_id" 0 P4_MAX_ID);
      a ← need EINVAL (list_find (fun a => ac_id a = aid) (pg_actions prog));
      let default_action := Z.of_nat (a : nat * p4_action).1 in
      fail_if (negb (bool_decide (default_action ∈ actions))) EINVAL ;;
      data ← need EINVAL (p4_get_array v "action_data" P4_MAX_RUNTIME_ARGS);
      fail_if (negb (bool_decide (length data = length (ac_runtime_bits a.2)))) EINVAL ;;
      args ← each p4_walk_default_arg [] (zip (ac_runtime_bits a.2) data);
      mret (default_action, args)
  end.
(** A table, and the entries every table has asked for. *)
Definition p4_walk_table (total_entries : Z) (t : json) : result (p4_table * Z) :=
  name ← need EINVAL (p4_get_str t "name");
  id ← need EINVAL (p4_get_u32 t "id" 0 P4_MAX_ID);
  type ← need EINVAL (p4_get_str t "type");
  fail_if (negb (is_chars type "simple")) ENOSYS ;;
  mt ← need EINVAL (p4_get_str t "match_type");
  match_type ← need ENOSYS (p4_match_kind_of mt);
  fail_if (bool_decide (is_Some (get_nonnull t "entries"))) ENOSYS ;;
  fail_if (default false (p4_get_bool t "with_counters")) ENOSYS ;;
  fail_if (default false (p4_get_bool t "support_timeout")) ENOSYS ;;
  fail_if (bool_decide (is_Some (get_nonnull t "direct_meters"))) ENOSYS ;;
  max_size ← need EINVAL (p4_get_u32 t "max_size" 0 P4_MAX_TOTAL_ENTRIES);
  fail_if (P4_MAX_TOTAL_ENTRIES - total_entries <? max_size) EINVAL ;;
  key ← need EINVAL (p4_get_array t "key" P4_MAX_TABLE_KEY);
  k ← each p4_walk_table_key ([], P4_IDX_NONE, MATCH_EXACT) key;
  fail_if (negb (bool_decide (match_type = (k : list p4_table_key * Z * p4_match_kind).2))) EINVAL ;;
  acts ← need EINVAL (p4_get_array t "actions" P4_MAX_TABLE_ACTIONS);
  fail_if (bool_decide (length acts = 0%nat)) EINVAL ;;
  actions ← each p4_walk_table_action [] acts;
  d ← p4_walk_default t actions;
  mret (P4Table name id max_size match_type k.1.1 k.1.2 actions (replicate (length actions) P4_IDX_NONE) P4_IDX_NONE
          (d : Z * list (Z * list Z)).1 d.2, total_entries + max_size).

(** ** The graph *)
Definition node_name (pl : p4_pipeline) (n : p4_node) : cstr :=
  match n with
  | NODE_TABLE i => tb_name (elt (pl_tables pl) i)
  | NODE_CONDITIONAL i => cn_name (elt (pl_conditionals pl) i)
  end.
Definition p4_find_node (pl : p4_pipeline) (name : cstr) : Z := find_name (node_name pl) (pl_nodes pl) name.
Definition p4_check_node_unique (pls : list p4_pipeline) (name : cstr) : result unit :=
  fail_if (existsb (fun other => negb (p4_find_node other name =? P4_IDX_NONE)) pls) EINVAL.
(** [None] is NULL. *)
Definition p4_resolve_next (pl : p4_pipeline) (v : option json) : result Z :=
  match v ≫= fun v => if is_null v then None else Some v with
  | None => mret P4_IDX_NONE
  | Some v =>
      name ← need EINVAL (p4_str_val v NAME_CAP);
      let n := p4_find_node pl name in
      fail_if (n =? P4_IDX_NONE) EINVAL ;;
      mret n
  end.
Definition is_hit_key (key : cstr) : bool := is_chars key "__HIT__" || is_chars key "__MISS__".
Definition p4_walk_next_tables (t : json) (pl : p4_pipeline) (dst : p4_table) : result p4_table :=
  nt ← need EINVAL (p4_get_obj t "next_tables");
  let keys := match nt with JObj m => m.*1 | _ => [] end in
  let by_hit := existsb is_hit_key keys in
  let by_action := existsb (fun key => negb (is_hit_key key)) keys in
  fail_if (by_hit && by_action) EINVAL ;;
  if by_hit then
    hit ← p4_resolve_next pl (get nt "__HIT__");
    miss ← p4_resolve_next pl (get nt "__MISS__");
    mret (dst <| tb_next := replicate (length (tb_actions dst)) hit |> <| tb_base_default_next := miss |>)
  else
    let aname a := ac_name (elt (pg_actions prog) a) in
    next ← each (fun next a => v ← need EINVAL (json_object_object_get_ex nt (aname a)); n ← p4_resolve_next pl (Some v); mret (next ++ [n])) [] (tb_actions dst);
    fail_if (existsb (fun key => negb (p4_name_printable key) || negb (bool_decide (key ∈ aname <$> tb_actions dst))) keys) EINVAL ;;
    let dst := dst <| tb_next := next |> in
    match get t "base_default_next" with
    | None => mret dst
    | Some v => miss ← p4_resolve_next pl (Some v); mret (dst <| tb_base_default_next := miss |>)
    end.
End tables.

(** ** No cycles

    The depth-first search as it is written: the colours, and the stack with
    each node's next edge, its top first. *)
Inductive colour := WHITE | GREY | BLACK.
#[export] Instance colour_eq : EqDecision colour.
Proof. solve_decision. Defined.
#[export] Instance colour_white : Inhabited colour := populate WHITE.
(** The first edge that leads somewhere, and the index after it. *)
Fixpoint scan_edges (es : list Z) (e : nat) : Z * nat :=
  match es with
  | [] => (P4_IDX_NONE, e)
  | n :: es => if n =? P4_IDX_NONE then scan_edges es (S e) else (n, S e)
  end.
Section graph.
Variable pl : p4_pipeline.
(** [None]: out of fuel. *)
Fixpoint dfs_loop (fuel : nat) (colours : list colour) (stack : list (Z * nat)) : option (result (list colour)) :=
  match fuel with
  | O => None
  | S fuel =>
      match stack with
      | [] => Some (mret colours)
      | (cur, edge) :: below =>
          let '(next, edge) := scan_edges (drop edge (node_edges pl cur)) edge in
          if next =? P4_IDX_NONE then dfs_loop fuel (<[Z.to_nat cur := BLACK]> colours) below
          else
            match elt colours next with
            | GREY => Some (p4_fail EINVAL)
            | WHITE => dfs_loop fuel (<[Z.to_nat next := GREY]> colours) ((next, 0%nat) :: (cur, edge) :: below)
            | BLACK => dfs_loop fuel colours ((cur, edge) :: below)
            end
      end
  end.
(** What no refusal is: the search did not end within its fuel. *)
Definition OUT_OF_FUEL : Z := 1.
(** One step for every edge and for every node, and one to see the end. *)
Definition dfs_fuel : nat := S (sum_list_with (fun n => S (length (node_edges pl (Z.of_nat n)))) (seq 0 (length (pl_nodes pl)))).
Definition dfs_from (colours : list colour) (start : nat) : result (list colour) :=
  if bool_decide (colours !!! start = WHITE) then
    default (inl OUT_OF_FUEL) (dfs_loop dfs_fuel (<[start := GREY]> colours) [(Z.of_nat start, 0%nat)])
  else mret colours.
Definition p4_check_acyclic : result unit :=
  each dfs_from (replicate P4_MAX_NODES WHITE) (seq 0 (length (pl_nodes pl))) ;; mret tt.
End graph.

(** ** Pipelines

    [pls] are the two slots; a pipeline not walked yet has no nodes. *)
Section pipelines.
Variable prog : p4_program.
Section pipeline.
Variables (pls : list p4_pipeline) (slot : nat).
Definition p4_walk_pl_table (acc : p4_pipeline * Z) (t : json) : result (p4_pipeline * Z) :=
  let '(pl, total_entries) := acc in
  fail_if (negb (is_object t)) EINVAL ;;
  r ← p4_walk_table prog total_entries t;
  let tb := (r : p4_table * Z).1 in
  p4_check_node_unique (<[slot := pl]> pls) (tb_name tb) ;;
  fail_if (existsb (fun tb' => tb_id tb' =? tb_id tb) (pl_tables pl)) EINVAL ;;
  mret (pl <| pl_nodes ::= fun ns => ns ++ [NODE_TABLE (Z.of_nat (length (pl_tables pl)))] |>
           <| pl_tables ::= fun ts => ts ++ [tb] |>, r.2).
Definition p4_walk_conditional (pl : p4_pipeline) (c : json) : result p4_pipeline :=
  fail_if (negb (is_object c)) EINVAL ;;
  name ← need EINVAL (p4_get_str c "name");
  id ← need EINVAL (p4_get_u32 c "id" 0 P4_MAX_ID);
  p4_check_node_unique (<[slot := pl]> pls) name ;;
  fail_if (existsb (fun c' => cn_id c' =? id) (pl_conditionals pl)) EINVAL ;;
  expr ← need EINVAL (get c "expression");
  r ← p4_walk_expr prog expr_levels expr [];
  fail_if (negb ((r : Z * list p4_expr_node).1 =? 0)) EINVAL ;;
  mret (pl <| pl_nodes ::= fun ns => ns ++ [NODE_CONDITIONAL (Z.of_nat (length (pl_conditionals pl)))] |>
           <| pl_conditionals ::= fun cs => cs ++ [P4Conditional name id 0 0 r.2] |>).
Definition p4_next_table (pl : p4_pipeline) (acc : list p4_table) (x : p4_table * json) : result (list p4_table) :=
  tb ← p4_walk_next_tables prog x.2 pl x.1;
  mret (acc ++ [tb]).
Definition p4_next_conditional (pl : p4_pipeline) (acc : list p4_conditional) (x : p4_conditional * json) : result (list p4_conditional) :=
  t ← p4_resolve_next pl (get x.2 "true_next");
  f ← p4_resolve_next pl (get x.2 "false_next");
  mret (acc ++ [x.1 <| cn_true_next := t |> <| cn_false_next := f |>]).
Definition p4_walk_pipeline (total_entries : Z) (p : json) (pl : p4_pipeline) : result (p4_pipeline * Z) :=
  id ← need EINVAL (p4_get_u32 p "id" 0 P4_MAX_ID);
  fail_if (negb (p4_absent_or_empty p "action_profiles")) ENOSYS ;;
  tables ← need EINVAL (p4_get_array p "tables" P4_MAX_TABLES);
  conds ← need EINVAL (p4_get_array p "conditionals" P4_MAX_CONDITIONALS);
  a ← each p4_walk_pl_table (pl <| pl_id := id |>, total_entries) tables;
  pl ← each p4_walk_conditional (a : p4_pipeline * Z).1 conds;
  ts ← each (p4_next_table pl) [] (zip (pl_tables pl) tables);
  cs ← each (p4_next_conditional pl) [] (zip (pl_conditionals pl) conds);
  let pl := pl <| pl_tables := ts |> <| pl_conditionals := cs |> in
  match p4_get_str p "init_table" with
  | None => fail_if (negb (bool_decide (length (pl_nodes pl) = 0%nat))) EINVAL ;; mret (pl <| pl_init_node := P4_IDX_NONE |>, a.2)
  | Some init =>
      let n := p4_find_node pl init in
      fail_if (n =? P4_IDX_NONE) EINVAL ;;
      let pl := pl <| pl_init_node := n |> in
      p4_check_acyclic pl ;;
      mret (pl, a.2)
  end.
End pipeline.

(** The slots, which of them were read, and the entries asked for. *)
Definition p4_walk_slot (acc : list p4_pipeline * list bool * Z) (p : json) : result (list p4_pipeline * list bool * Z) :=
  let '(pls, seen, total_entries) := acc in
  fail_if (negb (is_object p)) EINVAL ;;
  name ← need EINVAL (p4_get_str p "name");
  slot ← need EINVAL (if is_chars name "ingress" then Some 0%nat else if is_chars name "egress" then Some 1%nat else None);
  fail_if (seen !!! slot) EINVAL ;;
  r ← p4_walk_pipeline pls slot total_entries p ((pls !!! slot) <| pl_name := name |>);
  let pl := (r : p4_pipeline * Z).1 in
  fail_if (existsb (fun x => (x : bool * p4_pipeline).1 && (pl_id x.2 =? pl_id pl)) (zip seen pls)) EINVAL ;;
  mret (<[slot := pl]> pls, <[slot := true]> seen, r.2).
Definition p4_walk_pipelines (root : json) : result p4_program :=
  arr ← need EINVAL (p4_get_array root "pipelines" P4_MAX_PIPELINES);
  r ← each p4_walk_slot (replicate P4_MAX_PIPELINES inhabitant, replicate P4_MAX_PIPELINES false, 0) arr;
  let '(pls, seen, _) := (r : list p4_pipeline * list bool * Z) in
  fail_if (negb (seen !!! 0%nat)) EINVAL ;;
  fail_if (negb (seen !!! 1%nat)) EINVAL ;;
  mret (prog <| pg_pipelines := take (length arr) pls |>).
End pipelines.

(** ** The weight of a document *)
Definition P4_JSON_COST_OBJECT : Z := 8.
Definition P4_JSON_COST_ARRAY : Z := 2.
Definition P4_JSON_COST_OTHER : Z := 1.
Definition P4_JSON_MAX_COST : Z := 512 * 1024.
(** The quote of the string we are in, 0 for none. *)
Record scan := Scan { sc_cost : Z; sc_quote : Z; sc_escaped : bool; sc_in_value : bool }.
Definition cost_step (s : scan) (c : Z) : scan :=
  let '(Scan cost quote escaped in_value) := s in
  if negb (quote =? 0) then
    if escaped then Scan cost quote false in_value
    else if c =? 92 then Scan cost quote true in_value
    else if c =? quote then Scan cost 0 false in_value
    else s
  else if c =? 123 then Scan (cost + P4_JSON_COST_OBJECT) 0 escaped false
  else if c =? 91 then Scan (cost + P4_JSON_COST_ARRAY) 0 escaped false
  else if (c =? 34) || (c =? 39) then Scan (cost + P4_JSON_COST_OTHER) c escaped false
  else if bool_decide (c ∈ [125; 93; 44; 58; 32; 9; 10; 13]) then Scan cost 0 escaped false
  else Scan (if in_value then cost else cost + P4_JSON_COST_OTHER) 0 escaped true.
Definition p4_json_cost (s : list Z) : Z := sc_cost (foldl cost_step (Scan 0 0 false false) s).

(** ** json-c's tokener, and the whole *)
Inductive tok_error := TOK_SUCCESS | TOK_CONTINUE | TOK_ERROR.
#[export] Instance tok_error_eq : EqDecision tok_error.
Proof. solve_decision. Defined.
Record tok_out := TokOut { to_root : json; to_error : tok_error; to_parse_end : Z }.
Class Tokener := json_tokener_parse_ex : list Z -> tok_out.
Section parse.
Context `{!Tokener}.
(** Whether json_tokener_new_ex() and calloc() succeed. *)
Variables tok_mem prog_mem : bool.
Definition p4_json_parse (buf : list Z) : result p4_program :=
  let len := Z.of_nat (length buf) in
  fail_if ((len =? 0) || (P4_PROGRAM_MAX <? len)) EINVAL ;;
  fail_if (P4_JSON_MAX_COST <? p4_json_cost buf) EINVAL ;;
  fail_if (negb tok_mem) ENOMEM ;;
  let tok := json_tokener_parse_ex buf in
  let root := to_root tok in
  fail_if (is_null root && bool_decide (to_error tok = TOK_CONTINUE)) EINVAL ;;
  fail_if (is_null root || negb (bool_decide (to_error tok = TOK_SUCCESS))) EINVAL ;;
  fail_if (negb (to_parse_end tok =? len)) EINVAL ;;
  fail_if (negb (is_object root)) EINVAL ;;
  p4_check_meta root ;;
  p4_check_unsupported root ;;
  fail_if (negb prog_mem) ENOMEM ;;
  prog ← p4_walk_header_types inhabitant root;
  prog ← p4_walk_headers prog root;
  prog ← p4_layout_phv prog;
  prog ← p4_resolve_std_metadata prog;
  prog ← p4_walk_parser prog root;
  prog ← p4_walk_deparser prog root;
  prog ← p4_resolve_rdma_metadata prog;
  prog ← p4_walk_externs prog root;
  prog ← p4_walk_actions prog root;
  p4_walk_pipelines prog root.
End parse.
