(* ===== verification/P4JsonGraph.v ===== *)
(** * The search for cycles in a pipeline

    p4_check_acyclic() against the graph: it ends, and accepts exactly the
    pipelines whose nodes have an order that every edge goes down. *)
From S2P Require Export P4Json.
From stdpp Require Import strings.

(** * Reasoning about the loader's walks

    Inversion of a successful walk into its steps, and the errors a walk can
    end in. *)
#[local] Open Scope Z_scope.

(** ** Successes *)
Lemma bind_inr {A B} (m : result A) (f : A -> result B) y : (m ≫= f) = inr y <-> exists x, m = inr x /\ f x = inr y.
Proof.
  destruct m as [rc|x]; split.
  - done.
  - by intros (x & ? & _).
  - intros H. by exists x.
  - by intros (? & [= ->] & ?).
Qed.
Lemma need_inr {A} rc (o : option A) x : need rc o = inr x <-> o = Some x.
Proof. destruct o; split; (by intros [= ->]) || done. Qed.
Lemma fail_if_inr b rc u : fail_if b rc = inr u <-> b = false.
Proof. destruct b, u; done. Qed.
Lemma mret_inr {A} (x y : A) : (mret x : result A) = inr y <-> x = y.
Proof. split; [by intros [= ->]|by intros ->]. Qed.

Lemma existsb_false {A} (f : A -> bool) l : existsb f l = false <-> forall x, x ∈ l -> f x = false.
Proof.
  induction l as [|x l IH]; cbn [existsb]; [split; [by intros _ x []%elem_of_nil|done]|]. rewrite orb_false_iff, IH. set_solver.
Qed.


(** Every step of the walk [H] says it came through. *)
Ltac walk_step H :=
  lazymatch type of H with
  | (need _ _ ≫= _) = inr _ => let x := fresh "x" in let Hx := fresh "Hx" in
      apply bind_inr in H as (x & Hx%need_inr & H)
  | (fail_if _ _ ≫= _) = inr _ => let Hx := fresh "Hf" in apply bind_inr in H as ([] & Hx%fail_if_inr & H)
  | (_ ≫= _) = inr _ => let x := fresh "r" in let Hx := fresh "Hr" in apply bind_inr in H as (x & Hx & H)
  | mret _ = inr _ => apply (proj1 (mret_inr _ _)) in H
  | fail_if _ _ = inr _ => apply (proj1 (fail_if_inr _ _ _)) in H
  | need _ _ = inr _ => apply (proj1 (need_inr _ _ _)) in H
  end.
Ltac walk H := repeat walk_step H.

Section each.
Context {S A : Type} (f : S -> A -> result S).
Lemma each_inv (P : list A -> S -> Prop) s l s' :
  (forall d s x s', d ++ [x] `prefix_of` l -> P d s -> f s x = inr s' -> P (d ++ [x]) s') -> P [] s -> each f s l = inr s' -> P l s'.
Proof.
  intros Hf. assert (forall d l', d ++ l' = l -> forall s, P d s -> each f s l' = inr s' -> P l s') as H; [|by apply (H [])].
  intros d l'. revert d. induction l' as [|x l' IH]; cbn [each]; intros d Hl t Ht He.
  - injection He as <-. by rewrite app_nil_r in Hl; subst.
  - walk He. eapply (IH (d ++ [x])); [by rewrite <-app_assoc|by eapply Hf; [exists l'; by rewrite <-app_assoc|..]|done].
Qed.
Lemma each_cases (P : list A -> S -> Prop) (Q : Z -> Prop) s l :
  (forall d s x, d ++ [x] `prefix_of` l -> P d s -> match f s x with inr s' => P (d ++ [x]) s' | inl rc => Q rc end) -> P [] s ->
  match each f s l with inr s' => P l s' | inl rc => Q rc end.
Proof.
  intros Hf. assert (forall d l', d ++ l' = l -> forall s, P d s -> match each f s l' with inr s' => P l s' | inl rc => Q rc end) as H; [|by apply (H [])].
  intros d l'. revert d. induction l' as [|x l' IH]; cbn [each]; intros d Hl t Ht; [by rewrite app_nil_r in Hl; subst|].
  assert (d ++ [x] `prefix_of` l) as Hp by (exists l'; by rewrite <-app_assoc). specialize (Hf d t x Hp Ht).
  destruct (f t x) as [|t']; cbn; [done|]. apply (IH (d ++ [x])); [by rewrite <-app_assoc|done].
Qed.
Lemma each_keeps (P : S -> Prop) s l s' : (forall s x s', x ∈ l -> P s -> f s x = inr s' -> P s') -> P s -> each f s l = inr s' -> P s'.
Proof.
  intros Hf. apply (each_inv (fun _ s => P s)). intros d t x t' [k Hk]. apply Hf. rewrite Hk. set_solver.
Qed.
End each.
(** A loop that appends what it reads. *)
Lemma each_list {A B} (f : list B -> A -> result (list B)) (R : list B -> A -> B -> Prop) l bs :
  (forall s x s', f s x = inr s' -> exists b, s' = s ++ [b] /\ R s x b) -> each f [] l = inr bs ->
  length bs = length l /\ forall i x b, l !! i = Some x -> bs !! i = Some b -> R (take i bs) x b.
Proof.
  intros Hf. apply (each_inv f (fun l bs => length bs = length l /\ forall i x b, l !! i = Some x -> bs !! i = Some b -> R (take i bs) x b)); [|done].
  intros d s x s' _ [Hl HR] (b & -> & Hb)%Hf. split; [rewrite !length_app; cbn; lia|]. intros i x' b' Hx Hb'.
  apply lookup_app_Some in Hx as [Hx|[Hi Hx]].
  - assert (i < length s)%nat by (apply lookup_lt_Some in Hx; lia). rewrite lookup_app_l in Hb' by done. rewrite take_app_le by lia. by apply HR.
  - apply list_lookup_singleton_Some in Hx as [Hi0 <-]. assert (i = length s) as -> by lia. rewrite lookup_app_r, Nat.sub_diag in Hb' by lia. injection Hb' as <-.
    by rewrite take_app_length.
Qed.
Lemma each_Forall {A B} (R : B -> Prop) {f : list B -> A -> result (list B)} {l bs} :
  each f [] l = inr bs -> (forall s x s', f s x = inr s' -> exists b, s' = s ++ [b] /\ R b) -> Forall R bs /\ length bs = length l.
Proof.
  intros He Hf. destruct (each_list f (fun _ _ b => R b) l bs Hf He) as [Hl HR]. split; [|done].
  apply Forall_lookup. intros i b Hb. destruct (lookup_lt_is_Some_2 l i) as [x Hx]; [rewrite <-Hl; by eapply lookup_lt_Some|]. by eapply HR.
Qed.

(** ** Failures *)
Definition errs {A} (r : result A) : Prop := match r with inl rc => rc = - EINVAL \/ rc = - ENOSYS \/ rc = - ENOMEM | inr _ => True end.
Create HintDb errs.
Lemma errs_ret {A} (x : A) : errs (mret x : result A).
Proof. done. Qed.
Lemma errs_inr {A} (x : A) : errs (inr x : result A).
Proof. done. Qed.
Lemma errs_bind {A B} (m : result A) (f : A -> result B) : errs m -> (forall x, errs (f x)) -> errs (m ≫= f).
Proof. destruct m; cbn; auto. Qed.
Lemma errs_bind_eq {A B} (m : result A) (f : A -> result B) : errs m -> (forall x, m = inr x -> errs (f x)) -> errs (m ≫= f).
Proof. destruct m; cbn; auto. Qed.
Definition errno_ok (rc : Z) : Prop := rc = EINVAL \/ rc = ENOSYS \/ rc = ENOMEM.
Lemma errs_fail {A} rc : errno_ok rc -> errs (p4_fail rc : result A).
Proof. unfold errs, p4_fail. intros [->|[->| ->]]; auto. Qed.
Lemma errs_need {A} rc (o : option A) : errno_ok rc -> errs (need rc o).
Proof. destruct o; [done|]. apply errs_fail. Qed.
Lemma errs_fail_if b rc : errno_ok rc -> errs (fail_if b rc).
Proof. destruct b; [apply errs_fail|done]. Qed.
Lemma errs_each {S A} (f : S -> A -> result S) s l : (forall s x, errs (f s x)) -> errs (each f s l).
Proof. intros Hf. revert s. induction l as [|x l IH]; intros s; cbn [each]; [done|]. apply errs_bind; auto. Qed.
Lemma errs_each_inv {S A} (f : S -> A -> result S) (P : S -> Prop) s l :
  (forall s x s', P s -> f s x = inr s' -> P s') -> (forall s x, P s -> errs (f s x)) -> P s -> errs (each f s l).
Proof.
  intros Hp Hf. revert s. induction l as [|x l IH]; intros s Hs; cbn [each]; [done|]. apply errs_bind_eq; [by apply Hf|]. intros s' Hs'. apply IH. by eapply Hp.
Qed.
Lemma errno_EINVAL : errno_ok EINVAL. Proof. by left. Qed.
Lemma errno_ENOSYS : errno_ok ENOSYS. Proof. by right; left. Qed.
Lemma errno_ENOMEM : errno_ok ENOMEM. Proof. by right; right. Qed.
#[export] Hint Resolve errs_ret errs_inr errs_fail errs_need errs_fail_if errno_EINVAL errno_ENOSYS errno_ENOMEM : errs.
#[export] Hint Resolve errs_bind errs_each : errs.

Ltac errs_go := repeat first
  [ solve [auto 2 with errs nocore] | apply errs_bind; [|intros ?] | apply errs_each; intros ? ?
  | match goal with |- errs (match ?x with _ => _ end) => destruct x end | progress cbv zeta ].
Lemma errs_walk_field acc j : errs (p4_walk_field acc j).
Proof. unfold p4_walk_field. errs_go. Qed.
Lemma errs_unique {A} nm id (l : list A) n i : errs (p4_unique nm id l n i).
Proof. apply errs_fail_if, errno_EINVAL. Qed.
#[export] Hint Resolve errs_walk_field errs_unique : errs.
Lemma errs_arch prog h f b : errs (p4_resolve_arch_field prog h f b).
Proof. unfold p4_resolve_arch_field. errs_go. Qed.
#[export] Hint Resolve errs_arch : errs.
Lemma errs_operand prog n p : errs (p4_walk_operand prog n p).
Proof. unfold p4_walk_operand. errs_go. Qed.
#[export] Hint Resolve errs_operand : errs.
Lemma errs_expr_operand prog rec tv nodes : (forall tv nodes, errs (rec tv nodes)) -> errs (p4_walk_expr_operand prog rec tv nodes).
Proof. intros Hr. unfold p4_walk_expr_operand. errs_go. Qed.
Lemma errs_expr_types row l r : errs (p4_check_expr_types row l r).
Proof. unfold p4_check_expr_types. errs_go. Qed.
#[export] Hint Resolve errs_expr_types : errs.
Lemma errs_expr prog levels : forall tv nodes, errs (p4_walk_expr prog levels tv nodes).
Proof.
  induction levels as [|levels IH]; intros tv nodes; cbn [p4_walk_expr]; [auto with errs|].
  do 4 (apply errs_bind; [auto with errs|intros ?]). cbv zeta. do 2 (apply errs_bind; [by apply errs_expr_operand|intros ?]). errs_go.
Qed.
#[export] Hint Resolve errs_expr : errs.
Lemma errs_next pl v : errs (p4_resolve_next pl v).
Proof. unfold p4_resolve_next. errs_go. Qed.
Lemma errs_key_mask kf b : errs (p4_walk_key_mask kf b).
Proof. unfold p4_walk_key_mask. errs_go. Qed.
#[export] Hint Resolve errs_next errs_key_mask : errs.
Lemma errs_table prog n t : errs (p4_walk_table prog n t).
Proof. unfold p4_walk_table, p4_walk_table_key, p4_walk_table_action, p4_walk_default, p4_walk_default_arg. errs_go. Qed.
Lemma errs_next_tables prog t pl dst : errs (p4_walk_next_tables prog t pl dst).
Proof. unfold p4_walk_next_tables. errs_go. Qed.
#[export] Hint Resolve errs_table errs_next_tables : errs.
Lemma errs_primitive prog n prims pr : errs (p4_walk_primitive prog n prims pr).
Proof. unfold p4_walk_primitive, p4_walk_operands, p4_check_call, p4_check_write. errs_go. Qed.
Lemma errs_transition k s t : errs (p4_walk_transition k s t).
Proof. unfold p4_walk_transition. errs_go. Qed.
#[export] Hint Resolve errs_primitive errs_transition : errs.
Lemma errs_walk_state prog s st : errs (p4_walk_state prog s st).
Proof.
  unfold p4_walk_state, p4_walk_parser_ops, p4_walk_parser_op, p4_walk_transition_key, p4_walk_key, p4_walk_transitions. errs_go.
Qed.
#[export] Hint Resolve errs_walk_state : errs.

#[local] Open Scope Z_scope.

Lemma scan_edges_spec es e :
  (e <= length es)%nat ->
  let '(next, e') := scan_edges (drop e es) e in
  (next = P4_IDX_NONE /\ e' = length es /\ (forall j m, (e <= j)%nat -> es !! j = Some m -> m = P4_IDX_NONE)) \/
  (next <> P4_IDX_NONE /\ (e < e' <= length es)%nat /\ es !! (e' - 1)%nat = Some next /\
   (forall j m, (e <= j < e' - 1)%nat -> es !! j = Some m -> m = P4_IDX_NONE)).
Proof.
  remember (length es - e)%nat as k eqn:Hk. revert e Hk. induction k as [|k IH]; intros e Hk He.
  - rewrite drop_ge by lia. cbn [scan_edges]. left. split_and!; [done|lia|]. intros j m Hj ?%lookup_lt_Some. lia.
  - destruct (lookup_lt_is_Some_2 es e) as [n Hn]; [lia|]. rewrite (drop_S _ _ _ Hn). cbn [scan_edges]. destruct (Z.eqb_spec n P4_IDX_NONE) as [->|Hne].
    + specialize (IH (S e) ltac:(lia) ltac:(lia)). destruct (scan_edges _ _) as [next e']. destruct IH as [(? & ? & H)|(? & ? & ? & H)]; [left|right]; split_and!; try done; try lia.
      all: intros j m Hj Hm; destruct (decide (j = e)) as [->|]; [congruence|eapply (H j); [lia|done]].
    + right. split_and!; [done|lia|lia|by replace (S e - 1)%nat with e by lia|]. intros j m Hj. lia.
Qed.
Lemma sum_seq_upd (f g : nat -> nat) n k :
  (k < n)%nat -> (forall i, i <> k -> f i = g i) -> (sum_list_with f (seq 0 n) + g k = sum_list_with g (seq 0 n) + f k)%nat.
Proof.
  intros Hk Heq. induction n as [|n IH]; [lia|]. rewrite !seq_S, !sum_list_with_app. cbn [sum_list_with Nat.add]. destruct (decide (k = n)) as [->|].
  - assert (sum_list_with f (seq 0 n) = sum_list_with g (seq 0 n)) as ->; [|lia]. clear -Heq. assert (forall i, i ∈ seq 0 n -> f i = g i) as H by (intros i Hi%elem_of_seq; apply Heq; lia).
    revert H. generalize (seq 0 n). induction l as [|i l IH]; intros H; [done|]. cbn. rewrite H, IH by set_solver. done.
  - rewrite (Heq n) by done. specialize (IH ltac:(lia)). lia.
Qed.

Section graph.
Variable pl : p4_pipeline.
Let N := length (pl_nodes pl).
Let edges n := node_edges pl n.
Let deg n := length (edges n).
Hypothesis N_max : (N <= P4_MAX_NODES)%nat.
Hypothesis edges_in : forall n m, 0 <= n < Z.of_nat N -> m ∈ edges n -> next_in (Z.of_nat N) m.

(** [fin]: the finished nodes, the first to finish first. *)
Fixpoint frames (fin : list Z) (child : option Z) (stack : list (Z * nat)) : Prop :=
  match stack with
  | [] => True
  | (n, e) :: below =>
      (e <= deg n)%nat /\ (forall j m, (j < e)%nat -> edges n !! j = Some m -> m = P4_IDX_NONE \/ m ∈ fin \/ child = Some m) /\
      match below with [] => True | (p, _) :: _ => n ∈ edges p end /\ frames fin (Some n) below
  end.
Record dfs_inv (cs : list colour) (stack : list (Z * nat)) (fin : list Z) : Prop := {
  di_len : length cs = P4_MAX_NODES;
  di_fin : NoDup fin /\ Forall (fun n => 0 <= n < Z.of_nat N) fin;
  di_black n : 0 <= n < Z.of_nat N -> elt cs n = BLACK <-> n ∈ fin;
  di_grey n : 0 <= n < Z.of_nat N -> elt cs n = GREY <-> n ∈ stack.*1;
  di_stack : NoDup stack.*1 /\ Forall (fun n => 0 <= n < Z.of_nat N) stack.*1;
  di_order k n m : fin !! k = Some n -> m ∈ edges n -> m <> P4_IDX_NONE -> exists j, (j < k)%nat /\ fin !! j = Some m;
  di_frames : frames fin None stack }.

Definition weight (cs : list colour) (stack : list (Z * nat)) : nat :=
  (sum_list_with (fun n => if decide (cs !!! n = WHITE) then S (deg (Z.of_nat n)) else 0) (seq 0 N) +
   sum_list_with (fun f => S (deg f.1) - f.2) stack)%nat.

Lemma set_colour (cs : list colour) n c m : length cs = P4_MAX_NODES -> 0 <= n < Z.of_nat N -> 0 <= m < Z.of_nat N ->
  elt (<[Z.to_nat n := c]> cs) m = if decide (m = n) then c else elt cs m.
Proof.
  intros Hl Hn Hm. unfold elt. case_decide as Hd.
  - subst. apply list_lookup_total_insert_eq. lia.
  - apply list_lookup_total_insert_ne. lia.
Qed.
Lemma frames_more fin fin' child stack : (forall m, m ∈ fin -> m ∈ fin') -> frames fin child stack -> frames fin' child stack.
Proof.
  intros Hsub. revert child. induction stack as [|[n e] below IH]; intros child; [done|]. intros (He & Hj & Hp & Hb). split_and!; auto.
  intros j m Hlt Hm. destruct (Hj j m Hlt Hm) as [|[|]]; auto.
Qed.
(** A finished child is finished. *)
Lemma frames_done fin n stack : n ∈ fin -> frames fin (Some n) stack -> frames fin None stack.
Proof.
  destruct stack as [|[p e] below]; [done|]. intros Hn (He & Hj & Hp & Hb). split_and!; auto.
  intros j m Hlt Hm. destruct (Hj j m Hlt Hm) as [|[|[= ->]]]; auto.
Qed.

Lemma pop_inv cs cur e below fin :
  dfs_inv cs ((cur, e) :: below) fin -> (forall j m, (e <= j)%nat -> edges cur !! j = Some m -> m = P4_IDX_NONE) ->
  dfs_inv (<[Z.to_nat cur := BLACK]> cs) below (fin ++ [cur]).
Proof.
  intros [Hl [Hnd Hfr] Hb Hg [Hs Hsr] Ho Hf] Hend. cbn [fmap list_fmap fst] in *. apply NoDup_cons in Hs as [Hcur Hs]. apply Forall_cons in Hsr as [Hc Hsr].
  assert (cur ∉ fin) as Hnf by (rewrite <-Hb by done; assert (elt cs cur = GREY) as -> by (apply Hg; [done|set_solver]); done).
  split.
  - by rewrite length_insert.
  - split; [apply NoDup_app; split_and!; [done|set_solver|apply NoDup_singleton]|]. apply Forall_app. by rewrite Forall_singleton.
  - intros n Hn. rewrite set_colour by done. case_decide as Hd; [set_solver|]. rewrite Hb by done. set_solver.
  - intros n Hn. rewrite set_colour by done. case_decide as Hd; [subst; set_solver|]. rewrite Hg by done. set_solver.
  - done.
  - intros k n m Hk Hm Hne. apply lookup_app_Some in Hk as [Hk|[Hk Hs1]].
    + destruct (Ho k n m Hk Hm Hne) as (j & Hj & Hl'). exists j. split; [done|]. by apply lookup_app_l_Some.
    + apply list_lookup_singleton_Some in Hs1 as [Hk0 <-]. apply list_elem_of_lookup in Hm as [j Hm]. destruct Hf as (He & Hj & _).
      destruct (decide (e <= j)%nat) as [Hle|Hlt]; [by destruct Hne; eapply Hend|]. destruct (Hj j m ltac:(lia) Hm) as [?|[Hin|?]]; [done| |done].
      apply list_elem_of_lookup in Hin as [i Hi]. exists i. split; [apply lookup_lt_Some in Hi; lia|by apply lookup_app_l_Some].
  - destruct Hf as (_ & _ & _ & Hf). apply (frames_done _ cur); [set_solver|]. eapply frames_more; [|exact Hf]. set_solver.
Qed.
Lemma push_inv cs cur e e' below fin next :
  dfs_inv cs ((cur, e) :: below) fin -> (e < e' <= deg cur)%nat -> edges cur !! (e' - 1)%nat = Some next ->
  (forall j m, (e <= j < e' - 1)%nat -> edges cur !! j = Some m -> m = P4_IDX_NONE) -> 0 <= next < Z.of_nat N -> elt cs next = WHITE ->
  dfs_inv (<[Z.to_nat next := GREY]> cs) ((next, 0%nat) :: (cur, e') :: below) fin.
Proof.
  intros [Hl Hfin Hb Hg [Hs Hsr] Ho (He & Hj & Hp & Hf)] He' Hnext Hskip Hn Hw.
  assert (next ∉ fin) as Hnf by (rewrite <-Hb by done; by rewrite Hw). assert (next ∉ ((cur, e) :: below).*1) as Hns by (rewrite <-Hg by done; by rewrite Hw).
  cbn [fmap list_fmap fst] in *. split; try done.
  - by rewrite length_insert.
  - intros n Hn'. rewrite set_colour by done. case_decide as Hd; [by subst|by apply Hb].
  - intros n Hn'. rewrite set_colour by done. cbn [fmap list_fmap fst]. case_decide as Hd; [subst; set_solver|]. rewrite Hg by done. set_solver.
  - cbn [fmap list_fmap fst]. split; [by apply NoDup_cons|by constructor].
  - cbn [frames]. split_and!; try done; [lia|intros; lia|by eapply list_elem_of_lookup_2|lia|].
    intros j m Hlt Hm. destruct (decide (j < e)%nat) as [Hje|]; [destruct (Hj j m Hje Hm) as [|[|]]; auto; done|].
    destruct (decide (j = e' - 1)%nat) as [->|]; [right; right; congruence|left; eapply (Hskip j); [lia|done]].
Qed.
Lemma skip_inv cs cur e e' below fin next :
  dfs_inv cs ((cur, e) :: below) fin -> (e < e' <= deg cur)%nat -> edges cur !! (e' - 1)%nat = Some next ->
  (forall j m, (e <= j < e' - 1)%nat -> edges cur !! j = Some m -> m = P4_IDX_NONE) -> 0 <= next < Z.of_nat N -> elt cs next = BLACK ->
  dfs_inv cs ((cur, e') :: below) fin.
Proof.
  intros [Hl Hfin Hb Hg [Hs Hsr] Ho (He & Hj & Hp & Hf)] He' Hnext Hskip Hn Hk. split; try done. cbn [frames]. split_and!; try done; [lia|].
  intros j m Hlt Hm. destruct (decide (j < e)%nat) as [Hje|]; [by apply (Hj j)|].
  destruct (decide (j = e' - 1)%nat) as [->|]; [|left; eapply (Hskip j); [lia|done]]. right; left. replace m with next by congruence. by apply Hb.
Qed.

Lemma weight_set cs n c stack :
  length cs = P4_MAX_NODES -> 0 <= n < Z.of_nat N -> c <> WHITE ->
  (weight (<[Z.to_nat n := c]> cs) stack + (if decide (elt cs n = WHITE) then S (deg n) else 0) = weight cs stack)%nat.
Proof.
  intros Hl Hn Hc. unfold weight.
  pose proof (sum_seq_upd (fun i => if decide (<[Z.to_nat n := c]> cs !!! i = WHITE) then S (deg (Z.of_nat i)) else 0%nat)
    (fun i => if decide (cs !!! i = WHITE) then S (deg (Z.of_nat i)) else 0%nat) N (Z.to_nat n) ltac:(lia)) as H.
  cbn beta in H. rewrite list_lookup_total_insert_eq in H by lia. rewrite (decide_False _ (P := c = WHITE)) in H by done.
  rewrite Z2Nat.id in H by lia. unfold elt. specialize (H ltac:(intros i Hi; by rewrite list_lookup_total_insert_ne)). lia.
Qed.
Lemma chain_rank (rank : Z -> nat) fin child n e below :
  (forall n m, 0 <= n < Z.of_nat N -> m ∈ edges n -> m <> P4_IDX_NONE -> (rank m < rank n)%nat) ->
  Forall (fun n => 0 <= n < Z.of_nat N) ((n, e) :: below).*1 -> frames fin child ((n, e) :: below) ->
  forall m, m ∈ ((n, e) :: below).*1 -> (rank n <= rank m)%nat.
Proof.
  intros Hrank. revert child n e. induction below as [|[p e'] below IH]; intros child n e Hin (_ & _ & Hp & Hf) m; cbn [fmap list_fmap fst] in *.
  - intros ->%list_elem_of_singleton. done.
  - apply Forall_cons in Hin as [Hn Hin]. intros [->|Hm]%elem_of_cons; [done|]. specialize (IH _ _ _ Hin Hf m Hm). apply Forall_cons in Hin as [Hp' _].
    pose proof (Hrank p n Hp' Hp) as H. unfold P4_IDX_NONE, P4_MAX_NODES in *. lia.
Qed.
(** From a state the search reaches, it ends: with every node it coloured
    finished, or refusing a graph that has a cycle. *)
Lemma dfs_loop_spec fuel : forall cs stack fin,
  dfs_inv cs stack fin -> (weight cs stack < fuel)%nat ->
  exists r, dfs_loop pl fuel cs stack = Some r /\
  match r with
  | inr cs' => (exists fin', dfs_inv cs' [] fin') /\ (forall n, 0 <= n < Z.of_nat N -> elt cs n <> WHITE -> elt cs' n <> WHITE)
  | inl rc => rc = - EINVAL /\ ~ acyclic pl
  end.
Proof.
  induction fuel as [|fuel IH]; intros cs stack fin Hinv Hw; [lia|]. cbn [dfs_loop]. destruct stack as [|[cur e] below].
  { eexists. split; [done|]. cbn. eauto. }
  pose proof Hinv as [Hl _ _ Hg [_ Hsr] _ Hf]. pose proof Hf as (He & _ & _). apply Forall_cons in Hsr as Hsr'. destruct Hsr' as [Hc _]. cbn [fst] in Hc.
  pose proof (scan_edges_spec (edges cur) e He) as Hscan. fold (edges cur). destruct (scan_edges _ _) as [next e'].
  destruct Hscan as [(-> & _ & Hend)|(Hne & He' & Hnext & Hskip)].
  - rewrite Z.eqb_refl. pose proof (weight_set cs cur BLACK below Hl Hc ltac:(done)) as Hws.
    destruct (IH _ _ _ (pop_inv _ _ _ _ _ Hinv Hend)) as (r & -> & Hr); [unfold weight in *; cbn [sum_list_with fst snd] in Hw; lia|].
    exists r. split; [done|]. destruct r; [done|]. destruct Hr as [? Hr]. split; [done|]. intros n Hn Hnw. apply Hr; [done|]. rewrite set_colour by done. by destruct (decide (n = _)).
  - rewrite (proj2 (Z.eqb_neq _ _) Hne). assert (0 <= next < Z.of_nat N) as Hn.
    { destruct (edges_in cur next Hc) as [?|?]; [by eapply list_elem_of_lookup_2|done|done]. }
    destruct (elt cs next) eqn:Hcol.
    + pose proof (weight_set cs next GREY ((next, 0%nat) :: (cur, e') :: below) Hl Hn ltac:(done)) as Hws. rewrite decide_True in Hws by done.
      destruct (IH _ _ _ (push_inv _ _ _ _ _ _ _ Hinv He' Hnext Hskip Hn Hcol)) as (r & -> & Hr); [unfold weight in *; cbn [sum_list_with fst snd] in *; lia|].
      exists r. split; [done|]. destruct r; [done|]. destruct Hr as [? Hr]. split; [done|]. intros n Hn' Hnw. apply Hr; [done|]. rewrite set_colour by done. by destruct (decide (n = _)).
    + eexists. split; [done|]. split; [done|]. intros (rank & Hrank).
      pose proof (chain_rank rank fin None cur e below (fun n m H1 H2 H3 => proj1 (Hrank n m H1 H2 H3)) Hsr Hf next (proj1 (Hg next Hn) Hcol)) as Hle.
      destruct (Hrank cur next Hc) as [Hlt _]; [by eapply list_elem_of_lookup_2|done|lia].
    + destruct (IH _ _ _ (skip_inv _ _ _ _ _ _ _ Hinv He' Hnext Hskip Hn Hcol)) as (r & -> & Hr); [unfold weight in *; cbn [sum_list_with fst snd] in *; lia|].
      exists r. by split.
Qed.
Lemma start_inv cs fin start :
  dfs_inv cs [] fin -> (start < N)%nat -> cs !!! start = WHITE -> dfs_inv (<[start := GREY]> cs) [(Z.of_nat start, 0%nat)] fin.
Proof.
  intros [Hl Hfin Hb Hg [Hs Hsr] Ho _] Hst Hw. rewrite <-(Nat2Z.id start) at 1. assert (0 <= Z.of_nat start < Z.of_nat N) as Hr by lia.
  assert (elt cs (Z.of_nat start) = WHITE) as Hw' by (unfold elt; by rewrite Nat2Z.id). split; try done.
  - by rewrite length_insert.
  - intros n Hn. rewrite set_colour by done. case_decide; [|by apply Hb]. subst. rewrite <-Hb by done. by rewrite Hw'.
  - intros n Hn. rewrite set_colour by done. cbn [fmap list_fmap fst]. case_decide; [subst; set_solver|]. rewrite Hg by done. set_solver.
  - cbn [fmap list_fmap fst]. split; [apply NoDup_singleton|by apply Forall_singleton].
  - cbn [frames]. split_and!; try done; [lia|intros; lia].
Qed.
Lemma weight_fuel cs : (weight cs [] < dfs_fuel pl)%nat.
Proof.
  unfold weight, dfs_fuel. fold N. cbn [sum_list_with]. rewrite Nat.add_0_r. apply Nat.lt_succ_r. generalize (seq 0 N). induction l as [|n l IH]; [done|].
  cbn [sum_list_with]. fold (edges (Z.of_nat n)). fold (deg (Z.of_nat n)). destruct (decide _); lia.
Qed.
Lemma dfs_from_spec cs fin start :
  dfs_inv cs [] fin -> (start < N)%nat ->
  match dfs_from pl cs start with
  | inr cs' => (exists fin', dfs_inv cs' [] fin') /\ forall n, 0 <= n < Z.of_nat N -> n = Z.of_nat start \/ elt cs n <> WHITE -> elt cs' n <> WHITE
  | inl rc => rc = - EINVAL /\ ~ acyclic pl
  end.
Proof.
  intros Hinv Hst. unfold dfs_from. case_bool_decide as Hw.
  - pose proof (di_len _ _ _ Hinv) as Hl. pose proof (weight_set cs (Z.of_nat start) GREY [] Hl ltac:(lia) ltac:(done)) as Hws. unfold elt in Hws. rewrite Nat2Z.id, decide_True in Hws by done.
    destruct (dfs_loop_spec (dfs_fuel pl) _ _ _ (start_inv cs fin start Hinv Hst Hw)) as (r & -> & Hr).
    { pose proof (weight_fuel cs). unfold weight in *. cbn [sum_list_with fst snd] in *. lia. }
    cbn [default from_option id]. destruct r as [|cs']; [done|]. destruct Hr as [? Hr]. split; [done|]. intros n Hn Hcase. apply Hr; [done|].
    rewrite <-(Nat2Z.id start), set_colour by (done || lia). destruct (decide (n = _)); [done|]. by destruct Hcase.
  - cbn. split; [eauto|]. intros n Hn [->|?]; [|done]. unfold elt. by rewrite Nat2Z.id.
Qed.
Lemma finished_acyclic cs fin : dfs_inv cs [] fin -> (forall n, 0 <= n < Z.of_nat N -> elt cs n <> WHITE) -> acyclic pl.
Proof.
  intros [Hl [Hnd Hfr] Hb Hg _ Ho _] Hall. exists (fun n => default 0%nat (fst <$> list_find (fun m => m = n) fin)).
  assert (forall k n, fin !! k = Some n -> default 0%nat (fst <$> list_find (fun m => m = n) fin) = k) as Hpos.
  { intros k n Hk. destruct (list_find _ fin) as [[i n']|] eqn:Hf; cbn.
    - apply list_find_Some in Hf as (Hi & -> & _). by eapply NoDup_lookup.
    - apply list_find_None in Hf. exfalso. exact (Forall_lookup_1 _ _ _ _ Hf Hk eq_refl). }
  assert (length fin <= N)%nat as Hlen.
  { assert (fin ⊆+ seqZ 0 (Z.of_nat N)) as Hsub by (apply NoDup_submseteq; [done|]; intros n Hn; apply elem_of_seqZ; rewrite Forall_forall in Hfr; specialize (Hfr n Hn); lia).
    apply submseteq_length in Hsub. rewrite length_seqZ in Hsub. lia. }
  intros n m Hn Hm Hne. assert (n ∈ fin) as Hin.
  { apply Hb; [done|]. destruct (elt cs n) eqn:Hc; [by destruct (Hall n Hn)| |done]. apply Hg in Hc; [|done]. by apply not_elem_of_nil in Hc. }
  apply list_elem_of_lookup in Hin as [k Hk]. destruct (Ho k n m Hk Hm Hne) as (j & Hj & Hm'). rewrite (Hpos k n Hk), (Hpos j m Hm').
  apply lookup_lt_Some in Hk. fold N. lia.
Qed.
(** It ends, with the answer. *)
Lemma check_acyclic_cases : p4_check_acyclic pl = inr tt /\ acyclic pl \/ p4_check_acyclic pl = inl (- EINVAL) /\ ~ acyclic pl.
Proof.
  assert (dfs_inv (replicate P4_MAX_NODES WHITE) [] []) as H0.
  { split; try done; try (split; constructor).
    all: intros n Hn; unfold elt; rewrite lookup_total_replicate_2 by (unfold N in *; lia); split; [done|intros []%elem_of_nil]. }
  pose proof (each_cases (dfs_from pl) (fun d cs => (exists fin, dfs_inv cs [] fin) /\ forall n, 0 <= n < Z.of_nat N -> Z.to_nat n ∈ d -> elt cs n <> WHITE)
    (fun rc => rc = - EINVAL /\ ~ acyclic pl) (replicate P4_MAX_NODES WHITE) (seq 0 N)) as He.
  assert (match each (dfs_from pl) (replicate P4_MAX_NODES WHITE) (seq 0 N) with inr cs => acyclic pl | inl rc => rc = - EINVAL /\ ~ acyclic pl end) as H.
  { unshelve epose proof (He _ _) as H; [| |destruct (each _ _ _) as [rc|cs]; [done|]].
    - intros d s x Hp [[fin Hinv] Hd]. assert (x ∈ seq 0 N) as [_ Hx]%elem_of_seq by (destruct Hp as [k ->]; set_solver).
      pose proof (dfs_from_spec s fin x Hinv Hx) as H. destruct (dfs_from pl s x) as [|s']; [done|]. destruct H as [? H]. split; [done|].
      intros n Hn [Hin|Hx'%list_elem_of_singleton]%elem_of_app; apply H; auto. left. lia.
    - split; [eauto|]. intros n _ []%elem_of_nil.
    - destruct H as [[fin Hinv] Hd]. eapply finished_acyclic; [done|]. intros n Hn. apply Hd; [done|]. apply elem_of_seq. lia. }
  unfold p4_check_acyclic. fold N. destruct (each _ _ _) as [rc|cs]; cbn; [|by left]. destruct H as [-> ?]. by right.
Qed.
Lemma check_acyclic_iff : p4_check_acyclic pl = inr tt <-> acyclic pl.
Proof. destruct check_acyclic_cases as [[-> ?]|[-> ?]]; split; done. Qed.
Lemma errs_acyclic : errs (p4_check_acyclic pl).
Proof. destruct check_acyclic_cases as [[-> ?]|[-> ?]]; [done|by left]. Qed.
End graph.

(** C13: the search of a pipeline for cycles ends within its fuel on every
    graph the loader can have built, cyclic or not: it accepts the pipeline
    exactly when its nodes have an order that every edge goes down, refuses
    every other with EINVAL, and running out of fuel is neither. *)
Theorem acyclic_exact pl :
  (length (pl_nodes pl) <= P4_MAX_NODES)%nat ->
  (forall n m, 0 <= n < Z.of_nat (length (pl_nodes pl)) -> m ∈ node_edges pl n -> next_in (Z.of_nat (length (pl_nodes pl))) m) ->
  (p4_check_acyclic pl = inr tt <-> acyclic pl) /\ (p4_check_acyclic pl = inl (- EINVAL) <-> ~ acyclic pl) /\ p4_check_acyclic pl <> inl OUT_OF_FUEL.
Proof.
  intros Hn He. destruct (check_acyclic_cases pl Hn He) as [[-> ?]|[-> ?]]; split_and!; try done; by split.
Qed.
(** Two conditions that lead to each other. *)
Definition loop_cond (next : Z) : p4_conditional := P4Conditional [] 0 next P4_IDX_NONE [].
Definition loop_pipeline : p4_pipeline := P4Pipeline [] 0 0 [NODE_CONDITIONAL 0; NODE_CONDITIONAL 1] [] [loop_cond 1; loop_cond 0].
Lemma acyclic_exact_witness : p4_check_acyclic loop_pipeline = inl (- EINVAL) /\ ~ acyclic loop_pipeline.
Proof.
  destruct (acyclic_exact loop_pipeline) as (_ & Href & _).
  - cbn. unfold P4_MAX_NODES. lia.
  - intros n m Hn Hm. cbn in Hn. assert (n = 0 \/ n = 1) as [->| ->] by lia; vm_compute in Hm; change (m = 65535 \/ 0 <= m < 2); set_unfold in Hm; lia.
  - split; [reflexivity|]. apply Href. reflexivity.
Defined.
