(* ===== verification/P4JsonOk.v ===== *)
(** * What the loader accepts is [loadable]

    The post-condition of every walk, and of the whole. *)
From S2P Require Export P4JsonGraph.
From S2P Require Import ParseProps.
From stdpp Require Import strings.

(** * The programs the loader builds

    [loadable]: what is true of a program beyond what the executor relies on
    ([prog_ok]).  Names are printable and distinct, ids are distinct, every
    reference is to the first thing of its name, literals are as wide as
    they are written, the architecture's fields are found by name, an
    expression is laid out in the order it is written. *)
#[local] Open Scope Z_scope.

Definition name_ok (s : cstr) : Prop := (1 <= length s <= P4_MAX_NAME)%nat /\ p4_name_printable s = true.
Definition id_ok (i : Z) : Prop := 0 <= i <= P4_MAX_ID.
(** Things that have a name and an id, each their own. *)
Definition named {A} (nm : A -> cstr) (id : A -> Z) (l : list A) : Prop :=
  NoDup (nm <$> l) /\ NoDup (id <$> l) /\ Forall (fun a => name_ok (nm a) /\ id_ok (id a)) l.
(** A literal written in [n] bytes. *)
Definition literal (n : Z) (imm : list Z) : Prop := bytes16_ok imm /\ 1 <= n <= 16 /\ be_value imm < 256 ^ n.

Section loadable.
Variable prog : p4_program.

(** No field before it has its name. *)
Definition ref_first (r : p4_field_ref) : Prop :=
  ref_ok prog r /\ forall j, 0 <= j < fr_field r -> fd_name (elt (ht_fields (type_of prog (fr_header r))) j) <> fd_name (field_of prog r).
(** The field a pair of names means. *)
Definition field_named (h f : cstr) (r : p4_field_ref) : Prop :=
  ref_first r /\ hd_name (elt (pg_headers prog) (fr_header r)) = h /\ fd_name (field_of prog r) = f.
Definition arch_field (h f : cstr) (bits : Z) (r : p4_field_ref) : Prop :=
  field_named h f r /\ fd_bits (field_of prog r) = bits \/ (forall r, ~ field_named h f r) /\ r = no_ref.

Definition type_loadable (t : p4_header_type) : Prop := (length (ht_fields t) <= P4_MAX_FIELDS)%nat /\ Forall (fun f => name_ok (fd_name f)) (ht_fields t).

Definition transition_loadable (key_bytes : Z) (t : p4_transition) : Prop :=
  if tr_is_default t then tr_has_mask t = false /\ tr_value t = zeros P4_MAX_KEY_BYTES /\ tr_mask t = zeros P4_MAX_KEY_BYTES
  else literal key_bytes (tr_value t) /\ (if tr_has_mask t then literal key_bytes (tr_mask t) else tr_mask t = zeros P4_MAX_KEY_BYTES).
Definition state_loadable (st : p4_parse_state) : Prop :=
  name_ok (ps_name st) /\ (length (ps_ops st) <= P4_MAX_PARSER_OPS)%nat /\ (length (ps_key st) <= P4_MAX_TRANSITION_KEY)%nat /\
  (length (ps_transitions st) <= P4_MAX_TRANSITIONS)%nat /\ Forall ref_first (ps_key st) /\
  Forall (transition_loadable (ps_key_bytes st)) (ps_transitions st).

(** The five fields of an RDMA operation, of the first header that is named
    for it; the deparser does not emit that header. *)
Definition rdma_loadable : Prop :=
  match list_find (fun h => is_rdma_metadata (hd_name h) = true) (pg_headers prog) with
  | None => (pg_has_rdma_metadata prog = false) /\ pg_rdma_opcode prog = inhabitant /\ pg_rdma_qp_num prog = inhabitant /\
      pg_rdma_length prog = inhabitant /\ pg_rdma_imm_data prog = inhabitant /\ pg_rdma_rkey prog = inhabitant
  | Some (h, hd) => pg_has_rdma_metadata prog = true /\ (Z.of_nat h ∉ pg_deparse_order prog) /\
      arch_field (hd_name hd) (chars "opcode") 8 (pg_rdma_opcode prog) /\ arch_field (hd_name hd) (chars "qp_num") 24 (pg_rdma_qp_num prog) /\
      arch_field (hd_name hd) (chars "length") 32 (pg_rdma_length prog) /\ arch_field (hd_name hd) (chars "imm_data") 32 (pg_rdma_imm_data prog) /\
      arch_field (hd_name hd) (chars "rkey") 32 (pg_rdma_rkey prog)
  end.

Definition operand_loadable (o : p4_operand) : Prop :=
  match o with
  | OPD_FIELD r => ref_first r
  | OPD_HEXSTR n imm => literal n imm
  | _ => True
  end.
(** A call has its method's arity and an instance of its type; a value fits
    the field it is written to. *)
Definition prim_loadable (p : p4_primitive) : Prop :=
  Forall operand_loadable (pr_params p) /\
  match pr_kind p with
  | PRIM_EXTERN =>
      xi_type (elt (pg_externs prog) (opd_inst (pr_params p !!! 0%nat))) = P4_EXTERN_FP8 /\
      (pr_method p = P4_EXTERN_FP8_MAP /\ length (pr_params p) = 2%nat \/ pr_method p = P4_EXTERN_FP8_CVT /\ length (pr_params p) = 3%nat)
  | PRIM_DROP | PRIM_NOP => pr_method p = 0
  | _ => pr_method p = 0 /\ forall n imm, OPD_HEXSTR n imm ∈ tail (pr_params p) -> be_bit_length imm <= fd_bits (field_of prog (opd_field (pr_params p !!! 0%nat)))
  end.
Definition action_loadable (a : p4_action) : Prop :=
  (length (ac_primitives a) <= P4_MAX_PRIMITIVES)%nat /\ Forall prim_loadable (ac_primitives a).

(** An expression as it is written, and the nodes it becomes: an operator
    first, then what is under it on the left, then on the right. *)
Inductive expr :=
  | Expr (row : expr_row) (left right : expr_side)
with expr_side :=
  | SNone
  | SExpr (e : expr)
  | SLeaf (o : p4_expr_operand).
Fixpoint expr_size (e : expr) : nat := let '(Expr _ l r) := e in S (side_size l + side_size r)
with side_size (s : expr_side) : nat := match s with SExpr e => expr_size e | _ => 0%nat end.
Fixpoint expr_depth (e : expr) : nat := let '(Expr _ l r) := e in S (side_depth l `max` side_depth r)
with side_depth (s : expr_side) : nat := match s with SExpr e => expr_depth e | _ => 0%nat end.
Definition side_operand (base : nat) (s : expr_side) : p4_expr_operand :=
  match s with SNone => EO_NONE | SExpr _ => EO_EXPR (Z.of_nat base) | SLeaf o => o end.
Fixpoint expr_nodes (base : nat) (e : expr) : list p4_expr_node :=
  let '(Expr row l r) := e in
  P4ExprNode (eo_op row) (side_operand (S base) l) (side_operand (S base + side_size l) r) ::
  side_nodes (S base) l ++ side_nodes (S base + side_size l) r
with side_nodes (base : nat) (s : expr_side) : list p4_expr_node := match s with SExpr e => expr_nodes base e | _ => [] end.
(** An operator of the language over operands of its types. *)
Definition leaf_ok (o : p4_expr_operand) : Prop :=
  match o with
  | EO_FIELD r => ref_first r
  | EO_HEXSTR n imm => literal n imm
  | EO_HEADER h => hdr_idx_ok prog h
  | EO_BOOL _ => True
  | EO_NONE | EO_EXPR _ => False
  end.
Definition side_type (s : expr_side) : p4_expr_type := match s with SNone => ET_NONE | SExpr _ => ET_BOOL | SLeaf o => p4_expr_type_of o end.
Definition typed (row : expr_row) (l r : p4_expr_type) : Prop :=
  match eo_takes row with
  | ET_SAME => l = r /\ l <> ET_HEADER /\ l <> ET_NONE
  | t => (if eo_unary row then l = ET_NONE else l = t) /\ r = t
  end.
Fixpoint expr_typed (e : expr) : Prop :=
  let '(Expr row l r) := e in row ∈ p4_expr_ops /\ typed row (side_type l) (side_type r) /\ side_typed l /\ side_typed r
with side_typed (s : expr_side) : Prop := match s with SNone => True | SExpr e => expr_typed e | SLeaf o => leaf_ok o end.
Definition expr_loadable (nodes : list p4_expr_node) : Prop :=
  exists e, nodes = expr_nodes 0 e /\ expr_typed e /\ (expr_depth e <= S (Z.to_nat P4_MAX_EXPR_DEPTH))%nat /\ (expr_size e <= P4_MAX_EXPR_NODES)%nat.

Definition key_loadable (k : p4_table_key) : Prop :=
  ref_first (tk_field k) /\
  if tk_has_mask k then bytes16_ok (tk_mask k) /\ be_bit_length (tk_mask k) <= fd_bits (field_of prog (tk_field k)) else tk_mask k = zeros P4_MAX_ENTRY_BYTES.
Definition aname (a : Z) : cstr := ac_name (elt (pg_actions prog) a).
(** A table is of the kind of its most general key, and [tb_lpm_key] its LPM
    key if it has one.  Where it goes after a hit depends on the action only,
    and not on it when the action is called as a hit is. *)
Definition table_loadable (t : p4_table) : Prop :=
  name_ok (tb_name t) /\ id_ok (tb_id t) /\ Forall key_loadable (tb_key t) /\
  (tb_match_type t = MATCH_EXACT \/ exists k, k ∈ tb_key t /\ tk_match_type k = tb_match_type t) /\
  (tb_lpm_key t = P4_IDX_NONE \/ tk_match_type <$> tb_key t !! Z.to_nat (tb_lpm_key t) = Some MATCH_LPM /\ 0 <= tb_lpm_key t) /\
  (1 <= length (tb_actions t) <= P4_MAX_TABLE_ACTIONS)%nat /\
  (forall i j a, tb_actions t !! i = Some a -> tb_actions t !! j = Some a -> tb_next t !!! i = tb_next t !!! j) /\
  ((exists a, a ∈ tb_actions t /\ is_hit_key (aname a) = true) -> exists hit, tb_next t = replicate (length (tb_actions t)) hit) /\
  Forall2 (fun b d => literal d.1 d.2 /\ be_bit_length d.2 <= b)
    (if decide (tb_default_action t = P4_IDX_NONE) then [] else ac_runtime_bits (elt (pg_actions prog) (tb_default_action t))) (tb_default_data t).
Definition conditional_loadable (c : p4_conditional) : Prop := name_ok (cn_name c) /\ id_ok (cn_id c) /\ expr_loadable (cn_expr c).
Definition pipeline_loadable (pl : p4_pipeline) : Prop :=
  id_ok (pl_id pl) /\
  pl_nodes pl = (NODE_TABLE <$> seqZ 0 (Z.of_nat (length (pl_tables pl)))) ++ (NODE_CONDITIONAL <$> seqZ 0 (Z.of_nat (length (pl_conditionals pl)))) /\
  (length (pl_conditionals pl) <= P4_MAX_CONDITIONALS)%nat /\
  Forall table_loadable (pl_tables pl) /\ NoDup (tb_id <$> pl_tables pl) /\
  Forall conditional_loadable (pl_conditionals pl) /\ NoDup (cn_id <$> pl_conditionals pl) /\
  (pl_init_node pl = P4_IDX_NONE -> pl_nodes pl = []) /\ (pl_init_node pl <> P4_IDX_NONE -> pl_nodes pl <> []).
Definition node_names (pl : p4_pipeline) : list cstr := (tb_name <$> pl_tables pl) ++ (cn_name <$> pl_conditionals pl).

Record loadable : Prop := {
  lo_ok : prog_ok prog;
  lo_types : named ht_name ht_id (pg_header_types prog) /\ (length (pg_header_types prog) <= P4_MAX_HEADER_TYPES)%nat /\ Forall type_loadable (pg_header_types prog);
  lo_headers : named hd_name hd_id (pg_headers prog);
  lo_std : arch_field (chars "standard_metadata") (chars "egress_spec") 9 (pg_egress_spec prog) /\
    arch_field (chars "standard_metadata") (chars "ingress_port") 9 (pg_ingress_port prog) /\
    arch_field (chars "standard_metadata") (chars "egress_port") 9 (pg_egress_port prog);
  lo_states : NoDup (ps_name <$> pg_parse_states prog) /\ (length (pg_parse_states prog) <= P4_MAX_PARSE_STATES)%nat /\ Forall state_loadable (pg_parse_states prog);
  lo_rdma : rdma_loadable;
  lo_externs : named xi_name xi_id (pg_externs prog) /\ (length (pg_externs prog) <= P4_MAX_EXTERNS)%nat /\ Forall (fun x => xi_type x = P4_EXTERN_FP8) (pg_externs prog);
  lo_actions : named ac_name ac_id (pg_actions prog) /\ (length (pg_actions prog) <= P4_MAX_ACTIONS)%nat /\ Forall action_loadable (pg_actions prog);
  lo_pipelines : pl_name <$> pg_pipelines prog = [chars "ingress"; chars "egress"] /\ NoDup (pl_id <$> pg_pipelines prog) /\
    Forall pipeline_loadable (pg_pipelines prog) /\ NoDup (mjoin (node_names <$> pg_pipelines prog)) /\
    sumZ (tb_max_size <$> mjoin (pl_tables <$> pg_pipelines prog)) <= P4_MAX_TOTAL_ENTRIES }.
End loadable.

#[local] Open Scope Z_scope.

(** ** Accessors *)
Lemma str_val_ok v s : p4_str_val v NAME_CAP = Some s -> name_ok s.
Proof.
  unfold p4_str_val. intros (s' & _ & H)%bind_Some. destruct (_ || _ || _) eqn:Hb; [done|]. injection H as ->.
  apply orb_false_iff in Hb as [[H1 H2]%orb_false_iff H3]. apply bool_decide_eq_false in H1, H2. apply negb_false_iff in H3.
  split; [unfold NAME_CAP in *; lia|done].
Qed.
Lemma get_str_ok j k s : p4_get_str j k = Some s -> name_ok s.
Proof. intros (v & _ & H)%bind_Some. by eapply str_val_ok. Qed.
Lemma get_u32_ok j k lo hi v : p4_get_u32 j k lo hi = Some v -> 0 <= v /\ lo <= v <= hi.
Proof.
  intros (x & _ & (raw & _ & H)%bind_Some)%bind_Some. destruct (_ || _ || _) eqn:Hb; [done|]. injection H as ->.
  apply orb_false_iff in Hb as [[H1%Z.ltb_ge H2%Z.ltb_ge]%orb_false_iff H3%Z.ltb_ge]. lia.
Qed.
Lemma get_id_ok j k v : p4_get_u32 j k 0 P4_MAX_ID = Some v -> id_ok v.
Proof. intros H%get_u32_ok. unfold id_ok. lia. Qed.
Lemma get_array_len j k cap l : p4_get_array j k cap = Some l -> (length l <= cap)%nat.
Proof. intros (v & _ & H)%bind_Some. destruct v; try done. case_bool_decide; [done|]. injection H as ->. lia. Qed.
Lemma hexstr_literal v out n neg : hexstr v 16 = Some (out, n, neg) -> literal n out.
Proof.
  intros (s & _ & H)%bind_Some. destruct (proj1 (parse_hexstr_spec s 16) _ _ _ H) as (ds & (_ & Hne & Hd) & Hn & Hn16 & Hl & Hb & Hv).
  assert (1 <= Z.of_nat (length ds)) as H1 by (destruct ds; [done|cbn; lia]). split_and!; [done|subst n; Z.to_euclidean_division_equations; lia|lia|].
  rewrite Hv. pose proof (hex_from_range 0 ds Hd ltac:(lia)) as Hr. change (hex_from 0 ds) with (hex_value ds) in Hr.
  assert (16 ^ Z.of_nat (length ds) <= 256 ^ n); [|lia]. change 256 with (16 ^ 2). rewrite <-Z.pow_mul_r by (subst n; Z.to_euclidean_division_equations; lia).
  apply Z.pow_le_mono_r; [lia|]. subst n. Z.to_euclidean_division_equations; lia.
Qed.
Lemma hexstr_pos_literal v x : hexstr_pos v 16 = Some x -> literal x.2 x.1.
Proof. intros ([[out n] neg] & H%hexstr_literal & Hx)%bind_Some. cbn in Hx. destruct neg; [done|]. injection Hx as <-. done. Qed.
Lemma literal_wider n m imm : literal n imm -> n <= m <= 16 -> literal m imm.
Proof. intros (H1 & H2 & H3) Hm. split_and!; [done..|lia|lia|]. eapply Z.lt_le_trans; [done|]. apply Z.pow_le_mono_r; lia. Qed.

(** ** Names *)
Lemma find_name_spec {A} `{!Inhabited A} (nm : A -> cstr) l name :
  find_name nm l name <> P4_IDX_NONE ->
  let i := find_name nm l name in
  0 <= i < Z.of_nat (length l) /\ nm (elt l i) = name /\ l !! Z.to_nat i = Some (elt l i) /\ forall j, 0 <= j < i -> nm (elt l j) <> name.
Proof.
  unfold find_name. destruct (list_find _ l) as [[i a]|] eqn:Hf; [|done]. intros _. apply list_find_Some in Hf as (Hi & Hn & Hfirst).
  apply lookup_lt_Some in Hi as Hlt. unfold elt. rewrite Nat2Z.id. rewrite (list_lookup_total_correct _ _ _ Hi). split_and!; [lia|lia|done|done|].
  intros j Hj. destruct (lookup_lt_is_Some_2 l (Z.to_nat j)) as [b Hb]; [lia|]. rewrite (list_lookup_total_correct _ _ _ Hb). apply (Hfirst _ _ Hb). lia.
Qed.
Lemma find_name_fail {A} `{!Inhabited A} (nm : A -> cstr) l name :
  (find_name nm l name =? P4_IDX_NONE) = false -> find_name nm l name <> P4_IDX_NONE.
Proof. apply Z.eqb_neq. Qed.
Lemma named_nil {A} (nm : A -> cstr) id : named nm id [].
Proof. split_and!; constructor. Qed.
Lemma unique_named {A} (nm : A -> cstr) id l name i u a :
  p4_unique nm id l name i = inr u -> nm a = name -> id a = i -> name_ok name -> id_ok i -> named nm id l -> named nm id (l ++ [a]).
Proof.
  intros Hu%fail_if_inr Hn Hi Hok Hid (H1 & H2 & H3). assert (forall b, b ∈ l -> nm b <> name /\ id b <> i) as Hd.
  { intros b Hb. apply (proj1 (existsb_false _ _)) with (x := b) in Hu; [|done]. apply orb_false_iff in Hu as [?%bool_decide_eq_false ?%Z.eqb_neq]. done. }
  split_and!.
  - rewrite fmap_app. apply NoDup_app. split_and!; [done| |apply NoDup_singleton]. intros x (b & -> & Hb)%list_elem_of_fmap Hx%list_elem_of_singleton. destruct (Hd b Hb) as [[] _]. congruence.
  - rewrite fmap_app. apply NoDup_app. split_and!; [done| |apply NoDup_singleton]. intros x (b & -> & Hb)%list_elem_of_fmap Hx%list_elem_of_singleton. destruct (Hd b Hb) as [_ []]. congruence.
  - apply Forall_app. split; [done|]. apply Forall_singleton. by subst.
Qed.

(** ** Header types and headers *)
Lemma fields_snoc off fs total f :
  fields_ok off fs total -> fd_offset_bits f = total -> 1 <= fd_bits f <= P4_MAX_FIELD_BITS -> fields_ok off (fs ++ [f]) (total + fd_bits f).
Proof.
  revert off. induction fs as [|g fs IH]; intros off; cbn [fields_ok app].
  - intros -> Ho Hb. done.
  - intros (? & ? & ?) Ho Hb. auto.
Qed.
Lemma walk_fields_ok l r :
  each p4_walk_field (0, []) l = inr r ->
  fields_ok 0 r.2 r.1 /\ r.1 <= 0xffff /\ Forall (fun f => name_ok (fd_name f)) r.2 /\ length r.2 = length l.
Proof.
  apply (each_inv _ (fun l r => fields_ok 0 r.2 r.1 /\ r.1 <= 0xffff /\ Forall (fun f => name_ok (fd_name f)) r.2 /\ length r.2 = length l)).
  - intros d [total fs] x s' _ (H1 & H2 & H3 & H4) H. unfold p4_walk_field in H. destruct x as [| | | | |t|]; [discriminate H..| |discriminate H]. walk H. subst s'. cbn [fst snd] in *.
    apply orb_false_iff in Hf1 as [?%Z.ltb_ge ?%Z.ltb_ge]. apply Z.ltb_ge in Hf2. apply str_val_ok in Hx. split_and!.
    + change x0 with (fd_bits (P4Field x x0 total)). by apply fields_snoc.
    + lia.
    + by apply Forall_app, conj, Forall_singleton.
    + rewrite !length_app. cbn. lia.
  - cbn. split_and!; done || lia.
Qed.
Lemma walk_types_ok prog root prog' :
  p4_walk_header_types prog root = inr prog' ->
  exists types, prog' = prog <| pg_header_types := types |> /\ named ht_name ht_id types /\ (length types <= P4_MAX_HEADER_TYPES)%nat /\
    Forall type_ok types /\ Forall type_loadable types.
Proof.
  unfold p4_walk_header_types. intros H. walk H. exists r. split; [done|]. apply get_array_len in Hx.
  assert (named ht_name ht_id r /\ length r = length x /\ Forall (fun t => type_ok t /\ type_loadable t) r) as (? & ? & [? ?]%Forall_and).
  { revert Hr. apply (each_inv _ (fun l r => named ht_name ht_id r /\ length r = length l /\ Forall (fun t => type_ok t /\ type_loadable t) r)); [|split_and!; [apply named_nil|done|apply Forall_nil_2]].
    clear. intros d s ht s' _ (H1 & H2 & H3) H. unfold p4_walk_header_type in H. walk H. subst s'. apply get_str_ok in Hx. apply get_id_ok in Hx0. apply get_array_len in Hx1.
    apply walk_fields_ok in Hr as (? & ? & ? & ?). split_and!.
    - by eapply unique_named.
    - rewrite !length_app. cbn. lia.
    - apply Forall_app, conj, Forall_singleton; [done|]. split; split; cbn; try done. lia. }
  split_and!; try done. lia.
Qed.
Lemma walk_headers_ok prog root prog' :
  p4_walk_headers prog root = inr prog' ->
  exists headers, prog' = prog <| pg_headers := headers |> /\ named hd_name hd_id headers /\ (length headers <= P4_MAX_HEADERS)%nat /\ Forall (header_ok prog) headers.
Proof.
  unfold p4_walk_headers. intros H. walk H. exists r. split; [done|]. apply get_array_len in Hx.
  assert (named hd_name hd_id r /\ length r = length x /\ Forall (header_ok prog) r) as (? & ? & ?); [|split_and!; done || lia].
  revert Hr. apply (each_inv _ (fun l r => named hd_name hd_id r /\ length r = length l /\ Forall (header_ok prog) r)); [|split_and!; [apply named_nil|done|apply Forall_nil_2]].
  clear. intros d s h s' _ (H1 & H2 & H3) H. unfold p4_walk_header in H. walk H. subst s'. apply get_str_ok in Hx. apply get_id_ok in Hx0.
  apply Z.eqb_neq in Hf0. destruct (find_name_spec _ _ _ Hf0) as (Hi & _). split_and!.
  - by eapply unique_named.
  - rewrite !length_app. cbn. lia.
  - apply Forall_app, conj, Forall_singleton; [done|]. split; [done|]. cbn [hd_metadata hd_header_type]. intros ->. cbn [negb andb] in Hf1. apply negb_false_iff, Z.eqb_eq in Hf1. done.
Qed.

(** ** Layout *)
Lemma fields_total off fs total : fields_ok off fs total -> off <= total.
Proof. revert off. induction fs as [|f fs IH]; intros off; cbn [fields_ok]; [lia|]. intros (_ & ? & H%IH). lia. Qed.
(** A header but for its place in the PHV. *)
Definition moved (h h' : p4_header) : Prop := exists o, h' = h <| hd_phv_offset := o |>.
Lemma moved_same (hs hs' : list p4_header) : Forall2 moved hs hs' -> hd_name <$> hs' = hd_name <$> hs /\ hd_id <$> hs' = hd_id <$> hs /\ length hs' = length hs.
Proof. induction 1 as [|h h' hs hs' (o & ->) _ (IH1 & IH2 & IH3)]; [done|]. cbn. by rewrite IH1, IH2, IH3. Qed.
Lemma moved_Forall (P : p4_header -> Prop) hs hs' : (forall h o, P h -> P (h <| hd_phv_offset := o |>)) -> Forall2 moved hs hs' -> Forall P hs -> Forall P hs'.
Proof. intros HP. induction 1 as [|h h' hs hs' (o & ->) _ IH]; [done|]. intros [? ?]%Forall_cons. constructor; auto. Qed.
Lemma layout_loop_sum prog hs : forall t hs' f, layout_loop prog t hs = (hs', f) -> f = t + sumZ (p4_header_bytes prog <$> hs).
Proof.
  induction hs as [|h hs IH]; intros t hs' f; cbn [layout_loop]; [intros [= <- <-]; unfold sumZ; cbn; lia|].
  destruct (layout_loop _ _ _) as [h1 f1] eqn:E. intros [= <- <-]. apply IH in E. unfold sumZ in *. cbn. lia.
Qed.
Lemma layout_loop_ok (prog : p4_program) hs : forall total hs' fin,
  Forall (fun h => 0 <= p4_header_bytes prog h) hs -> 0 <= total -> layout_loop prog total hs = (hs', fin) -> fin <= 0xffff ->
  Forall2 moved hs hs' /\
  forall prog', pg_header_types prog' = pg_header_types prog -> pg_phv_bytes prog' = fin -> layout_ok prog' total hs'.
Proof.
  induction hs as [|h hs IH]; intros total hs' fin Hb Ht; cbn [layout_loop].
  - intros [= <- <-] _. split; [constructor|by intros].
  - apply Forall_cons in Hb as [Hh Hb]. cbn beta in Hh. destruct (layout_loop _ _ _) as [hs1 fin1] eqn:Hl. intros [= <- <-] Hfin.
    destruct (IH (total + p4_header_bytes prog h) hs1 fin1 Hb ltac:(lia) Hl Hfin) as (Hm & Hlay). apply layout_loop_sum in Hl.
    assert (0 <= sumZ (p4_header_bytes prog <$> hs)) as Hs by (apply sumZ_nonneg; by apply Forall_fmap).
    split; [constructor; [by eexists|done]|]. intros prog' Hty Hphv. cbn [layout_ok]. split; [cbn; apply wrap_id; unfold fits; lia|].
    cbn [hd_header_type]. rewrite Hty. by apply Hlay.
Qed.
Lemma layout_ok_post prog prog' :
  Forall type_ok (pg_header_types prog) -> named hd_name hd_id (pg_headers prog) -> (length (pg_headers prog) <= P4_MAX_HEADERS)%nat ->
  Forall (header_ok prog) (pg_headers prog) -> p4_layout_phv prog = inr prog' ->
  exists hs phv, prog' = prog <| pg_headers := hs |> <| pg_phv_bytes := phv |> /\ named hd_name hd_id hs /\ (length hs <= P4_MAX_HEADERS)%nat /\
    Forall (header_ok prog') hs /\ layout_ok prog' 0 hs /\ phv <= P4_PHV_BYTES.
Proof.
  intros Hty (N1 & N2 & N3) Hlen Hok H. unfold p4_layout_phv in H. cbv zeta in H. walk H. apply Z.ltb_ge in Hf.
  destruct (layout_loop _ _ _) as [hs total] eqn:Hl. walk H. subst prog'.
  assert (Forall (fun h => 0 <= p4_header_bytes prog h) (pg_headers prog)) as Hb.
  { eapply Forall_impl; [exact Hok|]. intros h [Hi _]. unfold p4_header_bytes. apply Z.div_pos; [|lia].
    destruct (lookup_lt_is_Some_2 (pg_header_types prog) (Z.to_nat (hd_header_type h))) as [t Ht]; [lia|]. unfold elt. rewrite (list_lookup_total_correct _ _ _ Ht).
    destruct (Forall_lookup_1 _ _ _ _ Hty Ht) as [Hft%fields_total _]. lia. }
  pose proof (layout_loop_sum _ _ _ _ _ Hl) as Hsum. assert (total <= 0xffff) as Htot by (unfold P4_PHV_BYTES in Hf; lia).
  destruct (layout_loop_ok prog (pg_headers prog) 0 hs total Hb ltac:(lia) Hl Htot) as (Hm & Hlay).
  destruct (moved_same _ _ Hm) as (Hn & Hi & Hlen').
  assert (0 <= sumZ (p4_header_bytes prog <$> pg_headers prog)) as Hs by (apply sumZ_nonneg; by apply Forall_fmap).
  assert (wrap 16 total = total) as Hw by (apply wrap_id; unfold fits; lia). exists hs, (wrap 16 total). split_and!.
  - done.
  - split_and!; [by rewrite Hn|by rewrite Hi|]. eapply moved_Forall; [|exact Hm|exact N3]. done.
  - lia.
  - eapply moved_Forall; [|exact Hm|exact Hok]. done.
  - apply Hlay; [done|]. cbn. exact Hw.
  - lia.
Qed.

(** ** References by name *)
Lemma find_name_first {A} `{!Inhabited A} (nm : A -> cstr) l i :
  0 <= i < Z.of_nat (length l) -> (forall j, 0 <= j < i -> nm (elt l j) <> nm (elt l i)) -> find_name nm l (nm (elt l i)) = i.
Proof.
  intros Hi Hj. unfold find_name. rewrite (proj2 (list_find_Some _ l (Z.to_nat i) (elt l i))); [lia|]. split_and!; [by apply elt_lookup|done|].
  intros j y Hy Hlt. replace y with (elt l (Z.of_nat j)); [apply Hj; lia|]. unfold elt. rewrite Nat2Z.id. by apply list_lookup_total_correct.
Qed.
Lemma find_name_unique {A} `{!Inhabited A} (nm : A -> cstr) l i : NoDup (nm <$> l) -> 0 <= i < Z.of_nat (length l) -> find_name nm l (nm (elt l i)) = i.
Proof.
  intros Hnd Hi. apply find_name_first; [done|]. intros j Hj He. assert (Z.to_nat j = Z.to_nat i); [|lia].
  eapply (NoDup_lookup _ _ _ (nm (elt l i)) Hnd); rewrite list_lookup_fmap, elt_lookup by lia; cbn; congruence.
Qed.
Lemma find_name_none {A} `{!Inhabited A} (nm : A -> cstr) l name i :
  (length l <= 64)%nat -> find_name nm l name = P4_IDX_NONE -> 0 <= i < Z.of_nat (length l) -> nm (elt l i) <> name.
Proof.
  intros Hl Hf Hi. unfold find_name in Hf. destruct (list_find _ l) as [[j a]|] eqn:E.
  - apply list_find_Some in E as [E%lookup_lt_Some _]. unfold P4_IDX_NONE in Hf. lia.
  - apply list_find_None in E. exact (elt_Forall _ _ _ E Hi).
Qed.

Section refs.
Variable prog : p4_program.
Hypothesis Htypes : Forall (fun t => (length (ht_fields t) <= 64)%nat) (pg_header_types prog).
Hypothesis Hheaders : Forall (header_ok prog) (pg_headers prog).
Hypothesis Hnames : NoDup (hd_name <$> pg_headers prog).
Hypothesis Hcount : (length (pg_headers prog) <= 64)%nat.

Lemma find_header_ok name : p4_find_header prog name <> P4_IDX_NONE -> hdr_idx_ok prog (p4_find_header prog name).
Proof. intros H. by destruct (find_name_spec hd_name _ _ H). Qed.
Lemma resolve_named h f r : p4_resolve_field prog h f = Some r -> field_named prog h f r.
Proof.
  unfold p4_resolve_field. destruct (Z.eqb_spec (p4_find_header prog h) P4_IDX_NONE) as [|Hh]; [done|].
  destruct (Z.eqb_spec (find_name fd_name (ht_fields (type_of prog (p4_find_header prog h))) f) P4_IDX_NONE) as [|Hf]; [done|]. intros [= <-].
  destruct (find_name_spec hd_name _ _ Hh) as (Hi & Hn & _ & _). destruct (find_name_spec fd_name _ _ Hf) as (Hj & Hm & _ & Hfirst).
  split; [split; [done|]|done]. intros j Hlt. unfold field_of. cbn [fr_header fr_field]. rewrite Hm. by apply Hfirst.
Qed.
Lemma fields_count h : hdr_idx_ok prog h -> (length (ht_fields (type_of prog h)) <= 64)%nat.
Proof. intros Hh. pose proof (elt_Forall _ _ h Hheaders Hh) as [Ht _]. exact (elt_Forall _ _ _ Htypes Ht). Qed.
Lemma named_resolve h f r : field_named prog h f r -> p4_resolve_field prog h f = Some r.
Proof.
  intros [[[Hh Hf] Hfirst] [<- <-]]. unfold p4_resolve_field, p4_find_header. rewrite find_name_unique by done.
  unfold hdr_idx_ok in Hh. pose proof (fields_count _ Hh) as Hc. unfold P4_IDX_NONE.
  rewrite (proj2 (Z.eqb_neq (fr_header r) _)) by lia. unfold field_of. rewrite find_name_first by done.
  rewrite (proj2 (Z.eqb_neq (fr_field r) _)) by lia. by destruct r.
Qed.
Lemma resolve_first h f r : p4_resolve_field prog h f = Some r -> ref_first prog r.
Proof. intros H%resolve_named. apply H. Qed.
Lemma resolve_arch_ok h f bits r : p4_resolve_arch_field prog h f bits = inr r -> arch_field prog h f bits r.
Proof.
  unfold p4_resolve_arch_field. destruct (p4_resolve_field prog h f) as [ref|] eqn:Hr; intros H; walk H; subst.
  - left. split; [by apply resolve_named|]. by apply negb_false_iff, Z.eqb_eq in Hf.
  - right. split; [|done]. intros r Hn%named_resolve. congruence.
Qed.
Lemma arch_arch_ok h f bits r : arch_field prog h f bits r -> arch_ok prog bits r.
Proof. intros [[[[Hr _] _] Hb]|[_ ->]]; [right|left]; done. Qed.
End refs.

(** ** The parser *)
Lemma zeros16_ok : bytes16_ok (zeros 16).
Proof. split; [done|]. apply (bool_decide_unpack _). by vm_compute. Qed.
Section parser.
Variable prog : p4_program.
Definition op_ok (h : Z) : Prop := hdr_idx_ok prog h /\ hd_metadata (elt (pg_headers prog) h) = false.
Lemma walk_ops_ok st ops : p4_walk_parser_ops prog st = inr ops -> Forall op_ok ops /\ (length ops <= P4_MAX_PARSER_OPS)%nat.
Proof.
  unfold p4_walk_parser_ops. intros H. walk H. apply get_array_len in Hx. destruct (each_Forall op_ok H) as [? ->]; [|done].
  clear. intros s op s' H. unfold p4_walk_parser_op in H. walk H. eexists. split; [symmetry; done|]. apply Z.eqb_neq in Hf4. split; [by apply find_header_ok|done].
Qed.
Lemma walk_key_ok st k :
  p4_walk_transition_key prog st = inr k ->
  Forall (ref_first prog) k.2 /\ (length k.2 <= P4_MAX_TRANSITION_KEY)%nat /\ k.1 = key_width prog k.2 /\ k.1 <= Z.of_nat P4_MAX_KEY_BYTES.
Proof.
  unfold p4_walk_transition_key. intros H. walk H. subst r. apply get_array_len in Hx. apply Z.ltb_ge in Hf.
  assert (Forall (ref_first prog) k.2 /\ length k.2 = length x /\ k.1 = key_width prog k.2) as (? & ? & ?); [|split_and!; done || lia].
  revert Hr. apply (each_inv _ (fun l k => Forall (ref_first prog) k.2 /\ length k.2 = length l /\ k.1 = key_width prog k.2)); [|done].
  clear. intros d s kj s' _ (H1 & H2 & H3) H. unfold p4_walk_key in H. walk H. subst s'. cbn [fst snd] in *. split_and!.
  - apply Forall_app, conj, Forall_singleton; [done|]. by eapply resolve_first.
  - rewrite !length_app. cbn. lia.
  - unfold key_width in *. rewrite H3, fmap_app, sumZ_app. unfold sumZ at 3. cbn. rewrite Z.add_0_r. done.
Qed.
Lemma walk_transitions_ok kb st trs :
  kb <= 16 -> p4_walk_transitions kb st = inr trs ->
  Forall (fun t => transition_loadable kb t /\ tr_next_state t = P4_IDX_NONE) trs /\ (length trs <= P4_MAX_TRANSITIONS)%nat.
Proof.
  intros Hkb. unfold p4_walk_transitions. intros H. walk H. apply get_array_len in Hx.
  destruct (each_Forall (fun t => transition_loadable kb t /\ tr_next_state t = P4_IDX_NONE) H) as [? ->]; [|done].
  clear -Hkb. intros s t s' H. unfold p4_walk_transition in H. walk H. eexists. split; [symmetry; exact H|]. clear H. match type of Hr with (if ?b then _ else _) = _ => destruct b end.
  - walk Hr. subst r. done.
  - walk Hr. apply hexstr_pos_literal in Hx1 as Hv. apply Z.ltb_ge in Hf1.
    destruct (get_nonnull t "mask") as [m|]; walk Hr; subst r; (split; [|done]); (split; [eapply literal_wider; [done|lia]|]); [|done].
    apply hexstr_pos_literal in Hx2. apply Z.ltb_ge in Hf2. eapply literal_wider; [done|cbn; lia].
Qed.
Lemma loadable_bytes kb t : transition_loadable kb t -> bytes16_ok (tr_value t) /\ bytes16_ok (tr_mask t).
Proof.
  unfold transition_loadable. destruct (tr_is_default t).
  - intros (_ & -> & ->). split; apply zeros16_ok.
  - intros [[? _] Hm]. split; [done|]. destruct (tr_has_mask t); [apply Hm|rewrite Hm; apply zeros16_ok].
Qed.
(** A state after pass one, and after pass two among [n] states. *)
Definition state_one (st : p4_parse_state) : Prop :=
  Forall op_ok (ps_ops st) /\ ps_key_bytes st = key_width prog (ps_key st) /\ ps_key_bytes st <= Z.of_nat P4_MAX_KEY_BYTES /\
  Forall (fun t => tr_next_state t = P4_IDX_NONE) (ps_transitions st) /\ state_loadable prog st.
Lemma walk_states_ok l sts :
  each (p4_walk_state prog) [] l = inr sts -> Forall state_one sts /\ NoDup (ps_name <$> sts) /\ length sts = length l.
Proof.
  apply (each_inv _ (fun l sts => Forall state_one sts /\ NoDup (ps_name <$> sts) /\ length sts = length l)); [|split_and!; [done|constructor|done]].
  intros d s st s' _ (H1 & H2 & H3) H. unfold p4_walk_state in H. walk H. subst s'. apply get_str_ok in Hx. apply walk_ops_ok in Hr as [? ?].
  apply walk_key_ok in Hr0 as (? & ? & ? & Hkb). apply walk_transitions_ok in Hr1 as [[? ?]%Forall_and ?]; [|done]. split_and!.
  - apply Forall_app, conj, Forall_singleton; [done|]. by split_and!.
  - rewrite fmap_app. apply NoDup_app. split_and!; [done| |apply NoDup_singleton]. intros y (b & -> & Hb)%list_elem_of_fmap Hy%list_elem_of_singleton.
    apply (proj1 (existsb_false _ _)) with (x := b) in Hf0; [|done]. by apply bool_decide_eq_false in Hf0.
  - rewrite !length_app. cbn. lia.
Qed.
Definition arm_two (n : Z) (td td' : p4_transition) : Prop := exists idx, td' = td <| tr_next_state := idx |> /\ next_in n idx.
Lemma resolve_arms_ok sts trs tarr trs' :
  Forall (fun t => tr_next_state t = P4_IDX_NONE) trs -> each (p4_resolve_arm sts) [] (zip trs tarr) = inr trs' ->
  Forall (fun td' => exists td, td ∈ trs /\ arm_two (Z.of_nat (length sts)) td td') trs' /\ (length trs' <= length trs)%nat.
Proof.
  intros Hnone H. destruct (each_list (p4_resolve_arm sts) (fun _ x td' => td' = x.1 \/ arm_two (Z.of_nat (length sts)) x.1 td') (zip trs tarr) trs') with (2 := H) as [Hl HR].
  { clear. intros s [td tr] s' H. unfold p4_resolve_arm in H. walk H. destruct (is_null x); walk H; eexists; (split; [symmetry; done|]); [by left|].
    right. eexists. split; [done|]. right. apply Z.eqb_neq in Hf. by destruct (find_name_spec ps_name _ _ Hf). }
  rewrite length_zip_with in Hl. split; [|lia]. apply Forall_lookup. intros i td' Hi. destruct (lookup_lt_is_Some_2 (zip trs tarr) i) as [[td j] Hz].
  { rewrite length_zip_with, <-Hl. by eapply lookup_lt_Some. }
  specialize (HR i _ _ Hz Hi). apply lookup_zip_with_Some in Hz as (? & ? & [= <- <-] & Htd & _). exists td. split; [by eapply list_elem_of_lookup_2|].
  destruct HR as [->|?]; [|done]. exists P4_IDX_NONE. split; [|by left]. pose proof (Forall_lookup_1 _ _ _ _ Hnone Htd) as Hn. destruct td. cbn in Hn. by subst.
Qed.
Lemma arm_loadable n kb td td' : arm_two n td td' -> transition_loadable kb td -> transition_loadable kb td' /\ next_in n (tr_next_state td').
Proof. intros (idx & -> & Hi) H. split; [exact H|exact Hi]. Qed.
Lemma state_two (prog' : p4_program) n st trs' :
  pg_headers prog' = pg_headers prog -> pg_header_types prog' = pg_header_types prog -> Z.of_nat (length (pg_parse_states prog')) = n ->
  state_one st -> Forall (fun td' => exists td, td ∈ ps_transitions st /\ arm_two n td td') trs' -> (length trs' <= length (ps_transitions st))%nat ->
  state_ok prog' (st <| ps_transitions := trs' |>) /\ state_loadable prog (st <| ps_transitions := trs' |>).
Proof.
  intros Hh Ht Hn (H1 & H2 & H3 & _ & L1 & L2 & L3 & L4 & L5 & L6) Harm Hlen.
  assert (Forall (fun t => transition_loadable (ps_key_bytes st) t /\ next_in n (tr_next_state t)) trs') as [Htl Htn]%Forall_and.
  { eapply Forall_impl; [exact Harm|]. intros td' (td & Hin & Ha). eapply arm_loadable; [done|]. rewrite Forall_forall in L6. by apply L6. }
  split; [|split_and!; try done; cbn; lia]. unfold state_ok. cbn [ps_ops ps_key ps_key_bytes ps_transitions].
  assert (forall r, ref_first prog r -> ref_ok prog' r) as Href by (intros r [Hr _]; unfold ref_ok, hdr_idx_ok, type_of in *; by rewrite Hh, Ht).
  split_and!.
  - eapply Forall_impl; [exact H1|]. unfold op_ok, hdr_idx_ok. by rewrite Hh.
  - eapply Forall_impl; [exact L5|]. done.
  - change (ps_key_bytes st = key_width prog' (ps_key st)). rewrite H2. unfold key_width, field_of, type_of. by rewrite Hh, Ht.
  - exact H3.
  - change (Forall (transition_ok prog') trs'). apply Forall_forall. intros t Hin. rewrite Forall_forall in Htl, Htn. destruct (loadable_bytes _ t (Htl t Hin)).
    split_and!; try done. rewrite Hn. by apply Htn.
Qed.
Lemma walk_parser_ok root prog' :
  p4_walk_parser prog root = inr prog' ->
  exists sts init, prog' = prog <| pg_parse_states := sts |> <| pg_init_state := init |> /\ Forall (state_ok prog') sts /\ 0 <= init < Z.of_nat (length sts) /\
    NoDup (ps_name <$> sts) /\ (length sts <= P4_MAX_PARSE_STATES)%nat /\ Forall (state_loadable prog) sts.
Proof.
  unfold p4_walk_parser. intros H. cbv zeta in H. walk H. apply get_array_len in Hx1. apply walk_states_ok in Hr as (Hone & Hnd & Hl).
  destruct (each_list (p4_resolve_arms r) (fun _ x st' => exists trs', st' = x.1 <| ps_transitions := trs' |> /\
    (state_one x.1 -> Forall (fun td' => exists td, td ∈ ps_transitions x.1 /\ arm_two (Z.of_nat (length r)) td td') trs' /\ (length trs' <= length (ps_transitions x.1))%nat))
    (zip r x1) r0) with (2 := Hr0) as [Hl0 HR].
  { intros s [dst st] s' E. unfold p4_resolve_arms in E. walk E. eexists. split; [symmetry; exact E|]. eexists. split; [done|].
    intros (_ & _ & _ & Hnone & _). by eapply resolve_arms_ok. }
  rewrite length_zip_with in Hl0. apply Z.eqb_neq in Hf2. destruct (find_name_spec ps_name _ _ Hf2) as (Hi & _). eexists r0, _. split; [symmetry; exact H|].
  assert (forall i st', r0 !! i = Some st' -> exists st, r !! i = Some st /\ ps_name st' = ps_name st /\ state_ok prog' st' /\ state_loadable prog st') as Hall.
  { intros i st' Hi'. destruct (lookup_lt_is_Some_2 (zip r x1) i) as [[st j] Hz]; [rewrite length_zip_with, <-Hl0; by eapply lookup_lt_Some|].
    destruct (HR i _ _ Hz Hi') as (trs' & -> & Hst). apply lookup_zip_with_Some in Hz as (? & ? & [= <- <-] & Hst1 & _). exists st. split; [done|]. split; [done|].
    pose proof (Forall_lookup_1 _ _ _ _ Hone Hst1) as H1. destruct (Hst H1). eapply state_two; [..|exact H1|done|done]; subst prog'; try done. cbn. lia. }
  split_and!.
  - apply Forall_lookup. intros i st' Hi'. by destruct (Hall i st' Hi') as (? & ? & ? & ? & ?).
  - lia.
  - lia.
  - assert (ps_name <$> r0 = ps_name <$> r) as ->; [|done]. apply list_eq. intros i. rewrite !list_lookup_fmap. destruct (r0 !! i) as [st'|] eqn:Hi'.
    + destruct (Hall i st' Hi') as (st & -> & Hn & _). cbn. by rewrite Hn.
    + apply lookup_ge_None in Hi'. rewrite lookup_ge_None_2 by lia. done.
  - lia.
  - apply Forall_lookup. intros i st' Hi'. by destruct (Hall i st' Hi') as (? & ? & ? & ? & ?).
Qed.
End parser.

(** ** The deparser, the architecture's fields, externs *)
Lemma walk_deparser_ok prog root prog' :
  p4_walk_deparser prog root = inr prog' ->
  exists order, prog' = prog <| pg_deparse_order := order |> /\ Forall (hdr_idx_ok prog) order /\ NoDup order.
Proof.
  unfold p4_walk_deparser. intros H. cbv zeta in H. walk H. exists r. split; [done|]. revert Hr.
  apply (each_keeps _ (fun o => Forall (hdr_idx_ok prog) o /\ NoDup o)); [|by split; constructor].
  clear. intros s e s' _ [H1 H2] H. unfold p4_walk_emit in H. walk H. subst s'. apply Z.eqb_neq in Hf. apply bool_decide_eq_false in Hf0. split.
  - apply Forall_app, conj, Forall_singleton; [done|]. by apply find_header_ok.
  - apply NoDup_app. split_and!; [done|set_solver|apply NoDup_singleton].
Qed.
Section arch.
Variable prog : p4_program.
Hypothesis Htypes : Forall (fun t => (length (ht_fields t) <= 64)%nat) (pg_header_types prog).
Hypothesis Hheaders : Forall (header_ok prog) (pg_headers prog).
Hypothesis Hnames : NoDup (hd_name <$> pg_headers prog).
Hypothesis Hcount : (length (pg_headers prog) <= 64)%nat.
Lemma resolve_std_ok prog' :
  p4_resolve_std_metadata prog = inr prog' ->
  exists es ip ep, prog' = prog <| pg_egress_spec := es |> <| pg_ingress_port := ip |> <| pg_egress_port := ep |> /\
    es <> no_ref /\ arch_field prog (chars "standard_metadata") (chars "egress_spec") 9 es /\
    arch_field prog (chars "standard_metadata") (chars "ingress_port") 9 ip /\ arch_field prog (chars "standard_metadata") (chars "egress_port") 9 ep.
Proof.
  unfold p4_resolve_std_metadata. intros H. cbv zeta in H. walk H. exists r, r0, r1. apply bool_decide_eq_false in Hf.
  split_and!; [done|done|by apply resolve_arch_ok..].
Qed.
Lemma resolve_rdma_ok prog' :
  pg_has_rdma_metadata prog = false -> pg_rdma_opcode prog = inhabitant -> pg_rdma_qp_num prog = inhabitant -> pg_rdma_length prog = inhabitant ->
  pg_rdma_imm_data prog = inhabitant -> pg_rdma_rkey prog = inhabitant -> p4_resolve_rdma_metadata prog = inr prog' ->
  rdma_loadable prog' /\ exists md op qp len imm rk, prog' = prog <| pg_rdma_opcode := op |> <| pg_rdma_qp_num := qp |> <| pg_rdma_length := len |>
    <| pg_rdma_imm_data := imm |> <| pg_rdma_rkey := rk |> <| pg_has_rdma_metadata := md |>.
Proof.
  intros E1 E2 E3 E4 E5 E6. unfold p4_resolve_rdma_metadata. destruct (list_find _ _) as [[h hd]|] eqn:Hf; intros H; cbv zeta in H; walk H; subst prog'.
  - split; [|by eexists _, _, _, _, _, _]. unfold rdma_loadable. match goal with |- match ?x with _ => _ end => replace x with (Some (h, hd)) by (symmetry; exact Hf) end. apply bool_decide_eq_false in Hf0.
    split_and!; [done|done|by apply resolve_arch_ok..].
  - split; [unfold rdma_loadable; by rewrite Hf|]. exists false, inhabitant, inhabitant, inhabitant, inhabitant, inhabitant. destruct prog. cbn in *. by subst.
Qed.
End arch.
Lemma walk_externs_ok prog root prog' :
  pg_externs prog = [] -> p4_walk_externs prog root = inr prog' ->
  exists xs, prog' = prog <| pg_externs := xs |> /\ named xi_name xi_id xs /\ (length xs <= P4_MAX_EXTERNS)%nat /\ Forall (fun x => xi_type x = P4_EXTERN_FP8) xs.
Proof.
  intros Hnil. unfold p4_walk_externs. destruct (get root "extern_instances"); intros H; walk H.
  2: { exists []. split; [subst prog'; destruct prog; cbn in *; by subst|]. split_and!; [apply named_nil|cbn; lia|constructor]. }
  exists r. split; [done|]. apply get_array_len in Hx.
  assert (named xi_name xi_id r /\ length r = length x /\ Forall (fun x => xi_type x = P4_EXTERN_FP8) r) as (? & ? & ?); [|split_and!; done || lia].
  revert Hr. apply (each_inv _ (fun l r => named xi_name xi_id r /\ length r = length l /\ Forall (fun x => xi_type x = P4_EXTERN_FP8) r)); [|split_and!; [apply named_nil|done|apply Forall_nil_2]].
  clear. intros d s e s' _ (H1 & H2 & H3) H. unfold p4_walk_extern in H. walk H. subst s'. apply get_str_ok in Hx. apply get_id_ok in Hx0. split_and!.
  - by eapply unique_named.
  - rewrite !length_app. cbn. lia.
  - apply Forall_app, conj, Forall_singleton; [done|]. cbn [xi_type]. apply fmap_Some in Hx2 as ([i t] & Ht & ->). apply list_find_Some in Ht as [Ht _].
    apply list_elem_of_lookup_2, list_elem_of_singleton in Ht. cbn in Ht. by subst.
Qed.

(** ** Actions *)
Section actions.
Variable prog : p4_program.
Lemma walk_operand_ok n p o : p4_walk_operand prog n p = inr o -> operand_ok prog n o /\ operand_loadable prog o.
Proof.
  unfold p4_walk_operand. intros H. walk H. destruct (is_chars x "field"); [walk H; subst o; split; [by eapply resolve_first|by eapply resolve_first]|].
  destruct (is_chars x "hexstr"); [|destruct (is_chars x "extern"); [|destruct (is_chars x "runtime_data"); [|done]]]; walk H; subst o.
  - destruct x1 as [[out k] neg]. apply hexstr_literal in Hx1 as Hl. split; [|done]. destruct Hl as (? & ? & _). split; [done|cbn; lia].
  - apply Z.eqb_neq in Hf0. split; [|done]. by destruct (find_name_spec xi_name _ _ Hf0).
  - apply orb_false_iff in Hf0 as [?%Z.ltb_ge ?%Z.leb_gt]. split; [cbn; lia|done].
Qed.
Lemma walk_operands_ok n params ops :
  p4_walk_operands prog n params = inr ops -> length ops = length params /\ Forall (operand_ok prog n) ops /\ Forall (operand_loadable prog) ops.
Proof.
  intros H. assert (Forall (fun o => operand_ok prog n o /\ operand_loadable prog o) ops /\ length ops = length params) as [[? ?]%Forall_and ?]; [|done].
  apply (each_Forall _ H). clear. intros s x s' H. cbn beta in H. walk H. eexists. split; [symmetry; exact H|]. by apply walk_operand_ok in Hr.
Qed.
Lemma check_call_ok row params u :
  p4_check_call prog row params = inr u -> params <> [] ->
  exists i args, params = OPD_EXTERN i :: args /\ Forall (fun o => is_extern o = false) args /\ xi_type (elt (pg_externs prog) i) = pt_extern_type row.
Proof.
  unfold p4_check_call. intros H Hne. cbv zeta in H. walk H. destruct params as [|o args]; [done|]. cbn in Hf. destruct o; try done. exists inst, args.
  split; [done|]. split; [|by apply negb_false_iff, Z.eqb_eq in Hf0]. apply Forall_forall. by apply existsb_false.
Qed.
Lemma check_write_ok params u :
  p4_check_write prog params = inr u -> params <> [] ->
  exists d s, params = d :: s /\ is_field d = true /\ Forall (fun o => is_extern o = false) s /\
    forall n imm, OPD_HEXSTR n imm ∈ s -> be_bit_length imm <= fd_bits (field_of prog (opd_field d)).
Proof.
  unfold p4_check_write. intros H Hne. cbv zeta in H. walk H. destruct params as [|d s]; [done|]. exists d, s. cbn in Hf. apply negb_false_iff in Hf.
  split_and!; [done|done| |].
  - apply Forall_forall. intros o Ho. apply (proj1 (existsb_false _ _)) with (x := o) in H; [|done]. by destruct o.
  - intros n imm Ho. apply (proj1 (existsb_false _ _)) with (x := OPD_HEXSTR n imm) in H; [|done]. by apply Z.ltb_ge in H.
Qed.
Lemma walk_primitive_ok n prims pr prims' :
  p4_walk_primitive prog n prims pr = inr prims' -> exists p, prims' = prims ++ [p] /\ prim_ok prog n p /\ prim_loadable prog p.
Proof.
  unfold p4_walk_primitive. intros H. cbv zeta in H. walk H. apply fmap_Some in Hx0 as ([i row] & Hrow & ->). cbn [snd] in *.
  apply list_find_Some in Hrow as [Hrow%list_elem_of_lookup_2 _].
  apply orb_false_iff in Hf0 as [Hmin%bool_decide_eq_false Hmax%bool_decide_eq_false].
  unfold p4_primitives in Hrow. set_unfold in Hrow. destruct_or! Hrow; subst row; cbn [pt_kind pt_min_params pt_max_params pt_method] in *;
    walk H; eexists; (split; [symmetry; exact H|]);
    (try (by split; split; cbn; constructor)); apply walk_operands_ok in Hr as (Hlen & Hok & Hlo);
    (assert (r <> []) as Hne by (destruct r; cbn in Hlen; [lia|done])).
  all: first [apply check_call_ok in Hr0 as (j & args & -> & Ha & Hty); [|done] | apply check_write_ok in Hr0 as (d & s & -> & Hd & Ha & Hlit); [|done]]; cbn in Hlen.
  all: (split; [split; [done|]|split; [done|]]); cbn [pr_kind pr_params pr_method].
  all: try (by split; [done|exact Hlit]).
  all: try (split; [exact Hty|cbn; lia]).
  all: try (exists d, s; split_and!; [done|done|done|lia]).
  all: try (exists j, args; split_and!; [done|done|unfold P4_MAX_PRIM_PARAMS; lia]).
  all: destruct s as [|o [|]]; cbn in Hlen; try lia; exists d, o; split_and!; [done|done|exact (proj1 (Forall_singleton _ _) Ha)].
Qed.
Lemma walk_action_ok actions a actions' :
  p4_walk_action prog actions a = inr actions' -> named ac_name ac_id actions ->
  exists x, actions' = actions ++ [x] /\ named ac_name ac_id actions' /\ action_ok prog x /\ action_loadable prog x.
Proof.
  unfold p4_walk_action. intros H Hn. walk H. eexists. split; [symmetry; exact H|]. apply get_str_ok in Hx. apply get_id_ok in Hx0. apply get_array_len in Hx1, Hx2.
  split; [subst actions'; by eapply unique_named|]. destruct (each_Forall (prim_ok prog (length r0)) Hr1) as [Hp Hlp].
  { clear. intros s x s' (p & -> & ? & ?)%walk_primitive_ok. eauto. }
  destruct (each_Forall (prim_loadable prog) Hr1) as [Hpl _].
  { clear. intros s x s' (p & -> & ? & ?)%walk_primitive_ok. eauto. }
  destruct (each_Forall (fun b => 1 <= b <= 8 * Z.of_nat P4_MAX_ENTRY_BYTES) Hr0) as [Hb Hlb].
  { clear. intros s x s' H. unfold p4_walk_runtime in H. walk H. eexists. split; [symmetry; exact H|]. apply get_u32_ok in Hx. apply Z.ltb_ge in Hf0. lia. }
  split; split_and!; cbn; try done; lia.
Qed.
Lemma walk_actions_ok root prog' :
  p4_walk_actions prog root = inr prog' ->
  exists xs, prog' = prog <| pg_actions := xs |> /\ named ac_name ac_id xs /\ (length xs <= P4_MAX_ACTIONS)%nat /\
    Forall (action_ok prog) xs /\ Forall (action_loadable prog) xs.
Proof.
  unfold p4_walk_actions. intros H. walk H. exists r. split; [done|]. apply get_array_len in Hx.
  assert (named ac_name ac_id r /\ length r = length x /\ Forall (fun a => action_ok prog a /\ action_loadable prog a) r) as (? & ? & [? ?]%Forall_and); [|split_and!; done || lia].
  revert Hr. apply (each_inv _ (fun l r => named ac_name ac_id r /\ length r = length l /\ Forall (fun a => action_ok prog a /\ action_loadable prog a) r));
    [|split_and!; [apply named_nil|done|apply Forall_nil_2]].
  clear. intros d s e s' _ (H1 & H2 & H3) (a & -> & ? & ? & ?)%walk_action_ok; [|done]. split_and!; [done|rewrite !length_app; cbn; lia|].
  by apply Forall_app, conj, Forall_singleton.
Qed.
End actions.

(** ** Conditions *)
Scheme expr_mut := Induction for expr Sort Prop with side_mut := Induction for expr_side Sort Prop.
Combined Scheme expr_both_ind from expr_mut, side_mut.
Lemma nodes_size : (forall e base, length (expr_nodes base e) = expr_size e) /\ (forall s base, length (side_nodes base s) = side_size s).
Proof.
  apply (expr_both_ind (fun e => forall base, length (expr_nodes base e) = expr_size e) (fun s => forall base, length (side_nodes base s) = side_size s)); try done.
  intros row l IHl r IHr base. cbn [expr_nodes expr_size length]. by rewrite length_app, IHl, IHr.
Qed.
Lemma expr_row_cases row : row ∈ p4_expr_ops -> eo_unary row = true /\ (eo_takes row = ET_HEADER \/ eo_takes row = ET_BOOL) \/
  eo_unary row = false /\ (eo_takes row = ET_SAME \/ eo_takes row = ET_DATA \/ eo_takes row = ET_BOOL).
Proof. unfold p4_expr_ops. intros H. set_unfold in H. destruct_or! H; subst; cbn; auto. Qed.
Lemma check_types_typed row o1 o2 u :
  row ∈ p4_expr_ops ->
  (if eo_unary row then negb (bool_decide (p4_expr_type_of o1 = ET_NONE)) || bool_decide (p4_expr_type_of o2 = ET_NONE)
   else bool_decide (p4_expr_type_of o1 = ET_NONE) || bool_decide (p4_expr_type_of o2 = ET_NONE)) = false ->
  p4_check_expr_types row o1 o2 = inr u -> typed row (p4_expr_type_of o1) (p4_expr_type_of o2).
Proof.
  intros Hrow. unfold p4_check_expr_types, typed. generalize (p4_expr_type_of o1) as l, (p4_expr_type_of o2) as r. intros l r Hab H.
  destruct (expr_row_cases row Hrow) as [[Hu Ht]|[Hu Ht]]; rewrite Hu in *; destruct_or! Ht; rewrite Ht in *;
    destruct l, r; cbn in H, Hab; done.
Qed.
Section expr.
Variable prog : p4_program.
Lemma walk_side_ok levels tv nodes o nodes' :
  (forall tv nodes slot nodes', p4_walk_expr prog levels tv nodes = inr (slot, nodes') ->
     exists e, slot = Z.of_nat (length nodes) /\ nodes' = nodes ++ expr_nodes (length nodes) e /\ expr_typed prog e /\ (expr_depth e <= levels)%nat /\
       (length nodes' <= P4_MAX_EXPR_NODES)%nat) ->
  (length nodes <= P4_MAX_EXPR_NODES)%nat -> p4_walk_expr_operand prog (p4_walk_expr prog levels) tv nodes = inr (o, nodes') ->
  exists s, o = side_operand (length nodes) s /\ nodes' = nodes ++ side_nodes (length nodes) s /\ side_typed prog s /\ (side_depth s <= levels)%nat /\
    (length nodes' <= P4_MAX_EXPR_NODES)%nat /\ side_type s = p4_expr_type_of o.
Proof.
  intros IH Hlen. unfold p4_walk_expr_operand. destruct (is_null tv); intros H; walk H.
  { simplify_eq. exists SNone. cbn [side_nodes]. rewrite app_nil_r. split_and!; done || cbn; lia. }
  destruct (is_chars x "expression").
  { walk H. destruct r as [slot nodes1]. apply IH in Hr as (e & -> & -> & He & Hd & Hl). simplify_eq. exists (SExpr e). done. }
  assert (forall o1, leaf_ok prog o1 -> (o1, nodes) = (o, nodes') -> exists s, o = side_operand (length nodes) s /\ nodes' = nodes ++ side_nodes (length nodes) s /\
    side_typed prog s /\ (side_depth s <= levels)%nat /\ (length nodes' <= P4_MAX_EXPR_NODES)%nat /\ side_type s = p4_expr_type_of o) as Hleaf.
  { intros o1 Hok [= <- <-]. exists (SLeaf o1). cbn [side_nodes]. rewrite app_nil_r. split_and!; done || cbn; lia. }
  destruct (is_chars x "field"); [walk H; eapply Hleaf; [|exact H]; by eapply resolve_first|].
  destruct (is_chars x "header"); [walk H; eapply Hleaf; [|exact H]; apply Z.eqb_neq in Hf0; by apply find_header_ok|].
  destruct (is_chars x "hexstr"); [walk H; eapply Hleaf; [|exact H]; by eapply hexstr_pos_literal|].
  destruct (is_chars x "bool"); [|done]. destruct x0; try done. walk H. by eapply Hleaf; [|exact H].
Qed.
Lemma walk_expr_ok levels : forall tv nodes slot nodes',
  p4_walk_expr prog levels tv nodes = inr (slot, nodes') ->
  exists e, slot = Z.of_nat (length nodes) /\ nodes' = nodes ++ expr_nodes (length nodes) e /\ expr_typed prog e /\ (expr_depth e <= levels)%nat /\
    (length nodes' <= P4_MAX_EXPR_NODES)%nat.
Proof.
  induction levels as [|levels IH]; intros tv nodes slot nodes' H; cbn [p4_walk_expr] in H; [done|]. walk_step H. walk_step H. walk_step H. walk_step H. cbv zeta in H.
  apply bool_decide_eq_false in Hf. apply fmap_Some in Hx1 as ([i row] & Hrow & ->). cbn [snd] in *. apply list_find_Some in Hrow as [Hrow%list_elem_of_lookup_2 _].
  walk H. destruct r as [o1 nodes1], r0 as [o2 nodes2]. cbn [fst snd en_left en_right] in *.
  apply walk_side_ok in Hr as (l & -> & -> & Hl1 & Hl2 & Hl3 & Hl4); [|done|rewrite length_app; cbn; lia].
  apply walk_side_ok in Hr0 as (r & -> & -> & Hr1' & Hr2' & Hr3' & Hr4'); [|done|done].
  set (base := length nodes) in *. destruct nodes_size as [_ Hsz].
  assert (length (nodes ++ [P4ExprNode (eo_op row) EO_NONE EO_NONE]) = S base) as E1 by (rewrite length_app; cbn; lia). rewrite E1 in *.
  assert (length ((nodes ++ [P4ExprNode (eo_op row) EO_NONE EO_NONE]) ++ side_nodes (S base) l) = S base + side_size l)%nat as E2 by (rewrite length_app, E1, Hsz; lia). rewrite E2 in *.
  simplify_eq. exists (Expr row l r). split_and!.
  - done.
  - rewrite <-!app_assoc. rewrite insert_app_r_alt by (unfold base; lia). rewrite Nat.sub_diag. done.
  - cbn [expr_typed]. split_and!; [done| |done|done]. rewrite Hl4, Hr4'. eapply check_types_typed; [done| |exact Hr1].
    rewrite <-Hf0. clear. generalize (side_operand (S base) l), (side_operand (S base + side_size l) r). intros [] []; done.
  - cbn [expr_depth]. lia.
  - by rewrite length_insert.
Qed.
Lemma nodes_ok nodes :
  (forall e base depth, (forall k n, expr_nodes base e !! k = Some n -> nodes !! (base + k)%nat = Some n) -> expr_typed prog e ->
     (depth + expr_depth e <= S (Z.to_nat P4_MAX_EXPR_DEPTH))%nat -> expr_ok prog nodes (Z.of_nat base) (Z.of_nat depth)) /\
  (forall s base depth i, (forall k n, side_nodes base s !! k = Some n -> nodes !! (base + k)%nat = Some n) -> side_typed prog s ->
     (S depth + side_depth s <= S (Z.to_nat P4_MAX_EXPR_DEPTH))%nat -> i < Z.of_nat base -> side_ok prog nodes i (Z.of_nat depth) (side_operand base s)).
Proof.
  apply (expr_both_ind (fun e => forall base depth, (forall k n, expr_nodes base e !! k = Some n -> nodes !! (base + k)%nat = Some n) -> expr_typed prog e ->
     (depth + expr_depth e <= S (Z.to_nat P4_MAX_EXPR_DEPTH))%nat -> expr_ok prog nodes (Z.of_nat base) (Z.of_nat depth))
    (fun s => forall base depth i, (forall k n, side_nodes base s !! k = Some n -> nodes !! (base + k)%nat = Some n) -> side_typed prog s ->
     (S depth + side_depth s <= S (Z.to_nat P4_MAX_EXPR_DEPTH))%nat -> i < Z.of_nat base -> side_ok prog nodes i (Z.of_nat depth) (side_operand base s))).
  - intros row l IHl r IHr base depth Hn (_ & _ & Hl & Hr) Hd. cbn [expr_depth] in Hd. cbn [expr_nodes] in Hn. destruct nodes_size as [_ Hsz].
    assert (0 <= Z.of_nat depth <= P4_MAX_EXPR_DEPTH) as Hdep by (unfold P4_MAX_EXPR_DEPTH in *; lia).
    eapply (Expr_ok prog nodes _ _ (P4ExprNode (eo_op row) (side_operand (S base) l) (side_operand (S base + side_size l) r))); [|lia|done|..]; cbn [en_left en_right].
    + rewrite Nat2Z.id. specialize (Hn 0%nat _ eq_refl). by rewrite Nat.add_0_r in Hn.
    + apply IHl; [|done|lia|lia]. intros k n Hk. replace (S base + k)%nat with (base + S k)%nat by lia. apply Hn.
      change ((side_nodes (S base) l ++ side_nodes (S base + side_size l) r) !! k = Some n). by apply lookup_app_l_Some.
    + apply IHr; [|done|lia|lia]. intros k n Hk. replace (S base + side_size l + k)%nat with (base + S (side_size l + k))%nat by lia. apply Hn.
      change ((side_nodes (S base) l ++ side_nodes (S base + side_size l) r) !! (side_size l + k)%nat = Some n). rewrite lookup_app_r by (rewrite Hsz; lia). rewrite Hsz. by replace (side_size l + k - side_size l)%nat with k by lia.
  - intros base depth i _ _ _ _. constructor.
  - intros e IH base depth i Hn He Hd Hi. cbn [side_operand]. constructor; [done|]. replace (Z.of_nat depth + 1) with (Z.of_nat (S depth)) by lia.
    apply IH; [done|done|]. cbn [side_depth] in Hd. lia.
  - intros o base depth i _ Ho _ _. cbn [side_operand]. destruct o; cbn in Ho; try done.
    + constructor. apply Ho.
    + destruct Ho as (? & ? & _). constructor; [done|lia].
    + by constructor.
    + constructor.
Qed.
Lemma loadable_expr_ok nodes : expr_loadable prog nodes -> expr_ok prog nodes 0 0.
Proof.
  intros (e & -> & He & Hd & _). apply (proj1 (nodes_ok (expr_nodes 0 e)) e 0%nat 0%nat); [done|done|lia].
Qed.
End expr.
