(* ===== verification/P4JsonPipe.v ===== *)
(** * Pipelines, and the whole: what the loader accepts is [loadable] *)
From S2P Require Export P4JsonOk.
From stdpp Require Import strings.
#[local] Open Scope Z_scope.

(** ** Tables *)
Section tables.
Variable prog : p4_program.
(** The keys read so far, the LPM key and the kind. *)
Record keys_inv (n : nat) (acc : list p4_table_key * Z * p4_match_kind) : Prop := {
  ki_len : length acc.1.1 = n;
  ki_keys : Forall (fun k => key_ok prog k /\ key_loadable prog k) acc.1.1;
  ki_rank : Forall (fun k => kind_rank (tk_match_type k) <= kind_rank acc.2) acc.1.1;
  ki_kind : acc.2 = MATCH_EXACT \/ exists k, k ∈ acc.1.1 /\ tk_match_type k = acc.2;
  ki_lpm : acc.1.2 = P4_IDX_NONE /\ Forall (fun k => tk_match_type k <> MATCH_LPM) acc.1.1 \/
    0 <= acc.1.2 < Z.of_nat (length acc.1.1) /\ forall i, tk_match_type <$> acc.1.1 !! i = Some MATCH_LPM <-> Z.of_nat i = acc.1.2 }.
Lemma key_mask_ok kf b m : p4_walk_key_mask kf b = inr (Some m) -> bytes16_ok m /\ be_bit_length m <= b.
Proof.
  unfold p4_walk_key_mask. destruct (get_nonnull kf "mask"); intros H; walk H; [|done]. injection H as <-. apply hexstr_pos_literal in Hx as [? _].
  apply Z.ltb_ge in Hf. done.
Qed.
Lemma kind_rank_max (a b : p4_match_kind) : kind_rank a <= kind_rank (if kind_rank a <? kind_rank b then b else a) /\ kind_rank b <= kind_rank (if kind_rank a <? kind_rank b then b else a).
Proof. by destruct a, b. Qed.
Lemma walk_table_key_inv n acc kf acc' : (n < P4_MAX_TABLE_KEY)%nat -> keys_inv n acc -> p4_walk_table_key prog acc kf = inr acc' -> keys_inv (S n) acc'.
Proof.
  destruct acc as [[keys lpm] kind]. intros Hn [Hlen Hkeys Hrank Hkind Hlpm] H. cbn [fst snd] in *. unfold p4_walk_table_key in H. cbv zeta in H. walk H. subst acc'.
  apply resolve_first in Hx2 as Hr1. apply Z.ltb_ge in Hf1. unfold P4_MAX_ENTRY_BYTES in Hf1.
  set (k := match r with Some m => _ | None => _ end). assert (tk_match_type k = x0) as Hk by (by destruct r). assert (tk_field k = x2) as Hkf by (by destruct r).
  destruct (kind_rank_max kind x0) as [Hm1 Hm2]. split; cbn [fst snd].
  - rewrite length_app. cbn. lia.
  - apply Forall_app, conj, Forall_singleton; [done|]. split.
    + split_and!; rewrite ?Hkf; [apply Hr1|unfold p4_field_bits in Hf1; unfold P4_MAX_ENTRY_BYTES; lia|].
      subst k. destruct r; [|done]. intros _. cbn. by apply key_mask_ok in Hr as [? _].
    + split; [by rewrite Hkf|]. subst k. destruct r; cbn; [|done]. by apply key_mask_ok in Hr.
  - apply Forall_app, conj, Forall_singleton; [|by rewrite Hk]. eapply Forall_impl; [exact Hrank|]. cbn. intros k'. lia.
  - destruct (kind_rank kind <? kind_rank x0); [right; exists k; split; [set_solver|done]|]. destruct Hkind as [|(k' & ? & ?)]; [by left|right; exists k'; set_solver].
  - case_bool_decide as Hl; cbn [andb] in Hf0.
    + right. apply negb_false_iff, Z.eqb_eq in Hf0. destruct Hlpm as [[_ Hno]|[Hge _]]; [|unfold P4_IDX_NONE, P4_MAX_TABLE_KEY in *; lia].
      split; [rewrite length_app; cbn; lia|]. intros i. split.
      * intros Hi. destruct (decide (i < length keys)%nat) as [Hlt|Hge].
        -- rewrite lookup_app_l in Hi by done. apply fmap_Some in Hi as (k' & Hk' & Hl'). destruct (Forall_lookup_1 _ _ _ _ Hno Hk'). done.
        -- rewrite lookup_app_r in Hi by lia. destruct (i - length keys)%nat as [|j] eqn:Hj; [lia|]. cbn in Hi. done.
      * intros Hi. assert (i = length keys) as -> by lia. rewrite lookup_app_r, Nat.sub_diag by lia. cbn. by rewrite Hk, Hl.
    + destruct Hlpm as [[-> Hno]|[Hge Hi]]; [left|right].
      * split; [done|]. apply Forall_app, conj, Forall_singleton; [done|]. by rewrite Hk.
      * split; [rewrite length_app; cbn; lia|]. intros i. rewrite <-Hi. destruct (decide (i < length keys)%nat) as [Hlt|Hge'].
        -- by rewrite lookup_app_l.
        -- rewrite lookup_app_r by lia. rewrite (lookup_ge_None_2 keys) by lia. destruct (i - length keys)%nat as [|j] eqn:Hj; cbn; [rewrite Hk|]; split; [by intros [= ?]|done|done|done].
Qed.
Lemma walk_keys_inv l acc : (length l <= P4_MAX_TABLE_KEY)%nat -> each (p4_walk_table_key prog) ([], P4_IDX_NONE, MATCH_EXACT) l = inr acc -> keys_inv (length l) acc.
Proof.
  intros Hl. apply (each_inv _ (fun l acc => keys_inv (length l) acc)).
  - intros d s x s' Hp Hs Hx. rewrite length_app, Nat.add_comm. cbn. eapply walk_table_key_inv; [|done|done]. apply prefix_length in Hp. rewrite length_app in Hp. cbn in Hp. lia.
  - split; cbn; auto.
Qed.
Lemma keys_kinds n acc : keys_inv n acc ->
  Forall (fun k => kind_rank (tk_match_type k) <= kind_rank acc.2) acc.1.1 /\
  (forall i, tk_match_type <$> acc.1.1 !! i = Some MATCH_LPM -> Z.of_nat i = acc.1.2) /\
  (acc.2 = MATCH_LPM -> 0 <= acc.1.2 < Z.of_nat (length acc.1.1)) /\
  (acc.1.2 = P4_IDX_NONE \/ tk_match_type <$> acc.1.1 !! Z.to_nat acc.1.2 = Some MATCH_LPM /\ 0 <= acc.1.2).
Proof.
  intros [_ _ Hrank Hkind Hlpm]. split; [done|]. destruct Hlpm as [[Hnone Hno]|[Hr Hi]].
  - assert (forall i, tk_match_type <$> acc.1.1 !! i <> Some MATCH_LPM) as Hn by (intros i (k & Hk & Hl)%fmap_Some; by destruct (Forall_lookup_1 _ _ _ _ Hno Hk)).
    split_and!; [intros i H; by destruct (Hn i)| |by left]. intros Hl. destruct Hkind as [Hk|(k & Hin & Hk)]; [congruence|].
    rewrite Forall_forall in Hno. destruct (Hno k Hin). congruence.
  - split_and!; [intros i; apply Hi|done|right; split; [|lia]]. apply Hi. lia.
Qed.
(** A table before its edges are known. *)
Record table_one (t : p4_table) : Prop := {
  to_name : name_ok (tb_name t) /\ id_ok (tb_id t);
  to_keys : Forall (key_ok prog) (tb_key t) /\ Forall (key_loadable prog) (tb_key t) /\ (length (tb_key t) <= P4_MAX_TABLE_KEY)%nat;
  to_kinds : kinds_ok t;
  to_kind : tb_match_type t = MATCH_EXACT \/ exists k, k ∈ tb_key t /\ tk_match_type k = tb_match_type t;
  to_lpm : tb_lpm_key t = P4_IDX_NONE \/ tk_match_type <$> tb_key t !! Z.to_nat (tb_lpm_key t) = Some MATCH_LPM /\ 0 <= tb_lpm_key t;
  to_actions : Forall (act_idx_ok prog) (tb_actions t) /\ (1 <= length (tb_actions t) <= P4_MAX_TABLE_ACTIONS)%nat;
  to_next : tb_next t = replicate (length (tb_actions t)) P4_IDX_NONE /\ tb_base_default_next t = P4_IDX_NONE;
  to_default : default_ok prog t;
  to_data : Forall2 (fun b d => literal d.1 d.2 /\ be_bit_length d.2 <= b)
    (if decide (tb_default_action t = P4_IDX_NONE) then [] else ac_runtime_bits (elt (pg_actions prog) (tb_default_action t))) (tb_default_data t);
  to_size : 0 <= tb_max_size t <= P4_MAX_TOTAL_ENTRIES }.
Lemma walk_default_ok t actions d :
  (length (pg_actions prog) <= P4_MAX_ACTIONS)%nat -> p4_walk_default prog t actions = inr d ->
  (d.1 = P4_IDX_NONE /\ d.2 = [] \/ d.1 ∈ actions /\ d.1 <> P4_IDX_NONE) /\
  Forall2 (fun b d => literal d.1 d.2 /\ be_bit_length d.2 <= b) (if decide (d.1 = P4_IDX_NONE) then [] else ac_runtime_bits (elt (pg_actions prog) d.1)) d.2.
Proof.
  intros Hn. unfold p4_walk_default. destruct (p4_get_obj t "default_entry"); intros H; cbv zeta in H; walk H; subst d; cbn [fst snd]; [|split; [by left|constructor]].
  destruct x0 as [i a]. cbn [fst snd] in *. apply list_find_Some in Hx0 as (Hi & _ & _). apply lookup_lt_Some in Hi as Hlt.
  apply negb_false_iff, bool_decide_eq_true in Hf, Hf0. assert (Z.of_nat i <> P4_IDX_NONE) as Hne by (unfold P4_IDX_NONE, P4_MAX_ACTIONS in *; lia).
  split; [by right|]. rewrite decide_False by done. unfold elt. rewrite Nat2Z.id, (list_lookup_total_correct _ _ _ Hi).
  destruct (each_list p4_walk_default_arg (fun _ x d => literal d.1 d.2 /\ be_bit_length d.2 <= x.1) (zip (ac_runtime_bits a) x1) r) with (2 := Hr) as [Hl HR].
  { clear. intros s [b e] s' H. unfold p4_walk_default_arg in H. walk H. eexists. split; [symmetry; exact H|]. apply hexstr_pos_literal in Hx. by apply Z.ltb_ge in Hf. }
  rewrite length_zip_with in Hl. apply Forall2_same_length_lookup. split; [lia|]. intros k b d Hb Hd.
  destruct (lookup_lt_is_Some_2 x1 k) as [e He]; [apply lookup_lt_Some in Hb; lia|]. eapply (HR k (b, e)); [|done]. by rewrite lookup_zip_with, Hb, He.
Qed.
Lemma walk_table_ok total t r :
  (length (pg_actions prog) <= P4_MAX_ACTIONS)%nat -> p4_walk_table prog total t = inr r ->
  table_one r.1 /\ r.2 = total + tb_max_size r.1 /\ tb_max_size r.1 <= P4_MAX_TOTAL_ENTRIES - total.
Proof.
  intros Hn. unfold p4_walk_table. intros H. walk H. subst r. cbn [fst snd tb_max_size]. apply get_str_ok in Hx. apply get_id_ok in Hx0. apply get_u32_ok in Hx4.
  apply get_array_len in Hx5, Hx6. apply Z.ltb_ge in Hf4. apply negb_false_iff, bool_decide_eq_true in Hf5. apply bool_decide_eq_false in Hf6.
  apply walk_keys_inv in Hr as Hk; [|done]. destruct (keys_kinds _ _ Hk) as (K1 & K2 & K3 & K4). destruct Hk as [Kl [Kk1 Kk2]%Forall_and _ Kk _].
  destruct (each_Forall (act_idx_ok prog) Hr0) as [Ha Hla].
  { clear. intros s e s' H. unfold p4_walk_table_action in H. cbv zeta in H. walk H. eexists. split; [symmetry; exact H|]. apply Z.eqb_neq in Hf. by destruct (find_name_spec ac_name _ _ Hf). }
  destruct (walk_default_ok _ _ _ Hn Hr1) as [Hd1 Hd2]. split; [|split; [done|lia]]. subst x3. split; cbn [tb_name tb_id tb_key tb_match_type tb_lpm_key tb_actions tb_next tb_base_default_next tb_default_action tb_default_data tb_max_size].
  all: try done.
  - split_and!; [done..|lia].
  - split; [done|lia].
  - unfold default_ok. cbn [tb_default_action tb_default_data tb_actions]. destruct Hd1 as [?|[Hin Hne]]; [by left|right]. rewrite decide_False in Hd2 by done. split_and!; [done|by apply Forall2_length in Hd2|].
    apply Forall_forall. intros y (j & Hj)%list_elem_of_lookup. destruct (Forall2_lookup_r _ _ _ _ _ Hd2 Hj) as (b & _ & (? & ? & _) & _). split; [done|lia].
  - lia.
Qed.

(** ** Edges *)
Lemma resolve_next_ok pl v n : p4_resolve_next pl v = inr n -> next_in (Z.of_nat (length (pl_nodes pl))) n.
Proof.
  unfold p4_resolve_next. destruct (v ≫= _); intros H; cbv zeta in H; walk H; subst n; [right|by left].
  apply Z.eqb_neq in Hf. by destruct (find_name_spec (node_name pl) _ _ Hf).
Qed.
Lemma member_key key m v : member key m = Some v -> key ∈ m.*1.
Proof. induction m as [|[k w] m IH]; cbn; [done|]. case_bool_decide; [subst; intros _; left|right; auto]. Qed.
Definition same_next (t : p4_table) : Prop :=
  forall i j a, tb_actions t !! i = Some a -> tb_actions t !! j = Some a -> tb_next t !!! i = tb_next t !!! j.
Lemma walk_next_ok t pl dst dst' :
  p4_walk_next_tables prog t pl dst = inr dst' -> tb_base_default_next dst = P4_IDX_NONE ->
  let n := Z.of_nat (length (pl_nodes pl)) in
  exists next base, dst' = dst <| tb_next := next |> <| tb_base_default_next := base |> /\ length next = length (tb_actions dst) /\
    Forall (next_in n) next /\ next_in n base /\ same_next dst' /\
    ((exists a, a ∈ tb_actions dst /\ is_hit_key (aname prog a) = true) -> exists hit, next = replicate (length (tb_actions dst)) hit).
Proof.
  intros H Hbase. cbv zeta. unfold p4_walk_next_tables in H. cbv zeta in H. walk_step H. walk_step H. set (keys := match x with JObj m => m.*1 | _ => [] end) in *.
  destruct (existsb is_hit_key keys) eqn:Hhit.
  - walk H. subst dst'. exists (replicate (length (tb_actions dst)) r), r0. split; [done|]. split; [apply length_replicate|]. split; [apply Forall_replicate; by eapply resolve_next_ok|].
    split; [by eapply resolve_next_ok|]. split; [|by eexists]. intros i j a Hi Hj. change (tb_actions dst !! i = Some a) in Hi. change (tb_actions dst !! j = Some a) in Hj. apply lookup_lt_Some in Hi, Hj.
    change (replicate (length (tb_actions dst)) r !!! i = replicate (length (tb_actions dst)) r !!! j). by rewrite !lookup_total_replicate_2.
  - walk_step H. walk_step H.
    assert (length r = length (tb_actions dst) /\ forall i a n, tb_actions dst !! i = Some a -> r !! i = Some n ->
      exists v, json_object_object_get_ex x (aname prog a) = Some v /\ p4_resolve_next pl (Some v) = inr n) as [Hl HR].
    { apply (each_list (fun next a => v ← need EINVAL (json_object_object_get_ex x (aname prog a)); n ← p4_resolve_next pl (Some v); mret (next ++ [n]))
        (fun _ a n => exists v, json_object_object_get_ex x (aname prog a) = Some v /\ p4_resolve_next pl (Some v) = inr n)); [|exact Hr].
      clear. intros s a s' H. cbn beta in H. walk H. eexists. split; [symmetry; exact H|]. eauto. }
    assert (exists base, dst' = dst <| tb_next := r |> <| tb_base_default_next := base |> /\ next_in (Z.of_nat (length (pl_nodes pl))) base) as (base & -> & Hb).
    { destruct (get t "base_default_next"); walk H; [eexists; split; [symmetry; exact H|by eapply resolve_next_ok]|].
      exists P4_IDX_NONE. split; [|by left]. subst dst'. rewrite <-Hbase. by destruct dst. }
    exists r, base. split; [done|]. split; [done|]. split; [|split; [done|split]].
    + apply Forall_lookup. intros i n Hn. destruct (lookup_lt_is_Some_2 (tb_actions dst) i) as [a Ha]; [rewrite <-Hl; by eapply lookup_lt_Some|].
      destruct (HR i a n Ha Hn) as (v & _ & Hv). by eapply resolve_next_ok.
    + intros i j a Hi Hj. change (tb_actions dst !! i = Some a) in Hi. change (tb_actions dst !! j = Some a) in Hj. change (r !!! i = r !!! j). destruct (lookup_lt_is_Some_2 r i) as [n Hn]; [rewrite Hl; by eapply lookup_lt_Some|].
      destruct (lookup_lt_is_Some_2 r j) as [m Hm]; [rewrite Hl; by eapply lookup_lt_Some|].
      rewrite (list_lookup_total_correct _ _ _ Hn), (list_lookup_total_correct _ _ _ Hm).
      destruct (HR i a n Hi Hn) as (v & Hv & Hn'), (HR j a m Hj Hm) as (v' & Hv' & Hm'). congruence.
    + intros (a & Ha & Hk). exfalso. apply list_elem_of_lookup in Ha as [i Hi]. destruct (lookup_lt_is_Some_2 r i) as [n Hn]; [rewrite Hl; by eapply lookup_lt_Some|].
      destruct (HR i a n Hi Hn) as (v & Hv & _). apply (proj1 (existsb_false _ _)) with (x := aname prog a) in Hhit; [congruence|]. subst keys. destruct x; try done. by eapply member_key.
Qed.
End tables.

(** ** Names of nodes *)
Definition nodes_list (pl : p4_pipeline) : Prop :=
  pl_nodes pl = (NODE_TABLE <$> seqZ 0 (Z.of_nat (length (pl_tables pl)))) ++ (NODE_CONDITIONAL <$> seqZ 0 (Z.of_nat (length (pl_conditionals pl)))).
Lemma fmap_elt {A B} `{!Inhabited A} (f : A -> B) (l : list A) : (fun i => f (elt l i)) <$> seqZ 0 (Z.of_nat (length l)) = f <$> l.
Proof.
  apply list_eq. intros i. rewrite !list_lookup_fmap. destruct (l !! i) as [a|] eqn:Hi.
  - apply lookup_lt_Some in Hi as Hlt. rewrite lookup_seqZ_lt by lia. cbn. rewrite Z.add_0_l. unfold elt. by rewrite Nat2Z.id, (list_lookup_total_correct _ _ _ Hi).
  - apply lookup_ge_None in Hi. rewrite lookup_seqZ_ge by lia. done.
Qed.
Lemma nodes_named pl : nodes_list pl -> node_name pl <$> pl_nodes pl = node_names pl.
Proof.
  intros ->. unfold node_names. rewrite fmap_app, <-!list_fmap_compose. unfold compose. cbn [node_name].
  by rewrite (fmap_elt tb_name), (fmap_elt cn_name).
Qed.
Lemma nodes_length pl : nodes_list pl -> length (pl_nodes pl) = (length (pl_tables pl) + length (pl_conditionals pl))%nat.
Proof. intros ->. rewrite length_app, !length_fmap, !length_seqZ. lia. Qed.
Lemma find_node_none pl name : nodes_list pl -> (length (pl_nodes pl) <= 64)%nat -> p4_find_node pl name = P4_IDX_NONE -> name ∉ node_names pl.
Proof.
  intros Hnl Hlen Hf. rewrite <-nodes_named by done. intros (n & -> & [i Hi]%list_elem_of_lookup)%list_elem_of_fmap.
  apply (find_name_none (node_name pl) (pl_nodes pl) _ (Z.of_nat i) Hlen Hf); [apply lookup_lt_Some in Hi; lia|].
  unfold elt. by rewrite Nat2Z.id, (list_lookup_total_correct _ _ _ Hi).
Qed.

Section pipeline.
Variables (prog : p4_program) (pls : list p4_pipeline) (slot : nat).
Hypothesis Hact : (length (pg_actions prog) <= P4_MAX_ACTIONS)%nat.
Hypothesis Hpls : Forall (fun q => nodes_list q /\ (length (pl_nodes q) <= 64)%nat) pls.
Hypothesis Hslot : (slot < length pls)%nat.

(** No name is in two places. *)
Definition apart (pl : p4_pipeline) : Prop :=
  NoDup (node_names pl) /\ forall j q, j <> slot -> pls !! j = Some q -> forall n, n ∈ node_names pl -> n ∉ node_names q.
Lemma unique_apart pl name u :
  nodes_list pl -> (length (pl_nodes pl) <= 64)%nat -> p4_check_node_unique (<[slot := pl]> pls) name = inr u ->
  (name ∉ node_names pl) /\ forall j q, j <> slot -> pls !! j = Some q -> name ∉ node_names q.
Proof.
  intros Hnl Hlen Hu%fail_if_inr. pose proof (proj1 (existsb_false _ _) Hu) as H. split.
  - apply find_node_none; [done|done|]. assert (pl ∈ <[slot := pl]> pls) as Hin by (eapply list_elem_of_lookup_2; by apply list_lookup_insert_eq).
    apply H in Hin. by apply negb_false_iff, Z.eqb_eq in Hin.
  - intros j q Hj Hq. destruct (Forall_lookup_1 _ _ _ _ Hpls Hq) as [??]. apply find_node_none; [done|done|].
    assert (q ∈ <[slot := pl]> pls) as Hin by (eapply (list_elem_of_lookup_2 _ j); by rewrite list_lookup_insert_ne).
    apply H in Hin. by apply negb_false_iff, Z.eqb_eq in Hin.
Qed.
(** What stays while a pipeline's nodes are read. *)
Record pl_inv (pl0 pl : p4_pipeline) : Prop := {
  pi_same : pl_name pl = pl_name pl0 /\ pl_id pl = pl_id pl0;
  pi_nodes : nodes_list pl;
  pi_apart : apart pl;
  pi_tables : Forall (table_one prog) (pl_tables pl);
  pi_table_ids : NoDup (tb_id <$> pl_tables pl);
  pi_conds : Forall (conditional_loadable prog) (pl_conditionals pl);
  pi_cond_ids : NoDup (cn_id <$> pl_conditionals pl) }.
Lemma NoDup_snoc {A} (l : list A) x : NoDup l -> x ∉ l -> NoDup (l ++ [x]).
Proof. intros Hl Hx. apply NoDup_app. split_and!; [done|set_solver|apply NoDup_singleton]. Qed.
Lemma ids_snoc {A} (id : A -> Z) (l : list A) a : NoDup (id <$> l) -> existsb (fun b => id b =? id a) l = false -> NoDup (id <$> (l ++ [a])).
Proof.
  intros Hl Hx. rewrite fmap_app. apply NoDup_snoc; [done|]. intros (b & He & Hb)%list_elem_of_fmap.
  apply (proj1 (existsb_false _ _)) with (x := b) in Hx; [|done]. apply Z.eqb_neq in Hx. congruence.
Qed.
Lemma table_inv pl0 n acc t acc' :
  (n < P4_MAX_TABLES)%nat -> pl_inv pl0 acc.1 -> length (pl_tables acc.1) = n -> pl_conditionals acc.1 = [] ->
  p4_walk_pl_table prog pls slot acc t = inr acc' ->
  pl_inv pl0 acc'.1 /\ length (pl_tables acc'.1) = S n /\ pl_conditionals acc'.1 = [] /\
  exists tb, pl_tables acc'.1 = pl_tables acc.1 ++ [tb] /\ acc'.2 = acc.2 + tb_max_size tb /\ acc'.2 <= P4_MAX_TOTAL_ENTRIES.
Proof.
  destruct acc as [pl total]. intros Hn [Hsame Hnl [Hnd Hap] Hts Hids Hcs Hcids] Hlen Hnc H. cbn [fst snd] in *. unfold p4_walk_pl_table in H. cbv zeta in H. walk H. subst acc'.
  destruct r as [tb total']. cbn [fst snd] in *. apply walk_table_ok in Hr as (Hone & Htot & Hmax); [|done]. cbn [fst snd] in *.
  assert (length (pl_nodes pl) <= 64)%nat as Hl64 by (rewrite nodes_length by done; rewrite Hnc; cbn; unfold P4_MAX_TABLES in Hn; lia).
  destruct (unique_apart _ _ _ Hnl Hl64 Hr0) as [Hnew Hnew'].
  assert (node_names pl = tb_name <$> pl_tables pl) as Hnn by (unfold node_names; by rewrite Hnc, app_nil_r).
  match goal with |- pl_inv _ ?p /\ _ => set (pl' := p) end. assert (node_names pl' = node_names pl ++ [tb_name tb]) as Hnames.
  { unfold node_names. change (pl_conditionals pl') with (pl_conditionals pl). rewrite Hnc, !app_nil_r. exact (fmap_app tb_name (pl_tables pl) [tb]). }
  split; [|split; [|split]].
  - split.
    + done.
    + unfold nodes_list in *. change (pl_nodes pl ++ [NODE_TABLE (Z.of_nat (length (pl_tables pl)))] = (NODE_TABLE <$> seqZ 0 (Z.of_nat (length (pl_tables pl ++ [tb])))) ++ (NODE_CONDITIONAL <$> seqZ 0 (Z.of_nat (length (pl_conditionals pl))))).
      rewrite Hnl, Hnc, !app_nil_r, length_app, Nat.add_comm. cbn [length Nat.add]. rewrite seqZ_S, fmap_app. done.
    + split; [rewrite Hnames; by apply NoDup_snoc|]. intros j q Hj Hq m. rewrite Hnames. intros [Hm| ->%list_elem_of_singleton]%elem_of_app; [by eapply Hap|by eapply Hnew'].
    + by apply Forall_app, conj, Forall_singleton.
    + by apply ids_snoc.
    + done.
    + done.
  - change (length (pl_tables pl ++ [tb]) = S n). rewrite length_app. cbn. lia.
  - done.
  - exists tb. split; [done|]. split; [done|]. lia.
Qed.
Lemma conditional_inv pl0 pl c pl' :
  (length (pl_nodes pl) <= 64)%nat -> pl_inv pl0 pl -> p4_walk_conditional prog pls slot pl c = inr pl' ->
  pl_inv pl0 pl' /\ pl_tables pl' = pl_tables pl /\ length (pl_conditionals pl') = S (length (pl_conditionals pl)).
Proof.
  intros Hl64 [Hsame Hnl [Hnd Hap] Hts Hids Hcs Hcids] H. unfold p4_walk_conditional in H. cbv zeta in H. walk H. destruct r0 as [root nodes]. cbn [fst snd] in *.
  apply get_str_ok in Hx. apply get_id_ok in Hx0. destruct (unique_apart _ _ _ Hnl Hl64 Hr) as [Hnew Hnew'].
  apply walk_expr_ok in Hr0 as (e & -> & -> & He & Hd & Hs). cbn [app length] in *. set (cd := P4Conditional x x0 0 0 (expr_nodes 0 e)) in *.
  assert (node_names pl' = node_names pl ++ [x]) as Hnames.
  { subst pl'. unfold node_names. change (pl_tables (pl <| pl_nodes ::= _ |> <| pl_conditionals ::= _ |>)) with (pl_tables pl).
    change (pl_conditionals (pl <| pl_nodes ::= _ |> <| pl_conditionals ::= _ |>)) with (pl_conditionals pl ++ [cd]). by rewrite fmap_app, app_assoc. }
  split; [|subst pl'; split; [done|]].
  - split.
    + by subst pl'.
    + subst pl'. unfold nodes_list in *.
      change (pl_nodes pl ++ [NODE_CONDITIONAL (Z.of_nat (length (pl_conditionals pl)))] =
        (NODE_TABLE <$> seqZ 0 (Z.of_nat (length (pl_tables pl)))) ++ (NODE_CONDITIONAL <$> seqZ 0 (Z.of_nat (length (pl_conditionals pl ++ [cd]))))).
      rewrite Hnl, length_app, (Nat.add_comm (length (pl_conditionals pl))). cbn [length Nat.add]. by rewrite seqZ_S, fmap_app, app_assoc.
    + split; [rewrite Hnames; by apply NoDup_snoc|]. intros j q Hj Hq m. rewrite Hnames. intros [Hm| ->%list_elem_of_singleton]%elem_of_app; [by eapply Hap|by eapply Hnew'].
    + by subst pl'.
    + by subst pl'.
    + subst pl'. apply Forall_app, conj, Forall_singleton; [done|]. split_and!; [done|done|]. exists e. destruct nodes_size as [Hsz _]. rewrite Hsz in Hs. split_and!; done || (unfold expr_levels in Hd; lia).
    + subst pl'. by apply (ids_snoc cn_id (pl_conditionals pl) cd).
  - change (length (pl_conditionals pl ++ [cd]) = S (length (pl_conditionals pl))). rewrite length_app. cbn. lia.
Qed.

(** *** Its edges *)
Definition with_next (N : Z) (t t' : p4_table) : Prop :=
  exists next base, t' = t <| tb_next := next |> <| tb_base_default_next := base |> /\ length next = length (tb_actions t) /\
    Forall (next_in N) next /\ next_in N base /\ same_next t' /\
    ((exists a, a ∈ tb_actions t /\ is_hit_key (aname prog a) = true) -> exists hit, next = replicate (length (tb_actions t)) hit).
Lemma with_next_ok N t t' : table_one prog t -> with_next N t t' -> table_ok prog N t' /\ table_loadable prog t'.
Proof.
  intros [[T1 T2] (T3 & T4 & T5) T6 T7 T8 [T9 T10] _ T11 T12 T13] (next & base & -> & Hl & Hn & Hb & Hs & Hh). split.
  - exact (conj T3 (conj T5 (conj T6 (conj T9 (conj Hl (conj Hn (conj Hb (conj T11 T13)))))))).
  - exact (conj T1 (conj T2 (conj T4 (conj T7 (conj T8 (conj T10 (conj Hs (conj Hh T12)))))))).
Qed.
Definition with_branches (N : Z) (c c' : p4_conditional) : Prop :=
  exists t f, c' = c <| cn_true_next := t |> <| cn_false_next := f |> /\ next_in N t /\ next_in N f.
Lemma zip_lookup {A B} (l : list A) (k : list B) i a b : zip l k !! i = Some (a, b) -> l !! i = Some a /\ k !! i = Some b.
Proof. intros (? & ? & [= <- <-] & ? & ?)%lookup_zip_with_Some. done. Qed.
(** A list read against the documents it was made of. *)
Lemma each_zip {A B} (f : list B -> A * json -> result (list B)) (R : A -> B -> Prop) l js bs :
  length js = length l -> (forall s a j s', a ∈ l -> f s (a, j) = inr s' -> exists b, s' = s ++ [b] /\ R a b) -> each f [] (zip l js) = inr bs -> Forall2 R l bs.
Proof.
  intros Hlen Hf He.
  assert (length bs = length (zip l js) /\ forall i x b, zip l js !! i = Some x -> bs !! i = Some b -> R x.1 b) as [Hl HR].
  { revert He. apply (each_inv f (fun d bs => length bs = length d /\ forall i x b, d !! i = Some x -> bs !! i = Some b -> R x.1 b)); [|done].
    intros d s [a j] s' [k Hp] [Hl HR] Hx. assert (a ∈ l) as Ha.
    { assert (zip l js !! length d = Some (a, j)) as [? _]%zip_lookup; [|by eapply list_elem_of_lookup_2]. by rewrite Hp, <-app_assoc, lookup_app_r, Nat.sub_diag by lia. }
    destruct (Hf s a j s' Ha Hx) as (b & -> & Hb). split; [rewrite !length_app; cbn; lia|]. intros i x b' Hx' Hb'. destruct (decide (i < length d)%nat) as [Hlt|Hge].
    - rewrite lookup_app_l in Hx' by done. rewrite lookup_app_l in Hb' by lia. by eapply HR.
    - rewrite lookup_app_r in Hx' by lia. rewrite lookup_app_r in Hb' by lia. rewrite Hl in Hb'. destruct (i - length d)%nat; cbn in *; by simplify_eq. }
  rewrite length_zip_with in Hl. apply Forall2_same_length_lookup. split; [lia|]. intros i a b Ha Hb.
  destruct (lookup_lt_is_Some_2 js i) as [j Hj]; [apply lookup_lt_Some in Ha; lia|]. eapply (HR i (a, j)); [|done]. by rewrite lookup_zip_with, Ha, Hj.
Qed.
Lemma next_tables_ok pl tables ts :
  Forall (table_one prog) (pl_tables pl) -> length tables = length (pl_tables pl) -> each (p4_next_table prog pl) [] (zip (pl_tables pl) tables) = inr ts ->
  Forall2 (with_next (Z.of_nat (length (pl_nodes pl)))) (pl_tables pl) ts.
Proof.
  intros Hone Hlen. apply each_zip; [done|]. intros s a j s' Ha H. unfold p4_next_table in H. cbn [fst snd] in H. walk H. eexists. split; [symmetry; exact H|].
  rewrite Forall_forall in Hone. destruct (Hone a Ha) as [_ _ _ _ _ _ [_ Hb] _ _ _]. by apply walk_next_ok in Hr.
Qed.
Lemma next_conditionals_ok pl conds cs :
  length conds = length (pl_conditionals pl) -> each (p4_next_conditional pl) [] (zip (pl_conditionals pl) conds) = inr cs ->
  Forall2 (with_branches (Z.of_nat (length (pl_nodes pl)))) (pl_conditionals pl) cs.
Proof.
  intros Hlen. apply each_zip; [done|]. intros s a j s' _ H. unfold p4_next_conditional in H. cbn [fst snd] in H. walk H. eexists. split; [symmetry; exact H|].
  exists r, r0. split; [done|]. split; by eapply resolve_next_ok.
Qed.
Lemma Forall2_fmap_same {A B} (f : A -> B) (R : A -> A -> Prop) l k : (forall a b, R a b -> f b = f a) -> Forall2 R l k -> f <$> k = f <$> l.
Proof. intros Hf. induction 1 as [|a b l k Hab _ IH]; [done|]. cbn. by rewrite (Hf a b Hab), IH. Qed.
Lemma Forall2_right {A B} (P : A -> Prop) (Q : B -> Prop) (R : A -> B -> Prop) l k : (forall a b, P a -> R a b -> Q b) -> Forall P l -> Forall2 R l k -> Forall Q k.
Proof. intros Hq Hl H. induction H as [|a b l k Hab _ IH]; [constructor|]. apply Forall_cons in Hl as [? ?]. constructor; eauto. Qed.

(** *** The whole pipeline *)
Definition pipe_edges_in (pl : p4_pipeline) : Prop :=
  let N := Z.of_nat (length (pl_nodes pl)) in
  Forall (node_ok pl) (pl_nodes pl) /\ Forall (table_ok prog N) (pl_tables pl) /\
  Forall (fun c => next_in N (cn_true_next c) /\ next_in N (cn_false_next c)) (pl_conditionals pl).
Lemma edges_next pl n m : pipe_edges_in pl -> 0 <= n < Z.of_nat (length (pl_nodes pl)) -> m ∈ node_edges pl n -> next_in (Z.of_nat (length (pl_nodes pl))) m.
Proof.
  intros (Hn & Ht & Hc) Hr. pose proof (elt_Forall _ _ _ Hn Hr) as Hok. unfold node_edges. destruct (elt (pl_nodes pl) n) as [i|i]; cbn in Hok.
  - destruct (elt_Forall _ _ _ Ht Hok) as (_ & _ & _ & _ & _ & Hnx & Hb & _). rewrite Forall_forall in Hnx. intros [Hm| ->%list_elem_of_singleton]%elem_of_app; auto.
  - destruct (elt_Forall _ _ _ Hc Hok) as [? ?]. intros [->|[->|[]%elem_of_nil]%elem_of_cons]%elem_of_cons; done.
Qed.
Lemma nodes_list_ok pl : nodes_list pl -> Forall (node_ok pl) (pl_nodes pl).
Proof.
  intros ->. apply Forall_app. split; apply Forall_fmap, Forall_forall; intros i Hi%elem_of_seqZ; cbn; lia.
Qed.
Lemma read_nodes_ok total p pl0 tables conds a pl :
  pl_nodes pl0 = [] -> pl_tables pl0 = [] -> pl_conditionals pl0 = [] -> total <= P4_MAX_TOTAL_ENTRIES ->
  p4_get_array p "tables" P4_MAX_TABLES = Some tables -> p4_get_array p "conditionals" P4_MAX_CONDITIONALS = Some conds ->
  each (p4_walk_pl_table prog pls slot) (pl0, total) tables = inr a -> each (p4_walk_conditional prog pls slot) a.1 conds = inr pl ->
  pl_inv pl0 pl /\ length (pl_tables pl) = length tables /\ length (pl_conditionals pl) = length conds /\
  a.2 = total + sumZ (tb_max_size <$> pl_tables pl) /\ a.2 <= P4_MAX_TOTAL_ENTRIES /\ (length tables <= P4_MAX_TABLES)%nat /\ (length conds <= P4_MAX_CONDITIONALS)%nat.
Proof.
  intros E1 E2 E3 Htot Ht%get_array_len Hc%get_array_len Ha Hpl.
  assert (pl_inv pl0 a.1 /\ length (pl_tables a.1) = length tables /\ pl_conditionals a.1 = [] /\ a.2 = total + sumZ (tb_max_size <$> pl_tables a.1) /\ a.2 <= P4_MAX_TOTAL_ENTRIES)
    as (Hi & Hl & Hnc & Hsum & Hmax).
  { revert Ha. apply (each_inv _ (fun d a => pl_inv pl0 a.1 /\ length (pl_tables a.1) = length d /\ pl_conditionals a.1 = [] /\
      a.2 = total + sumZ (tb_max_size <$> pl_tables a.1) /\ a.2 <= P4_MAX_TOTAL_ENTRIES)).
    - intros d s x s' Hp (I1 & I2 & I3 & I4 & I5) Hx. apply prefix_length in Hp. rewrite length_app in Hp. cbn in Hp.
      destruct (table_inv pl0 (length d) s x s' ltac:(lia) I1 I2 I3 Hx) as (J1 & J2 & J3 & tb & Jt & Js & Jm). split_and!; [done|rewrite length_app; cbn; lia|done| |done].
      rewrite Js, I4, Jt, fmap_app, sumZ_app. unfold sumZ at 3. cbn. lia.
    - cbn [fst snd]. rewrite E2. split_and!; try done; [|unfold sumZ; cbn; lia]. split; rewrite ?E2, ?E3; try (by constructor); try done.
      + unfold nodes_list. by rewrite E1, E2, E3.
      + unfold apart, node_names. rewrite E2, E3. split; [constructor|]. by intros ? ? _ _ ? []%elem_of_nil. }
  assert (pl_inv pl0 pl /\ pl_tables pl = pl_tables a.1 /\ length (pl_conditionals pl) = length conds) as (Hi' & Htb & Hlc).
  { revert Hpl. apply (each_inv _ (fun d pl => pl_inv pl0 pl /\ pl_tables pl = pl_tables a.1 /\ length (pl_conditionals pl) = length d)).
    - intros d s x s' Hp (I1 & I2 & I3) Hx. apply prefix_length in Hp. rewrite length_app in Hp. cbn in Hp.
      destruct (conditional_inv pl0 s x s') as (J1 & J2 & J3); [|done|done|split_and!; [done|congruence|rewrite length_app; cbn; lia]].
      rewrite nodes_length by apply I1. rewrite I2, I3. unfold P4_MAX_TABLES, P4_MAX_CONDITIONALS in *. lia.
    - by rewrite Hnc. }
  rewrite Htb. done.
Qed.
(** The pipeline with its edges resolved, before its first node is. *)
Record resolved (pl1 pl : p4_pipeline) : Prop := {
  rv_same : pl_name pl = pl_name pl1 /\ pl_id pl = pl_id pl1 /\ pl_nodes pl = pl_nodes pl1;
  rv_nodes : nodes_list pl;
  rv_names : node_names pl = node_names pl1;
  rv_table_ids : tb_id <$> pl_tables pl = tb_id <$> pl_tables pl1;
  rv_sizes : tb_max_size <$> pl_tables pl = tb_max_size <$> pl_tables pl1;
  rv_cond_ids : cn_id <$> pl_conditionals pl = cn_id <$> pl_conditionals pl1;
  rv_edges : pipe_edges_in pl;
  rv_tables : Forall (table_loadable prog) (pl_tables pl);
  rv_conds : Forall (conditional_loadable prog) (pl_conditionals pl) }.
Lemma resolve_ok pl0 pl1 tables conds ts cs :
  pl_inv pl0 pl1 -> length (pl_tables pl1) = length tables -> length (pl_conditionals pl1) = length conds ->
  each (p4_next_table prog pl1) [] (zip (pl_tables pl1) tables) = inr ts -> each (p4_next_conditional pl1) [] (zip (pl_conditionals pl1) conds) = inr cs ->
  resolved pl1 (pl1 <| pl_tables := ts |> <| pl_conditionals := cs |>).
Proof.
  intros [_ Hnl _ Hts _ Hcs _] Hlt Hlc Ht Hc. pose proof (next_tables_ok _ _ _ Hts (eq_sym Hlt) Ht) as Fts. pose proof (next_conditionals_ok _ _ _ (eq_sym Hlc) Hc) as Fcs.
  set (pl := pl1 <| pl_tables := ts |> <| pl_conditionals := cs |>). set (N := Z.of_nat (length (pl_nodes pl1))) in *.
  assert (tb_name <$> ts = tb_name <$> pl_tables pl1) as Q1 by (eapply Forall2_fmap_same, Fts; by intros a b (? & ? & -> & _)).
  assert (cn_name <$> cs = cn_name <$> pl_conditionals pl1) as Q4 by (eapply Forall2_fmap_same, Fcs; by intros a b (? & ? & -> & _)).
  pose proof (Forall2_length _ _ _ Fts) as Q6. pose proof (Forall2_length _ _ _ Fcs) as Q7.
  assert (nodes_list pl) as Hnl' by (unfold nodes_list in *; change (pl_nodes pl) with (pl_nodes pl1); change (pl_tables pl) with ts; change (pl_conditionals pl) with cs; congruence).
  assert (Forall (fun t => table_ok prog N t /\ table_loadable prog t) ts) as [Ht1 Ht2]%Forall_and by (eapply Forall2_right, Fts; [|exact Hts]; intros a b; apply with_next_ok).
  assert (Forall (fun c => conditional_loadable prog c /\ next_in N (cn_true_next c) /\ next_in N (cn_false_next c)) cs) as [Hc1 Hc2]%Forall_and.
  { eapply Forall2_right, Fcs; [|exact Hcs]. intros a b Ha (t & f & -> & Hx & Hy). done. }
  split; try done.
  - unfold node_names. change (pl_tables pl) with ts. change (pl_conditionals pl) with cs. congruence.
  - eapply Forall2_fmap_same, Fts. by intros a b (? & ? & -> & _).
  - eapply Forall2_fmap_same, Fts. by intros a b (? & ? & -> & _).
  - eapply Forall2_fmap_same, Fcs. by intros a b (? & ? & -> & _).
  - refine (conj (nodes_list_ok pl Hnl') (conj Ht1 Hc2)).
Qed.
Lemma resolved_acyclic pl1 pl n :
  resolved pl1 pl -> (length (pl_nodes pl1) <= P4_MAX_NODES)%nat -> let q := pl <| pl_init_node := n |> in
  (length (pl_nodes q) <= P4_MAX_NODES)%nat /\ forall n m, 0 <= n < Z.of_nat (length (pl_nodes q)) -> m ∈ node_edges q n -> next_in (Z.of_nat (length (pl_nodes q))) m.
Proof.
  intros [(_ & _ & Hn) _ _ _ _ _ He _ _] HN q. change (pl_nodes q) with (pl_nodes pl). rewrite Hn. split; [done|]. rewrite <-Hn. intros a m Ha Hm. exact (edges_next pl a m He Ha Hm).
Qed.
Lemma walk_pipeline_ok total p pl0 r :
  pl_nodes pl0 = [] -> pl_tables pl0 = [] -> pl_conditionals pl0 = [] -> total <= P4_MAX_TOTAL_ENTRIES -> p4_walk_pipeline prog pls slot total p pl0 = inr r ->
  pl_name r.1 = pl_name pl0 /\ pipeline_ok prog r.1 /\ pipeline_loadable prog r.1 /\ apart r.1 /\
  r.2 = total + sumZ (tb_max_size <$> pl_tables r.1) /\ r.2 <= P4_MAX_TOTAL_ENTRIES.
Proof.
  intros E1 E2 E3 Htot H. unfold p4_walk_pipeline in H. do 8 walk_step H. cbv zeta in H.
  destruct (read_nodes_ok total p (pl0 <| pl_id := x |>) x0 x1 r0 r1) as (Hi & Hlt & Hlc & Hsum & Hmax & Hnt & Hnc); [done..|].
  pose proof Hi as [[Hnm Hid] _ Hap _ Hids _ Hcids]. pose proof (resolve_ok _ _ _ _ _ _ Hi Hlt Hlc Hr1 Hr2) as Hrv.
  assert (length (pl_nodes r1) <= P4_MAX_NODES)%nat as HN by (rewrite nodes_length by apply Hi; unfold P4_MAX_NODES, P4_MAX_TABLES, P4_MAX_CONDITIONALS in *; lia).
  set (pl := r1 <| pl_tables := r2 |> <| pl_conditionals := r3 |>) in *. pose proof Hrv as [_ Hnl Hnames Q2 Q3 Q5 (Hnok & Ht1 & Hc2) Ht2 Hc1].
  assert (length r2 = length x0 /\ length r3 = length x1) as [L2 L3].
  { pose proof (f_equal length Q2) as L2. pose proof (f_equal length Q5) as L3. rewrite !length_fmap in L2. rewrite !length_fmap in L3. split; [exact (eq_trans L2 Hlt)|exact (eq_trans L3 Hlc)]. }
  assert (forall n, next_in (Z.of_nat (length (pl_nodes r1))) n -> (n = P4_IDX_NONE <-> pl_nodes r1 = []) -> acyclic (pl <| pl_init_node := n |>) ->
    r = (pl <| pl_init_node := n |>, r0.2) -> pl_name r.1 = pl_name pl0 /\ pipeline_ok prog r.1 /\ pipeline_loadable prog r.1 /\ apart r.1 /\
    r.2 = total + sumZ (tb_max_size <$> pl_tables r.1) /\ r.2 <= P4_MAX_TOTAL_ENTRIES) as Hfin.
  { intros n Hn Hinit Hac ->. cbn [fst snd]. split; [exact Hnm|]. split; [|split; [|split; [|split; [|done]]]].
    - refine (conj Hnok (conj Ht1 (conj _ (conj _ (conj Hn Hac))))); [change (length r2 <= P4_MAX_TABLES)%nat; lia|].
      apply Forall_forall. intros c Hc. rewrite Forall_forall in Hc1, Hc2. destruct (Hc1 c Hc) as (_ & _ & He), (Hc2 c Hc). split; [by apply loadable_expr_ok|done].
    - assert (id_ok (pl_id r1)) as Hid' by (rewrite Hid; by apply get_id_ok in Hx).
      refine (conj Hid' (conj Hnl (conj _ (conj Ht2 (conj _ (conj Hc1 (conj _ (conj _ _)))))))).
      + change (length r3 <= P4_MAX_CONDITIONALS)%nat. lia.
      + change (NoDup (tb_id <$> r2)). change (pl_tables pl) with r2 in Q2. by rewrite Q2.
      + change (NoDup (cn_id <$> r3)). change (pl_conditionals pl) with r3 in Q5. by rewrite Q5.
      + apply Hinit.
      + intros Hne He. by apply Hne, Hinit.
    - unfold apart in *. change (node_names (pl <| pl_init_node := n |>)) with (node_names pl). by rewrite Hnames.
    - change (pl_tables (pl <| pl_init_node := n |>)) with (pl_tables pl). by rewrite Q3. }
  destruct (p4_get_str p "init_table") as [init|]; walk H.
  - apply Z.eqb_neq in Hf0. destruct (find_name_spec (node_name pl) _ _ Hf0) as (Hr' & _). change (pl_nodes pl) with (pl_nodes r1) in Hr'.
    apply (Hfin (p4_find_node pl init)); [by right| | |done].
    + split; [done|]. intros He. rewrite He in Hr'. cbn in Hr'. lia.
    + destruct r4. destruct (resolved_acyclic r1 pl (p4_find_node pl init) Hrv HN) as [A1 A2]. by apply check_acyclic_iff in Hr3.
  - apply negb_false_iff, bool_decide_eq_true in Hf0. apply (Hfin P4_IDX_NONE); [by left|split; [|done]| |done].
    + intros _. by apply nil_length_inv.
    + exists (fun _ => 0%nat). intros n m Hn. change (length (pl_nodes (pl <| pl_init_node := P4_IDX_NONE |>))) with (length (pl_nodes r1)) in Hn.
      change (length (pl_nodes r1) = 0%nat) in Hf0. lia.
Qed.
(** The search of the graph ends, so a refusal is one of the three errors. *)
Lemma errs_pipeline total p pl0 :
  pl_nodes pl0 = [] -> pl_tables pl0 = [] -> pl_conditionals pl0 = [] -> total <= P4_MAX_TOTAL_ENTRIES -> errs (p4_walk_pipeline prog pls slot total p pl0).
Proof.
  intros E1 E2 E3 Htot. unfold p4_walk_pipeline. apply errs_bind; [auto with errs|intros id]. apply errs_bind; [auto with errs|intros _].
  apply errs_bind_eq; [auto with errs|intros tables Ht%need_inr]. apply errs_bind_eq; [auto with errs|intros conds Hc%need_inr].
  apply errs_bind_eq; [unfold p4_walk_pl_table, p4_check_node_unique; errs_go|intros a Ha].
  apply errs_bind_eq; [unfold p4_walk_conditional, p4_check_node_unique; errs_go|intros pl1 H1].
  apply errs_bind_eq; [unfold p4_next_table; errs_go|intros ts Hts]. apply errs_bind_eq; [unfold p4_next_conditional; errs_go|intros cs Hcs]. cbv zeta.
  destruct (read_nodes_ok total p (pl0 <| pl_id := id |>) tables conds a pl1) as (Hi & Hlt & Hlc & _ & _ & Hnt & Hnc); [done..|].
  pose proof (resolve_ok _ _ _ _ _ _ Hi Hlt Hlc Hts Hcs) as Hrv.
  assert (length (pl_nodes pl1) <= P4_MAX_NODES)%nat as HN by (rewrite nodes_length by apply Hi; unfold P4_MAX_NODES, P4_MAX_TABLES, P4_MAX_CONDITIONALS in *; lia).
  destruct (p4_get_str p "init_table") as [init|]; [|errs_go]. apply errs_bind; [auto with errs|intros _]. apply errs_bind; [|intros _; done].
  match goal with |- errs (p4_check_acyclic (?q <| pl_init_node := ?n |>)) => destruct (resolved_acyclic pl1 q n Hrv HN) end. by apply errs_acyclic.
Qed.
End pipeline.

(** ** Both pipelines *)
Section pipelines.
Variable prog : p4_program.
Hypothesis Hact : (length (pg_actions prog) <= P4_MAX_ACTIONS)%nat.
Definition slot_ok (name : cstr) (seen : bool) (pl : p4_pipeline) : Prop :=
  if seen then pl_name pl = name /\ pipeline_ok prog pl /\ pipeline_loadable prog pl else pl = inhabitant.
Lemma slot_nodes name seen pl : slot_ok name seen pl -> nodes_list pl /\ (length (pl_nodes pl) <= 64)%nat.
Proof.
  destruct seen; cbn; [|by intros ->; split; [|cbn; lia]]. intros (_ & (_ & _ & Ht & _) & (_ & Hn & Hc & _)). split; [exact Hn|].
  rewrite nodes_length by exact Hn. unfold P4_MAX_TABLES, P4_MAX_CONDITIONALS in *. lia.
Qed.
Definition sizes (pl : p4_pipeline) : Z := sumZ (tb_max_size <$> pl_tables pl).
Definition slots_inv (n : nat) (acc : list p4_pipeline * list bool * Z) : Prop :=
  exists a b sa sb, n = (Nat.b2n sa + Nat.b2n sb)%nat /\ acc = ([a; b], [sa; sb], sizes a + sizes b) /\ slot_ok (chars "ingress") sa a /\ slot_ok (chars "egress") sb b /\
    (sa = true -> sb = true -> pl_id a <> pl_id b) /\ NoDup (node_names a ++ node_names b) /\ sizes a + sizes b <= P4_MAX_TOTAL_ENTRIES.
Lemma walk_slot_inv n acc p acc' : slots_inv n acc -> p4_walk_slot prog acc p = inr acc' -> slots_inv (S n) acc'.
Proof.
  intros (a & b & sa & sb & -> & -> & Ha & Hb & Hid & Hnd & Hmax) H. unfold p4_walk_slot in H. walk_step H. walk_step H. walk_step H.
  destruct (slot_nodes _ _ _ Ha) as [Na La], (slot_nodes _ _ _ Hb) as [Nb Lb].
  assert (Forall (fun q => nodes_list q /\ (length (pl_nodes q) <= 64)%nat) [a; b]) as Hpls by (by apply Forall_cons, conj, Forall_singleton). cbv zeta in H. walk H. destruct r as [pl total]. cbn [fst snd] in *.
  destruct (is_chars x "ingress") eqn:Hi; [|destruct (is_chars x "egress") eqn:He; [|done]]; injection Hx0 as <-; cbn in Hf0.
  - subst sa. change (a = inhabitant) in Ha. subst a. change (sizes inhabitant) with 0 in *. apply walk_pipeline_ok in Hr as (R1 & R2 & R3 & [R4 R5] & R6 & R7); [|done|done|cbn; lia|done..]. cbn [fst snd] in *.
    subst acc'. exists pl, b, true, sb. cbn [insert list_insert]. unfold sizes in *. split_and!.
    + done.
    + by rewrite R6, (Z.add_comm 0), Z.add_0_r, Z.add_comm.
    + split_and!; [|done|done]. apply bool_decide_eq_true in Hi. by rewrite R1, <-Hi.
    + done.
    + intros _ ->. cbn in Hf1. apply orb_false_iff in Hf1 as [Hf1 _]. apply Z.eqb_neq in Hf1. congruence.
    + apply NoDup_app. split_and!; [done|intros n Hn; by apply (R5 1%nat b)|]. by apply NoDup_app in Hnd as (_ & _ & ?).
    + lia.
  - subst sb. change (b = inhabitant) in Hb. subst b. change (sizes inhabitant) with 0 in *. apply walk_pipeline_ok in Hr as (R1 & R2 & R3 & [R4 R5] & R6 & R7); [|done|done|cbn; lia|done..]. cbn [fst snd] in *.
    subst acc'. exists a, pl, sa, true. cbn [insert list_insert]. unfold sizes in *. split_and!.
    + cbn. lia.
    + by rewrite R6, Z.add_0_r.
    + done.
    + split_and!; [|done|done]. apply bool_decide_eq_true in He. by rewrite R1, <-He.
    + intros -> _. cbn in Hf1. apply orb_false_iff in Hf1 as [Hf1 _]. by apply Z.eqb_neq in Hf1.
    + apply NoDup_app. split_and!; [by apply NoDup_app in Hnd as (? & _ & _)|intros n Hn Hn'; by apply (R5 0%nat a ltac:(done) eq_refl n Hn')|done].
    + lia.
Qed.
Lemma errs_slot n acc p : slots_inv n acc -> errs (p4_walk_slot prog acc p).
Proof.
  intros (a & b & sa & sb & _ & -> & Ha & Hb & _ & _ & Hmax). unfold p4_walk_slot. apply errs_bind; [auto with errs|intros _]. apply errs_bind; [auto with errs|intros name].
  apply errs_bind_eq; [auto with errs|intros slot Hs%need_inr]. apply errs_bind_eq; [auto with errs|intros [] Hseen%fail_if_inr].
  destruct (slot_nodes _ _ _ Ha) as [Na La], (slot_nodes _ _ _ Hb) as [Nb Lb].
  assert (Forall (fun q => nodes_list q /\ (length (pl_nodes q) <= 64)%nat) [a; b]) as Hpls by (by apply Forall_cons, conj, Forall_singleton).
  assert (slot < 2 /\ [a; b] !!! slot = inhabitant)%nat as [Hlt Hz].
  { destruct (is_chars name "ingress"); [|destruct (is_chars name "egress"); [|done]]; injection Hs as <-; cbn in Hseen; subst; split; done || lia. }
  apply errs_bind; [|intros r; errs_go]. rewrite Hz. by apply errs_pipeline.
Qed.
Lemma walk_pipelines_ok root prog' :
  p4_walk_pipelines prog root = inr prog' ->
  exists a b, prog' = prog <| pg_pipelines := [a; b] |> /\ pl_name <$> [a; b] = [chars "ingress"; chars "egress"] /\ NoDup (pl_id <$> [a; b]) /\
    Forall (pipeline_ok prog) [a; b] /\ Forall (pipeline_loadable prog) [a; b] /\ NoDup (mjoin (node_names <$> [a; b])) /\
    sumZ (tb_max_size <$> mjoin (pl_tables <$> [a; b])) <= P4_MAX_TOTAL_ENTRIES.
Proof.
  unfold p4_walk_pipelines. intros H. walk_step H. walk_step H.
  assert (slots_inv (length x) r) as (a & b & sa & sb & Hlen & -> & Ha & Hb & Hid & Hnd & Hmax).
  { revert Hr. apply (each_inv _ (fun d r => slots_inv (length d) r)).
    - intros d s y s' _ Hs Hy. rewrite length_app, Nat.add_comm. by eapply walk_slot_inv.
    - exists inhabitant, inhabitant, false, false. split_and!; try done. constructor. }
  cbn [lookup_total list_lookup_total] in H. walk H. apply negb_false_iff in Hf, Hf0. subst sa sb. rewrite Hlen in H. exists a, b. destruct Ha as (Na & Oa & La), Hb as (Nb & Ob & Lb).
  split_and!.
  - done.
  - cbn. by rewrite Na, Nb.
  - apply NoDup_cons. split; [|apply NoDup_singleton]. intros E%list_elem_of_singleton. by apply Hid.
  - by apply Forall_cons, conj, Forall_singleton.
  - by apply Forall_cons, conj, Forall_singleton.
  - cbn. by rewrite app_nil_r.
  - cbn. rewrite app_nil_r, fmap_app, sumZ_app. exact Hmax.
Qed.
Lemma errs_pipelines root : errs (p4_walk_pipelines prog root).
Proof.
  unfold p4_walk_pipelines. apply errs_bind; [auto with errs|intros arr]. apply errs_bind.
  - apply (errs_each_inv _ (fun acc => exists n, slots_inv n acc)).
    + intros acc p acc' [n Hn] H. exists (S n). by eapply walk_slot_inv.
    + intros acc p [n Hn]. by eapply errs_slot.
    + exists 0%nat, inhabitant, inhabitant, false, false. split_and!; try done. constructor.
  - intros [[pls seen] total]. errs_go.
Qed.
End pipelines.
