(* ===== verification/P4JsonLoad.v ===== *)
(** * What the loader promises the engine

    A document that is accepted is a [loadable] program, whatever json-c
    makes of it; so the loader is a [Loader] with its laws.  The weight of a
    text is that of the pieces it is made of. *)
From S2P Require Export P4JsonPipe.
From stdpp Require Import strings.
#[local] Open Scope Z_scope.

(** The program a walk left, as the record it is. *)
Ltac flat E := lazy in E; subst.

(** The conditions are as well formed in one program as in another with the
    headers they name. *)
Lemma pipelines_ok_again prog prog' pls :
  Forall (pipeline_ok prog) pls -> Forall (pipeline_loadable prog') pls ->
  (forall n ts, Forall (table_ok prog n) ts -> Forall (table_ok prog' n) ts) -> Forall (pipeline_ok prog') pls.
Proof.
  intros Hok Hlo Htb. apply Forall_forall. intros pl Hpl. rewrite Forall_forall in Hok, Hlo.
  destruct (Hok pl Hpl) as (H1 & H2 & H3 & H4 & H5 & H6), (Hlo pl Hpl) as (_ & _ & _ & _ & _ & Hc & _).
  refine (conj H1 (conj (Htb _ _ H2) (conj H3 (conj _ (conj H5 H6))))). eapply Forall_impl; [exact (proj2 (Forall_and _ _) (conj H4 Hc))|].
  intros c [[_ Hn] (_ & _ & He%loadable_expr_ok)]. exact (conj He Hn).
Qed.

Section parse.
Context {TK : Tokener}.
Variables tok_mem prog_mem : bool.
Lemma parse_loadable buf prog : p4_json_parse tok_mem prog_mem buf = inr prog -> loadable prog.
Proof.
  unfold p4_json_parse. intros H. cbv zeta in H. do 7 walk_step H. do 3 (apply bind_inr in H as ([] & _ & H)).
  apply bind_inr in H as (p1 & (types & E & T1 & T2 & T3 & T4)%walk_types_ok & H). flat E.
  apply bind_inr in H as (p2 & (hs0 & E & H1 & H2 & H3)%walk_headers_ok & H). flat E.
  apply bind_inr in H as (p3 & (hs & phv & E & L1 & L2 & L3 & L4 & L5)%layout_ok_post & H); [|done..]. flat E.
  assert (Forall (fun t => (length (ht_fields t) <= 64)%nat) types) as Hf64 by (eapply Forall_impl; [exact T4|]; by intros t [? _]).
  apply bind_inr in H as (p4 & (es & ip & ep & E & S0 & S1 & S2 & S3)%resolve_std_ok & H); [|done|exact L3|apply L1|done]. flat E.
  apply bind_inr in H as (p5 & (sts & init & E & P1 & P2 & P3 & P4 & P5)%walk_parser_ok & H). flat E.
  apply bind_inr in H as (p6 & (order & E & D1 & D2)%walk_deparser_ok & H). flat E.
  apply bind_inr in H as (p7 & (R & (md & op & qp & len & imm & rk & E))%resolve_rdma_ok & H); [|done|exact L3|apply L1|done..]. flat E.
  apply bind_inr in H as (p8 & (xs & E & X1 & X2 & X3)%walk_externs_ok & H); [|done]. flat E.
  apply bind_inr in H as (p9 & (acts & E & A1 & A2 & A3 & A4)%walk_actions_ok & H). flat E.
  apply walk_pipelines_ok in H as (a & b & E & Q1 & Q2 & Q3 & Q4 & Q5 & Q6); [|exact A2]. flat E.
  match goal with |- loadable ?p => set (P := p) end.
  assert (prog_ok P) as Hok.
  { split; [exact T3|exact L3|exact L2|exact L4|exact L5|exact P1|exact P2|exact (conj D1 D2)| | | |exact A3|refine (conj (pipelines_ok_again _ P _ Q3 Q4 _) eq_refl); exact (fun _ _ H => H)].
    - destruct S1 as [[[[Hr _] _] Hb]|[_ Hr]]; [exact (conj Hr Hb)|done].
    - exact (conj (arch_arch_ok P _ _ _ _ S2) (arch_arch_ok P _ _ _ _ S3)).
    - intros Hmd. unfold rdma_loadable in R. cbn [pg_headers pg_has_rdma_metadata] in R. change md with (pg_has_rdma_metadata P) in R.
      destruct (list_find _ hs) as [[h hd]|]; [|destruct R; congruence]. destruct R as (_ & _ & R1 & R2 & R3 & R4 & R5).
      split_and!; by eapply (arch_arch_ok P). }
  split; [exact Hok|by split|exact L1|exact (conj S1 (conj S2 S3))|exact (conj P3 (conj P4 P5))|exact R|exact (conj X1 (conj X2 X3))
    |exact (conj A1 (conj A2 A4))|exact (conj Q1 (conj Q2 (conj Q4 (conj Q5 Q6))))].
Qed.

(** A document is refused with EINVAL, ENOSYS or ENOMEM. *)
Lemma parse_errs buf : errs (p4_json_parse tok_mem prog_mem buf).
Proof.
  unfold p4_json_parse. cbv zeta. do 7 (apply errs_bind; [auto with errs|intros _]). do 3 (apply errs_bind; [unfold p4_check_meta, p4_check_unsupported; errs_go|intros _]).
  apply errs_bind; [unfold p4_walk_header_types, p4_walk_header_type; errs_go|intros p1]. apply errs_bind; [unfold p4_walk_headers, p4_walk_header; errs_go|intros p2].
  apply errs_bind; [unfold p4_layout_phv; errs_go|intros p3]. apply errs_bind; [unfold p4_resolve_std_metadata; errs_go|intros p4].
  apply errs_bind; [unfold p4_walk_parser, p4_resolve_arms, p4_resolve_arm; errs_go|intros p5]. apply errs_bind; [unfold p4_walk_deparser, p4_walk_emit; errs_go|intros p6].
  apply errs_bind; [unfold p4_resolve_rdma_metadata; errs_go|intros p7]. apply errs_bind; [unfold p4_walk_externs, p4_walk_extern; errs_go|intros p8].
  apply errs_bind_eq; [unfold p4_walk_actions, p4_walk_action, p4_walk_runtime; errs_go|].
  intros p9 (acts & -> & _ & A2 & _ & _)%walk_actions_ok. by apply errs_pipelines.
Qed.

(** C11: whatever json-c makes of the text, and whether or not there is memory, the
    loader ends with a program that is [loadable] - every index in range,
    every field inside the packet header vector, names and ids distinct,
    literals no wider than the fields they are written to, expressions typed
    and no deeper than the executor follows, no cycle among a pipeline's
    nodes - or with EINVAL, ENOSYS or ENOMEM. *)
Theorem accepted_loadable buf :
  match p4_json_parse tok_mem prog_mem buf with
  | inr prog => loadable prog
  | inl rc => rc = - EINVAL \/ rc = - ENOSYS \/ rc = - ENOMEM
  end.
Proof.
  pose proof (parse_errs buf) as He. destruct (p4_json_parse tok_mem prog_mem buf) as [rc|prog] eqn:E; [exact He|]. exact (parse_loadable buf prog E).
Qed.

(** The loader of the engine's theorems. *)
#[export] Instance json_loader : Loader := p4_json_parse tok_mem prog_mem.
#[export] Instance json_loader_laws : LoaderLaws.
Proof.
  split.
  - intros b p Hp. apply lo_ok, (parse_loadable _ _ Hp).
  - intros b rc Hrc. unfold load_program, json_loader in Hrc. pose proof (parse_errs b) as He. rewrite Hrc in He.
    unfold errs, EINVAL, ENOSYS, ENOMEM in He. set_unfold in He. lia.
Qed.
End parse.

(** ** The weight of a text

    The pieces a text is cut into: brackets, strings, words (the longest runs
    of bytes that are none of the others) and what separates them. *)
Inductive piece := PObject | PArray | PString (q : Z) (s : list Z) | PWord (s : list Z) | PSep (c : Z).
Definition separators : list Z := [125; 93; 44; 58; 32; 9; 10; 13].
(** A byte of a word. *)
Definition plain_byte (c : Z) : Prop := c ∉ [123; 91; 34; 39] ++ separators.
(** The rest of a string and its closing quote; a backslash hides a byte. *)
Inductive quoted (q : Z) : list Z -> Prop :=
  | Quoted_end : quoted q [q]
  | Quoted_char c s : c <> q -> c <> 92 -> quoted q s -> quoted q (c :: s)
  | Quoted_escape c s : quoted q s -> quoted q (92 :: c :: s).
(** The rest of a string that is not closed. *)
Inductive unclosed (q : Z) : list Z -> Prop :=
  | Unclosed_end : unclosed q []
  | Unclosed_hides : unclosed q [92]
  | Unclosed_char c s : c <> q -> c <> 92 -> unclosed q s -> unclosed q (c :: s)
  | Unclosed_escape c s : unclosed q s -> unclosed q (92 :: c :: s).
Definition is_quote (q : Z) : Prop := q = 34 \/ q = 39.
Definition piece_bytes (t : piece) : list Z := match t with PObject => [123] | PArray => [91] | PString q s => q :: s | PWord s => s | PSep c => [c] end.
Definition piece_ok (t : piece) : Prop :=
  match t with PString q s => is_quote q /\ quoted q s | PWord s => s <> [] /\ Forall plain_byte s | PSep c => c ∈ separators | _ => True end.
Definition is_word (t : piece) : bool := match t with PWord _ => true | _ => false end.
(** No word goes on in the next piece. *)
Fixpoint spaced (ts : list piece) : Prop := match ts with t :: ((t' :: _) as ts) => is_word t && is_word t' = false /\ spaced ts | _ => True end.
(** [tail]: nothing, or a string the text ends in. *)
Definition tail_ok (tail : list Z) : Prop := match tail with [] => True | q :: s => is_quote q /\ unclosed q s end.
Definition cut_ok (ts : list piece) (tail : list Z) : Prop := Forall piece_ok ts /\ spaced ts /\ tail_ok tail.
Definition text_of (ts : list piece) (tail : list Z) : list Z := concat (piece_bytes <$> ts) ++ tail.
Definition piece_cost (t : piece) : Z := match t with PObject => 8 | PArray => 2 | PString _ _ | PWord _ => 1 | PSep _ => 0 end.
Definition text_cost (ts : list piece) (tail : list Z) : Z := sumZ (piece_cost <$> ts) + match tail with [] => 0 | _ => 1 end.

(** Between pieces: [v] when a word has just ended. *)
Definition between (cost : Z) (v : bool) : scan := Scan cost 0 false v.
Lemma step_plain c v x : plain_byte x -> cost_step (between c v) x = between (if v then c else c + 1) true.
Proof.
  intros Hx. assert (forall y, y ∈ [123; 91; 34; 39] ++ separators -> (x =? y) = false) as Hy by (intros y Hy; apply Z.eqb_neq; intros ->; by apply Hx).
  unfold cost_step, between. change (negb (0 =? 0)) with false. cbn iota. rewrite !Hy by (apply (bool_decide_unpack _); exact I). cbn [orb].
  rewrite bool_decide_eq_false_2; [done|]. intros Hin. apply Hx. apply elem_of_app. by right.
Qed.
Lemma scan_word s : forall c, Forall plain_byte s -> foldl cost_step (between c true) s = between c true.
Proof. induction s as [|x s IH]; intros c; [done|]. intros [Hx Hs]%Forall_cons. cbn [foldl]. rewrite step_plain by done. by apply IH. Qed.
Lemma scan_quoted q s : quoted q s -> is_quote q -> forall c v, foldl cost_step (Scan c q false v) s = between c v.
Proof.
  intros Hs Hq. assert ((q =? 0) = false /\ (q =? 92) = false) as [H0 H92] by (destruct Hq as [->| ->]; done).
  induction Hs as [|x s H1%Z.eqb_neq H2%Z.eqb_neq _ IH|x s _ IH]; intros c v; cbn [foldl cost_step]; rewrite H0; cbn [negb].
  - rewrite H92, Z.eqb_refl. done.
  - rewrite H1, H2. apply IH.
  - cbn. rewrite H0. apply IH.
Qed.
Lemma scan_unclosed q s : unclosed q s -> is_quote q -> forall c v, sc_cost (foldl cost_step (Scan c q false v) s) = c.
Proof.
  intros Hs Hq. assert ((q =? 0) = false) as H0 by (destruct Hq as [->| ->]; done).
  induction Hs as [| |x s H1%Z.eqb_neq H2%Z.eqb_neq _ IH|x s _ IH]; intros c v; cbn [foldl cost_step]; rewrite ?H0; cbn [negb]; try done.
  - rewrite H1, H2. apply IH.
  - cbn. rewrite H0. apply IH.
Qed.
Lemma scan_piece t c v : piece_ok t -> v && is_word t = false -> foldl cost_step (between c v) (piece_bytes t) = between (c + piece_cost t) (is_word t).
Proof.
  destruct t as [| |q s|s|x]; cbn [piece_ok piece_bytes piece_cost is_word]; intros Hok Hv; rewrite ?andb_true_r in Hv; subst.
  - done.
  - done.
  - destruct Hok as [Hq Hs]. cbn [foldl]. replace (cost_step (between c v) q) with (Scan (c + 1) q false false) by (by destruct Hq as [->| ->]). by apply scan_quoted.
  - destruct Hok as [Hne Hs], s as [|x s]; [done|]. apply Forall_cons in Hs as [Hx Hs]. cbn [foldl]. rewrite step_plain by done. by apply scan_word.
  - unfold separators in Hok. rewrite Z.add_0_r. set_unfold in Hok. destruct_or! Hok; subst; done.
Qed.
Lemma scan_pieces ts : forall c v, Forall piece_ok ts -> spaced ts -> match ts with t :: _ => v && is_word t = false | [] => True end ->
  exists v', foldl cost_step (between c v) (concat (piece_bytes <$> ts)) = between (c + sumZ (piece_cost <$> ts)) v'.
Proof.
  induction ts as [|t ts IH]; intros c v Hok Hsp Hv; [exists v; unfold sumZ; cbn; by rewrite Z.add_0_r|].
  apply Forall_cons in Hok as [Ht Hok]. cbn [fmap list_fmap concat]. rewrite foldl_app, scan_piece by done.
  destruct (IH (c + piece_cost t) (is_word t) Hok) as [v' ->]; [by destruct ts, Hsp|by destruct ts, Hsp|]. exists v'. unfold sumZ. cbn. f_equal. lia.
Qed.
(** Where a string ends, if it does. *)
Lemma quote_split q n : forall s, (length s <= n)%nat -> q <> 92 -> (exists a b, s = a ++ b /\ quoted q a) \/ unclosed q s.
Proof.
  induction n as [|n IH]; intros [|c s] Hn Hq; try (right; apply Unclosed_end); cbn in Hn; [lia|]. destruct (decide (c = q)) as [->|Hc]; [left; exists [q], s; split; [done|constructor]|].
  destruct (decide (c = 92)) as [->|Hb].
  - destruct s as [|d s]; [right; constructor|]. destruct (IH s) as [(a & b & -> & Ha)|Hu]; [cbn in Hn; lia|done| |right; by constructor].
    left. exists (92 :: d :: a), b. split; [done|by constructor].
  - destruct (IH s) as [(a & b & -> & Ha)|Hu]; [lia|done| |right; by constructor]. left. exists (c :: a), b. split; [done|by constructor].
Qed.
Lemma cut_exists n : forall b, (length b <= n)%nat -> exists ts tail, cut_ok ts tail /\ b = text_of ts tail.
Proof.
  induction n as [|n IH]; intros [|c b] Hn; try (by exists [], []); cbn in Hn; [lia|].
  assert (forall t b', piece_ok t -> is_word t = false -> c :: b = piece_bytes t ++ b' -> (length b' <= n)%nat -> exists ts tail, cut_ok ts tail /\ c :: b = text_of ts tail) as Hcons.
  { intros t b' Ht Hw -> Hl. destruct (IH b' Hl) as (ts & tail & (H1 & H2 & H3) & ->). exists (t :: ts), tail. split; [|unfold text_of; cbn; by rewrite <-app_assoc].
    split_and!; [by constructor| |done]. cbn. destruct ts; [done|]. by rewrite Hw. }
  destruct (decide (c = 123)) as [->|H1]; [apply (Hcons PObject b); done || lia|]. destruct (decide (c = 91)) as [->|H2]; [apply (Hcons PArray b); done || lia|].
  destruct (decide (c ∈ separators)) as [Hs|Hs]; [apply (Hcons (PSep c) b); done || lia|].
  destruct (decide (c = 34 \/ c = 39)) as [Hq|Hq].
  - destruct (quote_split c n b ltac:(lia)) as [(a & b' & -> & Ha)|Hu]; [destruct Hq; lia| |].
    + apply (Hcons (PString c a) b'); [by split|done|done|]. rewrite length_app in Hn. lia.
    + exists [], (c :: b). split; [|done]. by repeat split.
  - destruct (IH b ltac:(lia)) as (ts & tail & (Ho & Hp & Hta) & ->).
    assert (plain_byte c) as Hc by (unfold plain_byte; rewrite elem_of_app; intros [Hin|]; [|done]; set_unfold in Hin; tauto).
    assert (forall s ts', Forall plain_byte s -> Forall piece_ok ts' -> spaced (PWord s :: ts') -> c :: text_of ts tail = c :: s ++ text_of ts' tail ->
      exists ts tail', cut_ok ts tail' /\ c :: s ++ text_of ts' tail = text_of ts tail') as Hword.
    { intros s ts' Hs' Ho' Hp' _. exists (PWord (c :: s) :: ts'), tail. split; [|unfold text_of; cbn; by rewrite <-app_assoc].
      split_and!; [constructor; [split; [done|by constructor]|done]|by destruct ts'|done]. }
    destruct ts as [|[| |q s|s|x] ts]; [apply (Hword [] []); done|apply (Hword [] (PObject :: ts)); done|apply (Hword [] (PArray :: ts)); done|apply (Hword [] (PString q s :: ts)); done| |apply (Hword [] (PSep x :: ts)); done].
    apply Forall_cons in Ho as [[_ Hw] Ho]. replace (text_of (PWord s :: ts) tail) with (s ++ text_of ts tail) by (unfold text_of; cbn; by rewrite app_assoc).
    apply Hword; [done|done|done|]. unfold text_of. cbn. by rewrite <-app_assoc.
Qed.
Lemma cost_step_bounds s c : sc_cost s <= sc_cost (cost_step s c) <= sc_cost s + P4_JSON_COST_OBJECT.
Proof. destruct s as [cost q e v]. unfold cost_step, P4_JSON_COST_OBJECT, P4_JSON_COST_ARRAY, P4_JSON_COST_OTHER. repeat case_match; cbn; lia. Qed.
Lemma cost_bounds b : forall s, sc_cost s <= sc_cost (foldl cost_step s b) <= sc_cost s + P4_JSON_COST_OBJECT * Z.of_nat (length b).
Proof.
  induction b as [|c b IH]; intros s; cbn [foldl length]; [lia|]. pose proof (cost_step_bounds s c). specialize (IH (cost_step s c)). lia.
Qed.

(** C14: p4_json_cost() weighs a text by its pieces.  Every text, valid JSON or
    not, is cut into brackets, strings in either quote with a backslash hiding
    the byte after it, words and separators, and perhaps a string it ends in;
    and however it is cut, the weight is eight for an opening brace, two for
    an opening bracket and one for each string and each word.  A text that
    goes on weighs no less, and none weighs more than eight a byte, so the sum
    for a program cannot overflow. *)
Theorem cost_exact :
  (forall b, exists ts tail, cut_ok ts tail /\ b = text_of ts tail) /\
  (forall ts tail, cut_ok ts tail -> p4_json_cost (text_of ts tail) = text_cost ts tail) /\
  (forall b rest, p4_json_cost b <= p4_json_cost (b ++ rest)) /\
  (forall b, Z.of_nat (length b) <= P4_PROGRAM_MAX -> fits 32 (p4_json_cost b)).
Proof.
  split_and!.
  - intros b. by apply (cut_exists (length b)).
  - intros ts tail (Ho & Hp & Ht). unfold p4_json_cost, text_of, text_cost. rewrite foldl_app. change (Scan 0 0 false false) with (between 0 false).
    destruct (scan_pieces ts 0 false Ho Hp) as [v ->]; [by destruct ts|]. destruct tail as [|q s]; [cbn; lia|]. destruct Ht as [Hq Hu]. cbn [foldl].
    rewrite Z.add_0_l. replace (cost_step (between (sumZ (piece_cost <$> ts)) v) q) with (Scan (sumZ (piece_cost <$> ts) + 1) q false false) by (by destruct Hq as [->| ->]). by apply scan_unclosed.
  - intros b rest. unfold p4_json_cost. rewrite foldl_app. apply cost_bounds.
  - intros b Hb. pose proof (cost_bounds b (between 0 false)). unfold fits, P4_PROGRAM_MAX, P4_JSON_COST_OBJECT, p4_json_cost in *. cbn [sc_cost between] in *. change (Scan 0 0 false false) with (between 0 false). lia.
Qed.
