(* ===== verification/P4JsonDoc.v ===== *)
(** * A document of a program

    The bmv2 document that says a loadable program, and that every walk of
    the loader reads back from it what was written. *)
From S2P Require Export P4JsonLoad.
From stdpp Require Import strings.
#[local] Open Scope Z_scope.

(** ** Writing *)
Definition obj (m : list (string * json)) : json := JObj ((fun x => (chars x.1, x.2)) <$> m).
Definition word (w : string) : json := JStr (chars w).
Definition arr {A} (f : A -> json) (l : list A) : json := JArr (f <$> l).
Definition byte_digits (b : Z) : cstr := [hex_char (b / 16); hex_char (b mod 16)].
Definition hexstr_doc (n : Z) (imm : list Z) : json :=
  JStr (chars "0x" ++ mjoin (byte_digits <$> drop (16 - Z.to_nat n) imm)).
Definition type_doc (t : p4_header_type) : json :=
  obj [("name", JStr (ht_name t)); ("id", JInt (ht_id t));
       ("fields", arr (fun f => JArr [JStr (fd_name f); JInt (fd_bits f); JBool false]) (ht_fields t))]%string.

Section document.
Variable prog : p4_program.
Definition header_doc (h : p4_header) : json :=
  obj [("name", JStr (hd_name h)); ("id", JInt (hd_id h)); ("header_type", JStr (ht_name (elt (pg_header_types prog) (hd_header_type h))));
       ("metadata", JBool (hd_metadata h))]%string.
Definition header_name (h : Z) : json := JStr (hd_name (elt (pg_headers prog) h)).
Definition ref_doc (r : p4_field_ref) : json := JArr [header_name (fr_header r); JStr (fd_name (field_of prog r))].

Definition op_doc (h : Z) : json :=
  obj [("op", word "extract"); ("parameters", JArr [obj [("type", word "regular"); ("value", header_name h)]])]%string.
Definition next_doc {A} `{!Inhabited A} (nm : A -> cstr) (l : list A) (i : Z) : json := if i =? P4_IDX_NONE then JNull else JStr (nm (elt l i)).
Definition transition_doc (key_bytes : Z) (t : p4_transition) : json :=
  obj [("type", word (if tr_is_default t then "default" else "hexstr"));
       ("value", if tr_is_default t then word "default" else hexstr_doc key_bytes (tr_value t));
       ("mask", if tr_has_mask t then hexstr_doc key_bytes (tr_mask t) else JNull);
       ("next_state", next_doc ps_name (pg_parse_states prog) (tr_next_state t))]%string.
Definition state_doc (st : p4_parse_state) : json :=
  obj [("name", JStr (ps_name st)); ("parser_ops", arr op_doc (ps_ops st));
       ("transition_key", arr (fun r => obj [("type", word "field"); ("value", ref_doc r)]) (ps_key st));
       ("transitions", arr (transition_doc (ps_key_bytes st)) (ps_transitions st))]%string.
Definition extern_doc (x : p4_extern_inst) : json := obj [("name", JStr (xi_name x)); ("id", JInt (xi_id x)); ("type", word "Fp8")]%string.

Definition operand_doc (o : p4_operand) : json :=
  match o with
  | OPD_FIELD r => obj [("type", word "field"); ("value", ref_doc r)]
  | OPD_HEXSTR n imm => obj [("type", word "hexstr"); ("value", hexstr_doc n imm)]
  | OPD_EXTERN i => obj [("type", word "extern"); ("value", JStr (xi_name (elt (pg_externs prog) i)))]
  | OPD_RUNTIME i => obj [("type", word "runtime_data"); ("value", JInt i)]
  end%string.
Definition prim_op (p : p4_primitive) : string :=
  match pr_kind p with
  | PRIM_ASSIGN => "assign"
  | PRIM_ADD => if bool_decide (length (pr_params p) = 2%nat) then "add_to_field" else "add"
  | PRIM_SUB => if bool_decide (length (pr_params p) = 2%nat) then "subtract_from_field" else "subtract"
  | PRIM_DROP => "drop"
  | PRIM_NOP => "no_op"
  | PRIM_EXTERN => if (pr_method p =? P4_EXTERN_FP8_MAP)%Z then "_Fp8_map" else "_Fp8_cvt"
  end%string.
Definition prim_doc (p : p4_primitive) : json := obj [("op", word (prim_op p)); ("parameters", arr operand_doc (pr_params p))]%string.
Definition action_doc (a : p4_action) : json :=
  obj [("name", JStr (ac_name a)); ("id", JInt (ac_id a)); ("runtime_data", arr (fun b => obj [("bitwidth", JInt b)]) (ac_runtime_bits a));
       ("primitives", arr prim_doc (ac_primitives a))]%string.

(** The expression that starts at node [i]. *)
Definition op_name (op : p4_expr_op) : string :=
  match op with
  | EXPR_VALID => "valid" | EXPR_NOT => "not" | EXPR_EQ => "==" | EXPR_NE => "!=" | EXPR_LT => "<" | EXPR_LE => "<="
  | EXPR_GT => ">" | EXPR_GE => ">=" | EXPR_AND => "and" | EXPR_OR => "or"
  end%string.
Definition side_doc (rec : Z -> json) (o : p4_expr_operand) : json :=
  match o with
  | EO_NONE => JNull
  | EO_EXPR i => rec i
  | EO_FIELD r => obj [("type", word "field"); ("value", ref_doc r)]
  | EO_HEXSTR n imm => obj [("type", word "hexstr"); ("value", hexstr_doc n imm)]
  | EO_HEADER h => obj [("type", word "header"); ("value", header_name h)]
  | EO_BOOL b => obj [("type", word "bool"); ("value", JBool b)]
  end%string.
Fixpoint node_doc (levels : nat) (nodes : list p4_expr_node) (i : Z) : json :=
  match levels with
  | O => JNull
  | S levels =>
      let n := elt nodes i in
      obj [("type", word "expression");
           ("value", obj [("op", word (op_name (en_op n))); ("left", side_doc (node_doc levels nodes) (en_left n));
                          ("right", side_doc (node_doc levels nodes) (en_right n))])]%string
  end.

Definition kind_word (k : p4_match_kind) : json := word (match k with MATCH_EXACT => "exact" | MATCH_LPM => "lpm" | MATCH_TERNARY => "ternary" end).
Definition key_doc (k : p4_table_key) : json :=
  obj [("match_type", kind_word (tk_match_type k)); ("target", ref_doc (tk_field k));
       ("mask", if tk_has_mask k then hexstr_doc 16 (tk_mask k) else JNull)]%string.
Definition default_doc (t : p4_table) : json :=
  if tb_default_action t =? P4_IDX_NONE then JNull
  else obj [("action_id", JInt (ac_id (elt (pg_actions prog) (tb_default_action t))));
            ("action_data", arr (fun d => hexstr_doc d.1 d.2) (tb_default_data t))]%string.
Definition pl_next (pl : p4_pipeline) (i : Z) : json := next_doc (node_name pl) (pl_nodes pl) i.
(** Where an action goes. *)
Definition next_of (t : p4_table) (a : Z) : Z := default 0 (list_find (fun x => x = a) (tb_actions t) ≫= fun x => tb_next t !! x.1).
(** By hit or miss when every action goes the same way. *)
Definition next_tables_doc (pl : p4_pipeline) (t : p4_table) : json :=
  if forallb (fun n => n =? tb_next t !!! 0%nat) (tb_next t) then
    obj [("__HIT__", pl_next pl (tb_next t !!! 0%nat)); ("__MISS__", pl_next pl (tb_base_default_next t))]%string
  else JObj ((fun a => (aname prog a, pl_next pl (next_of t a))) <$> remove_dups (tb_actions t)).
Definition table_doc (pl : p4_pipeline) (t : p4_table) : json :=
  obj [("name", JStr (tb_name t)); ("id", JInt (tb_id t)); ("type", word "simple"); ("match_type", kind_word (tb_match_type t));
       ("max_size", JInt (tb_max_size t)); ("key", arr key_doc (tb_key t)); ("actions", arr (fun a => JStr (aname prog a)) (tb_actions t));
       ("default_entry", default_doc t); ("next_tables", next_tables_doc pl t); ("base_default_next", pl_next pl (tb_base_default_next t))]%string.
Definition conditional_doc (pl : p4_pipeline) (c : p4_conditional) : json :=
  obj [("name", JStr (cn_name c)); ("id", JInt (cn_id c)); ("expression", node_doc expr_levels (cn_expr c) 0);
       ("true_next", pl_next pl (cn_true_next c)); ("false_next", pl_next pl (cn_false_next c))]%string.
Definition pipeline_doc (pl : p4_pipeline) : json :=
  obj [("name", JStr (pl_name pl)); ("id", JInt (pl_id pl)); ("init_table", pl_next pl (pl_init_node pl));
       ("tables", arr (table_doc pl) (pl_tables pl)); ("conditionals", arr (conditional_doc pl) (pl_conditionals pl))]%string.
Definition document : json :=
  obj [("__meta__", obj [("version", JArr [JInt 2; JInt 23])]); ("header_types", arr type_doc (pg_header_types prog));
       ("headers", arr header_doc (pg_headers prog));
       ("parsers", JArr [obj [("init_state", JStr (ps_name (elt (pg_parse_states prog) (pg_init_state prog)))); ("parse_states", arr state_doc (pg_parse_states prog))]]);
       ("deparsers", JArr [obj [("order", arr header_name (pg_deparse_order prog))]]); ("extern_instances", arr extern_doc (pg_externs prog));
       ("actions", arr action_doc (pg_actions prog)); ("pipelines", arr pipeline_doc (pg_pipelines prog))]%string.
End document.

(** ** Reading what was written *)
Fixpoint obj_key (key : string) (m : list (string * json)) : option json :=
  match m with
  | [] => None
  | (k, v) :: m => if String.eqb k key then Some v else obj_key key m
  end.
Lemma chars_inj w w' : chars w = chars w' -> w = w'.
Proof.
  revert w'. induction w as [|a w IH]; intros [|a' w']; cbn [chars]; [done..|]. intros [= Ha%N2Z.inj Hw%IH]. subst.
  rewrite <-(Ascii.ascii_N_embedding a), Ha, Ascii.ascii_N_embedding. done.
Qed.
Lemma get_obj m key : get (obj m) key = obj_key key m.
Proof.
  unfold get, obj. cbn [json_object_object_get_ex]. induction m as [|[k v] m IH]; [done|]. cbn [fmap list_fmap member obj_key fst snd]. rewrite IH.
  destruct (String.eqb_spec k key) as [-> |Hne]; [by rewrite bool_decide_eq_true_2|]. rewrite bool_decide_eq_false_2; [done|]. by intros ?%chars_inj.
Qed.
Lemma is_obj m : is_object (obj m) = true.
Proof. done. Qed.
Lemma printable_strlen s : p4_name_printable s = true -> strlen s = length s.
Proof. induction s as [|c s IH]; [done|]. cbn. intros [[Hc _]%andb_prop Hs]%andb_prop. rewrite IH by done. destruct (Z.eqb_spec c 0); [lia|done]. Qed.
Lemma cstr_name s : p4_name_printable s = true -> p4_cstr (JStr s) = Some s.
Proof. intros H%printable_strlen. cbn. by rewrite bool_decide_eq_true_2. Qed.
Lemma str_val_name s : name_ok s -> p4_str_val (JStr s) NAME_CAP = Some s.
Proof.
  intros [Hl Hp]. unfold p4_str_val. rewrite cstr_name by done. cbn [mbind option_bind]. unfold NAME_CAP. rewrite Hp.
  rewrite !bool_decide_eq_false_2 by lia. done.
Qed.
Lemma get_str_name m key s : obj_key key m = Some (JStr s) -> name_ok s -> p4_get_str (obj m) key = Some s.
Proof. intros H Hs. unfold p4_get_str. rewrite get_obj, H. by apply str_val_name. Qed.
Lemma get_u32_int m key i lo hi : obj_key key m = Some (JInt i) -> 0 <= lo <= i -> i <= hi -> hi < 2 ^ 63 -> p4_get_u32 (obj m) key lo hi = Some i.
Proof.
  intros H H1 H2 H3. unfold p4_get_u32. rewrite get_obj, H. cbn [mbind option_bind int_of]. unfold json_object_get_int64. rewrite Z.min_l by lia.
  destruct (Z.ltb_spec i 0), (Z.ltb_spec hi i), (Z.ltb_spec i lo); try lia. done.
Qed.
Lemma get_array_arr {A} m key cap (f : A -> json) l : obj_key key m = Some (arr f l) -> (length l <= cap)%nat -> p4_get_array (obj m) key cap = Some (f <$> l).
Proof. intros H Hl. unfold p4_get_array. rewrite get_obj, H. cbn [mbind option_bind arr]. rewrite bool_decide_eq_false_2; [done|]. rewrite length_fmap. lia. Qed.
Lemma get_array_lit m key cap l : obj_key key m = Some (JArr l) -> (length l <= cap)%nat -> p4_get_array (obj m) key cap = Some l.
Proof. intros H Hl. unfold p4_get_array. rewrite get_obj, H. cbn [mbind option_bind]. rewrite bool_decide_eq_false_2; [done|]. lia. Qed.
Lemma word_name w : bool_decide (name_ok (chars w)) = true -> name_ok (chars w).
Proof. apply bool_decide_eq_true. Qed.
Lemma is_chars_word w w' : is_chars (chars w) w' = String.eqb w w'.
Proof. unfold is_chars. destruct (String.eqb_spec w w') as [-> |Hne]; [by apply bool_decide_eq_true_2|]. apply bool_decide_eq_false_2. by intros ?%chars_inj. Qed.
Lemma pair_names a b : name_ok a -> name_ok b -> p4_pair_strings (JArr [JStr a; JStr b]) = Some (a, b).
Proof. intros Ha Hb. unfold p4_pair_strings. rewrite (str_val_name a Ha). cbn [mbind option_bind]. by rewrite (str_val_name b Hb). Qed.
(** A walk over what is written of a list, whose state after the first
    elements is [st] of them. *)
Lemma each_doc {S A B} (f : S -> B -> result S) (doc : A -> B) (st : list A -> S) s0 l :
  s0 = st [] -> (forall a x b, l = a ++ x :: b -> f (st a) (doc x) = inr (st (a ++ [x]))) -> each f s0 (doc <$> l) = inr (st l).
Proof.
  intros -> H. cut (forall a b, l = a ++ b -> each f (st a) (doc <$> b) = inr (st l)); [intros Hc; by apply (Hc [])|].
  intros a b. revert a. induction b as [|x b IH]; intros a ->; [by rewrite app_nil_r|]. cbn [fmap list_fmap each]. rewrite (H a x b) by done.
  cbn [mbind result_bind]. rewrite IH by by rewrite <-(assoc_L (++)). done.
Qed.
Lemma named_split {A} (nm : A -> cstr) id a x b : named nm id (a ++ x :: b) -> name_ok (nm x) /\ id_ok (id x) /\ p4_unique nm id a (nm x) (id x) = inr tt.
Proof.
  intros (H1 & H2 & [_ [[Hn Hi] _]%Forall_cons]%Forall_app). split_and!; [done..|]. unfold p4_unique.
  destruct (existsb _ a) eqn:Ex; [exfalso|done]. apply existsb_exists in Ex as (y & Hy & Hxy). rewrite <-list_elem_of_In in Hy.
  rewrite fmap_app in H1. rewrite fmap_app in H2. apply NoDup_app in H1 as (_ & H1 & _), H2 as (_ & H2 & _). apply orb_prop in Hxy as [E%bool_decide_eq_true|E%Z.eqb_eq].
  - apply (H1 (nm x)); [rewrite <-E; by apply list_elem_of_fmap_2|by left].
  - apply (H2 (id x)); [rewrite <-E; by apply list_elem_of_fmap_2|by left].
Qed.
Lemma fail_if_false b rc {B} (k : unit -> result B) : b = false -> (fail_if b rc ≫= k) = k tt.
Proof. by intros ->. Qed.
(** A step of a walk over what was written. *)
Ltac rd1 :=
  first [ rewrite get_obj
        | rewrite is_obj
        | rewrite is_chars_word
        | erewrite get_str_name by first [reflexivity | done | by apply word_name]
        | erewrite get_u32_int by first [reflexivity | unfold id_ok, P4_MAX_ID in *; lia]
        | erewrite get_array_arr by first [reflexivity | done | lia]
        | erewrite get_array_lit by first [reflexivity | cbn; lia]
        | rewrite fail_if_false by first [reflexivity | done] ]; cbn [obj_key String.eqb Ascii.eqb Bool.eqb andb need mbind result_bind option_bind is_null negb fail_if json_object_array_get_idx lookup_total list_lookup_total].
Ltac rd := repeat rd1.
Ltac nx := cbn [mret result_ret need mbind result_bind option_bind fst snd negb is_null].

(** ** Header types and headers *)
Lemma walk_field_doc a f : name_ok (fd_name f) -> 1 <= fd_bits f <= P4_MAX_FIELD_BITS -> a.1 + fd_bits f <= 0xffff -> fd_offset_bits f = a.1 ->
  p4_walk_field a (JArr [JStr (fd_name f); JInt (fd_bits f); JBool false]) = inr (a.1 + fd_bits f, a.2 ++ [f]).
Proof.
  destruct a as [t fs], f as [n b o]. cbn [fst snd fd_name fd_bits fd_offset_bits]. intros Hn Hb Ht ->. unfold p4_walk_field, json_object_array_get_idx.
  cbn -[p4_str_val Z.ltb Z.sub P4_MAX_FIELD_BITS]. rewrite str_val_name by done. cbn -[p4_str_val Z.ltb Z.sub P4_MAX_FIELD_BITS]. 
  unfold json_object_get_int64, P4_MAX_FIELD_BITS in *. rewrite Z.min_l by lia.
  destruct (Z.ltb_spec b 1), (Z.ltb_spec 512 b), (Z.ltb_spec (65535 - t) b); try lia. reflexivity.
Qed.
Lemma fields_ok_split off fs total a f b : fields_ok off fs total -> fs = a ++ f :: b -> fd_offset_bits f = off + sumZ (fd_bits <$> a) /\ 1 <= fd_bits f <= P4_MAX_FIELD_BITS /\
  off + sumZ (fd_bits <$> a) + fd_bits f <= total.
Proof.
  revert off fs. induction a as [|g a IH]; intros off fs H ->; cbn in H; unfold sumZ in *; cbn.
  - destruct H as (-> & Hb & Hf%fields_total). lia.
  - destruct H as (_ & _ & Hf). destruct (IH _ _ Hf eq_refl) as (? & ? & ?). lia.
Qed.
Lemma fields_ok_total off fs total : fields_ok off fs total -> total = off + sumZ (fd_bits <$> fs).
Proof. revert off. induction fs as [|f fs IH]; intros off; cbn; unfold sumZ in *; cbn; [lia|]. intros (_ & _ & ->%IH). lia. Qed.
Lemma walk_type_doc types t b : named ht_name ht_id (types ++ t :: b) -> type_ok t -> type_loadable t -> p4_walk_header_type types (type_doc t) = inr (types ++ [t]).
Proof.
  intros (Hn & Hi & Hu)%named_split [Hf Ht] [Hl Hfn]. unfold p4_walk_header_type, type_doc. rd.
  rewrite (each_doc p4_walk_field _ (fun fs => (sumZ (fd_bits <$> fs), fs)) (0, [])); [|done|].
  - cbn. rewrite Hu. cbn. apply fields_ok_total in Hf. destruct t. cbn in *. by subst.
  - intros a f b' E. destruct (fields_ok_split _ _ _ _ _ _ Hf E) as (Ho & Hb & Hle). rewrite walk_field_doc; cbn [fst snd]; [|by rewrite E in Hfn; apply Forall_app in Hfn as [_ [? _]%Forall_cons]|done|lia|lia].
    rewrite fmap_app, sumZ_app. unfold sumZ at 3. cbn. by rewrite Z.add_0_r.
Qed.
Lemma get_bool_b m key b : obj_key key m = Some (JBool b) -> p4_get_bool (obj m) key = Some b.
Proof. intros H. unfold p4_get_bool. by rewrite get_obj, H. Qed.
Lemma split_Forall {A} (P : A -> Prop) l a x b : Forall P l -> l = a ++ x :: b -> P x.
Proof. intros H ->. by apply Forall_app in H as [_ [? _]%Forall_cons]. Qed.
Lemma split_idx {A} `{!Inhabited A} (l : list A) a x b : l = a ++ x :: b -> 0 <= Z.of_nat (length a) < Z.of_nat (length l) /\ elt l (Z.of_nat (length a)) = x.
Proof. intros ->. split; [rewrite length_app; cbn; lia|]. unfold elt. rewrite Nat2Z.id. by rewrite list_lookup_total_middle. Qed.

Lemma unique_fmap {A} (nm : A -> cstr) id (f : A -> A) l n i : (forall a, nm (f a) = nm a /\ id (f a) = id a) -> p4_unique nm id (f <$> l) n i = p4_unique nm id l n i.
Proof. intros Hf. unfold p4_unique. f_equal. induction l as [|a l IH]; [done|]. cbn. rewrite IH. by destruct (Hf a) as [-> ->]. Qed.
Lemma find_name_fmap {A B} (nm : B -> cstr) (nm' : A -> cstr) (f : A -> B) l n : (forall a, nm (f a) = nm' a) -> find_name nm (f <$> l) n = find_name nm' l n.
Proof.
  intros Hf. unfold find_name. rewrite list_find_fmap, (list_find_ext _ (fun a => nm' a = n)) by (intros a; cbn; by rewrite Hf). by destruct (list_find _ l) as [[i a]|].
Qed.
Lemma zip_fmap {A B C} (f : A -> B) (g : A -> C) l : zip (f <$> l) (g <$> l) = (fun a => (f a, g a)) <$> l.
Proof. by rewrite zip_with_fmap_l, zip_with_fmap_r, zip_with_diag. Qed.
Lemma distinct_count l n : NoDup l -> Forall (fun h => 0 <= h < Z.of_nat n) l -> (length l <= n)%nat.
Proof.
  intros Hnd Hl. replace n with (length (seqZ 0 (Z.of_nat n))) by (rewrite length_seqZ; lia). apply submseteq_length, NoDup_submseteq; [done|]. intros h Hh. rewrite Forall_forall in Hl. apply elem_of_seqZ. specialize (Hl h Hh). lia.
Qed.
Lemma idx_in i n : 0 <= i < Z.of_nat n -> Z.of_nat n <= 65535 -> (i =? P4_IDX_NONE) = false.
Proof. intros ? ?. apply Z.eqb_neq. unfold P4_IDX_NONE. lia. Qed.

(** ** Literals *)
Lemma hex_char_ok d : 0 <= d < 16 -> is_hex (hex_char d) = true /\ 32 <= hex_char d <= 126.
Proof.
  intros Hd. assert (Forall (fun d => is_hex (hex_char d) = true /\ 32 <= hex_char d <= 126) (seqZ 0 16)) as H by (apply (bool_decide_unpack _); by vm_compute).
  rewrite Forall_forall in H. apply H, elem_of_seqZ. lia.
Qed.
Lemma bytes_digits bs : bytes_ok bs ->
  let ds := mjoin (byte_digits <$> bs) in
  hex_digits ds /\ p4_name_printable ds = true /\ length ds = (2 * length bs)%nat /\ forall v, hex_from v ds = v * 256 ^ Z.of_nat (length bs) + be_value bs.
Proof.
  induction bs as [|b bs IH]; intros Hb; cbn zeta; [split_and!; [by constructor|done|done|intros v; cbn; lia]|].
  apply Forall_cons in Hb as [Hb Hbs]. destruct (IH Hbs) as (H1 & H2 & H3 & H4). unfold byte_ok, fits in Hb.
  assert (0 <= b / 16 < 16 /\ 0 <= b mod 16 < 16 /\ b = 16 * (b / 16) + b mod 16) as (Hhi & Hlo & Hbv) by (Z.to_euclidean_division_equations; lia).
  destruct (hex_char_ok _ Hhi) as [K1 K2], (hex_char_ok _ Hlo) as [K3 K4]. cbn [fmap list_fmap]. change (mjoin (byte_digits b :: ?l)) with (hex_char (b / 16) :: hex_char (b mod 16) :: mjoin l).
  split_and!.
  - by apply Forall_cons, conj, Forall_cons.
  - unfold p4_name_printable in *. cbn [forallb]. rewrite H2. destruct (Z.leb_spec 32 (hex_char (b / 16))), (Z.leb_spec (hex_char (b / 16)) 126), (Z.leb_spec 32 (hex_char (b mod 16))), (Z.leb_spec (hex_char (b mod 16)) 126); done || lia.
  - cbn [length]. lia.
  - intros v. unfold hex_from in *. cbn [foldl]. rewrite H4, !hex_char_digit by done. rewrite be_cons. unfold nbits. cbn [length].
    rewrite Nat2Z.inj_succ, Z.pow_succ_r by lia. rewrite Z.pow_mul_r by lia. change (2 ^ 8) with 256. nia.
Qed.
Lemma hexstr_read n imm : literal n imm -> hexstr (hexstr_doc n imm) 16 = Some (imm, n, false).
Proof.
  intros ([Hl Hb] & Hn & Hv). set (bs := drop (16 - Z.to_nat n) imm). assert (bytes_ok bs) as Hbs by by apply Forall_drop.
  destruct (bytes_digits bs Hbs) as (H1 & H2 & H3 & H4). assert (length bs = Z.to_nat n) as Hlen by (subst bs; rewrite length_drop; lia).
  set (s := chars "0x" ++ mjoin (byte_digits <$> bs)). change (hexstr_doc n imm) with (JStr s). unfold hexstr. rewrite cstr_name by by rewrite <-H2. cbn [mbind option_bind].
  assert (be_value bs = be_value imm) as Hbe.
  { assert (be_value imm = be_value (take (16 - Z.to_nat n) imm) * 256 ^ n + be_value bs) as E.
    { rewrite <-(take_drop (16 - Z.to_nat n) imm) at 1. rewrite be_app. fold bs. by rewrite Hlen, Z2Nat.id by lia. }
    pose proof (be_range bs Hbs) as Hr. pose proof (be_range _ (Forall_take _ (16 - Z.to_nat n) _ Hb)) as Hr'. rewrite Hlen, Z2Nat.id in Hr by lia.
    destruct (Z.eq_dec (be_value (take (16 - Z.to_nat n) imm)) 0) as [E0|]; [rewrite E0 in E; lia|]. assert (1 * 256 ^ n <= be_value (take (16 - Z.to_nat n) imm) * 256 ^ n) by (apply Z.mul_le_mono_nonneg_r; lia). lia. }
  assert (hexstr_shape s false (mjoin (byte_digits <$> bs))) as Hsh.
  { split_and!; [done| |done]. intros E. rewrite E in H3. cbn in H3. lia. }
  destruct (parse_hexstr_spec s 16) as [P1 P2]. destruct (ernic_parse_hexstr (Some s) 16) as [[[out m] neg]|]; [|specialize (P2 eq_refl _ _ Hsh); lia].
  destruct (P1 _ _ _ eq_refl) as (ds & (Hs & _ & _) & Hm & _ & Hol & Hob & Hov). destruct neg; [done|]. cbn in Hs. injection Hs as <-.
  unfold hex_value in Hov. rewrite H4, Hbe in Hov. rewrite H3, Hlen in Hm. f_equal. f_equal. f_equal; [by apply be_inj; [..|lia|lia]|subst m; Z.to_euclidean_division_equations; lia].
Qed.
Lemma hexstr_pos_read n imm : literal n imm -> hexstr_pos (hexstr_doc n imm) 16 = Some (imm, n).
Proof. intros H. unfold hexstr_pos. by rewrite hexstr_read. Qed.

Section walks.
Variable prog : p4_program.
Hypothesis Hlo : loadable prog.
Let Hok : prog_ok prog := lo_ok prog Hlo.
Lemma walk_header_doc hs h b : pg_headers prog = hs ++ h :: b ->
  p4_walk_header (pg_header_types prog) ((fun h => h <| hd_phv_offset := 0 |>) <$> hs) (header_doc prog h) =
  inr ((fun h => h <| hd_phv_offset := 0 |>) <$> hs ++ [h]).
Proof.
  intros E. pose proof (lo_headers _ Hlo) as Hnm. rewrite E in Hnm. apply named_split in Hnm as (Hn & Hi & Hu).
  destruct (split_Forall _ _ _ _ _ (po_headers _ Hok) E) as [Ht Hm]. destruct (lo_types _ Hlo) as ((Hd & _ & Hty) & Hcap & _).
  destruct (Forall_lookup_1 _ _ _ _ Hty (elt_lookup _ _ Ht)) as [Hnt _].
  unfold p4_walk_header, header_doc. rd. erewrite get_bool_b by reflexivity. nx. rewrite find_name_unique by done.
  assert (Z.of_nat (length (pg_header_types prog)) <= 65535) as Hc by (unfold P4_MAX_HEADER_TYPES in *; lia).
  rewrite (idx_in _ _ Ht Hc), unique_fmap by done. cbn [fail_if mbind result_bind]. rewrite fail_if_false; [|by destruct (hd_metadata h); [|rewrite Hm]]. rewrite Hu, fmap_app. by destruct h.
Qed.
Lemma walk_types_doc p m : obj_key "header_types" m = Some (arr type_doc (pg_header_types prog)) ->
  p4_walk_header_types p (obj m) = inr (p <| pg_header_types := pg_header_types prog |>).
Proof.
  intros Hm. destruct (lo_types _ Hlo) as (Hn & Hl & Ht). unfold p4_walk_header_types. erewrite get_array_arr by done. nx.
  rewrite (each_doc _ type_doc (fun l => l) []); [done|done|]. intros a t b E. apply (walk_type_doc _ _ b); [by rewrite <-E| |].
  - exact (split_Forall _ _ _ _ _ (po_types _ Hok) E).
  - exact (split_Forall _ _ _ _ _ Ht E).
Qed.
Definition unplaced (h : p4_header) : p4_header := h <| hd_phv_offset := 0 |>.
Lemma walk_headers_doc p m : pg_header_types p = pg_header_types prog -> obj_key "headers" m = Some (arr (header_doc prog) (pg_headers prog)) ->
  p4_walk_headers p (obj m) = inr (p <| pg_headers := unplaced <$> pg_headers prog |>).
Proof.
  intros Hp Hm. unfold p4_walk_headers. erewrite get_array_arr; [|done|apply (po_count _ Hok)]. nx. rewrite Hp.
  rewrite (each_doc _ (header_doc prog) (fun l => unplaced <$> l) []); [done|done|]. intros a h b E. by eapply walk_header_doc.
Qed.
Lemma layout_loop_doc p hs off : pg_header_types p = pg_header_types prog -> 0 <= off -> pg_phv_bytes prog <= P4_PHV_BYTES ->
  Forall (fun h => 0 <= p4_header_bytes prog h) hs -> layout_ok prog off hs ->
  layout_loop p off (unplaced <$> hs) = (hs, pg_phv_bytes prog) /\ sumZ (p4_header_bytes p <$> (unplaced <$> hs)) = pg_phv_bytes prog - off /\ off <= pg_phv_bytes prog.
Proof.
  intros Hp. revert off. induction hs as [|h hs IH]; intros off Ho Hf Hall; cbn [layout_ok fmap list_fmap layout_loop]; [intros <-; unfold sumZ; cbn; split_and!; [done|lia|lia]|].
  intros [Hh Hl]. apply Forall_cons in Hall as [Hb Hall].
  assert (p4_header_bytes p (unplaced h) = p4_header_bytes prog h) as Hhb by (unfold p4_header_bytes; by rewrite Hp).
  change ((ht_total_bits (elt (pg_header_types prog) (hd_header_type h)) + 7) / 8) with (p4_header_bytes prog h) in Hl.
  destruct (IH (off + p4_header_bytes prog h) ltac:(lia) Hf Hall Hl) as (H1 & H2 & H3). rewrite Hhb, H1. split_and!; [| |lia].
  2: { change (sumZ (?x :: ?l)) with (x + sumZ l). lia. }
  rewrite wrap_id by (unfold fits, P4_PHV_BYTES in *; lia). subst off. by destruct h.
Qed.
Lemma layout_doc p : pg_header_types p = pg_header_types prog -> pg_headers p = unplaced <$> pg_headers prog ->
  p4_layout_phv p = inr (p <| pg_headers := pg_headers prog |> <| pg_phv_bytes := pg_phv_bytes prog |>).
Proof.
  intros Ht Hh. assert (Forall (fun h => 0 <= p4_header_bytes prog h) (pg_headers prog)) as Hb.
  { eapply Forall_impl; [exact (po_headers _ Hok)|]. intros h [Hi _]. unfold p4_header_bytes. apply Z.div_pos; [|lia].
    destruct (elt_Forall _ _ _ (po_types _ Hok) Hi) as [Hft%fields_total _]. lia. }
  destruct (layout_loop_doc p (pg_headers prog) 0 Ht ltac:(lia) (po_fits _ Hok) Hb (po_layout _ Hok)) as (H1 & H2 & H3).
  unfold p4_layout_phv. rewrite Hh, H1, H2. rewrite fail_if_false by (pose proof (po_fits _ Hok); apply Z.ltb_ge; lia).
  rewrite wrap_id; [done|]. pose proof (po_fits _ Hok). unfold fits, P4_PHV_BYTES in *. lia.
Qed.

(** ** Names *)
Section same.
(** A program with [prog]'s headers, as the walks have made it so far. *)
Variable p : p4_program.
Hypothesis Htypes : pg_header_types p = pg_header_types prog.
Hypothesis Hheaders : pg_headers p = pg_headers prog.
Lemma find_header_same : p4_find_header p = p4_find_header prog.
Proof. unfold p4_find_header. by rewrite Hheaders. Qed.
Lemma type_of_same : type_of p = type_of prog.
Proof. unfold type_of. by rewrite Hheaders, Htypes. Qed.
Lemma resolve_same : p4_resolve_field p = p4_resolve_field prog.
Proof. unfold p4_resolve_field. by rewrite find_header_same, type_of_same. Qed.
Lemma bits_same : p4_field_bits p = p4_field_bits prog.
Proof. unfold p4_field_bits, field_of. by rewrite type_of_same. Qed.
Lemma resolve_doc h f r : field_named prog h f r -> p4_resolve_field p h f = Some r.
Proof.
  intros Hr. rewrite resolve_same. apply named_resolve; [| | | |done].
  - destruct (lo_types _ Hlo) as (_ & _ & Ht). eapply Forall_impl; [exact Ht|]. by intros t [? _].
  - apply Hok.
  - apply (lo_headers _ Hlo).
  - apply Hok.
Qed.
Lemma header_name_ok h : hdr_idx_ok prog h -> name_ok (hd_name (elt (pg_headers prog) h)).
Proof. intros Hh. destruct (lo_headers _ Hlo) as (_ & _ & Hn). by destruct (elt_Forall _ _ _ Hn Hh). Qed.
Lemma pair_doc r : ref_first prog r -> p4_pair_strings (ref_doc prog r) = Some (hd_name (elt (pg_headers prog) (fr_header r)), fd_name (field_of prog r)).
Proof.
  intros [[Hh Hf] _]. apply pair_names; [by apply header_name_ok|]. destruct (lo_types _ Hlo) as (_ & _ & Ht).
  pose proof (elt_Forall _ _ _ (po_headers _ Hok) Hh) as [Hi _]. destruct (elt_Forall _ _ _ Ht Hi) as [_ Hn]. exact (elt_Forall _ _ _ Hn Hf).
Qed.
Lemma ref_resolve r : ref_first prog r -> p4_resolve_field p (hd_name (elt (pg_headers prog) (fr_header r))) (fd_name (field_of prog r)) = Some r.
Proof. intros Hr. by apply resolve_doc. Qed.
Lemma find_header_doc h : hdr_idx_ok prog h -> p4_find_header p (hd_name (elt (pg_headers prog) h)) = h /\ (h =? P4_IDX_NONE) = false.
Proof.
  intros Hh. rewrite find_header_same. split; [apply find_name_unique; [apply (lo_headers _ Hlo)|done]|].
  apply (idx_in _ _ Hh). pose proof (po_count _ Hok). unfold P4_MAX_HEADERS in *. lia.
Qed.
Lemma arch_doc h f bits r : arch_field prog h f bits r -> p4_resolve_arch_field p h f bits = inr r.
Proof.
  intros [[Hr Hb]|[Hno ->]]; unfold p4_resolve_arch_field.
  - rewrite (resolve_doc _ _ _ Hr), bits_same. unfold p4_field_bits. rewrite Hb, Z.eqb_refl. done.
  - destruct (p4_resolve_field p h f) as [r|] eqn:E; [|done]. rewrite resolve_same in E. apply resolve_named in E. by destruct (Hno r).
Qed.
Lemma std_doc : p4_resolve_std_metadata p = inr (p <| pg_egress_spec := pg_egress_spec prog |> <| pg_ingress_port := pg_ingress_port prog |> <| pg_egress_port := pg_egress_port prog |>).
Proof.
  destruct (lo_std _ Hlo) as (H1 & H2 & H3). unfold p4_resolve_std_metadata. rewrite (arch_doc _ _ _ _ H1). cbn [mbind result_bind].
  rewrite fail_if_false; [|apply bool_decide_eq_false_2; intros E]. 2: { destruct (po_egress_spec _ Hok) as [[Hh _] _]. rewrite E in Hh. unfold hdr_idx_ok in Hh. pose proof (po_count _ Hok). cbn in Hh. unfold P4_MAX_HEADERS, P4_IDX_NONE in *. lia. }
  by rewrite (arch_doc _ _ _ _ H2), (arch_doc _ _ _ _ H3).
Qed.

(** ** The parser *)
Lemma walk_op_doc ops h : hdr_idx_ok prog h -> hd_metadata (elt (pg_headers prog) h) = false -> p4_walk_parser_op p ops (op_doc prog h) = inr (ops ++ [h]).
Proof.
  intros Hh Hm. destruct (find_header_doc h Hh) as [Hf Hi]. pose proof (header_name_ok h Hh). unfold p4_walk_parser_op, op_doc. rd.
  rewrite Hf. rd. rewrite Hheaders. by rewrite fail_if_false.
Qed.
Lemma walk_key_doc acc r : ref_first prog r ->
  p4_walk_key p acc (obj [("type", word "field"); ("value", ref_doc prog r)]%string) = inr (acc.1 + (fd_bits (field_of prog r) + 7) / 8, acc.2 ++ [r]).
Proof. intros Hr. unfold p4_walk_key. rd. rewrite pair_doc by done. nx. rewrite ref_resolve by done. nx. by rewrite bits_same. Qed.
(** A transition as the first pass leaves it. *)
Definition unresolved (t : p4_transition) : p4_transition := t <| tr_next_state := P4_IDX_NONE |>.
Lemma walk_transition_doc n trs t : n <= Z.of_nat P4_MAX_KEY_BYTES -> transition_loadable n t ->
  p4_walk_transition n trs (transition_doc prog n t) = inr (trs ++ [unresolved t]).
Proof.
  intros Hn Ht. unfold p4_walk_transition, transition_doc. destruct t as [def has v m next]. unfold transition_loadable in Ht. cbn [tr_is_default tr_has_mask tr_value tr_mask tr_next_state] in *.
  destruct def.
  - destruct Ht as (-> & -> & ->). rd. done.
  - destruct Ht as [Hv Hm]. rd. rewrite hexstr_pos_read by done. nx. rewrite fail_if_false by (apply Z.ltb_irrefl). unfold get_nonnull. rd. destruct has.
    + cbn [is_null hexstr_doc]. rewrite hexstr_pos_read by done. nx. rewrite fail_if_false by (apply Z.ltb_irrefl). done.
    + subst m. done.
Qed.
Definition state0 (st : p4_parse_state) : p4_parse_state := st <| ps_transitions := unresolved <$> ps_transitions st |>.
Lemma key_width_app a r : key_width prog (a ++ [r]) = key_width prog a + (fd_bits (field_of prog r) + 7) / 8.
Proof. unfold key_width. rewrite fmap_app, sumZ_app. unfold sumZ at 2. cbn. lia. Qed.
Lemma walk_state_doc a st b : pg_parse_states prog = a ++ st :: b -> p4_walk_state p (state0 <$> a) (state_doc prog st) = inr (state0 <$> a ++ [st]).
Proof.
  intros E. destruct (lo_states _ Hlo) as (Hnd & _ & Hst). destruct (split_Forall _ _ _ _ _ Hst E) as (Hn & L1 & L2 & L3 & Hk & Ht).
  destruct (split_Forall _ _ _ _ _ (po_states _ Hok) E) as (Hops & _ & Hkb & Hkm & _). unfold p4_walk_state, state_doc. rd. rewrite fail_if_false.
  2: { apply not_true_iff_false. intros (s & Hs%list_elem_of_In & Es%bool_decide_eq_true)%existsb_exists. apply list_elem_of_fmap in Hs as (s' & -> & Hs').
    rewrite E, fmap_app in Hnd. apply NoDup_app in Hnd as (_ & Hnd & _). apply (Hnd (ps_name st)); [rewrite <-Es; apply (list_elem_of_fmap_2 ps_name _ _ Hs')|by left]. }
  unfold p4_walk_parser_ops. rd. rewrite (each_doc _ _ (fun l => l) []); [|done|].
  2: { intros o h b' Eo. destruct (split_Forall _ _ _ _ _ Hops Eo). by apply walk_op_doc. }
  nx. unfold p4_walk_transition_key. rd. rewrite (each_doc _ _ (fun l => (key_width prog l, l)) (0, [])); [|done|].
  2: { intros o r b' Eo. rewrite walk_key_doc by exact (split_Forall _ _ _ _ _ Hk Eo). by rewrite key_width_app. }
  nx. rewrite fail_if_false by (apply Z.ltb_ge; lia). nx. unfold p4_walk_transitions. rd. rewrite (each_doc _ _ (fun l => unresolved <$> l) []); [|done|].
  2: { intros o t b' Eo. rewrite fmap_app, <-Hkb. apply walk_transition_doc; [lia|exact (split_Forall _ _ _ _ _ Ht Eo)]. }
  nx. rewrite fmap_app. destruct st. cbn in Hkb. by rewrite Hkb.
Qed.
Lemma resolve_arm_doc n acc t : next_in (Z.of_nat (length (pg_parse_states prog))) (tr_next_state t) ->
  p4_resolve_arm (state0 <$> pg_parse_states prog) acc (unresolved t, transition_doc prog n t) = inr (acc ++ [t]).
Proof.
  intros Hnext. destruct (lo_states _ Hlo) as (Hnd & Hlen & Hst). unfold p4_resolve_arm, transition_doc. rd. unfold next_doc.
  destruct Hnext as [Hnone|Hi]; [rewrite Hnone; cbn; destruct t; cbn in *; by subst|]. assert (Z.of_nat (length (pg_parse_states prog)) <= 65535) as Hc by (unfold P4_MAX_PARSE_STATES in *; lia).
  rewrite (idx_in _ _ Hi Hc). nx. rewrite str_val_name by (by destruct (elt_Forall _ _ _ Hst Hi)). nx. rewrite (find_name_fmap _ ps_name), find_name_unique by done.
  rewrite (idx_in _ _ Hi Hc). by destruct t.
Qed.
Lemma resolve_arms_doc a st b : pg_parse_states prog = a ++ st :: b ->
  p4_resolve_arms (state0 <$> pg_parse_states prog) a (state0 st, state_doc prog st) = inr (a ++ [st]).
Proof.
  intros E. destruct (lo_states _ Hlo) as (_ & _ & Hst). destruct (split_Forall _ _ _ _ _ Hst E) as (_ & _ & _ & L3 & _).
  destruct (split_Forall _ _ _ _ _ (po_states _ Hok) E) as (_ & _ & _ & _ & Ht). unfold p4_resolve_arms, state_doc. rd.
  change (ps_transitions (state0 st)) with (unresolved <$> ps_transitions st). rewrite zip_fmap, (each_doc _ _ (fun l => l) []); [by destruct st|done|].
  intros o t b' Eo. apply resolve_arm_doc. by destruct (split_Forall _ _ _ _ _ Ht Eo) as (_ & _ & ?).
Qed.
Lemma walk_parser_doc m :
  obj_key "parsers" m = Some (JArr [obj [("init_state", JStr (ps_name (elt (pg_parse_states prog) (pg_init_state prog)))); ("parse_states", arr (state_doc prog) (pg_parse_states prog))]%string]) ->
  p4_walk_parser p (obj m) = inr (p <| pg_parse_states := pg_parse_states prog |> <| pg_init_state := pg_init_state prog |>).
Proof.
  intros Hm. destruct (lo_states _ Hlo) as (Hnd & Hlen & Hst). pose proof (po_init _ Hok) as Hi.
  assert (name_ok (ps_name (elt (pg_parse_states prog) (pg_init_state prog)))) as Hn by (by destruct (elt_Forall _ _ _ Hst Hi)).
  unfold p4_walk_parser. erewrite get_array_lit; [|done|cbn; lia]. nx. rd. rewrite fail_if_false by (apply bool_decide_eq_false_2; rewrite length_fmap; lia).
  rewrite (each_doc _ _ (fun l => state0 <$> l) []); [|done|intros a st b E; by eapply walk_state_doc]. nx.
  rewrite zip_fmap, (each_doc _ _ (fun l => l) []); [|done|intros a st b E; by eapply resolve_arms_doc]. nx.
  rewrite find_name_unique by done. rewrite fail_if_false; [done|]. apply (idx_in _ _ Hi). unfold P4_MAX_PARSE_STATES in *. lia.
Qed.

(** ** The deparser, RDMA metadata and externs *)
Lemma walk_deparser_doc m :
  obj_key "deparsers" m = Some (JArr [obj [("order", arr (header_name prog) (pg_deparse_order prog))]%string]) ->
  p4_walk_deparser p (obj m) = inr (p <| pg_deparse_order := pg_deparse_order prog |>).
Proof.
  intros Hm. destruct (po_deparse _ Hok) as [Hd Hnd]. unfold p4_walk_deparser. erewrite get_array_lit; [|done|cbn; lia]. nx. rd.
  erewrite get_array_arr; [|reflexivity|]. 2: { pose proof (distinct_count _ _ Hnd Hd). pose proof (po_count _ Hok). unfold P4_MAX_HEADERS, P4_MAX_DEPARSE_ORDER in *. lia. }
  nx. rewrite (each_doc _ _ (fun l => l) []); [done|done|]. intros a h b E. pose proof (split_Forall _ _ _ _ _ Hd E) as Hh. unfold p4_walk_emit, header_name.
  rewrite str_val_name by by apply header_name_ok. nx. destruct (find_header_doc h Hh) as [-> Hi]. rewrite fail_if_false by done.
  rewrite fail_if_false; [done|]. apply bool_decide_eq_false_2. rewrite E in Hnd. apply NoDup_app in Hnd as (_ & Hnd & _). intros Hin. apply (Hnd h Hin). by left.
Qed.
Lemma rdma_doc : pg_deparse_order p = pg_deparse_order prog ->
  pg_has_rdma_metadata p = false -> pg_rdma_opcode p = inhabitant -> pg_rdma_qp_num p = inhabitant -> pg_rdma_length p = inhabitant ->
  pg_rdma_imm_data p = inhabitant -> pg_rdma_rkey p = inhabitant ->
  p4_resolve_rdma_metadata p = inr (p <| pg_rdma_opcode := pg_rdma_opcode prog |> <| pg_rdma_qp_num := pg_rdma_qp_num prog |> <| pg_rdma_length := pg_rdma_length prog |>
    <| pg_rdma_imm_data := pg_rdma_imm_data prog |> <| pg_rdma_rkey := pg_rdma_rkey prog |> <| pg_has_rdma_metadata := pg_has_rdma_metadata prog |>).
Proof.
  intros Hd E1 E2 E3 E4 E5 E6. pose proof (lo_rdma _ Hlo) as H. unfold rdma_loadable in H. unfold p4_resolve_rdma_metadata. rewrite Hheaders. destruct (list_find _ _) as [[h hd]|].
  - destruct H as (-> & Ho & H1 & H2 & H3 & H4 & H5). rewrite Hd, fail_if_false by by apply bool_decide_eq_false_2.
    by rewrite (arch_doc _ _ _ _ H1), (arch_doc _ _ _ _ H2), (arch_doc _ _ _ _ H3), (arch_doc _ _ _ _ H4), (arch_doc _ _ _ _ H5).
  - destruct H as (-> & -> & -> & -> & -> & ->). destruct p. cbn in *. by subst.
Qed.
Lemma walk_externs_doc m : obj_key "extern_instances" m = Some (arr extern_doc (pg_externs prog)) -> p4_walk_externs p (obj m) = inr (p <| pg_externs := pg_externs prog |>).
Proof.
  intros Hm. destruct (lo_externs _ Hlo) as (Hn & Hl & Ht). unfold p4_walk_externs. rewrite get_obj, Hm. erewrite get_array_arr by done. nx.
  rewrite (each_doc _ _ (fun l => l) []); [done|done|]. intros a x b E. rewrite E in Hn. apply named_split in Hn as (Hn & Hi & Hu). pose proof (split_Forall _ _ _ _ _ Ht E) as Hx.
  unfold p4_walk_extern, extern_doc. rd. cbn [extern_types list_find]. rewrite decide_True by done. cbn [fmap option_fmap option_map snd]. nx. unfold p4_get_array.
  rewrite get_obj. cbn [obj_key String.eqb Ascii.eqb Bool.eqb]. rewrite fail_if_false by done. rewrite Hu. destruct x. cbn in *. by subst.
Qed.

(** ** Actions *)
Section actions.
Hypothesis Hexterns : pg_externs p = pg_externs prog.
Lemma walk_operand_doc n o : (n <= P4_MAX_RUNTIME_ARGS)%nat -> operand_ok prog n o -> operand_loadable prog o -> p4_walk_operand p n (operand_doc prog o) = inr o.
Proof.
  intros Hn. destruct o as [r|len imm|i|i]; intros Hop Hol; unfold p4_walk_operand, operand_doc; cbn in Hop, Hol; rd.
  - rewrite pair_doc by done. nx. by rewrite ref_resolve.
  - by rewrite hexstr_read.
  - cbn [int_of]. unfold json_object_get_int64, P4_MAX_RUNTIME_ARGS in *. rewrite Z.min_l by lia. nx. rewrite fail_if_false; [done|]. apply orb_false_iff, conj; [apply Z.ltb_ge|apply Z.leb_gt]; lia.
  - destruct (lo_externs _ Hlo) as ((Hnd & _ & Hnm) & Hl & _). rewrite str_val_name by (by destruct (elt_Forall _ _ _ Hnm Hop)). nx. rewrite Hexterns, find_name_unique by done.
    rewrite fail_if_false; [done|]. apply (idx_in _ _ Hop). unfold P4_MAX_EXTERNS in *. lia.
Qed.
Lemma walk_operands_doc n os : (n <= P4_MAX_RUNTIME_ARGS)%nat -> Forall (operand_ok prog n) os -> Forall (operand_loadable prog) os ->
  p4_walk_operands p n (operand_doc prog <$> os) = inr os.
Proof.
  intros Hn Ho Hl. unfold p4_walk_operands. apply (each_doc _ _ (fun l => l)); [done|]. intros a o b E.
  by rewrite walk_operand_doc; [|done|exact (split_Forall _ _ _ _ _ Ho E)|exact (split_Forall _ _ _ _ _ Hl E)].
Qed.
Lemma check_write_doc n o os : Forall (operand_ok prog n) os -> is_field o = true -> Forall (fun o => is_extern o = false) os ->
  (forall len imm, OPD_HEXSTR len imm ∈ os -> be_bit_length imm <= fd_bits (field_of prog (opd_field o))) -> p4_check_write p (o :: os) = inr tt.
Proof.
  intros Ho Hf He Hw. unfold p4_check_write. cbn [lookup_total list_lookup_total tail]. rewrite Hf, fail_if_false by done. unfold fail_if.
  rewrite existsb_none; [done|]. apply Forall_forall. intros x Hx. rewrite Forall_forall in He. specialize (He x Hx). destruct x as [r|len imm|i|i]; try done.
  rewrite bits_same. unfold p4_field_bits. apply Z.ltb_ge. by eapply Hw.
Qed.
Lemma walk_row_doc n prims pr row : (n <= P4_MAX_RUNTIME_ARGS)%nat ->
  snd <$> list_find (fun r => pt_name r = chars (prim_op pr)) p4_primitives = Some row -> bool_decide (name_ok (chars (prim_op pr))) = true ->
  (pt_min_params row <= length (pr_params pr) <= pt_max_params row)%nat -> (pt_max_params row <= P4_MAX_PRIM_PARAMS)%nat ->
  pt_kind row = pr_kind pr -> pt_method row = pr_method pr -> Forall (operand_ok prog n) (pr_params pr) -> Forall (operand_loadable prog) (pr_params pr) ->
  match pr_kind pr with PRIM_DROP | PRIM_NOP => pr_params pr = [] | PRIM_EXTERN => p4_check_call p row (pr_params pr) = inr tt | _ => p4_check_write p (pr_params pr) = inr tt end ->
  p4_walk_primitive p n prims (prim_doc prog pr) = inr (prims ++ [pr]).
Proof.
  intros Hn Hrow Hw%word_name Hlen Hmax Hk Hm Ho Hl Hc. unfold p4_walk_primitive, prim_doc. rd. rewrite Hrow. nx. rd.
  rewrite length_fmap, fail_if_false by (rewrite !bool_decide_eq_false_2 by lia; done). rewrite Hk, Hm, walk_operands_doc by done. nx.
  destruct pr as [kind method params]. cbn [pr_kind pr_method pr_params] in *. destruct kind; try rewrite Hc; done.
Qed.
Ltac row := eapply walk_row_doc; [done|by vm_compute|by vm_compute|cbn; lia|cbn; unfold P4_MAX_PRIM_PARAMS; lia|done|done|done|done|].
Lemma walk_primitive_doc n prims pr : (n <= P4_MAX_RUNTIME_ARGS)%nat -> prim_ok prog n pr -> prim_loadable prog pr ->
  p4_walk_primitive p n prims (prim_doc prog pr) = inr (prims ++ [pr]).
Proof.
  intros Hn [Hops Hk] [Hlp Hl]. destruct pr as [kind method params]. cbn [pr_kind pr_method pr_params] in *.
  destruct kind.
  - destruct Hk as (d & o & -> & Hd & Ho), Hl as [-> Hl]. apply Forall_cons in Hops as Hops'.
    row. cbn. eapply check_write_doc; [apply Hops'|done|by apply Forall_singleton|done].
  - destruct Hk as (d & o & -> & Hd & Ho & Hlen), Hl as [-> Hl]. apply Forall_cons in Hops as Hops'.
    destruct o as [|a [|b [|? ?]]]; cbn in Hlen; try lia; row; cbn; (eapply check_write_doc; [apply Hops'|done..]).
  - destruct Hk as (d & o & -> & Hd & Ho & Hlen), Hl as [-> Hl]. apply Forall_cons in Hops as Hops'.
    destruct o as [|a [|b [|? ?]]]; cbn in Hlen; try lia; row; cbn; (eapply check_write_doc; [apply Hops'|done..]).
  - subst. by row.
  - subst. by row.
  - destruct Hk as (i & args & -> & Ha & _), Hl as [Hx [[-> Hlen]|[-> Hlen]]]; cbn in Hx.
    + destruct args as [|a [|? ?]]; cbn in Hlen; try lia. row. cbn. unfold p4_check_call. cbn. rewrite Hexterns, Hx. cbn. apply Forall_cons in Ha as [Ha _]. by rewrite Ha.
    + destruct args as [|a [|b [|? ?]]]; cbn in Hlen; try lia. row. cbn. unfold p4_check_call. cbn. rewrite Hexterns, Hx. cbn. apply Forall_cons in Ha as [Ha [Hb _]%Forall_cons]. by rewrite Ha, Hb.
Qed.
Lemma walk_action_doc acts a b : named ac_name ac_id (acts ++ a :: b) -> action_ok prog a -> action_loadable prog a ->
  p4_walk_action p acts (action_doc prog a) = inr (acts ++ [a]).
Proof.
  intros (Hn & Hi & Hu)%named_split (Hr & Hlr & Hp) (Hlp & Hpl). unfold p4_walk_action, action_doc. rd. rewrite Hu. nx. rd.
  rewrite (each_doc _ _ (fun l => l) []); [|done|].
  2: { intros o x b' E. pose proof (split_Forall _ _ _ _ _ Hr E) as Hx. unfold p4_walk_runtime, P4_MAX_ENTRY_BYTES, P4_MAX_FIELD_BITS in *. rd1. cbn in Hx. 
    erewrite get_u32_int by first [reflexivity|lia]. nx. rewrite fail_if_false; [done|]. apply Z.ltb_ge. lia. }
  nx. rd. rewrite (each_doc _ _ (fun l => l) []); [by destruct a|done|]. intros o x b' E.
  apply walk_primitive_doc; [done|exact (split_Forall _ _ _ _ _ Hp E)|exact (split_Forall _ _ _ _ _ Hpl E)].
Qed.
Lemma walk_actions_doc m : obj_key "actions" m = Some (arr (action_doc prog) (pg_actions prog)) -> p4_walk_actions p (obj m) = inr (p <| pg_actions := pg_actions prog |>).
Proof.
  intros Hm. destruct (lo_actions _ Hlo) as (Hn & Hl & Ha). unfold p4_walk_actions. erewrite get_array_arr by done. nx.
  rewrite (each_doc _ _ (fun l => l) []); [done|done|]. intros acts a b E.
  apply (walk_action_doc _ _ b); [by rewrite <-E|exact (split_Forall _ _ _ _ _ (po_actions _ Hok) E)|exact (split_Forall _ _ _ _ _ Ha E)].
Qed.
End actions.
End same.
End walks.
