(* ===== verification/P4JsonRound.v ===== *)
(** * Every loadable program has a document

    The conditions, the tables and the pipelines of a document are read back
    as they were written, and so is the whole. *)
From S2P Require Import P4Ex.
From S2P Require Export P4JsonDoc.
From stdpp Require Import strings.
#[local] Open Scope Z_scope.

Lemma op_name_row row : row ∈ p4_expr_ops ->
  chars (op_name (eo_op row)) = eo_name row /\ name_ok (eo_name row) /\ snd <$> list_find (fun r => eo_name r = eo_name row) p4_expr_ops = Some row.
Proof.
  intros Hrow. assert (Forall (fun row => chars (op_name (eo_op row)) = eo_name row /\ bool_decide (name_ok (eo_name row)) = true /\
    snd <$> list_find (fun r => eo_name r = eo_name row) p4_expr_ops = Some row) p4_expr_ops) as H.
  { repeat apply Forall_cons_2; [..|apply Forall_nil_2]; split_and!; by vm_compute. }
  rewrite Forall_forall in H. destruct (H row Hrow) as (H1 & H2%bool_decide_eq_true & H3). done.
Qed.
Section conditions.
Context (prog p : p4_program) (Hlo : loadable prog).
Hypothesis Htypes : pg_header_types p = pg_header_types prog.
Hypothesis Hheaders : pg_headers p = pg_headers prog.

Lemma side_operand_type base s : p4_expr_type_of (side_operand base s) = side_type s.
Proof. by destruct s. Qed.
Definition absent (o : p4_expr_operand) : bool := match o with EO_NONE => true | _ => false end.
Lemma side_absent base s : side_typed prog s -> absent (side_operand base s) = bool_decide (side_type s = ET_NONE).
Proof. destruct s as [|e|o]; [done..|]. by destruct o. Qed.
Lemma typed_check row l r b b' : row ∈ p4_expr_ops -> side_typed prog l -> side_typed prog r -> typed row (side_type l) (side_type r) ->
  (if eo_unary row then negb (absent (side_operand b l)) || absent (side_operand b' r) else absent (side_operand b l) || absent (side_operand b' r)) = false /\
  p4_check_expr_types row (side_operand b l) (side_operand b' r) = inr tt.
Proof.
  intros Hrow Hl Hr Ht. rewrite !side_absent by done. unfold p4_check_expr_types. rewrite !side_operand_type. unfold typed in Ht.
  generalize dependent (side_type l). generalize dependent (side_type r). intros tr tl Ht.
  destruct (expr_row_cases row Hrow) as [[Hu Hc]|[Hu Hc]]; rewrite Hu in *; destruct_or! Hc; rewrite Hc in *; destruct_and! Ht; subst; try done; by destruct tr.
Qed.
Lemma leaf_doc rec rec' o acc : leaf_ok prog o -> p4_walk_expr_operand p rec (side_doc prog rec' o) acc = inr (o, acc).
Proof.
  destruct o as [|i|r|n imm|h|b]; intros Ho; cbn in Ho; try done; unfold p4_walk_expr_operand, side_doc; cbn [is_null obj]; fold obj; rd.
  - rewrite (pair_doc prog Hlo) by done. nx. by rewrite (ref_resolve prog Hlo p).
  - by rewrite hexstr_pos_read.
  - unfold header_name. rewrite str_val_name by by apply header_name_ok. nx. destruct (find_header_doc prog Hlo p Hheaders h Ho) as [-> Hi]. by rewrite fail_if_false.
Qed.
(** [full] has the expression where it is read from, [acc] what was read. *)
Definition expr_reads (e : expr) : Prop := forall levels pre post acc full,
  full = pre ++ expr_nodes (length pre) e ++ post -> length acc = length pre -> expr_typed prog e -> (expr_depth e <= levels)%nat ->
  (length acc + expr_size e <= P4_MAX_EXPR_NODES)%nat ->
  p4_walk_expr p levels (node_doc prog levels full (Z.of_nat (length pre))) acc = inr (Z.of_nat (length acc), acc ++ expr_nodes (length acc) e).
Definition side_reads (s : expr_side) : Prop := forall levels pre post acc full,
  full = pre ++ side_nodes (length pre) s ++ post -> length acc = length pre -> side_typed prog s -> (side_depth s <= levels)%nat ->
  (length acc + side_size s <= P4_MAX_EXPR_NODES)%nat ->
  p4_walk_expr_operand p (p4_walk_expr p levels) (side_doc prog (node_doc prog levels full) (side_operand (length pre) s)) acc =
    inr (side_operand (length acc) s, acc ++ side_nodes (length acc) s).
Lemma side_reads_at s levels base pre post acc full : side_reads s -> length pre = base -> length acc = base ->
  full = pre ++ side_nodes base s ++ post -> side_typed prog s -> (side_depth s <= levels)%nat -> (base + side_size s <= P4_MAX_EXPR_NODES)%nat ->
  p4_walk_expr_operand p (p4_walk_expr p levels) (side_doc prog (node_doc prog levels full) (side_operand base s)) acc = inr (side_operand base s, acc ++ side_nodes base s).
Proof. intros Hs <- Hacc Hfull Ht Hd Hl. rewrite (Hs levels pre post acc full) by (done || lia). by rewrite Hacc. Qed.
Lemma expr_reads_node row l r : side_reads l -> side_reads r -> expr_reads (Expr row l r).
Proof.
  intros IHl IHr levels pre post acc full Hfull Hlen (Hrow & Htt & Hl & Hr) Hd Hs. cbn [expr_depth expr_size expr_nodes] in *.
  destruct levels as [|levels]; [lia|]. destruct (op_name_row row Hrow) as (Hn & Hno & Hf). set (base := length pre) in *. rewrite Hlen in *.
  set (node := P4ExprNode (eo_op row) (side_operand (S base) l) (side_operand (S base + side_size l) r)) in *.
  assert (elt full (Z.of_nat base) = node) as Hnode by (rewrite Hfull; cbn [app]; unfold elt; by rewrite Nat2Z.id, list_lookup_total_middle).
  cbn [node_doc p4_walk_expr]. rewrite Hnode. change (en_op node) with (eo_op row). rewrite fail_if_false by (apply bool_decide_eq_false_2; lia). unfold p4_get_obj. rd. cbn [is_object obj]. fold obj. nx.
  erewrite get_str_name; [|reflexivity|by rewrite Hn]. nx. rewrite Hn, Hf. nx. cbn [default from_option id].
  change (en_left node) with (side_operand (S base) l). change (en_right node) with (side_operand (S base + side_size l) r).
  rewrite (side_reads_at l levels (S base) (pre ++ [node]) (side_nodes (S base + side_size l) r ++ post)); [|done|rewrite length_app; cbn; lia|rewrite length_app; cbn; lia| |done|lia|lia].
  2: { rewrite Hfull. cbn. by rewrite <-!(assoc_L (++)). }
  nx. destruct nodes_size as [_ Hsz].
  rewrite (side_reads_at r levels (S base + side_size l) (pre ++ node :: side_nodes (S base) l) post); [|done|rewrite length_app; cbn; rewrite Hsz; lia|rewrite !length_app; cbn; rewrite Hsz; lia| |done|lia|lia].
  2: { rewrite Hfull. cbn. by rewrite <-!(assoc_L (++)). }
  nx. destruct (typed_check row l r (S base) (S base + side_size l) Hrow Hl Hr Htt) as [Ha Hc]. rewrite fail_if_false by exact Ha.
  cbn [en_left en_right]. rewrite Hc. nx. rewrite Hlen. f_equal. f_equal.
  replace (((acc ++ [P4ExprNode (eo_op row) EO_NONE EO_NONE]) ++ side_nodes (S base) l) ++ side_nodes (S base + side_size l) r)
    with (acc ++ P4ExprNode (eo_op row) EO_NONE EO_NONE :: side_nodes (S base) l ++ side_nodes (S base + side_size l) r) by (by rewrite <-!app_assoc).
  rewrite insert_app_r_alt, Hlen, Nat.sub_diag by lia. done.
Qed.
Lemma exprs_read : (forall e, expr_reads e) /\ (forall s, side_reads s).
Proof.
  apply (expr_both_ind expr_reads side_reads).
  - intros row l Hl r Hr. by apply expr_reads_node.
  - intros levels pre post acc full _ _ _ _ _. cbn. by rewrite app_nil_r.
  - intros e IH levels pre post acc full Hfull Hlen Ht Hd Hs. cbn [side_operand side_doc side_nodes side_typed side_depth side_size] in *. unfold p4_walk_expr_operand.
    destruct levels as [|levels]; [by destruct e; cbn in Hd; lia|]. specialize (IH (S levels) pre post acc full Hfull Hlen Ht Hd Hs). cbn [node_doc] in IH |- *.
    cbn [is_null obj]. fold obj. rd. rewrite IH. done.
  - intros o levels pre post acc full _ _ Ho _ _. cbn [side_operand side_nodes]. rewrite app_nil_r. by apply leaf_doc.
Qed.
(** A condition is read back. *)
Lemma walk_condition_doc nodes : expr_loadable prog nodes -> p4_walk_expr p expr_levels (node_doc prog expr_levels nodes 0) [] = inr (0, nodes).
Proof.
  intros (e & -> & Ht & Hd & Hs). apply (proj1 exprs_read e expr_levels [] [] []); [by rewrite app_nil_r|done|done|unfold expr_levels; lia|cbn; lia].
Qed.
End conditions.

(** ** Tables *)
Section tables.
Context (prog p : p4_program) (Hlo : loadable prog).
Hypothesis Htypes : pg_header_types p = pg_header_types prog.
Hypothesis Hheaders : pg_headers p = pg_headers prog.
Hypothesis Hactions : pg_actions p = pg_actions prog.

Lemma kind_word_ok k : exists w, kind_word k = word w /\ name_ok (chars w) /\ p4_match_kind_of (chars w) = Some k.
Proof. destruct k; eexists; (split_and!; [reflexivity|by apply word_name|by vm_compute]). Qed.
Definition is_lpm (k : p4_table_key) : Prop := tk_match_type k = MATCH_LPM.
#[local] Instance is_lpm_dec k : Decision (is_lpm k) := _.
Definition lpm_of (l : list p4_table_key) : Z := match list_find is_lpm l with Some (i, _) => Z.of_nat i | None => P4_IDX_NONE end.
Definition wider (kk k : p4_match_kind) : p4_match_kind := if kind_rank kk <? kind_rank k then k else kk.
Definition kind_of (l : list p4_table_key) : p4_match_kind := foldl wider MATCH_EXACT (tk_match_type <$> l).
Lemma lpm_of_app a k : (is_lpm k -> Forall (fun k => ~ is_lpm k) a) -> lpm_of (a ++ [k]) = if bool_decide (tk_match_type k = MATCH_LPM) then Z.of_nat (length a) else lpm_of a.
Proof.
  intros Ha. unfold lpm_of. destruct (list_find is_lpm a) as [[i x]|] eqn:E.
  - rewrite (list_find_app_l is_lpm a [k] i x E). case_bool_decide as Hk; [|done]. apply list_find_Some in E as (E & Hx & _). specialize (Ha Hk). rewrite Forall_lookup in Ha. by destruct (Ha _ _ E).
  - rewrite (list_find_app_r is_lpm a [k] E). cbn [list_find]. case_bool_decide as Hk; [rewrite decide_True by done|rewrite decide_False by done]; cbn; [lia|done].
Qed.
Lemma literal16 b : bytes16_ok b -> literal 16 b.
Proof. intros [Hl Hb]. split_and!; [done..|lia|lia|]. pose proof (be_range b Hb) as H. rewrite Hl in H. apply H. Qed.
Lemma walk_key_mask_doc m k : obj_key "mask" m = Some (if tk_has_mask k then hexstr_doc 16 (tk_mask k) else JNull) -> key_loadable prog k ->
  p4_walk_key_mask (obj m) (fd_bits (field_of prog (tk_field k))) = inr (if tk_has_mask k then Some (tk_mask k) else None).
Proof.
  intros Hm [_ Hk]. unfold p4_walk_key_mask, get_nonnull. rewrite get_obj, Hm. destruct (tk_has_mask k); [|done]. destruct Hk as [Hb Hl]. cbn [mbind option_bind is_null hexstr_doc].
  rewrite hexstr_pos_read by by apply literal16. nx. rewrite fail_if_false; [done|]. apply Z.ltb_ge. lia.
Qed.
Lemma walk_table_key_doc a k : (is_lpm k -> Forall (fun k => ~ is_lpm k) a) -> key_ok prog k -> key_loadable prog k ->
  p4_walk_table_key p (a, lpm_of a, kind_of a) (key_doc prog k) = inr (a ++ [k], lpm_of (a ++ [k]), kind_of (a ++ [k])).
Proof.
  intros Hlpm (_ & Hbits & _) Hk. pose proof Hk as [Hr Hmask]. unfold p4_walk_table_key, key_doc. destruct (kind_word_ok (tk_match_type k)) as (w & -> & Hw & Hkw). rd. rewrite Hkw. nx.
  rewrite fail_if_false. 2: { case_bool_decide as Hkl; [|done]. specialize (Hlpm Hkl). unfold lpm_of. rewrite (proj2 (list_find_None _ _)) by done. done. }
  rd. rewrite (pair_doc prog Hlo) by done. nx. rewrite (ref_resolve prog Hlo p) by done. nx. rewrite (bits_same prog p) by done. unfold p4_field_bits. rewrite fail_if_false by (apply Z.ltb_ge; lia).
  erewrite walk_key_mask_doc by done. nx. rewrite lpm_of_app by done. unfold kind_of. rewrite fmap_app, foldl_app. f_equal. f_equal. f_equal. f_equal. f_equal.
  destruct k as [kt has f m]. cbn in *. destruct has; [done|]. by rewrite Hmask.
Qed.
Lemma lpm_of_ok t : kinds_ok t -> table_loadable prog t -> lpm_of (tb_key t) = tb_lpm_key t.
Proof.
  intros (_ & Hk & _) (_ & _ & _ & _ & Hl & _). unfold lpm_of. destruct (list_find is_lpm (tb_key t)) as [[i k]|] eqn:E.
  - apply list_find_Some in E as (Hi & Hlpm & _). apply Hk. rewrite Hi. exact (f_equal Some Hlpm).
  - apply list_find_None in E. destruct Hl as [->|[Hl _]]; [done|]. destruct (tb_key t !! Z.to_nat (tb_lpm_key t)) as [k|] eqn:Ek; [|done]. injection Hl as Hl.
    rewrite Forall_lookup in E. by destruct (E _ _ Ek).
Qed.
Lemma kind_of_app l k : kind_of (l ++ [k]) = wider (kind_of l) (tk_match_type k).
Proof. unfold kind_of. by rewrite fmap_app, foldl_app. Qed.
Lemma kind_of_max l : Forall (fun k => kind_rank (tk_match_type k) <= kind_rank (kind_of l)) l /\ (kind_of l = MATCH_EXACT \/ exists k, k ∈ l /\ tk_match_type k = kind_of l).
Proof.
  induction l as [|k l [IH1 IH2]] using rev_ind; [split; [constructor|by left]|]. rewrite kind_of_app. unfold wider.
  destruct (Z.ltb_spec (kind_rank (kind_of l)) (kind_rank (tk_match_type k))) as [Hlt|Hge].
  - split; [|right; exists k; split; [set_solver|done]]. apply Forall_app, conj, Forall_singleton; [|lia]. eapply Forall_impl; [exact IH1|]. intros x Hx. cbn in Hx. lia.
  - split; [by apply Forall_app, conj, Forall_singleton|]. destruct IH2 as [IH2|(x & Hx & IH2)]; [by left|]. right. exists x. split; [set_solver|done].
Qed.
Lemma kind_of_ok t : kinds_ok t -> table_loadable prog t -> tb_match_type t = kind_of (tb_key t).
Proof.
  intros (Hk & _ & _) (_ & _ & _ & Hm & _). destruct (kind_of_max (tb_key t)) as [H1 H2]. rewrite Forall_forall in Hk, H1.
  assert (kind_rank (tb_match_type t) <= kind_rank (kind_of (tb_key t))).
  { destruct Hm as [->|(k & Hin & <-)]; [by destruct (kind_of (tb_key t))|by apply H1]. }
  assert (kind_rank (kind_of (tb_key t)) <= kind_rank (tb_match_type t)).
  { destruct H2 as [->|(k & Hin & <-)]; [by destruct (tb_match_type t)|by apply Hk]. }
  destruct (tb_match_type t), (kind_of (tb_key t)); cbn in *; done || lia.
Qed.
Lemma act_find a : act_idx_ok prog a -> name_ok (aname prog a) /\ find_name ac_name (pg_actions prog) (aname prog a) = a /\ (a =? P4_IDX_NONE) = false.
Proof.
  intros Ha. destruct (lo_actions _ Hlo) as ((Hnd & _ & Hn) & Hl & _). split_and!; [by destruct (elt_Forall _ _ _ Hn Ha)|by apply find_name_unique|].
  apply (idx_in _ _ Ha). unfold P4_MAX_ACTIONS in *. lia.
Qed.
Lemma walk_table_action_doc acts a : act_idx_ok prog a -> p4_walk_table_action p acts (JStr (aname prog a)) = inr (acts ++ [a]).
Proof. intros (Hn & Hf & Hi)%act_find. unfold p4_walk_table_action. rewrite str_val_name by done. nx. rewrite Hactions, Hf. by rewrite fail_if_false. Qed.
Lemma find_id a : act_idx_ok prog a -> list_find (fun x => ac_id x = ac_id (elt (pg_actions prog) a)) (pg_actions prog) = Some (Z.to_nat a, elt (pg_actions prog) a).
Proof.
  intros Ha. destruct (lo_actions _ Hlo) as ((_ & Hnd & _) & _). apply list_find_Some. split_and!; [by apply elt_lookup|done|]. intros j y Hj Hlt He.
  assert (j = Z.to_nat a); [|lia]. eapply (NoDup_lookup _ _ _ _ Hnd); rewrite list_lookup_fmap; [by rewrite Hj|]. rewrite (elt_lookup _ _ Ha). cbn. by rewrite He.
Qed.
Lemma default_data_doc bits data : Forall2 (fun b d => literal d.1 d.2 /\ be_bit_length d.2 <= b) bits data ->
  forall acc, each p4_walk_default_arg acc (zip bits ((fun d => hexstr_doc d.1 d.2) <$> data)) = inr (acc ++ data).
Proof.
  induction 1 as [|b [n imm] bits data [Hl Hb] _ IH]; intros acc; [cbn; by rewrite app_nil_r|]. cbn [fst snd fmap list_fmap zip_with each] in *. cbn [p4_walk_default_arg].
  rewrite hexstr_pos_read by done. nx. rewrite fail_if_false by (apply Z.ltb_ge; lia). nx. rewrite IH. by rewrite <-app_assoc.
Qed.
Lemma walk_default_doc m t : obj_key "default_entry" m = Some (default_doc prog t) -> default_ok prog t -> table_loadable prog t -> Forall (act_idx_ok prog) (tb_actions t) ->
  p4_walk_default p (obj m) (tb_actions t) = inr (tb_default_action t, tb_default_data t).
Proof.
  intros Hm Hd (_ & _ & _ & _ & _ & _ & _ & _ & Hdata) Hacts. unfold p4_walk_default, p4_get_obj. rewrite get_obj, Hm. unfold default_doc. nx.
  destruct Hd as [[Hn Hnil]|(Hin & Hlen & _)]; [by rewrite Hn, Hnil, Z.eqb_refl|].
  pose proof (proj1 (Forall_forall _ _) Hacts _ Hin) as Ha. destruct (act_find _ Ha) as (_ & _ & Hi). rewrite Hi. nx. cbn [is_object obj]. fold obj.
  rewrite decide_False in Hdata by (by apply Z.eqb_neq). destruct (lo_actions _ Hlo) as ((_ & _ & Hids) & _). destruct (elt_Forall _ _ _ Hids Ha) as [_ Hid].
  rd. rewrite Hactions, (find_id _ Ha). nx. rewrite Z2Nat.id by apply Ha. rewrite fail_if_false by (by rewrite bool_decide_eq_true_2).
  erewrite get_array_arr; [|reflexivity|]. 2: { rewrite Hlen. by destruct (elt_Forall _ _ _ (po_actions _ (lo_ok _ Hlo)) Ha) as (_ & ? & _). }
  nx. rewrite fail_if_false by (rewrite bool_decide_eq_true_2; [done|by rewrite length_fmap]). by rewrite default_data_doc.
Qed.
Lemma lpm_once t a k b : kinds_ok t -> tb_key t = a ++ k :: b -> is_lpm k -> Forall (fun k => ~ is_lpm k) a.
Proof.
  intros (_ & Hk & _) E Hlpm. apply Forall_lookup. intros i x Hx Hxl. apply lookup_lt_Some in Hx as Hlt.
  pose proof (Hk (length a) ltac:(rewrite E, list_lookup_middle by done; exact (f_equal Some Hlpm))).
  pose proof (Hk i ltac:(rewrite E, lookup_app_l, Hx by done; exact (f_equal Some Hxl))). lia.
Qed.
(** A table as the first pass leaves it. *)
Definition table0 (t : p4_table) : p4_table := t <| tb_next := replicate (length (tb_actions t)) P4_IDX_NONE |> <| tb_base_default_next := P4_IDX_NONE |>.
Lemma walk_table_doc pl n t total : table_ok prog n t -> table_loadable prog t -> 0 <= total -> total + tb_max_size t <= P4_MAX_TOTAL_ENTRIES ->
  p4_walk_table p total (table_doc prog pl t) = inr (table0 t, total + tb_max_size t).
Proof.
  intros (Hk & Hlk & Hkinds & Hacts & _ & _ & _ & Hd & Hms) Hl Ht0 Ht. pose proof Hl as (Hn & Hi & Hkl & _ & _ & Hla & _).
  unfold p4_walk_table, table_doc. destruct (kind_word_ok (tb_match_type t)) as (w & -> & Hw & Hkw). rd. rewrite Hkw. nx. unfold get_nonnull, p4_get_bool. rd.
  rewrite fail_if_false by (apply Z.ltb_ge; lia). rewrite (each_doc _ _ (fun l => (l, lpm_of l, kind_of l)) ([], P4_IDX_NONE, MATCH_EXACT)); [|done|].
  2: { intros a k b E. apply walk_table_key_doc; [|exact (split_Forall _ _ _ _ _ Hk E)|exact (split_Forall _ _ _ _ _ Hkl E)]. by eapply lpm_once. }
  nx. rewrite fail_if_false by (rewrite bool_decide_eq_true_2; [done|by apply kind_of_ok]). rewrite fail_if_false by (apply bool_decide_eq_false_2; rewrite length_fmap; lia).
  rewrite (each_doc _ _ (fun l => l) []); [|done|intros a x b E; apply walk_table_action_doc; exact (split_Forall _ _ _ _ _ Hacts E)].
  nx. erewrite walk_default_doc by done. nx. rewrite lpm_of_ok by done. by destruct t.
Qed.

(** Where a node leads.  [pl0] has the names of [pl]. *)
Section next.
Variables pl pl0 : p4_pipeline.
Hypothesis Hnodes : pl_nodes pl0 = pl_nodes pl.
Hypothesis Hnames : forall n, node_name pl0 n = node_name pl n.
Hypothesis Hdistinct : NoDup (node_name pl <$> pl_nodes pl).
Hypothesis Hok : Forall (fun n => name_ok (node_name pl n)) (pl_nodes pl).
Hypothesis Hcount : (length (pl_nodes pl) <= P4_MAX_NODES)%nat.
Lemma find_node_doc i : 0 <= i < Z.of_nat (length (pl_nodes pl)) -> p4_find_node pl0 (node_name pl (elt (pl_nodes pl) i)) = i /\ (i =? P4_IDX_NONE) = false.
Proof.
  intros Hi. split; [|apply (idx_in _ _ Hi); unfold P4_MAX_NODES in *; lia]. unfold p4_find_node. rewrite Hnodes, <-(list_fmap_id (pl_nodes pl)) at 1.
  rewrite (find_name_fmap _ (node_name pl)) by done. by apply find_name_unique.
Qed.
Lemma resolve_next_doc i : next_in (Z.of_nat (length (pl_nodes pl))) i -> p4_resolve_next pl0 (Some (pl_next pl i)) = inr i.
Proof.
  intros Hi. unfold p4_resolve_next, pl_next, next_doc. destruct Hi as [->|Hi]; [done|]. destruct (find_node_doc i Hi) as [Hf ->]. nx.
  rewrite str_val_name by (exact (elt_Forall _ _ _ Hok Hi)). nx. rewrite Hf. destruct (find_node_doc i Hi) as [_ ->]. done.
Qed.
Lemma member_names {A} (nm : A -> cstr) (f : A -> json) l x : x ∈ l -> (forall y, y ∈ l -> nm y = nm x -> y = x) -> member (nm x) ((fun y => (nm y, f y)) <$> l) = Some (f x).
Proof.
  induction l as [|y l IH]; [by intros ?%elem_of_nil|]. intros Hin Hinj. cbn [fmap list_fmap member]. case_bool_decide as He.
  - by rewrite (Hinj y (list_elem_of_here _ _) He).
  - apply IH; [|intros z Hz; apply Hinj; by right]. apply elem_of_cons in Hin as [->|]; done.
Qed.
Lemma act_inj a b : act_idx_ok prog a -> act_idx_ok prog b -> aname prog a = aname prog b -> a = b.
Proof. intros Ha Hb E. destruct (act_find a Ha) as (_ & Hfa & _), (act_find b Hb) as (_ & Hfb & _). congruence. Qed.
Lemma next_of_at t a x b : length (tb_next t) = length (tb_actions t) ->
  (forall i j a, tb_actions t !! i = Some a -> tb_actions t !! j = Some a -> tb_next t !!! i = tb_next t !!! j) -> tb_actions t = a ++ x :: b ->
  next_of t x = tb_next t !!! length a /\ tb_next t !! length a = Some (next_of t x).
Proof.
  intros Hlen Hsame E. assert (tb_actions t !! length a = Some x) as Hx by (by rewrite E, list_lookup_middle).
  assert (next_of t x = tb_next t !!! length a) as Hn.
  { unfold next_of. destruct (list_find_elem_of (fun y => y = x) (tb_actions t) x) as [[j y] Hj]; [by eapply list_elem_of_lookup_2|done|]. rewrite Hj.
    apply list_find_Some in Hj as (Hj & -> & _). cbn. rewrite (Hsame (length a) j x Hx Hj). apply lookup_lt_Some in Hj. rewrite (list_lookup_lookup_total_lt (tb_next t) j) by lia. done. }
  split; [done|]. rewrite Hn. apply list_lookup_lookup_total_lt. apply lookup_lt_Some in Hx. lia.
Qed.
Lemma walk_next_doc m t : obj_key "next_tables" m = Some (next_tables_doc prog pl t) -> obj_key "base_default_next" m = Some (pl_next pl (tb_base_default_next t)) ->
  table_ok prog (Z.of_nat (length (pl_nodes pl))) t -> table_loadable prog t -> p4_walk_next_tables p (obj m) pl0 (table0 t) = inr t.
Proof.
  intros Hm Hb (_ & _ & _ & Hacts & Hlen & Hnext & Hmiss & _) (_ & _ & _ & _ & _ & Hla & Hsame & Hhit & _). unfold p4_walk_next_tables, p4_get_obj. rewrite !get_obj, Hm, Hb. nx.
  unfold next_tables_doc. destruct (forallb _ (tb_next t)) eqn:Hall.
  - cbn [is_object obj]. fold obj. nx. set (keys := match obj _ with JObj m => m.*1 | _ => [] end). change keys with [chars "__HIT__"; chars "__MISS__"].
    replace (existsb is_hit_key [chars "__HIT__"; chars "__MISS__"]) with true by (by vm_compute). rewrite fail_if_false by (by vm_compute). rd.
    rewrite !resolve_next_doc; [| |done]. 2: { apply (proj1 (Forall_forall _ _) Hnext). apply list_elem_of_lookup_total_2. lia. }
    nx. f_equal. rewrite forallb_forall in Hall. assert (tb_next t = replicate (length (tb_actions t)) (tb_next t !!! 0%nat)) as Hrep.
    { rewrite <-Hlen. symmetry. apply replicate_as_Forall_2; [done|]. apply Forall_forall. intros x Hx%list_elem_of_In. apply Hall in Hx. lia. }
    destruct t. cbn in *. by rewrite <-Hrep.
  - cbn [is_object]. nx. rewrite <-list_fmap_compose. change (fst ∘ _) with (aname prog).
    assert (existsb is_hit_key (aname prog <$> remove_dups (tb_actions t)) = false) as ->.
    { apply existsb_none, Forall_fmap, Forall_forall. intros a Ha%(proj1 (elem_of_remove_dups _ _)). apply not_true_iff_false. intros Hk. destruct Hhit as [hit Hh]; [by exists a|].
      apply not_true_iff_false in Hall. apply Hall, forallb_forall. intros x Hx%list_elem_of_In. rewrite Hh in Hx |- *. apply elem_of_replicate in Hx as [-> Hn].
      rewrite lookup_total_replicate_2 by lia. apply Z.eqb_refl. }
    nx. rewrite fail_if_false by done. rewrite Hactions. change (tb_actions (table0 t)) with (tb_actions t).
    match goal with |- context [each ?f [] (tb_actions t)] => pose proof (each_doc f id (fun l => take (length l) (tb_next t)) [] (tb_actions t) eq_refl) as Hread end.
    rewrite list_fmap_id in Hread. rewrite Hread; clear Hread.
    2: { intros a x b E. cbn [json_object_object_get_ex id]. destruct (next_of_at t a x b Hlen Hsame E) as [Hn Hx].
      change (ac_name (elt (pg_actions prog) x)) with (aname prog x). rewrite (member_names (aname prog) (fun a => pl_next pl (next_of t a))); [|apply elem_of_remove_dups; rewrite E; set_solver|].
      2: { intros y Hy%(proj1 (elem_of_remove_dups _ _)). apply act_inj; [exact (proj1 (Forall_forall _ _) Hacts y Hy)|exact (split_Forall _ _ _ _ _ Hacts E)]. }
      nx. rewrite resolve_next_doc. 2: { apply (proj1 (Forall_forall _ _) Hnext). by eapply list_elem_of_lookup_2. }
      nx. rewrite length_app. cbn [length]. rewrite Nat.add_1_r. by rewrite (take_S_r _ _ _ Hx). }
    nx. rewrite fail_if_false. 2: { apply existsb_none, Forall_fmap, Forall_forall. intros a Ha%(proj1 (elem_of_remove_dups _ _)). cbn.
      destruct (act_find a (proj1 (Forall_forall _ _) Hacts a Ha)) as ([_ ->] & _). rewrite bool_decide_eq_true_2; [done|]. by apply (list_elem_of_fmap_2 (aname prog)). }
    rewrite resolve_next_doc by done. nx. rewrite <-Hlen, firstn_all. by destruct t.
Qed.
End next.
End tables.

(** ** Pipelines *)
Lemma find_node_absent q name : nodes_list q -> name ∉ node_names q -> p4_find_node q name = P4_IDX_NONE.
Proof.
  intros Hq Hn. rewrite <-nodes_named in Hn by done. unfold p4_find_node, find_name. rewrite (proj2 (list_find_None _ _)); [done|]. apply Forall_forall. intros x Hx <-.
  apply Hn, (list_elem_of_fmap_2 _ _ _ Hx).
Qed.
Lemma unique_doc pls slot x name : nodes_list x -> (name ∉ node_names x) ->
  (forall j q, j <> slot -> pls !! j = Some q -> nodes_list q /\ name ∉ node_names q) -> p4_check_node_unique (<[slot := x]> pls) name = inr tt.
Proof.
  intros Hx Hn Ho. unfold p4_check_node_unique, fail_if. rewrite existsb_none; [done|]. apply Forall_lookup. intros j q Hq. apply negb_false_iff, Z.eqb_eq.
  destruct (decide (j = slot)) as [->|Hj].
  - assert (slot < length pls)%nat by (apply lookup_lt_Some in Hq; by rewrite length_insert in Hq). rewrite list_lookup_insert_eq in Hq by done. injection Hq as <-. by apply find_node_absent.
  - rewrite list_lookup_insert_ne in Hq by done. destruct (Ho j q Hj Hq). by apply find_node_absent.
Qed.
Lemma ids_new {A} (id : A -> Z) a x b : NoDup (id <$> a ++ x :: b) -> existsb (fun y => id y =? id x) a = false.
Proof.
  rewrite fmap_app. intros (_ & H & _)%NoDup_app. apply existsb_none, Forall_forall. intros y Hy. apply Z.eqb_neq. intros He.
  apply (H (id y)); [by apply list_elem_of_fmap_2|rewrite He; by left].
Qed.
Lemma existsb_fmap {A B} (f : B -> bool) (g : A -> B) l : existsb f (g <$> l) = existsb (fun a => f (g a)) l.
Proof. induction l as [|a l IH]; [done|]. cbn. by rewrite IH. Qed.

Section pipeline.
Context (prog p : p4_program) (Hlo : loadable prog).
Hypothesis Htypes : pg_header_types p = pg_header_types prog.
Hypothesis Hheaders : pg_headers p = pg_headers prog.
Hypothesis Hactions : pg_actions p = pg_actions prog.
Variables (pls : list p4_pipeline) (slot : nat) (pl : p4_pipeline).
Hypothesis Hpok : pipeline_ok prog pl.
Hypothesis Hplo : pipeline_loadable prog pl.
Hypothesis Hdistinct : NoDup (node_names pl).
Hypothesis Hothers : forall j q, j <> slot -> pls !! j = Some q -> nodes_list q /\ forall n, n ∈ node_names pl -> n ∉ node_names q.
(** The pipeline once some of its tables and conditions are read. *)
Definition cond0 (c : p4_conditional) : p4_conditional := c <| cn_true_next := 0 |> <| cn_false_next := 0 |>.
Definition read (ts : list p4_table) (cs : list p4_conditional) : p4_pipeline :=
  P4Pipeline (pl_name pl) (pl_id pl) 0 ((NODE_TABLE <$> seqZ 0 (Z.of_nat (length ts))) ++ (NODE_CONDITIONAL <$> seqZ 0 (Z.of_nat (length cs)))) (table0 <$> ts) (cond0 <$> cs).
Lemma read_nodes ts cs : nodes_list (read ts cs).
Proof. unfold nodes_list, read. cbn [pl_nodes pl_tables pl_conditionals]. by rewrite !length_fmap. Qed.
Lemma read_names ts cs : node_names (read ts cs) = (tb_name <$> ts) ++ (cn_name <$> cs).
Proof. unfold node_names, read. cbn [pl_tables pl_conditionals]. by rewrite <-!list_fmap_compose. Qed.
Lemma read_table ts t : read (ts ++ [t]) [] = (read ts []) <| pl_nodes ::= fun ns => ns ++ [NODE_TABLE (Z.of_nat (length (pl_tables (read ts []))))] |> <| pl_tables ::= fun l => l ++ [table0 t] |>.
Proof. unfold read. cbn. rewrite length_app, Nat.add_comm, length_fmap. cbn [length Nat.add]. rewrite seqZ_S, !fmap_app, !app_nil_r. done. Qed.
Lemma read_cond ts cs c : read ts (cs ++ [c]) = (read ts cs) <| pl_nodes ::= fun ns => ns ++ [NODE_CONDITIONAL (Z.of_nat (length (pl_conditionals (read ts cs))))] |> <| pl_conditionals ::= fun l => l ++ [cond0 c] |>.
Proof. unfold read. cbn. rewrite length_app, Nat.add_comm, length_fmap. cbn [length Nat.add]. rewrite seqZ_S, !fmap_app, app_assoc. done. Qed.
Lemma walk_pl_table_doc total a t b : pl_tables pl = a ++ t :: b -> 0 <= total -> total + sumZ (tb_max_size <$> pl_tables pl) <= P4_MAX_TOTAL_ENTRIES ->
  p4_walk_pl_table p pls slot (read a [], total + sumZ (tb_max_size <$> a)) (table_doc prog pl t) = inr (read (a ++ [t]) [], total + sumZ (tb_max_size <$> a ++ [t])).
Proof.
  intros E Ht0 Ht. destruct Hpok as (_ & Hts & _), Hplo as (_ & _ & _ & Htl & Hids & _). unfold p4_walk_pl_table. change (is_object (table_doc prog pl t)) with true. nx. 
  assert (Forall (fun t => 0 <= tb_max_size t) (pl_tables pl)) as Hms by (eapply Forall_impl; [exact Hts|]; intros x Hx; destruct Hx as (_ & _ & _ & _ & _ & _ & _ & _ & ?); lia).
  rewrite E in Ht, Hms. apply Forall_app in Hms as [Ha [_ Hb]%Forall_cons]. rewrite fmap_app, sumZ_app in Ht. cbn [fmap list_fmap] in Ht. change (sumZ (?x :: ?l)) with (x + sumZ l) in Ht.
  assert (0 <= sumZ (tb_max_size <$> a) /\ 0 <= sumZ (tb_max_size <$> b)) as [Hsa Hsb] by (split; apply sumZ_nonneg; by apply Forall_fmap).
  rewrite fail_if_false by done. erewrite (walk_table_doc prog p Hlo) by first [done|exact (split_Forall _ _ _ _ _ Hts E)|exact (split_Forall _ _ _ _ _ Htl E)|lia].
  nx. rewrite unique_doc; [|apply read_nodes| |].
  2: { rewrite read_names, app_nil_r. unfold node_names in Hdistinct. rewrite E in Hdistinct. apply NoDup_app in Hdistinct as (Hd & _). rewrite fmap_app in Hd.
    apply NoDup_app in Hd as (_ & Hd & _). intros Hin. apply (Hd _ Hin). by left. }
  2: { intros j q Hj Hq. destruct (Hothers j q Hj Hq) as [Hq1 Hq2]. split; [done|]. apply Hq2. unfold node_names. rewrite E. set_solver. }
  nx. rewrite fail_if_false. 2: { cbn [read pl_tables]. rewrite existsb_fmap. apply (ids_new tb_id a t b). by rewrite <-E. }
  rewrite read_table, fmap_app, sumZ_app, Z.add_assoc. cbn [fmap list_fmap]. change (sumZ [?x]) with (x + 0). by rewrite Z.add_0_r.
Qed.
Lemma walk_conditional_doc a c b : pl_conditionals pl = a ++ c :: b ->
  p4_walk_conditional p pls slot (read (pl_tables pl) a) (conditional_doc prog pl c) = inr (read (pl_tables pl) (a ++ [c])).
Proof.
  intros E. destruct Hplo as (_ & _ & _ & _ & _ & Hcl & Hids & _). destruct (split_Forall _ _ _ _ _ Hcl E) as (Hn & Hi & He). unfold p4_walk_conditional, conditional_doc. rd.
  rewrite unique_doc; [|apply read_nodes| |].
  2: { rewrite read_names. unfold node_names in Hdistinct. rewrite E, fmap_app in Hdistinct. rewrite app_assoc in Hdistinct. apply NoDup_app in Hdistinct as (_ & Hd & _).
    intros Hin. apply (Hd _ Hin). by left. }
  2: { intros j q Hj Hq. destruct (Hothers j q Hj Hq) as [Hq1 Hq2]. split; [done|]. apply Hq2. unfold node_names. rewrite E. set_solver. }
  nx. rewrite fail_if_false. 2: { cbn [read pl_conditionals]. rewrite existsb_fmap. apply (ids_new cn_id a c b). by rewrite <-E. }
  rewrite (walk_condition_doc prog p Hlo) by done. nx. rewrite fail_if_false by done. rewrite read_cond. by destruct c.
Qed.
(** The pipeline whose nodes are all read has the names of the whole. *)
Lemma read_all_names n : node_name (read (pl_tables pl) (pl_conditionals pl)) n = node_name pl n.
Proof.
  destruct n as [i|i]; cbn [node_name read pl_tables pl_conditionals]; unfold elt; rewrite !list_lookup_total_alt, list_lookup_fmap.
  - by destruct (pl_tables pl !! Z.to_nat i).
  - by destruct (pl_conditionals pl !! Z.to_nat i).
Qed.
Lemma pl_nodes_list : nodes_list pl.
Proof. apply Hplo. Qed.
Lemma node_count : (length (pl_nodes pl) <= P4_MAX_NODES)%nat.
Proof.
  rewrite (nodes_length _ pl_nodes_list). destruct Hpok as (_ & _ & H1 & _), Hplo as (_ & _ & H2 & _). unfold P4_MAX_TABLES, P4_MAX_CONDITIONALS, P4_MAX_NODES in *. lia.
Qed.
Lemma node_names_ok : Forall (fun n => name_ok (node_name pl n)) (pl_nodes pl).
Proof.
  apply (Forall_fmap (node_name pl) name_ok). rewrite (nodes_named _ pl_nodes_list). destruct Hplo as (_ & _ & _ & Htl & _ & Hcl & _). apply Forall_app. split; apply Forall_fmap.
  - eapply Forall_impl; [exact Htl|]. by intros t [? _].
  - eapply Forall_impl; [exact Hcl|]. by intros c [? _].
Qed.
Lemma next_read i : next_in (Z.of_nat (length (pl_nodes pl))) i -> p4_resolve_next (read (pl_tables pl) (pl_conditionals pl)) (Some (pl_next pl i)) = inr i.
Proof.
  apply resolve_next_doc; [|exact read_all_names| |exact node_names_ok|exact node_count].
  - symmetry. exact pl_nodes_list.
  - by rewrite (nodes_named _ pl_nodes_list).
Qed.
Lemma next_table_doc a t b : pl_tables pl = a ++ t :: b ->
  p4_next_table p (read (pl_tables pl) (pl_conditionals pl)) a (table0 t, table_doc prog pl t) = inr (a ++ [t]).
Proof.
  intros E. destruct Hpok as (_ & Hts & _), Hplo as (_ & _ & _ & Htl & _). unfold p4_next_table, table_doc. cbn [fst snd].
  erewrite (walk_next_doc prog p Hlo Htypes Hheaders Hactions pl); [done|symmetry; exact pl_nodes_list|exact read_all_names|by rewrite (nodes_named _ pl_nodes_list)|exact node_names_ok|exact node_count|reflexivity|reflexivity
    |exact (split_Forall _ _ _ _ _ Hts E)|exact (split_Forall _ _ _ _ _ Htl E)].
Qed.
Lemma next_conditional_doc a c b : pl_conditionals pl = a ++ c :: b ->
  p4_next_conditional (read (pl_tables pl) (pl_conditionals pl)) a (cond0 c, conditional_doc prog pl c) = inr (a ++ [c]).
Proof.
  intros E. destruct Hpok as (_ & _ & _ & Hc & _). destruct (split_Forall _ _ _ _ _ Hc E) as (_ & H1 & H2). unfold p4_next_conditional, conditional_doc. cbn [fst snd]. rd.
  rewrite !next_read by done. by destruct c.
Qed.
Lemma read_whole : (read (pl_tables pl) (pl_conditionals pl)) <| pl_tables := pl_tables pl |> <| pl_conditionals := pl_conditionals pl |> <| pl_init_node := pl_init_node pl |> = pl.
Proof.
  change (P4Pipeline (pl_name pl) (pl_id pl) (pl_init_node pl) ((NODE_TABLE <$> seqZ 0 (Z.of_nat (length (pl_tables pl)))) ++
    (NODE_CONDITIONAL <$> seqZ 0 (Z.of_nat (length (pl_conditionals pl))))) (pl_tables pl) (pl_conditionals pl) = pl). rewrite <-(pl_nodes_list : pl_nodes pl = _). by destruct pl.
Qed.
Lemma acyclic_doc : p4_check_acyclic pl = inr tt.
Proof.
  pose proof Hpok as (Hno & Hts & _ & Hcs & _ & Hac). apply check_acyclic_iff; [exact node_count| |done]. intros n m Hn Hm. eapply edges_next; [|done|done].
  split_and!; [done|done|]. eapply Forall_impl; [exact Hcs|]. by intros c [_ ?].
Qed.
Lemma walk_pipeline_doc total : 0 <= total -> total + sumZ (tb_max_size <$> pl_tables pl) <= P4_MAX_TOTAL_ENTRIES ->
  p4_walk_pipeline p pls slot total (pipeline_doc prog pl) (inhabitant <| pl_name := pl_name pl |>) = inr (pl, total + sumZ (tb_max_size <$> pl_tables pl)).
Proof.
  intros H0 Ht. pose proof Hpok as (Hno & Hts & Hlt & Hcs & Hinit & Hac). pose proof Hplo as (Hid & _ & Hlc & _ & _ & _ & _ & Hi1 & Hi2).
  unfold p4_walk_pipeline, pipeline_doc. rd. unfold p4_absent_or_empty. rd.
  rewrite (each_doc _ _ (fun l => (read l [], total + sumZ (tb_max_size <$> l))) (_, total)); [| |intros a t b E; by eapply walk_pl_table_doc].
  2: { cbn. by rewrite Z.add_0_r. }
  nx. rewrite (each_doc _ _ (fun l => read (pl_tables pl) l) (read (pl_tables pl) [])); [|done|intros a c b E; by eapply walk_conditional_doc]. nx.
  change (pl_tables (read _ _)) with (table0 <$> pl_tables pl). change (pl_conditionals (read _ _)) with (cond0 <$> pl_conditionals pl).
  rewrite !zip_fmap. rewrite (each_doc (p4_next_table p _) _ (fun l => l) []); [|done|intros a t b E; by eapply next_table_doc]. nx.
  rewrite (each_doc _ _ (fun l => l) []); [|done|intros a c b E; by eapply next_conditional_doc]. nx.
  set (q := (read _ _) <| pl_tables := _ |> <| pl_conditionals := _ |>). assert (q <| pl_init_node := pl_init_node pl |> = pl) as Hq by exact read_whole.
  assert (pl_nodes q = pl_nodes pl) as Hqn by (symmetry; exact pl_nodes_list). unfold p4_get_str. rewrite get_obj. cbn [obj_key String.eqb Ascii.eqb Bool.eqb]. nx. unfold pl_next, next_doc.
  destruct Hinit as [Hnone|Hi].
  - rewrite Hnone, Z.eqb_refl. cbn [p4_str_val p4_cstr mbind option_bind]. rewrite fail_if_false by (rewrite Hqn, Hi1 by done; done). rewrite <-Hnone, Hq. done.
  - destruct (find_node_doc pl q Hqn (fun n => eq_refl) ltac:(by rewrite (nodes_named _ pl_nodes_list)) node_count _ Hi) as [Hf Hne].
    rewrite Hne, str_val_name by exact (elt_Forall _ _ _ node_names_ok Hi). rewrite Hf, Hne, Hq. nx. rewrite acyclic_doc. done.
Qed.
End pipeline.

(** ** The whole *)
Section whole.
Context (prog p : p4_program) (Hlo : loadable prog).
Hypothesis Htypes : pg_header_types p = pg_header_types prog.
Hypothesis Hheaders : pg_headers p = pg_headers prog.
Hypothesis Hactions : pg_actions p = pg_actions prog.
Lemma walk_slot_doc pls seen total slot pl : pl ∈ pg_pipelines prog -> pl_name pl = chars (if bool_decide (slot = 0%nat) then "ingress" else "egress") ->
  (slot <= 1)%nat -> seen !!! slot = false -> pls !!! slot = inhabitant -> NoDup (node_names pl) ->
  (forall j q, j <> slot -> pls !! j = Some q -> nodes_list q /\ forall n, n ∈ node_names pl -> n ∉ node_names q) ->
  0 <= total -> total + sumZ (tb_max_size <$> pl_tables pl) <= P4_MAX_TOTAL_ENTRIES -> Forall (fun x => x.1 = true -> pl_id x.2 <> pl_id pl) (zip seen pls) ->
  p4_walk_slot p (pls, seen, total) (pipeline_doc prog pl) = inr (<[slot := pl]> pls, <[slot := true]> seen, total + sumZ (tb_max_size <$> pl_tables pl)).
Proof.
  intros Hin Hn Hs Hseen Hz Hd Ho H0 Ht Hid. destruct (po_pipelines _ (lo_ok _ Hlo)) as [Hp _]. destruct (lo_pipelines _ Hlo) as (_ & _ & Hl & _).
  rewrite Forall_forall in Hp, Hl. assert (name_ok (pl_name pl)) as Hname by (rewrite Hn; case_bool_decide; by apply word_name).
  unfold p4_walk_slot. change (is_object (pipeline_doc prog pl)) with true. nx. rewrite fail_if_false by done. assert (p4_get_str (pipeline_doc prog pl) "name" = Some (pl_name pl)) as -> by (by eapply get_str_name). nx.
  match goal with |- (need _ ?o ≫= _) = _ => replace o with (Some slot) by (rewrite Hn; case_bool_decide as E; [by rewrite E|destruct slot as [|[|]]; [done|done|lia]]) end.
  nx. rewrite Hseen, fail_if_false, Hz by done. erewrite (walk_pipeline_doc prog p Hlo) by (auto; done). nx. rewrite fail_if_false; [done|].
  apply existsb_none. eapply Forall_impl; [exact Hid|]. intros [b q] H. cbn in H |- *. destruct b; [|done]. apply Z.eqb_neq. by apply H.
Qed.
Lemma walk_pipelines_doc m : obj_key "pipelines" m = Some (arr (pipeline_doc prog) (pg_pipelines prog)) ->
  p4_walk_pipelines p (obj m) = inr (p <| pg_pipelines := pg_pipelines prog |>).
Proof.
  intros Hm. destruct (lo_pipelines _ Hlo) as (Hn & Hids & Hl & Hnd & Hmax). destruct (po_pipelines _ (lo_ok _ Hlo)) as [Hp Hlen].
  unfold p4_walk_pipelines. erewrite get_array_arr by (done || (rewrite Hlen; done)). nx.
  destruct (pg_pipelines prog) as [|a [|b [|? ?]]] eqn:E; try done. clear Hlen. cbn in Hn. injection Hn as Hna Hnb. cbn [fmap list_fmap].
  apply Forall_cons in Hp as [_ _], Hl as [Hla _]. cbn in Hnd. rewrite app_nil_r in Hnd. apply NoDup_app in Hnd as (Hda & Hdab & Hdb).
  cbn in Hmax. rewrite app_nil_r, fmap_app, sumZ_app in Hmax.
  assert (forall pl, pl ∈ [a; b] -> 0 <= sumZ (tb_max_size <$> pl_tables pl)) as Hpos.
  { intros pl Hpl. apply sumZ_nonneg, Forall_fmap. destruct (po_pipelines _ (lo_ok _ Hlo)) as [Hp _]. rewrite E, Forall_forall in Hp. destruct (Hp pl Hpl) as (_ & Hts & _).
    eapply Forall_impl; [exact Hts|]. intros t (_ & _ & _ & _ & _ & _ & _ & _ & ? & _). done. }
  pose proof (Hpos a ltac:(set_solver)). pose proof (Hpos b ltac:(set_solver)). cbn [each].
  rewrite (walk_slot_doc _ _ _ 0%nat a); [|rewrite E; set_solver|done|lia|done|done|done| |lia|lia|].
  2: { intros [|[|j]] q Hj Hq; try done. injection Hq as <-. split; [done|]. intros n _ []%elem_of_nil. }
  2: { by repeat apply Forall_cons_2; [..|apply Forall_nil_2]. }
  nx. rewrite (walk_slot_doc _ _ _ 1%nat b); [|rewrite E; set_solver|done|lia|done|done|done| |lia|lia|].
  2: { intros [|[|j]] q Hj Hq; try done. injection Hq as <-. split; [apply Hla|]. intros n Hn Hn'. by apply (Hdab n). }
  2: { apply Forall_cons_2; [|by apply Forall_cons_2; [|apply Forall_nil_2]]. intros _. cbn. intros He. cbn in Hids. apply NoDup_cons in Hids as [Hids _]. apply Hids. rewrite He. by left. }
  done.
Qed.
End whole.

(** The program a walk starts from, as the record it is. *)
Ltac flat_in walk := match goal with |- context [walk ?P] => let P' := eval lazy in P in change P with P' end.
Section load.
Context {TK : Tokener}.
Lemma parse_document prog buf : loadable prog ->
  (1 <= length buf)%nat -> Z.of_nat (length buf) <= P4_PROGRAM_MAX -> p4_json_cost buf <= P4_JSON_MAX_COST ->
  json_tokener_parse_ex buf = TokOut (document prog) TOK_SUCCESS (Z.of_nat (length buf)) -> p4_json_parse true true buf = inr prog.
Proof.
  intros Hlo H1 H2 H3 Htok. unfold p4_json_parse. rewrite Htok. cbn [to_root to_error to_parse_end]. 
  rewrite fail_if_false by (apply orb_false_iff, conj; [apply Z.eqb_neq|apply Z.ltb_ge]; lia). rewrite fail_if_false by (apply Z.ltb_ge; lia). rewrite fail_if_false by done.
  rewrite fail_if_false by done. rewrite fail_if_false by done. rewrite fail_if_false by (by rewrite Z.eqb_refl). rewrite fail_if_false by done.
  replace (p4_check_meta (document prog)) with (inr tt : result unit) by done. nx.
  replace (p4_check_unsupported (document prog)) with (inr tt : result unit).
  2: { unfold p4_check_unsupported, document, p4_unsupported_keys, p4_absent_or_empty. cbn [forallb]. rewrite !get_obj. done. }
  nx. rewrite fail_if_false by done. unfold document.
  erewrite walk_types_doc by done. nx. flat_in p4_walk_headers. erewrite (walk_headers_doc prog) by done. nx.
  flat_in p4_layout_phv. erewrite (layout_doc prog) by done. nx.
  flat_in p4_resolve_std_metadata. erewrite (std_doc prog) by done. nx.
  flat_in p4_walk_parser. erewrite (walk_parser_doc prog) by done. nx. flat_in p4_walk_deparser. erewrite (walk_deparser_doc prog) by done. nx.
  flat_in p4_resolve_rdma_metadata. erewrite (rdma_doc prog) by done. nx.
  flat_in p4_walk_externs. erewrite (walk_externs_doc prog) by done. nx. flat_in p4_walk_actions. erewrite (walk_actions_doc prog) by done. nx.
  flat_in p4_walk_pipelines. erewrite (walk_pipelines_doc prog) by done. by destruct prog.
Qed.
(** C12: every program the loader can accept has a document that says it: if
    json-c reads the text as that document, and the text is within the
    loader's limits, the loader returns the program it was written from. *)
Theorem document_loads prog buf : loadable prog ->
  (1 <= length buf)%nat -> Z.of_nat (length buf) <= P4_PROGRAM_MAX -> p4_json_cost buf <= P4_JSON_MAX_COST ->
  json_tokener_parse_ex buf = TokOut (document prog) TOK_SUCCESS (Z.of_nat (length buf)) -> p4_json_parse true true buf = inr prog.
Proof. apply parse_document. Qed.
End load.

(** A tokener that reads every text as the document of [px]. *)
Definition px_tokener : Tokener := fun b => TokOut (document px) TOK_SUCCESS (Z.of_nat (length b)).
Lemma px_loadable : loadable px.
Proof. apply (@parse_loadable px_tokener true true (chars "{}")). by vm_compute. Qed.
Lemma document_loads_witness : loadable px /\ @p4_json_parse px_tokener true true (chars "{}") = inr px.
Proof.
  split; [exact px_loadable|]. apply (@document_loads px_tokener px (chars "{}")); [exact px_loadable|cbn; lia| | |reflexivity].
  - unfold P4_PROGRAM_MAX. cbn. lia.
  - by vm_compute.
Defined.
